(* ===== verification/_CoqProject ===== *)
-Q . S2P
Prelude.v
CString.v
ServerId.v
DomSid.v
SecModel.v
AccessProps.v
GuidText.v
SecDesc.v
SecDescProps.v
SecInherit.v
Sddl.v
SecInheritProps.v
AdInheritProps.v
SddlProps.v
Bitmap.v
Smb2Credits.v
Smb2Window.v
Smb2Compound.v
Fnmatch.v
Lzxpress.v
LzxProps.v
ShareModel.v
ShareView.v
ShareOps.v
ShareGrant.v
ShareOpen.v
ShareReach.v
ShareDelete.v
ShareProps.v
Errmap.v
FileAccess.v
FileAccessProps.v
PosixAcl.v
PosixAclFile.v
PosixAclProps.v
PosixAclClosed.v
PosixAclRound.v
PosixAclFileProps.v
PosixAclWire.v
BrlModel.v
BrlSafety.v
BrlPosix.v
BrlReach.v
BrlProps.v
BrlDb.v
PosixModel.v
PosixProps.v
PosixReach.v
GLockModel.v
GLock.v
Iconv.v
IconvProps.v
ConvString.v
ConvProps.v
Des.v
DesProps.v
Netlogon.v
NetlogonProps.v
Idtree.v
IdtreeProps.v
IdtreeAlloc.v
IdtreeMap.v
