(* ===== verification/Prelude.v ===== *)
(** * A verification development for Samba

    Samba is a file, print and directory server for SMB clients. This library
    models the parts of it whose correctness does not lie in I/O: the tables,
    decision procedures, window counters and codecs that the server processes
    consult on every request. Each file translates C functions of [src/] into
    executable definitions with the names of the source, and proves what these
    functions promise to their callers.

    ** The parts and how they interact

    smbd keeps for every open file a share mode record in locking.tdb, with one
    entry per open and the table of leases, and a byte-range lock table in
    brlock.tdb. Every open checks its access and sharing against the entries,
    breaks the oplocks and leases in its way and is then entered with what it was
    granted; every lock, unlock, close and durable reconnect goes through the
    records too. Entries and locks name their owner by a server id. An open is
    preceded by an access check of the user's token against the security
    descriptor of the file, in which users and groups are SIDs; where the file
    system has POSIX ACLs the descriptor is made from them and turned into them when
    it is set, and administrators write descriptors as text. The SMB2 transport decides which
    message ids and how many credits a client may use before a request reaches a
    handler, and splits compound requests. Directory searches filter names with
    the wildcard matcher. Every name on the wire goes through the character set
    conversions. RPC and replication use NDR and LZ Xpress encodings.

    ** Files

    - [Prelude]: machine integers, byte strings, NTSTATUS codes, the automation
      and generic lemmas. [CString]: the number parsing and printing of the C
      library that the SID parser uses.
    - [ServerId]: lib/util/server_id.c.
    - [DomSid]: libcli/security/dom_sid.c, a SID as a record with the 15
      sub-authorities of the C struct.
    - [SecModel], [AccessProps]: libcli/security/access_check.c, privileges.c,
      security_token.c, object_tree.c and the GUID comparison of librpc/ndr/uuid.c;
      the model and its properties.
    - [SecDesc], [SecDescProps]: libcli/security/security_descriptor.c, secace.c,
      secacl.c and the constructors of secdesc.c: building, comparing, editing and
      sorting descriptors, with their properties.
    - [SecInherit], [SecInheritProps], [AdInheritProps]: the descriptor of a new file
      (libcli/security/secdesc.c, [inherit_new_acl] of source3/smbd/open.c) and of a
      new directory object (libcli/security/create_descriptor.c).
    - [GuidText]: the text of GUIDs (librpc/ndr/uuid.c, lib/util/util_str_hex.c).
      [Sddl], [SddlProps]: libcli/security/sddl.c, descriptors as text: decoder and
      encoder, and their properties.
    - [Bitmap], [Smb2Credits], [Smb2Window], [Smb2Compound]: lib/util/bitmap.c and
      source3/smbd/smb2_server.c: the sequence window with its bitmap, the
      granting of credits and the framing of compound requests. The state
      [credits] is [xconn->smb2.credits].
    - [Fnmatch]: lib/util/ms_fnmatch.c with the codepoint comparison of
      lib/util/charset.
    - [Lzxpress], [LzxProps]: lib/compression/lzxpress.c.
    - [ShareModel], [ShareView], [ShareOps], [ShareGrant], [ShareOpen],
      [ShareReach], [ShareDelete], [ShareProps]: source3/locking/locking.c, the
      part of source3/smbd/open.c that runs under the share mode lock,
      source3/smbd/oplock.c, and what source3/smbd/durable.c and
      source3/locking/share_mode_lock.c do to the record. [ShareModel] has the
      record and all operations, in a state monad with a log of messages;
      [ShareView] the Hoare triples of this monad and the view of a record as a
      list of opens, each with its lease; [ShareOps], [ShareGrant] and [ShareOpen]
      what the operations do in this view; [ShareReach] the reachable records and
      their invariant; [ShareDelete] the delete tokens; [ShareProps] the claims.
    - [Errmap]: the errno to NTSTATUS table of source3/lib/errmap_unix.c, used by
      the lock code.
    - [FileAccess], [FileAccessProps]: the checks that smbd makes on a file, its
      parent and its descriptor (source3/smbd/open.c, file_access.c, nttrans.c) and
      on print jobs (source3/printing/nt_printing.c).
    - [PosixAcl], [PosixAclFile], [PosixAclProps], [PosixAclClosed],
      [PosixAclRound], [PosixAclFileProps], [PosixAclWire]: source3/smbd/posix_acls.c.
      [PosixAcl] has the lists of canonical entries that a DACL is turned into and
      the POSIX ACL made of them; [PosixAclFile] the stored flags, the way from a
      POSIX ACL to a descriptor, [set_nt_acl] with a log of the calls it makes, and
      changes of mode; [PosixAclProps] what merging and the passes over deny entries
      do; [PosixAclClosed] the access check of POSIX ACLs and what it grants on the
      result; [PosixAclRound] reading and setting again; [PosixAclFileProps] the
      flags and the calls; [PosixAclWire] the ACL requests of the UNIX extensions
      (also source3/smbd/trans2.c) and default ACLs.
    - [BrlModel], [BrlSafety], [BrlPosix], [BrlReach], [BrlProps], [BrlDb]:
      source3/locking/brlock.c. [BrlModel] has the lock structures and the
      operations on one table, [BrlSafety] the overlap and split arithmetic and the
      scans, [BrlPosix] the byte map of POSIX locks, [BrlReach] the reachable
      tables, [BrlProps] the claims, [BrlDb] the record layer of brlock.tdb.
    - [PosixModel], [PosixProps], [PosixReach]: source3/locking/posix.c, the system
      locks below the table: the model; the range arithmetic and what the calls do to
      the locks of the kernel; the composition with brlock.c and the claims.
    - [GLockModel], [GLock]: source3/lib/g_lock.c, the named locks of the server
      processes: the model with its record format, and the properties.
    - [Iconv], [IconvProps]: lib/util/charset/iconv.c, the conversions between
      character sets and the loop that joins two of them through UTF-16.
    - [ConvString], [ConvProps]: lib/util/charset/convert_string.c and the handles
      and single characters of lib/util/charset/codepoints.c.
    - [Des], [DesProps]: libcli/auth/smbdes.c, DES on arrays of bits and its uses, and
      libcli/auth/session.c, secrets under a session key.
    - [Netlogon], [NetlogonProps]: libcli/auth/credentials.c, the credential chain of
      the netlogon channel and the encryption in logon requests, with arcfour and the
      CFB8 mode of lib/crypto, and libcli/auth/schannel_state_tdb.c, the store of the
      server. The AES block cipher, MD5 and the keyed hashes are arbitrary functions.
    - [Idtree], [IdtreeProps], [IdtreeAlloc], [IdtreeMap]: lib/util/idtree.c, the
      radix trees that give out ids: the model with layers as values and the array of
      layers on the way down as a path; trees and paths; the walk that finds a free
      id; growing, removal and the map that the tree implements.

    ** How the code is rendered

    C integers are [Z] with the wrap of their width written out ([u16], [u32],
    [u64], [i32]); an operation that panics, fails an assertion, divides by zero
    or accesses memory outside a buffer is [None]; error codes are values of
    [NTSTATUS]; what the code asks of its surroundings (allocation, the process
    table, configuration, fcntl) is a field of an environment record; messages and
    system calls that change nothing in the model are returned as event lists.
    Arrays that are searched in order are lists, the lock database is a finite map.

    ** What the theorems show

    - Byte-range locks: in every table reachable by the operations, with any 64-bit
      numbers but for locks that end exactly at 2^64, no two granted locks conflict;
      POSIX locks and unlocks change the byte map of their owner exactly as asked and
      their arrays are large enough; closing a handle drops its locks; a durable handle gets its locks back; waiters are woken.
    - System locks: on every run of Windows locks, unlocks and closes the kernel
      holds for a process at least what the table says whatever system calls fail,
      and exactly that where unlocking, downgrading and allocations succeed; no
      descriptor is closed while locks depend on it. Assumed of the system: its
      errors are not those that posix.c takes for 32-bit file systems, and there is
      memory for split ranges.
    - Global locks: the operations on the stored bytes implement a readers-writer
      lock with data; on every run live holders exclude each other as they should.
    - Share modes: in every record that the operations can produce no two opens
      conflict, a write lease or exclusive oplock is alone with the opens of its
      lease (without memory failures and where leases are named only with oplocks on;
      an open that breaks this is shown), entries and leases fit together; closing removes one open and nothing
      else; a lease break that is completed has reached what was asked for; opens
      do not panic (with the one exception that is shown to panic); a pending
      deletion stops opens.
    - Server ids: text and wire form are read back.
    - SIDs: parsing and printing are inverse, parsed SIDs are well formed, equality
      is equality of the strings, domain and RID compose and split.
    - Access checks: each of the three checks is characterised by the first entry
      of the ACL that has a bit; MAXIMUM_ALLOWED is exact; generic mapping;
      privilege tables.
    - Security descriptors: the canonical order decides independently of the sort
      routine for lists without object denials; a new file's descriptor decides as the inheritable entries of its
      parent; inheritance goes through directories; directory objects keep explicit
      before inherited entries and specific rights; what a deletion really deletes.
    - Access to files: which requests are granted, from the share, the file, its
      directory and the options; a computed maximum passes the check.
    - SDDL: descriptors that the text can express are read back and decide as the
      original; the forms that are not are shown.
    - POSIX ACLs: an ACL that is set grants users other than the owner no more than
      the DACL, is valid, and reading and setting it again changes nobody's access;
      the cases in which denied rights are granted are excluded by hypotheses and
      shown to fail. Calls as root have one of the grounds that the code tests.
      Stored flags are read back. The UNIX extensions read nothing outside the data
      of a request, with one exception in the removal of an ACL, and set what they have reported.
    - SMB2: no message id is accepted twice, the window refines a set of ids, the
      client always has a credit, compound parsing tiles the buffer.
    - File names: the memo array of the matcher is only an optimisation and the
      matcher implements the meaning of the wildcards.
    - Character sets: UTF-8 and UTF-16 are converted into each other exactly as the
      encodings are defined, the chunks of the general case and the fast path for
      ASCII change nothing, and single characters are read back as written.
    - DES and session secrets: the backward direction of the cipher undoes the forward
      one, a secret is read back, and short keys are shown to be read beyond their end.
    - Netlogon: client and server with one password stay in step through any number of
      calls; an accepted authenticator is refused at the next call, but for
      one with the last time stamp, and a refusal changes
      nothing in the store; secrets in logon requests are read back; a challenge is found
      only under its name. A chain of zeros that needs no password is shown.
    - Id trees: a run of operations answers as a finite map does that gives out the
      first free id; the cases in which the code does not are excluded by hypotheses
      and shown to fail.
    - LZ Xpress: the round trip with a bound on the buffer, and termination.
    - Some theorems and lemmas show where the code fails its purpose (overlap at
      2^64, order of SIDs, reads beyond a buffer); they are listed as findings.

    ** Fuel

    Loops that are not structural have fuel with its bound at the definition, and
    the theorems that mention them prove a result, so the fuel is enough: the
    window advances at most [seq_range] times, a parsed SID has at most 15
    sub-authorities, the loops that remove stale share mode entries and delete tokens
    look at each entry once, each turn of the LZ Xpress loops, of the compound parser
    of the SDDL decoder and of the loop of [smb_iconv] consumes input, merging and masking
    never lengthen a list of ACL entries and each pass over deny entries moves an entry at
    most once, each turn of the loop over a secret takes input, and a
    walk through an id tree goes up at most seven times.

    ** Not modelled

    Network and file-system I/O, process management, the event loop, talloc, the
    on-disk format of tdb, block ciphers other than DES and hashes, the generated NDR code, the directory
    server, winbindd, nmbd, printing, the tools and the tests. Of the
    open code: file-system calls, deferred opens and the compatibility opens that
    share a handle, which do not change the record; they enter by their outcome.
    Of the POSIX ACL code: id maps, group membership and the calls of the file system,
    which are arguments, and the NDR blobs of ACLs. Of the
    netlogon code: marshalling, which is an argument with its laws, copies, and locking
    of the record. The primitives of NDR are used only through generated code. *)

From Stdlib Require Import ZArith Lia.
From stdpp Require Import prelude list.

#[local] Open Scope Z_scope.

(** ** Machine integers

    An unsigned C integer of width [w] is a [Z] in [0 .. 2^w); the results of
    C operators that may leave that range are wrapped explicitly. *)

Definition u8 (z : Z) : Z := z mod 2 ^ 8.
Definition u16 (z : Z) : Z := z mod 2 ^ 16.
Definition u32 (z : Z) : Z := z mod 2 ^ 32.
Definition u64 (z : Z) : Z := z mod 2 ^ 64.

(** A value converted to a signed 32-bit [int]. *)
Definition i32 (z : Z) : Z := (z + 2 ^ 31) mod 2 ^ 32 - 2 ^ 31.

(** [in_w w z]: [z] is a value of the unsigned [w]-bit type. *)
Definition in_w (w z : Z) : Prop := 0 <= z < 2 ^ w.

(** [x & ~m], the mask-clearing idiom of the C code. *)
Definition clear_bits (x m : Z) : Z := Z.ldiff x m.

(** [(x & m) != 0], the C truth value of a mask test. *)
Definition has_bits (x m : Z) : bool := negb (Z.land x m =? 0).

(** ** Little-endian byte strings

    A byte is a [Z] in [0 .. 256).  [le_bytes n z] are the [n] bytes the macros
    SSVAL, SIVAL and SBVAL store, [le_value] is what SVAL, IVAL and BVAL read
    back. *)

Fixpoint le_bytes (n : nat) (z : Z) : list Z :=
  match n with
  | O => []
  | S n => z mod 256 :: le_bytes n (z / 256)
  end.

Fixpoint le_value (bs : list Z) : Z :=
  match bs with
  | [] => 0
  | b :: bs => b + 256 * le_value bs
  end.

(** Big-endian, as RSSVAL, RSIVAL and the NDR big-endian flag. *)
Definition be_bytes (n : nat) (z : Z) : list Z := rev (le_bytes n z).
Definition be_value (bs : list Z) : Z := le_value (rev bs).

Definition is_byte (b : Z) : Prop := 0 <= b < 256.

(** ** NTSTATUS

    The codes of libcli/util/ntstatus_err_table.txt the modelled code uses. *)

Definition NTSTATUS : Type := Z.
Definition NT_STATUS_OK : NTSTATUS := 0x00000000.
Definition NT_STATUS_INVALID_PARAMETER : NTSTATUS := 0xC000000D.
Definition NT_STATUS_NO_MEMORY : NTSTATUS := 0xC0000017.
Definition NT_STATUS_ACCESS_DENIED : NTSTATUS := 0xC0000022.
Definition NT_STATUS_UNSUCCESSFUL : NTSTATUS := 0xC0000001.
Definition NT_STATUS_SHARING_VIOLATION : NTSTATUS := 0xC0000043.
Definition NT_STATUS_INSUFFICIENT_RESOURCES : NTSTATUS := 0xC000009A.
Definition NT_STATUS_OBJECT_NAME_NOT_FOUND : NTSTATUS := 0xC0000034.
Definition NT_STATUS_FILE_LOCK_CONFLICT : NTSTATUS := 0xC0000054.
Definition NT_STATUS_LOCK_NOT_GRANTED : NTSTATUS := 0xC0000055.
Definition NT_STATUS_PRIVILEGE_NOT_HELD : NTSTATUS := 0xC0000061.
Definition NT_STATUS_INVALID_LOCK_RANGE : NTSTATUS := 0xC00001A1.
Definition NT_STATUS_IS_OK (s : NTSTATUS) : bool := s =? 0.

(** ** Pairwise properties of tables

    [pairwise R l]: every element is related to every later one. *)

Fixpoint pairwise {A : Type} (R : A -> A -> Prop) (l : list A) : Prop :=
  match l with
  | [] => True
  | x :: r => Forall (R x) r /\ pairwise R r
  end.

(** ** Automation *)

Create HintDb samba.

(** Turns the boolean tests of the code into propositions. *)
Ltac boolify :=
  repeat match goal with
  | H : andb _ _ = true |- _ => apply andb_true_iff in H; destruct H
  | H : orb _ _ = false |- _ => apply orb_false_iff in H; destruct H
  | H : negb _ = true |- _ => apply negb_true_iff in H
  | H : negb _ = false |- _ => apply negb_false_iff in H
  | H : (_ =? _) = true |- _ => apply Z.eqb_eq in H
  | H : (_ =? _) = false |- _ => apply Z.eqb_neq in H
  | H : (_ <=? _) = true |- _ => apply Z.leb_le in H
  | H : (_ <=? _) = false |- _ => apply Z.leb_gt in H
  | H : (_ <? _) = true |- _ => apply Z.ltb_lt in H
  | H : (_ <? _) = false |- _ => apply Z.ltb_ge in H
  | H : bool_decide _ = true |- _ => apply bool_decide_eq_true in H
  | H : bool_decide _ = false |- _ => apply bool_decide_eq_false in H
  end.

(** Splits on the innermost conditionals and matches of the goal. *)
Ltac case_if :=
  match goal with
  | |- context [if ?b then _ else _] =>
      lazymatch b with context [if _ then _ else _] => fail | _ => destruct b eqn:? end
  | H : context [if ?b then _ else _] |- _ =>
      lazymatch b with context [if _ then _ else _] => fail | _ => destruct b eqn:? end
  end.

(** ** Lemmas on machine integers *)

Lemma u64_id (z : Z) : in_w 64 z -> u64 z = z.
Proof. intros H. apply Z.mod_small. exact H. Qed.

Lemma u64_range (z : Z) : in_w 64 (u64 z).
Proof. apply Z.mod_pos_bound. lia. Qed.

Lemma u32_id (z : Z) : in_w 32 z -> u32 z = z.
Proof. intros H. apply Z.mod_small. exact H. Qed.

Lemma u32_range (z : Z) : in_w 32 (u32 z).
Proof. apply Z.mod_pos_bound. lia. Qed.

Lemma u16_id (z : Z) : in_w 16 z -> u16 z = z.
Proof. intros H. apply Z.mod_small. exact H. Qed.

Lemma u16_range (z : Z) : in_w 16 (u16 z).
Proof. apply Z.mod_pos_bound. lia. Qed.

Lemma u8_id (z : Z) : in_w 8 z -> u8 z = z.
Proof. intros H. apply Z.mod_small. exact H. Qed.

Lemma i32_id (z : Z) : - 2 ^ 31 <= z < 2 ^ 31 -> i32 z = z.
Proof. intros H. unfold i32. rewrite Z.mod_small; lia. Qed.

Lemma i32_zero (a b : Z) : in_w 32 a -> in_w 32 b -> i32 (a - b) = 0 -> a = b.
Proof.
  unfold i32, in_w. intros Ha Hb H.
  assert ((a - b + 2 ^ 31) mod 2 ^ 32 = 2 ^ 31) as Hm by lia.
  pose proof (Z.div_mod (a - b + 2 ^ 31) (2 ^ 32) ltac:(lia)). nia.
Qed.

Lemma u8_range (z : Z) : in_w 8 (u8 z).
Proof. apply Z.mod_pos_bound. lia. Qed.

#[export] Hint Resolve u64_range u32_range u16_range u8_range : samba.

(** ** Lemmas on bits *)

Lemma bit_of_word (w k : Z) : 0 <= k -> has_bits w (Z.shiftl 1 k) = Z.testbit w k.
Proof.
  intros Hk. unfold has_bits. rewrite Z.shiftl_1_l.
  destruct (Z.testbit w k) eqn:E.
  - apply negb_true_iff, Z.eqb_neq. intros H. apply (f_equal (fun z => Z.testbit z k)) in H.
    by rewrite Z.land_spec, E, Z.pow2_bits_true, Z.bits_0 in H by lia.
  - apply negb_false_iff, Z.eqb_eq, Z.bits_inj_0. intros i. rewrite Z.land_spec.
    destruct (Z.eq_dec i k) as [->|Hne]; [by rewrite E|].
    rewrite Z.pow2_bits_false by lia. apply andb_false_r.
Qed.

(** Flag tests on combined flags. *)
Lemma has_bits_or (x y m : Z) : has_bits (Z.lor x y) m = has_bits x m || has_bits y m.
Proof.
  unfold has_bits. rewrite Z.land_lor_distr_l, <- negb_andb. f_equal.
  apply eq_iff_eq_true. rewrite andb_true_iff, !Z.eqb_eq. apply Z.lor_eq_0_iff.
Qed.

Lemma has_bits_mask (x m n : Z) : has_bits x (Z.lor m n) = has_bits x m || has_bits x n.
Proof. unfold has_bits. rewrite !(Z.land_comm x). apply has_bits_or. Qed.

Lemma has_bits_clear (x m n : Z) : Z.land m n = 0 -> has_bits (clear_bits x m) n = has_bits x n.
Proof.
  intros H. unfold has_bits, clear_bits. do 2 f_equal. apply Z.bits_inj. intros i.
  rewrite !Z.land_spec, Z.ldiff_spec. pose proof (f_equal (fun z => Z.testbit z i) H) as Hi.
  cbv beta in Hi. rewrite Z.land_spec, Z.bits_0 in Hi.
  by destruct (Z.testbit x i), (Z.testbit m i), (Z.testbit n i).
Qed.

Lemma has_bits_cleared (x m : Z) : has_bits (clear_bits x m) m = false.
Proof.
  unfold has_bits, clear_bits. apply negb_false_iff, Z.eqb_eq. apply Z.bits_inj. intros i.
  rewrite Z.land_spec, Z.ldiff_spec, Z.bits_0. by destruct (Z.testbit x i), (Z.testbit m i).
Qed.

Lemma testbit_shift_one (k b : Z) : 0 <= k -> 0 <= b -> Z.testbit (Z.shiftl 1 k) b = (b =? k).
Proof.
  intros Hk Hb. rewrite Z.shiftl_1_l. destruct (Z.eqb_spec b k) as [->|Hne].
  - by apply Z.pow2_bits_true.
  - by apply Z.pow2_bits_false; lia.
Qed.

Lemma in_w_bits (w z : Z) :
  0 <= w -> in_w w z <-> 0 <= z /\ forall i, w <= i -> Z.testbit z i = false.
Proof.
  intros Hw. unfold in_w. split.
  - intros [H0 H1]. split; [done|]. intros i Hi.
    destruct (Z.eq_dec z 0) as [->|]; [apply Z.bits_0|].
    apply Z.bits_above_log2; [done|]. apply Z.log2_lt_pow2; [lia|].
    apply Z.lt_le_trans with (2 ^ w); [done|]. by apply Z.pow_le_mono_r.
  - intros [H0 H]. split; [done|]. destruct (Z.eq_dec z 0) as [->|]; [by apply Z.pow_pos_nonneg|].
    apply Z.log2_lt_pow2; [lia|]. apply Z.nle_gt. intros Hle.
    specialize (H _ Hle). by rewrite Z.bit_log2 in H by lia.
Qed.

(** Bits above those of a second number. *)
Lemma land_disjoint a b n : 0 <= n -> 0 <= b < 2 ^ n -> Z.land (a * 2 ^ n) b = 0.
Proof.
  intros Hn Hb. apply Z.bits_inj'. intros k Hk. rewrite Z.land_spec, Z.bits_0. destruct (Z.ltb_spec k n).
  - by rewrite Z.mul_pow2_bits_low by lia.
  - rewrite (proj2 (proj1 (in_w_bits n b Hn) Hb) k) by lia. apply andb_false_r.
Qed.

Lemma lor_disjoint a b n : 0 <= n -> 0 <= b < 2 ^ n -> Z.lor (a * 2 ^ n) b = a * 2 ^ n + b.
Proof. intros Hn Hb. symmetry. by apply Z.add_nocarry_lor, land_disjoint. Qed.

Lemma lxor_disjoint a b n : 0 <= n -> 0 <= b < 2 ^ n -> Z.lxor (a * 2 ^ n) b = a * 2 ^ n + b.
Proof. intros Hn Hb. symmetry. by apply Z.add_nocarry_lxor, land_disjoint. Qed.

Lemma land_255 x : Z.land x 0xFF = x mod 256.
Proof. change 0xFF with (Z.ones 8). by rewrite Z.land_ones. Qed.

Lemma Forall_by_forallb {A} (P : A -> Prop) (f : A -> bool) l :
  (forall x, f x = true -> P x) -> forallb f l = true -> Forall P l.
Proof. intros H Hf. apply Forall_forall. intros x Hx. apply H. by apply (proj1 (forallb_forall f l) Hf), list_elem_of_In. Qed.

(** Checks of all values below a bound. *)
Lemma forall_below (n : nat) (f : Z -> bool) :
  forallb (fun i => f (Z.of_nat i)) (seq 0 n) = true -> forall z, 0 <= z < Z.of_nat n -> f z = true.
Proof.
  intros H z Hz. rewrite forallb_forall in H. rewrite <- (Z2Nat.id z) by lia. apply H, in_seq. lia.
Qed.

Lemma forall_below2 (n m : nat) (f : Z -> Z -> bool) :
  forallb (fun i => forallb (fun j => f (Z.of_nat i) (Z.of_nat j)) (seq 0 m)) (seq 0 n) = true ->
  forall x y, 0 <= x < Z.of_nat n -> 0 <= y < Z.of_nat m -> f x y = true.
Proof.
  intros H x y Hx. revert y. apply forall_below.
  apply (forall_below n (fun x => forallb (fun j => f x (Z.of_nat j)) (seq 0 m))); [exact H | exact Hx].
Qed.

(** ** Lemmas on byte strings *)

Lemma length_le_bytes (n : nat) (z : Z) : length (le_bytes n z) = n.
Proof. revert z. induction n as [|n IH]; intros z; simpl; [done|]. by rewrite IH. Qed.

Lemma length_be_bytes (n : nat) (z : Z) : length (be_bytes n z) = n.
Proof. unfold be_bytes. by rewrite length_rev, length_le_bytes. Qed.

Lemma le_value_bytes (n : nat) (z : Z) : le_value (le_bytes n z) = z mod 256 ^ Z.of_nat n.
Proof.
  revert z. induction n as [|n IH]; intros z; [by rewrite Z.mod_1_r|].
  cbn [le_bytes le_value]. rewrite IH, Nat2Z.inj_succ, Z.pow_succ_r by lia.
  rewrite Z.rem_mul_r by lia. lia.
Qed.

Lemma le_roundtrip (n : nat) (z : Z) :
  0 <= z < 256 ^ Z.of_nat n -> le_value (le_bytes n z) = z.
Proof. intros H. rewrite le_value_bytes. by apply Z.mod_small. Qed.

Lemma be_roundtrip (n : nat) (z : Z) :
  0 <= z < 256 ^ Z.of_nat n -> be_value (be_bytes n z) = z.
Proof. intros H. unfold be_value, be_bytes. rewrite rev_involutive. by apply le_roundtrip. Qed.

Lemma le_bytes_bytes (n : nat) (z : Z) : Forall is_byte (le_bytes n z).
Proof.
  revert z. induction n as [|n IH]; intros z; simpl; constructor; [|done].
  apply Z.mod_pos_bound. lia.
Qed.

Lemma le_value_bound (bs : list Z) :
  Forall is_byte bs -> 0 <= le_value bs < 256 ^ Z.of_nat (length bs).
Proof.
  induction 1 as [|b bs Hb _ IH]; [simpl; lia|]. cbn [le_value length].
  rewrite Nat2Z.inj_succ, Z.pow_succ_r by lia. unfold is_byte in Hb. lia.
Qed.

Lemma le_bytes_value (bs : list Z) :
  Forall is_byte bs -> le_bytes (length bs) (le_value bs) = bs.
Proof.
  induction 1 as [|b bs Hb _ IH]; [done|]. cbn [le_bytes le_value length].
  unfold is_byte in Hb. f_equal.
  - rewrite Z.mul_comm, Z.mod_add by lia. apply Z.mod_small. lia.
  - replace ((b + 256 * le_value bs) / 256) with (le_value bs); [done|].
    rewrite Z.mul_comm, Z.div_add, Z.div_small by lia. lia.
Qed.

Lemma le_bytes_app_take (n : nat) (z : Z) (bs : list Z) : take n (le_bytes n z ++ bs) = le_bytes n z.
Proof. rewrite <- (length_le_bytes n z) at 1. apply take_app_length. Qed.

Lemma le_bytes_app_drop (n : nat) (z : Z) (bs : list Z) : drop n (le_bytes n z ++ bs) = bs.
Proof. rewrite <- (length_le_bytes n z) at 1. apply drop_app_length. Qed.

(** ** Lemmas on [pairwise] *)

Section Pairwise.
Context {A : Type} (R : A -> A -> Prop).

Lemma pairwise_app (l k : list A) :
  pairwise R (l ++ k) <-> pairwise R l /\ pairwise R k /\ Forall (fun x => Forall (R x) k) l.
Proof.
  induction l as [|x l IH]; simpl.
  - split; [auto using Forall_nil_2 | tauto].
  - rewrite IH, Forall_app, Forall_cons. tauto.
Qed.

Lemma pairwise_sublist (l k : list A) : sublist l k -> pairwise R k -> pairwise R l.
Proof.
  induction 1 as [|x l k Hs IH|x l k Hs IH]; simpl; [done| |tauto].
  intros [Hx Hk]. split; [|auto].
  rewrite Forall_forall in *. intros y Hy. apply Hx.
  by apply (elem_of_sublist l).
Qed.

Lemma pairwise_mono (S : A -> A -> Prop) (l : list A) :
  (forall x y, x ∈ l -> y ∈ l -> R x y -> S x y) -> pairwise R l -> pairwise S l.
Proof.
  induction l as [|x l IH]; simpl; [done|]. intros HS [Hx Hl]. split.
  - rewrite Forall_forall in *. intros y Hy.
    apply HS; [left | by right | auto].
  - apply IH; [|done]. intros a b Ha Hb. apply HS; by right.
Qed.

Lemma pairwise_permutation (l k : list A) :
  (forall x y, R x y -> R y x) -> l ≡ₚ k -> pairwise R l -> pairwise R k.
Proof.
  intros Hsym. induction 1 as [|x l k Hp IH|x y l|l1 l2 l3 _ IH1 _ IH2]; simpl; auto.
  - intros [Hx Hl]. split; [|auto]. by rewrite <- Hp.
  - rewrite !Forall_cons. intros [[Hyx Hy] [Hx Hl]]. auto.
Qed.
End Pairwise.

(** Filtering by a boolean predicate respects permutations. *)
#[export] Instance filter_bool_proper {A : Type} (p : A -> bool) :
  Proper (Permutation ==> Permutation) (List.filter p).
Proof.
  induction 1 as [|x l k _ IH|x y l|l1 l2 l3 _ IH1 _ IH2]; simpl; [done| | |by etrans].
  - destruct (p x); [by rewrite IH|done].
  - destruct (p x), (p y); try done. apply perm_swap.
Qed.

#[global] Arguments le_bytes : simpl never.
#[global] Arguments le_value : simpl never.
