(* ===== verification/CString.v ===== *)
(** * C strings and numbers

    What the modelled code uses of C strings: a NUL-terminated string is the
    list of its character codes (its NUL is the end of the list, so reading the
    first character of the empty list gives 0), [isdigit], the number readers
    [strtoul] and [strtoull] and the [%u] and [%x] conversions of [snprintf]. *)

From S2P Require Import Prelude.
From stdpp Require Import prelude list strings.

#[local] Open Scope Z_scope.

Definition ULONG_MAX : Z := 0xFFFFFFFFFFFFFFFF.

(** The character at the start of the string. *)
Definition peek (s : list Z) : Z := hd 0 s.

Definition isdigit (c : Z) : bool := (0x30 <=? c) && (c <=? 0x39).

(** The value of [c] as a digit of a base up to 16. *)
Definition digit_value (c : Z) : option Z :=
  if isdigit c then Some (c - 0x30)
  else if (0x61 <=? c) && (c <=? 0x66) then Some (c - 0x61 + 10)
  else if (0x41 <=? c) && (c <=? 0x46) then Some (c - 0x41 + 10)
  else None.

Definition base_digit (base c : Z) : option Z :=
  match digit_value c with
  | Some d => if d <? base then Some d else None
  | None => None
  end.

(** Reads the longest run of digits of the base. *)
Fixpoint scan_number (base acc : Z) (s : list Z) : Z * list Z :=
  match s with
  | [] => (acc, [])
  | c :: rest =>
      match base_digit base c with
      | Some d => scan_number base (acc * base + d) rest
      | None => (acc, s)
      end
  end.

Definition saturate (r : Z * list Z) : Z * list Z := (Z.min r.1 ULONG_MAX, r.2).

(** [strtoul] and [strtoull] with base 10, at a digit; both types have 64
    bits, and a value that does not fit gives the maximum. *)
Definition strtoull_10 (s : list Z) : Z * list Z := saturate (scan_number 10 0 s).

(** [strtoull] with base 0, at a digit: the prefix gives the base. *)
Definition strtoull_0 (s : list Z) : Z * list Z :=
  match s with
  | 0x30 :: c :: d :: rest =>
      if ((c =? 0x78) || (c =? 0x58)) && bool_decide (is_Some (base_digit 16 d))
      then saturate (scan_number 16 0 (d :: rest))
      else saturate (scan_number 8 0 s)
  | 0x30 :: _ => saturate (scan_number 8 0 s)
  | _ => saturate (scan_number 10 0 s)
  end.

Definition digit_char (d : Z) : Z := if d <? 10 then 0x30 + d else 0x61 + (d - 10).

(** The digits of [n], most significant first; the fuel bounds their number. *)
Fixpoint print_number (fuel : nat) (base n : Z) : list Z :=
  match fuel with
  | O => [digit_char n]
  | S fuel => if n <? base then [digit_char n]
              else print_number fuel base (n / base) ++ [digit_char (n mod base)]
  end.

(** [%u], [%lu] and [%lx] of a value below 2^64: 20 decimal or 16 hexadecimal
    digits are enough. *)
Definition print_dec (n : Z) : list Z := print_number 19 10 n.
Definition print_hex (n : Z) : list Z := print_number 15 16 n.

(** A string literal of the source. *)
Definition c_string (s : string) : list Z :=
  (fun a => Z.of_N (Ascii.N_of_ascii a)) <$> String.list_ascii_of_string s.

(** [%0<width>x]: padded with zeros on the left. *)
Definition print_hex_pad (width : nat) (n : Z) : list Z :=
  replicate (width - length (print_hex n)) 0x30 ++ print_hex n.

(** [strncmp(p, s, strlen(p)) == 0]. *)
Fixpoint starts_with (p s : list Z) : bool :=
  match p with
  | [] => true
  | c :: p => (c =? peek s) && starts_with p (tail s)
  end.

(** ** Hexadecimal bytes *)

(** One character of the loop of [read_hex_bytes]. *)
Definition hex_digit (c : Z) : option Z :=
  if (0x30 <=? c) && (c <=? 0x39) then Some (c - 0x30)
  else if (0x61 <=? c) && (c <=? 0x66) then Some (c - 0x61 + 10)
  else if (0x41 <=? c) && (c <=? 0x46) then Some (c - 0x41 + 10)
  else None.

Fixpoint hex_loop (hexchars : nat) (s : list Z) (x : Z) : option Z :=
  match hexchars with
  | O => Some x
  | S hexchars => match hex_digit (peek s) with
                  | Some d => hex_loop hexchars (tail s) (u64 (u64 (Z.shiftl x 4) + d))
                  | None => None
                  end
  end.

Definition read_hex_bytes (s : list Z) (hexchars : nat) : option Z :=
  if Nat.odd hexchars || (16 <? hexchars)%nat then None else hex_loop hexchars s 0.

(** ** Lemmas *)

Lemma div_pow_bound (base n : Z) (k : nat) :
  0 < base -> 0 <= n < base ^ (Z.of_nat (S k) + 1) -> 0 <= n / base < base ^ (Z.of_nat k + 1).
Proof.
  intros Hb Hn. split; [apply Z.div_pos; lia|]. apply Z.div_lt_upper_bound; [lia|].
  replace (Z.of_nat (S k) + 1) with (Z.succ (Z.of_nat k + 1)) in Hn by lia.
  rewrite Z.pow_succ_r in Hn by lia. lia.
Qed.

Lemma digit_char_value (base d : Z) :
  0 <= d < base -> base <= 16 -> base_digit base (digit_char d) = Some d.
Proof.
  intros Hd Hb. unfold base_digit, digit_char, digit_value, isdigit.
  destruct (Z.ltb_spec d 10).
  - rewrite !(proj2 (Z.leb_le _ _)) by lia. simpl. replace (48 + d - 48) with d by lia.
    by rewrite (proj2 (Z.ltb_lt d base)) by lia.
  - rewrite (proj2 (Z.leb_gt (97 + (d - 10)) 57)) by lia.
    rewrite !(proj2 (Z.leb_le _ _)) by lia. simpl. replace (97 + (d - 10) - 97 + 10) with d by lia.
    by rewrite (proj2 (Z.ltb_lt d base)) by lia.
Qed.

Lemma scan_number_app (base acc : Z) (s rest : list Z) :
  Forall (fun c => is_Some (base_digit base c)) s ->
  scan_number base acc (s ++ rest) = scan_number base (scan_number base acc s).1 rest.
Proof.
  intros Hs. revert acc. induction Hs as [|c s [d Hd] _ IH]; intros acc; simpl; [done|].
  by rewrite Hd.
Qed.

Lemma print_number_digits (fuel : nat) (base n : Z) :
  2 <= base <= 16 -> 0 <= n < base ^ (Z.of_nat fuel + 1) ->
  Forall (fun c => is_Some (base_digit base c)) (print_number fuel base n) /\
  forall acc, (scan_number base acc (print_number fuel base n)).1 =
    acc * base ^ Z.of_nat (length (print_number fuel base n)) + n.
Proof.
  intros Hb. revert n. induction fuel as [|fuel IH]; intros n Hn; simpl.
  { rewrite Z.add_0_l, Z.pow_1_r in Hn. pose proof (digit_char_value base n ltac:(lia) ltac:(lia)) as H.
    split; [apply Forall_singleton; by eexists|]. intros acc. simpl. rewrite H. simpl.
    change (Z.of_nat 1) with 1. by rewrite Z.pow_1_r. }
  destruct (Z.ltb_spec n base).
  { pose proof (digit_char_value base n ltac:(lia) ltac:(lia)) as Hd.
    split; [apply Forall_singleton; by eexists|]. intros acc. simpl. rewrite Hd. simpl.
    change (Z.of_nat 1) with 1. by rewrite Z.pow_1_r. }
  assert (0 <= n / base < base ^ (Z.of_nat fuel + 1)) as Hq by (apply div_pow_bound; lia).
  destruct (IH _ Hq) as [Hall Hval].
  pose proof (Z.mod_pos_bound n base ltac:(lia)) as Hm.
  pose proof (digit_char_value base (n mod base) Hm ltac:(lia)) as Hd.
  split; [apply Forall_app; split; [done|apply Forall_singleton; by eexists]|].
  intros acc. rewrite scan_number_app by done. simpl. rewrite Hd. simpl. rewrite Hval, length_app.
  simpl. rewrite Nat2Z.inj_add, Z.pow_add_r by lia. change (Z.of_nat 1) with 1. rewrite Z.pow_1_r.
  pose proof (Z.div_mod n base ltac:(lia)). lia.
Qed.

(** The string does not go on with a digit of the base. *)
Definition stops (base : Z) (rest : list Z) : Prop := base_digit base (peek rest) = None.

Lemma scan_stops (base acc : Z) (rest : list Z) : stops base rest -> scan_number base acc rest = (acc, rest).
Proof. destruct rest as [|c rest]; simpl; [done|]. unfold stops. simpl. by intros ->. Qed.

(** Reading back what was printed. *)
Lemma scan_print (fuel : nat) (base n : Z) (rest : list Z) :
  2 <= base <= 16 -> 0 <= n < base ^ (Z.of_nat fuel + 1) -> stops base rest ->
  scan_number base 0 (print_number fuel base n ++ rest) = (n, rest).
Proof.
  intros Hb Hn Hr. destruct (print_number_digits fuel base n Hb Hn) as [Hall Hval].
  rewrite scan_number_app, Hval, scan_stops by done. done.
Qed.

Lemma strtoull_10_print (n : Z) (rest : list Z) :
  in_w 64 n -> stops 10 rest -> strtoull_10 (print_dec n ++ rest) = (n, rest).
Proof.
  intros Hn Hr. unfold strtoull_10, print_dec, in_w, saturate in *.
  rewrite scan_print; [|lia|change (Z.of_nat 19 + 1) with 20; lia|done].
  cbn [fst snd]. f_equal. unfold ULONG_MAX. lia.
Qed.

Lemma length_print_number (fuel k : nat) (base n : Z) :
  2 <= base -> 0 <= n < base ^ (Z.of_nat k + 1) -> (length (print_number fuel base n) <= k + 1)%nat.
Proof.
  intros Hb. revert k n. induction fuel as [|fuel IH]; intros k n Hn; simpl; [lia|].
  destruct (Z.ltb_spec n base); simpl; [lia|]. rewrite length_app. simpl.
  destruct k as [|k]; [rewrite Z.add_0_l, Z.pow_1_r in Hn; lia|].
  enough (length (print_number fuel base (n / base)) <= k + 1)%nat by lia. apply IH.
  apply div_pow_bound; lia.
Qed.

(** The first character printed. *)
Lemma print_number_head (fuel : nat) (base n : Z) :
  2 <= base <= 16 -> 0 <= n < base ^ (Z.of_nat fuel + 1) ->
  exists d t, print_number fuel base n = digit_char d :: t /\ 0 <= d < base /\
    (n <> 0 -> d <> 0) /\ (n = 0 -> t = []).
Proof.
  intros Hb. revert n. induction fuel as [|fuel IH]; intros n Hn; simpl.
  { rewrite Z.add_0_l, Z.pow_1_r in Hn. by exists n, []. }
  destruct (Z.ltb_spec n base); [by exists n, []; repeat split; try lia|].
  assert (0 <= n / base < base ^ (Z.of_nat fuel + 1)) as Hq by (apply div_pow_bound; lia).
  destruct (IH _ Hq) as (d & t & -> & Hd & Hnz & _). exists d, (t ++ [digit_char (n mod base)]).
  split_and!; try done; try lia. intros _. apply Hnz.
  pose proof (Z.div_le_lower_bound n base 1 ltac:(lia) ltac:(lia)). lia.
Qed.

(** ** Reading back what was printed in hexadecimal *)

Lemma scan_number_ge (base acc : Z) (s : list Z) :
  1 <= base -> 0 <= acc -> acc <= (scan_number base acc s).1.
Proof.
  intros Hb. revert acc. induction s as [|c s IH]; intros acc Ha; simpl; [lia|].
  unfold base_digit. destruct (digit_value c) as [d|] eqn:E; [|simpl; lia].
  destruct (d <? base); [|simpl; lia].
  assert (0 <= d) by (unfold digit_value, isdigit in E; repeat case_if; simplify_eq; boolify; lia).
  specialize (IH (acc * base + d)). nia.
Qed.

Lemma hex_loop_scan (s rest : list Z) (x : Z) :
  Forall (fun c => is_Some (base_digit 16 c)) s -> 0 <= x -> (scan_number 16 x s).1 < 2 ^ 64 ->
  hex_loop (length s) (s ++ rest) x = Some (scan_number 16 x s).1.
Proof.
  intros Hs. revert x. induction Hs as [|c s [d Hd] _ IH]; intros x Hx Hb; simpl; [done|].
  simpl in Hb. rewrite Hd in Hb |- *.
  assert (hex_digit c = Some d /\ 0 <= d) as [-> Hd0].
  { unfold base_digit in Hd. change (hex_digit c) with (digit_value c).
    destruct (digit_value c) as [e|] eqn:E; [|done]. case_if; simplify_eq. split; [done|].
    unfold digit_value, isdigit in E. repeat case_if; simplify_eq; boolify; lia. }
  pose proof (scan_number_ge 16 (x * 16 + d) s ltac:(lia) ltac:(lia)) as Hge.
  replace (u64 (u64 (Z.shiftl x 4) + d)) with (x * 16 + d); [by apply IH; lia|].
  unfold u64. rewrite Z.shiftl_mul_pow2 by lia. change (2 ^ 4) with 16.
  rewrite (Z.mod_small (x * 16)), Z.mod_small by lia. done.
Qed.

(** What [%0<width>x] prints of a value that fits the width. *)
Lemma print_hex_pad_spec (width : nat) (n : Z) :
  (1 <= width <= 16)%nat -> 0 <= n < 16 ^ Z.of_nat width ->
  length (print_hex_pad width n) = width /\
  Forall (fun c => is_Some (base_digit 16 c)) (print_hex_pad width n) /\
  (scan_number 16 0 (print_hex_pad width n)).1 = n.
Proof.
  intros Hw Hn. unfold print_hex_pad, print_hex.
  assert (0 <= n < 16 ^ (Z.of_nat 15 + 1)) as Hn16.
  { split; [lia|]. eapply Z.lt_le_trans; [apply Hn|]. apply Z.pow_le_mono_r; lia. }
  pose proof (length_print_number 15 (width - 1) 16 n ltac:(lia)) as Hl.
  replace (Z.of_nat (width - 1) + 1) with (Z.of_nat width) in Hl by lia. specialize (Hl Hn).
  destruct (print_number_digits 15 16 n ltac:(lia) Hn16) as [Hd Hv].
  assert (forall k, (scan_number 16 0 (replicate k 0x30)).1 = 0) as Hz by (induction k; done).
  assert (forall k, Forall (fun c => is_Some (base_digit 16 c)) (replicate k 0x30)) as Hr
    by (intros k; apply Forall_replicate; by eexists).
  split_and!.
  - rewrite length_app, length_replicate. lia.
  - by apply Forall_app.
  - rewrite scan_number_app, Hz, Hv by done. lia.
Qed.

Lemma read_print_hex (width : nat) (n : Z) (rest : list Z) :
  (1 <= width <= 16)%nat -> Nat.odd width = false -> 0 <= n < 16 ^ Z.of_nat width ->
  read_hex_bytes (print_hex_pad width n ++ rest) width = Some n.
Proof.
  intros Hw Ho Hn. destruct (print_hex_pad_spec width n Hw Hn) as (Hl & Hd & Hv).
  unfold read_hex_bytes. rewrite Ho, (proj2 (Nat.ltb_ge _ _)) by lia. cbn [orb].
  rewrite <- Hl at 1. rewrite hex_loop_scan; [by rewrite Hv|done|lia|].
  rewrite Hv. eapply Z.lt_le_trans; [apply Hn|]. change (2 ^ 64) with (16 ^ 16). apply Z.pow_le_mono_r; lia.
Qed.
