(* ===== verification/ServerId.v ===== *)
(** * Server identities

    lib/util/server_id.c: the process ids that locks, share modes and messages
    carry, their text and wire forms. [sscanf] is modelled for the conversions
    the parser uses. *)

From S2P Require Import Prelude.
From S2P Require Import CString.
From stdpp Require Import prelude list countable.

#[local] Open Scope Z_scope.

Record server_id := Server_id {
  pid : Z;        (** hyper *)
  task_id : Z;    (** uint32 *)
  vnn : Z;        (** uint32 *)
  unique_id : Z   (** hyper *)
}.

#[export] Instance server_id_eq_dec : EqDecision server_id.
Proof. solve_decision. Defined.

#[export] Instance server_id_countable : Countable server_id.
Proof.
  apply (inj_countable' (fun i => (pid i, task_id i, vnn i, unique_id i)) (fun '(p, t, v, u) => Server_id p t v u)).
  by intros [].
Defined.

Definition NONCLUSTER_VNN : Z := 0xFFFFFFFF.
Definition SERVERID_UNIQUE_ID_NOT_TO_VERIFY : Z := 0xFFFFFFFFFFFFFFFF.
Definition UINT64_MAX : Z := 0xFFFFFFFFFFFFFFFF.
Definition UINT32_MAX : Z := 0xFFFFFFFF.

Definition server_id_same_process (p1 p2 : server_id) : bool :=
  (pid p1 =? pid p2) && (vnn p1 =? vnn p2).

Definition server_id_equal (p1 p2 : server_id) : bool :=
  if negb (server_id_same_process p1 p2) then false
  else if negb (task_id p1 =? task_id p2) then false
  else if negb (unique_id p1 =? unique_id p2) then false
  else true.

Definition server_id_set_disconnected : server_id :=
  Server_id UINT64_MAX UINT32_MAX NONCLUSTER_VNN SERVERID_UNIQUE_ID_NOT_TO_VERIFY.

Definition server_id_is_disconnected (id : server_id) : bool :=
  server_id_equal id server_id_set_disconnected.

(** ** Text *)

Definition colon : Z := 0x3A.
Definition dot : Z := 0x2E.
Definition slash : Z := 0x2F.

(** The string [disconnected]. *)
Definition disconnected_str : list Z :=
  [0x64; 0x69; 0x73; 0x63; 0x6F; 0x6E; 0x6E; 0x65; 0x63; 0x74; 0x65; 0x64].

(** The buffer has 48 bytes, more than any of the forms needs. *)
Definition server_id_str_buf (id : server_id) : list Z :=
  if server_id_is_disconnected id then disconnected_str
  else if (vnn id =? NONCLUSTER_VNN) && (task_id id =? 0) then print_dec (pid id)
  else if vnn id =? NONCLUSTER_VNN then print_dec (pid id) ++ dot :: print_dec (task_id id)
  else if task_id id =? 0 then print_dec (vnn id) ++ colon :: print_dec (pid id)
  else print_dec (vnn id) ++ colon :: print_dec (pid id) ++ dot :: print_dec (task_id id).

(** The text written to a buffer of [buflen] bytes, [None] when it is too
    small, and the size that is needed. *)
Definition server_id_str_buf_unique (id : server_id) (buflen : Z) : option (list Z) * Z :=
  let idbuf := server_id_str_buf id in
  let unique_buf := print_dec (unique_id id) in
  let needed := Z.of_nat (length idbuf) + Z.of_nat (length unique_buf) + 2 in
  (if needed <=? buflen then Some (idbuf ++ slash :: unique_buf) else None, needed).

(** A format of [sscanf]: an unsigned decimal conversion of a width, or a
    character. *)
Inductive directive := Num (w : Z) | Chr (c : Z).

Definition isspace (c : Z) : bool := (c =? 0x20) || ((9 <=? c) && (c <=? 13)).

Fixpoint skip_space (s : list Z) : list Z :=
  match s with
  | c :: rest => if isspace c then skip_space rest else s
  | [] => []
  end.

Definition scan_unsigned (w : Z) (s : list Z) : option (Z * list Z) :=
  let s := skip_space s in
  let '(neg, s) := if peek s =? 0x2D then (true, tail s)
                   else if peek s =? 0x2B then (false, tail s) else (false, s) in
  if isdigit (peek s) then
    let '(v, rest) := scan_number 10 0 s in
    let v := if ULONG_MAX <? v then ULONG_MAX else if neg : bool then u64 (- v) else v in
    Some (v mod 2 ^ w, rest)
  else None.

(** The converted values; their number is the result of [sscanf]. *)
Fixpoint sscanf (fmt : list directive) (s : list Z) : list Z :=
  match fmt with
  | [] => []
  | Num w :: fmt =>
      match scan_unsigned w s with
      | Some (v, rest) => v :: sscanf fmt rest
      | None => []
      end
  | Chr c :: fmt => if peek s =? c then sscanf fmt (tail s) else []
  end.

Definition server_id_templ : server_id := Server_id UINT64_MAX 0 NONCLUSTER_VNN 0.

(** One of the attempts: [ret == n] and the result it stores. *)
Definition attempt (fmt : list directive) (s : list Z) (n : nat) (f : list Z -> server_id)
    : option server_id :=
  let vals := sscanf fmt s in if (length vals =? n)%nat then Some (f vals) else None.

Definition or_else {A : Type} (x : option A) (y : A) : A :=
  match x with Some a => a | None => y end.

Definition server_id_from_string (local_vnn : Z) (s : list Z) : server_id :=
  let arg (vals : list Z) (i : nat) := nth i vals 0 in
  or_else (attempt [Num 32; Chr colon; Num 64; Chr dot; Num 32; Chr slash; Num 64] s 4
             (fun l => Server_id (arg l 1%nat) (arg l 2%nat) (arg l 0%nat) (arg l 3%nat))) (
  or_else (attempt [Num 32; Chr colon; Num 64; Chr dot; Num 32] s 3
             (fun l => Server_id (arg l 1%nat) (arg l 2%nat) (arg l 0%nat) 0)) (
  or_else (attempt [Num 32; Chr colon; Num 64; Chr slash; Num 64] s 3
             (fun l => Server_id (arg l 1%nat) 0 (arg l 0%nat) (arg l 2%nat))) (
  or_else (attempt [Num 32; Chr colon; Num 64] s 2
             (fun l => Server_id (arg l 1%nat) 0 (arg l 0%nat) 0)) (
  or_else (attempt [Num 64; Chr dot; Num 32; Chr slash; Num 64] s 3
             (fun l => Server_id (arg l 0%nat) (arg l 1%nat) local_vnn (arg l 2%nat))) (
  or_else (attempt [Num 64; Chr dot; Num 32] s 2
             (fun l => Server_id (arg l 0%nat) (arg l 1%nat) local_vnn 0)) (
  or_else (attempt [Num 64; Chr slash; Num 64] s 2
             (fun l => Server_id (arg l 0%nat) 0 local_vnn (arg l 1%nat))) (
  or_else (attempt [Num 64] s 1 (fun l => Server_id (arg l 0%nat) 0 local_vnn 0)) (
  if bool_decide (s = disconnected_str) then server_id_set_disconnected
  else server_id_templ)))))))).

(** ** The wire form *)

Definition server_id_put (id : server_id) : list Z :=
  le_bytes 8 (pid id) ++ le_bytes 4 (task_id id) ++ le_bytes 4 (vnn id) ++ le_bytes 8 (unique_id id).

Definition server_id_get (buf : list Z) : server_id :=
  Server_id (le_value (take 8 buf)) (le_value (take 4 (drop 8 buf)))
            (le_value (take 4 (drop 12 buf))) (le_value (take 8 (drop 16 buf))).

(** ** Lemmas *)

(** The fields are values of their types. *)
Definition server_id_ok (id : server_id) : Prop :=
  in_w 64 (pid id) /\ in_w 32 (task_id id) /\ in_w 32 (vnn id) /\ in_w 64 (unique_id id).

Lemma server_id_equal_spec p1 p2 : server_id_equal p1 p2 = true <-> p1 = p2.
Proof.
  unfold server_id_equal, server_id_same_process. destruct p1, p2. simpl. split.
  - repeat case_if; intros; boolify; try done. by subst.
  - intros [= -> -> -> ->]. by rewrite !Z.eqb_refl.
Qed.

Lemma print_dec_head n rest :
  in_w 64 n -> exists c t, print_dec n ++ rest = c :: t /\ isdigit c = true.
Proof.
  intros Hn. destruct (print_number_head 19 10 n) as (d & t & E & Hd & _ & _);
    [lia|unfold in_w in Hn; change (Z.of_nat 19 + 1) with 20; lia|].
  exists (digit_char d), (t ++ rest). unfold print_dec. rewrite E. split; [done|].
  unfold digit_char, isdigit. rewrite (proj2 (Z.ltb_lt d 10)) by lia.
  apply andb_true_iff. rewrite !Z.leb_le. lia.
Qed.

Lemma isdigit_not_space c : isdigit c = true -> isspace c = false /\ (c =? 0x2D) = false /\ (c =? 0x2B) = false.
Proof.
  unfold isdigit, isspace. rewrite andb_true_iff, !Z.leb_le. intros H.
  rewrite orb_false_iff, andb_false_iff, !Z.eqb_neq, Z.leb_gt, Z.leb_gt. lia.
Qed.

Lemma scan_unsigned_print w n rest :
  in_w 64 n -> stops 10 rest -> scan_unsigned w (print_dec n ++ rest) = Some (n mod 2 ^ w, rest).
Proof.
  intros Hn64 Hr.
  destruct (print_dec_head n rest Hn64) as (c & t & E & Hc).
  assert (Hscan : scan_number 10 0 (c :: t) = (n, rest)).
  { rewrite <- E. apply scan_print; [lia|unfold in_w in Hn64; change (Z.of_nat 19 + 1) with 20; lia|done]. }
  rewrite E. destruct (isdigit_not_space c Hc) as (H1 & H2 & H3).
  unfold scan_unsigned. cbn [skip_space]. rewrite H1. cbn [peek hd]. rewrite H2, H3.
  cbn [peek hd]. rewrite Hc, Hscan. unfold ULONG_MAX, in_w in *.
  by rewrite (proj2 (Z.ltb_ge _ n)) by lia.
Qed.

Lemma sscanf_num w fmt n rest :
  in_w 64 n -> stops 10 rest ->
  sscanf (Num w :: fmt) (print_dec n ++ rest) = n mod 2 ^ w :: sscanf fmt rest.
Proof. intros. cbn [sscanf]. by rewrite scan_unsigned_print. Qed.

Lemma sscanf_num_end w fmt n :
  in_w 64 n -> sscanf (Num w :: fmt) (print_dec n) = n mod 2 ^ w :: sscanf fmt [].
Proof. intros. rewrite <- (app_nil_r (print_dec n)) at 1. by apply sscanf_num. Qed.

Lemma sscanf_chr c fmt rest : sscanf (Chr c :: fmt) (c :: rest) = sscanf fmt rest.
Proof. cbn [sscanf peek hd tail]. by rewrite Z.eqb_refl. Qed.

Lemma sscanf_chr_ne c d fmt rest : (d =? c) = false -> sscanf (Chr c :: fmt) (d :: rest) = [].
Proof. cbn [sscanf peek hd]. by intros ->. Qed.

Lemma sscanf_chr_end c fmt : (0 =? c) = false -> sscanf (Chr c :: fmt) [] = [].
Proof. cbn [sscanf peek hd]. by intros ->. Qed.

Lemma stops_nil : stops 10 [].
Proof. done. Qed.

Lemma stops_cons c rest : isdigit c = false -> c < 0x41 -> stops 10 (c :: rest).
Proof.
  unfold stops, base_digit, digit_value. simpl. intros -> Hc.
  rewrite (proj2 (Z.leb_gt 0x61 c)), (proj2 (Z.leb_gt 0x41 c)) by lia. done.
Qed.

Lemma sscanf_nil fmt : sscanf [] fmt = [].
Proof. done. Qed.

(** Evaluates the attempts of the parser on printed numbers. *)
Ltac run_sscanf :=
  repeat first
    [ rewrite sscanf_nil
    | rewrite sscanf_num by (first [done | by apply stops_cons])
    | rewrite sscanf_num_end by done
    | rewrite sscanf_chr
    | rewrite sscanf_chr_ne by reflexivity
    | rewrite sscanf_chr_end by reflexivity ].

(** The four forms of a number with and without a unique id. *)
Lemma parse_forms local p t v u :
  in_w 64 p -> in_w 32 t -> in_w 32 v -> in_w 64 u ->
  let P := print_dec p in let T := dot :: print_dec t in
  let V := print_dec v in let U := slash :: print_dec u in
  server_id_from_string local P = Server_id p 0 local 0 /\
  server_id_from_string local (P ++ U) = Server_id p 0 local u /\
  server_id_from_string local (P ++ T) = Server_id p t local 0 /\
  server_id_from_string local (P ++ T ++ U) = Server_id p t local u /\
  server_id_from_string local (V ++ colon :: P) = Server_id p 0 v 0 /\
  server_id_from_string local (V ++ colon :: P ++ U) = Server_id p 0 v u /\
  server_id_from_string local (V ++ colon :: P ++ T) = Server_id p t v 0 /\
  server_id_from_string local (V ++ colon :: P ++ T ++ U) = Server_id p t v u.
Proof.
  intros Hp Ht Hv Hu P T V U.
  assert (in_w 64 t /\ in_w 64 v) as [Ht64 Hv64] by (unfold in_w in *; lia).
  assert (Hmod : p mod 2 ^ 64 = p /\ t mod 2 ^ 32 = t /\ v mod 2 ^ 32 = v /\ u mod 2 ^ 64 = u)
    by (unfold in_w in *; repeat split; apply Z.mod_small; done).
  destruct Hmod as (Ep & Et & Ev & Eu).
  unfold server_id_from_string, attempt, P, T, V, U. rewrite <- ?app_comm_cons.
  repeat split; run_sscanf; cbn [length Nat.eqb or_else nth]; by rewrite ?Ep, ?Et, ?Ev, ?Eu.
Qed.

(** What a printed id is read back as: the number of the local node stands in
    for the missing one. *)
Definition reread (local : Z) (id : server_id) (unique : Z) : server_id :=
  Server_id (pid id) (task_id id) (if vnn id =? NONCLUSTER_VNN then local else vnn id) unique.

Lemma server_id_get_put id rest : server_id_ok id -> server_id_get (server_id_put id ++ rest) = id.
Proof.
  intros (Hp & Ht & Hv & Hu). unfold server_id_get, server_id_put, in_w in *. destruct id. cbn [pid task_id vnn unique_id] in *.
  change (Server_id (le_value (le_bytes 8 pid0)) (le_value (le_bytes 4 task_id0))
            (le_value (le_bytes 4 vnn0)) (le_value (le_bytes 8 unique_id0)) =
          Server_id pid0 task_id0 vnn0 unique_id0).
  by rewrite !le_roundtrip by done.
Qed.

Lemma length_server_id_put id : length (server_id_put id) = 24%nat.
Proof. unfold server_id_put. by rewrite !length_app, !length_le_bytes. Qed.

(** ** Properties *)

(** Server ids survive their text and wire forms: the parser reads what the
    two printers write, except that the node number of an id outside a cluster
    becomes the local one and the short form has no unique id; the 24 byte wire
    form is read back exactly. *)
Theorem server_id_roundtrips (local buflen : Z) (id : server_id) :
  server_id_ok id -> server_id_is_disconnected id = false ->
  server_id_from_string local (server_id_str_buf id) = reread local id 0 /\
  (forall text, (server_id_str_buf_unique id buflen).1 = Some text ->
     server_id_from_string local text = reread local id (unique_id id)) /\
  server_id_get (server_id_put id) = id.
Proof.
  intros (Hp & Ht & Hv & Hu) Hd.
  destruct (parse_forms local (pid id) (task_id id) (vnn id) (unique_id id) Hp Ht Hv Hu)
    as (H1 & H2 & H3 & H4 & H5 & H6 & H7 & H8).
  unfold server_id_str_buf_unique, server_id_str_buf, reread. rewrite Hd. cbn [fst].
  split; [|split].
  - destruct (Z.eqb_spec (vnn id) NONCLUSTER_VNN), (Z.eqb_spec (task_id id) 0) as [E|];
      cbn [andb]; rewrite ?E; done.
  - intros text. destruct (_ <=? buflen); intros [= <-].
    destruct (Z.eqb_spec (vnn id) NONCLUSTER_VNN), (Z.eqb_spec (task_id id) 0) as [E|];
      cbn [andb]; rewrite ?E; rewrite <- ?app_assoc, <- ?app_comm_cons, <- ?app_assoc; done.
  - rewrite <- (app_nil_r (server_id_put id)). by apply server_id_get_put.
Qed.

Lemma server_id_roundtrips_witness :
  server_id_from_string 3 (server_id_str_buf (Server_id 42 7 5 99)) = Server_id 42 7 5 0.
Proof.
  apply (server_id_roundtrips 3 0 (Server_id 42 7 5 99)); [|reflexivity].
  unfold server_id_ok, in_w. simpl. lia.
Defined.

(** The form with the unique id does not work for the id of a disconnected
    client: it is read as an invalid id. *)
Lemma disconnected_unique_not_reread :
  (server_id_str_buf_unique server_id_set_disconnected 48).1 =
    Some (disconnected_str ++ slash :: print_dec UINT64_MAX) /\
  server_id_from_string 0 (disconnected_str ++ slash :: print_dec UINT64_MAX) = server_id_templ.
Proof. split; vm_compute; reflexivity. Qed.
