(* ===== verification/DomSid.v ===== *)
(** * Security identifiers

    libcli/security/dom_sid.c: comparison, domains and RIDs, and the string
    form. A pointer argument that may be NULL is an [option]; the test for the
    same pointer is covered by the comparison of the values. *)

From S2P Require Import Prelude.
From S2P Require Import CString.
From stdpp Require Import prelude list.

#[local] Open Scope Z_scope.

(** [struct dom_sid]: [id_auth] has 6 bytes and [sub_auths] 15 entries, of
    which [num_auths] are in use. *)
Record dom_sid := Dom_sid {
  sid_rev_num : Z;
  num_auths : Z;
  id_auth : list Z;
  sub_auths : list Z
}.

Definition SID_MAX_AUTHS : Z := 15.

#[export] Instance dom_sid_eq_dec : EqDecision dom_sid.
Proof. solve_decision. Defined.

(** ** Comparison *)

(** The difference at the first position where two arrays differ. *)
Fixpoint first_difference (a b : list Z) : Z :=
  match a, b with
  | x :: a, y :: b => if x =? y then first_difference a b else x - y
  | _, _ => 0
  end.

Definition compare_auth (sid1 sid2 : dom_sid) : Z :=
  if sid_rev_num sid1 =? sid_rev_num sid2
  then first_difference (id_auth sid1) (id_auth sid2)
  else sid_rev_num sid1 - sid_rev_num sid2.

Definition with_nulls (cmp : dom_sid -> dom_sid -> Z) (sid1 sid2 : option dom_sid) : Z :=
  match sid1, sid2 with
  | None, None => 0
  | None, Some _ => -1
  | Some _, None => 1
  | Some a, Some b => cmp a b
  end.

Definition dom_sid_compare_auth : option dom_sid -> option dom_sid -> Z := with_nulls compare_auth.

(** The loops over [sub_auths] from index [n - 1] down to 0: the [int] value of
    the unsigned difference at the first index that differs. *)
Fixpoint last_difference (a b : list Z) (n : nat) : option Z :=
  match n with
  | O => None
  | S i => let x := nth i a 0 in
           let y := nth i b 0 in
           if x =? y then last_difference a b i else Some (i32 (x - y))
  end.

Definition compare_values (sid1 sid2 : dom_sid) : Z :=
  if num_auths sid1 =? num_auths sid2 then
    match last_difference (sub_auths sid1) (sub_auths sid2) (Z.to_nat (num_auths sid1)) with
    | Some d => d
    | None => compare_auth sid1 sid2
    end
  else num_auths sid1 - num_auths sid2.

Definition dom_sid_compare : option dom_sid -> option dom_sid -> Z := with_nulls compare_values.

Definition dom_sid_equal (sid1 sid2 : option dom_sid) : bool := dom_sid_compare sid1 sid2 =? 0.

Definition dom_sid_compare_domain (sid1 sid2 : dom_sid) : Z :=
  match last_difference (sub_auths sid1) (sub_auths sid2)
          (Z.to_nat (Z.min (num_auths sid1) (num_auths sid2))) with
  | Some d => d
  | None => compare_auth sid1 sid2
  end.

(** ** Domains and RIDs *)

(** [sid_append_rid]: [num_auths] is compared as an unsigned value. *)
Definition sid_append_rid (sid : dom_sid) (rid : Z) : option dom_sid :=
  if (0 <=? num_auths sid) && (num_auths sid <? SID_MAX_AUTHS) then
    Some (Dom_sid (sid_rev_num sid) (num_auths sid + 1) (id_auth sid)
                  (<[Z.to_nat (num_auths sid) := rid]> (sub_auths sid)))
  else None.

(** [dom_sid_dup] copies the entries in use; the others of the new structure
    are not initialised, [junk] stands for them. *)
Definition dom_sid_dup (junk : list Z) (sid : dom_sid) : dom_sid :=
  let n := Z.to_nat (num_auths sid) in
  Dom_sid (sid_rev_num sid) (num_auths sid) (id_auth sid)
          (take n (sub_auths sid) ++ drop n junk).

Definition dom_sid_add_rid (junk : list Z) (domain_sid : dom_sid) (rid : Z) : option dom_sid :=
  sid_append_rid (dom_sid_dup junk domain_sid) rid.

Definition dom_sid_split_rid (junk : list Z) (sid : dom_sid) : NTSTATUS * option (dom_sid * Z) :=
  if num_auths sid =? 0 then (NT_STATUS_INVALID_PARAMETER, None)
  else
    let d := dom_sid_dup junk sid in
    (NT_STATUS_OK,
     Some (Dom_sid (sid_rev_num d) (num_auths d - 1) (id_auth d) (sub_auths d),
           nth (Z.to_nat (num_auths sid - 1)) (sub_auths sid) 0)).

Definition in_domain (domain_sid sid : dom_sid) : bool :=
  if num_auths sid <? 2 then false
  else if negb (num_auths domain_sid =? num_auths sid - 1) then false
  else
    match last_difference (sub_auths domain_sid) (sub_auths sid)
            (Z.to_nat (num_auths domain_sid)) with
    | Some _ => false
    | None => compare_auth domain_sid sid =? 0
    end.

Definition dom_sid_in_domain (domain_sid sid : option dom_sid) : bool :=
  match domain_sid, sid with
  | Some d, Some s => in_domain d s
  | _, _ => false
  end.

Definition dom_sid_is_valid_account_domain (sid : option dom_sid) : bool :=
  match sid with
  | None => false
  | Some s =>
      if negb (sid_rev_num s =? 1) then false
      else if negb (num_auths s =? 4) then false
      else if negb (nth 5 (id_auth s) 0 =? 5) then false
      else if negb (nth 4 (id_auth s) 0 =? 0) then false
      else if negb (nth 3 (id_auth s) 0 =? 0) then false
      else if negb (nth 2 (id_auth s) 0 =? 0) then false
      else if negb (nth 1 (id_auth s) 0 =? 0) then false
      else if negb (nth 0 (id_auth s) 0 =? 0) then false
      else if negb (nth 0 (sub_auths s) 0 =? 21) then false
      else if nth 1 (sub_auths s) 0 =? 0 then false
      else if nth 2 (sub_auths s) 0 =? 0 then false
      else if nth 3 (sub_auths s) 0 =? 0 then false
      else true
  end.

(** ** From strings *)

Definition AUTHORITY_MASK : Z := 0xFFFF000000000000.
Definition UINT8_MAX : Z := 0xFF.
Definition SID_UINT32_MAX : Z := 0xFFFFFFFF.
Definition dash : Z := 0x2D.

(** The [while] loop over the sub-authorities. It runs at most 16 times, since
    [sid_append_rid] refuses the sixteenth entry ([parse_subauths_fuel]). *)
Fixpoint parse_subauths (fuel : nat) (sid : dom_sid) (q : list Z) : option (dom_sid * list Z) :=
  match fuel with
  | O => None
  | S fuel =>
      if negb (isdigit (peek q)) then None
      else
        let '(conv, rest) := strtoull_10 q in
        if SID_UINT32_MAX <? conv then None
        else
          match sid_append_rid sid conv with
          | None => None
          | Some sid =>
              if peek rest =? dash then parse_subauths fuel sid (tail rest)
              else Some (sid, rest)
          end
  end.

Definition id_auth_bytes (conv : Z) : list Z :=
  [Z.shiftr (Z.land conv 0xff0000000000) 40; Z.shiftr (Z.land conv 0x00ff00000000) 32;
   Z.shiftr (Z.land conv 0x0000ff000000) 24; Z.shiftr (Z.land conv 0x000000ff0000) 16;
   Z.shiftr (Z.land conv 0x00000000ff00) 8; Z.land conv 0x0000000000ff].

Definition dom_sid_parse_endp (sidstr : list Z) : option (dom_sid * list Z) :=
  if (negb (peek sidstr =? 0x53) && negb (peek sidstr =? 0x73)) || negb (nth 1 sidstr 0 =? dash)
  then None
  else
    let p := drop 2 sidstr in
    if negb (isdigit (peek p)) then None
    else
      let '(conv, q) := strtoull_10 p in
      if negb (peek q =? dash) || (UINT8_MAX <? conv) then None
      else
        let rev_num := conv in
        let q := tail q in
        if negb (isdigit (peek q)) then None
        else
          let '(conv, q) := strtoull_0 q in
          if has_bits conv AUTHORITY_MASK then None
          else
            let sid := Dom_sid rev_num 0 (id_auth_bytes conv) (replicate 15 0) in
            if negb (peek q =? dash) then Some (sid, q)
            else parse_subauths 16 sid (tail q).

Definition dom_sid_parse (sidstr : list Z) : option dom_sid := fst <$> dom_sid_parse_endp sidstr.

(** ** To strings *)

Definition DOM_SID_STR_BUFLEN : Z := 15 * 11 + 25.

Definition id_auth_value (b : list Z) : Z :=
  nth 5 b 0 + Z.shiftl (nth 4 b 0) 8 + Z.shiftl (nth 3 b 0) 16 + Z.shiftl (nth 2 b 0) 24 +
  Z.shiftl (nth 1 b 0) 32 + Z.shiftl (nth 0 b 0) 40.

Definition authority_text (ia : Z) : list Z :=
  if SID_UINT32_MAX <=? ia then [0x30; 0x78] ++ print_hex ia else print_dec ia.

(** What the calls of [snprintf] print, one after the other. *)
Definition sid_text (sid : dom_sid) : list Z :=
  let ia := id_auth_value (id_auth sid) in
  [0x53; dash] ++ print_dec (sid_rev_num sid) ++ [dash] ++
  authority_text ia ++
  concat (map (fun a => dash :: print_dec a) (take (Z.to_nat (num_auths sid)) (sub_auths sid))).

Definition null_sid_text : list Z := [0x28; 0x4E; 0x55; 0x4C; 0x4C; 0x20; 0x53; 0x49; 0x44; 0x29].
Definition sid_err_text : list Z := [0x28; 0x53; 0x49; 0x44; 0x20; 0x45; 0x52; 0x52; 0x29].
Definition invalid_sid_text : list Z :=
  [0x28; 0x49; 0x4E; 0x56; 0x41; 0x4C; 0x49; 0x44; 0x20; 0x53; 0x49; 0x44; 0x29].

(** [dom_sid_string_buf]: the returned length and the string in the buffer,
    cut by [snprintf] to the buffer's size. *)
Definition dom_sid_string_buf (sid : option dom_sid) (buflen : Z) : Z * list Z :=
  let text := match sid with Some s => sid_text s | None => null_sid_text end in
  (Z.of_nat (length text), take (Z.to_nat (buflen - 1)) text).

Definition dom_sid_string (sid : option dom_sid) : list Z :=
  let '(len, buf) := dom_sid_string_buf sid DOM_SID_STR_BUFLEN in
  if (len <? 0) || (DOM_SID_STR_BUFLEN <? len + 1) then sid_err_text else buf.

Definition dom_sid_str_buf (sid : option dom_sid) : list Z :=
  let '(ret, buf) := dom_sid_string_buf sid DOM_SID_STR_BUFLEN in
  if (ret <? 0) || (DOM_SID_STR_BUFLEN <=? ret) then invalid_sid_text else buf.

(** ** Well-formed SIDs *)

Record sid_wf (s : dom_sid) : Prop := {
  wf_rev : in_w 8 (sid_rev_num s);
  wf_num : 0 <= num_auths s <= SID_MAX_AUTHS;
  wf_auth_len : length (id_auth s) = 6%nat;
  wf_auth : Forall is_byte (id_auth s);
  wf_sub_len : length (sub_auths s) = 15%nat;
  wf_sub : Forall (in_w 32) (sub_auths s)
}.

Definition used_auths (s : dom_sid) : list Z := take (Z.to_nat (num_auths s)) (sub_auths s).

(** The SID with its unused entries set to 0, as the parser leaves them. *)
Definition clear_unused (s : dom_sid) : dom_sid :=
  Dom_sid (sid_rev_num s) (num_auths s) (id_auth s)
          (used_auths s ++ replicate (15 - Z.to_nat (num_auths s)) 0).

Lemma used_length (s : dom_sid) : sid_wf s -> length (used_auths s) = Z.to_nat (num_auths s).
Proof.
  intros H. unfold used_auths. rewrite length_take, (wf_sub_len _ H).
  pose proof (wf_num _ H). unfold SID_MAX_AUTHS in *. lia.
Qed.

Lemma used_range (s : dom_sid) : sid_wf s -> Forall (in_w 32) (used_auths s).
Proof. intros H. by apply Forall_take, wf_sub. Qed.

(** ** Comparison *)

Lemma first_difference_zero (a b : list Z) :
  length a = length b -> first_difference a b = 0 <-> a = b.
Proof.
  revert b. induction a as [|x a IH]; intros [|y b] Hl; simplify_eq/=; [done|].
  destruct (Z.eqb_spec x y) as [->|Hne].
  - rewrite IH by done. split; [by intros ->|by intros [= ->]].
  - split; [lia|by intros [= ? _]].
Qed.

Lemma compare_auth_zero (a b : dom_sid) :
  sid_wf a -> sid_wf b ->
  compare_auth a b = 0 <-> sid_rev_num a = sid_rev_num b /\ id_auth a = id_auth b.
Proof.
  intros Ha Hb. unfold compare_auth. destruct (Z.eqb_spec (sid_rev_num a) (sid_rev_num b)).
  - rewrite first_difference_zero by (by rewrite (wf_auth_len _ Ha), (wf_auth_len _ Hb)). tauto.
  - split; [lia|tauto].
Qed.

Lemma last_difference_spec (a b : list Z) (n : nat) :
  (n <= length a)%nat -> (n <= length b)%nat -> Forall (in_w 32) a -> Forall (in_w 32) b ->
  match last_difference a b n with
  | Some d => take n a <> take n b /\ d <> 0
  | None => take n a = take n b
  end.
Proof.
  intros Hla Hlb Ha Hb. induction n as [|i IH]; simpl; [done|].
  destruct (lookup_lt_is_Some_2 a i ltac:(lia)) as [x Hx].
  destruct (lookup_lt_is_Some_2 b i ltac:(lia)) as [y Hy].
  rewrite (nth_lookup_Some _ _ _ _ Hx), (nth_lookup_Some _ _ _ _ Hy).
  rewrite (take_S_r _ _ _ Hx), (take_S_r _ _ _ Hy).
  destruct (Z.eqb_spec x y) as [->|Hne].
  - specialize (IH ltac:(lia) ltac:(lia)). destruct (last_difference a b i) as [d|].
    + split; [|tauto]. intros Heq. apply app_inj_2 in Heq as [? _]; [|done]. tauto.
    + by rewrite IH.
  - split.
    + intros Heq. apply app_inj_2 in Heq as [_ [= ?]]; [|done]. done.
    + intros Hz. apply Hne. by apply (i32_zero x y (Forall_lookup_1 _ _ _ _ Ha Hx) (Forall_lookup_1 _ _ _ _ Hb Hy)).
Qed.

Lemma num_fits (s : dom_sid) : sid_wf s -> (Z.to_nat (num_auths s) <= length (sub_auths s))%nat.
Proof.
  intros H. rewrite (wf_sub_len _ H). pose proof (wf_num _ H). unfold SID_MAX_AUTHS in *. lia.
Qed.

Lemma clear_unused_eq (a b : dom_sid) :
  clear_unused a = clear_unused b <->
  sid_rev_num a = sid_rev_num b /\ num_auths a = num_auths b /\ id_auth a = id_auth b /\
  used_auths a = used_auths b.
Proof.
  unfold clear_unused. split.
  - intros [= -> Hn -> Hu]. split_and!; try done. rewrite Hn in Hu.
    apply app_inj_2 in Hu; [tauto|by rewrite !length_replicate].
  - by intros (-> & -> & -> & ->).
Qed.

Lemma dom_sid_equal_spec (a b : dom_sid) :
  sid_wf a -> sid_wf b ->
  dom_sid_equal (Some a) (Some b) = true <-> clear_unused a = clear_unused b.
Proof.
  intros Ha Hb. rewrite clear_unused_eq. unfold dom_sid_equal, dom_sid_compare, with_nulls, compare_values.
  rewrite Z.eqb_eq. destruct (Z.eqb_spec (num_auths a) (num_auths b)) as [Hn|Hn]; [|split; [lia|tauto]].
  pose proof (num_fits _ Ha) as Hfa. pose proof (num_fits _ Hb) as Hfb.
  pose proof (last_difference_spec (sub_auths a) (sub_auths b) (Z.to_nat (num_auths a)) Hfa
                ltac:(lia) (wf_sub _ Ha) (wf_sub _ Hb)) as Hd.
  unfold used_auths. rewrite Hn in *.
  destruct (last_difference _ _ _) as [d|]; [destruct Hd; split; [lia|tauto]|].
  rewrite compare_auth_zero by done. tauto.
Qed.

(** ** The identifier authority *)

#[local] Ltac Zify.zify_post_hook ::= Z.to_euclidean_division_equations.

Lemma six_bytes (b : list Z) :
  length b = 6%nat -> Forall is_byte b ->
  exists b0 b1 b2 b3 b4 b5, b = [b0; b1; b2; b3; b4; b5] /\
    0 <= b0 < 256 /\ 0 <= b1 < 256 /\ 0 <= b2 < 256 /\ 0 <= b3 < 256 /\ 0 <= b4 < 256 /\
    0 <= b5 < 256.
Proof.
  intros Hl Hb. destruct b as [|b0 [|b1 [|b2 [|b3 [|b4 [|b5 [|]]]]]]]; simplify_eq/=.
  do 6 (apply Forall_cons in Hb as [? Hb]). by exists b0, b1, b2, b3, b4, b5.
Qed.

Lemma land_shiftr_byte (x m k : Z) :
  0 <= k -> m = Z.shiftl 255 k -> Z.shiftr (Z.land x m) k = (x / 2 ^ k) mod 256.
Proof.
  intros Hk ->. rewrite Z.shiftr_land, Z.shiftr_shiftl_l, Z.sub_diag by lia.
  change (Z.shiftl 255 0) with (Z.ones 8). rewrite Z.land_ones, Z.shiftr_div_pow2 by lia. done.
Qed.

Lemma id_auth_bytes_eq (x : Z) :
  id_auth_bytes x = [(x / 2 ^ 40) mod 256; (x / 2 ^ 32) mod 256; (x / 2 ^ 24) mod 256;
                     (x / 2 ^ 16) mod 256; (x / 2 ^ 8) mod 256; x mod 256].
Proof.
  unfold id_auth_bytes. repeat rewrite land_shiftr_byte by (done || lia).
  change 255 with (Z.ones 8). by rewrite Z.land_ones by lia.
Qed.

Lemma id_auth_value_eq (b0 b1 b2 b3 b4 b5 : Z) :
  id_auth_value [b0; b1; b2; b3; b4; b5] =
  b5 + b4 * 2 ^ 8 + b3 * 2 ^ 16 + b2 * 2 ^ 24 + b1 * 2 ^ 32 + b0 * 2 ^ 40.
Proof. unfold id_auth_value. simpl nth. by rewrite !Z.shiftl_mul_pow2 by lia. Qed.

Lemma id_auth_value_range (b : list Z) :
  length b = 6%nat -> Forall is_byte b -> in_w 48 (id_auth_value b).
Proof.
  intros Hl Hb. destruct (six_bytes b Hl Hb) as (b0 & b1 & b2 & b3 & b4 & b5 & -> & ?).
  rewrite id_auth_value_eq. unfold in_w. lia.
Qed.

Lemma id_auth_roundtrip (b : list Z) :
  length b = 6%nat -> Forall is_byte b -> id_auth_bytes (id_auth_value b) = b.
Proof.
  intros Hl Hb. destruct (six_bytes b Hl Hb) as (b0 & b1 & b2 & b3 & b4 & b5 & -> & ?).
  rewrite id_auth_bytes_eq, id_auth_value_eq.
  set (v := b5 + b4 * 2 ^ 8 + b3 * 2 ^ 16 + b2 * 2 ^ 24 + b1 * 2 ^ 32 + b0 * 2 ^ 40).
  assert (v / 2 ^ 40 = b0) as -> by (unfold v; lia).
  assert (v / 2 ^ 32 = b0 * 256 + b1) as -> by (unfold v; lia).
  assert (v / 2 ^ 24 = b0 * 2 ^ 16 + b1 * 256 + b2) as -> by (unfold v; lia).
  assert (v / 2 ^ 16 = b0 * 2 ^ 24 + b1 * 2 ^ 16 + b2 * 256 + b3) as -> by (unfold v; lia).
  assert (v / 2 ^ 8 = b0 * 2 ^ 32 + b1 * 2 ^ 24 + b2 * 2 ^ 16 + b3 * 256 + b4) as -> by (unfold v; lia).
  unfold v. f_equal; [lia|]. f_equal; [lia|]. f_equal; [lia|]. f_equal; [lia|]. f_equal; [lia|].
  f_equal. lia.
Qed.

#[local] Ltac Zify.zify_post_hook ::= idtac.

(** ** Numbers in the text *)

(** The text after a number: no digit, and no [x] that could extend a 0. *)
Definition num_end (rest : list Z) : Prop :=
  digit_value (peek rest) = None /\ peek rest <> 0x78 /\ peek rest <> 0x58.

Lemma num_end_stops (base : Z) (rest : list Z) : num_end rest -> stops base rest.
Proof. intros (H & _). unfold stops, base_digit. by rewrite H. Qed.

Lemma strtoull_0_hex (n : Z) (rest : list Z) :
  in_w 64 n -> num_end rest -> strtoull_0 ([0x30; 0x78] ++ print_hex n ++ rest) = (n, rest).
Proof.
  intros Hn Hr. unfold in_w in Hn.
  destruct (print_number_head 15 16 n ltac:(lia)) as (d & t & He & Hd & _).
  { change (Z.of_nat 15 + 1) with 16. lia. }
  pose proof (scan_print 15 16 n rest ltac:(lia)) as Hs.
  change (Z.of_nat 15 + 1) with 16 in Hs. specialize (Hs ltac:(lia) (num_end_stops _ _ Hr)).
  unfold print_hex. rewrite He in Hs |- *. cbn [app strtoull_0].
  rewrite (digit_char_value 16 d) by lia. rewrite bool_decide_eq_true_2 by (by eexists).
  cbn [orb andb Z.eqb Pos.eqb]. unfold saturate. cbn [app] in Hs. rewrite Hs.
  cbn [fst snd]. f_equal. unfold ULONG_MAX. lia.
Qed.

Lemma strtoull_0_dec (n : Z) (rest : list Z) :
  in_w 64 n -> num_end rest -> strtoull_0 (print_dec n ++ rest) = (n, rest).
Proof.
  intros Hn Hr. unfold in_w in Hn.
  destruct (Z.eq_dec n 0) as [->|Hnz].
  - change (print_dec 0) with [0x30]. destruct Hr as (Hd & Hx & HX).
    destruct rest as [|c [|c' rest]]; [done| |]; cbn [app strtoull_0 peek hd] in *.
    + rewrite <- (app_nil_l [c]). unfold saturate. simpl scan_number.
      unfold base_digit. by rewrite Hd.
    + rewrite !(proj2 (Z.eqb_neq c _)) by done. cbn [orb andb]. unfold saturate. simpl scan_number.
      unfold base_digit. by rewrite Hd.
  - destruct (print_number_head 19 10 n ltac:(lia)) as (d & t & He & Hd & Hnd & _).
    { change (Z.of_nat 19 + 1) with 20. lia. }
    specialize (Hnd Hnz). pose proof (strtoull_10_print n rest Hn (num_end_stops _ _ Hr)) as Hs.
    unfold print_dec in *. rewrite He in Hs |- *. unfold strtoull_10 in Hs. rewrite <- Hs.
    cbn [app]. assert (digit_char d = 0x31 + (d - 1)) as Hc
      by (unfold digit_char; rewrite (proj2 (Z.ltb_lt d 10)) by lia; lia).
    assert (d = 1 \/ d = 2 \/ d = 3 \/ d = 4 \/ d = 5 \/ d = 6 \/ d = 7 \/ d = 8 \/ d = 9) as Hd9 by lia.
    rewrite Hc. by destruct Hd9 as [->|[->|[->|[->|[->|[->|[->|[->| ->]]]]]]]].
Qed.

Lemma isdigit_print_dec (n : Z) (rest : list Z) :
  in_w 64 n -> isdigit (peek (print_dec n ++ rest)) = true.
Proof.
  intros Hn. unfold in_w in Hn.
  destruct (print_number_head 19 10 n ltac:(lia)) as (d & t & He & Hd & _).
  { change (Z.of_nat 19 + 1) with 20. lia. }
  unfold print_dec. rewrite He. simpl. unfold isdigit, digit_char.
  rewrite (proj2 (Z.ltb_lt d 10)) by lia. rewrite !(proj2 (Z.leb_le _ _)) by lia. done.
Qed.

Definition auths_text (l : list Z) : list Z := concat (map (fun a => dash :: print_dec a) l).

Lemma auths_text_end (l rest : list Z) : num_end rest -> num_end (auths_text l ++ rest).
Proof. destruct l; [done|]. intros _. by repeat split. Qed.

Lemma append_rid_middle (rev a : Z) (ida pre : list Z) :
  (length pre < 15)%nat ->
  sid_append_rid (Dom_sid rev (Z.of_nat (length pre)) ida (pre ++ replicate (15 - length pre) 0)) a =
  Some (Dom_sid rev (Z.of_nat (length (pre ++ [a]))) ida
          ((pre ++ [a]) ++ replicate (15 - length (pre ++ [a])) 0)).
Proof.
  intros Hl. unfold sid_append_rid, SID_MAX_AUTHS. cbn [num_auths sid_rev_num id_auth sub_auths].
  rewrite (proj2 (Z.leb_le _ _)), (proj2 (Z.ltb_lt _ _)) by lia. cbn [andb].
  rewrite length_app, Nat2Z.id. simpl length. do 2 f_equal; [lia|].
  destruct (15 - length pre)%nat as [|m] eqn:E; [lia|].
  replace (15 - (length pre + 1))%nat with m by lia.
  simpl. rewrite insert_app_r_alt, Nat.sub_diag by lia. simpl. by rewrite <- app_assoc.
Qed.

Lemma parse_subauths_print (l rest : list Z) :
  Forall (in_w 32) l -> num_end rest -> peek rest <> dash ->
  forall fuel rev ida pre, l <> [] -> (length pre + length l <= 15)%nat -> (length l <= fuel)%nat ->
  parse_subauths fuel
    (Dom_sid rev (Z.of_nat (length pre)) ida (pre ++ replicate (15 - length pre) 0))
    (tail (auths_text l ++ rest)) =
  Some (Dom_sid rev (Z.of_nat (length (pre ++ l))) ida
          ((pre ++ l) ++ replicate (15 - length (pre ++ l)) 0), rest).
Proof.
  intros Hl Hr Hd. induction Hl as [|a l Ha Hl IH]; intros fuel rev ida pre Hne Hlen Hf; [done|].
  destruct fuel as [|fuel]; simpl in Hf, Hlen; [lia|].
  change (auths_text (a :: l)) with (dash :: print_dec a ++ auths_text l). cbn [app tail parse_subauths].
  assert (in_w 64 a) as Ha' by (unfold in_w in *; lia).
  rewrite <- app_assoc, isdigit_print_dec, strtoull_10_print by
    (done || apply num_end_stops, auths_text_end, Hr).
  cbn [negb]. rewrite (proj2 (Z.ltb_ge _ _)) by (unfold SID_UINT32_MAX, in_w in *; lia).
  rewrite append_rid_middle by lia.
  destruct l as [|b l].
  - cbn [auths_text map concat app]. by rewrite (proj2 (Z.eqb_neq _ _) Hd).
  - change (peek (auths_text (b :: l) ++ rest) =? dash) with true. cbv iota.
    rewrite IH; [by rewrite <- app_assoc|done|rewrite length_app; simpl; simpl in Hlen; lia|simpl; simpl in Hf; lia].
Qed.

Lemma parse_subauths_S (fuel : nat) (sid : dom_sid) (q : list Z) :
  parse_subauths (S fuel) sid q =
  if negb (isdigit (peek q)) then None
  else if SID_UINT32_MAX <? (strtoull_10 q).1 then None
  else s ← sid_append_rid sid (strtoull_10 q).1;
       if peek (strtoull_10 q).2 =? dash then parse_subauths fuel s (tail (strtoull_10 q).2)
       else Some (s, (strtoull_10 q).2).
Proof.
  cbn [parse_subauths]. destruct (strtoull_10 q) as [conv r]. cbn [fst snd].
  repeat case_if; try done; by destruct (sid_append_rid sid conv).
Qed.

(** The loop stops before the fuel does. *)
Lemma parse_subauths_fuel (fuel : nat) (sid : dom_sid) (q : list Z) :
  0 <= num_auths sid <= 15 -> (16 - Z.to_nat (num_auths sid) <= fuel)%nat ->
  parse_subauths (S fuel) sid q = parse_subauths fuel sid q.
Proof.
  revert sid q. induction fuel as [|fuel IH]; intros sid q Hn Hf; [lia|].
  rewrite (parse_subauths_S (S fuel)), (parse_subauths_S fuel).
  destruct (negb _); [done|]. destruct (_ <? _); [done|].
  destruct (sid_append_rid sid _) as [s|] eqn:E; cbn [mbind option_bind]; [|done].
  destruct (_ =? dash); [|done]. unfold sid_append_rid in E. case_if; [|done].
  apply andb_true_iff in Heqb as [H0 H1]. apply Z.ltb_lt in H1. apply Z.leb_le in H0.
  unfold SID_MAX_AUTHS in H1. injection E as <-. apply IH; cbn [num_auths]; lia.
Qed.

(** What may follow a SID in a longer text, such as an SDDL string. *)
Definition sid_end (rest : list Z) : Prop := num_end rest /\ peek rest <> dash.

Lemma authority_fits (n : Z) : in_w 48 n -> has_bits n AUTHORITY_MASK = false.
Proof.
  intros Hn. unfold has_bits, AUTHORITY_MASK. apply negb_false_iff, Z.eqb_eq.
  change 0xFFFF000000000000 with (Z.shiftl 0xFFFF 48). apply Z.bits_inj_0. intros i.
  rewrite Z.land_spec. destruct (Z.ltb_spec i 48).
  - rewrite Z.shiftl_spec_low by lia. apply andb_false_r.
  - rewrite (Z.bits_above_log2 n i); [done|unfold in_w in Hn; lia|].
    destruct (Z.eq_dec n 0) as [->|]; [simpl; lia|]. unfold in_w in Hn.
    apply Z.log2_lt_pow2; [lia|]. apply Z.lt_le_trans with (2 ^ 48); [lia|].
    by apply Z.pow_le_mono_r.
Qed.

Lemma strtoull_0_authority (n : Z) (rest : list Z) :
  in_w 48 n -> num_end rest ->
  strtoull_0 (authority_text n ++ rest) = (n, rest).
Proof.
  unfold authority_text. intros Hn Hr. assert (in_w 64 n) by (unfold in_w in *; lia).
  destruct (_ <=? _); [rewrite <- app_assoc; by apply strtoull_0_hex|by apply strtoull_0_dec].
Qed.

Lemma isdigit_authority (n : Z) (rest : list Z) :
  in_w 48 n -> isdigit (peek (authority_text n ++ rest)) = true.
Proof.
  unfold authority_text. intros Hn. destruct (_ <=? _); [done|]. apply isdigit_print_dec. unfold in_w in *. lia.
Qed.

Lemma parse_text (s : dom_sid) (rest : list Z) :
  sid_wf s -> sid_end rest -> dom_sid_parse_endp (sid_text s ++ rest) = Some (clear_unused s, rest).
Proof.
  intros Hwf [Hr Hd]. unfold sid_text. fold (used_auths s). fold (auths_text (used_auths s)).
  pose proof (id_auth_value_range _ (wf_auth_len _ Hwf) (wf_auth _ Hwf)) as Hia.
  set (ia := id_auth_value (id_auth s)) in *.
  assert (in_w 64 (sid_rev_num s)) as Hrev by (pose proof (wf_rev _ Hwf); unfold in_w in *; lia).
  rewrite <- !app_assoc. unfold dom_sid_parse_endp. cbn [app peek hd nth drop].
  change (negb (83 =? 83)) with false. cbn [andb orb negb]. rewrite Z.eqb_refl. cbn [negb].
  rewrite drop_0. rewrite isdigit_print_dec by done. rewrite strtoull_10_print by done.
  cbn [negb peek hd tail]. rewrite Z.eqb_refl. repeat change (hd 0 ?x) with (peek x).
  rewrite (proj2 (Z.ltb_ge _ _)) by (pose proof (wf_rev _ Hwf); unfold in_w, UINT8_MAX in *; lia).
  cbn [orb negb]. rewrite isdigit_authority by done. cbn [negb].
  rewrite strtoull_0_authority by (done || by apply auths_text_end).
  rewrite authority_fits by done. unfold ia. rewrite id_auth_roundtrip by apply Hwf.
  pose proof (used_length _ Hwf) as Hlen. pose proof (wf_num _ Hwf) as Hnum. unfold SID_MAX_AUTHS in Hnum.
  unfold clear_unused. destruct (used_auths s) as [|a l] eqn:Hu.
  - cbn [auths_text map concat app]. rewrite (proj2 (Z.eqb_neq _ _) Hd). cbn [negb].
    simpl in Hlen. rewrite <- Hlen. replace (num_auths s) with 0 by lia. done.
  - change (peek (auths_text (a :: l) ++ rest) =? dash) with true. cbn [negb]. rewrite <- Hu in *.
    pose proof (parse_subauths_print (used_auths s) rest (used_range _ Hwf) Hr Hd 16
      (sid_rev_num s) (id_auth s) []) as Hp.
    etrans; [apply Hp; [by rewrite Hu|simpl; lia|lia]|]. cbn [app]. rewrite Hlen.
    by rewrite Z2Nat.id by lia.
Qed.

(** ** The text fits the buffer *)

Lemma auths_text_length (l : list Z) :
  Forall (in_w 32) l -> (length (auths_text l) <= 11 * length l)%nat.
Proof.
  induction 1 as [|a l Ha _ IH]; [done|].
  change (auths_text (a :: l)) with (dash :: print_dec a ++ auths_text l).
  simpl. rewrite length_app.
  pose proof (length_print_number 19 9 10 a ltac:(lia)) as H. unfold print_dec.
  change (Z.of_nat 9 + 1) with 10 in H. specialize (H ltac:(unfold in_w in Ha; lia)). lia.
Qed.

Lemma sid_text_length (s : dom_sid) : sid_wf s -> (length (sid_text s) <= 185)%nat.
Proof.
  intros Hwf. unfold sid_text. fold (used_auths s). fold (auths_text (used_auths s)).
  rewrite !length_app. pose proof (auths_text_length _ (used_range _ Hwf)) as Ha.
  rewrite (used_length _ Hwf) in Ha. pose proof (wf_num _ Hwf) as Hn. unfold SID_MAX_AUTHS in Hn.
  pose proof (id_auth_value_range _ (wf_auth_len _ Hwf) (wf_auth _ Hwf)) as Hia. unfold in_w in Hia.
  pose proof (length_print_number 19 2 10 (sid_rev_num s) ltac:(lia)) as Hr.
  change (Z.of_nat 2 + 1) with 3 in Hr.
  specialize (Hr ltac:(pose proof (wf_rev _ Hwf); unfold in_w in *; lia)).
  assert (length (authority_text (id_auth_value (id_auth s))) <= 14)%nat as Ht.
  { unfold authority_text. destruct (Z.leb_spec SID_UINT32_MAX (id_auth_value (id_auth s))).
    - pose proof (length_print_number 15 11 16 (id_auth_value (id_auth s)) ltac:(lia)) as H'.
      change (Z.of_nat 11 + 1) with 12 in H'. specialize (H' ltac:(lia)).
      rewrite length_app. unfold print_hex. simpl length at 1. lia.
    - pose proof (length_print_number 19 9 10 (id_auth_value (id_auth s)) ltac:(lia)) as H'.
      change (Z.of_nat 9 + 1) with 10 in H'. unfold SID_UINT32_MAX in *.
      specialize (H' ltac:(lia)). unfold print_dec. lia. }
  unfold print_dec in *. cbn [length]. lia.
Qed.

Lemma string_is_text (s : dom_sid) :
  sid_wf s -> dom_sid_string (Some s) = sid_text s /\ dom_sid_str_buf (Some s) = sid_text s.
Proof.
  intros Hwf. pose proof (sid_text_length s Hwf) as Hl.
  unfold dom_sid_string, dom_sid_str_buf, dom_sid_string_buf, DOM_SID_STR_BUFLEN.
  rewrite take_ge by lia.
  rewrite (proj2 (Z.ltb_ge (Z.of_nat _) 0)), (proj2 (Z.ltb_ge _ _)), (proj2 (Z.leb_gt _ _)) by lia.
  done.
Qed.

(** ** Parsing gives well-formed SIDs *)

Lemma scan_number_nonneg (base acc : Z) (s : list Z) :
  0 <= base -> 0 <= acc -> 0 <= (scan_number base acc s).1.
Proof.
  intros Hb. revert acc. induction s as [|c s IH]; intros acc Ha; simpl; [done|].
  unfold base_digit. destruct (digit_value c) as [d|] eqn:E; [|done].
  destruct (d <? base); [|done]. apply IH.
  assert (0 <= d) by (unfold digit_value, isdigit in E; repeat case_if; simplify_eq; boolify; lia). nia.
Qed.

Lemma strtoull_10_range (s : list Z) : in_w 64 (strtoull_10 s).1.
Proof.
  unfold strtoull_10, saturate, in_w, ULONG_MAX. cbn [fst].
  pose proof (scan_number_nonneg 10 0 s). lia.
Qed.

Definition parsed_ok (s : dom_sid) : Prop := sid_wf s /\ clear_unused s = s.

Lemma parse_subauths_ok (fuel : nat) (sid : dom_sid) (q : list Z) (r : dom_sid * list Z) :
  parsed_ok sid -> parse_subauths fuel sid q = Some r -> parsed_ok r.1.
Proof.
  revert sid q. induction fuel as [|fuel IH]; intros sid q Hok; [done|].
  rewrite parse_subauths_S. case_if; [done|]. case_if; [done|].
  pose proof (strtoull_10_range q) as Hrange. set (conv := (strtoull_10 q).1) in *.
  destruct (sid_append_rid sid conv) as [s|] eqn:E; cbn [mbind option_bind]; [|done].
  assert (parsed_ok s) as Hs; [|destruct (_ =? dash); [by apply IH|by intros [= <-]]].
  clear IH Heqb. unfold sid_append_rid in E. case_if; [|done]. injection E as <-.
  destruct Hok as [Hwf Hcl]. apply andb_true_iff in Heqb as [H0 H1].
  apply Z.leb_le in H0. apply Z.ltb_lt in H1. unfold SID_MAX_AUTHS in H1.
  apply Z.ltb_ge in Heqb0. unfold SID_UINT32_MAX in Heqb0.
  split.
  - destruct Hwf. split; cbn [sid_rev_num num_auths id_auth sub_auths]; try done.
    + unfold SID_MAX_AUTHS. lia.
    + by rewrite length_insert.
    + apply Forall_insert; [done|]. unfold in_w in *. lia.
  - unfold clear_unused in *. destruct sid as [rev num ida sub].
    unfold used_auths in *. cbn [sid_rev_num num_auths id_auth sub_auths] in *. f_equal.
    assert (take (Z.to_nat num) sub ++ replicate (15 - Z.to_nat num) 0 = sub) as Hsub
      by (injection Hcl; auto). clear Hcl.
    assert (length sub = 15%nat) as Hl by apply Hwf.
    rewrite <- Hsub at 2. rewrite Z2Nat.inj_add by lia. change (Z.to_nat 1) with 1%nat.
    rewrite Nat.add_1_r, (take_S_r _ _ conv) by (by apply list_lookup_insert_eq; lia).
    rewrite take_insert_ge by lia.
    replace (15 - Z.to_nat num)%nat with (S (15 - S (Z.to_nat num)))%nat by lia. simpl replicate.
    rewrite insert_app_r_alt by (rewrite length_take; lia).
    rewrite length_take, Nat.min_l, Nat.sub_diag by lia. simpl. by rewrite <- app_assoc.
Qed.

Lemma id_auth_bytes_ok (x : Z) : Forall is_byte (id_auth_bytes x).
Proof.
  rewrite id_auth_bytes_eq. repeat (apply Forall_cons; split); try apply Forall_nil_2;
    apply Z.mod_pos_bound; lia.
Qed.

Lemma parse_endp_ok (str : list Z) (r : dom_sid * list Z) :
  dom_sid_parse_endp str = Some r -> parsed_ok r.1.
Proof.
  unfold dom_sid_parse_endp. case_if; [done|]. case_if; [done|].
  pose proof (strtoull_10_range (drop 2 str)) as Hr.
  destruct (strtoull_10 (drop 2 str)) as [rev q]. cbn [fst] in Hr.
  case_if; [done|]. case_if; [done|]. destruct (strtoull_0 (tail q)) as [conv q'].
  case_if; [done|].
  apply orb_false_iff in Heqb1 as [_ Hrev]. apply Z.ltb_ge in Hrev. unfold UINT8_MAX, in_w in *.
  assert (parsed_ok (Dom_sid rev 0 (id_auth_bytes conv) (replicate 15 0))) as Hok.
  { split; [|done]. split; cbn [sid_rev_num num_auths id_auth sub_auths]; try done.
    - unfold in_w. lia.
    - apply id_auth_bytes_ok.
    - by apply Forall_replicate. }
  case_if; [by intros [= <-]|by apply parse_subauths_ok].
Qed.

(** ** Properties *)

(** C31. The string form is faithful: for every well-formed SID both printers
    give the same text, which fits the buffer; the parser reads it back to the
    same SID with its unused entries cleared, also inside a longer text, where
    it stops at the end of the SID. *)
Theorem sid_string_roundtrip (s : dom_sid) (rest : list Z) :
  sid_wf s -> sid_end rest ->
  dom_sid_str_buf (Some s) = dom_sid_string (Some s) /\
  Z.of_nat (length (dom_sid_string (Some s))) < DOM_SID_STR_BUFLEN /\
  dom_sid_parse (dom_sid_string (Some s)) = Some (clear_unused s) /\
  dom_sid_parse_endp (dom_sid_string (Some s) ++ rest) = Some (clear_unused s, rest).
Proof.
  intros Hwf Hr. destruct (string_is_text s Hwf) as [-> ->].
  pose proof (sid_text_length s Hwf). unfold DOM_SID_STR_BUFLEN.
  split_and!; [done|lia| |by apply parse_text].
  unfold dom_sid_parse. rewrite <- (app_nil_r (sid_text s)), parse_text; [done|done|done].
Qed.

(** S-1-5-21-1-2-4294967295 and an authority that is printed in hexadecimal. *)
Definition example_sid : dom_sid :=
  Dom_sid 1 4 [0; 0; 0; 0; 0; 5] ([21; 1; 2; 4294967295] ++ replicate 11 7).
Definition example_sid_hex : dom_sid :=
  Dom_sid 1 1 [18; 0; 0; 0; 0; 5] ([9] ++ replicate 14 0).

Lemma example_sid_wf : sid_wf example_sid.
Proof.
  split; try done; unfold in_w; cbn; try lia;
    repeat (apply Forall_cons; split); try apply Forall_nil_2; unfold is_byte; lia.
Qed.

Lemma example_sid_hex_wf : sid_wf example_sid_hex.
Proof.
  split; try done; unfold in_w; cbn; try lia;
    repeat (apply Forall_cons; split); try apply Forall_nil_2; unfold is_byte; lia.
Qed.

Lemma sid_string_roundtrip_witness :
  dom_sid_parse (dom_sid_string (Some example_sid_hex)) = Some example_sid_hex /\
  dom_sid_parse_endp (dom_sid_string (Some example_sid) ++ [0x29; 0x31]) =
    Some (clear_unused example_sid, [0x29; 0x31]).
Proof.
  split.
  - exact (proj1 (proj2 (proj2
      (sid_string_roundtrip example_sid_hex [] example_sid_hex_wf ltac:(by repeat split))))).
  - exact (proj2 (proj2 (proj2
      (sid_string_roundtrip example_sid [0x29; 0x31] example_sid_wf ltac:(by repeat split))))).
Defined.

(** Only well-formed SIDs come out of the parser: revision, authority and
    at most 15 sub-authorities are in range, and all unused entries are 0. *)
Theorem dom_sid_parse_wf (str : list Z) (s : dom_sid) :
  dom_sid_parse str = Some s -> sid_wf s /\ clear_unused s = s.
Proof.
  unfold dom_sid_parse. destruct (dom_sid_parse_endp str) as [r|] eqn:E; simpl; [|done].
  intros [= <-]. by apply (parse_endp_ok str).
Qed.

Lemma dom_sid_parse_wf_witness :
  exists s, dom_sid_parse [0x53; 0x2D; 0x31; 0x2D; 0x35; 0x2D; 0x31; 0x38] = Some s /\
    sid_wf s /\ clear_unused s = s.
Proof.
  eexists. split; [vm_compute; reflexivity|].
  apply (dom_sid_parse_wf [0x53; 0x2D; 0x31; 0x2D; 0x35; 0x2D; 0x31; 0x38]).
  vm_compute; reflexivity.
Defined.

(** Equality of SIDs is equality of their string forms: [dom_sid_equal],
    which looks only at the entries in use, holds exactly when the two SIDs
    print the same text. *)
Theorem dom_sid_equal_iff_string (a b : dom_sid) :
  sid_wf a -> sid_wf b ->
  dom_sid_equal (Some a) (Some b) = true <-> dom_sid_string (Some a) = dom_sid_string (Some b).
Proof.
  intros Ha Hb. rewrite dom_sid_equal_spec by done.
  rewrite (proj1 (string_is_text a Ha)), (proj1 (string_is_text b Hb)). split.
  - intros He. apply clear_unused_eq in He as (Hr & Hn & Hi & Hu).
    unfold sid_text. unfold used_auths in Hu. by rewrite Hr, Hi, Hu.
  - intros He. pose proof (parse_text a [] Ha ltac:(by repeat split)) as Hpa.
    pose proof (parse_text b [] Hb ltac:(by repeat split)) as Hpb.
    rewrite He, Hpb in Hpa. injection Hpa. congruence.
Qed.

Lemma dom_sid_equal_iff_string_witness :
  dom_sid_equal (Some example_sid) (Some example_sid_hex) = true <->
  dom_sid_string (Some example_sid) = dom_sid_string (Some example_sid_hex).
Proof. exact (dom_sid_equal_iff_string _ _ example_sid_wf example_sid_hex_wf). Defined.

Definition rid_sid (n : Z) : dom_sid := Dom_sid 1 1 [0; 0; 0; 0; 0; 5] (n :: replicate 14 0).

(** [dom_sid_compare] is not an ordering: the difference of two 32-bit
    sub-authorities is truncated to [int], so three SIDs can each be smaller
    than the next in a cycle, and two different SIDs can each be smaller than
    the other. *)
Theorem dom_sid_compare_not_order :
  (dom_sid_compare (Some (rid_sid 0)) (Some (rid_sid 0x60000000)) < 0 /\
   dom_sid_compare (Some (rid_sid 0x60000000)) (Some (rid_sid 0xC0000000)) < 0 /\
   dom_sid_compare (Some (rid_sid 0xC0000000)) (Some (rid_sid 0)) < 0) /\
  (dom_sid_compare (Some (rid_sid 0)) (Some (rid_sid 0x80000000)) < 0 /\
   dom_sid_compare (Some (rid_sid 0x80000000)) (Some (rid_sid 0)) < 0).
Proof. split_and!; vm_compute; reflexivity. Qed.

(** ** Domains *)

Definition junk_ok (junk : list Z) : Prop := length junk = 15%nat /\ Forall (in_w 32) junk.

Lemma dup_wf (junk : list Z) (s : dom_sid) :
  junk_ok junk -> sid_wf s ->
  sid_wf (dom_sid_dup junk s) /\ used_auths (dom_sid_dup junk s) = used_auths s.
Proof.
  intros [Hl Hj] Hwf. pose proof (used_length _ Hwf) as Hu. pose proof (num_fits _ Hwf) as Hf.
  rewrite (wf_sub_len _ Hwf) in Hf. unfold used_auths in *. split.
  - destruct Hwf. split; simpl; try done.
    + rewrite length_app, length_drop. lia.
    + apply Forall_app. split; [by apply Forall_take|by apply Forall_drop].
  - simpl. rewrite take_app_le by lia. rewrite take_take. f_equal. lia.
Qed.

Lemma append_wf (s s' : dom_sid) (rid : Z) :
  sid_wf s -> in_w 32 rid -> sid_append_rid s rid = Some s' ->
  sid_wf s' /\ used_auths s' = used_auths s ++ [rid] /\ num_auths s' = num_auths s + 1 /\
  sid_rev_num s' = sid_rev_num s /\ id_auth s' = id_auth s.
Proof.
  intros Hwf Hr. unfold sid_append_rid. case_if; [|done]. intros [= <-].
  apply andb_true_iff in Heqb as [H0 H1]. apply Z.leb_le in H0. apply Z.ltb_lt in H1.
  unfold SID_MAX_AUTHS in H1. pose proof (wf_sub_len _ Hwf). split.
  - destruct Hwf. split; simpl; try done; [unfold SID_MAX_AUTHS; lia|by rewrite length_insert|].
    by apply Forall_insert.
  - unfold used_auths. simpl. split_and!; try done. rewrite Z2Nat.inj_add by lia.
    change (Z.to_nat 1) with 1%nat. rewrite Nat.add_1_r, (take_S_r _ _ rid).
    + by rewrite take_insert_ge by lia.
    + apply list_lookup_insert_eq. lia.
Qed.

Lemma split_rid_spec (junk : list Z) (s : dom_sid) :
  junk_ok junk -> sid_wf s -> 0 < num_auths s ->
  exists d rid, dom_sid_split_rid junk s = (NT_STATUS_OK, Some (d, rid)) /\ sid_wf d /\
    num_auths d = num_auths s - 1 /\ used_auths s = used_auths d ++ [rid] /\
    sid_rev_num d = sid_rev_num s /\ id_auth d = id_auth s.
Proof.
  intros Hj Hwf Hn. unfold dom_sid_split_rid. rewrite (proj2 (Z.eqb_neq _ _)) by lia.
  eexists _, _. split; [done|]. destruct (dup_wf junk s Hj Hwf) as [Hd Hu].
  pose proof (num_fits _ Hwf) as Hf. pose proof (wf_num _ Hwf) as Hn'. unfold SID_MAX_AUTHS in Hn'.
  split.
  { destruct Hd. split; simpl in *; try done. unfold SID_MAX_AUTHS. lia. }
  simpl. split_and!; try done. unfold used_auths. simpl.
  destruct (lookup_lt_is_Some_2 (sub_auths s) (Z.to_nat (num_auths s - 1)) ltac:(lia)) as [x Hx].
  rewrite (nth_lookup_Some _ _ _ _ Hx).
  replace (Z.to_nat (num_auths s)) with (S (Z.to_nat (num_auths s - 1))) at 1 by lia.
  rewrite (take_S_r _ _ _ Hx). f_equal. rewrite take_app_le by (rewrite length_take; lia).
  rewrite take_take. f_equal. lia.
Qed.

Lemma in_domain_spec (d s : dom_sid) :
  sid_wf d -> sid_wf s ->
  in_domain d s = true <->
  2 <= num_auths s /\ num_auths d = num_auths s - 1 /\
  used_auths d = take (Z.to_nat (num_auths d)) (sub_auths s) /\
  sid_rev_num d = sid_rev_num s /\ id_auth d = id_auth s.
Proof.
  intros Hd Hs. unfold in_domain. destruct (Z.ltb_spec (num_auths s) 2); [split; [done|lia]|].
  destruct (Z.eqb_spec (num_auths d) (num_auths s - 1)) as [Hn|]; simpl; [|split; [done|lia]].
  pose proof (num_fits _ Hs) as Hf.
  pose proof (last_difference_spec (sub_auths d) (sub_auths s) (Z.to_nat (num_auths d))
                (num_fits _ Hd) ltac:(lia) (wf_sub _ Hd) (wf_sub _ Hs)) as Hld.
  unfold used_auths. destruct (last_difference _ _ _) as [x|]; [split; [done|tauto]|].
  rewrite Z.eqb_eq, compare_auth_zero by done. tauto.
Qed.

Lemma split_prefix (s d : dom_sid) (r : Z) :
  sid_wf s -> sid_wf d -> num_auths d = num_auths s - 1 -> used_auths s = used_auths d ++ [r] ->
  take (Z.to_nat (num_auths s - 1)) (sub_auths s) = used_auths d.
Proof.
  intros Hs Hd Hn Hu. pose proof (wf_num _ Hd) as Hnd.
  apply (f_equal (take (Z.to_nat (num_auths d)))) in Hu. unfold used_auths in Hu at 1.
  rewrite take_take, Nat.min_l, Hn in Hu by lia. rewrite Hu, <- Hn.
  rewrite take_app_le by (rewrite used_length by done; lia).
  apply take_ge. rewrite used_length by done. lia.
Qed.

Lemma add_split (junk : list Z) (d : dom_sid) (rid : Z) :
  junk_ok junk -> sid_wf d -> in_w 32 rid -> num_auths d < SID_MAX_AUTHS ->
  exists full d', dom_sid_add_rid junk d rid = Some full /\
    dom_sid_split_rid junk full = (NT_STATUS_OK, Some (d', rid)) /\
    dom_sid_equal (Some d') (Some d) = true.
Proof.
  intros Hj Hd Hr Hlt. destruct (dup_wf junk d Hj Hd) as [Hdup Hu].
  unfold dom_sid_add_rid. pose proof (wf_num _ Hd) as Hn.
  destruct (sid_append_rid (dom_sid_dup junk d) rid) as [full|] eqn:E.
  2: { unfold sid_append_rid in E. simpl in E.
       rewrite (proj2 (Z.leb_le _ _)), (proj2 (Z.ltb_lt _ _)) in E by lia. done. }
  destruct (append_wf _ _ _ Hdup Hr E) as (Hfw & Hfu & Hfn & Hfr & Hfi). simpl in Hfn, Hfr, Hfi.
  destruct (split_rid_spec junk full Hj Hfw ltac:(lia)) as (d' & r & Hsp & Hdw & Hdn & Hdu & Hdr & Hdi).
  rewrite Hfu, Hu in Hdu. apply app_inj_tail in Hdu as [Hdu <-].
  exists full, d'. split_and!; [done|done|].
  rewrite dom_sid_equal_spec, clear_unused_eq by done. split_and!; [congruence|lia|congruence|done].
Qed.

Lemma in_domain_split (junk : list Z) (d s : dom_sid) :
  junk_ok junk -> sid_wf d -> sid_wf s ->
  dom_sid_in_domain (Some d) (Some s) = true <->
  2 <= num_auths s /\
  exists d' r, dom_sid_split_rid junk s = (NT_STATUS_OK, Some (d', r)) /\
    dom_sid_equal (Some d') (Some d) = true.
Proof.
  intros Hj Hd Hs. simpl. rewrite in_domain_spec by done. split; intros (H2 & H).
  - destruct H as (Hn & Hu & Hrev & Hid). split; [done|].
    destruct (split_rid_spec junk s Hj Hs ltac:(lia)) as (d' & r & Hsp & Hdw & Hdn & Hdu & Hdr & Hdi).
    exists d', r. split; [done|]. rewrite dom_sid_equal_spec, clear_unused_eq by done.
    rewrite Hu, Hn, (split_prefix s d' r) by done. split_and!; [congruence|lia|congruence|done].
  - destruct H as (d' & r & Hsp & He).
    destruct (split_rid_spec junk s Hj Hs ltac:(lia)) as (d2 & r2 & Hsp2 & Hdw & Hdn & Hdu & Hdr & Hdi).
    rewrite Hsp in Hsp2. injection Hsp2 as <- <-.
    rewrite dom_sid_equal_spec, clear_unused_eq in He by done. destruct He as (E1 & E2 & E3 & E4).
    assert (num_auths d = num_auths s - 1) as Hn by lia.
    rewrite <- E4, Hn, (split_prefix s d' r) by done. split_and!; [done|lia|done|congruence|congruence].
Qed.

(** Domains and RIDs: appending a RID to a SID with room for it and
    splitting the result gives the SID and the RID back; and a SID is in a
    domain exactly when it has at least two sub-authorities and its domain part
    equals the domain. *)
Theorem sid_domain_split (junk : list Z) (d s : dom_sid) (rid : Z) :
  junk_ok junk -> sid_wf d -> sid_wf s -> in_w 32 rid ->
  (num_auths d < SID_MAX_AUTHS ->
   exists full d', dom_sid_add_rid junk d rid = Some full /\
     dom_sid_split_rid junk full = (NT_STATUS_OK, Some (d', rid)) /\
     dom_sid_equal (Some d') (Some d) = true) /\
  (dom_sid_in_domain (Some d) (Some s) = true <->
   2 <= num_auths s /\
   exists d' r, dom_sid_split_rid junk s = (NT_STATUS_OK, Some (d', r)) /\
     dom_sid_equal (Some d') (Some d) = true).
Proof.
  intros Hj Hd Hs Hr. split; [by apply add_split|by apply in_domain_split].
Qed.

Lemma sid_domain_split_witness :
  exists full d', dom_sid_add_rid (replicate 15 3) example_sid_hex 500 = Some full /\
    dom_sid_split_rid (replicate 15 3) full = (NT_STATUS_OK, Some (d', 500)) /\
    dom_sid_equal (Some d') (Some example_sid_hex) = true.
Proof.
  apply (sid_domain_split (replicate 15 3) example_sid_hex example_sid 500).
  - split; [reflexivity|]. apply Forall_replicate. unfold in_w. lia.
  - exact example_sid_hex_wf.
  - exact example_sid_wf.
  - unfold in_w. lia.
  - reflexivity.
Defined.
