(* ===== verification/SecModel.v ===== *)
(** * Security descriptors, tokens and access checks: the model

    The data of librpc/idl/security.idl, the privilege table of
    libcli/security/privileges.c, libcli/security/security_token.c,
    libcli/security/object_tree.c and libcli/security/access_check.c. A 32-bit
    access mask is a [Z]; an out-parameter is a component of the result. *)

From S2P Require Import Prelude.
From S2P Require Import DomSid.
From stdpp Require Import prelude list strings.

#[local] Open Scope Z_scope.

(** ** Access mask bits *)

Definition SEC_GENERIC_ALL : Z := 0x10000000.
Definition SEC_GENERIC_EXECUTE : Z := 0x20000000.
Definition SEC_GENERIC_WRITE : Z := 0x40000000.
Definition SEC_GENERIC_READ : Z := 0x80000000.
Definition SEC_FLAG_SYSTEM_SECURITY : Z := 0x01000000.
Definition SEC_FLAG_MAXIMUM_ALLOWED : Z := 0x02000000.
Definition SEC_STD_DELETE : Z := 0x00010000.
Definition SEC_STD_READ_CONTROL : Z := 0x00020000.
Definition SEC_STD_WRITE_DAC : Z := 0x00040000.
Definition SEC_STD_WRITE_OWNER : Z := 0x00080000.
Definition SEC_STD_SYNCHRONIZE : Z := 0x00100000.
Definition SEC_ADS_CONTROL_ACCESS : Z := 0x00000100.

(** [SEC_RIGHTS_FILE_READ], [SEC_RIGHTS_FILE_WRITE] and the rights that the
    backup and restore privileges give. *)
Definition SEC_RIGHTS_FILE_READ : Z :=
  Z.lor (Z.lor (Z.lor SEC_STD_READ_CONTROL SEC_STD_SYNCHRONIZE) (Z.lor 0x01 0x80)) 0x08.
Definition SEC_RIGHTS_FILE_WRITE : Z :=
  Z.lor (Z.lor (Z.lor SEC_STD_READ_CONTROL SEC_STD_SYNCHRONIZE) (Z.lor 0x02 0x100))
        (Z.lor 0x10 0x04).
Definition SEC_RIGHTS_PRIV_BACKUP : Z :=
  Z.lor (Z.lor SEC_STD_READ_CONTROL SEC_FLAG_SYSTEM_SECURITY) (Z.lor SEC_RIGHTS_FILE_READ 0x20).
Definition SEC_RIGHTS_PRIV_RESTORE : Z :=
  Z.lor (Z.lor (Z.lor SEC_STD_WRITE_DAC SEC_STD_WRITE_OWNER)
               (Z.lor SEC_FLAG_SYSTEM_SECURITY SEC_RIGHTS_FILE_WRITE))
        (Z.lor (Z.lor 0x02 0x04) SEC_STD_DELETE).

Definition SEC_ACE_FLAG_OBJECT_INHERIT : Z := 0x01.
Definition SEC_ACE_FLAG_CONTAINER_INHERIT : Z := 0x02.
Definition SEC_ACE_FLAG_NO_PROPAGATE_INHERIT : Z := 0x04.
Definition SEC_ACE_FLAG_INHERIT_ONLY : Z := 0x08.
Definition SEC_ACE_FLAG_INHERITED_ACE : Z := 0x10.

Definition SEC_DESC_DACL_PRESENT : Z := 0x0004.

(** ** Data *)

Record GUID := Mk_GUID {
  time_low : Z;
  time_mid : Z;
  time_hi_and_version : Z;
  clock_seq : Z * Z;
  node : list Z
}.

#[export] Instance GUID_eq_dec : EqDecision GUID.
Proof. solve_decision. Defined.

(** [memcmp] on arrays of the same length. *)
Fixpoint memcmp (a b : list Z) : Z :=
  match a, b with
  | x :: a, y :: b => if x =? y then memcmp a b else x - y
  | _, _ => 0
  end.

Definition differ (x y : Z) (rest : Z) : Z :=
  if negb (x =? y) then (if y <? x then 1 else -1) else rest.

Definition GUID_compare (u1 u2 : GUID) : Z :=
  differ (time_low u1) (time_low u2)
  (differ (time_mid u1) (time_mid u2)
  (differ (time_hi_and_version u1) (time_hi_and_version u2)
  (differ (clock_seq u1).1 (clock_seq u2).1
  (differ (clock_seq u1).2 (clock_seq u2).2
  (memcmp (node u1) (node u2)))))).

Definition GUID_equal (u1 u2 : GUID) : bool := GUID_compare u1 u2 =? 0.

Definition GUID_all_zero (u : GUID) : bool :=
  negb (negb (time_low u =? 0) || negb (time_mid u =? 0) || negb (time_hi_and_version u =? 0) ||
        negb ((clock_seq u).1 =? 0) || negb ((clock_seq u).2 =? 0) ||
        negb (forallb (Z.eqb 0) (take 6 (node u)))).

(** The field has 8 bits: values that the enum does not name can be stored. *)
Inductive security_ace_type :=
| SEC_ACE_TYPE_ACCESS_ALLOWED | SEC_ACE_TYPE_ACCESS_DENIED | SEC_ACE_TYPE_SYSTEM_AUDIT
| SEC_ACE_TYPE_SYSTEM_ALARM | SEC_ACE_TYPE_ALLOWED_COMPOUND | SEC_ACE_TYPE_ACCESS_ALLOWED_OBJECT
| SEC_ACE_TYPE_ACCESS_DENIED_OBJECT | SEC_ACE_TYPE_SYSTEM_AUDIT_OBJECT
| SEC_ACE_TYPE_SYSTEM_ALARM_OBJECT
| SEC_ACE_TYPE_OTHER (t : Z).

#[export] Instance security_ace_type_eq_dec : EqDecision security_ace_type.
Proof. solve_decision. Defined.

(** [struct security_ace]; the two optional GUIDs are the members of the object
    union that the object flags mark as present. *)
Record security_ace := Security_ace {
  ace_type : security_ace_type;
  ace_flags : Z;
  access_mask : Z;
  object_type : option GUID;
  inherited_object_type : option GUID;
  trustee : dom_sid
}.

Record security_acl := Security_acl { acl_revision : Z; aces : list security_ace }.

Record security_descriptor := Security_descriptor {
  sd_revision : Z;
  sd_type : Z;
  owner_sid : option dom_sid;
  group_sid : option dom_sid;
  sacl : option security_acl;
  dacl : option security_acl
}.

Record security_token := Security_token {
  sids : list dom_sid;
  privilege_mask : Z;
  rights_mask : Z
}.

(** Well-known SIDs of libcli/security/util_sid.c. *)
Definition well_known (auth sub : Z) : dom_sid :=
  Dom_sid 1 1 [0; 0; 0; 0; 0; auth] (sub :: replicate 14 0).
(** [global_sid_World], S-1-1-0. *)
Definition global_sid_World : dom_sid := well_known 1 0.
Definition global_sid_Creator_Owner : dom_sid := well_known 3 0.
Definition global_sid_Creator_Group : dom_sid := well_known 3 1.
Definition global_sid_Owner_Rights : dom_sid := well_known 3 4.
Definition global_sid_Anonymous : dom_sid := well_known 5 7.
Definition global_sid_System : dom_sid := well_known 5 18.
(** [SID_NT_SELF], S-1-5-10. *)
Definition sid_nt_self : dom_sid := well_known 5 10.

(** ** Tokens *)

Definition security_token_is_sid (token : security_token) (sid : option dom_sid) : bool :=
  match sids token with
  | primary :: _ => dom_sid_equal (Some primary) sid
  | [] => false
  end.

Definition security_token_is_system (token : security_token) : bool :=
  security_token_is_sid token (Some global_sid_System).

Definition security_token_is_anonymous (token : security_token) : bool :=
  security_token_is_sid token (Some global_sid_Anonymous).

Definition security_token_has_sid (token : security_token) (sid : option dom_sid) : bool :=
  existsb (fun s => dom_sid_equal (Some s) sid) (sids token).

(** ** Generic and standard rights *)

Record generic_mapping := Generic_mapping {
  generic_read : Z;
  generic_write : Z;
  generic_execute : Z;
  generic_all : Z
}.

Record standard_mapping := Standard_mapping { std_read : Z; std_all : Z }.

(** If a bit of [from] is set, it is cleared and [to] is added. *)
Definition map_bits (from to mask : Z) : Z :=
  if has_bits mask from then Z.lor (clear_bits mask from) to else mask.

Definition se_map_generic (mask : Z) (mapping : generic_mapping) : Z :=
  let mask := map_bits SEC_GENERIC_READ (generic_read mapping) mask in
  let mask := map_bits SEC_GENERIC_WRITE (generic_write mapping) mask in
  let mask := map_bits SEC_GENERIC_EXECUTE (generic_execute mapping) mask in
  map_bits SEC_GENERIC_ALL (generic_all mapping) mask.

Definition set_access_mask (ace : security_ace) (m : Z) : security_ace :=
  Security_ace (ace_type ace) (ace_flags ace) m (object_type ace) (inherited_object_type ace)
               (trustee ace).

Definition security_acl_map_generic (sa : option security_acl) (mapping : generic_mapping)
    : option security_acl :=
  match sa with
  | None => None
  | Some sa => Some (Security_acl (acl_revision sa)
      (map (fun ace => set_access_mask ace (se_map_generic (access_mask ace) mapping)) (aces sa)))
  end.

Definition STD_WRITE_BITS : Z :=
  Z.lor (Z.lor SEC_STD_DELETE SEC_STD_WRITE_DAC) (Z.lor SEC_STD_WRITE_OWNER SEC_STD_SYNCHRONIZE).

Definition se_map_standard (mask : Z) (mapping : standard_mapping) : Z :=
  let mask := map_bits SEC_STD_READ_CONTROL (std_read mapping) mask in
  map_bits STD_WRITE_BITS (std_all mapping) mask.

(** ** Privileges *)

Definition SEC_PRIV_INVALID : Z := 0x0.
Definition SEC_PRIV_MACHINE_ACCOUNT : Z := 0x6.
Definition SEC_PRIV_TAKE_OWNERSHIP : Z := 0x09.
Definition SEC_PRIV_BACKUP : Z := 0x11.
Definition SEC_PRIV_RESTORE : Z := 0x12.
Definition SEC_PRIV_REMOTE_SHUTDOWN : Z := 0x18.
Definition SEC_PRIV_PRINT_OPERATOR : Z := 0x1001.
Definition SEC_PRIV_ADD_USERS : Z := 0x1002.
Definition SEC_PRIV_DISK_OPERATOR : Z := 0x1003.
Definition SEC_PRIV_SECURITY : Z := 0x8.
Definition SEC_PRIV_SYSTEMTIME : Z := 0x0c.
Definition SEC_PRIV_SHUTDOWN : Z := 0x13.
Definition SEC_PRIV_DEBUG : Z := 0x14.
Definition SEC_PRIV_SYSTEM_ENVIRONMENT : Z := 0x16.
Definition SEC_PRIV_SYSTEM_PROFILE : Z := 0x0b.
Definition SEC_PRIV_PROFILE_SINGLE_PROCESS : Z := 0x0d.
Definition SEC_PRIV_INCREASE_BASE_PRIORITY : Z := 0x0e.
Definition SEC_PRIV_LOAD_DRIVER : Z := 0x0a.
Definition SEC_PRIV_CREATE_PAGEFILE : Z := 0x0f.
Definition SEC_PRIV_INCREASE_QUOTA : Z := 0x5.
Definition SEC_PRIV_CHANGE_NOTIFY : Z := 0x17.
Definition SEC_PRIV_UNDOCK : Z := 0x19.
Definition SEC_PRIV_MANAGE_VOLUME : Z := 0x1c.
Definition SEC_PRIV_IMPERSONATE : Z := 0x1d.
Definition SEC_PRIV_CREATE_GLOBAL : Z := 0x1e.
Definition SEC_PRIV_ENABLE_DELEGATION : Z := 0x1b.

Definition SEC_PRIV_MACHINE_ACCOUNT_BIT : Z := 0x00000010.
Definition SEC_PRIV_TAKE_OWNERSHIP_BIT : Z := 0x00000800.
Definition SEC_PRIV_BACKUP_BIT : Z := 0x00000200.
Definition SEC_PRIV_RESTORE_BIT : Z := 0x00000400.
Definition SEC_PRIV_REMOTE_SHUTDOWN_BIT : Z := 0x00000100.
Definition SEC_PRIV_PRINT_OPERATOR_BIT : Z := 0x00000020.
Definition SEC_PRIV_ADD_USERS_BIT : Z := 0x00000040.
Definition SEC_PRIV_DISK_OPERATOR_BIT : Z := 0x00000080.
Definition SEC_PRIV_SECURITY_BIT : Z := 0x00002000.
Definition SEC_PRIV_SYSTEMTIME_BIT : Z := 0x00010000.
Definition SEC_PRIV_SHUTDOWN_BIT : Z := 0x00100000.
Definition SEC_PRIV_DEBUG_BIT : Z := 0x00200000.
Definition SEC_PRIV_SYSTEM_ENVIRONMENT_BIT : Z := 0x00400000.
Definition SEC_PRIV_SYSTEM_PROFILE_BIT : Z := 0x00008000.
Definition SEC_PRIV_PROFILE_SINGLE_PROCESS_BIT : Z := 0x00020000.
Definition SEC_PRIV_INCREASE_BASE_PRIORITY_BIT : Z := 0x00040000.
Definition SEC_PRIV_LOAD_DRIVER_BIT : Z := 0x00004000.
Definition SEC_PRIV_CREATE_PAGEFILE_BIT : Z := 0x00080000.
Definition SEC_PRIV_INCREASE_QUOTA_BIT : Z := 0x00001000.
Definition SEC_PRIV_CHANGE_NOTIFY_BIT : Z := 0x00800000.
Definition SEC_PRIV_UNDOCK_BIT : Z := 0x01000000.
Definition SEC_PRIV_MANAGE_VOLUME_BIT : Z := 0x04000000.
Definition SEC_PRIV_IMPERSONATE_BIT : Z := 0x08000000.
Definition SEC_PRIV_CREATE_GLOBAL_BIT : Z := 0x10000000.
Definition SEC_PRIV_ENABLE_DELEGATION_BIT : Z := 0x02000000.

Record priv_entry := Priv_entry {
  luid : Z;
  priv_bit : Z;
  priv_name : string;
  priv_description : string
}.

Definition privs : list priv_entry := [
  Priv_entry SEC_PRIV_MACHINE_ACCOUNT SEC_PRIV_MACHINE_ACCOUNT_BIT "SeMachineAccountPrivilege" "Add machines to domain";
  Priv_entry SEC_PRIV_TAKE_OWNERSHIP SEC_PRIV_TAKE_OWNERSHIP_BIT "SeTakeOwnershipPrivilege" "Take ownership of files or other objects";
  Priv_entry SEC_PRIV_BACKUP SEC_PRIV_BACKUP_BIT "SeBackupPrivilege" "Back up files and directories";
  Priv_entry SEC_PRIV_RESTORE SEC_PRIV_RESTORE_BIT "SeRestorePrivilege" "Restore files and directories";
  Priv_entry SEC_PRIV_REMOTE_SHUTDOWN SEC_PRIV_REMOTE_SHUTDOWN_BIT "SeRemoteShutdownPrivilege" "Force shutdown from a remote system";
  Priv_entry SEC_PRIV_PRINT_OPERATOR SEC_PRIV_PRINT_OPERATOR_BIT "SePrintOperatorPrivilege" "Manage printers";
  Priv_entry SEC_PRIV_ADD_USERS SEC_PRIV_ADD_USERS_BIT "SeAddUsersPrivilege" "Add users and groups to the domain";
  Priv_entry SEC_PRIV_DISK_OPERATOR SEC_PRIV_DISK_OPERATOR_BIT "SeDiskOperatorPrivilege" "Manage disk shares";
  Priv_entry SEC_PRIV_SECURITY SEC_PRIV_SECURITY_BIT "SeSecurityPrivilege" "System security";
  Priv_entry SEC_PRIV_SYSTEMTIME SEC_PRIV_SYSTEMTIME_BIT "SeSystemtimePrivilege" "Set the system clock";
  Priv_entry SEC_PRIV_SHUTDOWN SEC_PRIV_SHUTDOWN_BIT "SeShutdownPrivilege" "Shutdown the system";
  Priv_entry SEC_PRIV_DEBUG SEC_PRIV_DEBUG_BIT "SeDebugPrivilege" "Debug processes";
  Priv_entry SEC_PRIV_SYSTEM_ENVIRONMENT SEC_PRIV_SYSTEM_ENVIRONMENT_BIT "SeSystemEnvironmentPrivilege" "Modify system environment";
  Priv_entry SEC_PRIV_SYSTEM_PROFILE SEC_PRIV_SYSTEM_PROFILE_BIT "SeSystemProfilePrivilege" "Profile the system";
  Priv_entry SEC_PRIV_PROFILE_SINGLE_PROCESS SEC_PRIV_PROFILE_SINGLE_PROCESS_BIT "SeProfileSingleProcessPrivilege" "Profile one process";
  Priv_entry SEC_PRIV_INCREASE_BASE_PRIORITY SEC_PRIV_INCREASE_BASE_PRIORITY_BIT "SeIncreaseBasePriorityPrivilege" "Increase base priority";
  Priv_entry SEC_PRIV_LOAD_DRIVER SEC_PRIV_LOAD_DRIVER_BIT "SeLoadDriverPrivilege" "Load drivers";
  Priv_entry SEC_PRIV_CREATE_PAGEFILE SEC_PRIV_CREATE_PAGEFILE_BIT "SeCreatePagefilePrivilege" "Create page files";
  Priv_entry SEC_PRIV_INCREASE_QUOTA SEC_PRIV_INCREASE_QUOTA_BIT "SeIncreaseQuotaPrivilege" "Increase quota";
  Priv_entry SEC_PRIV_CHANGE_NOTIFY SEC_PRIV_CHANGE_NOTIFY_BIT "SeChangeNotifyPrivilege" "Register for change notify";
  Priv_entry SEC_PRIV_UNDOCK SEC_PRIV_UNDOCK_BIT "SeUndockPrivilege" "Undock devices";
  Priv_entry SEC_PRIV_MANAGE_VOLUME SEC_PRIV_MANAGE_VOLUME_BIT "SeManageVolumePrivilege" "Manage system volumes";
  Priv_entry SEC_PRIV_IMPERSONATE SEC_PRIV_IMPERSONATE_BIT "SeImpersonatePrivilege" "Impersonate users";
  Priv_entry SEC_PRIV_CREATE_GLOBAL SEC_PRIV_CREATE_GLOBAL_BIT "SeCreateGlobalPrivilege" "Create global";
  Priv_entry SEC_PRIV_ENABLE_DELEGATION SEC_PRIV_ENABLE_DELEGATION_BIT "SeEnableDelegationPrivilege" "Enable Delegation"
].

(** ASCII [tolower], and [strcasecmp] = 0 on ASCII strings. *)
Definition tolower (c : Ascii.ascii) : Ascii.ascii :=
  let n := Ascii.N_of_ascii c in
  if ((65 <=? n) && (n <=? 90))%N then Ascii.ascii_of_N (n + 32) else c.

Fixpoint strcaseequal (a b : string) : bool :=
  match a, b with
  | String x a, String y b => Ascii.eqb (tolower x) (tolower y) && strcaseequal a b
  | EmptyString, EmptyString => true
  | _, _ => false
  end.

Fixpoint find_priv (p : priv_entry -> bool) (l : list priv_entry) : option priv_entry :=
  match l with
  | [] => None
  | e :: l => if p e then Some e else find_priv p l
  end.

Definition sec_privilege_mask (privilege : Z) : Z :=
  match find_priv (fun e => luid e =? privilege) privs with
  | Some e => priv_bit e
  | None => 0
  end.

Definition se_priv_put_all_privileges : Z :=
  fold_left (fun mask e => Z.lor mask (priv_bit e)) privs 0.

Definition se_priv_from_name (name : string) : option Z :=
  priv_bit <$> find_priv (fun e => strcaseequal (priv_name e) name) privs.

Definition sec_privilege_name (privilege : Z) : option string :=
  priv_name <$> find_priv (fun e => luid e =? privilege) privs.

Definition sec_privilege_display_name (privilege : Z) : option string :=
  priv_description <$> find_priv (fun e => luid e =? privilege) privs.

Definition sec_privilege_id (name : string) : Z :=
  match find_priv (fun e => strcaseequal (priv_name e) name) privs with
  | Some e => luid e
  | None => SEC_PRIV_INVALID
  end.

Definition sec_privilege_from_index (idx : Z) : Z :=
  if (0 <=? idx) && (idx <? Z.of_nat (length privs)) then
    match privs !! Z.to_nat idx with Some e => luid e | None => SEC_PRIV_INVALID end
  else SEC_PRIV_INVALID.

(** [struct lsa_LUIDAttribute] and the arrays of a [PRIVILEGE_SET]. *)
Record lsa_LUIDAttribute := LUIDAttribute { luid_low : Z; luid_high : Z; attribute : Z }.

(** The privileges of the mask in table order, each added by
    [privilege_set_add]; allocation succeeds. *)
Definition se_priv_to_privilege_set (set : list lsa_LUIDAttribute) (mask : Z)
    : list lsa_LUIDAttribute :=
  fold_left (fun set e => if Z.land mask (priv_bit e) =? 0 then set
                          else set ++ [LUIDAttribute (luid e) 0 0]) privs set.

Fixpoint privset_loop (mask : Z) (set : list lsa_LUIDAttribute) : option Z :=
  match set with
  | [] => Some mask
  | a :: rest =>
      if negb (luid_high a =? 0) then None
      else
        let r := sec_privilege_mask (luid_low a) in
        privset_loop (if negb (r =? 0) then Z.lor mask r else mask) rest
  end.

Definition privilege_set_to_se_priv (set : list lsa_LUIDAttribute) : option Z := privset_loop 0 set.

Definition security_token_has_privilege (token : security_token) (privilege : Z) : bool :=
  let mask := sec_privilege_mask privilege in
  if mask =? 0 then false else has_bits (privilege_mask token) mask.

Definition security_token_system_privilege (token : security_token) : bool :=
  privilege_mask token =? 0xFFFFFFFFFFFFFFFF.

Definition security_token_set_privilege (token : security_token) (privilege : Z) : security_token :=
  Security_token (sids token) (Z.lor (privilege_mask token) (sec_privilege_mask privilege))
                 (rights_mask token).

Definition security_token_set_right_bit (token : security_token) (bit : Z) : security_token :=
  Security_token (sids token) (privilege_mask token) (Z.lor (rights_mask token) bit).

(** ** Object trees

    A node pointer into a tree is the path of child indices to the node. *)

#[warnings="-register-all"]
Inductive object_tree :=
| Object_tree (remaining_access : Z) (guid : GUID) (children : list object_tree).

Definition tree_access (t : object_tree) : Z := let 'Object_tree r _ _ := t in r.
Definition tree_guid (t : object_tree) : GUID := let 'Object_tree _ g _ := t in g.
Definition tree_children (t : object_tree) : list object_tree := let 'Object_tree _ _ c := t in c.

Fixpoint get_object_tree_by_GUID (root : object_tree) (g : GUID) : option (list nat) :=
  if GUID_equal (tree_guid root) g then Some []
  else
    (fix go (i : nat) (cs : list object_tree) : option (list nat) :=
       match cs with
       | [] => None
       | c :: cs => match get_object_tree_by_GUID c g with
                    | Some p => Some (i :: p)
                    | None => go (S i) cs
                    end
       end) O (tree_children root).

Fixpoint object_tree_modify_access (root : object_tree) (mask : Z) : object_tree :=
  let 'Object_tree r g cs := root in
  Object_tree (clear_bits r mask) g (map (fun c => object_tree_modify_access c mask) cs).

(** The node at a path, and the tree with that node replaced by its image. *)
Fixpoint node_at (root : object_tree) (path : list nat) : option object_tree :=
  match path with
  | [] => Some root
  | i :: path => c ← tree_children root !! i; node_at c path
  end.

Fixpoint update_at (f : object_tree -> object_tree) (root : object_tree) (path : list nat)
    : object_tree :=
  match path with
  | [] => f root
  | i :: path => Object_tree (tree_access root) (tree_guid root)
                   (alter (fun c => update_at f c path) i (tree_children root))
  end.

(** [insert_in_object_tree]: the tree with the node, and the path of the node;
    [None] for the path where the code leaves [new_node_out] alone. *)
Fixpoint find_child (g : GUID) (i : nat) (cs : list object_tree) : option nat :=
  match cs with
  | [] => None
  | c :: cs => if GUID_equal (tree_guid c) g then Some i else find_child g (S i) cs
  end.

Definition insert_in_object_tree (g : option GUID) (init_access : Z) (root : option object_tree)
    : option object_tree * option (list nat) :=
  match g with
  | None => (root, None)
  | Some g =>
      if GUID_all_zero g then (root, None)
      else
        match root with
        | None => (Some (Object_tree init_access g []), Some [])
        | Some (Object_tree r rg cs) =>
            match find_child g 0 cs with
            | Some i =>
                (Some (Object_tree r rg
                   (alter (fun c => Object_tree (Z.lor (tree_access c) init_access) (tree_guid c)
                                      (tree_children c)) i cs)), Some [i])
            | None =>
                (Some (Object_tree r rg (cs ++ [Object_tree init_access g []])), Some [length cs])
            end
        end
  end.

(** ** Access checks *)

Definition inherit_only (ace : security_ace) : bool :=
  has_bits (ace_flags ace) SEC_ACE_FLAG_INHERIT_ONLY.

Definition is_owner_rights (ace : security_ace) : bool :=
  dom_sid_equal (Some (trustee ace)) (Some global_sid_Owner_Rights).

(** The loop that looks for an owner rights ACE. *)
Fixpoint find_owner_rights (l : list security_ace) : bool :=
  match l with
  | [] => false
  | ace :: l => if inherit_only ace then find_owner_rights l
                else if is_owner_rights ace then true else find_owner_rights l
  end.

(** Whether the loops over the DACL skip the entry. *)
Definition ace_skipped (token : security_token) (am_owner : bool) (ace : security_ace) : bool :=
  if inherit_only ace then true
  else
    let is_owner_rights_ace := if am_owner then is_owner_rights ace else false in
    negb is_owner_rights_ace && negb (security_token_has_sid token (Some (trustee ace))).

Definition OWNER_BITS : Z := Z.lor SEC_STD_WRITE_DAC SEC_STD_READ_CONTROL.

Fixpoint max_allowed_loop (token : security_token) (am_owner : bool) (l : list security_ace)
    (granted denied : Z) : Z * Z :=
  match l with
  | [] => (granted, denied)
  | ace :: l =>
      if ace_skipped token am_owner ace then max_allowed_loop token am_owner l granted denied
      else
        match ace_type ace with
        | SEC_ACE_TYPE_ACCESS_ALLOWED =>
            max_allowed_loop token am_owner l (Z.lor granted (access_mask ace)) denied
        | SEC_ACE_TYPE_ACCESS_DENIED | SEC_ACE_TYPE_ACCESS_DENIED_OBJECT =>
            max_allowed_loop token am_owner l granted
              (Z.lor denied (clear_bits (access_mask ace) granted))
        | _ => max_allowed_loop token am_owner l granted denied
        end
  end.

Definition access_check_max_allowed (sd : security_descriptor) (token : security_token) : Z :=
  match dacl sd with
  | None => if security_token_has_sid token (owner_sid sd) then OWNER_BITS else 0
  | Some acl =>
      let am_owner := security_token_has_sid token (owner_sid sd) in
      let have_owner_rights_ace := if am_owner then find_owner_rights (aces acl) else false in
      let granted := if am_owner && negb have_owner_rights_ace then OWNER_BITS else 0 in
      let '(granted, denied) := max_allowed_loop token am_owner (aces acl) granted 0 in
      clear_bits granted denied
  end.

Fixpoint access_loop (token : security_token) (am_owner : bool) (l : list security_ace)
    (bits_remaining explicitly_denied_bits : Z) : Z * Z :=
  match l with
  | [] => (bits_remaining, explicitly_denied_bits)
  | ace :: l =>
      if bits_remaining =? 0 then (bits_remaining, explicitly_denied_bits)
      else if ace_skipped token am_owner ace
      then access_loop token am_owner l bits_remaining explicitly_denied_bits
      else
        match ace_type ace with
        | SEC_ACE_TYPE_ACCESS_ALLOWED =>
            access_loop token am_owner l (clear_bits bits_remaining (access_mask ace))
              explicitly_denied_bits
        | SEC_ACE_TYPE_ACCESS_DENIED | SEC_ACE_TYPE_ACCESS_DENIED_OBJECT =>
            access_loop token am_owner l bits_remaining
              (Z.lor explicitly_denied_bits (Z.land bits_remaining (access_mask ace)))
        | _ => access_loop token am_owner l bits_remaining explicitly_denied_bits
        end
  end.

Definition finish_check (desired bits_remaining : Z) : NTSTATUS * Z :=
  if negb (bits_remaining =? 0) then (NT_STATUS_ACCESS_DENIED, bits_remaining)
  else (NT_STATUS_OK, desired).

Definition max_desired (sd : security_descriptor) (token : security_token) (desired : Z) : Z :=
  if has_bits desired SEC_FLAG_MAXIMUM_ALLOWED
  then clear_bits (Z.lor desired (access_check_max_allowed sd token)) SEC_FLAG_MAXIMUM_ALLOWED
  else desired.

(** The status and the value left in [access_granted]. *)
Definition se_access_check (sd : security_descriptor) (token : security_token) (desired : Z)
    : NTSTATUS * Z :=
  let desired := max_desired sd token desired in
  match dacl sd with
  | None =>
      if has_bits (sd_type sd) SEC_DESC_DACL_PRESENT then (NT_STATUS_OK, desired)
      else finish_check desired desired
  | Some acl =>
      let am_owner := security_token_has_sid token (owner_sid sd) in
      let have_owner_rights_ace := if am_owner then find_owner_rights (aces acl) else false in
      let bits := if am_owner && negb have_owner_rights_ace then clear_bits desired OWNER_BITS
                  else desired in
      let '(bits, denied) := access_loop token am_owner (aces acl) bits 0 in
      let bits := Z.lor bits denied in
      if has_bits bits SEC_FLAG_SYSTEM_SECURITY &&
         negb (security_token_has_privilege token SEC_PRIV_SECURITY)
      then (NT_STATUS_PRIVILEGE_NOT_HELD, desired)
      else
        let bits := if has_bits bits SEC_FLAG_SYSTEM_SECURITY
                    then clear_bits bits SEC_FLAG_SYSTEM_SECURITY else bits in
        let bits := if has_bits bits SEC_STD_WRITE_OWNER &&
                       security_token_has_privilege token SEC_PRIV_TAKE_OWNERSHIP
                    then clear_bits bits SEC_STD_WRITE_OWNER else bits in
        finish_check desired bits
  end.

Definition se_file_access_check (sd : security_descriptor) (token : security_token)
    (priv_open_requested : bool) (desired : Z) : NTSTATUS * Z :=
  if negb priv_open_requested then se_access_check sd token desired
  else
    let desired :=
      if has_bits desired SEC_FLAG_MAXIMUM_ALLOWED then
        let d := clear_bits (Z.lor desired (access_check_max_allowed sd token))
                            SEC_FLAG_MAXIMUM_ALLOWED in
        let d := if security_token_has_privilege token SEC_PRIV_BACKUP
                 then Z.lor d SEC_RIGHTS_PRIV_BACKUP else d in
        if security_token_has_privilege token SEC_PRIV_RESTORE
        then Z.lor d SEC_RIGHTS_PRIV_RESTORE else d
      else desired in
    let '(status, granted) := se_access_check sd token desired in
    if negb (status =? NT_STATUS_ACCESS_DENIED) then (status, granted)
    else
      let bits := granted in
      let bits := if has_bits bits SEC_RIGHTS_PRIV_BACKUP &&
                     security_token_has_privilege token SEC_PRIV_BACKUP
                  then clear_bits bits SEC_RIGHTS_PRIV_BACKUP else bits in
      let bits := if has_bits bits SEC_RIGHTS_PRIV_RESTORE &&
                     security_token_has_privilege token SEC_PRIV_RESTORE
                  then clear_bits bits SEC_RIGHTS_PRIV_RESTORE else bits in
      if negb (bits =? 0) then (NT_STATUS_ACCESS_DENIED, bits) else (NT_STATUS_OK, granted).

Definition get_ace_object_type (ace : security_ace) : option GUID := object_type ace.

(** Status, [grant_access] and the tree after the call. *)
Definition check_object_specific_access (ace : security_ace) (tree : option object_tree)
    : NTSTATUS * bool * option object_tree :=
  match tree with
  | None => (NT_STATUS_OK, false, None)
  | Some t =>
      let node := match get_ace_object_type ace with
                  | None => Some []
                  | Some g => get_object_tree_by_GUID t g
                  end in
      match node with
      | None => (NT_STATUS_OK, false, tree)
      | Some p =>
          if bool_decide (ace_type ace = SEC_ACE_TYPE_ACCESS_ALLOWED_OBJECT) then
            let t := update_at (fun n => object_tree_modify_access n (access_mask ace)) t p in
            if bool_decide (tree_access <$> node_at t p = Some 0) then (NT_STATUS_OK, true, Some t)
            else if has_bits (access_mask ace) SEC_ADS_CONTROL_ACCESS
            then (NT_STATUS_OK, true, Some t)
            else (NT_STATUS_OK, false, Some t)
          else
            if has_bits (default 0 (tree_access <$> node_at t p)) (access_mask ace)
            then (NT_STATUS_ACCESS_DENIED, false, tree)
            else (NT_STATUS_OK, false, tree)
      end
  end.

(** The loop of [sec_access_check_ds]: a status when it returns from inside the
    loop, else the remaining bits. *)
Fixpoint ds_loop (token : security_token) (replace_sid : option dom_sid)
    (tree : option object_tree) (l : list security_ace) (bits_remaining : Z) : NTSTATUS + Z :=
  match l with
  | [] => inr bits_remaining
  | ace :: l =>
      if bits_remaining =? 0 then inr bits_remaining
      else if inherit_only ace then ds_loop token replace_sid tree l bits_remaining
      else
        let who := if dom_sid_equal (Some (trustee ace)) (Some sid_nt_self) &&
                      bool_decide (is_Some replace_sid)
                   then replace_sid else Some (trustee ace) in
        if negb (security_token_has_sid token who)
        then ds_loop token replace_sid tree l bits_remaining
        else
          match ace_type ace with
          | SEC_ACE_TYPE_ACCESS_ALLOWED =>
              ds_loop token replace_sid
                ((fun t => object_tree_modify_access t (access_mask ace)) <$> tree) l
                (clear_bits bits_remaining (access_mask ace))
          | SEC_ACE_TYPE_ACCESS_DENIED =>
              if has_bits bits_remaining (access_mask ace) then inl NT_STATUS_ACCESS_DENIED
              else ds_loop token replace_sid tree l bits_remaining
          | SEC_ACE_TYPE_ACCESS_DENIED_OBJECT | SEC_ACE_TYPE_ACCESS_ALLOWED_OBJECT =>
              let '(status, grant_access, tree) := check_object_specific_access ace tree in
              if negb (NT_STATUS_IS_OK status) then inl status
              else if grant_access then inl NT_STATUS_OK
              else ds_loop token replace_sid tree l bits_remaining
          | _ => ds_loop token replace_sid tree l bits_remaining
          end
  end.

Definition sec_access_check_ds (sd : security_descriptor) (token : security_token) (desired : Z)
    (tree : option object_tree) (replace_sid : option dom_sid) : NTSTATUS * Z :=
  let desired := max_desired sd token desired in
  if has_bits desired SEC_FLAG_SYSTEM_SECURITY &&
     negb (security_token_has_privilege token SEC_PRIV_SECURITY)
  then (NT_STATUS_PRIVILEGE_NOT_HELD, desired)
  else
    let bits := if has_bits desired SEC_FLAG_SYSTEM_SECURITY
                then clear_bits desired SEC_FLAG_SYSTEM_SECURITY else desired in
    let bits := if has_bits bits OWNER_BITS && security_token_has_sid token (owner_sid sd)
                then clear_bits bits OWNER_BITS else bits in
    let bits := if has_bits bits SEC_STD_WRITE_OWNER &&
                   security_token_has_privilege token SEC_PRIV_TAKE_OWNERSHIP
                then clear_bits bits SEC_STD_WRITE_OWNER else bits in
    match dacl sd with
    | None =>
        if has_bits (sd_type sd) SEC_DESC_DACL_PRESENT then (NT_STATUS_OK, desired)
        else (if negb (bits =? 0) then NT_STATUS_ACCESS_DENIED else NT_STATUS_OK, desired)
    | Some acl =>
        match ds_loop token replace_sid tree (aces acl) bits with
        | inl status => (status, desired)
        | inr bits => (if negb (bits =? 0) then NT_STATUS_ACCESS_DENIED else NT_STATUS_OK, desired)
        end
    end.
