(* ===== verification/AccessProps.v ===== *)
(** * Access checks: properties

    The specification of the access decision bit by bit, and the theorems that
    [se_access_check], [access_check_max_allowed], [se_file_access_check] and
    [sec_access_check_ds] implement it; the privilege table; where the code
    does not do what it means to. *)

From S2P Require Import Prelude.
From S2P Require Import DomSid.
From S2P Require Import SecModel.
From stdpp Require Import prelude list strings.

#[local] Open Scope Z_scope.
#[local] Arguments Z.testbit : simpl never.

(** ** Specification *)

(** The first entry of the list that applies to the token and has the bit
    decides: it allows or denies. *)
Fixpoint first_match (token : security_token) (am_owner : bool) (l : list security_ace) (i : Z)
    : option bool :=
  match l with
  | [] => None
  | ace :: l =>
      if ace_skipped token am_owner ace then first_match token am_owner l i
      else
        match ace_type ace with
        | SEC_ACE_TYPE_ACCESS_ALLOWED =>
            if Z.testbit (access_mask ace) i then Some true else first_match token am_owner l i
        | SEC_ACE_TYPE_ACCESS_DENIED | SEC_ACE_TYPE_ACCESS_DENIED_OBJECT =>
            if Z.testbit (access_mask ace) i then Some false else first_match token am_owner l i
        | _ => first_match token am_owner l i
        end
  end.

Definition allows (d : option bool) : bool := match d with Some true => true | _ => false end.

(** The owner has READ_CONTROL and WRITE_DAC unless the list has an owner
    rights entry. *)
Definition owner_implicit (sd : security_descriptor) (token : security_token) (acl : security_acl)
    : bool :=
  security_token_has_sid token (owner_sid sd) && negb (find_owner_rights (aces acl)).

Definition bit_allowed (sd : security_descriptor) (token : security_token) (acl : security_acl)
    (i : Z) : bool :=
  (owner_implicit sd token acl && Z.testbit OWNER_BITS i) ||
  allows (first_match token (security_token_has_sid token (owner_sid sd)) (aces acl) i).

(** Bits 24 and 19 are SYSTEM_SECURITY and WRITE_OWNER. *)
Definition priv_allows (token : security_token) (i : Z) : bool :=
  ((i =? 24) && security_token_has_privilege token SEC_PRIV_SECURITY) ||
  ((i =? 19) && security_token_has_privilege token SEC_PRIV_TAKE_OWNERSHIP).

(** ** Bits *)

Lemma clear_bits_spec (x m i : Z) :
  Z.testbit (clear_bits x m) i = Z.testbit x i && negb (Z.testbit m i).
Proof. apply Z.ldiff_spec. Qed.

Lemma has_bit_pow (x k : Z) : 0 <= k -> has_bits x (2 ^ k) = Z.testbit x k.
Proof.
  intros Hk. unfold has_bits. destruct (Z.testbit x k) eqn:E.
  - apply negb_true_iff, Z.eqb_neq. intros H.
    apply (f_equal (fun z => Z.testbit z k)) in H.
    rewrite Z.land_spec, E, Z.pow2_bits_true, Z.bits_0 in H by lia. done.
  - apply negb_false_iff, Z.eqb_eq, Z.bits_inj_0. intros i. rewrite Z.land_spec.
    destruct (Z.eq_dec i k) as [->|Hne]; [by rewrite E|].
    rewrite Z.pow2_bits_false by lia. apply andb_false_r.
Qed.

Lemma pow2_testbit (k i : Z) : 0 <= k -> Z.testbit (2 ^ k) i = (i =? k).
Proof.
  intros Hk. destruct (Z.eqb_spec i k) as [->|Hne]; [by apply Z.pow2_bits_true|].
  by apply Z.pow2_bits_false; lia.
Qed.

Lemma zero_iff (x : Z) : x = 0 <-> forall i, Z.testbit x i = false.
Proof.
  split; [intros ->; apply Z.bits_0|]. intros H. apply Z.bits_inj_0. exact H.
Qed.

(** Clearing bits that may or may not be set. *)
Lemma clear_if (c : bool) (x m i : Z) :
  Z.testbit (if has_bits x m && c then clear_bits x m else x) i =
  Z.testbit x i && negb (c && Z.testbit m i).
Proof.
  destruct (has_bits x m) eqn:E, c; simpl; rewrite ?clear_bits_spec, ?andb_true_r; try done.
  unfold has_bits in E. apply negb_false_iff, Z.eqb_eq in E.
  apply (f_equal (fun z => Z.testbit z i)) in E. rewrite Z.land_spec, Z.bits_0 in E.
  by destruct (Z.testbit x i), (Z.testbit m i).
Qed.

(** ** The loops *)

Lemma access_loop_spec (token : security_token) (am : bool) (l : list security_ace)
    (bits denied i : Z) :
  Z.testbit (let '(b, d) := access_loop token am l bits denied in Z.lor b d) i =
  Z.testbit denied i || (Z.testbit bits i && negb (allows (first_match token am l i))).
Proof.
  revert bits denied. induction l as [|ace l IH]; intros bits denied; simpl.
  { rewrite Z.lor_spec, andb_true_r. apply orb_comm. }
  destruct (Z.eqb_spec bits 0) as [->|_].
  { rewrite Z.lor_spec, Z.bits_0. by rewrite orb_false_r. }
  destruct (ace_skipped token am ace); [apply IH|].
  destruct (ace_type ace); rewrite IH; rewrite ?clear_bits_spec, ?Z.lor_spec, ?Z.land_spec;
    try done; by destruct (Z.testbit (access_mask ace) i), (Z.testbit denied i), (Z.testbit bits i),
      (first_match token am l i) as [[]|].
Qed.

Lemma max_loop_spec (token : security_token) (am : bool) (l : list security_ace)
    (granted denied i : Z) :
  Z.testbit (let '(g, d) := max_allowed_loop token am l granted denied in clear_bits g d) i =
  negb (Z.testbit denied i) && (Z.testbit granted i || allows (first_match token am l i)).
Proof.
  revert granted denied. induction l as [|ace l IH]; intros granted denied; simpl.
  { rewrite clear_bits_spec, orb_false_r. apply andb_comm. }
  destruct (ace_skipped token am ace); [apply IH|].
  destruct (ace_type ace); rewrite IH; rewrite ?Z.lor_spec, ?clear_bits_spec; try done;
    by destruct (Z.testbit (access_mask ace) i), (Z.testbit denied i), (Z.testbit granted i),
      (first_match token am l i) as [[]|].
Qed.

Lemma max_allowed_spec (sd : security_descriptor) (token : security_token) (acl : security_acl)
    (i : Z) :
  dacl sd = Some acl ->
  Z.testbit (access_check_max_allowed sd token) i = bit_allowed sd token acl i.
Proof.
  intros Hd. unfold access_check_max_allowed, bit_allowed, owner_implicit. rewrite Hd.
  set (am := security_token_has_sid token (owner_sid sd)).
  match goal with |- context [max_allowed_loop _ _ _ ?g _] => set (g0 := g) end.
  pose proof (max_loop_spec token am (aces acl) g0 0 i) as H.
  destruct (max_allowed_loop _ _ _ _ _) as [g d]. rewrite H, Z.bits_0. simpl.
  unfold g0. destruct am, (find_owner_rights (aces acl)); simpl; by rewrite ?Z.bits_0.
Qed.

(** What is left of the desired bits after the list. *)
Definition left_over (sd : security_descriptor) (token : security_token) (acl : security_acl)
    (desired : Z) : Z :=
  let am_owner := security_token_has_sid token (owner_sid sd) in
  let bits := if am_owner && negb (if am_owner then find_owner_rights (aces acl) else false)
              then clear_bits desired OWNER_BITS else desired in
  let '(b, d) := access_loop token am_owner (aces acl) bits 0 in Z.lor b d.

Lemma left_over_spec (sd : security_descriptor) (token : security_token) (acl : security_acl)
    (desired i : Z) :
  Z.testbit (left_over sd token acl desired) i =
  Z.testbit desired i && negb (bit_allowed sd token acl i).
Proof.
  unfold left_over. rewrite access_loop_spec, Z.bits_0. simpl.
  unfold bit_allowed, owner_implicit.
  destruct (security_token_has_sid token (owner_sid sd)), (find_owner_rights (aces acl)); simpl;
    rewrite ?clear_bits_spec; try done.
  by destruct (Z.testbit desired i), (Z.testbit OWNER_BITS i), (allows _).
Qed.

(** The bits that [se_access_check] denies. *)
Definition denied_bits (sd : security_descriptor) (token : security_token) (acl : security_acl)
    (desired : Z) : Z :=
  let bits := left_over sd token acl desired in
  let bits := if has_bits bits SEC_FLAG_SYSTEM_SECURITY
              then clear_bits bits SEC_FLAG_SYSTEM_SECURITY else bits in
  if has_bits bits SEC_STD_WRITE_OWNER &&
     security_token_has_privilege token SEC_PRIV_TAKE_OWNERSHIP
  then clear_bits bits SEC_STD_WRITE_OWNER else bits.

Lemma se_access_check_eq (sd : security_descriptor) (token : security_token) (acl : security_acl)
    (desired : Z) :
  dacl sd = Some acl ->
  se_access_check sd token desired =
  let desired := max_desired sd token desired in
  if Z.testbit (left_over sd token acl desired) 24 &&
     negb (security_token_has_privilege token SEC_PRIV_SECURITY)
  then (NT_STATUS_PRIVILEGE_NOT_HELD, desired)
  else finish_check desired (denied_bits sd token acl desired).
Proof.
  intros Hd. unfold se_access_check, left_over, denied_bits, left_over. rewrite Hd.
  destruct (access_loop _ _ _ _ _) as [b d]. cbv zeta.
  by rewrite <- (has_bit_pow _ 24) by lia.
Qed.

Lemma denied_bits_spec (sd : security_descriptor) (token : security_token) (acl : security_acl)
    (desired i : Z) :
  Z.testbit (left_over sd token acl desired) 24 &&
    negb (security_token_has_privilege token SEC_PRIV_SECURITY) = false ->
  Z.testbit (denied_bits sd token acl desired) i =
  Z.testbit desired i && negb (bit_allowed sd token acl i || priv_allows token i).
Proof.
  intros Hp. unfold denied_bits. rewrite clear_if.
  change SEC_STD_WRITE_OWNER with (2 ^ 19). change SEC_FLAG_SYSTEM_SECURITY with (2 ^ 24).
  rewrite pow2_testbit by lia. rewrite <- (andb_true_r (has_bits _ (2 ^ 24))), clear_if.
  rewrite pow2_testbit, left_over_spec by lia. unfold priv_allows.
  destruct (Z.eqb_spec i 24) as [->|_]; cbn [andb orb negb].
  - rewrite left_over_spec in Hp. change (24 =? 19) with false. cbn [andb].
    destruct (Z.testbit desired 24), (bit_allowed sd token acl 24),
      (security_token_has_privilege token SEC_PRIV_SECURITY),
      (security_token_has_privilege token SEC_PRIV_TAKE_OWNERSHIP); done.
  - destruct (i =? 19), (security_token_has_privilege token SEC_PRIV_TAKE_OWNERSHIP),
      (Z.testbit desired i), (bit_allowed sd token acl i); done.
Qed.

(** The check sees of a descriptor with a list only which bits it allows. *)
Lemma se_access_check_ext (sd1 sd2 : security_descriptor) (token : security_token)
    (acl1 acl2 : security_acl) (desired : Z) :
  dacl sd1 = Some acl1 -> dacl sd2 = Some acl2 ->
  (forall i, bit_allowed sd1 token acl1 i = bit_allowed sd2 token acl2 i) ->
  se_access_check sd1 token desired = se_access_check sd2 token desired.
Proof.
  intros H1 H2 Hb. rewrite (se_access_check_eq _ _ _ _ H1), (se_access_check_eq _ _ _ _ H2).
  assert (access_check_max_allowed sd1 token = access_check_max_allowed sd2 token) as Hm
    by (apply Z.bits_inj; intros i; rewrite (max_allowed_spec _ _ _ _ H1), (max_allowed_spec _ _ _ _ H2); auto).
  unfold max_desired. rewrite Hm. cbv zeta.
  set (d := if has_bits desired _ then _ else _).
  assert (left_over sd1 token acl1 d = left_over sd2 token acl2 d) as Hl
    by (apply Z.bits_inj; intros i; by rewrite !left_over_spec, Hb).
  unfold denied_bits. by rewrite Hl.
Qed.

(** ** Properties *)

Lemma finish_status (desired bits : Z) :
  (finish_check desired bits).1 = NT_STATUS_OK <-> bits = 0.
Proof.
  unfold finish_check. destruct (Z.eqb_spec bits 0); simpl; [done|]. by split; [|intros ?].
Qed.

(** C4. The access decision: for a descriptor with a DACL and a request without
    MAXIMUM_ALLOWED, the check fails for lack of privilege exactly when
    SYSTEM_SECURITY is asked for, not allowed by the list and the token has no
    security privilege; otherwise it succeeds exactly when every desired bit is
    allowed, where a bit is allowed if the first applicable entry that has it
    allows it, or the owner has it implicitly, or a privilege gives it; on
    success the granted mask is the desired one, on denial it is exactly the
    set of bits that are not allowed. *)
Theorem se_access_check_decision (sd : security_descriptor) (token : security_token)
    (acl : security_acl) (desired : Z) :
  dacl sd = Some acl -> has_bits desired SEC_FLAG_MAXIMUM_ALLOWED = false ->
  let '(status, granted) := se_access_check sd token desired in
  (status = NT_STATUS_PRIVILEGE_NOT_HELD <->
   Z.testbit desired 24 = true /\ bit_allowed sd token acl 24 = false /\
   security_token_has_privilege token SEC_PRIV_SECURITY = false) /\
  (status = NT_STATUS_OK <->
   forall i, Z.testbit desired i = true -> bit_allowed sd token acl i || priv_allows token i = true) /\
  (status = NT_STATUS_OK -> granted = desired) /\
  (status = NT_STATUS_ACCESS_DENIED -> forall i,
   Z.testbit granted i =
   Z.testbit desired i && negb (bit_allowed sd token acl i || priv_allows token i)).
Proof.
  intros Hd Hm. rewrite (se_access_check_eq sd token acl) by done.
  unfold max_desired. rewrite Hm. cbv zeta.
  destruct (_ && negb _) eqn:Hp.
  - rewrite left_over_spec, !andb_true_iff, !negb_true_iff in Hp. destruct Hp as [[H1 H2] H3].
    split_and!; [tauto| |done|done]. split; [done|]. intros H. specialize (H 24 H1).
    unfold priv_allows in H. by rewrite H2, H3 in H.
  - assert (forall i, Z.testbit (denied_bits sd token acl desired) i = _) as Hs
      by (intros i; by apply denied_bits_spec).
    rewrite left_over_spec in Hp. unfold finish_check.
    destruct (Z.eqb_spec (denied_bits sd token acl desired) 0) as [Hz|Hz]; simpl; split_and!; try done.
    + split; [done|]. intros (H1 & H2 & H3). by rewrite H1, H2, H3 in Hp.
    + split; [|done]. intros _ i Hi. specialize (Hs i). rewrite Hz, Z.bits_0, Hi in Hs.
      by destruct (_ || _).
    + split; [done|]. intros (H1 & H2 & H3). by rewrite H1, H2, H3 in Hp.
    + split; [done|]. intros H. destruct Hz. apply zero_iff. intros i. rewrite Hs.
      destruct (Z.testbit desired i) eqn:E; [|done]. by rewrite (H i E).
Qed.

(** A user in one group; a list that denies the user writing and allows the
    group reading and writing. *)
Definition user_sid : dom_sid := Dom_sid 1 2 [0; 0; 0; 0; 0; 5] ([21; 1000] ++ replicate 13 0).
Definition group_of_user : dom_sid := Dom_sid 1 2 [0; 0; 0; 0; 0; 5] ([21; 2000] ++ replicate 13 0).
Definition other_sid : dom_sid := Dom_sid 1 2 [0; 0; 0; 0; 0; 5] ([21; 3000] ++ replicate 13 0).
Definition user_token (privileges : Z) : security_token :=
  Security_token [user_sid; group_of_user] privileges 0.
Definition plain_ace (t : security_ace_type) (mask : Z) (who : dom_sid) : security_ace :=
  Security_ace t 0 mask None None who.
Definition sample_acl : security_acl :=
  Security_acl 2 [plain_ace SEC_ACE_TYPE_ACCESS_DENIED 0x2 user_sid;
                  plain_ace SEC_ACE_TYPE_ACCESS_ALLOWED 0x3 group_of_user].
Definition sample_sd (owner : dom_sid) : security_descriptor :=
  Security_descriptor 1 SEC_DESC_DACL_PRESENT (Some owner) None None (Some sample_acl).

Lemma se_access_check_decision_witness :
  se_access_check (sample_sd other_sid) (user_token 0) 0x3 = (NT_STATUS_ACCESS_DENIED, 0x2) /\
  let '(status, granted) := se_access_check (sample_sd other_sid) (user_token 0) 0x3 in
  status = NT_STATUS_ACCESS_DENIED -> forall i,
    Z.testbit granted i = Z.testbit 0x3 i &&
      negb (bit_allowed (sample_sd other_sid) (user_token 0) sample_acl i ||
            priv_allows (user_token 0) i).
Proof.
  split; [vm_compute; reflexivity|].
  exact (proj2 (proj2 (proj2
    (se_access_check_decision (sample_sd other_sid) (user_token 0) sample_acl 0x3
       ltac:(reflexivity) ltac:(reflexivity))))).
Defined.

(** MAXIMUM_ALLOWED is exact: for a descriptor with a DACL, asking for
    MAXIMUM_ALLOWED alone succeeds and grants exactly the allowed bits, and for a token without the privileges a request
    without MAXIMUM_ALLOWED succeeds exactly when it is contained in that
    mask. *)
Theorem maximum_allowed_exact (sd : security_descriptor) (token : security_token)
    (acl : security_acl) :
  dacl sd = Some acl ->
  exists m, se_access_check sd token SEC_FLAG_MAXIMUM_ALLOWED = (NT_STATUS_OK, m) /\
    (forall i, Z.testbit m i = bit_allowed sd token acl i && negb (i =? 25)) /\
    (forall desired, (forall i, priv_allows token i = false) ->
       has_bits desired SEC_FLAG_MAXIMUM_ALLOWED = false ->
       ((se_access_check sd token desired).1 = NT_STATUS_OK <-> Z.ldiff desired m = 0)).
Proof.
  intros Hd. set (m := max_desired sd token SEC_FLAG_MAXIMUM_ALLOWED).
  assert (forall i, Z.testbit m i = bit_allowed sd token acl i && negb (i =? 25)) as Hm.
  { intros i. unfold m, max_desired.
    change (has_bits SEC_FLAG_MAXIMUM_ALLOWED SEC_FLAG_MAXIMUM_ALLOWED) with true. cbv iota.
    rewrite clear_bits_spec, Z.lor_spec, (max_allowed_spec sd token acl i Hd).
    change SEC_FLAG_MAXIMUM_ALLOWED with (2 ^ 25). rewrite pow2_testbit by lia.
    by destruct (i =? 25), (bit_allowed sd token acl i). }
  assert (left_over sd token acl m = 0) as Hlo.
  { apply zero_iff. intros i. rewrite left_over_spec, Hm.
    by destruct (bit_allowed sd token acl i), (i =? 25). }
  exists m. split_and!; [|done|].
  - rewrite (se_access_check_eq sd token acl) by done. cbv zeta. fold m.
    rewrite Hlo. cbn [andb]. unfold denied_bits. by rewrite Hlo.
  - intros desired Hpr Hnm. rewrite (se_access_check_eq sd token acl) by done.
    unfold max_desired. rewrite Hnm. cbv zeta.
    assert (has_bits desired SEC_FLAG_MAXIMUM_ALLOWED = Z.testbit desired 25) as H25
      by (apply (has_bit_pow desired 25); lia).
    rewrite zero_iff. setoid_rewrite Z.ldiff_spec. setoid_rewrite Hm.
    assert (forall i, Z.testbit (left_over sd token acl desired) i =
              Z.testbit desired i && negb (bit_allowed sd token acl i && negb (i =? 25))) as Hb.
    { intros i. rewrite left_over_spec. destruct (Z.eqb_spec i 25) as [->|].
      - by rewrite <- H25, Hnm.
      - by rewrite andb_true_r. }
    setoid_rewrite <- Hb. destruct (_ && negb _) eqn:Hp.
    + split; [done|]. intros H. by rewrite (H 24) in Hp.
    + rewrite finish_status, zero_iff. split; intros H i; specialize (H i).
      * rewrite denied_bits_spec, Hpr, orb_false_r in H by done. by rewrite left_over_spec.
      * rewrite denied_bits_spec, Hpr, orb_false_r by done. by rewrite left_over_spec in H.
Qed.

Lemma maximum_allowed_exact_witness :
  exists m, se_access_check (sample_sd user_sid) (user_token 0) SEC_FLAG_MAXIMUM_ALLOWED =
              (NT_STATUS_OK, m) /\
    forall i, Z.testbit m i =
      bit_allowed (sample_sd user_sid) (user_token 0) sample_acl i && negb (i =? 25).
Proof.
  destruct (maximum_allowed_exact (sample_sd user_sid) (user_token 0) sample_acl eq_refl)
    as (m & H1 & H2 & _).
  exists m. split; [exact H1|exact H2].
Defined.

(** ** Directory service checks *)

(** As [first_match], for a check without an object tree: object entries are
    not used, NT SELF stands for the given SID and owner rights entries are not
    special. *)
Fixpoint ds_first_match (token : security_token) (replace_sid : option dom_sid)
    (l : list security_ace) (i : Z) : option bool :=
  match l with
  | [] => None
  | ace :: l =>
      let who := if dom_sid_equal (Some (trustee ace)) (Some sid_nt_self) &&
                    bool_decide (is_Some replace_sid)
                 then replace_sid else Some (trustee ace) in
      if inherit_only ace || negb (security_token_has_sid token who)
      then ds_first_match token replace_sid l i
      else
        match ace_type ace with
        | SEC_ACE_TYPE_ACCESS_ALLOWED =>
            if Z.testbit (access_mask ace) i then Some true else ds_first_match token replace_sid l i
        | SEC_ACE_TYPE_ACCESS_DENIED =>
            if Z.testbit (access_mask ace) i then Some false else ds_first_match token replace_sid l i
        | _ => ds_first_match token replace_sid l i
        end
  end.

Definition ds_allowed (sd : security_descriptor) (token : security_token)
    (replace_sid : option dom_sid) (acl : security_acl) (i : Z) : bool :=
  priv_allows token i ||
  (security_token_has_sid token (owner_sid sd) && Z.testbit OWNER_BITS i) ||
  allows (ds_first_match token replace_sid (aces acl) i).

Lemma ds_loop_spec (token : security_token) (replace_sid : option dom_sid)
    (l : list security_ace) (bits : Z) :
  match ds_loop token replace_sid None l bits with
  | inl status => status = NT_STATUS_ACCESS_DENIED /\
      ~ (forall i, Z.testbit bits i = true -> allows (ds_first_match token replace_sid l i) = true)
  | inr rest => rest = 0 <->
      (forall i, Z.testbit bits i = true -> allows (ds_first_match token replace_sid l i) = true)
  end.
Proof.
  revert bits. induction l as [|ace l IH]; intros bits; simpl.
  { split; [intros -> i; by rewrite Z.bits_0|]. intros H. apply zero_iff. intros i.
    destruct (Z.testbit bits i) eqn:E; [|done]. by specialize (H i E). }
  destruct (Z.eqb_spec bits 0) as [->|_]; [by split; [intros _ i; rewrite Z.bits_0|]|].
  destruct (inherit_only ace); simpl; [by apply IH|].
  destruct (negb (security_token_has_sid token _)); [by apply IH|].
  destruct (ace_type ace); try by apply IH.
  - specialize (IH (clear_bits bits (access_mask ace))).
    assert ((forall i, Z.testbit (clear_bits bits (access_mask ace)) i = true ->
               allows (ds_first_match token replace_sid l i) = true) <->
            (forall i, Z.testbit bits i = true ->
               allows (if Z.testbit (access_mask ace) i then Some true
                       else ds_first_match token replace_sid l i) = true)) as Heq.
    { split; intros H i; specialize (H i); rewrite clear_bits_spec in *;
        by destruct (Z.testbit bits i), (Z.testbit (access_mask ace) i). }
    simpl. destruct (ds_loop _ _ _ _ _); by rewrite Heq in IH.
  - destruct (has_bits bits (access_mask ace)) eqn:E.
    + split; [done|]. intros H. unfold has_bits in E. apply negb_true_iff, Z.eqb_neq in E.
      apply E, zero_iff. intros i. rewrite Z.land_spec. specialize (H i).
      destruct (Z.testbit bits i), (Z.testbit (access_mask ace) i); try done. by specialize (H eq_refl).
    + assert (forall i, Z.testbit bits i && Z.testbit (access_mask ace) i = false) as Hd.
      { intros i. rewrite <- Z.land_spec. unfold has_bits in E. apply negb_false_iff, Z.eqb_eq in E.
        by rewrite E, Z.bits_0. }
      specialize (IH bits).
      assert ((forall i, Z.testbit bits i = true ->
                 allows (ds_first_match token replace_sid l i) = true) <->
              (forall i, Z.testbit bits i = true ->
                 allows (if Z.testbit (access_mask ace) i then Some false
                         else ds_first_match token replace_sid l i) = true)) as Heq.
      { split; intros H i; specialize (H i); specialize (Hd i);
          by destruct (Z.testbit bits i), (Z.testbit (access_mask ace) i). }
      destruct (ds_loop _ _ _ _ _); by rewrite Heq in IH.
Qed.

(** C35. Directory access without an object tree: for a descriptor with a DACL
    and a request without MAXIMUM_ALLOWED, [sec_access_check_ds] fails for lack
    of privilege exactly when SYSTEM_SECURITY is asked for without the security
    privilege, and succeeds exactly when otherwise every desired bit is given by
    a privilege, by ownership or by the first applicable entry that has it. *)
Theorem sec_access_check_ds_decision (sd : security_descriptor) (token : security_token)
    (acl : security_acl) (desired : Z) (replace_sid : option dom_sid) :
  dacl sd = Some acl -> has_bits desired SEC_FLAG_MAXIMUM_ALLOWED = false ->
  let status := (sec_access_check_ds sd token desired None replace_sid).1 in
  (status = NT_STATUS_PRIVILEGE_NOT_HELD <->
   Z.testbit desired 24 = true /\ security_token_has_privilege token SEC_PRIV_SECURITY = false) /\
  (status = NT_STATUS_OK <->
   status <> NT_STATUS_PRIVILEGE_NOT_HELD /\
   forall i, Z.testbit desired i = true -> ds_allowed sd token replace_sid acl i = true).
Proof.
  intros Hd Hm. unfold sec_access_check_ds, max_desired. rewrite Hm, Hd. cbv zeta.
  change SEC_FLAG_SYSTEM_SECURITY with (2 ^ 24). rewrite (has_bit_pow desired 24) by lia.
  destruct (Z.testbit desired 24 && negb _) eqn:Hp.
  { apply andb_true_iff in Hp as [H1 H2]. apply negb_true_iff in H2. simpl. split; [tauto|].
    split; [done|]. by intros [[] _]. }
  match goal with |- context [ds_loop _ _ _ _ ?b] => set (bits := b) end.
  assert (forall i, Z.testbit bits i = Z.testbit desired i && negb (priv_allows token i ||
            (security_token_has_sid token (owner_sid sd) && Z.testbit OWNER_BITS i))) as Hb.
  { intros i. unfold bits. rewrite clear_if, clear_if.
    rewrite <- (has_bit_pow desired 24), <- (andb_true_r (has_bits desired (2 ^ 24))), clear_if by lia.
    change SEC_STD_WRITE_OWNER with (2 ^ 19). rewrite !pow2_testbit by lia. unfold priv_allows.
    destruct (Z.eqb_spec i 24) as [->|_].
    - change (24 =? 19) with false. rewrite andb_false_r. cbn [andb orb negb].
      destruct (security_token_has_privilege token SEC_PRIV_SECURITY), (Z.testbit desired 24),
        (security_token_has_sid token (owner_sid sd) && Z.testbit OWNER_BITS 24); done.
    - destruct (i =? 19), (security_token_has_privilege token SEC_PRIV_TAKE_OWNERSHIP),
        (Z.testbit desired i), (security_token_has_sid token (owner_sid sd)),
        (Z.testbit OWNER_BITS i); done. }
  assert ((forall i, Z.testbit bits i = true ->
             allows (ds_first_match token replace_sid (aces acl) i) = true) <->
          (forall i, Z.testbit desired i = true -> ds_allowed sd token replace_sid acl i = true)) as Heq.
  { unfold ds_allowed. split; intros H i; specialize (H i); rewrite Hb in *;
      destruct (Z.testbit desired i), (priv_allows token i),
        (security_token_has_sid token (owner_sid sd) && Z.testbit OWNER_BITS i); done. }
  rewrite <- Heq. pose proof (ds_loop_spec token replace_sid (aces acl) bits) as Hl.
  assert (~ (Z.testbit desired 24 = true /\
             security_token_has_privilege token SEC_PRIV_SECURITY = false)) as Hnp.
  { intros [H1 H2]. by rewrite H1, H2 in Hp. }
  destruct (ds_loop _ _ _ _ _) as [st|rest]; simpl.
  - destruct Hl as [-> Hl]. split; [done|]. split; [done|tauto].
  - destruct (Z.eqb_spec rest 0) as [Hz|Hz]; simpl; (split; [done|]).
    + split; [intros _; split; [done|tauto]|done].
    + split; [done|]. intros [_ H]. tauto.
Qed.

Lemma sec_access_check_ds_decision_witness :
  let status := (sec_access_check_ds (sample_sd other_sid) (user_token 0) 0x1 None None).1 in
  status = NT_STATUS_OK /\
  (status = NT_STATUS_OK <->
   status <> NT_STATUS_PRIVILEGE_NOT_HELD /\
   forall i, Z.testbit 0x1 i = true ->
     ds_allowed (sample_sd other_sid) (user_token 0) None sample_acl i = true).
Proof.
  split; [vm_compute; reflexivity|].
  exact (proj2 (sec_access_check_ds_decision (sample_sd other_sid) (user_token 0) sample_acl 0x1 None
                  ltac:(reflexivity) ltac:(reflexivity))).
Defined.

(** ** Privileges *)

Lemma find_priv_self (e : priv_entry) :
  In e privs -> sec_privilege_mask (luid e) = priv_bit e /\ priv_bit e <> 0.
Proof.
  intros He. cbv [In privs] in He. repeat (destruct He as [<-|He]; [vm_compute; done|]); done.
Qed.

Lemma privset_fold (mask : Z) (l : list priv_entry) (set : list lsa_LUIDAttribute) (acc : Z) :
  (forall e, In e l -> In e privs) ->
  privset_loop acc set <> None ->
  privset_loop acc (fold_left (fun set e => if Z.land mask (priv_bit e) =? 0 then set
                                 else set ++ [LUIDAttribute (luid e) 0 0]) l set) =
  (fun m => fold_left (fun m e => if Z.land mask (priv_bit e) =? 0 then m
                                  else Z.lor m (priv_bit e)) l m) <$> privset_loop acc set.
Proof.
  assert (forall s2 a s1, privset_loop a (s1 ++ s2) = (m ← privset_loop a s1; privset_loop m s2)) as Happ.
  { intros s2 a s1. revert a. induction s1 as [|x s1 IH]; intros a; simpl; [done|].
    destruct (negb _); [done|]. apply IH. }
  revert set. induction l as [|e l IH]; intros set Hin Hne; simpl.
  { by destruct (privset_loop acc set). }
  destruct (Z.land mask (priv_bit e) =? 0) eqn:E; [apply IH; auto using in_cons|].
  destruct (find_priv_self e (Hin e (or_introl eq_refl))) as [Hm Hnz].
  assert (privset_loop acc (set ++ [LUIDAttribute (luid e) 0 0]) =
          (fun m => Z.lor m (priv_bit e)) <$> privset_loop acc set) as Hs.
  { rewrite Happ. destruct (privset_loop acc set) as [m|]; [|done]. cbn [mbind option_bind privset_loop].
    cbn [luid_high luid_low]. rewrite Hm. by rewrite (proj2 (Z.eqb_neq _ _) Hnz). }
  rewrite IH; [rewrite Hs; by destruct (privset_loop acc set)|auto using in_cons|].
  rewrite Hs. by destruct (privset_loop acc set).
Qed.

(** The bits of all privileges are single and distinct. *)
Lemma priv_bits_single (mask : Z) (l : list priv_entry) (m0 : Z) :
  (forall e, In e l -> exists k, 0 <= k /\ priv_bit e = 2 ^ k) ->
  forall i, Z.testbit (fold_left (fun m e => if Z.land mask (priv_bit e) =? 0 then m
                                   else Z.lor m (priv_bit e)) l m0) i =
  Z.testbit m0 i || (Z.testbit mask i && Z.testbit (fold_left (fun m e => Z.lor m (priv_bit e)) l 0) i).
Proof.
  assert (forall l a i, Z.testbit (fold_left (fun m e => Z.lor m (priv_bit e)) l a) i =
            Z.testbit a i || Z.testbit (fold_left (fun m e => Z.lor m (priv_bit e)) l 0) i) as Hacc.
  { clear. induction l as [|e l IH]; intros a i; simpl; [by rewrite Z.bits_0, orb_false_r|].
    rewrite IH, (IH (priv_bit e)), Z.lor_spec. by rewrite orb_assoc. }
  revert m0. induction l as [|e l IH]; intros m0 Hk i; simpl.
  { by rewrite Z.bits_0, andb_false_r, orb_false_r. }
  destruct (Hk e (or_introl eq_refl)) as (k & Hk0 & Hek).
  rewrite IH by auto using in_cons. rewrite (Hacc l (priv_bit e)), Hek, pow2_testbit by lia.
  pose proof (has_bit_pow mask k Hk0) as Hh. unfold has_bits in Hh.
  destruct (Z.land mask (2 ^ k) =? 0); simpl in Hh; rewrite ?Z.lor_spec, ?pow2_testbit by lia;
    (destruct (Z.eqb_spec i k) as [->|]; [rewrite <- Hh|]);
    repeat match goal with |- context [Z.testbit ?a ?b] => destruct (Z.testbit a b) end; done.
Qed.

(** Privilege masks and sets: writing a mask as a privilege set and reading
    the set back gives the known privileges of the mask. *)
Theorem privilege_set_roundtrip (mask : Z) :
  privilege_set_to_se_priv (se_priv_to_privilege_set [] mask) =
  Some (Z.land mask se_priv_put_all_privileges).
Proof.
  unfold privilege_set_to_se_priv, se_priv_to_privilege_set, se_priv_put_all_privileges.
  rewrite privset_fold by done. simpl privset_loop. cbn [fmap option_fmap option_map]. f_equal.
  apply Z.bits_inj'. intros i Hi. rewrite priv_bits_single, Z.land_spec, Z.bits_0; [done|].
  intros e He. exists (Z.log2 (priv_bit e)). split; [apply Z.log2_nonneg|].
  cbv [In privs] in He. repeat (destruct He as [<-|He]; [vm_compute; done|]); done.
Qed.

(** Privilege names: for every entry of the table, the name and the id of
    the privilege lead to each other, ignoring case, and both lead to its
    mask. *)
Theorem privilege_names_roundtrip (e : priv_entry) :
  In e privs ->
  sec_privilege_name (luid e) = Some (priv_name e) /\ sec_privilege_id (priv_name e) = luid e /\
  se_priv_from_name (priv_name e) = Some (sec_privilege_mask (luid e)) /\
  luid e <> SEC_PRIV_INVALID.
Proof.
  intros He. cbv [In privs] in He. repeat (destruct He as [<-|He]; [vm_compute; repeat split; discriminate|]); done.
Qed.

Lemma privilege_names_roundtrip_witness :
  sec_privilege_id "SeBackupPrivilege" = SEC_PRIV_BACKUP.
Proof.
  exact (proj1 (proj2 (privilege_names_roundtrip
    (Priv_entry SEC_PRIV_BACKUP SEC_PRIV_BACKUP_BIT "SeBackupPrivilege"
       "Back up files and directories") ltac:(right; right; left; reflexivity)))).
Defined.

(** ** Access for the file server *)

Definition backup_allows (token : security_token) (i : Z) : bool :=
  (security_token_has_privilege token SEC_PRIV_BACKUP && Z.testbit SEC_RIGHTS_PRIV_BACKUP i) ||
  (security_token_has_privilege token SEC_PRIV_RESTORE && Z.testbit SEC_RIGHTS_PRIV_RESTORE i).

(** Access with backup intent: for a descriptor with a DACL and a request
    without MAXIMUM_ALLOWED, [se_file_access_check] fails for lack of privilege
    in the same cases as [se_access_check], and otherwise succeeds exactly when
    every desired bit is allowed or is among the rights of the backup and
    restore privileges the token has. *)
Theorem se_file_access_check_decision (sd : security_descriptor) (token : security_token)
    (acl : security_acl) (desired : Z) :
  dacl sd = Some acl -> has_bits desired SEC_FLAG_MAXIMUM_ALLOWED = false ->
  let status := (se_file_access_check sd token true desired).1 in
  (status = NT_STATUS_PRIVILEGE_NOT_HELD <->
   Z.testbit desired 24 = true /\ bit_allowed sd token acl 24 = false /\
   security_token_has_privilege token SEC_PRIV_SECURITY = false) /\
  (status = NT_STATUS_OK <->
   status <> NT_STATUS_PRIVILEGE_NOT_HELD /\
   forall i, Z.testbit desired i = true ->
     bit_allowed sd token acl i || priv_allows token i || backup_allows token i = true).
Proof.
  intros Hd Hm. unfold se_file_access_check. cbn [negb]. rewrite Hm.
  rewrite (se_access_check_eq sd token acl) by done. unfold max_desired. rewrite Hm. cbv zeta.
  destruct (_ && negb _) eqn:Hp.
  { rewrite left_over_spec, !andb_true_iff, !negb_true_iff in Hp. simpl. split; [tauto|].
    split; [done|]. by intros [[] _]. }
  assert (~ (Z.testbit desired 24 = true /\ bit_allowed sd token acl 24 = false /\
             security_token_has_privilege token SEC_PRIV_SECURITY = false)) as Hnp.
  { intros (H1 & H2 & H3). by rewrite left_over_spec, H1, H2, H3 in Hp. }
  pose proof (fun i => denied_bits_spec sd token acl desired i Hp) as Hs.
  set (db := denied_bits sd token acl desired) in *. unfold finish_check.
  destruct (Z.eqb_spec db 0) as [Hz|Hz]; cbn [negb];
    [change (NT_STATUS_OK =? NT_STATUS_ACCESS_DENIED) with false|
     change (NT_STATUS_ACCESS_DENIED =? NT_STATUS_ACCESS_DENIED) with true];
    cbn [negb fst].
  { split; [done|]. split; [|done]. intros _. split; [done|]. intros i Hi. specialize (Hs i).
    rewrite Hz, Z.bits_0, Hi in Hs. by destruct (bit_allowed _ _ _ _ || priv_allows _ _). }
  match goal with |- context [if ?b =? 0 then _ else _] => set (bits := b) |
                  |- context [negb (?b =? 0)] => set (bits := b) end.
  assert (forall i, Z.testbit bits i = Z.testbit db i && negb (backup_allows token i)) as Hb.
  { intros i. unfold bits. rewrite !clear_if. unfold backup_allows.
    by destruct (Z.testbit db i), (security_token_has_privilege token SEC_PRIV_BACKUP),
      (security_token_has_privilege token SEC_PRIV_RESTORE), (Z.testbit SEC_RIGHTS_PRIV_BACKUP i),
      (Z.testbit SEC_RIGHTS_PRIV_RESTORE i). }
  assert (bits = 0 <-> forall i, Z.testbit desired i = true ->
            bit_allowed sd token acl i || priv_allows token i || backup_allows token i = true) as Heq.
  { rewrite zero_iff. split; intros H i; specialize (H i); rewrite Hb, Hs in *;
      destruct (Z.testbit desired i), (bit_allowed sd token acl i || priv_allows token i),
        (backup_allows token i); try done; by specialize (H eq_refl). }
  rewrite <- Heq. destruct (Z.eqb_spec bits 0); simpl; (split; [done|]); split; try done; tauto.
Qed.

Lemma se_file_access_check_decision_witness :
  let status := (se_file_access_check (sample_sd other_sid) (user_token SEC_PRIV_RESTORE_BIT)
                   true 0x3).1 in
  status = NT_STATUS_OK /\
  (status = NT_STATUS_OK <->
   status <> NT_STATUS_PRIVILEGE_NOT_HELD /\
   forall i, Z.testbit 0x3 i = true ->
     bit_allowed (sample_sd other_sid) (user_token SEC_PRIV_RESTORE_BIT) sample_acl i ||
     priv_allows (user_token SEC_PRIV_RESTORE_BIT) i ||
     backup_allows (user_token SEC_PRIV_RESTORE_BIT) i = true).
Proof.
  split; [vm_compute; reflexivity|].
  exact (proj2 (se_file_access_check_decision (sample_sd other_sid)
                  (user_token SEC_PRIV_RESTORE_BIT) sample_acl 0x3
                  ltac:(reflexivity) ltac:(reflexivity))).
Defined.

(** ** Generic rights *)

Definition GENERIC_BITS : Z :=
  Z.lor (Z.lor SEC_GENERIC_READ SEC_GENERIC_WRITE) (Z.lor SEC_GENERIC_EXECUTE SEC_GENERIC_ALL).

Lemma map_bits_spec (k to mask i : Z) :
  0 <= k ->
  Z.testbit (map_bits (2 ^ k) to mask) i =
  (Z.testbit mask i && negb (i =? k)) || (Z.testbit mask k && Z.testbit to i).
Proof.
  intros Hk. unfold map_bits. rewrite has_bit_pow by done. destruct (Z.testbit mask k) eqn:E.
  - by rewrite Z.lor_spec, clear_bits_spec, pow2_testbit.
  - rewrite orb_false_r. destruct (Z.eqb_spec i k) as [->|]; [by rewrite E|by rewrite andb_true_r].
Qed.

Lemma generic_bit (i : Z) :
  Z.testbit GENERIC_BITS i = (i =? 31) || (i =? 30) || ((i =? 29) || (i =? 28)).
Proof.
  unfold GENERIC_BITS. change SEC_GENERIC_READ with (2 ^ 31). change SEC_GENERIC_WRITE with (2 ^ 30).
  change SEC_GENERIC_EXECUTE with (2 ^ 29). change SEC_GENERIC_ALL with (2 ^ 28).
  by rewrite !Z.lor_spec, !pow2_testbit by lia.
Qed.

(** The mapping gives no generic bit. *)
Definition mapping_ok (mapping : generic_mapping) : Prop :=
  Z.land (Z.lor (Z.lor (generic_read mapping) (generic_write mapping))
                (Z.lor (generic_execute mapping) (generic_all mapping))) GENERIC_BITS = 0.

Lemma mapping_ok_bits (mapping : generic_mapping) (i : Z) :
  mapping_ok mapping -> Z.testbit GENERIC_BITS i = true ->
  Z.testbit (generic_read mapping) i = false /\ Z.testbit (generic_write mapping) i = false /\
  Z.testbit (generic_execute mapping) i = false /\ Z.testbit (generic_all mapping) i = false.
Proof.
  intros Hgen Hi. apply (f_equal (fun z => Z.testbit z i)) in Hgen.
  rewrite Z.land_spec, !Z.lor_spec, Z.bits_0, Hi, andb_true_r in Hgen.
  by rewrite !orb_false_iff in Hgen; destruct Hgen as [[? ?] [? ?]].
Qed.

Definition expanded (m : Z) (mapping : generic_mapping) (i : Z) : bool :=
  (Z.testbit m i && negb (Z.testbit GENERIC_BITS i)) ||
  (Z.testbit m 31 && Z.testbit (generic_read mapping) i) ||
  (Z.testbit m 30 && Z.testbit (generic_write mapping) i) ||
  (Z.testbit m 29 && Z.testbit (generic_execute mapping) i) ||
  (Z.testbit m 28 && Z.testbit (generic_all mapping) i).

Lemma se_map_generic_spec (m : Z) (mapping : generic_mapping) (i : Z) :
  mapping_ok mapping -> Z.testbit (se_map_generic m mapping) i = expanded m mapping i.
Proof.
  intros Hno. unfold se_map_generic, expanded.
  change SEC_GENERIC_READ with (2 ^ 31). change SEC_GENERIC_WRITE with (2 ^ 30).
  change SEC_GENERIC_EXECUTE with (2 ^ 29). change SEC_GENERIC_ALL with (2 ^ 28).
  destruct (mapping_ok_bits mapping 31 Hno eq_refl) as (A1 & A2 & A3 & A4).
  destruct (mapping_ok_bits mapping 30 Hno eq_refl) as (B1 & B2 & B3 & B4).
  destruct (mapping_ok_bits mapping 29 Hno eq_refl) as (C1 & C2 & C3 & C4).
  destruct (mapping_ok_bits mapping 28 Hno eq_refl) as (D1 & D2 & D3 & D4).
  rewrite !map_bits_spec by lia. rewrite B1, C1, C2, D1, D2, D3.
  change (30 =? 31) with false. change (29 =? 31) with false. change (29 =? 30) with false.
  change (28 =? 31) with false. change (28 =? 30) with false. change (28 =? 29) with false.
  rewrite generic_bit. cbn [negb]. rewrite !andb_true_r, !andb_false_r, !orb_false_r.
  destruct (Z.eqb_spec i 31) as [->|_];
    [|destruct (Z.eqb_spec i 30) as [->|_];
      [|destruct (Z.eqb_spec i 29) as [->|_]; [|destruct (Z.eqb_spec i 28) as [->|_]]]];
    simpl; rewrite ?A1, ?A2, ?A3, ?A4, ?B1, ?B2, ?B3, ?B4, ?C1, ?C2, ?C3, ?C4, ?D1, ?D2, ?D3, ?D4;
    by rewrite ?andb_true_r, ?andb_false_r, ?orb_false_r.
Qed.

(** Generic rights are expanded: if the mapping itself has no generic bits,
    [se_map_generic] replaces each generic bit by the bits of its mapping and
    keeps every other bit; the result has no generic bit, so mapping it again
    changes nothing. *)
Theorem se_map_generic_expands (mask : Z) (mapping : generic_mapping) :
  mapping_ok mapping ->
  (forall i, Z.testbit (se_map_generic mask mapping) i = expanded mask mapping i) /\
  Z.land (se_map_generic mask mapping) GENERIC_BITS = 0 /\
  se_map_generic (se_map_generic mask mapping) mapping = se_map_generic mask mapping.
Proof.
  intros Hno.
  assert (forall j, Z.testbit GENERIC_BITS j = true ->
            Z.testbit (se_map_generic mask mapping) j = false) as Hz.
  { intros j Hj. rewrite se_map_generic_spec by done. unfold expanded. rewrite Hj.
    destruct (mapping_ok_bits mapping j Hno Hj) as (-> & -> & -> & ->). by rewrite !andb_false_r. }
  split_and!.
  - intros i. by apply se_map_generic_spec.
  - apply zero_iff. intros i. rewrite Z.land_spec.
    destruct (Z.testbit GENERIC_BITS i) eqn:E; [by rewrite (Hz i E)|apply andb_false_r].
  - apply Z.bits_inj. intros i. rewrite (se_map_generic_spec (se_map_generic mask mapping)) by done.
    unfold expanded. rewrite !(Hz 31), !(Hz 30), !(Hz 29), !(Hz 28) by done. simpl.
    rewrite !orb_false_r. destruct (Z.testbit GENERIC_BITS i) eqn:E; [by rewrite (Hz i E)|].
    by rewrite andb_true_r.
Qed.

(** The mapping of the file server, [file_generic_mapping]. *)
Definition file_mapping : generic_mapping := Generic_mapping 0x120089 0x120116 0x1200A0 0x1F01FF.

Lemma se_map_generic_expands_witness :
  Z.land (se_map_generic 0xA0000000 file_mapping) GENERIC_BITS = 0.
Proof. exact (proj1 (proj2 (se_map_generic_expands 0xA0000000 file_mapping eq_refl))). Defined.

(** ** Where the code departs from what it means to do *)

(** MAXIMUM_ALLOWED without a DACL: [access_check_max_allowed] finds
    READ_CONTROL and WRITE_DAC for the owner, and [se_access_check] then denies
    these bits, so the owner's request for the maximum is refused, while the
    same request of another user succeeds with an empty mask. *)
Theorem maximum_allowed_owner_no_dacl (owner other : security_token) (sd : security_descriptor) :
  dacl sd = None -> has_bits (sd_type sd) SEC_DESC_DACL_PRESENT = false ->
  security_token_has_sid owner (owner_sid sd) = true ->
  security_token_has_sid other (owner_sid sd) = false ->
  access_check_max_allowed sd owner = OWNER_BITS /\
  se_access_check sd owner SEC_FLAG_MAXIMUM_ALLOWED = (NT_STATUS_ACCESS_DENIED, OWNER_BITS) /\
  se_access_check sd other SEC_FLAG_MAXIMUM_ALLOWED = (NT_STATUS_OK, 0).
Proof.
  intros Hd Hp Ho Hn. unfold se_access_check, max_desired, access_check_max_allowed.
  by rewrite Hd, Hp, Ho, Hn.
Qed.

Definition sd_no_dacl : security_descriptor := Security_descriptor 1 0 (Some user_sid) None None None.
Definition stranger : security_token := Security_token [other_sid] 0 0.

Lemma maximum_allowed_owner_no_dacl_witness :
  se_access_check sd_no_dacl (user_token 0) SEC_FLAG_MAXIMUM_ALLOWED =
    (NT_STATUS_ACCESS_DENIED, OWNER_BITS).
Proof.
  exact (proj1 (proj2 (maximum_allowed_owner_no_dacl (user_token 0) stranger sd_no_dacl
    eq_refl eq_refl eq_refl eq_refl))).
Defined.

(** Privilege opens report the wrong mask: a user with the restore privilege
    asks for reading and writing, the list allows reading and denies writing;
    [se_file_access_check] grants the request, but the granted mask it returns
    is the set of bits that the list denied and not the desired bits. *)
Theorem file_check_reports_denied_bits :
  se_file_access_check (sample_sd other_sid) (user_token SEC_PRIV_RESTORE_BIT) true 0x3 =
    (NT_STATUS_OK, 0x2).
Proof. vm_compute. reflexivity. Qed.

(** MAXIMUM_ALLOWED with backup intent: the rights of the backup privilege
    include SYSTEM_SECURITY, so a token that has the backup privilege but not
    the security privilege is refused the maximum it is allowed, although the
    same request without backup intent succeeds. *)
Theorem maximum_allowed_backup_not_held :
  (se_file_access_check (sample_sd other_sid) (user_token SEC_PRIV_BACKUP_BIT) true
     SEC_FLAG_MAXIMUM_ALLOWED).1 = NT_STATUS_PRIVILEGE_NOT_HELD /\
  se_file_access_check (sample_sd other_sid) (user_token SEC_PRIV_BACKUP_BIT) false
     SEC_FLAG_MAXIMUM_ALLOWED = (NT_STATUS_OK, 0x1).
Proof. vm_compute. split; reflexivity. Qed.
