(* ===== verification/GuidText.v ===== *)
(** * GUIDs as text

    [parse_guid_string] of lib/util/util_str_hex.c, [strhex_to_str] of
    lib/util/util.c and the text functions of librpc/ndr/uuid.c. The NDR
    unmarshalling of the 16-byte form is generated code, an argument here. A
    GUID is read back from both of its printed forms. *)

From S2P Require Import Prelude.
From S2P Require Import CString.
From S2P Require Import DomSid.
From S2P Require Import SecModel.
From stdpp Require Import prelude list strings.

#[local] Open Scope Z_scope.

(** ** From text *)

(** The loops over [clock_seq] and [node]: the bytes and where the string goes on. *)
Fixpoint read_octets (n : nat) (s : list Z) : option (list Z * list Z) :=
  match n with
  | O => Some ([], s)
  | S n =>
      match read_hex_bytes s 2 with
      | None => None
      | Some tmp =>
          match read_octets n (drop 2 s) with
          | None => None
          | Some (l, s) => Some (u32 tmp :: l, s)
          end
      end
  end.

(** The values that are stored on success. *)
Definition parse_guid_string (s : list Z) : option (Z * Z * Z * list Z * list Z) :=
  match read_hex_bytes s 8 with
  | None => None
  | Some tmp =>
      if negb (nth 8 s 0 =? dash) then None
      else
        let time_low := u32 tmp in
        let s := drop 9 s in
        match read_hex_bytes s 4 with
        | None => None
        | Some tmp =>
            if negb (nth 4 s 0 =? dash) then None
            else
              let time_mid := u32 tmp in
              let s := drop 5 s in
              match read_hex_bytes s 4 with
              | None => None
              | Some tmp =>
                  if negb (nth 4 s 0 =? dash) then None
                  else
                    let time_hi := u32 tmp in
                    let s := drop 5 s in
                    match read_octets 2 s with
                    | None => None
                    | Some (clock_seq, s) =>
                        if negb (peek s =? dash) then None
                        else
                          match read_octets 6 (tail s) with
                          | None => None
                          | Some (node, _) => Some (time_low, time_mid, time_hi, clock_seq, node)
                          end
                    end
              end
        end
  end.

(** [strhex_to_str] after the prefix, with room for [p_len] more bytes. *)
Fixpoint strhex_loop (p_len : nat) (strhex : list Z) : list Z :=
  match strhex with
  | c1 :: c2 :: rest =>
      if (c1 =? 0) || (c2 =? 0) then []
      else
        match hex_digit c1, hex_digit c2, p_len with
        | Some hi, Some lo, S p_len => Z.lor (Z.shiftl hi 4) lo :: strhex_loop p_len rest
        | _, _, _ => []
        end
  | _ => []
  end.

Definition strhex_to_str (p_len : nat) (strhex : list Z) : list Z :=
  let prefix := (peek strhex =? 0x30) && ((nth 1 strhex 0 =? 0x78) || (nth 1 strhex 0 =? 0x58)) in
  strhex_loop p_len (if prefix then drop 2 strhex else strhex).

Section Blob.
  (** [ndr_pull_struct_blob_all_noalloc] with [ndr_pull_GUID]. *)
  Context (GUID_from_ndr_blob : list Z -> NTSTATUS + GUID).

Definition GUID_of_parts (parts : option (Z * Z * Z * list Z * list Z)) : NTSTATUS + GUID :=
  match parts with
  | None => inl NT_STATUS_INVALID_PARAMETER
  | Some (time_low, time_mid, time_hi, clock_seq, node) =>
      inr (Mk_GUID time_low (u16 time_mid) (u16 time_hi)
                   (u8 (nth 0 clock_seq 0), u8 (nth 1 clock_seq 0)) (map u8 node))
  end.

Definition GUID_from_data_blob (s : list Z) : NTSTATUS + GUID :=
  match length s with
  | 36%nat => GUID_of_parts (parse_guid_string s)
  | 38%nat =>
      if negb (nth 0 s 0 =? 0x7B) || negb (nth 37 s 0 =? 0x7D) then inl NT_STATUS_INVALID_PARAMETER
      else GUID_of_parts (parse_guid_string (drop 1 s))
  | 32%nat =>
      let blob16 := strhex_to_str 16 s in
      if negb (length blob16 =? 16)%nat then inl NT_STATUS_INVALID_PARAMETER
      else GUID_from_ndr_blob blob16
  | 16%nat => GUID_from_ndr_blob s
  | _ => inl NT_STATUS_INVALID_PARAMETER
  end.

Definition GUID_from_string (s : list Z) : NTSTATUS + GUID := GUID_from_data_blob s.

End Blob.

(** ** To text *)

Definition GUID_TXT_BUF : nat := 39.

Definition guid_print (g : GUID) : list Z :=
  print_hex_pad 8 (time_low g) ++ [dash] ++ print_hex_pad 4 (time_mid g) ++ [dash] ++
  print_hex_pad 4 (time_hi_and_version g) ++ [dash] ++
  print_hex_pad 2 (clock_seq g).1 ++ print_hex_pad 2 (clock_seq g).2 ++ [dash] ++
  concat (map (print_hex_pad 2) (take 6 (node g))).

Definition GUID_buf_string (g : GUID) : list Z := take (GUID_TXT_BUF - 1) (guid_print g).
Definition GUID_string (g : GUID) : list Z := GUID_buf_string g.
Definition GUID_string2 (g : GUID) : list Z := [0x7B] ++ GUID_string g ++ [0x7D].

(** [GUID_random] of 16 random bytes. *)
Definition GUID_random (random : GUID) : GUID :=
  Mk_GUID (time_low random) (time_mid random)
          (Z.lor (Z.land (time_hi_and_version random) 0x0FFF) 0x4000)
          (Z.lor (Z.land (clock_seq random).1 0x3F) 0x80, (clock_seq random).2) (node random).

(** ** Reading back *)

Record guid_wf (g : GUID) : Prop := {
  wf_low : in_w 32 (time_low g);
  wf_mid : in_w 16 (time_mid g);
  wf_hi : in_w 16 (time_hi_and_version g);
  wf_seq1 : in_w 8 (clock_seq g).1;
  wf_seq2 : in_w 8 (clock_seq g).2;
  wf_node_len : length (node g) = 6%nat;
  wf_node : Forall (in_w 8) (node g)
}.

Lemma pad_length (width : nat) (n : Z) :
  (1 <= width <= 16)%nat -> 0 <= n < 16 ^ Z.of_nat width -> length (print_hex_pad width n) = width.
Proof. intros Hw Hn. apply (print_hex_pad_spec width n Hw Hn). Qed.

Lemma drop_pad (width : nat) (n : Z) (rest : list Z) :
  (1 <= width <= 16)%nat -> 0 <= n < 16 ^ Z.of_nat width ->
  drop width (print_hex_pad width n ++ rest) = rest.
Proof. intros Hw Hn. rewrite <- (pad_length width n Hw Hn) at 1. apply drop_app_length. Qed.

Lemma read_octets_print (l rest : list Z) :
  Forall (in_w 8) l -> read_octets (length l) (concat (map (print_hex_pad 2) l) ++ rest) = Some (l, rest).
Proof.
  induction 1 as [|b l Hb _ IH]; simpl; [done|]. unfold in_w in Hb. rewrite <- app_assoc.
  rewrite read_print_hex by (done || lia).
  rewrite drop_pad by lia. rewrite IH. unfold u32. by rewrite Z.mod_small by lia.
Qed.

Lemma nth_pad (width : nat) (n : Z) (c : Z) (rest : list Z) :
  (1 <= width <= 16)%nat -> 0 <= n < 16 ^ Z.of_nat width ->
  nth width (print_hex_pad width n ++ c :: rest) 0 = c.
Proof.
  intros Hw Hn. rewrite app_nth2 by (rewrite pad_length; lia).
  by rewrite pad_length, Nat.sub_diag by done.
Qed.

Lemma drop_pad_char (width : nat) (n : Z) (c : Z) (rest : list Z) :
  (1 <= width <= 16)%nat -> 0 <= n < 16 ^ Z.of_nat width ->
  drop (S width) (print_hex_pad width n ++ c :: rest) = rest.
Proof.
  intros Hw Hn. rewrite <- (pad_length width n Hw Hn) at 1. rewrite cons_middle, app_assoc.
  replace (S (length _)) with (length (print_hex_pad width n ++ [c])) by (rewrite length_app; simpl; lia).
  apply drop_app_length.
Qed.

Lemma parse_printed (g : GUID) (rest : list Z) :
  guid_wf g ->
  parse_guid_string (guid_print g ++ rest) =
  Some (time_low g, time_mid g, time_hi_and_version g, [(clock_seq g).1; (clock_seq g).2], node g).
Proof.
  intros [Hl Hm Hh H1 H2 Hn Hb]. unfold in_w in *. unfold guid_print, parse_guid_string.
  rewrite <- !app_assoc. cbn [app].
  rewrite read_print_hex, nth_pad, Z.eqb_refl by (done || lia). cbn [negb].
  rewrite drop_pad_char by (done || lia).
  rewrite read_print_hex, nth_pad, Z.eqb_refl by (done || lia). cbn [negb].
  rewrite drop_pad_char by (done || lia).
  rewrite read_print_hex, nth_pad, Z.eqb_refl by (done || lia). cbn [negb].
  rewrite drop_pad_char by (done || lia).
  pose proof (read_octets_print [(clock_seq g).1; (clock_seq g).2]
    (dash :: concat (map (print_hex_pad 2) (take 6 (node g))) ++ rest)) as Hs.
  cbn [map concat app length] in Hs. rewrite app_nil_r, <- app_assoc in Hs.
  rewrite Hs by (repeat constructor; unfold in_w; lia).
  cbn [peek hd tail]. rewrite Z.eqb_refl. cbn [negb].
  rewrite take_ge by lia. rewrite <- Hn, read_octets_print by done.
  unfold u32. by rewrite !Z.mod_small by lia.
Qed.

Lemma guid_print_length (g : GUID) : guid_wf g -> length (guid_print g) = 36%nat.
Proof.
  intros [Hl Hm Hh H1 H2 Hn Hb]. unfold in_w in *. unfold guid_print.
  assert (length (concat (map (print_hex_pad 2) (take 6 (node g)))) = (2 * length (node g))%nat) as Hc.
  { rewrite take_ge by lia. clear Hn. induction Hb as [|b l Hb _ IH]; simpl; [done|].
    rewrite length_app, IH, pad_length by (unfold in_w in Hb; lia). lia. }
  rewrite !length_app, Hc, !pad_length by lia. simpl. lia.
Qed.

Lemma GUID_string_print (g : GUID) : guid_wf g -> GUID_string g = guid_print g.
Proof.
  intros Hg. unfold GUID_string, GUID_buf_string. apply take_ge.
  rewrite guid_print_length by done. unfold GUID_TXT_BUF. lia.
Qed.

Lemma GUID_of_parts_wf (g : GUID) :
  guid_wf g ->
  GUID_of_parts (Some (time_low g, time_mid g, time_hi_and_version g,
                       [(clock_seq g).1; (clock_seq g).2], node g)) = inr g.
Proof.
  intros [Hl Hm Hh H1 H2 Hn Hb]. unfold in_w in *. unfold GUID_of_parts, u16, u8. cbn [nth].
  rewrite !Z.mod_small by lia.
  assert (map (fun z => z mod 2 ^ 8) (node g) = node g) as ->.
  { clear Hn. induction Hb as [|b l Hb _ IH]; simpl; [done|]. f_equal; [|done].
    apply Z.mod_small. unfold in_w in Hb. lia. }
  destruct g as [? ? ? [? ?] ?]. done.
Qed.

Lemma GUID_text_roundtrip (from_ndr : list Z -> NTSTATUS + GUID) (g : GUID) :
  guid_wf g ->
  GUID_from_string from_ndr (GUID_string g) = inr g /\
  GUID_from_string from_ndr (GUID_string2 g) = inr g.
Proof.
  intros Hg. pose proof (guid_print_length g Hg) as Hl. unfold GUID_string2.
  rewrite !GUID_string_print by done. unfold GUID_from_string, GUID_from_data_blob. split.
  - rewrite Hl. pose proof (parse_printed g [] Hg) as Hp. rewrite app_nil_r in Hp. rewrite Hp.
    by apply GUID_of_parts_wf.
  - rewrite !length_app, Hl. cbn [app nth length Nat.add drop].
    rewrite (app_nth2 (guid_print g)) by lia. rewrite Hl.
    change ((_ =? _) && _) with true. cbn [negb orb Z.eqb Nat.sub nth].
    rewrite drop_0, parse_printed by done. by apply GUID_of_parts_wf.
Qed.

(** Random GUIDs are of version 4 and of the RFC 4122 variant. *)
Lemma GUID_random_version (r : GUID) :
  Z.shiftr (time_hi_and_version (GUID_random r)) 12 mod 16 = 4 /\
  Z.shiftr (clock_seq (GUID_random r)).1 6 mod 4 = 2.
Proof.
  cbn. split.
  - change 16 with (2 ^ 4). rewrite <- Z.land_ones by lia. rewrite Z.shiftr_lor, Z.shiftr_land.
    change (Z.shiftr 4095 12) with 0. rewrite Z.land_0_r. done.
  - change 4 with (2 ^ 2). rewrite <- Z.land_ones by lia. rewrite Z.shiftr_lor, Z.shiftr_land.
    change (Z.shiftr 63 6) with 0. rewrite Z.land_0_r. done.
Qed.
