(* ===== verification/SecDesc.v ===== *)
(** * Security descriptors: building, copying, comparing, editing and sorting

    libcli/security/security_descriptor.c, libcli/security/secace.c,
    libcli/security/secacl.c and the constructors of libcli/security/secdesc.c,
    with [remove_virtual_nfs_aces] of source3/modules/vfs_fruit.c, the caller
    that deletes entries through a pointer into the list. Allocations succeed;
    the wire sizes kept in ACEs and ACLs are recomputed when a descriptor is
    marshalled and are left out. *)

From S2P Require Import Prelude.
From S2P Require Import DomSid.
From S2P Require Import SecModel.
From stdpp Require Import prelude list.

#[local] Open Scope Z_scope.

(** ** Constants *)

Definition SD_REVISION : Z := 1.
Definition SECURITY_ACL_REVISION_NT4 : Z := 2.
Definition SECURITY_ACL_REVISION_ADS : Z := 4.

Definition SEC_DESC_OWNER_DEFAULTED : Z := 0x0001.
Definition SEC_DESC_GROUP_DEFAULTED : Z := 0x0002.
Definition SEC_DESC_DACL_DEFAULTED : Z := 0x0008.
Definition SEC_DESC_SACL_PRESENT : Z := 0x0010.
Definition SEC_DESC_SACL_DEFAULTED : Z := 0x0020.
Definition SEC_DESC_DACL_TRUSTED : Z := 0x0040.
Definition SEC_DESC_SERVER_SECURITY : Z := 0x0080.
Definition SEC_DESC_DACL_AUTO_INHERIT_REQ : Z := 0x0100.
Definition SEC_DESC_SACL_AUTO_INHERIT_REQ : Z := 0x0200.
Definition SEC_DESC_DACL_AUTO_INHERITED : Z := 0x0400.
Definition SEC_DESC_SACL_AUTO_INHERITED : Z := 0x0800.
Definition SEC_DESC_DACL_PROTECTED : Z := 0x1000.
Definition SEC_DESC_SACL_PROTECTED : Z := 0x2000.
Definition SEC_DESC_SELF_RELATIVE : Z := 0x8000.

Definition SECINFO_OWNER : Z := 0x00000001.
Definition SECINFO_GROUP : Z := 0x00000002.
Definition SECINFO_DACL : Z := 0x00000004.
Definition SECINFO_SACL : Z := 0x00000008.
Definition SECINFO_UNPROTECTED_SACL : Z := 0x10000000.
Definition SECINFO_UNPROTECTED_DACL : Z := 0x20000000.
Definition SECINFO_PROTECTED_SACL : Z := 0x40000000.
Definition SECINFO_PROTECTED_DACL : Z := 0x80000000.

(** Whether a pointer is set. *)
Definition present {A : Type} (o : option A) : bool :=
  match o with Some _ => true | None => false end.

(** ** Assignments to single fields *)

Definition set_sd_type (sd : security_descriptor) (t : Z) : security_descriptor :=
  Security_descriptor (sd_revision sd) t (owner_sid sd) (group_sid sd) (sacl sd) (dacl sd).
Definition set_sd_owner (sd : security_descriptor) (o : option dom_sid) : security_descriptor :=
  Security_descriptor (sd_revision sd) (sd_type sd) o (group_sid sd) (sacl sd) (dacl sd).
Definition set_sd_group (sd : security_descriptor) (g : option dom_sid) : security_descriptor :=
  Security_descriptor (sd_revision sd) (sd_type sd) (owner_sid sd) g (sacl sd) (dacl sd).
Definition set_sacl (sd : security_descriptor) (a : option security_acl) : security_descriptor :=
  Security_descriptor (sd_revision sd) (sd_type sd) (owner_sid sd) (group_sid sd) a (dacl sd).
Definition set_dacl (sd : security_descriptor) (a : option security_acl) : security_descriptor :=
  Security_descriptor (sd_revision sd) (sd_type sd) (owner_sid sd) (group_sid sd) (sacl sd) a.
Definition set_flags (ace : security_ace) (f : Z) : security_ace :=
  Security_ace (ace_type ace) f (access_mask ace) (object_type ace) (inherited_object_type ace)
               (trustee ace).
Definition set_trustee (ace : security_ace) (s : dom_sid) : security_ace :=
  Security_ace (ace_type ace) (ace_flags ace) (access_mask ace) (object_type ace)
               (inherited_object_type ace) s.

(** ** Building and copying *)

Definition security_descriptor_initialise : security_descriptor :=
  Security_descriptor SD_REVISION SEC_DESC_SELF_RELATIVE None None None None.

Definition security_acl_dup (oacl : option security_acl) : option security_acl :=
  match oacl with
  | None => None
  | Some a => Some (Security_acl (acl_revision a) (aces a))
  end.

Definition security_acl_concatenate (acl1 acl2 : option security_acl) : option security_acl :=
  match acl1, acl2 with
  | None, None => None
  | None, _ => security_acl_dup acl2
  | _, None => security_acl_dup acl1
  | Some a, Some b => Some (Security_acl (acl_revision a) (aces a ++ aces b))
  end.

(** [junk] is what the unused sub-authorities of a copied SID hold. *)
Definition security_descriptor_copy (junk : list Z) (osd : security_descriptor)
    : security_descriptor :=
  Security_descriptor (sd_revision osd) (sd_type osd)
    (dom_sid_dup junk <$> owner_sid osd) (dom_sid_dup junk <$> group_sid osd)
    (security_acl_dup (sacl osd)) (security_acl_dup (dacl osd)).

Definition CLIENT_DACL_BITS : Z :=
  Z.lor (Z.lor (Z.lor SEC_DESC_DACL_PRESENT SEC_DESC_DACL_DEFAULTED)
               (Z.lor SEC_DESC_DACL_AUTO_INHERIT_REQ SEC_DESC_DACL_AUTO_INHERITED))
        (Z.lor SEC_DESC_DACL_PROTECTED SEC_DESC_DACL_TRUSTED).
Definition CLIENT_SACL_BITS : Z :=
  Z.lor (Z.lor (Z.lor SEC_DESC_SACL_PRESENT SEC_DESC_SACL_DEFAULTED)
               (Z.lor SEC_DESC_SACL_AUTO_INHERIT_REQ SEC_DESC_SACL_AUTO_INHERITED))
        (Z.lor SEC_DESC_SACL_PROTECTED SEC_DESC_SERVER_SECURITY).

Definition security_descriptor_for_client (junk : list Z) (ssd : security_descriptor)
    (sec_info access_granted : Z) : NTSTATUS * option security_descriptor :=
  let required := 0 in
  let required := if has_bits sec_info (Z.lor SECINFO_OWNER SECINFO_GROUP)
                  then Z.lor required SEC_STD_READ_CONTROL else required in
  let required := if has_bits sec_info SECINFO_DACL
                  then Z.lor required SEC_STD_READ_CONTROL else required in
  let required := if has_bits sec_info SECINFO_SACL
                  then Z.lor required SEC_FLAG_SYSTEM_SECURITY else required in
  if negb (clear_bits required access_granted =? 0) then (NT_STATUS_ACCESS_DENIED, None)
  else
    let csd := security_descriptor_copy junk ssd in
    let csd := if negb (has_bits sec_info SECINFO_OWNER)
               then set_sd_type (set_sd_owner csd None)
                      (clear_bits (sd_type csd) SEC_DESC_OWNER_DEFAULTED) else csd in
    let csd := if negb (has_bits sec_info SECINFO_GROUP)
               then set_sd_type (set_sd_group csd None)
                      (clear_bits (sd_type csd) SEC_DESC_GROUP_DEFAULTED) else csd in
    let csd := if negb (has_bits sec_info SECINFO_DACL)
               then set_sd_type (set_dacl csd None) (clear_bits (sd_type csd) CLIENT_DACL_BITS)
               else csd in
    let csd := if negb (has_bits sec_info SECINFO_SACL)
               then set_sd_type (set_sacl csd None) (clear_bits (sd_type csd) CLIENT_SACL_BITS)
               else csd in
    (NT_STATUS_OK, Some csd).

(** ** Adding and deleting entries *)

Definition sec_ace_object (t : security_ace_type) : bool :=
  match t with
  | SEC_ACE_TYPE_ACCESS_ALLOWED_OBJECT | SEC_ACE_TYPE_ACCESS_DENIED_OBJECT
  | SEC_ACE_TYPE_SYSTEM_AUDIT_OBJECT | SEC_ACE_TYPE_SYSTEM_ALARM_OBJECT => true
  | _ => false
  end.

Definition security_descriptor_acl_add (sd : security_descriptor) (add_to_sacl : bool)
    (ace : security_ace) : security_descriptor :=
  let acl := default (Security_acl SECURITY_ACL_REVISION_NT4 [])
                     (if add_to_sacl then sacl sd else dacl sd) in
  let acl := Security_acl (if sec_ace_object (ace_type ace) then SECURITY_ACL_REVISION_ADS
                           else acl_revision acl) (aces acl ++ [ace]) in
  if add_to_sacl then set_sd_type (set_sacl sd (Some acl)) (Z.lor (sd_type sd) SEC_DESC_SACL_PRESENT)
  else set_sd_type (set_dacl sd (Some acl)) (Z.lor (sd_type sd) SEC_DESC_DACL_PRESENT).

Definition security_descriptor_sacl_add (sd : security_descriptor) (ace : security_ace) :=
  security_descriptor_acl_add sd true ace.
Definition security_descriptor_dacl_add (sd : security_descriptor) (ace : security_ace) :=
  security_descriptor_acl_add sd false ace.

(** The trustee to delete is a pointer: to a SID of the caller's, or to the
    trustee of the entry at an index of the array that is being edited. *)
Inductive sid_ref :=
| Sid_value (s : dom_sid)
| Sid_of_ace (k : nat).

Definition ref_sid (who : sid_ref) (mem : list security_ace) : option dom_sid :=
  match who with
  | Sid_value s => Some s
  | Sid_of_ace k => trustee <$> mem !! k
  end.

(** [memmove] of the entries after [i] of an array with [n] entries in use. *)
Definition memmove_down (mem : list security_ace) (n i : nat) : list security_ace :=
  take i mem ++ take (n - S i) (drop (S i) mem) ++ drop (n - 1) mem.

(** The loop that deletes: the array, the count of entries and [found]. *)
Fixpoint acl_del_loop (fuel : nat) (who : sid_ref) (mem : list security_ace) (n i : nat)
    (found : bool) : list security_ace * nat * bool :=
  match fuel with
  | O => (mem, n, found)
  | S fuel =>
      if (n <=? i)%nat then (mem, n, found)
      else if dom_sid_equal (ref_sid who mem) (trustee <$> mem !! i)
      then acl_del_loop fuel who (memmove_down mem n i) (n - 1) (S i) true
      else acl_del_loop fuel who mem n (S i) found
  end.

Definition security_descriptor_acl_del (sd : security_descriptor) (sacl_del : bool)
    (who : sid_ref) : NTSTATUS * security_descriptor :=
  match (if sacl_del then sacl sd else dacl sd) with
  | None => (NT_STATUS_OBJECT_NAME_NOT_FOUND, sd)
  | Some acl =>
      let n := length (aces acl) in
      let '(mem, n, found) := acl_del_loop n who (aces acl) n 0 false in
      let put acl := if sacl_del then set_sacl sd (Some acl) else set_dacl sd (Some acl) in
      if negb found then (NT_STATUS_OBJECT_NAME_NOT_FOUND, sd)
      else
        let l := take n mem in
        let revision := if existsb (fun a => sec_ace_object (ace_type a)) l
                        then SECURITY_ACL_REVISION_ADS else SECURITY_ACL_REVISION_NT4 in
        (NT_STATUS_OK, put (Security_acl revision l))
  end.

Definition security_descriptor_dacl_del (sd : security_descriptor) (who : sid_ref) :=
  security_descriptor_acl_del sd false who.
Definition security_descriptor_sacl_del (sd : security_descriptor) (who : sid_ref) :=
  security_descriptor_acl_del sd true who.

Definition global_sid_Unix_NFS : dom_sid := well_known 5 88.

(** [remove_virtual_nfs_aces]: the index stays where it is after a deletion. *)
Fixpoint remove_nfs_loop (fuel : nat) (psd : security_descriptor) (i : nat)
    : NTSTATUS * security_descriptor :=
  match fuel, dacl psd with
  | S fuel, Some acl =>
      match aces acl !! i with
      | None => (NT_STATUS_OK, psd)
      | Some ace =>
          if negb (dom_sid_compare_domain global_sid_Unix_NFS (trustee ace) =? 0)
          then remove_nfs_loop fuel psd (S i)
          else
            let '(status, psd) := security_descriptor_dacl_del psd (Sid_of_ace i) in
            if negb (NT_STATUS_IS_OK status) then (status, psd)
            else remove_nfs_loop fuel psd i
      end
  | _, _ => (NT_STATUS_OK, psd)
  end.

Definition remove_virtual_nfs_aces (psd : security_descriptor) : NTSTATUS * security_descriptor :=
  match dacl psd with
  | None => (NT_STATUS_OK, psd)
  | Some acl => remove_nfs_loop (S (length (aces acl))) psd 0
  end.

(** ** Comparing *)

Definition security_ace_equal (ace1 ace2 : security_ace) : bool :=
  if negb (bool_decide (ace_type ace1 = ace_type ace2)) then false
  else if negb (ace_flags ace1 =? ace_flags ace2) then false
  else if negb (access_mask ace1 =? access_mask ace2) then false
  else if negb (dom_sid_equal (Some (trustee ace1)) (Some (trustee ace2))) then false
  else true.

Fixpoint aces_equal (l1 l2 : list security_ace) : bool :=
  match l1, l2 with
  | a :: l1, b :: l2 => if negb (security_ace_equal a b) then false else aces_equal l1 l2
  | _, _ => true
  end.

Definition security_acl_equal (acl1 acl2 : option security_acl) : bool :=
  match acl1, acl2 with
  | None, None => true
  | Some a, Some b =>
      if negb (acl_revision a =? acl_revision b) then false
      else if negb (length (aces a) =? length (aces b))%nat then false
      else aces_equal (aces a) (aces b)
  | _, _ => false
  end.

Definition security_descriptor_equal (sd1 sd2 : security_descriptor) : bool :=
  if negb (sd_revision sd1 =? sd_revision sd2) then false
  else if negb (sd_type sd1 =? sd_type sd2) then false
  else if negb (dom_sid_equal (owner_sid sd1) (owner_sid sd2)) then false
  else if negb (dom_sid_equal (group_sid sd1) (group_sid sd2)) then false
  else if negb (security_acl_equal (sacl sd1) (sacl sd2)) then false
  else if negb (security_acl_equal (dacl sd1) (dacl sd2)) then false
  else true.

Definition security_descriptor_mask_equal (sd1 sd2 : security_descriptor) (mask : Z) : bool :=
  if negb (sd_revision sd1 =? sd_revision sd2) then false
  else if negb (Z.land (sd_type sd1) mask =? Z.land (sd_type sd2) mask) then false
  else if negb (dom_sid_equal (owner_sid sd1) (owner_sid sd2)) then false
  else if negb (dom_sid_equal (group_sid sd1) (group_sid sd2)) then false
  else if has_bits mask SEC_DESC_DACL_PRESENT && negb (security_acl_equal (dacl sd1) (dacl sd2))
  then false
  else if has_bits mask SEC_DESC_SACL_PRESENT && negb (security_acl_equal (sacl sd1) (sacl sd2))
  then false
  else true.

(** ** Single entries *)

Definition sec_ace_copy (ace_src : security_ace) : security_ace :=
  Security_ace (ace_type ace_src) (ace_flags ace_src) (access_mask ace_src) (object_type ace_src)
               (inherited_object_type ace_src) (trustee ace_src).

(** The object part is not assigned: it is what the memory held. *)
Definition init_sec_ace (t : security_ace) (sid : dom_sid) (type : security_ace_type)
    (mask flag : Z) : security_ace :=
  Security_ace type flag mask (object_type t) (inherited_object_type t) sid.

(** ** Canonical order *)

Definition nt_ace_inherit_comp (a1 a2 : security_ace) : Z :=
  let a1_inh := Z.land (ace_flags a1) SEC_ACE_FLAG_INHERITED_ACE in
  let a2_inh := Z.land (ace_flags a2) SEC_ACE_FLAG_INHERITED_ACE in
  if a1_inh =? a2_inh then 0
  else if (a1_inh =? 0) && negb (a2_inh =? 0) then -1
  else 1.

Definition INHERIT_BITS : Z := Z.lor SEC_ACE_FLAG_CONTAINER_INHERIT SEC_ACE_FLAG_OBJECT_INHERIT.

Definition is_denied (a : security_ace) : bool :=
  bool_decide (ace_type a = SEC_ACE_TYPE_ACCESS_DENIED).

Definition nt_ace_canon_comp (a1 a2 : security_ace) : Z :=
  if is_denied a1 && negb (is_denied a2) then -1
  else if is_denied a2 && negb (is_denied a1) then 1
  else if negb (inherit_only a1) && inherit_only a2 then -1
  else if negb (inherit_only a2) && inherit_only a1 then 1
  else if has_bits (ace_flags a1) INHERIT_BITS && negb (has_bits (ace_flags a2) INHERIT_BITS)
  then -1
  else if has_bits (ace_flags a2) INHERIT_BITS && negb (has_bits (ace_flags a1) INHERIT_BITS)
  then 1
  else 0.

Definition is_inherited (a : security_ace) : bool :=
  has_bits (ace_flags a) SEC_ACE_FLAG_INHERITED_ACE.

(** The index of the first inherited entry, the length where there is none. *)
Fixpoint inherited_boundary (l : list security_ace) : nat :=
  match l with
  | [] => O
  | a :: l => if is_inherited a then O else S (inherited_boundary l)
  end.

(** What the code relies on of [qsort]: for a comparison that is a total
    preorder the result is a sorted permutation; the order of elements that
    compare equal is not specified. *)
Definition qsort_fn : Type := (security_ace -> security_ace -> Z) -> list security_ace -> list security_ace.

Record consistent (cmp : security_ace -> security_ace -> Z) : Prop := {
  cmp_total : forall a b, cmp a b <= 0 \/ cmp b a <= 0;
  cmp_trans : forall a b c, cmp a b <= 0 -> cmp b c <= 0 -> cmp a c <= 0
}.

Class Qsort (qsort : qsort_fn) : Prop := {
  qsort_perm : forall cmp l, consistent cmp -> qsort cmp l ≡ₚ l;
  qsort_sorted : forall cmp l, consistent cmp -> pairwise (fun a b => cmp a b <= 0) (qsort cmp l)
}.

Definition typesafe_qsort (qsort : qsort_fn) (cmp : security_ace -> security_ace -> Z)
    (l : list security_ace) : list security_ace :=
  if (1 <? length l)%nat then qsort cmp l else l.

Definition dacl_sort_into_canonical_order (qsort : qsort_fn) (srclist : list security_ace)
    : list security_ace :=
  let l := typesafe_qsort qsort nt_ace_inherit_comp srclist in
  let i := inherited_boundary l in
  typesafe_qsort qsort nt_ace_canon_comp (take i l) ++
  typesafe_qsort qsort nt_ace_canon_comp (drop i l).

(** ** Constructors of secacl.c and secdesc.c *)

Definition make_sec_acl (revision : Z) (num_aces : nat) (ace_list : list security_ace)
    : security_acl :=
  Security_acl revision (take num_aces ace_list).

Definition get_sec_info (sd : security_descriptor) : Z :=
  let info := 0 in
  let info := if present (owner_sid sd) then Z.lor info SECINFO_OWNER else info in
  let info := if present (group_sid sd) then Z.lor info SECINFO_GROUP else info in
  let info := if present (sacl sd) then Z.lor info SECINFO_SACL else info in
  let info := if present (dacl sd) then Z.lor info SECINFO_DACL else info in
  let info := if has_bits (sd_type sd) SEC_DESC_SACL_PROTECTED
              then Z.lor info SECINFO_PROTECTED_SACL
              else if has_bits (sd_type sd) SEC_DESC_SACL_AUTO_INHERITED
              then Z.lor info SECINFO_UNPROTECTED_SACL else info in
  if has_bits (sd_type sd) SEC_DESC_DACL_PROTECTED then Z.lor info SECINFO_PROTECTED_DACL
  else if has_bits (sd_type sd) SEC_DESC_DACL_AUTO_INHERITED
  then Z.lor info SECINFO_UNPROTECTED_DACL else info.

Definition make_sec_desc (junk : list Z) (revision type : Z) (owner grp : option dom_sid)
    (sacl dacl : option security_acl) : security_descriptor :=
  let type := if present sacl then Z.lor type SEC_DESC_SACL_PRESENT else type in
  let type := if present dacl then Z.lor type SEC_DESC_DACL_PRESENT else type in
  Security_descriptor revision type (dom_sid_dup junk <$> owner) (dom_sid_dup junk <$> grp)
    (security_acl_dup sacl) (security_acl_dup dacl).

Definition make_standard_sec_desc (junk : list Z) (owner grp : option dom_sid)
    (dacl : option security_acl) : security_descriptor :=
  make_sec_desc junk SD_REVISION SEC_DESC_SELF_RELATIVE owner grp None dacl.

Definition sec_desc_merge (junk : list Z) (new_sdb old_sdb : security_descriptor)
    : security_descriptor :=
  let owner := if present (owner_sid new_sdb) then owner_sid new_sdb else owner_sid old_sdb in
  let group := if present (group_sid new_sdb) then group_sid new_sdb else group_sid old_sdb in
  let type := clear_bits (sd_type new_sdb) SEC_DESC_SACL_PRESENT in
  let acl := if has_bits type SEC_DESC_DACL_PRESENT then dacl new_sdb else dacl old_sdb in
  make_sec_desc junk (sd_revision new_sdb) type owner group None acl.
