(* ===== verification/SecDescProps.v ===== *)
(** * Security descriptors: properties

    Comparison and copying; what deleting a trustee really deletes, and the
    condition under which it deletes all of it; the canonical order of a DACL
    and the access decision it gives whatever [qsort] does with equal entries;
    where the code does not do what it means to. *)

From S2P Require Import Prelude.
From S2P Require Import DomSid.
From S2P Require Import SecModel.
From S2P Require Import AccessProps.
From S2P Require Import SecDesc.
From stdpp Require Import prelude list.

#[local] Open Scope Z_scope.
#[local] Arguments Z.testbit : simpl never.

(** ** Equality of SIDs and entries *)

Lemma last_difference_refl (a : list Z) (n : nat) : last_difference a a n = None.
Proof. induction n as [|n IH]; simpl; [done|]. by rewrite Z.eqb_refl. Qed.

Lemma first_difference_refl (a : list Z) : first_difference a a = 0.
Proof. induction a as [|x a IH]; simpl; [done|]. by rewrite ?Z.eqb_refl, ?Z.sub_diag. Qed.

Lemma sid_equal_refl (s : option dom_sid) : dom_sid_equal s s = true.
Proof.
  destruct s as [s|]; [|done]. unfold dom_sid_equal. simpl. unfold compare_values.
  rewrite Z.eqb_refl, last_difference_refl. unfold compare_auth.
  rewrite ?Z.eqb_refl, first_difference_refl. by repeat case_if.
Qed.

(** Equality of well-formed SIDs, as an equivalence relation. *)
Definition sid_eqv (a b : dom_sid) : Prop := clear_unused a = clear_unused b.

#[export] Instance sid_eqv_equivalence : Equivalence sid_eqv.
Proof. split; unfold sid_eqv; congruence. Qed.

Lemma sid_equal_eqv (a b : dom_sid) :
  sid_wf a -> sid_wf b -> dom_sid_equal (Some a) (Some b) = bool_decide (clear_unused a = clear_unused b).
Proof.
  intros Ha Hb. apply eq_iff_eq_true. rewrite bool_decide_eq_true. by apply dom_sid_equal_spec.
Qed.

(** A SID that equals another is equal to the same SIDs. *)
Lemma sid_equal_subst (a b c : dom_sid) :
  sid_wf a -> sid_wf b -> sid_wf c -> dom_sid_equal (Some a) (Some b) = true ->
  dom_sid_equal (Some a) (Some c) = dom_sid_equal (Some b) (Some c) /\
  dom_sid_equal (Some c) (Some a) = dom_sid_equal (Some c) (Some b).
Proof.
  intros Ha Hb Hc H. apply (dom_sid_equal_spec a b Ha Hb) in H.
  by rewrite !sid_equal_eqv, H by done.
Qed.

Lemma ace_equal_spec (a b : security_ace) :
  security_ace_equal a b = true <->
  ace_type a = ace_type b /\ ace_flags a = ace_flags b /\ access_mask a = access_mask b /\
  dom_sid_equal (Some (trustee a)) (Some (trustee b)) = true.
Proof.
  unfold security_ace_equal. repeat case_if; boolify; split; try done; intros (? & ? & ? & ?); congruence.
Qed.

Lemma ace_equal_refl (a : security_ace) : security_ace_equal a a = true.
Proof. apply ace_equal_spec. split_and!; try done. apply sid_equal_refl. Qed.

Lemma aces_equal_refl (l : list security_ace) : aces_equal l l = true.
Proof. induction l as [|a l IH]; simpl; [done|]. by rewrite ace_equal_refl. Qed.

Lemma acl_equal_refl (a : option security_acl) : security_acl_equal a a = true.
Proof. destruct a; simpl; [|done]. by rewrite Z.eqb_refl, Nat.eqb_refl, aces_equal_refl. Qed.

(** ** Copies *)

Lemma dup_equal (junk : list Z) (s : dom_sid) :
  junk_ok junk -> sid_wf s ->
  sid_wf (dom_sid_dup junk s) /\ clear_unused (dom_sid_dup junk s) = clear_unused s.
Proof. intros Hj Hs. destruct (dup_wf junk s Hj Hs) as [Hw Hu]. by rewrite clear_unused_eq. Qed.

Lemma dup_sid_equal (junk : list Z) (s : option dom_sid) :
  junk_ok junk -> from_option sid_wf True s ->
  dom_sid_equal (dom_sid_dup junk <$> s) s = true.
Proof.
  intros Hj Hs. destruct s as [s|]; [|done]. simpl in *. destruct (dup_equal junk s Hj Hs).
  by apply dom_sid_equal_spec.
Qed.

Definition sd_wf (sd : security_descriptor) : Prop :=
  from_option sid_wf True (owner_sid sd) /\ from_option sid_wf True (group_sid sd).

Lemma acl_dup_id (a : option security_acl) : security_acl_dup a = a.
Proof. by destruct a as [[]|]. Qed.

(** A copy equals the original. *)
Lemma copy_equal (junk : list Z) (sd : security_descriptor) :
  junk_ok junk -> sd_wf sd -> security_descriptor_equal (security_descriptor_copy junk sd) sd = true.
Proof.
  intros Hj [Ho Hg]. unfold security_descriptor_equal. simpl.
  by rewrite !Z.eqb_refl, !dup_sid_equal, !acl_dup_id, !acl_equal_refl.
Qed.

(** What the client gets is what it may read of what it asked for. *)
Lemma for_client_parts (junk : list Z) (sd csd : security_descriptor) (info granted : Z) :
  security_descriptor_for_client junk sd info granted = (NT_STATUS_OK, Some csd) ->
  (owner_sid csd = if has_bits info SECINFO_OWNER then dom_sid_dup junk <$> owner_sid sd else None) /\
  (group_sid csd = if has_bits info SECINFO_GROUP then dom_sid_dup junk <$> group_sid sd else None) /\
  (dacl csd = if has_bits info SECINFO_DACL then dacl sd else None) /\
  (sacl csd = if has_bits info SECINFO_SACL then sacl sd else None) /\
  (has_bits info SECINFO_SACL = true -> Z.testbit granted 24 = true) /\
  (has_bits info (Z.lor (Z.lor SECINFO_OWNER SECINFO_GROUP) SECINFO_DACL) = true ->
   Z.testbit granted 17 = true).
Proof.
  unfold security_descriptor_for_client. cbv zeta. destruct (negb (_ =? 0)) eqn:E; [done|].
  intros [= <-]. boolify.
  pose proof (proj1 (zero_iff _) E) as Hb. clear E.
  rewrite (has_bits_mask info (Z.lor SECINFO_OWNER SECINFO_GROUP)).
  pose proof (Hb 24) as H24. pose proof (Hb 17) as H17. rewrite clear_bits_spec in H24, H17.
  split_and!.
  1-4: by repeat case_if; simpl; rewrite ?acl_dup_id.
  - intros Hs. rewrite Hs, Z.lor_spec in H24. change (Z.testbit SEC_FLAG_SYSTEM_SECURITY 24) with true in H24.
    rewrite orb_true_r in H24. by destruct (Z.testbit granted 24).
  - intros Ha. destruct (Z.testbit granted 17); [done|]. rewrite andb_true_r in H17.
    destruct (has_bits info (Z.lor _ _)), (has_bits info SECINFO_DACL), (has_bits info SECINFO_SACL);
      by vm_compute in H17.
Qed.

(** ** Deleting a trustee *)

Definition names (s : dom_sid) (a : security_ace) : bool :=
  dom_sid_equal (Some s) (Some (trustee a)).

(** What the deletion of a SID keeps: the entry after a deleted one is not
    looked at. *)
Fixpoint del_skipping (s : dom_sid) (l : list security_ace) : list security_ace :=
  match l with
  | [] => []
  | a :: r =>
      if names s a then match r with [] => [] | b :: r' => b :: del_skipping s r' end
      else a :: del_skipping s r
  end.

Lemma del_skipping_eq (s : dom_sid) (a : security_ace) (r : list security_ace) :
  names s a = true -> del_skipping s (a :: r) = take 1 r ++ del_skipping s (drop 1 r).
Proof. intros H. simpl. rewrite H. by destruct r. Qed.

Section deletion.
  Context (mem : list security_ace) (n i : nat).
  Hypothesis (Hn : (n <= length mem)%nat) (Hi : (i < n)%nat).

Lemma view_at (a : security_ace) :
  mem !! i = Some a -> drop i (take n mem) = a :: drop (S i) (take n mem).
Proof. intros H. apply drop_S. by rewrite lookup_take_lt. Qed.

Lemma length_memmove : length (memmove_down mem n i) = length mem.
Proof.
  unfold memmove_down. rewrite !length_app, !length_take, !length_drop. lia.
Qed.

Lemma view_memmove :
  take (n - 1) (memmove_down mem n i) = take i (take n mem) ++ drop (S i) (take n mem).
Proof.
  unfold memmove_down. rewrite app_assoc, take_app_length'.
  - rewrite take_take, Nat.min_l by lia. f_equal. by rewrite <- skipn_firstn_comm.
  - rewrite length_app, !length_take, length_drop. lia.
Qed.

Lemma view_split (k : list security_ace) :
  take (S i) (take i (take n mem) ++ k) = take i (take n mem) ++ take 1 k /\
  drop (S i) (take i (take n mem) ++ k) = drop 1 k.
Proof.
  assert (length (take i (take n mem)) = i) as Hl by (rewrite !length_take; lia).
  split.
  - rewrite take_app_ge by lia. do 2 f_equal. lia.
  - rewrite drop_app_ge by lia. f_equal. lia.
Qed.
End deletion.

Lemma view_next (mem : list security_ace) (n i : nat) (a : security_ace) :
  mem !! i = Some a -> (i < n)%nat ->
  take (S i) (take n mem) = take i (take n mem) ++ [a].
Proof. intros H Hi. apply take_S_r. by rewrite lookup_take_lt. Qed.

(** Whatever the pointer refers to, what has been passed is kept and the rest
    loses some entries. *)
Lemma del_loop_sublist (fuel : nat) (who : sid_ref) (mem : list security_ace) (n i : nat)
    (found : bool) :
  (n <= length mem)%nat ->
  let '(mem', n', found') := acl_del_loop fuel who mem n i found in
  exists q, take n' mem' = take i (take n mem) ++ q /\ q `sublist_of` drop i (take n mem) /\
  (found = true -> found' = true) /\ (n' <= length mem')%nat.
Proof.
  revert mem n i found. induction fuel as [|fuel IH]; intros mem n i found Hn; simpl.
  { exists (drop i (take n mem)). by rewrite take_drop. }
  destruct (Nat.leb_spec n i) as [Hi|Hi].
  { exists []. split_and!; [|apply sublist_nil_l|done..].
    by rewrite app_nil_r, (take_ge (take n mem)) by (rewrite length_take; lia). }
  destruct (lookup_lt_is_Some_2 mem i ltac:(lia)) as [a Ha].
  destruct (dom_sid_equal _ _).
  - specialize (IH (memmove_down mem n i) (n - 1)%nat (S i) true).
    rewrite length_memmove in IH by lia. specialize (IH ltac:(lia)).
    destruct (acl_del_loop _ _ _ _ _ _) as [[mem' n'] found'].
    destruct IH as (q & Hq & Hs & Hf & Hl). rewrite view_memmove in Hq, Hs by lia.
    destruct (view_split mem n i Hn Hi (drop (S i) (take n mem))) as [Ht Hd].
    rewrite Ht in Hq. rewrite Hd in Hs. exists (take 1 (drop (S i) (take n mem)) ++ q).
    split_and!; [by rewrite Hq, app_assoc| |by intros _; apply Hf|done].
    rewrite (view_at _ _ _ Hi a Ha). apply sublist_cons.
    rewrite <- (take_drop 1 (drop (S i) (take n mem))) at 2. by apply sublist_app.
  - specialize (IH mem n (S i) found Hn). destruct (acl_del_loop _ _ _ _ _ _) as [[mem' n'] found'].
    destruct IH as (q & Hq & Hs & Hf & Hl). exists (a :: q).
    rewrite (view_next mem n i a Ha Hi), <- app_assoc in Hq. rewrite (view_at _ _ _ Hi a Ha).
    split_and!; try done. by apply sublist_skip.
Qed.

(** Deleting a SID that is not in the list's memory. *)
Lemma del_loop_value (fuel : nat) (s : dom_sid) (mem : list security_ace) (n i : nat)
    (found : bool) :
  (n <= length mem)%nat -> (n - i <= fuel)%nat ->
  let '(mem', n', found') := acl_del_loop fuel (Sid_value s) mem n i found in
  take n' mem' = take i (take n mem) ++ del_skipping s (drop i (take n mem)) /\
  found' = found || existsb (names s) (drop i (take n mem)).
Proof.
  revert mem n i found. induction fuel as [|fuel IH]; intros mem n i found Hn Hf; simpl.
  { rewrite (drop_ge (take n mem)), (take_ge (take n mem)) by (rewrite length_take; lia).
    simpl. by rewrite app_nil_r, orb_false_r. }
  destruct (Nat.leb_spec n i) as [Hi|Hi].
  { rewrite (drop_ge (take n mem)), (take_ge (take n mem)) by (rewrite length_take; lia).
    simpl. by rewrite app_nil_r, orb_false_r. }
  destruct (lookup_lt_is_Some_2 mem i ltac:(lia)) as [a Ha].
  rewrite (view_at _ _ _ Hi a Ha), Ha. simpl fmap. destruct (dom_sid_equal _ _) eqn:E.
  - specialize (IH (memmove_down mem n i) (n - 1)%nat (S i) true).
    rewrite length_memmove in IH by lia. specialize (IH ltac:(lia) ltac:(lia)).
    destruct (acl_del_loop _ _ _ _ _ _) as [[mem' n'] found'].
    destruct IH as [Hq Hfd]. rewrite view_memmove in Hq, Hfd by lia.
    destruct (view_split mem n i Hn Hi (drop (S i) (take n mem))) as [Ht Hd].
    rewrite Ht, Hd, <- app_assoc in Hq. split.
    + by rewrite Hq, del_skipping_eq.
    + rewrite Hfd. simpl. change (names s a) with (dom_sid_equal (Some s) (Some (trustee a))).
      by rewrite E, orb_true_r.
  - specialize (IH mem n (S i) found Hn ltac:(lia)).
    destruct (acl_del_loop _ _ _ _ _ _) as [[mem' n'] found']. destruct IH as [Hq Hfd].
    rewrite (view_next mem n i a Ha Hi), <- app_assoc in Hq. simpl.
    change (names s a) with (dom_sid_equal (Some s) (Some (trustee a))). by rewrite E.
Qed.

Definition revision_of (l : list security_ace) : Z :=
  if existsb (fun a => sec_ace_object (ace_type a)) l then SECURITY_ACL_REVISION_ADS
  else SECURITY_ACL_REVISION_NT4.

Lemma dacl_del_value (sd : security_descriptor) (acl : security_acl) (s : dom_sid) :
  dacl sd = Some acl ->
  security_descriptor_dacl_del sd (Sid_value s) =
  if existsb (names s) (aces acl)
  then (NT_STATUS_OK, set_dacl sd (Some (Security_acl (revision_of (del_skipping s (aces acl)))
                                                     (del_skipping s (aces acl)))))
  else (NT_STATUS_OBJECT_NAME_NOT_FOUND, sd).
Proof.
  intros Hd. unfold security_descriptor_dacl_del, security_descriptor_acl_del. rewrite Hd.
  pose proof (del_loop_value (length (aces acl)) s (aces acl) (length (aces acl)) 0 false
                ltac:(lia) ltac:(lia)) as H.
  destruct (acl_del_loop _ _ _ _ _ _) as [[mem' n'] found']. rewrite firstn_all in H.
  destruct H as [Hv Hf]. simpl in Hv, Hf. rewrite drop_0 in *. rewrite Hf, Hv.
  by destruct (existsb _ _).
Qed.

(** No entry for the SID directly follows another one. *)
Fixpoint no_neighbours (s : dom_sid) (l : list security_ace) : bool :=
  match l with
  | [] => true
  | a :: r => match r with b :: _ => negb (names s a && names s b) | [] => true end
              && no_neighbours s r
  end.

(** Then, and only then, all its entries are deleted. *)
Lemma del_skipping_filter (s : dom_sid) (l : list security_ace) :
  no_neighbours s l = true -> del_skipping s l = List.filter (fun a => negb (names s a)) l.
Proof.
  induction l as [l IH] using (induction_ltof1 _ length). unfold ltof in IH.
  destruct l as [|a r]; [done|]. intros H. simpl in H. apply andb_true_iff in H as [Hab Hr].
  simpl. destruct (names s a) eqn:Ha; simpl.
  - destruct r as [|b r]; [done|]. simpl in Hab, Hr |- *. apply negb_true_iff in Hab. rewrite Hab. simpl.
    f_equal. apply IH; [simpl; lia|]. by apply andb_true_iff in Hr as [_ ?].
  - f_equal. apply IH; [simpl; lia|done].
Qed.

Lemma del_skipping_leaves (s : dom_sid) (p r : list security_ace) (a b : security_ace) :
  forallb (fun x => negb (names s x)) p = true -> names s a = true -> names s b = true ->
  b ∈ del_skipping s (p ++ a :: b :: r).
Proof.
  intros Hp Ha Hb. induction p as [|x p IH]; simpl.
  - rewrite Ha. left.
  - simpl in Hp. apply andb_true_iff in Hp as [Hx Hp]. apply negb_true_iff in Hx. rewrite Hx.
    right. by apply IH.
Qed.

(** ** The entries that vfs_fruit adds *)

Definition nfs_ace (a : security_ace) : bool :=
  dom_sid_compare_domain global_sid_Unix_NFS (trustee a) =? 0.

Lemma last_difference_ext (a b c : list Z) (n : nat) :
  (forall i, (i < n)%nat -> nth i b 0 = nth i c 0) -> last_difference a b n = last_difference a c n.
Proof.
  induction n as [|n IH]; intros H; simpl; [done|]. rewrite (H n) by lia.
  rewrite IH; [done|]. intros i Hi. apply H. lia.
Qed.

Lemma compare_domain_ext (c a b : dom_sid) :
  sid_wf a -> sid_wf b -> dom_sid_equal (Some a) (Some b) = true ->
  dom_sid_compare_domain c a = dom_sid_compare_domain c b.
Proof.
  intros Ha Hb H. apply (dom_sid_equal_spec a b Ha Hb), clear_unused_eq in H as (Hr & Hn & Hi & Hu).
  unfold dom_sid_compare_domain, compare_auth. rewrite Hr, Hn, Hi.
  rewrite (last_difference_ext _ (sub_auths a) (sub_auths b)); [done|].
  intros i Hlt. unfold used_auths in Hu. rewrite Hn in Hu.
  assert (nth i (take (Z.to_nat (num_auths b)) (sub_auths a)) 0 =
          nth i (take (Z.to_nat (num_auths b)) (sub_auths b)) 0) as Hnth by by rewrite Hu.
  rewrite !nth_firstn in Hnth. destruct (Nat.ltb_spec i (Z.to_nat (num_auths b))); [done|lia].
Qed.

Definition aces_wf (l : list security_ace) : Prop := Forall (fun a => sid_wf (trustee a)) l.

(** The pointer to the entry at index [k] passes over the entries before it
    that are not in the NFS domain. *)
Lemma del_loop_passes (fuel k i : nat) (mem : list security_ace) (n : nat) (x : security_ace) :
  aces_wf mem -> mem !! k = Some x -> nfs_ace x = true ->
  Forall (fun a => nfs_ace a = false) (take k mem) -> (k < n)%nat -> (i <= k)%nat ->
  acl_del_loop (fuel + (k - i)) (Sid_of_ace k) mem n i false =
  acl_del_loop fuel (Sid_of_ace k) mem n k false.
Proof.
  intros Hw Hx Hnfs Hp Hkn. remember (k - i)%nat as d eqn:Hd. revert i Hd.
  induction d as [|d IH]; intros i Hd Hi.
  { rewrite Nat.add_0_r. f_equal. lia. }
  rewrite Nat.add_succ_r. simpl. destruct (Nat.leb_spec n i); [lia|].
  destruct (lookup_lt_is_Some_2 mem i) as [a Ha]; [apply lookup_lt_Some in Hx; lia|].
  rewrite Hx, Ha. simpl fmap.
  assert (dom_sid_equal (Some (trustee x)) (Some (trustee a)) = false) as ->; [|apply IH; lia].
  apply not_true_iff_false. intros E.
  assert (nfs_ace a = false) as Hna.
  { rewrite Forall_lookup in Hp. apply (Hp i). by rewrite lookup_take_lt by lia. }
  unfold nfs_ace in *. unfold aces_wf in Hw. rewrite Forall_lookup in Hw.
  rewrite (compare_domain_ext _ _ _ (Hw _ _ Hx) (Hw _ _ Ha) E) in Hnfs. congruence.
Qed.

Lemma Forall_sublist_of {A : Type} (P : A -> Prop) (l k : list A) :
  l `sublist_of` k -> Forall P k -> Forall P l.
Proof.
  induction 1; intros Hk; [done|apply Forall_cons in Hk as [? ?]; constructor; auto|].
  apply Forall_cons in Hk as [_ ?]. auto.
Qed.

(** One deletion removes the first entry of the NFS part, and others of it. *)
Lemma dacl_del_nfs (sd : security_descriptor) (rev : Z) (p q : list security_ace) (x : security_ace) :
  dacl sd = Some (Security_acl rev (p ++ x :: q)) -> aces_wf (p ++ x :: q) ->
  Forall (fun a => nfs_ace a = false) p -> nfs_ace x = true ->
  exists rev' q', q' `sublist_of` q /\
    security_descriptor_dacl_del sd (Sid_of_ace (length p)) =
    (NT_STATUS_OK, set_dacl sd (Some (Security_acl rev' (p ++ q')))).
Proof.
  intros Hd Hw Hp Hx. unfold security_descriptor_dacl_del, security_descriptor_acl_del. rewrite Hd.
  cbn [aces]. set (l := p ++ x :: q) in *.
  assert (l !! length p = Some x) as Hl by (unfold l; by rewrite list_lookup_middle).
  assert (length l = S (length q) + (length p - 0))%nat as Hlen
    by (unfold l; rewrite length_app; simpl; lia).
  pose proof (del_loop_passes (S (length q)) (length p) 0 l (length l) x Hw Hl Hx
                ltac:(unfold l; by rewrite take_app_length) ltac:(lia) ltac:(lia)) as Hpass.
  rewrite <- Hlen in Hpass. rewrite Hpass. clear Hpass.
  cbn [acl_del_loop]. destruct (Nat.leb_spec (length l) (length p)); [lia|].
  cbn [ref_sid]. rewrite sid_equal_refl.
  pose proof (del_loop_sublist (length q) (Sid_of_ace (length p)) (memmove_down l (length l) (length p))
                (length l - 1) (S (length p)) true) as Hdel.
  rewrite length_memmove in Hdel by lia. specialize (Hdel ltac:(lia)).
  destruct (acl_del_loop _ _ _ _ _ _) as [[mem' n'] found'].
  destruct Hdel as (q' & Hq & Hs & Hf & _). rewrite view_memmove in Hq, Hs by lia.
  destruct (view_split l (length l) (length p) ltac:(lia) ltac:(lia) (drop (S (length p)) (take (length l) l)))
    as [Ht Hdr].
  rewrite Ht in Hq. rewrite Hdr in Hs. rewrite firstn_all in *.
  assert (take (length p) l = p) as Hpl by (unfold l; by rewrite take_app_length).
  assert (drop (S (length p)) l = q) as Hql
    by (unfold l; rewrite (cons_middle x p q), app_assoc, drop_app_length'; [done|rewrite length_app; simpl; lia]).
  rewrite Hpl, Hql, <- app_assoc in *. rewrite (Hf eq_refl), Hq. simpl.
  eexists _, (take 1 q ++ q'). split; [|reflexivity].
  rewrite <- (take_drop 1 q) at 2. by apply sublist_app.
Qed.

(** Entries of the NFS domain at the end of the list are all removed, and
    nothing else is. *)
Lemma remove_nfs_loop_spec (fuel : nat) (sd : security_descriptor) (rev : Z) (p q : list security_ace) :
  dacl sd = Some (Security_acl rev (p ++ q)) -> aces_wf (p ++ q) ->
  Forall (fun a => nfs_ace a = false) p -> Forall (fun a => nfs_ace a = true) q ->
  forall i, (i <= length p)%nat -> (length p + length q - i < fuel)%nat ->
  exists rev', remove_nfs_loop fuel sd i = (NT_STATUS_OK, set_dacl sd (Some (Security_acl rev' p))).
Proof.
  revert sd rev q. induction fuel as [|fuel IH]; [lia|]. intros sd rev q Hd Hw Hp Hq i Hi Hf.
  cbn [remove_nfs_loop]. rewrite Hd. cbn [aces].
  destruct (decide (i < length p)%nat) as [Hlt|Hge].
  - destruct (lookup_lt_is_Some_2 p i Hlt) as [a Ha]. rewrite lookup_app_l, Ha by done.
    pose proof (proj1 (Forall_lookup _ _) Hp i a Ha) as Hna. cbv beta in Hna.
    unfold nfs_ace in Hna. rewrite Hna. simpl. apply (IH sd rev q); [done..|lia|lia].
  - assert (i = length p) as -> by lia. destruct q as [|x q].
    { rewrite app_nil_r in *. rewrite (lookup_ge_None_2 p) by lia. exists rev.
      by destruct sd; cbn in *; subst. }
    rewrite list_lookup_middle by done. apply Forall_cons in Hq as [Hx Hq].
    pose proof Hx as Hx'. unfold nfs_ace in Hx'. rewrite Hx'. simpl negb. cbv iota.
    destruct (dacl_del_nfs sd rev p q x Hd Hw Hp Hx) as (rev' & q' & Hs & ->). simpl negb. cbv iota.
    destruct (IH (set_dacl sd (Some (Security_acl rev' (p ++ q')))) rev' q' eq_refl) with (i := length p)
      as [r Hr]; [| done | | lia | | ].
    + unfold aces_wf in *. apply Forall_app in Hw as [Hw1 Hw2]. apply Forall_app. split; [done|].
      apply Forall_cons in Hw2 as [_ Hw2]. by eapply Forall_sublist_of.
    + by eapply Forall_sublist_of.
    + pose proof (sublist_length _ _ Hs). simpl in Hf. lia.
    + exists r. rewrite Hr. by destruct sd.
Qed.

Lemma remove_virtual_nfs_aces_exact (psd : security_descriptor) (rev : Z) (p q : list security_ace) :
  dacl psd = Some (Security_acl rev (p ++ q)) -> aces_wf (p ++ q) ->
  Forall (fun a => nfs_ace a = false) p -> Forall (fun a => nfs_ace a = true) q ->
  exists rev', remove_virtual_nfs_aces psd = (NT_STATUS_OK, set_dacl psd (Some (Security_acl rev' p))).
Proof.
  intros Hd Hw Hp Hq. unfold remove_virtual_nfs_aces. rewrite Hd. cbn [aces].
  apply (remove_nfs_loop_spec _ psd rev p q); [done..|lia|]. rewrite length_app. lia.
Qed.

(** ** The canonical order *)

Definition inherit_key (a : security_ace) : Z := if is_inherited a then 1 else 0.

Definition canon_key (a : security_ace) : Z :=
  (if is_denied a then 0 else 4) + (if inherit_only a then 2 else 0) +
  (if has_bits (ace_flags a) INHERIT_BITS then 0 else 1).

Lemma inherited_bit (f : Z) :
  Z.land f SEC_ACE_FLAG_INHERITED_ACE = if has_bits f SEC_ACE_FLAG_INHERITED_ACE then 16 else 0.
Proof.
  unfold has_bits. destruct (Z.eqb_spec (Z.land f SEC_ACE_FLAG_INHERITED_ACE) 0) as [E|E]; [done|].
  simpl. change SEC_ACE_FLAG_INHERITED_ACE with (2 ^ 4) in *.
  apply Z.bits_inj. intros i. destruct (Z.ltb_spec i 0); [by rewrite !Z.testbit_neg_r|].
  rewrite Z.land_spec, (pow2_testbit 4 i) by lia. change 16 with (2 ^ 4). rewrite pow2_testbit by lia.
  destruct (Z.eqb_spec i 4) as [->|]; [|by rewrite andb_false_r]. rewrite andb_true_r.
  rewrite <- (has_bit_pow f 4) by lia. unfold has_bits. by apply negb_true_iff, Z.eqb_neq.
Qed.

Lemma inherit_comp_key (a b : security_ace) :
  nt_ace_inherit_comp a b <= 0 <-> inherit_key a <= inherit_key b.
Proof.
  unfold nt_ace_inherit_comp, inherit_key, is_inherited. rewrite !inherited_bit.
  by destruct (has_bits (ace_flags a) _), (has_bits (ace_flags b) _); simpl.
Qed.

Lemma canon_comp_key (a b : security_ace) :
  nt_ace_canon_comp a b <= 0 <-> canon_key a <= canon_key b.
Proof.
  unfold nt_ace_canon_comp, canon_key.
  destruct (is_denied a), (is_denied b), (inherit_only a), (inherit_only b),
    (has_bits (ace_flags a) _), (has_bits (ace_flags b) _); simpl; lia.
Qed.

Lemma key_consistent (cmp : security_ace -> security_ace -> Z) (key : security_ace -> Z) :
  (forall a b, cmp a b <= 0 <-> key a <= key b) -> consistent cmp.
Proof. intros H. split; intros *; rewrite !H; lia. Qed.

#[local] Hint Resolve inherit_comp_key canon_comp_key : core.

(** ** The order a sort gives *)

Section sorting.
  Context (qsort : qsort_fn) `{!Qsort qsort}.

Lemma typesafe_perm (cmp : security_ace -> security_ace -> Z) (l : list security_ace) :
  consistent cmp -> typesafe_qsort qsort cmp l ≡ₚ l.
Proof. intros H. unfold typesafe_qsort. case_if; [by apply qsort_perm|done]. Qed.

Lemma typesafe_sorted (cmp : security_ace -> security_ace -> Z) (key : security_ace -> Z)
    (l : list security_ace) :
  (forall a b, cmp a b <= 0 <-> key a <= key b) ->
  pairwise (fun a b => key a <= key b) (typesafe_qsort qsort cmp l).
Proof.
  intros Hk. apply (pairwise_mono (fun a b => cmp a b <= 0)); [intros a b _ _; apply Hk|].
  unfold typesafe_qsort. destruct (Nat.ltb_spec 1 (length l)).
  - by eapply qsort_sorted, key_consistent.
  - by destruct l as [|a [|b l]]; simpl in *; try lia.
Qed.

(** The boundary splits a list sorted by inheritance. *)
Lemma boundary_split (l : list security_ace) :
  pairwise (fun a b => inherit_key a <= inherit_key b) l ->
  take (inherited_boundary l) l = List.filter (fun a => negb (is_inherited a)) l /\
  drop (inherited_boundary l) l = List.filter is_inherited l.
Proof.
  induction l as [|a l IH]; simpl; [done|]. intros [Ha Hl]. specialize (IH Hl).
  destruct (is_inherited a) eqn:E; simpl.
  - assert (forall l, Forall (fun b => inherit_key a <= inherit_key b) l ->
      [] = List.filter (fun a => negb (is_inherited a)) l /\ l = List.filter is_inherited l) as Hall.
    { clear -E. induction 1 as [|b l Hb Hl [IH1 IH2]]; simpl; [done|].
      unfold inherit_key in Hb. rewrite E in Hb. destruct (is_inherited b); [|lia].
      simpl. by rewrite <- IH1, <- IH2. }
    destruct (Hall l Ha) as [H1 H2]. by rewrite <- H2.
  - destruct IH as [-> ->]. done.
Qed.

(** The sorted list: the entries that are not inherited in canonical order,
    then the inherited ones. *)
Lemma dacl_sort_parts (l : list security_ace) :
  exists e h, dacl_sort_into_canonical_order qsort l = e ++ h /\
    e ≡ₚ List.filter (fun a => negb (is_inherited a)) l /\ h ≡ₚ List.filter is_inherited l /\
    pairwise (fun a b => canon_key a <= canon_key b) e /\
    pairwise (fun a b => canon_key a <= canon_key b) h.
Proof.
  assert (consistent nt_ace_inherit_comp) as Hi by (eapply key_consistent; auto).
  assert (consistent nt_ace_canon_comp) as Hc by (eapply key_consistent; auto).
  unfold dacl_sort_into_canonical_order. set (m := typesafe_qsort qsort nt_ace_inherit_comp l).
  destruct (boundary_split m) as [-> ->].
  { by apply typesafe_sorted. }
  assert (m ≡ₚ l) as Hm by (by apply typesafe_perm).
  eexists _, _. split; [reflexivity|]. split_and!.
  - rewrite typesafe_perm by done. by rewrite Hm.
  - rewrite typesafe_perm by done. by rewrite Hm.
  - by apply typesafe_sorted.
  - by apply typesafe_sorted.
Qed.
End sorting.

(** ** What a sorted list decides *)

(** What one entry says about a bit. *)
Definition vote (token : security_token) (am_owner : bool) (i : Z) (ace : security_ace) : option bool :=
  first_match token am_owner [ace] i.

Lemma first_match_cons (token : security_token) (am : bool) (a : security_ace)
    (l : list security_ace) (i : Z) :
  first_match token am (a :: l) i =
  match vote token am i a with Some b => Some b | None => first_match token am l i end.
Proof. unfold vote. simpl. case_if; [done|]. by destruct (ace_type a); try case_if. Qed.

Lemma first_match_app (token : security_token) (am : bool) (l k : list security_ace) (i : Z) :
  first_match token am (l ++ k) i =
  match first_match token am l i with Some b => Some b | None => first_match token am k i end.
Proof.
  induction l as [|a l IH]; [done|]. rewrite <- app_comm_cons, !first_match_cons, IH.
  by destruct (vote token am i a).
Qed.

(** A denial, if any entry of the list denies the bit, else an allowance. *)
Definition deny_first (token : security_token) (am_owner : bool) (l : list security_ace) (i : Z)
    : option bool :=
  if existsb (fun a => bool_decide (vote token am_owner i a = Some false)) l then Some false
  else if existsb (fun a => bool_decide (vote token am_owner i a = Some true)) l then Some true
  else None.

Definition no_denied_object (l : list security_ace) : Prop :=
  Forall (fun a => ace_type a <> SEC_ACE_TYPE_ACCESS_DENIED_OBJECT) l.

Lemma existsb_perm {A : Type} (f : A -> bool) (l k : list A) : l ≡ₚ k -> existsb f l = existsb f k.
Proof.
  induction 1 as [|x l k _ IH|x y l|l1 l2 l3 _ IH1 _ IH2]; simpl; [done|by rewrite IH| |congruence].
  by rewrite !orb_assoc, (orb_comm (f x)).
Qed.

Lemma deny_first_perm (token : security_token) (am : bool) (l k : list security_ace) (i : Z) :
  l ≡ₚ k -> deny_first token am l i = deny_first token am k i.
Proof. intros H. unfold deny_first. by rewrite !(existsb_perm _ _ _ H). Qed.

Lemma vote_denies (token : security_token) (am : bool) (i : Z) (a : security_ace) :
  ace_type a <> SEC_ACE_TYPE_ACCESS_DENIED_OBJECT -> vote token am i a = Some false ->
  is_denied a = true.
Proof.
  unfold vote, is_denied. simpl. intros Hn H. apply bool_decide_eq_true. revert H. case_if; [done|].
  destruct (ace_type a); try case_if; done.
Qed.

Lemma vote_denied (token : security_token) (am : bool) (i : Z) (a : security_ace) :
  is_denied a = true -> vote token am i a <> Some true.
Proof.
  unfold vote, is_denied. rewrite bool_decide_eq_true. simpl. intros ->. by repeat case_if.
Qed.

Lemma existsb_none {A : Type} (f : A -> bool) (l : list A) :
  Forall (fun a => f a = false) l -> existsb f l = false.
Proof. induction 1 as [|a l Ha Hl IH]; simpl; [done|]. by rewrite Ha. Qed.

(** In a list in canonical order the first match is a denial if there is one. *)
Lemma canon_first_match (token : security_token) (am : bool) (l : list security_ace) (i : Z) :
  no_denied_object l -> pairwise (fun a b => canon_key a <= canon_key b) l ->
  first_match token am l i = deny_first token am l i.
Proof.
  induction l as [|a l IH]; [done|]. intros Hn [Ha Hl]. apply Forall_cons in Hn as [Hna Hn].
  rewrite first_match_cons, IH by done. unfold deny_first. simpl.
  destruct (vote token am i a) as [[|]|] eqn:Ev; simpl; [|done|done].
  rewrite existsb_none; [done|].
  assert (is_denied a = false) as Hd.
  { apply not_true_iff_false. intros Hd. by apply (vote_denied token am i a Hd). }
  rewrite Forall_forall in *. intros b Hb. apply bool_decide_eq_false. intros Ef.
  apply vote_denies in Ef; [|by apply Hn]. specialize (Ha b Hb). unfold canon_key in Ha.
  rewrite Hd, Ef in Ha. repeat case_if; lia.
Qed.

Lemma filter_partition {A : Type} (p : A -> bool) (l : list A) :
  List.filter (fun a => negb (p a)) l ++ List.filter p l ≡ₚ l.
Proof.
  induction l as [|a l IH]; simpl; [done|]. destruct (p a); simpl; [|by rewrite IH].
  by rewrite <- Permutation_middle, IH.
Qed.

(** Insertion sort is a [qsort]. *)
Fixpoint isort_insert (cmp : security_ace -> security_ace -> Z) (a : security_ace)
    (l : list security_ace) : list security_ace :=
  match l with
  | [] => [a]
  | b :: r => if cmp a b <=? 0 then a :: l else b :: isort_insert cmp a r
  end.

Definition isort : qsort_fn := fun cmp l => foldr (isort_insert cmp) [] l.

Lemma isort_insert_perm (cmp : security_ace -> security_ace -> Z) (a : security_ace)
    (l : list security_ace) : isort_insert cmp a l ≡ₚ a :: l.
Proof. induction l as [|b l IH]; simpl; [done|]. case_if; [done|]. rewrite IH. apply perm_swap. Qed.

Lemma isort_insert_sorted (cmp : security_ace -> security_ace -> Z) (a : security_ace)
    (l : list security_ace) :
  consistent cmp -> pairwise (fun a b => cmp a b <= 0) l ->
  pairwise (fun a b => cmp a b <= 0) (isort_insert cmp a l).
Proof.
  intros Hc. induction l as [|b l IH]; simpl; [done|]. intros [Hb Hl].
  destruct (Z.leb_spec (cmp a b) 0) as [H|H].
  - split; [|done]. constructor; [done|]. eapply Forall_impl; [exact Hb|].
    intros c Hbc. by apply (cmp_trans _ Hc a b c).
  - split; [|by apply IH]. rewrite (isort_insert_perm cmp a l). constructor; [|done].
    destruct (cmp_total _ Hc a b); lia.
Qed.

#[export] Instance isort_qsort : Qsort isort.
Proof.
  split; intros cmp l Hc; unfold isort; induction l as [|a l IH]; simpl; try done.
  - by rewrite isort_insert_perm, IH.
  - by apply isort_insert_sorted.
Qed.

(** C19. Sorting a DACL into canonical order permutes it, and for a list without
    ACCESS_DENIED_OBJECT entries the decision of the sorted list on every bit does
    not depend on what [qsort] does with entries that compare equal: an entry that
    is not inherited and denies the bit wins over everything, then one that allows
    it, then an inherited denial, then an inherited allowance. *)
Theorem canonical_order_decides (qsort : qsort_fn) (token : security_token) (am_owner : bool)
    (l : list security_ace) (i : Z) :
  Qsort qsort ->
  dacl_sort_into_canonical_order qsort l ≡ₚ l /\
  (no_denied_object l ->
   first_match token am_owner (dacl_sort_into_canonical_order qsort l) i =
   match deny_first token am_owner (List.filter (fun a => negb (is_inherited a)) l) i with
   | Some b => Some b
   | None => deny_first token am_owner (List.filter is_inherited l) i
   end).
Proof.
  intros Hq. destruct (dacl_sort_parts qsort l) as (e & h & -> & He & Hh & Hse & Hsh).
  assert (e ++ h ≡ₚ l) as Hp by (by rewrite He, Hh, filter_partition). split; [done|]. intros Hn.
  assert (no_denied_object (e ++ h)) as Hn' by (unfold no_denied_object; by rewrite Hp).
  apply Forall_app in Hn' as [Hne Hnh].
  by rewrite first_match_app, !canon_first_match, (deny_first_perm _ _ e _ _ He),
    (deny_first_perm _ _ h _ _ Hh) by done.
Qed.

Definition flagged_ace (t : security_ace_type) (flags mask : Z) (who : dom_sid) : security_ace :=
  Security_ace t flags mask None None who.

(** An inherited allowance, a denial for the group and an allowance for the
    user: the denial decides. *)
Definition unsorted_aces : list security_ace :=
  [flagged_ace SEC_ACE_TYPE_ACCESS_ALLOWED SEC_ACE_FLAG_INHERITED_ACE 0x3 user_sid;
   flagged_ace SEC_ACE_TYPE_ACCESS_ALLOWED 0 0x2 user_sid;
   flagged_ace SEC_ACE_TYPE_ACCESS_DENIED 0 0x2 group_of_user].

Lemma canonical_order_decides_witness :
  first_match (user_token 0) false unsorted_aces 1 = Some true /\
  first_match (user_token 0) false (dacl_sort_into_canonical_order isort unsorted_aces) 1 = Some false /\
  first_match (user_token 0) false (dacl_sort_into_canonical_order isort unsorted_aces) 0 = Some true.
Proof.
  assert (no_denied_object unsorted_aces) as Hn by (unfold unsorted_aces; repeat constructor; discriminate).
  split; [reflexivity|]. split.
  - rewrite (proj2 (canonical_order_decides isort (user_token 0) false unsorted_aces 1 isort_qsort) Hn).
    vm_compute. reflexivity.
  - rewrite (proj2 (canonical_order_decides isort (user_token 0) false unsorted_aces 0 isort_qsort) Hn).
    vm_compute. reflexivity.
Defined.

(** ** Where the code departs from what it says *)

(** The order does not put a DENIED_OBJECT entry first, though the access check
    treats it as a denial: the allowance decides. *)
Lemma denied_object_not_first :
  let l := [plain_ace SEC_ACE_TYPE_ACCESS_ALLOWED 0x2 user_sid;
            plain_ace SEC_ACE_TYPE_ACCESS_DENIED_OBJECT 0x2 user_sid] in
  dacl_sort_into_canonical_order isort l = l /\
  first_match (user_token 0) false l 1 = Some true /\
  first_match (user_token 0) false (rev l) 1 = Some false.
Proof. vm_compute. auto. Qed.

Definition with_dacl (l : list security_ace) : security_descriptor :=
  Security_descriptor SD_REVISION SEC_DESC_DACL_PRESENT (Some user_sid) None None
    (Some (Security_acl SECURITY_ACL_REVISION_NT4 l)).

(** Of two entries for a trustee in a row, one stays. *)
Lemma del_leaves_second :
  let a m := plain_ace SEC_ACE_TYPE_ACCESS_ALLOWED m user_sid in
  security_descriptor_dacl_del (with_dacl [a 1; a 2]) (Sid_value user_sid) =
  (NT_STATUS_OK, with_dacl [a 2]).
Proof. vm_compute. reflexivity. Qed.

(** Removing an NFS entry deletes the second of two entries for an ordinary
    trustee that follow it: the pointer given to the deletion then refers to
    the first of them. *)
Lemma remove_nfs_deletes_others :
  let nfs := plain_ace SEC_ACE_TYPE_ACCESS_DENIED 0
               (Dom_sid 1 3 [0; 0; 0; 0; 0; 5] ([88; 3; 0x1ED] ++ replicate 12 0)) in
  let deny := plain_ace SEC_ACE_TYPE_ACCESS_DENIED 0x2 user_sid in
  let allow := plain_ace SEC_ACE_TYPE_ACCESS_ALLOWED 0x1 user_sid in
  remove_virtual_nfs_aces (with_dacl [nfs; deny; allow]) = (NT_STATUS_OK, with_dacl [deny]).
Proof. vm_compute. reflexivity. Qed.

(** Entries that differ in the object they apply to count as equal. *)
Lemma ace_equal_ignores_object :
  let g n := Mk_GUID n 0 0 (0, 0) (replicate 6 0) in
  let a n := Security_ace SEC_ACE_TYPE_ACCESS_DENIED_OBJECT 0 0x10 (Some (g n)) None user_sid in
  security_ace_equal (a 1) (a 2) = true /\ a 1 <> a 2.
Proof. split; [vm_compute; reflexivity|congruence]. Qed.
