(* ===== verification/SecInherit.v ===== *)
(** * Inheritance of security descriptors: the model

    The descriptor of a new file or directory ([se_create_child_secdesc] of
    libcli/security/secdesc.c and [inherit_new_acl] of source3/smbd/open.c) and
    that of a new directory object ([create_security_descriptor] of
    libcli/security/create_descriptor.c). Allocations succeed; [None] is the
    dereference of a null pointer or a read past the end of an array. *)

From S2P Require Import Prelude.
From S2P Require Import DomSid.
From S2P Require Import SecModel.
From S2P Require Import SecDesc.
From stdpp Require Import prelude list.

#[local] Open Scope Z_scope.

(** ** Files and directories *)

Definition is_inheritable_ace (ace : security_ace) (container : bool) : bool :=
  if negb container then has_bits (ace_flags ace) SEC_ACE_FLAG_OBJECT_INHERIT
  else if has_bits (ace_flags ace) SEC_ACE_FLAG_CONTAINER_INHERIT then true
  else if has_bits (ace_flags ace) SEC_ACE_FLAG_OBJECT_INHERIT &&
          negb (has_bits (ace_flags ace) SEC_ACE_FLAG_NO_PROPAGATE_INHERIT) then true
  else false.

Definition sd_has_inheritable_components (parent_ctr : security_descriptor) (container : bool)
    : bool :=
  match dacl parent_ctr with
  | None => false
  | Some the_acl => existsb (fun ace => is_inheritable_ace ace container) (aces the_acl)
  end.

(** [new_flags] before the creator SIDs are looked at. *)
Definition child_flags (container : bool) (flags : Z) : Z :=
  if negb container then 0
  else
    let new_flags := clear_bits flags (Z.lor SEC_ACE_FLAG_INHERIT_ONLY SEC_ACE_FLAG_INHERITED_ACE) in
    let new_flags := if negb (has_bits new_flags SEC_ACE_FLAG_CONTAINER_INHERIT)
                     then Z.lor new_flags SEC_ACE_FLAG_INHERIT_ONLY else new_flags in
    if has_bits new_flags SEC_ACE_FLAG_NO_PROPAGATE_INHERIT then 0 else new_flags.

Section Child.
  (** What the array of new entries and the unused parts of copied SIDs hold
      before they are assigned. *)
  Context (mem : nat -> security_ace) (junk : list Z).
  Context (set_inherited_flags : bool) (owner group : option dom_sid) (container : bool).

(** The entries that the loop adds for one entry of the parent, the first of
    them at index [ndx]. *)
Definition child_ace (ndx : nat) (ace : security_ace) : option (list security_ace) :=
  if negb (is_inheritable_ace ace container) then Some []
  else
    let new_flags := child_flags container (ace_flags ace) in
    let inherited := if set_inherited_flags then SEC_ACE_FLAG_INHERITED_ACE else 0 in
    let '(creator, ptrustee) :=
      if dom_sid_equal (Some (trustee ace)) (Some global_sid_Creator_Owner)
      then (Some global_sid_Creator_Owner, owner)
      else if dom_sid_equal (Some (trustee ace)) (Some global_sid_Creator_Group)
      then (Some global_sid_Creator_Group, group)
      else (None, Some (trustee ace)) in
    match creator, container && has_bits new_flags SEC_ACE_FLAG_CONTAINER_INHERIT with
    | Some creator, true =>
        who ← ptrustee;
        Some [init_sec_ace (mem ndx) who (ace_type ace) (access_mask ace) inherited;
              init_sec_ace (mem (S ndx)) creator (ace_type ace) (access_mask ace)
                (Z.lor (Z.lor new_flags SEC_ACE_FLAG_INHERIT_ONLY) inherited)]
    | _, _ =>
        who ← (if container && negb (has_bits (ace_flags ace) SEC_ACE_FLAG_NO_PROPAGATE_INHERIT)
               then Some (trustee ace) else ptrustee);
        Some [init_sec_ace (mem ndx) who (ace_type ace) (access_mask ace)
                (Z.lor new_flags inherited)]
    end.

Fixpoint child_loop (l new_ace_list : list security_ace) : option (list security_ace) :=
  match l with
  | [] => Some new_ace_list
  | ace :: l => k ← child_ace (length new_ace_list) ace; child_loop l (new_ace_list ++ k)
  end.

(** The loop that removes duplicates, at index [i]. *)
Fixpoint dedup_loop (fuel : nat) (l : list security_ace) (i : nat) : list security_ace :=
  match fuel, l !! i with
  | S fuel, Some ai =>
      if existsb (fun aj => security_ace_equal ai aj) (take i l)
      then dedup_loop fuel (take i l ++ drop (S i) l) i
      else dedup_loop fuel l (S i)
  | _, _ => l
  end.
End Child.

Definition se_create_child_secdesc (mem : nat -> security_ace) (junk : list Z)
    (parent_ctr : security_descriptor) (owner group : option dom_sid) (container : bool)
    : option (NTSTATUS * option security_descriptor) :=
  let inherited := has_bits (sd_type parent_ctr) SEC_DESC_DACL_AUTO_INHERITED in
  the_acl ← dacl parent_ctr;
  let num_aces := Z.of_nat (length (aces the_acl)) in
  if u32 (2 * num_aces) <? num_aces then Some (NT_STATUS_NO_MEMORY, None)
  else
    l ← child_loop mem inherited owner group container (aces the_acl) [];
    let l := dedup_loop (length l) l 1 in
    let new_dacl := match l with
                    | [] => None
                    | _ => Some (make_sec_acl SECURITY_ACL_REVISION_NT4 (length l) l)
                    end in
    Some (NT_STATUS_OK, Some (make_sec_desc junk SD_REVISION
      (Z.lor (Z.lor SEC_DESC_SELF_RELATIVE SEC_DESC_DACL_PRESENT)
             (if inherited then SEC_DESC_DACL_AUTO_INHERITED else 0))
      owner group None new_dacl)).

(** ** The descriptor of a new file *)

Inductive id_type := ID_TYPE_NOT_SPECIFIED | ID_TYPE_UID | ID_TYPE_GID | ID_TYPE_BOTH.

(** [sids_to_unixids] for one SID: [None] where it fails. *)
Definition unixid_map : Type := dom_sid -> option id_type.

Definition is_uid (t : option id_type) : bool :=
  match t with Some (ID_TYPE_UID | ID_TYPE_BOTH) => true | _ => false end.
Definition is_gid (t : option id_type) : bool :=
  match t with Some (ID_TYPE_GID | ID_TYPE_BOTH) => true | _ => false end.

Definition global_sid_Builtin_Administrators : dom_sid :=
  Dom_sid 1 2 [0; 0; 0; 0; 0; 5] ([32; 544] ++ replicate 13 0).

Definition security_token_has_builtin_administrators (token : security_token) : bool :=
  security_token_has_sid token (Some global_sid_Builtin_Administrators).

(** The connection and the file: the share option, the token and the map of
    SIDs to ids; the parent's descriptor as [SMB_VFS_GET_NT_ACL] returns it. *)
Record inherit_env := Inherit_env {
  inherit_owner_option : bool;
  env_token : security_token;
  sids_to_unixids : unixid_map;
  is_directory : bool;
  parent_nt_acl : NTSTATUS + security_descriptor
}.

(** The owner and group that a new file gets: [None] where the token has no
    SID at the index. *)
Definition new_owner_group (env : inherit_env) (parent : security_descriptor)
    : option (dom_sid * dom_sid) :=
  let token := env_token env in
  let one_sid := (length (sids token) =? 1)%nat in
  let owner := if inherit_owner_option env then owner_sid parent else None in
  let group := if inherit_owner_option env then group_sid parent else None in
  let '(try_ba, try_system) :=
    if negb (present owner) then
      if security_token_has_builtin_administrators token then (true, false)
      else if security_token_is_system token then (true, true) else (false, false)
    else (false, false) in
  let '(try_ba, try_system) :=
    if negb (present group) && one_sid && security_token_is_system token then (true, true)
    else (try_ba, try_system) in
  let ba := if try_ba then sids_to_unixids env global_sid_Builtin_Administrators else None in
  let sy := if try_system then sids_to_unixids env global_sid_System else None in
  let when (b : bool) (s : dom_sid) := if b then Some s else None in
  let set_if_null (x y : option dom_sid) := if negb (present x) then y else x in
  let owner := set_if_null owner (when (is_uid ba) global_sid_Builtin_Administrators) in
  let owner := set_if_null owner (when (is_uid sy) global_sid_System) in
  let group := set_if_null group (when (is_gid sy) global_sid_System) in
  let group := if try_system
               then set_if_null group (when (is_gid ba) global_sid_Builtin_Administrators)
               else group in
  owner ← (if negb (present owner) then sids token !! 0%nat else owner);
  group ← (if negb (present group) then (if one_sid then sids token !! 0%nat else sids token !! 1%nat)
           else group);
  Some (owner, group).

(** The call of [SMB_VFS_FSET_NT_ACL]: whether as root, the parts and the
    descriptor. *)
Record fset_call := Fset_call { as_root : bool; info_sent : Z; sent : security_descriptor }.

(** [inherit_new_acl]: the status where it returns without a call, else the
    call whose status it returns. *)
Definition inherit_new_acl (mem : nat -> security_ace) (junk : list Z) (env : inherit_env)
    : option (NTSTATUS + fset_call) :=
  match parent_nt_acl env with
  | inl status => Some (inl status)
  | inr parent_desc =>
      let inherit_owner := inherit_owner_option env in
      let inheritable_components := sd_has_inheritable_components parent_desc (is_directory env) in
      if negb inheritable_components && negb inherit_owner then Some (inl NT_STATUS_OK)
      else
        '(owner, group) ← new_owner_group env parent_desc;
        '(status, psd) ← se_create_child_secdesc mem junk parent_desc (Some owner) (Some group)
                           (is_directory env);
        if negb (NT_STATUS_IS_OK status) then Some (inl status)
        else
          psd ← psd;
          let info := Z.lor (Z.lor SECINFO_OWNER SECINFO_GROUP) SECINFO_DACL in
          if negb inheritable_components
          then Some (inr (Fset_call inherit_owner (clear_bits info SECINFO_DACL)
                 (set_sd_type psd (clear_bits (sd_type psd) SEC_DESC_DACL_PRESENT))))
          else Some (inr (Fset_call inherit_owner info psd))
  end.

(** ** Directory objects *)

Definition SEC_ADS_GENERIC_EXECUTE : Z := Z.lor SEC_STD_READ_CONTROL 0x04.
Definition SEC_ADS_GENERIC_WRITE : Z := Z.lor SEC_STD_READ_CONTROL (Z.lor 0x08 0x20).
Definition SEC_ADS_GENERIC_READ : Z :=
  Z.lor (Z.lor SEC_STD_READ_CONTROL 0x04) (Z.lor 0x10 0x80).
Definition SEC_ADS_GENERIC_ALL_DS : Z :=
  Z.lor (Z.lor (Z.lor SEC_STD_DELETE SEC_STD_WRITE_DAC) SEC_STD_WRITE_OWNER)
        (Z.lor (Z.lor 0x01 0x02) (Z.lor 0x40 SEC_ADS_CONTROL_ACCESS)).
Definition SEC_ADS_GENERIC_ALL : Z :=
  Z.lor (Z.lor SEC_ADS_GENERIC_EXECUTE SEC_ADS_GENERIC_WRITE)
        (Z.lor SEC_ADS_GENERIC_READ SEC_ADS_GENERIC_ALL_DS).

Definition SEC_DACL_AUTO_INHERIT : Z := 0x01.
Definition SEC_SACL_AUTO_INHERIT : Z := 0x02.
Definition SEC_DEFAULT_DESCRIPTOR : Z := 0x04.
Definition SEC_OWNER_FROM_PARENT : Z := 0x08.
Definition SEC_GROUP_FROM_PARENT : Z := 0x10.

(** If a generic bit is set, its rights are added and the bit is cleared. *)
Definition expand_bit (generic rights mask : Z) : Z :=
  if has_bits mask generic then clear_bits (Z.lor mask rights) generic else mask.

Definition map_generic_rights_ds (mask : Z) : Z :=
  let mask := expand_bit SEC_GENERIC_ALL SEC_ADS_GENERIC_ALL mask in
  let mask := expand_bit SEC_GENERIC_EXECUTE SEC_ADS_GENERIC_EXECUTE mask in
  let mask := expand_bit SEC_GENERIC_WRITE SEC_ADS_GENERIC_WRITE mask in
  expand_bit SEC_GENERIC_READ SEC_ADS_GENERIC_READ mask.

(** The array ends at an all-zero GUID. *)
Fixpoint guid_scan (object_list : list GUID) (object : GUID) : option bool :=
  match object_list with
  | [] => None
  | g :: object_list =>
      if GUID_all_zero g then Some false
      else if negb (GUID_equal g object) then guid_scan object_list object
      else Some true
  end.

Definition object_in_list (object_list : option (list GUID)) (object : GUID) : option bool :=
  match object_list with
  | None => Some true
  | Some l => if GUID_all_zero object then Some true else guid_scan l object
  end.

Definition desc_ace_has_generic (ace : security_ace) : bool :=
  let m := access_mask ace in
  if has_bits m SEC_GENERIC_ALL || has_bits m SEC_GENERIC_READ ||
     has_bits m SEC_GENERIC_WRITE || has_bits m SEC_GENERIC_EXECUTE then true
  else if dom_sid_equal (Some (trustee ace)) (Some global_sid_Creator_Owner) ||
          dom_sid_equal (Some (trustee ace)) (Some global_sid_Creator_Group) then true
  else false.

Definition desc_expand_generic (new_ace : security_ace) (owner group : dom_sid) : security_ace :=
  let a := set_access_mask new_ace (map_generic_rights_ds (access_mask new_ace)) in
  let a := if dom_sid_equal (Some (trustee a)) (Some global_sid_Creator_Owner)
           then set_trustee a owner else a in
  let a := if dom_sid_equal (Some (trustee a)) (Some global_sid_Creator_Group)
           then set_trustee a group else a in
  set_flags a 0.

Definition GUID_zero : GUID := Mk_GUID 0 0 0 (0, 0) (replicate 6 0).

Section Directory.
  Context (is_container : bool) (owner group : dom_sid) (object_list : option (list GUID)).

(** The entries that a new object gets from one entry of its parent. *)
Definition inherited_ace (ace : security_ace) : option (list security_ace) :=
  let f := ace_flags ace in
  if has_bits f SEC_ACE_FLAG_CONTAINER_INHERIT || has_bits f SEC_ACE_FLAG_OBJECT_INHERIT then
    let flags := Z.lor f SEC_ACE_FLAG_INHERITED_ACE in
    let flags := if has_bits f SEC_ACE_FLAG_INHERIT_ONLY && negb (desc_ace_has_generic ace)
                 then clear_bits flags SEC_ACE_FLAG_INHERIT_ONLY else flags in
    let flags := if is_container && has_bits f SEC_ACE_FLAG_OBJECT_INHERIT
                 then Z.lor flags SEC_ACE_FLAG_INHERIT_ONLY else flags in
    flags ← (if sec_ace_object (ace_type ace) then
               inside ← object_in_list object_list (default GUID_zero (inherited_object_type ace));
               Some (if negb inside then Z.lor flags SEC_ACE_FLAG_INHERIT_ONLY else flags)
             else Some flags);
    Some (set_flags ace flags ::
          if is_container && negb (has_bits f SEC_ACE_FLAG_NO_PROPAGATE_INHERIT) &&
             desc_ace_has_generic ace
          then [set_flags (desc_expand_generic ace owner group) SEC_ACE_FLAG_INHERITED_ACE]
          else [])
  else Some [].

Fixpoint inherited_loop (l : list security_ace) : option (list security_ace) :=
  match l with
  | [] => Some []
  | ace :: l => k ← inherited_ace ace; r ← inherited_loop l; Some (k ++ r)
  end.

Definition calculate_inherited_from_parent (acl : option security_acl)
    : option (option security_acl) :=
  match acl with
  | None => Some None
  | Some acl =>
      l ← inherited_loop (aces acl);
      Some (match l with [] => None | _ => Some (Security_acl (acl_revision acl) l) end)
  end.

(** One entry of the creator's list: the entry as it is left in that list, and
    what it adds to the new one. *)
Definition user_ace (is_protected : bool) (ace : security_ace) : security_ace * list security_ace :=
  if has_bits (ace_flags ace) SEC_ACE_FLAG_INHERITED_ACE && negb is_protected then (ace, [])
  else
    let ace := if has_bits (ace_flags ace) SEC_ACE_FLAG_INHERITED_ACE
               then set_flags ace (clear_bits (ace_flags ace) SEC_ACE_FLAG_INHERITED_ACE) else ace in
    let f := ace_flags ace in
    if has_bits f SEC_ACE_FLAG_INHERIT_ONLY &&
       negb (has_bits f SEC_ACE_FLAG_CONTAINER_INHERIT || has_bits f SEC_ACE_FLAG_OBJECT_INHERIT)
    then (ace, [])
    else if has_bits f SEC_ACE_FLAG_INHERIT_ONLY then (ace, [ace])
    else if desc_ace_has_generic ace then
      if negb (has_bits f SEC_ACE_FLAG_CONTAINER_INHERIT)
      then (ace, [desc_expand_generic ace owner group])
      else (ace, [set_flags ace (Z.lor f SEC_ACE_FLAG_INHERIT_ONLY);
                  desc_expand_generic ace owner group])
    else (ace, [ace]).

(** The new list, and the creator's list as it is left. *)
Definition process_user_acl (acl : option security_acl) (is_protected : bool)
    : option security_acl * option security_acl :=
  match acl with
  | None => (None, None)
  | Some acl =>
      let r := map (user_ace is_protected) (aces acl) in
      (Some (Security_acl (acl_revision acl) (concat (map snd r))),
       Some (Security_acl (acl_revision acl) (map fst r)))
  end.
End Directory.

Definition creator_protected (creator_sd : option security_descriptor) (bit : Z) : bool :=
  match creator_sd with Some c => has_bits (sd_type c) bit | None => false end.

(** What [compute_acl] takes from the parent's DACL or SACL. *)
Definition inherited_part (parent_sd creator_sd : option security_descriptor) (is_container : bool)
    (inherit_flags : Z) (object_list : option (list GUID)) (owner group : dom_sid)
    (acl : security_descriptor -> option security_acl) (auto_inherit protected_bit : Z)
    : option (option security_acl) :=
  match parent_sd with
  | None => Some None
  | Some p =>
      if negb (has_bits inherit_flags auto_inherit) then Some None
      else if creator_protected creator_sd protected_bit then Some None
      else calculate_inherited_from_parent is_container owner group object_list (acl p)
  end.

(** The creator's DACL and SACL, and the creator's descriptor as it is left. *)
Definition user_part (creator_sd : option security_descriptor) (inherit_flags : Z)
    (owner group : dom_sid) : option security_acl * option security_acl * option security_descriptor :=
  match creator_sd with
  | None => (None, None, None)
  | Some c =>
      if has_bits inherit_flags SEC_DEFAULT_DESCRIPTOR then (None, None, Some c)
      else
        let '(ud, cd) := process_user_acl owner group (dacl c)
                           (creator_protected creator_sd SEC_DESC_DACL_PROTECTED) in
        let '(us, cs) := process_user_acl owner group (sacl c)
                           (creator_protected creator_sd SEC_DESC_SACL_PROTECTED) in
        (ud, us, Some (set_sacl (set_dacl c cd) cs))
  end.

(** [compute_acl]: the new descriptor, and the creator's as it is left. *)
Definition compute_acl (parent_sd creator_sd : option security_descriptor) (is_container : bool)
    (inherit_flags : Z) (object_list : option (list GUID)) (owner group : dom_sid)
    (new_sd : security_descriptor)
    : option (security_descriptor * option security_descriptor) :=
  inherited_dacl ← inherited_part parent_sd creator_sd is_container inherit_flags object_list owner group
                     dacl SEC_DACL_AUTO_INHERIT SEC_DESC_DACL_PROTECTED;
  inherited_sacl ← inherited_part parent_sd creator_sd is_container inherit_flags object_list owner group
                     sacl SEC_SACL_AUTO_INHERIT SEC_DESC_SACL_PROTECTED;
  let '(user_dacl, user_sacl, creator_sd) := user_part creator_sd inherit_flags owner group in
  let sd := set_dacl new_sd (security_acl_concatenate user_dacl inherited_dacl) in
  let sd := if present (dacl sd) then set_sd_type sd (Z.lor (sd_type sd) SEC_DESC_DACL_PRESENT) else sd in
  let sd := if present inherited_dacl
            then set_sd_type sd (Z.lor (sd_type sd) SEC_DESC_DACL_AUTO_INHERITED) else sd in
  let sd := set_sacl sd (security_acl_concatenate user_sacl inherited_sacl) in
  let sd := if present (sacl sd) then set_sd_type sd (Z.lor (sd_type sd) SEC_DESC_SACL_PRESENT) else sd in
  let sd := if present inherited_sacl
            then set_sd_type sd (Z.lor (sd_type sd) SEC_DESC_SACL_AUTO_INHERITED) else sd in
  let sd := match creator_sd with
            | Some c => set_sd_type sd (Z.lor (sd_type sd) (sd_type c))
            | None => sd
            end in
  Some (sd, creator_sd).

(** [create_security_descriptor]: [None] is a read of a token with no SIDs or
    past the object list, [Some None] the failure where the parent has no owner
    or group to copy. *)
Definition create_security_descriptor (parent_sd creator_sd : option security_descriptor)
    (is_container : bool) (object_list : option (list GUID)) (inherit_flags : Z)
    (token : security_token) (default_owner default_group : option dom_sid)
    : option (option (security_descriptor * option security_descriptor)) :=
  let new_sd := security_descriptor_initialise in
  '(new_owner, defaulted_o) ←
    match creator_sd ≫= owner_sid with
    | Some o => Some (Some o, 0)
    | None =>
        match parent_sd, has_bits inherit_flags SEC_OWNER_FROM_PARENT with
        | Some p, true => Some (owner_sid p, 0)
        | _, _ =>
            match default_owner with
            | None => o ← sids token !! 0%nat; Some (Some o, 0)
            | Some o => Some (Some o, SEC_DESC_OWNER_DEFAULTED)
            end
        end
    end;
  '(new_group, defaulted_g) ←
    match creator_sd ≫= group_sid with
    | Some g => Some (Some g, 0)
    | None =>
        match parent_sd, has_bits inherit_flags SEC_GROUP_FROM_PARENT with
        | Some p, true => Some (group_sid p, 0)
        | _, _ =>
            match default_group with
            | None => g ← (if (1 <? length (sids token))%nat then sids token !! 1%nat
                           else sids token !! 0%nat);
                      Some (Some g, 0)
            | Some g => Some (Some g, SEC_DESC_GROUP_DEFAULTED)
            end
        end
    end;
  match new_owner, new_group with
  | Some o, Some g =>
      let new_sd := set_sd_type new_sd (Z.lor (Z.lor (sd_type new_sd) defaulted_o) defaulted_g) in
      let new_sd := set_sd_group (set_sd_owner new_sd (Some o)) (Some g) in
      r ← compute_acl parent_sd creator_sd is_container inherit_flags object_list o g new_sd;
      Some (Some r)
  | _, _ => Some None
  end.
