(* ===== verification/Sddl.v ===== *)
(** * Security descriptors as text (SDDL)

    libcli/security/sddl.c: decoding a descriptor from the security descriptor
    description language and encoding one in it. Strings are lists of character
    codes; a function that moves a pointer along the string returns what is
    left of it. Allocations succeed, and [junk] is what the unused
    sub-authorities of a SID copied by [dom_sid_dup] hold. The NDR form of a
    GUID, which the decoder also accepts, is read by generated code. *)

From S2P Require Import Prelude.
From S2P Require Import CString.
From S2P Require Import DomSid.
From S2P Require Import SecModel.
From S2P Require Import GuidText.
From S2P Require Import SecDesc.
From stdpp Require Import prelude list strings.

#[local] Open Scope Z_scope.

Definition SEC_ACE_FLAG_SUCCESSFUL_ACCESS : Z := 0x40.
Definition SEC_ACE_FLAG_FAILED_ACCESS : Z := 0x80.

Definition SEC_ADS_CREATE_CHILD : Z := 0x00000001.
Definition SEC_ADS_DELETE_CHILD : Z := 0x00000002.
Definition SEC_ADS_LIST : Z := 0x00000004.
Definition SEC_ADS_SELF_WRITE : Z := 0x00000008.
Definition SEC_ADS_READ_PROP : Z := 0x00000010.
Definition SEC_ADS_WRITE_PROP : Z := 0x00000020.
Definition SEC_ADS_DELETE_TREE : Z := 0x00000040.
Definition SEC_ADS_LIST_OBJECT : Z := 0x00000080.

Definition isupper (c : Z) : bool := (0x41 <=? c) && (c <=? 0x5A).

Definition colon : Z := 0x3A.
Definition semicolon : Z := 0x3B.
Definition lparen : Z := 0x28.
Definition rparen : Z := 0x29.

(** ** The tables *)

Definition flag_map : Type := list (list Z * Z).

Definition sddl_ace_types : flag_map := [
  (c_string "AU", 2); (c_string "AL", 3); (c_string "OA", 5); (c_string "OD", 6);
  (c_string "OU", 7); (c_string "OL", 8); (c_string "A", 0); (c_string "D", 1)].

Definition sddl_ace_flags : flag_map := [
  (c_string "OI", SEC_ACE_FLAG_OBJECT_INHERIT);
  (c_string "CI", SEC_ACE_FLAG_CONTAINER_INHERIT);
  (c_string "NP", SEC_ACE_FLAG_NO_PROPAGATE_INHERIT);
  (c_string "IO", SEC_ACE_FLAG_INHERIT_ONLY);
  (c_string "ID", SEC_ACE_FLAG_INHERITED_ACE);
  (c_string "SA", SEC_ACE_FLAG_SUCCESSFUL_ACCESS);
  (c_string "FA", SEC_ACE_FLAG_FAILED_ACCESS)].

Definition ace_access_mask : flag_map := [
  (c_string "RP", SEC_ADS_READ_PROP);
  (c_string "WP", SEC_ADS_WRITE_PROP);
  (c_string "CR", SEC_ADS_CONTROL_ACCESS);
  (c_string "CC", SEC_ADS_CREATE_CHILD);
  (c_string "DC", SEC_ADS_DELETE_CHILD);
  (c_string "LC", SEC_ADS_LIST);
  (c_string "LO", SEC_ADS_LIST_OBJECT);
  (c_string "RC", SEC_STD_READ_CONTROL);
  (c_string "WO", SEC_STD_WRITE_OWNER);
  (c_string "WD", SEC_STD_WRITE_DAC);
  (c_string "SD", SEC_STD_DELETE);
  (c_string "DT", SEC_ADS_DELETE_TREE);
  (c_string "SW", SEC_ADS_SELF_WRITE);
  (c_string "GA", SEC_GENERIC_ALL);
  (c_string "GR", SEC_GENERIC_READ);
  (c_string "GW", SEC_GENERIC_WRITE);
  (c_string "GX", SEC_GENERIC_EXECUTE)].

Definition sddl_acl_flags : flag_map := [
  (c_string "P", SEC_DESC_DACL_PROTECTED);
  (c_string "AR", SEC_DESC_DACL_AUTO_INHERIT_REQ);
  (c_string "AI", SEC_DESC_DACL_AUTO_INHERITED)].

(** The codes of SIDs: of a fixed SID, or of a RID in the domain. *)
Definition fixed_codes : list (list Z * list Z) := [
  (c_string "WD", c_string "S-1-1-0");
  (c_string "CO", c_string "S-1-3-0"); (c_string "CG", c_string "S-1-3-1");
  (c_string "NU", c_string "S-1-5-2"); (c_string "IU", c_string "S-1-5-4");
  (c_string "SU", c_string "S-1-5-6"); (c_string "AN", c_string "S-1-5-7");
  (c_string "ED", c_string "S-1-5-9"); (c_string "PS", c_string "S-1-5-10");
  (c_string "AU", c_string "S-1-5-11"); (c_string "RC", c_string "S-1-5-12");
  (c_string "SY", c_string "S-1-5-18"); (c_string "LS", c_string "S-1-5-19");
  (c_string "NS", c_string "S-1-5-20"); (c_string "IS", c_string "S-1-5-17");
  (c_string "BA", c_string "S-1-5-32-544"); (c_string "BU", c_string "S-1-5-32-545");
  (c_string "BG", c_string "S-1-5-32-546"); (c_string "PU", c_string "S-1-5-32-547");
  (c_string "AO", c_string "S-1-5-32-548"); (c_string "SO", c_string "S-1-5-32-549");
  (c_string "PO", c_string "S-1-5-32-550"); (c_string "BO", c_string "S-1-5-32-551");
  (c_string "RE", c_string "S-1-5-32-552"); (c_string "BR", c_string "S-1-5-32-553");
  (c_string "RU", c_string "S-1-5-32-554"); (c_string "RD", c_string "S-1-5-32-555");
  (c_string "NO", c_string "S-1-5-32-556"); (c_string "IF", c_string "S-1-5-32-557")].

Definition rid_codes : list (list Z * Z) := [
  (c_string "LA", 500); (c_string "LG", 501); (c_string "LK", 502);
  (c_string "ER", 498); (c_string "DA", 512); (c_string "DU", 513); (c_string "DG", 514);
  (c_string "DC", 515); (c_string "DD", 516); (c_string "CA", 517); (c_string "SA", 518);
  (c_string "EA", 519); (c_string "PA", 520); (c_string "RO", 521); (c_string "RS", 553)].

Inductive sid_code :=
| Fixed_sid (sid : list Z)
| Domain_rid (rid : Z).

Definition sid_codes : list (list Z * sid_code) :=
  (prod_map id Fixed_sid <$> fixed_codes) ++ (prod_map id Domain_rid <$> rid_codes).

(** ** Decoding *)

(** The [while] loop of [sddl_map_flags]: the flags and the length read. *)
Fixpoint map_flags_loop (fuel : nat) (map : flag_map) (str : list Z) (flags : Z) (len : nat)
    : option (Z * nat) :=
  match fuel with
  | O => None
  | S fuel =>
      if isupper (peek str) then
        match List.find (fun e => starts_with e.1 str) map with
        | None => None
        | Some (name, flag) =>
            map_flags_loop fuel map (drop (length name) str) (Z.lor flags flag) (len + length name)
        end
      else Some (flags, len)
  end.

(** Every code has a character, so there are at most as many rounds as characters. *)
Definition sddl_map_flags (map : flag_map) (str : list Z) : option (Z * nat) :=
  map_flags_loop (S (length str)) map str 0 0.

(** [strspn(s, "-0123456789")]. *)
Fixpoint sid_span (s : list Z) : nat :=
  match s with
  | c :: s => if (c =? dash) || isdigit c then S (sid_span s) else O
  | [] => O
  end.

(** The SID, and the string after it. *)
Definition sddl_decode_sid (junk : list Z) (sddl : list Z) (domain_sid : option dom_sid)
    : option (dom_sid * list Z) :=
  if starts_with (c_string "S-") sddl then
    let len := sid_span (drop 2 sddl) in
    (., drop (len + 2) sddl) <$> dom_sid_parse (take (len + 2) sddl)
  else
    match List.find (fun e => starts_with e.1 sddl) sid_codes with
    | None => None
    | Some (_, Domain_rid rid) =>
        (., drop 2 sddl) <$> (domain_sid ≫= fun d => dom_sid_add_rid junk d rid)
    | Some (_, Fixed_sid sid) => (., drop 2 sddl) <$> dom_sid_parse sid
    end.

(** [strchr] for a character, as the text before and after it. *)
Fixpoint cut_at (c : Z) (s : list Z) : option (list Z * list Z) :=
  match s with
  | [] => None
  | x :: s => if x =? c then Some ([], s) else prod_map (cons x) id <$> cut_at c s
  end.

(** The first [n] tokens and the rest. *)
Fixpoint tokens (n : nat) (str : list Z) : option (list (list Z) * list Z) :=
  match n with
  | O => Some ([], str)
  | S n =>
      match cut_at semicolon str with
      | None => None
      | Some (tok, str) => prod_map (cons tok) id <$> tokens n str
      end
  end.

(** The value that is stored in the 8-bit field. *)
Definition ace_type_of (v : Z) : security_ace_type :=
  match v with
  | 0 => SEC_ACE_TYPE_ACCESS_ALLOWED
  | 1 => SEC_ACE_TYPE_ACCESS_DENIED
  | 2 => SEC_ACE_TYPE_SYSTEM_AUDIT
  | 3 => SEC_ACE_TYPE_SYSTEM_ALARM
  | 4 => SEC_ACE_TYPE_ALLOWED_COMPOUND
  | 5 => SEC_ACE_TYPE_ACCESS_ALLOWED_OBJECT
  | 6 => SEC_ACE_TYPE_ACCESS_DENIED_OBJECT
  | 7 => SEC_ACE_TYPE_SYSTEM_AUDIT_OBJECT
  | 8 => SEC_ACE_TYPE_SYSTEM_ALARM_OBJECT
  | v => SEC_ACE_TYPE_OTHER v
  end.

Definition ace_type_value (t : security_ace_type) : Z :=
  match t with
  | SEC_ACE_TYPE_ACCESS_ALLOWED => 0
  | SEC_ACE_TYPE_ACCESS_DENIED => 1
  | SEC_ACE_TYPE_SYSTEM_AUDIT => 2
  | SEC_ACE_TYPE_SYSTEM_ALARM => 3
  | SEC_ACE_TYPE_ALLOWED_COMPOUND => 4
  | SEC_ACE_TYPE_ACCESS_ALLOWED_OBJECT => 5
  | SEC_ACE_TYPE_ACCESS_DENIED_OBJECT => 6
  | SEC_ACE_TYPE_SYSTEM_AUDIT_OBJECT => 7
  | SEC_ACE_TYPE_SYSTEM_ALARM_OBJECT => 8
  | SEC_ACE_TYPE_OTHER t => t
  end.

Definition LONG_MAX : Z := 0x7FFFFFFFFFFFFFFF.

(** [strtol] with base 16 of a string that starts with [0x], as 32 bits. *)
Definition strtol_0x (s : list Z) : Z := u32 (Z.min (scan_number 16 0 (drop 2 s)).1 LONG_MAX).

Section Decode.
  Context (GUID_from_ndr_blob : list Z -> NTSTATUS + GUID) (junk : list Z) (domain_sid : option dom_sid).

Definition decode_mask (tok : list Z) : option Z :=
  if starts_with (c_string "0x") tok then Some (strtol_0x tok)
  else fst <$> sddl_map_flags ace_access_mask tok.

(** An optional GUID: absent, present, or an error. *)
Definition decode_guid (tok : list Z) : option (option GUID) :=
  match tok with
  | [] => Some None
  | _ => match GUID_from_string GUID_from_ndr_blob tok with
         | inl _ => None
         | inr g => Some (Some g)
         end
  end.

Definition sddl_decode_ace (str : list Z) : option security_ace :=
  match tokens 5 str with
  | Some ([tok0; tok1; tok2; tok3; tok4], tok5) =>
      '(type, _) ← sddl_map_flags sddl_ace_types tok0;
      '(flags, _) ← sddl_map_flags sddl_ace_flags tok1;
      access_mask ← decode_mask tok2;
      object ← decode_guid tok3;
      iobject ← decode_guid tok4;
      '(sid, _) ← sddl_decode_sid junk tok5 domain_sid;
      Some (Security_ace (ace_type_of (u8 type)) (u8 flags) access_mask object iobject sid)
  | _ => None
  end.

(** [strcspn(s, ")")]. *)
Fixpoint rparen_span (s : list Z) : nat :=
  match s with
  | c :: s => if c =? rparen then O else S (rparen_span s)
  | [] => O
  end.

(** The loop over the ACEs: those read, and the rest of the string. *)
Fixpoint decode_aces (fuel : nat) (sddl : list Z) (l : list security_ace)
    : option (list security_ace * list Z) :=
  match fuel with
  | O => None
  | S fuel =>
      if peek sddl =? lparen then
        let len := rparen_span (tail sddl) in
        if negb (nth (len + 1) sddl 0 =? rparen) then None
        else
          match sddl_decode_ace (take len (tail sddl)) with
          | None => None
          | Some ace => decode_aces fuel (drop (len + 2) sddl) (l ++ [ace])
          end
      else Some (l, sddl)
  end.

(** The ACL, its flags and the rest of the string. The revision is the one for
    object ACEs from the start. *)
Definition sddl_decode_acl (sddl : list Z) : option (security_acl * Z * list Z) :=
  if isupper (peek sddl) && (nth 1 sddl 0 =? colon)
  then Some (Security_acl SECURITY_ACL_REVISION_ADS [], 0, sddl)
  else
    '(flags, len) ← sddl_map_flags sddl_acl_flags sddl;
    let sddl := drop len sddl in
    '(l, sddl) ← decode_aces (S (length sddl)) sddl [];
    Some (Security_acl SECURITY_ACL_REVISION_ADS l, flags, sddl).

(** One section; the type has 16 bits. *)
Definition decode_section (c : Z) (sddl : list Z) (sd : security_descriptor)
    : option (security_descriptor * list Z) :=
  if c =? 0x44 then
    if present (dacl sd) then None
    else
      '(acl, flags, sddl) ← sddl_decode_acl sddl;
      Some (set_sd_type (set_dacl sd (Some acl))
              (u16 (Z.lor (sd_type sd) (Z.lor flags SEC_DESC_DACL_PRESENT))), sddl)
  else if c =? 0x53 then
    if present (sacl sd) then None
    else
      '(acl, flags, sddl) ← sddl_decode_acl sddl;
      Some (set_sd_type (set_sacl sd (Some acl))
              (u16 (Z.lor (sd_type sd) (Z.lor (u32 (Z.shiftl flags 1)) SEC_DESC_SACL_PRESENT))), sddl)
  else if c =? 0x4F then
    if present (owner_sid sd) then None
    else
      '(sid, sddl) ← sddl_decode_sid junk sddl domain_sid;
      Some (set_sd_owner sd (Some sid), sddl)
  else if c =? 0x47 then
    if present (group_sid sd) then None
    else
      '(sid, sddl) ← sddl_decode_sid junk sddl domain_sid;
      Some (set_sd_group sd (Some sid), sddl)
  else Some (sd, sddl).

Fixpoint decode_loop (fuel : nat) (sddl : list Z) (sd : security_descriptor)
    : option security_descriptor :=
  match fuel with
  | O => None
  | S fuel =>
      match sddl with
      | [] => Some sd
      | c :: _ =>
          if negb (nth 1 sddl 0 =? colon) then None
          else '(sd, sddl) ← decode_section c (drop 2 sddl) sd; decode_loop fuel sddl sd
      end
  end.

(** Every round reads at least the two characters of the section. *)
Definition sddl_decode (sddl : list Z) : option security_descriptor :=
  decode_loop (S (length sddl)) sddl
    (Security_descriptor 1 SEC_DESC_SELF_RELATIVE None None None None).

End Decode.

(** ** Encoding *)

(** The loop by bits: the string and the flags that are left. *)
Fixpoint flags_by_bits (map : flag_map) (flags : Z) : list Z * Z :=
  match map with
  | [] => ([], flags)
  | (name, flag) :: map =>
      if has_bits flags flag then prod_map (app name) id (flags_by_bits map (clear_bits flags flag))
      else flags_by_bits map flags
  end.

Definition sddl_flags_to_string (map : flag_map) (flags : Z) (check_all : bool) : option (list Z) :=
  match List.find (fun e => e.2 =? flags) map with
  | Some (name, _) => Some name
  | None =>
      let '(s, flags) := flags_by_bits map flags in
      if check_all && negb (flags =? 0) then None else Some s
  end.

Definition sddl_encode_sid (sid : dom_sid) (domain_sid : option dom_sid) : list Z :=
  let sidstr := dom_sid_string (Some sid) in
  match List.find (fun e => bool_decide (sidstr = e.2)) fixed_codes with
  | Some (code, _) => code
  | None =>
      if dom_sid_in_domain domain_sid (Some sid) then
        let rid := nth (Z.to_nat (num_auths sid - 1)) (sub_auths sid) 0 in
        match List.find (fun e => rid =? e.2) rid_codes with
        | Some (code, _) => code
        | None => dom_sid_string (Some sid)
        end
      else dom_sid_string (Some sid)
  end.

Definition encode_guid (type : security_ace_type) (g : option GUID) : list Z :=
  match g with
  | Some g => if sec_ace_object type then GUID_string g else []
  | None => []
  end.

Definition sddl_encode_ace (ace : security_ace) (domain_sid : option dom_sid) : option (list Z) :=
  sddl_type ← sddl_flags_to_string sddl_ace_types (ace_type_value (ace_type ace)) true;
  sddl_flags ← sddl_flags_to_string sddl_ace_flags (ace_flags ace) true;
  let sddl_mask := match sddl_flags_to_string ace_access_mask (access_mask ace) true with
                   | Some s => s
                   | None => c_string "0x" ++ print_hex_pad 8 (access_mask ace)
                   end in
  Some (sddl_type ++ [semicolon] ++ sddl_flags ++ [semicolon] ++ sddl_mask ++ [semicolon] ++
        encode_guid (ace_type ace) (object_type ace) ++ [semicolon] ++
        encode_guid (ace_type ace) (inherited_object_type ace) ++ [semicolon] ++
        sddl_encode_sid (trustee ace) domain_sid).

Fixpoint encode_aces (l : list security_ace) (domain_sid : option dom_sid) : option (list Z) :=
  match l with
  | [] => Some []
  | ace :: l =>
      s ← sddl_encode_ace ace domain_sid;
      t ← encode_aces l domain_sid;
      Some ([lparen] ++ s ++ [rparen] ++ t)
  end.

Definition sddl_encode_acl (acl : security_acl) (flags : Z) (domain_sid : option dom_sid)
    : option (list Z) :=
  s ← sddl_flags_to_string sddl_acl_flags flags false;
  t ← encode_aces (aces acl) domain_sid;
  Some (s ++ t).

(** An ACL that is there and marked as present, after the letter of its section. *)
Definition encode_section (letter : Z) (marked : bool) (acl : option security_acl) (flags : Z)
    (domain_sid : option dom_sid) : option (list Z) :=
  match acl with
  | Some acl =>
      if marked then s ← sddl_encode_acl acl flags domain_sid; Some ([letter; colon] ++ s) else Some []
  | None => Some []
  end.

Definition encode_sid_section (letter : Z) (sid : option dom_sid) (domain_sid : option dom_sid)
    : list Z :=
  match sid with
  | Some s => [letter; colon] ++ sddl_encode_sid s domain_sid
  | None => []
  end.

Definition sddl_encode (sd : security_descriptor) (domain_sid : option dom_sid) : option (list Z) :=
  d ← encode_section 0x44 (has_bits (sd_type sd) SEC_DESC_DACL_PRESENT) (dacl sd) (sd_type sd) domain_sid;
  s ← encode_section 0x53 (has_bits (sd_type sd) SEC_DESC_SACL_PRESENT) (sacl sd)
        (Z.shiftr (sd_type sd) 1) domain_sid;
  Some (encode_sid_section 0x4F (owner_sid sd) domain_sid ++
        encode_sid_section 0x47 (group_sid sd) domain_sid ++ d ++ s).
