(* ===== verification/SecInheritProps.v ===== *)
(** * Inheritance of security descriptors: properties

    Entries are compared up to [security_ace_equal] by their keys. The
    descriptor of a new file decides exactly as the inheritable entries of its
    parent, the creator SIDs replaced; inheritance through a directory is
    inheritance from its parent; the descriptor of a new directory object keeps
    the explicit entries before the inherited ones. *)

From S2P Require Import Prelude.
From S2P Require Import DomSid.
From S2P Require Import SecModel.
From S2P Require Import AccessProps.
From S2P Require Import SecDesc.
From S2P Require Import SecDescProps.
From S2P Require Import SecInherit.
From stdpp Require Import prelude list.

#[local] Open Scope Z_scope.
#[local] Arguments Z.testbit : simpl never.

(** ** Keys *)

(** What [security_ace_equal] compares. *)
Definition ace_key : Type := security_ace_type * Z * Z * dom_sid.

Definition key_of (a : security_ace) : ace_key :=
  (ace_type a, ace_flags a, access_mask a, clear_unused (trustee a)).

Lemma ace_equal_key (a b : security_ace) :
  sid_wf (trustee a) -> sid_wf (trustee b) ->
  security_ace_equal a b = bool_decide (key_of a = key_of b).
Proof.
  intros Ha Hb. apply eq_iff_eq_true. rewrite ace_equal_spec, bool_decide_eq_true, dom_sid_equal_spec by done.
  unfold key_of. split; [by intros (-> & -> & -> & ->)|]. intros H.
  apply pair_equal_spec in H as [H ?]. apply pair_equal_spec in H as [H ?].
  by apply pair_equal_spec in H as [? ?].
Qed.

(** ** Removing duplicates *)

(** The elements of the list that are not in [seen], each once. *)
Fixpoint nub (seen l : list ace_key) : list ace_key :=
  match l with
  | [] => []
  | x :: l => if bool_decide (x ∈ seen) then nub seen l else x :: nub (x :: seen) l
  end.

Lemma nub_seen (S T l : list ace_key) : (forall x, x ∈ S <-> x ∈ T) -> nub S l = nub T l.
Proof.
  revert S T. induction l as [|x l IH]; intros S T H; simpl; [done|].
  rewrite (bool_decide_ext _ _ (H x)). case_if; [by apply IH|]. f_equal. apply IH.
  intros y. rewrite !elem_of_cons, H. done.
Qed.

Lemma nub_app (S l k : list ace_key) : nub S (l ++ k) = nub S l ++ nub (l ++ S) k.
Proof.
  revert S. induction l as [|x l IH]; intros S; simpl; [done|].
  destruct (bool_decide (x ∈ S)) eqn:E; boolify; rewrite IH; simpl; f_equal; [|f_equal].
  - apply nub_seen. intros y. rewrite !elem_of_cons, !elem_of_app. split; [auto|].
    intros [->|]; auto.
  - apply nub_seen. intros y. rewrite !elem_of_app, !elem_of_cons, !elem_of_app. tauto.
Qed.

Lemma nub_all_seen (S l : list ace_key) : (forall x, x ∈ l -> x ∈ S) -> nub S l = [].
Proof.
  induction l as [|x l IH]; intros H; simpl; [done|].
  rewrite bool_decide_eq_true_2 by (apply H; left). apply IH. intros y Hy. apply H. by right.
Qed.

(** Duplicates may be removed before or after each element is expanded. *)
Lemma nub_flat_map (f : ace_key -> list ace_key) (l S T : list ace_key) :
  (forall x y, x ∈ S -> y ∈ f x -> y ∈ T) ->
  nub T (flat_map f (nub S l)) = nub T (flat_map f l).
Proof.
  revert S T. induction l as [|x l IH]; intros S T H; simpl; [done|].
  destruct (bool_decide (x ∈ S)) eqn:E; boolify.
  - rewrite IH, nub_app by done. rewrite (nub_all_seen T (f x)) by eauto. simpl.
    apply nub_seen. intros y. rewrite elem_of_app. split; [auto|]. intros [|]; eauto.
  - simpl. rewrite !nub_app. f_equal. apply IH. intros z y Hz Hy. rewrite elem_of_app.
    apply elem_of_cons in Hz as [->|]; eauto.
Qed.

Lemma dedup_loop_nub (fuel : nat) (l : list security_ace) (i : nat) :
  aces_wf l -> (length l - i <= fuel)%nat ->
  aces_wf (dedup_loop fuel l i) /\
  map key_of (dedup_loop fuel l i) =
  map key_of (take i l) ++ nub (map key_of (take i l)) (map key_of (drop i l)).
Proof.
  revert l i. induction fuel as [|fuel IH]; intros l i Hw Hf.
  { simpl. rewrite (drop_ge l), (take_ge l) by lia. simpl. by rewrite app_nil_r. }
  simpl. destruct (l !! i) as [a|] eqn:E.
  2: { apply lookup_ge_None in E. rewrite (drop_ge l), (take_ge l) by lia. simpl. by rewrite app_nil_r. }
  pose proof (lookup_lt_Some _ _ _ E) as Hlt.
  assert (length (take i l) = i) as Hti by (rewrite length_take; lia).
  assert (existsb (fun aj => security_ace_equal a aj) (take i l) =
          bool_decide (key_of a ∈ map key_of (take i l))) as ->.
  { apply eq_iff_eq_true. rewrite existsb_exists, bool_decide_eq_true.
    setoid_rewrite <- list_elem_of_In. rewrite list_elem_of_fmap.
    unfold aces_wf in Hw. rewrite Forall_forall in Hw.
    assert (forall b, b ∈ take i l -> sid_wf (trustee b)) as Hb.
    { intros b Hb. apply Hw. rewrite <- (take_drop i l). apply elem_of_app. by left. }
    assert (sid_wf (trustee a)) by (apply Hw; by eapply list_elem_of_lookup_2).
    split; intros (b & H1 & H2); exists b.
    - rewrite ace_equal_key in H2 by auto. by boolify.
    - rewrite ace_equal_key by auto. by rewrite bool_decide_eq_true. }
  rewrite (drop_S l a i E). cbn [map nub]. destruct (bool_decide (key_of a ∈ _)) eqn:Ek.
  - destruct (IH (take i l ++ drop (S i) l) i) as [H1 H2].
    + unfold aces_wf in *. apply Forall_app. split; [by apply Forall_take|by apply Forall_drop].
    + rewrite length_app, length_drop. lia.
    + split; [done|]. rewrite H2. by rewrite take_app_length', drop_app_length' by lia.
  - destruct (IH l (S i) Hw ltac:(lia)) as [H1 H2]. split; [done|]. rewrite H2.
    rewrite (take_S_r l i a E), map_app, <- app_assoc. simpl. do 2 f_equal.
    apply nub_seen. intros x. rewrite elem_of_app, !elem_of_cons, elem_of_nil. tauto.
Qed.

(** The loop as [se_create_child_secdesc] runs it, from index 1. *)
Lemma dedup_nub (l : list security_ace) :
  aces_wf l ->
  aces_wf (dedup_loop (length l) l 1) /\
  map key_of (dedup_loop (length l) l 1) = nub [] (map key_of l).
Proof.
  intros Hw. destruct (dedup_loop_nub (length l) l 1 Hw ltac:(lia)) as [H1 H2]. split; [done|].
  rewrite H2. destruct l as [|a l]; [done|]. simpl. by rewrite drop_0.
Qed.

(** ** The entries of a child *)

Definition inheritable_flags (f : Z) (container : bool) : bool :=
  if negb container then has_bits f SEC_ACE_FLAG_OBJECT_INHERIT
  else has_bits f SEC_ACE_FLAG_CONTAINER_INHERIT ||
       has_bits f SEC_ACE_FLAG_OBJECT_INHERIT && negb (has_bits f SEC_ACE_FLAG_NO_PROPAGATE_INHERIT).

Lemma inheritable_flags_eq (a : security_ace) (container : bool) :
  is_inheritable_ace a container = inheritable_flags (ace_flags a) container.
Proof. unfold is_inheritable_ace, inheritable_flags. by repeat case_if. Qed.

Definition inherited_bits (inh : bool) : Z := if inh then SEC_ACE_FLAG_INHERITED_ACE else 0.

(** For flags of an entry whose trustee is a creator SID or not: the flags of
    the entries that are added, and whether each is for the new owner or group
    in the creator's place. *)
Definition child_shape (inh container creator : bool) (f : Z) : list (bool * Z) :=
  if negb (inheritable_flags f container) then []
  else
    let nf := child_flags container f in
    if creator && (container && has_bits nf SEC_ACE_FLAG_CONTAINER_INHERIT)
    then [(true, inherited_bits inh);
          (false, Z.lor (Z.lor nf SEC_ACE_FLAG_INHERIT_ONLY) (inherited_bits inh))]
    else [(creator && negb (container && negb (has_bits f SEC_ACE_FLAG_NO_PROPAGATE_INHERIT)),
           Z.lor nf (inherited_bits inh))].

Definition is_creator (s : dom_sid) : bool :=
  bool_decide (s = global_sid_Creator_Owner) || bool_decide (s = global_sid_Creator_Group).

Definition creator_target (o g s : dom_sid) : dom_sid :=
  if bool_decide (s = global_sid_Creator_Owner) then o
  else if bool_decide (s = global_sid_Creator_Group) then g else s.

Definition key_child (inh : bool) (o g : dom_sid) (container : bool) (k : ace_key) : list ace_key :=
  let '(t, f, m, s) := k in
  map (fun p => (t, p.2, m, if p.1 : bool then creator_target o g s else s))
      (child_shape inh container (is_creator s) f).

Lemma well_known_wf (auth sub : Z) : is_byte auth -> in_w 32 sub -> sid_wf (well_known auth sub).
Proof.
  unfold is_byte, in_w. intros Ha Hs.
  split; cbn [sid_rev_num num_auths id_auth sub_auths well_known]; unfold in_w, SID_MAX_AUTHS; try done.
  - repeat (constructor; [unfold is_byte; lia|]). constructor.
  - constructor; [done|]. apply Forall_replicate. done.
Qed.

Lemma creator_owner_wf : sid_wf global_sid_Creator_Owner.
Proof. by apply well_known_wf. Qed.

Lemma creator_group_wf : sid_wf global_sid_Creator_Group.
Proof. by apply well_known_wf. Qed.

Lemma init_wf (t : security_ace) (s : dom_sid) (type : security_ace_type) (m f : Z)
    (l : list security_ace) :
  sid_wf s -> aces_wf l -> aces_wf (init_sec_ace t s type m f :: l).
Proof. intros Hs Hl. by apply Forall_cons. Qed.

Lemma no_aces_wf : aces_wf [].
Proof. apply Forall_nil_2. Qed.

#[local] Hint Resolve creator_owner_wf creator_group_wf init_wf no_aces_wf : samba.

Lemma creator_equal (s : dom_sid) :
  sid_wf s ->
  dom_sid_equal (Some s) (Some global_sid_Creator_Owner) =
    bool_decide (clear_unused s = global_sid_Creator_Owner) /\
  dom_sid_equal (Some s) (Some global_sid_Creator_Group) =
    bool_decide (clear_unused s = global_sid_Creator_Group).
Proof.
  intros Hs. split.
  - by rewrite sid_equal_eqv by (done || apply creator_owner_wf).
  - by rewrite sid_equal_eqv by (done || apply creator_group_wf).
Qed.

Section Keys.
  Context (mem : nat -> security_ace) (junk : list Z) (inh : bool) (o g : dom_sid) (container : bool).
  Hypothesis (Ho : sid_wf o) (Hg : sid_wf g).

Lemma child_ace_keys (ndx : nat) (a : security_ace) :
  sid_wf (trustee a) ->
  exists k, child_ace mem inh (Some o) (Some g) container ndx a = Some k /\ aces_wf k /\
    map key_of k = key_child inh (clear_unused o) (clear_unused g) container (key_of a).
Proof.
  intros Ha. unfold child_ace. rewrite inheritable_flags_eq.
  destruct (creator_equal (trustee a) Ha) as [-> ->].
  unfold key_child, key_of at 2, child_shape, is_creator, creator_target.
  destruct (inheritable_flags (ace_flags a) container);
    [|exists []; split; [done|by split; [apply Forall_nil|]]].
  cbn [negb]. fold (inherited_bits inh).
  destruct (bool_decide_reflect (clear_unused (trustee a) = global_sid_Creator_Owner)) as [Eo|];
    [|destruct (bool_decide_reflect (clear_unused (trustee a) = global_sid_Creator_Group)) as [Eg|]];
    cbn [orb andb].
  - destruct (container && has_bits _ _); [|destruct (container && negb _)]; cbn [mbind option_bind];
      (eexists; split; [reflexivity|]); (split; [auto with samba|]);
      cbn [map negb fst snd]; unfold key_of; cbn; by rewrite ?Eo.
  - destruct (container && has_bits _ _); [|destruct (container && negb _)]; cbn [mbind option_bind];
      (eexists; split; [reflexivity|]); (split; [auto with samba|]);
      cbn [map negb fst snd]; unfold key_of; cbn; by rewrite ?Eg.
  - eexists. split; [by case_if|]. split; [auto with samba|done].
Qed.

Lemma child_loop_keys (l acc : list security_ace) :
  aces_wf l ->
  exists k, child_loop mem inh (Some o) (Some g) container l acc = Some (acc ++ k) /\ aces_wf k /\
    map key_of k =
    flat_map (key_child inh (clear_unused o) (clear_unused g) container) (map key_of l).
Proof.
  revert acc. induction l as [|a l IH]; intros acc Hw.
  { exists []. rewrite app_nil_r. split; [done|]. by split; [apply Forall_nil|]. }
  apply Forall_cons in Hw as [Ha Hl]. destruct (child_ace_keys (length acc) a Ha) as (k & Hk & Hkw & Hkk).
  destruct (IH (acc ++ k) Hl) as (k' & Hk' & Hkw' & Hkk'). exists (k ++ k').
  cbn [child_loop]. rewrite Hk. cbn [mbind option_bind]. rewrite Hk', <- app_assoc. split; [done|].
  split; [by apply Forall_app|]. rewrite map_app, Hkk, Hkk'. done.
Qed.

Definition child_sd (l : list security_ace) : security_descriptor :=
  Security_descriptor SD_REVISION
    (Z.lor (Z.lor SEC_DESC_SELF_RELATIVE SEC_DESC_DACL_PRESENT)
           (if inh then SEC_DESC_DACL_AUTO_INHERITED else 0))
    (Some (dom_sid_dup junk o)) (Some (dom_sid_dup junk g)) None
    (match l with [] => None | _ => Some (Security_acl SECURITY_ACL_REVISION_NT4 l) end).

Lemma create_child_spec (parent : security_descriptor) (acl : security_acl) :
  dacl parent = Some acl -> aces_wf (aces acl) -> Z.of_nat (length (aces acl)) < 2 ^ 31 ->
  inh = has_bits (sd_type parent) SEC_DESC_DACL_AUTO_INHERITED ->
  exists l, se_create_child_secdesc mem junk parent (Some o) (Some g) container =
              Some (NT_STATUS_OK, Some (child_sd l)) /\ aces_wf l /\
    map key_of l = nub [] (flat_map (key_child inh (clear_unused o) (clear_unused g) container)
                                    (map key_of (aces acl))).
Proof.
  intros Hd Hw Hn Hi. unfold se_create_child_secdesc. rewrite Hd. cbn [mbind option_bind]. rewrite <- Hi.
  rewrite u32_id by (unfold in_w; lia).
  destruct (Z.ltb_spec (2 * Z.of_nat (length (aces acl))) (Z.of_nat (length (aces acl)))); [lia|].
  destruct (child_loop_keys (aces acl) [] Hw) as (k & -> & Hkw & Hkk). cbn [app mbind option_bind].
  destruct (dedup_nub k Hkw) as [H1 H2]. rewrite Hkk in H2.
  exists (dedup_loop (length k) k 1). split; [|done]. do 3 f_equal. unfold make_sec_desc, child_sd.
  destruct (dedup_loop (length k) k 1) as [|a r]; destruct inh; try done;
    unfold make_sec_acl, security_acl_dup; cbn [present acl_revision aces];
    by rewrite firstn_all.
Qed.
End Keys.

(** ** Inheritance through a directory *)

Definition all_flags (p : bool -> bool -> bool -> Z -> bool) (f : Z) : bool :=
  forallb (fun x => forallb (fun y => forallb (fun z => p x y z f) [true; false]) [true; false])
          [true; false].

Lemma by_all_flags (p : bool -> bool -> bool -> Z -> bool) :
  forallb (fun i => all_flags p (Z.of_nat i)) (seq 0 256) = true ->
  forall x y z f, in_w 8 f -> p x y z f = true.
Proof.
  intros H x y z f Hf. pose proof (forall_below 256 (all_flags p) H f Hf) as Ha.
  unfold all_flags in Ha. rewrite !forallb_forall in Ha.
  assert (forall b : bool, In b [true; false]) as Hb by (intros []; simpl; auto).
  specialize (Ha x (Hb x)). rewrite forallb_forall in Ha. specialize (Ha y (Hb y)).
  rewrite forallb_forall in Ha. exact (Ha z (Hb z)).
Qed.

(** What is for the new owner or group is not inherited further. *)
Lemma shape_target_stops (inh creator container : bool) (f f' : Z) :
  in_w 8 f -> (true, f') ∈ child_shape inh true creator f -> inheritable_flags f' container = false.
Proof.
  intros Hf Hin.
  pose proof (by_all_flags (fun inh creator container f =>
    forallb (fun p => negb p.1 || negb (inheritable_flags p.2 container)) (child_shape inh true creator f)))
    as H.
  specialize (H ltac:(vm_compute; reflexivity) inh creator container f Hf). cbv beta in H.
  rewrite forallb_forall in H. apply list_elem_of_In in Hin. specialize (H _ Hin).
  by apply negb_true_iff in H.
Qed.

Lemma shape_through (inh creator container : bool) (f : Z) :
  in_w 8 f -> has_bits f SEC_ACE_FLAG_NO_PROPAGATE_INHERIT = false ->
  flat_map (fun p : bool * Z => if p.1 then [] else child_shape inh container creator p.2)
           (child_shape inh true creator f) = child_shape inh container creator f.
Proof.
  intros Hf Hn.
  pose proof (by_all_flags (fun inh creator container f =>
    has_bits f SEC_ACE_FLAG_NO_PROPAGATE_INHERIT ||
    bool_decide (flat_map (fun p : bool * Z => if p.1 then [] else child_shape inh container creator p.2)
           (child_shape inh true creator f) = child_shape inh container creator f))) as H.
  specialize (H ltac:(vm_compute; reflexivity) inh creator container f Hf). cbv beta in H.
  rewrite Hn in H. by apply bool_decide_eq_true in H.
Qed.

Definition key_flags (k : ace_key) : Z := k.1.1.2.

Lemma key_through (inh : bool) (o1 g1 o2 g2 : dom_sid) (container : bool) (k : ace_key) :
  in_w 8 (key_flags k) -> has_bits (key_flags k) SEC_ACE_FLAG_NO_PROPAGATE_INHERIT = false ->
  flat_map (key_child inh o2 g2 container) (key_child inh o1 g1 true k) =
  key_child inh o2 g2 container k.
Proof.
  destruct k as [[[t f] m] s]. unfold key_flags. cbn [fst snd]. intros Hf Hn. cbn [key_child].
  rewrite <- (shape_through inh (is_creator s) container f Hf Hn).
  pose proof (fun f' => shape_target_stops inh (is_creator s) container f f' Hf) as Hstop.
  induction (child_shape inh true (is_creator s) f) as [|[b f'] l IH]; [done|].
  cbn [map flat_map fst snd]. rewrite map_app, IH by (intros; apply Hstop; by right). f_equal.
  destruct b; [|done]. cbn [key_child map]. unfold child_shape. rewrite Hstop by left. done.
Qed.

Lemma flat_map_flat_map {A B C : Type} (f : A -> list B) (h : B -> list C) (l : list A) :
  flat_map h (flat_map f l) = flat_map (fun x => flat_map h (f x)) l.
Proof. induction l as [|x l IH]; simpl; [done|]. by rewrite flat_map_app, IH. Qed.

Lemma keys_through (inh : bool) (o1 g1 o2 g2 : dom_sid) (container : bool) (l : list ace_key) :
  Forall (fun k => in_w 8 (key_flags k) /\
                   has_bits (key_flags k) SEC_ACE_FLAG_NO_PROPAGATE_INHERIT = false) l ->
  nub [] (flat_map (key_child inh o2 g2 container) (nub [] (flat_map (key_child inh o1 g1 true) l))) =
  nub [] (flat_map (key_child inh o2 g2 container) l).
Proof.
  intros Hl. rewrite nub_flat_map by (intros x y Hx; by apply elem_of_nil in Hx).
  rewrite flat_map_flat_map. f_equal. induction Hl as [|k l [Hk Hn] Hl IH]; simpl; [done|].
  by rewrite key_through, IH.
Qed.

Lemma nub_length (S l : list ace_key) : (length (nub S l) <= length l)%nat.
Proof.
  revert S. induction l as [|x l IH]; intros S; simpl; [lia|].
  case_if; simpl; [pose proof (IH S)|pose proof (IH (x :: S))]; lia.
Qed.

Lemma key_child_length (inh : bool) (o g : dom_sid) (container : bool) (k : ace_key) :
  (length (key_child inh o g container k) <= 2)%nat.
Proof.
  destruct k as [[[t f] m] s]. cbn [key_child]. rewrite length_map. unfold child_shape.
  repeat case_if; simpl; lia.
Qed.

Lemma keys_length (inh : bool) (o g : dom_sid) (container : bool) (l : list ace_key) :
  (length (flat_map (key_child inh o g container) l) <= 2 * length l)%nat.
Proof.
  induction l as [|k l IH]; simpl; [lia|]. rewrite length_app.
  pose proof (key_child_length inh o g container k). lia.
Qed.

Lemma keys_equal (l k : list security_ace) :
  aces_wf l -> aces_wf k -> map key_of l = map key_of k -> aces_equal l k = true.
Proof.
  intros Hl. revert k. induction Hl as [|a l Ha Hl IH]; intros [|b k] Hk H; try done.
  apply Forall_cons in Hk as [Hb Hk]. pose proof (f_equal head H) as Hab.
  apply (f_equal tail) in H. cbn [map head tail] in Hab, H. apply (inj Some) in Hab.
  cbn [aces_equal]. rewrite ace_equal_key, Hab, bool_decide_eq_true_2 by done. simpl. by apply IH.
Qed.

Definition parent_ok (parent : security_descriptor) (acl : security_acl) : Prop :=
  dacl parent = Some acl /\ aces_wf (aces acl) /\ 2 * Z.of_nat (length (aces acl)) < 2 ^ 31.

Lemma flat_map_none {A B : Type} (f : A -> list B) (l : list A) (x : A) :
  x ∈ l -> f x <> [] -> flat_map f l <> [].
Proof.
  induction 1 as [|x y l _ IH]; simpl; intros Hx.
  - by destruct (f x).
  - specialize (IH Hx). by destruct (f y).
Qed.

Lemma nub_nil (l : list ace_key) : nub [] l = [] -> l = [].
Proof.
  destruct l as [|x l]; [done|]. cbn [nub]. rewrite bool_decide_eq_false_2; [done|].
  apply not_elem_of_nil.
Qed.

(** Something inheritable gives the child at least one entry. *)
Lemma inheritable_keys (inh : bool) (o g : dom_sid) (container : bool) (l : list security_ace) :
  existsb (fun ace => is_inheritable_ace ace container) l = true ->
  nub [] (flat_map (key_child inh o g container) (map key_of l)) <> [].
Proof.
  intros H Hn. apply nub_nil in Hn. apply existsb_exists in H as (a & Ha & Hi).
  apply list_elem_of_In in Ha. rewrite inheritable_flags_eq in Hi.
  apply (flat_map_none (key_child inh o g container) (map key_of l) (key_of a)) in Hn; [done| |].
  - apply list_elem_of_fmap. eauto.
  - unfold key_of. cbn [key_child]. unfold child_shape. rewrite Hi. simpl. by case_if.
Qed.

Lemma child_sd_inherited (junk : list Z) (inh : bool) (o g : dom_sid) (l : list security_ace) :
  has_bits (sd_type (child_sd junk inh o g l)) SEC_DESC_DACL_AUTO_INHERITED = inh.
Proof. by destruct inh. Qed.

Lemma child_sd_equal (junk1 junk2 : list Z) (inh : bool) (o g : dom_sid) (l1 l2 : list security_ace) :
  junk_ok junk1 -> junk_ok junk2 -> sid_wf o -> sid_wf g -> aces_wf l1 -> aces_wf l2 ->
  map key_of l1 = map key_of l2 ->
  security_descriptor_equal (child_sd junk1 inh o g l1) (child_sd junk2 inh o g l2) = true.
Proof.
  intros Hj1 Hj2 Ho Hg H1 H2 Hk. unfold security_descriptor_equal, child_sd.
  cbn [sd_revision sd_type owner_sid group_sid sacl dacl]. rewrite !Z.eqb_refl.
  assert (forall s, sid_wf s ->
    dom_sid_equal (Some (dom_sid_dup junk1 s)) (Some (dom_sid_dup junk2 s)) = true) as Hd.
  { intros s Hs. destruct (dup_equal junk1 s Hj1 Hs) as [? E1], (dup_equal junk2 s Hj2 Hs) as [? E2].
    apply dom_sid_equal_spec; [done..|]. by rewrite E1, E2. }
  rewrite (Hd o Ho), (Hd g Hg). cbn [negb security_acl_equal].
  pose proof (f_equal length Hk) as Hlen. rewrite !length_map in Hlen.
  destruct l1 as [|a l1], l2 as [|b l2]; try done. cbn [security_acl_equal acl_revision aces].
  by rewrite Z.eqb_refl, Hlen, Nat.eqb_refl, keys_equal.
Qed.

(** C20. Inheritance goes through directories: where no entry of the parent's
    list stops propagation, what a file or directory inherits from a directory
    that inherited its own list equals what it would inherit from the parent
    of that directory, whoever owns the directory in between and whatever the
    uninitialised memory holds. *)
Theorem inheritance_through_directory (mem1 mem2 mem3 : nat -> security_ace)
    (junk1 junk2 junk3 : list Z) (parent : security_descriptor) (acl : security_acl)
    (o1 g1 o2 g2 : dom_sid) (container : bool) :
  junk_ok junk1 -> junk_ok junk2 -> junk_ok junk3 -> parent_ok parent acl ->
  Forall (fun a => in_w 8 (ace_flags a) /\
                   has_bits (ace_flags a) SEC_ACE_FLAG_NO_PROPAGATE_INHERIT = false) (aces acl) ->
  sd_has_inheritable_components parent true = true ->
  sid_wf o1 -> sid_wf g1 -> sid_wf o2 -> sid_wf g2 ->
  exists directory child direct,
    se_create_child_secdesc mem1 junk1 parent (Some o1) (Some g1) true =
      Some (NT_STATUS_OK, Some directory) /\
    se_create_child_secdesc mem2 junk2 directory (Some o2) (Some g2) container =
      Some (NT_STATUS_OK, Some child) /\
    se_create_child_secdesc mem3 junk3 parent (Some o2) (Some g2) container =
      Some (NT_STATUS_OK, Some direct) /\
    security_descriptor_equal child direct = true.
Proof.
  intros Hj1 Hj2 Hj3 (Hd & Hw & Hn) Hf Hi Ho1 Hg1 Ho2 Hg2.
  set (inh := has_bits (sd_type parent) SEC_DESC_DACL_AUTO_INHERITED).
  destruct (create_child_spec mem1 junk1 inh o1 g1 true Ho1 Hg1 parent acl Hd Hw ltac:(lia) eq_refl)
    as (l1 & E1 & W1 & K1).
  destruct (create_child_spec mem3 junk3 inh o2 g2 container Ho2 Hg2 parent acl Hd Hw ltac:(lia) eq_refl)
    as (l3 & E3 & W3 & K3).
  assert (l1 <> []) as Hne.
  { intros ->. apply (inheritable_keys inh (clear_unused o1) (clear_unused g1) true (aces acl));
      [|by rewrite <- K1]. unfold sd_has_inheritable_components in Hi. by rewrite Hd in Hi. }
  assert (dacl (child_sd junk1 inh o1 g1 l1) = Some (Security_acl SECURITY_ACL_REVISION_NT4 l1)) as Hd1
    by (by destruct l1).
  assert (length l1 <= 2 * length (aces acl))%nat as Hlen.
  { rewrite <- (length_map key_of l1), K1. etrans; [apply nub_length|]. etrans; [apply keys_length|].
    by rewrite length_map. }
  destruct (create_child_spec mem2 junk2 inh o2 g2 container Ho2 Hg2 _ _ Hd1 W1) as (l2 & E2 & W2 & K2);
    [cbn [aces]; lia|by rewrite child_sd_inherited|].
  exists (child_sd junk1 inh o1 g1 l1), (child_sd junk2 inh o2 g2 l2), (child_sd junk3 inh o2 g2 l3).
  split_and!; try done. apply child_sd_equal; try done. rewrite K2, K3. cbn [aces]. rewrite K1.
  apply keys_through. rewrite Forall_map. done.
Qed.

(** ** What a list of entries decides, by keys *)

Lemma clear_unused_ok (s : dom_sid) :
  sid_wf s -> sid_wf (clear_unused s) /\ clear_unused (clear_unused s) = clear_unused s.
Proof.
  intros Hs. pose proof (used_length s Hs) as Hl. pose proof (wf_num s Hs) as Hn. unfold SID_MAX_AUTHS in Hn.
  split.
  - destruct Hs. split; cbn; try done.
    + rewrite length_app, length_replicate. lia.
    + apply Forall_app. split; [by apply Forall_take|]. by apply Forall_replicate.
  - rewrite clear_unused_eq. split_and!; try done. unfold used_auths at 1. cbn.
    by rewrite take_app_length'.
Qed.

Lemma clear_sid_equal (s x : dom_sid) :
  sid_wf s -> sid_wf x ->
  dom_sid_equal (Some x) (Some (clear_unused s)) = dom_sid_equal (Some x) (Some s) /\
  dom_sid_equal (Some (clear_unused s)) (Some x) = dom_sid_equal (Some s) (Some x).
Proof.
  intros Hs Hx. destruct (clear_unused_ok s Hs) as [Hc Hcc]. by rewrite !sid_equal_eqv, Hcc.
Qed.

(** The parts of an entry that a check looks at where the entry is effective. *)
Definition ace_body : Type := security_ace_type * Z * dom_sid.

Definition of_body (b : ace_body) : security_ace :=
  let '(t, m, s) := b in Security_ace t 0 m None None s.

Definition body_of (a : security_ace) : ace_body :=
  (ace_type a, access_mask a, clear_unused (trustee a)).

Definition key_body (k : ace_key) : ace_body := (k.1.1.1, k.1.2, k.2).
Definition key_active (k : ace_key) : bool := negb (has_bits (key_flags k) SEC_ACE_FLAG_INHERIT_ONLY).
Definition active (l : list ace_key) : list ace_body := map key_body (List.filter key_active l).

Definition token_wf (token : security_token) : Prop := Forall sid_wf (sids token).

Lemma has_sid_clear (token : security_token) (s : dom_sid) :
  token_wf token -> sid_wf s ->
  security_token_has_sid token (Some (clear_unused s)) = security_token_has_sid token (Some s).
Proof.
  unfold security_token_has_sid. intros Ht Hs. induction Ht as [|x l Hx Hl IH]; simpl; [done|].
  by rewrite IH, (proj1 (clear_sid_equal s x Hs Hx)).
Qed.

Lemma skipped_body (token : security_token) (am : bool) (a : security_ace) :
  token_wf token -> sid_wf (trustee a) -> inherit_only a = false ->
  ace_skipped token am (of_body (body_of a)) = ace_skipped token am a.
Proof.
  intros Ht Ha Hi. unfold ace_skipped. rewrite Hi. unfold is_owner_rights. cbn.
  rewrite has_sid_clear by done.
  by rewrite (proj2 (clear_sid_equal (trustee a) global_sid_Owner_Rights Ha ltac:(by apply well_known_wf))).
Qed.

(** A list decides as its effective entries do. *)
Lemma first_match_active (token : security_token) (am : bool) (l : list security_ace) (i : Z) :
  token_wf token -> aces_wf l ->
  first_match token am l i = first_match token am (map of_body (active (map key_of l))) i.
Proof.
  intros Ht Hl. induction Hl as [|a l Ha Hl IH]; [done|].
  cbn [map]. unfold active. cbn [List.filter]. unfold key_active at 1, key_flags. cbn.
  destruct (has_bits (ace_flags a) SEC_ACE_FLAG_INHERIT_ONLY) eqn:E; cbn.
  - unfold ace_skipped, inherit_only. by rewrite E.
  - change (Security_ace _ 0 _ None None _) with (of_body (body_of a)).
    rewrite (skipped_body token am a Ht Ha E). rewrite IH. done.
Qed.

Lemma owner_rights_active (l : list security_ace) :
  aces_wf l -> find_owner_rights l = find_owner_rights (map of_body (active (map key_of l))).
Proof.
  intros Hl. induction Hl as [|a l Ha Hl IH]; [done|].
  cbn [map]. unfold active. cbn [List.filter]. unfold key_active at 1, key_flags. cbn.
  unfold inherit_only at 1. destruct (has_bits (ace_flags a) SEC_ACE_FLAG_INHERIT_ONLY) eqn:E; cbn; [done|].
  rewrite IH. unfold is_owner_rights. cbn.
  by rewrite (proj2 (clear_sid_equal (trustee a) global_sid_Owner_Rights Ha ltac:(by apply well_known_wf))).
Qed.

(** Duplicates do not matter. *)
Lemma active_nub_match (token : security_token) (am : bool) (S l : list ace_key) (i : Z) :
  (forall k, k ∈ S -> key_active k = true -> vote token am i (of_body (key_body k)) = None) ->
  first_match token am (map of_body (active (nub S l))) i =
  first_match token am (map of_body (active l)) i.
Proof.
  revert S. induction l as [|k l IH]; intros S HS; [done|]. cbn [nub].
  destruct (bool_decide (k ∈ S)) eqn:E; boolify.
  - rewrite IH by done. unfold active. cbn [List.filter]. destruct (key_active k) eqn:Ek; [|done].
    cbn [map]. by rewrite first_match_cons, HS.
  - unfold active in *. cbn [List.filter]. destruct (key_active k) eqn:Ek.
    + cbn [map]. rewrite !first_match_cons. destruct (vote _ _ _ _) eqn:Ev; [done|]. apply IH.
      intros k' Hk' Ha. apply elem_of_cons in Hk' as [->|]; auto.
    + apply IH. intros k' Hk' Ha. apply elem_of_cons in Hk' as [->|]; auto. congruence.
Qed.

Lemma active_nub_owner (S l : list ace_key) :
  (forall k, k ∈ S -> key_active k = true -> is_owner_rights (of_body (key_body k)) = false) ->
  find_owner_rights (map of_body (active (nub S l))) = find_owner_rights (map of_body (active l)).
Proof.
  assert (forall b l, find_owner_rights (of_body b :: l) =
                      is_owner_rights (of_body b) || find_owner_rights l) as Hc.
  { intros [[t m] s] l'. cbn. by case_if. }
  revert S. induction l as [|k l IH]; intros S HS; [done|]. cbn [nub].
  destruct (bool_decide (k ∈ S)) eqn:E; boolify.
  - rewrite IH by done. unfold active. cbn [List.filter]. destruct (key_active k) eqn:Ek; [|done].
    cbn [map]. by rewrite Hc, HS.
  - unfold active in *. cbn [List.filter]. destruct (key_active k) eqn:Ek.
    + cbn [map]. rewrite !Hc. destruct (is_owner_rights _) eqn:Ev; [done|]. apply IH.
      intros k' Hk' Ha. apply elem_of_cons in Hk' as [->|]; auto.
    + apply IH. intros k' Hk' Ha. apply elem_of_cons in Hk' as [->|]; auto. congruence.
Qed.

(** ** Access to a new file *)

(** The flag that makes an entry of the parent effective on a child. *)
Definition effective_flag (container : bool) : Z :=
  if container then SEC_ACE_FLAG_CONTAINER_INHERIT else SEC_ACE_FLAG_OBJECT_INHERIT.

(** The entries of the parent that apply to a child, in their order, with the
    new owner and group in the place of the creator SIDs. *)
Definition effective_entries (o g : dom_sid) (container : bool) (l : list security_ace)
    : list security_ace :=
  map (fun a =>
         Security_ace (ace_type a) 0 (access_mask a) None None
           (if dom_sid_equal (Some (trustee a)) (Some global_sid_Creator_Owner) then o
            else if dom_sid_equal (Some (trustee a)) (Some global_sid_Creator_Group) then g
            else trustee a))
      (List.filter (fun a => has_bits (ace_flags a) (effective_flag container)) l).

(** The effective part of a shape: one entry, for the new owner or group where
    the trustee is a creator SID. *)
Lemma shape_effective (inh container creator : bool) (f : Z) :
  in_w 8 f ->
  map fst (List.filter (fun p : bool * Z => negb (has_bits p.2 SEC_ACE_FLAG_INHERIT_ONLY))
                       (child_shape inh container creator f)) =
  if has_bits f (effective_flag container) then [creator] else [].
Proof.
  intros Hf.
  pose proof (by_all_flags (fun inh container creator f => bool_decide (
    map fst (List.filter (fun p : bool * Z => negb (has_bits p.2 SEC_ACE_FLAG_INHERIT_ONLY))
                       (child_shape inh container creator f)) =
    if has_bits f (effective_flag container) then [creator] else []))) as H.
  specialize (H ltac:(vm_compute; reflexivity) inh container creator f Hf). by apply bool_decide_eq_true in H.
Qed.

Lemma active_app (l k : list ace_key) : active (l ++ k) = active l ++ active k.
Proof. unfold active. by rewrite List.filter_app, map_app. Qed.

Lemma creator_target_other (o g s : dom_sid) : is_creator s = false -> creator_target o g s = s.
Proof. unfold is_creator, creator_target. by repeat case_if. Qed.

Lemma key_child_active (inh : bool) (o g : dom_sid) (container : bool) (t : security_ace_type)
    (f m : Z) (s : dom_sid) :
  in_w 8 f ->
  active (key_child inh o g container (t, f, m, s)) =
  if has_bits f (effective_flag container) then [(t, m, creator_target o g s)] else [].
Proof.
  intros Hf. cbn [key_child].
  transitivity (map (fun b : bool => (t, m, if b then creator_target o g s else s))
    (map fst (List.filter (fun p : bool * Z => negb (has_bits p.2 SEC_ACE_FLAG_INHERIT_ONLY))
                          (child_shape inh container (is_creator s) f)))).
  - unfold active. induction (child_shape _ _ _ _) as [|[b f'] l IH]; [done|]. cbn.
    unfold key_active at 1, key_flags. cbn. by destruct (has_bits f' _); cbn; rewrite IH.
  - rewrite shape_effective by done. case_if; [|done]. cbn.
    destruct (is_creator s) eqn:E; [done|]. by rewrite creator_target_other.
Qed.

(** The entries that apply to the child are those of the parent. *)
Lemma effective_active (inh : bool) (o g : dom_sid) (container : bool) (l : list security_ace) :
  sid_wf o -> sid_wf g -> aces_wf l -> Forall (fun a => in_w 8 (ace_flags a)) l ->
  aces_wf (effective_entries o g container l) /\
  active (map key_of (effective_entries o g container l)) =
  active (flat_map (key_child inh (clear_unused o) (clear_unused g) container) (map key_of l)).
Proof.
  intros Ho Hg Hl Hf. induction Hl as [|a l Ha Hl IH]; [split; [apply no_aces_wf|done]|].
  apply Forall_cons in Hf as [Hfa Hf]. destruct (IH Hf) as [IHw IHa]. cbn [map flat_map].
  rewrite active_app, <- IHa. unfold key_of at 2. rewrite key_child_active by done.
  unfold effective_entries in *. cbn [List.filter].
  destruct (has_bits (ace_flags a) (effective_flag container)); [|done].
  cbn [map]. destruct (creator_equal (trustee a) Ha) as [E1 E2]. split.
  - apply Forall_cons. split; [|done]. cbn. by repeat case_if.
  - unfold active at 1. cbn. unfold key_body. cbn.
    f_equal. f_equal. unfold creator_target. rewrite E1, E2. by repeat case_if.
Qed.

(** The descriptor with the given owner and group whose list has the entries. *)
Definition plain_sd (type : Z) (o g : dom_sid) (l : list security_ace) : security_descriptor :=
  Security_descriptor SD_REVISION type (Some o) (Some g) None
    (Some (Security_acl SECURITY_ACL_REVISION_NT4 l)).

Lemma has_sid_dup (token : security_token) (junk : list Z) (s : dom_sid) :
  token_wf token -> junk_ok junk -> sid_wf s ->
  security_token_has_sid token (Some (dom_sid_dup junk s)) = security_token_has_sid token (Some s).
Proof.
  intros Ht Hj Hs. destruct (dup_equal junk s Hj Hs) as [Hd Hc].
  by rewrite <- has_sid_clear, Hc, has_sid_clear.
Qed.

Section Access.
  Context (mem : nat -> security_ace) (junk : list Z) (o g : dom_sid) (container : bool).
  Hypothesis (Hj : junk_ok junk) (Ho : sid_wf o) (Hg : sid_wf g).

(** A child with at least one entry: the check of its descriptor is the check
    of the parent's entries that apply to it. *)
Lemma child_access (parent : security_descriptor) (acl : security_acl) :
  parent_ok parent acl -> Forall (fun a => in_w 8 (ace_flags a)) (aces acl) ->
  sd_has_inheritable_components parent container = true ->
  exists psd, se_create_child_secdesc mem junk parent (Some o) (Some g) container =
                Some (NT_STATUS_OK, Some psd) /\
    forall token desired, token_wf token ->
    se_access_check psd token desired =
    se_access_check (plain_sd (sd_type psd) o g (effective_entries o g container (aces acl))) token desired.
Proof.
  intros (Hd & Hw & Hn) Hf Hi. set (inh := has_bits (sd_type parent) SEC_DESC_DACL_AUTO_INHERITED).
  destruct (create_child_spec mem junk inh o g container Ho Hg parent acl Hd Hw ltac:(lia) eq_refl)
    as (l & E & W & K).
  assert (l <> []) as Hne.
  { intros ->. apply (inheritable_keys inh (clear_unused o) (clear_unused g) container (aces acl));
      [|by rewrite <- K]. unfold sd_has_inheritable_components in Hi. by rewrite Hd in Hi. }
  exists (child_sd junk inh o g l). split; [done|]. intros token desired Ht.
  destruct (effective_active inh o g container (aces acl) Ho Hg Hw Hf) as [He Ha].
  apply (se_access_check_ext _ _ token (Security_acl SECURITY_ACL_REVISION_NT4 l)
           (Security_acl SECURITY_ACL_REVISION_NT4 (effective_entries o g container (aces acl))));
    [by destruct l|done|].
  intros i. unfold bit_allowed, owner_implicit. cbn [owner_sid child_sd plain_sd aces].
  rewrite has_sid_dup by done.
  rewrite (owner_rights_active l W), K, active_nub_owner by (intros k Hk; by apply elem_of_nil in Hk).
  rewrite (owner_rights_active _ He), Ha.
  rewrite (first_match_active token _ l i Ht W), K.
  rewrite active_nub_match by (intros k Hk; by apply elem_of_nil in Hk).
  by rewrite (first_match_active token _ _ i Ht He), Ha.
Qed.
End Access.

Lemma well_known_sids_wf :
  sid_wf global_sid_Builtin_Administrators /\ sid_wf global_sid_System.
Proof.
  split; [|by apply well_known_wf].
  split; try done; unfold in_w, is_byte; cbn; try lia;
    repeat (apply Forall_cons; split); try apply Forall_nil_2; cbn; unfold is_byte; lia.
Qed.

(** A token with a SID always gives an owner and a group. *)
Lemma new_owner_group_total (env : inherit_env) (parent : security_descriptor) :
  token_wf (env_token env) -> sids (env_token env) <> [] -> sd_wf parent ->
  exists o g, new_owner_group env parent = Some (o, g) /\ sid_wf o /\ sid_wf g.
Proof.
  intros Ht Hs [Hpo Hpg]. destruct well_known_sids_wf as [Hba Hsy]. unfold new_owner_group.
  destruct (if negb (present _) then _ else _) as [ba0 sy0].
  destruct (if _ && _ && _ then _ else _) as [ba1 sy1].
  set (ba := if ba1 then sids_to_unixids env _ else _).
  set (sy := if sy1 then sids_to_unixids env _ else _). clearbody ba sy.
  assert (exists s, sids (env_token env) !! 0%nat = Some s /\ sid_wf s) as (s0 & H0 & W0).
  { unfold token_wf in Ht. destruct (sids (env_token env)) as [|s l]; [done|]. exists s.
    by apply Forall_cons in Ht as [? _]. }
  assert (exists s, (if (length (sids (env_token env)) =? 1)%nat then sids (env_token env) !! 0%nat
                     else sids (env_token env) !! 1%nat) = Some s /\ sid_wf s) as (s1 & H1 & W1).
  { destruct (Nat.eqb_spec (length (sids (env_token env))) 1); [eauto|].
    unfold token_wf in Ht. destruct (sids (env_token env)) as [|s [|s' l]]; [done|done|].
    exists s'. split; [done|]. by apply Forall_cons in Ht as [_ [? _]%Forall_cons]. }
  rewrite H1, H0.
  destruct (inherit_owner_option env), (owner_sid parent) as [po|], (group_sid parent) as [pg|],
    (is_uid ba), (is_uid sy), (is_gid ba), (is_gid sy), sy1; cbn; eauto 6.
Qed.

(** C6. Access to a new file: where the parent has something inheritable,
    [inherit_new_acl] sets a descriptor for which every access check has the
    status and the granted mask of the check against exactly the entries of the
    parent that are inheritable by the new file or directory, in the parent's
    order, with the new owner and group in the place of CREATOR OWNER and
    CREATOR GROUP; removed duplicates, extra inherit-only entries, inherited
    flags and uninitialised memory make no difference. *)
Theorem new_file_access (mem : nat -> security_ace) (junk : list Z) (env : inherit_env)
    (parent : security_descriptor) (acl : security_acl) :
  junk_ok junk -> parent_nt_acl env = inr parent -> parent_ok parent acl -> sd_wf parent ->
  Forall (fun a => in_w 8 (ace_flags a)) (aces acl) ->
  token_wf (env_token env) -> sids (env_token env) <> [] ->
  sd_has_inheritable_components parent (is_directory env) = true ->
  exists o g psd,
    new_owner_group env parent = Some (o, g) /\
    inherit_new_acl mem junk env =
      Some (inr (Fset_call (inherit_owner_option env)
                   (Z.lor (Z.lor SECINFO_OWNER SECINFO_GROUP) SECINFO_DACL) psd)) /\
    forall token desired, token_wf token ->
    se_access_check psd token desired =
    se_access_check (plain_sd (sd_type psd) o g
                       (effective_entries o g (is_directory env) (aces acl))) token desired.
Proof.
  intros Hj He Hp Hs Hf Ht Hne Hi.
  destruct (new_owner_group_total env parent Ht Hne Hs) as (o & g & Hog & Ho & Hg).
  destruct (child_access mem junk o g (is_directory env) Hj Ho Hg parent acl Hp Hf Hi) as (psd & Hc & Ha).
  exists o, g, psd. split; [done|]. split; [|done]. unfold inherit_new_acl.
  rewrite He, Hi, Hog. cbn [negb andb mbind option_bind]. rewrite Hc. by cbn.
Qed.

(** A directory of a user: the creator has everything below it, the group may
    read what is in it, somebody else nothing. *)
Definition home_aces : list security_ace :=
  [flagged_ace SEC_ACE_TYPE_ACCESS_DENIED (Z.lor SEC_ACE_FLAG_OBJECT_INHERIT SEC_ACE_FLAG_CONTAINER_INHERIT)
     0x2 other_sid;
   flagged_ace SEC_ACE_TYPE_ACCESS_ALLOWED (Z.lor SEC_ACE_FLAG_OBJECT_INHERIT SEC_ACE_FLAG_CONTAINER_INHERIT)
     0x1F01FF global_sid_Creator_Owner;
   flagged_ace SEC_ACE_TYPE_ACCESS_ALLOWED SEC_ACE_FLAG_OBJECT_INHERIT 0x1 group_of_user;
   flagged_ace SEC_ACE_TYPE_ACCESS_ALLOWED 0 0x1F01FF other_sid].
Definition home_acl : security_acl := Security_acl SECURITY_ACL_REVISION_NT4 home_aces.
Definition home_sd : security_descriptor :=
  Security_descriptor SD_REVISION (Z.lor SEC_DESC_DACL_PRESENT SEC_DESC_DACL_AUTO_INHERITED)
    (Some other_sid) (Some group_of_user) None (Some home_acl).
Definition zero_junk : list Z := replicate 15 0.
Definition blank_mem (n : nat) : security_ace := flagged_ace SEC_ACE_TYPE_ACCESS_ALLOWED 0 0 other_sid.
Definition home_env (dir : bool) : inherit_env :=
  Inherit_env false (user_token 0) (fun _ => None) dir (inr home_sd).

Lemma zero_junk_ok : junk_ok zero_junk.
Proof. split; [done|]. by apply Forall_replicate. Qed.

Lemma sample_sids_wf : sid_wf user_sid /\ sid_wf group_of_user /\ sid_wf other_sid.
Proof.
  split_and!; split; try done; unfold in_w, is_byte; cbn; try lia;
    repeat (apply Forall_cons; split); try apply Forall_nil_2; cbn; unfold is_byte; lia.
Qed.

Lemma home_ok : parent_ok home_sd home_acl /\ sd_wf home_sd.
Proof.
  destruct sample_sids_wf as (Hu & Hg & Ho). split; [|by split].
  split_and!; [done| |done]. repeat (apply Forall_cons; split); try done; apply Forall_nil_2 || apply creator_owner_wf.
Qed.

Lemma user_token_wf : token_wf (user_token 0).
Proof. destruct sample_sids_wf as (Hu & Hg & Ho). by repeat (apply Forall_cons; split). Qed.

Lemma home_flags :
  Forall (fun a => in_w 8 (ace_flags a) /\
                   has_bits (ace_flags a) SEC_ACE_FLAG_NO_PROPAGATE_INHERIT = false) home_aces.
Proof. unfold home_aces. repeat (apply Forall_cons; split); try apply Forall_nil_2; by vm_compute. Qed.

Lemma new_file_access_witness :
  exists psd,
    inherit_new_acl blank_mem zero_junk (home_env false) =
      Some (inr (Fset_call false (Z.lor (Z.lor SECINFO_OWNER SECINFO_GROUP) SECINFO_DACL) psd)) /\
    se_access_check psd (user_token 0) 0x1F01FF = (NT_STATUS_OK, 0x1F01FF) /\
    se_access_check psd (Security_token [other_sid] 0 0) 0x1 = (NT_STATUS_ACCESS_DENIED, 0x1).
Proof.
  destruct (new_file_access blank_mem zero_junk (home_env false) home_sd home_acl) as
    (o & g & psd & Hog & Hc & Ha).
  - exact zero_junk_ok.
  - reflexivity.
  - exact (proj1 home_ok).
  - exact (proj2 home_ok).
  - eapply Forall_impl; [exact home_flags|]. intros a [Ha _]. exact Ha.
  - exact user_token_wf.
  - discriminate.
  - vm_compute. reflexivity.
  - exists psd. split; [exact Hc|]. vm_compute in Hog. injection Hog as <- <-.
    vm_compute in Hc. injection Hc as <-. split.
    + rewrite Ha by exact user_token_wf. vm_compute. reflexivity.
    + rewrite Ha by (apply Forall_cons; split; [exact (proj2 (proj2 sample_sids_wf))|apply Forall_nil_2]).
      vm_compute. reflexivity.
Defined.

Lemma inheritance_through_directory_witness :
  exists directory child direct,
    se_create_child_secdesc blank_mem zero_junk home_sd (Some user_sid) (Some group_of_user) true =
      Some (NT_STATUS_OK, Some directory) /\
    se_create_child_secdesc blank_mem zero_junk directory (Some other_sid) (Some group_of_user) false =
      Some (NT_STATUS_OK, Some child) /\
    se_create_child_secdesc blank_mem zero_junk home_sd (Some other_sid) (Some group_of_user) false =
      Some (NT_STATUS_OK, Some direct) /\
    security_descriptor_equal child direct = true.
Proof.
  destruct sample_sids_wf as (Hu & Hg & Ho).
  apply (inheritance_through_directory blank_mem blank_mem blank_mem zero_junk zero_junk zero_junk
           home_sd home_acl user_sid group_of_user other_sid group_of_user false);
    try exact zero_junk_ok; try assumption.
  - exact (proj1 home_ok).
  - exact home_flags.
  - vm_compute. reflexivity.
Defined.

(** ** Where the code does not do what it means to *)

(** The object type of an inherited object entry is whatever the memory held. *)
Lemma inherited_object_uninitialised (mem : nat -> security_ace) (g : GUID) :
  let ace := Security_ace SEC_ACE_TYPE_ACCESS_DENIED_OBJECT SEC_ACE_FLAG_OBJECT_INHERIT 0x10 (Some g) None
               other_sid in
  child_ace mem false (Some user_sid) (Some user_sid) false 0 ace =
  Some [Security_ace SEC_ACE_TYPE_ACCESS_DENIED_OBJECT 0 0x10 (object_type (mem 0%nat))
          (inherited_object_type (mem 0%nat)) other_sid].
Proof. vm_compute. reflexivity. Qed.

(** With inherited ownership, a parent whose list is null is dereferenced. *)
Lemma inherit_owner_null_dacl (mem : nat -> security_ace) (junk : list Z) (env : inherit_env)
    (parent : security_descriptor) :
  parent_nt_acl env = inr parent -> inherit_owner_option env = true -> dacl parent = None ->
  inherit_new_acl mem junk env = None.
Proof.
  intros He Hi Hd. unfold inherit_new_acl, sd_has_inheritable_components, se_create_child_secdesc.
  rewrite He, Hi, Hd. cbn [negb andb]. by destruct (new_owner_group env parent) as [[o g]|].
Qed.
