(* ===== verification/AdInheritProps.v ===== *)
(** * The descriptor of a new directory object: properties

    [create_security_descriptor] returns a descriptor whose lists have the
    explicit entries before the inherited ones and in which no effective entry
    has generic rights or a creator SID; the invariant holds of every
    descriptor made from a parent that has it. Where the code does not do what
    it means to. *)

From S2P Require Import Prelude.
From S2P Require Import DomSid.
From S2P Require Import SecModel.
From S2P Require Import AccessProps.
From S2P Require Import SecDesc.
From S2P Require Import SecDescProps.
From S2P Require Import SecInherit.
From S2P Require Import SecInheritProps.
From stdpp Require Import prelude list.

#[local] Open Scope Z_scope.
#[local] Arguments Z.testbit : simpl never.

(** ** Generic rights *)

Lemma expand_bit_or (x y b r : Z) :
  Z.land b r = 0 -> has_bits (expand_bit b r x) y = true -> has_bits x y = true \/ has_bits r y = true.
Proof.
  intros Hbr. unfold expand_bit. case_if; [|auto]. intros H.
  assert (has_bits (Z.lor x r) y = true) as Ho.
  { unfold has_bits, clear_bits in *. apply negb_true_iff, Z.eqb_neq in H.
    apply negb_true_iff, Z.eqb_neq. intros E. apply H. apply Z.bits_inj. intros i.
    pose proof (f_equal (fun z => Z.testbit z i) E) as Ei. cbv beta in Ei.
    rewrite Z.land_spec, Z.bits_0 in *. rewrite Z.ldiff_spec.
    by destruct (Z.testbit (Z.lor x r) i), (Z.testbit y i), (Z.testbit b i). }
  rewrite has_bits_or in Ho. by apply orb_true_iff.
Qed.

Lemma expand_bit_gone (x b r : Z) : Z.land b r = 0 -> has_bits (expand_bit b r x) b = false.
Proof.
  intros Hbr. unfold expand_bit. destruct (has_bits x b) eqn:E; [apply has_bits_cleared|done].
Qed.

Definition generic_bits : list Z :=
  [SEC_GENERIC_ALL; SEC_GENERIC_EXECUTE; SEC_GENERIC_WRITE; SEC_GENERIC_READ].

(** The mapping leaves no generic right. *)
Lemma map_generic_gone (m b : Z) : b ∈ generic_bits -> has_bits (map_generic_rights_ds m) b = false.
Proof.
  intros Hb. apply not_true_iff_false. intros H. unfold map_generic_rights_ds in H. cbv zeta in H.
  repeat (apply elem_of_cons in Hb as [->|Hb]); [..|by apply elem_of_nil in Hb].
  all: repeat first
    [ rewrite expand_bit_gone in H by reflexivity; discriminate
    | apply expand_bit_or in H as [H|H]; [|discriminate|reflexivity] ].
Qed.

(** ** Effective entries are specific *)

(** An entry that applies to the object itself has no generic right and no
    creator SID. *)
Definition specific (a : security_ace) : Prop :=
  inherit_only a = false -> desc_ace_has_generic a = false.

Definition ordinary (s : dom_sid) : Prop :=
  dom_sid_equal (Some s) (Some global_sid_Creator_Owner) = false /\
  dom_sid_equal (Some s) (Some global_sid_Creator_Group) = false.

Lemma expand_specific (a : security_ace) (o g : dom_sid) :
  ordinary o -> ordinary g -> desc_ace_has_generic (desc_expand_generic a o g) = false.
Proof.
  intros [Ho1 Ho2] [Hg1 Hg2]. unfold desc_ace_has_generic.
  assert (forall b, b ∈ generic_bits ->
    has_bits (access_mask (desc_expand_generic a o g)) b = false) as Hm.
  { intros b Hb. rewrite <- (map_generic_gone (access_mask a) b Hb). f_equal.
    unfold desc_expand_generic. by repeat case_if. }
  rewrite !Hm by (apply list_elem_of_In; cbn; auto). cbn [orb].
  unfold desc_expand_generic. cbn [trustee set_flags set_access_mask].
  destruct (dom_sid_equal (Some (trustee a)) (Some global_sid_Creator_Owner)) eqn:E1; cbn [trustee set_trustee set_access_mask].
  - rewrite Ho2. cbn. by rewrite Ho1, Ho2.
  - destruct (dom_sid_equal (Some (trustee a)) (Some global_sid_Creator_Group)) eqn:E2; cbn.
    + by rewrite Hg1, Hg2.
    + by rewrite E1, E2.
Qed.


(** The entries of the creator's list: explicit and specific. *)
Lemma user_ace_ok (o g : dom_sid) (is_protected : bool) (a b : security_ace) :
  ordinary o -> ordinary g -> b ∈ (user_ace o g is_protected a).2 ->
  is_inherited b = false /\ specific b.
Proof.
  intros Ho Hg. unfold user_ace.
  destruct (has_bits (ace_flags a) SEC_ACE_FLAG_INHERITED_ACE && negb is_protected) eqn:E0;
    [intros H; by apply elem_of_nil in H|].
  set (a' := if has_bits (ace_flags a) SEC_ACE_FLAG_INHERITED_ACE then _ else a).
  assert (is_inherited a' = false) as Ha'.
  { unfold a', is_inherited. case_if; [apply has_bits_cleared|done]. }
  clearbody a'. clear E0. cbv zeta.
  destruct (has_bits (ace_flags a') SEC_ACE_FLAG_INHERIT_ONLY) eqn:E1; cbn [andb].
  - case_if; cbn [snd]; intros H; [by apply elem_of_nil in H|].
    apply list_elem_of_singleton in H as ->. split; [done|]. unfold specific, inherit_only. congruence.
  - destruct (desc_ace_has_generic a') eqn:E2.
    + assert (forall x, x = desc_expand_generic a' o g -> is_inherited x = false /\ specific x) as Hx.
      { intros x ->. split; [done|]. intros _. by apply expand_specific. }
      case_if; cbn [snd]; intros H; repeat (apply elem_of_cons in H as [->|H]);
        try (by apply elem_of_nil in H); try (by apply Hx).
      split.
      * unfold is_inherited in *. cbn. by rewrite has_bits_or, Ha'.
      * unfold specific, inherit_only. cbn. by rewrite has_bits_or, orb_true_r.
    + cbn [snd]. intros H. apply list_elem_of_singleton in H as ->. split; [done|]. by intros _.
Qed.

(** The entries that come from the parent: inherited and specific. *)
Lemma inherited_ace_ok (container : bool) (o g : dom_sid) (objects : option (list GUID))
    (a b : security_ace) (l : list security_ace) :
  ordinary o -> ordinary g -> specific a -> inherited_ace container o g objects a = Some l -> b ∈ l ->
  is_inherited b = true /\ specific b.
Proof.
  intros Ho Hg Ha. unfold inherited_ace. case_if; [|intros [= <-] H; by apply elem_of_nil in H].
  set (f1 := Z.lor (ace_flags a) SEC_ACE_FLAG_INHERITED_ACE).
  set (f2 := if _ && negb (desc_ace_has_generic a) then _ else f1).
  set (f3 := if container && _ then _ else f2).
  assert (has_bits f1 SEC_ACE_FLAG_INHERITED_ACE = true /\
          has_bits f1 SEC_ACE_FLAG_INHERIT_ONLY = inherit_only a) as [H1i H1o].
  { unfold f1. rewrite !has_bits_or. by rewrite orb_true_r, orb_false_r. }
  assert (has_bits f2 SEC_ACE_FLAG_INHERITED_ACE = true /\
          (desc_ace_has_generic a = true -> has_bits f2 SEC_ACE_FLAG_INHERIT_ONLY = true)) as [H2i H2o].
  { unfold f2. destruct (desc_ace_has_generic a) eqn:Eg; rewrite ?andb_false_r, ?andb_true_r; cbn [negb].
    - split; [done|]. intros _. rewrite H1o. unfold specific in Ha.
      destruct (inherit_only a); [done|]. by rewrite Ha in Eg.
    - split; [|done]. case_if; [|done]. by rewrite has_bits_clear. }
  assert (has_bits f3 SEC_ACE_FLAG_INHERITED_ACE = true /\
          (desc_ace_has_generic a = true -> has_bits f3 SEC_ACE_FLAG_INHERIT_ONLY = true)) as [H3i H3o].
  { unfold f3. case_if; [|done]. rewrite !has_bits_or, H2i. cbn. by rewrite orb_true_r. }
  destruct (if sec_ace_object _ then _ else _) as [f4|] eqn:E4; [|done]. cbn [mbind option_bind].
  assert (has_bits f4 SEC_ACE_FLAG_INHERITED_ACE = true /\
          (desc_ace_has_generic a = true -> has_bits f4 SEC_ACE_FLAG_INHERIT_ONLY = true)) as [H4i H4o].
  { revert E4. case_if; [|by intros [= <-]]. destruct (object_in_list _ _) as [[]|]; [|..|done].
    - by intros [= <-].
    - intros [= <-]. rewrite !has_bits_or, H3i. cbn. by rewrite orb_true_r. }
  intros [= <-] H. apply elem_of_cons in H as [->|H].
  - split; [done|]. unfold specific, inherit_only. cbn [ace_flags set_flags]. intros Hf.
    change (desc_ace_has_generic a = false). apply not_true_iff_false. intros Hg'. rewrite H4o in Hf; done.
  - revert H. case_if; [|intros H; by apply elem_of_nil in H]. intros H.
    apply list_elem_of_singleton in H as ->. split; [done|]. intros _.
    change (desc_ace_has_generic (desc_expand_generic a o g) = false). by apply expand_specific.
Qed.

(** ** Lists *)

Definition explicit_ace (a : security_ace) : Prop := is_inherited a = false /\ specific a.
Definition derived_ace (a : security_ace) : Prop := is_inherited a = true /\ specific a.

Definition aces_of (acl : option security_acl) : list security_ace := default [] (aces <$> acl).

(** Explicit entries, then inherited ones; all specific where they apply. *)
Definition acl_ordered (acl : option security_acl) : Prop :=
  exists e h, aces_of acl = e ++ h /\ Forall explicit_ace e /\ Forall derived_ace h.

(** An object list has its terminator. *)
Definition objects_ok (objects : option (list GUID)) : Prop :=
  match objects with None => True | Some l => existsb GUID_all_zero l = true end.

Lemma guid_scan_total (l : list GUID) (g : GUID) :
  existsb GUID_all_zero l = true -> is_Some (guid_scan l g).
Proof.
  induction l as [|x l IH]; cbn [existsb guid_scan]; [done|]. destruct (GUID_all_zero x); [eauto|].
  cbn [orb]. intros H. case_if; eauto.
Qed.

Lemma object_in_list_total (objects : option (list GUID)) (g : GUID) :
  objects_ok objects -> is_Some (object_in_list objects g).
Proof. destruct objects as [l|]; cbn; [|eauto]. intros H. case_if; [eauto|by apply guid_scan_total]. Qed.

Section Lists.
  Context (container : bool) (o g : dom_sid) (objects : option (list GUID)).
  Hypothesis (Ho : ordinary o) (Hg : ordinary g) (Hobj : objects_ok objects).

Lemma inherited_ace_total (a : security_ace) : is_Some (inherited_ace container o g objects a).
Proof.
  unfold inherited_ace. case_if; [|eauto].
  destruct (object_in_list_total objects (default GUID_zero (inherited_object_type a)) Hobj) as [b ->].
  destruct (sec_ace_object _); cbn; eauto.
Qed.

Lemma inherited_loop_ok (l : list security_ace) :
  Forall specific l ->
  exists k, inherited_loop container o g objects l = Some k /\ Forall derived_ace k.
Proof.
  induction 1 as [|a l Ha Hl (k & Hk & IH)]; [by exists []|].
  destruct (inherited_ace_total a) as [r Hr]. exists (r ++ k). cbn [inherited_loop]. rewrite Hr, Hk.
  split; [done|]. apply Forall_app. split; [|done]. apply Forall_forall. intros b Hb.
  by apply (inherited_ace_ok container o g objects a b r).
Qed.

Lemma calculate_inherited_ok (acl : option security_acl) :
  Forall specific (aces_of acl) ->
  exists r, calculate_inherited_from_parent container o g objects acl = Some r /\
    Forall derived_ace (aces_of r).
Proof.
  destruct acl as [acl|]; cbn; intros H; [|by exists None].
  destruct (inherited_loop_ok (aces acl) H) as (k & -> & Hk). cbn.
  eexists. split; [reflexivity|]. by destruct k.
Qed.

Lemma user_acl_ok (acl : option security_acl) (is_protected : bool) :
  Forall explicit_ace (aces_of (process_user_acl o g acl is_protected).1).
Proof.
  destruct acl as [acl|]; cbn; [|done]. rewrite map_map.
  apply Forall_concat, Forall_map, Forall_forall. intros a _. apply Forall_forall. intros b Hb.
  by apply (user_ace_ok o g is_protected a).
Qed.
End Lists.

Lemma concatenate_aces (a b : option security_acl) :
  aces_of (security_acl_concatenate a b) = aces_of a ++ aces_of b.
Proof. destruct a, b; cbn; rewrite ?app_nil_r; done. Qed.

Lemma concatenate_ordered (a b : option security_acl) :
  Forall explicit_ace (aces_of a) -> Forall derived_ace (aces_of b) ->
  acl_ordered (security_acl_concatenate a b).
Proof. intros Ha Hb. exists (aces_of a), (aces_of b). by rewrite concatenate_aces. Qed.

(** ** The whole descriptor *)

Definition parent_specific (parent : option security_descriptor) : Prop :=
  match parent with
  | None => True
  | Some p => Forall specific (aces_of (dacl p)) /\ Forall specific (aces_of (sacl p))
  end.

Section Parts.
  Context (parent creator : option security_descriptor) (container : bool) (flags : Z).
  Context (objects : option (list GUID)) (o g : dom_sid).
  Hypothesis (Ho : ordinary o) (Hg : ordinary g) (Hobj : objects_ok objects).
  Hypothesis (Hp : parent_specific parent).

Lemma inherited_part_ok (acl : security_descriptor -> option security_acl) (auto bit : Z) :
  (forall p, parent = Some p -> Forall specific (aces_of (acl p))) ->
  exists r, inherited_part parent creator container flags objects o g acl auto bit = Some r /\
    Forall derived_ace (aces_of r) /\ (creator_protected creator bit = true -> r = None).
Proof.
  intros H. unfold inherited_part. destruct parent as [p|]; [|by exists None].
  destruct (negb _); [by exists None|]. destruct (creator_protected creator bit); [by exists None|].
  destruct (calculate_inherited_ok container o g objects Ho Hg Hobj (acl p) (H p eq_refl)) as (r & -> & Hr).
  by exists r.
Qed.

Lemma user_part_ok :
  Forall explicit_ace (aces_of (user_part creator flags o g).1.1) /\
  Forall explicit_ace (aces_of (user_part creator flags o g).1.2).
Proof.
  unfold user_part. destruct creator as [c|]; [|done]. case_if; [done|].
  set (b1 := creator_protected _ SEC_DESC_DACL_PROTECTED). set (b2 := creator_protected _ _).
  pose proof (user_acl_ok o g Ho Hg (dacl c) b1) as H1. pose proof (user_acl_ok o g Ho Hg (sacl c) b2) as H2.
  by destruct (process_user_acl o g (dacl c) b1), (process_user_acl o g (sacl c) b2).
Qed.

Lemma compute_acl_ok (new_sd : security_descriptor) :
  exists sd c', compute_acl parent creator container flags objects o g new_sd = Some (sd, c') /\
    owner_sid sd = owner_sid new_sd /\ group_sid sd = group_sid new_sd /\
    acl_ordered (dacl sd) /\ acl_ordered (sacl sd) /\
    (creator_protected creator SEC_DESC_DACL_PROTECTED = true -> Forall explicit_ace (aces_of (dacl sd))) /\
    (creator_protected creator SEC_DESC_SACL_PROTECTED = true -> Forall explicit_ace (aces_of (sacl sd))).
Proof.
  unfold compute_acl.
  destruct (inherited_part_ok dacl SEC_DACL_AUTO_INHERIT SEC_DESC_DACL_PROTECTED) as (rd & -> & Hrd & Hrp);
    [intros p ->; apply Hp|].
  destruct (inherited_part_ok sacl SEC_SACL_AUTO_INHERIT SEC_DESC_SACL_PROTECTED) as (rs & -> & Hrs & Hsp);
    [intros p ->; apply Hp|].
  cbn [mbind option_bind]. destruct user_part_ok as [Hud Hus].
  destruct (user_part creator flags o g) as [[ud us] c']. cbn [fst snd] in Hud, Hus.
  eexists _, _. split; [reflexivity|].
  assert (forall (b : bool) sd t,
    (if b then set_sd_type sd t else sd) = set_sd_type sd (if b then t else sd_type sd)) as Hset
    by (intros [] [] ?; done).
  rewrite !Hset. destruct c' as [c'|]; cbn [owner_sid group_sid dacl sacl set_sd_type set_dacl set_sacl].
  all: split_and!; [done|done|by apply concatenate_ordered|by apply concatenate_ordered|..].
  all: intros H; rewrite concatenate_aces.
  all: first [by rewrite (Hrp H), app_nil_r|by rewrite (Hsp H), app_nil_r].
Qed.
End Parts.

Lemma ordered_specific (acl : option security_acl) : acl_ordered acl -> Forall specific (aces_of acl).
Proof.
  intros (e & h & -> & He & Hh). apply Forall_app.
  split; eapply Forall_impl; [exact He|by intros a [_ ?]|exact Hh|by intros a [_ ?]].
Qed.

(** The SIDs that may become owner or group are ordinary ones, and those asked
    of the parent are there. *)
Record object_inputs (parent creator : option security_descriptor) (flags : Z)
    (token : security_token) (default_owner default_group : option dom_sid) : Prop := {
  oi_token : sids token <> [];
  oi_sids : Forall ordinary (sids token);
  oi_given : Forall (from_option ordinary True)
    [creator ≫= owner_sid; creator ≫= group_sid; parent ≫= owner_sid; parent ≫= group_sid;
     default_owner; default_group];
  oi_parent : forall p, parent = Some p ->
    (has_bits flags SEC_OWNER_FROM_PARENT = true -> is_Some (owner_sid p)) /\
    (has_bits flags SEC_GROUP_FROM_PARENT = true -> is_Some (group_sid p))
}.

Lemma token_sid_ordinary (token : security_token) :
  sids token <> [] -> Forall ordinary (sids token) ->
  (exists s, sids token !! 0%nat = Some s /\ ordinary s) /\
  exists s, (if (1 <? length (sids token))%nat then sids token !! 1%nat else sids token !! 0%nat) = Some s /\
            ordinary s.
Proof.
  intros Hn Hs. destruct (sids token) as [|s0 [|s1 l]]; [done|..].
  - apply Forall_cons in Hs as [H0 _]. split; by exists s0.
  - apply Forall_cons in Hs as [H0 [H1 _]%Forall_cons]. split; [by exists s0|by exists s1].
Qed.

(** C21. The descriptor of a new directory object: the code always returns one;
    its owner and group are the creator's where the creator gives them; its DACL
    and SACL have the explicit entries before the inherited ones, none of which
    is left where the creator protects the list; and no entry that applies to
    the object has generic rights or a creator SID, so that the object is again
    a parent of the kind the theorem asks for. *)
Theorem new_object_descriptor (parent creator : option security_descriptor) (container : bool)
    (objects : option (list GUID)) (flags : Z) (token : security_token)
    (default_owner default_group : option dom_sid) :
  object_inputs parent creator flags token default_owner default_group ->
  objects_ok objects -> parent_specific parent ->
  exists sd creator',
    create_security_descriptor parent creator container objects flags token default_owner default_group =
      Some (Some (sd, creator')) /\
    (forall o, creator ≫= owner_sid = Some o -> owner_sid sd = Some o) /\
    (forall g, creator ≫= group_sid = Some g -> group_sid sd = Some g) /\
    acl_ordered (dacl sd) /\ acl_ordered (sacl sd) /\
    (creator_protected creator SEC_DESC_DACL_PROTECTED = true -> Forall explicit_ace (aces_of (dacl sd))) /\
    (creator_protected creator SEC_DESC_SACL_PROTECTED = true -> Forall explicit_ace (aces_of (sacl sd))) /\
    parent_specific (Some sd).
Proof.
  intros [Ht Hs Hgiven Hpar] Hobj Hp. unfold create_security_descriptor.
  destruct (token_sid_ordinary token Ht Hs) as [(s0 & E0 & H0) (s1 & E1 & H1)]. rewrite E1, E0.
  rewrite !Forall_cons in Hgiven. destruct Hgiven as (Gco & Gcg & Gpo & Gpg & Gdo & Gdg & _).
  match goal with |- context [?x ≫= fun '(new_owner, defaulted_o) => _] =>
    assert (exists o d, x = Some (Some o, d) /\ ordinary o /\
            (forall o', creator ≫= owner_sid = Some o' -> o' = o)) as (o & od & -> & Ho & Hco) end.
  { destruct (creator ≫= owner_sid) as [co|]; [exists co, 0; split_and!; try done; congruence|].
    destruct parent as [p|], (has_bits flags SEC_OWNER_FROM_PARENT) eqn:Ef.
    1: { destruct (proj1 (Hpar p eq_refl) eq_refl) as [po Epo]. cbn in Gpo. rewrite Epo in *. by exists po, 0. }
    all: destruct default_owner as [d|]; [by exists d, SEC_DESC_OWNER_DEFAULTED|by exists s0, 0]. }
  cbn [mbind option_bind].
  match goal with |- context [?x ≫= fun '(new_group, defaulted_g) => _] =>
    assert (exists g d, x = Some (Some g, d) /\ ordinary g /\
            (forall g', creator ≫= group_sid = Some g' -> g' = g)) as (g & gd & -> & Hg & Hcg) end.
  { destruct (creator ≫= group_sid) as [cg|]; [exists cg, 0; split_and!; try done; congruence|].
    destruct parent as [p|], (has_bits flags SEC_GROUP_FROM_PARENT) eqn:Ef.
    1: { destruct (proj2 (Hpar p eq_refl) eq_refl) as [pg Epg]. cbn in Gpg. rewrite Epg in *. by exists pg, 0. }
    all: destruct default_group as [d|]; [by exists d, SEC_DESC_GROUP_DEFAULTED|by exists s1, 0]. }
  cbn [mbind option_bind].
  match goal with |- context [compute_acl _ _ _ _ _ _ _ ?n] =>
    destruct (compute_acl_ok parent creator container flags objects o g Ho Hg Hobj Hp n)
      as (sd & c' & -> & Eo & Eg & Hd & Hsa & Hpd & Hps) end.
  exists sd, c'. split_and!; try done.
  - intros o' H. by rewrite Eo, (Hco o' H).
  - intros g' H. by rewrite Eg, (Hcg g' H).
  - by split; apply ordered_specific.
Qed.

(** An organisational unit whose entries are split as the code splits them: the
    creator entry is inherit-only. *)
Definition unit_aces : list security_ace :=
  [flagged_ace SEC_ACE_TYPE_ACCESS_ALLOWED 0 0x20 other_sid;
   flagged_ace SEC_ACE_TYPE_ACCESS_ALLOWED (Z.lor SEC_ACE_FLAG_CONTAINER_INHERIT SEC_ACE_FLAG_INHERIT_ONLY)
     SEC_GENERIC_ALL global_sid_Creator_Owner].
Definition unit_sd : security_descriptor :=
  Security_descriptor SD_REVISION SEC_DESC_DACL_PRESENT (Some other_sid) (Some other_sid) None
    (Some (Security_acl SECURITY_ACL_REVISION_ADS unit_aces)).
Definition creator_sd : security_descriptor :=
  Security_descriptor SD_REVISION SEC_DESC_DACL_PRESENT (Some user_sid) None None
    (Some (Security_acl SECURITY_ACL_REVISION_ADS
       [flagged_ace SEC_ACE_TYPE_ACCESS_ALLOWED 0 SEC_GENERIC_READ group_of_user])).

Lemma new_object_descriptor_witness :
  exists sd creator',
    create_security_descriptor (Some unit_sd) (Some creator_sd) true None SEC_DACL_AUTO_INHERIT
      (user_token 0) None None = Some (Some (sd, creator')) /\
    owner_sid sd = Some user_sid /\ acl_ordered (dacl sd) /\ length (aces_of (dacl sd)) = 3%nat.
Proof.
  destruct (new_object_descriptor (Some unit_sd) (Some creator_sd) true None SEC_DACL_AUTO_INHERIT
              (user_token 0) None None) as (sd & c' & E & Hown & _ & Hd & _).
  - split; [discriminate|..].
    + repeat (apply Forall_cons; split); try apply Forall_nil_2; split; vm_compute; reflexivity.
    + repeat (apply Forall_cons; split); try apply Forall_nil_2; try exact I; split; vm_compute; reflexivity.
    + intros p [= <-]. split; intros _; eexists; reflexivity.
  - exact I.
  - split; [|apply Forall_nil_2].
    repeat (apply Forall_cons; split); try apply Forall_nil_2; unfold specific; vm_compute; auto.
  - exists sd, c'. split; [exact E|]. split; [exact (Hown user_sid eq_refl)|]. split; [exact Hd|].
    vm_compute in E. injection E as <- _. vm_compute. reflexivity.
Defined.

(** ** Where the code departs from what it means *)

Definition inheritance_parent (flags : Z) : security_descriptor :=
  Security_descriptor SD_REVISION SEC_DESC_DACL_PRESENT (Some other_sid) (Some other_sid) None
    (Some (Security_acl SECURITY_ACL_REVISION_NT4
             [flagged_ace SEC_ACE_TYPE_ACCESS_ALLOWED flags 0x10 user_sid])).

Definition directory_child (flags : Z) : option (list Z) :=
  r ← create_security_descriptor (Some (inheritance_parent flags)) None true None SEC_DACL_AUTO_INHERIT
        (user_token 0) None None;
  r ← r; Some (map ace_flags (aces_of (dacl r.1))).

Definition file_child (flags : Z) : option (list Z) :=
  r ← se_create_child_secdesc blank_mem zero_junk (inheritance_parent flags) (Some user_sid)
        (Some group_of_user) true;
  r ← r.2; Some (map ace_flags (aces_of (dacl r))).

(** An entry for containers and objects becomes inherit-only on a container
    below, while a file system directory gets it in effect. *)
Lemma container_object_inherit_only :
  let f := Z.lor SEC_ACE_FLAG_CONTAINER_INHERIT SEC_ACE_FLAG_OBJECT_INHERIT in
  directory_child f =
    Some [Z.lor f (Z.lor SEC_ACE_FLAG_INHERIT_ONLY SEC_ACE_FLAG_INHERITED_ACE)] /\
  file_child f = Some [f].
Proof. split; vm_compute; reflexivity. Qed.

(** An entry that must not propagate keeps its inheritance flags on the child,
    so that it is inherited again below, unlike in the file system. *)
Lemma no_propagate_propagates :
  let f := Z.lor SEC_ACE_FLAG_CONTAINER_INHERIT SEC_ACE_FLAG_NO_PROPAGATE_INHERIT in
  directory_child f = Some [Z.lor f SEC_ACE_FLAG_INHERITED_ACE] /\
  directory_child (Z.lor f SEC_ACE_FLAG_INHERITED_ACE) = Some [Z.lor f SEC_ACE_FLAG_INHERITED_ACE] /\
  file_child f = Some [0].
Proof. split_and!; vm_compute; reflexivity. Qed.
