(* ===== verification/SddlProps.v ===== *)
(** * SDDL: a descriptor can be read back from its text

    Properties of the decoder and the encoder of Sddl.v: the rounds of their
    loops are enough, every code of the tables is read back, and a descriptor
    that the language can express is read back from the text written for it,
    with the same decision on every access. What the language or the decoder
    loses is shown at the end. *)

From S2P Require Import Prelude.
From S2P Require Import CString.
From S2P Require Import DomSid.
From S2P Require Import SecModel.
From S2P Require Import AccessProps.
From S2P Require Import GuidText.
From S2P Require Import SecDesc.
From S2P Require Import SecDescProps.
From S2P Require Import SecInherit.
From S2P Require Import SecInheritProps.
From S2P Require Import Sddl.
From stdpp Require Import prelude list strings.

#[local] Open Scope Z_scope.

(** ** Codes of flags *)

(** A code starts with a capital letter and is the first of the table that
    matches where it stands. *)
Definition codes_ok (map : flag_map) : Prop :=
  Forall (fun e => isupper (peek e.1) = true /\
            forall rest, List.find (fun e' => starts_with e'.1 (e.1 ++ rest)) map = Some e) map.

(** Every code stands for one bit. *)
Definition one_bits (map : flag_map) : Prop := Forall (fun e => exists k, 0 <= k /\ e.2 = 2 ^ k) map.

Definition names_of (l : flag_map) : list Z := concat (List.map fst l).
Definition flags_of (l : flag_map) : Z := foldr Z.lor 0 (List.map snd l).

Lemma peek_app (s rest : list Z) : isupper (peek s) = true -> peek (s ++ rest) = peek s.
Proof. by destruct s. Qed.

Lemma map_flags_names (map l : flag_map) (rest : list Z) (fuel : nat) (flags : Z) (len : nat) :
  codes_ok map -> l ⊆ map -> isupper (peek rest) = false -> (length l < fuel)%nat ->
  map_flags_loop fuel map (names_of l ++ rest) flags len =
  Some (Z.lor flags (flags_of l), (len + length (names_of l))%nat).
Proof.
  intros Hc Hl Hr. revert fuel flags len. unfold names_of, flags_of.
  induction l as [|e l IH]; intros [|fuel] flags len Hf; simpl in Hf |- *; try lia.
  { rewrite Hr, Z.lor_0_r, Nat.add_0_r. done. }
  unfold codes_ok in Hc. rewrite Forall_forall in Hc. destruct (Hc e) as [Hu Hfind]; [apply Hl; left|].
  rewrite <- app_assoc, peek_app, Hu, Hfind by done. destruct e as [name flag]. cbn [fst snd] in *.
  rewrite drop_app_length, IH; [|by intros x Hx; apply Hl; right|lia].
  rewrite Z.lor_assoc, length_app, Nat.add_assoc. done.
Qed.

Lemma one_bit_land (x f : Z) : (exists k, 0 <= k /\ f = 2 ^ k) -> has_bits x f = true -> Z.land x f = f.
Proof.
  intros (k & Hk & ->) H. rewrite has_bit_pow in H by done. apply Z.bits_inj. intros i.
  rewrite Z.land_spec, pow2_testbit by done. destruct (Z.eqb_spec i k) as [->|]; [by rewrite H|apply andb_false_r].
Qed.

Lemma by_bits_spec (map : flag_map) (flags : Z) :
  one_bits map -> NoDup (List.map snd map) ->
  exists l, l ⊆ map /\ (flags_by_bits map flags).1 = names_of l /\
    flags_of l = Z.land flags (flags_of map) /\
    (flags_by_bits map flags).2 = clear_bits flags (flags_of map).
Proof.
  intros Hb Hd. revert flags. induction map as [|[name flag] map IH]; intros flags.
  { exists []. unfold flags_of, clear_bits. simpl. by rewrite Z.land_0_r, Z.ldiff_0_r. }
  apply Forall_cons in Hb as [Hf Hb]. cbn in Hf. simpl in Hd. apply NoDup_cons in Hd as [Hn Hd].
  assert (Z.land flag (flags_of map) = 0) as Hdis.
  { clear IH Hd. unfold flags_of. induction Hb as [|[n2 f2] map (k2 & Hk2 & E2) Hb IH]; simpl; [apply Z.land_0_r|].
    simpl in Hn, E2. apply not_elem_of_cons in Hn as [Hne Hn]. rewrite Z.land_lor_distr_r, (IH Hn), Z.lor_0_r.
    destruct Hf as (k & Hk & ->). subst f2. apply Z.bits_inj_0. intros i.
    rewrite Z.land_spec, !pow2_testbit by done. destruct (Z.eqb_spec i k), (Z.eqb_spec i k2); try done. congruence. }
  change (flags_of ((name, flag) :: map)) with (Z.lor flag (flags_of map)). simpl.
  destruct (has_bits flags flag) eqn:E.
  - destruct (IH Hb Hd (clear_bits flags flag)) as (l & Hl & Hs & Hv & Hr). exists ((name, flag) :: l).
    split; [by apply list_subseteq_skip|]. unfold prod_map, id. cbn [fst snd]. rewrite Hs, Hr.
    change (flags_of ((name, flag) :: l)) with (Z.lor flag (flags_of l)). split; [done|]. split.
    + rewrite Hv, Z.land_lor_distr_r, (one_bit_land _ _ Hf E). f_equal. unfold clear_bits.
      apply Z.bits_inj. intros i. apply (f_equal (fun z => Z.testbit z i)) in Hdis.
      rewrite Z.land_spec, Z.bits_0 in Hdis. rewrite !Z.land_spec, Z.ldiff_spec.
      destruct (Z.testbit flag i), (Z.testbit (flags_of map) i), (Z.testbit flags i); done.
    + unfold clear_bits. by rewrite Z.ldiff_ldiff_l.
  - destruct (IH Hb Hd flags) as (l & Hl & Hs & Hv & Hr). exists l.
    split; [by apply list_subseteq_cons|]. rewrite Hs, Hr, Hv.
    unfold has_bits in E. apply negb_false_iff, Z.eqb_eq in E. split; [done|]. split.
    + by rewrite Z.land_lor_distr_r, E.
    + unfold clear_bits. rewrite <- Z.ldiff_ldiff_l. f_equal. symmetry. apply Z.bits_inj. intros i.
      apply (f_equal (fun z => Z.testbit z i)) in E. rewrite Z.land_spec, Z.bits_0 in E.
      rewrite Z.ldiff_spec. by destruct (Z.testbit flags i), (Z.testbit flag i).
Qed.

(** The text of flags is made of codes; with [check_all] it is refused exactly
    when a bit has no code. *)
Lemma flags_to_string_spec (map : flag_map) (flags : Z) (check_all : bool) :
  one_bits map -> NoDup (List.map snd map) ->
  match sddl_flags_to_string map flags check_all with
  | Some s => exists l, l ⊆ map /\ s = names_of l /\ flags_of l = Z.land flags (flags_of map) /\
                (check_all = true -> flags_of l = flags)
  | None => check_all = true /\ Z.land flags (flags_of map) <> flags
  end.
Proof.
  intros Hb Hd. unfold sddl_flags_to_string. destruct (List.find _ map) as [[name flag]|] eqn:Ef.
  { apply List.find_some in Ef as [Hin E]. apply Z.eqb_eq in E. simpl in E. subst flag.
    exists [(name, flags)]. split; [intros x Hx; apply list_elem_of_singleton in Hx as ->; by apply list_elem_of_In|].
    unfold names_of, flags_of. simpl. rewrite app_nil_r, Z.lor_0_r. split; [done|]. split; [|done].
    clear Hb Hd. symmetry. induction map as [|e map IH]; [done|]. simpl. rewrite Z.land_lor_distr_r.
    destruct Hin as [->|Hin]; [simpl; rewrite Z.land_diag; apply Z.bits_inj; intros i;
      rewrite Z.lor_spec, Z.land_spec; by destruct (Z.testbit flags i)|].
    rewrite (IH Hin). apply Z.bits_inj. intros i. rewrite Z.lor_spec, Z.land_spec. by destruct (Z.testbit flags i), (Z.testbit e.2 i). }
  destruct (by_bits_spec map flags Hb Hd) as (l & Hl & Hs & Hv & Hr).
  destruct (flags_by_bits map flags) as [s left]. simpl in Hs, Hr. subst s left.
  assert (clear_bits flags (flags_of map) = 0 <-> Z.land flags (flags_of map) = flags) as Hz.
  { unfold clear_bits. split; intros H; apply Z.bits_inj; intros i; apply (f_equal (fun z => Z.testbit z i)) in H;
      revert H; rewrite Z.land_spec, Z.ldiff_spec, ?Z.bits_0;
      by destruct (Z.testbit flags i), (Z.testbit (flags_of map) i). }
  destruct check_all; cbn [andb]; [|by exists l].
  destruct (Z.eqb_spec (clear_bits flags (flags_of map)) 0) as [E|E]; cbn [negb].
  - exists l. split_and!; try done. intros _. rewrite Hv. by apply Hz.
  - split; [done|]. by rewrite <- Hz.
Qed.

(** The tables of bits. *)
Record table_ok (map : flag_map) : Prop := {
  table_codes : codes_ok map;
  table_bits : one_bits map;
  table_nodup : NoDup (List.map snd map)
}.

Ltac solve_table :=
  split;
  [ repeat (apply Forall_cons; split); try apply Forall_nil_2; (split; [reflexivity|]; intros rest; reflexivity)
  | repeat (apply Forall_cons; split); try apply Forall_nil_2;
    match goal with |- exists k, 0 <= k /\ ?x = _ => exists (Z.log2 x); by vm_compute end
  | by apply (bool_decide_unpack _); vm_compute ].

Lemma ace_flags_table : table_ok sddl_ace_flags.
Proof. solve_table. Qed.

Lemma mask_table : table_ok ace_access_mask.
Proof. solve_table. Qed.

Lemma acl_flags_table : table_ok sddl_acl_flags.
Proof. solve_table. Qed.

Lemma names_length (map l : flag_map) : codes_ok map -> l ⊆ map -> (length l <= length (names_of l))%nat.
Proof.
  intros Hc Hl. unfold names_of. induction l as [|e l IH]; simpl; [lia|].
  unfold codes_ok in Hc. rewrite Forall_forall in Hc. destruct (Hc e) as [Hu _]; [apply Hl; left|].
  rewrite length_app. specialize (IH ltac:(by intros x Hx; apply Hl; right)).
  destruct e as [[|c name] f]; [done|]. simpl. lia.
Qed.

(** Codes are read back up to the next character that is not a capital. *)
Lemma map_flags_read (map l : flag_map) (rest : list Z) :
  codes_ok map -> l ⊆ map -> isupper (peek rest) = false ->
  sddl_map_flags map (names_of l ++ rest) = Some (flags_of l, length (names_of l)).
Proof.
  intros Hc Hl Hr. unfold sddl_map_flags. rewrite map_flags_names by
    (try done; rewrite length_app; pose proof (names_length map l Hc Hl); lia).
  by rewrite Z.lor_0_l.
Qed.

(** ** The loops have enough rounds *)

Definition named (map : flag_map) : Prop := Forall (fun e => e.1 <> []) map.

Lemma map_flags_fuel (map : flag_map) (str : list Z) (flags : Z) (len fuel : nat) :
  named map -> (length str < fuel)%nat ->
  map_flags_loop fuel map str flags len = map_flags_loop (S (length str)) map str flags len.
Proof.
  intros Hn. revert str flags len. induction fuel as [fuel IH] using lt_wf_ind.
  intros str flags len Hf. destruct fuel as [|fuel]; [lia|]. cbn [map_flags_loop].
  destruct (isupper (peek str)) eqn:Hu; [|done].
  destruct (List.find _ map) as [[name flag]|] eqn:Ef; [|done].
  apply List.find_some in Ef as [Hin _]. unfold named in Hn. rewrite List.Forall_forall in Hn.
  specialize (Hn _ Hin). simpl in Hn.
  assert (length (drop (length name) str) < length str)%nat as Hlt.
  { rewrite length_drop. destruct name; [done|]. destruct str; [done|]. simpl. lia. }
  rewrite IH by lia. symmetry. apply IH; lia.
Qed.

(** The equation of the [while] loop of [sddl_map_flags]. *)
Lemma map_flags_loop_eq (map : flag_map) (str : list Z) (flags : Z) (len : nat) :
  named map ->
  map_flags_loop (S (length str)) map str flags len =
  if isupper (peek str) then
    match List.find (fun e => starts_with e.1 str) map with
    | None => None
    | Some (name, flag) =>
        map_flags_loop (S (length (drop (length name) str))) map (drop (length name) str)
          (Z.lor flags flag) (len + length name)
    end
  else Some (flags, len).
Proof.
  intros Hn. cbn [map_flags_loop]. destruct (isupper (peek str)) eqn:Hu; [|done].
  destruct (List.find _ map) as [[name flag]|] eqn:Ef; [|done]. apply map_flags_fuel; [done|].
  apply List.find_some in Ef as [Hin _]. unfold named in Hn. rewrite List.Forall_forall in Hn.
  specialize (Hn _ Hin). rewrite length_drop. destruct name; [done|]. destruct str; [done|]. simpl. lia.
Qed.

Lemma decode_sid_shorter (junk : list Z) (d : option dom_sid) (s : list Z) (sid : dom_sid) (r : list Z) :
  sddl_decode_sid junk s d = Some (sid, r) -> (length r <= length s)%nat.
Proof.
  unfold sddl_decode_sid. case_if.
  { destruct (dom_sid_parse _); [|done]. intros [= _ <-]. rewrite length_drop. lia. }
  destruct (List.find _ _) as [[? [?|?]]|]; [| |done].
  - destruct (dom_sid_parse _); [|done]. intros [= _ <-]. rewrite length_drop. lia.
  - destruct (_ ≫= _); [|done]. intros [= _ <-]. rewrite length_drop. lia.
Qed.

Section Fuel.
  Context (from_ndr : list Z -> NTSTATUS + GUID) (junk : list Z) (d : option dom_sid).

Lemma decode_aces_fuel (fuel : nat) (s : list Z) (l : list security_ace) :
  (length s < fuel)%nat ->
  decode_aces from_ndr junk d fuel s l = decode_aces from_ndr junk d (S (length s)) s l.
Proof.
  revert s l. induction fuel as [fuel IH] using lt_wf_ind. intros s l Hf.
  destruct fuel as [|fuel]; [lia|]. cbn [decode_aces]. destruct (peek s =? lparen) eqn:Hp; [|done].
  case_if; [done|]. destruct (sddl_decode_ace _ _ _ _) as [ace|]; [|done].
  assert (length (drop (rparen_span (tail s) + 2) s) < length s)%nat as Hlt.
  { rewrite length_drop. destruct s; [done|]. simpl. lia. }
  rewrite IH by lia. symmetry. apply IH; lia.
Qed.

Lemma decode_aces_shorter (fuel : nat) (s : list Z) (l l' : list security_ace) (r : list Z) :
  decode_aces from_ndr junk d fuel s l = Some (l', r) -> (length r <= length s)%nat.
Proof.
  revert s l. induction fuel as [|fuel IH]; intros s l; simpl; [done|].
  case_if; [|by intros [= _ <-]]. case_if; [done|]. destruct (sddl_decode_ace _ _ _ _); [|done].
  intros H. apply IH in H. rewrite length_drop in H. lia.
Qed.

Lemma decode_section_shorter (c : Z) (s : list Z) (sd sd' : security_descriptor) (r : list Z) :
  decode_section from_ndr junk d c s sd = Some (sd', r) -> (length r <= length s)%nat.
Proof.
  assert (forall a f r', sddl_decode_acl from_ndr junk d s = Some (a, f, r') -> (length r' <= length s)%nat) as Hacl.
  { intros a f r'. unfold sddl_decode_acl. case_if; [by intros [= _ _ <-]|].
    destruct (sddl_map_flags _ _) as [[? ?]|]; cbn [mbind option_bind]; [|done].
    destruct (decode_aces _ _ _ _ _ _) as [[? ?]|] eqn:E; cbn [mbind option_bind]; [|done]. intros [= _ _ <-].
    apply decode_aces_shorter in E. rewrite length_drop in E. lia. }
  unfold decode_section. repeat (case_if; try done).
  - destruct (sddl_decode_acl _ _ _ _) as [[[? ?] ?]|]; cbn [mbind option_bind]; [|done]. intros [= _ <-]. by eapply Hacl.
  - destruct (sddl_decode_acl _ _ _ _) as [[[? ?] ?]|]; cbn [mbind option_bind]; [|done]. intros [= _ <-]. by eapply Hacl.
  - destruct (sddl_decode_sid _ _ _) as [[? ?]|] eqn:E; cbn [mbind option_bind]; [|done]. intros [= _ <-]. by eapply decode_sid_shorter.
  - destruct (sddl_decode_sid _ _ _) as [[? ?]|] eqn:E; cbn [mbind option_bind]; [|done]. intros [= _ <-]. by eapply decode_sid_shorter.
  - by intros [= _ <-].
Qed.

Lemma decode_loop_fuel (fuel : nat) (s : list Z) (sd : security_descriptor) :
  (length s < fuel)%nat ->
  decode_loop from_ndr junk d fuel s sd = decode_loop from_ndr junk d (S (length s)) s sd.
Proof.
  revert s sd. induction fuel as [fuel IH] using lt_wf_ind. intros s sd Hf.
  destruct fuel as [|fuel]; [lia|]. cbn [decode_loop]. destruct s as [|c s]; [done|].
  case_if; [done|]. destruct (decode_section _ _ _ _ _ _) as [[sd' r]|] eqn:E; cbn [mbind option_bind]; [|done].
  apply decode_section_shorter in E. rewrite length_drop in E. cbn [length] in E, Hf |- *.
  rewrite IH by lia. symmetry. apply IH; lia.
Qed.
End Fuel.

(** ** SIDs *)

Definition sid_char (c : Z) : bool := (c =? dash) || isdigit c.

(** A SID that is written in digits: the authority is below the value from
    which on it is printed in hexadecimal. *)
Definition sid_ok (s : dom_sid) : Prop := sid_wf s /\ id_auth_value (id_auth s) < SID_UINT32_MAX.

Definition domain_ok (d : option dom_sid) : Prop := forall d', d = Some d' -> sid_wf d'.

Lemma digit_10 (c : Z) : is_Some (base_digit 10 c) -> isdigit c = true.
Proof.
  intros [v H]. unfold base_digit, digit_value in H. destruct (isdigit c); [done|].
  repeat case_if; boolify; simplify_eq; lia.
Qed.

Lemma print_dec_chars (n : Z) : in_w 64 n -> Forall (fun c => isdigit c = true) (print_dec n).
Proof.
  intros Hn. unfold print_dec. destruct (print_number_digits 19 10 n) as [H _]; [lia|unfold in_w in Hn; simpl; lia|].
  eapply Forall_impl; [exact H|]. apply digit_10.
Qed.

Lemma digits_sid_chars (s : list Z) :
  Forall (fun c => isdigit c = true) s -> Forall (fun c => sid_char c = true) s.
Proof. intros H. eapply Forall_impl; [exact H|]. intros c Hc. unfold sid_char. rewrite Hc. apply orb_true_r. Qed.

Lemma sid_text_chars (s : dom_sid) :
  sid_ok s -> exists t, sid_text s = c_string "S-" ++ t /\ Forall (fun c => sid_char c = true) t.
Proof.
  intros [Hwf Ha]. unfold sid_text. eexists. split; [reflexivity|].
  pose proof (id_auth_value_range _ (wf_auth_len _ Hwf) (wf_auth _ Hwf)) as Hia. unfold in_w in Hia.
  pose proof (wf_rev _ Hwf) as Hr. unfold in_w in Hr.
  assert (forall n, in_w 64 n -> Forall (fun c => sid_char c = true) (print_dec n)) as Hp
    by (intros n Hn; by apply digits_sid_chars, print_dec_chars).
  repeat (apply Forall_app; split).
  - apply Hp. unfold in_w. lia.
  - by repeat constructor.
  - unfold authority_text. rewrite (proj2 (Z.leb_gt _ _)) by done. apply Hp. unfold in_w. lia.
  - pose proof (used_range _ Hwf) as Hu. unfold used_auths in Hu.
    induction Hu as [|a l Hin _ IH]; simpl; [done|]. constructor; [done|]. apply Forall_app. split; [|done].
    apply Hp. unfold in_w in *. lia.
Qed.

Lemma sid_span_app (t rest : list Z) :
  Forall (fun c => sid_char c = true) t -> sid_char (peek rest) = false -> sid_span (t ++ rest) = length t.
Proof.
  intros Ht Hr. induction Ht as [|c t Hc _ IH]; simpl.
  - destruct rest as [|c rest]; [done|]. unfold sid_char in Hr. simpl in *. by rewrite Hr.
  - unfold sid_char in Hc. by rewrite Hc, IH.
Qed.

(** Each code is found where it stands, and is not taken for a numeric SID. *)
Definition code_found (code : list Z) (v : sid_code) : Prop :=
  forall rest, starts_with (c_string "S-") (code ++ rest) = false /\
    List.find (fun e => starts_with e.1 (code ++ rest)) sid_codes = Some (code, v) /\
    drop 2 (code ++ rest) = rest.

Lemma fixed_codes_found : Forall (fun e => code_found e.1 (Fixed_sid e.2)) fixed_codes.
Proof. repeat (apply Forall_cons; split); try apply Forall_nil_2; (intros rest; split_and!; reflexivity). Qed.

Lemma rid_codes_found : Forall (fun e => code_found e.1 (Domain_rid e.2)) rid_codes.
Proof. repeat (apply Forall_cons; split); try apply Forall_nil_2; (intros rest; split_and!; reflexivity). Qed.

Lemma rid_codes_range : Forall (fun e => in_w 32 e.2) rid_codes.
Proof. by repeat (apply Forall_cons; split); try apply Forall_nil_2; unfold in_w; cbn. Qed.

Lemma parse_own_text (s : dom_sid) :
  sid_wf s -> exists s', dom_sid_parse (sid_text s) = Some s' /\ sid_wf s' /\ clear_unused s' = clear_unused s.
Proof.
  intros Hwf. pose proof (parse_text s [] Hwf) as Hp. rewrite app_nil_r in Hp.
  specialize (Hp ltac:(split; [by repeat split|done])). exists (clear_unused s). unfold dom_sid_parse.
  destruct (parse_endp_ok _ _ Hp) as [Hw Hc]. by rewrite Hp.
Qed.

(** A SID in the domain is made again from the domain and its last RID. *)
Lemma domain_rid_back (junk : list Z) (d s : dom_sid) :
  junk_ok junk -> sid_wf d -> sid_wf s -> in_domain d s = true ->
  in_w 32 (nth (Z.to_nat (num_auths s - 1)) (sub_auths s) 0) ->
  exists s', dom_sid_add_rid junk d (nth (Z.to_nat (num_auths s - 1)) (sub_auths s) 0) = Some s' /\
    sid_wf s' /\ clear_unused s' = clear_unused s.
Proof.
  intros Hj Hd Hs Hin Hr. apply in_domain_spec in Hin as (H2 & Hn & Hu & Hrev & Hid); [|done|done].
  destruct (dup_wf junk d Hj Hd) as [Hdup Hdu]. unfold dom_sid_add_rid. pose proof (wf_num _ Hs) as Hns.
  set (rid := nth _ _ 0) in *.
  destruct (sid_append_rid (dom_sid_dup junk d) rid) as [full|] eqn:E.
  2: { unfold sid_append_rid in E. simpl in E. pose proof (wf_num _ Hd).
       rewrite (proj2 (Z.leb_le _ _)), (proj2 (Z.ltb_lt _ _)) in E by lia. done. }
  destruct (append_wf _ _ _ Hdup Hr E) as (Hfw & Hfu & Hfn & Hfr & Hfi). simpl in Hfn, Hfr, Hfi.
  exists full. split_and!; [done|done|]. apply clear_unused_eq. split_and!; [congruence|lia|congruence|].
  rewrite Hfu, Hdu, Hu, Hn. unfold used_auths.
  pose proof (num_fits _ Hs). destruct (lookup_lt_is_Some_2 (sub_auths s) (Z.to_nat (num_auths s - 1)) ltac:(lia)) as [x Hx].
  unfold rid. rewrite (nth_lookup_Some _ _ _ _ Hx), <- (take_S_r _ _ _ Hx). f_equal. lia.
Qed.

(** A SID is read back from what is written for it. *)
Lemma sid_read (junk : list Z) (d : option dom_sid) (s : dom_sid) (rest : list Z) :
  junk_ok junk -> domain_ok d -> sid_ok s -> sid_char (peek rest) = false ->
  exists s', sddl_decode_sid junk (sddl_encode_sid s d ++ rest) d = Some (s', rest) /\
    sid_wf s' /\ clear_unused s' = clear_unused s.
Proof.
  intros Hj Hd Hs Hr. pose proof Hs as [Hwf _]. destruct (string_is_text s Hwf) as [Hstr _].
  destruct (parse_own_text s Hwf) as (s' & Hp & Hw & Hc).
  assert (exists s', sddl_decode_sid junk (sid_text s ++ rest) d = Some (s', rest) /\
            sid_wf s' /\ clear_unused s' = clear_unused s) as Hplain.
  { destruct (sid_text_chars s Hs) as (t & Ht & Htc). exists s'. split; [|done].
    unfold sddl_decode_sid. rewrite Ht in Hp |- *. rewrite <- app_assoc.
    change (starts_with (c_string "S-") (c_string "S-" ++ t ++ rest)) with true.
    change (drop 2 (c_string "S-" ++ t ++ rest)) with (t ++ rest). rewrite sid_span_app by done.
    rewrite app_assoc. replace (length t + 2)%nat with (length (c_string "S-" ++ t)) by (rewrite length_app; simpl; lia).
    by rewrite take_app_length, drop_app_length, Hp. }
  unfold sddl_encode_sid. rewrite Hstr.
  destruct (List.find _ fixed_codes) as [[code str]|] eqn:Ef.
  { apply List.find_some in Ef as [Hin E]. apply bool_decide_eq_true in E. simpl in E.
    pose proof fixed_codes_found as Hf. rewrite List.Forall_forall in Hf.
    destruct (Hf _ Hin rest) as (H1 & H2 & H3). cbn [fst snd] in H1, H2, H3.
    exists s'. split; [|done]. unfold sddl_decode_sid. by rewrite H1, H2, <- E, Hp, H3. }
  destruct (dom_sid_in_domain d (Some s)) eqn:Ed; [|done].
  destruct (List.find _ rid_codes) as [[code rid]|] eqn:Er; [|done].
  apply List.find_some in Er as [Hin E]. apply Z.eqb_eq in E. simpl in E.
  pose proof rid_codes_found as Hf. pose proof rid_codes_range as Hg. rewrite List.Forall_forall in Hf, Hg.
  destruct (Hf _ Hin rest) as (H1 & H2 & H3). specialize (Hg _ Hin). cbn [fst snd] in H1, H2, H3, Hg.
  destruct d as [d|]; [|done]. simpl in Ed.
  destruct (domain_rid_back junk d s Hj (Hd d eq_refl) Hwf Ed) as (s2 & Ha & Hw2 & Hc2); [by rewrite E|].
  exists s2. split; [|done]. unfold sddl_decode_sid. rewrite H1, H2, H3. rewrite E in Ha. cbn. by rewrite Ha.
Qed.

(** ** ACEs *)

(** Characters that end no token. *)
Definition text_char (c : Z) : bool := negb (c =? semicolon) && negb (c =? rparen).
Definition is_text (s : list Z) : Prop := Forall (fun c => text_char c = true) s.

Lemma hex_is_text (s : list Z) : Forall (fun c => is_Some (base_digit 16 c)) s -> is_text s.
Proof.
  intros H. eapply Forall_impl; [exact H|]. intros c [v Hc]. unfold text_char, semicolon, rparen.
  unfold base_digit, digit_value, isdigit in Hc.
  destruct (Z.eqb_spec c 0x3B) as [->|]; [done|]. by destruct (Z.eqb_spec c 0x29) as [->|].
Qed.

Lemma names_text (map l : flag_map) : l ⊆ map -> Forall (fun e => is_text e.1) map -> is_text (names_of l).
Proof.
  intros Hl Hm. rewrite Forall_forall in Hm. unfold names_of. induction l as [|e l IH]; [by apply Forall_nil_2|].
  apply Forall_app. split; [apply Hm, Hl; left|]. apply IH. by intros x Hx; apply Hl; right.
Qed.

Lemma guid_text (g : GUID) : guid_wf g -> is_text (GUID_string g).
Proof.
  intros Hg. rewrite GUID_string_print by done. destruct Hg as [Hl Hm Hh H1 H2 Hn Hb]. unfold in_w in *.
  assert (forall w n, (1 <= w <= 16)%nat -> 0 <= n < 16 ^ Z.of_nat w -> is_text (print_hex_pad w n)) as Hp
    by (intros w n Hw Hr; apply hex_is_text, (print_hex_pad_spec w n Hw Hr)).
  assert (is_text [dash]) as Hdash by (apply Forall_singleton; done).
  unfold guid_print, is_text. rewrite !Forall_app. split_and!; try done; try (apply Hp; lia).
  rewrite take_ge by lia. clear Hn. induction Hb as [|b l Hb _ IH]; simpl; [by apply Forall_nil_2|].
  apply Forall_app. split; [|done]. apply Hp; [lia|]. unfold in_w in Hb. lia.
Qed.

Lemma sid_is_text (s : dom_sid) (d : option dom_sid) : sid_ok s -> is_text (sddl_encode_sid s d).
Proof.
  intros Hs. destruct (string_is_text s (proj1 Hs)) as [Hstr _].
  assert (is_text (sid_text s)) as Ht.
  { destruct (sid_text_chars s Hs) as (t & -> & Ht). apply Forall_app. split; [by repeat constructor|].
    eapply Forall_impl; [exact Ht|]. intros c Hc. unfold sid_char, isdigit, dash in Hc. unfold text_char, semicolon, rparen.
    destruct (Z.eqb_spec c 0x3B) as [->|]; [done|]. by destruct (Z.eqb_spec c 0x29) as [->|]. }
  unfold sddl_encode_sid. rewrite Hstr.
  destruct (List.find _ fixed_codes) as [[code str]|] eqn:Ef.
  { apply List.find_some in Ef as [Hin _].
    assert (Forall (fun e : list Z * list Z => is_text e.1) fixed_codes) as Hf
      by (repeat (apply Forall_cons; split); try apply Forall_nil_2; by repeat constructor).
    rewrite List.Forall_forall in Hf. by apply (Hf _ Hin). }
  destruct (dom_sid_in_domain d (Some s)); [|done].
  destruct (List.find _ rid_codes) as [[code rid]|] eqn:Er; [|done].
  apply List.find_some in Er as [Hin _].
  assert (Forall (fun e : list Z * Z => is_text e.1) rid_codes) as Hf
    by (repeat (apply Forall_cons; split); try apply Forall_nil_2; by repeat constructor).
  rewrite List.Forall_forall in Hf. by apply (Hf _ Hin).
Qed.

Lemma cut_text (t rest : list Z) : is_text t -> cut_at semicolon (t ++ semicolon :: rest) = Some (t, rest).
Proof.
  induction 1 as [|c t Hc _ IH]; [done|]. cbn [app cut_at]. unfold text_char in Hc. boolify.
  rewrite (proj2 (Z.eqb_neq _ _)) by done. by rewrite IH.
Qed.

Lemma rparen_text (t rest : list Z) :
  Forall (fun c => c <> rparen) t -> rparen_span (t ++ rparen :: rest) = length t.
Proof. induction 1 as [|c t Hc _ IH]; [done|]. simpl. by rewrite (proj2 (Z.eqb_neq _ _)), IH. Qed.

(** The types that have a code of their own. *)
Definition coded_type (t : security_ace_type) : bool :=
  match t with
  | SEC_ACE_TYPE_ALLOWED_COMPOUND | SEC_ACE_TYPE_OTHER _ => false
  | _ => true
  end.

Lemma type_read (t : security_ace_type) :
  coded_type t = true ->
  exists s n, sddl_flags_to_string sddl_ace_types (ace_type_value t) true = Some s /\ is_text s /\
    sddl_map_flags sddl_ace_types s = Some (ace_type_value t, n) /\ ace_type_of (u8 (ace_type_value t)) = t.
Proof. destruct t; intros H; try done; eexists _, _; (split; [reflexivity|]; split; [by repeat constructor|done]). Qed.

Lemma flags_read (f : Z) :
  Z.land f 0xDF = f ->
  exists s n, sddl_flags_to_string sddl_ace_flags f true = Some s /\ is_text s /\
    sddl_map_flags sddl_ace_flags s = Some (f, n) /\ u8 f = f.
Proof.
  intros Hf. destruct ace_flags_table as [Hc Hb Hd].
  pose proof (flags_to_string_spec sddl_ace_flags f true Hb Hd) as Hs.
  destruct (sddl_flags_to_string sddl_ace_flags f true) as [s|]; [|by destruct Hs as [_ []]].
  destruct Hs as (l & Hl & -> & _ & Hv). specialize (Hv eq_refl). eexists _, _. split; [done|]. split.
  { apply (names_text sddl_ace_flags); [done|].
    repeat (apply Forall_cons; split); try apply Forall_nil_2; by repeat constructor. }
  pose proof (map_flags_read sddl_ace_flags l [] Hc Hl eq_refl) as Hr. rewrite app_nil_r, Hv in Hr.
  split; [exact Hr|]. unfold u8. apply Z.mod_small. rewrite <- Hf.
  change 0xDF with (Z.land 0xDF (Z.ones 8)). rewrite Z.land_assoc, Z.land_ones by lia. apply Z.mod_pos_bound. lia.
Qed.

(** What is written for an access mask. *)
Definition mask_text (m : Z) : list Z :=
  match sddl_flags_to_string ace_access_mask m true with
  | Some s => s
  | None => c_string "0x" ++ print_hex_pad 8 m
  end.

Lemma mask_read (m : Z) : in_w 32 m -> is_text (mask_text m) /\ decode_mask (mask_text m) = Some m.
Proof.
  intros Hm. destruct mask_table as [Hc Hb Hd]. unfold mask_text.
  pose proof (flags_to_string_spec ace_access_mask m true Hb Hd) as Hs.
  destruct (sddl_flags_to_string ace_access_mask m true) as [s|].
  - destruct Hs as (l & Hl & -> & _ & Hv). specialize (Hv eq_refl). split.
    { apply (names_text ace_access_mask); [done|].
      repeat (apply Forall_cons; split); try apply Forall_nil_2; by repeat constructor. }
    unfold decode_mask. pose proof (map_flags_read ace_access_mask l [] Hc Hl eq_refl) as Hr.
    rewrite app_nil_r, Hv in Hr. rewrite Hr. case_if; [exfalso|done].
    destruct l as [|e l]; [done|]. unfold codes_ok in Hc. rewrite Forall_forall in Hc.
    destruct (Hc e) as [Hu _]; [apply Hl; left|]. destruct e as [[|c n] f]; [done|]. cbn in Heqb, Hu.
    apply andb_true_iff in Heqb as [Hx _]. destruct c as [|p|p]; try done. cbn in Hx.
    apply Pos.eqb_eq in Hx. by subst.
  - destruct (print_hex_pad_spec 8 m ltac:(lia)) as (Hl & Hx & Hv); [unfold in_w in Hm; lia|]. split.
    { apply Forall_app. split; [by repeat constructor|by apply hex_is_text]. }
    unfold decode_mask. change (starts_with (c_string "0x") (c_string "0x" ++ print_hex_pad 8 m)) with true.
    unfold strtol_0x. change (drop 2 (c_string "0x" ++ print_hex_pad 8 m)) with (print_hex_pad 8 m).
    rewrite Hv. unfold in_w, LONG_MAX, u32 in *. rewrite Z.min_l, Z.mod_small by lia. done.
Qed.

(** A GUID is there only in an object ACE. *)
Definition guid_ok (t : security_ace_type) (g : option GUID) : Prop :=
  match g with
  | Some g => sec_ace_object t = true /\ guid_wf g
  | None => True
  end.

(** The ACEs that the language can express. *)
Record ace_ok (a : security_ace) : Prop := {
  ok_type : coded_type (ace_type a) = true;
  ok_flags : Z.land (ace_flags a) 0xDF = ace_flags a;
  ok_mask : in_w 32 (access_mask a);
  ok_object : guid_ok (ace_type a) (object_type a);
  ok_inherited : guid_ok (ace_type a) (inherited_object_type a);
  ok_trustee : sid_ok (trustee a)
}.

(** The ACE without what its trustee holds past the sub-authorities in use. *)
Definition ace_form (a : security_ace) : security_ace := set_trustee a (clear_unused (trustee a)).

(** [a'] was read for [a]. *)
Definition ace_read (a' a : security_ace) : Prop := ace_form a' = ace_form a /\ sid_wf (trustee a').

Section Read.
  Context (from_ndr : list Z -> NTSTATUS + GUID) (junk : list Z) (d : option dom_sid).
  Hypothesis (Hj : junk_ok junk) (Hd : domain_ok d).

Lemma guid_read (t : security_ace_type) (g : option GUID) :
  guid_ok t g -> is_text (encode_guid t g) /\ decode_guid from_ndr (encode_guid t g) = Some g.
Proof.
  destruct g as [g|]; simpl; [|by split; [apply Forall_nil_2|]]. intros [-> Hg]. split; [by apply guid_text|].
  pose proof (proj1 (GUID_text_roundtrip from_ndr g Hg)) as Hr. unfold decode_guid. rewrite Hr.
  pose proof (guid_print_length g Hg) as Hl. rewrite <- GUID_string_print in Hl by done.
  by destruct (GUID_string g).
Qed.

Lemma no_rparen (s : list Z) : is_text s -> Forall (fun c => c <> rparen) s.
Proof. intros H. eapply Forall_impl; [exact H|]. intros c Hc. unfold text_char in Hc. by boolify. Qed.

Lemma ace_roundtrip (a : security_ace) :
  ace_ok a ->
  exists s a', sddl_encode_ace a d = Some s /\ Forall (fun c => c <> rparen) s /\
    sddl_decode_ace from_ndr junk d s = Some a' /\ ace_read a' a.
Proof.
  intros [Ht Hf Hm Ho Hi Hs]. destruct (type_read _ Ht) as (st & nt & Et & Tt & Rt & Vt).
  destruct (flags_read _ Hf) as (sf & nf & Ef & Tf & Rf & Vf). destruct (mask_read _ Hm) as [Tm Rm].
  destruct (guid_read _ _ Ho) as [To Ro]. destruct (guid_read _ _ Hi) as [Ti Ri].
  destruct (sid_read junk d (trustee a) [] Hj Hd Hs eq_refl) as (s' & Rs & Hw & Hc).
  pose proof (sid_is_text (trustee a) d Hs) as Ts. rewrite app_nil_r in Rs.
  unfold sddl_encode_ace. rewrite Et, Ef. cbn [mbind option_bind].
  change (match sddl_flags_to_string ace_access_mask (access_mask a) true with Some s => s
          | None => c_string "0x" ++ print_hex_pad 8 (access_mask a) end) with (mask_text (access_mask a)).
  eexists _, (Security_ace (ace_type a) (ace_flags a) (access_mask a) (object_type a)
                (inherited_object_type a) s'). split; [done|]. split_and!.
  - rewrite !Forall_app. split_and!; try (by apply no_rparen); by apply Forall_singleton.
  - unfold sddl_decode_ace. cbn [app tokens]. rewrite !cut_text by done. unfold prod_map, id. cbn [fmap option_fmap option_map fst snd].
    by rewrite Rt, Rf, Rm, Ro, Ri, Rs; cbn [mbind option_bind]; rewrite Vt, Vf.
  - split; [|done]. unfold ace_form, set_trustee. cbn [trustee]. by rewrite Hc.
Qed.

Lemma aces_roundtrip (l : list security_ace) :
  Forall ace_ok l ->
  exists s l', encode_aces l d = Some s /\ Forall2 ace_read l' l /\ (s = [] <-> l = []) /\
    peek s = (if s is [] then 0 else lparen) /\
    forall rest acc, peek rest <> lparen ->
      decode_aces from_ndr junk d (S (length (s ++ rest))) (s ++ rest) acc = Some (acc ++ l', rest).
Proof.
  induction 1 as [|a l Ha Hl IH].
  { exists [], []. split_and!; try done. intros rest acc Hr. cbn.
    by rewrite (proj2 (Z.eqb_neq _ _)), app_nil_r. }
  destruct IH as (s & l' & Es & Hl' & _ & _ & Hdec). destruct (ace_roundtrip a Ha) as (t & a' & Et & Tt & Dt & Ha').
  cbn [encode_aces]. rewrite Et, Es. cbn [mbind option_bind].
  eexists _, (a' :: l'). split; [done|]. split_and!; [by constructor|done|done|].
  intros rest acc Hr. cbn [app]. rewrite <- app_assoc. cbn [app].
  remember (length (lparen :: t ++ rparen :: s ++ rest)) as n eqn:En. cbn [decode_aces].
  change (peek (lparen :: ?x)) with lparen. change (tail (lparen :: ?x)) with x.
  rewrite Z.eqb_refl, rparen_text by done.
  rewrite Nat.add_1_r. cbn [nth]. rewrite app_nth2, Nat.sub_diag by lia. cbn [nth]. rewrite Z.eqb_refl. cbn [negb].
  rewrite take_app_length, Dt. replace (length t + 2)%nat with (S (length (t ++ [rparen]))) by (rewrite length_app; simpl; lia).
  change (drop (S ?k) (lparen :: ?x)) with (drop k x).
  replace (t ++ rparen :: s ++ rest) with ((t ++ [rparen]) ++ s ++ rest) by (by rewrite <- app_assoc).
  rewrite drop_app_length.
  rewrite decode_aces_fuel by (subst n; cbn [length]; rewrite !length_app; cbn [length]; rewrite length_app; lia).
  rewrite Hdec by done. by rewrite <- app_assoc.
Qed.
End Read.

(** ** ACLs *)

(** The flags of a DACL that are written; those of a SACL are one bit higher. *)
Definition ACL_FLAGS : Z :=
  Z.lor SEC_DESC_DACL_PROTECTED (Z.lor SEC_DESC_DACL_AUTO_INHERIT_REQ SEC_DESC_DACL_AUTO_INHERITED).

Lemma flags_of_zero (map l : flag_map) : one_bits map -> l ⊆ map -> flags_of l = 0 -> l = [].
Proof.
  intros Hb Hl. destruct l as [|e l]; [done|]. unfold flags_of. simpl. intros H.
  apply Z.lor_eq_0_iff in H as [H _]. unfold one_bits in Hb. rewrite Forall_forall in Hb.
  destruct (Hb e) as (k & Hk & E); [apply Hl; left|]. pose proof (Z.pow_pos_nonneg 2 k). lia.
Qed.

(** What follows an ACL: nothing, or the section of the SACL. *)
Definition section_end (rest : list Z) : Prop := rest = [] \/ exists r, rest = 0x53 :: colon :: r.

(** Flags before the ACEs are not taken for the start of a section. *)
Lemma acl_flags_no_section (l : flag_map) (tl : list Z) :
  l ⊆ sddl_acl_flags -> isupper (peek tl) = false -> peek tl <> colon ->
  isupper (peek (names_of l ++ tl)) && (nth 1 (names_of l ++ tl) 0 =? colon) = false.
Proof.
  intros Hl Hu Hc. destruct l as [|e l]; [cbn [names_of List.map concat app]; by rewrite Hu|].
  assert (peek (names_of l ++ tl) <> colon) as Hn.
  { destruct l as [|e2 l]; [done|].
    assert (e2 ∈ sddl_acl_flags) as He by (apply Hl; right; left).
    apply list_elem_of_In in He. destruct He as [<-|[<-|[<-|[]]]]; done. }
  assert (e ∈ sddl_acl_flags) as He by (apply Hl; left). apply list_elem_of_In in He.
  unfold names_of in *. cbn [List.map concat]. rewrite <- app_assoc.
  apply andb_false_iff. right. apply Z.eqb_neq.
  destruct He as [<-|[<-|[<-|[]]]]; try done. cbn. by destruct (_ ++ tl).
Qed.

Section ReadAcl.
  Context (from_ndr : list Z -> NTSTATUS + GUID) (junk : list Z) (d : option dom_sid).
  Hypothesis (Hj : junk_ok junk) (Hd : domain_ok d).

(** An ACL is read back up to what follows it; a SACL must not follow flags
    without ACEs. *)
Lemma acl_roundtrip (acl : security_acl) (flags : Z) (rest : list Z) :
  Forall ace_ok (aces acl) -> section_end rest ->
  (rest <> [] -> Z.land flags ACL_FLAGS <> 0 -> aces acl <> []) ->
  exists s l, sddl_encode_acl acl flags d = Some s /\ Forall2 ace_read l (aces acl) /\
    sddl_decode_acl from_ndr junk d (s ++ rest) =
    Some (Security_acl SECURITY_ACL_REVISION_ADS l, Z.land flags ACL_FLAGS, rest).
Proof.
  intros Ha He Hn. destruct acl_flags_table as [Hc Hb Hdup].
  pose proof (flags_to_string_spec sddl_acl_flags flags false Hb Hdup) as Hs. unfold sddl_encode_acl.
  destruct (sddl_flags_to_string sddl_acl_flags flags false) as [s|]; [|by destruct Hs].
  destruct Hs as (l & Hl & -> & Hv & _). change (flags_of sddl_acl_flags) with ACL_FLAGS in Hv.
  destruct (aces_roundtrip from_ndr junk d Hj Hd (aces acl) Ha) as (t & l' & Et & Hl' & Hne & Hpk & Hdec).
  rewrite Et. cbn [mbind option_bind]. exists (names_of l ++ t), l'. split_and!; [done|done|].
  assert (peek rest <> lparen) as Hrp by (by destruct He as [->|[r ->]]).
  unfold sddl_decode_acl. rewrite <- app_assoc.
  destruct (decide (l = [] /\ t = [] /\ rest <> [])) as [(-> & -> & Hr)|Hcase].
  { destruct He as [->|[r ->]]; [done|]. cbn [names_of List.map concat app].
    change (isupper (peek (83 :: colon :: r)) && (nth 1 (83 :: colon :: r) 0 =? colon)) with true.
    rewrite <- Hv. destruct (aces acl); [|destruct Hne as [Hne _]; by specialize (Hne eq_refl)].
    by apply Forall2_nil_inv_r in Hl' as ->. }
  assert (peek (t ++ rest) = 0 \/ peek (t ++ rest) = lparen) as Ht.
  { destruct t as [|c t]; [left|by right]. destruct (decide (rest = [])) as [->|Hr]; [done|].
    exfalso. destruct (decide (l = [])) as [->|Hln]; [by apply Hcase|].
    apply (Hn Hr); [|by apply Hne]. rewrite <- Hv. intros H0. by apply Hln, (flags_of_zero sddl_acl_flags). }
  assert (isupper (peek (t ++ rest)) = false) as Hu by (by destruct Ht as [-> | ->]).
  rewrite acl_flags_no_section by (try done; by destruct Ht as [-> | ->]).
  rewrite map_flags_read by done. cbn [mbind option_bind]. rewrite drop_app_length, Hdec by done.
  cbn [mbind option_bind app]. by rewrite Hv.
Qed.
End ReadAcl.

(** ** Descriptors *)

(** The lists that are marked as present. *)
Definition marked_dacl (sd : security_descriptor) : option security_acl :=
  if has_bits (sd_type sd) SEC_DESC_DACL_PRESENT then dacl sd else None.
Definition marked_sacl (sd : security_descriptor) : option security_acl :=
  if has_bits (sd_type sd) SEC_DESC_SACL_PRESENT then sacl sd else None.

(** The descriptors that are read back from their text: SIDs and entries that the
    language has a form for, in the lists that are marked as present. The last
    condition is not one of the language: [sddl_decode] refuses the text of a
    DACL with flags and without ACEs before a SACL
    ([flags_before_sacl_refused]). *)
Record sd_ok (sd : security_descriptor) : Prop := {
  ok_owner : forall s, owner_sid sd = Some s -> sid_ok s;
  ok_group : forall s, group_sid sd = Some s -> sid_ok s;
  ok_dacl : forall acl, marked_dacl sd = Some acl -> Forall ace_ok (aces acl);
  ok_sacl : forall acl, marked_sacl sd = Some acl -> Forall ace_ok (aces acl);
  ok_flags_alone : forall acl, marked_sacl sd <> None -> marked_dacl sd = Some acl ->
                     Z.land (sd_type sd) ACL_FLAGS <> 0 -> aces acl <> []
}.

(** The type that is read back. *)
Definition dacl_bits (sd : security_descriptor) : Z :=
  if present (marked_dacl sd) then Z.lor (Z.land (sd_type sd) ACL_FLAGS) SEC_DESC_DACL_PRESENT else 0.
Definition sacl_bits (sd : security_descriptor) : Z :=
  if present (marked_sacl sd)
  then Z.lor (Z.land (sd_type sd) (Z.shiftl ACL_FLAGS 1)) SEC_DESC_SACL_PRESENT else 0.
Definition text_type (sd : security_descriptor) : Z :=
  Z.lor (Z.lor SEC_DESC_SELF_RELATIVE (dacl_bits sd)) (sacl_bits sd).

Definition sid_opt_read (o' o : option dom_sid) : Prop :=
  match o', o with
  | Some s', Some s => sid_wf s' /\ clear_unused s' = clear_unused s
  | None, None => True
  | _, _ => False
  end.

Definition acl_opt_read (o' o : option security_acl) : Prop :=
  match o', o with
  | Some a', Some a => acl_revision a' = SECURITY_ACL_REVISION_ADS /\ Forall2 ace_read (aces a') (aces a)
  | None, None => True
  | _, _ => False
  end.

(** [sd'] is the descriptor that the text of [sd] means. *)
Record sd_read (sd' sd : security_descriptor) : Prop := {
  read_revision : sd_revision sd' = SD_REVISION;
  read_type : sd_type sd' = text_type sd;
  read_owner : sid_opt_read (owner_sid sd') (owner_sid sd);
  read_group : sid_opt_read (group_sid sd') (group_sid sd);
  read_dacl : acl_opt_read (dacl sd') (marked_dacl sd);
  read_sacl : acl_opt_read (sacl sd') (marked_sacl sd)
}.

Section ReadSd.
  Context (from_ndr : list Z -> NTSTATUS + GUID) (junk : list Z) (d : option dom_sid).
  Hypothesis (Hj : junk_ok junk) (Hd : domain_ok d).

Definition read_from (s : list Z) (sd : security_descriptor) : option security_descriptor :=
  decode_loop from_ndr junk d (S (length s)) s sd.

Lemma read_step (c : Z) (s r : list Z) (sd sd' : security_descriptor) :
  decode_section from_ndr junk d c s sd = Some (sd', r) ->
  read_from (c :: colon :: s) sd = read_from r sd'.
Proof.
  intros H. pose proof (decode_section_shorter _ _ _ _ _ _ _ _ H) as Hl. unfold read_from.
  remember (length (c :: colon :: s)) as n eqn:En. cbn [decode_loop].
  change (nth 1 (c :: colon :: s) 0 =? colon) with true.
  change (drop 2 (c :: colon :: s)) with s. cbn [negb]. rewrite H. cbn [mbind option_bind].
  apply decode_loop_fuel. subst n. cbn [length]. lia.
Qed.

Lemma owner_step (o : option dom_sid) (rest : list Z) (sd : security_descriptor) :
  (forall s, o = Some s -> sid_ok s) -> sid_char (peek rest) = false -> owner_sid sd = None ->
  exists o', read_from (encode_sid_section 0x4F o d ++ rest) sd = read_from rest (set_sd_owner sd o') /\
    sid_opt_read o' o.
Proof.
  intros Ho Hr Hn. destruct o as [s|]; cbn [encode_sid_section app].
  - destruct (sid_read junk d s rest Hj Hd (Ho s eq_refl) Hr) as (s' & E & Hw & Hc). exists (Some s').
    split; [|done]. apply read_step. unfold decode_section. cbn [Z.eqb Pos.eqb]. rewrite Hn. cbn [present].
    by rewrite E.
  - exists None. split; [|done]. destruct sd; simpl in *; subst. done.
Qed.

Lemma group_step (o : option dom_sid) (rest : list Z) (sd : security_descriptor) :
  (forall s, o = Some s -> sid_ok s) -> sid_char (peek rest) = false -> group_sid sd = None ->
  exists o', read_from (encode_sid_section 0x47 o d ++ rest) sd = read_from rest (set_sd_group sd o') /\
    sid_opt_read o' o.
Proof.
  intros Ho Hr Hn. destruct o as [s|]; cbn [encode_sid_section app].
  - destruct (sid_read junk d s rest Hj Hd (Ho s eq_refl) Hr) as (s' & E & Hw & Hc). exists (Some s').
    split; [|done]. apply read_step. unfold decode_section. cbn [Z.eqb Pos.eqb]. rewrite Hn. cbn [present].
    by rewrite E.
  - exists None. split; [|done]. destruct sd; simpl in *; subst. done.
Qed.

(** Bits of a type that is a combination of named ones. *)
Lemma u16_subset (x : Z) : Z.land x 0xFFFF = x -> u16 x = x.
Proof. intros <-. unfold u16. rewrite <- Z.land_ones by lia. change (Z.ones 16) with 0xFFFF. by rewrite <- Z.land_assoc, Z.land_diag. Qed.

Lemma dacl_step (sd0 : security_descriptor) (rest : list Z) (sd : security_descriptor) :
  (forall acl, marked_dacl sd0 = Some acl -> Forall ace_ok (aces acl)) -> section_end rest ->
  (forall acl, rest <> [] -> marked_dacl sd0 = Some acl -> Z.land (sd_type sd0) ACL_FLAGS <> 0 -> aces acl <> []) ->
  dacl sd = None -> sd_type sd = SEC_DESC_SELF_RELATIVE ->
  exists s a', encode_section 0x44 (has_bits (sd_type sd0) SEC_DESC_DACL_PRESENT) (dacl sd0) (sd_type sd0) d = Some s /\
    read_from (s ++ rest) sd =
      read_from rest (set_sd_type (set_dacl sd a') (Z.lor SEC_DESC_SELF_RELATIVE (dacl_bits sd0))) /\
    acl_opt_read a' (marked_dacl sd0) /\ (s = [] \/ peek s = 0x44).
Proof.
  unfold dacl_bits, marked_dacl, encode_section. intros Ha He Hf Hn Ht.
  destruct (dacl sd0) as [acl|]; [destruct (has_bits _ _)|].
  - destruct (acl_roundtrip from_ndr junk d Hj Hd acl (sd_type sd0) rest (Ha acl eq_refl) He
      (fun Hr => Hf acl Hr eq_refl)) as (s & l & Es & Hl & Hdec).
    rewrite Es. cbn [mbind option_bind]. exists ([0x44; colon] ++ s), (Some (Security_acl SECURITY_ACL_REVISION_ADS l)).
    split; [done|]. split; [|by split; [|right]].
    cbn [app]. apply read_step. unfold decode_section. cbn [Z.eqb Pos.eqb]. rewrite Hn. cbn [present].
    rewrite Hdec. cbn [mbind option_bind]. do 2 f_equal. rewrite Ht. f_equal. apply u16_subset.
    rewrite !Z.land_lor_distr_l, <- Z.land_assoc. done.
  - exists [], None. split_and!; try done; [|by left]. cbn [app present]. rewrite Z.lor_0_r.
    destruct sd; simpl in *; subst. done.
  - exists [], None. split_and!; try done; [|by case_if|by left]. case_if; cbn [app present]; rewrite Z.lor_0_r;
    destruct sd; simpl in *; subst; done.
Qed.

Lemma sacl_flags_shift (t : Z) :
  u32 (Z.shiftl (Z.land (Z.shiftr t 1) ACL_FLAGS) 1) = Z.land t (Z.shiftl ACL_FLAGS 1).
Proof.
  assert (Z.shiftl (Z.land (Z.shiftr t 1) ACL_FLAGS) 1 = Z.land t (Z.shiftl ACL_FLAGS 1)) as ->.
  { rewrite Z.shiftl_land. apply Z.bits_inj'. intros i Hi. rewrite !Z.land_spec.
    destruct (Z.eq_dec i 0) as [->|Hne]; [by rewrite andb_comm, (andb_comm (Z.testbit t 0))|].
    f_equal. rewrite Z.shiftl_spec, Z.shiftr_spec by lia. f_equal. lia. }
  unfold u32. rewrite <- Z.land_ones, <- Z.land_assoc by lia. done.
Qed.

Lemma sacl_step (sd0 : security_descriptor) (sd : security_descriptor) :
  (forall acl, marked_sacl sd0 = Some acl -> Forall ace_ok (aces acl)) ->
  sacl sd = None -> sd_type sd = Z.lor SEC_DESC_SELF_RELATIVE (dacl_bits sd0) ->
  exists s a', encode_section 0x53 (has_bits (sd_type sd0) SEC_DESC_SACL_PRESENT) (sacl sd0)
                 (Z.shiftr (sd_type sd0) 1) d = Some s /\
    read_from s sd = Some (set_sd_type (set_sacl sd a') (text_type sd0)) /\
    acl_opt_read a' (marked_sacl sd0) /\ section_end s /\ (s <> [] -> marked_sacl sd0 <> None).
Proof.
  unfold text_type, sacl_bits, marked_sacl, encode_section. intros Ha Hn Ht.
  destruct (sacl sd0) as [acl|]; [destruct (has_bits _ _)|].
  - destruct (acl_roundtrip from_ndr junk d Hj Hd acl (Z.shiftr (sd_type sd0) 1) [] (Ha acl eq_refl)
      (or_introl eq_refl) (fun Hr => match Hr eq_refl with end)) as (s & l & Es & Hl & Hdec).
    rewrite Es. cbn [mbind option_bind]. exists ([0x53; colon] ++ s), (Some (Security_acl SECURITY_ACL_REVISION_ADS l)).
    split; [done|]. split; [|split; [done|split; [right; by eexists|done]]].
    rewrite app_nil_r in Hdec. cbn [app]. etrans; [apply (read_step _ _ []);
      unfold decode_section; cbn [Z.eqb Pos.eqb]; rewrite Hn; cbn [present]; rewrite Hdec; reflexivity|].
    unfold read_from. cbn [length decode_loop]. do 2 f_equal. rewrite Ht, sacl_flags_shift.
    cbn [present]. apply u16_subset. unfold dacl_bits.
    destruct (present (marked_dacl sd0)); rewrite !Z.land_lor_distr_l, <- !Z.land_assoc; done.
  - exists [], None. split_and!; try done; [|by left]. unfold read_from. cbn [length decode_loop present].
    rewrite Z.lor_0_r, <- Ht. destruct sd; simpl in *; subst. done.
  - exists [], None. split_and!; try done; [|by case_if|by left]. unfold read_from. case_if; cbn [length decode_loop present];
    rewrite Z.lor_0_r, <- Ht; destruct sd; simpl in *; subst; done.
Qed.
End ReadSd.

(** ** Access decisions *)

Lemma aces_read_keys (l' l : list security_ace) :
  Forall2 ace_read l' l -> map key_of l' = map key_of l /\ aces_wf l'.
Proof.
  induction 1 as [|a' a l' l [Ha Hw] _ [IH IHw]]; [split; [done|apply no_aces_wf]|]. split; [|by apply Forall_cons].
  cbn [map]. rewrite IH. f_equal.
  pose proof (f_equal ace_type Ha) as Ht. pose proof (f_equal ace_flags Ha) as Hf.
  pose proof (f_equal access_mask Ha) as Hm. pose proof (f_equal trustee Ha) as Hs.
  unfold key_of. cbn [ace_form set_trustee ace_type ace_flags access_mask trustee] in Ht, Hf, Hm, Hs.
  by rewrite Ht, Hf, Hm, Hs.
Qed.

Lemma owner_read_token (o' o : option dom_sid) (token : security_token) :
  sid_opt_read o' o -> (forall s, o = Some s -> sid_ok s) -> token_wf token ->
  security_token_has_sid token o' = security_token_has_sid token o.
Proof.
  destruct o' as [s'|], o as [s|]; cbn [sid_opt_read]; try done. intros [Hw Hc] Ho Ht.
  destruct (Ho s eq_refl) as [Hs _]. by rewrite <- has_sid_clear, Hc, has_sid_clear.
Qed.

(** The descriptor read for one with a DACL decides like it. *)
Lemma read_decides (sd' sd : security_descriptor) (acl : security_acl) (token : security_token) (desired : Z) :
  sd_read sd' sd -> sd_ok sd -> marked_dacl sd = Some acl -> token_wf token ->
  se_access_check sd' token desired = se_access_check sd token desired.
Proof.
  intros [_ _ Ho _ Hr _] Hok Hm Ht. pose proof (ok_dacl _ Hok acl Hm) as Ha. rewrite Hm in Hr.
  destruct (dacl sd') as [acl'|] eqn:Ed; cbn [acl_opt_read] in Hr; [|done]. destruct Hr as [_ Hr].
  destruct (aces_read_keys _ _ Hr) as [Hk Hw'].
  assert (aces_wf (aces acl)) as Hw by (eapply Forall_impl; [exact Ha|]; intros a [_ _ _ _ _ [Hs _]]; done).
  apply (se_access_check_ext sd' sd token acl' acl); [done|unfold marked_dacl in Hm; by destruct (has_bits _ _)|].
  intros i. unfold bit_allowed, owner_implicit.
  rewrite (owner_read_token _ _ token Ho (ok_owner _ Hok) Ht).
  by rewrite (owner_rights_active _ Hw'), (owner_rights_active _ Hw), (first_match_active token _ _ i Ht Hw'),
    (first_match_active token _ _ i Ht Hw), Hk.
Qed.

(** And that for one without a DACL that is not marked to have one. *)
Lemma read_decides_none (sd' sd : security_descriptor) (token : security_token) (desired : Z) :
  sd_read sd' sd -> sd_ok sd -> dacl sd = None -> has_bits (sd_type sd) SEC_DESC_DACL_PRESENT = false ->
  token_wf token -> se_access_check sd' token desired = se_access_check sd token desired.
Proof.
  intros [_ Hty Ho _ Hr _] Hok Hd Hb Ht.
  assert (marked_dacl sd = None) as Hm by (unfold marked_dacl; by rewrite Hb).
  rewrite Hm in Hr. destruct (dacl sd') eqn:Hd'; [done|].
  unfold se_access_check, max_desired, access_check_max_allowed. rewrite Hd, Hd', Hb, Hty.
  rewrite (owner_read_token _ _ token Ho (ok_owner _ Hok) Ht).
  assert (has_bits (text_type sd) SEC_DESC_DACL_PRESENT = false) as ->; [|done].
  unfold text_type, dacl_bits, sacl_bits. rewrite Hm. cbn [present].
  destruct (present (marked_sacl sd)); [|done].
  unfold has_bits. rewrite !Z.land_lor_distr_l, <- Z.land_assoc. change (Z.land (Z.shiftl ACL_FLAGS 1) _) with 0.
  by rewrite Z.land_0_r.
Qed.

Lemma sid_section_peek (c : Z) (o d : option dom_sid) (rest : list Z) :
  sid_char c = false -> sid_char (peek rest) = false -> sid_char (peek (encode_sid_section c o d ++ rest)) = false.
Proof. by destruct o. Qed.

(** C24. A descriptor of [sd_ok] is written as text, and the text is read back as
    a descriptor with the same owner, group and entries and the flags the language
    has for the lists that are present. Where a DACL is present exactly when it is
    marked as present, access checks decide as on the original. *)
Theorem sddl_roundtrip (from_ndr : list Z -> NTSTATUS + GUID) (junk : list Z) (d : option dom_sid)
    (sd : security_descriptor) :
  junk_ok junk -> domain_ok d -> sd_ok sd ->
  exists text sd', sddl_encode sd d = Some text /\
    sddl_decode from_ndr junk d text = Some sd' /\ sd_read sd' sd /\
    forall token desired, has_bits (sd_type sd) SEC_DESC_DACL_PRESENT = present (dacl sd) -> token_wf token ->
      se_access_check sd' token desired = se_access_check sd token desired.
Proof.
  intros Hj Hd Hok. pose proof Hok as [Ho Hg Hda Hsa Hfl].
  set (sd0 := Security_descriptor 1 SEC_DESC_SELF_RELATIVE None None None None).
  destruct (sacl_step from_ndr junk d Hj Hd sd (set_sd_type sd0 (Z.lor SEC_DESC_SELF_RELATIVE (dacl_bits sd))) Hsa
              eq_refl eq_refl) as (ss & _ & Es & _ & _ & Hend & Hne).
  destruct (dacl_step from_ndr junk d Hj Hd sd ss sd0 Hda Hend (fun acl H => Hfl acl (Hne H)) eq_refl eq_refl)
    as (sd_ & _ & Ed & _ & _ & Hpd).
  assert (sid_char (peek (sd_ ++ ss)) = false) as Hc1.
  { destruct sd_ as [|c sd_]; [by destruct Hend as [->|[r ->]]|]. destruct Hpd as [?|Hp]; [done|].
    cbn [app peek hd] in *. by rewrite Hp. }
  assert (sid_char (peek (encode_sid_section 0x47 (group_sid sd) d ++ sd_ ++ ss)) = false) as Hc2
    by (by apply sid_section_peek).
  destruct (owner_step from_ndr junk d Hj Hd (owner_sid sd) _ sd0 Ho Hc2 eq_refl) as (o' & Eo & Ro).
  destruct (group_step from_ndr junk d Hj Hd (group_sid sd) _ (set_sd_owner sd0 o') Hg Hc1 eq_refl) as (g' & Eg & Rg).
  destruct (dacl_step from_ndr junk d Hj Hd sd ss (set_sd_group (set_sd_owner sd0 o') g') Hda Hend
              (fun acl H => Hfl acl (Hne H)) eq_refl eq_refl) as (sd2 & da & Ed2 & Edr & Rd & _).
  rewrite Ed in Ed2. injection Ed2 as <-.
  destruct (sacl_step from_ndr junk d Hj Hd sd
    (set_sd_type (set_dacl (set_sd_group (set_sd_owner sd0 o') g') da)
                 (Z.lor SEC_DESC_SELF_RELATIVE (dacl_bits sd))) Hsa eq_refl eq_refl)
    as (ss2 & sa & Es2 & Esr & Rs & _).
  rewrite Es in Es2. injection Es2 as <-.
  unfold sddl_encode. rewrite Ed, Es. cbn [mbind option_bind].
  eexists _, _. split; [done|].
  match goal with |- ?x = _ /\ _ => change x with (read_from from_ndr junk d
    (encode_sid_section 79 (owner_sid sd) d ++ encode_sid_section 71 (group_sid sd) d ++ sd_ ++ ss) sd0) end.
  rewrite Eo, Eg, Edr, Esr. split; [done|].
  assert (sd_read (set_sd_type (set_sacl (set_sd_type (set_dacl (set_sd_group (set_sd_owner sd0 o') g') da)
    (Z.lor SEC_DESC_SELF_RELATIVE (dacl_bits sd))) sa) (text_type sd)) sd) as Hread by done.
  split; [exact Hread|]. intros token desired Hm Ht.
  destruct (dacl sd) as [acl|] eqn:Ea; [|by apply read_decides_none].
  eapply read_decides; [done|done| |done]. unfold marked_dacl. by rewrite Hm, Ea.
Qed.

(** ** An example *)

Definition sample_domain : dom_sid := Dom_sid 1 4 [0; 0; 0; 0; 0; 5] ([21; 1; 2; 3] ++ replicate 11 0).
Definition domain_sid_of (rid : Z) : dom_sid :=
  Dom_sid 1 5 [0; 0; 0; 0; 0; 5] ([21; 1; 2; 3; rid] ++ replicate 10 0).
Definition sample_guid : GUID := Mk_GUID 0xe12b56b6 0x0a95 0x11d1 (0xad, 0xbb) [0; 0xc0; 0x4f; 0xd8; 0xd5; 0xcd].
Definition no_ndr (b : list Z) : NTSTATUS + GUID := inl NT_STATUS_INVALID_PARAMETER.

Definition text_sd : security_descriptor :=
  Security_descriptor 1 0x9414 (Some (domain_sid_of 512)) (Some global_sid_World)
    (Some (Security_acl 2 [flagged_ace SEC_ACE_TYPE_SYSTEM_AUDIT 0xC0 0x10000000 global_sid_World]))
    (Some (Security_acl 4
      [Security_ace SEC_ACE_TYPE_ACCESS_ALLOWED_OBJECT 0x13 0x30 (Some sample_guid) None (domain_sid_of 1104);
       flagged_ace SEC_ACE_TYPE_ACCESS_DENIED 0 0x1F01FF global_sid_System])).

Ltac solve_sid_ok :=
  split; [split; try done; unfold in_w, is_byte, SID_MAX_AUTHS; cbn; try lia;
    repeat (apply Forall_cons; split); try apply Forall_nil_2; cbn; unfold is_byte, in_w; lia|done].

Lemma domain_sids_ok (rid : Z) : in_w 32 rid -> sid_ok (domain_sid_of rid).
Proof. intros H. unfold in_w in H. solve_sid_ok. Qed.

Lemma well_known_ok (a b : Z) : is_byte a -> in_w 32 b -> sid_ok (well_known a b).
Proof.
  intros Ha Hb. split; [by apply well_known_wf|]. unfold is_byte in Ha. cbn [well_known id_auth]. unfold id_auth_value.
  cbn [nth]. rewrite !Z.shiftl_0_l. unfold SID_UINT32_MAX. lia.
Qed.

Lemma sample_guid_wf : guid_wf sample_guid.
Proof.
  split; try done; unfold in_w; cbn; try lia.
  repeat (apply Forall_cons; split); try apply Forall_nil_2; unfold in_w; lia.
Qed.

Lemma text_sd_ok : sd_ok text_sd.
Proof.
  pose proof (domain_sids_ok 512 ltac:(unfold in_w; lia)) as H512.
  pose proof (domain_sids_ok 1104 ltac:(unfold in_w; lia)) as H1104.
  assert (sid_ok global_sid_World) as Hw by (apply well_known_ok; unfold is_byte, in_w; lia).
  assert (sid_ok global_sid_System) as Hs by (apply well_known_ok; unfold is_byte, in_w; lia).
  split.
  - by intros s [= <-].
  - by intros s [= <-].
  - intros acl H. assert (acl = default acl (dacl text_sd)) as -> by (by injection H as <-).
    cbn [dacl text_sd default aces]. apply Forall_cons. split; [|apply Forall_singleton].
    + split; try done. split; [done|exact sample_guid_wf].
    + by split.
  - intros acl H. assert (acl = default acl (sacl text_sd)) as -> by (by injection H as <-).
    cbn [sacl text_sd default aces]. apply Forall_singleton. by split.
  - intros acl _ H _. by injection H as <-.
Qed.

Lemma sddl_roundtrip_witness :
  sddl_encode text_sd (Some sample_domain) =
    Some (c_string ("O:DAG:WDD:PAI(OA;OICIID;RPWP;e12b56b6-0a95-11d1-adbb-00c04fd8d5cd;;S-1-5-21-1-2-3-1104)" ++
                    "(D;;0x001f01ff;;;SY)S:(AU;SAFA;GA;;;WD)")) /\
  exists text sd', sddl_encode text_sd (Some sample_domain) = Some text /\
    sddl_decode no_ndr zero_junk (Some sample_domain) text = Some sd' /\ sd_read sd' text_sd /\
    se_access_check sd' (user_token 0) 1 = se_access_check text_sd (user_token 0) 1.
Proof.
  split; [vm_compute; reflexivity|].
  assert (domain_ok (Some sample_domain)) as Hd.
  { intros d' [= <-]. split; try done; unfold in_w, is_byte, SID_MAX_AUTHS; cbn; try lia;
      repeat (apply Forall_cons; split); try apply Forall_nil_2; cbn; unfold is_byte, in_w; lia. }
  destruct (sddl_roundtrip no_ndr zero_junk (Some sample_domain) text_sd zero_junk_ok Hd text_sd_ok)
    as (text & sd' & He & Hdec & Hr & Ha).
  exists text, sd'. split; [exact He|]. split; [exact Hdec|]. split; [exact Hr|].
  apply Ha; [reflexivity|exact user_token_wf].
Defined.

(** ** What is lost *)

Definition decode_text (s : string) : option security_descriptor :=
  sddl_decode no_ndr zero_junk (Some sample_domain) (c_string s).

(** A protected DACL without ACEs before a SACL: the text that is written is refused. *)
Lemma flags_before_sacl_refused :
  sddl_encode (Security_descriptor 1 0x9014 None None (Some (Security_acl 2 [])) (Some (Security_acl 2 [])))
    None = Some (c_string "D:PS:") /\
  decode_text "D:PS:" = None /\ decode_text "D:P" <> None.
Proof. split_and!; [by vm_compute|by vm_compute|by vm_compute]. Qed.

(** A null DACL, which allows everything, is not written; the descriptor that
    is read allows nothing. *)
Lemma null_dacl_lost :
  let sd := Security_descriptor 1 0x8004 None None None None in
  (se_access_check sd (user_token 0) 0x1F01FF).1 = NT_STATUS_OK /\
  exists sd', sddl_encode sd None = Some [] /\ decode_text "" = Some sd' /\
    (se_access_check sd' (user_token 0) 1).1 = NT_STATUS_ACCESS_DENIED.
Proof. split; [by vm_compute|]. eexists. split_and!; [by vm_compute|by vm_compute|by vm_compute]. Qed.

(** A compound entry comes back as an object entry. *)
Lemma compound_becomes_object :
  exists s a', sddl_encode_ace (plain_ace SEC_ACE_TYPE_ALLOWED_COMPOUND 1 global_sid_World) None = Some s /\
    sddl_decode_ace no_ndr zero_junk None s = Some a' /\ ace_type a' = SEC_ACE_TYPE_ACCESS_ALLOWED_OBJECT.
Proof. eexists _, _. split_and!; [by vm_compute|by vm_compute|by vm_compute]. Qed.

(** A SID whose authority is printed in hexadecimal is not read back. *)
Lemma hex_authority_refused :
  let sd := Security_descriptor 1 0x8000 (Some (Dom_sid 1 1 [1; 0; 0; 0; 0; 0] (7 :: replicate 14 0))) None None None in
  sddl_encode sd None = Some (c_string "O:S-1-0x10000000000-7") /\ decode_text "O:S-1-0x10000000000-7" = None.
Proof. split; by vm_compute. Qed.

(** Anything that does not start with a capital ends a list of codes without
    an error: a denial written in lower case is read as an allowance. *)
Lemma lower_case_deny_allows :
  let sd' := default text_sd (decode_text "D:(d;;GA;;;WD)") in
  decode_text "D:(d;;GA;;;WD)" <> None /\
  dacl sd' = Some (Security_acl 4 [plain_ace SEC_ACE_TYPE_ACCESS_ALLOWED SEC_GENERIC_ALL global_sid_World]) /\
  se_access_check sd' (Security_token [global_sid_World] 0 0) SEC_GENERIC_ALL = (NT_STATUS_OK, SEC_GENERIC_ALL).
Proof. cbv zeta. split_and!; by vm_compute. Qed.

(** Sections with an unknown letter are passed over. *)
Lemma unknown_section_skipped : decode_text "X:O:WD" = decode_text "O:WD" /\ decode_text "O:WD" <> None.
Proof. split; by vm_compute. Qed.
