(* ===== verification/Bitmap.v ===== *)
(** * Bitmaps

    lib/util/bitmap.c: a fixed number of bits in an array of 32-bit words, as
    used for the SMB2 sequence window and for allocating small integers. *)

From S2P Require Import Prelude.
From stdpp Require Import prelude list.

#[local] Open Scope Z_scope.

(** [struct bitmap]: [bm_n] bits in the words [bm_b]. *)
Record bitmap := Bitmap { bm_n : Z; bm_b : list Z }.

Definition bitmap_talloc (n : Z) : bitmap := Bitmap n (replicate (Z.to_nat ((n + 31) / 32)) 0).

Definition word (bm : bitmap) (i : Z) : Z := nth (Z.to_nat (i / 32)) (bm_b bm) 0.

Definition set_word (bm : bitmap) (i w : Z) : bitmap :=
  Bitmap (bm_n bm) (<[Z.to_nat (i / 32) := w]> (bm_b bm)).

Definition bitmap_copy (dst src : bitmap) : Z * bitmap :=
  let count := Z.min (bm_n dst) (bm_n src) in
  let words := Z.to_nat ((count + 31) / 32) in
  (count, Bitmap (bm_n dst) (take words (bm_b src) ++ drop words (bm_b dst))).

Definition bitmap_set (bm : bitmap) (i : Z) : bool * bitmap :=
  if bm_n bm <=? i then (false, bm)
  else (true, set_word bm i (Z.lor (word bm i) (Z.shiftl 1 (i mod 32)))).

Definition bitmap_clear (bm : bitmap) (i : Z) : bool * bitmap :=
  if bm_n bm <=? i then (false, bm)
  else (true, set_word bm i (clear_bits (word bm i) (Z.shiftl 1 (i mod 32)))).

Definition bitmap_query (bm : bitmap) (i : Z) : bool :=
  if bm_n bm <=? i then false
  else has_bits (word bm i) (Z.shiftl 1 (i mod 32)).

(** The inner [do ... while (j & 31 && j < bm->n)] loop; at most 32 turns. *)
Fixpoint find_in_word (fuel : nat) (bm : bitmap) (j : Z) : option Z :=
  match fuel with
  | O => None
  | S fuel =>
      if negb (bitmap_query bm j) then Some j
      else
        let j := j + 1 in
        if negb (Z.land j 31 =? 0) && (j <? bm_n bm) then find_in_word fuel bm j else None
  end.

(** The outer [while (i < stop)] loops; [~(bm->b[i/32])] is the 32-bit
    complement, and [i += 32; i &= ~31] goes to the next word. *)
Fixpoint find_from (fuel : nat) (bm : bitmap) (i stop : Z) : option Z :=
  match fuel with
  | O => None
  | S fuel =>
      if i <? stop then
        match (if negb (word bm i =? 0xFFFFFFFF) then find_in_word 32 bm i else None) with
        | Some j => Some j
        | None => find_from fuel bm (clear_bits (i + 32) 31) stop
        end
      else None
  end.

Definition bitmap_find (bm : bitmap) (ofs : Z) : Z :=
  let ofs := if bm_n bm <? ofs then 0 else ofs in
  let fuel := S (length (bm_b bm)) in
  match find_from fuel bm ofs (bm_n bm) with
  | Some j => j
  | None => match find_from fuel bm 0 ofs with Some j => j | None => -1 end
  end.

(** ** Bits *)

Record bitmap_wf (bm : bitmap) : Prop := {
  bm_pos : 0 <= bm_n bm;
  bm_len : length (bm_b bm) = Z.to_nat ((bm_n bm + 31) / 32);
  bm_words : Forall (in_w 32) (bm_b bm)
}.

#[local] Ltac Zify.zify_post_hook ::= Z.to_euclidean_division_equations.

Lemma query_bit (bm : bitmap) (i : Z) :
  0 <= i -> bitmap_query bm i = (i <? bm_n bm) && Z.testbit (word bm i) (i mod 32).
Proof.
  intros Hi. unfold bitmap_query. rewrite bit_of_word by lia.
  destruct (Z.leb_spec (bm_n bm) i), (Z.ltb_spec i (bm_n bm)); try lia; done.
Qed.

Lemma index_lt (bm : bitmap) (i : Z) :
  bitmap_wf bm -> 0 <= i < bm_n bm -> (Z.to_nat (i / 32) < length (bm_b bm))%nat.
Proof. intros Hwf Hi. rewrite (bm_len _ Hwf). lia. Qed.

Lemma word_set_word (bm : bitmap) (i j w : Z) :
  bitmap_wf bm -> 0 <= i < bm_n bm -> 0 <= j ->
  word (set_word bm i w) j = if i / 32 =? j / 32 then w else word bm j.
Proof.
  intros Hwf Hi Hj. unfold word, set_word. simpl. pose proof (index_lt bm i Hwf Hi) as Hlt.
  destruct (Z.eqb_spec (i / 32) (j / 32)) as [He|Hne].
  - rewrite <- He. apply nth_lookup_Some, list_lookup_insert_eq, Hlt.
  - rewrite !nth_lookup, list_lookup_insert_ne by lia. done.
Qed.

(** Changing one bit of one word. *)
Lemma query_change (bm : bitmap) (i j w : Z) (v : bool) :
  bitmap_wf bm -> 0 <= i < bm_n bm -> 0 <= j ->
  (forall b, 0 <= b < 32 -> Z.testbit w b = if b =? i mod 32 then v else Z.testbit (word bm i) b) ->
  bitmap_query (set_word bm i w) j = if j =? i then v else bitmap_query bm j.
Proof.
  intros Hwf Hi Hj Hw. rewrite !query_bit, word_set_word by done. simpl.
  destruct (Z.eqb_spec (i / 32) (j / 32)) as [Hd|Hd].
  - rewrite Hw by (apply Z.mod_pos_bound; lia).
    destruct (Z.eqb_spec j i) as [->|Hne].
    + rewrite Z.eqb_refl. rewrite (proj2 (Z.ltb_lt _ _)) by lia. done.
    + rewrite (proj2 (Z.eqb_neq (j mod 32) (i mod 32))) by lia.
      unfold word. by rewrite Hd.
  - by rewrite (proj2 (Z.eqb_neq j i)) by congruence.
Qed.

Lemma query_set (bm : bitmap) (i j : Z) :
  bitmap_wf bm -> 0 <= i < bm_n bm -> 0 <= j ->
  bitmap_query (bitmap_set bm i).2 j = (j =? i) || bitmap_query bm j.
Proof.
  intros Hwf Hi Hj. unfold bitmap_set. rewrite (proj2 (Z.leb_gt _ _)) by lia. cbn [snd].
  rewrite (query_change bm i j _ true); try done.
  intros b Hb. rewrite Z.lor_spec, testbit_shift_one by lia.
  destruct (b =? i mod 32); by rewrite ?orb_true_r, ?orb_false_r.
Qed.

Lemma query_clear (bm : bitmap) (i j : Z) :
  bitmap_wf bm -> 0 <= i < bm_n bm -> 0 <= j ->
  bitmap_query (bitmap_clear bm i).2 j = negb (j =? i) && bitmap_query bm j.
Proof.
  intros Hwf Hi Hj. unfold bitmap_clear. rewrite (proj2 (Z.leb_gt _ _)) by lia. cbn [snd].
  rewrite (query_change bm i j _ false); try done.
  - by destruct (j =? i).
  - intros b Hb. unfold clear_bits. rewrite Z.ldiff_spec, testbit_shift_one by lia.
    destruct (b =? i mod 32); simpl; by rewrite ?andb_true_r, ?andb_false_r.
Qed.

Lemma set_word_wf (bm : bitmap) (i w : Z) :
  bitmap_wf bm -> in_w 32 w -> bitmap_wf (set_word bm i w).
Proof.
  intros [Hp Hl Hw] Hin. split; simpl; [done|by rewrite length_insert|by apply Forall_insert].
Qed.

Lemma word_range (bm : bitmap) (i : Z) : bitmap_wf bm -> in_w 32 (word bm i).
Proof.
  intros Hwf. unfold word. rewrite nth_lookup.
  destruct (bm_b bm !! _) as [w|] eqn:E; simpl; [|unfold in_w; lia].
  exact (Forall_lookup_1 _ _ _ _ (bm_words _ Hwf) E).
Qed.

Lemma bitmap_set_wf (bm : bitmap) (i : Z) : bitmap_wf bm -> bitmap_wf (bitmap_set bm i).2.
Proof.
  intros Hwf. unfold bitmap_set. case_if; [done|]. apply set_word_wf; [done|].
  pose proof (word_range bm i Hwf) as Hr. rewrite in_w_bits in * by lia. destruct Hr as [H0 Hb].
  pose proof (Z.mod_pos_bound i 32 ltac:(lia)). split.
  - apply Z.lor_nonneg. split; [done|]. apply Z.shiftl_nonneg. lia.
  - intros b Hb'. rewrite Z.lor_spec, Hb, testbit_shift_one by lia. apply Z.eqb_neq. lia.
Qed.

Lemma bitmap_clear_wf (bm : bitmap) (i : Z) : bitmap_wf bm -> bitmap_wf (bitmap_clear bm i).2.
Proof.
  intros Hwf. unfold bitmap_clear. case_if; [done|]. apply set_word_wf; [done|].
  pose proof (word_range bm i Hwf) as Hr. rewrite in_w_bits in * by lia. destruct Hr as [H0 Hb].
  split; [apply Z.ldiff_nonneg; by left|]. intros b Hb'. unfold clear_bits.
  by rewrite Z.ldiff_spec, Hb by lia.
Qed.

Lemma bitmap_talloc_wf (n : Z) : 0 <= n -> bitmap_wf (bitmap_talloc n).
Proof.
  intros Hn. split; simpl; [done|by rewrite length_replicate|]. apply Forall_replicate.
  unfold in_w. lia.
Qed.

Lemma query_talloc (n i : Z) : 0 <= i -> bitmap_query (bitmap_talloc n) i = false.
Proof.
  intros Hi. rewrite query_bit by done. unfold word. simpl.
  rewrite nth_lookup. destruct (replicate _ 0 !! _) as [w|] eqn:E; simpl.
  - apply lookup_replicate in E as [-> _]. by rewrite Z.bits_0, andb_false_r.
  - by rewrite Z.bits_0, andb_false_r.
Qed.

Lemma bm_n_set (bm : bitmap) (i : Z) : bm_n (bitmap_set bm i).2 = bm_n bm.
Proof. unfold bitmap_set. by case_if. Qed.

Lemma bm_n_clear (bm : bitmap) (i : Z) : bm_n (bitmap_clear bm i).2 = bm_n bm.
Proof. unfold bitmap_clear. by case_if. Qed.

(** ** Searching for a clear bit *)

(** All bits of the interval are set. *)
Definition all_set (bm : bitmap) (a b : Z) : Prop := forall m, a <= m < b -> bitmap_query bm m = true.

Definition word_end (bm : bitmap) (i : Z) : Z := Z.min (bm_n bm) (32 * (i / 32 + 1)).

Lemma land_31 (j : Z) : Z.land j 31 = j mod 32.
Proof. change 31 with (Z.ones 5). by rewrite Z.land_ones by lia. Qed.

Lemma next_word (i : Z) : clear_bits (i + 32) 31 = 32 * (i / 32 + 1).
Proof.
  unfold clear_bits. change 31 with (Z.ones 5).
  rewrite Z.ldiff_ones_r, Z.shiftr_div_pow2, Z.shiftl_mul_pow2 by lia. change (2 ^ 5) with 32. lia.
Qed.

Lemma find_in_word_spec (fuel : nat) (bm : bitmap) (j : Z) :
  0 <= j < bm_n bm -> (32 - j mod 32 <= Z.of_nat fuel) ->
  match find_in_word fuel bm j with
  | Some k => j <= k < word_end bm j /\ bitmap_query bm k = false /\ all_set bm j k
  | None => all_set bm j (word_end bm j)
  end.
Proof.
  revert j. induction fuel as [|fuel IH]; intros j Hj Hf; [lia|]. cbn [find_in_word].
  destruct (bitmap_query bm j) eqn:Hq; cbn [negb].
  2: { split; [unfold word_end; lia|]. split; [done|]. intros m Hm. lia. }
  rewrite land_31.
  destruct (Z.eqb_spec ((j + 1) mod 32) 0) as [Hz|Hz]; cbn [negb andb].
  { intros m Hm. unfold word_end in Hm. assert (m = j) as -> by lia. done. }
  destruct (Z.ltb_spec (j + 1) (bm_n bm)) as [Hlt|Hge].
  2: { intros m Hm. unfold word_end in Hm. assert (m = j) as -> by lia. done. }
  specialize (IH (j + 1) ltac:(lia) ltac:(lia)).
  assert (word_end bm (j + 1) = word_end bm j) as Hwe by (unfold word_end; lia). rewrite Hwe in IH.
  destruct (find_in_word fuel bm (j + 1)) as [k|].
  - destruct IH as (Hk & Hqk & Hall). split; [lia|]. split; [done|]. intros m Hm.
    destruct (Z.eq_dec m j) as [->|]; [done|]. apply Hall. lia.
  - intros m Hm. destruct (Z.eq_dec m j) as [->|]; [done|]. apply IH. lia.
Qed.

Lemma full_word (bm : bitmap) (i : Z) :
  0 <= i -> word bm i = 0xFFFFFFFF -> all_set bm i (word_end bm i).
Proof.
  intros Hi Hw m Hm. unfold word_end in Hm. rewrite query_bit by lia.
  rewrite (proj2 (Z.ltb_lt _ _)) by lia. simpl. unfold word in *.
  replace (m / 32) with (i / 32) by lia. rewrite Hw. change 0xFFFFFFFF with (Z.ones 32).
  apply Z.ones_spec_low. pose proof (Z.mod_pos_bound m 32). lia.
Qed.

Lemma find_from_spec (fuel : nat) (bm : bitmap) (i stop : Z) :
  0 <= i -> stop <= bm_n bm -> (stop + 31) / 32 - i / 32 < Z.of_nat fuel ->
  match find_from fuel bm i stop with
  | Some k => i <= k < bm_n bm /\ bitmap_query bm k = false /\ all_set bm i k
  | None => all_set bm i stop
  end.
Proof.
  revert i. induction fuel as [|fuel IH]; intros i Hi Hs Hf; cbn [find_from].
  { intros m Hm. lia. }
  destruct (Z.ltb_spec i stop) as [Hlt|Hge]; [|intros m Hm; lia].
  assert (match (if negb (word bm i =? 0xFFFFFFFF) then find_in_word 32 bm i else None) with
          | Some k => i <= k < word_end bm i /\ bitmap_query bm k = false /\ all_set bm i k
          | None => all_set bm i (word_end bm i)
          end) as Hw.
  { destruct (Z.eqb_spec (word bm i) 0xFFFFFFFF) as [He|He]; cbn [negb]; [by apply full_word|].
    apply find_in_word_spec; lia. }
  destruct (if negb _ then _ else _) as [k|].
  { destruct Hw as (Hk & Hq & Hall). unfold word_end in Hk. split; [lia|done]. }
  rewrite next_word. specialize (IH (32 * (i / 32 + 1)) ltac:(lia) Hs ltac:(lia)).
  destruct (find_from fuel bm (32 * (i / 32 + 1)) stop) as [k|].
  - destruct IH as (Hk & Hq & Hall). split; [lia|]. split; [done|]. intros m Hm.
    destruct (Z.lt_ge_cases m (32 * (i / 32 + 1))); [apply Hw; unfold word_end; lia|].
    apply Hall. lia.
  - intros m Hm. destruct (Z.lt_ge_cases m (32 * (i / 32 + 1))); [apply Hw; unfold word_end; lia|].
    apply IH. lia.
Qed.

(** [bitmap_find] gives the first clear bit at or after the offset, with
    wrap-around to the start, and -1 exactly when every bit is set; an offset
    beyond the end counts as 0. *)
Theorem bitmap_find_first (bm : bitmap) (ofs : Z) :
  bitmap_wf bm -> 0 <= ofs ->
  let o := if bm_n bm <? ofs then 0 else ofs in
  let r := bitmap_find bm ofs in
  (r = -1 /\ all_set bm 0 (bm_n bm)) \/
  (0 <= r < bm_n bm /\ bitmap_query bm r = false /\
   ((o <= r /\ all_set bm o r) \/ (r < o /\ all_set bm o (bm_n bm) /\ all_set bm 0 r))).
Proof.
  intros Hwf Hofs o r. unfold r, bitmap_find. fold o.
  assert (0 <= o <= bm_n bm) as Ho
    by (pose proof (bm_pos _ Hwf); unfold o; destruct (Z.ltb_spec (bm_n bm) ofs); lia).
  pose proof (bm_len _ Hwf) as Hl.
  pose proof (find_from_spec (S (length (bm_b bm))) bm o (bm_n bm) ltac:(lia) ltac:(lia) ltac:(lia)) as H1.
  destruct (find_from _ bm o (bm_n bm)) as [k|]; [right; destruct H1 as (? & ? & ?)|].
  { split; [lia|]. split; [done|]. left. split; [lia|done]. }
  pose proof (find_from_spec (S (length (bm_b bm))) bm 0 o ltac:(lia) ltac:(lia) ltac:(lia)) as H2.
  destruct (find_from _ bm 0 o) as [k|].
  - right. destruct H2 as (Hk & Hq & Hall). split; [done|]. split; [done|]. right.
    split; [|done]. destruct (Z.lt_ge_cases k o); [done|]. by rewrite H1 in Hq by lia.
  - left. split; [done|]. intros m Hm. destruct (Z.lt_ge_cases m o); [apply H2; lia|apply H1; lia].
Qed.

Lemma bitmap_find_first_witness :
  let bm := (bitmap_set (bitmap_set (bitmap_talloc 40) 39).2 0).2 in
  bitmap_find bm 39 = 1 /\
  ((bitmap_find bm 39 = -1 /\ all_set bm 0 (bm_n bm)) \/
   (0 <= bitmap_find bm 39 < bm_n bm /\ bitmap_query bm (bitmap_find bm 39) = false /\
    ((39 <= bitmap_find bm 39 /\ all_set bm 39 (bitmap_find bm 39)) \/
     (bitmap_find bm 39 < 39 /\ all_set bm 39 (bm_n bm) /\ all_set bm 0 (bitmap_find bm 39))))).
Proof.
  split; [vm_compute; reflexivity|].
  refine (bitmap_find_first (bitmap_set (bitmap_set (bitmap_talloc 40) 39).2 0).2 39 _ _); [|lia].
  apply bitmap_set_wf, bitmap_set_wf, bitmap_talloc_wf. lia.
Defined.
