(* ===== verification/Smb2Credits.v ===== *)
(** * SMB2 sequence window and credits: the model

    source3/smbd/smb2_server.c: the state of [xconn->smb2.credits], the check of
    message ids, the granting of credits and the check of the credit charge.
    Headers are byte lists read and written with the macros of
    lib/util/byteorder.h. [None] is the end of the process or the connection:
    a failed assertion, a division by zero, or
    [smbd_server_connection_terminate]. *)

From S2P Require Import Prelude.
From S2P Require Import Bitmap.
From stdpp Require Import prelude list.

#[local] Open Scope Z_scope.

Definition SVAL (buf : list Z) (pos : nat) : Z := le_value (take 2 (drop pos buf)).
Definition IVAL (buf : list Z) (pos : nat) : Z := le_value (take 4 (drop pos buf)).
Definition BVAL (buf : list Z) (pos : nat) : Z := le_value (take 8 (drop pos buf)).

(** [SSVAL]: stores a 16-bit value in place. *)
Definition SSVAL (buf : list Z) (pos : nat) (v : Z) : list Z :=
  take pos buf ++ le_bytes 2 v ++ drop (pos + 2) buf.

Definition SMB2_MAGIC : Z := 0x424D53FE.
Definition SMB2_HDR_PROTOCOL_ID : nat := 0.
Definition SMB2_HDR_CREDIT_CHARGE : nat := 6.
Definition SMB2_HDR_STATUS : nat := 8.
Definition SMB2_HDR_OPCODE : nat := 12.
Definition SMB2_HDR_CREDIT : nat := 14.
Definition SMB2_HDR_FLAGS : nat := 16.
Definition SMB2_HDR_MESSAGE_ID : nat := 24.
Definition SMB2_HDR_BODY : nat := 64.
Definition SMB2_HDR_FLAG_ASYNC : Z := 0x02.
Definition SMB2_OP_NEGPROT : Z := 0x00.
Definition SMB2_OP_SESSSETUP : Z := 0x01.
Definition SMB2_OP_CANCEL : Z := 0x0c.
Definition UINT64_MAX' : Z := 0xFFFFFFFFFFFFFFFF.

(** [struct smbXsrv_connection], the member [smb2.credits]. *)
Record credits := Credits {
  seq_low : Z;
  seq_range : Z;
  granted : Z;
  max_credits : Z;
  credits_bm : bitmap;
  multicredit : bool
}.

Definition with_bitmap (c : credits) (bm : bitmap) : credits :=
  Credits (seq_low c) (seq_range c) (granted c) (max_credits c) bm (multicredit c).

(** The credit part of [smbd_initialize_smb2]: the parameter is an [int], the
    member has 16 bits, and the bitmap gets its size from the member. *)
Definition initialize_credits (lp_smb2_max_credits expected_seq_low : Z) (multi : bool) : credits :=
  let max := u16 lp_smb2_max_credits in
  Credits expected_seq_low 1 1 max (bitmap_talloc max) multi.

(** [a % b] on unsigned values; a zero divisor ends the process. *)
Definition umod (a b : Z) : option Z := if b =? 0 then None else Some (a mod b).

(** The loop that moves the window forward. Each turn takes one entry off the
    window, so [seq_range] turns are enough ([advance_spec]). *)
Fixpoint advance (fuel : nat) (c : credits) (offset : Z) : option credits :=
  match fuel with
  | O => None
  | S fuel =>
      if bitmap_query (credits_bm c) offset then
        let bm := (bitmap_clear (credits_bm c) offset).2 in
        let c := Credits (u64 (seq_low c + 1)) (u16 (seq_range c - 1)) (granted c)
                         (max_credits c) bm (multicredit c) in
        offset ← umod (seq_low c) (max_credits c);
        advance fuel c offset
      else Some c
  end.

Definition smb2_validate_sequence_number (c : credits) (seq_id : Z) : option (bool * credits) :=
  let seq_tmp := seq_low c in
  if seq_id <? seq_tmp then Some (false, c)
  else
    let seq_tmp := u64 (seq_tmp + seq_range c) in
    if seq_tmp <=? seq_id then Some (false, c)
    else
      offset ← umod seq_id (max_credits c);
      if bitmap_query (credits_bm c) offset then Some (false, c)
      else
        let c := with_bitmap c (bitmap_set (credits_bm c) offset).2 in
        if negb (seq_id =? seq_low c) then Some (true, c)
        else
          c ← advance (S (Z.to_nat (seq_range c))) c offset;
          Some (true, c).

Definition credit_charge_of (c : credits) (inhdr : list Z) : Z :=
  if multicredit c then Z.max (SVAL inhdr SMB2_HDR_CREDIT_CHARGE) 1 else 1.

(** The loop over the ids of a multi-credit request, with the number of ids
    that are left. *)
Fixpoint validate_ids (n : nat) (c : credits) (id : Z) : option (bool * credits) :=
  match n with
  | O => Some (true, c)
  | S n =>
      '(ok, c) ← smb2_validate_sequence_number c id;
      if ok : bool then validate_ids n c (u64 (id + 1)) else Some (false, c)
  end.

Definition smb2_validate_message_id (c : credits) (inhdr : list Z) : option (bool * credits) :=
  let message_id := BVAL inhdr SMB2_HDR_MESSAGE_ID in
  let opcode := SVAL inhdr SMB2_HDR_OPCODE in
  if opcode =? SMB2_OP_CANCEL then Some (true, c)
  else
    let credit_charge := credit_charge_of c inhdr in
    if granted c <? credit_charge then Some (false, c)
    else
      '(ok, c) ← validate_ids (Z.to_nat credit_charge) c message_id;
      if ok : bool then
        Some (true, Credits (seq_low c) (seq_range c) (u16 (granted c - credit_charge))
                            (max_credits c) (credits_bm c) (multicredit c))
      else Some (false, c).

(** [smbd_smb2_request_validate] over the header and body vectors of the
    requests of a compound. *)
Fixpoint validate_loop (c : credits) (reqs : list (list Z * Z)) : option (NTSTATUS * credits) :=
  match reqs with
  | [] => Some (NT_STATUS_OK, c)
  | (inhdr, body_len) :: reqs =>
      if negb (length inhdr =? SMB2_HDR_BODY)%nat then Some (NT_STATUS_INVALID_PARAMETER, c)
      else if body_len <? 2 then Some (NT_STATUS_INVALID_PARAMETER, c)
      else if negb (IVAL inhdr SMB2_HDR_PROTOCOL_ID =? SMB2_MAGIC)
      then Some (NT_STATUS_INVALID_PARAMETER, c)
      else
        '(ok, c) ← smb2_validate_message_id c inhdr;
        if ok : bool then validate_loop c reqs else Some (NT_STATUS_INVALID_PARAMETER, c)
  end.

Definition smbd_smb2_request_validate (c : credits) (reqs : list (list Z * Z))
    : option (NTSTATUS * credits) :=
  match reqs with
  | [] => Some (NT_STATUS_INVALID_PARAMETER, c)
  | _ => validate_loop c reqs
  end.

(** The credits a reply would grant, before the window limits them. *)
Definition wanted_credits (c : credits) (inhdr outhdr : list Z) : Z :=
  let credit_charge := credit_charge_of c inhdr in
  let cmd := SVAL inhdr SMB2_HDR_OPCODE in
  let credits_requested := Z.max (SVAL inhdr SMB2_HDR_CREDIT) 1 in
  let out_status := IVAL outhdr SMB2_HDR_STATUS in
  if has_bits (IVAL outhdr SMB2_HDR_FLAGS) SMB2_HDR_FLAG_ASYNC then 0
  else
    let additional_possible := u16 (max_credits c - credit_charge) in
    let additional_credits := u16 (credits_requested - 1) in
    let additional_max :=
      if cmd =? SMB2_OP_NEGPROT then 0
      else if cmd =? SMB2_OP_SESSSETUP
      then (if NT_STATUS_IS_OK out_status then max_credits c else 0)
      else max_credits c in
    let additional_max := Z.min additional_max additional_possible in
    let additional_credits := Z.min additional_credits additional_max in
    u16 (credit_charge + additional_credits).

Definition credits_possible (c : credits) : Z :=
  let current_max_credits := Z.max (max_credits c) 1 in
  let possible := UINT64_MAX' - seq_low c in
  let possible := if 0 <? possible then possible - 1 else possible in
  u64 (Z.min possible current_max_credits - seq_range c).

(** The connection after the call and the reply header. *)
Definition smb2_set_operation_credit (c : credits) (inhdr outhdr : list Z)
    : option (credits * list Z) :=
  if max_credits c <? granted c then None
  else if max_credits c <? credit_charge_of c inhdr then None
  else
    let credits_granted := Z.min (wanted_credits c inhdr outhdr) (credits_possible c) in
    Some (Credits (seq_low c) (u16 (seq_range c + credits_granted))
                  (u16 (granted c + credits_granted)) (max_credits c) (credits_bm c) (multicredit c),
          SSVAL outhdr SMB2_HDR_CREDIT credits_granted).

(** [smb2_calculate_credits]: the requests and replies of a compound; the last
    reply carries the sum. *)
Fixpoint smb2_calculate_credits (c : credits) (total : Z) (hdrs : list (list Z * list Z))
    : option (credits * list (list Z)) :=
  match hdrs with
  | [] => Some (c, [])
  | (inhdr, outhdr) :: rest =>
      '(c, outhdr) ← smb2_set_operation_credit c inhdr outhdr;
      let total := u16 (total + SVAL outhdr SMB2_HDR_CREDIT) in
      let outhdr := SSVAL outhdr SMB2_HDR_CREDIT (match rest with [] => total | _ => 0 end) in
      '(c, outs) ← smb2_calculate_credits c total rest;
      Some (c, outhdr :: outs)
  end.

(** [smbd_smb2_request_verify_creditcharge]. *)
Definition needed_charge (data_length : Z) : Z := u16 (u32 (data_length - 1) / 65536 + 1).

Definition smbd_smb2_request_verify_creditcharge (c : credits) (inhdr : list Z) (data_length : Z)
    : NTSTATUS :=
  if credit_charge_of c inhdr <? needed_charge data_length then NT_STATUS_INVALID_PARAMETER
  else NT_STATUS_OK.
