(* ===== verification/Smb2Window.v ===== *)
(** * SMB2 sequence window: properties

    The set of message ids a client may still use is the abstract state of a
    connection; the theorems show that the window, the bitmap and the counters
    of smb2_server.c implement it, for every sequence of requests and replies. *)

From S2P Require Import Prelude.
From S2P Require Import Bitmap.
From S2P Require Import Smb2Credits.
From stdpp Require Import prelude list.

#[local] Open Scope Z_scope.

(** The end of the window, and the ids that may still be used. *)
Definition seq_high (c : credits) : Z := seq_low c + seq_range c.

Definition available (c : credits) (x : Z) : Prop :=
  seq_low c <= x < seq_high c /\ bitmap_query (credits_bm c) (x mod max_credits c) = false.

(** The window in between: bits are set only for ids of the window. *)
Record win_base (c : credits) : Prop := {
  wk_max : 1 <= max_credits c < 2 ^ 16;
  wk_bm : bitmap_wf (credits_bm c);
  wk_n : bm_n (credits_bm c) = max_credits c;
  wk_low : 0 <= seq_low c;
  wk_range : 0 <= seq_range c <= max_credits c;
  wk_top : seq_high c < UINT64_MAX';
  wk_bits : forall i, 0 <= i -> bitmap_query (credits_bm c) i = true ->
    exists id, seq_low c <= id < seq_high c /\ id mod max_credits c = i
}.

(** The window between operations: the lowest id has not been used. *)
Definition win_seq (c : credits) : Prop :=
  win_base c /\ bitmap_query (credits_bm c) (seq_low c mod max_credits c) = false.

(** [P] holds of exactly [n] values. *)
Definition has_card (P : Z -> Prop) (n : Z) : Prop :=
  exists l, NoDup l /\ (forall x, x ∈ l <-> P x) /\ Z.of_nat (length l) = n.

Definition win_ok (c : credits) : Prop := win_seq c /\ has_card (available c) (granted c).

(** What an operation leaves alone. *)
Definition same_limits (c c' : credits) : Prop :=
  granted c' = granted c /\ max_credits c' = max_credits c /\ multicredit c' = multicredit c /\
  seq_high c' = seq_high c.

(** ** The window *)

Lemma residue_inj (l r m a b : Z) :
  0 < m -> r <= m -> l <= a < l + r -> l <= b < l + r -> a mod m = b mod m -> a = b.
Proof.
  intros Hm Hr Ha Hb He.
  pose proof (Z.div_mod a m ltac:(lia)). pose proof (Z.div_mod b m ltac:(lia)).
  destruct (Z.lt_trichotomy (a / m) (b / m)) as [H1|[H1|H1]]; [nia| |nia]. rewrite H1 in *. lia.
Qed.

Lemma window_inj (c : credits) (a b : Z) :
  win_base c -> seq_low c <= a < seq_high c -> seq_low c <= b < seq_high c ->
  a mod max_credits c = b mod max_credits c -> a = b.
Proof.
  intros Hb. unfold seq_high. apply residue_inj.
  - pose proof (wk_max _ Hb). lia.
  - pose proof (wk_range _ Hb). lia.
Qed.

Lemma residue_range (c : credits) (x : Z) :
  win_base c -> 0 <= x mod max_credits c < bm_n (credits_bm c).
Proof. intros Hb. rewrite (wk_n _ Hb). apply Z.mod_pos_bound. pose proof (wk_max _ Hb). lia. Qed.

Lemma umod_max (c : credits) (x : Z) : win_base c -> umod x (max_credits c) = Some (x mod max_credits c).
Proof.
  intros Hb. unfold umod. pose proof (wk_max _ Hb).
  by rewrite (proj2 (Z.eqb_neq _ _)) by lia.
Qed.

(** One turn of the loop: the lowest id was used, and leaves the window. *)
Lemma advance_step (c : credits) :
  win_base c -> bitmap_query (credits_bm c) (seq_low c mod max_credits c) = true ->
  let c' := Credits (u64 (seq_low c + 1)) (u16 (seq_range c - 1)) (granted c) (max_credits c)
              (bitmap_clear (credits_bm c) (seq_low c mod max_credits c)).2 (multicredit c) in
  win_base c' /\ same_limits c c' /\ (forall x, available c' x <-> available c x) /\
  seq_low c' = seq_low c + 1 /\ seq_range c' = seq_range c - 1 /\ 0 < seq_range c.
Proof.
  intros Hb Hq.
  destruct (wk_bits _ Hb _ (proj1 (residue_range c (seq_low c) Hb)) Hq) as (id & Hid & Hm).
  pose proof (wk_max _ Hb) as Hmax. pose proof (wk_range _ Hb) as Hrg. pose proof (wk_top _ Hb) as Htop.
  pose proof (wk_low _ Hb) as Hlow. unfold seq_high, UINT64_MAX' in *.
  rewrite u64_id, u16_id by (unfold in_w; lia). set (off := seq_low c mod max_credits c) in *.
  assert (0 <= off < bm_n (credits_bm c)) as Hoff by (apply residue_range, Hb).
  assert (forall x, seq_low c + 1 <= x < seq_low c + seq_range c -> x mod max_credits c <> off) as Hne.
  { intros x Hx He. assert (x = seq_low c); [|lia].
    apply (window_inj c); unfold seq_high; [done|lia|lia|done]. }
  split.
  { split; simpl; unfold seq_high, UINT64_MAX'; simpl; try lia.
    - apply bitmap_clear_wf, Hb.
    - rewrite bm_n_clear. apply Hb.
    - intros i Hi Hqi. rewrite query_clear in Hqi by (apply Hb || done).
      apply andb_true_iff in Hqi as [Hn Hqi]. apply negb_true_iff, Z.eqb_neq in Hn.
      destruct (wk_bits _ Hb i Hi Hqi) as (id' & Hid' & Hm'). exists id'. unfold seq_high in Hid'.
      split; [|done]. destruct (Z.eq_dec id' (seq_low c)) as [->|]; [by destruct Hn|lia]. }
  split; [unfold same_limits, seq_high; simpl; split_and!; lia || done|].
  split; [|simpl; lia]. intros x. unfold available, seq_high. simpl.
  pose proof (residue_range c x Hb) as Hx. rewrite query_clear by (apply Hb || lia).
  split.
  - intros [Hr Hf]. split; [lia|]. specialize (Hne x ltac:(lia)).
    by rewrite (proj2 (Z.eqb_neq _ _) Hne) in Hf.
  - intros [Hr Hf]. destruct (Z.eq_dec x (seq_low c)) as [->|Hxl].
    { unfold off in Hq. by rewrite Hq in Hf. }
    split; [lia|]. by rewrite Hf, andb_false_r.
Qed.

Lemma advance_spec (fuel : nat) (c : credits) :
  win_base c -> seq_range c < Z.of_nat fuel ->
  exists c', advance fuel c (seq_low c mod max_credits c) = Some c' /\ win_seq c' /\
    same_limits c c' /\ (forall x, available c' x <-> available c x).
Proof.
  revert c. induction fuel as [|fuel IH]; intros c Hb Hf; [pose proof (wk_range _ Hb); lia|].
  cbn [advance]. destruct (bitmap_query (credits_bm c) (seq_low c mod max_credits c)) eqn:Hq.
  2: { exists c. by split_and!. }
  destruct (advance_step c Hb Hq) as (Hb' & Hl & Ha & Hlow & Hrg & Hpos).
  set (c1 := Credits _ _ _ _ _ _) in *.
  rewrite (umod_max c1 _ Hb'). cbn [mbind option_bind].
  destruct (IH c1 Hb' ltac:(lia)) as (c' & -> & Hs & Hl' & Ha'). exists c'.
  split; [done|]. split; [done|]. split; [|intros x; by rewrite Ha', Ha].
  unfold same_limits in *. destruct Hl as (? & ? & ? & ?), Hl' as (? & ? & ? & ?).
  split_and!; congruence.
Qed.

(** Marking an unused id of the window. *)
Lemma mark_id (c : credits) (id : Z) :
  win_base c -> available c id ->
  let c' := with_bitmap c (bitmap_set (credits_bm c) (id mod max_credits c)).2 in
  win_base c' /\ same_limits c c' /\
  (forall x, available c' x <-> available c x /\ x <> id) /\
  (forall x, seq_low c <= x < seq_high c ->
     bitmap_query (credits_bm c') (x mod max_credits c) =
     (x =? id) || bitmap_query (credits_bm c) (x mod max_credits c)).
Proof.
  intros Hb [Hid Hf]. set (off := id mod max_credits c).
  assert (0 <= off < bm_n (credits_bm c)) as Hoff by (apply residue_range, Hb).
  assert (forall x, seq_low c <= x < seq_high c ->
     bitmap_query (bitmap_set (credits_bm c) off).2 (x mod max_credits c) =
     (x =? id) || bitmap_query (credits_bm c) (x mod max_credits c)) as Hq.
  { intros x Hx. pose proof (residue_range c x Hb). rewrite query_set by (apply Hb || lia).
    destruct (Z.eqb_spec x id) as [->|Hne]; [by rewrite Z.eqb_refl|].
    rewrite (proj2 (Z.eqb_neq _ _)); [done|]. intros He. by apply Hne, (window_inj c). }
  split; [|split; [done|split; [|exact Hq]]].
  - split; simpl; try apply Hb.
    + apply bitmap_set_wf, Hb.
    + rewrite bm_n_set. apply Hb.
    + intros i Hi Hqi. rewrite query_set in Hqi by (apply Hb || done).
      destruct (Z.eqb_spec i off) as [->|_]; [by exists id|]. by apply Hb.
  - intros x. unfold available. simpl. fold (seq_high c).
    change (seq_high (with_bitmap c _)) with (seq_high c).
    split.
    + intros [Hx Hqx]. rewrite Hq in Hqx by done. apply orb_false_iff in Hqx as [Hne Hqx].
      apply Z.eqb_neq in Hne. done.
    + intros [[Hx Hqx] Hne]. split; [done|]. rewrite Hq, Hqx by done.
      by rewrite (proj2 (Z.eqb_neq _ _) Hne).
Qed.

Lemma high_fits (c : credits) : win_base c -> u64 (seq_low c + seq_range c) = seq_high c.
Proof.
  intros Hb. apply u64_id. pose proof (wk_low _ Hb). pose proof (wk_range _ Hb).
  pose proof (wk_top _ Hb). unfold seq_high, UINT64_MAX', in_w in *. lia.
Qed.

Lemma validate_seq_spec (c : credits) (id : Z) :
  win_seq c ->
  exists ok c', smb2_validate_sequence_number c id = Some (ok, c') /\
    (ok = true <-> available c id) /\
    (ok = true -> win_seq c' /\ same_limits c c' /\
       forall x, available c' x <-> available c x /\ x <> id).
Proof.
  intros [Hb Hlow]. unfold smb2_validate_sequence_number. rewrite high_fits by done.
  destruct (Z.ltb_spec id (seq_low c)).
  { exists false, c. split; [done|]. split; [|done]. split; [done|]. intros [? _]. lia. }
  destruct (Z.leb_spec (seq_high c) id).
  { exists false, c. split; [done|]. split; [|done]. split; [done|]. intros [? _]. lia. }
  rewrite umod_max by done. cbn [mbind option_bind].
  destruct (bitmap_query (credits_bm c) (id mod max_credits c)) eqn:Hq.
  { exists false, c. split; [done|]. split; [|done]. split; [done|]. intros [_ ?]. congruence. }
  assert (available c id) as Hav by done.
  destruct (mark_id c id Hb Hav) as (Hb1 & Hl1 & Ha1 & Hq1).
  set (c1 := with_bitmap c _) in *. change (seq_low c1) with (seq_low c).
  destruct (Z.eqb_spec id (seq_low c)) as [He|Hne]; cbn [negb].
  - destruct (advance_spec (S (Z.to_nat (seq_range c1))) c1 Hb1) as (c' & Hadv & Hs & Hl & Ha).
    { pose proof (wk_range _ Hb1). lia. }
    rewrite He. change (seq_low c mod max_credits c) with (seq_low c1 mod max_credits c1).
    rewrite Hadv. cbn [mbind option_bind]. exists true, c'. split; [done|].
    split; [rewrite <- He; done|]. intros _. split; [done|]. split; [|intros x; rewrite <- He, Ha; apply Ha1].
    unfold same_limits in *. destruct Hl as (? & ? & ? & ?), Hl1 as (? & ? & ? & ?). split_and!; congruence.
  - exists true, c1. split; [done|]. split; [done|]. intros _. split; [|done]. split; [done|].
    change (seq_low c1 mod max_credits c1) with (seq_low c mod max_credits c).
    destruct (Z.lt_ge_cases (seq_low c) (seq_high c)) as [Hlt|]; [|lia].
    rewrite Hq1 by lia. rewrite Hlow. rewrite (proj2 (Z.eqb_neq _ _)); [done|congruence].
Qed.

(** ** Requests *)

(** The ids of a request. *)
Definition request_ids (c : credits) (inhdr : list Z) : list Z :=
  if SVAL inhdr SMB2_HDR_OPCODE =? SMB2_OP_CANCEL then []
  else seqZ (BVAL inhdr SMB2_HDR_MESSAGE_ID) (credit_charge_of c inhdr).

Lemma validate_ids_spec (n : nat) (c : credits) (id : Z) :
  win_seq c -> 0 <= id ->
  exists ok c', validate_ids n c id = Some (ok, c') /\
    (ok = true <-> forall x, id <= x < id + Z.of_nat n -> available c x) /\
    (ok = true -> win_seq c' /\ same_limits c c' /\
       forall x, available c' x <-> available c x /\ ~ (id <= x < id + Z.of_nat n)).
Proof.
  revert c id. induction n as [|n IH]; intros c id Hs Hid; cbn [validate_ids].
  { exists true, c. split; [done|]. split; [split; [intros _ x; lia|done]|]. intros _.
    split; [done|]. split; [done|]. intros x. split; [intros ?; split; [done|lia]|tauto]. }
  destruct (validate_seq_spec c id Hs) as (ok & c1 & -> & Hok & Hc1). cbn [mbind option_bind].
  destruct ok.
  2: { exists false, c1. split; [done|]. split; [|done]. split; [done|]. intros Hall.
       apply Hok, Hall. lia. }
  destruct (Hc1 eq_refl) as (Hs1 & Hl1 & Ha1). destruct (proj1 Hok eq_refl) as [Hrg _].
  assert (u64 (id + 1) = id + 1) as ->.
  { apply u64_id. pose proof (wk_top _ (proj1 Hs)). unfold UINT64_MAX', in_w in *. lia. }
  destruct (IH c1 (id + 1) Hs1 ltac:(lia)) as (ok & c2 & -> & Hok2 & Hc2). exists ok, c2.
  split; [done|]. split.
  - rewrite Hok2. split; intros Hall x Hx.
    + destruct (Z.eq_dec x id) as [->|]; [by apply Hok|]. apply Ha1, Hall. lia.
    + apply Ha1. split; [apply Hall|]; lia.
  - intros E. destruct (Hc2 E) as (Hs2 & Hl2 & Ha2). split; [done|]. split.
    + unfold same_limits in *. destruct Hl1 as (? & ? & ? & ?), Hl2 as (? & ? & ? & ?). split_and!; congruence.
    + intros x. rewrite Ha2, Ha1. split.
      * intros [[? ?] ?]. split; [done|]. lia.
      * intros [? ?]. split; [split; [done|lia]|lia].
Qed.

(** ** Counting *)

Lemma card_ext (P Q : Z -> Prop) (n : Z) : (forall x, P x <-> Q x) -> has_card P n -> has_card Q n.
Proof. intros Heq (l & Hn & Hl & Hlen). exists l. split_and!; [done| |done]. intros x. by rewrite Hl. Qed.

Lemma card_remove (P : Z -> Prop) (n : Z) (ids : list Z) :
  has_card P n -> NoDup ids -> (forall x, x ∈ ids -> P x) ->
  has_card (fun x => P x /\ x ∉ ids) (n - Z.of_nat (length ids)).
Proof.
  intros (l & Hn & Hl & Hlen) Hids Hsub.
  set (rest := filter (fun x => x ∉ ids) l).
  assert (l ≡ₚ ids ++ rest) as Hp.
  { apply NoDup_Permutation; [done| |].
    - apply NoDup_app. split; [done|]. split; [|by apply NoDup_filter].
      intros x Hx. unfold rest. rewrite list_elem_of_filter. tauto.
    - intros x. unfold rest. rewrite elem_of_app, list_elem_of_filter. split.
      + intros Hx. destruct (decide (x ∈ ids)); tauto.
      + intros [Hx|[_ Hx]]; [by apply Hl, Hsub|done]. }
  exists rest. split_and!.
  - by apply NoDup_filter.
  - intros x. unfold rest. rewrite list_elem_of_filter, Hl. tauto.
  - rewrite <- Hlen, Hp, length_app. lia.
Qed.

Lemma card_add (P : Z -> Prop) (n a g : Z) :
  has_card P n -> 0 <= g -> (forall x, P x -> x < a) ->
  has_card (fun x => P x \/ a <= x < a + g) (n + g).
Proof.
  intros (l & Hn & Hl & Hlen) Hg Hlt. exists (l ++ seqZ a g). split_and!.
  - apply NoDup_app. split; [done|]. split; [|apply NoDup_seqZ].
    intros x Hx. rewrite elem_of_seqZ. apply Hl, Hlt in Hx. lia.
  - intros x. by rewrite elem_of_app, elem_of_seqZ, Hl.
  - rewrite length_app, length_seqZ. lia.
Qed.

Lemma card_bound (P : Z -> Prop) (n a b : Z) :
  has_card P n -> (forall x, P x -> a <= x < b) -> a <= b -> 0 <= n <= b - a.
Proof.
  intros (l & Hn & Hl & Hlen) Hr Hab. split; [lia|].
  assert (l ⊆+ seqZ a (b - a)) as Hsub.
  { apply NoDup_submseteq; [done|]. intros x Hx. apply elem_of_seqZ. apply Hl, Hr in Hx. lia. }
  apply submseteq_length in Hsub. rewrite length_seqZ in Hsub. lia.
Qed.

Lemma granted_bound (c : credits) : win_ok c -> 0 <= granted c <= seq_range c.
Proof.
  intros [[Hb _] Hc]. pose proof (wk_range _ Hb).
  pose proof (card_bound _ _ (seq_low c) (seq_high c) Hc) as H'. unfold seq_high in *.
  specialize (H' ltac:(intros x [? _]; done) ltac:(lia)). lia.
Qed.

(** ** Messages *)

Definition hdr_ok (h : list Z) : Prop := Forall is_byte h.

Lemma field_range (n : nat) (h : list Z) (p : nat) :
  hdr_ok h -> 0 <= le_value (take n (drop p h)) < 256 ^ Z.of_nat n.
Proof.
  intros Hh.
  pose proof (le_value_bound (take n (drop p h)) ltac:(by apply Forall_take, Forall_drop)) as H.
  split; [lia|]. apply Z.lt_le_trans with (256 ^ Z.of_nat (length (take n (drop p h)))); [lia|].
  apply Z.pow_le_mono_r; [lia|]. rewrite length_take. lia.
Qed.

Lemma charge_range (c : credits) (h : list Z) : hdr_ok h -> 1 <= credit_charge_of c h < 2 ^ 16.
Proof.
  intros Hh. unfold credit_charge_of, SVAL. pose proof (field_range 2 h SMB2_HDR_CREDIT_CHARGE Hh) as H.
  change (256 ^ Z.of_nat 2) with (2 ^ 16) in H. destruct (multicredit c); lia.
Qed.

Lemma message_id_nonneg (h : list Z) : hdr_ok h -> 0 <= BVAL h SMB2_HDR_MESSAGE_ID.
Proof. intros Hh. by apply field_range. Qed.

Definition with_granted (c : credits) (g : Z) : credits :=
  Credits (seq_low c) (seq_range c) g (max_credits c) (credits_bm c) (multicredit c).

Lemma win_seq_granted (c : credits) (g : Z) : win_seq c -> win_seq (with_granted c g).
Proof. intros [[] Hl]. by split. Qed.

Lemma validate_message_spec (c : credits) (h : list Z) :
  win_ok c -> hdr_ok h ->
  exists ok c', smb2_validate_message_id c h = Some (ok, c') /\
    (ok = true <-> forall x, x ∈ request_ids c h -> available c x) /\
    (ok = true -> win_ok c' /\ max_credits c' = max_credits c /\ multicredit c' = multicredit c /\
       seq_high c' = seq_high c /\
       forall x, available c' x <-> available c x /\ x ∉ request_ids c h).
Proof.
  intros [Hs Hcard] Hh. pose proof (granted_bound c (conj Hs Hcard)) as Hgb.
  pose proof (charge_range c h Hh) as Hch. pose proof (message_id_nonneg h Hh) as Hmid.
  unfold smb2_validate_message_id, request_ids. destruct (_ =? SMB2_OP_CANCEL).
  { exists true, c. split; [done|]. split; [split; [intros _ x Hx; by apply not_elem_of_nil in Hx|done]|].
    intros _. split_and!; try done. intros x. split; [intros ?; split; [done|apply not_elem_of_nil]|tauto]. }
  set (mid := BVAL h SMB2_HDR_MESSAGE_ID) in *. set (ch := credit_charge_of c h) in *.
  assert (forall x, x ∈ seqZ mid ch <-> mid <= x < mid + ch) as Hin by (intros x; apply elem_of_seqZ).
  destruct (Z.ltb_spec (granted c) ch) as [Hlt|Hge].
  { exists false, c. split; [done|]. split; [|done]. split; [done|]. intros Hall. exfalso.
    pose proof (card_remove _ _ (seqZ mid ch) Hcard ltac:(apply NoDup_seqZ) Hall) as (l & _ & _ & Hl).
    rewrite length_seqZ in Hl. lia. }
  destruct (validate_ids_spec (Z.to_nat ch) c mid Hs Hmid) as (ok & c1 & -> & Hok & Hc1).
  cbn [mbind option_bind]. rewrite Z2Nat.id in Hok, Hc1 by lia.
  destruct ok.
  2: { exists false, c1. split; [done|]. split; [|done]. rewrite Hok. by setoid_rewrite Hin. }
  destruct (Hc1 eq_refl) as (Hs1 & (Hg1 & Hm1 & Hmu1 & Hh1) & Ha1).
  pose proof (wk_max _ (proj1 Hs)) as Hmax. pose proof (wk_range _ (proj1 Hs)) as Hrg.
  rewrite Hg1, u16_id by (unfold in_w; lia).
  exists true, (with_granted c1 (granted c - ch)). split; [done|].
  split; [rewrite Hok; by setoid_rewrite Hin|]. intros _.
  assert (forall x, available (with_granted c1 (granted c - ch)) x <->
                    available c x /\ x ∉ seqZ mid ch) as Ha2.
  { intros x. change (available (with_granted c1 (granted c - ch)) x) with (available c1 x).
    by rewrite Ha1, Hin. }
  split; [split; [by apply win_seq_granted|]|
    split_and!; [exact Hm1|exact Hmu1|exact Hh1|exact Ha2]].
  eapply card_ext; [intros x; symmetry; apply Ha2|].
  pose proof (card_remove _ _ (seqZ mid ch) Hcard ltac:(apply NoDup_seqZ)) as Hr.
  rewrite length_seqZ, Z2Nat.id in Hr by lia. apply Hr. intros x Hx. apply Hok; [done|]. by apply Hin.
Qed.

(** ** Replies *)

Lemma wanted_range (c : credits) (inh outh : list Z) :
  win_base c -> hdr_ok inh -> credit_charge_of c inh <= max_credits c ->
  0 <= wanted_credits c inh outh <= max_credits c /\
  (has_bits (IVAL outh SMB2_HDR_FLAGS) SMB2_HDR_FLAG_ASYNC = false ->
   credit_charge_of c inh <= wanted_credits c inh outh).
Proof.
  intros Hb Hh Hle. pose proof (wk_max _ Hb) as Hmax. pose proof (charge_range c inh Hh) as Hch.
  pose proof (field_range 2 inh SMB2_HDR_CREDIT Hh) as Hrq. fold (SVAL inh SMB2_HDR_CREDIT) in Hrq.
  change (256 ^ Z.of_nat 2) with (2 ^ 16) in Hrq. unfold wanted_credits. cbv zeta.
  destruct (has_bits _ SMB2_HDR_FLAG_ASYNC); [split; [lia|done]|].
  set (am := if _ =? SMB2_OP_NEGPROT then 0 else _).
  assert (0 <= am <= max_credits c) as Ham by (unfold am; repeat case_if; lia).
  rewrite (u16_id (max_credits c - _)), (u16_id (_ - 1)) by (unfold in_w; lia).
  rewrite u16_id by (unfold in_w; lia). split; [lia|]. intros _. lia.
Qed.

Lemma possible_range (c : credits) :
  win_base c -> credits_possible c = Z.min (UINT64_MAX' - seq_low c - 1) (max_credits c) - seq_range c /\
  0 <= credits_possible c.
Proof.
  intros Hb. pose proof (wk_max _ Hb) as Hmax. pose proof (wk_top _ Hb) as Ht.
  pose proof (wk_range _ Hb) as Hr. pose proof (wk_low _ Hb) as Hl.
  unfold credits_possible, seq_high, UINT64_MAX' in *. rewrite (proj2 (Z.ltb_lt _ _)) by lia.
  rewrite (Z.max_l _ 1) by lia. rewrite u64_id by (unfold in_w; lia). lia.
Qed.

Lemma set_credit_spec (c : credits) (inh outh : list Z) :
  win_ok c -> hdr_ok inh -> credit_charge_of c inh <= max_credits c ->
  exists g c', smb2_set_operation_credit c inh outh = Some (c', SSVAL outh SMB2_HDR_CREDIT g) /\
    g = Z.min (wanted_credits c inh outh) (credits_possible c) /\ 0 <= g /\
    win_ok c' /\ granted c' = granted c + g /\ max_credits c' = max_credits c /\
    multicredit c' = multicredit c /\ seq_low c' = seq_low c /\ seq_high c' = seq_high c + g /\
    forall x, available c' x <-> available c x \/ seq_high c <= x < seq_high c + g.
Proof.
  intros [[Hb Hlow] Hcard] Hh Hle.
  pose proof (granted_bound c (conj (conj Hb Hlow) Hcard)) as Hgb.
  destruct (wanted_range c inh outh Hb Hh Hle) as [Hw _]. destruct (possible_range c Hb) as [Hp Hp0].
  pose proof (wk_max _ Hb) as Hmax. pose proof (wk_range _ Hb) as Hr. pose proof (wk_low _ Hb) as Hl.
  unfold smb2_set_operation_credit. rewrite !(proj2 (Z.ltb_ge _ _)) by lia. cbv zeta.
  set (g := Z.min _ _). assert (0 <= g <= credits_possible c) as Hg by (unfold g; lia).
  rewrite !u16_id by (unfold in_w; lia).
  eexists g, _. split; [done|]. split; [done|]. split; [lia|].
  set (c' := Credits _ _ _ _ _ _).
  assert (forall x, available c' x <-> available c x \/ seq_high c <= x < seq_high c + g) as Ha.
  { intros x. unfold available, seq_high, c'. cbn [seq_low seq_range max_credits credits_bm]. split.
    - intros [Hx Hq]. destruct (Z.lt_ge_cases x (seq_low c + seq_range c)); [left|right]; split; lia || done.
    - intros [[Hx Hq]|Hx]; [split; [lia|done]|]. split; [lia|].
      destruct (bitmap_query (credits_bm c) (x mod max_credits c)) eqn:Hq; [|done]. exfalso.
      destruct (wk_bits _ Hb _ (proj1 (residue_range c x Hb)) Hq) as (id & Hid & Hm).
      unfold seq_high in Hid. enough (id = x) by lia.
      apply (residue_inj (seq_low c) (seq_range c + g) (max_credits c)); [lia|lia|lia|lia|done]. }
  assert (win_base c') as Hb'.
  { destruct Hb. split; unfold seq_high, c' in *; cbn [seq_low seq_range max_credits credits_bm] in *;
      try done; try lia. intros i Hi Hq. destruct (wk_bits0 i Hi Hq) as (id & Hid & Hm).
    exists id. split; [lia|done]. }
  split; [split; [by split|]|].
  - eapply card_ext; [intros x; symmetry; apply Ha|]. apply card_add; [done|lia|].
    intros x [? _]. lia.
  - split_and!; try done. unfold seq_high, c'. cbn [seq_low seq_range]. lia.
Qed.

(** ** Runs *)

(** A connection with the ids it has accepted so far, in order. Negotiation may
    switch multi-credit support. *)
Inductive smb2_run (c0 : credits) : list Z -> credits -> Prop :=
| run_start : smb2_run c0 [] c0
| run_request acc c h c' :
    smb2_run c0 acc c -> hdr_ok h -> smb2_validate_message_id c h = Some (true, c') ->
    smb2_run c0 (acc ++ request_ids c h) c'
| run_reply acc c inh outh c' outh' :
    smb2_run c0 acc c -> hdr_ok inh -> smb2_set_operation_credit c inh outh = Some (c', outh') ->
    smb2_run c0 acc c'
| run_multicredit acc c b :
    smb2_run c0 acc c ->
    smb2_run c0 acc (Credits (seq_low c) (seq_range c) (granted c) (max_credits c) (credits_bm c) b).

Lemma initial_ok (p low : Z) (multi : bool) :
  1 <= p < 2 ^ 16 -> 0 <= low < UINT64_MAX' - 1 -> win_ok (initialize_credits p low multi).
Proof.
  intros Hp Hlow. unfold initialize_credits. rewrite u16_id by (unfold in_w; lia).
  set (c := Credits _ _ _ _ _ _).
  assert (forall i, 0 <= i -> bitmap_query (bitmap_talloc p) i = false) as Hq by (intros; by apply query_talloc).
  assert (0 <= low mod p) by (apply Z.mod_pos_bound; lia).
  split; [split; [split|]|]; unfold c, seq_high; cbn [seq_low seq_range max_credits credits_bm granted];
    try lia; try done.
  - apply bitmap_talloc_wf. lia.
  - intros i Hi Ht. by rewrite Hq in Ht.
  - by apply Hq.
  - exists [low]. split_and!; [apply NoDup_singleton| |done]. intros x. rewrite list_elem_of_singleton.
    unfold available, seq_high. cbn [seq_low seq_range max_credits credits_bm]. split.
    + intros ->. split; [lia|by apply Hq].
    + intros [? _]. lia.
Qed.

Lemma set_credit_charge (c : credits) (inh outh : list Z) (r : credits * list Z) :
  smb2_set_operation_credit c inh outh = Some r -> credit_charge_of c inh <= max_credits c.
Proof.
  unfold smb2_set_operation_credit. destruct (_ <? granted c); [done|].
  destruct (Z.ltb_spec (max_credits c) (credit_charge_of c inh)); [done|lia].
Qed.

Definition run_inv (acc : list Z) (c : credits) : Prop :=
  win_ok c /\ NoDup acc /\ forall x, x ∈ acc -> x < seq_high c /\ ~ available c x.

Lemma run_invariant (c0 : credits) (acc : list Z) (c : credits) :
  win_ok c0 -> smb2_run c0 acc c -> run_inv acc c.
Proof.
  intros H0 Hrun. induction Hrun as [|acc c h c' Hrun IH Hh Hv|acc c inh outh c' outh' Hrun IH Hh Hs|acc c b Hrun IH].
  - split; [done|]. split; [apply NoDup_nil_2|]. intros x Hx. by apply not_elem_of_nil in Hx.
  - destruct IH as (Hok & Hnd & Hacc). destruct (validate_message_spec c h Hok Hh)
      as (ok & c1 & Hv' & Hall & Hc1). rewrite Hv in Hv'. injection Hv' as <- <-.
    destruct (Hc1 eq_refl) as (Hok' & _ & _ & Hhigh & Hav).
    split; [done|]. split.
    + apply NoDup_app. split; [done|]. split.
      * intros x Hx Hx'. destruct (Hacc x Hx) as [_ Hn]. by apply Hn, Hall.
      * unfold request_ids. case_if; [apply NoDup_nil_2|apply NoDup_seqZ].
    + intros x Hx. rewrite Hhigh, Hav. apply elem_of_app in Hx as [Hx|Hx].
      * destruct (Hacc x Hx). tauto.
      * destruct (proj1 Hall eq_refl x Hx) as [? _]. split; [lia|tauto].
  - destruct IH as (Hok & Hnd & Hacc).
    destruct (set_credit_spec c inh outh Hok Hh (set_credit_charge _ _ _ _ Hs))
      as (g & c1 & Hs' & _ & Hg & Hok' & _ & _ & _ & _ & Hhigh & Hav).
    rewrite Hs in Hs'. injection Hs' as <- _. split; [done|]. split; [done|]. intros x Hx.
    destruct (Hacc x Hx) as [Hlt Hn]. rewrite Hhigh, Hav. split; [lia|]. intros [?|?]; [tauto|lia].
  - destruct IH as ([[[] Hl] Hcard] & Hnd & Hacc). by split.
Qed.

(** ** Properties *)

(** C9. No message id is used twice: on every run of a connection that starts
    with a usable parameter, the ids the server has accepted are all different
    and below UINT64_MAX, and none of them would be accepted again. *)
Theorem smb2_no_replay (p low : Z) (multi : bool) (acc : list Z) (c : credits) :
  1 <= p < 2 ^ 16 -> 0 <= low < UINT64_MAX' - 1 ->
  smb2_run (initialize_credits p low multi) acc c ->
  NoDup acc /\
  forall x, x ∈ acc -> x < UINT64_MAX' /\
    exists c', smb2_validate_sequence_number c x = Some (false, c').
Proof.
  intros Hp Hlow Hrun.
  destruct (run_invariant _ _ _ (initial_ok p low multi Hp Hlow) Hrun) as ([Hs Hcard] & Hnd & Hacc).
  split; [done|]. intros x Hx. destruct (Hacc x Hx) as [Hlt Hn]. split.
  - pose proof (wk_top _ (proj1 Hs)). lia.
  - destruct (validate_seq_spec c x Hs) as (ok & c' & Hv & Hok & _). exists c'.
    destruct ok; [|done]. by destruct Hn; apply Hok.
Qed.

(** Header of a request: charge, opcode, credits asked for and message id. *)
Definition mk_hdr (charge opcode asked mid : Z) : list Z :=
  [0xFE; 0x53; 0x4D; 0x42; 0x40; 0] ++ le_bytes 2 charge ++ replicate 4 0 ++ le_bytes 2 opcode ++
  le_bytes 2 asked ++ replicate 8 0 ++ le_bytes 8 mid ++ replicate 32 0.

Lemma mk_hdr_ok (charge opcode asked mid : Z) : hdr_ok (mk_hdr charge opcode asked mid).
Proof.
  unfold hdr_ok, mk_hdr. rewrite !Forall_app.
  split_and!; try apply le_bytes_bytes; try (apply Forall_replicate; unfold is_byte; lia).
  repeat (apply Forall_cons; split); try apply Forall_nil_2; unfold is_byte; lia.
Qed.

(** The connection after the negotiation of id 0 and a reply with 4 credits. *)
Definition start_conn : credits := initialize_credits 8192 0 true.
Definition conn_1 : credits :=
  match smb2_validate_message_id start_conn (mk_hdr 1 5 5 0) with
  | Some (_, c) => c | None => start_conn end.
Definition conn_2 : credits :=
  match smb2_set_operation_credit conn_1 (mk_hdr 1 5 5 0) (mk_hdr 0 5 0 0) with
  | Some (c, _) => c | None => conn_1 end.

Lemma conn_2_run : smb2_run start_conn [0] conn_2.
Proof.
  apply (run_reply start_conn [0] conn_1 (mk_hdr 1 5 5 0) (mk_hdr 0 5 0 0) conn_2
           (mk_hdr 0 5 5 0)); [|apply mk_hdr_ok|vm_compute; reflexivity].
  apply (run_request start_conn [] start_conn (mk_hdr 1 5 5 0) conn_1);
    [apply run_start|apply mk_hdr_ok|vm_compute; reflexivity].
Qed.

Lemma smb2_no_replay_witness :
  NoDup [0] /\
  forall x, x ∈ [0] -> x < UINT64_MAX' /\
    exists c', smb2_validate_sequence_number conn_2 x = Some (false, c').
Proof.
  apply (smb2_no_replay 8192 0 true [0] conn_2); [lia|unfold UINT64_MAX'; lia|exact conn_2_run].
Defined.

(** C10. The window implements the set of usable ids: on every run, a request is
    accepted exactly when all its ids are in the set, acceptance removes exactly
    them, and a reply adds the next ids above the window; the number of credits
    granted is the size of the set. *)
Theorem smb2_window_refines (p low : Z) (multi : bool) (acc : list Z) (c : credits) :
  1 <= p < 2 ^ 16 -> 0 <= low < UINT64_MAX' - 1 ->
  smb2_run (initialize_credits p low multi) acc c ->
  has_card (available c) (granted c) /\
  (forall h, hdr_ok h ->
     exists ok c', smb2_validate_message_id c h = Some (ok, c') /\
       (ok = true <-> forall x, x ∈ request_ids c h -> available c x) /\
       (ok = true -> has_card (available c') (granted c') /\
          forall x, available c' x <-> available c x /\ x ∉ request_ids c h)) /\
  (forall inh outh, hdr_ok inh -> credit_charge_of c inh <= max_credits c ->
     exists g c', smb2_set_operation_credit c inh outh = Some (c', SSVAL outh SMB2_HDR_CREDIT g) /\
       0 <= g /\ has_card (available c') (granted c') /\
       forall x, available c' x <-> available c x \/ seq_high c <= x < seq_high c + g).
Proof.
  intros Hp Hlow Hrun.
  destruct (run_invariant _ _ _ (initial_ok p low multi Hp Hlow) Hrun) as (Hok & _ & _).
  split; [apply Hok|]. split.
  - intros h Hh. destruct (validate_message_spec c h Hok Hh) as (ok & c' & Hv & Hall & Hc).
    exists ok, c'. split; [done|]. split; [done|]. intros E.
    destruct (Hc E) as (Hok' & _ & _ & _ & Hav). by split; [apply Hok'|].
  - intros inh outh Hh Hle. destruct (set_credit_spec c inh outh Hok Hh Hle)
      as (g & c' & Hs & _ & Hg & Hok' & _ & _ & _ & _ & _ & Hav).
    exists g, c'. split; [done|]. split; [done|]. by split; [apply Hok'|].
Qed.

Lemma smb2_window_refines_witness :
  has_card (available conn_2) 5 /\
  exists ok c', smb2_validate_message_id conn_2 (mk_hdr 3 5 1 2) = Some (ok, c') /\
    (ok = true <-> forall x, x ∈ request_ids conn_2 (mk_hdr 3 5 1 2) -> available conn_2 x).
Proof.
  destruct (smb2_window_refines 8192 0 true [0] conn_2 ltac:(lia) ltac:(unfold UINT64_MAX'; lia) conn_2_run)
    as (H1 & H2 & _).
  split; [exact H1|]. destruct (H2 (mk_hdr 3 5 1 2) (mk_hdr_ok 3 5 1 2)) as (ok & c' & Hv & Hok & _).
  exists ok, c'. split; [exact Hv|exact Hok].
Defined.

(** C39. Credits never run out: on every run, a reply that is not the final
    answer to an asynchronous request leaves the client at least one credit, as
    long as ids are left below UINT64_MAX; the assertion that no more than the
    maximum is granted never fails, and at most the maximum is granted. *)
Theorem smb2_credits_never_run_out (p low : Z) (multi : bool) (acc : list Z) (c : credits)
    (inh outh : list Z) :
  1 <= p < 2 ^ 16 -> 0 <= low < UINT64_MAX' - 1 ->
  smb2_run (initialize_credits p low multi) acc c -> hdr_ok inh ->
  credit_charge_of c inh <= max_credits c ->
  exists c' outh', smb2_set_operation_credit c inh outh = Some (c', outh') /\
    granted c' <= seq_range c' <= max_credits c' /\
    (has_bits (IVAL outh SMB2_HDR_FLAGS) SMB2_HDR_FLAG_ASYNC = false ->
     seq_low c + 1 < UINT64_MAX' -> 1 <= granted c').
Proof.
  intros Hp Hlow Hrun Hh Hle.
  destruct (run_invariant _ _ _ (initial_ok p low multi Hp Hlow) Hrun) as (Hok & _ & _).
  destruct (set_credit_spec c inh outh Hok Hh Hle)
    as (g & c' & Hs & Hgeq & Hg & Hok' & Hgr & Hm & _ & Hl' & Hhigh & Hav).
  exists c', (SSVAL outh SMB2_HDR_CREDIT g). split; [done|].
  pose proof (granted_bound c' Hok') as Hb'. pose proof (wk_range _ (proj1 (proj1 Hok'))) as Hr'.
  split; [lia|]. intros Has Hroom. pose proof (granted_bound c Hok) as Hb.
  destruct (Z.eq_dec (granted c) 0) as [Hz|]; [|lia].
  destruct Hok as [[Hbase Hfree] (l & _ & Hl & Hlen)].
  assert (seq_range c = 0) as Hr0.
  { pose proof (wk_range _ Hbase). destruct (Z.eq_dec (seq_range c) 0) as [|Hnz]; [done|]. exfalso.
    assert (seq_low c ∈ l) as Hin by (apply Hl; split; [unfold seq_high; lia|done]).
    destruct l; [by apply not_elem_of_nil in Hin|simpl in Hlen; lia]. }
  destruct (possible_range c Hbase) as [Hpos _]. destruct (wanted_range c inh outh Hbase Hh Hle) as [_ Hw].
  specialize (Hw Has). pose proof (charge_range c inh Hh). pose proof (wk_max _ Hbase). lia.
Qed.

Lemma smb2_credits_never_run_out_witness :
  exists c' outh', smb2_set_operation_credit conn_2 (mk_hdr 1 5 1 1) (mk_hdr 0 5 0 1) = Some (c', outh') /\
    granted c' <= seq_range c' <= max_credits c' /\
    (has_bits (IVAL (mk_hdr 0 5 0 1) SMB2_HDR_FLAGS) SMB2_HDR_FLAG_ASYNC = false ->
     seq_low conn_2 + 1 < UINT64_MAX' -> 1 <= granted c').
Proof.
  apply (smb2_credits_never_run_out 8192 0 true [0] conn_2 (mk_hdr 1 5 1 1) (mk_hdr 0 5 0 1)).
  - lia.
  - unfold UINT64_MAX'. lia.
  - exact conn_2_run.
  - apply mk_hdr_ok.
  - vm_compute. discriminate.
Defined.

(** A maximum of 65536 credits ends the process: the parameter is an int
    without an upper limit, the connection keeps its low 16 bits, and the first
    message then divides by zero. *)
Theorem max_credits_zero_divides :
  max_credits (initialize_credits 65536 0 true) = 0 /\
  smb2_validate_message_id (initialize_credits 65536 0 true) (mk_hdr 1 0 1 0) = None.
Proof. vm_compute. by split. Qed.

#[local] Ltac Zify.zify_post_hook ::= Z.to_euclidean_division_equations.

(** The credit charge covers the payload: for lengths up to 2^32 - 65536 a
    request passes exactly when its charge pays for every started 64 KiB of
    payload; for the 65535 larger lengths the 16-bit value is 0 and every
    charge passes. *)
Theorem verify_creditcharge_exact (c : credits) (h : list Z) (data_length : Z) :
  hdr_ok h -> 0 <= data_length < 2 ^ 32 ->
  smbd_smb2_request_verify_creditcharge c h data_length =
  if (data_length <=? 65536 * credit_charge_of c h) || (2 ^ 32 - 65536 <? data_length)
  then NT_STATUS_OK else NT_STATUS_INVALID_PARAMETER.
Proof.
  intros Hh Hd. pose proof (charge_range c h Hh) as Hch.
  unfold smbd_smb2_request_verify_creditcharge, needed_charge, u16, u32.
  set (ch := credit_charge_of c h) in *.
  destruct (Z.eq_dec data_length 0) as [->|Hnz].
  { change (((0 - 1) mod 2 ^ 32 / 65536 + 1) mod 2 ^ 16) with 0.
    rewrite (proj2 (Z.ltb_ge ch 0)), (proj2 (Z.leb_le 0 (65536 * ch))) by lia. done. }
  rewrite (Z.mod_small (data_length - 1)) by lia.
  destruct (Z.ltb_spec (2 ^ 32 - 65536) data_length) as [Hbig|Hsmall].
  - assert ((data_length - 1) / 65536 = 65535) as -> by lia.
    change ((65535 + 1) mod 2 ^ 16) with 0. rewrite orb_true_r, (proj2 (Z.ltb_ge ch 0)) by lia. done.
  - rewrite orb_false_r, Z.mod_small by lia.
    destruct (Z.ltb_spec ch ((data_length - 1) / 65536 + 1)), (Z.leb_spec data_length (65536 * ch));
      try done; lia.
Qed.

Lemma verify_creditcharge_exact_witness :
  smbd_smb2_request_verify_creditcharge conn_2 (mk_hdr 2 8 1 1) 131073 = NT_STATUS_INVALID_PARAMETER /\
  smbd_smb2_request_verify_creditcharge conn_2 (mk_hdr 1 8 1 1) (2 ^ 32 - 1) = NT_STATUS_OK.
Proof.
  split.
  - refine (eq_trans (verify_creditcharge_exact conn_2 (mk_hdr 2 8 1 1) 131073 _ _) _);
      [apply mk_hdr_ok|lia|vm_compute; reflexivity].
  - refine (eq_trans (verify_creditcharge_exact conn_2 (mk_hdr 1 8 1 1) (2 ^ 32 - 1) _ _) _);
      [apply mk_hdr_ok|lia|vm_compute; reflexivity].
Defined.
