(* ===== verification/Smb2Compound.v ===== *)
(** * SMB2 compound requests

    [smbd_smb2_inbuf_parse_compound] of source3/smbd/smb2_server.c: how a
    received buffer is cut into the header, body and dynamic parts of its
    requests. Pointers into the buffer are offsets. Decryption in place, the
    session lookup and the configuration are parameters. *)

From S2P Require Import Prelude.
From S2P Require Import Smb2Credits.
From stdpp Require Import prelude list.

#[local] Open Scope Z_scope.

Definition SMB2_TF_MAGIC : Z := 0x424D53FD.
Definition SMB2_TF_HDR_SIZE : Z := 52.
Definition SMB2_TF_MSG_SIZE : nat := 36.
Definition SMB2_TF_SESSION_ID : nat := 44.
Definition SMB2_HDR_NEXT_COMMAND : nat := 20.
Definition HDR_BODY : Z := 64.
Definition NT_STATUS_USER_SESSION_DELETED : NTSTATUS := 0xC0000203.

Record compound_env := Compound_env {
  transform_supported : bool;
  cipher_negotiated : bool;
  session_known : Z -> bool;
  decrypt_pdu : list Z -> Z -> Z -> NTSTATUS * list Z;
  suicide_mode : bool;
  iov_realloc_ok : bool
}.

(** The four vectors of a request: offset and length of the transform header
    (length 0 when there is none), of the header, the body and the dynamic
    part. *)
Record req_iov := Req_iov {
  tf_ofs : Z; tf_len : Z;
  hdr_ofs : Z;
  body_ofs : Z; body_len : Z;
  dyn_ofs : Z; dyn_len : Z
}.

Inductive parse_result :=
| Parsed (iovs : list req_iov) (buf : list Z)
| Parse_error (status : NTSTATUS)
| Process_exit (code : Z).

(** The state at the top of the loop. *)
Record parse_state := Parse_state {
  taken : Z;
  verified_buflen : Z;
  cur_tf : Z * Z;
  ps_buf : list Z
}.

(** The transform header at [taken]: the state after it, and the length of the
    decrypted part. *)
Definition parse_transform (env : compound_env) (st : parse_state) (len : Z)
    : NTSTATUS + parse_state * Z :=
  if negb (transform_supported env) then inl NT_STATUS_INVALID_PARAMETER
  else if negb (cipher_negotiated env) then inl NT_STATUS_INVALID_PARAMETER
  else if len <? SMB2_TF_HDR_SIZE then inl NT_STATUS_INVALID_PARAMETER
  else
    let tf := drop (Z.to_nat (taken st)) (ps_buf st) in
    let taken' := taken st + SMB2_TF_HDR_SIZE in
    let enc_len := IVAL tf SMB2_TF_MSG_SIZE in
    let uid := BVAL tf SMB2_TF_SESSION_ID in
    if len <? SMB2_TF_HDR_SIZE + enc_len then inl NT_STATUS_INVALID_PARAMETER
    else if negb (session_known env uid) then inl NT_STATUS_USER_SESSION_DELETED
    else
      let '(status, buf) := decrypt_pdu env (ps_buf st) (taken st) enc_len in
      if negb (NT_STATUS_IS_OK status) then inl status
      else inr (Parse_state taken' (taken' + enc_len) (taken st, SMB2_TF_HDR_SIZE) buf, enc_len).

(** The request at [taken], of which [len] bytes can be used: its vectors and
    the number of bytes it takes. *)
Definition parse_request (env : compound_env) (st : parse_state) (len : Z)
    : parse_result + req_iov * Z :=
  let hdr := drop (Z.to_nat (taken st)) (ps_buf st) in
  if len <? HDR_BODY + 2 then
    if (len =? 5) && (IVAL hdr 0 =? 0x74697865) && suicide_mode env
    then inl (Process_exit (nth 4 hdr 0))
    else inl (Parse_error NT_STATUS_INVALID_PARAMETER)
  else if negb (IVAL hdr 0 =? SMB2_MAGIC) then inl (Parse_error NT_STATUS_INVALID_PARAMETER)
  else if negb (SVAL hdr 4 =? HDR_BODY) then inl (Parse_error NT_STATUS_INVALID_PARAMETER)
  else
    let next_command_ofs := IVAL hdr SMB2_HDR_NEXT_COMMAND in
    let body_size := SVAL hdr SMB2_HDR_BODY in
    if negb (next_command_ofs =? 0) &&
       ((next_command_ofs <? HDR_BODY + 2) || (len <? next_command_ofs))
    then inl (Parse_error NT_STATUS_INVALID_PARAMETER)
    else
      let full_size := if negb (next_command_ofs =? 0) then next_command_ofs else len in
      if body_size <? 2 then inl (Parse_error NT_STATUS_INVALID_PARAMETER)
      else
        let body_size := Z.land body_size 0xfffe in
        let body_size := if full_size - HDR_BODY <? body_size then full_size - HDR_BODY
                         else body_size in
        let body := taken st + HDR_BODY in
        inr (Req_iov (cur_tf st).1 (cur_tf st).2 (taken st) body body_size (body + body_size)
                     (u32 (full_size - (HDR_BODY + body_size))), full_size).

(** One turn of the loop: the transform header if there is one, and the
    request. *)
Definition parse_turn (env : compound_env) (st : parse_state) (first : bool)
    : parse_result + req_iov * parse_state :=
  let buflen := Z.of_nat (length (ps_buf st)) in
  let '(len, st) :=
    if taken st <? verified_buflen st then (verified_buflen st - taken st, st)
    else (buflen - taken st, Parse_state (taken st) (verified_buflen st) (0, 0) (ps_buf st)) in
  if len <? 4 then inl (Parse_error NT_STATUS_INVALID_PARAMETER)
  else
    let magic := IVAL (drop (Z.to_nat (taken st)) (ps_buf st)) 0 in
    match (if magic =? SMB2_TF_MAGIC then parse_transform env st len else inr (st, len)) with
    | inl status => inl (Parse_error status)
    | inr (st, len) =>
        match parse_request env st len with
        | inl r => inl r
        | inr (iov, full_size) =>
            if negb first && negb (iov_realloc_ok env) then inl (Parse_error NT_STATUS_NO_MEMORY)
            else inr (iov, Parse_state (taken st + full_size) (verified_buflen st) (cur_tf st)
                             (ps_buf st))
        end
    end.

(** The loop; every turn takes at least 66 bytes, so the length of the buffer
    is enough fuel ([parse_loop_total]). *)
Fixpoint parse_loop (fuel : nat) (env : compound_env) (st : parse_state) (acc : list req_iov)
    : option parse_result :=
  match fuel with
  | O => None
  | S fuel =>
      if taken st <? Z.of_nat (length (ps_buf st)) then
        match parse_turn env st (bool_decide (acc = [])) with
        | inl r => Some r
        | inr (iov, st) => parse_loop fuel env st (acc ++ [iov])
        end
      else Some (Parsed acc (ps_buf st))
  end.

Definition smbd_smb2_inbuf_parse_compound (env : compound_env) (buf : list Z)
    : option parse_result :=
  parse_loop (S (length buf)) env (Parse_state 0 0 (0, 0) buf) [].

(** ** The requests tile the buffer *)

(** A request takes the bytes from [start] to [stop]: an optional transform
    header, then header, body and dynamic part one after the other. *)
Definition tile (start : Z) (v : req_iov) (stop : Z) : Prop :=
  (hdr_ofs v = start \/ (hdr_ofs v = start + SMB2_TF_HDR_SIZE /\ tf_ofs v = start /\
                         tf_len v = SMB2_TF_HDR_SIZE)) /\
  body_ofs v = hdr_ofs v + HDR_BODY /\ 2 <= body_len v /\
  dyn_ofs v = body_ofs v + body_len v /\ 0 <= dyn_len v /\ stop = dyn_ofs v + dyn_len v.

Fixpoint tiled (start : Z) (iovs : list req_iov) (stop : Z) : Prop :=
  match iovs with
  | [] => start = stop
  | v :: rest => exists next, tile start v next /\ tiled next rest stop
  end.

(** Decryption works in place. *)
Definition decrypt_in_place (env : compound_env) : Prop :=
  forall buf ofs n, Forall is_byte buf ->
    length (decrypt_pdu env buf ofs n).2 = length buf /\ Forall is_byte (decrypt_pdu env buf ofs n).2.

Record state_ok (n : nat) (st : parse_state) : Prop := {
  so_taken : 0 <= taken st <= Z.of_nat n;
  so_verified : verified_buflen st <= Z.of_nat n;
  so_len : length (ps_buf st) = n;
  so_bytes : Forall is_byte (ps_buf st)
}.

Lemma read_nonneg (k : nat) (buf : list Z) (p q : nat) :
  Forall is_byte buf -> 0 <= le_value (take k (drop p (drop q buf))).
Proof. intros Hb. apply le_value_bound. by apply Forall_take, Forall_drop, Forall_drop. Qed.

Lemma transform_ok (env : compound_env) (n : nat) (st st' : parse_state) (len len' : Z) :
  decrypt_in_place env -> state_ok n st -> taken st + len <= Z.of_nat n ->
  parse_transform env st len = inr (st', len') ->
  state_ok n st' /\ taken st' = taken st + SMB2_TF_HDR_SIZE /\ taken st' + len' <= Z.of_nat n /\
  cur_tf st' = (taken st, SMB2_TF_HDR_SIZE).
Proof.
  intros Hdec Hst Hlen. unfold parse_transform.
  do 3 (destruct (_ : bool); [done|]).
  set (e := IVAL _ SMB2_TF_MSG_SIZE).
  assert (0 <= e) as He by apply read_nonneg, Hst.
  destruct (Z.ltb_spec len (SMB2_TF_HDR_SIZE + e)); [done|]. destruct (negb (session_known _ _)); [done|].
  destruct (Hdec (ps_buf st) (taken st) e (so_bytes _ _ Hst)) as [Hl Hb].
  destruct (decrypt_pdu env (ps_buf st) (taken st) e) as [status buf]. cbn [snd] in Hl, Hb.
  destruct (negb _); [done|]. intros [= <- <-]. pose proof (so_taken _ _ Hst).
  unfold SMB2_TF_HDR_SIZE in *. cbn [taken cur_tf]. split; [|split_and!; lia || done].
  split; simpl; [lia|lia|rewrite Hl; apply Hst|done].
Qed.

Lemma land_even (z : Z) : 0 <= z < 2 ^ 16 -> Z.land z 0xfffe = z - z mod 2.
Proof.
  intros Hz. transitivity (Z.ldiff z 1).
  - apply Z.bits_inj'. intros i Hi. rewrite Z.ldiff_spec, Z.land_spec.
    destruct (Z.lt_ge_cases i 16) as [Hlt|Hge].
    + assert (i = 0 \/ i = 1 \/ i = 2 \/ i = 3 \/ i = 4 \/ i = 5 \/ i = 6 \/ i = 7 \/ i = 8 \/
              i = 9 \/ i = 10 \/ i = 11 \/ i = 12 \/ i = 13 \/ i = 14 \/ i = 15) as Hc by lia.
      repeat destruct Hc as [->|Hc]; try done. by rewrite Hc.
    + assert (Z.testbit z i = false) as ->; [|done].
      destruct (Z.eq_dec z 0) as [->|]; [apply Z.bits_0|]. apply Z.bits_above_log2; [lia|].
      apply Z.log2_lt_pow2; [lia|]. apply Z.lt_le_trans with (2 ^ 16); [lia|].
      by apply Z.pow_le_mono_r.
  - change 1 with (Z.ones 1). rewrite Z.ldiff_ones_r, Z.shiftr_div_pow2, Z.shiftl_mul_pow2 by lia.
    change (2 ^ 1) with 2. pose proof (Z.div_mod z 2). lia.
Qed.

Lemma request_ok (env : compound_env) (n : nat) (st : parse_state) (len : Z) (v : req_iov) (size : Z) :
  state_ok n st -> taken st + len <= Z.of_nat n < 2 ^ 32 ->
  parse_request env st len = inr (v, size) ->
  66 <= size <= len /\ tile (taken st) v (taken st + size) /\ hdr_ofs v = taken st /\
  (tf_ofs v, tf_len v) = cur_tf st.
Proof.
  intros Hst Hlen. unfold parse_request, HDR_BODY.
  destruct (Z.ltb_spec len (64 + 2)); [by destruct (_ && _ && _)|].
  destruct (negb _); [done|]. destruct (negb _); [done|].
  set (nx := IVAL _ SMB2_HDR_NEXT_COMMAND). set (bs := SVAL _ SMB2_HDR_BODY).
  destruct (_ && _) eqn:Hnx; [done|].
  set (full := if negb (nx =? 0) then nx else len).
  assert (66 <= full <= len) as Hfull.
  { unfold full. destruct (negb (nx =? 0)); simpl in Hnx; [|lia].
    apply orb_false_iff in Hnx as [H1 H2]. apply Z.ltb_ge in H1, H2. lia. }
  destruct (Z.ltb_spec bs 2); [done|].
  assert (2 <= Z.land bs 0xfffe) as Hbs.
  { assert (bs < 2 ^ 16) as Hbs16.
    { unfold bs, SVAL. pose proof (le_value_bound (take 2 (drop SMB2_HDR_BODY
        (drop (Z.to_nat (taken st)) (ps_buf st))))
        ltac:(apply Forall_take, Forall_drop, Forall_drop, Hst)) as [_ Hv].
      eapply Z.lt_le_trans; [exact Hv|]. change (2 ^ 16) with (256 ^ 2).
      apply Z.pow_le_mono_r; [lia|]. rewrite length_take. lia. }
    rewrite land_even by lia. pose proof (Z.div_mod bs 2). pose proof (Z.mod_pos_bound bs 2). lia. }
  set (b := if full - 64 <? Z.land bs 0xfffe then full - 64 else Z.land bs 0xfffe).
  assert (2 <= b <= full - 64) as Hb.
  { unfold b. destruct (Z.ltb_spec (full - 64) (Z.land bs 0xfffe)); lia. }
  pose proof (so_taken _ _ Hst). intros [= <- <-].
  unfold tile, HDR_BODY. cbn [hdr_ofs tf_ofs tf_len body_ofs body_len dyn_ofs dyn_len].
  fold b. rewrite u32_id by (unfold in_w; lia).
  split; [lia|]. split; [|split; [done|by destruct (cur_tf st)]].
  split; [by left|]. split_and!; lia.
Qed.

Lemma turn_ok (env : compound_env) (n : nat) (st st' : parse_state) (first : bool) (v : req_iov) :
  decrypt_in_place env -> state_ok n st -> Z.of_nat n < 2 ^ 32 -> taken st < Z.of_nat n ->
  parse_turn env st first = inr (v, st') ->
  state_ok n st' /\ taken st + 66 <= taken st' /\ tile (taken st) v (taken st').
Proof.
  intros Hdec Hst Hn Ht. unfold parse_turn. rewrite (so_len _ _ Hst).
  set (p := if taken st <? verified_buflen st then _ else _).
  assert (exists len st1, p = (len, st1) /\ state_ok n st1 /\ taken st1 = taken st /\
            taken st + len <= Z.of_nat n) as (len & st1 & -> & Hst1 & Ht1 & Hlen).
  { unfold p. pose proof (so_verified _ _ Hst).
    destruct (Z.ltb_spec (taken st) (verified_buflen st)); eexists _, _; (split; [done|]).
    - split; [done|]. split; [done|lia].
    - split; [|simpl; split; [done|lia]]. destruct Hst. by split. }
  destruct (Z.ltb_spec len 4); [done|].
  set (q := if _ =? SMB2_TF_MAGIC then _ else _).
  assert (forall st2 len2, q = inr (st2, len2) ->
    state_ok n st2 /\ taken st2 + len2 <= Z.of_nat n /\
    ((taken st2 = taken st) \/
     (taken st2 = taken st + SMB2_TF_HDR_SIZE /\ cur_tf st2 = (taken st, SMB2_TF_HDR_SIZE)))) as Hq.
  { intros st2 len2. unfold q. destruct (_ =? SMB2_TF_MAGIC).
    - intros Htr. destruct (transform_ok env n st1 st2 len len2 Hdec Hst1 ltac:(lia) Htr) as (? & ? & ? & ?).
      split; [done|]. split; [done|]. right. split; congruence.
    - intros [= <- <-]. split; [done|]. split; [lia|by left]. }
  destruct q as [status|[st2 len2]]; [done|]. destruct (Hq st2 len2 eq_refl) as (Hst2 & Hlen2 & Htk).
  destruct (parse_request env st2 len2) as [r|[v' size]] eqn:Hr; [done|].
  destruct (request_ok env n st2 len2 v' size Hst2 ltac:(lia) Hr) as (Hsz & Htile & Hhdr & Htf).
  destruct (negb first && _); [done|]. intros [= <- <-]. simpl.
  destruct Hst2 as [H1 H2 H3 H4]. unfold SMB2_TF_HDR_SIZE in *.
  split; [split; simpl; try done; lia|]. split; [destruct Htk as [?|[? _]]; lia|].
  unfold tile, SMB2_TF_HDR_SIZE in *. destruct Htile as (_ & Hrest). split; [|done].
  destruct Htk as [?|[? Hc]]; [left; congruence|right].
  rewrite Hc in Htf. injection Htf as -> ->. split_and!; congruence || lia.
Qed.

Lemma tiled_app (iovs : list req_iov) (v : req_iov) (a b c : Z) :
  tiled a iovs b -> tile b v c -> tiled a (iovs ++ [v]) c.
Proof.
  revert a. induction iovs as [|w iovs IH]; intros a; simpl.
  - intros -> Ht. by exists c.
  - intros (next & Hw & Hrest) Ht. exists next. split; [done|]. by apply IH.
Qed.

Lemma parse_loop_total (env : compound_env) (n fuel : nat) (st : parse_state) (acc : list req_iov) :
  decrypt_in_place env -> Z.of_nat n < 2 ^ 32 -> state_ok n st ->
  Z.of_nat n - taken st < Z.of_nat fuel -> tiled 0 acc (taken st) ->
  exists r, parse_loop fuel env st acc = Some r /\
    forall iovs buf, r = Parsed iovs buf -> length buf = n /\ tiled 0 iovs (Z.of_nat n).
Proof.
  intros Hdec Hn. revert st acc. induction fuel as [|fuel IH]; intros st acc Hst Hf Htl.
  { pose proof (so_taken _ _ Hst). lia. }
  cbn [parse_loop]. rewrite (so_len _ _ Hst).
  destruct (Z.ltb_spec (taken st) (Z.of_nat n)) as [Hlt|Hge].
  2: { eexists. split; [done|]. intros iovs buf [= <- <-]. split; [apply Hst|].
       pose proof (so_taken _ _ Hst). by replace (Z.of_nat n) with (taken st) by lia. }
  destruct (parse_turn env st (bool_decide (acc = []))) as [r|[v st']] eqn:Ht.
  { exists r. split; [done|]. intros iovs buf ->. unfold parse_turn in Ht.
    destruct (if taken st <? verified_buflen st then _ else _) as [len st1].
    destruct (len <? 4); [done|]. destruct (if _ =? SMB2_TF_MAGIC then _ else _) as [s|[st2 len2]]; [done|].
    destruct (parse_request env st2 len2) as [r|[v size]] eqn:Hr.
    - unfold parse_request in Hr. repeat case_if; simplify_eq.
    - case_if; simplify_eq. }
  destruct (turn_ok env n st st' _ v Hdec Hst Hn Hlt Ht) as (Hst' & Hadv & Htile).
  apply IH; [done|lia|]. by eapply tiled_app.
Qed.

(** C30. Framing of compound requests: for every buffer, if decryption works in
    place, the parser returns; when it accepts the buffer, the transform
    headers, headers, bodies and dynamic parts of the requests lie one after
    the other, do not overlap and end exactly at the end of the buffer. *)
Theorem compound_tiles_buffer (env : compound_env) (buf : list Z) :
  decrypt_in_place env -> Forall is_byte buf -> Z.of_nat (length buf) < 2 ^ 32 ->
  exists r, smbd_smb2_inbuf_parse_compound env buf = Some r /\
    forall iovs buf', r = Parsed iovs buf' ->
      length buf' = length buf /\ tiled 0 iovs (Z.of_nat (length buf)).
Proof.
  intros Hdec Hb Hlen. apply parse_loop_total; [done|done| |simpl; lia|done].
  split; simpl; [lia|lia|done|done].
Qed.

Definition plain_env : compound_env :=
  Compound_env false false (fun _ => false) (fun buf _ _ => (NT_STATUS_OK, buf)) false true.

(** Two requests of 66 and 68 bytes. *)
Definition two_requests : list Z :=
  ([0xFE; 0x53; 0x4D; 0x42; 64; 0] ++ replicate 14 0 ++ [66; 0; 0; 0] ++ replicate 40 0 ++ [2; 0]) ++
  ([0xFE; 0x53; 0x4D; 0x42; 64; 0] ++ replicate 14 0 ++ [0; 0; 0; 0] ++ replicate 40 0 ++ [2; 0; 7; 7]).

Lemma compound_tiles_buffer_witness :
  exists r, smbd_smb2_inbuf_parse_compound plain_env two_requests = Some r /\
    (exists iovs, r = Parsed iovs two_requests /\ length iovs = 2%nat) /\
    forall iovs buf', r = Parsed iovs buf' ->
      length buf' = length two_requests /\ tiled 0 iovs (Z.of_nat (length two_requests)).
Proof.
  destruct (compound_tiles_buffer plain_env two_requests) as (r & Hr & Ht).
  - intros buf ofs n Hb. split; [reflexivity|exact Hb].
  - unfold two_requests. repeat (apply Forall_cons; split); try apply Forall_nil_2; unfold is_byte; lia.
  - vm_compute. reflexivity.
  - exists r. split; [exact Hr|]. split; [|exact Ht]. vm_compute in Hr. injection Hr as <-.
    eexists. split; [vm_compute; reflexivity|reflexivity].
Defined.
