(* ===== verification/Fnmatch.v ===== *)
(** * File name matching

    lib/util/ms_fnmatch.c: wildcard matching as SMB defines it. A string is the
    list of the codepoints that [next_codepoint] reads from it; a pointer into
    the string is the rest of the list, so pointers are ordered by the lengths
    of the rests. The two case tables of lib/util/charset/codepoints.c (65536
    entries each) are parameters, and so is the C library's [strcasecmp], which
    [strcasecmp_m] falls back to on an undecodable string.

    [plain_match] is the matcher without the [max_n] array, and [wild] says what
    each wildcard stands for; the theorems show that all three agree. *)

From S2P Require Import Prelude.
From stdpp Require Import prelude list.

#[local] Open Scope Z_scope.

Definition STAR : Z := 0x2A.
Definition LT : Z := 0x3C.
Definition GT : Z := 0x3E.
Definition QUESTION : Z := 0x3F.
Definition DQUOTE : Z := 0x22.
Definition DOT : Z := 0x2E.

(** ** Codepoints (lib/util/charset) *)

Definition INVALID_CODEPOINT : Z := u32 (-1).

Section charset.
Context (upcase_table lowcase_table : Z -> Z) (libc_strcasecmp : list Z -> list Z -> Z).

Definition toupper (c : Z) : Z := if (0x61 <=? c) && (c <=? 0x7A) then c - 32 else c.
Definition tolower (c : Z) : Z := if (0x41 <=? c) && (c <=? 0x5A) then c + 32 else c.

Definition toupper_m (val : Z) : Z :=
  if val <? 128 then toupper val else if 65536 <=? val then val else upcase_table val.

Definition tolower_m (val : Z) : Z :=
  if val <? 128 then tolower val else if 65536 <=? val then val else lowcase_table val.

Definition codepoint_cmpi (c1 c2 : Z) : Z :=
  if (c1 =? c2) || (toupper_m c1 =? toupper_m c2) then 0 else i32 (c1 - c2).

(** Whether [strcasecmp_m] returns 0. *)
Fixpoint strcasecmp_m_equal (s1 s2 : list Z) : bool :=
  match s1, s2 with
  | c1 :: r1, c2 :: r2 =>
      if (c1 =? INVALID_CODEPOINT) || (c2 =? INVALID_CODEPOINT) then libc_strcasecmp s1 s2 =? 0
      else if (c1 =? c2) || (toupper_m c1 =? toupper_m c2) || (tolower_m c1 =? tolower_m c2)
      then strcasecmp_m_equal r1 r2
      else false
  | [], [] => true
  | _, _ => false
  end.

End charset.

(** 0 is the success value of the C functions; here it is [true]. *)
Definition null_match (p : list Z) : bool :=
  forallb (fun c => (c =? STAR) || (c =? LT) || (c =? DQUOTE) || (c =? GT)) p.

(** [struct max_n]: a NULL pointer is [None], another one the number of
    codepoints left at it. *)
Record max_n := Max_n { predot : option nat; postdot : option nat }.

Definition max_n_zero : max_n := Max_n None None.

(** [ptr && ptr <= n]. *)
Definition at_or_before (ptr : option nat) (n : list Z) : bool :=
  match ptr with Some r => (length n <=? r)%nat | None => false end.

(** [if (!ptr || ptr > n) ptr = n]. *)
Definition lower (ptr : option nat) (n : list Z) : option nat :=
  match ptr with
  | Some r => if (r <? length n)%nat then Some (length n) else ptr
  | None => Some (length n)
  end.

(** The remaining length at the last dot, [strrchr(string, '.')]. *)
Fixpoint last_dot (s : list Z) : option nat :=
  match s with
  | [] => None
  | c :: rest => match last_dot rest with
                 | Some r => Some r
                 | None => if c =? DOT then Some (length s) else None
                 end
  end.

Definition is_dot_ptr (ldot : option nat) (n : list Z) : bool :=
  match ldot with Some r => (length n =? r)%nat | None => false end.

(** [n <= ldot]. *)
Definition before_dot (ldot : option nat) (n : list Z) : bool :=
  match ldot with Some r => (r <=? length n)%nat | None => false end.

Section fnmatch.
Context (upcase_table : Z -> Z) (is_case_sensitive : bool) (ldot : option nat).

(** The loops of the [*] and [<] cases over the rests of the string, which try
    the rest of the pattern with the following [max_n] entries. *)
Fixpoint star_loop (f : list Z -> list max_n -> bool * list max_n) (n : list Z) (ms : list max_n)
    : bool * list max_n :=
  match n with
  | [] => (false, ms)
  | _ :: rest =>
      let '(r, ms) := f n ms in
      if r : bool then (true, ms) else star_loop f rest ms
  end.

(** The result of the [<] loop: a match, no match and the last dot was passed,
    or no match up to the end of the string. *)
Inductive lt_result := Lt_match | Lt_dot | Lt_end.

Fixpoint lt_loop (f : list Z -> list max_n -> bool * list max_n) (n : list Z) (ms : list max_n)
    : lt_result * list max_n :=
  match n with
  | [] => (Lt_end, ms)
  | _ :: rest =>
      let '(r, ms) := f n ms in
      if r : bool then (Lt_match, ms)
      else if is_dot_ptr ldot n then
        let '(r, ms) := f rest ms in
        if r : bool then (Lt_match, ms) else (Lt_dot, ms)
      else lt_loop f rest ms
  end.

(** Whether the codepoint at [n] (0 at the end) matches [c] literally. *)
Definition literal_match (c : Z) (n : list Z) : bool :=
  let c2 := hd 0 n in
  (c =? c2) || (negb is_case_sensitive && (codepoint_cmpi upcase_table c c2 =? 0)).

(** The entries of [max_n] from the current one on; the array has one entry for
    each [*] and [<] of the pattern. *)
Fixpoint ms_fnmatch_core (p n : list Z) (ms : list max_n) : bool * list max_n :=
  match p with
  | [] => (match n with [] => true | _ => false end, ms)
  | c :: p =>
      if c =? STAR then
        match ms with
        | [] => (false, ms)
        | m :: ms =>
            if at_or_before (predot m) n then (null_match p, m :: ms)
            else
              let '(r, ms) := star_loop (ms_fnmatch_core p) n ms in
              if r : bool then (true, m :: ms)
              else (null_match p, Max_n (lower (predot m) n) (postdot m) :: ms)
        end
      else if c =? LT then
        match ms with
        | [] => (false, ms)
        | m :: ms =>
            if at_or_before (predot m) n then (null_match p, m :: ms)
            else if at_or_before (postdot m) n && before_dot ldot n then (false, m :: ms)
            else
              let '(r, ms) := lt_loop (ms_fnmatch_core p) n ms in
              match r with
              | Lt_match => (true, m :: ms)
              | Lt_dot => (false, Max_n (predot m) (lower (postdot m) n) :: ms)
              | Lt_end => (null_match p, Max_n (lower (predot m) n) (postdot m) :: ms)
              end
        end
      else if c =? QUESTION then
        match n with [] => (false, ms) | _ :: n => ms_fnmatch_core p n ms end
      else if c =? GT then
        match n with
        | [] => (null_match p, ms)
        | x :: rest =>
            if x =? DOT then
              (match rest with
               | [] => if null_match p then (true, ms) else ms_fnmatch_core p n ms
               | _ => ms_fnmatch_core p n ms
               end)
            else ms_fnmatch_core p rest ms
        end
      else if c =? DQUOTE then
        match n with
        | [] => (null_match p, ms)
        | x :: rest => if x =? DOT then ms_fnmatch_core p rest ms else (false, ms)
        end
      else
        if literal_match c n then ms_fnmatch_core p (tail n) ms else (false, ms)
  end.

(** ** The algorithm without [max_n] *)

Fixpoint some_rest (f : list Z -> bool) (n : list Z) : bool :=
  match n with [] => false | _ :: rest => f n || some_rest f rest end.

Fixpoint lt_rest (f : list Z -> bool) (n : list Z) : lt_result :=
  match n with
  | [] => Lt_end
  | _ :: rest =>
      if f n then Lt_match
      else if is_dot_ptr ldot n then (if f rest then Lt_match else Lt_dot)
      else lt_rest f rest
  end.

Fixpoint plain_match (p n : list Z) : bool :=
  match p with
  | [] => match n with [] => true | _ => false end
  | c :: p =>
      if c =? STAR then some_rest (plain_match p) n || null_match p
      else if c =? LT then
        match lt_rest (plain_match p) n with
        | Lt_match => true
        | Lt_dot => false
        | Lt_end => null_match p
        end
      else if c =? QUESTION then match n with [] => false | _ :: n => plain_match p n end
      else if c =? GT then
        match n with
        | [] => null_match p
        | x :: rest =>
            if x =? DOT then
              (match rest with
               | [] => if null_match p then true else plain_match p n
               | _ => plain_match p n
               end)
            else plain_match p rest
        end
      else if c =? DQUOTE then
        match n with
        | [] => null_match p
        | x :: rest => if x =? DOT then plain_match p rest else false
        end
      else if literal_match c n then plain_match p (tail n) else false
  end.

End fnmatch.

(** ** The entry points *)

Definition PROTOCOL_LANMAN2 : Z := 4.
Definition PROTOCOL_NT1 : Z := 5.

Definition is_wild (c : Z) : bool :=
  (c =? LT) || (c =? GT) || (c =? STAR) || (c =? QUESTION) || (c =? DQUOTE).

Definition star_count (p : list Z) : nat :=
  length (List.filter (fun c => (c =? STAR) || (c =? LT)) p).

(** The translation for older protocols, in place from the front: the next
    character is not translated yet. *)
Fixpoint translate_lanman2 (p : list Z) : list Z :=
  match p with
  | [] => []
  | c :: rest =>
      let next := hd 0 rest in
      (if c =? QUESTION then GT
       else if (c =? DOT) && ((next =? QUESTION) || (next =? STAR) || (next =? 0)) then DQUOTE
       else if (c =? STAR) && (next =? DOT) then LT
       else c) :: translate_lanman2 rest
  end.

(** [strcmp(string, "..") == 0] stands for [.]. *)
Definition dotdot (string : list Z) : list Z :=
  if bool_decide (string = [DOT; DOT]) then [DOT] else string.

Section protocol.
Context (upcase_table lowcase_table : Z -> Z) (libc_strcasecmp : list Z -> list Z -> Z).

(** [ms_fnmatch_protocol] above LANMAN2, the call it makes to itself. *)
Definition ms_fnmatch_nt1 (pattern string : list Z) (is_case_sensitive : bool) : bool :=
  let string := dotdot string in
  if negb (existsb is_wild pattern) then
    strcasecmp_m_equal upcase_table lowcase_table libc_strcasecmp pattern string
  else
    (ms_fnmatch_core upcase_table is_case_sensitive (last_dot string) pattern string
       (replicate (star_count pattern) max_n_zero)).1.

(** [strdup_ok]: the copy of the pattern could be allocated. *)
Definition ms_fnmatch_protocol (pattern string : list Z) (protocol : Z)
    (is_case_sensitive strdup_ok : bool) : bool :=
  let string := dotdot string in
  if negb (existsb is_wild pattern) then
    strcasecmp_m_equal upcase_table lowcase_table libc_strcasecmp pattern string
  else if protocol <=? PROTOCOL_LANMAN2 then
    if negb strdup_ok then false
    else ms_fnmatch_nt1 (translate_lanman2 pattern) string is_case_sensitive
  else ms_fnmatch_nt1 pattern string is_case_sensitive.

Definition gen_fnmatch (pattern string : list Z) : bool :=
  ms_fnmatch_protocol pattern string PROTOCOL_NT1 false true.

End protocol.

(** ** What the wildcards stand for *)

Definition has_dot (n : list Z) : Prop := DOT ∈ n.

(** A [<] takes [n1] and leaves [n2]: it does not go beyond the last dot. *)
Definition lt_takes (n1 n2 : list Z) : Prop :=
  has_dot n2 \/ ~ has_dot n1 \/ exists n0, n1 = n0 ++ [DOT].

Section wild.
Context (lit : Z -> Z -> bool).

Inductive wild : list Z -> list Z -> Prop :=
| wild_nil : wild [] []
| wild_star p n1 n2 : wild p n2 -> wild (STAR :: p) (n1 ++ n2)
| wild_lt p n1 n2 : lt_takes n1 n2 -> wild p n2 -> wild (LT :: p) (n1 ++ n2)
| wild_question p x n : wild p n -> wild (QUESTION :: p) (x :: n)
| wild_gt p x n : x <> DOT -> wild p n -> wild (GT :: p) (x :: n)
| wild_gt_dot p n : wild p (DOT :: n) -> wild (GT :: p) (DOT :: n)
| wild_gt_final_dot p : wild p [] -> wild (GT :: p) [DOT]
| wild_gt_end p : wild p [] -> wild (GT :: p) []
| wild_dquote p n : wild p n -> wild (DQUOTE :: p) (DOT :: n)
| wild_dquote_end p : wild p [] -> wild (DQUOTE :: p) []
| wild_char c p x n : is_wild c = false -> lit c x = true -> wild p n -> wild (c :: p) (x :: n).

End wild.

(** ** The [max_n] array does not change the result *)

Section memo.
Context (upcase_table : Z -> Z) (is_case_sensitive : bool) (ldot : option nat) (s : list Z).

#[local] Abbreviation core := (ms_fnmatch_core upcase_table is_case_sensitive ldot).
#[local] Abbreviation plain := (plain_match upcase_table is_case_sensitive ldot).

(** What the entry of a [*] with the rest [p] of the pattern records. *)
Definition star_ok (p : list Z) (m : max_n) : Prop :=
  forall n r, predot m = Some r -> n `suffix_of` s -> (length n <= r)%nat ->
    some_rest (plain p) n = false.

(** What the entry of a [<] records. *)
Definition lt_ok (p : list Z) (m : max_n) : Prop :=
  forall n r, n `suffix_of` s -> (length n <= r)%nat ->
    (predot m = Some r -> lt_rest ldot (plain p) n = Lt_end) /\
    (postdot m = Some r -> before_dot ldot n = true -> lt_rest ldot (plain p) n = Lt_dot).

Fixpoint memo_ok (p : list Z) (ms : list max_n) : Prop :=
  match p with
  | [] => True
  | c :: p =>
      if c =? STAR then match ms with [] => False | m :: ms => star_ok p m /\ memo_ok p ms end
      else if c =? LT then match ms with [] => False | m :: ms => lt_ok p m /\ memo_ok p ms end
      else memo_ok p ms
  end.

Lemma suffix_shorter (n n' : list Z) :
  n `suffix_of` s -> n' `suffix_of` s -> (length n' <= length n)%nat -> n' `suffix_of` n.
Proof.
  intros [a Ha] [b Hb] Hl. subst s.
  assert (Hab : (length a <= length b)%nat).
  { apply (f_equal length) in Hb. rewrite !length_app in Hb. lia. }
  exists (drop (length a) b).
  apply (f_equal (drop (length a))) in Hb.
  rewrite drop_app_length, drop_app_le in Hb by done. done.
Qed.

Lemma suffix_cons_cases (x : Z) (n n' : list Z) :
  n' `suffix_of` x :: n -> n' = x :: n \/ n' `suffix_of` n.
Proof.
  intros [[|y a] Ha]; [by left|]. right. injection Ha as <- ->. by exists a.
Qed.

Lemma some_rest_suffix f n n' :
  n' `suffix_of` n -> some_rest f n = false -> some_rest f n' = false.
Proof.
  induction n as [|x n IH]; intros Hs Hf.
  { by apply suffix_nil_inv in Hs as ->. }
  apply suffix_cons_cases in Hs as [-> | Hs]; [done|].
  simpl in Hf. apply orb_false_iff in Hf as [_ Hf]. auto.
Qed.

Lemma lt_rest_end_suffix f n n' :
  n' `suffix_of` n -> lt_rest ldot f n = Lt_end -> lt_rest ldot f n' = Lt_end.
Proof.
  induction n as [|x n IH]; intros Hs Hf.
  { by apply suffix_nil_inv in Hs as ->. }
  apply suffix_cons_cases in Hs as [-> | Hs]; [done|].
  simpl in Hf. repeat case_match; try done. auto.
Qed.

Lemma lt_rest_dot_suffix f n n' :
  n' `suffix_of` n -> before_dot ldot n' = true -> lt_rest ldot f n = Lt_dot ->
  lt_rest ldot f n' = Lt_dot.
Proof.
  induction n as [|x n IH]; intros Hs Hd Hf.
  { by apply suffix_nil_inv in Hs as ->. }
  apply suffix_cons_cases in Hs as [-> | Hs]; [done|].
  cbn [lt_rest] in Hf. destruct (f (x :: n)); [done|].
  destruct (is_dot_ptr ldot (x :: n)) eqn:E; [|by apply IH].
  exfalso. apply suffix_length in Hs. unfold is_dot_ptr, before_dot in *.
  destruct ldot as [r|]; [|done]. apply Nat.eqb_eq in E. apply Nat.leb_le in Hd.
  cbn [length] in E. lia.
Qed.

(** [f] computes [g] on the rests of [s] and keeps [memo_ok p]. *)
Definition computes (p : list Z) (f : list Z -> list max_n -> bool * list max_n)
    (g : list Z -> bool) : Prop :=
  forall n ms, n `suffix_of` s -> memo_ok p ms ->
    (f n ms).1 = g n /\ memo_ok p (f n ms).2.

Lemma star_loop_computes p f g n ms :
  computes p f g -> n `suffix_of` s -> memo_ok p ms ->
  (star_loop f n ms).1 = some_rest g n /\ memo_ok p (star_loop f n ms).2.
Proof.
  intros Hf. revert ms. induction n as [|x n IH]; intros ms Hs Hm; [done|].
  simpl. destruct (Hf (x :: n) ms Hs Hm) as [Hr Hm']. destruct (f (x :: n) ms) as [r ms'].
  cbn [fst snd] in *. subst r.
  destruct (g (x :: n)); [done|]. apply IH; [|done]. by eapply suffix_cons_l.
Qed.

Lemma lt_loop_computes p f g n ms :
  computes p f g -> n `suffix_of` s -> memo_ok p ms ->
  (lt_loop ldot f n ms).1 = lt_rest ldot g n /\ memo_ok p (lt_loop ldot f n ms).2.
Proof.
  intros Hf. revert ms. induction n as [|x n IH]; intros ms Hs Hm; [done|].
  assert (Hs' : n `suffix_of` s) by (by eapply suffix_cons_l).
  cbn [lt_loop lt_rest].
  destruct (Hf (x :: n) ms Hs Hm) as [Hr Hm']. destruct (f (x :: n) ms) as [r ms'].
  cbn [fst snd] in *. subst r.
  destruct (g (x :: n)); [done|].
  destruct (is_dot_ptr ldot (x :: n)); [|by apply IH].
  destruct (Hf n ms' Hs' Hm') as [Hr Hm'']. destruct (f n ms') as [r ms''].
  cbn [fst snd] in *. subst r. by destruct (g n).
Qed.

Lemma at_or_before_true ptr n :
  at_or_before ptr n = true -> exists r, ptr = Some r /\ (length n <= r)%nat.
Proof.
  unfold at_or_before. destruct ptr as [r|]; [|done]. intros H%Nat.leb_le. by exists r.
Qed.

Lemma lower_cases ptr n r :
  lower ptr n = Some r -> ptr = Some r \/ r = length n.
Proof. unfold lower. destruct ptr; repeat case_match; intros; simplify_eq; auto. Qed.

Lemma star_ok_lower p m n :
  star_ok p m -> n `suffix_of` s -> some_rest (plain p) n = false ->
  star_ok p (Max_n (lower (predot m) n) (postdot m)).
Proof.
  intros Hm Hs Hf n' r Hr Hs' Hl. simpl in Hr.
  apply lower_cases in Hr as [Hr | ->]; [by apply (Hm n' r)|].
  apply (some_rest_suffix _ n); [|done]. by apply suffix_shorter.
Qed.

Lemma lt_ok_end p m n :
  lt_ok p m -> n `suffix_of` s -> lt_rest ldot (plain p) n = Lt_end ->
  lt_ok p (Max_n (lower (predot m) n) (postdot m)).
Proof.
  intros Hm Hs Hf n' r Hs' Hl. simpl. split; [|by apply (Hm n' r)].
  intros [Hr | ->]%lower_cases; [by apply (Hm n' r)|].
  apply (lt_rest_end_suffix _ n); [|done]. by apply suffix_shorter.
Qed.

Lemma lt_ok_dot p m n :
  lt_ok p m -> n `suffix_of` s -> lt_rest ldot (plain p) n = Lt_dot ->
  lt_ok p (Max_n (predot m) (lower (postdot m) n)).
Proof.
  intros Hm Hs Hf n' r Hs' Hl. simpl. split; [by apply (Hm n' r)|].
  intros [Hr | ->]%lower_cases Hd; [by apply (Hm n' r)|].
  apply (lt_rest_dot_suffix _ n); [|done|done]. by apply suffix_shorter.
Qed.

Lemma core_computes p : computes p (core p) (plain p).
Proof.
  induction p as [|c p IH]; intros n ms Hs Hm; [done|].
  cbn [ms_fnmatch_core plain_match memo_ok] in *.
  assert (Hr : forall ms, memo_ok p ms -> forall x n', n = x :: n' ->
            (core p n' ms).1 = plain p n' /\ memo_ok p (core p n' ms).2).
  { intros ms' Hm' x n' ->. apply IH; [by eapply suffix_cons_l|done]. }
  destruct (c =? STAR).
  { destruct ms as [|m ms]; [done|]. destruct Hm as [Hm1 Hm2].
    destruct (at_or_before (predot m) n) eqn:E.
    - apply at_or_before_true in E as (r & Hr' & Hl). by rewrite (Hm1 n r).
    - destruct (star_loop_computes p _ _ n ms IH Hs Hm2) as [H1 H2].
      destruct (star_loop (core p) n ms) as [b ms']. cbn [fst snd] in *. subst b.
      destruct (some_rest (plain p) n) eqn:E'; cbn [fst snd orb]; [done|].
      split; [done|]. split; [by apply star_ok_lower|done]. }
  destruct (c =? LT).
  { destruct ms as [|m ms]; [done|]. destruct Hm as [Hm1 Hm2].
    destruct (at_or_before (predot m) n) eqn:E.
    { apply at_or_before_true in E as (r & Hr' & Hl). by rewrite (proj1 (Hm1 n r Hs Hl) Hr'). }
    destruct (at_or_before (postdot m) n && before_dot ldot n) eqn:E2.
    { apply andb_true_iff in E2 as [E2 E3].
      apply at_or_before_true in E2 as (r & Hr' & Hl). by rewrite (proj2 (Hm1 n r Hs Hl) Hr' E3). }
    destruct (lt_loop_computes p _ _ n ms IH Hs Hm2) as [H1 H2].
    destruct (lt_loop ldot (core p) n ms) as [b ms']. cbn [fst snd] in *. subst b.
    destruct (lt_rest ldot (plain p) n) eqn:E'; cbn [fst snd]; split; try done; split; try done.
    - by apply lt_ok_dot.
    - by apply lt_ok_end. }
  destruct (c =? QUESTION); [destruct n; [done|by eapply Hr]|].
  destruct (c =? GT).
  { destruct n as [|x n]; [done|].
    destruct (x =? DOT); [|by eapply Hr].
    destruct n; [destruct (null_match p); [done|]|]; by apply IH. }
  destruct (c =? DQUOTE); [destruct n as [|x n]; [done|destruct (x =? DOT); [by eapply Hr|done]]|].
  destruct (literal_match _ _ c n); [|done].
  destruct n; [by apply IH|by eapply Hr].
Qed.

Lemma memo_ok_fresh p : memo_ok p (replicate (star_count p) max_n_zero).
Proof.
  induction p as [|c p IH]; [done|]. unfold star_count in *. simpl.
  destruct (c =? STAR) eqn:E1; simpl; [by split|].
  destruct (c =? LT) eqn:E2; simpl; by try split.
Qed.

End memo.

(** ** The matcher and the meaning of the wildcards *)

(** A character of the pattern against one of the string. *)
Definition char_match (upcase_table : Z -> Z) (is_case_sensitive : bool) (c x : Z) : bool :=
  literal_match upcase_table is_case_sensitive c [x].

(** The upper case table has no zero but the one at 0. *)
Definition upcase_ok (upcase_table : Z -> Z) : Prop :=
  forall c, 128 <= c < 65536 -> upcase_table c <> 0.

Definition pattern_ok (p : list Z) : Prop := Forall (fun c => 0 < c < 2^32) p.

Lemma last_dot_none n : last_dot n = None <-> ~ has_dot n.
Proof.
  unfold has_dot. induction n as [|x n IH]; simpl; [by split; [intros _ ?%elem_of_nil|]|].
  rewrite elem_of_cons. destruct (last_dot n).
  - destruct IH as [_ IH]. split; [done|]. intros H. discriminate IH. tauto.
  - destruct (Z.eqb_spec x DOT); split; intros; [done|naive_solver|naive_solver|done].
Qed.

Lemma last_dot_app a n :
  last_dot (a ++ n) = match last_dot n with
                      | Some r => Some r
                      | None => option_map (fun r => (r + length n)%nat) (last_dot a)
                      end.
Proof.
  induction a as [|x a IH]; simpl; [by destruct (last_dot n)|].
  rewrite IH. destruct (last_dot n); [done|]. destruct (last_dot a); simpl; [done|].
  destruct (x =? DOT); [|done]. simpl. by rewrite length_app.
Qed.

Lemma last_dot_pos n r : last_dot n = Some r -> (0 < r <= length n)%nat.
Proof.
  revert r. induction n as [|x n IH]; simpl; intros r H; [done|].
  destruct (last_dot n) as [r'|].
  - injection H as ->. specialize (IH _ eq_refl). lia.
  - destruct (x =? DOT); [|done]. injection H as <-. lia.
Qed.

Lemma is_dot_ptr_spec s x n :
  x :: n `suffix_of` s ->
  is_dot_ptr (last_dot s) (x :: n) = true <-> x = DOT /\ ~ has_dot n.
Proof.
  intros [a ->]. unfold is_dot_ptr. rewrite last_dot_app. cbn [last_dot length].
  rewrite <- last_dot_none. destruct (last_dot n) as [r|] eqn:E.
  { apply last_dot_pos in E. rewrite Nat.eqb_eq. split; [lia|naive_solver]. }
  destruct (Z.eqb_spec x DOT) as [-> | Hx].
  { rewrite Nat.eqb_refl. naive_solver. }
  destruct (last_dot a) as [r|] eqn:E'; cbn [option_map]; [|naive_solver].
  apply last_dot_pos in E'. rewrite Nat.eqb_eq. split; [lia|naive_solver].
Qed.

Lemma lt_takes_cons x n n1 n2 :
  n = n1 ++ n2 -> ~ (x = DOT /\ ~ has_dot n) -> lt_takes (x :: n1) n2 <-> lt_takes n1 n2.
Proof.
  intros -> Hx. unfold lt_takes, has_dot in *. rewrite elem_of_app, elem_of_cons in *.
  destruct (decide (DOT ∈ n2)); [naive_solver|].
  destruct (decide (DOT ∈ n1)) as [Hd|Hd].
  - split; intros [?|[?|[n0 H]]]; try naive_solver.
    + destruct n0 as [|y n0]; injection H as -> ->; [by apply elem_of_nil in Hd|eauto].
    + right; right. exists (x :: n0). by rewrite H.
  - split; [intros _; naive_solver|]. intros _. right; left. naive_solver.
Qed.

#[local] Ltac Zify.zify_post_hook ::= Z.to_euclidean_division_equations.

Section semantics.
Context (upcase_table : Z -> Z) (is_case_sensitive : bool) (s : list Z).
Hypothesis Htable : upcase_ok upcase_table.

#[local] Abbreviation plain := (plain_match upcase_table is_case_sensitive (last_dot s)).
#[local] Abbreviation wildm := (wild (char_match upcase_table is_case_sensitive)).

Lemma literal_match_end c :
  0 < c < 2^32 -> literal_match upcase_table is_case_sensitive c [] = false.
Proof.
  intros Hc. unfold literal_match, codepoint_cmpi. cbn [hd].
  rewrite (proj2 (Z.eqb_neq c 0)) by lia. cbn [orb].
  apply andb_false_iff. right.
  destruct (toupper_m upcase_table c =? toupper_m upcase_table 0) eqn:E; [exfalso|].
  - apply Z.eqb_eq in E. change (toupper_m upcase_table 0) with 0 in E. unfold toupper_m in E.
    destruct (Z.ltb_spec c 128).
    { unfold toupper in E. destruct (Z.leb_spec 0x61 c); cbn [andb] in E; [|lia].
      destruct (c <=? 0x7A); lia. }
    destruct (Z.leb_spec 65536 c); [lia|]. by apply (Htable c).
  - apply Z.eqb_neq. unfold i32. lia.
Qed.

Lemma plain_match_end p : pattern_ok p -> plain p [] = null_match p.
Proof.
  induction 1 as [|c p Hc Hp IH]; [done|]. cbn [plain_match null_match forallb].
  unfold null_match in *. cbn [some_rest lt_rest orb].
  destruct (c =? STAR); [done|]. destruct (c =? LT); [done|].
  destruct (Z.eqb_spec c QUESTION) as [-> |]; [done|].
  destruct (c =? GT); [by rewrite orb_true_r|]. destruct (c =? DQUOTE); [done|].
  by rewrite literal_match_end.
Qed.

Lemma some_rest_split f n :
  some_rest f n || f [] = true <-> exists n1 n2, n = n1 ++ n2 /\ f n2 = true.
Proof.
  induction n as [|x n IH]; simpl.
  - split; [by exists [], []|]. intros (n1 & n2 & Hn & Hf). symmetry in Hn.
    by apply app_eq_nil in Hn as [_ ->].
  - rewrite <- orb_assoc, orb_true_iff, IH. split.
    + intros [Hf | (n1 & n2 & -> & Hf)]; [by exists [], (x :: n)|by exists (x :: n1), n2].
    + intros ([|y n1] & n2 & Hn & Hf); simpl in Hn; [subst; by left|].
      injection Hn as <- ->. right. by exists n1, n2.
Qed.

Definition lt_outcome (r : lt_result) (e : bool) : bool :=
  match r with Lt_match => true | Lt_dot => false | Lt_end => e end.

Lemma lt_rest_split f n :
  n `suffix_of` s ->
  lt_outcome (lt_rest (last_dot s) f n) (f []) = true <->
  exists n1 n2, n = n1 ++ n2 /\ lt_takes n1 n2 /\ f n2 = true.
Proof.
  induction n as [|x n IH]; intros Hs; cbn [lt_rest].
  { split; [|by intros (n1 & n2 & [-> ->]%symmetry%app_eq_nil & _ & Hf)].
    exists [], []. repeat split; [|done]. right; left. apply not_elem_of_nil. }
  assert (Hself : f (x :: n) = true -> exists n1 n2, x :: n = n1 ++ n2 /\ lt_takes n1 n2 /\ f n2 = true).
  { exists [], (x :: n). repeat split; [|done]. right; left. apply not_elem_of_nil. }
  destruct (f (x :: n)) eqn:Ef; [by split; [intros _; apply Hself|]|clear Hself].
  destruct (is_dot_ptr (last_dot s) (x :: n)) eqn:Ed.
  - apply (is_dot_ptr_spec s) in Ed as [-> Hd]; [|done]. unfold has_dot in Hd.
    split.
    + intros Hr. exists [DOT], n. repeat split; [right; right; by exists []|].
      by destruct (f n).
    + intros ([|y n1] & n2 & Hn & Ht & Hf); [simpl in Hn; congruence|].
      injection Hn as <- ->. rewrite elem_of_app in Hd.
      assert (n1 = []) as ->; [|by simpl in *; rewrite Hf].
      destruct Ht as [?|[Ht|[n0 Hn]]]; [naive_solver| |].
      { destruct Ht. by apply elem_of_cons; left. }
      destruct n0 as [|z n0]; [by injection Hn|]. injection Hn as _ Hn.
      destruct Hd. left. rewrite Hn. apply elem_of_app. right. by apply list_elem_of_singleton.
  - assert (Hx : ~ (x = DOT /\ ~ has_dot n)).
    { rewrite <- (is_dot_ptr_spec s) by done. by rewrite Ed. }
    rewrite IH by (by eapply suffix_cons_l). split.
    + intros (n1 & n2 & -> & Ht & Hf). exists (x :: n1), n2. repeat split; [|done].
      by apply (lt_takes_cons x (n1 ++ n2)).
    + intros ([|y n1] & n2 & Hn & Ht & Hf); [simpl in Hn; congruence|].
      injection Hn as <- ->. exists n1, n2. repeat split; [|done].
      by apply (lt_takes_cons x (n1 ++ n2)).
Qed.

Lemma plain_star p n : pattern_ok p ->
  plain (STAR :: p) n = some_rest (plain p) n || plain p [].
Proof. intros Hp. by rewrite plain_match_end. Qed.

Lemma plain_lt p n : pattern_ok p ->
  plain (LT :: p) n = lt_outcome (lt_rest (last_dot s) (plain p) n) (plain p []).
Proof. intros Hp. by rewrite plain_match_end. Qed.

Lemma plain_char c p n : is_wild c = false ->
  plain (c :: p) n =
    if literal_match upcase_table is_case_sensitive c n then plain p (tail n) else false.
Proof.
  unfold is_wild. rewrite !orb_false_iff. intros [[[[H1 H2] H3] H4] H5].
  cbn [plain_match]. by rewrite H1, H2, H3, H4, H5.
Qed.

Lemma wild_plain p n : wildm p n -> pattern_ok p -> n `suffix_of` s -> plain p n = true.
Proof.
  intros Hw. induction Hw as [|p n1 n2 Hw IH|p n1 n2 Ht Hw IH|p x n Hw IH|p x n Hx Hw IH|p n Hw IH
    |p Hw IH|p Hw IH|p n Hw IH|p Hw IH|c p x n Hc Hl Hw IH]; intros Hp Hs; [done|..];
    apply Forall_cons in Hp as [Hc0 Hp].
  - rewrite plain_star by done. apply some_rest_split. exists n1, n2. split; [done|].
    apply IH; [done|]. by eapply suffix_app_l.
  - rewrite plain_lt by done. apply lt_rest_split; [done|]. exists n1, n2. repeat split; [done|].
    apply IH; [done|]. by eapply suffix_app_l.
  - apply IH; [done|]. by eapply suffix_cons_l.
  - change (plain (GT :: p) (x :: n)) with
      (if x =? DOT then match n with
                        | [] => if null_match p then true else plain p (x :: n)
                        | _ => plain p (x :: n) end else plain p n).
    rewrite (proj2 (Z.eqb_neq x DOT)) by done. apply IH; [done|]. by eapply suffix_cons_l.
  - simpl. destruct n; [destruct (null_match p); [done|]|]; by apply IH.
  - simpl. rewrite <- plain_match_end by done. rewrite IH; [done|done|apply suffix_nil].
  - simpl. rewrite <- plain_match_end by done. apply IH; [done|apply suffix_nil].
  - apply IH; [done|]. by eapply suffix_cons_l.
  - simpl. rewrite <- plain_match_end by done. apply IH; [done|apply suffix_nil].
  - rewrite plain_char by done. change (literal_match _ _ c (x :: n))
      with (char_match upcase_table is_case_sensitive c x).
    rewrite Hl. apply IH; [done|]. by eapply suffix_cons_l.
Qed.

Lemma is_wild_cases c :
  is_wild c = false \/ c = STAR \/ c = LT \/ c = QUESTION \/ c = GT \/ c = DQUOTE.
Proof.
  destruct (is_wild c) eqn:E; [right|by left]. unfold is_wild in E.
  rewrite !orb_true_iff, !Z.eqb_eq in E. tauto.
Qed.

Lemma plain_wild p n : pattern_ok p -> n `suffix_of` s -> plain p n = true -> wildm p n.
Proof.
  revert n. induction p as [|c p IH]; intros n Hp Hs Hm.
  { destruct n; [constructor|done]. }
  apply Forall_cons in Hp as [Hc Hp].
  assert (Hend : null_match p = true -> wildm p []).
  { intros Hn. apply IH; [done|apply suffix_nil|by rewrite plain_match_end]. }
  assert (Hrest : forall n1 n2, n = n1 ++ n2 -> plain p n2 = true -> wildm p n2).
  { intros n1 n2 -> H. apply IH; [done|by eapply suffix_app_l|done]. }
  destruct (is_wild_cases c) as [Hw | [-> | [-> | [-> | [-> | ->]]]]].
  - rewrite plain_char in Hm by done. destruct n as [|x n].
    { by rewrite literal_match_end in Hm. }
    destruct (literal_match upcase_table is_case_sensitive c (x :: n)) eqn:El; [|done].
    constructor; [done|exact El|]. by apply (Hrest [x]).
  - rewrite plain_star, some_rest_split in Hm by done. destruct Hm as (n1 & n2 & -> & Hm).
    constructor. by apply (Hrest n1).
  - rewrite plain_lt, lt_rest_split in Hm by done. destruct Hm as (n1 & n2 & -> & Ht & Hm).
    constructor; [done|]. by apply (Hrest n1).
  - destruct n as [|x n]; [done|]. constructor. by apply (Hrest [x]).
  - destruct n as [|x n]; [constructor; by apply Hend|].
    change (plain (GT :: p) (x :: n)) with
      (if x =? DOT then match n with
                        | [] => if null_match p then true else plain p (x :: n)
                        | _ => plain p (x :: n) end else plain p n) in Hm.
    destruct (Z.eqb_spec x DOT) as [-> |]; [|constructor; [done|by apply (Hrest [x])]].
    destruct n as [|y n]; [|apply wild_gt_dot; by apply (Hrest [])].
    destruct (null_match p); [apply wild_gt_final_dot; auto|apply wild_gt_dot; by apply (Hrest [])].
  - destruct n as [|x n]; [constructor; by apply Hend|].
    change (plain (DQUOTE :: p) (x :: n)) with (if x =? DOT then plain p n else false) in Hm.
    destruct (Z.eqb_spec x DOT) as [-> |]; [|done]. constructor. by apply (Hrest [DOT]).
Qed.

End semantics.

Lemma ms_fnmatch_nt1_wild upcase_table lowcase_table libc_strcasecmp pattern string cs :
  upcase_ok upcase_table -> pattern_ok pattern -> existsb is_wild pattern = true ->
  ms_fnmatch_nt1 upcase_table lowcase_table libc_strcasecmp pattern string cs = true <->
  wild (char_match upcase_table cs) pattern (dotdot string).
Proof.
  intros Ht Hp Hw. unfold ms_fnmatch_nt1. rewrite Hw. cbn [negb].
  assert (Hs : dotdot string `suffix_of` dotdot string) by done.
  rewrite (proj1 (core_computes upcase_table cs (last_dot (dotdot string)) _ pattern
             _ _ Hs (memo_ok_fresh _ _ _ _ pattern))).
  split; [by apply plain_wild|]. intros. by apply wild_plain.
Qed.

Lemma dotdot_idemp string : dotdot (dotdot string) = dotdot string.
Proof.
  unfold dotdot. destruct (decide (string = [DOT; DOT])) as [-> | Hn]; [done|].
  by rewrite !(bool_decide_false _ Hn).
Qed.

Lemma dotdot_has_dot string : has_dot (dotdot string) <-> has_dot string.
Proof.
  unfold dotdot, has_dot. case_bool_decide as H; [|done]. subst.
  rewrite !elem_of_cons. naive_solver.
Qed.

(** A less-than sign, a double quote and a star, the translation of [*.*], matches everything. *)
Lemma wild_lt_dquote_star lit n : wild lit [LT; DQUOTE; STAR] n.
Proof.
  assert (Hstar : forall m, wild lit [STAR] m).
  { intros m. rewrite <- (app_nil_r m). repeat constructor. }
  destruct (decide (DOT ∈ n)) as [Hd|Hd].
  - apply list_elem_of_split in Hd as (a & b & ->). constructor.
    + left. apply elem_of_cons. by left.
    + constructor. apply Hstar.
  - rewrite <- (app_nil_r n). constructor; [right; by left|]. constructor. apply Hstar.
Qed.

Lemma wild_star_dot_star lit n :
  (forall x, lit DOT x = true <-> x = DOT) -> wild lit [STAR; DOT; STAR] n <-> has_dot n.
Proof.
  intros Hl. unfold has_dot. split.
  - intros H. inversion H as [|? n1 n2 H1| | | | | | | | |]; subst; [|done].
    inversion H1 as [| | | | | | | | | |? ? x n' ? Hx]; subst.
    apply Hl in Hx as ->. apply elem_of_app. right. apply elem_of_cons. by left.
  - intros (a & b & ->)%list_elem_of_split. constructor. constructor; [done|by apply Hl|].
    rewrite <- (app_nil_r b). repeat constructor.
Qed.

(** ** Properties *)

(** The [max_n] array is an optimisation only, as its comment says: for
    every pattern and string, [ms_fnmatch_core] on the zeroed array returns what
    the matcher without the array returns. *)
Theorem fnmatch_max_n_sound upcase_table is_case_sensitive pattern string :
  (ms_fnmatch_core upcase_table is_case_sensitive (last_dot string) pattern string
     (replicate (star_count pattern) max_n_zero)).1 =
  plain_match upcase_table is_case_sensitive (last_dot string) pattern string.
Proof. apply (core_computes _ _ _ string); [done|apply memo_ok_fresh]. Qed.

(** C33. A pattern with a wildcard, under NT1 or later, matches a string exactly
    when the wildcards can stand for parts of it as documented: [*] for any part,
    [<] for one that does not go beyond the last dot, [?] for one character, [>]
    for one that is not a dot, or nothing at a dot or the end, the double quote
    for a dot or the end, and other characters for themselves up to case. The
    string [..] is matched as [.] ([dotdot]); every other string as it is. *)
Theorem fnmatch_means_wild upcase_table lowcase_table libc_strcasecmp pattern string
    protocol is_case_sensitive strdup_ok :
  upcase_ok upcase_table -> pattern_ok pattern -> existsb is_wild pattern = true ->
  PROTOCOL_LANMAN2 < protocol ->
  ms_fnmatch_protocol upcase_table lowcase_table libc_strcasecmp pattern string protocol
    is_case_sensitive strdup_ok = true <->
  wild (char_match upcase_table is_case_sensitive) pattern (dotdot string).
Proof.
  intros Ht Hp Hw Hn. unfold ms_fnmatch_protocol.
  rewrite Hw, (proj2 (Z.leb_gt _ _) Hn). cbn [negb].
  by rewrite ms_fnmatch_nt1_wild, dotdot_idemp by done.
Qed.

Lemma fnmatch_means_wild_witness :
  exists p n, p = [STAR; DOT; 0x43] /\ n = [0x61; DOT; 0x63] /\
    wild (char_match (fun c => c) false) p (dotdot n).
Proof.
  exists [STAR; DOT; 0x43], [0x61; DOT; 0x63]. split; [done|]. split; [done|].
  apply (fnmatch_means_wild (fun c => c) (fun c => c) (fun _ _ => 0) _ _ PROTOCOL_NT1 false true).
  - intros c Hc. lia.
  - repeat (apply Forall_cons; split; [vm_compute; by split|]). apply Forall_nil_2.
  - reflexivity.
  - reflexivity.
  - vm_compute. reflexivity.
Defined.

(** The pattern [*.*] of a client of a protocol up to LANMAN2 matches every
    name, with a dot or without, while from NT1 on it matches the names that have
    a dot, in a case sensitive search. *)
Theorem star_dot_star_protocols upcase_table lowcase_table libc_strcasecmp string protocol :
  upcase_ok upcase_table ->
  ms_fnmatch_protocol upcase_table lowcase_table libc_strcasecmp [STAR; DOT; STAR] string
    protocol true true = true <->
  protocol <= PROTOCOL_LANMAN2 \/ has_dot string.
Proof.
  intros Ht. unfold ms_fnmatch_protocol. cbn [existsb is_wild STAR]. simpl negb. cbn [negb].
  destruct (Z.leb_spec protocol PROTOCOL_LANMAN2).
  - split; [by left|]. intros _. change (translate_lanman2 _) with [LT; DQUOTE; STAR].
    apply ms_fnmatch_nt1_wild; [done|by repeat constructor|done|]. apply wild_lt_dquote_star.
  - rewrite ms_fnmatch_nt1_wild, dotdot_idemp; [|done|by repeat constructor|done].
    rewrite wild_star_dot_star, dotdot_has_dot; [intuition lia|].
    intros x. unfold char_match, literal_match. cbn [hd negb andb].
    rewrite orb_false_r, Z.eqb_eq. naive_solver.
Qed.

Lemma star_dot_star_protocols_witness :
  ms_fnmatch_protocol (fun c => c) (fun c => c) (fun _ _ => 0) [STAR; DOT; STAR] [0x61; 0x62]
    PROTOCOL_LANMAN2 true true = true.
Proof.
  apply (star_dot_star_protocols (fun c => c) (fun c => c) (fun _ _ => 0)).
  - intros c Hc. lia.
  - left. reflexivity.
Defined.
