(* ===== verification/Lzxpress.v ===== *)
(** * LZ Xpress compression

    lib/compression/lzxpress.c: the compressor and the decompressor that
    librpc/ndr/ndr_compression.c calls. Bytes are [Z]; the output buffer of the
    compressor is a list that is updated in place, because indicator words and
    shared nibbles are filled in later. [None] is an access outside a buffer (or
    no fuel left, which the theorems exclude). *)

From S2P Require Import Prelude.
From stdpp Require Import prelude list.

#[local] Open Scope Z_scope.

(** ** Buffers *)

Definition get (b : list Z) (i : Z) : option Z :=
  if 0 <=? i then b !! Z.to_nat i else None.

Definition put (b : list Z) (i v : Z) : option (list Z) :=
  if (0 <=? i) && (i <? Z.of_nat (length b)) then Some (<[Z.to_nat i := v]> b) else None.

(** The bytes [bs] from [i] on: [put_all b i (le_bytes 2 v)] is [SSVAL], with 4
    bytes [SIVAL]. *)
Fixpoint put_all (b : list Z) (i : Z) (bs : list Z) : option (list Z) :=
  match bs with
  | [] => Some b
  | v :: bs => b ← put b i v; put_all b (i + 1) bs
  end.

Fixpoint get_all (b : list Z) (i : Z) (n : nat) : option (list Z) :=
  match n with
  | O => Some []
  | S n => v ← get b i; vs ← get_all b (i + 1) n; Some (v :: vs)
  end.

Definition PULL_LE_UINT16 (b : list Z) (i : Z) : option Z := le_value <$> get_all b i 2.
Definition PULL_LE_UINT32 (b : list Z) (i : Z) : option Z := le_value <$> get_all b i 4.

(** ** Compression *)

(** The innermost loop: the length of the common part of [str1] and [str2]. *)
Fixpoint match_len (max_len : nat) (str1 str2 : list Z) : Z :=
  match max_len, str1, str2 with
  | S k, x :: str1, y :: str2 => if x =? y then 1 + match_len k str1 str2 else 0
  | _, _, _ => 0
  end.

Definition MAX_LEN : Z := 255 + 15 + 7 + 3.

Section compress.
Context (uncompressed : list Z) (past : Z).

(** [past] is the byte in memory after the input: the loop that copies the last
    bytes may read it. *)
Definition uncompressed_at (i : Z) : option Z := get (uncompressed ++ [past]) i.

Definition uncompressed_size : Z := Z.of_nat (length uncompressed).

(** The loop over the window; [k] is the number of turns left. *)
Fixpoint search (k : nat) (upos byte_left offset best_len best_offset : Z) : Z * Z :=
  match k with
  | O => (best_len, best_offset)
  | S k =>
      let str1 := drop (Z.to_nat upos) uncompressed in
      let str2 := drop (Z.to_nat (upos - offset)) uncompressed in
      let max_len := Z.min MAX_LEN byte_left in
      let len := match_len (Z.to_nat max_len) str1 str2 in
      if best_len <? len then search k upos byte_left (offset + 1) len offset
      else search k upos byte_left (offset + 1) best_len best_offset
  end.

(** The longest match and its offset; the offset is 0 when nothing was found. *)
Definition best_match (upos byte_left : Z) : Z * Z :=
  let max_offset := Z.min 0x1FFF upos in
  search (Z.to_nat max_offset) upos byte_left 1 2 0.

Record cstate := Cstate {
  compressed : list Z;
  uncompressed_pos : Z;
  compressed_pos : Z;
  byte_left : Z;
  indic : Z;
  indic_pos : Z;
  indic_bit : Z;
  nibble_index : Z;
}.

(** The shared byte: a new one, or the high half of the last one. The result
    has the size of what was added at [pos]. *)
Definition put_nibble (b : list Z) (pos nibble : Z) (v : Z) : option (list Z * Z) :=
  if nibble =? 0 then b ← put b pos v; Some (b, 1)
  else
    x ← get b nibble;
    b ← put b nibble (u8 (Z.lor (Z.land x 0xF) (v * 16)));
    Some (b, 0).

(** The shared byte of the longest matches, which is or-ed to what is there. *)
Definition or_nibble (b : list Z) (pos nibble : Z) : option (list Z * Z) :=
  if nibble =? 0 then x ← get b pos; b ← put b pos (u8 (Z.lor x 15)); Some (b, 1)
  else
    x ← get b nibble;
    b ← put b nibble (u8 (Z.lor x (Z.shiftl 15 4)));
    Some (b, 0).

(** The bytes of the length of a match of 10 bytes or more, from [pos] on, and
    how many they are. *)
Definition put_length (b : list Z) (pos nibble best_len : Z) : option (list Z * Z) :=
  if best_len <? 15 + 7 + 3 then put_nibble b pos nibble (Z.land (best_len - (3 + 7)) 0xF)
  else if best_len <? 3 + 7 + 15 + 255 then
    '(b, n) ← put_nibble b pos nibble 15;
    b ← put b (pos + n) (Z.land (best_len - (3 + 7 + 15)) 0xFF);
    Some (b, n + 1)
  else
    '(b, n) ← or_nibble b pos nibble;
    b ← put b (pos + n) 255;
    b ← put b (pos + n + 1) (Z.land (best_len - 3) 0xFF);
    b ← put b (pos + n + 2) (Z.land (Z.shiftr (best_len - 3) 8) 0xFF);
    Some (b, n + 3).

(** The metadata of a match: the buffer and [metadata_size]. *)
Definition put_metadata (b : list Z) (pos nibble best_len best_offset : Z) : option (list Z * Z) :=
  if best_len <? 10 then
    b ← put_all b pos (le_bytes 2 (u16 (Z.lor (Z.shiftl (best_offset - 1) 3) (best_len - 3))));
    Some (b, 2)
  else
    b ← put_all b pos (le_bytes 2 (u16 (Z.lor (Z.shiftl (best_offset - 1) 3) 7)));
    '(b, n) ← put_length b (pos + 2) nibble best_len;
    Some (b, 2 + n).

(** The end of a turn of both loops: [indic_bit++] and, after 32 items, the
    indicator word is stored and a new one begun. *)
Definition next_indic (st : cstate) : option cstate :=
  let bit := u32 (indic_bit st + 1) in
  if bit mod 32 <? (bit - 1) mod 32 then
    b ← put_all (compressed st) (indic_pos st) (le_bytes 4 (indic st));
    Some (Cstate b (uncompressed_pos st) (compressed_pos st + 4) (byte_left st)
            0 (compressed_pos st) bit (nibble_index st))
  else
    Some (Cstate (compressed st) (uncompressed_pos st) (compressed_pos st) (byte_left st)
            (indic st) (indic_pos st) bit (nibble_index st)).

Definition put_match (st : cstate) (best_len best_offset : Z) : option cstate :=
  '(b, n) ← put_metadata (compressed st) (compressed_pos st) (nibble_index st) best_len best_offset;
  Some (Cstate b (uncompressed_pos st + best_len) (compressed_pos st + n) (byte_left st - best_len)
          (Z.lor (indic st) (Z.shiftl 1 (32 - (indic_bit st mod 32 + 1))))
          (indic_pos st) (indic_bit st)
          (if 9 <? best_len then
             if nibble_index st =? 0 then compressed_pos st + 2 else 0
           else nibble_index st)).

(** The next byte as it is; [left] is the new [byte_left], which only the first
    loop counts down. *)
Definition put_literal (st : cstate) (left : Z) : option cstate :=
  x ← uncompressed_at (uncompressed_pos st);
  b ← put (compressed st) (compressed_pos st) x;
  Some (Cstate b (uncompressed_pos st + 1) (compressed_pos st + 1) left
          (indic st) (indic_pos st) (indic_bit st) (nibble_index st)).

(** One turn of the first loop. *)
Definition compress_turn (st : cstate) : option cstate :=
  let '(best_len, best_offset) := best_match (uncompressed_pos st) (byte_left st) in
  st ← (if best_offset =? 0 then put_literal st (byte_left st - 1)
        else put_match st best_len best_offset);
  next_indic st.

Fixpoint compress_loop (fuel : nat) (st : cstate) : option cstate :=
  match fuel with
  | O => None
  | S fuel =>
      st ← compress_turn st;
      if 3 <? byte_left st then compress_loop fuel st else Some st
  end.

(** The second loop, which copies the last bytes. *)
Fixpoint tail_loop (fuel : nat) (st : cstate) : option cstate :=
  match fuel with
  | O => None
  | S fuel =>
      st ← put_literal st (byte_left st);
      st ← next_indic st;
      if uncompressed_pos st <? uncompressed_size then tail_loop fuel st else Some st
  end.

(** Both loops and the last indicator word: the final buffer and the returned
    size. Every turn of a loop takes at least a byte of the input. *)
Definition lzxpress_compress (buffer : list Z) : option (list Z * Z) :=
  if uncompressed_size =? 0 then Some (buffer, 0)
  else
    b ← put_all buffer 0 (le_bytes 4 0);
    st ← compress_loop (length uncompressed) (Cstate b 0 4 uncompressed_size 0 0 0 0);
    st ← tail_loop (S (length uncompressed)) st;
    if 0 <? indic_bit st mod 32 then
      b ← put_all (compressed st) (compressed_pos st) (le_bytes 4 0);
      b ← put_all b (indic_pos st) (le_bytes 4 (indic st));
      Some (b, compressed_pos st + 4)
    else Some (compressed st, compressed_pos st).

End compress.

(** ** Decompression *)

Record dstate := Dstate {
  output : list Z;
  input_index : Z;
  indicator : Z;
  indicator_bit : Z;
  dnibble_index : Z;
}.

Section decompress.
Context (input : list Z) (input_size max_output_size : Z).

(** The shared byte: the length it holds, [input_index] and [nibble_index]. *)
Definition get_nibble (idx nibble : Z) : option (Z * Z * Z) :=
  if nibble =? 0 then x ← get input idx; Some (x mod 16, u32 (idx + 1), idx)
  else x ← get input nibble; Some (x / 16, idx, 0).

(** The bytes of a length that does not fit the shared byte. *)
Definition get_length (length idx : Z) : option (Z * Z) :=
  if length =? 15 then
    x ← get input idx;
    let idx := u32 (idx + 1) in
    if x =? 255 then
      v ← PULL_LE_UINT16 input idx;
      Some (u32 (u32 (v - (15 + 7)) + 15), u32 (idx + 2))
    else Some (u32 (x + 15), idx)
  else Some (length, idx).

(** The length and the offset of the match at [input_index], the new
    [input_index] and [nibble_index]. *)
Definition get_metadata (idx nibble : Z) : option (Z * Z * Z * Z) :=
  v ← PULL_LE_UINT16 input idx;
  let idx := u32 (idx + 2) in
  let offset := v / 8 in
  let length := v mod 8 in
  if length =? 7 then
    '(length, idx, nibble) ← get_nibble idx nibble;
    '(length, idx) ← get_length length idx;
    Some (u32 (u32 (length + 7) + 3), offset, idx, nibble)
  else Some (length + 3, offset, idx, nibble).

(** The copying loop: [k + 1] bytes unless the output is full or the offset
    reaches before its start. *)
Fixpoint copy_loop (k : nat) (offset : Z) (out : list Z) : list Z :=
  let output_index := Z.of_nat (length out) in
  if (max_output_size <=? output_index) || (output_index <? offset + 1) then out
  else
    let out := out ++ [out !!! Z.to_nat (output_index - offset - 1)] in
    match k with O => out | S k => copy_loop k offset out end.

(** The indicator word, the number of its bits left and [input_index]. *)
Definition load_indicator (st : dstate) : option (Z * Z * Z) :=
  if indicator_bit st =? 0 then
    v ← PULL_LE_UINT32 input (input_index st); Some (v, 32, u32 (input_index st + 4))
  else Some (indicator st, indicator_bit st, input_index st).

(** One turn of the loop. Only the literal is stored without a check. *)
Definition decompress_turn (st : dstate) : option dstate :=
  '(ind, bit, idx) ← load_indicator st;
  let bit := bit - 1 in
  if Z.land (Z.shiftr ind bit) 1 =? 0 then
    x ← get input idx;
    if Z.of_nat (length (output st)) <? max_output_size then
      Some (Dstate (output st ++ [x]) (u32 (idx + 1)) ind bit (dnibble_index st))
    else None
  else
    '(len, offset, idx, nibble) ← get_metadata idx (dnibble_index st);
    Some (Dstate (copy_loop (Z.to_nat (len - 1)) offset (output st)) idx ind bit nibble).

Fixpoint decompress_loop (fuel : nat) (st : dstate) : option (list Z) :=
  match fuel with
  | O => None
  | S fuel =>
      st ← decompress_turn st;
      if (Z.of_nat (length (output st)) <? max_output_size) && (input_index st <? input_size)
      then decompress_loop fuel st
      else Some (output st)
  end.

(** Every turn moves on in the input. *)
Definition lzxpress_decompress : option (list Z) :=
  decompress_loop (S (Z.to_nat input_size)) (Dstate [] 0 0 0 0).

End decompress.
