(* ===== verification/LzxProps.v ===== *)
(** * Properties of LZ Xpress compression

    The compressor and the decompressor of [Lzxpress]: what is compressed is
    decompressed to the same bytes, the compressor stays inside a buffer of a
    known size, and the decompressor always returns. The proof of the round trip
    follows the compressor: [settled] says which parts of the buffer later steps
    leave alone, [sync] relates the states of the two loops. *)

From S2P Require Import Prelude.
From S2P Require Import Lzxpress.
From stdpp Require Import prelude list.

#[local] Open Scope Z_scope.
#[local] Arguments Z.testbit : simpl never.
#[local] Arguments Z.of_nat : simpl never.
#[local] Arguments Z.to_nat : simpl never.

(** ** Buffers *)

Definition at_ (b : list Z) (i : Z) : Z := b !!! Z.to_nat i.
Definition len (b : list Z) : Z := Z.of_nat (length b).

Lemma get_at b i : 0 <= i < len b -> get b i = Some (at_ b i).
Proof.
  unfold get, at_, len. intros H. rewrite (proj2 (Z.leb_le 0 i)) by lia.
  apply list_lookup_lookup_total_lt. lia.
Qed.

Lemma get_all_at b i n :
  0 <= i -> i + Z.of_nat n <= len b ->
  get_all b i n = Some ((fun k => at_ b (i + Z.of_nat k)) <$> seq 0 n).
Proof.
  revert i. induction n as [|n IH]; intros i Hi Hn; [done|].
  cbn [get_all]. rewrite get_at by lia. cbn [mbind option_bind]. rewrite IH by lia.
  cbn [mbind option_bind]. f_equal. cbn [seq fmap list_fmap]. f_equal; [f_equal; lia|].
  rewrite <- fmap_S_seq, <- list_fmap_compose. apply list_fmap_ext. intros j x _. simpl. f_equal. lia.
Qed.

(** [changed b b' P]: [b'] is [b] but for the indices in [P]. *)
Definition changed (b b' : list Z) (P : Z -> Prop) : Prop :=
  len b' = len b /\ forall j, 0 <= j -> ~ P j -> at_ b' j = at_ b j.

Lemma changed_trans b b1 b2 (P Q : Z -> Prop) :
  changed b b1 P -> changed b1 b2 Q -> changed b b2 (fun j => P j \/ Q j).
Proof.
  intros [L1 H1] [L2 H2]. split; [lia|]. intros j Hj Hn. rewrite H2, H1 by tauto. done.
Qed.

Lemma changed_mono b b' (P Q : Z -> Prop) :
  changed b b' P -> (forall j, 0 <= j -> P j -> Q j) -> changed b b' Q.
Proof. intros [L H] HPQ. split; [done|]. intros j Hj Hn. apply H; auto. Qed.

Lemma put_ok b i v :
  0 <= i < len b ->
  exists b', put b i v = Some b' /\ changed b b' (fun j => j = i) /\ at_ b' i = v.
Proof.
  unfold changed, put, len, at_. intros H. exists (<[Z.to_nat i := v]> b).
  rewrite (proj2 (Z.leb_le 0 i)), (proj2 (Z.ltb_lt i (Z.of_nat (length b)))) by lia.
  split; [done|]. split; [split|].
  - by rewrite length_insert.
  - intros j Hj Hn. apply list_lookup_total_insert_ne. lia.
  - apply list_lookup_total_insert_eq. lia.
Qed.

Lemma put_all_ok bs b i :
  0 <= i -> i + len bs <= len b ->
  exists b', put_all b i bs = Some b' /\ changed b b' (fun j => i <= j < i + len bs) /\
    forall k, (k < length bs)%nat -> at_ b' (i + Z.of_nat k) = bs !!! k.
Proof.
  unfold len at 1 3. revert b i. induction bs as [|v bs IH]; intros b i Hi Hl; simpl.
  { exists b. split; [done|]. split; [by split|]. intros k Hk. lia. }
  cbn [length] in Hl.
  destruct (put_ok b i v) as (b1 & -> & H1 & Hv); [lia|]. cbn [mbind option_bind].
  destruct (IH b1 (i + 1)) as (b2 & -> & H2 & Hk); [lia|destruct H1; lia|].
  exists b2. split; [done|]. split.
  { eapply changed_mono; [by eapply changed_trans|]. simpl. lia. }
  intros [|k] Hlt.
  - replace (i + Z.of_nat 0) with i by lia. rewrite (proj2 H2) by lia. done.
  - replace (i + Z.of_nat (S k)) with (i + 1 + Z.of_nat k) by lia. apply Hk. simpl in Hlt. lia.
Qed.

(** ** Matches *)

(** The [l] bytes at [upos] are those [off] bytes before. *)
Definition valid_match (data : list Z) (upos l off : Z) : Prop :=
  forall j, 0 <= j < l -> at_ data (upos + j) = at_ data (upos + j - off).

Lemma match_len_ok k s1 s2 :
  0 <= match_len k s1 s2 <= Z.of_nat k /\ match_len k s1 s2 <= len s1 /\
  forall j, 0 <= j < match_len k s1 s2 -> at_ s1 j = at_ s2 j.
Proof.
  revert s1 s2. induction k as [|k IH]; intros s1 s2; unfold len in *; simpl;
    [split_and!; intros; lia|].
  destruct s1 as [|x s1]; [split_and!; intros; lia|].
  destruct s2 as [|y s2]; [split_and!; intros; lia|].
  destruct (Z.eqb_spec x y) as [-> |]; [|split_and!; intros; lia].
  destruct (IH s1 s2) as (H1 & H2 & H3). cbn [length]. repeat split; try lia.
  intros j Hj. destruct (decide (j = 0)) as [-> |]; [done|].
  specialize (H3 (j - 1) ltac:(lia)). unfold at_ in *.
  by replace (Z.to_nat j) with (S (Z.to_nat (j - 1))) by lia.
Qed.

Lemma at_drop b n j : 0 <= n -> 0 <= j -> at_ (drop (Z.to_nat n) b) j = at_ b (n + j).
Proof. intros Hn Hj. unfold at_. rewrite lookup_total_drop. f_equal. lia. Qed.

Lemma search_ok data k upos left offset bl bo :
  0 <= upos -> 0 <= left -> upos + left = len data -> 1 <= offset -> offset + Z.of_nat k <= upos + 1 ->
  let good l o := 0 <= o < offset + Z.of_nat k /\
                  (0 < o -> 3 <= l <= Z.min MAX_LEN left /\ valid_match data upos l o) in
  2 <= bl -> good bl bo ->
  good (search data k upos left offset bl bo).1 (search data k upos left offset bl bo).2.
Proof.
  revert offset bl bo. induction k as [|k IH]; intros offset bl bo Hu Hl Hd Ho Hk good Hb Hg; [done|].
  cbn [search].
  set (r := match_len _ _ _).
  destruct (match_len_ok (Z.to_nat (Z.min MAX_LEN left)) (drop (Z.to_nat upos) data)
              (drop (Z.to_nat (upos - offset)) data)) as (H1 & H2 & H3). fold r in H1, H2, H3.
  destruct (Z.ltb_spec bl r).
  - destruct (IH (offset + 1) r offset) as [Ha Hb']; try lia.
    { split; [lia|]. intros _. split; [unfold MAX_LEN in *; lia|]. intros j Hj.
      specialize (H3 j Hj). rewrite !at_drop in H3 by lia.
      rewrite H3. f_equal. lia. }
    split; [lia|done].
  - destruct (IH (offset + 1) bl bo) as [Ha Hb']; try lia.
    { destruct Hg. split; [lia|done]. }
    split; [lia|done].
Qed.

Lemma best_match_ok data upos left bl bo :
  0 <= upos -> 0 <= left -> upos + left = len data -> best_match data upos left = (bl, bo) ->
  0 <= bo <= 0x1FFF /\ bo <= upos /\
  (0 < bo -> 3 <= bl <= MAX_LEN /\ bl <= left /\ valid_match data upos bl bo).
Proof.
  unfold best_match. intros Hu Hl Hd Hm.
  pose proof (search_ok data (Z.to_nat (Z.min 0x1FFF upos)) upos left 1 2 0) as H.
  rewrite Hm in H. cbn [fst snd] in H.
  destruct H as [H1 H2]; try lia.
  repeat split; try lia; try (destruct H2; [done|]; lia). by apply H2.
Qed.

Lemma take_snoc data n : (n < length data)%nat -> take n data ++ [at_ data (Z.of_nat n)] = take (S n) data.
Proof.
  intros H. unfold at_. rewrite Nat2Z.id. symmetry. apply take_S_r.
  by apply list_lookup_lookup_total_lt.
Qed.

Lemma copy_loop_ok data max k off n :
  0 <= off -> off + 1 <= Z.of_nat n -> (n + S k <= length data)%nat -> len data <= max ->
  valid_match data (Z.of_nat n) (Z.of_nat (S k)) (off + 1) ->
  copy_loop max k off (take n data) = take (n + S k) data.
Proof.
  revert n. induction k as [|k IH]; intros n H0 Ho Hn Hm Hv; cbn [copy_loop];
    rewrite !length_take, !Nat.min_l by lia; unfold len in Hm;
    rewrite (proj2 (Z.leb_gt max _)), (proj2 (Z.ltb_ge (Z.of_nat n) _)) by lia; cbn [orb];
    assert (Hx : take n data !!! Z.to_nat (Z.of_nat n - off - 1) = at_ data (Z.of_nat n))
      by (rewrite lookup_total_take, decide_True by lia; specialize (Hv 0 ltac:(lia));
          rewrite Z.add_0_r in Hv; rewrite Hv; unfold at_;
          by replace (Z.of_nat n - (off + 1)) with (Z.of_nat n - off - 1) by lia);
    rewrite Hx, take_snoc by lia.
  - f_equal. lia.
  - rewrite IH; [f_equal; lia|done|lia|lia|unfold len; lia|].
    intros j Hj. specialize (Hv (j + 1) ltac:(lia)).
    replace (Z.of_nat (S n) + j) with (Z.of_nat n + (j + 1)) by lia. done.
Qed.

(** ** Metadata *)

Lemma lor_16 a v : 0 <= a < 16 -> Z.lor (v * 16) a = v * 16 + a.
Proof. apply (lor_disjoint v a 4). lia. Qed.

Lemma metadata_word o l :
  1 <= o <= 0x2000 -> 0 <= l < 8 -> u16 (Z.lor (Z.shiftl (o - 1) 3) l) = (o - 1) * 8 + l.
Proof.
  intros Ho Hl. rewrite Z.shiftl_mul_pow2, lor_disjoint by lia.
  apply u16_id. unfold in_w. lia.
Qed.

Lemma mod_div_16 a v : 0 <= a < 16 -> 0 <= v < 16 ->
  u8 (a + v * 16) / 16 = v /\ u8 (a + v * 16) mod 16 = a.
Proof.
  intros Ha Hv. rewrite u8_id by (unfold in_w; lia). split.
  - rewrite Z.div_add, Z.div_small; lia.
  - rewrite Z.mod_add, Z.mod_small; lia.
Qed.

(** The nibbles that the or-ed writes leave. *)
Lemma nibble_high x v : 0 <= v < 16 ->
  u8 (Z.lor (Z.land x 15) (v * 16)) / 16 = v /\
  u8 (Z.lor (Z.land x 15) (v * 16)) mod 16 = x mod 16.
Proof.
  intros Hv. change 15 with (Z.ones 4). rewrite Z.land_ones by lia.
  pose proof (Z.mod_pos_bound x 16 ltac:(lia)).
  change (2 ^ 4) with 16. rewrite Z.lor_comm, lor_16, Z.add_comm by lia. apply mod_div_16; lia.
Qed.

Lemma or_high x :
  u8 (Z.lor x (Z.shiftl 15 4)) / 16 = 15 /\ u8 (Z.lor x (Z.shiftl 15 4)) mod 16 = x mod 16.
Proof.
  assert (Hm : u8 (Z.lor x (Z.shiftl 15 4)) = u8 (x mod 16 + 15 * 16)).
  { unfold u8. rewrite <- !Z.land_ones by lia. change 16 with (2 ^ 4) at 1.
    rewrite <- (Z.land_ones x 4) by lia. rewrite Z.add_comm, <- lor_16.
    - apply Z.bits_inj'. intros k Hk. rewrite !Z.land_spec, !Z.lor_spec, Z.land_spec.
      destruct (Z.ltb_spec k 4).
      + rewrite (Z.ones_spec_low 4 k), andb_true_r, orb_comm by lia. f_equal.
      + destruct (Z.ltb_spec k 8); [|by rewrite (Z.ones_spec_high 8 k), !andb_false_r by lia].
        rewrite (Z.ones_spec_high 4 k), andb_false_r, orb_false_r by lia.
        assert (k = 4 \/ k = 5 \/ k = 6 \/ k = 7) as [-> | [-> | [-> | ->]]] by lia;
          by rewrite orb_true_r.
    - rewrite Z.land_ones by lia. apply Z.mod_pos_bound. lia. }
  rewrite Hm. pose proof (Z.mod_pos_bound x 16 ltac:(lia)). apply mod_div_16; lia.
Qed.

Lemma or_low x : u8 (Z.lor x 15) mod 16 = 15.
Proof.
  change 16 with (2 ^ 4). unfold u8. rewrite <- !Z.land_ones by lia.
  apply Z.bits_inj'. intros k Hk. rewrite !Z.land_spec, Z.lor_spec.
  destruct (Z.ltb_spec k 4).
  - assert (k = 0 \/ k = 1 \/ k = 2 \/ k = 3) as [-> | [-> | [-> | ->]]] by lia;
      by rewrite orb_true_r.
  - rewrite (Z.ones_spec_high 4 k), andb_false_r by lia. symmetry.
    apply (Z.ones_spec_high 4 k). lia.
Qed.

(** [b1] is [b] with the nibble [v] written, at [pos] or in the high half at
    [nib]. *)
Definition nibble_written (b : list Z) (pos nib v : Z) (b1 : list Z) : Prop :=
  if nib =? 0 then changed b b1 (fun j => j = pos) /\ at_ b1 pos mod 16 = v
  else changed b b1 (fun j => j = nib) /\ at_ b1 nib / 16 = v /\ at_ b1 nib mod 16 = at_ b nib mod 16.

Definition nibble_size (nib : Z) : Z := if nib =? 0 then 1 else 0.

Definition nibble_in (b : list Z) (pos nib : Z) : Prop :=
  0 <= pos /\ pos + nibble_size nib <= len b /\ (nib = 0 \/ 0 < nib < len b).

Lemma put_nibble_ok b pos nib v :
  nibble_in b pos nib -> 0 <= v < 16 ->
  exists b1, put_nibble b pos nib v = Some (b1, nibble_size nib) /\ nibble_written b pos nib v b1.
Proof.
  unfold put_nibble, nibble_written, nibble_in, nibble_size. intros (Hp & Hl & Hn) Hv.
  destruct (Z.eqb_spec nib 0).
  - destruct (put_ok b pos v) as (b1 & -> & Hc & Ha); [lia|]. exists b1. repeat split; try apply Hc.
    rewrite Ha. apply Z.mod_small. lia.
  - rewrite get_at by lia. cbn [mbind option_bind].
    destruct (put_ok b nib (u8 (Z.lor (Z.land (at_ b nib) 15) (v * 16)))) as (b1 & -> & Hc & Ha); [lia|].
    exists b1. rewrite Ha. split; [done|]. split; [done|]. by apply nibble_high.
Qed.

Lemma or_nibble_ok b pos nib :
  nibble_in b pos nib ->
  exists b1, or_nibble b pos nib = Some (b1, nibble_size nib) /\ nibble_written b pos nib 15 b1.
Proof.
  unfold or_nibble, nibble_written, nibble_in, nibble_size. intros (Hp & Hl & Hn).
  destruct (Z.eqb_spec nib 0).
  - rewrite get_at by lia. cbn [mbind option_bind].
    destruct (put_ok b pos (u8 (Z.lor (at_ b pos) 15))) as (b1 & -> & Hc & Ha); [lia|].
    exists b1. rewrite Ha. split; [done|]. split; [done|]. apply or_low.
  - rewrite get_at by lia. cbn [mbind option_bind].
    destruct (put_ok b nib (u8 (Z.lor (at_ b nib) (Z.shiftl 15 4)))) as (b1 & -> & Hc & Ha); [lia|].
    exists b1. rewrite Ha. split; [done|]. split; [done|]. apply or_high.
Qed.

(** The value of [nibble_index] after a match of length [l]. *)
Definition next_nibble (pos nib l : Z) : Z :=
  if 9 <? l then if nib =? 0 then pos + 2 else 0 else nib.

(** What the decompressor will see of [b1] from [pos] to [pos + n] when a nibble
    at [nib1] may still be added. *)
Definition sees (b1 b' : list Z) (pos n nib nib1 : Z) : Prop :=
  pos + n <= len b' < 2 ^ 32 /\
  (forall j, pos <= j < pos + n -> nib1 = 0 \/ j <> nib1 -> at_ b' j = at_ b1 j) /\
  (nib1 <> 0 -> at_ b' nib1 mod 16 = at_ b1 nib1 mod 16) /\
  (nib <> 0 -> nib1 = 0 -> at_ b' nib = at_ b1 nib).

Lemma le_value_2 x y : le_value [x; y] = x + 256 * y.
Proof. unfold le_value. lia. Qed.

Lemma pull16_at b i :
  0 <= i -> i + 2 <= len b -> PULL_LE_UINT16 b i = Some (at_ b i + 256 * at_ b (i + 1)).
Proof.
  intros Hi Hl. unfold PULL_LE_UINT16. rewrite get_all_at by lia.
  cbn [fmap option_fmap option_map seq list_fmap le_value].
  replace (i + Z.of_nat 0) with i by lia. replace (i + Z.of_nat 1) with (i + 1) by lia.
  by rewrite le_value_2.
Qed.

(** The nibble of [b1] at [pos] or [nib] is the one of [b']. *)
Definition nibble_seen (b1 b' : list Z) (pos nib : Z) : Prop :=
  if nib =? 0 then at_ b' pos mod 16 = at_ b1 pos mod 16 else at_ b' nib = at_ b1 nib.

Lemma sees_nibble b1 b' pos n nib l :
  9 < l -> 2 < pos -> sees b1 b' pos n nib (next_nibble (pos - 2) nib l) -> nibble_seen b1 b' pos nib.
Proof.
  unfold sees, next_nibble, nibble_seen. intros Hl Hp. rewrite (proj2 (Z.ltb_lt 9 l)) by lia.
  replace (pos - 2 + 2) with pos by lia.
  destruct (Z.eqb_spec nib 0); intros (_ & _ & H16 & H0); [apply H16; lia|by apply H0].
Qed.

Lemma nibble_seen_changed b1 b2 b' pos nib (P : Z -> Prop) :
  0 <= pos -> 0 <= nib -> changed b1 b2 P -> ~ P (if nib =? 0 then pos else nib) ->
  nibble_seen b2 b' pos nib -> nibble_seen b1 b' pos nib.
Proof.
  unfold nibble_seen. intros Hp Hn [_ Hc] HP. destruct (nib =? 0); rewrite Hc by done; done.
Qed.

Lemma get_nibble_ok b b1 b' pos nib v l :
  nibble_written b pos nib v b1 -> 9 < l -> 0 <= pos -> pos + nibble_size nib <= len b' < 2 ^ 32 ->
  (nib = 0 \/ 0 < nib < len b') -> nibble_seen b1 b' pos nib ->
  get_nibble b' pos nib = Some (v, pos + nibble_size nib, next_nibble (pos - 2) nib l).
Proof.
  unfold nibble_written, nibble_size, next_nibble, nibble_seen, get_nibble. intros Hw Hl Hp Hb Hn.
  rewrite (proj2 (Z.ltb_lt 9 l)) by lia. replace (pos - 2 + 2) with pos by lia.
  destruct (Z.eqb_spec nib 0) as [-> |]; intros Hs; rewrite get_at by lia;
    cbn [mbind option_bind]; rewrite Hs.
  - rewrite (proj2 Hw), u32_id by (unfold in_w; lia). done.
  - rewrite (proj1 (proj2 Hw)) by done. by rewrite Z.add_0_r.
Qed.

Lemma put16_ok b i v :
  0 <= i -> i + 2 <= len b -> 0 <= v < 2 ^ 16 ->
  exists b1, put_all b i (le_bytes 2 v) = Some b1 /\ changed b b1 (fun j => i <= j < i + 2) /\
    at_ b1 i + 256 * at_ b1 (i + 1) = v.
Proof.
  intros Hi Hl Hv. destruct (put_all_ok (le_bytes 2 v) b i) as (b1 & -> & Hc & Hk).
  - done.
  - unfold len at 1. rewrite length_le_bytes. lia.
  - exists b1. split; [done|]. split.
    { eapply changed_mono; [exact Hc|]. unfold len. rewrite length_le_bytes. lia. }
    pose proof (Hk 0%nat) as H0. pose proof (Hk 1%nat) as H1. rewrite length_le_bytes in H0, H1.
    specialize (H0 ltac:(lia)). specialize (H1 ltac:(lia)).
    replace (i + Z.of_nat 0) with i in H0 by lia. replace (i + Z.of_nat 1) with (i + 1) in H1 by lia.
    rewrite H0, H1, <- le_value_2. exact (le_roundtrip 2 v Hv).
Qed.

(** A buffer [b1] with the length [l] in the [n] bytes from [pos] on, and what is
    read from it. *)
Definition length_written (b : list Z) (pos nib l : Z) (b1 : list Z) (n : Z) : Prop :=
  nibble_size nib <= n <= 4 /\
  changed b b1 (fun j => pos <= j < pos + n \/ nib <> 0 /\ j = nib) /\
  (nib <> 0 -> at_ b1 nib mod 16 = at_ b nib mod 16) /\
  forall b', sees b1 b' pos n nib (next_nibble (pos - 2) nib l) ->
    exists x idx, get_nibble b' pos nib = Some (x, idx, next_nibble (pos - 2) nib l) /\
      get_length b' x idx = Some (l - 10, pos + n).

Lemma nibble_written_changed b pos nib v b1 :
  nibble_written b pos nib v b1 ->
  changed b b1 (fun j => pos <= j < pos + nibble_size nib \/ nib <> 0 /\ j = nib) /\
  (nib <> 0 -> at_ b1 nib mod 16 = at_ b nib mod 16).
Proof.
  unfold nibble_written, nibble_size. destruct (Z.eqb_spec nib 0); intros H.
  - split; [|done]. eapply changed_mono; [apply H|]. simpl. lia.
  - split; [|intros _; apply H]. eapply changed_mono; [apply H|]. simpl. lia.
Qed.

Lemma nibble_size_cases nib :
  nib = 0 /\ nibble_size nib = 1 \/ nib <> 0 /\ nibble_size nib = 0.
Proof. unfold nibble_size. destruct (Z.eqb_spec nib 0); lia. Qed.

(** A length whose shared byte is written first and further bytes after it. *)
Lemma length_written_intro b pos nib l v b1 b2 m :
  nibble_written b pos nib v b1 -> 9 < l -> 2 < pos -> (nib = 0 \/ 0 < nib < pos) -> 0 <= m <= 3 ->
  changed b1 b2 (fun j => pos + nibble_size nib <= j < pos + nibble_size nib + m) ->
  (forall b', pos + nibble_size nib + m <= len b' < 2 ^ 32 ->
     (forall j, pos + nibble_size nib <= j < pos + nibble_size nib + m -> at_ b' j = at_ b2 j) ->
     get_length b' v (pos + nibble_size nib) = Some (l - 10, pos + (nibble_size nib + m))) ->
  length_written b pos nib l b2 (nibble_size nib + m).
Proof.
  intros Hw Hl Hp Hn Hm Hc2 Hg. destruct (nibble_written_changed _ _ _ _ _ Hw) as [Hc H16].
  pose proof (nibble_size_cases nib) as Hz.
  split; [lia|]. split; [|split].
  { eapply changed_mono; [by eapply changed_trans|]. simpl. lia. }
  { intros Hn0. rewrite (proj2 Hc2) by lia. by apply H16. }
  intros b' Hs. exists v, (pos + nibble_size nib). pose proof Hs as (H1 & H2 & _). split.
  - apply (get_nibble_ok b b1 b' pos nib v l Hw); try lia.
    apply (nibble_seen_changed b1 b2 b' pos nib _ ltac:(lia) ltac:(lia) Hc2).
    + destruct (Z.eqb_spec nib 0); lia.
    + by eapply sees_nibble.
  - apply Hg; [lia|]. intros j Hj. apply H2; [lia|]. right.
    unfold next_nibble. rewrite (proj2 (Z.ltb_lt 9 l)) by lia. destruct (Z.eqb_spec nib 0); lia.
Qed.

Lemma changed_refl b (P : Z -> Prop) : changed b b P.
Proof. by split. Qed.

(** The longest matches, which have three more bytes. *)
Lemma put_length_max b pos nib :
  2 < pos -> pos + 4 <= len b -> (nib = 0 \/ 0 < nib < pos) ->
  exists b1 n, put_length b pos nib 280 = Some (b1, n) /\ length_written b pos nib 280 b1 n.
Proof.
  intros Hp Hb Hn. pose proof (nibble_size_cases nib) as Hz.
  assert (Hin : nibble_in b pos nib) by (unfold nibble_in; lia).
  unfold put_length. cbn [Z.ltb Z.compare]. simpl (280 <? _). cbn match.
  rewrite !land_255, Z.shiftr_div_pow2 by lia.
  destruct (or_nibble_ok b pos nib Hin) as (b1 & -> & Hw). cbn [mbind option_bind].
  destruct (nibble_written_changed _ _ _ _ _ Hw) as [[Hlen _] _].
  set (p := pos + nibble_size nib) in *.
  destruct (put_ok b1 p 255) as (b2 & -> & Hc2 & Hx2); [lia|]. cbn [mbind option_bind].
  destruct (put_ok b2 (p + 1) ((280 - 3) mod 256)) as (b3 & -> & Hc3 & Hx3); [destruct Hc2; lia|].
  cbn [mbind option_bind].
  destruct (put_ok b3 (p + 2) ((280 - 3) / 2 ^ 8 mod 256)) as (b4 & -> & Hc4 & Hx4);
    [destruct Hc2, Hc3; lia|]. cbn [mbind option_bind].
  exists b4, (nibble_size nib + 3). split; [done|].
  apply (length_written_intro b pos nib 280 _ b1 b4 3 Hw); try lia.
  { eapply changed_mono;
      [eapply changed_trans; [exact Hc2|]; eapply changed_trans; [exact Hc3|exact Hc4]|].
    simpl. fold p. lia. }
  fold p. intros b' H1 H2. unfold get_length. rewrite Z.eqb_refl, get_at by lia.
  cbn [mbind option_bind].
  assert (Hb1 : at_ b' p = 255). { rewrite H2, (proj2 Hc4), (proj2 Hc3) by lia. done. }
  assert (Hb2 : at_ b' (p + 1) = 21). { rewrite H2, (proj2 Hc4), Hx3 by lia. done. }
  assert (Hb3 : at_ b' (p + 2) = 1). { rewrite H2, Hx4 by lia. done. }
  rewrite Hb1. cbn [Z.eqb Pos.eqb]. rewrite (u32_id (p + 1)), pull16_at by (unfold in_w; lia).
  replace (p + 1 + 1) with (p + 2) by lia. rewrite Hb2, Hb3. cbn [mbind option_bind].
  rewrite (u32_id (p + 1 + 2)) by (unfold in_w; lia). do 2 f_equal. lia.
Qed.

Lemma put_length_ok b pos nib l :
  2 < pos -> pos + 4 <= len b -> (nib = 0 \/ 0 < nib < pos) -> 10 <= l <= MAX_LEN ->
  exists b1 n, put_length b pos nib l = Some (b1, n) /\ length_written b pos nib l b1 n.
Proof.
  intros Hp Hb Hn Hl. unfold MAX_LEN in *. pose proof (nibble_size_cases nib) as Hz.
  assert (Hin : nibble_in b pos nib) by (unfold nibble_in; lia).
  destruct (decide (l < 25)).
  { unfold put_length. rewrite (proj2 (Z.ltb_lt l _)) by lia. change 0xF with (Z.ones 4). rewrite Z.land_ones, Z.mod_small by lia.
    destruct (put_nibble_ok b pos nib (l - (3 + 7)) Hin) as (b1 & -> & Hw); [lia|].
    exists b1, (nibble_size nib). split; [done|]. rewrite <- (Z.add_0_r (nibble_size nib)).
    apply (length_written_intro b pos nib l _ b1 b1 0 Hw); try lia; [apply changed_refl|].
    intros b' H1 _. unfold get_length. rewrite (proj2 (Z.eqb_neq _ 15)) by lia. do 2 f_equal; lia. }
  destruct (decide (l < 280)).
  { unfold put_length. rewrite (proj2 (Z.ltb_ge l _)), (proj2 (Z.ltb_lt l _)) by lia. rewrite land_255, Z.mod_small by lia.
    destruct (put_nibble_ok b pos nib 15 Hin) as (b1 & -> & Hw); [lia|]. cbn [mbind option_bind].
    destruct (nibble_written_changed _ _ _ _ _ Hw) as [[Hlen _] _].
    destruct (put_ok b1 (pos + nibble_size nib) (l - (3 + 7 + 15))) as (b2 & -> & Hc & Hx); [lia|].
    exists b2, (nibble_size nib + 1). split; [done|].
    apply (length_written_intro b pos nib l _ b1 b2 1 Hw); try lia.
    { eapply changed_mono; [exact Hc|]. simpl. lia. }
    intros b' H1 H2. unfold get_length. rewrite Z.eqb_refl, get_at by lia. cbn [mbind option_bind].
    rewrite H2, Hx, (proj2 (Z.eqb_neq _ 255)) by lia. rewrite !u32_id by (unfold in_w; lia).
    do 2 f_equal; lia. }
  assert (l = 280) as -> by lia. by apply put_length_max.
Qed.

(** The match [l], [o] is in the [n] bytes from [pos] on. *)
Definition match_written (b : list Z) (pos nib l o : Z) (b1 : list Z) (n : Z) : Prop :=
  2 <= n <= 6 /\ n <= l /\ (next_nibble pos nib l = nib \/ 2 + nibble_size nib <= n) /\
  changed b b1 (fun j => pos <= j < pos + n \/ nib <> 0 /\ j = nib) /\
  (nib <> 0 -> at_ b1 nib mod 16 = at_ b nib mod 16) /\
  forall b', sees b1 b' pos n nib (next_nibble pos nib l) ->
    get_metadata b' pos nib = Some (l, o - 1, pos + n, next_nibble pos nib l).

Lemma put_metadata_ok b pos nib l o :
  0 < pos -> pos + Z.min l 6 <= len b -> (nib = 0 \/ 0 < nib < pos) -> 3 <= l <= MAX_LEN ->
  1 <= o <= 0x2000 ->
  exists b1 n, put_metadata b pos nib l o = Some (b1, n) /\ match_written b pos nib l o b1 n.
Proof.
  intros Hp Hb Hn Hl Ho. unfold put_metadata. destruct (Z.ltb_spec l 10).
  - rewrite metadata_word by lia.
    destruct (put16_ok b pos ((o - 1) * 8 + (l - 3))) as (b1 & -> & Hc & Hx); [lia..|].
    cbn [mbind option_bind]. exists b1, 2. split; [done|]. split; [lia|]. split; [lia|].
    split; [left; unfold next_nibble; by rewrite (proj2 (Z.ltb_ge 9 l)) by lia|].
    split; [eapply changed_mono; [exact Hc|]; simpl; lia|].
    split; [intros; by rewrite (proj2 Hc) by lia|].
    unfold next_nibble. rewrite (proj2 (Z.ltb_ge 9 l)) by lia. intros b' (H1 & H2 & _).
    unfold get_metadata. rewrite pull16_at, (u32_id (pos + 2)) by (unfold in_w; lia).
    cbn [mbind option_bind]. rewrite !H2, Hx by lia.
    replace (((o - 1) * 8 + (l - 3)) mod 8) with (l - 3)
      by (rewrite Z.add_comm, Z.mod_add, Z.mod_small; lia).
    replace (((o - 1) * 8 + (l - 3)) / 8) with (o - 1)
      by (rewrite Z.div_add_l, Z.div_small; lia).
    rewrite (proj2 (Z.eqb_neq (l - 3) 7)) by lia. by rewrite Z.sub_add.
  - rewrite metadata_word by lia.
    destruct (put16_ok b pos ((o - 1) * 8 + 7)) as (b1 & -> & Hc & Hx); [lia..|].
    cbn [mbind option_bind].
    destruct (put_length_ok b1 (pos + 2) nib l) as (b2 & n & -> & Hn4 & Hc2 & H16 & Hg);
      [lia|destruct Hc; lia|lia|lia|].
    pose proof (nibble_size_cases nib) as Hz.
    cbn [mbind option_bind]. exists b2, (2 + n). split; [done|]. split; [lia|]. split; [lia|].
    split; [lia|].
    split; [eapply changed_mono; [by eapply changed_trans|]; simpl; lia|].
    split; [intros; rewrite H16, (proj2 Hc) by lia; done|].
    replace (pos + 2 - 2) with pos in Hg by lia.
    intros b' Hs. pose proof Hs as (H1 & H2 & H3 & H4).
    assert (Hnn : next_nibble pos nib l = 0 \/ next_nibble pos nib l = pos + 2)
      by (unfold next_nibble; rewrite (proj2 (Z.ltb_lt 9 l)) by lia; case_if; lia).
    unfold get_metadata. rewrite pull16_at, (u32_id (pos + 2)) by (unfold in_w; lia).
    cbn [mbind option_bind]. rewrite !H2, !(proj2 Hc2), Hx by lia.
    replace (((o - 1) * 8 + 7) mod 8) with 7 by (rewrite Z.add_comm, Z.mod_add, Z.mod_small; lia).
    replace (((o - 1) * 8 + 7) / 8) with (o - 1) by (rewrite Z.div_add_l, Z.div_small; lia).
    destruct (Hg b') as (x & idx & -> & Hlen).
    { split; [lia|]. split; [|done]. intros j Hj. apply H2. lia. }
    cbn [Z.eqb Pos.eqb mbind option_bind]. rewrite Hlen. cbn [mbind option_bind].
    unfold MAX_LEN in Hl. rewrite (u32_id (l - 10 + 7)), u32_id by (unfold in_w; lia).
    replace (l - 10 + 7 + 3) with l by lia. by replace (pos + (2 + n)) with (pos + 2 + n) by lia.
Qed.

(** ** The compressor and the buffer the decompressor will read *)

Definition word (b : list Z) (i : Z) : Z :=
  le_value [at_ b i; at_ b (i + 1); at_ b (i + 2); at_ b (i + 3)].

Lemma pull32_at b i : 0 <= i -> i + 4 <= len b -> PULL_LE_UINT32 b i = Some (word b i).
Proof.
  intros Hi Hl. unfold PULL_LE_UINT32, word. rewrite get_all_at by lia.
  cbn [fmap option_fmap option_map seq list_fmap].
  replace (i + Z.of_nat 0) with i by lia. replace (i + Z.of_nat 1) with (i + 1) by lia.
  replace (i + Z.of_nat 2) with (i + 2) by lia. by replace (i + Z.of_nat 3) with (i + 3) by lia.
Qed.

Lemma put32_ok b i v :
  0 <= i -> i + 4 <= len b -> 0 <= v < 2 ^ 32 ->
  exists b1, put_all b i (le_bytes 4 v) = Some b1 /\ changed b b1 (fun j => i <= j < i + 4) /\
    word b1 i = v.
Proof.
  intros Hi Hl Hv. destruct (put_all_ok (le_bytes 4 v) b i) as (b1 & -> & Hc & Hk).
  - done.
  - unfold len at 1. rewrite length_le_bytes. lia.
  - exists b1. split; [done|]. split.
    { eapply changed_mono; [exact Hc|]. unfold len. rewrite length_le_bytes. lia. }
    rewrite length_le_bytes in Hk. unfold word.
    pose proof (Hk 0%nat ltac:(lia)) as H0. pose proof (Hk 1%nat ltac:(lia)) as H1.
    pose proof (Hk 2%nat ltac:(lia)) as H2. pose proof (Hk 3%nat ltac:(lia)) as H3.
    replace (i + Z.of_nat 0) with i in H0 by lia. replace (i + Z.of_nat 1) with (i + 1) in H1 by lia.
    replace (i + Z.of_nat 2) with (i + 2) in H2 by lia. replace (i + Z.of_nat 3) with (i + 3) in H3 by lia.
    rewrite H0, H1, H2, H3. exact (le_roundtrip 4 v Hv).
Qed.

(** [k] bits of the current indicator word are used. *)
Definition wf (st : cstate) (k : Z) : Prop :=
  0 <= k <= 32 /\ 0 <= indic_pos st /\ indic_pos st + 4 <= compressed_pos st /\
  (nibble_index st = 0 \/
   4 <= nibble_index st < compressed_pos st /\
   (nibble_index st < indic_pos st \/ indic_pos st + 4 <= nibble_index st)) /\
  0 <= indic st < 2 ^ 32 /\ (forall j, 0 <= j < 32 - k -> Z.testbit (indic st) j = false).

(** [b'] has what the compressor has settled: everything before its position but
    the current indicator word and the high half of a pending shared byte, and
    the used bits of that word. *)
Definition settled (st : cstate) (k : Z) (b' : list Z) : Prop :=
  compressed_pos st <= len b' < 2 ^ 32 /\
  (forall i, 0 <= i < compressed_pos st -> ~ indic_pos st <= i < indic_pos st + 4 ->
     nibble_index st = 0 \/ i <> nibble_index st -> at_ b' i = at_ (compressed st) i) /\
  (nibble_index st <> 0 ->
     at_ b' (nibble_index st) mod 16 = at_ (compressed st) (nibble_index st) mod 16) /\
  (forall j, 32 - k <= j < 32 ->
     Z.testbit (word b' (indic_pos st)) j = Z.testbit (indic st) j).

(** [b'] has what [st] has settled, and [bit] is the next indicator bit. *)
Definition adds_item (st : cstate) (k : Z) (bit : bool) (b' : list Z) : Prop :=
  settled st k b' /\ Z.testbit (word b' (indic_pos st)) (31 - k) = bit.

Lemma put_literal_ok data past st left k x :
  wf st k -> k < 32 -> compressed_pos st < len (compressed st) ->
  uncompressed_at data past (uncompressed_pos st) = Some x ->
  exists st1, put_literal data past st left = Some st1 /\ wf st1 (k + 1) /\
    len (compressed st1) = len (compressed st) /\ byte_left st1 = left /\
    uncompressed_pos st1 = uncompressed_pos st + 1 /\ compressed_pos st1 = compressed_pos st + 1 /\
    indic_pos st1 = indic_pos st /\ indic_bit st1 = indic_bit st /\ nibble_index st1 = nibble_index st /\
    forall b', settled st1 (k + 1) b' ->
      adds_item st k false b' /\ at_ b' (compressed_pos st) = x.
Proof.
  intros (Hk & Hi & Hc & Hn & Hr & Hz) Hk32 Hlen Hx. unfold put_literal. rewrite Hx.
  cbn [mbind option_bind].
  destruct (put_ok (compressed st) (compressed_pos st) x) as (b1 & -> & Hch & Hat); [lia|].
  cbn [mbind option_bind]. eexists. split; [done|]. unfold wf, settled, adds_item.
  cbn [compressed uncompressed_pos compressed_pos byte_left indic indic_pos indic_bit nibble_index].
  split.
  { do 4 (split; [lia|]). split; [lia|]. intros j Hj. apply Hz. lia. }
  split; [apply Hch|]. do 6 (split; [done|]).
  intros b' (H1 & H2 & H3 & H4). split; [|rewrite H2, Hat by lia; done].
  unfold adds_item, settled. split; [|rewrite H4 by lia; apply Hz; lia].
  split; [lia|]. split; [|split].
  - intros i Hi1 Hi2 Hi3. rewrite H2, (proj2 Hch) by lia. done.
  - intros Hn0. rewrite H3, (proj2 Hch) by lia. done.
  - intros j Hj. apply H4. lia.
Qed.

Lemma indic_set_bit w k :
  0 <= k < 32 -> 0 <= w < 2 ^ 32 -> (forall j, 0 <= j < 32 - k -> Z.testbit w j = false) ->
  let w' := Z.lor w (Z.shiftl 1 (32 - (k + 1))) in
  0 <= w' < 2 ^ 32 /\ Z.testbit w' (31 - k) = true /\
  (forall j, 0 <= j < 32 - (k + 1) -> Z.testbit w' j = false) /\
  (forall j, 32 - k <= j -> Z.testbit w' j = Z.testbit w j).
Proof.
  intros Hk Hw Hz w'. subst w'. rewrite Z.shiftl_1_l. replace (32 - (k + 1)) with (31 - k) by lia.
  split; [split|split; [|split]].
  - apply Z.lor_nonneg. split; [lia|]. apply Z.pow_nonneg. lia.
  - assert (Hb : forall z, 0 <= z < 2 ^ 32 -> Z.land z (Z.ones 32) = z)
      by (intros z Hz'; rewrite Z.land_ones, Z.mod_small by lia; done).
    assert (Hp : 0 <= 2 ^ (31 - k) < 2 ^ 32)
      by (split; [apply Z.pow_nonneg; lia|apply Z.pow_lt_mono_r; lia]).
    rewrite <- (Hb w Hw), <- (Hb (2 ^ (31 - k)) Hp), <- Z.land_lor_distr_l, Z.land_ones by lia.
    apply Z.mod_pos_bound. lia.
  - by rewrite Z.lor_spec, Z.pow2_bits_true, orb_true_r by lia.
  - intros j Hj. rewrite Z.lor_spec, Hz, Z.pow2_bits_false by lia. done.
  - intros j Hj. rewrite Z.lor_spec, (Z.pow2_bits_false (31 - k)), orb_false_r by lia. done.
Qed.

Lemma put_match_ok st k l o :
  wf st k -> k = indic_bit st mod 32 -> compressed_pos st + Z.min l 6 <= len (compressed st) ->
  3 <= l <= MAX_LEN -> 1 <= o <= 0x2000 ->
  exists st1 n, put_match st l o = Some st1 /\ wf st1 (k + 1) /\ 2 <= n <= l /\
    len (compressed st1) = len (compressed st) /\ byte_left st1 = byte_left st - l /\
    uncompressed_pos st1 = uncompressed_pos st + l /\ compressed_pos st1 = compressed_pos st + n /\
    indic_pos st1 = indic_pos st /\ indic_bit st1 = indic_bit st /\
    forall b', settled st1 (k + 1) b' ->
      adds_item st k true b' /\
      get_metadata b' (compressed_pos st) (nibble_index st) =
        Some (l, o - 1, compressed_pos st1, nibble_index st1).
Proof.
  intros (Hk & Hi & Hc & Hn & Hr & Hz) Hk32 Hlen Hl Ho. unfold put_match.
  destruct (put_metadata_ok (compressed st) (compressed_pos st) (nibble_index st) l o)
    as (b1 & n & -> & Hn6 & Hnl & Hnb & Hch & H16 & Hg); [lia|done|lia|done|done|].
  cbn [mbind option_bind]. rewrite <- Hk32.
  assert (Hk' : 0 <= k < 32) by (subst k; apply Z.mod_pos_bound; lia).
  destruct (indic_set_bit (indic st) k Hk' Hr Hz) as (Hw1 & Hw2 & Hw3 & Hw4).
  fold (next_nibble (compressed_pos st) (nibble_index st) l).
  set (nib1 := next_nibble _ _ _) in *. pose proof (nibble_size_cases (nibble_index st)).
  assert (Hnn : nib1 = 0 \/ nib1 = nibble_index st \/
                nibble_index st = 0 /\ nib1 = compressed_pos st + 2)
    by (unfold nib1, next_nibble; repeat case_if; boolify; lia).
  eexists _, n. split; [done|]. unfold wf, settled, adds_item.
  cbn [compressed uncompressed_pos compressed_pos byte_left indic indic_pos indic_bit nibble_index].
  split.
  { do 4 (split; [lia|]). done. }
  split; [lia|]. split; [apply Hch|]. do 5 (split; [done|]).
  intros b' (H1 & H2 & H3 & H4). split; [|apply Hg].
  - split; [|rewrite H4 by lia; done]. split; [lia|]. split; [|split].
    + intros i Hi1 Hi2 Hi3. rewrite H2, (proj2 Hch) by lia. done.
    + intros Hn0. destruct (decide (nib1 = nibble_index st)) as [E|E].
      * rewrite E in *. rewrite H3, H16 by done. done.
      * rewrite H2, H16 by lia. done.
    + intros j Hj. rewrite H4, Hw4 by lia. done.
  - split; [lia|]. split; [|split; [done|]].
    + intros j Hj Hj'. apply H2; lia.
    + intros Hn0 Hn1. apply H2; lia.
Qed.

(** The bits of the current word that are used. *)
Definition bits (st : cstate) : Z := indic_bit st mod 32.

Lemma next_indic_ok st k :
  wf st k -> k = bits st + 1 -> 0 <= indic_bit st < 2 ^ 32 - 1 ->
  compressed_pos st <= len (compressed st) ->
  exists st', next_indic st = Some st' /\ wf st' (bits st') /\
    len (compressed st') = len (compressed st) /\ byte_left st' = byte_left st /\
    uncompressed_pos st' = uncompressed_pos st /\ nibble_index st' = nibble_index st /\
    indic_bit st' = indic_bit st + 1 /\
    (k < 32 /\ bits st' = k /\ compressed_pos st' = compressed_pos st /\ indic_pos st' = indic_pos st \/
     k = 32 /\ bits st' = 0 /\ compressed_pos st' = compressed_pos st + 4 /\
       indic_pos st' = compressed_pos st) /\
    forall b', settled st' (bits st') b' -> settled st k b'.
Proof.
  intros (Hk & Hi & Hc & Hn & Hr & Hz) Hkb Hb Hlen. unfold next_indic, bits in *.
  rewrite u32_id by (unfold in_w; lia).
  replace (indic_bit st + 1 - 1) with (indic_bit st) by lia.
  pose proof (Z.mod_pos_bound (indic_bit st) 32 ltac:(lia)).
  assert (Hm : (indic_bit st + 1) mod 32 = if k =? 32 then 0 else k).
  { rewrite <- Zplus_mod_idemp_l. destruct (Z.eqb_spec k 32).
    - replace (indic_bit st mod 32 + 1) with 32 by lia. done.
    - rewrite <- Hkb. apply Z.mod_small. lia. }
  rewrite Hm. destruct (Z.eqb_spec k 32) as [-> |].
  - rewrite (proj2 (Z.ltb_lt 0 _)) by lia.
    destruct (put32_ok (compressed st) (indic_pos st) (indic st)) as (b1 & -> & Hch & Hw); [lia..|].
    cbn [mbind option_bind]. eexists. split; [done|]. unfold wf, settled.
    cbn [compressed uncompressed_pos compressed_pos byte_left indic indic_pos indic_bit nibble_index].
    rewrite Hm. split.
    { do 5 (split; [lia|]). intros j Hj. apply Z.bits_0. }
    split; [apply Hch|]. do 4 (split; [done|]). split; [right; done|].
    intros b' (H1 & H2 & H3 & H4). split; [lia|]. split; [|split].
    + intros i Hi1 Hi2 Hi3. rewrite H2, (proj2 Hch) by lia. done.
    + intros Hn0. rewrite H3, (proj2 Hch) by lia. done.
    + intros j Hj. unfold word in *. by rewrite !H2, Hw by lia.
  - rewrite (proj2 (Z.ltb_ge k _)) by lia. eexists. split; [done|]. unfold wf, settled.
    cbn [compressed uncompressed_pos compressed_pos byte_left indic indic_pos indic_bit nibble_index].
    rewrite Hm. do 6 (split; [done|]). split; [left; repeat split; lia|]. done.
Qed.

(** The decompressor has produced what the compressor has read, and is where the
    compressor was. *)
Definition sync (data : list Z) (st : cstate) (b' : list Z) (ds : dstate) : Prop :=
  output ds = take (Z.to_nat (uncompressed_pos st)) data /\ dnibble_index ds = nibble_index st /\
  (bits st = 0 /\ indicator_bit ds = 0 /\ input_index ds = indic_pos st /\
     compressed_pos st = indic_pos st + 4 \/
   bits st <> 0 /\ indicator_bit ds = 32 - bits st /\ indicator ds = word b' (indic_pos st) /\
     input_index ds = compressed_pos st).

Lemma load_indicator_ok data st b' ds :
  wf st (bits st) -> sync data st b' ds -> compressed_pos st <= len b' < 2 ^ 32 ->
  load_indicator b' ds = Some (word b' (indic_pos st), 32 - bits st, compressed_pos st).
Proof.
  intros (Hk & Hi & Hc & _) (_ & _ & Hs) Hl. unfold load_indicator.
  destruct Hs as [(Hb & -> & -> & He) | (Hb & -> & -> & ->)].
  - rewrite Z.eqb_refl, pull32_at by lia. cbn [mbind option_bind].
    rewrite u32_id, Hb, He by (unfold in_w; lia). done.
  - assert (bits st < 32) by (unfold bits; apply Z.mod_pos_bound; lia).
    by rewrite (proj2 (Z.eqb_neq _ 0)) by lia.
Qed.

Lemma indicator_test w k : 0 <= k -> (Z.land (Z.shiftr w k) 1 =? 0) = negb (Z.testbit w k).
Proof.
  intros Hk. change 1 with (Z.ones 1). rewrite Z.land_ones by lia.
  change (2 ^ 1) with 2. rewrite <- Z.bit0_mod, Z.shiftr_spec, Z.add_0_l by lia.
  by destruct (Z.testbit w k).
Qed.

(** The relation between the states after a turn of either loop. *)
Lemma sync_next data st1 st' b' ds' k :
  wf st1 k -> 0 < k ->
  uncompressed_pos st' = uncompressed_pos st1 -> nibble_index st' = nibble_index st1 ->
  (k < 32 /\ bits st' = k /\ compressed_pos st' = compressed_pos st1 /\ indic_pos st' = indic_pos st1 \/
   k = 32 /\ bits st' = 0 /\ compressed_pos st' = compressed_pos st1 + 4 /\
     indic_pos st' = compressed_pos st1) ->
  output ds' = take (Z.to_nat (uncompressed_pos st1)) data -> dnibble_index ds' = nibble_index st1 ->
  indicator_bit ds' = 32 - k -> indicator ds' = word b' (indic_pos st1) ->
  input_index ds' = compressed_pos st1 -> sync data st' b' ds'.
Proof.
  intros Hw Hk Hu Hn Hcase Ho Hd Hi Hin Hx. unfold sync. rewrite Hu, Hn, Hx, Hin, Hi.
  split; [done|]. split; [done|].
  destruct Hcase as [(H1 & H2 & H3 & H4) | (-> & H2 & H3 & H4)]; rewrite H2, H3, H4;
    [right|left]; repeat split; lia.
Qed.

(** The invariant of the compressor in a buffer of [L] bytes. *)
Definition cinv (L : Z) (st : cstate) : Prop :=
  wf st (bits st) /\ len (compressed st) = L /\ 0 <= indic_bit st <= uncompressed_pos st /\
  compressed_pos st <= 4 + uncompressed_pos st + 4 * (indic_bit st / 32).

(** A size the compressed data fits in. *)
Definition bound (n : Z) : Z := n + n / 8 + 10.

(** From [st] to [st'] the compressor only adds to what it has settled, and the
    decompressor follows it in one turn. *)
Definition follows (data : list Z) (st st' : cstate) : Prop :=
  compressed_pos st < compressed_pos st' /\
  forall b', settled st' (bits st') b' ->
    settled st (bits st) b' /\
    (uncompressed_pos st < len data -> forall ds, sync data st b' ds ->
     exists ds', decompress_turn b' (len data) ds = Some ds' /\ sync data st' b' ds' /\
       input_index ds < input_index ds').

Lemma sync_index data st b' ds : wf st (bits st) -> sync data st b' ds ->
  0 <= input_index ds <= compressed_pos st.
Proof. intros (_ & Hi & Hc & _) (_ & _ & [H | H]); lia. Qed.

Lemma bits_next st st' : indic_bit st' = indic_bit st + 1 -> bits st + 1 = 32 \/ bits st + 1 < 32 ->
  indic_bit st' / 32 = indic_bit st / 32 + (if bits st + 1 =? 32 then 1 else 0).
Proof.
  unfold bits. intros -> Hb. pose proof (Z.div_mod (indic_bit st) 32 ltac:(lia)).
  pose proof (Z.div_mod (indic_bit st + 1) 32 ltac:(lia)).
  pose proof (Z.mod_pos_bound (indic_bit st + 1) 32 ltac:(lia)).
  pose proof (Z.mod_pos_bound (indic_bit st) 32 ltac:(lia)).
  destruct (Z.eqb_spec (indic_bit st mod 32 + 1) 32); lia.
Qed.

Section turns.
Context (data : list Z) (past L : Z).
Hypothesis Hsize : len data < 2 ^ 28.
Hypothesis HL : bound (len data) <= L.

(** The common end of both kinds of turn. *)
Lemma next_indic_inv st st1 :
  cinv L st -> wf st1 (bits st + 1) -> indic_bit st1 = indic_bit st ->
  len (compressed st1) = L -> uncompressed_pos st < uncompressed_pos st1 <= len data + 1 ->
  compressed_pos st1 <= compressed_pos st + (uncompressed_pos st1 - uncompressed_pos st) ->
  exists st', next_indic st1 = Some st' /\ cinv L st' /\ byte_left st' = byte_left st1 /\
    uncompressed_pos st' = uncompressed_pos st1 /\ compressed_pos st1 <= compressed_pos st' /\
    (forall b', settled st' (bits st') b' -> settled st1 (bits st + 1) b') /\
    forall b' ds',
      output ds' = take (Z.to_nat (uncompressed_pos st1)) data -> dnibble_index ds' = nibble_index st1 ->
      indicator_bit ds' = 32 - (bits st + 1) -> indicator ds' = word b' (indic_pos st1) ->
      input_index ds' = compressed_pos st1 -> sync data st' b' ds'.
Proof.
  intros (Hw & Hl & Hb & Hc) Hw1 Hib Hl1 Hu Hc1. unfold bound in HL.
  assert (Hbits : bits st1 = bits st) by (unfold bits; by rewrite Hib).
  assert (0 <= bits st < 32) by (apply Z.mod_pos_bound; lia).
  assert (indic_bit st / 32 <= len data / 8 / 4) by (rewrite Z.div_div by lia; apply Z.div_le_mono; lia).
  pose proof (Z.mul_div_le (len data / 8) 4 ltac:(lia)).
  destruct (next_indic_ok st1 (bits st + 1)) as (st' & Hn & Hw' & Hl' & Hbl & Hup & Hnb & Hib' & Hcase & Hset);
    [done|by rewrite Hbits|lia|lia|].
  exists st'. split; [done|]. split; [|split; [done|split; [done|split; [lia|split; [done|]]]]].
  - split; [done|]. split; [lia|]. split; [lia|].
    rewrite (bits_next st1 st'), Hbits, Hib by (rewrite ?Hbits; lia).
    destruct (Z.eqb_spec (bits st + 1) 32); lia.
  - intros b' ds' ? ? ? ? ?. eapply (sync_next data st1 st' b' ds' (bits st + 1)); try done. lia.
Qed.
Lemma turn_room st : cinv L st -> uncompressed_pos st <= len data ->
  0 <= bits st < 32 /\ compressed_pos st + (len data - uncompressed_pos st) + 6 <= L /\
  compressed_pos st < 2 ^ 31.
Proof.
  intros (_ & _ & Hb & Hc) Hu. unfold bound in HL.
  assert (0 <= bits st < 32) by (apply Z.mod_pos_bound; lia).
  assert (indic_bit st / 32 <= len data / 8 / 4) by (rewrite Z.div_div by lia; apply Z.div_le_mono; lia).
  pose proof (Z.mul_div_le (len data / 8) 4 ltac:(lia)).
  pose proof (Z.div_le_upper_bound (len data) 8 (len data) ltac:(lia) ltac:(lia)). lia.
Qed.

Lemma literal_turn st left :
  cinv L st -> uncompressed_pos st <= len data ->
  exists st', (st1 ← put_literal data past st left; next_indic st1) = Some st' /\
    cinv L st' /\ byte_left st' = left /\ uncompressed_pos st' = uncompressed_pos st + 1 /\
    follows data st st'.
Proof.
  intros Hinv Hu. pose proof Hinv as (Hw & Hl & Hb & Hc).
  destruct (turn_room st Hinv Hu) as (Hk & Hroom & _).
  destruct (put_literal_ok data past st left (bits st) (at_ (data ++ [past]) (uncompressed_pos st)))
    as (st1 & -> & Hw1 & Hl1 & Hbl & Hup & Hcp & Hip & Hib & Hnb & Hset); [done|lia|lia| |].
  { apply get_at. unfold len in *. rewrite length_app. simpl. lia. }
  cbn [mbind option_bind].
  destruct (next_indic_inv st st1) as (st' & -> & Hinv' & Hbl' & Hup' & Hcp' & Hset' & Hsync);
    [done|done|done|lia|lia|lia|].
  exists st'. split; [done|]. split; [done|]. split; [lia|]. split; [lia|]. split; [lia|].
  intros b' Hb'. apply Hset' in Hb'. pose proof Hb' as (Hlen & _).
  destruct (Hset b' Hb') as [[Hs Hbit] Hx]. split; [done|]. intros Hlt ds Hds.
  pose proof (sync_index data st b' ds Hw Hds). pose proof Hds as (Ho & Hd & _).
  unfold decompress_turn. rewrite (load_indicator_ok data st b' ds) by (done || lia).
  cbn [mbind option_bind]. replace (32 - bits st - 1) with (31 - bits st) by lia.
  rewrite indicator_test, Hbit, get_at, Hx by lia. cbn [negb mbind option_bind].
  rewrite Ho, length_take, Nat.min_l by (unfold len in *; lia).
  rewrite (proj2 (Z.ltb_lt _ _)) by lia. rewrite u32_id by (unfold in_w; lia).
  eexists. split; [done|]. split; [|simpl; lia].
  apply Hsync; cbn [output dnibble_index indicator_bit indicator input_index]; try done; try lia.
  - rewrite Hup. unfold at_ at 1. rewrite lookup_total_app_l by (unfold len in *; lia).
    fold (at_ data (uncompressed_pos st)).
    rewrite <- (Z2Nat.id (uncompressed_pos st)) at 2 by lia. rewrite take_snoc by (unfold len in *; lia).
    f_equal. lia.
  - by rewrite Hip.
Qed.

Lemma match_turn st l o :
  cinv L st -> uncompressed_pos st + l <= len data ->
  3 <= l <= MAX_LEN -> 1 <= o <= 0x2000 -> o <= uncompressed_pos st ->
  valid_match data (uncompressed_pos st) l o ->
  exists st', (st1 ← put_match st l o; next_indic st1) = Some st' /\
    cinv L st' /\ byte_left st' = byte_left st - l /\ uncompressed_pos st' = uncompressed_pos st + l /\
    follows data st st'.
Proof.
  intros Hinv Hu Hl3 Ho Hou Hv. pose proof Hinv as (Hw & Hl & Hb & Hc).
  destruct (turn_room st Hinv ltac:(lia)) as (Hk & Hroom & _).
  destruct (put_match_ok st (bits st) l o)
    as (st1 & n & -> & Hw1 & Hn & Hl1 & Hbl & Hup & Hcp & Hip & Hib & Hset); [done|done|lia|done|done|].
  cbn [mbind option_bind].
  destruct (next_indic_inv st st1) as (st' & -> & Hinv' & Hbl' & Hup' & Hcp' & Hset' & Hsync);
    [done|done|done|lia|lia|lia|].
  exists st'. split; [done|]. split; [done|]. split; [lia|]. split; [lia|]. split; [lia|].
  intros b' Hb'. apply Hset' in Hb'. pose proof Hb' as (Hlen & _).
  destruct (Hset b' Hb') as [[Hs Hbit] Hx]. split; [done|]. intros Hlt ds Hds.
  pose proof (sync_index data st b' ds Hw Hds). pose proof Hds as (Ho' & Hd & _).
  unfold decompress_turn. rewrite (load_indicator_ok data st b' ds) by (done || lia).
  cbn [mbind option_bind]. replace (32 - bits st - 1) with (31 - bits st) by lia.
  rewrite indicator_test, Hbit by lia. cbn [negb]. rewrite Hd, Hx. cbn [mbind option_bind].
  eexists. split; [done|]. split; [|simpl; lia].
  apply Hsync; cbn [output dnibble_index indicator_bit indicator input_index]; try done; try lia.
  - rewrite Ho', copy_loop_ok; unfold len in *; try lia; [f_equal; lia|].
    replace (Z.of_nat (S (Z.to_nat (l - 1)))) with l by lia.
    rewrite Z2Nat.id by lia. by replace (o - 1 + 1) with o by lia.
  - by rewrite Hip.
Qed.

(** The decompressor still has input left. *)
Definition room (b' : list Z) (st : cstate) : Prop := bits st = 0 \/ compressed_pos st < len b'.

(** From any state in step with [st] the decompressor returns the data. *)
Definition decodes (b' : list Z) (st : cstate) : Prop :=
  forall ds fuel, sync data st b' ds -> (Z.to_nat (len b' - input_index ds) < fuel)%nat ->
    decompress_loop b' (len b') (len data) fuel ds = Some data.

Definition runs (st st' : cstate) : Prop :=
  forall b', settled st' (bits st') b' -> room b' st' ->
    settled st (bits st) b' /\ room b' st /\
    ((uncompressed_pos st' < len data -> decodes b' st') ->
     uncompressed_pos st < len data -> decodes b' st).

Lemma runs_trans st1 st2 st3 : runs st1 st2 -> runs st2 st3 -> runs st1 st3.
Proof.
  intros H12 H23 b' Hs Hr. destruct (H23 b' Hs Hr) as (Hs2 & Hr2 & Hd2).
  destruct (H12 b' Hs2 Hr2) as (Hs1 & Hr1 & Hd1). auto.
Qed.

Lemma follows_runs st st' :
  cinv L st' -> follows data st st' -> 0 <= uncompressed_pos st' ->
  (uncompressed_pos st < len data -> uncompressed_pos st' <= len data) -> runs st st'.
Proof.
  intros (Hw & _) [Hc Hf] H0 Hu b' Hs Hr. destruct (Hf b' Hs) as [Hs0 Hd].
  split; [done|]. split; [right; destruct Hs; lia|].
  intros Hdec Hlt ds [|fuel] Hsync Hfuel; [lia|].
  destruct (Hd Hlt ds Hsync) as (ds' & Ht & Hsync' & Hidx). cbn [decompress_loop]. rewrite Ht.
  cbn [mbind option_bind]. pose proof (sync_index data st' b' ds' Hw Hsync') as Hix.
  pose proof Hsync' as (Ho & _ & Hcase). specialize (Hu Hlt).
  rewrite Ho, length_take. unfold len in *.
  destruct (Z.ltb_spec (Z.of_nat (Z.to_nat (uncompressed_pos st') `min` length data))
              (Z.of_nat (length data))); cbn [andb].
  - assert (input_index ds' < len b').
    { unfold room in Hr. destruct Hs as ((Hs & _) & _). unfold len in *. lia. }
    rewrite (proj2 (Z.ltb_lt _ _)) by (unfold len in *; lia).
    apply Hdec; [lia|done|]. unfold len in *. lia.
  - rewrite take_ge by lia. done.
Qed.

Lemma compress_turn_ok st :
  cinv L st -> 0 < byte_left st -> byte_left st = len data - uncompressed_pos st ->
  exists st', compress_turn data past st = Some st' /\ cinv L st' /\
    byte_left st' = len data - uncompressed_pos st' /\ 0 <= byte_left st' < byte_left st /\
    runs st st'.
Proof.
  intros Hinv Hb0 Hbl. pose proof Hinv as (Hw & _ & Hup & _). unfold compress_turn.
  destruct (best_match data (uncompressed_pos st) (byte_left st)) as [bl bo] eqn:Em.
  apply best_match_ok in Em as (Hbo & Hbu & Hm); [|lia..].
  destruct (Z.eqb_spec bo 0) as [-> |Hne].
  - destruct (literal_turn st (byte_left st - 1) Hinv) as (st' & Ht & Hi' & Hb' & Hu' & Hf); [lia|].
    exists st'. split; [done|]. split; [done|]. split; [lia|]. split; [lia|].
    apply follows_runs; [done|done|lia|lia].
  - destruct (Hm ltac:(lia)) as (Hl & Hle & Hv).
    destruct (match_turn st bl bo Hinv) as (st' & Ht & Hi' & Hb' & Hu' & Hf); [lia|done|lia|lia|done|].
    exists st'. split; [done|]. split; [done|]. split; [lia|]. split; [lia|].
    apply follows_runs; [done|done|lia|lia].
Qed.

Lemma compress_loop_ok fuel st :
  cinv L st -> 0 < byte_left st -> byte_left st = len data - uncompressed_pos st ->
  byte_left st <= Z.of_nat fuel ->
  exists st', compress_loop data past fuel st = Some st' /\ cinv L st' /\
    uncompressed_pos st' <= len data /\ runs st st'.
Proof.
  revert st. induction fuel as [|fuel IH]; intros st Hinv Hb0 Hbl Hf; [lia|].
  cbn [compress_loop].
  destruct (compress_turn_ok st Hinv Hb0 Hbl) as (st1 & -> & Hi1 & Hb1 & Hb1' & Hr1).
  cbn [mbind option_bind]. destruct (Z.ltb_spec 3 (byte_left st1)).
  - destruct (IH st1) as (st' & -> & Hi' & Hu' & Hr'); [done|lia|done|lia|].
    exists st'. split; [done|]. split; [done|]. split; [done|]. by eapply runs_trans.
  - exists st1. split; [done|]. split; [done|]. split; [lia|done].
Qed.

Lemma tail_loop_ok fuel st :
  cinv L st -> uncompressed_pos st <= len data -> len data - uncompressed_pos st < Z.of_nat fuel ->
  exists st', tail_loop data past fuel st = Some st' /\ cinv L st' /\
    len data <= uncompressed_pos st' <= len data + 1 /\ runs st st'.
Proof.
  revert st. induction fuel as [|fuel IH]; intros st Hinv Hu Hf; [lia|].
  cbn [tail_loop]. pose proof Hinv as (_ & _ & Hup & _).
  destruct (literal_turn st (byte_left st) Hinv Hu) as (st1 & Ht & Hi1 & _ & Hu1 & Hf1).
  destruct (put_literal data past st (byte_left st)) as [st0|]; [|done].
  cbn [mbind option_bind] in *. rewrite Ht. cbn [mbind option_bind].
  assert (Hr1 : runs st st1) by (apply follows_runs; [done|done|lia|lia]).
  change (uncompressed_size data) with (len data). destruct (Z.ltb_spec (uncompressed_pos st1) (len data)).
  - destruct (IH st1) as (st' & -> & Hi' & Hu' & Hr'); [done|lia|lia|].
    exists st'. split; [done|]. split; [done|]. split; [done|]. by eapply runs_trans.
  - exists st1. split; [done|]. split; [done|]. split; [lia|done].
Qed.

Lemma at_take b n i : 0 <= i < n -> at_ (take (Z.to_nat n) b) i = at_ b i.
Proof. intros H. unfold at_. rewrite lookup_total_take, decide_True by lia. done. Qed.

Lemma len_take b n : 0 <= n <= len b -> len (take (Z.to_nat n) b) = n.
Proof. unfold len. intros H. rewrite length_take. lia. Qed.

(** The last indicator word. *)
Lemma finish_ok st :
  cinv L st -> uncompressed_pos st <= len data + 1 ->
  exists b n,
    (if 0 <? indic_bit st mod 32 then
       b ← put_all (compressed st) (compressed_pos st) (le_bytes 4 0);
       b ← put_all b (indic_pos st) (le_bytes 4 (indic st));
       Some (b, compressed_pos st + 4)
     else Some (compressed st, compressed_pos st)) = Some (b, n) /\
    0 <= n <= bound (len data) /\ n <= len b /\
    settled st (bits st) (take (Z.to_nat n) b) /\ room (take (Z.to_nat n) b) st.
Proof.
  intros (Hw & Hl & Hb & Hc) Hu. pose proof Hw as (Hk & Hi & Hip & Hn & Hr & _).
  assert (Hroom : 4 * (indic_bit st / 32) <= (len data + 1) / 8).
  { replace (indic_bit st / 32) with (indic_bit st / 8 / 4) by (by rewrite Z.div_div by lia).
    pose proof (Z.mul_div_le (indic_bit st / 8) 4 ltac:(lia)).
    assert (indic_bit st / 8 <= (len data + 1) / 8) by (apply Z.div_le_mono; lia). lia. }
  assert ((len data + 1) / 8 <= len data / 8 + 1).
  { replace (len data / 8 + 1) with ((len data + 1 * 8) / 8) by (by rewrite Z.div_add by lia).
    apply Z.div_le_mono; lia. }
  pose proof (Z.div_le_upper_bound (len data) 8 (len data) ltac:(lia) ltac:(unfold len; lia)).
  unfold bound in *. fold (bits st). destruct (Z.ltb_spec 0 (bits st)).
  - destruct (put32_ok (compressed st) (compressed_pos st) 0) as (b1 & -> & Hc1 & _); [lia..|].
    cbn [mbind option_bind].
    destruct (put32_ok b1 (indic_pos st) (indic st)) as (b2 & -> & Hc2 & Hw2);
      [lia|destruct Hc1; lia|done|].
    cbn [mbind option_bind]. exists b2, (compressed_pos st + 4).
    assert (Hlen : len b2 = L) by (destruct Hc1, Hc2; lia).
    assert (Ht : len (take (Z.to_nat (compressed_pos st + 4)) b2) = compressed_pos st + 4)
      by (apply len_take; lia).
    split; [done|]. split; [lia|]. split; [lia|]. split; [|right; rewrite Ht; lia].
    split; [rewrite Ht; lia|]. split; [|split].
    + intros i Hi1 Hi2 Hi3. rewrite at_take, (proj2 Hc2), (proj2 Hc1) by lia. done.
    + intros Hn0. rewrite at_take, (proj2 Hc2), (proj2 Hc1) by lia. done.
    + intros j Hj. unfold word in *. rewrite !at_take by lia. by rewrite Hw2.
  - exists (compressed st), (compressed_pos st).
    assert (Ht : len (take (Z.to_nat (compressed_pos st)) (compressed st)) = compressed_pos st)
      by (apply len_take; lia).
    split; [done|]. split; [lia|]. split; [lia|]. split; [|left; lia].
    split; [rewrite Ht; lia|]. split; [|split].
    + intros i Hi1 Hi2 Hi3. by rewrite at_take by lia.
    + intros Hn0. by rewrite at_take by lia.
    + intros j Hj. lia.
Qed.

Lemma compress_ok buffer :
  data <> [] -> len buffer = L ->
  exists b n, lzxpress_compress data past buffer = Some (b, n) /\
    0 <= n <= bound (len data) /\ n <= len b /\
    lzxpress_decompress (take (Z.to_nat n) b) n (len data) = Some data.
Proof.
  intros Hne Hbuf. assert (Hpos : 0 < len data) by (destruct data; [done|unfold len; simpl; lia]).
  pose proof (Z.div_pos (len data) 8 ltac:(lia) ltac:(lia)). unfold lzxpress_compress.
  change (uncompressed_size data) with (len data). rewrite (proj2 (Z.eqb_neq _ 0)) by lia.
  destruct (put32_ok buffer 0 0) as (b0 & -> & Hc0 & _); [lia|unfold bound in *; lia|lia|].
  cbn [mbind option_bind]. set (st0 := Cstate b0 0 4 (len data) 0 0 0 0).
  assert (Hi0 : cinv L st0).
  { unfold cinv, wf, st0. change (bits _) with 0.
    cbn [compressed uncompressed_pos compressed_pos indic indic_pos indic_bit nibble_index].
    destruct Hc0. split; [|split; [lia|split; [lia|change (0 / 32) with 0; lia]]].
    do 5 (split; [lia|]). intros j Hj. apply Z.bits_0. }
  destruct (compress_loop_ok (length data) st0) as (st1 & -> & Hi1 & Hu1 & Hr1);
    [done|done|simpl; lia|simpl; unfold len; lia|].
  cbn [mbind option_bind]. pose proof Hi1 as (_ & _ & Hup1 & _).
  destruct (tail_loop_ok (S (length data)) st1) as (st2 & -> & Hi2 & Hu2 & Hr2);
    [done|done|unfold len in *; lia|].
  cbn [mbind option_bind].
  destruct (finish_ok st2 Hi2) as (b & n & -> & Hn & Hnb & Hset & Hroom); [lia|].
  exists b, n. split; [done|]. split; [done|]. split; [done|].
  destruct (runs_trans _ _ _ Hr1 Hr2 _ Hset Hroom) as (_ & _ & Hdec).
  unfold lzxpress_decompress. rewrite <- (len_take b n) at 2 by lia.
  apply Hdec; [lia|simpl; lia| |].
  - unfold sync, st0, bits. cbn. split; [done|]. split; [done|]. left. done.
  - simpl. rewrite len_take by lia. lia.
Qed.

End turns.

(** ** The decompressor on arbitrary input *)

Section total.
Context (input : list Z) (input_size max : Z).
Hypothesis Hmem : input_size + 10 <= len input.
Hypothesis Hin : 0 <= input_size < 2 ^ 32 - 16.
Hypothesis Hmax : 0 < max.

Lemma get_nibble_total idx nib :
  0 <= idx < len input -> 0 <= nib < len input -> idx < 2 ^ 32 - 1 ->
  exists x idx' nib', get_nibble input idx nib = Some (x, idx', nib') /\
    idx <= idx' <= idx + 1 /\ 0 <= nib' < len input.
Proof.
  intros Hi Hn Hb. unfold get_nibble. destruct (nib =? 0); rewrite get_at by lia; cbn [mbind option_bind].
  - rewrite u32_id by (unfold in_w; lia). eexists _, _, _. split; [done|]. lia.
  - eexists _, _, _. split; [done|]. lia.
Qed.

Lemma get_length_total l idx :
  0 <= idx -> idx + 3 <= len input -> idx < 2 ^ 32 - 3 ->
  exists l' idx', get_length input l idx = Some (l', idx') /\ idx <= idx' <= idx + 3.
Proof.
  intros Hi Hl Hb. unfold get_length. destruct (l =? 15); [|eexists _, _; split; [done|lia]].
  rewrite get_at by lia. cbn [mbind option_bind]. rewrite (u32_id (idx + 1)) by (unfold in_w; lia).
  destruct (at_ input idx =? 255); [|eexists _, _; split; [done|lia]].
  rewrite pull16_at by lia. cbn [mbind option_bind].
  rewrite (u32_id (idx + 1 + 2)) by (unfold in_w; lia). eexists _, _. split; [done|lia].
Qed.

Lemma get_metadata_total idx nib :
  0 <= idx -> idx + 6 <= len input -> idx < 2 ^ 32 - 8 -> 0 <= nib < len input ->
  exists l off idx' nib', get_metadata input idx nib = Some (l, off, idx', nib') /\
    idx < idx' <= idx + 6 /\ 0 <= nib' < len input.
Proof.
  intros Hi Hl Hb Hn. unfold get_metadata. rewrite pull16_at by lia. cbn [mbind option_bind].
  rewrite (u32_id (idx + 2)) by (unfold in_w; lia).
  destruct (_ =? 7); [|eexists _, _, _, _; split; [done|lia]].
  destruct (get_nibble_total (idx + 2) nib) as (x & i1 & n1 & -> & Hi1 & Hn1); [lia..|].
  cbn [mbind option_bind].
  destruct (get_length_total x i1) as (l & i2 & -> & Hi2); [lia..|]. cbn [mbind option_bind].
  eexists _, _, _, _. split; [done|]. lia.
Qed.

Lemma copy_loop_len k off out : len out <= max -> len (copy_loop max k off out) <= max.
Proof.
  revert out. induction k as [|k IH]; intros out Ho; cbn [copy_loop];
    change (Z.of_nat (length out)) with (len out);
    destruct (Z.leb_spec max (len out)); cbn [orb]; try done;
    destruct (len out <? off + 1); try done.
  - unfold len in *. rewrite length_app. simpl. lia.
  - apply IH. unfold len in *. rewrite length_app. simpl. lia.
Qed.

Lemma decompress_turn_total ds :
  0 <= input_index ds -> input_index ds < input_size \/ input_index ds = 0 ->
  0 <= dnibble_index ds < len input -> len (output ds) < max ->
  exists ds', decompress_turn input max ds = Some ds' /\
    input_index ds < input_index ds' /\ 0 <= dnibble_index ds' < len input /\
    len (output ds') <= max.
Proof.
  intros H0 Hi Hn Ho. unfold decompress_turn.
  assert (exists ind bit idx, load_indicator input ds = Some (ind, bit, idx) /\
            input_index ds <= idx <= input_index ds + 4) as (ind & bit & idx & -> & Hidx).
  { unfold load_indicator. destruct (indicator_bit ds =? 0); [|eexists _, _, _; split; [done|lia]].
    rewrite pull32_at by lia. cbn [mbind option_bind]. rewrite u32_id by (unfold in_w; lia).
    eexists _, _, _. split; [done|]. lia. }
  cbn [mbind option_bind]. destruct (Z.land _ 1 =? 0).
  - rewrite get_at by lia. cbn [mbind option_bind].
    rewrite (proj2 (Z.ltb_lt _ max)) by (unfold len in *; lia).
    eexists. split; [done|]. cbn [output input_index dnibble_index].
    rewrite u32_id by (unfold in_w; lia). unfold len in *. rewrite length_app. simpl. lia.
  - destruct (get_metadata_total idx (dnibble_index ds)) as (l & off & i1 & n1 & -> & Hi1 & Hn1); [lia..|].
    cbn [mbind option_bind]. eexists. split; [done|]. cbn [output input_index dnibble_index].
    split; [lia|]. split; [done|]. apply copy_loop_len. lia.
Qed.

Lemma decompress_loop_total fuel ds :
  0 <= input_index ds -> input_index ds < input_size \/ input_index ds = 0 ->
  0 <= dnibble_index ds < len input -> len (output ds) < max ->
  (Z.to_nat (input_size - input_index ds) < fuel)%nat ->
  exists out, decompress_loop input input_size max fuel ds = Some out /\ len out <= max.
Proof.
  revert ds. induction fuel as [|fuel IH]; intros ds H0 Hi Hn Ho Hf; [lia|]. cbn [decompress_loop].
  destruct (decompress_turn_total ds H0 Hi Hn Ho) as (ds' & -> & Hi' & Hn' & Ho').
  cbn [mbind option_bind]. change (Z.of_nat (length (output ds'))) with (len (output ds')).
  destruct (Z.ltb_spec (len (output ds')) max); cbn [andb]; [|by eexists].
  destruct (Z.ltb_spec (input_index ds') input_size); [|by eexists].
  apply IH; lia.
Qed.

End total.

(** ** Properties *)

(** C23. Compression is lossless: for every non-empty input below 2^28 bytes,
    whatever the contents of the output buffer and of the memory after the input,
    a buffer of [n + n / 8 + 10] bytes is large enough, and decompressing what was
    written gives the input back. *)
Theorem lzxpress_roundtrip (data : list Z) (past : Z) (buffer : list Z) :
  data <> [] -> len data < 2 ^ 28 -> bound (len data) <= len buffer ->
  exists b n, lzxpress_compress data past buffer = Some (b, n) /\ n <= bound (len data) /\
    lzxpress_decompress (take (Z.to_nat n) b) n (len data) = Some data.
Proof.
  intros Hne Hlt Hb.
  destruct (compress_ok data past (len buffer) Hlt Hb buffer Hne eq_refl) as (b & n & H1 & H2 & _ & H3).
  exists b, n. split; [done|]. split; [lia|done].
Qed.

Lemma lzxpress_roundtrip_witness :
  exists b n, lzxpress_compress [1; 2; 3; 1; 2; 3; 1; 2; 3; 4] 9 (replicate 40 7) = Some (b, n) /\
    n <= 21 /\ lzxpress_decompress (take (Z.to_nat n) b) n 10 = Some [1; 2; 3; 1; 2; 3; 1; 2; 3; 4].
Proof.
  apply (lzxpress_roundtrip [1; 2; 3; 1; 2; 3; 1; 2; 3; 4] 9 (replicate 40 7)).
  - discriminate.
  - reflexivity.
  - vm_compute. discriminate.
Defined.

(** C40. Decompression always returns and never writes more than the size it was
    given, for every input, provided the size is not 0 and ten bytes after the
    input can be read. *)
Theorem lzxpress_decompress_total (input : list Z) (input_size max_output_size : Z) :
  input_size + 10 <= len input -> 0 <= input_size < 2 ^ 32 - 16 -> 0 < max_output_size ->
  exists out, lzxpress_decompress input input_size max_output_size = Some out /\
    len out <= max_output_size.
Proof.
  intros Hm Hi H0. apply (decompress_loop_total input input_size max_output_size);
    cbn [input_index dnibble_index output]; try lia. unfold len. simpl. lia.
Qed.

Lemma lzxpress_decompress_total_witness :
  exists out, lzxpress_decompress (replicate 14 0xFF) 4 100 = Some out /\ len out <= 100.
Proof.
  apply (lzxpress_decompress_total (replicate 14 0xFF) 4 100).
  - vm_compute. discriminate.
  - split; [vm_compute; discriminate|reflexivity].
  - reflexivity.
Defined.

(** The requirements are needed: a four byte input is read beyond its end, an
    output size of 0 is exceeded, and the byte after the input of the compressor
    gets into the result. *)
Lemma lzxpress_decompress_reads_past : lzxpress_decompress [0; 0; 0; 0x80] 4 100 = None.
Proof. reflexivity. Qed.

Lemma lzxpress_decompress_writes_past : lzxpress_decompress (replicate 20 0) 4 0 = None.
Proof. reflexivity. Qed.

Lemma lzxpress_compress_reads_past :
  lzxpress_compress [1] 2 (replicate 12 0) <> lzxpress_compress [1] 3 (replicate 12 0).
Proof. vm_compute. discriminate. Qed.
