(* ===== verification/ShareModel.v ===== *)
(** * Share modes, oplocks and leases: the model

    The share mode record of an open file (locking.tdb) and the code of
    source3/locking/locking.c, source3/smbd/open.c and source3/smbd/oplock.c that
    checks, grants, breaks and removes the opens in it.

    The operations run in a small state monad over the record and a log of the
    messages they send; [None] is [smb_panic] or an access outside an array.
    Queries of the rest of the server are fields of [share_env]. *)

From S2P Require Import Prelude.
From S2P Require Import ServerId.
From S2P Require Import DomSid.
From S2P Require Import SecModel.
From stdpp Require Import prelude list.

#[local] Open Scope Z_scope.

(** ** Constants *)

Definition NO_OPLOCK : Z := 0.
Definition EXCLUSIVE_OPLOCK : Z := 1.
Definition BATCH_OPLOCK : Z := 2.
Definition LEVEL_II_OPLOCK : Z := 4.
Definition INTERNAL_OPEN_ONLY : Z := 8.
Definition SAMBA_PRIVATE_OPLOCK_MASK : Z := INTERNAL_OPEN_ONLY.
Definition LEASE_OPLOCK : Z := 0x100.

Definition SMB2_LEASE_NONE : Z := 0.
Definition SMB2_LEASE_READ : Z := 1.
Definition SMB2_LEASE_HANDLE : Z := 2.
Definition SMB2_LEASE_WRITE : Z := 4.

Definition FILE_READ_DATA : Z := 0x1.
Definition FILE_WRITE_DATA : Z := 0x2.
Definition FILE_APPEND_DATA : Z := 0x4.
Definition FILE_EXECUTE : Z := 0x20.
Definition FILE_READ_ATTRIBUTES : Z := 0x80.
Definition FILE_WRITE_ATTRIBUTES : Z := 0x100.
Definition DELETE_ACCESS : Z := 0x10000.
Definition SYNCHRONIZE_ACCESS : Z := 0x100000.

Definition FILE_SHARE_READ : Z := 1.
Definition FILE_SHARE_WRITE : Z := 2.
Definition FILE_SHARE_DELETE : Z := 4.

Definition FILE_SUPERSEDE : Z := 0.
Definition FILE_OVERWRITE : Z := 4.
Definition FILE_OVERWRITE_IF : Z := 5.

Definition SHARE_MODE_FLAG_POSIX_OPEN : Z := 1.
Definition SMB2_LEASE_FLAG_BREAK_IN_PROGRESS : Z := 2.

Definition NT_STATUS_DELETE_PENDING : NTSTATUS := 0xC0000056.
Definition NT_STATUS_INTERNAL_DB_ERROR : NTSTATUS := 0xC0000158.
Definition NT_STATUS_REQUEST_NOT_ACCEPTED : NTSTATUS := 0xC00000D0.
Definition NT_STATUS_INTERNAL_ERROR : NTSTATUS := 0xC00000E5.
Definition NT_STATUS_OPLOCK_BREAK_IN_PROGRESS : NTSTATUS := 0x00000108.

Definition EXCLUSIVE_OPLOCK_TYPE (t : Z) : bool := has_bits t (Z.lor EXCLUSIVE_OPLOCK BATCH_OPLOCK).
Definition BATCH_OPLOCK_TYPE (t : Z) : bool := has_bits t BATCH_OPLOCK.
Definition LEVEL_II_OPLOCK_TYPE (t : Z) : bool := has_bits t LEVEL_II_OPLOCK.

(** ** Data (source3/librpc/idl/open_files.idl) *)

Record smb2_lease_key := Lease_key { key0 : Z; key1 : Z }.

#[export] Instance smb2_lease_key_eq_dec : EqDecision smb2_lease_key.
Proof. solve_decision. Defined.

Definition smb2_lease_key_equal (k1 k2 : smb2_lease_key) : bool :=
  (key0 k1 =? key0 k2) && (key1 k1 =? key1 k2).

Definition smb2_lease_equal (g1 : GUID) (k1 : smb2_lease_key) (g2 : GUID) (k2 : smb2_lease_key) : bool :=
  GUID_equal g1 g2 && smb2_lease_key_equal k1 k2.

Record share_mode_lease := Share_mode_lease {
  client_guid : GUID;
  lease_key : smb2_lease_key;
  current_state : Z;
  breaking : bool;
  breaking_to_requested : Z;
  breaking_to_required : Z;
  lease_version : Z;
  epoch : Z;                  (** uint16 *)
}.

#[export] Instance share_mode_lease_eq_dec : EqDecision share_mode_lease.
Proof. solve_decision. Defined.

Record share_mode_entry := Share_mode_entry {
  e_pid : server_id;
  op_mid : Z;
  op_type : Z;
  lease_idx : Z;
  e_access_mask : Z;
  e_share_access : Z;
  private_options : Z;
  e_time : Z * Z;
  share_file_id : Z;
  e_uid : Z;
  e_flags : Z;
  name_hash : Z;
  stale : bool;
}.

Record security_unix_token := Unix_token { ut_uid : Z; ut_gid : Z; ut_groups : list Z }.

Record delete_token := Delete_token {
  dt_name_hash : Z;
  delete_nt_token : security_token;
  dt_unix_token : security_unix_token;
}.

(** The arrays of [struct share_mode_data]; the names, the write times and the
    sequence number are not used by the modelled code. *)
Record share_mode_data := Share_mode_data {
  share_modes : list share_mode_entry;
  leases : list share_mode_lease;
  delete_tokens : list delete_token;
  modified : bool;
}.

(** What the code uses of the open file; [fsp_durable] is the persistent id of
    a durable open. *)
Record share_fsp := Share_fsp {
  fsp_pid : server_id;         (** messaging_server_id *)
  fsp_gen_id : Z;              (** fh->gen_id *)
  fsp_share_access : Z;
  fsp_private_options : Z;
  fsp_access_mask : Z;
  fsp_open_time : Z * Z;
  fsp_posix_open : bool;
  fsp_name_hash : Z;
  fsp_client_guid : GUID;
  fsp_durable : option Z;
}.

(** [struct smb2_lease]: what the client asks for and gets. *)
Record smb2_lease := Smb2_lease {
  l_key : smb2_lease_key;
  l_state : Z;
  l_flags : Z;
  l_version : Z;
  l_epoch : Z;
}.

(** Messages and database updates in the order they are made. *)
Inductive share_event :=
| Leases_db_add (g : GUID) (k : smb2_lease_key)
| Leases_db_del (g : GUID) (k : smb2_lease_key)
| Break_request (to : server_id) (file_id break_to : Z)
| Notify_cancel_deleted (to : server_id)
| Set_num_read_oplocks (n : Z)
| Break_sent (break_from break_to : Z)      (** to the client *)
| Lease_break_additional (k : smb2_lease_key) (break_from break_to : Z).

(** The surroundings: the process table, allocation, configuration, byte range
    locks and the leases database. *)
Record share_env := Share_env {
  serverid_exists : server_id -> bool;
  entries_alloc_ok : bool;         (** talloc_realloc of the three arrays *)
  leases_alloc_ok : bool;
  tokens_alloc_ok : bool;
  talloc_ok : bool;                (** any other allocation *)
  fsp_lease_alloc_ok : bool;
  lp_kernel_oplocks : bool;
  koplocks : bool;                 (** sconn->oplocks.kernel_ops != NULL *)
  kernel_oplock_ok : bool;         (** set_file_oplock *)
  lp_locking : bool;
  file_has_brlocks : bool;
  allow_level2 : bool;             (** client capability and lp_level2_oplocks *)
  leases_db_add_ok : bool;
  brl_readonly_ok : bool;          (** brl_get_locks_readonly *)
  brl_get_ok : bool;               (** brl_get_locks *)
  brl_num_read_oplocks : Z;
  current_uid : Z;
}.

(** The limit of lib/talloc on an array; the sizes are those of the LP64 layout of
    the structures. *)
Definition MAX_TALLOC_SIZE : Z := 0x10000000.

Definition talloc_realloc_array (ok : bool) (el_size count : Z) : bool :=
  if MAX_TALLOC_SIZE / el_size <=? count then false else ok.

Definition sizeof_share_mode_entry : Z := 96.
Definition sizeof_share_mode_lease : Z := 56.
Definition sizeof_delete_token : Z := 24.

(** ** Updates *)

Definition set_op_type (t : Z) (e : share_mode_entry) : share_mode_entry :=
  Share_mode_entry (e_pid e) (op_mid e) t (lease_idx e) (e_access_mask e) (e_share_access e)
    (private_options e) (e_time e) (share_file_id e) (e_uid e) (e_flags e) (name_hash e) (stale e).

Definition set_lease_idx (i : Z) (e : share_mode_entry) : share_mode_entry :=
  Share_mode_entry (e_pid e) (op_mid e) (op_type e) i (e_access_mask e) (e_share_access e)
    (private_options e) (e_time e) (share_file_id e) (e_uid e) (e_flags e) (name_hash e) (stale e).

Definition set_stale (e : share_mode_entry) : share_mode_entry :=
  Share_mode_entry (e_pid e) (op_mid e) (op_type e) (lease_idx e) (e_access_mask e) (e_share_access e)
    (private_options e) (e_time e) (share_file_id e) (e_uid e) (e_flags e) (name_hash e) true.

Definition set_owner (p : server_id) (file_id : Z) (e : share_mode_entry) : share_mode_entry :=
  Share_mode_entry p (op_mid e) (op_type e) (lease_idx e) (e_access_mask e) (e_share_access e)
    (private_options e) (e_time e) file_id (e_uid e) (e_flags e) (name_hash e) (stale e).

Definition set_mid (mid : Z) (e : share_mode_entry) : share_mode_entry :=
  Share_mode_entry (e_pid e) mid (op_type e) (lease_idx e) (e_access_mask e) (e_share_access e)
    (private_options e) (e_time e) (share_file_id e) (e_uid e) (e_flags e) (name_hash e) (stale e).

Definition with_entries (l : list share_mode_entry) (d : share_mode_data) : share_mode_data :=
  Share_mode_data l (leases d) (delete_tokens d) (modified d).

Definition with_leases (l : list share_mode_lease) (d : share_mode_data) : share_mode_data :=
  Share_mode_data (share_modes d) l (delete_tokens d) (modified d).

Definition with_tokens (l : list delete_token) (d : share_mode_data) : share_mode_data :=
  Share_mode_data (share_modes d) (leases d) l (modified d).

Definition set_modified (d : share_mode_data) : share_mode_data :=
  Share_mode_data (share_modes d) (leases d) (delete_tokens d) true.

(** [d->share_modes[i]] changed by [f]. *)
Definition change_entry (i : nat) (f : share_mode_entry -> share_mode_entry) (d : share_mode_data)
    : share_mode_data := with_entries (alter f i (share_modes d)) d.

Definition change_lease (i : nat) (f : share_mode_lease -> share_mode_lease) (d : share_mode_data)
    : share_mode_data := with_leases (alter f i (leases d)) d.

(** ** The monad *)

Record share_state := Share_state { sd : share_mode_data; log : list share_event }.

Definition M (A : Type) : Type := share_env -> share_state -> option (A * share_state).

#[export] Instance M_ret : MRet M := fun A a _ s => Some (a, s).

#[export] Instance M_bind : MBind M := fun A B f m env s =>
  match m env s with Some (a, s') => f a env s' | None => None end.

Definition panic {A} : M A := fun _ _ => None.
Definition ask : M share_env := fun env s => Some (env, s).
Definition data : M share_mode_data := fun _ s => Some (sd s, s).
Definition update (f : share_mode_data -> share_mode_data) : M unit :=
  fun _ s => Some (tt, Share_state (f (sd s)) (log s)).
Definition tell (e : share_event) : M unit := fun _ s => Some (tt, Share_state (sd s) (log s ++ [e])).

(** An array access. *)
Definition index {A} (l : list A) (i : nat) : M A :=
  match l !! i with Some a => mret a | None => panic end.

(** [for (i ...) body]: the body goes on with new local variables or leaves the
    function with a result. *)
Inductive control (A R : Type) := Next (a : A) | Return (r : R).
Arguments Next {_ _} _.
Arguments Return {_ _} _.

Fixpoint for_each {A R : Type} (js : list nat) (body : nat -> A -> M (control A R)) (a : A)
    : M (control A R) :=
  match js with
  | [] => mret (Next a)
  | i :: js =>
      c ← body i a;
      match c with
      | Next a => for_each js body a
      | Return r => mret (Return r)
      end
  end.

(** [for (i=0; i<d->num_share_modes; i++)] *)
Definition for_entries {A R : Type} (body : nat -> A -> M (control A R)) (a : A) : M (control A R) :=
  d ← data; for_each (seq 0 (length (share_modes d))) body a.

(** ** source3/locking/locking.c *)

Definition is_valid_share_mode_entry (e : share_mode_entry) : M bool :=
  if stale e then mret false
  else
    let num_props :=
      Z.b2z (op_type e =? NO_OPLOCK) + Z.b2z (EXCLUSIVE_OPLOCK_TYPE (op_type e)) +
      Z.b2z (LEVEL_II_OPLOCK_TYPE (op_type e)) + Z.b2z (op_type e =? LEASE_OPLOCK) in
    env ← ask;
    if (1 <? num_props) && serverid_exists env (e_pid e) then panic
    else mret (negb (num_props =? 0)).

(** Another entry refers to the lease [idx]. *)
Definition lease_used_by_other (i : nat) (idx : Z) (l : list share_mode_entry) : bool :=
  existsb (fun j => match l !! j with
                    | Some x => negb (stale x) && negb (j =? i)%nat && (lease_idx x =? idx)
                    | None => false
                    end) (seq 0 (length l)).

Definition remove_share_mode_lease (i : nat) : M unit :=
  d ← data;
  e ← index (share_modes d) i;
  update (change_entry i (set_op_type NO_OPLOCK));;
  update set_modified;;
  if negb (op_type e =? LEASE_OPLOCK) then mret tt
  else
    let idx := lease_idx e in
    update (change_entry i (set_lease_idx UINT32_MAX));;
    d ← data;
    if lease_used_by_other i idx (share_modes d) then mret tt
    else
      l ← index (leases d) (Z.to_nat idx);
      let num_leases := (length (leases d) - 1)%nat in
      last ← index (leases d) num_leases;
      update (with_leases (take num_leases (<[Z.to_nat idx := last]> (leases d))));;
      update (fun d => with_entries
        ((fun x => if lease_idx x =? Z.of_nat num_leases then set_lease_idx idx x else x)
           <$> share_modes d) d);;
      tell (Leases_db_del (client_guid l) (lease_key l)).

Definition share_mode_stale_pid (idx : nat) : M bool :=
  d ← data;
  if (length (share_modes d) <? idx)%nat then mret false
  else
    e ← index (share_modes d) idx;
    if stale e then mret true
    else
      env ← ask;
      if serverid_exists env (e_pid e) then mret false
      else
        update (change_entry idx set_stale);;
        d ← data;
        (if negb (bool_decide (delete_tokens d = [])) && forallb stale (share_modes d)
         then update (with_tokens []) else mret tt);;
        remove_share_mode_lease idx;;
        update set_modified;;
        mret true.

(** The loop of [remove_stale_share_mode_entries]: a stale entry is replaced by
    the last one. Every turn makes the rest of the array shorter. *)
Fixpoint remove_stale_loop (fuel i : nat) (m : list share_mode_entry) : list share_mode_entry :=
  match fuel with
  | O => m
  | S fuel =>
      match m !! i, last m with
      | Some e, Some z =>
          if stale e then remove_stale_loop fuel i (removelast (<[i := z]> m))
          else remove_stale_loop fuel (S i) m
      | _, _ => m
      end
  end.

Definition remove_stale_share_mode_entries (d : share_mode_data) : share_mode_data :=
  with_entries (remove_stale_loop (length (share_modes d)) 0 (share_modes d)) d.

Definition new_entry (fsp : share_fsp) (uid mid op_type lease_idx : Z) : share_mode_entry :=
  Share_mode_entry (fsp_pid fsp) mid op_type lease_idx (fsp_access_mask fsp) (fsp_share_access fsp)
    (fsp_private_options fsp) (fsp_open_time fsp) (fsp_gen_id fsp) (u32 uid)
    (if fsp_posix_open fsp then SHARE_MODE_FLAG_POSIX_OPEN else 0) (fsp_name_hash fsp) false.

Definition set_share_mode (fsp : share_fsp) (uid mid op_type lease_idx : Z) : M bool :=
  d ← data;
  env ← ask;
  if negb (lease_idx =? UINT32_MAX) && (Z.of_nat (length (leases d)) <=? lease_idx) then mret false
  else if negb (talloc_realloc_array (entries_alloc_ok env) sizeof_share_mode_entry
                  (Z.of_nat (length (share_modes d) + 1)))
  then mret false
  else
    update (fun d => with_entries (share_modes d ++ [new_entry fsp uid mid op_type lease_idx]) d);;
    update set_modified;;
    mret true.

(** The index of the entry, [None] for NULL. *)
Definition find_share_mode_entry (fsp : share_fsp) : M (option nat) :=
  r ← for_entries (fun i _ =>
    d ← data;
    e ← index (share_modes d) i;
    valid ← is_valid_share_mode_entry e;
    mret (if negb valid then Next tt
          else if negb (server_id_equal (fsp_pid fsp) (e_pid e)) then Next tt
          else if negb (fsp_gen_id fsp =? share_file_id e) then Next tt
          else Return i)) tt;
  mret (match r with Return i => Some i | Next _ => None end).

(** [*e = share_modes[num_share_modes-1]; num_share_modes -= 1]. *)
Definition delete_entry {A : Type} (i : nat) (l : list A) : list A :=
  match last l with Some z => removelast (<[i := z]> l) | None => l end.

Definition del_share_mode (fsp : share_fsp) : M bool :=
  e ← find_share_mode_entry fsp;
  match e with
  | None => mret false
  | Some i =>
      remove_share_mode_lease i;;
      update (fun d => with_entries (delete_entry i (share_modes d)) d);;
      update set_modified;;
      mret true
  end.

Definition mark_share_mode_disconnected (fsp : share_fsp) : M bool :=
  d ← data;
  if negb (length (share_modes d) =? 1)%nat then mret false
  else
    match fsp_durable fsp with
    | None => mret false
    | Some open_persistent_id =>
        e ← find_share_mode_entry fsp;
        match e with
        | None => mret false
        | Some i =>
            update (change_entry i (set_owner server_id_set_disconnected open_persistent_id));;
            update set_modified;;
            mret true
        end
    end.

Definition remove_share_oplock (fsp : share_fsp) : M bool :=
  e ← find_share_mode_entry fsp;
  match e with
  | None => mret false
  | Some i =>
      remove_share_mode_lease i;;
      update set_modified;;
      mret true
  end.

Definition downgrade_share_oplock (fsp : share_fsp) : M bool :=
  e ← find_share_mode_entry fsp;
  match e with
  | None => mret false
  | Some i =>
      update (change_entry i (set_op_type LEVEL_II_OPLOCK));;
      update set_modified;;
      mret true
  end.

(** The tokens after the loop of [reset_delete_on_close_lck]: a matching token is
    replaced by the last one, and the loop goes on behind it. *)
Fixpoint reset_tokens_loop (fuel i : nat) (hash : Z) (l : list delete_token) : list delete_token :=
  match fuel with
  | O => l
  | S fuel =>
      match l !! i, last l with
      | Some dt, Some z =>
          if dt_name_hash dt =? hash
          then reset_tokens_loop fuel (S i) hash (removelast (<[i := z]> l))
          else reset_tokens_loop fuel (S i) hash l
      | _, _ => l
      end
  end.

Definition reset_delete_on_close_lck (fsp : share_fsp) : M unit :=
  d ← data;
  (if existsb (fun dt => dt_name_hash dt =? fsp_name_hash fsp) (delete_tokens d)
   then update set_modified else mret tt);;
  update (with_tokens (reset_tokens_loop (length (delete_tokens d)) 0 (fsp_name_hash fsp)
                         (delete_tokens d))).

Definition find_delete_on_close_token (d : share_mode_data) (hash : Z) : option delete_token :=
  List.find (fun dt => dt_name_hash dt =? hash) (delete_tokens d).

Definition is_delete_on_close_set (d : share_mode_data) (hash : Z) : bool :=
  match find_delete_on_close_token d hash with Some _ => true | None => false end.

Definition get_delete_on_close_token (d : share_mode_data) (hash : Z)
    : option (security_token * security_unix_token) :=
  (fun dt => (delete_nt_token dt, dt_unix_token dt)) <$> find_delete_on_close_token d hash.

Definition add_delete_on_close_token (hash : Z) (nt_tok : security_token) (tok : security_unix_token)
    : M bool :=
  d ← data;
  env ← ask;
  if negb (talloc_realloc_array (tokens_alloc_ok env) sizeof_delete_token
             (Z.of_nat (length (delete_tokens d) + 1)))
  then mret false
  else if negb (talloc_ok env) then mret false
  else
    update (fun d => with_tokens (delete_tokens d ++ [Delete_token hash nt_tok tok]) d);;
    update set_modified;;
    mret true.

(** The first token with the hash gets the new tokens. *)
Fixpoint replace_token (hash : Z) (nt_tok : security_token) (tok : security_unix_token)
    (l : list delete_token) : option (list delete_token) :=
  match l with
  | [] => None
  | dt :: l =>
      if dt_name_hash dt =? hash then Some (Delete_token (dt_name_hash dt) nt_tok tok :: l)
      else (dt ::.) <$> replace_token hash nt_tok tok l
  end.

Definition set_delete_on_close_lck (fsp : share_fsp) (nt_tok : security_token)
    (tok : security_unix_token) : M unit :=
  d ← data;
  env ← ask;
  match replace_token (fsp_name_hash fsp) nt_tok tok (delete_tokens d) with
  | Some l =>
      if negb (talloc_ok env) then panic
      else update (with_tokens l);; update set_modified
  | None =>
      ok ← add_delete_on_close_token (fsp_name_hash fsp) nt_tok tok;
      if negb ok then panic
      else
        _ ← for_entries (fun i _ =>
          d ← data;
          e ← index (share_modes d) i;
          tell (Notify_cancel_deleted (e_pid e));;
          mret (Next tt : control unit unit)) tt;
        mret tt
  end.

(** ** source3/locking/leases_util.c, source3/smbd/oplock.c *)

Definition map_oplock_to_lease_type (op_type : Z) : Z :=
  if (op_type =? BATCH_OPLOCK) || (op_type =? Z.lor BATCH_OPLOCK EXCLUSIVE_OPLOCK)
  then Z.lor (Z.lor SMB2_LEASE_READ SMB2_LEASE_WRITE) SMB2_LEASE_HANDLE
  else if op_type =? EXCLUSIVE_OPLOCK then Z.lor SMB2_LEASE_READ SMB2_LEASE_WRITE
  else if op_type =? LEVEL_II_OPLOCK then SMB2_LEASE_READ
  else SMB2_LEASE_NONE.

Definition lease_type_is_exclusive (lease_type : Z) : bool :=
  Z.land lease_type (Z.lor SMB2_LEASE_READ SMB2_LEASE_WRITE) =? Z.lor SMB2_LEASE_READ SMB2_LEASE_WRITE.

Definition get_lease_type (d : share_mode_data) (e : share_mode_entry) : M Z :=
  if op_type e =? LEASE_OPLOCK then
    l ← index (leases d) (Z.to_nat (lease_idx e)); mret (current_state l)
  else mret (map_oplock_to_lease_type (op_type e)).

(** [lease_type] is [fsp_lease_type(fsp)]. *)
Definition update_num_read_oplocks (fsp : share_fsp) (lease_type : Z) : M bool :=
  if lease_type_is_exclusive lease_type then
    update remove_stale_share_mode_entries;;
    e ← find_share_mode_entry fsp;
    d ← data;
    e_lease_type ← match e with
                   | Some i => e ← index (share_modes d) i; get_lease_type d e
                   | None => mret 0
                   end;
    if negb (lease_type_is_exclusive e_lease_type) then panic else mret true
  else
    r ← for_entries (fun i n =>
      d ← data;
      e ← index (share_modes d) i;
      t ← get_lease_type d e;
      mret (Next (if has_bits t SMB2_LEASE_READ then n + 1 else n) : control Z unit)) 0;
    let num_read_oplocks := match r with Next n => n | Return _ => 0 end in
    env ← ask;
    if negb (brl_readonly_ok env) then mret false
    else if brl_num_read_oplocks env =? num_read_oplocks then mret true
    else if negb (brl_get_ok env) then mret false
    else tell (Set_num_read_oplocks num_read_oplocks);; mret true.

(** The index of the lease, [None] for -1. *)
Fixpoint find_lease_from (i : nat) (g : GUID) (k : smb2_lease_key) (l : list share_mode_lease)
    : option nat :=
  match l with
  | [] => None
  | x :: l => if smb2_lease_equal g k (client_guid x) (lease_key x) then Some i
              else find_lease_from (S i) g k l
  end.

Definition find_share_mode_lease (d : share_mode_data) (g : GUID) (k : smb2_lease_key) : option nat :=
  find_lease_from 0 g k (leases d).

(** ** source3/smbd/open.c *)

Definition DATA_ACCESS : Z :=
  Z.lor FILE_WRITE_DATA (Z.lor FILE_APPEND_DATA (Z.lor FILE_READ_DATA (Z.lor FILE_EXECUTE DELETE_ACCESS))).

Definition CHECK_MASK (am right sa share : Z) : bool := has_bits am right && negb (has_bits sa share).

Definition share_conflict (entry : share_mode_entry) (access_mask share_access : Z) : bool :=
  if server_id_is_disconnected (e_pid entry) then false
  else if negb (has_bits (e_access_mask entry) DATA_ACCESS) then false
  else if negb (has_bits access_mask DATA_ACCESS) then false
  else
    CHECK_MASK (e_access_mask entry) (Z.lor FILE_WRITE_DATA FILE_APPEND_DATA) share_access FILE_SHARE_WRITE ||
    CHECK_MASK access_mask (Z.lor FILE_WRITE_DATA FILE_APPEND_DATA) (e_share_access entry) FILE_SHARE_WRITE ||
    CHECK_MASK (e_access_mask entry) (Z.lor FILE_READ_DATA FILE_EXECUTE) share_access FILE_SHARE_READ ||
    CHECK_MASK access_mask (Z.lor FILE_READ_DATA FILE_EXECUTE) (e_share_access entry) FILE_SHARE_READ ||
    CHECK_MASK (e_access_mask entry) DELETE_ACCESS share_access FILE_SHARE_DELETE ||
    CHECK_MASK access_mask DELETE_ACCESS (e_share_access entry) FILE_SHARE_DELETE.

Definition stat_open_bits : Z :=
  Z.lor SYNCHRONIZE_ACCESS (Z.lor FILE_READ_ATTRIBUTES FILE_WRITE_ATTRIBUTES).

Definition is_stat_open (access_mask : Z) : bool :=
  has_bits access_mask stat_open_bits && (clear_bits access_mask stat_open_bits =? 0).

Definition has_delete_on_close (hash : Z) : M bool :=
  d ← data;
  if (length (share_modes d) =? 0)%nat then mret false
  else if negb (is_delete_on_close_set d hash) then mret false
  else
    r ← for_entries (fun i _ =>
      is_stale ← share_mode_stale_pid i;
      mret (if negb is_stale then Return tt else Next tt)) tt;
    mret (match r with Return _ => true | Next _ => false end).

Definition open_mode_check (access_mask share_access : Z) : M NTSTATUS :=
  d ← data;
  if (length (share_modes d) =? 0)%nat then mret NT_STATUS_OK
  else if is_stat_open access_mask then mret NT_STATUS_OK
  else
    r ← for_entries (fun i _ =>
      d ← data;
      e ← index (share_modes d) i;
      valid ← is_valid_share_mode_entry e;
      if negb valid then mret (Next tt)
      else if share_conflict e access_mask share_access then
        is_stale ← share_mode_stale_pid i;
        mret (if is_stale : bool then Next tt else Return tt)
      else mret (Next tt)) tt;
    mret (match r with Return _ => NT_STATUS_SHARING_VIOLATION | Next _ => NT_STATUS_OK end).

(** The local variables of [validate_oplock_types]. *)
Record oplock_count := Oplock_count {
  batch : bool; ex_or_batch : bool; level2 : bool; no_oplock : bool; num_non_stat_opens : Z }.

(** The body of its loop for a valid entry that counts, step by step. *)
Definition count_batch (i : nat) (e : share_mode_entry) (c : oplock_count)
    : M (control oplock_count (option oplock_count)) :=
  if BATCH_OPLOCK_TYPE (op_type e) then
    is_stale ← share_mode_stale_pid i;
    mret (if is_stale : bool then Return (Some c)
          else if ex_or_batch c || batch c || level2 c || no_oplock c then Return None
          else Next (Oplock_count true (ex_or_batch c) (level2 c) (no_oplock c) (num_non_stat_opens c)))
  else mret (Next c).

Definition count_exclusive (i : nat) (e : share_mode_entry) (c : oplock_count)
    : M (control oplock_count (option oplock_count)) :=
  if EXCLUSIVE_OPLOCK_TYPE (op_type e) then
    is_stale ← share_mode_stale_pid i;
    mret (if is_stale : bool then Return (Some c)
          else if ex_or_batch c || level2 c || no_oplock c then Return None
          else Next (Oplock_count (batch c) true (level2 c) (no_oplock c) (num_non_stat_opens c)))
  else mret (Next c).

Definition count_shared (applies : bool) (set : oplock_count -> oplock_count) (i : nat)
    (c : oplock_count) : M (control oplock_count (option oplock_count)) :=
  if applies then
    if batch c || ex_or_batch c then
      is_stale ← share_mode_stale_pid i;
      mret (if is_stale : bool then Return (Some c) else Return None)
    else mret (Next (set c))
  else mret (Next c).

Definition set_level2 (c : oplock_count) : oplock_count :=
  Oplock_count (batch c) (ex_or_batch c) true (no_oplock c) (num_non_stat_opens c).
Definition set_no_oplock (c : oplock_count) : oplock_count :=
  Oplock_count (batch c) (ex_or_batch c) (level2 c) true (num_non_stat_opens c).

(** Runs the steps of the body until one of them says [continue] ([Some]) or
    [return false] ([None]). *)
Fixpoint run_steps (steps : list (oplock_count -> M (control oplock_count (option oplock_count))))
    (c : oplock_count) : M (control oplock_count unit) :=
  match steps with
  | [] => mret (Next c)
  | f :: steps =>
      r ← f c;
      match r with
      | Next c => run_steps steps c
      | Return (Some c) => mret (Next c)
      | Return None => mret (Return tt)
      end
  end.

Definition validate_body (i : nat) (c : oplock_count) : M (control oplock_count unit) :=
  d ← data;
  e ← index (share_modes d) i;
  valid ← is_valid_share_mode_entry e;
  if negb valid then mret (Next c)
  else if op_mid e =? 0 then mret (Next c)
  else if (op_type e =? NO_OPLOCK) && is_stat_open (e_access_mask e) then mret (Next c)
  else
    run_steps [count_batch i e; count_exclusive i e;
               count_shared (LEVEL_II_OPLOCK_TYPE (op_type e)) set_level2 i;
               count_shared (op_type e =? NO_OPLOCK) set_no_oplock i]
      (Oplock_count (batch c) (ex_or_batch c) (level2 c) (no_oplock c) (num_non_stat_opens c + 1)).

Definition validate_oplock_types : M bool :=
  r ← for_entries validate_body (Oplock_count false false false false 0);
  match r with
  | Return _ => mret false
  | Next c =>
      update remove_stale_share_mode_entries;;
      mret (negb ((batch c || ex_or_batch c) && negb (num_non_stat_opens c =? 1)))
  end.

(** One entry of the loop of [delay_for_oplock]; the result is [delay]. *)
Definition delay_for_entry (fsp : share_fsp) (lease : option smb2_lease) (have_sharing_violation : bool)
    (will_overwrite first_open_attempt : bool) (i : nat) (delay : bool) : M bool :=
  d ← data;
  e ← index (share_modes d) i;
  e_lease_type ← get_lease_type d e;
  l ← (if op_type e =? LEASE_OPLOCK
       then l ← index (leases d) (Z.to_nat (lease_idx e)); mret (Some l) else mret None);
  let delay_mask := if have_sharing_violation then SMB2_LEASE_HANDLE else SMB2_LEASE_WRITE in
  let break_to := clear_bits e_lease_type delay_mask in
  let break_to := if will_overwrite then clear_bits break_to (Z.lor SMB2_LEASE_HANDLE SMB2_LEASE_READ)
                  else break_to in
  let is_breaking := match l with Some l => breaking l | None => false end in
  if match lease, l with
     | Some lease, Some l => smb2_lease_equal (fsp_client_guid fsp) (l_key lease) (client_guid l) (lease_key l)
     | _, _ => false
     end then mret delay
  else if clear_bits e_lease_type break_to =? 0 then mret (delay || is_breaking)
  else
    is_stale ← share_mode_stale_pid i;
    if is_stale : bool then mret delay
    else
      let break_to := if will_overwrite then clear_bits break_to (Z.lor SMB2_LEASE_READ SMB2_LEASE_WRITE)
                      else break_to in
      let break_to := if negb (op_type e =? LEASE_OPLOCK)
                      then clear_bits break_to (Z.lor SMB2_LEASE_HANDLE SMB2_LEASE_WRITE)
                      else break_to in
      tell (Break_request (e_pid e) (share_file_id e) (u16 break_to));;
      mret (delay || has_bits e_lease_type delay_mask || (is_breaking && negb first_open_attempt)).

Definition delay_for_oplock (fsp : share_fsp) (oplock_request : Z) (lease : option smb2_lease)
    (have_sharing_violation : bool) (create_disposition : Z) (first_open_attempt : bool) : M bool :=
  if has_bits oplock_request INTERNAL_OPEN_ONLY || is_stat_open (fsp_access_mask fsp) then mret false
  else
    let will_overwrite := (create_disposition =? FILE_SUPERSEDE) || (create_disposition =? FILE_OVERWRITE) ||
                          (create_disposition =? FILE_OVERWRITE_IF) in
    r ← for_entries (fun i delay =>
      delay ← delay_for_entry fsp lease have_sharing_violation will_overwrite first_open_attempt i delay;
      mret (Next delay : control bool unit)) false;
    mret (match r with Next delay => delay | Return _ => false end).

(** The lease as the client sees it after [fsp_lease_update]. *)
Definition fsp_lease_of (l : share_mode_lease) : smb2_lease :=
  Smb2_lease (lease_key l) (current_state l)
    (if breaking l then SMB2_LEASE_FLAG_BREAK_IN_PROGRESS else 0) (lease_version l) (epoch l).

Definition set_state (s : Z) (l : share_mode_lease) : share_mode_lease :=
  Share_mode_lease (client_guid l) (lease_key l) s (breaking l) (breaking_to_requested l)
    (breaking_to_required l) (lease_version l) (epoch l).

Definition next_epoch (l : share_mode_lease) : share_mode_lease :=
  Share_mode_lease (client_guid l) (lease_key l) (current_state l) (breaking l) (breaking_to_requested l)
    (breaking_to_required l) (lease_version l) (u16 (epoch l + 1)).

Definition set_breaking (b : bool) (requested required : Z) (l : share_mode_lease) : share_mode_lease :=
  Share_mode_lease (client_guid l) (lease_key l) (current_state l) b requested required
    (lease_version l) (epoch l).

(** [NT_STATUS_OK] comes with the index of the lease and the client's copy. *)
Definition grant_fsp_lease (fsp : share_fsp) (lease : smb2_lease) (granted : Z)
    : M (NTSTATUS + nat * smb2_lease) :=
  d ← data;
  env ← ask;
  match find_share_mode_lease d (fsp_client_guid fsp) (l_key lease) with
  | Some idx =>
      if negb (fsp_lease_alloc_ok env) then mret (inl NT_STATUS_NO_MEMORY)
      else
        l ← index (leases d) idx;
        let existing := current_state l in
        let requested := l_state lease in
        let do_upgrade := (Z.land existing requested =? existing) && negb (granted =? existing) &&
                          (granted =? requested) && negb (breaking l) in
        (if do_upgrade then update (change_lease idx (fun l => next_epoch (set_state granted l)))
         else mret tt);;
        d ← data;
        l ← index (leases d) idx;
        mret (inr (idx, fsp_lease_of l))
  | None =>
      if negb (talloc_realloc_array (leases_alloc_ok env) sizeof_share_mode_lease
                 (Z.of_nat (length (leases d) + 1)))
      then mret (inl NT_STATUS_INSUFFICIENT_RESOURCES)
      else if negb (fsp_lease_alloc_ok env) then mret (inl NT_STATUS_INSUFFICIENT_RESOURCES)
      else
        let new := Share_mode_lease (fsp_client_guid fsp) (l_key lease) granted false 0 0
                     (l_version lease) (u16 (l_epoch lease + 1)) in
        if negb (leases_db_add_ok env) then mret (inl NT_STATUS_INSUFFICIENT_RESOURCES)
        else
          tell (Leases_db_add (fsp_client_guid fsp) (l_key lease));;
          update (fun d => with_leases (leases d ++ [new]) d);;
          update set_modified;;
          mret (inr (length (leases d), fsp_lease_of new))
  end.

Definition is_same_lease (fsp : share_fsp) (d : share_mode_data) (e : share_mode_entry)
    (lease : option smb2_lease) : M bool :=
  if negb (op_type e =? LEASE_OPLOCK) then mret false
  else
    match lease with
    | None => mret false
    | Some lease =>
        l ← index (leases d) (Z.to_nat (lease_idx e));
        mret (smb2_lease_equal (fsp_client_guid fsp) (l_key lease) (client_guid l) (lease_key l))
    end.

(** The local variables of the loop of [grant_fsp_oplock_type]. *)
Record grant_vars := Grant_vars { granted : Z; got_handle_lease : bool; got_oplock : bool }.

Definition grant_body (fsp : share_fsp) (lease : option smb2_lease) (i : nat) (v : grant_vars)
    : M (control grant_vars unit) :=
  d ← data;
  e ← index (share_modes d) i;
  e_lease_type ← get_lease_type d e;
  same ← is_same_lease fsp d e lease;
  alive ← (if has_bits (granted v) SMB2_LEASE_WRITE && negb same
           then b ← share_mode_stale_pid i; mret (negb b) else mret false);
  let g := if alive : bool then clear_bits (granted v) SMB2_LEASE_WRITE else granted v in
  handle ← (if has_bits e_lease_type SMB2_LEASE_HANDLE && negb (got_handle_lease v)
            then b ← share_mode_stale_pid i; mret (negb b) else mret false);
  d ← data;
  e ← index (share_modes d) i;
  oplock ← (if negb (op_type e =? LEASE_OPLOCK) && negb (got_oplock v)
            then b ← share_mode_stale_pid i; mret (negb b) else mret false);
  mret (Next (Grant_vars g (got_handle_lease v || handle) (got_oplock v || oplock))).

(** What the request asks for, before the table is looked at. *)
Definition wanted_lease (env : share_env) (oplock_request : Z) (lease : option smb2_lease) : option Z :=
  if oplock_request =? LEASE_OPLOCK then
    match lease with
    | None => None
    | Some lease =>
        let granted := l_state lease in
        let granted := if lp_kernel_oplocks env then SMB2_LEASE_NONE else granted in
        let granted := if negb (has_bits granted (Z.lor SMB2_LEASE_READ SMB2_LEASE_WRITE))
                       then SMB2_LEASE_NONE else granted in
        let granted := if granted =? SMB2_LEASE_WRITE then SMB2_LEASE_NONE else granted in
        Some (if granted =? Z.lor SMB2_LEASE_WRITE SMB2_LEASE_HANDLE then SMB2_LEASE_NONE else granted)
    end
  else Some (map_oplock_to_lease_type (clear_bits oplock_request INTERNAL_OPEN_ONLY)).

Definition oplock_of_lease (granted : Z) : Z :=
  if granted =? Z.lor (Z.lor SMB2_LEASE_READ SMB2_LEASE_WRITE) SMB2_LEASE_HANDLE
  then Z.lor BATCH_OPLOCK EXCLUSIVE_OPLOCK
  else if granted =? Z.lor SMB2_LEASE_READ SMB2_LEASE_WRITE then EXCLUSIVE_OPLOCK
  else if (granted =? Z.lor SMB2_LEASE_READ SMB2_LEASE_HANDLE) || (granted =? SMB2_LEASE_READ)
  then LEVEL_II_OPLOCK
  else NO_OPLOCK.

(** The end of [grant_fsp_oplock_type]: the entry is stored. *)
Definition store_open (fsp : share_fsp) (mid oplock_type lease_idx lease_type : Z) : M NTSTATUS :=
  env ← ask;
  ok ← set_share_mode fsp (current_uid env) mid oplock_type lease_idx;
  if negb ok then mret NT_STATUS_NO_MEMORY
  else
    ok ← update_num_read_oplocks fsp lease_type;
    if negb ok then _ ← del_share_mode fsp; mret NT_STATUS_INTERNAL_ERROR
    else mret NT_STATUS_OK.

(** The status, [fsp->oplock_type] and the lease that the client gets. [mid] is
    [req ? req->mid : 0]. *)
Definition grant_fsp_oplock_type (fsp : share_fsp) (mid oplock_request : Z) (lease : option smb2_lease)
    : M (NTSTATUS * Z * option smb2_lease) :=
  env ← ask;
  let oplock_request := if has_bits oplock_request INTERNAL_OPEN_ONLY then NO_OPLOCK else oplock_request in
  match wanted_lease env oplock_request lease with
  | None => mret (NT_STATUS_INTERNAL_ERROR, NO_OPLOCK, lease)
  | Some wanted =>
      let wanted := if lp_locking env && file_has_brlocks env then clear_bits wanted SMB2_LEASE_READ
                    else wanted in
      r ← for_entries (grant_body fsp lease) (Grant_vars wanted false false);
      let v := match r with Next v => v | Return _ => Grant_vars 0 false false end in
      let g := granted v in
      let g := if has_bits g SMB2_LEASE_READ && negb (has_bits g SMB2_LEASE_WRITE) &&
                  negb (allow_level2 env) then SMB2_LEASE_NONE else g in
      match (if oplock_request =? LEASE_OPLOCK then lease else None) with
      | Some lease =>
          let g := if got_oplock v then clear_bits g SMB2_LEASE_HANDLE else g in
          r ← grant_fsp_lease fsp lease g;
          match r with
          | inl status => mret (status, LEASE_OPLOCK, Some lease)
          | inr (idx, fsp_lease) =>
              status ← store_open fsp mid LEASE_OPLOCK (Z.of_nat idx) (l_state fsp_lease);
              mret (status, LEASE_OPLOCK, Some fsp_lease)
          end
      | None =>
          let g := if got_handle_lease v then SMB2_LEASE_NONE else g in
          let oplock_type := if kernel_oplock_ok env then oplock_of_lease g else NO_OPLOCK in
          status ← store_open fsp mid oplock_type UINT32_MAX (map_oplock_to_lease_type oplock_type);
          mret (status, oplock_type, lease)
      end
  end.

(** ** The share mode part of [open_file_ntcreate]

    The part of the function between taking and releasing the share mode lock.
    [fsp] has the access mask of the open itself, [oa_using_smb2] tells which one
    is stored. What the rest of the function contributes (the file system calls
    in between, the compatibility open that shares an existing handle, access
    rights) is given by its outcome. *)

Definition with_access_mask (fsp : share_fsp) (m : Z) : share_fsp :=
  Share_fsp (fsp_pid fsp) (fsp_gen_id fsp) (fsp_share_access fsp) (fsp_private_options fsp) m
    (fsp_open_time fsp) (fsp_posix_open fsp) (fsp_name_hash fsp) (fsp_client_guid fsp) (fsp_durable fsp).

Record open_args := Open_args {
  oa_mid : option Z;                (** req->mid, [None] when req is NULL *)
  oa_access_mask : Z;
  oa_truncate : bool;               (** flags2 & O_TRUNC *)
  oa_create_disposition : Z;
  oa_oplock_request : Z;
  oa_oplocks : bool;                (** lp_oplocks, and the path is not vetoed *)
  oa_lease : option smb2_lease;
  oa_file_existed : bool;
  oa_first_open_attempt : bool;
  oa_using_smb2 : bool;
  oa_dos_open : option NTSTATUS;    (** fcb_or_dos_open, if DENY_DOS or DENY_FCB is set *)
  oa_can_access : bool;             (** the access rights allow the open *)
  oa_file_calls : NTSTATUS;         (** truncating, deleting streams, kernel share modes *)
  oa_delete_on_close : NTSTATUS;    (** can_set_delete_on_close, if it is called *)
}.

(** Any oplock request is ignored if oplocks are disabled; the lease stays. *)
Definition effective_request (a : open_args) : Z :=
  if oa_oplocks a then oa_oplock_request a else Z.land (oa_oplock_request a) SAMBA_PRIVATE_OPLOCK_MASK.

(** What the open itself uses: truncating needs write access. *)
Definition open_access_mask (a : open_args) : Z :=
  if oa_truncate a then Z.lor (oa_access_mask a) FILE_WRITE_DATA else oa_access_mask a.

(** What is stored: SMB1 adds the right to read attributes. *)
Definition stored_mask (a : open_args) : Z :=
  if oa_using_smb2 a then oa_access_mask a else Z.lor (oa_access_mask a) FILE_READ_ATTRIBUTES.

(** [req ? req->mid : 0] *)
Definition mid_of (a : open_args) : Z := match oa_mid a with Some mid => mid | None => 0 end.

(** The answer when the share modes do not allow the open. *)
Definition sharing_violation (a : open_args) : NTSTATUS :=
  let refused := if oa_can_access a then NT_STATUS_SHARING_VIOLATION else NT_STATUS_ACCESS_DENIED in
  match oa_dos_open a, oa_mid a with
  | Some _, None => NT_STATUS_INTERNAL_ERROR
  | Some status, Some _ => if NT_STATUS_IS_OK status then NT_STATUS_OK else refused
  | None, _ => refused
  end.

(** The end of the function: the entry is added, and removed again if it is opened
    for deletion and may not be. *)
Definition open_grant (fsp : share_fsp) (a : open_args) (oplock_request : Z) : M NTSTATUS :=
  if negb (NT_STATUS_IS_OK (oa_file_calls a)) then mret (oa_file_calls a)
  else
    let fsp := with_access_mask fsp (stored_mask a) in
    r ← grant_fsp_oplock_type fsp (mid_of a) oplock_request (oa_lease a);
    if negb (NT_STATUS_IS_OK r.1.1) then mret r.1.1
    else if negb (NT_STATUS_IS_OK (oa_delete_on_close a))
    then _ ← del_share_mode fsp; mret (oa_delete_on_close a)
    else mret NT_STATUS_OK.

Definition open_share_mode (fsp : share_fsp) (a : open_args) : M NTSTATUS :=
  let internal := has_bits (oa_oplock_request a) INTERNAL_OPEN_ONLY in
  if match oa_mid a with None => negb internal | Some _ => internal end then panic
  else
  valid ← validate_oplock_types;
  if negb valid then panic
  else
    pending ← has_delete_on_close (fsp_name_hash fsp);
    if pending : bool then mret NT_STATUS_DELETE_PENDING
    else
      status ← open_mode_check (oa_access_mask a) (fsp_share_access fsp);
      d ← data;
      let file_existed := oa_file_existed a || (status =? NT_STATUS_SHARING_VIOLATION) ||
                          (0 <? length (share_modes d))%nat in
      delay ← match oa_mid a with
              | Some _ =>
                  delay_for_oplock (with_access_mask fsp (open_access_mask a)) (effective_request a)
                    (oa_lease a) (status =? NT_STATUS_SHARING_VIOLATION) (oa_create_disposition a)
                    (oa_first_open_attempt a)
              | None => mret false
              end;
      if delay : bool then mret NT_STATUS_SHARING_VIOLATION
      else if negb (NT_STATUS_IS_OK status)
      then if status =? NT_STATUS_SHARING_VIOLATION then mret (sharing_violation a) else panic
      else
        open_grant fsp a
          (if file_existed && is_stat_open (open_access_mask a) && bool_decide (oa_lease a = None)
           then NO_OPLOCK else effective_request a).

(** The share mode part of [open_directory]. *)
Definition open_directory_share_mode (fsp : share_fsp) (mid access_mask : Z) : M NTSTATUS :=
  pending ← has_delete_on_close (fsp_name_hash fsp);
  if pending : bool then mret NT_STATUS_DELETE_PENDING
  else
    status ← open_mode_check access_mask (fsp_share_access fsp);
    if negb (NT_STATUS_IS_OK status) then mret status
    else
      env ← ask;
      ok ← set_share_mode (with_access_mask fsp (Z.lor access_mask FILE_READ_ATTRIBUTES))
             (current_uid env) mid NO_OPLOCK UINT32_MAX;
      mret (if ok : bool then NT_STATUS_OK else NT_STATUS_NO_MEMORY).

(** ** Breaking leases and oplocks (source3/smbd/oplock.c) *)

(** What a break request to [break_to] makes of the lease, whether the record is
    modified and whether the client has to be told. *)
Definition break_lease (break_to : Z) (l : share_mode_lease) : share_mode_lease * bool * bool :=
  let break_to := Z.land break_to (current_state l) in
  if breaking l then
    let break_to := Z.land break_to (breaking_to_required l) in
    if negb (breaking_to_required l =? break_to)
    then (set_breaking true (breaking_to_requested l) break_to l, true, false)
    else (l, false, false)
  else if current_state l =? break_to then (l, false, false)
  else if current_state l =? SMB2_LEASE_READ
  then (next_epoch (set_state SMB2_LEASE_NONE l), true, true)
  else (next_epoch (set_breaking true break_to break_to l), true, true).

Inductive sent_oplock_break := NO_BREAK_SENT | BREAK_TO_NONE_SENT | LEVEL_II_BREAK_SENT.

(** The oplock state of the open file: [fo_lease] is its copy of the lease. *)
Record fsp_oplock := Fsp_oplock {
  fo_type : Z;
  fo_lease : smb2_lease;
  fo_sent : sent_oplock_break;
}.

Definition fsp_lease_type (fo : fsp_oplock) : Z :=
  if fo_type fo =? LEASE_OPLOCK then l_state (fo_lease fo) else map_oplock_to_lease_type (fo_type fo).

(** The oplock of a handle is given up, or reduced to level II. *)
Definition remove_oplock_under_lock (fsp : share_fsp) : M bool :=
  _ ← remove_share_oplock fsp;
  update_num_read_oplocks fsp SMB2_LEASE_NONE.

Definition downgrade_oplock (fsp : share_fsp) : M bool :=
  _ ← downgrade_share_oplock fsp;
  update_num_read_oplocks fsp SMB2_LEASE_READ.

(** [process_oplock_break_message] for the open file [fsp] and the [break_to] of
    the message, when the record exists; the result is the new [fo_sent]. *)
Definition process_oplock_break_message (fsp : share_fsp) (fo : fsp_oplock) (break_to : Z)
    : M sent_oplock_break :=
  env ← ask;
  let break_from := fsp_lease_type fo in
  if negb (fo_type fo =? LEASE_OPLOCK) && match fo_sent fo with NO_BREAK_SENT => false | _ => true end
  then mret (fo_sent fo)
  else
    let break_to := if negb (allow_level2 env) || (lp_kernel_oplocks env && koplocks env)
                    then clear_bits break_to SMB2_LEASE_READ else break_to in
    if fo_type fo =? LEASE_OPLOCK then
      d ← data;
      match find_share_mode_lease d (fsp_client_guid fsp) (l_key (fo_lease fo)) with
      | None => tell (Break_sent break_from break_to);; mret (fo_sent fo)
      | Some idx =>
          l ← index (leases d) idx;
          let '(l', dirty, break_needed) := break_lease break_to l in
          update (change_lease idx (fun _ => l'));;
          (if dirty : bool then update set_modified else mret tt);;
          let break_to := Z.land break_to (current_state l) in
          (if break_needed : bool then tell (Break_sent (current_state l) break_to) else mret tt);;
          mret (fo_sent fo)
      end
    else
      tell (Break_sent break_from break_to);;
      if (break_from =? SMB2_LEASE_READ) && (break_to =? SMB2_LEASE_NONE) then
        _ ← remove_oplock_under_lock fsp; mret (fo_sent fo)
      else
        mret (if has_bits break_to SMB2_LEASE_READ then LEVEL_II_BREAK_SENT else BREAK_TO_NONE_SENT).

(** What an acknowledgement makes of the lease, the status, and the break that is
    sent next; [mem] tells whether its memory is there. *)
Definition ack_lease (mem : bool) (lease_state : Z) (l : share_mode_lease)
    : share_mode_lease * NTSTATUS * option (Z * Z) :=
  let l := set_state lease_state l in
  if negb (clear_bits lease_state (breaking_to_required l) =? 0) then
    let write_or_handle := has_bits (current_state l) (Z.lor SMB2_LEASE_WRITE SMB2_LEASE_HANDLE) in
    let requested := if write_or_handle then Z.lor (breaking_to_required l) SMB2_LEASE_READ
                     else breaking_to_required l in
    let l := set_breaking (breaking l) requested (breaking_to_required l) l in
    if negb mem then (l, NT_STATUS_NO_MEMORY, None)
    else (if write_or_handle then l else set_breaking false 0 0 (set_state 0 l),
          NT_STATUS_OPLOCK_BREAK_IN_PROGRESS, Some (current_state l, requested))
  else (set_breaking false 0 0 l, NT_STATUS_OK, None).

(** [downgrade_lease], for the record of the first file id. *)
Definition downgrade_lease (g : GUID) (key : smb2_lease_key) (lease_state : Z) : M NTSTATUS :=
  d ← data;
  env ← ask;
  match find_share_mode_lease d g key with
  | None => mret NT_STATUS_INVALID_PARAMETER
  | Some idx =>
      l ← index (leases d) idx;
      if negb (breaking l) then mret NT_STATUS_UNSUCCESSFUL
      else if negb (Z.land lease_state (breaking_to_requested l) =? lease_state)
      then mret NT_STATUS_REQUEST_NOT_ACCEPTED
      else
        let '(l', status, more) := ack_lease (talloc_ok env) lease_state l in
        update (change_lease idx (fun _ => l'));;
        update set_modified;;
        match more with
        | Some (break_from, break_to) => tell (Lease_break_additional key break_from break_to)
        | None => mret tt
        end;;
        mret status
  end.

(** ** Durable handles (source3/smbd/durable.c) *)

(** The part of [vfs_default_durable_reconnect] that works on the record: the
    entry of the disconnected handle gets its new owner. [can_write] is
    [CAN_WRITE(conn)]; [rest] is the outcome of what follows: the byte range
    locks, opening the file and comparing it with the cookie. *)
Definition reconnect_share_mode (fsp : share_fsp) (mid open_persistent_id : Z) (can_write : bool)
    (rest : NTSTATUS) : M NTSTATUS :=
  d ← data;
  env ← ask;
  if (length (share_modes d) =? 0)%nat then mret NT_STATUS_INTERNAL_DB_ERROR
  else if (1 <? length (share_modes d))%nat then mret NT_STATUS_OBJECT_NAME_NOT_FOUND
  else
    e ← index (share_modes d) 0;
    if negb (server_id_is_disconnected (e_pid e)) then mret NT_STATUS_OBJECT_NAME_NOT_FOUND
    else if negb (share_file_id e =? open_persistent_id) then mret NT_STATUS_OBJECT_NAME_NOT_FOUND
    else if has_bits (e_access_mask e) (Z.lor FILE_WRITE_DATA FILE_APPEND_DATA) && negb can_write
    then mret NT_STATUS_OBJECT_NAME_NOT_FOUND
    else
      status ← (if op_type e =? LEASE_OPLOCK then
                  l ← index (leases d) (Z.to_nat (lease_idx e));
                  mret (if negb (fsp_lease_alloc_ok env) then NT_STATUS_NO_MEMORY
                        else if negb (GUID_equal (fsp_client_guid fsp) (client_guid l))
                        then NT_STATUS_OBJECT_NAME_NOT_FOUND else NT_STATUS_OK)
                else mret NT_STATUS_OK);
      if negb (NT_STATUS_IS_OK status) then mret status
      else
        update (change_entry 0 (fun e => set_mid mid (set_owner (fsp_pid fsp) (fsp_gen_id fsp) e)));;
        if negb (NT_STATUS_IS_OK rest) then mret rest
        else update set_modified;; mret NT_STATUS_OK.

(** ** The database (source3/locking/share_mode_lock.c) *)

Definition fresh_share_mode_data : share_mode_data := Share_mode_data [] [] [] false.

(** What is stored when the lock is released: nothing when the data was not
    modified, and no record when there is no entry left. A record read back has
    [modified] unset. *)
Definition store_share_modes (old d : share_mode_data) : share_mode_data :=
  if negb (modified d) then old
  else
    let d := remove_stale_share_mode_entries d in
    if (length (share_modes d) =? 0)%nat then fresh_share_mode_data
    else Share_mode_data (share_modes d) (leases d) (delete_tokens d) false.
