(* ===== verification/ShareView.v ===== *)
(** * Share mode records as collections of opens

    The array of entries with its lease indexes is an implementation of a
    collection of opens, each with its lease. [opens] is that collection; the
    operations that move entries and leases around (source3/locking/locking.c:
    remove_share_mode_lease, share_mode_stale_pid, remove_stale_share_mode_entries,
    set_share_mode, del_share_mode) are shown to act on it as they should, on
    well-formed records ([wf]), without an access outside the arrays. *)

From S2P Require Import Prelude.
From S2P Require Import ServerId.
From S2P Require Import DomSid.
From S2P Require Import SecModel.
From S2P Require Import ShareModel.
From stdpp Require Import prelude list.

#[local] Open Scope Z_scope.

(** ** Triples

    [triple pf env P m Q]: run in [env] on a record with [P], [m] ends with a
    result and a record with [Q]; [pf] is what may be assumed of a panic, [False]
    when there is none. *)

Definition triple {A} (pf : Prop) (env : share_env) (P : share_mode_data -> Prop) (m : M A)
    (Q : A -> share_mode_data -> Prop) : Prop :=
  forall s, P (sd s) ->
  match m env s with Some (a, s') => Q a (sd s') | None => pf end.

Section triples.
Context {pf : Prop} {env : share_env}.

Lemma triple_ret {A} P (a : A) (Q : A -> share_mode_data -> Prop) :
  (forall d, P d -> Q a d) -> triple pf env P (mret a) Q.
Proof. intros H s HP. apply H, HP. Qed.

Lemma triple_bind {A B} P (m : M A) (f : A -> M B) R Q :
  triple pf env P m R -> (forall a, triple pf env (R a) (f a) Q) -> triple pf env P (m ≫= f) Q.
Proof.
  intros Hm Hf s HP. specialize (Hm s HP). unfold mbind, M_bind.
  destruct (m env s) as [[a s']|]; [|done]. apply (Hf a s' Hm).
Qed.

Lemma triple_assoc {A B C} P (m : M A) (f : A -> M B) (g : B -> M C) Q :
  triple pf env P (m ≫= fun a => f a ≫= g) Q -> triple pf env P ((m ≫= f) ≫= g) Q.
Proof.
  intros H s HP. specialize (H s HP). unfold mbind, M_bind in *. by destruct (m env s) as [[a s']|].
Qed.

Lemma triple_conseq {A} (P P' : share_mode_data -> Prop) (m : M A) (Q Q' : A -> share_mode_data -> Prop) :
  triple pf env P' m Q' -> (forall d, P d -> P' d) -> (forall a d, Q' a d -> Q a d) ->
  triple pf env P m Q.
Proof.
  intros H HP HQ s Hs. specialize (H s (HP _ Hs)).
  destruct (m env s) as [[a s']|]; [by apply HQ | done].
Qed.

Lemma triple_data {B} P (f : share_mode_data -> M B) Q :
  (forall d, P d -> triple pf env (fun d' => d' = d) (f d) Q) ->
  triple pf env P (data ≫= f) Q.
Proof. intros H s HP. by apply (H (sd s) HP s). Qed.

Lemma triple_ask {B} P (f : share_env -> M B) Q :
  triple pf env P (f env) Q -> triple pf env P (ask ≫= f) Q.
Proof. intros H s HP. by apply (H s HP). Qed.

Lemma triple_update P f (Q : unit -> share_mode_data -> Prop) :
  (forall d, P d -> Q tt (f d)) -> triple pf env P (update f) Q.
Proof. intros H s HP. apply H, HP. Qed.

Lemma triple_tell P e (Q : unit -> share_mode_data -> Prop) :
  (forall d, P d -> Q tt d) -> triple pf env P (tell e) Q.
Proof. intros H s HP. apply H, HP. Qed.

Lemma triple_index {A B} P (l : list A) i a (f : A -> M B) Q :
  l !! i = Some a -> triple pf env P (f a) Q -> triple pf env P (index l i ≫= f) Q.
Proof. intros Hi H s HP. unfold index. rewrite Hi. apply (H s HP). Qed.

Lemma triple_panic {A} P (Q : A -> share_mode_data -> Prop) :
  (forall d, P d -> pf) -> triple pf env P panic Q.
Proof. intros H s HP. apply (H _ HP). Qed.

Lemma triple_pre {A} (P : share_mode_data -> Prop) (m : M A) Q :
  (forall d, P d -> triple pf env (fun d' => d' = d) m Q) -> triple pf env P m Q.
Proof. intros H s HP. by apply (H _ HP s). Qed.

(** The same for a record that is known. *)
Lemma triple_data_at {B} d (f : share_mode_data -> M B) Q :
  triple pf env (fun d' => d' = d) (f d) Q -> triple pf env (fun d' => d' = d) (data ≫= f) Q.
Proof. intros H s Hs. cbn in Hs. unfold mbind, M_bind, data. rewrite Hs. by apply (H s Hs). Qed.

Lemma triple_update_at {B} d g (m : M B) Q :
  triple pf env (fun d' => d' = g d) m Q ->
  triple pf env (fun d' => d' = d) (update g ≫= fun _ => m) Q.
Proof. intros H s Hs. apply (H (Share_state (g (sd s)) (log s))). by rewrite Hs. Qed.

Lemma triple_tell_at {B} P e (m : M B) Q :
  triple pf env P m Q -> triple pf env P (tell e ≫= fun _ => m) Q.
Proof. intros H s Hs. by apply (H (Share_state (sd s) (log s ++ [e]))). Qed.

Lemma triple_ret_at {A} d (a : A) (Q : A -> share_mode_data -> Prop) :
  Q a d -> triple pf env (fun d' => d' = d) (mret a) Q.
Proof. intros H. apply triple_ret. by intros ? ->. Qed.

(** A loop: [I k a] holds when the entries before [k] have been looked at. *)
Lemma triple_for_each {A R} (js : list nat) (body : nat -> A -> M (control A R))
    (I : nat -> A -> share_mode_data -> Prop) (Q : R -> share_mode_data -> Prop) k a :
  js = seq k (length js) ->
  (forall i a, (k <= i < k + length js)%nat ->
     triple pf env (I i a) (body i a) (fun c d => match c with Next a => I (S i) a d | Return r => Q r d end)) ->
  triple pf env (I k a) (for_each js body a)
    (fun c d => match c with Next a => I (k + length js)%nat a d | Return r => Q r d end).
Proof.
  revert k a. induction js as [|j js IH]; intros k a Hjs Hb; cbn [for_each].
  - apply triple_ret. intros d Hd. cbn. by rewrite Nat.add_0_r.
  - cbn [length seq] in Hjs. injection Hjs as -> Hjs.
    eapply triple_bind; [apply Hb; cbn; lia|]. intros [a'|r]; [|by apply triple_ret].
    eapply triple_conseq; [apply (IH (S k) a' Hjs)| done | ].
    + intros i a0 Hi. apply Hb. cbn. lia.
    + intros [a0|r] d; cbn [length]; [|done]. by replace (S k + length js)%nat with (k + S (length js))%nat by lia.
Qed.

Lemma triple_for_entries {A R} (body : nat -> A -> M (control A R)) n
    (I : nat -> A -> share_mode_data -> Prop) (Q : R -> share_mode_data -> Prop) a :
  (forall d, I O a d -> length (share_modes d) = n) ->
  (forall i a, (i < n)%nat ->
     triple pf env (I i a) (body i a) (fun c d => match c with Next a => I (S i) a d | Return r => Q r d end)) ->
  triple pf env (I O a) (for_entries body a)
    (fun c d => match c with Next a => I n a d | Return r => Q r d end).
Proof.
  intros Hn Hb. apply triple_data. intros d Hd. rewrite (Hn d Hd).
  eapply triple_conseq; [apply (triple_for_each _ body I Q 0 a)| by intros ? -> |].
  - by rewrite length_seq.
  - rewrite length_seq. intros i a' Hi. apply Hb. lia.
  - by rewrite length_seq.
Qed.
End triples.

(** A postcondition that needs a further assumption. *)
Lemma triple_and {A} (pf : Prop) env P (m : M A) Q1 (H : Prop) Q2 :
  triple pf env P m Q1 -> (H -> triple pf env P m Q2) ->
  triple pf env P m (fun a d => Q1 a d /\ (H -> Q2 a d)).
Proof.
  intros H1 H2 s HP. specialize (H1 s HP). destruct (m env s) as [[a s']|] eqn:E; [|done].
  split; [done|]. intros h. specialize (H2 h s HP). by rewrite E in H2.
Qed.

(** ** Pairs in a list *)

Definition all_pairs {A} (R : A -> A -> Prop) (l : list A) : Prop :=
  forall i j x y, i <> j -> l !! i = Some x -> l !! j = Some y -> R x y.

Lemma all_pairs_permutation {A} (R : A -> A -> Prop) l l' : l' ≡ₚ l -> all_pairs R l -> all_pairs R l'.
Proof.
  intros Hp H i j x y Hij Hi Hj. apply Permutation_inj in Hp as (_ & f & Hf & Hl).
  rewrite Hl in Hi, Hj. apply (H (f i) (f j)); [|done|done]. intros E. by apply Hij, Hf.
Qed.

Lemma all_pairs_submseteq {A} (R : A -> A -> Prop) l l' : l' ⊆+ l -> all_pairs R l -> all_pairs R l'.
Proof.
  intros [k Hk]%submseteq_Permutation H i j x y Hij Hi Hj.
  apply (all_pairs_permutation R l (l' ++ k)) in H; [|done].
  apply (H i j); [done | by apply lookup_app_l_Some | by apply lookup_app_l_Some].
Qed.

Lemma all_pairs_Forall2 {A} (R : A -> A -> Prop) (S : A -> A -> Prop) l l' :
  (forall x x' y y', S x x' -> S y y' -> R x y -> R x' y') -> Forall2 S l l' -> all_pairs R l -> all_pairs R l'.
Proof.
  intros HS H2 H i j x' y' Hij Hi Hj.
  destruct (Forall2_lookup_r _ _ _ _ _ H2 Hi) as (x & Hx & Sx).
  destruct (Forall2_lookup_r _ _ _ _ _ H2 Hj) as (y & Hy & Sy). by eapply HS, (H i j).
Qed.

Lemma all_pairs_snoc {A} (R : A -> A -> Prop) l o :
  all_pairs R l -> (forall i x, l !! i = Some x -> R x o /\ R o x) -> all_pairs R (l ++ [o]).
Proof.
  intros H Ho i j x y Hij Hi Hj.
  apply lookup_snoc_Some in Hi as [[? Hi]|[-> <-]], Hj as [[? Hj]|[-> <-]].
  - by apply (H i j).
  - by eapply Ho.
  - by eapply Ho.
  - done.
Qed.

Lemma all_pairs_single {A} (R : A -> A -> Prop) l : (length l <= 1)%nat -> all_pairs R l.
Proof. intros Hl i j x y Hij Hi%lookup_lt_Some Hj%lookup_lt_Some. lia. Qed.

(** ** The view *)

Record sopen := Sopen { so_entry : share_mode_entry; so_lease : option share_mode_lease }.

Definition erase (e : share_mode_entry) : share_mode_entry := set_lease_idx UINT32_MAX e.

Definition lease_of (ls : list share_mode_lease) (e : share_mode_entry) : option share_mode_lease :=
  if op_type e =? LEASE_OPLOCK then ls !! Z.to_nat (lease_idx e) else None.

Definition view (ls : list share_mode_lease) (e : share_mode_entry) : sopen := Sopen (erase e) (lease_of ls e).

(** The opens of a record, stale ones included. *)
Definition opens (d : share_mode_data) : list sopen := view (leases d) <$> share_modes d.

Definition oplock_types : list Z :=
  [NO_OPLOCK; EXCLUSIVE_OPLOCK; Z.lor BATCH_OPLOCK EXCLUSIVE_OPLOCK; LEVEL_II_OPLOCK; LEASE_OPLOCK].

(** An entry has a lease exactly when its type says so; a stale one has none. *)
Definition wf_entry (n : nat) (e : share_mode_entry) : Prop :=
  op_type e ∈ oplock_types /\
  if op_type e =? LEASE_OPLOCK then stale e = false /\ 0 <= lease_idx e < Z.of_nat n
  else lease_idx e = UINT32_MAX.

Definition lease_id (l : share_mode_lease) : GUID * smb2_lease_key := (client_guid l, lease_key l).

Definition max_leases : Z := MAX_TALLOC_SIZE / sizeof_share_mode_lease.

Definition wf_leases (ls : list share_mode_lease) : Prop :=
  Z.of_nat (length ls) < max_leases /\ NoDup (lease_id <$> ls) /\
  Forall (fun l => length (node (client_guid l)) = 6%nat) ls.

Definition wf (d : share_mode_data) : Prop :=
  Forall (wf_entry (length (leases d))) (share_modes d) /\ wf_leases (leases d).

(** All entries but number [i] are well formed; this one may be stale and still
    have its lease. *)
Definition wf_indexed (n : nat) (e : share_mode_entry) : Prop :=
  op_type e ∈ oplock_types /\
  if op_type e =? LEASE_OPLOCK then 0 <= lease_idx e < Z.of_nat n else lease_idx e = UINT32_MAX.

Definition wf_except (i : nat) (d : share_mode_data) : Prop :=
  (forall j e, share_modes d !! j = Some e ->
     wf_indexed (length (leases d)) e /\ (j <> i -> wf_entry (length (leases d)) e)) /\
  wf_leases (leases d).

Lemma wf_entry_indexed n e : wf_entry n e -> wf_indexed n e.
Proof. unfold wf_entry, wf_indexed. case_match; naive_solver. Qed.

Lemma wf_wf_except i d : wf d -> wf_except i d.
Proof.
  intros [He Hl]. split; [|done]. intros j e Hj.
  pose proof (proj1 (Forall_lookup _ _) He j e Hj). split; [by apply wf_entry_indexed | done].
Qed.

Lemma max_leases_lt : max_leases < UINT32_MAX.
Proof. reflexivity. Qed.

Lemma opens_lookup d i : opens d !! i = view (leases d) <$> share_modes d !! i.
Proof. apply list_lookup_fmap. Qed.

Lemma length_opens d : length (opens d) = length (share_modes d).
Proof. apply length_fmap. Qed.

(** The effect of giving up a lease or oplock. *)
Definition clear_oplock (o : sopen) : sopen := Sopen (set_op_type NO_OPLOCK (so_entry o)) None.

Lemma lease_used_by_other_spec i idx l :
  lease_used_by_other i idx l = false ->
  forall j x, l !! j = Some x -> j <> i -> stale x = false -> lease_idx x <> idx.
Proof.
  intros H j x Hj Hji Hs Hx. apply not_true_iff_false in H. apply H.
  apply existsb_exists. exists j. split.
  - apply in_seq. apply lookup_lt_Some in Hj. lia.
  - rewrite Hj, Hs. apply andb_true_iff. split; [|by apply Z.eqb_eq].
    cbn. by apply negb_true_iff, Nat.eqb_neq.
Qed.

Lemma wf_leases_submseteq ls ls' : ls' ⊆+ ls -> wf_leases ls -> wf_leases ls'.
Proof.
  intros Hs (Hb & Hnd & Hg). pose proof (submseteq_length _ _ Hs) as Hlen. repeat split.
  - lia.
  - apply submseteq_Permutation in Hs as [k Hk]. rewrite Hk, fmap_app in Hnd.
    by apply NoDup_app in Hnd as [? _].
  - apply Forall_forall. intros l Hl. rewrite Forall_forall in Hg. apply Hg.
    by apply (elem_of_submseteq _ _ _ Hl Hs).
Qed.

(** Moving the last lease to the place of the one that goes. *)
Lemma swap_last_submseteq {A} (l : list A) i z :
  (i < length l)%nat -> l !! (length l - 1)%nat = Some z -> take (length l - 1) (<[i := z]> l) ⊆+ l.
Proof.
  intros Hi Hz. set (n := (length l - 1)%nat) in *.
  destruct (decide (i = n)) as [->|E].
  - rewrite take_insert_ge by lia. apply sublist_submseteq, sublist_take.
  - rewrite take_insert_lt by lia.
    assert (Hl : l = take n l ++ [z]).
    { rewrite <- (take_S_r _ _ _ Hz). symmetry. apply take_ge. lia. }
    destruct (lookup_lt_is_Some_2 (take n l) i) as [y Hy]; [rewrite length_take; lia|].
    rewrite Hl at 2. rewrite <- (take_drop_middle _ _ _ Hy) at 2.
    rewrite insert_take_drop by (rewrite length_take; lia).
    rewrite <- (assoc (++)), <- app_comm_cons.
    apply submseteq_app; [done|].
    rewrite (Permutation_app_comm _ [z]). cbn. apply submseteq_cons. done.
Qed.

Section reindex.
Context (ls : list share_mode_lease) (idx : Z) (z : share_mode_lease).
Context (Hidx : 0 <= idx < Z.of_nat (length ls)) (Hwf : wf_leases ls).
Context (Hz : ls !! (length ls - 1)%nat = Some z).

Let ls' := take (length ls - 1) (<[Z.to_nat idx := z]> ls).
Let fix_idx (x : share_mode_entry) : share_mode_entry :=
  if lease_idx x =? Z.of_nat (length ls - 1) then set_lease_idx idx x else x.

(** An entry with another lease keeps it, and one without lease is not touched. *)
Lemma reindex_entry e :
  wf_entry (length ls) e -> (op_type e = LEASE_OPLOCK -> lease_idx e <> idx) ->
  wf_entry (length ls') (fix_idx e) /\ view ls' (fix_idx e) = view ls e.
Proof.
  intros [Ht He] Hne. destruct Hwf as (Hb & _ & _). pose proof max_leases_lt as Hm.
  assert (Hlen : length ls' = (length ls - 1)%nat)
    by (unfold ls'; rewrite length_take, length_insert; lia).
  unfold view, lease_of, wf_entry, fix_idx. rewrite Hlen.
  destruct (Z.eqb_spec (op_type e) LEASE_OPLOCK) as [E|E]; cycle 1.
  { destruct (Z.eqb_spec (lease_idx e) (Z.of_nat (length ls - 1))); [lia|].
    apply Z.eqb_neq in E. by rewrite E. }
  destruct He as [Hs He]. specialize (Hne E).
  destruct (Z.eqb_spec (lease_idx e) (Z.of_nat (length ls - 1))) as [El|El].
  - change (op_type (set_lease_idx idx e)) with (op_type e). rewrite E. cbn [Z.eqb].
    change (LEASE_OPLOCK =? LEASE_OPLOCK) with true. cbn [lease_idx set_lease_idx stale].
    split; [split; [by rewrite <- E | split; [done | lia]]|].
    rewrite El, Nat2Z.id, Hz. f_equal. unfold ls'.
    rewrite lookup_take_lt by lia. apply list_lookup_insert_eq. lia.
  - rewrite E. change (LEASE_OPLOCK =? LEASE_OPLOCK) with true. cbv iota.
    split; [split; [by rewrite <- E | split; [done | lia]]|].
    f_equal. unfold ls'. rewrite lookup_take_lt by lia. apply list_lookup_insert_ne. lia.
Qed.
End reindex.

Lemma wf_lookup d i e : wf d -> share_modes d !! i = Some e -> wf_entry (length (leases d)) e.
Proof. intros [H _]. by apply (proj1 (Forall_lookup _ _) H). Qed.

(** A record whose entry [i] is changed by [f] in the view, the others not. *)
Lemma wf_opens_alter d d' i (f : sopen -> sopen) :
  length (share_modes d') = length (share_modes d) -> wf_leases (leases d') ->
  (forall j e, share_modes d !! j = Some e ->
     exists e', share_modes d' !! j = Some e' /\ wf_entry (length (leases d')) e' /\
       view (leases d') e' = if decide (j = i) then f (view (leases d) e) else view (leases d) e) ->
  wf d' /\ opens d' = alter f i (opens d).
Proof.
  intros Hlen Hls H. split.
  { split; [|done]. apply Forall_lookup. intros j e' Hj.
    destruct (lookup_lt_is_Some_2 (share_modes d) j) as [e He].
    { apply lookup_lt_Some in Hj. lia. }
    destruct (H j e He) as (x & Hx & Hw & _). congruence. }
  apply list_eq. intros j. rewrite opens_lookup.
  destruct (share_modes d !! j) as [e|] eqn:E; cycle 1.
  { apply lookup_ge_None in E. rewrite !lookup_ge_None_2; [done | |lia].
    rewrite length_alter, length_opens. done. }
  destruct (H j e E) as (e' & -> & _ & Hv). cbn. rewrite Hv.
  destruct (decide (j = i)) as [->|Hne].
  - by rewrite list_lookup_alter_eq, opens_lookup, E.
  - by rewrite list_lookup_alter_ne, opens_lookup, E by done.
Qed.

Lemma wf_indexed_idx n e :
  wf_indexed n e -> op_type e <> LEASE_OPLOCK -> lease_idx e = UINT32_MAX.
Proof. intros [_ H] Hne. apply Z.eqb_neq in Hne. by rewrite Hne in H. Qed.

Lemma wf_indexed_lease n e :
  wf_indexed n e -> op_type e = LEASE_OPLOCK -> 0 <= lease_idx e < Z.of_nat n.
Proof. intros [_ H] E. by rewrite E in H. Qed.

(** Every lease of the table belongs to an open. *)
Definition used (d : share_mode_data) : Prop :=
  forall l, l ∈ leases d -> exists j o, opens d !! j = Some o /\ stale (so_entry o) = false /\ so_lease o = Some l.

(** The lease of open [i] stays in the table only if another one has it. *)
Definition released (i : nat) (d d' : share_mode_data) : Prop :=
  forall l, l ∈ leases d' -> l ∈ leases d /\
  ((opens d !! i) ≫= so_lease = Some l ->
   exists j o, j <> i /\ opens d !! j = Some o /\ stale (so_entry o) = false /\ so_lease o = Some l).

Section remove_lease.
Context (d : share_mode_data) (i : nat) (e : share_mode_entry).
Context (He : share_modes d !! i = Some e) (Hwf : wf_except i d).

Let cleared := set_lease_idx UINT32_MAX (set_op_type NO_OPLOCK e).

Lemma cleared_ok n ls : wf_entry n cleared /\ view ls cleared = clear_oplock (view (leases d) e).
Proof. split; [split; [by left | done] | done]. Qed.

(** The entry changes, the table stays. *)
Lemma remove_lease_kept d' :
  share_modes d' = <[i := cleared]> (share_modes d) -> leases d' = leases d ->
  wf d' /\ opens d' = alter clear_oplock i (opens d).
Proof using He Hwf.
  intros Hm Hl. destruct Hwf as [Hw Hls]. apply wf_opens_alter; rewrite ?Hm, ?Hl; [apply length_insert | done |].
  intros j x Hj. destruct (Hw j x Hj) as [_ Hx]. destruct (decide (j = i)) as [->|Hne].
  - exists cleared. rewrite list_lookup_insert_eq by (by eapply lookup_lt_Some).
    rewrite He in Hj. injection Hj as <-. split; [done|]. apply cleared_ok.
  - exists x. rewrite list_lookup_insert_ne by done. auto.
Qed.

Context (z : share_mode_lease) (Hz : leases d !! (length (leases d) - 1)%nat = Some z).
Context (Hlease : op_type e = LEASE_OPLOCK).
Context (Hunused : lease_used_by_other i (lease_idx e) (<[i := cleared]> (share_modes d)) = false).

(** The lease goes, and the last one moves. *)
Lemma remove_lease_moved d' :
  share_modes d' = (fun x => if lease_idx x =? Z.of_nat (length (leases d) - 1)
                             then set_lease_idx (lease_idx e) x else x)
                     <$> <[i := cleared]> (share_modes d) ->
  leases d' = take (length (leases d) - 1) (<[Z.to_nat (lease_idx e) := z]> (leases d)) ->
  wf d' /\ opens d' = alter clear_oplock i (opens d).
Proof using He Hwf Hz Hlease Hunused.
  intros Hm Hl. destruct Hwf as [Hw Hls]. destruct (Hw i e He) as [Hi _].
  pose proof (wf_indexed_lease _ _ Hi Hlease) as Hr. pose proof max_leases_lt as Hmax.
  apply wf_opens_alter; rewrite ?Hm, ?Hl.
  { by rewrite length_fmap, length_insert. }
  { apply (wf_leases_submseteq (leases d)); [|done]. apply swap_last_submseteq; [lia | done]. }
  intros j x Hj. destruct (Hw j x Hj) as [_ Hx].
  rewrite list_lookup_fmap. destruct (decide (j = i)) as [->|Hne].
  - rewrite list_lookup_insert_eq by (by eapply lookup_lt_Some). cbn [fmap option_fmap option_map].
    eexists; split; [done|]. replace (lease_idx cleared =? _) with false.
    + rewrite He in Hj. injection Hj as <-. apply cleared_ok.
    + symmetry. apply Z.eqb_neq. change (lease_idx cleared) with UINT32_MAX. destruct Hls as [? _]. lia.
  - rewrite list_lookup_insert_ne, Hj by done. cbn. eexists; split; [done|].
    apply reindex_entry; auto.
    intros Ex. apply (lease_used_by_other_spec _ _ _ Hunused j); [|done|].
    + by rewrite list_lookup_insert_ne by done.
    + destruct (Hx Hne) as [_ Hst]. rewrite Ex in Hst. apply Hst.
Qed.

Lemma moved_released d' :
  leases d' = take (length (leases d) - 1) (<[Z.to_nat (lease_idx e) := z]> (leases d)) ->
  released i d d'.
Proof using He Hwf Hz Hlease.
  intros Hl l Hin. destruct Hwf as [Hw (_ & Hnd & _)]. destruct (Hw i e He) as [Hi _].
  pose proof (wf_indexed_lease _ _ Hi Hlease) as Hr. rewrite Hl in Hin. split.
  { eapply elem_of_submseteq; [apply Hin|]. apply swap_last_submseteq; [lia | done]. }
  rewrite opens_lookup, He. cbn. unfold lease_of. rewrite Hlease. cbn. intros Hidx.
  exfalso. apply list_elem_of_lookup in Hin as [k Hk].
  pose proof (lookup_lt_Some _ _ _ Hk) as Hlt. rewrite length_take, length_insert in Hlt.
  rewrite lookup_take_lt in Hk by lia.
  assert (exists k', k' <> Z.to_nat (lease_idx e) /\ leases d !! k' = Some l) as (k' & Hne & Hk').
  { destruct (decide (k = Z.to_nat (lease_idx e))) as [->|Hne].
    - rewrite list_lookup_insert_eq in Hk by lia. injection Hk as <-.
      exists (length (leases d) - 1)%nat. split; [lia | done].
    - rewrite list_lookup_insert_ne in Hk by done. eauto. }
  apply Hne, (NoDup_lookup _ _ _ (lease_id l) Hnd); rewrite list_lookup_fmap.
  - by rewrite Hk'.
  - by rewrite Hidx.
Qed.
End remove_lease.

Lemma lease_used_by_other_true i idx l :
  lease_used_by_other i idx l = true ->
  exists j x, l !! j = Some x /\ j <> i /\ stale x = false /\ lease_idx x = idx.
Proof.
  intros H. apply existsb_exists in H as (j & _ & H). destruct (l !! j) as [x|] eqn:E; [|done].
  apply andb_true_iff in H as [[Hs Hj]%andb_true_iff Hx]. exists j, x. repeat split; [done| | |].
  - by apply Nat.eqb_neq, negb_true_iff.
  - by apply negb_true_iff.
  - by apply Z.eqb_eq.
Qed.

Lemma kept_released d d' i e :
  share_modes d !! i = Some e -> wf_except i d -> leases d' = leases d ->
  (op_type e = LEASE_OPLOCK ->
   lease_used_by_other i (lease_idx e)
     (<[i := set_lease_idx UINT32_MAX (set_op_type NO_OPLOCK e)]> (share_modes d)) = true) ->
  released i d d'.
Proof.
  intros He [Hw (Hb & _)] Hl Hu l Hin. rewrite Hl in Hin. split; [done|].
  rewrite opens_lookup, He. cbn. unfold lease_of. destruct (Z.eqb_spec (op_type e) LEASE_OPLOCK) as [E|]; [|done].
  intros Hidx. destruct (lease_used_by_other_true _ _ _ (Hu E)) as (j & x & Hx & Hne & Hs & Hxi).
  rewrite list_lookup_insert_ne in Hx by done. exists j, (view (leases d) x).
  destruct (Hw i e He) as [Hi _]. pose proof (wf_indexed_lease _ _ Hi E).
  destruct (Hw j x Hx) as [Hj _]. pose proof max_leases_lt.
  rewrite opens_lookup, Hx. repeat split; [done | done |]. cbn. unfold lease_of.
  destruct (Z.eqb_spec (op_type x) LEASE_OPLOCK) as [_|Hn]; [by rewrite Hxi|].
  pose proof (wf_indexed_idx _ _ Hj Hn). lia.
Qed.

Lemma alter_lookup_insert {A} (f : A -> A) i (l : list A) x :
  l !! i = Some x -> alter f i l = <[i := f x]> l.
Proof.
  intros H. apply list_eq. intros j. destruct (decide (j = i)) as [->|Hne].
  - rewrite list_lookup_alter_eq, H, list_lookup_insert_eq; [done | by eapply lookup_lt_Some].
  - by rewrite list_lookup_alter_ne, list_lookup_insert_ne by done.
Qed.

(** [remove_share_mode_lease] takes the oplock or lease away from one open, and
    from no other. *)
Lemma remove_share_mode_lease_spec pf env i d e :
  share_modes d !! i = Some e -> wf_except i d ->
  triple pf env (fun d0 => d0 = d) (remove_share_mode_lease i)
    (fun _ d' => wf d' /\ opens d' = alter clear_oplock i (opens d) /\ released i d d' /\
                 delete_tokens d' = delete_tokens d /\ modified d' = true).
Proof.
  intros He Hwf. unfold remove_share_mode_lease.
  apply triple_data_at. eapply triple_index; [done|]. do 2 apply triple_update_at.
  destruct (Hwf) as [Hw _]. destruct (Hw i e He) as [Hi _].
  assert (Hset : alter (set_op_type NO_OPLOCK) i (share_modes d) = <[i := set_op_type NO_OPLOCK e]> (share_modes d))
    by by apply alter_lookup_insert.
  destruct (Z.eqb_spec (op_type e) LEASE_OPLOCK) as [E|E]; cbn [negb]; cycle 1.
  { apply triple_ret_at. pose proof (wf_indexed_idx _ _ Hi E) as Hidx.
    assert (Hc : set_op_type NO_OPLOCK e = set_lease_idx UINT32_MAX (set_op_type NO_OPLOCK e))
      by (unfold set_lease_idx; cbn; by rewrite <- Hidx).
    rewrite Hc in Hset.
    destruct (remove_lease_kept d i e He Hwf (set_modified (change_entry i (set_op_type NO_OPLOCK) d))
                Hset eq_refl) as [? ?].
    split_and!; [done | done | | done | done]. by apply (kept_released d _ i e). }
  pose proof (wf_indexed_lease _ _ Hi E) as Hr.
  apply triple_update_at, triple_data_at.
  set (d1 := change_entry i (set_lease_idx UINT32_MAX) (set_modified (change_entry i (set_op_type NO_OPLOCK) d))).
  assert (Hm : share_modes d1 = <[i := set_lease_idx UINT32_MAX (set_op_type NO_OPLOCK e)]> (share_modes d)).
  { unfold d1. cbn. rewrite Hset, (alter_lookup_insert _ _ _ (set_op_type NO_OPLOCK e)).
    - apply list_insert_insert_eq.
    - apply list_lookup_insert_eq. by eapply lookup_lt_Some. }
  destruct (lease_used_by_other i (lease_idx e) (share_modes d1)) eqn:Hu; rewrite Hm in Hu.
  - apply triple_ret_at. destruct (remove_lease_kept d i e He Hwf d1 Hm eq_refl) as [? ?].
    split_and!; [done | done | by apply (kept_released d d1 i e) | done | done].
  - change (leases d1) with (leases d).
    destruct (lookup_lt_is_Some_2 (leases d) (Z.to_nat (lease_idx e))) as [l Hl]; [lia|].
    destruct (lookup_lt_is_Some_2 (leases d) (length (leases d) - 1)) as [z Hz]; [lia|].
    eapply triple_index; [done|]. eapply triple_index; [done|]. do 2 apply triple_update_at.
    apply triple_tell. intros ? ->. cbn [share_modes leases with_entries with_leases]. rewrite Hm.
    match goal with |- wf ?d' /\ _ =>
      destruct (remove_lease_moved d i e He Hwf z Hz E Hu d' eq_refl eq_refl) as [? ?] end.
    split_and!; [done | done | | done | done]. by apply (moved_released d i e He Hwf z Hz E).
Qed.

Lemma released_used d d' i f :
  (forall l, l ∈ leases d -> exists j o, opens d !! j = Some o /\ (j <> i -> stale (so_entry o) = false) /\ so_lease o = Some l) ->
  released i d d' -> opens d' = alter f i (opens d) -> used d'.
Proof.
  intros Hu Hr Ho l Hl. destruct (Hr l Hl) as [Hin Hi]. destruct (Hu l Hin) as (j & o & Hj & Hs & Hol).
  destruct (decide (j = i)) as [->|Hne].
  - destruct Hi as (k & o' & Hk & Hko & Hs' & Hl'); [by rewrite Hj; cbn|].
    exists k, o'. by rewrite Ho, list_lookup_alter_ne by done.
  - exists j, o. rewrite Ho, list_lookup_alter_ne by done. auto.
Qed.

(** An open whose owner is gone. *)
Definition mark_stale (o : sopen) : sopen := Sopen (set_stale (set_op_type NO_OPLOCK (so_entry o))) None.

Definition gone (env : share_env) (o : sopen) : bool := negb (serverid_exists env (e_pid (so_entry o))).

Lemma alter_view ls (i : nat) f (l : list share_mode_entry) e (g : sopen -> sopen) :
  l !! i = Some e -> view ls (f e) = g (view ls e) ->
  view ls <$> alter f i l = alter g i (view ls <$> l).
Proof.
  intros He Hv. rewrite (alter_lookup_insert _ _ _ _ He), list_fmap_insert, Hv.
  symmetry. apply alter_lookup_insert. by rewrite list_lookup_fmap, He.
Qed.

Section stale_pid.
Context (d : share_mode_data) (i : nat) (e : share_mode_entry) (ts : list delete_token).
Context (He : share_modes d !! i = Some e) (Hwf : wf d) (Hs : stale e = false).

(** The record when the entry has been marked. *)
Let d1 := with_tokens ts (change_entry i set_stale d).

Lemma marked_lookup : share_modes d1 !! i = Some (set_stale e).
Proof using He. unfold d1. cbn. by rewrite list_lookup_alter_eq, He. Qed.

Lemma marked_opens : opens d1 = alter (fun o => Sopen (set_stale (so_entry o)) (so_lease o)) i (opens d).
Proof using He. by apply (alter_view _ _ _ _ e). Qed.

Lemma marked_wf : wf_except i d1.
Proof using He Hwf.
  split; [|apply Hwf]. intros j x Hj. unfold d1 in Hj. cbn in Hj.
  destruct (decide (j = i)) as [->|Hne].
  - rewrite list_lookup_alter_eq, He in Hj. injection Hj as <-.
    pose proof (wf_entry_indexed _ _ (wf_lookup _ _ _ Hwf He)). done.
  - rewrite list_lookup_alter_ne in Hj by done. pose proof (wf_lookup _ _ _ Hwf Hj).
    split; [by apply wf_entry_indexed | done].
Qed.

Lemma marked_used l :
  used d -> l ∈ leases d1 ->
  exists j o, opens d1 !! j = Some o /\ (j <> i -> stale (so_entry o) = false) /\ so_lease o = Some l.
Proof using He.
  intros Hu Hl. destruct (Hu l Hl) as (j & o & Hj & Hs' & Ho). rewrite marked_opens.
  destruct (decide (j = i)) as [->|Hne].
  - exists i, (Sopen (set_stale (so_entry o)) (so_lease o)). split_and!; [|done|done].
    rewrite list_lookup_alter_eq. by rewrite Hj.
  - exists j, o. rewrite list_lookup_alter_ne by done. auto.
Qed.

Lemma remove_marked pf env :
  triple pf env (fun d0 => d0 = d1) (remove_share_mode_lease i)
    (fun _ d' => wf d' /\ (used d -> used d') /\ opens d' = alter mark_stale i (opens d)).
Proof using He Hwf.
  eapply triple_conseq; [apply (remove_share_mode_lease_spec pf env i d1 _ marked_lookup marked_wf) | done |].
  intros _ d' (Hwf' & Ho & Hr & _). split_and!; [done | |].
  - intros Hu. eapply released_used; [|done|done]. intros l Hl. by apply marked_used.
  - by rewrite Ho, marked_opens, list_alter_alter_eq.
Qed.
End stale_pid.

Lemma with_own_tokens d : with_tokens (delete_tokens d) d = d.
Proof. by destruct d. Qed.

(** [share_mode_stale_pid] tells whether the open is stale, and marks it when its
    owner is gone. *)
Lemma share_mode_stale_pid_spec pf env i d e :
  wf d -> share_modes d !! i = Some e ->
  triple pf env (fun d0 => d0 = d) (share_mode_stale_pid i)
    (fun b d' => wf d' /\ (used d -> used d') /\
                 b = stale e || negb (serverid_exists env (e_pid e)) /\
                 opens d' = (if b && negb (stale e) then alter mark_stale i (opens d) else opens d)).
Proof.
  intros Hwf He. unfold share_mode_stale_pid. apply triple_data_at.
  pose proof (lookup_lt_Some _ _ _ He) as Hlt.
  destruct (Nat.ltb_spec (length (share_modes d)) i); [lia|]. eapply triple_index; [done|].
  destruct (stale e) eqn:Hs; [by apply triple_ret_at|]. apply triple_ask.
  destruct (serverid_exists env (e_pid e)) eqn:Hp; [by apply triple_ret_at|].
  apply triple_update_at, triple_data_at.
  eapply (triple_bind _ _ _ (fun _ d' => exists ts, d' = with_tokens ts (change_entry i set_stale d))).
  { case_match; [apply triple_update; intros ? ->; eauto|].
    apply triple_ret_at. exists (delete_tokens d). by destruct d. }
  intros _. apply triple_pre. intros d1 [ts ->].
  eapply triple_bind; [by apply (remove_marked d i e ts)|]. intros []. cbn beta.
  eapply (triple_bind _ _ _ (fun _ d' => wf d' /\ (used d -> used d') /\ opens d' = alter mark_stale i (opens d))).
  { by apply triple_update. }
  intros _. apply triple_ret. intros d' (? & ? & ?). by split_and!.
Qed.

(** ** Looking through the opens

    What a loop with [share_mode_stale_pid] does to the opens: some whose owner is
    gone are marked. *)
Definition weeded_open (env : share_env) (o o' : sopen) : Prop :=
  o' = o \/ (stale (so_entry o) = false /\ gone env o = true /\ o' = mark_stale o).

Definition weeded (env : share_env) : list sopen -> list sopen -> Prop := Forall2 (weeded_open env).

Lemma weeded_refl env os : weeded env os os.
Proof. induction os; constructor; [by left | done]. Qed.

Lemma weeded_trans env os1 os2 os3 : weeded env os1 os2 -> weeded env os2 os3 -> weeded env os1 os3.
Proof.
  intros H1. revert os3. induction H1 as [|a b os1 os2 Ha _ IH]; intros os3 H3.
  - inversion H3. constructor.
  - apply Forall2_cons_inv_l in H3 as (c & os3' & Hc & H3 & ->). constructor; [|by apply IH].
    destruct Ha as [->|(? & ? & ->)], Hc as [->|(Hs & ? & ->)]; [by left | by right | by right | done].
Qed.

Lemma weeded_mark env os i o :
  os !! i = Some o -> stale (so_entry o) = false -> gone env o = true ->
  weeded env os (alter mark_stale i os).
Proof.
  intros Ho Hs Hg. apply Forall2_lookup. intros j. destruct (decide (j = i)) as [->|Hne].
  - rewrite list_lookup_alter_eq, Ho. constructor. by right.
  - rewrite list_lookup_alter_ne by done. destruct (os !! j); constructor. by left.
Qed.

(** Facts about the opens that are not stale survive. *)
Definition active (F : sopen -> Prop) (o : sopen) : Prop := stale (so_entry o) = true \/ F o.

Lemma weeded_active env F o o' : weeded_open env o o' -> active F o -> active F o'.
Proof. intros [->|(_ & _ & ->)] H; [done | by left]. Qed.

Lemma weeded_lookup env os os' i o' :
  weeded env os os' -> os' !! i = Some o' -> exists o, os !! i = Some o /\ weeded_open env o o'.
Proof. intros H Ho. apply (Forall2_lookup_r _ _ _ _ _ H Ho). Qed.

Lemma weeded_Forall env F os os' : weeded env os os' -> Forall (active F) os -> Forall (active F) os'.
Proof.
  intros H HF. apply Forall_lookup. intros i o' Ho'. destruct (weeded_lookup _ _ _ _ _ H Ho') as (o & Ho & Hw).
  apply (weeded_active _ _ _ _ Hw). by apply (proj1 (Forall_lookup _ _) HF i).
Qed.

(** The record during such a loop: the opens were [os] at the start. *)
Definition weeding (env : share_env) (u : Prop) (os : list sopen) (d : share_mode_data) : Prop :=
  wf d /\ (u -> used d) /\ weeded env os (opens d).

Lemma weeding_length env u os d : weeding env u os d -> length (share_modes d) = length os.
Proof. intros (_ & _ & H). rewrite <- length_opens. symmetry. by apply Forall2_length in H. Qed.

Lemma weeding_trans env u os d d' : weeding env u os d -> weeding env u (opens d) d' -> weeding env u os d'.
Proof. intros (_ & _ & H) (? & ? & ?). split_and!; [done..|]. by eapply weeded_trans. Qed.

Lemma weeding_refl env d : wf d -> weeding env (used d) (opens d) d.
Proof. intros H. split_and!; [done | done | apply weeded_refl]. Qed.

Lemma share_mode_stale_pid_weeding pf env u os i d e :
  weeding env u os d -> share_modes d !! i = Some e ->
  triple pf env (fun d0 => d0 = d) (share_mode_stale_pid i)
    (fun b d' => weeding env u os d' /\ weeded env (opens d) (opens d') /\
       if b then exists o, opens d' !! i = Some o /\ stale (so_entry o) = true else opens d' = opens d).
Proof.
  intros Hd He. pose proof Hd as (Hwf & Hu & Hos).
  eapply triple_conseq; [apply (share_mode_stale_pid_spec pf env i d e Hwf He) | done |].
  intros b d' (Hwf' & Hu' & Hb & Ho). assert (Hi : opens d !! i = Some (view (leases d) e))
    by by rewrite opens_lookup, He.
  assert (Hw : weeded env (opens d) (opens d')).
  { rewrite Ho. destruct (b && negb (stale e)) eqn:E; [|apply weeded_refl].
    apply andb_true_iff in E as [E1 E2%negb_true_iff]. rewrite E1, E2 in Hb. cbn in Hb.
    eapply weeded_mark; [done | done |]. by rewrite Hb. }
  split_and!; [split_and!; [done | auto | by eapply weeded_trans] | done |].
  rewrite Ho. destruct b; [|done]. cbn. destruct (stale e) eqn:Es; cbn.
  - eauto.
  - rewrite list_lookup_alter_eq, Hi. eexists. split; [done|]. done.
Qed.
