(* ===== verification/ShareOps.v ===== *)
(** * What the share mode operations do to the opens of a record

    Each operation of ShareModel that looks through the record or changes it,
    described on the view of ShareView: the checks of source3/smbd/open.c tell
    what holds of every open that is not stale, the others which open is added,
    changed or removed. *)

From S2P Require Import Prelude.
From S2P Require Import ServerId.
From S2P Require Import DomSid.
From S2P Require Import SecModel.
From S2P Require Import ShareModel.
From S2P Require Import ShareView.
From stdpp Require Import prelude list.

#[local] Open Scope Z_scope.

Definition open_stale (o : sopen) : bool := stale (so_entry o).

(** ** Checks *)

Lemma is_valid_spec pf env n P e :
  wf_entry n e ->
  triple pf env P (is_valid_share_mode_entry e) (fun b d => b = negb (stale e) /\ P d).
Proof.
  intros [Ht _]. unfold is_valid_share_mode_entry. destruct (stale e); [by apply triple_ret|].
  apply triple_ask. unfold oplock_types in Ht.
  repeat (apply elem_of_cons in Ht as [->|Ht]; [cbn; by apply triple_ret|]).
  by apply elem_of_nil in Ht.
Qed.

Lemma weeding_entry env u os d i :
  weeding env u os d -> (i < length os)%nat ->
  exists e, share_modes d !! i = Some e /\ wf_entry (length (leases d)) e /\
            opens d !! i = Some (view (leases d) e).
Proof.
  intros Hd Hi. destruct (lookup_lt_is_Some_2 (share_modes d) i) as [e He].
  { by rewrite (weeding_length _ _ _ _ Hd). }
  exists e. split_and!; [done | eapply wf_lookup; [apply Hd | done] |]. by rewrite opens_lookup, He.
Qed.

(** The opens before number [k] have been checked. *)
Definition checked (F : sopen -> Prop) (k : nat) (d : share_mode_data) : Prop :=
  Forall (active F) (take k (opens d)).

Lemma checked_weeded env F k d d' : weeded env (opens d) (opens d') -> checked F k d -> checked F k d'.
Proof.
  intros Hw. apply (weeded_Forall env). by apply Forall2_take.
Qed.

Lemma checked_S F k d o : opens d !! k = Some o -> active F o -> checked F k d -> checked F (S k) d.
Proof. intros Ho Ha H. unfold checked. rewrite (take_S_r _ _ _ Ho). apply Forall_app. split; [done | by constructor]. Qed.

Lemma checked_all F d n : length (opens d) = n -> checked F n d -> Forall (active F) (opens d).
Proof. intros <-. unfold checked. by rewrite firstn_all. Qed.

Definition conflicts (access_mask share_access : Z) (o : sopen) : Prop :=
  share_conflict (so_entry o) access_mask share_access = true.

Lemma share_conflict_view ls e am sa :
  share_conflict (so_entry (view ls e)) am sa = share_conflict e am sa.
Proof. done. Qed.

Section open_mode_check.
Context (pf : Prop) (env : share_env) (u : Prop) (os : list sopen) (am sa : Z).

Lemma open_mode_check_body (i : nat) (c : unit) :
  (i < length os)%nat ->
  triple pf env (fun d => weeding env u os d /\ checked (fun o => ~ conflicts am sa o) i d)
    (d ← data;
     e ← index (share_modes d) i;
     valid ← is_valid_share_mode_entry e;
     if negb valid then mret (Next tt)
     else if share_conflict e am sa then
       is_stale ← share_mode_stale_pid i;
       mret (if is_stale : bool then Next tt else Return tt)
     else mret (Next tt))
    (fun c d => weeding env u os d /\
       match c with Next _ => checked (fun o => ~ conflicts am sa o) (S i) d | Return _ => True end).
Proof.
  intros Hi. apply triple_data. intros d [Hd Hc].
  destruct (weeding_entry _ _ _ _ _ Hd Hi) as (e & He & Hwe & Ho).
  eapply triple_index; [done|].
  eapply triple_bind; [by apply (is_valid_spec pf env _ _ e Hwe)|].
  intros b. apply triple_pre. intros d1 [-> ->]. rewrite negb_involutive.
  destruct (stale e) eqn:Es.
  { apply triple_ret_at. split; [done|]. eapply checked_S; [done | by left | done]. }
  destruct (share_conflict e am sa) eqn:Ec; cycle 1.
  { apply triple_ret_at. split; [done|]. eapply checked_S; [done | | done].
    right. unfold conflicts. by rewrite share_conflict_view, Ec. }
  eapply triple_bind; [by apply (share_mode_stale_pid_weeding pf env u os i d e)|].
  intros is_stale. apply triple_ret. intros d' (Hd' & Hw & H). split; [done|].
  destruct is_stale; [|done]. destruct H as (o & Ho' & Hs).
  eapply checked_S; [done | by left |]. by eapply checked_weeded.
Qed.

Lemma open_mode_check_spec :
  triple pf env (weeding env u os) (open_mode_check am sa)
    (fun status d => weeding env u os d /\
       (status = NT_STATUS_OK \/ status = NT_STATUS_SHARING_VIOLATION) /\
       (status = NT_STATUS_OK -> is_stat_open am = true \/ Forall (active (fun o => ~ conflicts am sa o)) (opens d))).
Proof.
  apply triple_data. intros d Hd. pose proof (weeding_length _ _ _ _ Hd) as Hlen.
  destruct (Nat.eqb_spec (length (share_modes d)) 0) as [E|E].
  { apply triple_ret_at. split_and!; [done | by left |]. intros _. right.
    apply nil_length_inv in E. unfold opens. rewrite E. constructor. }
  destruct (is_stat_open am); [apply triple_ret_at; auto|].
  eapply triple_bind.
  { eapply triple_conseq; [eapply (triple_for_entries _ (length os)
      (fun i _ d => weeding env u os d /\ checked (fun o => ~ conflicts am sa o) i d)
      (fun _ d => weeding env u os d) tt) | |].
    - intros d' [Hd' _]. by apply (weeding_length _ _ _ _ Hd').
    - intros i c Hi. eapply triple_conseq; [by apply open_mode_check_body | done |].
      intros [[]|[]] d'; naive_solver.
    - intros d' ->. split; [done|]. unfold checked. constructor.
    - intros c d' H. apply H. }
  intros [[]|[]]; apply triple_ret; intros d' H; [destruct H as [Hd' Hc]|].
  - split_and!; [done | by left |]. intros _. right. eapply checked_all; [|done].
    rewrite length_opens. by apply (weeding_length _ _ _ _ Hd').
  - split_and!; [done | by right |]. done.
Qed.
End open_mode_check.

(** ** Removing entries *)

(** Overwriting an entry with the last one and dropping this removes it. *)
Lemma delete_entry_permutation {A} (l : list A) i e : l !! i = Some e -> l ≡ₚ e :: delete_entry i l.
Proof.
  intros He. unfold delete_entry. destruct (last l) as [z|] eqn:Hz; cycle 1.
  { apply last_None in Hz. by subst. }
  apply last_Some in Hz as [k ->]. destruct (decide (i < length k)%nat) as [Hi|Hi].
  - rewrite lookup_app_l in He by done. rewrite insert_app_l by done. rewrite removelast_last.
    rewrite <- (take_drop_middle _ _ _ He) at 1. rewrite insert_take_drop by done.
    rewrite <- (assoc (++)), (Permutation_app_comm _ [z]), app_assoc. solve_Permutation.
  - pose proof (lookup_lt_Some _ _ _ He) as Hlt. rewrite length_app in Hlt. cbn in Hlt.
    assert (i = length k) as -> by lia. rewrite list_lookup_middle in He by done. injection He as <-.
    replace (length k) with (length k + 0)%nat by lia. rewrite insert_app_r. cbn.
    rewrite removelast_last. symmetry. apply Permutation_cons_append.
Qed.

Lemma filter_all {A} (P : A -> Prop) `{!forall x, Decision (P x)} (l : list A) :
  Forall P l -> filter P l = l.
Proof. induction 1 as [|x l Hx _ IH]; [done|]. by rewrite filter_cons_True, IH. Qed.

Lemma remove_stale_loop_filter fuel i m :
  (length m - i <= fuel)%nat -> Forall (fun e => stale e = false) (take i m) ->
  remove_stale_loop fuel i m ≡ₚ filter (fun e => stale e = false) m.
Proof.
  revert i m. induction fuel as [|fuel IH]; intros i m Hf Hp; cbn [remove_stale_loop].
  { rewrite take_ge in Hp by lia. by rewrite filter_all. }
  destruct (m !! i) as [e|] eqn:He; cycle 1.
  { apply lookup_ge_None in He. rewrite take_ge in Hp by done. by rewrite filter_all. }
  destruct (last m) as [z|] eqn:Hz; [|apply last_None in Hz; by subst].
  destruct (stale e) eqn:Hs; cycle 1.
  { apply IH; [lia|]. rewrite (take_S_r _ _ _ He). apply Forall_app. by split; [|constructor]. }
  pose proof (delete_entry_permutation m i e He) as Hd. unfold delete_entry in Hd. rewrite Hz in Hd.
  pose proof (lookup_lt_Some _ _ _ He) as Hi. pose proof (Permutation_length Hd) as Hlen. cbn in Hlen.
  rewrite IH.
  - rewrite Hd at 2. rewrite filter_cons_False by congruence. done.
  - lia.
  - apply Forall_lookup. intros j x Hj. apply lookup_take_Some in Hj as [Hj Hlt].
    assert (Hjm : m !! j = Some x).
    { rewrite removelast_firstn_len in Hj. apply lookup_take_Some in Hj as [Hj _].
      by rewrite list_lookup_insert_ne in Hj by lia. }
    apply (proj1 (Forall_lookup _ _) Hp j). by rewrite lookup_take_lt.
Qed.

(** [d'] is [d] without the opens [k]; all leases of the table are still in use. *)
Definition without (k : list sopen) (d d' : share_mode_data) : Prop :=
  wf d' /\ (used d -> used d') /\ opens d ≡ₚ k ++ opens d'.

Lemma used_permuted d d' k :
  leases d' = leases d -> opens d ≡ₚ k ++ opens d' -> Forall (fun o => open_stale o = true) k ->
  used d -> used d'.
Proof.
  intros Hl Hp Hk Hu l Hin. rewrite Hl in Hin. destruct (Hu l Hin) as (j & o & Hj & Hs & Ho).
  assert (Hin' : o ∈ k ++ opens d') by (rewrite <- Hp; by eapply list_elem_of_lookup_2).
  apply elem_of_app in Hin' as [Hin'|Hin'].
  - rewrite Forall_forall in Hk. specialize (Hk o Hin'). unfold open_stale in Hk. congruence.
  - apply list_elem_of_lookup in Hin' as [j' Hj']. eauto.
Qed.

Lemma without_stale d d' (m : list share_mode_entry) :
  wf d -> leases d' = leases d -> share_modes d ≡ₚ m ++ share_modes d' ->
  Forall (fun e => stale e = true) m -> without (view (leases d) <$> m) d d'.
Proof.
  intros [He Hls] Hl Hp Hm. assert (Ho : opens d ≡ₚ (view (leases d) <$> m) ++ opens d').
  { unfold opens. by rewrite Hp, fmap_app, Hl. }
  split_and!; [| |done].
  - split; rewrite Hl; [|done]. rewrite Hp in He. by apply Forall_app in He as [_ He].
  - apply (used_permuted _ _ _ Hl Ho). by apply Forall_fmap.
Qed.

(** [remove_stale_share_mode_entries] removes the stale opens. *)
Lemma remove_stale_spec d :
  wf d -> exists k, Forall (fun o => open_stale o = true) k /\
  without k d (remove_stale_share_mode_entries d) /\
  Forall (fun o => open_stale o = false) (opens (remove_stale_share_mode_entries d)).
Proof.
  intros Hwf. set (m := share_modes d).
  assert (Hf : remove_stale_loop (length m) 0 m ≡ₚ filter (fun e => stale e = false) m)
    by (apply remove_stale_loop_filter; [lia | constructor]).
  exists (view (leases d) <$> filter (fun e => stale e <> false) m). split_and!.
  - apply Forall_fmap, Forall_forall. intros e He. apply list_elem_of_filter in He as [He _].
    by apply not_false_iff_true.
  - apply without_stale; [done | done | |].
    + cbn. fold m. rewrite Hf, Permutation_app_comm. symmetry. apply filter_app_complement.
    + apply Forall_forall. intros e He. apply list_elem_of_filter in He as [He _].
      by apply not_false_iff_true.
  - unfold opens. cbn. fold m. rewrite Hf. apply Forall_fmap, Forall_forall. intros e He.
    by apply list_elem_of_filter in He as [He _].
Qed.

(** The entry of an open file. *)
Definition owned (fsp : share_fsp) (e : share_mode_entry) : bool :=
  negb (stale e) && server_id_equal (fsp_pid fsp) (e_pid e) && (fsp_gen_id fsp =? share_file_id e).

Lemma find_share_mode_entry_spec pf env fsp d :
  wf d ->
  triple pf env (fun d0 => d0 = d) (find_share_mode_entry fsp)
    (fun r d' => d' = d /\
       match r with
       | Some i => exists e, share_modes d !! i = Some e /\ owned fsp e = true
       | None => Forall (fun e => owned fsp e = false) (share_modes d)
       end).
Proof.
  intros Hwf. unfold find_share_mode_entry. eapply triple_bind.
  - eapply triple_conseq; [eapply (triple_for_entries _ (length (share_modes d))
      (fun i _ d' => d' = d /\ Forall (fun e => owned fsp e = false) (take i (share_modes d)))
      (fun i d' => d' = d /\ exists e, share_modes d !! i = Some e /\ owned fsp e = true) tt)| |].
    + by intros d' [-> _].
    + intros i [] Hi. apply triple_data. intros d' [-> Hc].
      destruct (lookup_lt_is_Some_2 _ _ Hi) as [e He]. eapply triple_index; [done|].
      eapply triple_bind; [apply (is_valid_spec pf env _ _ e (wf_lookup _ _ _ Hwf He))|].
      intros b. apply triple_ret. intros d' [-> ->].
      assert (Hn : owned fsp e = false -> Forall (fun e => owned fsp e = false) (take (S i) (share_modes d))).
      { intros Hf. rewrite (take_S_r _ _ _ He). apply Forall_app. split; [done | by constructor]. }
      destruct (owned fsp e) eqn:Ew; pose proof Ew as Eo; unfold owned in Eo.
      * apply andb_true_iff in Eo as [[-> ->]%andb_true_iff ->]. cbn. eauto.
      * destruct (stale e), (server_id_equal _ _), (_ =? _); cbn in *; (done || by split; [|apply Hn]).
    + intros d' ->. split; [done | constructor].
    + intros c d' H. apply H.
  - intros [[]|i]; apply triple_ret; intros d' H; [|done]. rewrite firstn_all in H. done.
Qed.

Lemma wf_shrink d d' :
  wf d -> leases d' = leases d -> share_modes d' ⊆+ share_modes d -> wf d'.
Proof.
  intros [He Hl] E Hs. split; rewrite E; [|done]. apply Forall_forall. intros e Hin.
  rewrite Forall_forall in He. apply He. by eapply elem_of_submseteq.
Qed.

(** ** Changing the record *)

Lemma permutation_swap {A} (l : list A) i x y k :
  l !! i = Some x -> <[i := y]> l ≡ₚ y :: k -> l ≡ₚ x :: k.
Proof.
  intros Hx Hp. assert (Hy : <[i := y]> l !! i = Some y)
    by (apply list_lookup_insert_eq; by eapply lookup_lt_Some).
  rewrite (delete_Permutation _ _ _ Hy) in Hp. apply (inj (cons y)) in Hp.
  rewrite (delete_Permutation _ _ _ Hx). f_equiv. rewrite <- Hp.
  by rewrite !delete_take_drop, take_insert_ge, drop_insert_lt by lia.
Qed.

(** [del_share_mode] removes the open file's entry, and its lease with the last
    entry that has it. *)
Lemma del_share_mode_spec pf env fsp d :
  wf d ->
  triple pf env (fun d0 => d0 = d) (del_share_mode fsp)
    (fun b d' => if b then exists e, e ∈ share_modes d /\ owned fsp e = true /\
                             without [view (leases d) e] d d'
                 else d' = d /\ Forall (fun e => owned fsp e = false) (share_modes d)).
Proof.
  intros Hwf. unfold del_share_mode. eapply triple_bind; [by apply find_share_mode_entry_spec|].
  intros [i|]; apply triple_pre; intros ? [-> H]; [|by apply triple_ret_at].
  destruct H as (e & He & Hown). eapply triple_bind.
  { by apply (remove_share_mode_lease_spec pf env i d e He), wf_wf_except. }
  intros []. cbn beta. apply triple_pre. intros d1 (Hwf1 & Ho1 & Hr & _). do 2 apply triple_update_at.
  apply triple_ret_at. exists e.
  assert (Hd1 : opens d1 = <[i := clear_oplock (view (leases d) e)]> (opens d)).
  { rewrite Ho1. apply alter_lookup_insert. by rewrite opens_lookup, He. }
  destruct (lookup_lt_is_Some_2 (share_modes d1) i) as [e1 He1].
  { rewrite <- length_opens, Hd1, length_insert, length_opens. by eapply lookup_lt_Some. }
  pose proof (delete_entry_permutation _ _ _ He1) as Hp.
  assert (Hv1 : view (leases d1) e1 = clear_oplock (view (leases d) e)).
  { apply (inj Some). change (Some (view (leases d1) e1)) with (view (leases d1) <$> Some e1).
    rewrite <- He1, <- opens_lookup, Hd1. apply list_lookup_insert_eq.
    rewrite length_opens. by eapply lookup_lt_Some. }
  split_and!; [by eapply list_elem_of_lookup_2 | done |]. split_and!.
  - apply (wf_shrink d1); [done | done |]. cbn. rewrite Hp at 2. by apply submseteq_cons.
  - intros Hu. assert (Hu1 : used d1).
    { apply (released_used d d1 i clear_oplock); [|done|done].
      intros l Hl. destruct (Hu l Hl) as (j & o & ? & ? & ?). eauto. }
    intros l Hl. destruct (Hu1 l Hl) as (j & o & Hj & Hs & Hol).
    assert (Hin : o ∈ opens d1) by by eapply list_elem_of_lookup_2.
    unfold opens in Hin. rewrite Hp in Hin. cbn in Hin. apply elem_of_cons in Hin as [->|Hin].
    { by rewrite Hv1 in Hol. }
    apply list_elem_of_lookup in Hin as [j' Hj']. eauto.
  - apply (permutation_swap _ i _ (clear_oplock (view (leases d) e))); [by rewrite opens_lookup, He|].
    rewrite <- Hd1, <- Hv1. apply (fmap_Permutation (view (leases d1))) in Hp. exact Hp.
Qed.

Lemma remove_share_oplock_spec pf env fsp d :
  wf d ->
  triple pf env (fun d0 => d0 = d) (remove_share_oplock fsp)
    (fun b d' => if b then exists i e, share_modes d !! i = Some e /\ owned fsp e = true /\
                             wf d' /\ (used d -> used d') /\ opens d' = alter clear_oplock i (opens d)
                 else d' = d).
Proof.
  intros Hwf. unfold remove_share_oplock. eapply triple_bind; [by apply find_share_mode_entry_spec|].
  intros [i|]; apply triple_pre; intros ? [-> H]; [|by apply triple_ret_at].
  destruct H as (e & He & Hown). eapply triple_bind.
  { by apply (remove_share_mode_lease_spec pf env i d e He), wf_wf_except. }
  intros []. cbn beta. apply triple_pre. intros d1 (Hwf1 & Ho1 & Hr & _).
  apply triple_update_at, triple_ret_at. exists i, e. split_and!; [done..| |done].
  intros Hu. apply (released_used d d1 i clear_oplock); [|done|done].
  intros l Hl. destruct (Hu l Hl) as (j & o & ? & ? & ?). eauto.
Qed.

(** A change of an entry that does not concern its lease. *)
Lemma change_entry_spec d i e (f : share_mode_entry -> share_mode_entry) (g : sopen -> sopen) :
  wf d -> share_modes d !! i = Some e -> wf_entry (length (leases d)) (f e) ->
  view (leases d) (f e) = g (view (leases d) e) ->
  so_lease (g (view (leases d) e)) = so_lease (view (leases d) e) ->
  (stale e = false -> stale (f e) = false) ->
  wf (change_entry i f d) /\ (used d -> used (change_entry i f d)) /\
  opens (change_entry i f d) = alter g i (opens d).
Proof.
  intros [Hm Hl] He Hw Hv Hle Hst.
  assert (Ho : opens (change_entry i f d) = alter g i (opens d)) by by apply (alter_view _ _ _ _ e).
  split_and!; [| |done].
  - split; [|done]. cbn. rewrite (alter_lookup_insert _ _ _ _ He). by apply Forall_insert.
  - intros Hu l Hin. destruct (Hu l Hin) as (j & o & Hj & Hs & Hol). rewrite Ho.
    destruct (decide (j = i)) as [->|Hne].
    + exists i, (g o). split; [by rewrite list_lookup_alter_eq, Hj|].
      rewrite opens_lookup, He in Hj. injection Hj as <-. rewrite <- Hv. split; [by apply Hst|].
      rewrite Hv, Hle. done.
    + exists j, o. by rewrite list_lookup_alter_ne by done.
Qed.

Definition set_open_type (t : Z) (o : sopen) : sopen := Sopen (set_op_type t (so_entry o)) (so_lease o).

Lemma downgrade_share_oplock_spec pf env fsp d :
  wf d -> Forall (fun e => owned fsp e = true -> op_type e <> LEASE_OPLOCK) (share_modes d) ->
  triple pf env (fun d0 => d0 = d) (downgrade_share_oplock fsp)
    (fun b d' => if b then exists i e, share_modes d !! i = Some e /\ owned fsp e = true /\
                             wf d' /\ (used d -> used d') /\
                             opens d' = alter (set_open_type LEVEL_II_OPLOCK) i (opens d)
                 else d' = d).
Proof.
  intros Hwf Hno. unfold downgrade_share_oplock. eapply triple_bind; [by apply find_share_mode_entry_spec|].
  intros [i|]; apply triple_pre; intros ? [-> H]; [|by apply triple_ret_at].
  destruct H as (e & He & Hown). do 2 apply triple_update_at. apply triple_ret_at.
  pose proof (proj1 (Forall_lookup _ _) Hno i e He Hown) as Hne.
  destruct (wf_lookup _ _ _ Hwf He) as [_ Hidx]. rewrite (proj2 (Z.eqb_neq _ _) Hne) in Hidx.
  exists i, e. split; [done|]. split; [done|].
  apply (change_entry_spec d i e _ (set_open_type LEVEL_II_OPLOCK)); [done | done | | | done | done].
  - split; [by do 3 right; left | done].
  - unfold view, lease_of, set_open_type. cbn. by rewrite (proj2 (Z.eqb_neq _ _) Hne).
Qed.

Lemma set_share_mode_spec pf env fsp uid mid t idx d :
  wf d -> t ∈ oplock_types ->
  (if t =? LEASE_OPLOCK then 0 <= idx < Z.of_nat (length (leases d)) else idx = UINT32_MAX) ->
  triple pf env (fun d0 => d0 = d) (set_share_mode fsp uid mid t idx)
    (fun b d' => leases d' = leases d /\
       if b then wf d' /\ opens d' = opens d ++ [view (leases d) (new_entry fsp uid mid t idx)]
       else d' = d).
Proof.
  intros [Hm Hl] Ht Hidx. unfold set_share_mode. apply triple_data_at, triple_ask.
  destruct (negb _ && _); [by apply triple_ret_at|]. destruct (negb _); [by apply triple_ret_at|].
  do 2 apply triple_update_at. apply triple_ret_at. split; [done|]. split.
  - split; [|done]. cbn. apply Forall_app. split; [done|]. constructor; [|constructor].
    split; [done|]. cbn. by case_match.
  - unfold opens. cbn. by rewrite fmap_app.
Qed.

(** ** Leases *)

Lemma memcmp_spec a b : length a = length b -> memcmp a b = 0 <-> a = b.
Proof.
  revert b. induction a as [|x a IH]; intros [|y b] Hlen; try done. cbn in *.
  destruct (Z.eqb_spec x y) as [->|Hne].
  - rewrite IH by lia. naive_solver.
  - split; [lia | congruence].
Qed.

Lemma differ_spec x y r : differ x y r = 0 <-> x = y /\ r = 0.
Proof. unfold differ. destruct (Z.eqb_spec x y); cbn; [naive_solver|]. destruct (y <? x); naive_solver. Qed.

Lemma GUID_equal_spec g1 g2 :
  length (node g1) = 6%nat -> length (node g2) = 6%nat -> GUID_equal g1 g2 = true <-> g1 = g2.
Proof.
  intros H1 H2. unfold GUID_equal, GUID_compare. rewrite Z.eqb_eq, !differ_spec, memcmp_spec by congruence.
  destruct g1 as [? ? ? [? ?] ?], g2 as [? ? ? [? ?] ?]; cbn. naive_solver.
Qed.

Lemma smb2_lease_equal_spec g k l :
  length (node g) = 6%nat -> length (node (client_guid l)) = 6%nat ->
  smb2_lease_equal g k (client_guid l) (lease_key l) = true <-> lease_id l = (g, k).
Proof.
  intros Hg Hl. unfold smb2_lease_equal, lease_id, smb2_lease_key_equal.
  rewrite !andb_true_iff, GUID_equal_spec, !Z.eqb_eq by done. destruct k, (lease_key l); cbn. naive_solver.
Qed.

Lemma find_lease_from_spec i g k ls :
  match find_lease_from i g k ls with
  | Some j => exists n l, j = (i + n)%nat /\ ls !! n = Some l /\
                smb2_lease_equal g k (client_guid l) (lease_key l) = true
  | None => Forall (fun l => smb2_lease_equal g k (client_guid l) (lease_key l) = false) ls
  end.
Proof.
  revert i. induction ls as [|x ls IH]; intros i; cbn; [constructor|].
  destruct (smb2_lease_equal _ _ _ _) eqn:E.
  { exists O, x. split_and!; [lia | done | done]. }
  specialize (IH (S i)). destruct (find_lease_from (S i) g k ls); [|by constructor].
  destruct IH as (n0 & l & -> & ? & ?). exists (S n0), l. split_and!; [lia | done | done].
Qed.

Lemma find_share_mode_lease_spec d g k :
  wf d -> length (node g) = 6%nat ->
  match find_share_mode_lease d g k with
  | Some j => exists l, leases d !! j = Some l /\ lease_id l = (g, k)
  | None => Forall (fun l => lease_id l <> (g, k)) (leases d)
  end.
Proof.
  intros [_ (_ & _ & Hg)] Hn. unfold find_share_mode_lease.
  pose proof (find_lease_from_spec 0 g k (leases d)) as H. destruct (find_lease_from 0 g k (leases d)).
  - destruct H as (j & l & -> & Hl & He). exists l. split; [done|].
    apply smb2_lease_equal_spec in He; [done | done |]. by apply (proj1 (Forall_lookup _ _) Hg j).
  - rewrite Forall_forall in *. intros l Hl Hid. apply smb2_lease_equal_spec in Hid; [|done|by apply Hg].
    specialize (H l Hl). cbn in H. congruence.
Qed.

(** The opens with the lease [l] have [l'] instead. *)
Definition replace_lease (l l' : share_mode_lease) (o : sopen) : sopen :=
  Sopen (so_entry o) (if decide (so_lease o = Some l) then Some l' else so_lease o).

Lemma alter_lease_view ls idx l l' e :
  wf_leases ls -> ls !! idx = Some l -> lease_id l' = lease_id l ->
  view (<[idx := l']> ls) e = replace_lease l l' (view ls e).
Proof.
  intros (_ & Hnd & _) Hl Hid. unfold view, replace_lease, lease_of; cbn. f_equal.
  destruct (op_type e =? LEASE_OPLOCK); [|done].
  destruct (decide (Z.to_nat (lease_idx e) = idx)) as [->|Hne].
  - rewrite list_lookup_insert_eq by (by eapply lookup_lt_Some). by rewrite decide_True.
  - rewrite list_lookup_insert_ne by done. rewrite decide_False; [done|]. intros Hl2.
    apply Hne, (NoDup_lookup _ _ _ (lease_id l) Hnd); rewrite list_lookup_fmap; [by rewrite Hl2 | by rewrite Hl].
Qed.

Lemma change_lease_spec d idx l l' :
  wf d -> leases d !! idx = Some l -> lease_id l' = lease_id l ->
  let d' := change_lease idx (fun _ => l') d in
  wf d' /\ (used d -> used d') /\ opens d' = replace_lease l l' <$> opens d.
Proof.
  intros [Hm Hls] Hl Hid d'. pose proof Hls as (Hb & Hnd & Hg).
  assert (Hd' : leases d' = <[idx := l']> (leases d)) by apply (alter_lookup_insert (fun _ => l') idx (leases d) l Hl).
  assert (Ho : opens d' = replace_lease l l' <$> opens d).
  { unfold opens. rewrite Hd', <- list_fmap_compose. apply list_fmap_ext. intros _ e _.
    by apply alter_lease_view. }
  split_and!; [| |done].
  - split; rewrite Hd', ?length_insert; [done|]. split_and!; [by rewrite length_insert| |].
    + rewrite list_fmap_insert, Hid, list_insert_id; [done|]. by rewrite list_lookup_fmap, Hl.
    + apply Forall_insert; [done|]. injection Hid as -> _. by apply (proj1 (Forall_lookup _ _) Hg idx).
  - intros Hu x Hx. rewrite Hd' in Hx. rewrite Ho.
    assert (exists y, y ∈ leases d /\ x = if decide (Some y = Some l) then l' else y) as (y & Hy & ->).
    { apply list_elem_of_lookup in Hx as [j Hj]. destruct (decide (j = idx)) as [->|Hne].
      - rewrite list_lookup_insert_eq in Hj by (by eapply lookup_lt_Some). injection Hj as <-.
        exists l. rewrite decide_True by done. split; [by eapply list_elem_of_lookup_2 | done].
      - rewrite list_lookup_insert_ne in Hj by done. exists x. split; [by eapply list_elem_of_lookup_2|].
        rewrite decide_False; [done|]. intros [= ->]. apply Hne.
        apply (NoDup_lookup _ _ _ (lease_id l) Hnd); rewrite list_lookup_fmap; [by rewrite Hj | by rewrite Hl]. }
    destruct (Hu y Hy) as (j & o & Hj & Hs & Hol). exists j, (replace_lease l l' o).
    rewrite list_lookup_fmap, Hj. split_and!; [done | done |]. cbn. rewrite Hol. by case_decide.
Qed.
