(* ===== verification/ShareGrant.v ===== *)
(** * Waiting for and granting leases

    What source3/smbd/open.c establishes before an open is stored: after
    [delay_for_oplock] no other open that counts holds a write lease, after the loop
    of [grant_fsp_oplock_type] a write lease is only granted when all other opens
    have the same lease; and what [open_share_mode] does to the opens. *)

From S2P Require Import Prelude.
From S2P Require Import ServerId.
From S2P Require Import DomSid.
From S2P Require Import SecModel.
From S2P Require Import ShareModel.
From S2P Require Import ShareView.
From S2P Require Import ShareOps.
From stdpp Require Import prelude list.

#[local] Open Scope Z_scope.

(** ** Lease types *)

(** The bits of a lease type. *)
Definition may_write (t : Z) : bool := Z.testbit t 2.

Lemma has_bit t k : 0 <= k -> has_bits t (2 ^ k) = Z.testbit t k.
Proof.
  intros Hk. unfold has_bits. destruct (Z.testbit t k) eqn:E.
  - apply negb_true_iff, Z.eqb_neq. intros H.
    assert (Z.testbit (Z.land t (2 ^ k)) k = false) as Hf by by rewrite H, Z.bits_0.
    by rewrite Z.land_spec, E, Z.pow2_bits_true in Hf.
  - apply negb_false_iff, Z.eqb_eq, Z.bits_inj'. intros n Hn.
    rewrite Z.land_spec, Z.pow2_bits_eqb, Z.bits_0 by lia.
    destruct (Z.eqb_spec k n) as [<-|]; [by rewrite E | by rewrite andb_false_r].
Qed.

Lemma has_write t : has_bits t SMB2_LEASE_WRITE = may_write t.
Proof. by apply (has_bit t 2). Qed.

Lemma may_write_clear t m : may_write (clear_bits t m) = may_write t && negb (may_write m).
Proof. apply Z.ldiff_spec. Qed.

(** What an open may do according to its oplock or lease. *)
Definition open_type (o : sopen) : Z :=
  match so_lease o with
  | Some l => current_state l
  | None => map_oplock_to_lease_type (op_type (so_entry o))
  end.

Lemma wf_lease_view d e :
  wf_entry (length (leases d)) e -> op_type e = LEASE_OPLOCK ->
  exists l, leases d !! Z.to_nat (lease_idx e) = Some l /\ so_lease (view (leases d) e) = Some l.
Proof.
  intros [_ He] E. rewrite E in He. destruct He as [_ He].
  destruct (lookup_lt_is_Some_2 (leases d) (Z.to_nat (lease_idx e))) as [l Hl]; [lia|].
  exists l. split; [done|]. cbn. unfold lease_of. by rewrite E.
Qed.

Lemma plain_view ls e : op_type e <> LEASE_OPLOCK -> so_lease (view ls e) = None.
Proof. intros E. cbn. unfold lease_of. by rewrite (proj2 (Z.eqb_neq _ _) E). Qed.

Section queries.
Context {B : Type} (pf : Prop) (env : share_env) (P : share_mode_data -> Prop) (Q : B -> share_mode_data -> Prop).
Context (d : share_mode_data) (e : share_mode_entry) (He : wf_entry (length (leases d)) e).

Lemma triple_get_lease_type (f : Z -> M B) :
  triple pf env P (f (open_type (view (leases d) e))) Q ->
  triple pf env P (get_lease_type d e ≫= f) Q.
Proof using He.
  intros H. unfold get_lease_type. destruct (Z.eqb_spec (op_type e) LEASE_OPLOCK) as [E|E].
  - destruct (wf_lease_view d e He E) as (l & Hl & Hv). unfold open_type in H. rewrite Hv in H.
    intros s Hs. specialize (H s Hs). unfold mbind, M_bind, index in *. by rewrite Hl.
  - unfold open_type in H. by rewrite plain_view in H.
Qed.

(** The lease of the request is the one of the open. *)
Definition same_lease (id : option (GUID * smb2_lease_key)) (o : sopen) : Prop :=
  exists l, so_lease o = Some l /\ id = Some (lease_id l).

Definition request_id (fsp : share_fsp) (lease : option smb2_lease) : option (GUID * smb2_lease_key) :=
  (fun l => (fsp_client_guid fsp, l_key l)) <$> lease.

Lemma triple_is_same_lease fsp lease (f : bool -> M B) :
  wf_leases (leases d) -> length (node (fsp_client_guid fsp)) = 6%nat ->
  (forall b, (b = true -> same_lease (request_id fsp lease) (view (leases d) e)) -> triple pf env P (f b) Q) ->
  triple pf env P (is_same_lease fsp d e lease ≫= f) Q.
Proof using He.
  intros (_ & _ & Hg) Hn H. unfold is_same_lease.
  destruct (Z.eqb_spec (op_type e) LEASE_OPLOCK) as [E|E]; cbn [negb]; [|by apply (H false)].
  destruct lease as [lease|]; [|by apply (H false)].
  destruct (wf_lease_view d e He E) as (l & Hl & Hv).
  intros s Hs. unfold mbind, M_bind, index, mret, M_ret. rewrite Hl. apply (H _); [|done].
  intros Heq. exists l. split; [done|].
  apply smb2_lease_equal_spec in Heq as ->; [done | done |]. by apply (proj1 (Forall_lookup _ _) Hg _ _ Hl).
Qed.
End queries.

(** ** Waiting for oplocks *)

(** The open does not stand in the way of one with the lease [id]. *)
Definition no_write (id : option (GUID * smb2_lease_key)) (o : sopen) : Prop :=
  may_write (open_type o) = false \/ same_lease id o.

Section delay.
Context (pf : Prop) (env : share_env) (u : Prop) (os : list sopen).
Context (fsp : share_fsp) (lease : option smb2_lease) (Hn : length (node (fsp_client_guid fsp)) = 6%nat).
Let F := no_write (request_id fsp lease).

(** The lease of an entry, [None] for NULL. *)
Lemma triple_entry_lease {B} P d e (f : option share_mode_lease -> M B) Q :
  wf_entry (length (leases d)) e ->
  triple pf env P (f (so_lease (view (leases d) e))) Q ->
  triple pf env P ((if op_type e =? LEASE_OPLOCK
                    then l ← index (leases d) (Z.to_nat (lease_idx e)); mret (Some l) else mret None) ≫= f) Q.
Proof.
  intros He H. destruct (Z.eqb_spec (op_type e) LEASE_OPLOCK) as [E|E].
  - destruct (wf_lease_view d e He E) as (l & Hl & Hv). rewrite Hv in H.
    intros s Hs. specialize (H s Hs). unfold mbind, M_bind, index in *. by rewrite Hl.
  - by rewrite plain_view in H.
Qed.

Lemma same_request ls e :
  Forall (fun l => length (node (client_guid l)) = 6%nat) ls ->
  match lease, so_lease (view ls e) with
  | Some lease, Some l => smb2_lease_equal (fsp_client_guid fsp) (l_key lease) (client_guid l) (lease_key l)
  | _, _ => false
  end = true -> same_lease (request_id fsp lease) (view ls e).
Proof using Hn.
  intros Hg. destruct lease as [le|]; [|done]. destruct (so_lease (view ls e)) as [l|] eqn:E; [|done].
  intros Heq. exists l. split; [done|]. apply smb2_lease_equal_spec in Heq as ->; [done | done |].
  cbn in E. unfold lease_of in E. case_match; [|done]. by apply (proj1 (Forall_lookup _ _) Hg _ _ E).
Qed.

Lemma delay_for_entry_spec hsv overwrite first i delay :
  (i < length os)%nat ->
  triple pf env
    (fun d => weeding env u os d /\ (hsv = false -> delay = false -> checked F i d))
    (delay_for_entry fsp lease hsv overwrite first i delay)
    (fun delay d => weeding env u os d /\ (hsv = false -> delay = false -> checked F (S i) d)).
Proof using Hn.
  intros Hi. apply triple_data. intros d [Hd Hc].
  destruct (weeding_entry _ _ _ _ _ Hd Hi) as (e & He & Hwe & Ho). eapply triple_index; [done|].
  apply (triple_get_lease_type _ _ _ _ d e Hwe). apply (triple_entry_lease _ d e); [done|].
  set (t := open_type (view (leases d) e)). set (o := view (leases d) e) in *. cbv zeta.
  set (break_to := if overwrite then _ else _).
  assert (Hbreak : hsv = false -> may_write break_to = false).
  { intros ->. unfold break_to. destruct overwrite; rewrite !may_write_clear; cbn; by rewrite ?andb_false_r. }
  destruct (match lease with Some _ => _ | None => false end) eqn:Esame.
  { apply triple_ret_at. split; [done|]. intros Hh Hdel. eapply checked_S; [done | | by apply Hc].
    right. right. eapply same_request; [apply Hd | done]. }
  destruct (Z.eqb_spec (clear_bits t break_to) 0) as [Ez|Ez].
  { apply triple_ret_at. split; [done|]. intros Hh [Hdel _]%orb_false_iff.
    eapply checked_S; [done | | by apply Hc]. right. left. fold t.
    pose proof (may_write_clear t break_to) as Hb. rewrite Ez, (Hbreak Hh), andb_true_r in Hb. done. }
  eapply triple_bind; [by apply (share_mode_stale_pid_weeding pf env u os i d e)|].
  intros [|]; apply triple_pre; intros d' (Hd' & Hw & H).
  - apply triple_ret_at. split; [done|]. intros Hh Hdel. destruct H as (o' & Ho' & Hs).
    eapply checked_S; [done | by left |]. eapply checked_weeded; [done | by apply Hc].
  - apply triple_tell_at, triple_ret_at. split; [done|].
    intros -> [[Hdel Ht]%orb_false_iff _]%orb_false_iff. rewrite has_write in Ht.
    eapply checked_S; [by rewrite H | by right; left |]. eapply checked_weeded; [done | by apply Hc].
Qed.

Lemma delay_for_oplock_spec request hsv disposition first :
  triple pf env (weeding env u os)
    (delay_for_oplock fsp request lease hsv disposition first)
    (fun delay d => weeding env u os d /\
       (hsv = false -> delay = false -> has_bits request INTERNAL_OPEN_ONLY = false ->
        is_stat_open (fsp_access_mask fsp) = false -> Forall (active F) (opens d))).
Proof using Hn.
  unfold delay_for_oplock. destruct (has_bits _ _), (is_stat_open _); cbn [orb];
    try (apply triple_ret; intros d Hd; split; [done|]; by intros).
  eapply triple_bind.
  - eapply triple_conseq; [eapply (triple_for_entries _ (length os)
      (fun i delay d => weeding env u os d /\ (hsv = false -> delay = false -> checked F i d))
      (fun _ _ => False) false) | |].
    + intros d [Hd _]. by apply (weeding_length _ _ _ _ Hd).
    + intros i delay Hi. eapply triple_bind; [by apply delay_for_entry_spec|].
      intros delay'. by apply triple_ret.
    + intros d Hd. split; [done|]. intros _ _. constructor.
    + intros c d H. apply H.
  - intros [delay|[]]; apply triple_ret; intros d H; [|done].
    destruct H as [Hd H]. split; [done|]. intros Hh Hdel _ _. eapply checked_all; [|by apply H].
    rewrite length_opens. by apply (weeding_length _ _ _ _ Hd).
Qed.
End delay.

(** ** Granting *)

Section grant.
Context (pf : Prop) (env : share_env) (u : Prop) (os : list sopen).
Context (fsp : share_fsp) (lease : option smb2_lease) (Hn : length (node (fsp_client_guid fsp)) = 6%nat).
Let Same := same_lease (request_id fsp lease).

(** [if (c && !share_mode_stale_pid(d, i))] *)
Lemma triple_stale_guard {B} (c : bool) i d (f : bool -> M B) Q :
  weeding env u os d -> (i < length os)%nat ->
  (forall b d', weeding env u os d' -> weeded env (opens d) (opens d') ->
     (b = true -> c = true) ->
     (c = true -> b = false -> exists o, opens d' !! i = Some o /\ stale (so_entry o) = true) ->
     triple pf env (fun d0 => d0 = d') (f b) Q) ->
  triple pf env (fun d0 => d0 = d)
    ((if c then b ← share_mode_stale_pid i; mret (negb b) else mret false) ≫= f) Q.
Proof.
  intros Hd Hi H. destruct (weeding_entry _ _ _ _ _ Hd Hi) as (e & He & _ & _).
  apply (triple_bind _ _ _ (fun b d' => weeding env u os d' /\ weeded env (opens d) (opens d') /\
     (b = true -> c = true) /\
     (c = true -> b = false -> exists o, opens d' !! i = Some o /\ stale (so_entry o) = true))).
  2: { intros b. apply triple_pre. intros d' (H1 & H2 & H3 & H4). by apply (H b d'). }
  destruct c.
  - eapply triple_bind; [by apply (share_mode_stale_pid_weeding pf env u os i d e)|].
    intros b. apply triple_ret. intros d' (? & ? & Hb). split_and!; [done | done | by destruct b |].
    intros _. by destruct b.
  - apply triple_ret_at. split_and!; [done | apply weeded_refl | done | done].
Qed.

Definition grant_inv (wanted : Z) (i : nat) (v : grant_vars) (d : share_mode_data) : Prop :=
  weeding env u os d /\ (may_write (granted v) = true -> checked Same i d) /\
  (granted v = wanted \/ granted v = clear_bits wanted SMB2_LEASE_WRITE).

Lemma grant_body_spec wanted i v :
  (i < length os)%nat ->
  triple pf env (grant_inv wanted i v) (grant_body fsp lease i v)
    (fun c d => match c with Next v => grant_inv wanted (S i) v d | Return _ => False end).
Proof using Hn.
  intros Hi. apply triple_data. intros d (Hd & Hc & Hg).
  destruct (weeding_entry _ _ _ _ _ Hd Hi) as (e & He & Hwe & Ho). eapply triple_index; [done|].
  apply (triple_get_lease_type _ _ _ _ d e Hwe).
  apply (triple_is_same_lease _ _ _ _ d e Hwe); [apply Hd | done |]. intros same Hsame.
  rewrite has_write. apply triple_stale_guard; [done | done |]. intros alive d1 Hd1 Hw1 _ Hs1.
  set (g := if alive then _ else _).
  assert (Hg' : g = wanted \/ g = clear_bits wanted SMB2_LEASE_WRITE).
  { unfold g. destruct alive, Hg as [->| ->]; auto.
    right. unfold clear_bits. rewrite Z.ldiff_ldiff_l. by rewrite Z.lor_diag. }
  assert (Hc1 : may_write g = true -> checked Same (S i) d1).
  { unfold g. destruct alive; [rewrite may_write_clear; cbn; by rewrite andb_false_r|]. intros Hm.
    assert (checked Same i d1) by (eapply checked_weeded; [done | by apply Hc]).
    destruct same.
    - destruct (opens d1 !! i) as [o'|] eqn:Ho1; cycle 1.
      { apply lookup_ge_None in Ho1. rewrite length_opens, (weeding_length _ _ _ _ Hd1) in Ho1. lia. }
      eapply checked_S; [done | | done]. destruct (weeded_lookup _ _ _ _ _ Hw1 Ho1) as (o & Ho2 & Hwo).
      rewrite Ho in Ho2. injection Ho2 as <-. apply (weeded_active _ _ _ _ Hwo). right. by apply Hsame.
    - rewrite Hm in Hs1. destruct Hs1 as (o' & Ho' & Hst); [done | done |].
      eapply checked_S; [done | by left | done]. }
  apply triple_stale_guard; [done | done |]. intros handle d2 Hd2 Hw2 _ _.
  apply triple_data_at. destruct (weeding_entry _ _ _ _ _ Hd2 Hi) as (e2 & He2 & _ & _).
  eapply triple_index; [done|].
  apply triple_stale_guard; [done | done |]. intros oplock d3 Hd3 Hw3 _ _.
  apply triple_ret_at. split_and!; [done | | done]. cbn. intros Hm.
  eapply checked_weeded; [done|]. eapply checked_weeded; [done|]. by apply Hc1.
Qed.

Lemma grant_loop_spec wanted :
  triple pf env (weeding env u os) (for_entries (grant_body fsp lease) (Grant_vars wanted false false))
    (fun c d => weeding env u os d /\
       match c with
       | Next v => (may_write (granted v) = true -> Forall (active Same) (opens d)) /\
                   (granted v = wanted \/ granted v = clear_bits wanted SMB2_LEASE_WRITE)
       | Return _ => False
       end).
Proof using Hn.
  eapply triple_conseq; [eapply (triple_for_entries _ (length os) (grant_inv wanted)
      (fun _ _ => False) (Grant_vars wanted false false)) | |].
  - intros d [Hd _]. by apply (weeding_length _ _ _ _ Hd).
  - intros i v Hi. by apply grant_body_spec.
  - intros d Hd. split_and!; [done | intros _; constructor | by left].
  - intros [v|[]] d; [|done]. intros (Hd & Hc & Hg). split_and!; [done | | done].
    intros Hm. eapply checked_all; [|by apply Hc]. rewrite length_opens. by apply (weeding_length _ _ _ _ Hd).
Qed.
End grant.

(** ** The rest of an open *)

Lemma has_delete_on_close_spec pf env u os hash :
  triple pf env (weeding env u os) (has_delete_on_close hash) (fun _ d => weeding env u os d).
Proof.
  apply triple_data. intros d Hd. destruct (_ =? _)%nat; [by apply triple_ret_at|].
  destruct (negb _); [by apply triple_ret_at|]. eapply triple_bind.
  - eapply triple_conseq; [eapply (triple_for_entries _ (length os) (fun _ _ d => weeding env u os d)
      (fun _ d => weeding env u os d) tt) | |].
    + intros d' Hd'. by apply (weeding_length _ _ _ _ Hd').
    + intros i [] Hi. apply triple_pre. intros d1 Hd1.
      destruct (weeding_entry _ _ _ _ _ Hd1 Hi) as (e & He & _).
      eapply triple_bind; [by apply (share_mode_stale_pid_weeding pf env u os i d1 e)|].
      intros b. apply triple_ret. intros d' (? & _). by destruct b.
    + by intros d' ->.
    + intros c d' H. apply H.
  - intros [[]|[]]; by apply triple_ret.
Qed.

(** One step of the loop of [validate_oplock_types], or none. *)
Definition keeps_weeding {A} (env : share_env) (u : Prop) (os : list sopen) (m : M A) : Prop :=
  forall pf, triple pf env (weeding env u os) m (fun _ d => weeding env u os d).

Lemma stale_pid_keeps {A} env u os i (f : bool -> M A) :
  (i < length os)%nat -> (forall b, keeps_weeding env u os (f b)) ->
  keeps_weeding env u os (share_mode_stale_pid i ≫= f).
Proof.
  intros Hi Hf pf. apply triple_pre. intros d Hd. destruct (weeding_entry _ _ _ _ _ Hd Hi) as (e & He & _).
  eapply triple_bind; [by apply (share_mode_stale_pid_weeding pf env u os i d e)|].
  intros b. eapply triple_conseq; [apply Hf | by intros d' [? _] | done].
Qed.

Lemma ret_keeps {A} env u os (a : A) : keeps_weeding env u os (mret a).
Proof. intros pf. by apply triple_ret. Qed.

Lemma run_steps_keeps env u os steps c :
  Forall (fun f => forall c, keeps_weeding env u os (f c)) steps -> keeps_weeding env u os (run_steps steps c).
Proof.
  intros H. revert c. induction H as [|f steps Hf _ IH]; intros c pf; cbn [run_steps]; [by apply triple_ret|].
  eapply triple_bind; [apply Hf|]. intros [c'|[c'|]]; [apply IH | by apply triple_ret | by apply triple_ret].
Qed.

Lemma validate_body_keeps env u os i c :
  (i < length os)%nat -> keeps_weeding env u os (validate_body i c).
Proof.
  intros Hi pf. apply triple_data. intros d Hd.
  destruct (weeding_entry _ _ _ _ _ Hd Hi) as (e & He & Hwe & _). eapply triple_index; [done|].
  eapply triple_bind; [by apply (is_valid_spec pf env _ _ e Hwe)|].
  intros valid. apply triple_pre. intros d' [-> ->].
  assert (Hk : forall (m : M (control oplock_count unit)), keeps_weeding env u os m ->
    triple pf env (fun d' => d' = d) m (fun _ d' => weeding env u os d')).
  { intros m Hm. eapply triple_conseq; [apply Hm | by intros ? -> | done]. }
  apply Hk. destruct (negb _); [apply ret_keeps|]. destruct (_ =? _); [apply ret_keeps|].
  destruct (_ && _); [apply ret_keeps|]. apply run_steps_keeps.
  repeat constructor; intros c'; unfold count_batch, count_exclusive, count_shared;
    (destruct (BATCH_OPLOCK_TYPE _) || destruct (EXCLUSIVE_OPLOCK_TYPE _) ||
     destruct (LEVEL_II_OPLOCK_TYPE _) || destruct (op_type e =? _)); try apply ret_keeps;
    try destruct (batch c' || ex_or_batch c'); try apply ret_keeps;
    (apply stale_pid_keeps; [done | intros b; apply ret_keeps]).
Qed.

(** The record has some of the opens [os1]. *)
Definition some_of (u : Prop) (os1 : list sopen) (d : share_mode_data) : Prop :=
  wf d /\ (u -> used d) /\ opens d ⊆+ os1.

Lemma validate_oplock_types_spec pf env u os :
  triple pf env (weeding env u os) validate_oplock_types
    (fun _ d => exists os1, weeded env os os1 /\ some_of u os1 d).
Proof.
  unfold validate_oplock_types. eapply triple_bind.
  - eapply triple_conseq; [eapply (triple_for_entries _ (length os) (fun _ _ d => weeding env u os d)
      (fun _ d => weeding env u os d) (Oplock_count false false false false 0)) | |].
    + intros d' Hd'. by apply (weeding_length _ _ _ _ Hd').
    + intros i c Hi. eapply triple_conseq; [by apply validate_body_keeps | done |]. intros [?|?] d; done.
    + done.
    + intros c d' H. apply H.
  - intros [c|[]].
    + eapply (triple_bind _ _ _ (fun _ d => exists os1, weeded env os os1 /\ some_of u os1 d)).
      * apply triple_update. intros d (Hwf & Hu & Hw).
        destruct (remove_stale_spec d Hwf) as (k & _ & (Hwf' & Hu' & Hp) & _).
        exists (opens d). split; [done|]. split_and!; [done | auto |].
        rewrite Hp. apply submseteq_inserts_l. done.
      * intros _. by apply triple_ret.
    + apply triple_ret. intros d (Hwf & Hu & Hw). exists (opens d). split; [done|]. by split_and!.
Qed.

(** ** No panic in [validate_oplock_types] *)

(** The opens that it counts, and those that have to be the only one counted. *)
Definition counted (o : sopen) : bool :=
  negb (op_mid (so_entry o) =? 0) &&
  negb ((op_type (so_entry o) =? NO_OPLOCK) && is_stat_open (e_access_mask (so_entry o))).

Definition exclusive_type (o : sopen) : bool := EXCLUSIVE_OPLOCK_TYPE (op_type (so_entry o)).

Definition oplocks_ok (os : list sopen) : Prop :=
  all_pairs (fun x y => open_stale x = false -> open_stale y = false ->
              counted x = true -> exclusive_type x = true -> counted y = false) os.

Section validate.
Context (pf : Prop) (env : share_env) (u : Prop) (os : list sopen) (Hok : oplocks_ok os).

Definition counted_at (j : nat) (o : sopen) : Prop :=
  os !! j = Some o /\ open_stale o = false /\ counted o = true.

(** The opens before [i] have been counted: an exclusive one was the only one, or
    there was none. *)
Definition count_inv (i : nat) (c : oplock_count) : Prop :=
  (num_non_stat_opens c = 1 /\ exists j o, (j < i)%nat /\ counted_at j o /\ exclusive_type o = true) \/
  (batch c = false /\ ex_or_batch c = false /\
   ((num_non_stat_opens c = 0 /\ level2 c = false /\ no_oplock c = false) \/
    exists j o, (j < i)%nat /\ counted_at j o)).

Lemma count_inv_mono i c : count_inv i c -> count_inv (S i) c.
Proof.
  intros [(H1 & j & o & Hj & H2)|(H1 & H2 & [H|(j & o & Hj & H)])].
  - left. split; [done|]. exists j, o. split; [lia | done].
  - right. auto.
  - right. split_and!; [done | done |]. right. exists j, o. split; [lia | done].
Qed.

(** No exclusive open has been counted when another one is. *)
Lemma count_inv_counted i c o :
  count_inv i c -> counted_at i o -> batch c = false /\ ex_or_batch c = false.
Proof using Hok.
  intros [(_ & j & o' & Hj & (Ho' & Hs' & Hc') & He)|(? & ? & _)] (Ho & Hs & Hc); [|done].
  rewrite (Hok j i o' o) in Hc; [done | lia | done..].
Qed.

Lemma count_inv_exclusive i c o :
  count_inv i c -> counted_at i o -> exclusive_type o = true ->
  num_non_stat_opens c = 0 /\ batch c = false /\ ex_or_batch c = false /\ level2 c = false /\ no_oplock c = false.
Proof using Hok.
  intros Hi Ho He. destruct (count_inv_counted i c o Hi Ho) as [Hb Hx].
  destruct Hi as [(_ & j & o' & Hj & Ho' & He')|(_ & _ & [(? & ? & ?)|(j & o' & Hj & Ho')])]; [|done|].
  - destruct Ho as (Ho & Hs & Hc), Ho' as (Ho' & Hs' & Hc'). rewrite (Hok j i o' o) in Hc; [done | lia | done..].
  - destruct Ho as (Ho & Hs & Hc), Ho' as (Ho' & Hs' & Hc'). rewrite (Hok i j o o') in Hc'; [done | lia | done..].
Qed.

Definition counts (i : nat) (r : control oplock_count unit) (d : share_mode_data) : Prop :=
  weeding env u os d /\ match r with Next c => count_inv (S i) c | Return _ => False end.

(** The stale check of a counted open, followed by the rest of the body. *)
Lemma triple_stale_pid {A} i d (f : bool -> M A) Q :
  weeding env u os d -> (i < length os)%nat ->
  (forall b d', weeding env u os d' -> triple pf env (fun d0 => d0 = d') (f b) Q) ->
  triple pf env (fun d0 => d0 = d) (share_mode_stale_pid i ≫= f) Q.
Proof.
  intros Hd Hi H. destruct (weeding_entry _ _ _ _ _ Hd Hi) as (e & He & _).
  eapply triple_bind; [by apply (share_mode_stale_pid_weeding pf env u os i d e)|].
  intros b. apply triple_pre. intros d' (Hd' & _). by apply H.
Qed.

Lemma triple_ret_bind {A B} P (a : A) (f : A -> M B) Q :
  triple pf env P (f a) Q -> triple pf env P (mret a ≫= f) Q.
Proof. done. Qed.

(** The open that is counted; [c] has the new number. *)
Context (i : nat) (e : share_mode_entry) (o : sopen) (c : oplock_count).
Context (Hi : (i < length os)%nat) (Ho : counted_at i o) (Hty : op_type e = op_type (so_entry o)).

Lemma count_inv_here c' : batch c' = false -> ex_or_batch c' = false -> count_inv (S i) c'.
Proof using Ho Hi. intros H1 H2. right. split_and!; [done | done |]. right. exists i, o. split; [lia | done]. Qed.

Lemma count_inv_here_exclusive c' : exclusive_type o = true -> num_non_stat_opens c' = 1 -> count_inv (S i) c'.
Proof using Ho Hi. intros H1 H2. left. split; [done|]. exists i, o. split_and!; [lia | done | done]. Qed.

Ltac evaluate_types :=
  repeat match goal with
  | |- context [BATCH_OPLOCK_TYPE ?z] =>
      let v := eval vm_compute in (BATCH_OPLOCK_TYPE z) in change (BATCH_OPLOCK_TYPE z) with v
  | |- context [EXCLUSIVE_OPLOCK_TYPE ?z] =>
      let v := eval vm_compute in (EXCLUSIVE_OPLOCK_TYPE z) in change (EXCLUSIVE_OPLOCK_TYPE z) with v
  | |- context [LEVEL_II_OPLOCK_TYPE ?z] =>
      let v := eval vm_compute in (LEVEL_II_OPLOCK_TYPE z) in change (LEVEL_II_OPLOCK_TYPE z) with v
  | |- context [?z =? NO_OPLOCK] =>
      let v := eval vm_compute in (z =? NO_OPLOCK) in change (z =? NO_OPLOCK) with v
  end.

Lemma count_steps d :
  op_type e ∈ oplock_types -> weeding env u os d -> count_inv i c ->
  triple pf env (fun d0 => d0 = d)
    (run_steps [count_batch i e; count_exclusive i e;
                count_shared (LEVEL_II_OPLOCK_TYPE (op_type e)) set_level2 i;
                count_shared (op_type e =? NO_OPLOCK) set_no_oplock i]
      (Oplock_count (batch c) (ex_or_batch c) (level2 c) (no_oplock c) (num_non_stat_opens c + 1)))
    (counts i).
Proof using Hok Hi Ho Hty.
  intros Ht Hd Hc. destruct (count_inv_counted i c o Hc Ho) as [Hb Hx].
  assert (Hex : EXCLUSIVE_OPLOCK_TYPE (op_type e) = true ->
    num_non_stat_opens c = 0 /\ level2 c = false /\ no_oplock c = false).
  { intros He. rewrite Hty in He. by destruct (count_inv_exclusive i c o Hc Ho He) as (? & _ & _ & ? & ?). }
  assert (Hxt : EXCLUSIVE_OPLOCK_TYPE (op_type e) = exclusive_type o) by (unfold exclusive_type; by rewrite Hty).
  rewrite Hb, Hx. unfold oplock_types in Ht. cbn [run_steps]. unfold count_batch, count_exclusive, count_shared.
  repeat (apply elem_of_cons in Ht as [Et|Ht]; [rewrite Et in *|]); [..|by apply elem_of_nil in Ht]; evaluate_types.
  - repeat apply triple_ret_bind. apply triple_ret_at. split; [done|]. by apply count_inv_here.
  - destruct (Hex eq_refl) as (Hn & -> & ->). rewrite Hn. apply triple_ret_bind, triple_assoc.
    apply triple_stale_pid; [done | done |]. intros b d' Hd'.
    destruct b; repeat apply triple_ret_bind; apply triple_ret_at; (split; [done|]);
      by apply count_inv_here_exclusive || by apply count_inv_here.
  - destruct (Hex eq_refl) as (Hn & -> & ->). rewrite Hn. apply triple_assoc.
    apply triple_stale_pid; [done | done |]. intros b d' Hd'. destruct b; apply triple_ret_bind.
    { apply triple_ret_at. split; [done|]. by apply count_inv_here. }
    apply triple_assoc. apply triple_stale_pid; [done | done |]. intros b2 d2 Hd2.
    destruct b2; repeat apply triple_ret_bind; apply triple_ret_at; (split; [done|]); by apply count_inv_here_exclusive.
  - repeat apply triple_ret_bind. apply triple_ret_at. split; [done|]. by apply count_inv_here.
  - repeat apply triple_ret_bind. apply triple_ret_at. split; [done|]. by apply count_inv_here.
Qed.
End validate.

Section validated.
Context (pf : Prop) (env : share_env) (u : Prop) (os : list sopen) (Hok : oplocks_ok os).

Lemma validate_body_ok i c :
  (i < length os)%nat ->
  triple pf env (fun d => weeding env u os d /\ count_inv os i c) (validate_body i c) (counts env u os i).
Proof using Hok.
  intros Hi. apply triple_data. intros d [Hd Hc].
  destruct (weeding_entry _ _ _ _ _ Hd Hi) as (e & He & Hwe & Ho). eapply triple_index; [done|].
  eapply triple_bind; [by apply (is_valid_spec pf env _ _ e Hwe)|].
  intros valid. apply triple_pre. intros d' [-> ->]. rewrite negb_involutive.
  assert (Hskip : counts env u os i (Next c) d) by (split; [done | by apply count_inv_mono]).
  destruct (stale e) eqn:Es; [by apply triple_ret_at|].
  destruct (op_mid e =? 0) eqn:Em; [by apply triple_ret_at|].
  destruct ((op_type e =? NO_OPLOCK) && _) eqn:Est; [by apply triple_ret_at|].
  assert (Hat : counted_at os i (view (leases d) e)).
  { destruct (weeded_lookup _ _ _ _ _ (proj2 (proj2 Hd)) Ho) as (o & Ho' & [E|(_ & _ & E)]).
    - rewrite <- E in Ho'. split_and!; [done | done |]. unfold counted. cbn. by rewrite Em, Est.
    - assert (Et := f_equal (fun o => stale (so_entry o)) E). cbn in Et. congruence. }
  apply (count_steps pf env u os Hok i e (view (leases d) e)); [done | done | done | apply Hwe | done | done].
Qed.

Lemma validate_oplock_types_ok :
  triple pf env (weeding env u os) validate_oplock_types (fun b _ => b = true).
Proof using Hok.
  unfold validate_oplock_types. eapply triple_bind.
  - eapply triple_conseq; [eapply (triple_for_entries _ (length os)
      (fun i c d => weeding env u os d /\ count_inv os i c) (fun _ _ => False)
      (Oplock_count false false false false 0)) | |].
    + intros d [Hd _]. by apply (weeding_length _ _ _ _ Hd).
    + intros i c Hi. eapply triple_conseq; [by apply validate_body_ok | done |]. intros [c'|[]] d [? H]; done.
    + intros d Hd. split; [done|]. right. split_and!; [done | done |]. by left.
    + intros r d H. apply H.
  - intros [c|[]]; [|by apply triple_pre; intros d []].
    apply (triple_bind _ _ _ (fun _ _ => count_inv os (length os) c)).
    + apply triple_update. by intros d [_ H].
    + intros _. apply triple_ret. intros d [(-> & _)|(-> & -> & _)]; [by rewrite andb_false_r | done].
Qed.
End validated.

(** The open file has an entry, and it is exclusive. *)
Definition owns_exclusive (fsp : share_fsp) (os : list sopen) : Prop :=
  Exists (fun o => owned fsp (so_entry o) = true) os /\
  Forall (fun o => owned fsp (so_entry o) = true -> lease_type_is_exclusive (open_type o) = true) os.

Lemma owns_exclusive_without fsp k os os' :
  os ≡ₚ k ++ os' -> Forall (fun o => open_stale o = true) k -> owns_exclusive fsp os -> owns_exclusive fsp os'.
Proof.
  intros Hp Hk [He Hf]. rewrite Hp in He, Hf. apply Forall_app in Hf as [_ Hf]. split; [|done].
  apply Exists_app in He as [He|He]; [|done]. apply Exists_exists in He as (o & Hin & Ho).
  rewrite Forall_forall in Hk. specialize (Hk o Hin). unfold owned, open_stale in *. by rewrite Hk in Ho.
Qed.

(** [update_num_read_oplocks] removes at most stale entries; it panics when the
    entry of an exclusive open is not exclusive. *)
Lemma update_num_read_oplocks_spec (pf : Prop) env fsp t d :
  wf d -> (lease_type_is_exclusive t = true -> pf \/ owns_exclusive fsp (opens d)) ->
  triple pf env (fun d0 => d0 = d) (update_num_read_oplocks fsp t)
    (fun _ d' => exists k, Forall (fun o => open_stale o = true) k /\ without k d d').
Proof.
  intros Hwf Hpf. unfold update_num_read_oplocks. destruct (lease_type_is_exclusive t).
  - apply triple_update_at. destruct (remove_stale_spec d Hwf) as (k & Hk & Hwo & _).
    set (d1 := remove_stale_share_mode_entries d) in *. pose proof Hwo as (Hwf1 & _ & _).
    eapply triple_bind; [by apply find_share_mode_entry_spec|].
    intros r. apply triple_pre. intros ? [-> Hr]. apply triple_data_at.
    assert (Hend : forall x, pf \/ lease_type_is_exclusive x = true -> triple pf env (fun d0 => d0 = d1)
              (if negb (lease_type_is_exclusive x) then panic else mret true)
              (fun _ d' => exists k, Forall (fun o => open_stale o = true) k /\ without k d d')).
    { intros x [Hp|Hx]; [destruct (negb _); [by apply triple_panic|] | rewrite Hx];
        apply triple_ret_at; eauto. }
    destruct (Hpf eq_refl) as [Hp|Hp];
      [|apply (owns_exclusive_without fsp k _ (opens d1) (proj2 (proj2 Hwo)) Hk) in Hp as [Hex Hall]].
    + destruct r as [i|]; [|by apply (Hend 0); left]. destruct Hr as (e & He & _). apply triple_assoc. eapply triple_index; [done|].
      apply (triple_get_lease_type _ _ _ _ d1 e (wf_lookup _ _ _ Hwf1 He)). by apply Hend; left.
    + destruct r as [i|]; cycle 1.
      { exfalso. apply Exists_exists in Hex as (o & (e & -> & Hin)%list_elem_of_fmap & Ho).
        rewrite Forall_forall in Hr. specialize (Hr e Hin). cbn in Hr.
        change (owned fsp e = true) in Ho. congruence. }
      destruct Hr as (e & He & Ho). apply triple_assoc. eapply triple_index; [done|].
      apply (triple_get_lease_type _ _ _ _ d1 e (wf_lookup _ _ _ Hwf1 He)). apply Hend. right.
      apply (proj1 (Forall_lookup _ _) Hall i); [by rewrite opens_lookup, He | done].
  - eapply (triple_bind _ _ _ (fun _ d0 => d0 = d)).
    + eapply triple_conseq; [eapply (triple_for_entries _ (length (share_modes d)) (fun _ _ d0 => d0 = d)
        (fun _ _ => False) 0) | |].
      * by intros ? ->.
      * intros i n Hi. apply triple_data_at. destruct (lookup_lt_is_Some_2 _ _ Hi) as [e He].
        eapply triple_index; [done|].
        apply (triple_get_lease_type _ _ _ _ d e (wf_lookup _ _ _ Hwf He)). by apply triple_ret_at.
      * done.
      * by intros [n|[]] d' H.
    + intros c. apply triple_ask.
      assert (Hd : exists k, Forall (fun o => open_stale o = true) k /\ without k d d).
      { exists []. split; [constructor|]. by split_and!. }
      destruct (negb _); [by apply triple_ret_at|]. destruct (_ =? _); [by apply triple_ret_at|].
      destruct (negb _); [by apply triple_ret_at|]. apply triple_tell_at. by apply triple_ret_at.
Qed.

(** A lease at the end of the table changes no open. *)
Lemma add_lease_spec d l :
  wf d -> Forall (fun l0 => lease_id l0 <> lease_id l) (leases d) ->
  length (node (client_guid l)) = 6%nat -> Z.of_nat (length (leases d) + 1) < max_leases ->
  wf (with_leases (leases d ++ [l]) d) /\ opens (with_leases (leases d ++ [l]) d) = opens d.
Proof.
  intros [Hm (Hb & Hnd & Hg)] Hnew Hn Hlen. split.
  - split; cbn [leases share_modes with_leases]; rewrite ?length_app; cbn [length].
    + eapply Forall_impl; [done|]. intros e [Ht He]. split; [done|]. case_match; [|done]. split; [apply He | lia].
    + split_and!; [by rewrite length_app | |].
      * rewrite fmap_app. apply NoDup_app. split_and!; [done | | apply NoDup_singleton].
        intros x Hx Hx'. apply list_elem_of_singleton in Hx' as ->.
        apply list_elem_of_fmap in Hx as (l0 & Heq & Hl0). rewrite Forall_forall in Hnew. by apply (Hnew l0 Hl0).
      * apply Forall_app. by split; [|constructor].
  - unfold opens. apply list_fmap_ext. intros i e Hi. unfold view, lease_of. f_equal.
    destruct (wf_lookup d i e) as [_ He]; [by split|done|]. cbn. case_match; [|done].
    apply lookup_app_l. lia.
Qed.

(** [grant_fsp_lease] uses the lease of the table, upgrading it or not, or adds one. *)
Lemma grant_fsp_lease_spec pf env fsp lease g d :
  wf d -> length (node (fsp_client_guid fsp)) = 6%nat ->
  triple pf env (fun d0 => d0 = d) (grant_fsp_lease fsp lease g)
    (fun r d' => match r with
     | inl _ => d' = d
     | inr (idx, fl) => wf d' /\ exists l, leases d' !! idx = Some l /\ l_state fl = current_state l /\
         lease_id l = (fsp_client_guid fsp, l_key lease) /\
         ((exists l0, l0 ∈ leases d /\ lease_id l0 = lease_id l /\ (l = l0 \/ (current_state l = g /\ breaking l = false)) /\
             (used d -> used d') /\ opens d' = replace_lease l0 l <$> opens d) \/
          (current_state l = g /\ breaking l = false /\ leases d' = leases d ++ [l] /\ opens d' = opens d))
     end).
Proof.
  intros Hwf Hn. unfold grant_fsp_lease. apply triple_data_at, triple_ask.
  pose proof (find_share_mode_lease_spec d _ (l_key lease) Hwf Hn) as Hf.
  destruct (find_share_mode_lease d _ _) as [idx|].
  - destruct Hf as (l0 & Hl0 & Hid). destruct (negb _); [by apply triple_ret_at|].
    eapply triple_index; [done|]. destruct (_ && _) eqn:Eu.
    + apply andb_true_iff in Eu as [_ Eb%negb_true_iff]. apply triple_update_at, triple_data_at. set (l := next_epoch (set_state g l0)).
      assert (Hc : change_lease idx (fun l => next_epoch (set_state g l)) d = change_lease idx (fun _ => l) d).
      { unfold change_lease. by rewrite !(alter_lookup_insert _ _ _ _ Hl0). }
      rewrite Hc. destruct (change_lease_spec d idx l0 l Hwf Hl0 eq_refl) as (Hwf' & Hu' & Ho').
      assert (Hl : leases (change_lease idx (fun _ => l) d) !! idx = Some l).
      { cbn. by rewrite list_lookup_alter_eq, Hl0. }
      eapply triple_index; [done|]. apply triple_ret_at. split; [done|]. exists l. split_and!; [done | done | done |].
      left. exists l0. split_and!; [by eapply list_elem_of_lookup_2 | done | by right | done | done].
    + apply (triple_bind _ _ _ (fun _ d0 => d0 = d)); [by apply triple_ret|]. intros [].
      apply triple_data_at. eapply triple_index; [done|]. apply triple_ret_at. split; [done|].
      exists l0. split_and!; [done | done | done |]. left. exists l0.
      split_and!; [by eapply list_elem_of_lookup_2 | done | by left | done |].
      rewrite <- list_fmap_id at 1. apply list_fmap_ext. intros _ [e ol] _. unfold replace_lease; cbn.
      f_equal. by case_decide.
  - destruct (talloc_realloc_array _ _ _) eqn:Ea; cbn [negb]; [|by apply triple_ret_at].
    destruct (fsp_lease_alloc_ok env); cbn [negb]; [|by apply triple_ret_at].
    destruct (leases_db_add_ok env); cbn [negb]; [|by apply triple_ret_at].
    apply triple_tell_at. do 2 apply triple_update_at. apply triple_ret_at.
    unfold talloc_realloc_array in Ea. destruct (Z.leb_spec (MAX_TALLOC_SIZE / sizeof_share_mode_lease)
      (Z.of_nat (length (leases d) + 1))) as [|Hb]; [done|].
    match goal with |- context [leases d ++ [?x]] => set (l := x) end.
    destruct (add_lease_spec d l Hwf) as [Hwf' Ho']; [done | done | done |].
    split; [done|]. exists l. split_and!; [cbn; by rewrite lookup_app_r, Nat.sub_diag by lia | done | done |].
    right. by split_and!.
Qed.

(** Every lease is in use once [o] is there. *)
Definition used_with (o : sopen) (d : share_mode_data) : Prop :=
  forall l, l ∈ leases d -> so_lease o = Some l \/
  exists j o', opens d !! j = Some o' /\ stale (so_entry o') = false /\ so_lease o' = Some l.

(** The open file has no entry yet. *)
Definition unopened (fsp : share_fsp) (os : list sopen) : Prop :=
  Forall (fun o => owned fsp (so_entry o) = false) os.

Lemma owns_new fsp uid mid t idx ls os :
  unopened fsp os -> lease_type_is_exclusive (open_type (view ls (new_entry fsp uid mid t idx))) = true ->
  owns_exclusive fsp (os ++ [view ls (new_entry fsp uid mid t idx)]).
Proof.
  intros Hun Hex. split.
  - apply Exists_app. right. constructor. unfold owned. cbn. rewrite Z.eqb_refl, andb_true_r.
    by apply server_id_equal_spec.
  - apply Forall_app. split; [|by constructor]. eapply Forall_impl; [exact Hun|]. cbn. congruence.
Qed.

Lemma store_open_spec (pf : Prop) env fsp mid t idx lt d :
  wf d -> t ∈ oplock_types ->
  (if t =? LEASE_OPLOCK then 0 <= idx < Z.of_nat (length (leases d)) else idx = UINT32_MAX) ->
  let o := view (leases d) (new_entry fsp (current_uid env) mid t idx) in
  (pf \/ (lt = open_type o /\ unopened fsp (opens d))) ->
  triple pf env (fun d0 => d0 = d) (store_open fsp mid t idx lt)
    (fun status d' => wf d' /\ opens d' ⊆+ opens d ++ [o] /\
       (status <> NT_STATUS_NO_MEMORY -> used_with o d -> used d')).
Proof.
  intros Hwf Ht Hidx o Hpf. unfold store_open. apply triple_ask.
  eapply triple_bind; [by apply (set_share_mode_spec pf env fsp (current_uid env) mid t idx d)|].
  intros [|]; apply triple_pre; intros d1 (Hl1 & H); cycle 1.
  { subst d1. apply triple_ret_at. split_and!; [done | by apply submseteq_inserts_r | done]. }
  destruct H as [Hwf1 Ho1]. fold o in Ho1. cbn [negb].
  assert (Hu1 : used_with o d -> used d1).
  { intros Hu l Hl. rewrite Hl1 in Hl. rewrite Ho1. destruct (Hu l Hl) as [Hol|(j & o' & Hj & Hs & Hol)].
    - exists (length (opens d)), o. rewrite lookup_app_r, Nat.sub_diag by lia. done.
    - exists j, o'. rewrite lookup_app_l by (by eapply lookup_lt_Some). done. }
  eapply triple_bind.
  { apply (update_num_read_oplocks_spec pf env fsp lt d1 Hwf1). intros Hlt.
    destruct Hpf as [?|[-> Hun]]; [by left | right]. rewrite Ho1. by apply owns_new. }
  intros ok. apply triple_pre. intros d2 (k & _ & (Hwf2 & Hu2 & Hp2)).
  assert (Hsub : opens d2 ⊆+ opens d ++ [o]).
  { rewrite <- Ho1, Hp2. by apply submseteq_inserts_l. }
  destruct ok; cbn [negb]; [apply triple_ret_at; split_and!; auto|].
  eapply triple_bind; [by apply del_share_mode_spec|].
  intros [|]; apply triple_ret; intros d3 H.
  - destruct H as (e & _ & _ & (Hwf3 & Hu3 & Hp3)). split_and!; [done | | auto].
    rewrite <- Hsub, Hp3. by apply submseteq_inserts_l.
  - destruct H as [-> _]. split_and!; auto.
Qed.

(** [granted_over r u id os1 o l]: the new open [o] for the lease [id] is granted beside
    the opens [os1], which become [l]: the lease is a new one, or one of the table
    that is perhaps upgraded. A write lease needs that all opens have the lease. [r]:
    a lease that is named is also requested. *)
Inductive granted_over (r u : Prop) (id : option (GUID * smb2_lease_key)) (os1 : list sopen) (o : sopen)
    : list sopen -> Prop :=
| Granted_new :
    (r -> id <> None -> same_lease id o) ->
    (may_write (open_type o) = true -> Forall (active (same_lease id)) os1) ->
    (forall l, so_lease o = Some l -> breaking l = false) ->
    granted_over r u id os1 o os1
| Granted_old l0 l :
    lease_id l0 = lease_id l -> so_lease o = Some l -> id = Some (lease_id l) ->
    (l = l0 \/ (breaking l = false /\
                (may_write (current_state l) = true -> Forall (active (same_lease id)) os1))) ->
    (u -> exists j o', os1 !! j = Some o' /\ stale (so_entry o') = false /\ so_lease o' = Some l0) ->
    granted_over r u id os1 o (replace_lease l0 l <$> os1).

Lemma oplock_of_lease_type g :
  oplock_of_lease g ∈ oplock_types /\ oplock_of_lease g <> LEASE_OPLOCK /\
  (may_write (map_oplock_to_lease_type (oplock_of_lease g)) = true -> may_write g = true).
Proof.
  unfold oplock_of_lease. destruct (Z.eqb_spec g (Z.lor (Z.lor SMB2_LEASE_READ SMB2_LEASE_WRITE) SMB2_LEASE_HANDLE)) as [->|];
    [split_and!; [by do 2 right; left | done | done]|].
  destruct (Z.eqb_spec g (Z.lor SMB2_LEASE_READ SMB2_LEASE_WRITE)) as [->|];
    [split_and!; [by right; left | done | done]|].
  destruct (_ || _); split_and!; (done || (by left) || by do 3 right; left).
Qed.

(** What an open that is granted looks like. *)
Definition granted_entry (fsp : share_fsp) (mid : Z) (T : Z -> Prop) (o : sopen) : Prop :=
  exists uid t idx, so_entry o = erase (new_entry fsp uid mid t idx) /\ T t.

Lemma granted_entry_view fsp uid mid (T : Z -> Prop) t idx ls :
  T t -> granted_entry fsp mid T (view ls (new_entry fsp uid mid t idx)).
Proof. intros H. by exists uid, t, idx. Qed.

(** The type that a request without oplock, or for a lease, gets. *)
Definition granted_type (request : Z) (lease : option smb2_lease) (t : Z) : Prop :=
  t ∈ oplock_types /\
  match lease with
  | Some _ => t = LEASE_OPLOCK \/ t = NO_OPLOCK
  | None => request = NO_OPLOCK -> t = NO_OPLOCK
  end.

(** The outcome of [grant_fsp_oplock_type] on the opens [os1]. *)
Definition grant_result (r u : Prop) (fsp : share_fsp) (mid : Z) (T : Z -> Prop) (id : option (GUID * smb2_lease_key))
    (os1 : list sopen) (status : NTSTATUS) (d : share_mode_data) : Prop :=
  wf d /\ (status <> NT_STATUS_NO_MEMORY -> u -> used d) /\
  (opens d ⊆+ os1 \/
   exists o l, granted_entry fsp mid T o /\ granted_over r u id os1 o l /\ opens d ⊆+ l ++ [o]).

Section grant_oplock.
Context (pf : Prop) (env : share_env) (r u : Prop) (fsp : share_fsp) (mid : Z) (d1 : share_mode_data).
Context (Hn : length (node (fsp_client_guid fsp)) = 6%nat) (Hwf1 : wf d1) (Hu1 : u -> used d1).
Context (Hpf : pf \/ unopened fsp (opens d1)).

Lemma grant_oplock_part (T : Z -> Prop) id g ok :
  (r -> id = None) -> T NO_OPLOCK -> T (oplock_of_lease g) ->
  (may_write g = true -> Forall (active (same_lease id)) (opens d1)) ->
  let t := if ok : bool then oplock_of_lease g else NO_OPLOCK in
  triple pf env (fun d0 => d0 = d1)
    (store_open fsp mid t UINT32_MAX (map_oplock_to_lease_type t))
    (grant_result r u fsp mid T id (opens d1)).
Proof using Hwf1 Hu1 Hpf.
  intros Hid HT0 HT Hg t. destruct (oplock_of_lease_type g) as (Ht & Hne & Hw).
  assert (t ∈ oplock_types /\ t <> LEASE_OPLOCK) as [Htt Htn].
  { unfold t. destruct ok; [done|]. split; [by left | done]. }
  assert (Hb : (t =? LEASE_OPLOCK) = false) by by apply Z.eqb_neq.
  eapply triple_conseq; [apply (store_open_spec pf env fsp mid t UINT32_MAX _ d1 Hwf1 Htt) | done |].
  { by rewrite Hb. }
  { destruct Hpf as [?|Hun]; [by left | right]. split; [|done].
    unfold open_type, view, lease_of. cbn. by rewrite Hb. }
  intros status d' (Hwf' & Hsub & Hu'). split_and!; [done | |].
  - intros Hs Hu. apply Hu'; [done|]. intros l Hl. right. by apply Hu1.
  - right. exists (view (leases d1) (new_entry fsp (current_uid env) mid t UINT32_MAX)), (opens d1).
    split_and!; [apply granted_entry_view; unfold t; by destruct ok | | exact Hsub]. constructor; [by intros ->%Hid| |].
    + unfold open_type, view, lease_of. cbn. rewrite Hb. intros H. apply Hg, Hw. unfold t in H. by destruct ok.
    + cbn. unfold lease_of. cbn. by rewrite Hb.
Qed.

Lemma grant_plain_part (T : Z -> Prop) id g ok (lease : option smb2_lease) :
  (r -> id = None) -> T NO_OPLOCK -> T (oplock_of_lease g) ->
  (may_write g = true -> Forall (active (same_lease id)) (opens d1)) ->
  let t := if ok : bool then oplock_of_lease g else NO_OPLOCK in
  triple pf env (fun d0 => d0 = d1)
    (status ← store_open fsp mid t UINT32_MAX (map_oplock_to_lease_type t); mret (status, t, lease))
    (fun x d => grant_result r u fsp mid T id (opens d1) x.1.1 d).
Proof using Hwf1 Hu1 Hpf.
  intros Hid HT0 HT Hg t. eapply triple_bind; [by apply (grant_oplock_part T id g ok)|].
  intros status. by apply triple_ret.
Qed.

Lemma grant_lease_part (T : Z -> Prop) lease g :
  T LEASE_OPLOCK ->
  let id := Some (fsp_client_guid fsp, l_key lease) in
  (may_write g = true -> Forall (active (same_lease id)) (opens d1)) ->
  triple pf env (fun d0 => d0 = d1)
    (r ← grant_fsp_lease fsp lease g;
     match r with
     | inl status => mret (status, LEASE_OPLOCK, Some lease)
     | inr (idx, fsp_lease) =>
         status ← store_open fsp mid LEASE_OPLOCK (Z.of_nat idx) (l_state fsp_lease);
         mret (status, LEASE_OPLOCK, Some fsp_lease)
     end)
    (fun x d => grant_result r u fsp mid T id (opens d1) x.1.1 d).
Proof using Hn Hwf1 Hu1 Hpf.
  intros HT id Hg. eapply triple_bind; [by apply grant_fsp_lease_spec|].
  intros [status|[idx fl]].
  { apply triple_ret. intros d ->. split_and!; [done | auto | by left]. }
  apply triple_pre. intros d2 (Hwf2 & l & Hl & Hfl & Hid & Hcase).
  assert (Hview : so_lease (view (leases d2) (new_entry fsp (current_uid env) mid LEASE_OPLOCK (Z.of_nat idx))) = Some l).
  { cbn. unfold lease_of. cbn. by rewrite Nat2Z.id. }
  eapply triple_bind.
  { apply (store_open_spec pf env fsp mid LEASE_OPLOCK (Z.of_nat idx) _ d2 Hwf2); [by do 4 right; left| |].
    - cbn. apply lookup_lt_Some in Hl. lia.
    - destruct Hpf as [?|Hun]; [by left | right]. split; [unfold open_type; by rewrite Hview|].
      destruct Hcase as [(l0 & _ & _ & _ & _ & ->)|(_ & _ & _ & ->)]; [by apply Forall_fmap | done]. }
  intros status. apply triple_ret. intros d (Hwf' & Hsub & Hu').
  assert (Hsame : id <> None -> same_lease id (view (leases d2) (new_entry fsp (current_uid env) mid LEASE_OPLOCK (Z.of_nat idx)))).
  { intros _. exists l. by rewrite Hid. }
  split_and!; [done | |].
  - intros Hs Hu. apply Hu'; [done|]. intros x Hx. destruct Hcase as [(l0 & _ & _ & _ & Hu2 & _)|(_ & _ & Hls & Ho)].
    + right. by apply Hu2; [apply Hu1|].
    + rewrite Hls in Hx. apply elem_of_app in Hx as [Hx| ->%list_elem_of_singleton]; [|by left].
      right. rewrite Ho. by apply Hu1.
  - right. exists (view (leases d2) (new_entry fsp (current_uid env) mid LEASE_OPLOCK (Z.of_nat idx))), (opens d2).
    split_and!; [by apply granted_entry_view | | exact Hsub].
    destruct Hcase as [(l0 & Hl0 & Hid0 & Hst & _ & ->)|(Hst & Hbr & _ & ->)].
    + apply Granted_old; [done | done | by unfold id; rewrite Hid | |].
      * destruct Hst as [->|[Hst Hbr]]; [by left | right]. by rewrite Hst.
      * intros Hu. by apply Hu1.
    + apply Granted_new; [done| |].
      * unfold open_type. by rewrite Hview, Hst.
      * intros l' Hl'. congruence.
Qed.
End grant_oplock.

Lemma rebase env u os d : weeding env u os d -> weeding env u (opens d) d.
Proof. intros (? & ? & _). split_and!; [done | done | apply weeded_refl]. Qed.

(** Properties of opens that do not concern stale ones. *)
Lemma weeded_unopened env fsp os os' : weeded env os os' -> unopened fsp os -> unopened fsp os'.
Proof.
  intros Hw H. apply Forall_lookup. intros i o' Ho'.
  destruct (weeded_lookup _ _ _ _ _ Hw Ho') as (o & Ho & [->|(_ & _ & ->)]); [|done].
  by apply (proj1 (Forall_lookup _ _) H i).
Qed.

(** A lease that is named in the request is also asked for. *)
Definition lease_requested (request : Z) (lease : option smb2_lease) : Prop :=
  lease <> None -> request = LEASE_OPLOCK.

Lemma grant_fsp_oplock_type_spec (pf : Prop) env u os fsp mid request lease :
  pf \/ unopened fsp os ->
  length (node (fsp_client_guid fsp)) = 6%nat ->
  (lease <> None -> request = LEASE_OPLOCK \/ request = NO_OPLOCK) ->
  triple pf env (weeding env u os) (grant_fsp_oplock_type fsp mid request lease)
    (fun r d => exists os1, weeded env os os1 /\
       grant_result (lease_requested request lease) u fsp mid (granted_type request lease) (request_id fsp lease)
         os1 r.1.1 d).
Proof.
  intros Hpf Hn Hreq. unfold grant_fsp_oplock_type. apply triple_ask. cbv zeta.
  set (req := if has_bits _ _ then _ else _).
  assert (Hreq' : lease <> None -> req = request).
  { intros Hl. unfold req. by destruct (Hreq Hl) as [-> | ->]. }
  destruct (wanted_lease env req lease) as [wanted|] eqn:Ew; cycle 1.
  { apply triple_ret. intros d (Hwf & Hu & Hw). exists (opens d). split; [done|].
    split_and!; [done | auto | by left]. }
  eapply triple_bind; [by apply grant_loop_spec|].
  intros [v|[]]; apply triple_pre; intros d1 [Hd1 H]; [|done]. destruct H as [Hsame Hgr].
  pose proof Hd1 as (Hwf1 & Hu1 & Hw1). set (g := if has_bits (granted v) _ && _ && _ then _ else _).
  assert (Hg : may_write g = true -> may_write (granted v) = true).
  { unfold g. by destruct (_ && negb (allow_level2 env)). }
  assert (Hpf1 : pf \/ unopened fsp (opens d1)) by (destruct Hpf; [by left | right; by eapply weeded_unopened]).
  assert (Hnone : req = NO_OPLOCK -> oplock_of_lease (if got_handle_lease v then SMB2_LEASE_NONE else g) = NO_OPLOCK).
  { intros E. rewrite E in Ew. injection Ew as <-. cbn in Hgr.
    assert (granted v = 0) as Hv by (by destruct (lp_locking env && file_has_brlocks env), Hgr).
    unfold g. rewrite Hv. by destruct (got_handle_lease v). }
  destruct (req =? LEASE_OPLOCK) eqn:Er; destruct lease as [lease|].
  - eapply triple_conseq; [apply (grant_lease_part pf env (lease_requested request (Some lease)) u fsp mid d1 Hn Hwf1 Hu1 Hpf1
      (granted_type request (Some lease)) lease) | done |].
    + split; [by do 4 right; left | by left].
    + intros Hm. apply Hsame, Hg. revert Hm. destruct (got_oplock v); [|done].
      rewrite may_write_clear. by intros [? _]%andb_true_iff.
    + intros r d Hr. by exists (opens d1).
  - unfold wanted_lease in Ew. by rewrite Er in Ew.
  - apply Z.eqb_neq in Er. assert (req = NO_OPLOCK) as E0.
    { destruct (Hreq ltac:(done)) as [E|E]; rewrite <- Hreq' in E by done; done. }
    eapply triple_conseq; [apply (grant_plain_part pf env (lease_requested request (Some lease)) u fsp mid d1 Hwf1 Hu1 Hpf1
      (granted_type request (Some lease)) (request_id fsp (Some lease))) | done |].
    + intros Hlr. destruct Er. rewrite Hreq' by done. by apply Hlr.
    + split; [by left | by right].
    + rewrite Hnone by done. split; [by left | by right].
    + intros Hm. apply Hsame, Hg. by destruct (got_handle_lease v).
    + intros r d Hr. by exists (opens d1).
  - eapply triple_conseq; [apply (grant_plain_part pf env (lease_requested request None) u fsp mid d1 Hwf1 Hu1 Hpf1
      (granted_type request None) (request_id fsp None)) | done |].
    + done.
    + split; [by left | done].
    + split; [by apply oplock_of_lease_type|]. intros ->. by apply Hnone.
    + intros Hm. apply Hsame, Hg. by destruct (got_handle_lease v).
    + intros r d Hr. by exists (opens d1).
Qed.
