(* ===== verification/ShareOpen.v ===== *)
(** * Opening a file

    What [open_share_mode], the share mode part of open_file_ntcreate
    (source3/smbd/open.c), does to the opens of a record, and when it does not
    panic. *)

From S2P Require Import Prelude.
From S2P Require Import ServerId.
From S2P Require Import DomSid.
From S2P Require Import SecModel.
From S2P Require Import ShareModel.
From S2P Require Import ShareView.
From S2P Require Import ShareOps.
From S2P Require Import ShareGrant.
From stdpp Require Import prelude list.

#[local] Open Scope Z_scope.

(** An open that other opens do not have to wait for: an internal one, or one that
    only reads and writes attributes. *)
Definition quiet (o : sopen) : bool := (op_mid (so_entry o) =? 0) || is_stat_open (e_access_mask (so_entry o)).

(** A new open that may come beside an exclusive oplock. *)
Definition beside (os1 : list sopen) (o : sopen) : Prop :=
  op_mid (so_entry o) = 0 \/
  (is_stat_open (e_access_mask (so_entry o)) = true /\
   (os1 = [] \/ op_type (so_entry o) = NO_OPLOCK \/ op_type (so_entry o) = LEASE_OPLOCK)).

Lemma beside_quiet os1 o : beside os1 o -> quiet o = true.
Proof. unfold quiet. intros [-> | [-> _]]; [done | apply orb_true_r]. Qed.

(** What is left of the opens [os]. *)
Definition remains (env : share_env) (os os1 : list sopen) : Prop :=
  exists osa osb, weeded env os osa /\ osb ⊆+ osa /\ weeded env osb os1.

(** A lease that is named is also asked for: oplocks have not been turned off. *)
Definition honoured (a : open_args) : Prop := oa_lease a <> None -> oa_oplocks a = true.

Lemma granted_over_mono (r r' u : Prop) id os1 o l :
  (r' -> r) -> granted_over r u id os1 o l -> granted_over r' u id os1 o l.
Proof. intros Hr [H1 H2 H3|l0 l' H1 H2 H3 H4 H5]; [apply Granted_new | apply Granted_old]; auto. Qed.

Lemma effective_cases a :
  (oa_lease a <> None -> oa_oplock_request a = LEASE_OPLOCK) -> oa_lease a <> None ->
  (effective_request a = LEASE_OPLOCK \/ effective_request a = NO_OPLOCK) /\
  (honoured a -> effective_request a = LEASE_OPLOCK).
Proof.
  intros Hreq Hl. unfold effective_request, honoured. rewrite (Hreq Hl). destruct (oa_oplocks a); [auto|].
  split; [by right|]. intros H. by specialize (H Hl).
Qed.

(** The private bit is not touched. *)
Lemma effective_internal a :
  has_bits (effective_request a) INTERNAL_OPEN_ONLY = has_bits (oa_oplock_request a) INTERNAL_OPEN_ONLY.
Proof. unfold effective_request, has_bits. destruct (oa_oplocks a); [done|]. by rewrite <- Z.land_assoc. Qed.

Definition opened (env : share_env) (u : Prop) (fsp : share_fsp) (a : open_args) (os : list sopen)
    (status : NTSTATUS) (d : share_mode_data) : Prop :=
  wf d /\ (status <> NT_STATUS_NO_MEMORY -> u -> used d) /\
  exists os1, remains env os os1 /\
  (opens d ⊆+ os1 \/
   exists o l, granted_entry (with_access_mask fsp (stored_mask a)) (mid_of a) (fun t => t ∈ oplock_types) o /\
     granted_over (honoured a) u (request_id fsp (oa_lease a)) os1 o l /\ opens d ⊆+ l ++ [o] /\
     (is_stat_open (oa_access_mask a) = true \/
      Forall (active (fun o => ~ conflicts (oa_access_mask a) (fsp_share_access fsp) o)) os1) /\
     (beside os1 o \/ Forall (active (no_write (request_id fsp (oa_lease a)))) os1)).

Lemma stat_open_stored a : is_stat_open (open_access_mask a) = true -> is_stat_open (stored_mask a) = true.
Proof.
  unfold open_access_mask, stored_mask, is_stat_open. intros [Hb Hc]%andb_true_iff.
  apply Z.eqb_eq in Hc. destruct (oa_truncate a).
  { exfalso. assert (Z.testbit (clear_bits (Z.lor (oa_access_mask a) FILE_WRITE_DATA) stat_open_bits) 1 = true) as Ht.
    { unfold clear_bits. rewrite Z.ldiff_spec, Z.lor_spec. cbn. by rewrite orb_true_r. }
    by rewrite Hc, Z.bits_0 in Ht. }
  destruct (oa_using_smb2 a); [by rewrite Hb, Hc|].
  apply andb_true_iff. split.
  - apply negb_true_iff, Z.eqb_neq. intros H.
    assert (Z.testbit (Z.land (Z.lor (oa_access_mask a) FILE_READ_ATTRIBUTES) stat_open_bits) 7 = true) as Ht.
    { rewrite Z.land_spec, Z.lor_spec. cbn. by rewrite orb_true_r. }
    by rewrite H, Z.bits_0 in Ht.
  - apply Z.eqb_eq. unfold clear_bits in *. apply Z.bits_inj'. intros n Hn.
    assert (Hz : Z.testbit (Z.ldiff (oa_access_mask a) stat_open_bits) n = false) by by rewrite Hc, Z.bits_0.
    rewrite Z.ldiff_spec in *. rewrite Z.lor_spec, Z.bits_0.
    change stat_open_bits with 0x100180 in *. change FILE_READ_ATTRIBUTES with (2 ^ 7).
    rewrite Z.pow2_bits_eqb by lia. destruct (Z.eqb_spec 7 n) as [<-|]; [by rewrite orb_true_r|].
    by rewrite orb_false_r.
Qed.

Section open_file.
Context (pf : Prop) (env : share_env) (u : Prop) (fsp : share_fsp) (a : open_args).
Context (Hn : length (node (fsp_client_guid fsp)) = 6%nat).
Context (Hreq : oa_lease a <> None -> oa_oplock_request a = LEASE_OPLOCK).

Lemma opened_without os status status' k d d' :
  opened env u fsp a os status d -> status = NT_STATUS_OK -> without k d d' -> opened env u fsp a os status' d'.
Proof.
  intros (Hwf & Hu & os1 & Hr & Hres) -> (Hwf' & Hu' & Hp).
  assert (Hsub : opens d' ⊆+ opens d) by (rewrite Hp; by apply submseteq_inserts_l).
  split; [done|]. split; [auto|]. exists os1. split; [done|].
  destruct Hres as [?|(o & l & ? & ? & Hl & ? & ?)]; [left; by etrans | right].
  exists o, l. split_and!; [done | done | by etrans | done | done].
Qed.

Lemma open_stopped os d d' status :
  remains env os (opens d) -> weeding env u (opens d) d' -> opened env u fsp a os status d'.
Proof.
  intros (osa & osb & ? & ? & ?) (Hwf & Hu & Hw). split; [done|]. split; [auto|].
  exists (opens d'). split; [exists osa, osb; by eauto using weeded_trans | by left].
Qed.

(** The last part: the record has been looked through, the open is granted. *)
Lemma open_grant_spec os d request :
  pf \/ unopened fsp (opens d) ->
  remains env os (opens d) -> weeding env u (opens d) d ->
  (oa_lease a <> None -> (request = LEASE_OPLOCK \/ request = NO_OPLOCK) /\ (honoured a -> request = LEASE_OPLOCK)) ->
  (is_stat_open (oa_access_mask a) = true \/
   Forall (active (fun o => ~ conflicts (oa_access_mask a) (fsp_share_access fsp) o)) (opens d)) ->
  (oa_mid a = None \/
   (is_stat_open (open_access_mask a) = true /\
    (oa_lease a = None -> request = NO_OPLOCK \/ opens d = [])) \/
   Forall (active (no_write (request_id fsp (oa_lease a)))) (opens d)) ->
  triple pf env (fun d0 => d0 = d)
    (open_grant fsp a request) (opened env u fsp a os).
Proof using Hn Hreq.
  intros Hpf Hrem Hd Hr Hconf Hquiet. unfold open_grant.
  destruct (negb _); [apply triple_ret_at; by eapply (open_stopped _ d)|]. cbv zeta.
  destruct Hrem as (osa & osb & H1 & H2 & H3). eapply triple_bind.
  { eapply triple_conseq; [apply (grant_fsp_oplock_type_spec pf env u (opens d) (with_access_mask fsp (stored_mask a))) |
      by intros ? -> | done]; [done | done | by intros Hl; apply Hr]. }
  intros r. apply triple_pre. intros d' Hgrant. cut (opened env u fsp a os r.1.1 d').
  { intros Hop. destruct (NT_STATUS_IS_OK r.1.1) eqn:Eok; cbn [negb]; [|by apply triple_ret_at].
    apply Z.eqb_eq in Eok. change 0 with NT_STATUS_OK in Eok.
    destruct (negb _); [|apply triple_ret_at; by rewrite <- Eok].
    eapply triple_bind; [apply del_share_mode_spec, Hop|].
    intros [|]; apply triple_ret; [intros d2 (e & _ & _ & ?) | intros d2 [-> _]]; [by eapply opened_without|].
    destruct Hop as (Hwf & Hu & Hres). split_and!; [done | rewrite Eok in Hu; auto | done]. }
  clear Hpf. destruct Hgrant as (os1 & Hw & Hwf & Hu & Hres).
  split; [done|]. split; [done|]. exists os1. split; [exists osa, osb; by eauto using weeded_trans|].
  destruct Hres as [Hsub|(o & l & (uid & t & idx & Ho & Ht) & Hgr & Hsub)]; [by left | right].
  exists o, l. destruct Ht as [Htt Ht]. split_and!; [by exists uid, t, idx | | done | |].
  - eapply granted_over_mono; [|done]. intros Hh Hl. by apply (Hr Hl).
  - destruct Hconf as [?|Hf]; [by left | right]. by eapply weeded_Forall.
  - unfold beside. rewrite Ho.
    change (op_mid (erase _)) with (mid_of a). change (e_access_mask (erase _)) with (stored_mask a).
    change (op_type (erase _)) with t.
    destruct Hquiet as [Hm|[[Hs Hty]|Hf]].
    + left. left. unfold mid_of. by rewrite Hm.
    + left. right. split; [by apply stat_open_stored|]. destruct (oa_lease a); [destruct Ht; auto|]. destruct Hty as [?|Hnil]; [done | auto|].
      left. rewrite Hnil in Hw. by inversion Hw.
    + right. by eapply weeded_Forall.
Qed.

(** The assertion on internal opens. *)
Definition asserted : Prop :=
  match oa_mid a with
  | None => has_bits (oa_oplock_request a) INTERNAL_OPEN_ONLY = true
  | Some _ => has_bits (oa_oplock_request a) INTERNAL_OPEN_ONLY = false
  end.

(** What the function needs not to panic. *)
Definition openable (os : list sopen) : Prop := asserted /\ oplocks_ok os /\ unopened fsp os.

Lemma remains_unopened os os1 : remains env os os1 -> unopened fsp os -> unopened fsp os1.
Proof.
  intros (osa & osb & H1 & H2 & H3) H. eapply weeded_unopened; [exact H3|].
  apply (weeded_unopened _ _ _ _ H1) in H. apply Forall_forall. intros x Hx.
  unfold unopened in H. rewrite Forall_forall in H. by eapply H, elem_of_submseteq.
Qed.

(** After the checks: waiting for oplocks, and the end. *)
Lemma open_wait_spec os d1 d3 status :
  (oa_mid a <> None -> has_bits (oa_oplock_request a) INTERNAL_OPEN_ONLY = false) ->
  pf \/ unopened fsp (opens d3) ->
  (forall d', weeding env u (opens d1) d' -> remains env os (opens d')) ->
  weeding env u (opens d1) d3 ->
  status = NT_STATUS_OK \/ status = NT_STATUS_SHARING_VIOLATION ->
  (status = NT_STATUS_OK -> is_stat_open (oa_access_mask a) = true \/
     Forall (active (fun o => ~ conflicts (oa_access_mask a) (fsp_share_access fsp) o)) (opens d3)) ->
  triple pf env (fun d0 => d0 = d3)
    (d ← data;
     let file_existed := oa_file_existed a || (status =? NT_STATUS_SHARING_VIOLATION) ||
                         (0 <? length (share_modes d))%nat in
     delay ← match oa_mid a with
             | Some _ =>
                 delay_for_oplock (with_access_mask fsp (open_access_mask a)) (effective_request a)
                   (oa_lease a) (status =? NT_STATUS_SHARING_VIOLATION) (oa_create_disposition a)
                   (oa_first_open_attempt a)
             | None => mret false
             end;
     if delay : bool then mret NT_STATUS_SHARING_VIOLATION
     else if negb (NT_STATUS_IS_OK status)
     then if status =? NT_STATUS_SHARING_VIOLATION then mret (sharing_violation a) else panic
     else
       open_grant fsp a
         (if file_existed && is_stat_open (open_access_mask a) && bool_decide (oa_lease a = None)
          then NO_OPLOCK else effective_request a))
    (opened env u fsp a os).
Proof using Hn Hreq.
  intros Hint Hpf Hr1 Hd3 Hst Hok.
  apply triple_data_at. cbv zeta.
  set (Delay := fun (delay : bool) d' => weeding env u (opens d3) d' /\
     (status = NT_STATUS_OK -> delay = false -> oa_mid a = None \/ is_stat_open (open_access_mask a) = true \/
      Forall (active (no_write (request_id fsp (oa_lease a)))) (opens d'))).
  apply (triple_bind _ _ _ Delay).
  { destruct (oa_mid a) as [mid|] eqn:Em; [|apply triple_ret_at; split; [by eapply rebase | auto]].
    eapply triple_conseq;
      [apply (delay_for_oplock_spec pf env u (opens d3) (with_access_mask fsp (open_access_mask a)) (oa_lease a) Hn)
      | intros ? ->; by eapply rebase |].
    intros delay d' [Hd' H]. split; [done|]. intros -> Hdel. right.
    destruct (is_stat_open (open_access_mask a)) eqn:Es; [by left|]. right.
    apply H; [done | done | rewrite effective_internal; by apply Hint | done]. }
  intros delay. apply triple_pre. intros d4 [Hd4 Hdel].
  pose proof (weeding_trans _ _ _ _ _ Hd3 Hd4) as Hd14.
  destruct delay; [apply triple_ret_at; eapply (open_stopped _ d4); eauto using rebase|].
  destruct Hst as [->| ->]; cbn [negb NT_STATUS_IS_OK Z.eqb]; cycle 1.
  { apply triple_ret_at. eapply (open_stopped _ d4); eauto using rebase. }
  apply open_grant_spec; [| eauto | by eapply rebase | | |].
  - destruct Hpf as [?|Hun]; [by left | right]. eapply weeded_unopened; [|done]. apply Hd4.
  - intros Hl. rewrite bool_decide_eq_false_2 by done. rewrite andb_false_r. by apply effective_cases.
  - destruct (Hok eq_refl) as [?|Hf]; [by left | right]. eapply weeded_Forall; [|done]. apply Hd4.
  - destruct (Hdel eq_refl eq_refl) as [?|[Hs|?]]; [auto | | auto]. right. left. split; [done|]. intros Hl.
    rewrite Hs, (bool_decide_eq_true_2 (oa_lease a = None)), !andb_true_r by done.
    destruct (Nat.ltb_spec 0 (length (share_modes d3))) as [|Hlen]; [rewrite !orb_true_r; by left | right].
    apply nil_length_inv. rewrite length_opens, (weeding_length _ _ _ _ Hd4), length_opens. lia.
Qed.

Lemma open_share_mode_spec d :
  pf \/ openable (opens d) -> wf d -> (u -> used d) ->
  triple pf env (fun d0 => d0 = d) (open_share_mode fsp a) (opened env u fsp a (opens d)).
Proof using Hn Hreq.
  intros Hpf Hwf Hu. unfold open_share_mode. cbv zeta.
  destruct (match oa_mid a with None => _ | Some _ => _ end) eqn:Eint.
  { apply triple_panic. intros _ _. destruct Hpf as [?|[Ha _]]; [done|]. unfold asserted in Ha.
    destruct (oa_mid a); [congruence|]. by rewrite Ha in Eint. }
  eapply triple_bind.
  { eapply triple_conseq; [apply (triple_and pf env _ _ _ (oplocks_ok (opens d)) (fun b _ => b = true)
        (validate_oplock_types_spec pf env u (opens d)) (validate_oplock_types_ok pf env u (opens d))) | | done].
    intros ? ->. split_and!; [done | done | apply weeded_refl]. }
  intros valid. apply triple_pre. intros d1 ((osa & Hwa & Hwf1 & Hu1 & Hsub1) & Hval).
  destruct valid; cbn [negb]; cycle 1.
  { apply triple_panic. intros _ _. destruct Hpf as [?|(_ & Ho & _)]; [done|]. by specialize (Hval Ho). }
  assert (Hr1 : forall d', weeding env u (opens d1) d' -> remains env (opens d) (opens d')).
  { intros d' (_ & _ & ?). by exists osa, (opens d1). }
  assert (Hd1 : weeding env u (opens d1) d1) by (split_and!; [done | done | apply weeded_refl]).
  eapply triple_bind.
  { eapply triple_conseq; [apply (has_delete_on_close_spec pf env u (opens d1)) | by intros ? -> | done]. }
  intros pending. apply triple_pre. intros d2 Hd2.
  destruct pending; [apply triple_ret_at; eapply (open_stopped _ d2); eauto using rebase|].
  eapply triple_bind.
  { eapply triple_conseq; [apply (open_mode_check_spec pf env u (opens d1)) | by intros ? -> | done]. }
  intros status. apply triple_pre. intros d3 (Hd3 & Hst & Hok).
  apply (open_wait_spec _ d1); [by destruct (oa_mid a) | | auto..].
  destruct Hpf as [?|(_ & _ & Hun)]; [by left | right]. by eapply remains_unopened; [apply Hr1|].
Qed.
End open_file.
