(* ===== verification/ShareReach.v ===== *)
(** * The share mode records that can be reached

    A record starts empty; each step reads the stored record, runs one operation
    of ShareModel on it under its lock and stores the result. The invariant: the
    entries and leases fit together, no two opens have a sharing conflict, and a
    write lease or exclusive oplock excludes every other open that counts. *)

From S2P Require Import Prelude.
From S2P Require Import ServerId.
From S2P Require Import DomSid.
From S2P Require Import SecModel.
From S2P Require Import ShareModel.
From S2P Require Import ShareView.
From S2P Require Import ShareOps.
From S2P Require Import ShareGrant.
From S2P Require Import ShareOpen.
From stdpp Require Import prelude list.

#[local] Open Scope Z_scope.
#[local] Arguments Z.testbit : simpl never.

(** ** Operations and steps *)

Inductive share_op :=
| Open (fsp : share_fsp) (a : open_args)
| Open_directory (fsp : share_fsp) (mid access_mask : Z)
| Close (fsp : share_fsp)
| Break_message (fsp : share_fsp) (fo : fsp_oplock) (break_to : Z)
| Lease_ack (g : GUID) (key : smb2_lease_key) (lease_state : Z)
| Oplock_none (fsp : share_fsp)
| Oplock_level2 (fsp : share_fsp)
| Disconnect (fsp : share_fsp)
| Reconnect (fsp : share_fsp) (mid persistent_id : Z) (can_write : bool) (rest : NTSTATUS)
| Set_delete_on_close (fsp : share_fsp) (nt_tok : security_token) (tok : security_unix_token)
| Reset_delete_on_close (fsp : share_fsp).

Definition run_op (op : share_op) : M NTSTATUS :=
  match op with
  | Open fsp a => open_share_mode fsp a
  | Open_directory fsp mid access_mask => open_directory_share_mode fsp mid access_mask
  | Close fsp => _ ← del_share_mode fsp; mret NT_STATUS_OK
  | Break_message fsp fo break_to => _ ← process_oplock_break_message fsp fo break_to; mret NT_STATUS_OK
  | Lease_ack g key lease_state => downgrade_lease g key lease_state
  | Oplock_none fsp => _ ← remove_oplock_under_lock fsp; mret NT_STATUS_OK
  | Oplock_level2 fsp => _ ← downgrade_oplock fsp; mret NT_STATUS_OK
  | Disconnect fsp => _ ← mark_share_mode_disconnected fsp; mret NT_STATUS_OK
  | Reconnect fsp mid id can_write rest => reconnect_share_mode fsp mid id can_write rest
  | Set_delete_on_close fsp nt_tok tok => set_delete_on_close_lck fsp nt_tok tok;; mret NT_STATUS_OK
  | Reset_delete_on_close fsp => reset_delete_on_close_lck fsp;; mret NT_STATUS_OK
  end.

(** The status and the record that is stored; [None] when the server panics. *)
Definition step (env : share_env) (op : share_op) (d : share_mode_data)
    : option (NTSTATUS * share_mode_data) :=
  match run_op op env (Share_state d []) with
  | Some (status, s) => Some (status, store_share_modes d (sd s))
  | None => None
  end.

Definition valid_guid (g : GUID) : Prop := length (node g) = 6%nat.

(** The open file and its entry agree on having no lease. *)
Definition plain_oplock (fsp : share_fsp) (d : share_mode_data) : Prop :=
  Forall (fun e => owned fsp e = true -> op_type e <> LEASE_OPLOCK) (share_modes d).

(** The entry of the open file has an exclusive or batch oplock. *)
Definition exclusive_owner (fsp : share_fsp) (d : share_mode_data) : Prop :=
  Forall (fun e => owned fsp e = true -> EXCLUSIVE_OPLOCK_TYPE (op_type e) = true) (share_modes d).

(** What the callers of the operations see to. [dir] tells whether the record is
    that of a directory. A request that names a lease comes in asking for one
    (source3/smbd/smb2_create.c), before [open_share_mode] looks at whether oplocks
    are on; every break takes away the write or the handle
    bit (the callers of send_break_message); remove_oplock is for open files without
    lease, and downgrade_oplock for those with an exclusive oplock. *)
Definition permitted (dir : bool) (op : share_op) (d : share_mode_data) : Prop :=
  match op with
  | Open fsp a => dir = false /\ valid_guid (fsp_client_guid fsp) /\
                  (oa_lease a <> None -> oa_oplock_request a = LEASE_OPLOCK)
  | Open_directory fsp mid access_mask => dir = true
  | Break_message fsp fo break_to =>
      valid_guid (fsp_client_guid fsp) /\ has_bits break_to SMB2_LEASE_WRITE && has_bits break_to SMB2_LEASE_HANDLE = false /\
      (fo_type fo <> LEASE_OPLOCK -> plain_oplock fsp d)
  | Lease_ack g key lease_state => valid_guid g
  | Oplock_none fsp => plain_oplock fsp d
  | Oplock_level2 fsp => exclusive_owner fsp d
  | _ => True
  end.

(** An open that names a lease does not have its request masked away: oplocks are on
    for the share and not vetoed for the path. *)
Definition honours (op : share_op) : Prop :=
  match op with Open _ a => honoured a | _ => True end.

(** [strict]: no operation has failed for want of memory, and leases were only named
    where oplocks are on. *)
Inductive reach (dir strict : bool) : share_mode_data -> Prop :=
| Reach_fresh : reach dir strict fresh_share_mode_data
| Reach_step d env op status d' :
    reach dir strict d -> permitted dir op d -> step env op d = Some (status, d') ->
    (strict = true -> status <> NT_STATUS_NO_MEMORY /\ honours op) ->
    reach dir strict d'.

(** ** Pairs of opens *)

(** Two opens that may be there at the same time. A disconnected open does not
    conflict with others; it is looked at again when it is reconnected. *)
Definition connected (o : sopen) : Prop := server_id_is_disconnected (e_pid (so_entry o)) = false.

Definition compatible (o1 o2 : sopen) : Prop :=
  open_stale o1 = false -> open_stale o2 = false -> connected o1 -> connected o2 ->
  share_conflict (so_entry o1) (e_access_mask (so_entry o2)) (e_share_access (so_entry o2)) = false.

Definition shares_lease (o1 o2 : sopen) : Prop :=
  exists l1 l2, so_lease o1 = Some l1 /\ so_lease o2 = Some l2 /\ lease_id l1 = lease_id l2.

Definition excludes (o1 o2 : sopen) : Prop :=
  open_stale o1 = false -> open_stale o2 = false ->
  may_write (open_type o1) = true -> quiet o2 = true \/ shares_lease o1 o2.

(** An exclusive or batch oplock, and the opens that may be beside it. *)
Definition exclusive_oplock (o : sopen) : bool :=
  match so_lease o with None => exclusive_type o | Some _ => false end.

Definition harmless (o : sopen) : Prop :=
  op_mid (so_entry o) = 0 \/
  (is_stat_open (e_access_mask (so_entry o)) = true /\
   (op_type (so_entry o) = NO_OPLOCK \/ op_type (so_entry o) = LEASE_OPLOCK)).

Definition alone (o1 o2 : sopen) : Prop :=
  open_stale o1 = false -> open_stale o2 = false -> exclusive_oplock o1 = true -> harmless o2.

Lemma share_conflict_sym e1 e2 :
  server_id_is_disconnected (e_pid e1) = false -> server_id_is_disconnected (e_pid e2) = false ->
  share_conflict e1 (e_access_mask e2) (e_share_access e2) =
  share_conflict e2 (e_access_mask e1) (e_share_access e1).
Proof.
  intros H1 H2. unfold share_conflict. rewrite H1, H2.
  destruct (has_bits (e_access_mask e1) DATA_ACCESS), (has_bits (e_access_mask e2) DATA_ACCESS); try done.
  cbn [negb]. generalize (CHECK_MASK (e_access_mask e1)) (CHECK_MASK (e_access_mask e2)). intros c1 c2.
  repeat match goal with |- context [?c ?x ?y ?z] =>
    match c with c1 => destruct (c1 x y z) | c2 => destruct (c2 x y z) end end; done.
Qed.

Lemma opens_compatible_sym o1 o2 : compatible o1 o2 -> compatible o2 o1.
Proof. intros H ? ? ? ?. rewrite share_conflict_sym by done. by apply H. Qed.

(** The break of a lease as far as the write and handle bits are concerned. *)
Definition lease_ok (l : share_mode_lease) : Prop :=
  breaking l = true ->
  (forall b, b = 1 \/ b = 2 ->
     (Z.testbit (breaking_to_required l) b = true -> Z.testbit (breaking_to_requested l) b = true) /\
     (Z.testbit (breaking_to_requested l) b = true -> Z.testbit (current_state l) b = true)) /\
  Z.testbit (breaking_to_requested l) 1 && Z.testbit (breaking_to_requested l) 2 = false.

Definition open_ok (o : sopen) : Prop := forall l, so_lease o = Some l -> lease_ok l.

(** The parts of the invariant: of any record, of those of strict runs, and of files
    in strict runs. *)
Definition inv (dir strict : bool) (d : share_mode_data) : Prop :=
  wf d /\ all_pairs compatible (opens d) /\ (strict = true -> used d) /\
  (dir = false -> strict = true ->
   all_pairs excludes (opens d) /\ all_pairs alone (opens d) /\ Forall open_ok (opens d)).

(** ** The steps of an open keep the invariant *)

Lemma weeded_all_pairs env (R : sopen -> sopen -> Prop) os os' :
  (forall x y, open_stale x = true \/ open_stale y = true -> R x y) ->
  weeded env os os' -> all_pairs R os -> all_pairs R os'.
Proof.
  intros HR. apply all_pairs_Forall2. intros x x' y y' [->|(_ & _ & ->)] [->|(_ & _ & ->)] H;
    [done | apply HR; by right | apply HR; by left | apply HR; by left].
Qed.

Lemma compatible_stale x y : open_stale x = true \/ open_stale y = true -> compatible x y.
Proof. intros H ? ?. destruct H; congruence. Qed.

Lemma excludes_stale x y : open_stale x = true \/ open_stale y = true -> excludes x y.
Proof. intros H ? ?. destruct H; congruence. Qed.

Lemma alone_stale x y : open_stale x = true \/ open_stale y = true -> alone x y.
Proof. intros H ? ?. destruct H; congruence. Qed.

Lemma weeded_open_ok env os os' : weeded env os os' -> Forall open_ok os -> Forall open_ok os'.
Proof.
  intros Hw H. apply Forall_lookup. intros i o' Ho'. destruct (weeded_lookup _ _ _ _ _ Hw Ho') as (o & Ho & [->|(_ & _ & ->)]).
  - by apply (proj1 (Forall_lookup _ _) H i).
  - by intros l Hl.
Qed.

Lemma Forall_submseteq {A} (P : A -> Prop) l l' : l' ⊆+ l -> Forall P l -> Forall P l'.
Proof. intros Hs H. apply Forall_forall. intros x Hx. rewrite Forall_forall in H. by eapply H, elem_of_submseteq. Qed.

(** Properties that hold of what is left. *)
Definition hereditary (env : share_env) (P : list sopen -> Prop) : Prop :=
  (forall os os', weeded env os os' -> P os -> P os') /\ (forall os os', os' ⊆+ os -> P os -> P os').

Lemma hereditary_all_pairs env R :
  (forall x y, open_stale x = true \/ open_stale y = true -> R x y) -> hereditary env (all_pairs R).
Proof. intros HR. split; [intros; by eapply weeded_all_pairs | intros; by eapply all_pairs_submseteq]. Qed.

Lemma hereditary_ok env : hereditary env (Forall open_ok).
Proof. split; [apply weeded_open_ok | intros os os'; apply Forall_submseteq]. Qed.

Definition typed (o : sopen) : Prop := op_type (so_entry o) ∈ oplock_types.

Lemma hereditary_typed env : hereditary env (Forall typed).
Proof.
  split; [|intros os os'; apply Forall_submseteq]. intros os os' Hw H. apply Forall_lookup. intros i o' Ho'.
  destruct (weeded_lookup _ _ _ _ _ Hw Ho') as (o & Ho & [->|(_ & _ & ->)]); [|by left].
  by apply (proj1 (Forall_lookup _ _) H i).
Qed.

Lemma wf_typed d : wf d -> Forall typed (opens d).
Proof. intros [H _]. apply Forall_fmap. eapply Forall_impl; [exact H|]. by intros e [? _]. Qed.

Lemma remains_hereditary env P os os1 : hereditary env P -> remains env os os1 -> P os -> P os1.
Proof. intros [Hw Hs] (osa & osb & H1 & H2 & H3) H. eauto. Qed.

Lemma has_bits_lor m r x : Z.land r x = 0 -> has_bits (Z.lor m r) x = has_bits m x.
Proof. intros H. unfold has_bits. by rewrite Z.land_lor_distr_l, H, Z.lor_0_r. Qed.

Lemma share_conflict_attributes e m sa :
  share_conflict e (Z.lor m FILE_READ_ATTRIBUTES) sa = share_conflict e m sa.
Proof. unfold share_conflict, CHECK_MASK. by rewrite !has_bits_lor by done. Qed.

Lemma stat_open_no_data m : is_stat_open m = true -> has_bits m DATA_ACCESS = false.
Proof.
  intros [_ H%Z.eqb_eq]%andb_true_iff. apply negb_false_iff, Z.eqb_eq. unfold clear_bits in H.
  assert (m = Z.land m stat_open_bits) as ->.
  { pose proof (Z.lor_ldiff_and m stat_open_bits) as E. by rewrite H, Z.lor_0_l in E. }
  by rewrite <- Z.land_assoc, Z.land_0_r.
Qed.

Lemma stat_open_no_conflict e m sa : is_stat_open m = true -> share_conflict e m sa = false.
Proof.
  intros H. unfold share_conflict. rewrite (stat_open_no_data m H).
  destruct (server_id_is_disconnected _); [done|]. by destruct (has_bits (e_access_mask e) DATA_ACCESS).
Qed.

(** A new open that has been checked against the others. *)
Definition checked_open (am sa : Z) (os1 : list sopen) : Prop :=
  is_stat_open am = true \/ Forall (active (fun o => ~ conflicts am sa o)) os1.

Lemma checked_open_compatible am sa os1 o x :
  checked_open am sa os1 -> x ∈ os1 -> e_share_access (so_entry o) = sa ->
  e_access_mask (so_entry o) = am \/ e_access_mask (so_entry o) = Z.lor am FILE_READ_ATTRIBUTES ->
  compatible x o.
Proof.
  intros Hc Hx Hsa Ham Hs1 Hs2 Hc1 Hc2.
  assert (share_conflict (so_entry x) (e_access_mask (so_entry o)) (e_share_access (so_entry o)) =
          share_conflict (so_entry x) am sa) as ->.
  { rewrite Hsa. destruct Ham as [-> | ->]; [done | apply share_conflict_attributes]. }
  destruct Hc as [Hst|Hf]; [by apply stat_open_no_conflict|].
  rewrite Forall_forall in Hf. destruct (Hf x Hx) as [?|Hn]; [unfold open_stale in *; congruence|].
  by apply not_true_iff_false.
Qed.

Lemma Forall2_fmap_self {A} (S : A -> A -> Prop) (f : A -> A) l :
  Forall (fun x => S x (f x)) l -> Forall2 S l (f <$> l).
Proof. induction 1; constructor; done. Qed.

(** The same opens, but for the states of their leases. *)
Definition same_entries (l l' : list sopen) : Prop := Forall2 (fun x x' => so_entry x' = so_entry x) l l'.

Lemma same_entries_fmap f l : (forall x, so_entry (f x) = so_entry x) -> same_entries l (f <$> l).
Proof. intros H. induction l; constructor; auto. Qed.

Lemma same_entries_refl l : same_entries l l.
Proof. induction l; by constructor. Qed.

Lemma granted_same_entries r u id os1 o l : granted_over r u id os1 o l -> same_entries os1 l.
Proof.
  intros []; [apply same_entries_refl | by apply same_entries_fmap].
Qed.

Lemma compatible_same_entries l l' : same_entries l l' -> all_pairs compatible l -> all_pairs compatible l'.
Proof.
  apply all_pairs_Forall2. intros x x' y y' Hx Hy H. unfold compatible, open_stale, connected in *. by rewrite Hx, Hy.
Qed.

Lemma compatible_snoc am sa os1 l o :
  all_pairs compatible os1 -> same_entries os1 l -> checked_open am sa os1 ->
  e_share_access (so_entry o) = sa ->
  e_access_mask (so_entry o) = am \/ e_access_mask (so_entry o) = Z.lor am FILE_READ_ATTRIBUTES ->
  all_pairs compatible (l ++ [o]).
Proof.
  intros Hp Hsame Hc Hsa Ham. apply all_pairs_snoc; [by apply (compatible_same_entries os1)|].
  intros i x Hi. destruct (Forall2_lookup_r _ _ _ _ _ Hsame Hi) as (x0 & Hx0 & He).
  assert (compatible x o).
  { pose proof (checked_open_compatible am sa os1 o x0 Hc (list_elem_of_lookup_2 _ _ _ Hx0) Hsa Ham) as H.
    unfold compatible, open_stale, connected in *. by rewrite He. }
  split; [done | by apply opens_compatible_sym].
Qed.

Lemma opened_compatible env u fsp a os status d :
  opened env u fsp a os status d -> all_pairs compatible os -> all_pairs compatible (opens d).
Proof.
  intros (_ & _ & os1 & Hrem & H) Hp.
  apply (remains_hereditary env _ _ _ (hereditary_all_pairs env _ compatible_stale) Hrem) in Hp.
  destruct H as [Hs|(o & l & (uid & t & idx & Ho & _) & Hg & Hs & Hc & _)]; [by eapply all_pairs_submseteq|].
  eapply all_pairs_submseteq; [done|]. eapply compatible_snoc; [done | by eapply granted_same_entries | done | |].
  - by rewrite Ho.
  - rewrite Ho. cbn. unfold stored_mask. destruct (oa_using_smb2 a); auto.
Qed.

Lemma shares_lease_sym o1 o2 : shares_lease o1 o2 -> shares_lease o2 o1.
Proof. intros (l1 & l2 & ? & ? & ?). by exists l2, l1. Qed.

Lemma shares_lease_trans o1 o2 o3 : shares_lease o1 o2 -> shares_lease o2 o3 -> shares_lease o1 o3.
Proof. intros (l1 & l2 & ? & ? & ?) (l2' & l3 & ? & ? & ?). exists l1, l3. split_and!; [done | done | congruence]. Qed.

Lemma same_lease_shares id o1 o2 : same_lease id o1 -> same_lease id o2 -> shares_lease o1 o2.
Proof. intros (l1 & ? & ?) (l2 & ? & ?). exists l1, l2. split_and!; [done | done | congruence]. Qed.

Section replace.
Context (l0 l : share_mode_lease) (Hid : lease_id l0 = lease_id l).
Let r := replace_lease l0 l.

Lemma replace_same_lease id x : same_lease id x -> same_lease id (r x).
Proof using Hid.
  intros (l1 & Hl & ->). unfold same_lease, r, replace_lease. cbn. rewrite Hl.
  case_decide as E; [|by exists l1]. injection E as ->. exists l. by rewrite Hid.
Qed.

Lemma replace_shares_lease x y : shares_lease x y -> shares_lease (r x) (r y).
Proof using Hid.
  intros (l1 & l2 & H1 & H2 & H). apply (same_lease_shares (Some (lease_id l1))); apply replace_same_lease.
  - by exists l1.
  - exists l2. by rewrite H.
Qed.

Lemma replace_type x : so_lease x <> Some l0 -> open_type (r x) = open_type x.
Proof. intros H. unfold r, replace_lease, open_type. cbn. by rewrite decide_False. Qed.

Lemma replace_type_eq x : so_lease x = Some l0 -> open_type (r x) = current_state l.
Proof. intros H. unfold r, replace_lease, open_type. cbn. by rewrite decide_True. Qed.
End replace.

Lemma excludes_intro x y : (may_write (open_type x) = true -> shares_lease x y) -> excludes x y.
Proof. intros H _ _ ?. right. auto. Qed.

Lemma active_same id os1 x :
  Forall (active (same_lease id)) os1 -> x ∈ os1 -> open_stale x = false -> same_lease id x.
Proof. intros H Hx Hs. rewrite Forall_forall in H. destruct (H x Hx); [unfold open_stale in *; congruence | done]. Qed.

Lemma active_no_write id os1 x :
  Forall (active (no_write id)) os1 -> x ∈ os1 -> open_stale x = false ->
  may_write (open_type x) = true -> same_lease id x.
Proof.
  intros H Hx Hs Hm. rewrite Forall_forall in H.
  destruct (H x Hx) as [?|[?|?]]; [unfold open_stale in *; congruence | congruence | done].
Qed.

Lemma excludes_granted_new id os1 o :
  (id <> None -> same_lease id o) ->
  (may_write (open_type o) = true -> Forall (active (same_lease id)) os1) ->
  all_pairs excludes os1 -> quiet o = true \/ Forall (active (no_write id)) os1 ->
  all_pairs excludes (os1 ++ [o]).
Proof.
  intros Ho Hw Hp Hq. apply all_pairs_snoc; [done|]. intros i x Hi.
  pose proof (list_elem_of_lookup_2 _ _ _ Hi) as Hx.
  assert (Hsame : same_lease id x -> shares_lease x o).
  { intros Hs. apply (same_lease_shares id); [done|]. apply Ho. by destruct Hs as (? & _ & ->). }
  split; intros Hs1 Hs2 Hm.
  - destruct Hq as [Hq|Hq]; [by left | right]. apply Hsame. by eapply active_no_write.
  - right. apply shares_lease_sym, Hsame. by eapply active_same; [apply Hw| |].
Qed.

Lemma excludes_granted_old id os1 o l0 l :
  lease_id l0 = lease_id l -> so_lease o = Some l -> id = Some (lease_id l) ->
  (l = l0 \/ (may_write (current_state l) = true -> Forall (active (same_lease id)) os1)) ->
  (exists j o', os1 !! j = Some o' /\ stale (so_entry o') = false /\ so_lease o' = Some l0) ->
  all_pairs excludes os1 -> quiet o = true \/ Forall (active (no_write id)) os1 ->
  all_pairs excludes ((replace_lease l0 l <$> os1) ++ [o]).
Proof.
  intros Hid Hol -> Hup (j & o' & Hj & Hjs & Ho') Hp Hq.
  assert (Hold : forall x, so_lease x = Some l0 -> same_lease (Some (lease_id l)) x).
  { intros x Hx. exists l0. by rewrite Hid. }
  assert (Hnew : same_lease (Some (lease_id l)) o) by by exists l.
  assert (Hsame : forall x, same_lease (Some (lease_id l)) x -> shares_lease (replace_lease l0 l x) o).
  { intros x Hx. eapply same_lease_shares; [by apply replace_same_lease | done]. }
  apply all_pairs_snoc.
  - intros i k x' y' Hik Hi Hk. rewrite list_lookup_fmap in Hi, Hk.
    destruct (os1 !! i) as [x|] eqn:Ex; [|done]. destruct (os1 !! k) as [y|] eqn:Ey; [|done].
    injection Hi as <-. injection Hk as <-. intros Hs1 Hs2 Hm.
    destruct (decide (so_lease x = Some l0 /\ l <> l0)) as [[Hx Hne]|Hx].
    + destruct Hup as [->|Hup]; [done|]. rewrite replace_type_eq in Hm by done. right.
      eapply same_lease_shares; [by apply replace_same_lease, Hold|]. apply replace_same_lease; [done|].
      eapply active_same; [by apply Hup | by eapply list_elem_of_lookup_2 | done].
    + assert (Ht : open_type (replace_lease l0 l x) = open_type x).
      { destruct (decide (so_lease x = Some l0)) as [E|E]; [|by apply replace_type].
        assert (l = l0) as -> by (destruct (decide (l = l0)); tauto).
        rewrite replace_type_eq by done. unfold open_type. by rewrite E. }
      rewrite Ht in Hm. destruct (Hp i k x y Hik Ex Ey Hs1 Hs2 Hm) as [?|?]; [by left|].
      right. by apply replace_shares_lease.
  - intros i x' Hi. rewrite list_lookup_fmap in Hi. destruct (os1 !! i) as [x|] eqn:Ex; [|done].
    injection Hi as <-. pose proof (list_elem_of_lookup_2 _ _ _ Ex) as Hx. split; intros Hs1 Hs2 Hm.
    + destruct Hq as [Hq|Hq]; [by left | right]. apply Hsame.
      destruct (decide (so_lease x = Some l0)) as [E|E]; [by apply Hold|].
      rewrite replace_type in Hm by done. by eapply active_no_write.
    + destruct Hup as [->|Hup].
      * destruct (decide (i = j)) as [->|Hij].
        { right. apply shares_lease_sym, Hsame, Hold. congruence. }
        assert (Hm' : may_write (open_type o') = true).
        { unfold open_type in *. by rewrite Hol in Hm; rewrite Ho'. }
        destruct (Hp j i o' x) as [?|Hsh]; [done | done | done | done | done | done | by left | right].
        eapply shares_lease_trans; [|by apply replace_shares_lease].
        apply shares_lease_sym, Hsame, Hold, Ho'.
      * right. apply shares_lease_sym, Hsame. unfold open_type in Hm. rewrite Hol in Hm.
        eapply active_same; [by apply Hup | done | done].
Qed.

(** The same for exclusive oplocks. *)
Lemma exclusive_oplock_writes o :
  typed o -> exclusive_oplock o = true ->
  so_lease o = None /\ may_write (open_type o) = true.
Proof.
  unfold typed, exclusive_oplock, exclusive_type, open_type, oplock_types. intros Ht. destruct (so_lease o); [done|].
  repeat (apply elem_of_cons in Ht as [->|Ht]; [done|]). by apply elem_of_nil in Ht.
Qed.

Lemma same_lease_some id o : same_lease id o -> so_lease o <> None /\ id <> None.
Proof. intros (l & -> & ->). done. Qed.

Lemma exclusive_alone id os1 o x :
  Forall typed os1 ->
  beside os1 o \/ Forall (active (no_write id)) os1 -> x ∈ os1 -> alone x o.
Proof.
  intros Hty Hq Hx Hs1 Hs2 He. rewrite Forall_forall in Hty.
  destruct (exclusive_oplock_writes x (Hty x Hx) He) as [Hn Hw]. destruct Hq as [[Hm|[Hst Hb]]|Hq].
  - by left.
  - right. split; [done|]. destruct Hb as [->|?]; [by apply elem_of_nil in Hx | done].
  - exfalso. destruct (same_lease_some id x) as [? _]; [by eapply active_no_write | done].
Qed.

Lemma granted_not_exclusive (r u : Prop) id os1 o l x :
  r -> typed o -> granted_over r u id os1 o l -> x ∈ os1 -> open_stale x = false ->
  exclusive_oplock o = false.
Proof.
  intros Hr Hty Hg Hx Hs. destruct (exclusive_oplock o) eqn:He; [|done].
  destruct (exclusive_oplock_writes o Hty He) as [Hn Hw]. destruct Hg as [Hid Hf _|l0 l' _ Hol _ _ _]; [|congruence].
  destruct (same_lease_some id x) as [_ Hi]; [by eapply active_same; [apply Hf| |]|].
  destruct (same_lease_some id o) as [? _]; [by apply Hid | done].
Qed.

Lemma granted_exclusive_same r u id os1 o l :
  granted_over r u id os1 o l ->
  Forall2 (fun x x' => so_entry x' = so_entry x /\ exclusive_oplock x' = exclusive_oplock x) os1 l.
Proof.
  intros []; [apply Forall2_lookup; intros i; destruct (os1 !! i); by constructor|].
  apply Forall2_fmap_self, Forall_true. intros x. split; [done|].
  unfold exclusive_oplock. cbn. case_decide as E; [|done]. by rewrite E.
Qed.

Lemma alone_granted (r u : Prop) id os1 o l :
  r -> Forall typed os1 -> typed o -> granted_over r u id os1 o l -> beside os1 o \/ Forall (active (no_write id)) os1 ->
  all_pairs alone os1 -> all_pairs alone (l ++ [o]).
Proof.
  intros Hr Hty Hto Hg Hq Hp. pose proof (granted_exclusive_same r u id os1 o l Hg) as Hsame. apply all_pairs_snoc.
  - eapply all_pairs_Forall2; [|exact Hsame|exact Hp]. intros x x' y y' [Hx Hxe] [Hy Hye] H.
    unfold alone, open_stale, harmless in *. by rewrite Hx, Hxe, Hy.
  - intros i x' Hi. destruct (Forall2_lookup_r _ _ _ _ _ Hsame Hi) as (x & Hx & He & Hex).
    pose proof (list_elem_of_lookup_2 _ _ _ Hx) as Hin. split.
    + pose proof (exclusive_alone id os1 o x Hty Hq Hin) as H. unfold alone, open_stale in *. by rewrite He, Hex.
    + intros _ Hs Ho. unfold open_stale in Hs. rewrite He in Hs.
      rewrite (granted_not_exclusive r u id os1 o l x) in Ho; done.
Qed.

Lemma not_breaking_ok l : breaking l = false -> lease_ok l.
Proof. intros H ?. congruence. Qed.

Lemma replace_open_ok l0 l os : lease_ok l -> Forall open_ok os -> Forall open_ok (replace_lease l0 l <$> os).
Proof.
  intros Hl H. apply Forall_fmap. eapply Forall_impl; [done|]. intros x Hx y. cbn.
  case_decide; [by intros [= <-] | by apply Hx].
Qed.

Lemma opened_strict env (u : Prop) fsp a os status d :
  u -> honoured a -> opened env u fsp a os status d ->
  Forall typed os -> all_pairs excludes os -> all_pairs alone os -> Forall open_ok os ->
  all_pairs excludes (opens d) /\ all_pairs alone (opens d) /\ Forall open_ok (opens d).
Proof.
  intros Hu Hh (_ & _ & os1 & Hrem & H) Hty Hp Hal Hok.
  apply (remains_hereditary env _ _ _ (hereditary_all_pairs env _ excludes_stale) Hrem) in Hp.
  apply (remains_hereditary env _ _ _ (hereditary_all_pairs env _ alone_stale) Hrem) in Hal.
  apply (remains_hereditary env _ _ _ (hereditary_ok env) Hrem) in Hok.
  apply (remains_hereditary env _ _ _ (hereditary_typed env) Hrem) in Hty.
  destruct H as [Hs|(o & l & (uid & t & idx & Ho & Ht) & Hg & Hs & _ & Hq)];
    [split_and!; [by eapply all_pairs_submseteq | by eapply all_pairs_submseteq | by eapply Forall_submseteq]|].
  assert (Hto : typed o) by (unfold typed; by rewrite Ho).
  pose proof (alone_granted _ u _ os1 o l Hh Hty Hto Hg Hq Hal) as Hal'.
  cut (all_pairs excludes (l ++ [o]) /\ Forall open_ok (l ++ [o])).
  { intros [??]. split_and!; [by eapply all_pairs_submseteq | by eapply all_pairs_submseteq | by eapply Forall_submseteq]. }
  assert (Hq' : quiet o = true \/ Forall (active (no_write (request_id fsp (oa_lease a)))) os1)
    by (destruct Hq as [Hq|]; [left; by eapply beside_quiet | by right]).
  rewrite Forall_app, Forall_singleton. destruct Hg as [Hid Hw Hbr|l0 l' Hid Hol Hrq Hup Huse].
  - split_and!; [by apply (excludes_granted_new (request_id fsp (oa_lease a))); auto | done |].
    intros l Hl. by apply not_breaking_ok, Hbr.
  - destruct (Huse Hu) as (j & o' & Hj & Hjs & Ho').
    assert (Hl' : lease_ok l').
    { destruct Hup as [->|[Hbr _]]; [|by apply not_breaking_ok].
      by apply (proj1 (Forall_lookup _ _) Hok j o' Hj). }
    split_and!; [|by apply replace_open_ok | intros l Hl; by simplify_eq].
    apply (excludes_granted_old _ os1 o l0 l' Hid Hol Hrq); [|by eauto | done | done].
    destruct Hup as [?|[_ ?]]; auto.
Qed.

(** ** The other operations *)

(** Fewer opens, and the same leases in use. *)
Lemma inv_without dir strict k d d' : inv dir strict d -> without k d d' -> inv dir strict d'.
Proof.
  intros (_ & Hc & Hus & Hs) (Hwf & Hu & Hp). assert (Hsub : opens d' ⊆+ opens d).
  { rewrite Hp. by apply submseteq_inserts_l. }
  split_and!; [done | by eapply all_pairs_submseteq | auto|]. intros Hd Hst.
  destruct (Hs Hd Hst) as (? & ? & ?).
  split_and!; [by eapply all_pairs_submseteq | by eapply all_pairs_submseteq | by eapply Forall_submseteq].
Qed.

(** An open with the same owner and sharing, and one that gives up rights. *)
Definition similar (o o' : sopen) : Prop :=
  e_pid (so_entry o') = e_pid (so_entry o) /\ stale (so_entry o') = stale (so_entry o) /\
  e_access_mask (so_entry o') = e_access_mask (so_entry o) /\
  e_share_access (so_entry o') = e_share_access (so_entry o) /\
  op_mid (so_entry o') = op_mid (so_entry o).

Definition weaker (o o' : sopen) : Prop :=
  similar o o' /\
  (may_write (open_type o') = true -> may_write (open_type o) = true) /\
  (exclusive_oplock o' = true -> exclusive_oplock o = true) /\
  (harmless o -> harmless o') /\
  open_ok o' /\
  (lease_id <$> so_lease o') = (lease_id <$> so_lease o).

Lemma similar_compatible os os' : Forall2 similar os os' -> all_pairs compatible os -> all_pairs compatible os'.
Proof.
  apply all_pairs_Forall2. intros x x' y y' (Hx1 & Hx2 & Hx3 & Hx4 & _) (Hy1 & Hy2 & Hy3 & Hy4 & _) H Hs1 Hs2 Hc1 Hc2.
  unfold compatible, open_stale, connected, share_conflict in *. rewrite Hx1, Hx3, Hx4, Hy3, Hy4 in *. rewrite Hx2, Hy2, Hy1 in *.
  by apply H.
Qed.

Lemma weaker_shares x x' y y' : weaker x x' -> weaker y y' -> shares_lease x y -> shares_lease x' y'.
Proof.
  intros (_ & _ & _ & _ & _ & Hx) (_ & _ & _ & _ & _ & Hy) (l1 & l2 & H1 & H2 & H).
  rewrite H1 in Hx. rewrite H2 in Hy. unfold shares_lease.
  destruct (so_lease x') as [l1'|]; [|done]. destruct (so_lease y') as [l2'|]; [|done].
  injection Hx as Hx1 Hx2. injection Hy as Hy1 Hy2. injection H as H3 H4. exists l1', l2'. unfold lease_id.
  split_and!; [done | done | congruence].
Qed.

Lemma weaker_excludes os os' : Forall2 weaker os os' -> all_pairs excludes os -> all_pairs excludes os'.
Proof.
  apply all_pairs_Forall2. intros x x' y y' Hx Hy H Hs1 Hs2 Hm.
  pose proof Hx as ((_ & Hx2 & _) & Hx6 & _). pose proof Hy as ((_ & Hy2 & Hy3 & _ & Hy5) & _).
  unfold open_stale in Hs1, Hs2. destruct H as [Hq|Hsh]; [by unfold open_stale; congruence.. | by apply Hx6 | |].
  - left. unfold quiet in *. by rewrite Hy3, Hy5.
  - right. by apply (weaker_shares x x' y y').
Qed.

Lemma weaker_alone os os' : Forall2 weaker os os' -> all_pairs alone os -> all_pairs alone os'.
Proof.
  apply all_pairs_Forall2. intros x x' y y' ((_ & Hx2 & _) & _ & Hxe & _) ((_ & Hy2 & _) & _ & _ & Hyh & _) H Hs1 Hs2 He.
  unfold open_stale in *. apply Hyh, H; [unfold open_stale; congruence.. | auto].
Qed.

Lemma inv_weaker dir strict d d' :
  inv dir strict d -> wf d' -> (used d -> used d') -> Forall2 similar (opens d) (opens d') ->
  (strict = true -> used d -> Forall open_ok (opens d) -> Forall2 weaker (opens d) (opens d')) ->
  inv dir strict d'.
Proof.
  intros (_ & Hc & Hus & Hs) Hwf Hu Hsim Hw. split_and!; [done | by eapply similar_compatible | auto|]. intros Hd Hst.
  destruct (Hs Hd Hst) as (? & ? & Hok).
  split_and!; [by eapply weaker_excludes; auto | by eapply weaker_alone; auto|].
  apply Forall_lookup. intros i o' Ho'.
  destruct (Forall2_lookup_r _ _ _ _ _ (Hw Hst (Hus Hst) Hok) Ho') as (o & _ & Hoo). apply Hoo.
Qed.

Lemma similar_refl o : similar o o.
Proof. done. Qed.

Lemma weaker_refl o : open_ok o -> weaker o o.
Proof. done. Qed.

Lemma Forall2_alter {A} (S : A -> A -> Prop) (g : A -> A) l i :
  (forall j x, l !! j = Some x -> j <> i -> S x x) -> (forall x, l !! i = Some x -> S x (g x)) ->
  Forall2 S l (alter g i l).
Proof.
  intros Hr Hg. apply Forall2_lookup. intros j. destruct (decide (j = i)) as [->|Hne].
  - rewrite list_lookup_alter_eq. destruct (l !! i) eqn:E; constructor. auto.
  - rewrite list_lookup_alter_ne by done. destruct (l !! j) eqn:E; constructor. eauto.
Qed.

(** One open gives up rights. *)
Lemma inv_alter dir strict d d' i g :
  inv dir strict d -> wf d' -> (used d -> used d') -> opens d' = alter g i (opens d) ->
  (forall o, opens d !! i = Some o -> similar o (g o) /\ (open_ok o -> weaker o (g o))) ->
  inv dir strict d'.
Proof.
  intros Hi Hwf Hu Ho Hg. apply (inv_weaker dir strict d d' Hi Hwf Hu); rewrite Ho.
  - apply Forall2_alter; [done|]. intros o Ho'. by destruct (Hg o Ho').
  - intros _ _ Hok. apply Forall2_alter.
    + intros j x Hx _. apply weaker_refl. by apply (proj1 (Forall_lookup _ _) Hok j).
    + intros o Ho'. destruct (Hg o Ho') as [_ Hw]. apply Hw. by apply (proj1 (Forall_lookup _ _) Hok i).
Qed.

(** All opens with a lease give up rights. *)
Lemma inv_lease dir strict d d' l l' :
  inv dir strict d -> wf d' -> (used d -> used d') -> opens d' = replace_lease l l' <$> opens d ->
  lease_id l' = lease_id l -> l ∈ leases d ->
  (strict = true -> lease_ok l -> lease_ok l' /\ (may_write (current_state l') = true -> may_write (current_state l) = true)) ->
  inv dir strict d'.
Proof.
  intros Hi Hwf Hu Ho Hid Hin Hl. apply (inv_weaker dir strict d d' Hi Hwf Hu); rewrite Ho.
  - apply Forall2_fmap_self, Forall_true. done.
  - intros Hst Husd Hok. destruct (Husd l Hin) as (j & o & Hj & _ & Hol).
    destruct Hl as [Hl1 Hl2]; [done | by apply (proj1 (Forall_lookup _ _) Hok j o Hj)|].
    apply Forall2_fmap_self. eapply Forall_impl; [exact Hok|]. intros x Hx.
    split; [done|]. unfold open_ok, open_type, exclusive_oplock, replace_lease. cbn. case_decide as E; [|done].
    rewrite E. split_and!; [done | done | done | by intros ? [= <-] | cbn; by rewrite Hid].
Qed.

(** The only open gets another owner. *)
Lemma inv_single dir strict d d' i g :
  inv dir strict d -> wf d' -> (used d -> used d') -> opens d' = alter g i (opens d) ->
  length (share_modes d) = 1%nat -> (forall o, so_lease (g o) = so_lease o) -> inv dir strict d'.
Proof.
  intros (_ & _ & Hus & Hs) Hwf Hu Ho Hlen Hg.
  assert (Hone : (length (opens d') <= 1)%nat) by (rewrite Ho, length_alter, length_opens; lia).
  split_and!; [done | by apply all_pairs_single | auto|]. intros Hd Hst. destruct (Hs Hd Hst) as (_ & _ & Hok).
  split_and!; [by apply all_pairs_single | by apply all_pairs_single|]. rewrite Ho. apply Forall_alter; [done|].
  intros x Hx Hxo l Hl. rewrite Hg in Hl. by apply Hxo.
Qed.

Section keeps.
Context (dir strict : bool) (env : share_env) (d : share_mode_data) (Hinv : inv dir strict d).
Let Hwf : wf d := proj1 Hinv.

Lemma close_keeps fsp :
  triple True env (fun d0 => d0 = d) (del_share_mode fsp) (fun _ d' => inv dir strict d').
Proof.
  eapply triple_conseq; [by apply del_share_mode_spec | done |].
  intros [|] d'; [|by intros [-> _]]. intros (e & _ & _ & H). by eapply inv_without.
Qed.

Lemma update_num_keeps pf fsp t d1 :
  inv dir strict d1 -> lease_type_is_exclusive t = false ->
  triple pf env (fun d0 => d0 = d1) (update_num_read_oplocks fsp t) (fun _ d' => inv dir strict d').
Proof.
  intros H1 Ht. eapply triple_conseq; [apply (update_num_read_oplocks_spec pf env fsp t d1) | done |].
  - apply H1.
  - by rewrite Ht.
  - intros _ d' (k & _ & H). by eapply inv_without.
Qed.

Lemma plain_open fsp i e :
  plain_oplock fsp d -> share_modes d !! i = Some e -> owned fsp e = true ->
  opens d !! i = Some (view (leases d) e) /\ so_lease (view (leases d) e) = None.
Proof.
  intros Hp He Ho. split; [by rewrite opens_lookup, He|]. apply plain_view.
  by apply (proj1 (Forall_lookup _ _) Hp i e He).
Qed.

Lemma oplock_none_keeps fsp :
  plain_oplock fsp d ->
  triple True env (fun d0 => d0 = d) (remove_oplock_under_lock fsp) (fun _ d' => inv dir strict d').
Proof.
  intros Hp. eapply triple_bind; [by apply remove_share_oplock_spec|].
  intros b. apply triple_pre. intros d1 H. apply update_num_keeps; [|done].
  destruct b; [|by subst]. destruct H as (i & e & He & Hown & Hwf1 & Hu1 & Ho1).
  apply (inv_alter dir strict d d1 i clear_oplock Hinv Hwf1 Hu1 Ho1). intros o Ho.
  destruct (plain_open fsp i e Hp He Hown) as [Hi Hl]. rewrite Hi in Ho. injection Ho as <-.
  split; [done|]. intros _. split_and!; [done | done | done | | done | by rewrite Hl].
  intros [?|[? _]]; [by left | right; auto].
Qed.

Lemma exclusive_owner_plain fsp : exclusive_owner fsp d -> plain_oplock fsp d.
Proof. intros H. eapply Forall_impl; [exact H|]. intros e He Ho Hl. specialize (He Ho). by rewrite Hl in He. Qed.

Lemma oplock_level2_keeps fsp :
  exclusive_owner fsp d ->
  triple True env (fun d0 => d0 = d) (downgrade_oplock fsp) (fun _ d' => inv dir strict d').
Proof.
  intros Hx. pose proof (exclusive_owner_plain fsp Hx) as Hp.
  eapply triple_bind; [by apply downgrade_share_oplock_spec|].
  intros b. apply triple_pre. intros d1 H. apply update_num_keeps; [|done].
  destruct b; [|by subst]. destruct H as (i & e & He & Hown & Hwf1 & Hu1 & Ho1).
  apply (inv_alter dir strict d d1 i _ Hinv Hwf1 Hu1 Ho1). intros o Ho.
  destruct (plain_open fsp i e Hp He Hown) as [Hi Hl]. rewrite Hi in Ho. injection Ho as <-.
  pose proof (proj1 (Forall_lookup _ _) Hx i e He Hown) as Hex.
  split; [done|]. intros _. split_and!; [done | | | | by intros l; cbn in *; rewrite Hl | done].
  - unfold open_type. cbn. cbn in Hl. by rewrite Hl.
  - unfold exclusive_oplock. cbn. cbn in Hl. by rewrite Hl.
  - intros [?|[_ [E|E]]]; [by left | |]; cbn in E; by rewrite E in Hex.
Qed.

Lemma lease_kept_view e f :
  wf_entry (length (leases d)) e -> op_type (f e) = op_type e -> lease_idx (f e) = lease_idx e ->
  stale (f e) = stale e -> wf_entry (length (leases d)) (f e) /\ lease_of (leases d) (f e) = lease_of (leases d) e.
Proof. intros He H1 H2 H3. unfold wf_entry, lease_of. by rewrite H1, H2, H3. Qed.

Lemma disconnect_keeps fsp :
  triple True env (fun d0 => d0 = d) (mark_share_mode_disconnected fsp) (fun _ d' => inv dir strict d').
Proof.
  unfold mark_share_mode_disconnected. apply triple_data_at.
  destruct (Nat.eqb_spec (length (share_modes d)) 1) as [Hlen|]; cbn [negb]; [|by apply triple_ret_at].
  destruct (fsp_durable fsp) as [pid|]; [|by apply triple_ret_at].
  eapply triple_bind; [by apply find_share_mode_entry_spec|].
  intros [i|]; apply triple_pre; intros ? [-> H]; [|by apply triple_ret_at].
  destruct H as (e & He & _). do 2 apply triple_update_at. apply triple_ret_at.
  set (f := set_owner server_id_set_disconnected pid).
  destruct (lease_kept_view e f (wf_lookup _ _ _ Hwf He)) as [Hw Hv]; [done..|].
  destruct (change_entry_spec d i e f (fun o => Sopen (f (so_entry o)) (so_lease o)) Hwf He) as (? & ? & ?);
    [done | unfold view; by rewrite Hv | done | done |].
  by apply (inv_single dir strict d _ i (fun o => Sopen (f (so_entry o)) (so_lease o))).
Qed.

Lemma reconnect_keeps fsp mid id can_write rest :
  triple True env (fun d0 => d0 = d) (reconnect_share_mode fsp mid id can_write rest)
    (fun _ d' => inv dir strict d').
Proof.
  unfold reconnect_share_mode. apply triple_data_at, triple_ask.
  destruct (Nat.eqb_spec (length (share_modes d)) 0); [by apply triple_ret_at|].
  destruct (Nat.ltb_spec 1 (length (share_modes d))); [by apply triple_ret_at|].
  destruct (lookup_lt_is_Some_2 (share_modes d) 0) as [e He]; [lia|]. eapply triple_index; [done|].
  destruct (negb _); [by apply triple_ret_at|]. destruct (negb _); [by apply triple_ret_at|].
  destruct (_ && _); [by apply triple_ret_at|].
  apply (triple_bind _ _ _ (fun _ d0 => d0 = d)).
  { destruct (Z.eqb_spec (op_type e) LEASE_OPLOCK) as [E|]; [|by apply triple_ret_at].
    destruct (wf_lease_view d e (wf_lookup _ _ _ Hwf He) E) as (l & Hl & _).
    eapply triple_index; [done|]. by apply triple_ret_at. }
  intros status. destruct (negb _); [by apply triple_ret_at|]. apply triple_update_at.
  set (f := fun e => set_mid mid (set_owner (fsp_pid fsp) (fsp_gen_id fsp) e)).
  destruct (lease_kept_view e f (wf_lookup _ _ _ Hwf He)) as [Hw Hv]; [done..|].
  destruct (change_entry_spec d 0 e f (fun o => Sopen (f (so_entry o)) (so_lease o)) Hwf He) as (? & ? & ?);
    [done | unfold view; by rewrite Hv | done | done |].
  assert (Hi : inv dir strict (change_entry 0 f d)).
  { apply (inv_single dir strict d _ 0 (fun o => Sopen (f (so_entry o)) (so_lease o))); try done. lia. }
  destruct (negb _); [by apply triple_ret_at|]. apply triple_update_at. by apply triple_ret_at.
Qed.
End keeps.

(** ** Breaking leases *)

Lemma subset_bit x y b : Z.land x y = x -> Z.testbit x b = true -> Z.testbit y b = true.
Proof. intros <-. rewrite Z.land_spec. by intros [_ ?]%andb_true_iff. Qed.

(** A break that takes away the write or the handle bit. *)
Definition proper_break (break_to : Z) : Prop := Z.testbit break_to 1 && Z.testbit break_to 2 = false.

Lemma proper_break_bits break_to :
  has_bits break_to SMB2_LEASE_WRITE && has_bits break_to SMB2_LEASE_HANDLE = false <-> proper_break break_to.
Proof.
  unfold proper_break, SMB2_LEASE_WRITE, SMB2_LEASE_HANDLE. change 4 with (2 ^ 2). change 2 with (2 ^ 1) at 3.
  rewrite !has_bit by lia. by rewrite andb_comm.
Qed.

Lemma proper_break_land x y : proper_break x -> proper_break (Z.land x y).
Proof.
  unfold proper_break. rewrite !Z.land_spec. intros H.
  destruct (Z.testbit x 1), (Z.testbit x 2); cbn in *; try done; by rewrite ?andb_false_r.
Qed.

Lemma proper_break_clear_read x : proper_break x -> proper_break (clear_bits x SMB2_LEASE_READ).
Proof. unfold proper_break, clear_bits. by rewrite !Z.ldiff_spec, !andb_true_r. Qed.

Lemma break_lease_ok break_to l :
  proper_break break_to -> let '(l', _, _) := break_lease break_to l in
  lease_id l' = lease_id l /\
  (lease_ok l -> lease_ok l' /\ (may_write (current_state l') = true -> may_write (current_state l) = true)).
Proof.
  intros Hb. unfold break_lease. destruct (breaking l) eqn:Ebr.
  - destruct (negb _); [|done]. split; [done|]. intros Hok. split; [|done].
    intros _. destruct (Hok Ebr) as [H1 H2]. split; [|done]. intros b Hb'. cbn. split; [|by apply H1].
    rewrite !Z.land_spec. intros [_ ?]%andb_true_iff. by apply H1.
  - destruct (_ =? _); [done|]. destruct (_ =? _).
    + split; [done|]. intros _. split; [by apply not_breaking_ok | done].
    + split; [done|]. intros _. split; [|done]. intros _. cbn. split; [|by apply proper_break_land].
      intros b _. split; [done|]. rewrite Z.land_spec. by intros [_ ?]%andb_true_iff.
Qed.

Lemma has_write_or_handle x :
  has_bits x (Z.lor SMB2_LEASE_WRITE SMB2_LEASE_HANDLE) = Z.testbit x 1 || Z.testbit x 2.
Proof.
  change (Z.lor SMB2_LEASE_WRITE SMB2_LEASE_HANDLE) with (Z.lor (2 ^ 2) (2 ^ 1)).
  rewrite <- !has_bit by lia. unfold has_bits. rewrite Z.land_lor_distr_r.
  destruct (Z.eqb_spec (Z.lor (Z.land x (2 ^ 2)) (Z.land x (2 ^ 1))) 0) as [E|E].
  - apply Z.lor_eq_0_iff in E as [-> ->]. done.
  - destruct (Z.eqb_spec (Z.land x (2 ^ 1)) 0) as [E1|]; [|done].
    destruct (Z.eqb_spec (Z.land x (2 ^ 2)) 0) as [E2|]; [|done]. by rewrite E1, E2 in E.
Qed.

Lemma ack_lease_ok lease_state l :
  breaking l = true -> Z.land lease_state (breaking_to_requested l) = lease_state ->
  let '(l', status, _) := ack_lease true lease_state l in
  lease_id l' = lease_id l /\
  (lease_ok l -> lease_ok l' /\ (may_write (current_state l') = true -> may_write (current_state l) = true)).
Proof.
  intros Hbr Hsub. assert (Hmono : lease_ok l -> may_write lease_state = true -> may_write (current_state l) = true).
  { intros Hok Hw. destruct (Hok Hbr) as [H1 _]. apply H1; [by right|]. by apply (subset_bit lease_state). }
  unfold ack_lease. destruct (negb (clear_bits _ _ =? 0)); cycle 1.
  { split; [done|]. intros Hok. split; [by apply not_breaking_ok | by apply Hmono]. }
  cbv zeta. cbn [negb]. destruct (has_bits _ _) eqn:Ewh; cycle 1.
  { split; [done|]. intros _. split; [by apply not_breaking_ok | done]. }
  split; [done|]. intros Hok. split; [|by apply Hmono]. destruct (Hok Hbr) as [H1 H2]. cbn in Ewh. intros _. cbn.
  assert (Hr : forall b, b = 1 \/ b = 2 -> Z.testbit (Z.lor (breaking_to_required l) SMB2_LEASE_READ) b =
                                        Z.testbit (breaking_to_required l) b).
  { intros b [->| ->]; rewrite Z.lor_spec; by rewrite orb_false_r. }
  rewrite has_write_or_handle in Ewh.
  pose proof (fun b => subset_bit _ _ b Hsub) as Hs. split.
  - intros b Hb. rewrite Hr by done. split; [done|]. intros Hreq.
    destruct (H1 1) as [Ha1 _], (H1 2) as [Ha2 _]; auto.
    pose proof (Hs 1) as Hs1. pose proof (Hs 2) as Hs2.
    destruct Hb as [->| ->]; destruct (Z.testbit lease_state 1), (Z.testbit lease_state 2),
      (Z.testbit (breaking_to_requested l) 1), (Z.testbit (breaking_to_requested l) 2); cbn in *; intuition congruence.
  - rewrite !Hr by auto. destruct (H1 1) as [Ha1 _], (H1 2) as [Ha2 _]; auto.
    destruct (Z.testbit (breaking_to_required l) 1), (Z.testbit (breaking_to_required l) 2); try done.
    rewrite Ha1, Ha2 in H2 by done. done.
Qed.

Section keeps_leases.
Context (dir strict : bool) (env : share_env) (d : share_mode_data) (Hinv : inv dir strict d).
Let Hwf : wf d := proj1 Hinv.

(** Changing a lease of the table. *)
Lemma change_lease_keeps idx l l' :
  leases d !! idx = Some l -> lease_id l' = lease_id l ->
  (strict = true -> lease_ok l -> lease_ok l' /\
     (may_write (current_state l') = true -> may_write (current_state l) = true)) ->
  inv dir strict (change_lease idx (fun _ => l') d).
Proof.
  intros Hl Hid Hok. destruct (change_lease_spec d idx l l' Hwf Hl Hid) as (Hwf' & Hu & Ho).
  apply (inv_lease dir strict d _ l l' Hinv Hwf' Hu Ho Hid); [by eapply list_elem_of_lookup_2 | done].
Qed.

Lemma break_message_keeps fsp fo break_to :
  valid_guid (fsp_client_guid fsp) -> proper_break break_to ->
  (fo_type fo <> LEASE_OPLOCK -> plain_oplock fsp d) ->
  triple True env (fun d0 => d0 = d) (process_oplock_break_message fsp fo break_to)
    (fun _ d' => inv dir strict d').
Proof.
  intros Hg Hb Hplain. unfold process_oplock_break_message. apply triple_ask. cbv zeta.
  destruct (_ && _); [by apply triple_ret_at|]. set (to := if _ || _ then _ else _).
  assert (Hto : proper_break to) by (unfold to; destruct (_ || _); [by apply proper_break_clear_read | done]). clearbody to.
  destruct (Z.eqb_spec (fo_type fo) LEASE_OPLOCK) as [_|Hne]; cycle 1.
  { apply triple_tell_at. destruct (_ && _); [|by apply triple_ret_at].
    eapply triple_bind; [by apply oplock_none_keeps; [done | apply Hplain]|]. intros b. by apply triple_ret. }
  apply triple_data_at. pose proof (find_share_mode_lease_spec d _ (l_key (fo_lease fo)) Hwf Hg) as Hf.
  destruct (find_share_mode_lease d _ _) as [idx|]; [|apply triple_tell_at; by apply triple_ret_at].
  destruct Hf as (l & Hl & Hid). eapply triple_index; [done|].
  pose proof (break_lease_ok to l Hto) as Hok. destruct (break_lease to l) as [[l' dirty] needed].
  destruct Hok as [Hid' Hok].
  apply triple_update_at. pose proof (change_lease_keeps idx l l' Hl Hid' (fun _ => Hok)) as Hi.
  apply (triple_bind _ _ _ (fun _ d' => inv dir strict d')).
  { destruct dirty; [apply triple_update | apply triple_ret]; by intros ? ->. }
  intros _. apply (triple_bind _ _ _ (fun _ d' => inv dir strict d')).
  { destruct needed; [by apply triple_tell | by apply triple_ret]. }
  intros _. by apply triple_ret.
Qed.

Lemma lease_ack_keeps g key lease_state :
  valid_guid g ->
  triple True env (fun d0 => d0 = d) (downgrade_lease g key lease_state)
    (fun status d' => (strict = true -> status <> NT_STATUS_NO_MEMORY) -> inv dir strict d').
Proof.
  intros Hg. unfold downgrade_lease. apply triple_data_at, triple_ask.
  pose proof (find_share_mode_lease_spec d _ key Hwf Hg) as Hf.
  destruct (find_share_mode_lease d _ _) as [idx|]; [|by apply triple_ret_at].
  destruct Hf as (l & Hl & Hid). eapply triple_index; [done|].
  destruct (breaking l) eqn:Ebr; cbn [negb]; [|by apply triple_ret_at].
  destruct (Z.eqb_spec (Z.land lease_state (breaking_to_requested l)) lease_state) as [Hsub|]; cbn [negb];
    [|by apply triple_ret_at].
  assert (Hok : let '(l', status, _) := ack_lease (talloc_ok env) lease_state l in lease_id l' = lease_id l /\
    (status <> NT_STATUS_NO_MEMORY -> lease_ok l ->
     lease_ok l' /\ (may_write (current_state l') = true -> may_write (current_state l) = true))).
  { pose proof (ack_lease_ok lease_state l Ebr Hsub) as H. destruct (talloc_ok env).
    - destruct (ack_lease true lease_state l) as [[? ?] ?]. by destruct H.
    - unfold ack_lease in *. destruct (negb (clear_bits _ _ =? 0)); [|by destruct H].
      split; [done|]. intros Hne. by destruct Hne. }
  destruct (ack_lease _ _ _) as [[l' status] more]. destruct Hok as [Hid' Hok].
  do 2 apply triple_update_at.
  apply (triple_bind _ _ _ (fun _ d' => d' = set_modified (change_lease idx (fun _ => l') d))).
  { destruct more as [[? ?]|]; [by apply triple_tell | by apply triple_ret]. }
  intros _. apply triple_ret. intros ? -> Hst. apply (change_lease_keeps idx l l' Hl Hid'). auto.
Qed.
End keeps_leases.

Lemma inv_tokens dir strict ts d : inv dir strict d -> inv dir strict (with_tokens ts d).
Proof. done. Qed.

Lemma reset_keeps dir strict env d fsp :
  inv dir strict d ->
  triple True env (fun d0 => d0 = d) (reset_delete_on_close_lck fsp) (fun _ d' => inv dir strict d').
Proof.
  intros Hi. apply triple_data_at. apply (triple_bind _ _ _ (fun _ d' => inv dir strict d')).
  - destruct (existsb _ _); [apply triple_update | apply triple_ret]; by intros ? ->.
  - intros _. by apply triple_update.
Qed.

Lemma set_delete_keeps dir strict env d fsp nt_tok tok :
  inv dir strict d ->
  triple True env (fun d0 => d0 = d) (set_delete_on_close_lck fsp nt_tok tok) (fun _ d' => inv dir strict d').
Proof.
  intros Hi. apply triple_data_at, triple_ask. destruct (replace_token _ _ _ _).
  - destruct (negb _); [by apply triple_panic|]. apply triple_update_at, triple_update. by intros ? ->.
  - apply (triple_bind _ _ _ (fun _ d' => inv dir strict d' /\ share_modes d' = share_modes d)).
    { apply triple_data_at, triple_ask. do 2 (destruct (negb _); [by apply triple_ret_at|]).
      do 2 apply triple_update_at. by apply triple_ret_at. }
    intros b. destruct (negb b); [by apply triple_panic|]. apply (triple_bind _ _ _ (fun _ d' => inv dir strict d')).
    + eapply triple_conseq; [eapply (triple_for_entries _ (length (share_modes d))
        (fun _ _ d' => inv dir strict d' /\ share_modes d' = share_modes d) (fun _ _ => False) tt) | |].
      * by intros d' [_ ->].
      * intros i [] Hlt. apply triple_data. intros d' [Hi' Hm].
        destruct (lookup_lt_is_Some_2 _ _ Hlt) as [e He]. eapply triple_index; [by rewrite Hm|].
        apply triple_tell_at. by apply triple_ret_at.
      * done.
      * intros [[]|[]] d'; [by intros [? _] | done].
    + intros c. by apply triple_ret.
Qed.

Lemma open_keeps strict env d fsp a :
  inv false strict d -> valid_guid (fsp_client_guid fsp) ->
  (oa_lease a <> None -> oa_oplock_request a = LEASE_OPLOCK) ->
  triple True env (fun d0 => d0 = d) (open_share_mode fsp a)
    (fun status d' => (strict = true -> status <> NT_STATUS_NO_MEMORY /\ honoured a) -> inv false strict d').
Proof.
  intros (Hwf & Hc & Hus & Hs) Hg Hreq.
  eapply triple_conseq; [apply (open_share_mode_spec True env (strict = true) fsp a Hg Hreq d) | done |].
  { by left. }
  { done. }
  { done. }
  intros status d' Hop Hst. split_and!; [apply Hop | by eapply opened_compatible | |].
  { intros Hstrict. destruct Hop as (_ & Hu & _). apply Hu; [by apply Hst | done]. }
  intros _ Hstrict. destruct (Hs eq_refl Hstrict) as (He & Hal & Hok).
  apply (opened_strict env (strict = true) fsp a (opens d) status d' Hstrict (proj2 (Hst Hstrict))); [done | | done..].
  by apply wf_typed.
Qed.

(** One more open leaves no lease unused. *)
Lemma used_snoc d d' o : used d -> leases d' = leases d -> opens d' = opens d ++ [o] -> used d'.
Proof.
  intros Hu Hl Ho l Hin. rewrite Hl in Hin. destruct (Hu l Hin) as (j & o' & Hj & Hs & Hol).
  exists j, o'. rewrite Ho, lookup_app_l by (by eapply lookup_lt_Some). done.
Qed.

Lemma open_directory_keeps strict env d fsp mid am :
  inv true strict d ->
  triple True env (fun d0 => d0 = d) (open_directory_share_mode fsp mid am) (fun _ d' => inv true strict d').
Proof.
  intros (Hwf & Hc & Hus & _).
  assert (Hok : forall d', weeding env (strict = true) (opens d) d' -> inv true strict d').
  { intros d' (Hwf' & Hu' & Hw). split_and!; [done | | done | done]. by eapply weeded_all_pairs; [apply compatible_stale| |]. }
  eapply triple_bind.
  { eapply triple_conseq; [apply (has_delete_on_close_spec True env (strict = true) (opens d)) | | done].
    intros ? ->. split_and!; [done | done | apply weeded_refl]. }
  intros pending. apply triple_pre. intros d1 Hd1.
  destruct pending; [by apply triple_ret_at; auto|]. eapply triple_bind.
  { eapply triple_conseq; [apply (open_mode_check_spec True env (strict = true) (opens d)) | by intros ? -> | done]. }
  intros status. apply triple_pre. intros d2 (Hd2 & Hst & Hcheck). pose proof Hd2 as (Hwf2 & Hu2 & Hw2).
  destruct Hst as [->| ->]; cbn [negb NT_STATUS_IS_OK Z.eqb]; [|by apply triple_ret_at; auto].
  apply triple_ask. eapply triple_bind; [apply (set_share_mode_spec True env _ _ _ NO_OPLOCK UINT32_MAX d2 Hwf2); [by left | done]|].
  intros b. apply triple_ret. intros d3 [Hl3 H]. destruct b; [|subst; auto]. destruct H as [Hwf3 Ho3].
  split_and!; [done | | | done]; [|intros Hst'; by apply (used_snoc d2 _ _ (Hu2 Hst') Hl3 Ho3)]. rewrite Ho3.
  eapply compatible_snoc; [| | by apply Hcheck | done | by right].
  - by eapply weeded_all_pairs; [apply compatible_stale| |].
  - apply same_entries_refl.
Qed.

Lemma run_op_keeps dir strict env op d :
  inv dir strict d -> permitted dir op d ->
  triple True env (fun d0 => d0 = d) (run_op op)
    (fun status d' => (strict = true -> status <> NT_STATUS_NO_MEMORY /\ honours op) -> inv dir strict d').
Proof.
  intros Hi Hp. assert (Hignore : forall A (m : M A),
    triple True env (fun d0 => d0 = d) m (fun _ d' => inv dir strict d') ->
    triple True env (fun d0 => d0 = d) (m ≫= fun _ => mret NT_STATUS_OK)
      (fun status d' => (strict = true -> status <> NT_STATUS_NO_MEMORY /\ honours op) -> inv dir strict d')).
  { intros A m Hm. eapply triple_bind; [exact Hm|]. intros x. apply triple_ret. auto. }
  destruct op; cbn [run_op permitted] in *.
  - destruct Hp as (-> & Hg & Hreq). by apply open_keeps.
  - subst dir. eapply triple_conseq; [by apply open_directory_keeps | done | auto].
  - by apply Hignore, close_keeps.
  - destruct Hp as (Hg & Hb%proper_break_bits & Hpl). by apply Hignore, break_message_keeps.
  - eapply triple_conseq; [by apply lease_ack_keeps | done |]. intros status d' Hk Hs. apply Hk. intros Hst. by apply Hs.
  - by apply Hignore, oplock_none_keeps.
  - by apply Hignore, oplock_level2_keeps.
  - by apply Hignore, disconnect_keeps.
  - eapply triple_conseq; [by apply reconnect_keeps | done | auto].
  - by apply Hignore, set_delete_keeps.
  - by apply Hignore, reset_keeps.
Qed.

(** ** Stored records *)

Lemma fresh_inv dir strict : inv dir strict fresh_share_mode_data.
Proof.
  split_and!.
  - split; [constructor|]. split_and!; [done | apply NoDup_nil_2 | constructor].
  - apply all_pairs_single; cbn; lia.
  - intros _ l Hl. by apply elem_of_nil in Hl.
  - intros _ _. split_and!; [apply all_pairs_single; cbn; lia | apply all_pairs_single; cbn; lia | constructor].
Qed.

(** What is stored has no stale entries. *)
Definition stored (dir strict : bool) (d : share_mode_data) : Prop :=
  inv dir strict d /\ Forall (fun o => open_stale o = false) (opens d).

Lemma store_stored dir strict d0 d :
  stored dir strict d0 -> inv dir strict d -> stored dir strict (store_share_modes d0 d).
Proof.
  intros H0 Hi. unfold store_share_modes. destruct (negb (modified d)); [done|].
  destruct (remove_stale_spec d (proj1 Hi)) as (k & _ & Hwo & Hns).
  pose proof (inv_without dir strict k d _ Hi Hwo) as Hi'.
  destruct (_ =? _)%nat; [by split; [apply fresh_inv | constructor]|]. by split.
Qed.

Lemma reach_stored dir strict d : reach dir strict d -> stored dir strict d.
Proof.
  induction 1 as [|d env op status d' _ IH Hp Hstep Hst]; [split; [apply fresh_inv | constructor]|].
  unfold step in Hstep. pose proof (run_op_keeps dir strict env op d (proj1 IH) Hp (Share_state d []) eq_refl) as Hk.
  destruct (run_op op env (Share_state d [])) as [[st s]|]; [|done]. injection Hstep as <- <-.
  apply store_stored; [done | by apply Hk].
Qed.

(** Several operations in the same environment. *)
Fixpoint run_ops (env : share_env) (ops : list share_op) (d : share_mode_data)
    : option (list NTSTATUS * share_mode_data) :=
  match ops with
  | [] => Some ([], d)
  | op :: ops =>
      match step env op d with
      | Some (status, d) =>
          match run_ops env ops d with Some (l, d) => Some (status :: l, d) | None => None end
      | None => None
      end
  end.

Lemma run_ops_reach dir strict env ops d sts d' :
  reach dir strict d -> Forall (fun op => (forall d, permitted dir op d) /\ honours op) ops ->
  run_ops env ops d = Some (sts, d') -> Forall (fun st => st <> NT_STATUS_NO_MEMORY) sts ->
  reach dir strict d'.
Proof.
  revert d sts. induction ops as [|op ops IH]; intros d sts Hr Hp Hrun Hst; cbn in Hrun; [by simplify_eq|].
  destruct (step env op d) as [[st d1]|] eqn:E; [|done].
  destruct (run_ops env ops d1) as [[l d2]|] eqn:E2; [|done]. injection Hrun as <- <-.
  apply Forall_cons in Hp as [[Hp1 Hh1] Hp2]. apply Forall_cons in Hst as [Hst1 Hst2].
  apply (IH d1 l); [|done | done | done]. by eapply Reach_step; [apply Hr | apply Hp1 | exact E |].
Qed.
