(* ===== verification/ShareDelete.v ===== *)
(** * Delete on close

    The delete tokens of a share mode record (source3/locking/locking.c): what
    setting, looking up and resetting them does, that a record never has two for
    one name, and when they keep a file from being opened. *)

From S2P Require Import Prelude.
From S2P Require Import ServerId.
From S2P Require Import DomSid.
From S2P Require Import SecModel.
From S2P Require Import ShareModel.
From S2P Require Import ShareView.
From S2P Require Import ShareOps.
From S2P Require Import ShareGrant.
From S2P Require Import ShareOpen.
From S2P Require Import ShareReach.
From stdpp Require Import prelude list.

#[local] Open Scope Z_scope.

(** ** One token for each name *)

Definition token_names (l : list delete_token) : list Z := dt_name_hash <$> l.

Definition tokens_ok (d : share_mode_data) : Prop := NoDup (token_names (delete_tokens d)).

(** [m] keeps the property [I] of the record, unless it panics. *)
Definition keeps {A} (I : share_mode_data -> Prop) (env : share_env) (m : M A) : Prop :=
  triple True env I m (fun _ => I).

Section keeps_rules.
Context {I : share_mode_data -> Prop} {env : share_env}.

Lemma keeps_ret {A} (a : A) : keeps I env (mret a).
Proof. by apply triple_ret. Qed.

Lemma keeps_bind {A B} (m : M A) (f : A -> M B) :
  keeps I env m -> (forall a, keeps I env (f a)) -> keeps I env (m ≫= f).
Proof. intros Hm Hf. eapply triple_bind; [exact Hm | done]. Qed.

Lemma keeps_panic {A} : keeps I env (panic : M A).
Proof. by apply triple_panic. Qed.

Lemma keeps_data : keeps I env data.
Proof. intros s Hs. done. Qed.

Lemma keeps_ask : keeps I env ask.
Proof. intros s Hs. done. Qed.

Lemma keeps_tell e : keeps I env (tell e).
Proof. intros s Hs. done. Qed.

Lemma keeps_update f : (forall d, I d -> I (f d)) -> keeps I env (update f).
Proof. intros Hf. by apply triple_update. Qed.

Lemma keeps_index {A} (l : list A) i : keeps I env (index l i).
Proof. unfold index. case_match; [apply keeps_ret | apply keeps_panic]. Qed.

Lemma keeps_for_entries {A R} (body : nat -> A -> M (control A R)) a :
  (forall i a, keeps I env (body i a)) -> keeps I env (for_entries body a).
Proof.
  intros Hb. apply keeps_bind; [apply keeps_data|]. intros d. revert a.
  induction (seq 0 (length (share_modes d))) as [|j js IH]; intros a; [apply keeps_ret|].
  apply keeps_bind; [apply Hb|]. intros [?|?]; [apply IH | apply keeps_ret].
Qed.

End keeps_rules.

Create HintDb keeps.
#[export] Hint Resolve keeps_ret keeps_panic keeps_data keeps_ask keeps_tell keeps_index : keeps.

Ltac keeps_step :=
  first [ solve [auto with keeps nocore]
        | apply keeps_update; first [exact (fun _ H => H) | solve [auto with keeps nocore]]
        | apply keeps_for_entries; intros ? ?
        | apply keeps_bind; [| intros ?]
        | case_match
        | progress cbv zeta ].
Ltac keeps := repeat keeps_step.

Section keeps_ops.
Context {env : share_env}.

Lemma remove_share_mode_lease_keeps i : keeps tokens_ok env (remove_share_mode_lease i).
Proof. unfold remove_share_mode_lease. keeps. Qed.
#[local] Hint Resolve remove_share_mode_lease_keeps : keeps.

Lemma share_mode_stale_pid_keeps i : keeps tokens_ok env (share_mode_stale_pid i).
Proof.
  unfold share_mode_stale_pid. keeps. intros s Hs. cbn. constructor.
Qed.
#[local] Hint Resolve share_mode_stale_pid_keeps : keeps.

Lemma is_valid_keeps e : keeps tokens_ok env (is_valid_share_mode_entry e).
Proof. unfold is_valid_share_mode_entry. keeps. Qed.
#[local] Hint Resolve is_valid_keeps : keeps.

Lemma find_share_mode_entry_keeps fsp : keeps tokens_ok env (find_share_mode_entry fsp).
Proof. unfold find_share_mode_entry. keeps. Qed.
#[local] Hint Resolve find_share_mode_entry_keeps : keeps.

Lemma get_lease_type_keeps d e : keeps tokens_ok env (get_lease_type d e).
Proof. unfold get_lease_type. keeps. Qed.
#[local] Hint Resolve get_lease_type_keeps : keeps.

Lemma update_num_read_oplocks_keeps fsp t : keeps tokens_ok env (update_num_read_oplocks fsp t).
Proof. unfold update_num_read_oplocks. keeps. Qed.
#[local] Hint Resolve update_num_read_oplocks_keeps : keeps.

Lemma set_share_mode_keeps fsp uid mid t idx : keeps tokens_ok env (set_share_mode fsp uid mid t idx).
Proof. unfold set_share_mode. keeps. Qed.
#[local] Hint Resolve set_share_mode_keeps : keeps.

Lemma del_share_mode_keeps fsp : keeps tokens_ok env (del_share_mode fsp).
Proof. unfold del_share_mode. keeps. Qed.
#[local] Hint Resolve del_share_mode_keeps : keeps.

Lemma has_delete_on_close_keeps h : keeps tokens_ok env (has_delete_on_close h).
Proof. unfold has_delete_on_close. keeps. Qed.
#[local] Hint Resolve has_delete_on_close_keeps : keeps.

Lemma open_mode_check_keeps am sa : keeps tokens_ok env (open_mode_check am sa).
Proof. unfold open_mode_check. keeps. Qed.
#[local] Hint Resolve open_mode_check_keeps : keeps.

Lemma validate_oplock_types_keeps : keeps tokens_ok env validate_oplock_types.
Proof.
  unfold validate_oplock_types, validate_body, run_steps, count_batch, count_exclusive, count_shared. keeps.
Qed.
#[local] Hint Resolve validate_oplock_types_keeps : keeps.

Lemma delay_for_oplock_keeps fsp r l v cd f : keeps tokens_ok env (delay_for_oplock fsp r l v cd f).
Proof. unfold delay_for_oplock, delay_for_entry. keeps. Qed.
#[local] Hint Resolve delay_for_oplock_keeps : keeps.

Lemma grant_fsp_oplock_type_keeps fsp mid r l : keeps tokens_ok env (grant_fsp_oplock_type fsp mid r l).
Proof. unfold grant_fsp_oplock_type, grant_body, is_same_lease, grant_fsp_lease, store_open. keeps. Qed.
#[local] Hint Resolve grant_fsp_oplock_type_keeps : keeps.

Lemma open_share_mode_keeps fsp a : keeps tokens_ok env (open_share_mode fsp a).
Proof. unfold open_share_mode, open_grant. keeps. Qed.

Lemma open_directory_share_mode_keeps fsp mid am : keeps tokens_ok env (open_directory_share_mode fsp mid am).
Proof. unfold open_directory_share_mode. keeps. Qed.

Lemma process_oplock_break_message_keeps fsp fo b : keeps tokens_ok env (process_oplock_break_message fsp fo b).
Proof. unfold process_oplock_break_message, remove_oplock_under_lock, remove_share_oplock. keeps. Qed.

Lemma reconnect_share_mode_keeps fsp mid id cw rest : keeps tokens_ok env (reconnect_share_mode fsp mid id cw rest).
Proof. unfold reconnect_share_mode. keeps. Qed.

End keeps_ops.

#[export] Hint Resolve remove_share_mode_lease_keeps find_share_mode_entry_keeps update_num_read_oplocks_keeps
  del_share_mode_keeps open_share_mode_keeps open_directory_share_mode_keeps process_oplock_break_message_keeps
  reconnect_share_mode_keeps : keeps.

(** ** The table of tokens *)

Definition find_token (h : Z) (l : list delete_token) : option delete_token :=
  List.find (fun dt => dt_name_hash dt =? h) l.

Lemma find_token_none h l : find_token h l = None <-> h ∉ token_names l.
Proof.
  unfold find_token, token_names. induction l as [|dt l IH]; cbn; [split; [intros _; apply not_elem_of_nil | done]|].
  rewrite not_elem_of_cons. destruct (Z.eqb_spec (dt_name_hash dt) h) as [E|E].
  - split; [done | intros [? _]; congruence].
  - rewrite IH. split; [intros ?; split; [congruence | done] | by intros [_ ?]].
Qed.

Lemma find_token_some h l dt :
  NoDup (token_names l) -> find_token h l = Some dt <-> dt ∈ l /\ dt_name_hash dt = h.
Proof.
  intros Hn. split.
  { intros H. apply List.find_some in H as [H1 H2%Z.eqb_eq]. split; [by apply list_elem_of_In | done]. }
  intros [Hin <-]. unfold find_token, token_names in *. induction l as [|x l IH]; [by apply not_elem_of_nil in Hin|]. cbn.
  cbn in Hn. apply NoDup_cons in Hn as [Hx Hn]. apply elem_of_cons in Hin as [->|Hin]; [by rewrite Z.eqb_refl|].
  destruct (Z.eqb_spec (dt_name_hash x) (dt_name_hash dt)) as [E|_]; [|by apply IH].
  destruct Hx. rewrite E. by apply list_elem_of_fmap_2.
Qed.

(** The order of the tokens does not matter. *)
Lemma find_token_permutation h l l' :
  NoDup (token_names l) -> l ≡ₚ l' -> find_token h l = find_token h l'.
Proof.
  intros Hn Hp. assert (Hn' : NoDup (token_names l')) by (unfold token_names in *; by rewrite <- Hp).
  destruct (find_token h l) as [dt|] eqn:E.
  - apply (find_token_some _ _ _ Hn) in E as [Hin Hh]. symmetry. apply (find_token_some _ _ _ Hn').
    by rewrite <- Hp.
  - apply find_token_none in E. symmetry. apply find_token_none. unfold token_names in *. by rewrite <- Hp.
Qed.

Lemma find_token_snoc h l dt :
  find_token h (l ++ [dt]) =
    match find_token h l with Some x => Some x | None => if dt_name_hash dt =? h then Some dt else None end.
Proof. unfold find_token. induction l as [|x l IH]; cbn; [done|]. by destruct (dt_name_hash x =? h). Qed.

Lemma token_names_snoc l dt :
  NoDup (token_names l) -> find_token (dt_name_hash dt) l = None -> NoDup (token_names (l ++ [dt])).
Proof.
  intros Hn Hf%find_token_none. unfold token_names. rewrite fmap_app. apply NoDup_app.
  split_and!; [done | | apply NoDup_singleton]. by intros x Hx ->%list_elem_of_singleton.
Qed.

Lemma replace_token_spec h nt tok l :
  match replace_token h nt tok l with
  | None => find_token h l = None
  | Some l' => token_names l' = token_names l /\ find_token h l <> None /\
      forall k, find_token k l' = if k =? h then Some (Delete_token h nt tok) else find_token k l
  end.
Proof.
  unfold find_token, token_names. induction l as [|dt l IH]; cbn; [done|].
  destruct (Z.eqb_spec (dt_name_hash dt) h) as [E|E]; cbn.
  - split_and!; [done | done |]. intros k. rewrite E. rewrite (Z.eqb_sym h k). by destruct (k =? h).
  - destruct (replace_token h nt tok l) as [l'|]; cbn; [|done]. destruct IH as (-> & H1 & H2).
    split_and!; [done | done |]. intros k. rewrite H2. destruct (Z.eqb_spec k h) as [->|]; [|done].
    by destruct (Z.eqb_spec (dt_name_hash dt) h).
Qed.

Lemma reset_tokens_absent fuel i h l : h ∉ token_names l -> reset_tokens_loop fuel i h l = l.
Proof.
  intros Hh. revert i. induction fuel as [|fuel IH]; intros i; [done|]. cbn.
  destruct (l !! i) as [dt|] eqn:E; [|done]. destruct (last l); [|done].
  destruct (Z.eqb_spec (dt_name_hash dt) h) as [<-|]; [|apply IH].
  destruct Hh. by eapply list_elem_of_fmap_2, list_elem_of_lookup_2.
Qed.

(** The loop removes the token. *)
Lemma reset_tokens_present fuel i h l j dt :
  NoDup (token_names l) -> l !! j = Some dt -> dt_name_hash dt = h -> (i <= j < i + fuel)%nat ->
  l ≡ₚ dt :: reset_tokens_loop fuel i h l.
Proof.
  intros Hn Hj Hh. revert i. induction fuel as [|fuel IH]; intros i Hi; [lia|]. cbn.
  pose proof (lookup_lt_Some _ _ _ Hj) as Hlt.
  destruct (lookup_lt_is_Some_2 l i) as [x Hx]; [lia|]. rewrite Hx.
  destruct (last l) as [z|] eqn:Hz; [|by apply last_None in Hz as ->].
  destruct (Z.eqb_spec (dt_name_hash x) h) as [E|E]; cycle 1.
  { apply IH. destruct (decide (i = j)) as [->|]; [congruence | lia]. }
  assert (i = j) as ->.
  { apply (NoDup_lookup (token_names l) i j h Hn); unfold token_names; rewrite list_lookup_fmap.
    - by rewrite Hx, <- E.
    - by rewrite Hj, <- Hh. }
  assert (x = dt) as -> by congruence.
  pose proof (delete_entry_permutation l j dt Hj) as Hp. unfold delete_entry in Hp. rewrite Hz in Hp.
  rewrite reset_tokens_absent; [done|]. unfold token_names in *. rewrite Hp in Hn. cbn in Hn.
  rewrite Hh in Hn. by apply NoDup_cons in Hn as [? _].
Qed.

Lemma reset_tokens_spec h l :
  NoDup (token_names l) -> let l' := reset_tokens_loop (length l) 0 h l in
  NoDup (token_names l') /\ forall k, find_token k l' = if k =? h then None else find_token k l.
Proof.
  intros Hn. cbv zeta. destruct (find_token h l) as [dt|] eqn:E.
  - apply (find_token_some _ _ _ Hn) in E as [[j Hj]%list_elem_of_lookup Hh].
    pose proof (lookup_lt_Some _ _ _ Hj) as Hlt.
    pose proof (reset_tokens_present (length l) 0 h l j dt Hn Hj Hh ltac:(lia)) as Hp.
    pose proof Hn as Hn'. unfold token_names in Hn'. rewrite Hp in Hn'. cbn in Hn'. rewrite Hh in Hn'.
    apply NoDup_cons in Hn' as [Hnot Hn']. split; [done|]. intros k.
    destruct (Z.eqb_spec k h) as [->|Hk]; [by apply find_token_none|].
    rewrite (find_token_permutation k l _ Hn Hp). unfold find_token at 2. cbn.
    destruct (Z.eqb_spec (dt_name_hash dt) k); [congruence | done].
  - pose proof E as E'. apply find_token_none in E'. rewrite reset_tokens_absent by done. split; [done|].
    intros k. by destruct (Z.eqb_spec k h) as [->|].
Qed.

(** ** The operations on tokens *)

Definition notify_entry (i : nat) (_ : unit) : M (control unit unit) :=
  d ← data;
  e ← index (share_modes d) i;
  tell (Notify_cancel_deleted (e_pid e));;
  mret (Next tt).

Lemma notify_entry_run env s i u e :
  share_modes (sd s) !! i = Some e ->
  notify_entry i u env s = Some (Next tt, Share_state (sd s) (log s ++ [Notify_cancel_deleted (e_pid e)])).
Proof. intros He. unfold notify_entry, mbind, M_bind, data, index. by rewrite He. Qed.

Lemma notify_entries env s k es :
  (forall j, (j < length es)%nat -> share_modes (sd s) !! (k + j)%nat = es !! j) ->
  for_each (seq k (length es)) notify_entry tt env s =
    Some (Next tt, Share_state (sd s) (log s ++ ((fun e => Notify_cancel_deleted (e_pid e)) <$> es))).
Proof.
  revert s k. induction es as [|e es IH]; intros s k He; cbn [length seq for_each].
  { destruct s. cbn. by rewrite app_nil_r. }
  pose proof (He 0%nat ltac:(cbn; lia)) as H0. rewrite Nat.add_0_r in H0. cbn [lookup list_lookup] in H0.
  unfold mbind, M_bind at 1. rewrite (notify_entry_run _ _ _ _ _ H0), IH; cbn; [by rewrite <- app_assoc|].
  intros j Hj. specialize (He (S j) ltac:(cbn; lia)). rewrite Nat.add_succ_r in He. exact He.
Qed.

Definition cancel_messages (d : share_mode_data) (h : Z) : list share_event :=
  if is_delete_on_close_set d h then []
  else (fun e => Notify_cancel_deleted (e_pid e)) <$> share_modes d.

(** There is memory for one more token. *)
Definition token_memory (env : share_env) (d : share_mode_data) : Prop :=
  talloc_ok env = true /\ talloc_realloc_array (tokens_alloc_ok env) sizeof_delete_token
                            (Z.of_nat (length (delete_tokens d) + 1)) = true.

Lemma add_delete_on_close_token_run env h nt tok d lg :
  token_memory env d ->
  add_delete_on_close_token h nt tok env (Share_state d lg) =
    Some (true, Share_state (Share_mode_data (share_modes d) (leases d)
                               (delete_tokens d ++ [Delete_token h nt tok]) true) lg).
Proof.
  intros [Ht Ha]. unfold add_delete_on_close_token, mbind, M_bind, data, ask. cbn [sd].
  by rewrite Ha, Ht.
Qed.

Lemma notify_run env d lg :
  for_entries notify_entry tt env (Share_state d lg) =
    Some (Next tt, Share_state d (lg ++ ((fun e => Notify_cancel_deleted (e_pid e)) <$> share_modes d))).
Proof.
  unfold for_entries, mbind, M_bind, data. cbn [sd].
  by rewrite (notify_entries env (Share_state d lg) 0 (share_modes d)).
Qed.

Lemma set_delete_on_close_run env fsp nt tok d lg :
  token_memory env d ->
  exists l, set_delete_on_close_lck fsp nt tok env (Share_state d lg) =
    Some (tt, Share_state (Share_mode_data (share_modes d) (leases d) l true)
                (lg ++ cancel_messages d (fsp_name_hash fsp))) /\
    (tokens_ok d -> NoDup (token_names l)) /\
    forall k, find_token k l = if k =? fsp_name_hash fsp then Some (Delete_token k nt tok)
                               else find_token k (delete_tokens d).
Proof.
  intros Hmem. unfold cancel_messages, is_delete_on_close_set, find_delete_on_close_token.
  fold (find_token (fsp_name_hash fsp) (delete_tokens d)).
  pose proof (replace_token_spec (fsp_name_hash fsp) nt tok (delete_tokens d)) as Hr.
  unfold set_delete_on_close_lck. fold notify_entry. unfold mbind, M_bind, data, ask. cbn [sd].
  destruct (replace_token _ _ _ _) as [l|].
  - destruct Hr as (Hnames & Hset & Hf). exists l. rewrite (proj1 Hmem). cbn. split_and!.
    + destruct (find_token _ _); [by rewrite app_nil_r | done].
    + unfold tokens_ok. by rewrite Hnames.
    + intros k. rewrite Hf. by destruct (Z.eqb_spec k (fsp_name_hash fsp)) as [->|].
  - exists (delete_tokens d ++ [Delete_token (fsp_name_hash fsp) nt tok]).
    rewrite Hr, (add_delete_on_close_token_run _ _ _ _ _ _ Hmem). cbn [negb]. split_and!.
    + set (d1 := Share_mode_data _ _ _ _). exact (f_equal (fun r => match r with Some (_, s) => Some (tt, s) | None => None end)
        (notify_run env d1 lg)).
    + intros Hn. by apply token_names_snoc.
    + intros k. rewrite find_token_snoc. cbn.
      rewrite (Z.eqb_sym (fsp_name_hash fsp)). destruct (Z.eqb_spec k (fsp_name_hash fsp)) as [->|].
      * by rewrite Hr.
      * by destruct (find_token k (delete_tokens d)).
Qed.

Lemma reset_delete_on_close_run env fsp d lg :
  exists l m, reset_delete_on_close_lck fsp env (Share_state d lg) =
    Some (tt, Share_state (Share_mode_data (share_modes d) (leases d) l m) lg) /\
    (tokens_ok d -> NoDup (token_names l) /\
       forall k, find_token k l = if k =? fsp_name_hash fsp then None else find_token k (delete_tokens d)).
Proof.
  exists (reset_tokens_loop (length (delete_tokens d)) 0 (fsp_name_hash fsp) (delete_tokens d)).
  exists (existsb (fun dt => dt_name_hash dt =? fsp_name_hash fsp) (delete_tokens d) || modified d).
  unfold reset_delete_on_close_lck, mbind, M_bind, data. cbn [sd].
  split; [by destruct (existsb _ _)|]. intros Hn. by apply reset_tokens_spec.
Qed.

(** ** The invariant *)

Lemma set_delete_on_close_keeps env fsp nt tok : keeps tokens_ok env (set_delete_on_close_lck fsp nt tok).
Proof.
  apply triple_data. intros d Hd. apply triple_ask.
  pose proof (replace_token_spec (fsp_name_hash fsp) nt tok (delete_tokens d)) as Hr.
  destruct (replace_token _ _ _ _) as [l|].
  { destruct (negb _); [by apply triple_panic|]. apply triple_update_at, triple_update.
    intros ? ->. unfold tokens_ok. cbn [with_tokens set_modified delete_tokens].
    by rewrite (proj1 Hr). }
  apply (triple_bind _ _ _ (fun _ => tokens_ok)).
  - apply triple_data_at, triple_ask. do 2 (destruct (negb _); [by apply triple_ret_at|]).
    do 2 apply triple_update_at. apply triple_ret_at. by apply token_names_snoc.
  - intros b. change (keeps tokens_ok env (if negb b then panic else for_entries notify_entry tt ≫= fun _ => mret tt)).
    unfold notify_entry. keeps.
Qed.

Lemma reset_delete_on_close_keeps env fsp : keeps tokens_ok env (reset_delete_on_close_lck fsp).
Proof.
  intros [d lg] Hd. destruct (reset_delete_on_close_run env fsp d lg) as (l & m & -> & H). by apply H.
Qed.

#[local] Hint Resolve set_delete_on_close_keeps reset_delete_on_close_keeps : keeps.

Lemma run_op_tokens env op : keeps tokens_ok env (run_op op).
Proof.
  destruct op; cbn [run_op]; unfold downgrade_lease, remove_oplock_under_lock, remove_share_oplock,
    downgrade_oplock, downgrade_share_oplock, mark_share_mode_disconnected; keeps.
Qed.

Lemma reach_tokens dir strict d : reach dir strict d -> tokens_ok d.
Proof.
  induction 1 as [|d env op status d' _ IH Hp Hstep Hst]; [constructor|].
  unfold step in Hstep. pose proof (run_op_tokens env op (Share_state d []) IH) as Hk.
  destruct (run_op op env (Share_state d [])) as [[st s]|]; [|done]. injection Hstep as <- <-.
  unfold store_share_modes. destruct (negb _); [done|]. destruct (_ =? _)%nat; [constructor | done].
Qed.

(** ** When the file cannot be opened *)

(** The file is to be deleted and is still open. *)
Definition pending (env : share_env) (h : Z) (d : share_mode_data) : Prop :=
  is_delete_on_close_set d h = true /\
  exists e, e ∈ share_modes d /\ stale e = false /\ serverid_exists env (e_pid e) = true.

(** What this depends on. *)
Definition owner (e : share_mode_entry) : server_id * bool := (e_pid e, stale e).

Definition traces (d : share_mode_data) : list delete_token * list (server_id * bool) :=
  (delete_tokens d, owner <$> share_modes d).

Lemma pending_traces env h d d' : traces d' = traces d -> pending env h d -> pending env h d'.
Proof.
  intros [= Ht Ho] (Hs & e & He & Hst & Hp). split.
  { unfold is_delete_on_close_set, find_delete_on_close_token in *. by rewrite Ht. }
  assert (Hin : owner e ∈ owner <$> share_modes d') by (rewrite Ho; by apply list_elem_of_fmap_2).
  apply list_elem_of_fmap in Hin as (e' & [= Hp' Hs'] & He'). exists e'. by rewrite <- Hp', <- Hs'.
Qed.

Lemma traces_change_entry i f d : (forall e, owner (f e) = owner e) -> traces (change_entry i f d) = traces d.
Proof.
  intros Hf. unfold traces, change_entry. cbn. f_equal. apply list_eq. intros j.
  rewrite !list_lookup_fmap. destruct (decide (i = j)) as [->|Hj].
  - rewrite list_lookup_alter_eq. destruct (share_modes d !! j); cbn; [by rewrite Hf | done].
  - by rewrite list_lookup_alter_ne.
Qed.

Lemma traces_map f d : (forall e, owner (f e) = owner e) -> traces (with_entries (f <$> share_modes d) d) = traces d.
Proof.
  intros Hf. unfold traces. cbn. f_equal. rewrite <- list_fmap_compose. apply list_fmap_ext. intros ? e _. apply Hf.
Qed.

Lemma keeps_traces env x f : (forall d, traces (f d) = traces d) -> keeps (fun d => traces d = x) env (update f).
Proof. intros Hf. apply keeps_update. intros d Hd. by rewrite Hf. Qed.

Lemma remove_share_mode_lease_traces env x i : keeps (fun d => traces d = x) env (remove_share_mode_lease i).
Proof.
  unfold remove_share_mode_lease. keeps; apply keeps_traces; intros d;
    first [reflexivity | by apply traces_change_entry | apply traces_map; intros e; by case_match].
Qed.

(** [share_mode_stale_pid] while the deletion is pending. *)
Lemma share_mode_stale_pid_pending env h i d e :
  share_modes d !! i = Some e -> pending env h d ->
  triple True env (fun d0 => d0 = d) (share_mode_stale_pid i)
    (fun b d' => pending env h d' /\
       owner <$> share_modes d' = (if b then alter (fun o => (o.1, true)) i else id) (owner <$> share_modes d)).
Proof.
  intros He Hp. pose proof (lookup_lt_Some _ _ _ He) as Hlt. unfold share_mode_stale_pid. apply triple_data_at.
  destruct (Nat.ltb_spec (length (share_modes d)) i); [lia|]. eapply triple_index; [done|].
  assert (Hi : (owner <$> share_modes d) !! i = Some (owner e)) by by rewrite list_lookup_fmap, He.
  destruct (stale e) eqn:Hs.
  { apply triple_ret_at. split; [done|]. rewrite (alter_lookup_insert _ _ _ _ Hi). symmetry.
    apply list_insert_id. rewrite Hi. unfold owner. by rewrite Hs. }
  apply triple_ask. destruct (serverid_exists env (e_pid e)) eqn:Hx; [by apply triple_ret_at|].
  apply triple_update_at, triple_data_at. set (d1 := change_entry i set_stale d).
  assert (Ho1 : owner <$> share_modes d1 = alter (fun o => (o.1, true)) i (owner <$> share_modes d)).
  { cbn. by rewrite (alter_lookup_insert _ _ _ _ He), list_fmap_insert, (alter_lookup_insert _ _ _ _ Hi). }
  assert (Hp1 : pending env h d1).
  { destruct Hp as (Hset & e' & [j Hj]%list_elem_of_lookup & Hs' & Hx'). split; [done|]. exists e'. split_and!; [|done..].
    apply list_elem_of_lookup. exists j. cbn. rewrite list_lookup_alter_ne; [done|]. intros ->. congruence. }
  assert (forallb stale (share_modes d1) = false) as ->.
  { apply not_true_iff_false. rewrite forallb_forall. destruct Hp1 as (_ & e' & He' & Hs' & _). intros Hall.
    rewrite Hall in Hs'; [done|]. by apply list_elem_of_In. }
  rewrite andb_false_r. eapply (triple_bind _ _ _ (fun _ d' => traces d' = traces d1)); [by apply triple_ret_at|].
  intros []. eapply triple_bind; [apply (remove_share_mode_lease_traces env (traces d1))|].
  intros []. eapply triple_bind; [apply (keeps_traces env (traces d1)); done|].
  intros []. apply triple_ret. intros d' Ht. split; [by eapply pending_traces|]. rewrite <- Ho1. by injection Ht.
Qed.

Lemma owner_length (b : bool) f i l l' :
  owner <$> l' = (if b then alter f i else id) (owner <$> l) -> length l' = length l.
Proof. intros H. rewrite <- !(length_fmap owner), H. destruct b; [apply length_alter | done]. Qed.

(** No more than [n] entries. *)
Definition pending_in (env : share_env) (h : Z) (n : nat) (d : share_mode_data) : Prop :=
  pending env h d /\ (length (share_modes d) <= n)%nat.

Lemma has_delete_on_close_pending env h n :
  triple True env (pending_in env h n) (has_delete_on_close h)
    (fun b d => b = true /\ (length (share_modes d) <= n)%nat).
Proof.
  apply triple_data. intros d [Hp Hle]. pose proof Hp as (Hset & e0 & He0 & _). rewrite Hset.
  destruct (Nat.eqb_spec (length (share_modes d)) 0) as [E|_].
  { apply nil_length_inv in E. rewrite E in He0. by apply not_elem_of_nil in He0. }
  cbn [negb]. eapply triple_bind.
  - eapply triple_conseq; [eapply (triple_for_entries _ (length (share_modes d))
      (fun i _ d' => pending env h d' /\ length (share_modes d') = length (share_modes d) /\
         Forall (fun o : server_id * bool => o.2 = true) (take i (owner <$> share_modes d')))
      (fun _ d' => length (share_modes d') = length (share_modes d)) tt) | |].
    + by intros d' (_ & ? & _).
    + intros i [] Hi. apply triple_pre. intros d1 (Hp1 & Hlen & Hst).
      destruct (lookup_lt_is_Some_2 (share_modes d1) i) as [e He]; [by rewrite Hlen|].
      eapply triple_bind; [by apply (share_mode_stale_pid_pending env h i d1 e)|].
      intros b. apply triple_ret. intros d' [Hp' Ho]. pose proof (owner_length _ _ _ _ _ Ho) as Hlen'.
      destruct b; cbn [negb]; [|by rewrite Hlen'].
      split_and!; [done | by rewrite Hlen' |].
      rewrite Ho. erewrite take_S_r by (rewrite list_lookup_alter_eq, list_lookup_fmap, He; done).
      rewrite take_alter_ge by lia. apply Forall_app. split; [done | by repeat constructor].
    + intros ? ->. split_and!; [done | done | constructor].
    + intros c d' H. apply H.
  - intros [[]|[]]; apply triple_ret; [|intros d' Hlen; split; [done | lia]]. intros d' (Hp' & Hlen & Hst).
    rewrite take_ge in Hst by by rewrite length_fmap, Hlen. destruct Hp' as (_ & e & He & Hs & _).
    rewrite Forall_fmap, Forall_forall in Hst. specialize (Hst e He). cbn in Hst. congruence.
Qed.

Lemma pending_remove_stale env h n d :
  pending_in env h n d -> pending_in env h n (remove_stale_share_mode_entries d).
Proof.
  intros [(Hset & e & He & Hs & Hx) Hle].
  assert (Hp : share_modes (remove_stale_share_mode_entries d) ≡ₚ filter (fun e => stale e = false) (share_modes d)).
  { apply remove_stale_loop_filter; [lia | constructor]. }
  split; [split; [done|]; exists e; split_and!; [|done..]; rewrite Hp; by apply list_elem_of_filter|].
  rewrite Hp. etrans; [apply length_filter | done].
Qed.

Lemma stale_pid_keeps_pending env h n i : keeps (pending_in env h n) env (share_mode_stale_pid i).
Proof.
  apply triple_pre. intros d [Hp Hle]. destruct (share_modes d !! i) as [e|] eqn:He.
  - eapply triple_conseq; [by apply (share_mode_stale_pid_pending env h i d e) | done |].
    intros b d' [Hp' Ho]. split; [done|]. by rewrite (owner_length _ _ _ _ _ Ho).
  - apply triple_data_at. destruct (_ <? _)%nat; [by apply triple_ret_at|].
    unfold index. rewrite He. by apply triple_panic.
Qed.
#[local] Hint Resolve stale_pid_keeps_pending pending_remove_stale : keeps.

Lemma validate_keeps_pending env h n : keeps (pending_in env h n) env validate_oplock_types.
Proof.
  unfold validate_oplock_types, validate_body, run_steps, count_batch, count_exclusive, count_shared,
    is_valid_share_mode_entry. keeps.
Qed.

Lemma open_share_mode_pending env n fsp a :
  triple True env (pending_in env (fsp_name_hash fsp) n) (open_share_mode fsp a)
    (fun status d => status = NT_STATUS_DELETE_PENDING /\ (length (share_modes d) <= n)%nat).
Proof.
  unfold open_share_mode. cbv zeta. destruct (match oa_mid a with None => _ | Some _ => _ end); [by apply triple_panic|].
  eapply triple_bind; [apply (validate_keeps_pending env (fsp_name_hash fsp) n)|].
  intros [|]; cbn [negb]; [|by apply triple_panic].
  eapply triple_bind; [apply has_delete_on_close_pending|].
  intros b. apply triple_pre. intros d [-> Hle]. by apply triple_ret_at.
Qed.

Lemma open_directory_share_mode_pending env n fsp mid am :
  triple True env (pending_in env (fsp_name_hash fsp) n) (open_directory_share_mode fsp mid am)
    (fun status d => status = NT_STATUS_DELETE_PENDING /\ (length (share_modes d) <= n)%nat).
Proof.
  eapply triple_bind; [apply has_delete_on_close_pending|].
  intros b. apply triple_pre. intros d [-> Hle]. by apply triple_ret_at.
Qed.
