(* ===== verification/ShareProps.v ===== *)
(** * Properties of the share mode records

    The theorems about share modes, oplocks and leases, and the runs that show
    where the code does not do what its comments say. *)

From S2P Require Import Prelude.
From S2P Require Import ServerId.
From S2P Require Import DomSid.
From S2P Require Import SecModel.
From S2P Require Import ShareModel.
From S2P Require Import ShareView.
From S2P Require Import ShareOps.
From S2P Require Import ShareGrant.
From S2P Require Import ShareOpen.
From S2P Require Import ShareReach.
From S2P Require Import ShareDelete.
From stdpp Require Import prelude list.

#[local] Open Scope Z_scope.
#[local] Arguments Z.testbit : simpl never.

(** ** Example runs *)

Definition ex_env : share_env :=
  Share_env (fun _ => true) true true true true true false false true true false true true true true 0 0.

Definition ex_guid (n : Z) : GUID := Mk_GUID n 0 0 (0, 0) [0; 0; 0; 0; 0; 0].

Definition ex_fsp (n access share : Z) : share_fsp :=
  Share_fsp (Server_id (1000 + n) 0 NONCLUSTER_VNN n) n share 0 access (0, 0) false 77 (ex_guid n) (Some n).

Definition ex_lease (n state : Z) : smb2_lease := Smb2_lease (Lease_key n n) state 0 2 0.

(** An open of an existing file. *)
Definition ex_open (n access share request : Z) (lease : option smb2_lease) : share_op :=
  Open (ex_fsp n access share) (Open_args (Some n) access false 1 request true lease true true true None true 0 0).

(** The record after some opens. *)
Definition ex_after (ops : list share_op) : share_mode_data :=
  match run_ops ex_env ops fresh_share_mode_data with Some (_, d) => d | None => fresh_share_mode_data end.

Lemma ex_after_reach dir strict ops sts :
  Forall (fun op => (forall d, permitted dir op d) /\ honours op) ops ->
  (fst <$> run_ops ex_env ops fresh_share_mode_data) = Some sts ->
  Forall (fun st => st <> NT_STATUS_NO_MEMORY) sts -> reach dir strict (ex_after ops).
Proof.
  intros Hp Hr Hs. unfold ex_after. destruct (run_ops ex_env ops fresh_share_mode_data) as [[l d]|] eqn:E; [|done].
  injection Hr as ->. by eapply run_ops_reach; [apply Reach_fresh | exact Hp | exact E |].
Qed.

(** ** Sharing *)

(** C2. Share modes are respected: in every record that opens of files or
    directories, closes, oplock and lease breaks, durable disconnects and reconnects
    and the clean-up of entries of dead processes can produce, no two opens of
    connected clients conflict: neither has an access that the other does not
    share. *)
Theorem share_modes_compatible dir d i j e1 e2 :
  reach dir false d -> i <> j -> share_modes d !! i = Some e1 -> share_modes d !! j = Some e2 ->
  server_id_is_disconnected (e_pid e1) = false -> server_id_is_disconnected (e_pid e2) = false ->
  share_conflict e1 (e_access_mask e2) (e_share_access e2) = false.
Proof.
  intros Hr Hij Hi Hj H1 H2. destruct (reach_stored _ _ _ Hr) as [(_ & Hc & _) Hns].
  assert (Ho : forall k e, share_modes d !! k = Some e -> opens d !! k = Some (view (leases d) e)).
  { intros k e Hk. by rewrite opens_lookup, Hk. }
  rewrite Forall_lookup in Hns.
  apply (Hc i j _ _ Hij (Ho _ _ Hi) (Ho _ _ Hj)); [by eapply Hns, Ho | by eapply Hns, Ho | done | done].
Qed.

Definition ex_readers : list share_op := [ex_open 1 1 1 0 None; ex_open 2 1 1 0 None].

Lemma ex_readers_reach dir : reach false dir (ex_after ex_readers).
Proof. apply (ex_after_reach _ _ _ [0; 0]); [by repeat constructor | by vm_compute | by repeat constructor]. Qed.

Lemma share_modes_compatible_witness :
  exists e1 e2, share_modes (ex_after ex_readers) !! 0%nat = Some e1 /\
  share_modes (ex_after ex_readers) !! 1%nat = Some e2 /\
  share_conflict e1 (e_access_mask e2) (e_share_access e2) = false.
Proof.
  eexists _, _. split; [vm_compute; reflexivity|]. split; [vm_compute; reflexivity|].
  apply (share_modes_compatible false (ex_after ex_readers) 0 1);
    [apply ex_readers_reach | discriminate | vm_compute; reflexivity..].
Defined.

(** ** Leases *)

Lemma stored_open dir strict d i e :
  reach dir strict d -> share_modes d !! i = Some e ->
  opens d !! i = Some (view (leases d) e) /\ open_stale (view (leases d) e) = false /\
  wf_entry (length (leases d)) e.
Proof.
  intros Hr He. destruct (reach_stored _ _ _ Hr) as [(Hwf & _) Hns].
  assert (Ho : opens d !! i = Some (view (leases d) e)) by by rewrite opens_lookup, He.
  split_and!; [done | by apply (proj1 (Forall_lookup _ _) Hns i) | by eapply wf_lookup].
Qed.

(** Entries whose leases have the same key have the same lease of the table. *)
Lemma shares_lease_idx d e1 e2 :
  wf d -> e1 ∈ share_modes d -> e2 ∈ share_modes d ->
  shares_lease (view (leases d) e1) (view (leases d) e2) ->
  op_type e1 = LEASE_OPLOCK /\ op_type e2 = LEASE_OPLOCK /\ lease_idx e1 = lease_idx e2.
Proof.
  intros [Hm (_ & Hnd & _)] H1 H2 (l1 & l2 & Hl1 & Hl2 & Hid). rewrite Forall_forall in Hm.
  pose proof (Hm e1 H1) as [_ Hw1]. pose proof (Hm e2 H2) as [_ Hw2].
  cbn in Hl1, Hl2. unfold lease_of in Hl1, Hl2.
  destruct (Z.eqb_spec (op_type e1) LEASE_OPLOCK); [|done]. destruct (Z.eqb_spec (op_type e2) LEASE_OPLOCK); [|done].
  split_and!; [done | done |]. apply Z2Nat.inj; [lia | lia |].
  apply (NoDup_lookup _ _ _ (lease_id l1) Hnd); rewrite list_lookup_fmap; [by rewrite Hl1 | by rewrite Hl2, Hid].
Qed.

(** C3. A write lease excludes other users of the file: on runs on which no operation
    fails for want of memory and leases are only named where oplocks are on for the
    share and the path, an open of a file whose oplock or lease lets it cache writes is
    alone with the opens of the same lease; any other open is internal or only looks at
    attributes. In particular the lease of every entry can be looked up. Where oplocks
    are turned off the code masks the request for a lease and still treats the open as
    one of the lease it names ([masked_open_beside_write_lease]). *)
Theorem write_lease_excludes d i j e1 e2 env s :
  reach false true d -> i <> j -> share_modes d !! i = Some e1 -> share_modes d !! j = Some e2 ->
  exists t, get_lease_type d e1 env s = Some (t, s) /\
  (has_bits t SMB2_LEASE_WRITE = true ->
   op_mid e2 = 0 \/ is_stat_open (e_access_mask e2) = true \/
   (op_type e1 = LEASE_OPLOCK /\ op_type e2 = LEASE_OPLOCK /\ lease_idx e1 = lease_idx e2)).
Proof.
  intros Hr Hij Hi Hj.
  destruct (stored_open _ _ _ _ _ Hr Hi) as (Ho1 & Hs1 & Hw1), (stored_open _ _ _ _ _ Hr Hj) as (Ho2 & Hs2 & _).
  destruct (reach_stored _ _ _ Hr) as [(Hwf & _ & _ & Hst) _]. destruct (Hst eq_refl eq_refl) as (Hex & _).
  exists (open_type (view (leases d) e1)). split.
  - unfold get_lease_type, open_type. destruct (Z.eqb_spec (op_type e1) LEASE_OPLOCK) as [E|E].
    + destruct (wf_lease_view d e1 Hw1 E) as (l & Hl & ->). unfold mbind, M_bind, index. by rewrite Hl.
    + by rewrite plain_view.
  - rewrite has_write. intros Hm. destruct (Hex i j _ _ Hij Ho1 Ho2 Hs1 Hs2 Hm) as [Hq|Hsh].
    + apply orb_true_iff in Hq as [Hq%Z.eqb_eq|Hq]; auto.
    + do 2 right. apply (shares_lease_idx d); [done | by eapply list_elem_of_lookup_2 | by eapply list_elem_of_lookup_2 | done].
Qed.

(** Two opens with one write lease. *)
Definition ex_writers : list share_op :=
  [ex_open 1 3 7 LEASE_OPLOCK (Some (ex_lease 1 7)); ex_open 1 3 7 LEASE_OPLOCK (Some (ex_lease 1 7))].

Lemma ex_writers_reach strict : reach false strict (ex_after ex_writers).
Proof. apply (ex_after_reach _ _ _ [0; 0]); [by repeat constructor | by vm_compute | by repeat constructor]. Qed.

Lemma write_lease_excludes_witness :
  exists e1 e2, share_modes (ex_after ex_writers) !! 0%nat = Some e1 /\
  share_modes (ex_after ex_writers) !! 1%nat = Some e2 /\
  exists t, get_lease_type (ex_after ex_writers) e1 ex_env (Share_state (ex_after ex_writers) []) =
            Some (t, Share_state (ex_after ex_writers) []) /\
  (has_bits t SMB2_LEASE_WRITE = true ->
   op_mid e2 = 0 \/ is_stat_open (e_access_mask e2) = true \/
   (op_type e1 = LEASE_OPLOCK /\ op_type e2 = LEASE_OPLOCK /\ lease_idx e1 = lease_idx e2)).
Proof.
  eexists _, _. split; [vm_compute; reflexivity|]. split; [vm_compute; reflexivity|].
  apply (write_lease_excludes (ex_after ex_writers) 0 1);
    [apply ex_writers_reach | discriminate | vm_compute; reflexivity..].
Defined.

(** C29. The entries and the lease table of a record of a file or a directory fit
    together: every entry is not stale and has one of the known oplock types, it has a
    lease index inside the table exactly when its type says that it has a lease, and no
    lease is there twice; on runs on which no operation fails for want of memory and
    leases are only named where oplocks are on, every lease belongs to an entry. *)
Theorem share_records_well_formed dir strict d :
  reach dir strict d ->
  Forall (fun e => stale e = false /\ op_type e ∈ oplock_types /\
            if op_type e =? LEASE_OPLOCK then 0 <= lease_idx e < Z.of_nat (length (leases d))
            else lease_idx e = UINT32_MAX) (share_modes d) /\
  NoDup (lease_id <$> leases d) /\
  (strict = true -> forall k, (k < length (leases d))%nat ->
   exists e, e ∈ share_modes d /\ op_type e = LEASE_OPLOCK /\ lease_idx e = Z.of_nat k).
Proof.
  intros Hr. destruct (reach_stored _ _ _ Hr) as [((Hm & Hls) & _ & Hst & _) Hns]. split_and!.
  - apply Forall_lookup. intros i e He. destruct (stored_open _ _ _ _ _ Hr He) as (_ & Hs & [Ht Hw]).
    split_and!; [done | done |]. case_match; [apply Hw | done].
  - apply Hls.
  - intros Hstr k Hk. pose proof (Hst Hstr) as Hu. destruct (lookup_lt_is_Some_2 _ _ Hk) as [l Hl].
    destruct (Hu l) as (j & o & Hj & _ & Hol); [by eapply list_elem_of_lookup_2|].
    rewrite opens_lookup in Hj. destruct (share_modes d !! j) as [e|] eqn:He; [|done]. injection Hj as <-.
    exists e. split; [by eapply list_elem_of_lookup_2|].
    destruct (stored_open _ _ _ _ _ Hr He) as (_ & _ & [_ Hw]). cbn in Hol. unfold lease_of in Hol.
    destruct (Z.eqb_spec (op_type e) LEASE_OPLOCK); [|done]. split; [done|].
    destruct Hls as (_ & Hnd & _). cut (Z.to_nat (lease_idx e) = k); [lia|].
    apply (NoDup_lookup _ _ _ (lease_id l) Hnd); rewrite list_lookup_fmap; [by rewrite Hol | by rewrite Hl].
Qed.

Lemma share_records_well_formed_witness :
  Forall (fun e => stale e = false /\ op_type e ∈ oplock_types /\
            if op_type e =? LEASE_OPLOCK then 0 <= lease_idx e < Z.of_nat (length (leases (ex_after ex_writers)))
            else lease_idx e = UINT32_MAX) (share_modes (ex_after ex_writers)) /\
  NoDup (lease_id <$> leases (ex_after ex_writers)) /\
  (true = true -> forall k, (k < length (leases (ex_after ex_writers)))%nat ->
   exists e, e ∈ share_modes (ex_after ex_writers) /\ op_type e = LEASE_OPLOCK /\ lease_idx e = Z.of_nat k).
Proof. apply (share_records_well_formed false true), ex_writers_reach. Defined.

(** ** Closing *)

(** C28. Closing removes one open and nothing else: on a record that can be reached
    del_share_mode does not leave its arrays; it removes the entry of the open file
    and leaves every other open with the lease and the rights it had, although
    entries and leases move in their arrays; it fails when there is no such entry. *)
Theorem close_removes_open dir strict d fsp env lg :
  reach dir strict d ->
  exists b s, del_share_mode fsp env (Share_state d lg) = Some (b, s) /\
  if b : bool
  then exists e, e ∈ share_modes d /\ owned fsp e = true /\ opens d ≡ₚ view (leases d) e :: opens (sd s)
  else sd s = d /\ Forall (fun e => owned fsp e = false) (share_modes d).
Proof.
  intros Hr. destruct (reach_stored _ _ _ Hr) as [(Hwf & _) _].
  pose proof (del_share_mode_spec False env fsp d Hwf (Share_state d lg) eq_refl) as H.
  destruct (del_share_mode fsp env (Share_state d lg)) as [[b s]|]; [|done]. exists b, s. split; [done|].
  destruct b; [|done]. destruct H as (e & He & Hown & (_ & _ & Hp)). by exists e.
Qed.

Lemma close_removes_open_witness :
  exists b s, del_share_mode (ex_fsp 1 3 7) ex_env (Share_state (ex_after ex_writers) []) = Some (b, s) /\
  if b : bool
  then exists e, e ∈ share_modes (ex_after ex_writers) /\ owned (ex_fsp 1 3 7) e = true /\
       opens (ex_after ex_writers) ≡ₚ view (leases (ex_after ex_writers)) e :: opens (sd s)
  else sd s = ex_after ex_writers /\ Forall (fun e => owned (ex_fsp 1 3 7) e = false) (share_modes (ex_after ex_writers)).
Proof. apply (close_removes_open false true), ex_writers_reach. Defined.

(** ** Delete on close *)

(** The delete tokens are a table by name: on a record that can be reached, and
    with memory, setting the token of a name makes it the one found for this name
    and tells every holder of the file unless there was one before, resetting it
    makes the lookup fail, and both leave the tokens of other names, the opens and
    the leases as they are. *)
Theorem delete_tokens_by_name dir strict d fsp nt tok env lg :
  reach dir strict d -> token_memory env d ->
  exists d1 d2 lg1,
    set_delete_on_close_lck fsp nt tok env (Share_state d lg) = Some (tt, Share_state d1 lg1) /\
    reset_delete_on_close_lck fsp env (Share_state d1 lg1) = Some (tt, Share_state d2 lg1) /\
    lg1 = lg ++ (if is_delete_on_close_set d (fsp_name_hash fsp) then []
                 else (fun e => Notify_cancel_deleted (e_pid e)) <$> share_modes d) /\
    (forall h, get_delete_on_close_token d1 h =
       if h =? fsp_name_hash fsp then Some (nt, tok) else get_delete_on_close_token d h) /\
    (forall h, get_delete_on_close_token d2 h =
       if h =? fsp_name_hash fsp then None else get_delete_on_close_token d h) /\
    share_modes d1 = share_modes d /\ leases d1 = leases d /\ modified d1 = true /\
    share_modes d2 = share_modes d /\ leases d2 = leases d.
Proof.
  intros Hr Hmem. pose proof (reach_tokens _ _ _ Hr) as Hok.
  destruct (set_delete_on_close_run env fsp nt tok d lg Hmem) as (l & -> & Hn & Hf).
  set (d1 := Share_mode_data _ _ l true). specialize (Hn Hok).
  destruct (reset_delete_on_close_run env fsp d1 (lg ++ cancel_messages d (fsp_name_hash fsp))) as (l2 & m2 & E2 & H2).
  destruct (H2 Hn) as [_ Hf2]. exists d1, (Share_mode_data (share_modes d) (leases d) l2 m2),
    (lg ++ cancel_messages d (fsp_name_hash fsp)).
  split; [done|]. split; [exact E2|]. split_and!; [done | | | done..]; intros h;
    unfold get_delete_on_close_token, find_delete_on_close_token; cbn [delete_tokens d1].
  - rewrite (Hf h : List.find _ _ = _). by destruct (h =? _).
  - rewrite (Hf2 h : List.find _ _ = _). cbn [delete_tokens d1]. rewrite Hf. by destruct (h =? _).
Qed.

Definition ex_nt_token : security_token := Security_token [] 0 0.
Definition ex_unix_token : security_unix_token := Unix_token 0 0 [].

Lemma delete_tokens_by_name_witness :
  exists d1 d2 lg1,
    set_delete_on_close_lck (ex_fsp 1 3 7) ex_nt_token ex_unix_token ex_env (Share_state (ex_after ex_writers) []) =
      Some (tt, Share_state d1 lg1) /\
    reset_delete_on_close_lck (ex_fsp 1 3 7) ex_env (Share_state d1 lg1) = Some (tt, Share_state d2 lg1) /\
    get_delete_on_close_token d1 77 = Some (ex_nt_token, ex_unix_token) /\ get_delete_on_close_token d2 77 = None.
Proof.
  destruct (delete_tokens_by_name false true (ex_after ex_writers) (ex_fsp 1 3 7) ex_nt_token ex_unix_token ex_env []
              (ex_writers_reach true) (conj eq_refl eq_refl)) as (d1 & d2 & lg1 & E1 & E2 & _ & H1 & H2 & _).
  exists d1, d2, lg1. split; [exact E1|]. split; [exact E2|]. split; [exact (H1 77) | exact (H2 77)].
Defined.

(** The name that an open is for. *)
Definition opened_name (op : share_op) : option Z :=
  match op with
  | Open fsp _ | Open_directory fsp _ _ => Some (fsp_name_hash fsp)
  | _ => None
  end.

(** C34. A file that is to be deleted is not opened again: when the delete token of
    the name is set and a living process has the file open, every open of a file
    or directory of that name that is answered is answered with DELETE_PENDING, and no entry
    is added. *)
Theorem delete_pending_stops_opens dir strict d op h env status d' :
  reach dir strict d -> opened_name op = Some h -> is_delete_on_close_set d h = true ->
  Exists (fun e => serverid_exists env (e_pid e) = true) (share_modes d) ->
  step env op d = Some (status, d') ->
  status = NT_STATUS_DELETE_PENDING /\ (length (share_modes d') <= length (share_modes d))%nat.
Proof.
  intros Hr Hop Hset Hex Hstep. destruct (reach_stored _ _ _ Hr) as [_ Hns].
  assert (Hp : pending_in env h (length (share_modes d)) d).
  { split; [split; [done|] | done]. apply Exists_exists in Hex as (e & He & Hx). exists e. split_and!; [done | | done].
    unfold opens in Hns. rewrite Forall_fmap, Forall_forall in Hns. exact (Hns e He). }
  unfold step in Hstep.
  assert (Ht : triple True env (fun d0 => d0 = d) (run_op op) (fun status d1 =>
    status = NT_STATUS_DELETE_PENDING /\ (length (share_modes d1) <= length (share_modes d))%nat)).
  { destruct op as [fsp a|fsp mid am| | | | | | | | |]; try discriminate Hop; injection Hop as <-;
      (eapply triple_conseq; [first [apply open_share_mode_pending | apply open_directory_share_mode_pending]
        | by intros ? -> | done]). }
  specialize (Ht (Share_state d []) eq_refl). destruct (run_op op env _) as [[st s]|]; [|done].
  injection Hstep as <- <-. destruct Ht as [-> Hle]. split; [done|].
  unfold store_share_modes. destruct (negb _); [done|].
  destruct (_ =? _)%nat; [cbn; lia|]. cbn [share_modes].
  pose proof (remove_stale_loop_filter (length (share_modes (sd s))) 0 (share_modes (sd s)) ltac:(lia) ltac:(constructor)) as Hf.
  apply Permutation_length in Hf. cbn. rewrite Hf. etrans; [apply length_filter | done].
Qed.

Definition ex_deleted : list share_op :=
  [ex_open 1 1 7 0 None; Set_delete_on_close (ex_fsp 1 1 7) ex_nt_token ex_unix_token].

Lemma delete_pending_stops_opens_witness :
  exists status d', step ex_env (ex_open 2 1 7 0 None) (ex_after ex_deleted) = Some (status, d') /\
  status = NT_STATUS_DELETE_PENDING /\ (length (share_modes d') <= length (share_modes (ex_after ex_deleted)))%nat.
Proof.
  eexists _, _. split; [vm_compute; reflexivity|].
  apply (delete_pending_stops_opens false true _ (ex_open 2 1 7 0 None) 77 ex_env).
  - apply (ex_after_reach _ _ _ [0; 0]); [by repeat constructor | by vm_compute | by repeat constructor].
  - reflexivity.
  - vm_compute. reflexivity.
  - vm_compute. constructor. reflexivity.
  - vm_compute. reflexivity.
Defined.

(** ** Lease breaks *)

(** A lease between its breaks and acknowledgements; [None] when an
    acknowledgement is refused. *)
Inductive lease_event := Lbreak (to : Z) | Lack (state : Z).

Definition lease_step (ev : lease_event) (l : share_mode_lease) : option share_mode_lease :=
  match ev with
  | Lbreak to => Some (break_lease to l).1.1
  | Lack st =>
      if negb (breaking l) then None
      else if negb (Z.land st (breaking_to_requested l) =? st) then None
      else Some (ack_lease true st l).1.1
  end.

Definition lease_run (evs : list lease_event) (l : share_mode_lease) : option share_mode_lease :=
  foldl (fun ol ev => ol ≫= lease_step ev) (Some l) evs.

Definition subset (x y : Z) : Prop := Z.ldiff x y = 0.

Lemma subset_trans x y z : subset x y -> subset y z -> subset x z.
Proof.
  unfold subset. intros H1 H2. apply Z.bits_inj'. intros n Hn.
  assert (E1 := f_equal (fun v => Z.testbit v n) H1). assert (E2 := f_equal (fun v => Z.testbit v n) H2).
  cbn in E1, E2. rewrite Z.ldiff_spec, Z.bits_0 in *. destruct (Z.testbit x n), (Z.testbit y n), (Z.testbit z n); done.
Qed.

Lemma subset_land_l x y : subset (Z.land x y) x.
Proof. unfold subset. rewrite Z.ldiff_land, (Z.land_comm x y), <- Z.land_assoc, Z.land_lnot_diag. apply Z.land_0_r. Qed.

Lemma subset_land_r x y : subset (Z.land x y) y.
Proof. rewrite Z.land_comm. apply subset_land_l. Qed.

(** What the breaks so far ask for. *)
Definition within (l : share_mode_lease) (to : Z) : Prop :=
  if breaking l then subset (breaking_to_required l) to else subset (current_state l) to.

Lemma within_break to l : within (break_lease to l).1.1 to.
Proof.
  unfold break_lease, within. destruct (breaking l) eqn:E.
  - destruct (Z.eqb_spec (breaking_to_required l) (Z.land (Z.land to (current_state l)) (breaking_to_required l)))
      as [Eq|_]; cbn.
    + rewrite E, Eq. eapply subset_trans; apply subset_land_l.
    + eapply subset_trans; apply subset_land_l.
  - destruct (Z.eqb_spec (current_state l) (Z.land to (current_state l))) as [Eq|_]; cbn.
    + rewrite E, Eq. apply subset_land_l.
    + destruct (_ =? _); cbn; [by rewrite E | apply subset_land_l].
Qed.

Lemma within_step ev l l' to : lease_step ev l = Some l' -> within l to -> within l' to.
Proof.
  destruct ev as [b|st]; cbn [lease_step]; unfold within.
  - intros [= <-]. unfold break_lease. destruct (breaking l) eqn:E.
    + destruct (negb _); cbn; rewrite ?E; [|done]. apply subset_trans, subset_land_r.
    + destruct (_ =? _); cbn; [by rewrite E|]. destruct (_ =? _); cbn; [by rewrite E|].
      apply subset_trans, subset_land_r.
  - destruct (breaking l) eqn:E; cbn [negb]; [|done]. destruct (negb _); [done|].
    unfold ack_lease. cbv zeta. destruct (Z.eqb_spec (clear_bits st (breaking_to_required (set_state st l))) 0) as [Hz|_]; cbn [negb].
    + intros [= <-]. cbn. apply subset_trans, Hz.
    + destruct (has_bits _ _); intros [= <-]; cbn; by rewrite ?E.
Qed.

Lemma within_run evs l l' to : lease_run evs l = Some l' -> within l to -> within l' to.
Proof.
  revert l. induction evs as [|ev evs IH]; intros l; unfold lease_run; cbn [foldl]; [by intros [= ->]|].
  cbn [mbind option_bind]. destruct (lease_step ev l) as [l1|] eqn:E.
  - intros Hr Hw. eapply IH; [exact Hr|]. by eapply within_step.
  - intros Hr _. exfalso. clear IH E. induction evs; [done|]. by apply IHevs.
Qed.

(** A lease break reaches what was asked for: whatever breaks arrive while
    others are in progress, and whatever the client acknowledges, once the lease is
    no longer breaking its state is within what every one of the breaks allows. *)
Theorem lease_break_completes evs l l' to :
  lease_run evs l = Some l' -> breaking l' = false -> Lbreak to ∈ evs ->
  clear_bits (current_state l') to = 0.
Proof.
  intros Hr Hb (evs1 & evs2 & ->)%list_elem_of_split. unfold lease_run in Hr. rewrite foldl_app in Hr.
  cbn [foldl] in Hr. destruct (foldl _ (Some l) evs1) as [l1|]; cbn [mbind option_bind lease_step] in Hr.
  - pose proof (within_run evs2 _ l' to Hr (within_break to l1)) as Hw. unfold within in Hw. by rewrite Hb in Hw.
  - exfalso. clear Hb. induction evs2; [done|]. by apply IHevs2.
Qed.

(** A lease that is broken to read and handle, and then, before the client has
    answered, to nothing. *)
Definition ex_held : share_mode_lease := Share_mode_lease (ex_guid 1) (Lease_key 1 1) 7 false 0 0 2 1.
Definition ex_breaks : list lease_event := [Lbreak 3; Lbreak 0; Lack 3; Lack 1].

Lemma lease_break_completes_witness :
  exists l', lease_run ex_breaks ex_held = Some l' /\ breaking l' = false /\
  clear_bits (current_state l') 3 = 0 /\ clear_bits (current_state l') 0 = 0.
Proof.
  eexists. split; [vm_compute; reflexivity|]. split; [reflexivity|]. split.
  - eapply (lease_break_completes ex_breaks ex_held); [vm_compute; reflexivity | reflexivity |]. by left.
  - eapply (lease_break_completes ex_breaks ex_held); [vm_compute; reflexivity | reflexivity |]. by right; left.
Defined.

(** A client that acknowledges what it is asked for is done after two
    acknowledgements: when no other break arrives, and what has to be reached
    includes the read lease or is nothing at all, or is what the client was asked
    for. *)
Theorem lease_acks_terminate l :
  breaking l = true ->
  breaking_to_requested l = breaking_to_required l \/ breaking_to_required l = 0 \/
  has_bits (breaking_to_required l) SMB2_LEASE_READ = true ->
  exists l1, lease_step (Lack (breaking_to_requested l)) l = Some l1 /\
  (breaking l1 = false \/
   exists l2, lease_step (Lack (breaking_to_requested l1)) l1 = Some l2 /\ breaking l2 = false).
Proof.
  intros Hb Hr. assert (Hstep : forall x, breaking x = true ->
    lease_step (Lack (breaking_to_requested x)) x = Some (ack_lease true (breaking_to_requested x) x).1.1).
  { intros x Hx. unfold lease_step. by rewrite Hx, Z.land_diag, Z.eqb_refl. }
  rewrite Hstep by done. eexists. split; [done|]. unfold ack_lease. cbv zeta.
  cbn [breaking_to_required current_state set_state].
  destruct (Z.eqb_spec (clear_bits (breaking_to_requested l) (breaking_to_required l)) 0) as [|Hne];
    cbn [negb]; [by left|].
  destruct (has_bits (breaking_to_requested l) _) eqn:Ewh; [|by left].
  right. cbn [fst]. rewrite Hstep by done. eexists. split; [done|].
  unfold ack_lease. cbv zeta. cbn [breaking_to_requested breaking_to_required set_breaking set_state current_state].
  assert (Hr' : breaking_to_required l = 0 \/ has_bits (breaking_to_required l) SMB2_LEASE_READ = true).
  { destruct Hr as [E|?]; [|done]. rewrite E in Hne. unfold clear_bits in Hne. by rewrite Z.ldiff_diag in Hne. }
  destruct Hr' as [->|Hread]; [done|].
  assert (Z.lor (breaking_to_required l) SMB2_LEASE_READ = breaking_to_required l) as ->.
  { apply Z.bits_inj'. intros n Hn. rewrite Z.lor_spec. change SMB2_LEASE_READ with (2 ^ 0) in *.
    rewrite has_bit in Hread by lia. rewrite Z.pow2_bits_eqb by lia.
    destruct (Z.eqb_spec 0 n) as [<-|]; [by rewrite Hread | by rewrite orb_false_r]. }
  unfold clear_bits at 1. by rewrite Z.ldiff_diag.
Qed.

Lemma lease_acks_terminate_witness :
  exists l1, lease_step (Lack 3) (break_lease 0 (break_lease 3 ex_held).1.1).1.1 = Some l1 /\
  (breaking l1 = false \/
   exists l2, lease_step (Lack (breaking_to_requested l1)) l1 = Some l2 /\ breaking l2 = false).
Proof.
  apply (lease_acks_terminate (break_lease 0 (break_lease 3 ex_held).1.1).1.1); [reflexivity|].
  right; left; reflexivity.
Defined.

(** The comment of downgrade_lease says that nothing can be upgraded: but a client
    that was left with the write lease only may acknowledge the read lease, which
    it does not have any more. *)
Lemma lease_ack_upgrades_read :
  exists l, lease_run [Lbreak 4; Lbreak 0; Lack 4] ex_held = Some l /\
  current_state l = SMB2_LEASE_WRITE /\ breaking_to_requested l = SMB2_LEASE_READ /\
  exists l', lease_step (Lack SMB2_LEASE_READ) l = Some l'.
Proof. eexists. split; [vm_compute; reflexivity|]. split_and!; [done | done |]. eexists. vm_compute. reflexivity. Qed.

(** ** Panics *)

(** An exclusive oplock is alone among the opens that are counted. *)
Lemma reach_oplocks_ok d :
  reach false true d ->
  Forall (fun e => op_type e = LEASE_OPLOCK -> op_mid e = 0 \/ is_stat_open (e_access_mask e) = false) (share_modes d) ->
  oplocks_ok (opens d).
Proof.
  intros Hr Hst i j x y Hij Hi Hj Hsx Hsy Hcx Hex.
  destruct (reach_stored _ _ _ Hr) as [(_ & _ & _ & Hs) _]. destruct (Hs eq_refl eq_refl) as (_ & Hal & _).
  assert (Hx : exclusive_oplock x = true).
  { rewrite opens_lookup in Hi. destruct (share_modes d !! i) as [e|] eqn:He; [|done]. injection Hi as <-.
    unfold exclusive_oplock. rewrite plain_view; [done|]. intros E. unfold exclusive_type in Hex. cbn in Hex. by rewrite E in Hex. }
  pose proof (Hal i j x y Hij Hi Hj Hsx Hsy Hx) as Hh.
  rewrite opens_lookup in Hj. destruct (share_modes d !! j) as [e|] eqn:He; [|done]. injection Hj as <-.
  pose proof (proj1 (Forall_lookup _ _) Hst j e He) as Hle. unfold counted. cbn in *.
  unfold harmless in Hh. cbn in Hh. destruct Hh as [->|[Hstat [E|E]]]; [done | |].
  - rewrite E, Hstat. apply andb_false_r.
  - destruct (Hle E) as [->|?]; [done | congruence].
Qed.

(** An open does not panic: on a record that operations have produced without
    running out of memory, an open that obeys the rule for internal opens, by an
    open file that has no entry yet, ends with a status: the consistency check of
    the oplocks passes and no array is left. The condition is that no open that only
    looks at attributes holds a lease. *)
Theorem open_does_not_panic d fsp a env lg :
  reach false true d -> valid_guid (fsp_client_guid fsp) ->
  (oa_lease a <> None -> oa_oplock_request a = LEASE_OPLOCK) -> asserted a ->
  Forall (fun e => op_type e = LEASE_OPLOCK -> op_mid e = 0 \/ is_stat_open (e_access_mask e) = false) (share_modes d) ->
  Forall (fun e => owned fsp e = false) (share_modes d) ->
  exists status s, open_share_mode fsp a env (Share_state d lg) = Some (status, s).
Proof.
  intros Hr Hg Hreq Ha Hst Hun. destruct (reach_stored _ _ _ Hr) as [(Hwf & _) _].
  pose proof (open_share_mode_spec False env (used d) fsp a Hg Hreq d) as H.
  assert (Ho : openable fsp a (opens d)).
  { split_and!; [done | by apply reach_oplocks_ok | by apply Forall_fmap]. }
  specialize (H (or_intror Ho) Hwf (fun x => x) (Share_state d lg) eq_refl).
  destruct (open_share_mode fsp a env (Share_state d lg)) as [[status s]|]; [by exists status, s | done].
Qed.

Lemma open_does_not_panic_witness :
  exists status s, open_share_mode (ex_fsp 2 1 7) (Open_args (Some 2) 1 false 1 0 true None true true true None true 0 0) ex_env
                     (Share_state (ex_after ex_writers) []) = Some (status, s).
Proof.
  apply (open_does_not_panic (ex_after ex_writers));
    [apply ex_writers_reach | reflexivity | intros H; destruct H; reflexivity | reflexivity | |].
  - apply (Forall_by_forallb _ (fun e => negb (is_stat_open (e_access_mask e)))); [|vm_compute; reflexivity].
    intros e He _. right. by apply negb_true_iff.
  - apply (Forall_by_forallb _ (fun e => negb (owned (ex_fsp 2 1 7) e))); [|vm_compute; reflexivity].
    intros e He. by apply negb_true_iff.
Defined.

(** Without this condition it does panic: after a client has got a batch oplock
    and another one has opened the file for its attributes with a read lease, both
    of which succeed, the next open of the file fails in validate_oplock_types. *)
Theorem stat_lease_panics :
  exists d, run_ops ex_env [ex_open 1 3 7 3 None; ex_open 2 0x80 7 LEASE_OPLOCK (Some (ex_lease 2 1))]
              fresh_share_mode_data = Some ([NT_STATUS_OK; NT_STATUS_OK], d) /\
  reach false true d /\ step ex_env (ex_open 3 1 7 0 None) d = None.
Proof.
  eexists. split; [vm_compute; reflexivity|]. split; [|vm_compute; reflexivity].
  eapply (run_ops_reach false true ex_env [ex_open 1 3 7 3 None; ex_open 2 0x80 7 LEASE_OPLOCK (Some (ex_lease 2 1))]);
    [apply Reach_fresh | by repeat constructor | vm_compute; reflexivity | by repeat constructor].
Qed.

(** ** Other findings *)

Definition ex_env_no_entry : share_env :=
  Share_env (fun _ => true) false true true true true false false true true false true true true true 0 0.

(** When there is no memory for the entry after the lease was added, the lease stays
    in the table without an open. *)
Lemma orphan_lease :
  exists d, step ex_env_no_entry (ex_open 3 1 7 LEASE_OPLOCK (Some (ex_lease 3 1))) (ex_after ex_readers) =
            Some (NT_STATUS_NO_MEMORY, d) /\
  length (leases d) = 1%nat /\ Forall (fun e => op_type e <> LEASE_OPLOCK) (share_modes d).
Proof.
  eexists. split; [vm_compute; reflexivity|]. split; [reflexivity|].
  apply (Forall_by_forallb _ (fun e => negb (op_type e =? LEASE_OPLOCK))); [|vm_compute; reflexivity].
  intros e He. by apply Z.eqb_neq, negb_true_iff.
Qed.

(** With oplocks turned off for the path, say by veto oplock files, the request of an
    open that names a lease is masked and its entry has no lease; but the opens of that
    lease are passed over when breaks are sent, so that it comes to stand beside a lease
    for writing, without a break. *)
Definition ex_masked_open : share_op :=
  Open (ex_fsp 1 3 7)
    (Open_args (Some 1) 3 false 1 LEASE_OPLOCK false (Some (ex_lease 1 7)) true true true None true 0 0).

Lemma masked_open_beside_write_lease :
  exists d e1 e2, run_ops ex_env [ex_open 1 3 7 LEASE_OPLOCK (Some (ex_lease 1 7)); ex_masked_open]
                    fresh_share_mode_data = Some ([NT_STATUS_OK; NT_STATUS_OK], d) /\
    share_modes d = [e1; e2] /\ op_type e1 = LEASE_OPLOCK /\ current_state <$> leases d = [7] /\
    op_type e2 = NO_OPLOCK /\ op_mid e2 = 1 /\ is_stat_open (e_access_mask e2) = false.
Proof.
  eexists _, _, _. split; [vm_compute; reflexivity|]. split; [reflexivity|].
  split_and!; vm_compute; reflexivity.
Qed.

(** The bounds check of share_mode_stale_pid lets the index behind the last entry
    pass. *)
Lemma stale_pid_reads_past d env lg : share_mode_stale_pid (length (share_modes d)) env (Share_state d lg) = None.
Proof.
  unfold share_mode_stale_pid, mbind, M_bind, data. cbn [sd]. rewrite Nat.ltb_irrefl.
  unfold index. by rewrite lookup_ge_None_2.
Qed.

Definition ex_env_brlocks : share_env :=
  Share_env (fun _ => true) true true true true true false false true true true true true true true 0 0.

(** With byte range locks on the file a request for read, write and handle gets a
    lease for write and handle, which the same function refuses to grant when it is
    asked for. *)
Lemma brlocks_grant_write_handle :
  (exists s, grant_fsp_oplock_type (ex_fsp 1 3 7) 1 LEASE_OPLOCK (Some (ex_lease 1 7)) ex_env_brlocks
               (Share_state fresh_share_mode_data []) =
             Some ((NT_STATUS_OK, LEASE_OPLOCK, Some (Smb2_lease (Lease_key 1 1) 6 0 2 1)), s)) /\
  wanted_lease ex_env_brlocks LEASE_OPLOCK (Some (ex_lease 1 6)) = Some SMB2_LEASE_NONE.
Proof. split; [eexists; vm_compute; reflexivity | reflexivity]. Qed.
