(* ===== verification/Errmap.v ===== *)
(** * Unix error numbers to NTSTATUS: source3/lib/errmap_unix.c

    The errno values are those of Linux; the preprocessor conditionals of the
    table are resolved for that platform ([EFTYPE] does not exist there, and
    [ENOATTR] is [ENODATA]). *)

From S2P Require Import Prelude.
From stdpp Require Import prelude list.

#[local] Open Scope Z_scope.

Definition EAGAIN : Z := 11.
Definition EINTR : Z := 4.
Definition ENOBUFS : Z := 105.
Definition EWOULDBLOCK : Z := 11.
Definition EPERM : Z := 1.
Definition EACCES : Z := 13.
Definition ENOENT : Z := 2.
Definition ENOTDIR : Z := 20.
Definition EIO : Z := 5.
Definition EBADF : Z := 9.
Definition EINVAL : Z := 22.
Definition EEXIST : Z := 17.
Definition ENFILE : Z := 23.
Definition EMFILE : Z := 24.
Definition ENOSPC : Z := 28.
Definition ENOMEM : Z := 12.
Definition EISDIR : Z := 21.
Definition EMSGSIZE : Z := 90.
Definition EPIPE : Z := 32.
Definition EMLINK : Z := 31.
Definition ENOSYS : Z := 38.
Definition ELOOP : Z := 40.
Definition EDQUOT : Z := 122.
Definition ENOTEMPTY : Z := 39.
Definition EXDEV : Z := 18.
Definition EROFS : Z := 30.
Definition ENAMETOOLONG : Z := 36.
Definition EFBIG : Z := 27.
Definition EADDRINUSE : Z := 98.
Definition ENETUNREACH : Z := 101.
Definition EHOSTUNREACH : Z := 113.
Definition ECONNREFUSED : Z := 111.
Definition ETIMEDOUT : Z := 110.
Definition ECONNABORTED : Z := 103.
Definition ECONNRESET : Z := 104.
Definition ENODEV : Z := 19.
Definition ENOATTR : Z := 61.
Definition ECANCELED : Z := 125.
Definition ENOTSUP : Z := 95.
Definition ETXTBSY : Z := 26.
Definition EOVERFLOW : Z := 75.

Definition NT_STATUS_NETWORK_BUSY : NTSTATUS := 0xC00000BF.
Definition NT_STATUS_RETRY : NTSTATUS := 0xC000022D.
Definition NT_STATUS_NOT_A_DIRECTORY : NTSTATUS := 0xC0000103.
Definition NT_STATUS_IO_DEVICE_ERROR : NTSTATUS := 0xC0000185.
Definition NT_STATUS_INVALID_HANDLE : NTSTATUS := 0xC0000008.
Definition NT_STATUS_OBJECT_NAME_COLLISION : NTSTATUS := 0xC0000035.
Definition NT_STATUS_TOO_MANY_OPENED_FILES : NTSTATUS := 0xC000011F.
Definition NT_STATUS_DISK_FULL : NTSTATUS := 0xC000007F.
Definition NT_STATUS_FILE_IS_A_DIRECTORY : NTSTATUS := 0xC00000BA.
Definition NT_STATUS_PORT_MESSAGE_TOO_LONG : NTSTATUS := 0xC000002F.
Definition NT_STATUS_CONNECTION_DISCONNECTED : NTSTATUS := 0xC000020C.
Definition NT_STATUS_TOO_MANY_LINKS : NTSTATUS := 0xC0000265.
Definition NT_STATUS_NOT_SUPPORTED : NTSTATUS := 0xC00000BB.
Definition NT_STATUS_OBJECT_PATH_NOT_FOUND : NTSTATUS := 0xC000003A.
Definition NT_STATUS_DIRECTORY_NOT_EMPTY : NTSTATUS := 0xC0000101.
Definition NT_STATUS_NOT_SAME_DEVICE : NTSTATUS := 0xC00000D4.
Definition NT_STATUS_MEDIA_WRITE_PROTECTED : NTSTATUS := 0xC00000A2.
Definition NT_STATUS_OBJECT_NAME_INVALID : NTSTATUS := 0xC0000033.
Definition NT_STATUS_ADDRESS_ALREADY_ASSOCIATED : NTSTATUS := 0xC0000238.
Definition NT_STATUS_NETWORK_UNREACHABLE : NTSTATUS := 0xC000023C.
Definition NT_STATUS_HOST_UNREACHABLE : NTSTATUS := 0xC000023D.
Definition NT_STATUS_CONNECTION_REFUSED : NTSTATUS := 0xC0000236.
Definition NT_STATUS_IO_TIMEOUT : NTSTATUS := 0xC00000B5.
Definition NT_STATUS_CONNECTION_ABORTED : NTSTATUS := 0xC0000241.
Definition NT_STATUS_CONNECTION_RESET : NTSTATUS := 0xC000020D.
Definition NT_STATUS_DEVICE_DOES_NOT_EXIST : NTSTATUS := 0xC00000C0.
Definition NT_STATUS_NOT_FOUND : NTSTATUS := 0xC0000225.
Definition NT_STATUS_CANCELLED : NTSTATUS := 0xC0000120.
Definition NT_STATUS_ALLOTTED_SPACE_EXCEEDED : NTSTATUS := 0xC0000099.

Definition unix_nt_errmap : list (Z * NTSTATUS) := [
  (EAGAIN, NT_STATUS_NETWORK_BUSY);
  (EINTR, NT_STATUS_RETRY);
  (ENOBUFS, NT_STATUS_INSUFFICIENT_RESOURCES);
  (EWOULDBLOCK, NT_STATUS_NETWORK_BUSY);
  (EPERM, NT_STATUS_ACCESS_DENIED);
  (EACCES, NT_STATUS_ACCESS_DENIED);
  (ENOENT, NT_STATUS_OBJECT_NAME_NOT_FOUND);
  (ENOTDIR, NT_STATUS_NOT_A_DIRECTORY);
  (EIO, NT_STATUS_IO_DEVICE_ERROR);
  (EBADF, NT_STATUS_INVALID_HANDLE);
  (EINVAL, NT_STATUS_INVALID_PARAMETER);
  (EEXIST, NT_STATUS_OBJECT_NAME_COLLISION);
  (ENFILE, NT_STATUS_TOO_MANY_OPENED_FILES);
  (EMFILE, NT_STATUS_TOO_MANY_OPENED_FILES);
  (ENOSPC, NT_STATUS_DISK_FULL);
  (ENOMEM, NT_STATUS_NO_MEMORY);
  (EISDIR, NT_STATUS_FILE_IS_A_DIRECTORY);
  (EMSGSIZE, NT_STATUS_PORT_MESSAGE_TOO_LONG);
  (EPIPE, NT_STATUS_CONNECTION_DISCONNECTED);
  (EMLINK, NT_STATUS_TOO_MANY_LINKS);
  (ENOSYS, NT_STATUS_NOT_SUPPORTED);
  (ELOOP, NT_STATUS_OBJECT_PATH_NOT_FOUND);
  (EDQUOT, NT_STATUS_DISK_FULL);
  (ENOTEMPTY, NT_STATUS_DIRECTORY_NOT_EMPTY);
  (EXDEV, NT_STATUS_NOT_SAME_DEVICE);
  (EROFS, NT_STATUS_MEDIA_WRITE_PROTECTED);
  (ENAMETOOLONG, NT_STATUS_OBJECT_NAME_INVALID);
  (EFBIG, NT_STATUS_DISK_FULL);
  (EADDRINUSE, NT_STATUS_ADDRESS_ALREADY_ASSOCIATED);
  (ENETUNREACH, NT_STATUS_NETWORK_UNREACHABLE);
  (EHOSTUNREACH, NT_STATUS_HOST_UNREACHABLE);
  (ECONNREFUSED, NT_STATUS_CONNECTION_REFUSED);
  (ETIMEDOUT, NT_STATUS_IO_TIMEOUT);
  (ECONNABORTED, NT_STATUS_CONNECTION_ABORTED);
  (ECONNRESET, NT_STATUS_CONNECTION_RESET);
  (ENODEV, NT_STATUS_DEVICE_DOES_NOT_EXIST);
  (ENOATTR, NT_STATUS_NOT_FOUND);
  (ECANCELED, NT_STATUS_CANCELLED);
  (ENOTSUP, NT_STATUS_NOT_SUPPORTED);
  (ETXTBSY, NT_STATUS_SHARING_VIOLATION);
  (EOVERFLOW, NT_STATUS_ALLOTTED_SPACE_EXCEEDED)
].

(** The linear search of the table. *)
Fixpoint errmap_lookup (map : list (Z * NTSTATUS)) (unix_error : Z) : NTSTATUS :=
  match map with
  | [] => NT_STATUS_ACCESS_DENIED
  | (e, s) :: rest => if e =? unix_error then s else errmap_lookup rest unix_error
  end.

Definition map_nt_error_from_unix (unix_error : Z) : NTSTATUS :=
  if unix_error =? 0 then NT_STATUS_UNSUCCESSFUL
  else errmap_lookup unix_nt_errmap unix_error.

(** A failed system call is never reported as success. *)
Lemma map_nt_error_not_ok (unix_error : Z) :
  NT_STATUS_IS_OK (map_nt_error_from_unix unix_error) = false.
Proof.
  unfold map_nt_error_from_unix, NT_STATUS_IS_OK.
  assert (forall map, Forall (fun es => snd es <> 0) map ->
            (errmap_lookup map unix_error =? 0) = false) as H.
  { induction 1 as [|[e s] map Hs _ IH]; simpl; [done|].
    destruct (e =? unix_error); [by apply Z.eqb_neq | done]. }
  destruct (unix_error =? 0); [done|]. apply H.
  unfold unix_nt_errmap. repeat constructor; discriminate.
Qed.
