(* ===== verification/FileAccess.v ===== *)
(** * Access to files: the checks of smbd

    [smbd_check_access_rights], [check_parent_access], [check_base_file_access]
    and the calculation of the access mask of source3/smbd/open.c,
    source3/smbd/file_access.c, reading and setting security descriptors in
    source3/smbd/nttrans.c, and the check of print operations in
    source3/printing/nt_printing.c. What the VFS and the configuration answer
    are fields of records; the share mode database is that of [ShareModel]. *)

From S2P Require Import Prelude.
From S2P Require Import DomSid.
From S2P Require Import SecModel.
From S2P Require Import SecDesc.
From S2P Require Import SecInherit.
From S2P Require Import ShareModel.
From S2P Require Import Errmap.
From stdpp Require Import prelude list.

#[local] Open Scope Z_scope.

(** ** Constants *)

Definition FILE_ALL_ACCESS : Z := 0x1FF.
Definition FILE_DELETE_CHILD : Z := 0x40.
Definition SEC_DIR_ADD_FILE : Z := 0x02.
Definition SEC_DIR_ADD_SUBDIR : Z := 0x04.
Definition SEC_MASK_INVALID : Z := 0x0CE0FE00.
Definition FILE_ATTRIBUTE_READONLY : Z := 0x01.

Definition STANDARD_RIGHTS_REQUIRED_ACCESS : Z :=
  Z.lor (Z.lor SEC_STD_DELETE SEC_STD_READ_CONTROL) (Z.lor SEC_STD_WRITE_DAC SEC_STD_WRITE_OWNER).
Definition FILE_GENERIC_ALL : Z :=
  Z.lor (Z.lor STANDARD_RIGHTS_REQUIRED_ACCESS SEC_STD_SYNCHRONIZE) FILE_ALL_ACCESS.
Definition FILE_GENERIC_READ : Z :=
  Z.lor (Z.lor (Z.lor SEC_STD_READ_CONTROL 0x01) (Z.lor FILE_READ_ATTRIBUTES 0x08)) SEC_STD_SYNCHRONIZE.
Definition FILE_GENERIC_WRITE : Z :=
  Z.lor (Z.lor (Z.lor SEC_STD_READ_CONTROL FILE_WRITE_DATA) (Z.lor FILE_WRITE_ATTRIBUTES 0x10))
        (Z.lor FILE_APPEND_DATA SEC_STD_SYNCHRONIZE).
Definition FILE_GENERIC_EXECUTE : Z :=
  Z.lor (Z.lor SEC_STD_READ_CONTROL FILE_READ_ATTRIBUTES) (Z.lor FILE_EXECUTE SEC_STD_SYNCHRONIZE).

Definition file_generic_mapping : generic_mapping :=
  Generic_mapping FILE_GENERIC_READ FILE_GENERIC_WRITE FILE_GENERIC_EXECUTE FILE_GENERIC_ALL.

Definition NT_STATUS_CANNOT_DELETE : NTSTATUS := 0xC0000121.

(** ** What the checks ask *)

(** The connection: the share's mask, the current user and the share options. *)
Record connection := Connection {
  share_access : Z;
  read_only : bool;
  conn_uid : Z;
  current_nttok : security_token;
  lp_acl_check_permissions : bool;
  lp_acl_allow_execute_always : bool;
  lp_store_dos_attributes : bool;
  lp_map_dos_bits : bool;      (** one of map readonly, archive, hidden, system *)
  lp_delete_readonly : bool;
  lp_check_parent_directory_delete_on_close : bool;
  lp_nt_acl_support : bool
}.

Definition CAN_WRITE (conn : connection) : bool := negb (read_only conn).

(** A file by name: its cached [stat] where valid, what [stat] answers, and
    the descriptor that [SMB_VFS_GET_NT_ACL] returns for the parts asked for. *)
Record file_name := File_name {
  valid_stat : bool;
  stat_errno : Z;              (** 0 where [stat] succeeds *)
  st_is_link : bool;
  st_is_dir : bool;
  st_sticky : bool;
  st_uid : Z;
  get_nt_acl : Z -> NTSTATUS + security_descriptor
}.

Definition ACL_PARTS : Z := Z.lor (Z.lor SECINFO_OWNER SECINFO_GROUP) SECINFO_DACL.

(** ** Checking the rights on a file *)

Definition parent_override_delete (mask rejected : Z) (can_delete : bool) : bool :=
  has_bits mask DELETE_ACCESS && has_bits rejected DELETE_ACCESS && can_delete.

(** The label [access_denied]. *)
Definition access_denied (conn : connection) (mask rejected : Z) (can_delete : bool) : NTSTATUS :=
  let rejected :=
    if has_bits mask FILE_WRITE_ATTRIBUTES && has_bits rejected FILE_WRITE_ATTRIBUTES &&
       negb (lp_store_dos_attributes conn) && lp_map_dos_bits conn
    then clear_bits rejected FILE_WRITE_ATTRIBUTES else rejected in
  let rejected := if parent_override_delete mask rejected can_delete
                  then clear_bits rejected DELETE_ACCESS else rejected in
  if negb (rejected =? 0) then NT_STATUS_ACCESS_DENIED else NT_STATUS_OK.

(** [smbd_check_access_rights], given what [can_delete_file_in_directory] says
    of the file; it is asked only where DELETE is wanted and rejected. *)
Definition check_rights (conn : connection) (f : file_name) (use_privs : bool) (mask : Z)
    (can_delete : bool) : NTSTATUS :=
  if negb (clear_bits mask (share_access conn) =? 0) then NT_STATUS_ACCESS_DENIED
  else if negb use_privs && (conn_uid conn =? 0) then NT_STATUS_OK
  else if has_bits mask DELETE_ACCESS && negb (lp_acl_check_permissions conn) then NT_STATUS_OK
  else if (mask =? DELETE_ACCESS) && valid_stat f && st_is_link f then NT_STATUS_OK
  else
    match get_nt_acl f ACL_PARTS with
    | inl status =>
        if status =? NT_STATUS_ACCESS_DENIED then access_denied conn mask mask can_delete else status
    | inr sd =>
        let do_not_check := if lp_acl_allow_execute_always conn
                            then Z.lor FILE_READ_ATTRIBUTES FILE_EXECUTE else FILE_READ_ATTRIBUTES in
        let '(status, rejected) :=
          se_file_access_check sd (current_nttok conn) use_privs (clear_bits mask do_not_check) in
        if NT_STATUS_IS_OK status || negb (status =? NT_STATUS_ACCESS_DENIED) then status
        else access_denied conn mask rejected can_delete
    end.

(** [can_delete_file_in_directory]; the check of the directory does not ask for
    DELETE. *)
Definition can_delete_file_in_directory (conn : connection) (f parent : file_name) : bool :=
  if negb (CAN_WRITE conn) then false
  else if negb (lp_acl_check_permissions conn) then true
  else if negb (stat_errno parent =? 0) then false
  else if negb (st_is_dir parent) then false
  else if conn_uid conn =? 0 then true
  else
    let check := NT_STATUS_IS_OK (check_rights conn parent false FILE_DELETE_CHILD false) in
    if st_sticky parent then
      if negb (valid_stat f) then true
      else if negb (conn_uid conn =? st_uid parent) && negb (conn_uid conn =? st_uid f) then false
      else check
    else check.

Definition smbd_check_access_rights (conn : connection) (f parent : file_name) (use_privs : bool)
    (mask : Z) : NTSTATUS :=
  check_rights conn f use_privs mask (can_delete_file_in_directory conn f parent).

Definition can_write_to_file (conn : connection) (f parent : file_name) : bool :=
  NT_STATUS_IS_OK (smbd_check_access_rights conn f parent false FILE_WRITE_DATA).

Definition directory_has_default_acl (f : file_name) : bool :=
  match get_nt_acl f SECINFO_DACL with
  | inl _ => false
  | inr secdesc =>
      match dacl secdesc with
      | None => false
      | Some acl => existsb (fun psa => has_bits (ace_flags psa)
          (Z.lor SEC_ACE_FLAG_OBJECT_INHERIT SEC_ACE_FLAG_CONTAINER_INHERIT)) (aces acl)
      end
  end.

(** ** The access mask of an open *)

Definition smbd_calculate_maximum_allowed_access (conn : connection) (f parent : file_name)
    (use_privs : bool) (mask : Z) : NTSTATUS * Z :=
  if negb use_privs && (conn_uid conn =? 0) then (NT_STATUS_OK, Z.lor mask FILE_GENERIC_ALL)
  else
    match get_nt_acl f ACL_PARTS with
    | inl status => if status =? NT_STATUS_OBJECT_NAME_NOT_FOUND then (NT_STATUS_OK, FILE_GENERIC_ALL)
                    else (NT_STATUS_ACCESS_DENIED, mask)
    | inr sd =>
        let '(status, granted) :=
          se_file_access_check sd (current_nttok conn) use_privs (clear_bits mask FILE_READ_ATTRIBUTES) in
        if negb (NT_STATUS_IS_OK status) then (NT_STATUS_ACCESS_DENIED, mask)
        else
          let mask := Z.lor granted FILE_READ_ATTRIBUTES in
          let mask := if negb (has_bits granted DELETE_ACCESS) && can_delete_file_in_directory conn f parent
                      then Z.lor mask DELETE_ACCESS else mask in
          (NT_STATUS_OK, mask)
    end.

(** The status, and the mask where it is set. *)
Definition smbd_calculate_access_mask (conn : connection) (f parent : file_name) (use_privs : bool)
    (mask : Z) : NTSTATUS * option Z :=
  if has_bits mask SEC_MASK_INVALID then (NT_STATUS_ACCESS_DENIED, None)
  else
    let mask := se_map_generic mask file_generic_mapping in
    let '(status, mask) :=
      if has_bits mask SEC_FLAG_MAXIMUM_ALLOWED then
        let '(status, mask) := smbd_calculate_maximum_allowed_access conn f parent use_privs mask in
        (status, Z.land mask (share_access conn))
      else (NT_STATUS_OK, mask) in
    if negb (NT_STATUS_IS_OK status) then (status, None)
    else if negb (clear_bits mask (share_access conn) =? 0) then (NT_STATUS_ACCESS_DENIED, None)
    else (NT_STATUS_OK, Some mask).

(** [dosattrs] is what [dos_mode] says of the base file. *)
Definition check_base_file_access (conn : connection) (f parent : file_name) (dosattrs mask : Z)
    : NTSTATUS :=
  let '(status, mask) := smbd_calculate_access_mask conn f parent false mask in
  match mask with
  | None => status
  | Some mask =>
      if has_bits mask (Z.lor FILE_WRITE_DATA FILE_APPEND_DATA) && negb (CAN_WRITE conn)
      then NT_STATUS_ACCESS_DENIED
      else if has_bits mask (Z.lor FILE_WRITE_DATA FILE_APPEND_DATA) &&
              has_bits dosattrs FILE_ATTRIBUTE_READONLY
      then NT_STATUS_ACCESS_DENIED
      else smbd_check_access_rights conn f parent false mask
  end.

(** The share mode record of the parent directory, where there is one, and the
    hash of its name or the status of computing it. *)
Record parent_lock := Parent_lock {
  name_hash_of : NTSTATUS + Z;
  parent_lck : option share_mode_data
}.

Definition check_parent_access (conn : connection) (parent : file_name) (lock : parent_lock) (mask : Z)
    : NTSTATUS :=
  if conn_uid conn =? 0 then NT_STATUS_OK
  else
    match get_nt_acl parent SECINFO_DACL with
    | inl status => status
    | inr parent_sd =>
        let '(status, _) := se_file_access_check parent_sd (current_nttok conn) false
                              (clear_bits mask FILE_READ_ATTRIBUTES) in
        if negb (NT_STATUS_IS_OK status) then status
        else if negb (has_bits mask (Z.lor SEC_DIR_ADD_FILE SEC_DIR_ADD_SUBDIR)) then NT_STATUS_OK
        else if negb (lp_check_parent_directory_delete_on_close conn) then NT_STATUS_OK
        else if negb (stat_errno parent =? 0) then map_nt_error_from_unix (stat_errno parent)
        else
          match name_hash_of lock with
          | inl status => status
          | inr hash =>
              match parent_lck lock with
              | None => NT_STATUS_OK
              | Some lck => if is_delete_on_close_set lck hash then NT_STATUS_DELETE_PENDING
                            else NT_STATUS_OK
              end
          end
    end.

(** [can_delete_directory] is the status of [can_delete_directory_fsp]. *)
Definition can_set_delete_on_close (conn : connection) (access_mask dosmode : Z)
    (is_dir is_share_root : bool) (can_delete_directory : NTSTATUS) : NTSTATUS :=
  if has_bits dosmode FILE_ATTRIBUTE_READONLY && negb (lp_delete_readonly conn)
  then NT_STATUS_CANNOT_DELETE
  else if negb (CAN_WRITE conn) then NT_STATUS_ACCESS_DENIED
  else if negb (has_bits access_mask DELETE_ACCESS) then NT_STATUS_ACCESS_DENIED
  else if is_dir then
    if is_share_root then NT_STATUS_ACCESS_DENIED else can_delete_directory
  else NT_STATUS_OK.

(** ** Setting and reading descriptors *)

Definition AUTO_INHERIT_BOTH : Z :=
  Z.lor SEC_DESC_DACL_AUTO_INHERITED SEC_DESC_DACL_AUTO_INHERIT_REQ.

Definition canonicalize_inheritance_bits (psd : security_descriptor) : security_descriptor :=
  let set_auto_inherited := Z.land (sd_type psd) AUTO_INHERIT_BOTH =? AUTO_INHERIT_BOTH in
  let t := clear_bits (sd_type psd) AUTO_INHERIT_BOTH in
  set_sd_type psd (if set_auto_inherited then Z.lor t SEC_DESC_DACL_AUTO_INHERITED else t).

Definition SECINFO_LABEL : Z := 0x10.
Definition FOUR_PARTS : Z := Z.lor ACL_PARTS SECINFO_SACL.

(** An open file: the mask it was opened with and whether it is a link. *)
Record open_handle := Open_handle { handle_mask : Z; handle_is_link : bool }.

(** [set_sd]: the status, or the call of [SMB_VFS_FSET_NT_ACL] whose status it
    returns. *)
Definition set_sd (conn : connection) (fsp : open_handle) (psd : security_descriptor)
    (info : Z) : NTSTATUS + (Z * security_descriptor) :=
  let missing bit := negb (has_bits (handle_mask fsp) bit) in
  if negb (CAN_WRITE conn) then inl NT_STATUS_ACCESS_DENIED
  else if negb (lp_nt_acl_support conn) then inl NT_STATUS_OK
  else if handle_is_link fsp then inl NT_STATUS_ACCESS_DENIED
  else
    let info := if present (owner_sid psd) then info else clear_bits info SECINFO_OWNER in
    let info := if present (group_sid psd) then info else clear_bits info SECINFO_GROUP in
    if Z.land info FOUR_PARTS =? 0 then inl NT_STATUS_OK
    else if has_bits info SECINFO_OWNER && missing SEC_STD_WRITE_OWNER then inl NT_STATUS_ACCESS_DENIED
    else if has_bits info SECINFO_GROUP && missing SEC_STD_WRITE_OWNER then inl NT_STATUS_ACCESS_DENIED
    else if has_bits info SECINFO_DACL && missing SEC_STD_WRITE_DAC then inl NT_STATUS_ACCESS_DENIED
    else
      let psd := if has_bits info SECINFO_DACL
                 then set_dacl psd (security_acl_map_generic (dacl psd) file_generic_mapping) else psd in
      if has_bits info SECINFO_SACL && missing SEC_FLAG_SYSTEM_SECURITY
      then inl NT_STATUS_ACCESS_DENIED
      else
        let psd := if has_bits info SECINFO_SACL
                   then set_sacl psd (security_acl_map_generic (sacl psd) file_generic_mapping) else psd in
        inr (info, canonicalize_inheritance_bits psd).

Definition get_null_nt_acl (junk : list Z) : security_descriptor :=
  make_standard_sec_desc junk (Some global_sid_World) (Some global_sid_World) None.

(** [smbd_do_query_security_desc] up to the descriptor that is marshalled. *)
Definition smbd_do_query_security_desc (junk : list Z) (conn : connection) (fsp : open_handle)
    (fget_nt_acl : Z -> NTSTATUS + security_descriptor) (wanted : Z)
    : NTSTATUS + security_descriptor :=
  if has_bits wanted SECINFO_SACL && negb (has_bits (handle_mask fsp) SEC_FLAG_SYSTEM_SECURITY)
  then inl NT_STATUS_ACCESS_DENIED
  else if has_bits wanted ACL_PARTS && negb (has_bits (handle_mask fsp) SEC_STD_READ_CONTROL)
  then inl NT_STATUS_ACCESS_DENIED
  else if handle_is_link fsp then inl NT_STATUS_ACCESS_DENIED
  else
    let wanted := if has_bits wanted FOUR_PARTS then clear_bits wanted SECINFO_LABEL else wanted in
    let got := if negb (lp_nt_acl_support conn) then inr (get_null_nt_acl junk)
               else if has_bits wanted SECINFO_LABEL then inr (get_null_nt_acl junk)
               else fget_nt_acl wanted in
    match got with
    | inl status => inl status
    | inr psd =>
        let psd := if negb (has_bits wanted SECINFO_OWNER) then set_sd_owner psd None else psd in
        let psd := if negb (has_bits wanted SECINFO_GROUP) then set_sd_group psd None else psd in
        let psd := if negb (has_bits wanted SECINFO_DACL)
                   then set_dacl (set_sd_type psd (clear_bits (sd_type psd) SEC_DESC_DACL_PRESENT)) None
                   else psd in
        let psd := if negb (has_bits wanted SECINFO_SACL)
                   then set_sacl (set_sd_type psd (clear_bits (sd_type psd) SEC_DESC_SACL_PRESENT)) None
                   else psd in
        let psd := if negb (present (sacl psd)) && has_bits wanted SECINFO_SACL
                   then set_sd_type psd (Z.lor (sd_type psd) SEC_DESC_SACL_PRESENT) else psd in
        let psd := if negb (present (dacl psd)) && has_bits wanted SECINFO_DACL
                   then set_sd_type psd (Z.lor (sd_type psd) SEC_DESC_DACL_PRESENT) else psd in
        inr (if has_bits wanted SECINFO_LABEL
             then Security_descriptor (sd_revision psd)
                    (clear_bits (sd_type psd) (Z.lor SEC_DESC_DACL_PRESENT SEC_DESC_SACL_PRESENT))
                    None None None None
             else psd)
    end.

(** ** Print operations *)

Definition PRINTER_ACCESS_ADMINISTER : Z := 0x04.
Definition PRINTER_ACCESS_USE : Z := 0x08.
Definition JOB_ACCESS_ADMINISTER : Z := 0x10.
Definition SEC_STD_REQUIRED : Z := 0x000F0000.
Definition STANDARD_RIGHTS_WRITE_ACCESS : Z :=
  Z.lor (Z.lor SEC_STD_WRITE_OWNER SEC_STD_WRITE_DAC) SEC_STD_DELETE.

Definition printer_generic_mapping : generic_mapping :=
  Generic_mapping (Z.lor SEC_STD_READ_CONTROL PRINTER_ACCESS_USE)
    (Z.lor STANDARD_RIGHTS_WRITE_ACCESS PRINTER_ACCESS_USE)
    (Z.lor SEC_STD_READ_CONTROL PRINTER_ACCESS_USE)
    (Z.lor SEC_STD_REQUIRED (Z.lor PRINTER_ACCESS_ADMINISTER PRINTER_ACCESS_USE)).
Definition job_generic_mapping : generic_mapping :=
  Generic_mapping (Z.lor SEC_STD_READ_CONTROL JOB_ACCESS_ADMINISTER)
    (Z.lor STANDARD_RIGHTS_WRITE_ACCESS JOB_ACCESS_ADMINISTER)
    (Z.lor SEC_STD_READ_CONTROL JOB_ACCESS_ADMINISTER)
    (Z.lor SEC_STD_REQUIRED JOB_ACCESS_ADMINISTER).

Definition map_printer_permissions (sd : security_descriptor) : security_descriptor :=
  set_dacl sd (security_acl_map_generic (dacl sd) printer_generic_mapping).
Definition map_job_permissions (sd : security_descriptor) : security_descriptor :=
  set_dacl sd (security_acl_map_generic (dacl sd) job_generic_mapping).

(** The results of [print_access_check]; [Werr_of] is [ntstatus_to_werror]. *)
Inductive print_result :=
| WERR_OK | WERR_ACCESS_DENIED | WERR_NOT_ENOUGH_MEMORY | Werr_of (status : NTSTATUS).

(** [is_root]: the user has the initial uid; [named]: the printer has a name;
    [secdesc]: the printer's descriptor, where it can be read. *)
Definition print_access_check (mem : nat -> security_ace) (junk : list Z) (is_root : bool)
    (token : security_token) (named : bool) (secdesc : option security_descriptor) (access_type : Z)
    : option print_result :=
  if is_root || security_token_has_privilege token SEC_PRIV_PRINT_OPERATOR then Some WERR_OK
  else if negb named then Some WERR_ACCESS_DENIED
  else
    match secdesc with
    | None => Some WERR_NOT_ENOUGH_MEMORY
    | Some secdesc =>
        if access_type =? JOB_ACCESS_ADMINISTER then
          '(status, child) ← se_create_child_secdesc mem junk secdesc (owner_sid secdesc)
                               (group_sid secdesc) false;
          if negb (NT_STATUS_IS_OK status) then Some (Werr_of status)
          else
            child ← child;
            Some (Werr_of (se_access_check (map_job_permissions child) token access_type).1)
        else Some (Werr_of (se_access_check (map_printer_permissions secdesc) token access_type).1)
    end.
