(* ===== verification/FileAccessProps.v ===== *)
(** * Access to files: properties

    The decision of [smbd_check_access_rights] bit by bit; the mask computed for
    MAXIMUM_ALLOWED passes the check that follows it; what [set_sd] lets through
    to the file system; access to print jobs. *)

From S2P Require Import Prelude.
From S2P Require Import DomSid.
From S2P Require Import SecModel.
From S2P Require Import AccessProps.
From S2P Require Import SecDesc.
From S2P Require Import SecDescProps.
From S2P Require Import SecInherit.
From S2P Require Import SecInheritProps.
From S2P Require Import ShareModel.
From S2P Require Import Errmap.
From S2P Require Import FileAccess.
From stdpp Require Import prelude list.

#[local] Open Scope Z_scope.
#[local] Arguments Z.testbit : simpl never.

(** ** The access check on any descriptor *)

(** Which bits a descriptor allows a token: without a list all or none. *)
Definition sd_allows (sd : security_descriptor) (token : security_token) (i : Z) : bool :=
  match dacl sd with
  | None => has_bits (sd_type sd) SEC_DESC_DACL_PRESENT
  | Some acl => bit_allowed sd token acl i || priv_allows token i
  end.

Inductive check_outcome (sd : security_descriptor) (token : security_token) (desired : Z)
    : NTSTATUS * Z -> Prop :=
| Check_ok :
    (forall i, Z.testbit desired i = true -> sd_allows sd token i = true) ->
    check_outcome sd token desired (NT_STATUS_OK, desired)
| Check_denied bits :
    bits <> 0 ->
    (forall i, Z.testbit bits i = Z.testbit desired i && negb (sd_allows sd token i)) ->
    check_outcome sd token desired (NT_STATUS_ACCESS_DENIED, bits)
| Check_privilege :
    Z.testbit desired 24 = true -> sd_allows sd token 24 = false ->
    check_outcome sd token desired (NT_STATUS_PRIVILEGE_NOT_HELD, desired).

Lemma finish_outcome (sd : security_descriptor) (token : security_token) (desired bits : Z) :
  (forall i, Z.testbit bits i = Z.testbit desired i && negb (sd_allows sd token i)) ->
  check_outcome sd token desired (finish_check desired bits).
Proof.
  intros H. unfold finish_check. destruct (Z.eqb_spec bits 0) as [->|Hb]; cbn.
  - apply Check_ok. intros i Hi. specialize (H i). rewrite Z.bits_0, Hi in H.
    by destruct (sd_allows sd token i).
  - by apply Check_denied.
Qed.

(** The check, with the maximum worked out where it is asked for. *)
Lemma se_access_check_outcome (sd : security_descriptor) (token : security_token) (desired : Z) :
  check_outcome sd token (max_desired sd token desired) (se_access_check sd token desired).
Proof.
  destruct (dacl sd) as [acl|] eqn:Hd.
  - rewrite (se_access_check_eq sd token acl desired Hd). cbv zeta.
    set (d := max_desired sd token desired). destruct (_ && negb _) eqn:Hp.
    + rewrite left_over_spec in Hp. boolify. apply Check_privilege; [done|]. unfold sd_allows, priv_allows.
      rewrite Hd. by repeat match goal with H : _ = false |- _ => rewrite H end.
    + apply finish_outcome. intros i. rewrite denied_bits_spec by done. unfold sd_allows. by rewrite Hd.
  - unfold se_access_check. rewrite Hd. set (d := max_desired sd token desired).
    destruct (has_bits (sd_type sd) SEC_DESC_DACL_PRESENT) eqn:E.
    + apply Check_ok. intros i _. unfold sd_allows. by rewrite Hd.
    + apply finish_outcome. intros i. unfold sd_allows. rewrite Hd, E. by rewrite andb_true_r.
Qed.

Lemma no_max (sd : security_descriptor) (token : security_token) (desired : Z) :
  Z.testbit desired 25 = false -> max_desired sd token desired = desired.
Proof. intros H. unfold max_desired. change SEC_FLAG_MAXIMUM_ALLOWED with (2 ^ 25). by rewrite has_bit_pow, H. Qed.

(** ** The rights on a file *)

(** Whether a bit is overridden after a denial: the attributes that are mapped
    to mode bits, and DELETE where the directory allows deleting children. *)
Definition overridden (conn : connection) (can_delete : bool) (i : Z) : bool :=
  ((i =? 8) && negb (lp_store_dos_attributes conn) && lp_map_dos_bits conn) ||
  ((i =? 16) && can_delete).

Lemma drop_bit (c : bool) (x k i : Z) :
  0 <= k ->
  Z.testbit (if c && has_bits x (2 ^ k) then clear_bits x (2 ^ k) else x) i =
  Z.testbit x i && negb ((i =? k) && c).
Proof.
  intros Hk. rewrite has_bit_pow by done. destruct c; cbn [andb].
  - rewrite andb_true_r. destruct (Z.testbit x k) eqn:E.
    + by rewrite clear_bits_spec, pow2_testbit by done.
    + destruct (Z.eqb_spec i k) as [->|]; [by rewrite E|by rewrite andb_true_r].
  - by rewrite andb_false_r, andb_true_r.
Qed.

(** The rejected bits are among the asked ones; what remains of them decides. *)
Lemma access_denied_spec (conn : connection) (mask rejected : Z) (can_delete : bool) :
  (forall i, Z.testbit rejected i = true -> Z.testbit mask i = true) ->
  access_denied conn mask rejected can_delete = NT_STATUS_OK <->
  forall i, Z.testbit rejected i = true -> overridden conn can_delete i = true.
Proof.
  intros Hsub. unfold access_denied, parent_override_delete.
  change FILE_WRITE_ATTRIBUTES with (2 ^ 8). change DELETE_ACCESS with (2 ^ 16).
  set (r1 := if _ && _ && _ && _ then _ else rejected).
  assert (forall i, Z.testbit r1 i = Z.testbit rejected i &&
            negb ((i =? 8) && (negb (lp_store_dos_attributes conn) && lp_map_dos_bits conn))) as H1.
  { intros i. rewrite <- (drop_bit _ rejected 8 i) by lia. unfold r1. rewrite !has_bit_pow by lia.
    destruct (Z.testbit rejected 8) eqn:E8; [rewrite (Hsub 8 E8)|];
      by destruct (lp_store_dos_attributes conn), (lp_map_dos_bits conn), (Z.testbit mask 8). }
  clearbody r1. set (r2 := if _ && _ && can_delete then _ else r1).
  assert (forall i, Z.testbit r2 i = Z.testbit r1 i && negb ((i =? 16) && can_delete)) as H2.
  { intros i. rewrite <- (drop_bit can_delete r1 16 i) by lia. unfold r2. rewrite !has_bit_pow by lia.
    destruct (Z.testbit r1 16) eqn:E16; [|by rewrite !andb_false_r].
    rewrite (Hsub 16) by (rewrite H1 in E16; by boolify). by destruct can_delete. }
  clearbody r2. transitivity (r2 = 0).
  { destruct (Z.eqb_spec r2 0); cbn; done. }
  rewrite zero_iff. unfold overridden. split; intros H i.
  - intros Hi. specialize (H i). rewrite H2, H1, Hi in H.
    destruct (i =? 8), (lp_store_dos_attributes conn), (lp_map_dos_bits conn), (i =? 16), can_delete; done.
  - rewrite H2, H1. destruct (Z.testbit rejected i) eqn:Hi; [|done]. specialize (H i Hi).
    destruct (i =? 8), (lp_store_dos_attributes conn), (lp_map_dos_bits conn), (i =? 16), can_delete; done.
Qed.

(** Bits that are not checked against the list. *)
Definition unchecked (conn : connection) (i : Z) : bool :=
  (i =? 7) || ((i =? 5) && lp_acl_allow_execute_always conn).

Definition do_not_check_mask (conn : connection) : Z :=
  if lp_acl_allow_execute_always conn then Z.lor FILE_READ_ATTRIBUTES FILE_EXECUTE else FILE_READ_ATTRIBUTES.

Lemma do_not_check_spec (conn : connection) (i : Z) :
  Z.testbit (do_not_check_mask conn) i = unchecked conn i.
Proof.
  unfold do_not_check_mask, unchecked. change FILE_READ_ATTRIBUTES with (2 ^ 7). change FILE_EXECUTE with (2 ^ 5).
  destruct (lp_acl_allow_execute_always conn).
  - by rewrite Z.lor_spec, !pow2_testbit, andb_true_r by lia.
  - by rewrite pow2_testbit, andb_false_r, orb_false_r by lia.
Qed.

(** The cases in which no list is looked at. *)
Definition delete_exempt (conn : connection) (f : file_name) (mask : Z) : bool :=
  (has_bits mask DELETE_ACCESS && negb (lp_acl_check_permissions conn)) ||
  ((mask =? DELETE_ACCESS) && valid_stat f && st_is_link f).

Definition within (mask share : Z) : Prop := forall i, Z.testbit mask i = true -> Z.testbit share i = true.

Lemma within_spec (mask share : Z) : clear_bits mask share = 0 <-> within mask share.
Proof.
  rewrite zero_iff. unfold within. split; intros H i.
  - intros Hi. specialize (H i). rewrite clear_bits_spec, Hi in H. by destruct (Z.testbit share i).
  - rewrite clear_bits_spec. destruct (Z.testbit mask i) eqn:E; [|done]. by rewrite (H i E).
Qed.

(** What the list and the overrides give. *)
Definition file_allows (conn : connection) (sd : security_descriptor) (can_delete : bool) (i : Z) : bool :=
  unchecked conn i || sd_allows sd (current_nttok conn) i || overridden conn can_delete i.

Lemma check_rights_root (conn : connection) (f : file_name) (mask : Z) (can_delete : bool) :
  conn_uid conn = 0 ->
  check_rights conn f false mask can_delete = NT_STATUS_OK <-> within mask (share_access conn).
Proof.
  intros Hu. unfold check_rights. rewrite <- within_spec, Hu.
  by destruct (Z.eqb_spec (clear_bits mask (share_access conn)) 0).
Qed.

Lemma check_rights_spec (conn : connection) (f : file_name) (mask : Z) (can_delete : bool)
    (sd : security_descriptor) :
  conn_uid conn <> 0 -> get_nt_acl f ACL_PARTS = inr sd -> Z.testbit mask 25 = false ->
  check_rights conn f false mask can_delete = NT_STATUS_OK <->
  within mask (share_access conn) /\
  (delete_exempt conn f mask = true \/
   forall i, Z.testbit mask i = true -> file_allows conn sd can_delete i = true).
Proof.
  intros Hu Hacl Hmax. unfold check_rights. rewrite <- within_spec.
  destruct (Z.eqb_spec (clear_bits mask (share_access conn)) 0) as [Hs|Hs]; cbn [negb]; [|split; [done|tauto]].
  cbn [andb negb]. destruct (Z.eqb_spec (conn_uid conn) 0); [done|]. unfold delete_exempt.
  destruct (has_bits mask DELETE_ACCESS && negb (lp_acl_check_permissions conn)); [cbn; tauto|].
  destruct ((mask =? DELETE_ACCESS) && valid_stat f && st_is_link f); [cbn; tauto|].
  rewrite Hacl. fold (do_not_check_mask conn). cbn [orb se_file_access_check negb].
  unfold se_file_access_check. cbn [negb].
  set (m := clear_bits mask (do_not_check_mask conn)).
  assert (forall i, Z.testbit m i = Z.testbit mask i && negb (unchecked conn i)) as Hm
    by (intros i; unfold m; by rewrite clear_bits_spec, do_not_check_spec).
  pose proof (se_access_check_outcome sd (current_nttok conn) m) as Ho.
  rewrite no_max in Ho by (rewrite Hm, Hmax; done). unfold file_allows.
  inversion Ho as [Hall E|bits Hb Hbits E|H24 Hno E]; cbn [NT_STATUS_IS_OK Z.eqb orb negb].
  - split; [|done]. intros _. split; [done|]. right. intros i Hi. specialize (Hall i). rewrite Hm, Hi in Hall.
    destruct (unchecked conn i); [done|]. by rewrite Hall.
  - change (NT_STATUS_IS_OK NT_STATUS_ACCESS_DENIED || negb (NT_STATUS_ACCESS_DENIED =? NT_STATUS_ACCESS_DENIED))
      with false. cbv iota.
    rewrite access_denied_spec by (intros i Hi; rewrite Hbits, Hm in Hi; by boolify).
    split; [|intros [_ [?|H]]; [done|]].
    + intros H. split; [done|]. right. intros i Hi. specialize (H i). rewrite Hbits, Hm, Hi in H.
      destruct (unchecked conn i); [done|]. destruct (sd_allows sd (current_nttok conn) i); [done|]. by apply H.
    + intros i Hi. rewrite Hbits, Hm in Hi. boolify. specialize (H i ltac:(done)).
      destruct (unchecked conn i); [done|]. by destruct (sd_allows sd (current_nttok conn) i).
  - change (NT_STATUS_IS_OK NT_STATUS_PRIVILEGE_NOT_HELD ||
            negb (NT_STATUS_PRIVILEGE_NOT_HELD =? NT_STATUS_ACCESS_DENIED)) with true. cbv iota.
    split; [done|]. intros [_ [?|H]]; [done|]. rewrite Hm in H24. boolify. specialize (H 24 ltac:(done)).
    rewrite Hno in H. unfold unchecked, overridden in H. done.
Qed.

(** Whether the directory lets the user delete the file: on a writable share,
    without ACL checks always; else DELETE_CHILD is needed, in a sticky directory
    only for the owner of the file or the directory, or for a file that is not
    there. *)
Definition delete_child_allowed (conn : connection) (f parent : file_name)
    (parent_sd : security_descriptor) : bool :=
  CAN_WRITE conn &&
  (negb (lp_acl_check_permissions conn) ||
   ((stat_errno parent =? 0) && st_is_dir parent &&
    ((st_sticky parent && negb (valid_stat f)) ||
     ((negb (st_sticky parent) || (conn_uid conn =? st_uid parent) || (conn_uid conn =? st_uid f)) &&
      Z.testbit (share_access conn) 6 && sd_allows parent_sd (current_nttok conn) 6)))).

Lemma can_delete_spec (conn : connection) (f parent : file_name) (parent_sd : security_descriptor) :
  conn_uid conn <> 0 -> get_nt_acl parent ACL_PARTS = inr parent_sd ->
  can_delete_file_in_directory conn f parent = delete_child_allowed conn f parent parent_sd.
Proof.
  intros Hu Hacl. unfold can_delete_file_in_directory, delete_child_allowed.
  assert (NT_STATUS_IS_OK (check_rights conn parent false FILE_DELETE_CHILD false) =
          Z.testbit (share_access conn) 6 && sd_allows parent_sd (current_nttok conn) 6) as ->.
  { apply eq_iff_eq_true. unfold NT_STATUS_IS_OK. rewrite Z.eqb_eq, andb_true_iff.
    etrans; [apply (check_rights_spec conn parent FILE_DELETE_CHILD false parent_sd Hu Hacl eq_refl)|].
    assert (forall i, Z.testbit FILE_DELETE_CHILD i = (i =? 6)) as Hb
      by (intros i; change FILE_DELETE_CHILD with (2 ^ 6); by rewrite pow2_testbit).
    assert (file_allows conn parent_sd false 6 = sd_allows parent_sd (current_nttok conn) 6) as Hf
      by (unfold file_allows, unchecked, overridden; cbn; by rewrite orb_false_r).
    unfold within. split.
    - intros [Hw [He|H]]; [done|]. rewrite <- Hf. split; [apply Hw|apply H]; by rewrite Hb.
    - intros [H1 H2]. split; [|right]; intros i; rewrite Hb; intros Hi%Z.eqb_eq; subst i; congruence. }
  destruct (CAN_WRITE conn), (lp_acl_check_permissions conn), (stat_errno parent =? 0), (st_is_dir parent);
    cbn; try done.
  destruct (Z.eqb_spec (conn_uid conn) 0); [done|].
  by destruct (st_sticky parent), (valid_stat f), (conn_uid conn =? st_uid parent), (conn_uid conn =? st_uid f).
Qed.

(** C5. The rights on a file, asked without MAXIMUM_ALLOWED and without the
    use of backup or restore privileges, where the descriptors of the file and of
    its directory can be read: the check succeeds exactly when the share's mask
    has every requested bit and either the user is root, or deletion is exempt
    from checks (no ACL checks on the share, or DELETE alone on a symbolic link),
    or each requested bit is reading attributes, or execution where that is
    always allowed, or allowed by the file's own descriptor, or writing
    attributes where they are mapped to mode bits, or DELETE where the
    directory's descriptor, its sticky bit and the share let the user delete its
    children. *)
Theorem file_access_decision (conn : connection) (f parent : file_name) (mask : Z)
    (sd parent_sd : security_descriptor) :
  Z.testbit mask 25 = false ->
  get_nt_acl f ACL_PARTS = inr sd -> get_nt_acl parent ACL_PARTS = inr parent_sd ->
  smbd_check_access_rights conn f parent false mask = NT_STATUS_OK <->
  within mask (share_access conn) /\
  (conn_uid conn = 0 \/ delete_exempt conn f mask = true \/
   forall i, Z.testbit mask i = true ->
     unchecked conn i || sd_allows sd (current_nttok conn) i ||
     overridden conn (delete_child_allowed conn f parent parent_sd) i = true).
Proof.
  intros Hm Hf Hp. unfold smbd_check_access_rights. destruct (decide (conn_uid conn = 0)) as [Hu|Hu].
  - rewrite check_rights_root by done. tauto.
  - rewrite <- (can_delete_spec conn f parent parent_sd Hu Hp), check_rights_spec by done.
    unfold file_allows. tauto.
Qed.

(** ** The mask for MAXIMUM_ALLOWED *)

(** The maximum that is granted is allowed bit by bit. *)
Lemma max_granted (sd : security_descriptor) (token : security_token) (desired granted : Z) :
  se_access_check sd token desired = (NT_STATUS_OK, granted) ->
  forall i, Z.testbit granted i = true -> sd_allows sd token i = true.
Proof.
  intros E. pose proof (se_access_check_outcome sd token desired) as Ho. rewrite E in Ho.
  by inversion Ho.
Qed.

Lemma max_cleared (sd : security_descriptor) (token : security_token) (desired granted : Z) :
  Z.testbit desired 25 = true ->
  se_access_check sd token desired = (NT_STATUS_OK, granted) -> Z.testbit granted 25 = false.
Proof.
  intros H25 E. pose proof (se_access_check_outcome sd token desired) as Ho. rewrite E in Ho.
  assert (granted = max_desired sd token desired) as -> by (by inversion Ho).
  unfold max_desired. change SEC_FLAG_MAXIMUM_ALLOWED with (2 ^ 25). rewrite has_bit_pow, H25 by lia.
  by rewrite clear_bits_spec, pow2_testbit, Z.eqb_refl, andb_false_r by lia.
Qed.

Lemma max_stays (mask : Z) :
  Z.testbit mask 25 = true -> Z.testbit (se_map_generic mask file_generic_mapping) 25 = true.
Proof.
  intros H. unfold se_map_generic, map_bits. cbv zeta.
  assert (forall m from to, Z.testbit from 25 = false -> Z.testbit m 25 = true ->
    Z.testbit (if has_bits m from then Z.lor (clear_bits m from) to else m) 25 = true) as Hs.
  { intros m from to Hf Hm. case_if; [|done]. by rewrite Z.lor_spec, clear_bits_spec, Hm, Hf. }
  by repeat apply Hs.
Qed.

(** C22. Asking for the maximum never ends in a refusal: the mask that
    [smbd_calculate_access_mask] computes for an existing file when
    MAXIMUM_ALLOWED is among the requested rights passes
    [smbd_check_access_rights], for root and for everybody else, the rights that
    come from the directory and those of the share included. *)
Theorem maximum_allowed_passes (conn : connection) (f parent : file_name) (mask m : Z)
    (sd : security_descriptor) :
  get_nt_acl f ACL_PARTS = inr sd -> Z.testbit mask 25 = true ->
  smbd_calculate_access_mask conn f parent false mask = (NT_STATUS_OK, Some m) ->
  smbd_check_access_rights conn f parent false m = NT_STATUS_OK.
Proof.
  intros Hacl Hmax. unfold smbd_calculate_access_mask. destruct (has_bits mask SEC_MASK_INVALID); [done|].
  cbv zeta. set (mask' := se_map_generic mask file_generic_mapping).
  assert (Z.testbit mask' 25 = true) as Hm' by (by apply max_stays). clearbody mask'.
  change SEC_FLAG_MAXIMUM_ALLOWED with (2 ^ 25). rewrite has_bit_pow, Hm' by lia.
  unfold smbd_calculate_maximum_allowed_access. cbn [negb andb].
  unfold smbd_check_access_rights. set (can_delete := can_delete_file_in_directory conn f parent).
  destruct (Z.eqb_spec (conn_uid conn) 0) as [Hu|Hu].
  { cbn [NT_STATUS_IS_OK Z.eqb negb]. set (m0 := Z.land _ (share_access conn)).
    destruct (Z.eqb_spec (clear_bits m0 (share_access conn)) 0) as [Hw|]; [|done].
    intros [= <-]. unfold check_rights. rewrite Hw, Hu. done. }
  rewrite Hacl. unfold se_file_access_check. cbn [negb].
  destruct (se_access_check sd (current_nttok conn) _) as [status granted] eqn:E.
  unfold NT_STATUS_IS_OK. destruct (Z.eqb_spec status 0) as [->|]; [|done]. cbn [Z.eqb negb].
  set (m0 := Z.land _ (share_access conn)). destruct (Z.eqb_spec (clear_bits m0 (share_access conn)) 0) as [Hw|]; [|done].
  intros [= <-].
  assert (forall i, Z.testbit m0 i = true ->
    Z.testbit granted i = true \/ i = 7 \/ (i = 16 /\ can_delete = true)) as Hbits.
  { intros i. unfold m0. rewrite Z.land_spec. intros Hi. boolify.
    change FILE_READ_ATTRIBUTES with (2 ^ 7) in *. change DELETE_ACCESS with (2 ^ 16) in *.
    destruct (_ && can_delete) eqn:Ec; rewrite ?Z.lor_spec, ?pow2_testbit in * by lia;
      boolify; repeat match goal with H : _ || _ = true |- _ => apply orb_true_iff in H as [H|H] end; boolify; auto. }
  apply (check_rights_spec conn f m0 can_delete sd Hu Hacl).
  - apply not_true_iff_false. intros H25. destruct (Hbits 25 H25) as [Hg|[?|[? _]]]; [|lia..].
    erewrite max_cleared in Hg; [done| |exact E].
    rewrite clear_bits_spec, Hm'. by change FILE_READ_ATTRIBUTES with (2 ^ 7).
  - split; [by apply within_spec|]. right. intros i Hi. unfold file_allows, unchecked, overridden.
    destruct (Hbits i Hi) as [Hg|[->|[-> ->]]]; [|done|by rewrite !orb_true_r].
    rewrite (max_granted sd _ _ _ E i Hg). by rewrite orb_true_r.
Qed.

(** ** Setting descriptors *)

(** The rights that setting the parts needs. *)
Definition needed (info : Z) : list Z :=
  (if has_bits info (Z.lor SECINFO_OWNER SECINFO_GROUP) then [SEC_STD_WRITE_OWNER] else []) ++
  (if has_bits info SECINFO_DACL then [SEC_STD_WRITE_DAC] else []) ++
  (if has_bits info SECINFO_SACL then [SEC_FLAG_SYSTEM_SECURITY] else []).

(** The parts that are set: the owner and group only where given. *)
Definition parts_set (psd : security_descriptor) (info : Z) : Z :=
  let info := if present (owner_sid psd) then info else clear_bits info SECINFO_OWNER in
  if present (group_sid psd) then info else clear_bits info SECINFO_GROUP.

(** On a writable share with ACLs, something to set and no link, the file
    system is asked exactly when the handle has the rights. *)
Lemma set_sd_decision (conn : connection) (fsp : open_handle) (psd : security_descriptor) (info : Z) :
  CAN_WRITE conn = true -> lp_nt_acl_support conn = true -> handle_is_link fsp = false ->
  has_bits (parts_set psd info) FOUR_PARTS = true ->
  if forallb (has_bits (handle_mask fsp)) (needed (parts_set psd info))
  then exists psd', set_sd conn fsp psd info = inr (parts_set psd info, psd')
  else set_sd conn fsp psd info = inl NT_STATUS_ACCESS_DENIED.
Proof.
  intros Hw Ha Hl Hp. unfold set_sd. rewrite Hw, Ha, Hl. cbn [negb]. fold (parts_set psd info).
  set (i := parts_set psd info) in *. clearbody i. unfold has_bits in Hp at 1. apply negb_true_iff in Hp.
  rewrite Hp. unfold needed. rewrite has_bits_mask.
  destruct (has_bits i SECINFO_OWNER), (has_bits i SECINFO_GROUP), (has_bits i SECINFO_DACL),
    (has_bits i SECINFO_SACL); cbn [orb andb app forallb];
  destruct (has_bits (handle_mask fsp) SEC_STD_WRITE_OWNER), (has_bits (handle_mask fsp) SEC_STD_WRITE_DAC),
    (has_bits (handle_mask fsp) SEC_FLAG_SYSTEM_SECURITY); cbn [andb negb]; eauto.
Qed.

Lemma canonicalize_bits (psd : security_descriptor) :
  has_bits (sd_type (canonicalize_inheritance_bits psd)) SEC_DESC_DACL_AUTO_INHERIT_REQ = false /\
  has_bits (sd_type (canonicalize_inheritance_bits psd)) SEC_DESC_DACL_AUTO_INHERITED =
    (Z.land (sd_type psd) AUTO_INHERIT_BOTH =? AUTO_INHERIT_BOTH).
Proof.
  unfold canonicalize_inheritance_bits. cbn [sd_type set_sd_type]. set (t := sd_type psd). clearbody t.
  pose proof (has_bits_cleared t AUTO_INHERIT_BOTH) as Hc. unfold AUTO_INHERIT_BOTH at 2 in Hc.
  rewrite has_bits_mask in Hc. apply orb_false_iff in Hc as [Hc1 Hc2].
  case_if; rewrite ?has_bits_or, ?Hc1, ?Hc2; done.
Qed.

(** What reaches the file system: a DACL that is set has its generic rights
    expanded, and the inherited bit is kept only where both inheritance bits
    were sent. *)
Lemma set_sd_sent (conn : connection) (fsp : open_handle) (psd psd' : security_descriptor) (info info' : Z) :
  set_sd conn fsp psd info = inr (info', psd') ->
  info' = parts_set psd info /\
  (has_bits info' SECINFO_DACL = true ->
   dacl psd' = security_acl_map_generic (dacl psd) file_generic_mapping) /\
  has_bits (sd_type psd') SEC_DESC_DACL_AUTO_INHERIT_REQ = false /\
  has_bits (sd_type psd') SEC_DESC_DACL_AUTO_INHERITED =
    (Z.land (sd_type psd) AUTO_INHERIT_BOTH =? AUTO_INHERIT_BOTH).
Proof.
  unfold set_sd. fold (parts_set psd info).
  destruct (negb (CAN_WRITE conn)); [done|]. destruct (negb (lp_nt_acl_support conn)); [done|].
  destruct (handle_is_link fsp); [done|]. destruct (Z.land _ FOUR_PARTS =? 0); [done|].
  destruct (_ && _); [done|]. destruct (_ && _); [done|]. destruct (_ && _); [done|]. destruct (_ && _); [done|].
  intros [= <- <-]. split; [done|].
  match goal with |- context [canonicalize_inheritance_bits ?p] => set (sd := p) end.
  assert (sd_type sd = sd_type psd) as <- by (unfold sd; by repeat case_if).
  split; [|by apply canonicalize_bits]. intros Hd. unfold canonicalize_inheritance_bits. cbn [dacl set_sd_type].
  unfold sd. rewrite Hd. by case_if.
Qed.

(** ** Print jobs *)

(** Administering a job of a printer whose list has inheritable entries is
    decided by those entries; the rights are expanded after they are inherited. *)
Lemma job_access_inherited (mem : nat -> security_ace) (junk : list Z) (token : security_token)
    (sd : security_descriptor) (acl : security_acl) (o g : dom_sid) :
  junk_ok junk -> parent_ok sd acl -> owner_sid sd = Some o -> group_sid sd = Some g ->
  sid_wf o -> sid_wf g ->
  security_token_has_privilege token SEC_PRIV_PRINT_OPERATOR = false ->
  exists child, se_create_child_secdesc mem junk sd (Some o) (Some g) false = Some (NT_STATUS_OK, Some child) /\
    print_access_check mem junk false token true (Some sd) JOB_ACCESS_ADMINISTER =
    Some (Werr_of (se_access_check (map_job_permissions child) token JOB_ACCESS_ADMINISTER).1).
Proof.
  intros Hj (Hd & Hw & Hn) Ho Hg Hwo Hwg Hp.
  destruct (create_child_spec mem junk _ o g false Hwo Hwg sd acl Hd Hw ltac:(lia) eq_refl) as (l & E & _).
  eexists. split; [exact E|]. unfold print_access_check. rewrite Hp, Ho, Hg. cbn [orb negb].
  rewrite Z.eqb_refl, E. done.
Qed.

(** ** Where the code does not do what it means to *)

(** A printer whose list has no entry inheritable by objects gives its jobs a
    descriptor with a null list that is marked present: anybody may administer
    them, whatever the list says. *)
Lemma job_access_for_everybody (mem : nat -> security_ace) (junk : list Z) (token : security_token)
    (sd : security_descriptor) (acl : security_acl) (o g : dom_sid) :
  junk_ok junk -> parent_ok sd acl -> owner_sid sd = Some o -> group_sid sd = Some g ->
  sid_wf o -> sid_wf g -> sd_has_inheritable_components sd false = false ->
  print_access_check mem junk false token true (Some sd) JOB_ACCESS_ADMINISTER = Some WERR_OK \/
  print_access_check mem junk false token true (Some sd) JOB_ACCESS_ADMINISTER = Some (Werr_of NT_STATUS_OK).
Proof.
  intros Hj (Hd & Hw & Hn) Ho Hg Hwo Hwg Hi.
  destruct (create_child_spec mem junk _ o g false Hwo Hwg sd acl Hd Hw ltac:(lia) eq_refl) as (l & E & _ & K).
  unfold print_access_check. rewrite Ho, Hg. destruct (security_token_has_privilege _ _); [by left|right].
  cbn [orb negb]. rewrite Z.eqb_refl, E. cbn [mbind option_bind NT_STATUS_IS_OK Z.eqb negb].
  assert (l = []) as ->.
  { unfold sd_has_inheritable_components in Hi. rewrite Hd in Hi.
    assert (flat_map (key_child (has_bits (sd_type sd) SEC_DESC_DACL_AUTO_INHERITED) (clear_unused o)
              (clear_unused g) false) (map key_of (aces acl)) = []) as Hnil.
    { clear -Hi. induction (aces acl) as [|a r IH]; [done|]. cbn [existsb] in Hi.
      apply orb_false_iff in Hi as [Ha Hr]. cbn [map flat_map]. rewrite IH, app_nil_r by done.
      unfold key_of. cbn [key_child]. unfold child_shape. by rewrite <- inheritable_flags_eq, Ha. }
    rewrite Hnil in K. by destruct l. }
  do 2 f_equal. by destruct (has_bits (sd_type sd) SEC_DESC_DACL_AUTO_INHERITED).
Qed.

(** ** Examples *)

(** A directory that lets the group delete children, and a file in it that lets
    the group read. *)
Definition sample_file (uid : Z) (dir : bool) (mask : Z) : file_name :=
  File_name true 0 false dir false uid
    (fun _ => inr (with_dacl [plain_ace SEC_ACE_TYPE_ACCESS_ALLOWED mask group_of_user])).
Definition sample_conn : connection :=
  Connection 0x1F01FF false 1000 (Security_token [group_of_user] 0 0) true false true true false false true.

Lemma file_access_decision_witness :
  smbd_check_access_rights sample_conn (sample_file 0 false 0x1) (sample_file 0 true 0x40) false 0x10081 =
    NT_STATUS_OK /\
  smbd_check_access_rights sample_conn (sample_file 0 false 0x1) (sample_file 0 true 0x40) false 0x2 <>
    NT_STATUS_OK.
Proof.
  split.
  - apply (file_access_decision sample_conn (sample_file 0 false 0x1) (sample_file 0 true 0x40) 0x10081
             (with_dacl [plain_ace SEC_ACE_TYPE_ACCESS_ALLOWED 0x1 group_of_user])
             (with_dacl [plain_ace SEC_ACE_TYPE_ACCESS_ALLOWED 0x40 group_of_user]));
      [reflexivity..|].
    split; [apply within_spec; reflexivity|]. right. right. intros i Hi.
    assert (i = 0 \/ i = 7 \/ i = 16) as [->|[->| ->]]; [|vm_compute; reflexivity..].
    change 0x10081 with (Z.lor (2 ^ 0) (Z.lor (2 ^ 7) (2 ^ 16))) in Hi.
    rewrite !Z.lor_spec, !pow2_testbit, !orb_true_iff, !Z.eqb_eq in Hi by lia. exact Hi.
  - intros H.
    apply (file_access_decision sample_conn (sample_file 0 false 0x1) (sample_file 0 true 0x40) 0x2
             (with_dacl [plain_ace SEC_ACE_TYPE_ACCESS_ALLOWED 0x1 group_of_user])
             (with_dacl [plain_ace SEC_ACE_TYPE_ACCESS_ALLOWED 0x40 group_of_user])) in H;
      [|reflexivity..].
    destruct H as [_ [H|[H|H]]]; [discriminate..|]. specialize (H 1 eq_refl). vm_compute in H. discriminate.
Defined.

Lemma maximum_allowed_passes_witness :
  smbd_calculate_access_mask sample_conn (sample_file 0 false 0x1) (sample_file 0 true 0x40) false
    SEC_FLAG_MAXIMUM_ALLOWED = (NT_STATUS_OK, Some 0x10081) /\
  smbd_check_access_rights sample_conn (sample_file 0 false 0x1) (sample_file 0 true 0x40) false 0x10081 =
    NT_STATUS_OK.
Proof.
  split; [vm_compute; reflexivity|].
  apply (maximum_allowed_passes sample_conn (sample_file 0 false 0x1) (sample_file 0 true 0x40)
           SEC_FLAG_MAXIMUM_ALLOWED 0x10081
           (with_dacl [plain_ace SEC_ACE_TYPE_ACCESS_ALLOWED 0x1 group_of_user])); vm_compute; reflexivity.
Defined.
