(* ===== verification/PosixAcl.v ===== *)
(** * NT ACLs on POSIX file systems

    source3/smbd/posix_acls.c: the list of canonical entries that an NT DACL is
    turned into, the POSIX ACL that is set for it, and the NT ACL that is made
    from a POSIX ACL. The doubly linked lists of the source are lists; entries
    are deleted and moved only at the iteration pointer, which is written out.
    Lookups of names and ids, the share options and the calls of the file
    system are fields of records. Allocations succeed. *)

From S2P Require Import Prelude.
From S2P Require Import DomSid.
From S2P Require Import SecModel.
From S2P Require Import SecDesc.
From S2P Require Import SecInherit.
From S2P Require Import Errmap.
From S2P Require Import FileAccess.
From stdpp Require Import prelude list.

#[local] Open Scope Z_scope.

(** ** Constants *)

Definition S_IRUSR : Z := 0x100.
Definition S_IWUSR : Z := 0x80.
Definition S_IXUSR : Z := 0x40.
Definition S_IRGRP : Z := 0x20.
Definition S_IWGRP : Z := 0x10.
Definition S_IXGRP : Z := 0x08.
Definition S_IROTH : Z := 0x04.
Definition S_IWOTH : Z := 0x02.
Definition S_IXOTH : Z := 0x01.
Definition ALL_ACE_PERMS : Z := Z.lor S_IRUSR (Z.lor S_IWUSR S_IXUSR).

Definition SMB_ACL_READ : Z := 4.
Definition SMB_ACL_WRITE : Z := 2.
Definition SMB_ACL_EXECUTE : Z := 1.

(** [(uid_t)-1]. *)
Definition NO_ID : Z := 0xFFFFFFFF.

Definition FILE_SPECIFIC_READ_BITS : Z := Z.lor 0x01 0x08.
Definition FILE_SPECIFIC_WRITE_BITS : Z := Z.lor 0x02 (Z.lor 0x04 0x10).
Definition FILE_SPECIFIC_EXECUTE_BITS : Z := 0x20.

(** ** Data *)

Inductive smb_acl_tag :=
| SMB_ACL_USER | SMB_ACL_USER_OBJ | SMB_ACL_GROUP | SMB_ACL_GROUP_OBJ | SMB_ACL_OTHER | SMB_ACL_MASK.
Inductive ace_owner := UID_ACE | GID_ACE | WORLD_ACE.
Inductive ace_attribute := ALLOW_ACE | DENY_ACE.

#[export] Instance smb_acl_tag_eq_dec : EqDecision smb_acl_tag.
Proof. solve_decision. Defined.
#[export] Instance ace_owner_eq_dec : EqDecision ace_owner.
Proof. solve_decision. Defined.
#[export] Instance ace_attribute_eq_dec : EqDecision ace_attribute.
Proof. solve_decision. Defined.

Record canon_ace := Canon_ace {
  ca_type : smb_acl_tag;
  ca_perms : Z;
  ca_trustee : dom_sid;
  ca_owner : ace_owner;
  ca_attr : ace_attribute;
  ca_id : Z;
  ca_flags : Z
}.

Definition set_ca_type (a : canon_ace) (t : smb_acl_tag) : canon_ace :=
  Canon_ace t (ca_perms a) (ca_trustee a) (ca_owner a) (ca_attr a) (ca_id a) (ca_flags a).
Definition set_ca_perms (a : canon_ace) (p : Z) : canon_ace :=
  Canon_ace (ca_type a) p (ca_trustee a) (ca_owner a) (ca_attr a) (ca_id a) (ca_flags a).
Definition set_ca_flags (a : canon_ace) (f : Z) : canon_ace :=
  Canon_ace (ca_type a) (ca_perms a) (ca_trustee a) (ca_owner a) (ca_attr a) (ca_id a) f.
Definition to_allow (a : canon_ace) (p : Z) : canon_ace :=
  Canon_ace (ca_type a) p (ca_trustee a) (ca_owner a) ALLOW_ACE (ca_id a) (ca_flags a).

Definition tag_is (t : smb_acl_tag) (a : canon_ace) : bool := bool_decide (ca_type a = t).
Definition owner_is (o : ace_owner) (a : canon_ace) : bool := bool_decide (ca_owner a = o).
Definition is_deny (a : canon_ace) : bool := bool_decide (ca_attr a = DENY_ACE).
Definition is_allow (a : canon_ace) : bool := bool_decide (ca_attr a = ALLOW_ACE).

(** The members of [stat] that are used. *)
Record file_stat := File_stat { st_uid : Z; st_gid : Z; st_mode : Z }.

(** The connection: the session's tokens, the id maps and the share options. *)
Record acl_conn := Acl_conn {
  session_token : option security_token;
  current_uid : Z;
  current_gid : Z;
  current_groups : list Z;
  user_sid_in_group_sid : dom_sid -> dom_sid -> bool;
  map_sid : dom_sid -> option (id_type * Z);
  uid_to_sid : Z -> dom_sid;
  gid_to_sid : Z -> dom_sid;
  lp_force_unknown_acl_user : bool;
  lp_acl_map_full_control : bool;
  lp_dos_filemode : bool;
  lp_map_acl_inherit : bool;
  lp_acl_group_control : bool;
  lp_inherit_owner_unix_only : bool
}.

(** ** Permissions *)

Definition unix_perms_to_acl_perms (mode r_mask w_mask x_mask : Z) : Z :=
  let ret := 0 in
  let ret := if has_bits mode r_mask then Z.lor ret S_IRUSR else ret in
  let ret := if has_bits mode w_mask then Z.lor ret S_IWUSR else ret in
  if has_bits mode x_mask then Z.lor ret S_IXUSR else ret.

Definition convert_permset_to_mode_t (permset : Z) : Z :=
  let ret := Z.lor 0 (if has_bits permset SMB_ACL_READ then S_IRUSR else 0) in
  let ret := Z.lor ret (if has_bits permset SMB_ACL_WRITE then S_IWUSR else 0) in
  Z.lor ret (if has_bits permset SMB_ACL_EXECUTE then S_IXUSR else 0).

Definition map_acl_perms_to_permset (mode : Z) : Z :=
  let p := 0 in
  let p := if has_bits mode S_IRUSR then Z.lor p SMB_ACL_READ else p in
  let p := if has_bits mode S_IWUSR then Z.lor p SMB_ACL_WRITE else p in
  if has_bits mode S_IXUSR then Z.lor p SMB_ACL_EXECUTE else p.

(** The NT mask that stands for permissions. *)
Definition map_canon_ace_perms (conn : acl_conn) (perms : Z) (directory_ace : bool) : Z :=
  let nt_mask :=
    if lp_acl_map_full_control conn && (Z.land perms ALL_ACE_PERMS =? ALL_ACE_PERMS) then
      if directory_ace then FILE_GENERIC_ALL else clear_bits FILE_GENERIC_ALL SEC_STD_DELETE
    else if Z.land perms ALL_ACE_PERMS =? 0 then 0
    else if directory_ace then
      Z.lor (Z.lor (if has_bits perms S_IRUSR then FILE_GENERIC_READ else 0)
                   (if has_bits perms S_IWUSR then Z.lor FILE_GENERIC_WRITE FILE_DELETE_CHILD else 0))
            (if has_bits perms S_IXUSR then FILE_GENERIC_EXECUTE else 0)
    else
      Z.lor (Z.lor (if has_bits perms S_IRUSR then FILE_GENERIC_READ else 0)
                   (if has_bits perms S_IWUSR then FILE_GENERIC_WRITE else 0))
            (if has_bits perms S_IXUSR then FILE_GENERIC_EXECUTE else 0) in
  if has_bits perms S_IWUSR && lp_dos_filemode conn
  then Z.lor nt_mask (Z.lor SEC_STD_WRITE_DAC (Z.lor SEC_STD_WRITE_OWNER SEC_STD_DELETE))
  else nt_mask.

(** [map_nt_perms] for the type [S_IRUSR], the only one that is used. *)
Definition map_nt_perms (mask : Z) : Z :=
  if has_bits mask SEC_GENERIC_ALL then ALL_ACE_PERMS
  else
    Z.lor (Z.lor (if has_bits mask (Z.lor SEC_GENERIC_READ FILE_SPECIFIC_READ_BITS) then S_IRUSR else 0)
                 (if has_bits mask (Z.lor SEC_GENERIC_WRITE FILE_SPECIFIC_WRITE_BITS) then S_IWUSR else 0))
          (if has_bits mask (Z.lor SEC_GENERIC_EXECUTE FILE_SPECIFIC_EXECUTE_BITS) then S_IXUSR else 0).

(** ** Merging entries *)

Definition can_merge (dir_acl : bool) (outer curr : canon_ace) : bool :=
  if negb dir_acl then
    (ca_id curr =? ca_id outer) && bool_decide (ca_owner curr = ca_owner outer) &&
    bool_decide (ca_attr curr = ca_attr outer)
  else
    (ca_id curr =? ca_id outer) && bool_decide (ca_owner curr = ca_owner outer) &&
    bool_decide (ca_type curr = ca_type outer) && bool_decide (ca_attr curr = ca_attr outer).

(** The inner loop: the entries after [outer] that merge with it are deleted. *)
Fixpoint merge_into (dir_acl : bool) (outer : canon_ace) (rest : list canon_ace)
    : canon_ace * list canon_ace :=
  match rest with
  | [] => (outer, [])
  | curr :: rest =>
      if can_merge dir_acl outer curr
      then merge_into dir_acl
             (set_ca_flags (set_ca_perms outer (Z.lor (ca_perms outer) (ca_perms curr)))
                           (Z.lor (ca_flags outer) (ca_flags curr))) rest
      else let '(outer, rest) := merge_into dir_acl outer rest in (outer, curr :: rest)
  end.

Fixpoint merge_same (fuel : nat) (dir_acl : bool) (l : list canon_ace) : list canon_ace :=
  match fuel, l with
  | S fuel, outer :: rest =>
      let '(outer, rest) := merge_into dir_acl outer rest in outer :: merge_same fuel dir_acl rest
  | _, _ => []
  end.

(** The second inner loop: whether [outer] stays, and the entries after it. *)
Fixpoint mask_after (outer : canon_ace) (rest : list canon_ace) : bool * list canon_ace :=
  match rest with
  | [] => (true, [])
  | curr :: rest =>
      if (ca_id curr =? ca_id outer) && bool_decide (ca_owner curr = ca_owner outer) &&
         is_deny outer && is_allow curr then
        let perms := clear_bits (ca_perms curr) (ca_perms outer) in
        if perms =? 0 then mask_after outer rest
        else (false, set_ca_perms curr perms :: rest)
      else let '(stays, rest) := mask_after outer rest in (stays, curr :: rest)
  end.

Fixpoint mask_denied (fuel : nat) (l : list canon_ace) : list canon_ace :=
  match fuel, l with
  | S fuel, outer :: rest =>
      let '(stays, rest) := mask_after outer rest in
      if stays : bool then outer :: mask_denied fuel rest else mask_denied fuel rest
  | _, _ => []
  end.

(** The lists never grow, so their lengths bound the rounds. *)
Definition merge_aces (l : list canon_ace) (dir_acl : bool) : list canon_ace :=
  let l := merge_same (length l) dir_acl l in
  mask_denied (length l) l.

(** ** Deny entries *)

Definition uid_entry_in_group (conn : acl_conn) (uid_ace group_ace : canon_ace) : bool :=
  if dom_sid_equal (Some (ca_trustee group_ace)) (Some global_sid_World) then true
  else if match session_token conn with
          | Some t => security_token_is_sid t (Some (ca_trustee uid_ace)) &&
                      security_token_has_sid t (Some (ca_trustee group_ace))
          | None => false
          end then true
  else if (ca_id uid_ace =? current_uid conn) &&
          ((ca_id group_ace =? current_gid conn) ||
           existsb (Z.eqb (ca_id group_ace)) (current_groups conn)) then true
  else user_sid_in_group_sid conn (ca_trustee uid_ace) (ca_trustee group_ace).

(** Pass 1, with the entries passed over in [done]. [None] where the assertion
    fails, and where the list is used after its tail was freed: when an
    Everyone entry that denies all is not the first, the entry before it is
    unlinked through its pointer to freed memory. *)
Fixpoint deny_pass1 (fuel : nat) (done todo : list canon_ace) : option (list canon_ace) :=
  match fuel, todo with
  | S fuel, curr :: rest =>
      if negb (is_deny curr) then deny_pass1 fuel (done ++ [curr]) rest
      else if ca_perms curr =? 0 then deny_pass1 fuel done rest
      else if negb (dom_sid_equal (Some (ca_trustee curr)) (Some global_sid_World))
      then deny_pass1 fuel (done ++ [curr]) rest
      else if negb (owner_is WORLD_ACE curr) then None
      else if ca_perms curr =? ALL_ACE_PERMS then match done with [] => Some [] | _ => None end
      else
        deny_pass1 fuel done
          (map (fun a => if negb (is_allow a) then a
                         else set_ca_perms a (clear_bits (ca_perms a) (ca_perms curr))) rest)
  | _, _ => Some done
  end.

(** What the groups of the user allow in the entries after the user's deny. *)
Definition allowed_by_groups (conn : acl_conn) (curr : canon_ace) (rest : list canon_ace) : Z :=
  foldl (fun new_perms a =>
           if negb (is_allow a) then new_perms
           else if owner_is UID_ACE a then new_perms
           else if uid_entry_in_group conn curr a then Z.lor new_perms (ca_perms a) else new_perms)
        0 rest.

(** Pass 2: a deny entry of a user becomes the last entry; [curr_ace_next] is
    the entry that followed it before. *)
Fixpoint deny_pass2 (fuel : nat) (conn : acl_conn) (done todo : list canon_ace) : list canon_ace :=
  match fuel, todo with
  | S fuel, curr :: rest =>
      if negb (is_deny curr) then deny_pass2 fuel conn (done ++ [curr]) rest
      else if negb (owner_is UID_ACE curr) then deny_pass2 fuel conn (done ++ [curr]) rest
      else
        let curr := if ca_perms curr =? ALL_ACE_PERMS then to_allow curr 0
                    else to_allow curr (clear_bits (allowed_by_groups conn curr rest) (ca_perms curr)) in
        match rest with
        | [] => done ++ [curr]
        | _ => deny_pass2 fuel conn done (rest ++ [curr])
        end
  | _, _ => done ++ todo
  end.

(** The last Everyone entry that allows. *)
Definition allow_everyone (rest : list canon_ace) : option canon_ace :=
  foldl (fun r a => if is_allow a && owner_is WORLD_ACE a then Some a else r) None rest.

Definition mask_members (conn : acl_conn) (curr : canon_ace) (rest : list canon_ace) : list canon_ace :=
  map (fun a => if negb (is_allow a) then a
                else if negb (owner_is UID_ACE a) then a
                else if uid_entry_in_group conn a curr
                then set_ca_perms a (clear_bits (ca_perms a) (ca_perms curr)) else a) rest.

(** Pass 3: the same for the deny entries of groups. *)
Fixpoint deny_pass3 (fuel : nat) (conn : acl_conn) (done todo : list canon_ace) : list canon_ace :=
  match fuel, todo with
  | S fuel, curr :: rest =>
      if negb (is_deny curr) then deny_pass3 fuel conn (done ++ [curr]) rest
      else if negb (owner_is GID_ACE curr) then deny_pass3 fuel conn (done ++ [curr]) rest
      else
        let masked := mask_members conn curr rest in
        let curr := to_allow curr (match allow_everyone rest with
                                   | Some e => clear_bits (ca_perms e) (ca_perms curr)
                                   | None => 0
                                   end) in
        match masked with
        | [] => done ++ [curr]
        | _ => deny_pass3 fuel conn done (masked ++ [curr])
        end
  | _, _ => done ++ todo
  end.

(** Every entry is moved to the end at most once. *)
Definition process_deny_list (conn : acl_conn) (l : list canon_ace) : option (list canon_ace) :=
  l ← deny_pass1 (length l) [] l;
  let l := deny_pass2 (2 * length l) conn [] l in
  Some (deny_pass3 (2 * length l) conn [] l).

(** ** The entries that every POSIX ACL has *)

Definition trim_ace_perms (a : canon_ace) : canon_ace := set_ca_perms a (Z.land (ca_perms a) ALL_ACE_PERMS).

Definition ensure_minimal_owner_ace_perms (is_directory : bool) (a : canon_ace) : canon_ace :=
  let a := set_ca_perms a (Z.lor (ca_perms a) S_IRUSR) in
  if is_directory then set_ca_perms a (Z.lor (ca_perms a) (Z.lor S_IWUSR S_IXUSR)) else a.

(** The last entry of a type. *)
Definition last_of (t : smb_acl_tag) (l : list canon_ace) : option canon_ace :=
  foldl (fun r a => if tag_is t a then Some a else r) None l.

(** The permissions of a new owner entry before the minimum is ensured. *)
Definition new_owner_perms (conn : acl_conn) (pace : canon_ace) (l : list canon_ace)
    (other : option canon_ace) : Z :=
  let perms :=
    foldl (fun perms a =>
             if tag_is SMB_ACL_USER a && (ca_id a =? ca_id pace) then Z.lor perms (ca_perms a)
             else if tag_is SMB_ACL_GROUP_OBJ a || tag_is SMB_ACL_GROUP a then
               if dom_sid_equal (Some (ca_trustee pace)) (Some (ca_trustee a))
               then Z.lor perms (ca_perms a)
               else if uid_entry_in_group conn pace a then Z.lor perms (ca_perms a) else perms
             else perms) (ca_perms pace) l in
  if perms =? 0 then match other with Some o => ca_perms o | None => perms end else perms.

(** Whether an owner and an owning group have entries under their ids. *)
Definition find_duplicates (user group : canon_ace) (l : list canon_ace) : bool * bool :=
  foldl (fun '(dup_user, dup_group) a =>
           if tag_is SMB_ACL_USER a && (ca_id a =? ca_id user) then (true, dup_group)
           else if tag_is SMB_ACL_GROUP a && (ca_id a =? ca_id group) then (dup_user, true)
           else if tag_is SMB_ACL_GROUP a && dom_sid_equal (Some (ca_trustee a)) (Some (ca_trustee user))
           then (true, dup_group)
           else (dup_user, dup_group)) (false, false) l.

Definition duplicate_user (user : canon_ace) : canon_ace :=
  Canon_ace SMB_ACL_USER (ca_perms user) (ca_trustee user) UID_ACE (ca_attr user) (ca_id user) 0.
Definition duplicate_group (group : canon_ace) : canon_ace :=
  Canon_ace SMB_ACL_GROUP (ca_perms group) (ca_trustee group) GID_ACE (ca_attr group) (ca_id group) 0.

(** The steps of [ensure_canon_entry_valid_on_set]; entries are added at the front. *)
Definition trimmed (is_directory : bool) (a : canon_ace) : canon_ace :=
  let a := trim_ace_perms a in
  if tag_is SMB_ACL_USER_OBJ a then ensure_minimal_owner_ace_perms is_directory a else a.

Definition with_owner (conn : acl_conn) (is_directory : bool) (file_owner_sid : dom_sid) (pst : file_stat)
    (l : list canon_ace) (pace_other : option canon_ace) : canon_ace * list canon_ace :=
  match last_of SMB_ACL_USER_OBJ l with
  | Some user => (user, l)
  | None =>
      let pace := Canon_ace SMB_ACL_USER_OBJ
        (unix_perms_to_acl_perms (st_mode pst) S_IRUSR S_IWUSR S_IXUSR)
        file_owner_sid UID_ACE ALLOW_ACE (st_uid pst) 0 in
      let pace := ensure_minimal_owner_ace_perms is_directory
        (set_ca_perms pace (new_owner_perms conn pace l pace_other)) in
      (pace, pace :: l)
  end.

Definition with_group (file_grp_sid : dom_sid) (pst : file_stat) (l : list canon_ace)
    (pace_other : option canon_ace) : canon_ace * list canon_ace :=
  match last_of SMB_ACL_GROUP_OBJ l with
  | Some group => (group, l)
  | None =>
      let pace := Canon_ace SMB_ACL_GROUP_OBJ
        (match pace_other with Some o => ca_perms o | None => 0 end)
        file_grp_sid GID_ACE ALLOW_ACE (st_gid pst) 0 in
      (pace, pace :: l)
  end.

Definition with_other (l : list canon_ace) (pace_other : option canon_ace) : list canon_ace :=
  match pace_other with
  | Some _ => l
  | None => Canon_ace SMB_ACL_OTHER 0 global_sid_World WORLD_ACE ALLOW_ACE NO_ID 0 :: l
  end.

Definition with_duplicates (user group : canon_ace) (l : list canon_ace) : list canon_ace :=
  let '(dup_user, dup_group) := find_duplicates user group l in
  if negb dup_user && negb dup_group &&
     dom_sid_equal (Some (ca_trustee group)) (Some (ca_trustee user))
  then duplicate_group group :: l
  else
    let l := if negb dup_user then duplicate_user user :: l else l in
    if negb dup_group then duplicate_group group :: l else l.

Definition ensure_canon_entry_valid_on_set (conn : acl_conn) (is_directory : bool)
    (file_owner_sid file_grp_sid : dom_sid) (pst : file_stat) (l : list canon_ace) : list canon_ace :=
  let l := map (trimmed is_directory) l in
  let pace_other := last_of SMB_ACL_OTHER l in
  let '(user, l) := with_owner conn is_directory file_owner_sid pst l pace_other in
  let '(group, l) := with_group file_grp_sid pst l pace_other in
  with_duplicates user group (with_other l pace_other).

(** ** From an NT DACL to the lists *)

(** The second loop of [check_owning_objs]. *)
Fixpoint make_owning_objs (owner grp : dom_sid) (got_user got_group : bool) (l : list canon_ace)
    : list canon_ace :=
  match l with
  | [] => []
  | a :: l =>
      let user_now := negb got_user && owner_is UID_ACE a &&
                      dom_sid_equal (Some (ca_trustee a)) (Some owner) in
      let a := if user_now then set_ca_type a SMB_ACL_USER_OBJ else a in
      let group_now := negb got_group && owner_is GID_ACE a &&
                       dom_sid_equal (Some (ca_trustee a)) (Some grp) in
      let a := if group_now then set_ca_type a SMB_ACL_GROUP_OBJ else a in
      a :: make_owning_objs owner grp (got_user || user_now) (got_group || group_now) l
  end.

Definition check_owning_objs (owner grp : dom_sid) (l : list canon_ace) : list canon_ace :=
  let got_user_obj := existsb (tag_is SMB_ACL_USER_OBJ) l in
  let got_group_obj := existsb (tag_is SMB_ACL_GROUP_OBJ) l in
  if got_user_obj && got_group_obj then l
  else make_owning_objs owner grp got_user_obj got_group_obj l.

(** What [add_current_ace_to_acl] changes. *)
Record canon_lists := Canon_lists {
  file_ace : list canon_ace;
  dir_ace : list canon_ace;
  got_file_allow : bool;
  got_dir_allow : bool;
  all_aces_are_inherit_only : bool
}.

(** The type of an entry in a default ACL. *)
Definition default_type (a : canon_ace) : canon_ace :=
  match ca_owner a with
  | UID_ACE =>
      set_ca_type a (if dom_sid_equal (Some (ca_trustee a)) (Some global_sid_Creator_Owner)
                     then SMB_ACL_USER_OBJ else SMB_ACL_USER)
  | GID_ACE =>
      set_ca_type a (if dom_sid_equal (Some (ca_trustee a)) (Some global_sid_Creator_Group)
                     then SMB_ACL_GROUP_OBJ else SMB_ACL_GROUP)
  | WORLD_ACE => a
  end.

(** Adding to the default list: [None] for a deny entry after an allow entry. *)
Definition add_dir_ace (st : canon_lists) (a : canon_ace) : option canon_lists :=
  let got := got_dir_allow st || is_allow a in
  if is_deny a && got then None
  else Some (Canon_lists (file_ace st) (dir_ace st ++ [default_type a]) (got_file_allow st) got
                         (all_aces_are_inherit_only st)).

Definition add_file_ace (st : canon_lists) (a : canon_ace) : option canon_lists :=
  let got := got_file_allow st || is_allow a in
  if is_deny a && got then None
  else Some (Canon_lists (file_ace st ++ [a]) (dir_ace st) got (got_dir_allow st) false).

Definition add_current_ace_to_acl (is_dir : bool) (psa : security_ace) (st : canon_lists)
    (a : canon_ace) : option canon_lists :=
  let a := Canon_ace (ca_type a) (Z.lor (ca_perms a) (map_nt_perms (access_mask psa))) (ca_trustee a)
             (ca_owner a)
             (if bool_decide (ace_type psa = SEC_ACE_TYPE_ACCESS_ALLOWED) then ALLOW_ACE else DENY_ACE)
             (ca_id a) (ace_flags psa) in
  let inherit_only := has_bits (ace_flags psa) SEC_ACE_FLAG_INHERIT_ONLY in
  if is_dir && (Z.land (ace_flags psa) INHERIT_BITS =? INHERIT_BITS) then
    st ← add_dir_ace st a;
    if negb inherit_only
    then add_file_ace st (set_ca_flags a (clear_bits (ca_flags a)
                                            (Z.lor INHERIT_BITS SEC_ACE_FLAG_INHERIT_ONLY)))
    else Some st
  else if negb inherit_only then add_file_ace st a
  else Some st.

(** The flags that NT 4 rewrites: the inner loop for one entry. *)
Fixpoint repair_flags (psa1 : security_ace) (rest : list security_ace)
    : security_ace * list security_ace :=
  match rest with
  | [] => (psa1, [])
  | psa2 :: rest =>
      let '(psa1, psa2) :=
        if negb (access_mask psa1 =? access_mask psa2) then (psa1, psa2)
        else if negb (dom_sid_equal (Some (trustee psa1)) (Some (trustee psa2))) then (psa1, psa2)
        else if has_bits (ace_flags psa1) SEC_ACE_FLAG_INHERIT_ONLY then
          (set_flags psa1 (Z.lor (ace_flags psa1) (Z.land (ace_flags psa2) INHERIT_BITS)),
           set_flags psa2 (clear_bits (ace_flags psa2) INHERIT_BITS))
        else if has_bits (ace_flags psa2) SEC_ACE_FLAG_INHERIT_ONLY then
          (set_flags psa1 (clear_bits (ace_flags psa1) INHERIT_BITS),
           set_flags psa2 (Z.lor (ace_flags psa2) (Z.land (ace_flags psa1) INHERIT_BITS)))
        else (psa1, psa2) in
      let '(psa1, rest) := repair_flags psa1 rest in (psa1, psa2 :: rest)
  end.

Fixpoint repair_all (fuel : nat) (l : list security_ace) : list security_ace :=
  match fuel, l with
  | S fuel, psa1 :: rest => let '(psa1, rest) := repair_flags psa1 rest in psa1 :: repair_all fuel rest
  | _, _ => []
  end.

Definition global_sid_NT_Authority : dom_sid := Dom_sid 1 0 [0; 0; 0; 0; 0; 5] (replicate 15 0).
Definition global_sid_Builtin : dom_sid := Dom_sid 1 1 [0; 0; 0; 0; 0; 5] (32 :: replicate 14 0).

Definition non_mappable_sid (sid : dom_sid) : bool :=
  let dom := if 0 <? num_auths sid
             then Dom_sid (sid_rev_num sid) (num_auths sid - 1) (id_auth sid) (sub_auths sid) else sid in
  if dom_sid_equal (Some dom) (Some global_sid_Builtin) then true
  else if dom_sid_equal (Some dom) (Some global_sid_NT_Authority) then true
  else false.

Definition user_tag (pst : file_stat) (id : Z) : smb_acl_tag :=
  if id =? st_uid pst then SMB_ACL_USER_OBJ else SMB_ACL_USER.
Definition group_tag (pst : file_stat) (id : Z) : smb_acl_tag :=
  if id =? st_gid pst then SMB_ACL_GROUP_OBJ else SMB_ACL_GROUP.

(** The entry before permissions and flags are stored. *)
Definition new_canon_ace (t : smb_acl_tag) (sid : dom_sid) (o : ace_owner) (id : Z) : canon_ace :=
  Canon_ace t 0 sid o ALLOW_ACE id 0.

(** One turn of the loop over the DACL: [None] where the function fails. *)
Definition add_nt_ace (conn : acl_conn) (is_dir : bool) (pst : file_stat) (st : canon_lists)
    (psa : security_ace) : option canon_lists :=
  let sid := trustee psa in
  let inherit_only := set_flags psa (Z.lor (ace_flags psa) SEC_ACE_FLAG_INHERIT_ONLY) in
  if dom_sid_equal (Some sid) (Some global_sid_World)
  then add_current_ace_to_acl is_dir psa st (new_canon_ace SMB_ACL_OTHER sid WORLD_ACE NO_ID)
  else if dom_sid_equal (Some sid) (Some global_sid_Creator_Owner)
  then add_current_ace_to_acl is_dir inherit_only st
         (new_canon_ace SMB_ACL_USER_OBJ sid UID_ACE (st_uid pst))
  else if dom_sid_equal (Some sid) (Some global_sid_Creator_Group)
  then add_current_ace_to_acl is_dir inherit_only st
         (new_canon_ace SMB_ACL_GROUP_OBJ sid GID_ACE (st_gid pst))
  else
    match map_sid conn sid with
    | None => None
    | Some (ID_TYPE_BOTH, id) =>
        st ← add_current_ace_to_acl is_dir psa st (new_canon_ace (user_tag pst id) sid UID_ACE id);
        add_current_ace_to_acl is_dir psa st (new_canon_ace (group_tag pst id) sid GID_ACE id)
    | Some (ID_TYPE_UID, id) =>
        add_current_ace_to_acl is_dir psa st (new_canon_ace (user_tag pst id) sid UID_ACE id)
    | Some (ID_TYPE_GID, id) =>
        add_current_ace_to_acl is_dir psa st (new_canon_ace (group_tag pst id) sid GID_ACE id)
    | Some (ID_TYPE_NOT_SPECIFIED, _) =>
        if non_mappable_sid sid then Some st
        else if lp_force_unknown_acl_user conn then Some st
        else None
    end.

Fixpoint add_nt_aces (conn : acl_conn) (is_dir : bool) (pst : file_stat) (st : canon_lists)
    (l : list security_ace) : option canon_lists :=
  match l with
  | [] => Some st
  | psa :: l => st ← add_nt_ace conn is_dir pst st psa; add_nt_aces conn is_dir pst st l
  end.

Definition settable_type (t : security_ace_type) : bool :=
  match t with SEC_ACE_TYPE_ACCESS_ALLOWED | SEC_ACE_TYPE_ACCESS_DENIED => true | _ => false end.

(** The file list and the default list. *)
Definition create_canon_ace_lists (conn : acl_conn) (is_dir : bool) (pst : file_stat)
    (owner grp : dom_sid) (dacl : security_acl) : option (list canon_ace * list canon_ace) :=
  if negb (forallb (fun a => settable_type (ace_type a)) (aces dacl)) then None
  else
    st ← add_nt_aces conn is_dir pst (Canon_lists [] [] false false is_dir)
           (repair_all (length (aces dacl)) (aces dacl));
    if is_dir && all_aces_are_inherit_only st then Some ([], [])
    else Some (check_owning_objs owner grp (file_ace st), dir_ace st).

(** The result and the two lists; [None] is a crash. *)
Definition unpack_canon_ace (conn : acl_conn) (is_dir : bool) (pst : file_stat) (owner grp : dom_sid)
    (security_info_sent : Z) (psd : security_descriptor)
    : option (bool * list canon_ace * list canon_ace) :=
  if security_info_sent =? 0 then Some (false, [], [])
  else
    match dacl psd with
    | None => Some (true, [], [])
    | Some dacl =>
        if negb (has_bits security_info_sent SECINFO_DACL) then Some (true, [], [])
        else
          match create_canon_ace_lists conn is_dir pst owner grp dacl with
          | None => Some (false, [], [])
          | Some ([], []) => Some (true, [], [])
          | Some (file, dir) =>
              file ← process_deny_list conn (merge_aces file false);
              dir ← process_deny_list conn (merge_aces dir true);
              let file := ensure_canon_entry_valid_on_set conn is_dir owner grp pst file in
              let dir := match dir with
                         | [] => []
                         | _ => ensure_canon_entry_valid_on_set conn is_dir owner grp pst dir
                         end in
              Some (true, file, dir)
          end
    end.

(** ** The POSIX ACL that is set *)

Record smb_acl_entry := Smb_acl_entry { a_type : smb_acl_tag; a_qualifier : Z; a_perm : Z }.

(** The entries; only users and groups have a qualifier. *)
Definition posix_entry (a : canon_ace) : smb_acl_entry :=
  Smb_acl_entry (ca_type a) (if tag_is SMB_ACL_USER a || tag_is SMB_ACL_GROUP a then ca_id a else 0)
                (map_acl_perms_to_permset (ca_perms a)).

Definition posix_acl_of (l : list canon_ace) : list smb_acl_entry :=
  let needs_mask := existsb (fun a => tag_is SMB_ACL_USER a || tag_is SMB_ACL_GROUP a) l in
  let got_mask_entry := existsb (tag_is SMB_ACL_MASK) l in
  map posix_entry l ++
  (if needs_mask && negb got_mask_entry
   then [Smb_acl_entry SMB_ACL_MASK 0 (map_acl_perms_to_permset ALL_ACE_PERMS)] else []).

(** Without ACL support: the mode bits, if only owner, group and others have entries. *)
Definition last_owner (o : ace_owner) (l : list canon_ace) : option (nat * canon_ace) :=
  foldl (fun r '(i, a) => if owner_is o a then Some (i, a) else r) None (imap pair l).

Definition MAP_PERM (p mask result : Z) : Z := if has_bits p mask then result else 0.

Definition convert_canon_ace_to_posix_perms (is_dir : bool) (l : list canon_ace) : option Z :=
  if (5 <? length l)%nat then None
  else
    match last_owner UID_ACE l, last_owner GID_ACE l, last_owner WORLD_ACE l with
    | Some (iu, user), Some (ig, group), Some (io, other) =>
        if forallb (fun '(i, a) =>
             (i =? iu)%nat || (i =? ig)%nat || (i =? io)%nat ||
             match ca_owner a with
             | UID_ACE => ca_id a =? ca_id user
             | GID_ACE => ca_id a =? ca_id group
             | WORLD_ACE => false
             end) (imap pair l)
        then
          let p := ca_perms user in
          let p := Z.lor p (MAP_PERM (ca_perms group) S_IRUSR S_IRGRP) in
          let p := Z.lor p (MAP_PERM (ca_perms group) S_IWUSR S_IWGRP) in
          let p := Z.lor p (MAP_PERM (ca_perms group) S_IXUSR S_IXGRP) in
          let p := Z.lor p (MAP_PERM (ca_perms other) S_IRUSR S_IROTH) in
          let p := Z.lor p (MAP_PERM (ca_perms other) S_IWUSR S_IWOTH) in
          let p := Z.lor p (MAP_PERM (ca_perms other) S_IXUSR S_IXOTH) in
          let p := Z.lor p S_IRUSR in
          Some (if is_dir then Z.lor p (Z.lor S_IWUSR S_IXUSR) else p)
        else None
    | _, _, _ => None
    end.
