(* ===== verification/PosixAclFile.v ===== *)
(** * Reading and setting the NT ACL of a file

    The rest of source3/smbd/posix_acls.c: the attribute that keeps the flags of
    NT entries (user.SAMBA_PAI), the NT descriptor made from a POSIX ACL,
    [set_nt_acl] with its calls of the file system, and the changes of mode on
    files with an ACL. *)

From S2P Require Import Prelude.
From S2P Require Import DomSid.
From S2P Require Import SecModel.
From S2P Require Import SecDesc.
From S2P Require Import SecInherit.
From S2P Require Import Errmap.
From S2P Require Import FileAccess.
From S2P Require Import PosixAcl.
From stdpp Require Import prelude list.

#[local] Open Scope Z_scope.

(** ** The stored flags *)

Definition PAI_V1_VERSION : Z := 1.
Definition PAI_V1_ENTRIES_BASE : nat := 6.
Definition PAI_V1_ENTRY_LENGTH : nat := 5.
Definition PAI_V2_VERSION : Z := 2.
Definition PAI_V2_ENTRIES_BASE : nat := 7.
Definition PAI_V2_ENTRY_LENGTH : nat := 6.

Record pai_entry := Pai_entry { pe_flags : Z; pe_owner : ace_owner; pe_id : Z }.
Record pai_val := Pai_val { pv_sd_type : Z; entry_list : list pai_entry; def_entry_list : list pai_entry }.

Definition entry_val (o : ace_owner) (id : Z) : Z :=
  match o with UID_ACE | GID_ACE => id | WORLD_ACE => NO_ID end.
Definition get_entry_val (a : canon_ace) : Z := entry_val (ca_owner a) (ca_id a).
Definition get_pai_entry_val (e : pai_entry) : Z := entry_val (pe_owner e) (pe_id e).

Definition owner_value (o : ace_owner) : Z :=
  match o with UID_ACE => 0 | GID_ACE => 1 | WORLD_ACE => 2 end.

Definition pai_entry_bytes (a : canon_ace) : list Z :=
  [u8 (ca_flags a); owner_value (ca_owner a)] ++ le_bytes 4 (get_entry_val a).

Definition create_pai_buf_v2 (file dir : list canon_ace) (sd_type : Z) : list Z :=
  [PAI_V2_VERSION] ++ le_bytes 2 sd_type ++ le_bytes 2 (Z.of_nat (length file)) ++
  le_bytes 2 (Z.of_nat (length dir)) ++ concat (map pai_entry_bytes (file ++ dir)).

(** Reading inside the attribute: [None] past its end. *)
Definition CVAL (buf : list Z) (ofs : nat) : option Z := buf !! ofs.
Definition read_le (n : nat) (buf : list Z) (ofs : nat) : option Z :=
  if (ofs + n <=? length buf)%nat then Some (le_value (take n (drop ofs buf))) else None.

(** The owner of an entry: [Some None] for an unknown type. *)
Definition get_pai_owner_type (buf : list Z) (ofs : nat) : option (option (ace_owner * Z)) :=
  t ← CVAL buf ofs;
  if t =? 0 then id ← read_le 4 buf (ofs + 1); Some (Some (UID_ACE, id))
  else if t =? 1 then id ← read_le 4 buf (ofs + 1); Some (Some (GID_ACE, id))
  else if t =? 2 then Some (Some (WORLD_ACE, NO_ID))
  else Some None.

(** The entries from [ofs] on, the last one first. *)
Fixpoint create_pai_v1_entries (n : nat) (buf : list Z) (ofs : nat) (l : list pai_entry)
    : option (option (list pai_entry * nat)) :=
  match n with
  | O => Some (Some (l, ofs))
  | S n =>
      o ← get_pai_owner_type buf ofs;
      match o with
      | None => Some None
      | Some (owner, id) =>
          create_pai_v1_entries n buf (ofs + PAI_V1_ENTRY_LENGTH)
            (Pai_entry SEC_ACE_FLAG_INHERITED_ACE owner id :: l)
      end
  end.

Fixpoint create_pai_v2_entries (n : nat) (buf : list Z) (ofs : nat) (l : list pai_entry)
    : option (option (list pai_entry * nat)) :=
  match n with
  | O => Some (Some (l, ofs))
  | S n =>
      flags ← CVAL buf ofs;
      o ← get_pai_owner_type buf (ofs + 1);
      match o with
      | None => Some None
      | Some (owner, id) =>
          create_pai_v2_entries n buf (ofs + PAI_V2_ENTRY_LENGTH) (Pai_entry flags owner id :: l)
      end
  end.

(** Whether the size is the one that the numbers of entries give. *)
Definition check_pai_ok (version : Z) (base entry num_ofs : nat) (buf : list Z) : bool :=
  if (length buf <? base)%nat then false
  else if negb (bool_decide (CVAL buf 0 = Some version)) then false
  else
    match read_le 2 buf num_ofs, read_le 2 buf (num_ofs + 2) with
    | Some n, Some d => (n + d) * Z.of_nat entry + Z.of_nat base =? Z.of_nat (length buf)
    | _, _ => false
    end.

Definition check_pai_ok_v1 (buf : list Z) : bool :=
  check_pai_ok PAI_V1_VERSION PAI_V1_ENTRIES_BASE PAI_V1_ENTRY_LENGTH 2 buf.
Definition check_pai_ok_v2 (buf : list Z) : bool :=
  check_pai_ok PAI_V2_VERSION PAI_V2_ENTRIES_BASE PAI_V2_ENTRY_LENGTH 3 buf.

(** The default entries of version 1 are read with the number of the others. *)
Definition create_pai_val_v1 (buf : list Z) : option (option pai_val) :=
  if negb (check_pai_ok_v1 buf) then Some None
  else
    flag ← CVAL buf 1;
    n ← read_le 2 buf 2;
    r ← create_pai_v1_entries (Z.to_nat n) buf PAI_V1_ENTRIES_BASE [];
    match r with
    | None => Some None
    | Some (entries, ofs) =>
        r ← create_pai_v1_entries (Z.to_nat n) buf ofs [];
        match r with
        | None => Some None
        | Some (def_entries, _) =>
            Some (Some (Pai_val (if flag =? 1 then SEC_DESC_DACL_PROTECTED else 0) entries def_entries))
        end
    end.

Definition create_pai_val_v2 (buf : list Z) : option (option pai_val) :=
  if negb (check_pai_ok_v2 buf) then Some None
  else
    type ← read_le 2 buf 1;
    n ← read_le 2 buf 3;
    d ← read_le 2 buf 5;
    r ← create_pai_v2_entries (Z.to_nat n) buf PAI_V2_ENTRIES_BASE [];
    match r with
    | None => Some None
    | Some (entries, ofs) =>
        r ← create_pai_v2_entries (Z.to_nat d) buf ofs [];
        match r with
        | None => Some None
        | Some (def_entries, _) => Some (Some (Pai_val type entries def_entries))
        end
    end.

(** [Some None] for an attribute that is not accepted. *)
Definition create_pai_val (buf : list Z) : option (option pai_val) :=
  match buf with
  | [] => Some None
  | version :: _ =>
      if version =? PAI_V1_VERSION then create_pai_val_v1 buf
      else if version =? PAI_V2_VERSION then create_pai_val_v2 buf
      else Some None
  end.

Definition get_pai_flags (pal : option pai_val) (a : canon_ace) (default_ace : bool) : Z :=
  match pal with
  | None => 0
  | Some pal =>
      match List.find (fun e => bool_decide (ca_owner a = pe_owner e) &&
                                (get_entry_val a =? get_pai_entry_val e))
                      (if default_ace then def_entry_list pal else entry_list pal) with
      | Some e => pe_flags e
      | None => 0
      end
  end.

(** ** From a POSIX ACL to the lists *)

(** The entry for one entry of the ACL; a mask is not one. *)
Definition canon_entry (conn : acl_conn) (pst : file_stat) (owner group : dom_sid)
    (pal : option pai_val) (is_default : bool) (e : smb_acl_entry) : option canon_ace :=
  let make sid o id :=
    let a := Canon_ace (a_type e) (convert_permset_to_mode_t (a_perm e)) sid o ALLOW_ACE id 0 in
    Some (set_ca_flags a (u8 (get_pai_flags pal a is_default))) in
  match a_type e with
  | SMB_ACL_USER_OBJ => make owner UID_ACE (st_uid pst)
  | SMB_ACL_USER => make (uid_to_sid conn (a_qualifier e)) UID_ACE (a_qualifier e)
  | SMB_ACL_GROUP_OBJ => make group GID_ACE (st_gid pst)
  | SMB_ACL_GROUP => make (gid_to_sid conn (a_qualifier e)) GID_ACE (a_qualifier e)
  | SMB_ACL_OTHER => make global_sid_World WORLD_ACE NO_ID
  | SMB_ACL_MASK => None
  end.

(** The list, with the last entry first, and the mask. *)
Definition read_entries (conn : acl_conn) (pst : file_stat) (owner group : dom_sid)
    (pal : option pai_val) (is_default : bool) (acl : list smb_acl_entry) : list canon_ace * Z :=
  foldl (fun '(l, mask) e =>
           match canon_entry conn pst owner group pal is_default e with
           | Some a => (a :: l, mask)
           | None => (l, convert_permset_to_mode_t (a_perm e))
           end) ([], ALL_ACE_PERMS) acl.

Definition ensure_canon_entry_valid_on_get (owner group : dom_sid) (pst : file_stat)
    (l : list canon_ace) : list canon_ace :=
  let got_user := existsb (tag_is SMB_ACL_USER_OBJ) l in
  let got_group := existsb (tag_is SMB_ACL_GROUP_OBJ) l in
  let got_other := existsb (tag_is SMB_ACL_OTHER) l in
  let l := if negb got_user
           then Canon_ace SMB_ACL_USER_OBJ (unix_perms_to_acl_perms (st_mode pst) S_IRUSR S_IWUSR S_IXUSR)
                          owner UID_ACE ALLOW_ACE (st_uid pst) 0 :: l else l in
  let l := if negb got_group
           then Canon_ace SMB_ACL_GROUP_OBJ (unix_perms_to_acl_perms (st_mode pst) S_IRGRP S_IWGRP S_IXGRP)
                          group GID_ACE ALLOW_ACE (st_gid pst) 0 :: l else l in
  if negb got_other
  then Canon_ace SMB_ACL_OTHER (unix_perms_to_acl_perms (st_mode pst) S_IROTH S_IWOTH S_IXOTH)
                 global_sid_World WORLD_ACE ALLOW_ACE NO_ID 0 :: l else l.

(** The loop that masks and moves entries without permissions to the front. *)
Fixpoint mask_and_promote (mask : Z) (done todo : list canon_ace) : list canon_ace :=
  match todo with
  | [] => done
  | a :: rest =>
      let a := if negb (tag_is SMB_ACL_OTHER a) && negb (tag_is SMB_ACL_USER_OBJ a)
               then set_ca_perms a (Z.land (ca_perms a) mask) else a in
      if ca_perms a =? 0 then mask_and_promote mask (a :: done) rest
      else mask_and_promote mask (done ++ [a]) rest
  end.

(** The last entry of a type, taken out of the list. *)
Fixpoint take_out (t : smb_acl_tag) (l : list canon_ace) : option (canon_ace * list canon_ace) :=
  match l with
  | [] => None
  | a :: l =>
      match take_out t l with
      | Some (e, l) => Some (e, a :: l)
      | None => if tag_is t a then Some (a, l) else None
      end
  end.

Definition arrange_posix_perms (l : list canon_ace) : list canon_ace :=
  match take_out SMB_ACL_USER_OBJ l, take_out SMB_ACL_OTHER l with
  | Some (owner, l), Some _ =>
      let l := owner :: l in
      match take_out SMB_ACL_OTHER l with
      | Some (other, l) => l ++ [other]
      | None => l
      end
  | _, _ => l
  end.

Definition canonicalise_acl (conn : acl_conn) (pst : file_stat) (owner group : dom_sid)
    (pal : option pai_val) (is_default : bool) (acl : list smb_acl_entry) : list canon_ace :=
  let '(l, mask) := read_entries conn pst owner group pal is_default acl in
  let l := ensure_canon_entry_valid_on_get owner group pst l in
  arrange_posix_perms (mask_and_promote mask [] l).

(** ** The NT descriptor of a file *)

Definition ALL_INHERIT_BITS : Z := Z.lor INHERIT_BITS SEC_ACE_FLAG_INHERIT_ONLY.

(** Whether the default entry [aj] is merged with [ai]. The sizes are equal where
    the types and the SIDs are. *)
Definition default_of (ai aj : security_ace) : bool :=
  let i_flags_ni := clear_bits (ace_flags ai) SEC_ACE_FLAG_INHERITED_ACE in
  let j_flags_ni := clear_bits (ace_flags aj) SEC_ACE_FLAG_INHERITED_ACE in
  let i_inh := has_bits (ace_flags ai) SEC_ACE_FLAG_INHERITED_ACE in
  let j_inh := has_bits (ace_flags aj) SEC_ACE_FLAG_INHERITED_ACE in
  bool_decide (ace_type ai = ace_type aj) && (access_mask ai =? access_mask aj) &&
  dom_sid_equal (Some (trustee ai)) (Some (trustee aj)) && Bool.eqb i_inh j_inh &&
  (i_flags_ni =? 0) && (j_flags_ni =? ALL_INHERIT_BITS).

(** The inner loop: the first entry after [ai] that is merged with it, as the
    entries for the place of [ai] (none where it moves) and those after it. *)
Fixpoint merge_default (ai : security_ace) (rest : list security_ace)
    : option (option security_ace * list security_ace) :=
  match rest with
  | [] => None
  | aj :: rest =>
      if default_of ai aj then
        let flags := Z.lor INHERIT_BITS (if has_bits (ace_flags ai) SEC_ACE_FLAG_INHERITED_ACE
                                         then SEC_ACE_FLAG_INHERITED_ACE else 0) in
        Some (if access_mask ai =? 0 then (None, set_flags aj flags :: rest)
              else (Some (set_flags ai flags), rest))
      else
        match merge_default ai rest with
        | Some (ai, rest) => Some (ai, aj :: rest)
        | None => None
        end
  end.

(** The outer loop. Where entry [i] is moved, the entry that takes its place is
    passed over. *)
Fixpoint merge_default_loop (fuel : nat) (l : list security_ace) : list security_ace :=
  match fuel, l with
  | S fuel, ai :: rest =>
      match merge_default ai rest with
      | None => ai :: merge_default_loop fuel rest
      | Some (Some ai, rest) => ai :: merge_default_loop fuel rest
      | Some (None, []) => []
      | Some (None, next :: rest) => next :: merge_default_loop fuel rest
      end
  | _, _ => []
  end.

Definition merge_default_aces (l : list security_ace) : list security_ace := merge_default_loop (length l) l.

(** An entry of the zeroed array. *)
Definition zeroed_ace : security_ace :=
  Security_ace SEC_ACE_TYPE_ACCESS_ALLOWED 0 0 None None (Dom_sid 0 0 (replicate 6 0) (replicate 15 0)).

Definition nt_ace (conn : acl_conn) (is_dir : bool) (flags : Z) (a : canon_ace) : security_ace :=
  init_sec_ace zeroed_ace (ca_trustee a) SEC_ACE_TYPE_ACCESS_ALLOWED
    (map_canon_ace_perms conn (ca_perms a) is_dir) (Z.lor (ca_flags a) flags).

(** [def_acl] is [None] where there is no default ACL. *)
Definition posix_get_nt_acl_common (qsort : qsort_fn) (junk : list Z) (conn : acl_conn) (is_dir : bool)
    (sbuf : file_stat) (pal : option pai_val) (posix_acl : list smb_acl_entry)
    (def_acl : option (list smb_acl_entry)) (security_info : Z) : security_descriptor :=
  let owner_sid := uid_to_sid conn (st_uid sbuf) in
  let group_sid := gid_to_sid conn (st_gid sbuf) in
  let psa :=
    if has_bits security_info SECINFO_DACL then
      let file_ace := canonicalise_acl conn sbuf owner_sid group_sid pal false posix_acl in
      let dir_ace := match is_dir, def_acl with
                     | true, Some acl => canonicalise_acl conn sbuf global_sid_Creator_Owner
                                           global_sid_Creator_Group pal true acl
                     | _, _ => []
                     end in
      match merge_default_aces (map (nt_ace conn is_dir 0) file_ace ++
                                map (nt_ace conn is_dir ALL_INHERIT_BITS) dir_ace) with
      | [] => None
      | l => Some (make_sec_acl 2 (length l) l)
      end
    else None in
  let psd := make_standard_sec_desc junk
    (if has_bits security_info SECINFO_OWNER then Some owner_sid else None)
    (if has_bits security_info SECINFO_GROUP then Some group_sid else None) psa in
  let type := Z.lor (sd_type psd) (match pal with
                                   | Some pal => if lp_map_acl_inherit conn then pv_sd_type pal
                                                 else SEC_DESC_DACL_PROTECTED
                                   | None => SEC_DESC_DACL_PROTECTED
                                   end) in
  Security_descriptor (sd_revision psd) type (SecModel.owner_sid psd) (SecModel.group_sid psd) (sacl psd)
    (match dacl psd with
     | Some acl => Some (Security_acl (acl_revision acl) (dacl_sort_into_canonical_order qsort (aces acl)))
     | None => None
     end).

(** Reading the attribute into a buffer that is doubled up to 1 MB: [attr] is
    [None] where there is none; a call with a buffer that is too small fails
    with ERANGE. *)
Fixpoint read_attribute (fuel : nat) (size : Z) (attr : list Z) : option (list Z) :=
  match fuel with
  | O => None
  | S fuel =>
      if Z.of_nat (length attr) <=? size then Some attr
      else
        let size := size * 2 in
        if 1024 * 1024 <? size then None else read_attribute fuel size attr
  end.

(** Eleven rounds reach the limit. *)
Definition load_inherited_info (conn : acl_conn) (attr : option (list Z)) : option (option pai_val) :=
  if negb (lp_map_acl_inherit conn) then Some None
  else
    match attr with
    | None => Some None
    | Some attr =>
        match read_attribute 11 1024 attr with
        | None => Some None
        | Some buf => create_pai_val buf
        end
    end.

Definition free_empty_sys_acl (acl : option (list smb_acl_entry)) : option (list smb_acl_entry) :=
  match acl with Some [] => None | _ => acl end.

(** What the file system has for a path; ACLs are [None] where the call fails. *)
Record acl_file := Acl_file {
  f_stat : Z + file_stat;
  f_is_dir : bool;
  f_access : option (list smb_acl_entry);
  f_default : option (list smb_acl_entry);
  f_pai : option (list Z)
}.

Definition posix_get_nt_acl (qsort : qsort_fn) (junk : list Z) (conn : acl_conn) (f : acl_file)
    (security_info : Z) : option (NTSTATUS + security_descriptor) :=
  match f_stat f with
  | inl errno => Some (inl (map_nt_error_from_unix errno))
  | inr st =>
      let def_acl := if f_is_dir f then free_empty_sys_acl (f_default f) else None in
      pal ← load_inherited_info conn (f_pai f);
      Some (inr (posix_get_nt_acl_common qsort junk conn (f_is_dir f) st pal (default [] (f_access f))
                   def_acl security_info))
  end.

(** Through a handle: a directory, or a file without descriptor, is read by its
    path; a file has no default ACL. *)
Definition posix_fget_nt_acl (qsort : qsort_fn) (junk : list Z) (conn : acl_conn)
    (is_directory has_fd : bool) (by_path by_fd : acl_file) (security_info : Z)
    : option (NTSTATUS + security_descriptor) :=
  if is_directory || negb has_fd then posix_get_nt_acl qsort junk conn by_path security_info
  else
    match f_stat by_fd with
    | inl errno => Some (inl (map_nt_error_from_unix errno))
    | inr st =>
        pal ← load_inherited_info conn (f_pai by_fd);
        Some (inr (posix_get_nt_acl_common qsort junk conn (f_is_dir by_fd) st pal
                     (default [] (f_access by_fd)) None security_info))
    end.

(** ** Changing the mode of a file with an ACL *)

Definition set_a_perm (e : smb_acl_entry) (p : Z) : smb_acl_entry := Smb_acl_entry (a_type e) (a_qualifier e) p.

(** The mode with the group bits of the ACL; [None] where the call fails. *)
Definition get_acl_group_bits (acl : option (list smb_acl_entry)) (mode : Z) : option Z :=
  acl ← acl;
  e ← List.find (fun e => bool_decide (a_type e = SMB_ACL_GROUP_OBJ)) acl;
  let mode := clear_bits mode (Z.lor S_IRGRP (Z.lor S_IWGRP S_IXGRP)) in
  let mode := Z.lor mode (if has_bits (a_perm e) SMB_ACL_READ then S_IRGRP else 0) in
  let mode := Z.lor mode (if has_bits (a_perm e) SMB_ACL_WRITE then S_IWGRP else 0) in
  Some (Z.lor mode (if has_bits (a_perm e) SMB_ACL_EXECUTE then S_IXGRP else 0)).

Definition chmod_entry (mode : Z) (e : smb_acl_entry) : smb_acl_entry :=
  match a_type e with
  | SMB_ACL_USER_OBJ =>
      set_a_perm e (map_acl_perms_to_permset (unix_perms_to_acl_perms mode S_IRUSR S_IWUSR S_IXUSR))
  | SMB_ACL_GROUP_OBJ =>
      set_a_perm e (map_acl_perms_to_permset (unix_perms_to_acl_perms mode S_IRGRP S_IWGRP S_IXGRP))
  | SMB_ACL_MASK => set_a_perm e (map_acl_perms_to_permset (Z.lor S_IRUSR (Z.lor S_IWUSR S_IXUSR)))
  | SMB_ACL_OTHER =>
      set_a_perm e (map_acl_perms_to_permset (unix_perms_to_acl_perms mode S_IROTH S_IWOTH S_IXOTH))
  | SMB_ACL_USER | SMB_ACL_GROUP => e
  end.

(** The changed ACL and the result: false where plain chmod is enough. *)
Definition chmod_acl_internals (acl : list smb_acl_entry) (mode : Z) : list smb_acl_entry * bool :=
  (map (chmod_entry mode) acl, negb ((length acl =? 3)%nat || (length acl =? 0)%nat)).

(** The ACL that is set on the second path, [None] where none is set: the access
    ACLs of paths are given by [acl_of]. *)
Definition copy_access_posix_acl {path : Type} (acl_of : path -> option (list smb_acl_entry))
    (from to : path) (mode : Z) : option (path * list smb_acl_entry) :=
  acl ← acl_of from;
  let '(acl, ok) := chmod_acl_internals acl mode in
  if ok : bool then Some (to, acl) else None.

Definition directory_has_default_posix_acl {path : Type} (def_acl_of : path -> option (list smb_acl_entry))
    (p : path) : bool :=
  match def_acl_of p with Some (_ :: _) => true | _ => false end.

(** The ACL is taken from the new file itself and not from [inherit_from_dir]. *)
Definition inherit_access_posix_acl {path : Type} (acl_of def_acl_of : path -> option (list smb_acl_entry))
    (inherit_from_dir smb_fname : path) (mode : Z) : option (path * list smb_acl_entry) :=
  let inherit_from_fname := smb_fname in
  if directory_has_default_posix_acl def_acl_of inherit_from_fname then None
  else copy_access_posix_acl acl_of inherit_from_fname smb_fname mode.

(** ** Setting a descriptor *)

Definition NT_STATUS_INVALID_OWNER : NTSTATUS := 0xC000005A.

(** The calls that change a file; [root] where they are made as root. *)
Inductive acl_call :=
  | Chown (root : bool) (uid gid : Z)
  | Set_acl (root default_ace by_fd : bool) (acl : list smb_acl_entry)
  | Delete_default (root : bool)
  | Store_pai (root : bool) (buf : list Z)
  | Chmod (root : bool) (mode : Z).

(** The file system and the connection: the outcome of a call after the calls
    before it ([None] is success, otherwise the error number), the state of the
    file, and what is asked about the caller. *)
Record acl_fs := Acl_fs {
  fs_result : list acl_call -> acl_call -> option Z;
  fs_chown : list acl_call -> bool -> Z -> Z -> NTSTATUS;
  fs_stat : list acl_call -> NTSTATUS + file_stat;
  fsp_is_directory : bool;
  fsp_has_fd : bool;
  can_write : bool;
  lp_enable_privileges : bool;
  nttok : security_token;
  utok_groups : bool -> list Z;
  can_write_file : bool -> bool;
  sid_to_uid : dom_sid -> option Z;
  sid_to_gid : dom_sid -> option Z;
  ace_memory : nat -> security_ace
}.

Definition no_acl_syscall_error (err : Z) : bool := (err =? ENOSYS) || (err =? ENOTSUP).

Definition current_user_in_group (fs : acl_fs) (root : bool) (gid : Z) : bool :=
  existsb (fun g => g =? gid) (utok_groups fs root).

(** [errno] is the error of the call before; [root] where root is in force. *)
Definition acl_group_override (conn : acl_conn) (fs : acl_fs) (root : bool) (st : file_stat) (errno : Z) : bool :=
  if negb (errno =? EPERM) && negb (errno =? EACCES) then false
  else if lp_acl_group_control conn && current_user_in_group fs root (st_gid st) then true
  else if lp_dos_filemode conn && can_write_file fs root then true
  else false.

(** A call, and the same call as root where an override is allowed. The questions
    that decide about it leave [errno] as the call has set it. *)
Definition call_with_override (conn : acl_conn) (fs : acl_fs) (root : bool) (st : file_stat)
    (call : bool -> acl_call) (as_root : bool) (log : list acl_call) : option Z * list acl_call :=
  match fs_result fs log (call as_root) with
  | None => (None, log ++ [call as_root])
  | Some errno =>
      let log := log ++ [call as_root] in
      if acl_group_override conn fs root st errno
      then (fs_result fs log (call true), log ++ [call true]) else (Some errno, log)
  end.

(** The result (the error number where it fails), whether ACLs are supported,
    and the calls. *)
Definition set_canon_ace_list (conn : acl_conn) (fs : acl_fs) (root : bool) (st : file_stat)
    (the_ace : list canon_ace) (default_ace : bool) (support : bool) (log : list acl_call)
    : option Z * bool * list acl_call :=
  let by_fd := negb (default_ace || fsp_is_directory fs || negb (fsp_has_fd fs)) in
  let call root := Set_acl root default_ace by_fd (posix_acl_of the_ace) in
  let support := match the_ace with [] => support | _ => true end in
  let support := match fs_result fs log (call root) with
                 | Some errno => if no_acl_syscall_error errno then false else support
                 | None => support
                 end in
  let '(r, log) := call_with_override conn fs root st call root log in
  (r, support, log).

(** The owner and the group to set, [NO_ID] where none; [None] for a NULL SID. *)
Definition unpack_nt_owners (conn : acl_conn) (fs : acl_fs) (security_info_sent : Z) (psd : security_descriptor)
    : option (NTSTATUS + Z * Z) :=
  if security_info_sent =? 0 then Some (inr (NO_ID, NO_ID))
  else
    user ← (if has_bits security_info_sent SECINFO_OWNER then
              sid ← SecModel.owner_sid psd;
              match sid_to_uid fs sid with
              | Some uid => Some (inr uid)
              | None => if lp_force_unknown_acl_user conn then Some (inr (current_uid conn))
                        else Some (inl NT_STATUS_INVALID_OWNER)
              end
            else Some (inr NO_ID));
    match user with
    | inl status => Some (inl status)
    | inr user =>
        grp ← (if has_bits security_info_sent SECINFO_GROUP then
                 sid ← SecModel.group_sid psd;
                 match sid_to_gid fs sid with
                 | Some gid => Some (inr gid)
                 | None => if lp_force_unknown_acl_user conn then Some (inr (current_gid conn))
                           else Some (inl NT_STATUS_INVALID_OWNER)
                 end
               else Some (inr NO_ID));
        match grp with
        | inl status => Some (inl status)
        | inr grp => Some (inr (user, grp))
        end
    end.

Definition chown (fs : acl_fs) (root : bool) (uid gid : Z) (log : list acl_call) : NTSTATUS * list acl_call :=
  (fs_chown fs log root uid gid, log ++ [Chown root uid gid]).

Definition try_chown (conn : acl_conn) (fs : acl_fs) (uid gid : Z) (log : list acl_call)
    : NTSTATUS * list acl_call :=
  if negb (can_write fs) then (NT_STATUS_MEDIA_WRITE_PROTECTED, log)
  else
    let '(status, log) := chown fs false uid gid log in
    if NT_STATUS_IS_OK status then (status, log)
    else
      let has_restore_priv := security_token_has_privilege (nttok fs) SEC_PRIV_RESTORE in
      let has_take_ownership_priv := security_token_has_privilege (nttok fs) SEC_PRIV_TAKE_OWNERSHIP in
      let '(gid, has_take_ownership_priv) :=
        if has_restore_priv then (gid, has_take_ownership_priv)
        else if has_take_ownership_priv then
          if uid =? current_uid conn then (NO_ID, true) else (gid, false)
        else (gid, has_take_ownership_priv) in
      if lp_enable_privileges fs && (has_take_ownership_priv || has_restore_priv)
      then chown fs true uid gid log
      else if negb (lp_dos_filemode conn) then (NT_STATUS_ACCESS_DENIED, log)
      else if negb (uid =? current_uid conn) then (NT_STATUS_INVALID_OWNER, log)
      else chown fs true uid NO_ID log.

Definition security_descriptor_with_ms_nfs (psd : security_descriptor) : bool :=
  match dacl psd with
  | None => false
  | Some acl => existsb (fun a => dom_sid_compare_domain global_sid_Unix_NFS (trustee a) =? 0) (aces acl)
  end.

(** The full access that stands for a NULL DACL. *)
Definition full_access_dacl (fs : acl_fs) (owner grp : dom_sid) : option security_acl :=
  let ace i sid := init_sec_ace (ace_memory fs i) sid SEC_ACE_TYPE_ACCESS_ALLOWED SEC_GENERIC_ALL 0 in
  security_acl_map_generic
    (Some (make_sec_acl 2 3 [ace 0%nat owner; ace 1%nat grp; ace 2%nat global_sid_World])) file_generic_mapping.

(** The default ACL of a directory: set, or deleted where there is none. *)
Definition set_default_list (conn : acl_conn) (fs : acl_fs) (st : file_stat) (set_acl_as_root support : bool)
    (dir : list canon_ace) (log : list acl_call) : option Z * bool * list acl_call :=
  if support && fsp_is_directory fs then
    match dir with
    | [] =>
        let '(r, log) := call_with_override conn fs false st Delete_default set_acl_as_root log in (r, support, log)
    | _ => set_canon_ace_list conn fs set_acl_as_root st dir true support log
    end
  else (None, support, log).

(** With ACLs the attribute is stored, without the mode is changed. *)
Definition set_attribute_or_mode (conn : acl_conn) (fs : acl_fs) (st : file_stat) (set_acl_as_root support : bool)
    (sd_type : Z) (file dir : list canon_ace) (log : list acl_call) : NTSTATUS * list acl_call :=
  if support then
    (NT_STATUS_OK,
     if lp_map_acl_inherit conn
     then log ++ [Store_pai set_acl_as_root (create_pai_buf_v2 file dir sd_type)] else log)
  else
    match convert_canon_ace_to_posix_perms (fsp_is_directory fs) file with
    | None => (NT_STATUS_ACCESS_DENIED, log)
    | Some posix_perms =>
        if st_mode st =? posix_perms then (NT_STATUS_OK, log)
        else
          match call_with_override conn fs false st (fun root => Chmod root posix_perms) set_acl_as_root log with
          | (Some errno, log) => (map_nt_error_from_unix errno, log)
          | (None, log) => (NT_STATUS_OK, log)
          end
    end.

(** The part of [set_nt_acl] that sets the lists: the POSIX ACLs, or the mode
    where there are none. *)
Definition set_acl_lists (conn : acl_conn) (fs : acl_fs) (st : file_stat) (set_acl_as_root : bool) (sd_type : Z)
    (file dir : list canon_ace) (log : list acl_call) : NTSTATUS * list acl_call :=
  let '(r, support, log) :=
    match file with
    | [] => (Some 0, false, log)
    | _ => set_canon_ace_list conn fs set_acl_as_root st file false false log
    end in
  match support, r with
  | true, Some errno => (map_nt_error_from_unix errno, log)
  | _, _ =>
      let '(failed, support, log) := set_default_list conn fs st set_acl_as_root support dir log in
      match failed with
      | Some errno => (map_nt_error_from_unix errno, log)
      | None => set_attribute_or_mode conn fs st set_acl_as_root support sd_type file dir log
      end
  end.

(** Changing the owner first: the state of the file then, and whether the ACL is
    set as root. *)
Definition set_owners (conn : acl_conn) (fs : acl_fs) (st : file_stat) (user grp : Z)
    : (NTSTATUS + file_stat * bool) * list acl_call :=
  if (negb (user =? NO_ID) && negb (st_uid st =? user)) || (negb (grp =? NO_ID) && negb (st_gid st =? grp)) then
    let '(status, log) := try_chown conn fs user grp [] in
    if negb (NT_STATUS_IS_OK status) then (inl status, log)
    else
      match fs_stat fs log with
      | inl status => (inl status, log)
      | inr st => (inr (st, true), log)
      end
  else (inr (st, false), []).

(** The status and the calls; [None] is a crash. *)
Definition set_nt_acl (conn : acl_conn) (fs : acl_fs) (security_info_sent : Z) (psd : option security_descriptor)
    : option (NTSTATUS * list acl_call) :=
  if negb (can_write fs) then Some (NT_STATUS_MEDIA_WRITE_PROTECTED, [])
  else
    match psd with
    | None => Some (NT_STATUS_INVALID_PARAMETER, [])
    | Some psd =>
        if security_descriptor_with_ms_nfs psd then Some (NT_STATUS_OK, [])
        else
          match fs_stat fs [] with
          | inl status => Some (status, [])
          | inr st =>
              let info := if present (SecModel.owner_sid psd) then security_info_sent
                          else clear_bits security_info_sent SECINFO_OWNER in
              let info := if present (SecModel.group_sid psd) then info else clear_bits info SECINFO_GROUP in
              let info := if lp_inherit_owner_unix_only conn then clear_bits info SECINFO_OWNER else info in
              owners ← unpack_nt_owners conn fs info psd;
              match owners with
              | inl status => Some (status, [])
              | inr (user, grp) =>
                  match set_owners conn fs st user grp with
                  | (inl status, log) => Some (status, log)
                  | (inr (st, set_acl_as_root), log) =>
                      let owner_sid := uid_to_sid conn (st_uid st) in
                      let group_sid := gid_to_sid conn (st_gid st) in
                      let psd :=
                        if has_bits info SECINFO_DACL && has_bits (sd_type psd) SEC_DESC_DACL_PRESENT &&
                           negb (present (dacl psd))
                        then set_dacl psd (full_access_dacl fs owner_sid group_sid) else psd in
                      lists ← unpack_canon_ace conn (fsp_is_directory fs) st owner_sid group_sid info psd;
                      match lists with
                      | (_, [], []) => Some (NT_STATUS_OK, log)
                      | (false, _, _) => Some (NT_STATUS_ACCESS_DENIED, log)
                      | (true, file, dir) =>
                          if negb (has_bits info SECINFO_DACL) || negb (present (dacl psd))
                          then Some (NT_STATUS_OK, log)
                          else Some (set_acl_lists conn fs st set_acl_as_root (sd_type psd) file dir log)
                      end
                  end
              end
          end
    end.
