(* ===== verification/PosixAclProps.v ===== *)
(** * Setting an NT ACL on a POSIX file fails closed

    What the conversion of source3/smbd/posix_acls.c does with deny entries:
    its stages on a list with the deny entries first, and that the POSIX ACL
    that is set never grants a user what the NT ACL does not. *)

From S2P Require Import Prelude.
From S2P Require Import DomSid.
From S2P Require Import SecModel.
From S2P Require Import SecDesc.
From S2P Require Import SecInherit.
From S2P Require Import FileAccess.
From S2P Require Import PosixAcl.
From stdpp Require Import prelude list.

#[local] Open Scope Z_scope.

(** ** Entries *)

Definition key (a : canon_ace) : Z * ace_owner := (ca_id a, ca_owner a).

Definition same_who (a b : canon_ace) : Prop :=
  ca_type a = ca_type b /\ ca_trustee a = ca_trustee b /\ ca_owner a = ca_owner b /\ ca_id a = ca_id b.

Definition bit (b : Z) (a : canon_ace) : bool := Z.testbit (ca_perms a) b.

Definition deny_entry (a : canon_ace) : Prop := ca_attr a = DENY_ACE.
Definition allow_entry (a : canon_ace) : Prop := ca_attr a = ALLOW_ACE.

(** [a] is [a0] with at most its permissions. *)
Definition weaker (a a0 : canon_ace) : Prop :=
  same_who a a0 /\ ca_attr a = ca_attr a0 /\ forall b, bit b a = true -> bit b a0 = true.

Lemma same_who_refl a : same_who a a.
Proof. done. Qed.

Lemma weaker_self a : weaker a a.
Proof. done. Qed.

Lemma same_who_trans a b c : same_who a b -> same_who b c -> same_who a c.
Proof. unfold same_who. intuition congruence. Qed.

Lemma weaker_trans a b c : weaker a b -> weaker b c -> weaker a c.
Proof. unfold weaker, same_who. intuition (congruence || auto). Qed.

Lemma same_who_key a b : same_who a b -> key a = key b.
Proof. intros (_ & _ & H1 & H2). unfold key. by rewrite H1, H2. Qed.

Lemma is_deny_true a : is_deny a = true <-> deny_entry a.
Proof. unfold is_deny. by rewrite bool_decide_eq_true. Qed.

Lemma is_allow_true a : is_allow a = true <-> allow_entry a.
Proof. unfold is_allow. by rewrite bool_decide_eq_true. Qed.

Lemma deny_is_deny a : deny_entry a -> is_deny a = true.
Proof. apply is_deny_true. Qed.

Lemma deny_not_allow a : deny_entry a -> is_allow a = false.
Proof. unfold deny_entry, is_allow. intros ->. done. Qed.

Lemma allow_not_deny a : allow_entry a -> is_deny a = false.
Proof. unfold allow_entry, is_deny. intros ->. done. Qed.

Lemma allow_is_allow a : allow_entry a -> is_allow a = true.
Proof. apply is_allow_true. Qed.

Lemma key_eqb a b :
  ((ca_id a =? ca_id b) && bool_decide (ca_owner a = ca_owner b)) = true <-> key a = key b.
Proof.
  unfold key. rewrite andb_true_iff, Z.eqb_eq, bool_decide_eq_true. split; [intros [-> ->] | intros [= -> ->]]; done.
Qed.

Lemma testbit_clear x m b : Z.testbit (clear_bits x m) b = Z.testbit x b && negb (Z.testbit m b).
Proof. apply Z.ldiff_spec. Qed.

Lemma weaker_clear a m : weaker (set_ca_perms a (clear_bits (ca_perms a) m)) a.
Proof.
  split_and!; try done. intros b. unfold bit. cbn. rewrite testbit_clear. by intros [? _]%andb_true_iff.
Qed.

Lemma bit_nonzero b a : bit b a = true -> ca_perms a <> 0.
Proof. unfold bit. intros H E. rewrite E, Z.testbit_0_l in H. done. Qed.

(** ** The merging of entries *)

(** Every entry of [l'] has its permissions from entries of [l] with its key. *)
Definition from_list (l l' : list canon_ace) : Prop :=
  forall a', In a' l' -> (exists a, In a l /\ same_who a' a /\ ca_attr a' = ca_attr a) /\
                         forall b, bit b a' = true ->
                                   exists a, In a l /\ key a = key a' /\ ca_attr a = ca_attr a' /\ bit b a = true.

(** Every entry of [l] has its permissions in an entry of [l'] with its key. *)
Definition kept_in (l l' : list canon_ace) : Prop :=
  forall a, In a l -> exists a', In a' l' /\ key a' = key a /\ ca_attr a' = ca_attr a /\
                                 forall b, bit b a = true -> bit b a' = true.

Definition akey (a : canon_ace) : Z * ace_owner * ace_attribute := (key a, ca_attr a).

Lemma can_merge_key o c : can_merge false o c = true <-> akey c = akey o.
Proof.
  unfold can_merge, akey, key. cbn [negb]. rewrite !andb_true_iff, Z.eqb_eq, !bool_decide_eq_true.
  split; [intros [[-> ->] ->] | intros [= -> -> ->]]; done.
Qed.

Lemma merge_into_spec o l o' l' : merge_into false o l = (o', l') ->
  same_who o' o /\ ca_attr o' = ca_attr o /\ (length l' <= length l)%nat /\
  (forall b, bit b o' = true <-> bit b o = true \/ exists c, In c l /\ akey c = akey o /\ bit b c = true) /\
  (forall c, In c l' <-> In c l /\ akey c <> akey o).
Proof.
  revert o o' l'. induction l as [|c l IH]; intros o o' l'; cbn [merge_into In length].
  { intros [= <- <-]. split_and!; try done; try (intros; cbn; tauto).
    intros b. split; [tauto|]. intros [?|(c & [] & _)]. done. }
  destruct (can_merge false o c) eqn:E.
  - apply can_merge_key in E. intros H. apply IH in H. destruct H as (H1 & H2 & H3 & H4 & H5).
    assert (Ek : akey (set_ca_flags (set_ca_perms o (Z.lor (ca_perms o) (ca_perms c)))
                                    (Z.lor (ca_flags o) (ca_flags c))) = akey o) by done.
    rewrite Ek in H4, H5. split_and!; try done; try lia.
    + intros b. rewrite H4. unfold bit at 1. cbn. rewrite Z.lor_spec, orb_true_iff.
      split.
      * intros [[?|?]|(d & ? & ? & ?)]; [by left|right; exists c; auto|right; exists d; auto].
      * intros [?|(d & [->|?] & ? & ?)]; [by left; left|by left; right|right; exists d; auto].
    + intros d. rewrite H5. split; [tauto|]. intros [[->|?] ?]; tauto.
  - destruct (merge_into false o l) as [o1 l1] eqn:E1. intros [= <- <-].
    destruct (IH _ _ _ E1) as (H1 & H2 & H3 & H4 & H5).
    assert (akey c <> akey o) by (intros Hk; apply can_merge_key in Hk; congruence).
    split_and!; try done; cbn; try lia.
    + intros b. rewrite H4. split.
      * intros [?|(d & ? & ? & ?)]; [by left|right; exists d; auto].
      * intros [?|(d & [->|?] & ? & ?)]; [by left|tauto|right; exists d; auto].
    + intros d. rewrite H5. split; [intros [->|[? ?]]; tauto|]. intros [[->|?] ?]; tauto.
Qed.

Lemma merge_same_fuel n m l : (length l <= n)%nat -> (length l <= m)%nat ->
  merge_same n false l = merge_same m false l.
Proof.
  revert m l. induction n as [|n IH]; intros m [|o l] Hn Hm; cbn in *; try lia; try by destruct m.
  destruct m as [|m]; [lia|]. cbn. destruct (merge_into false o l) as [o' l'] eqn:E.
  apply merge_into_spec in E as (_ & _ & Hl & _). rewrite (IH m); [done|lia..].
Qed.

Lemma merge_same_cons n o l o' l' : (length l < n)%nat -> merge_into false o l = (o', l') ->
  merge_same n false (o :: l) = o' :: merge_same n false l'.
Proof.
  intros Hn E. destruct n as [|n]; [lia|].
  change (merge_same (S n) false (o :: l)) with
    (let '(outer, rest) := merge_into false o l in outer :: merge_same n false rest).
  rewrite E. f_equal.
  apply merge_into_spec in E as (_ & _ & Hl & _). apply merge_same_fuel; lia.
Qed.

(** A rule to reason about the merged list. *)
Lemma merge_same_ind (P : list canon_ace -> list canon_ace -> Prop) n :
  P [] [] ->
  (forall o l o' l', merge_into false o l = (o', l') -> (length l' <= n)%nat -> P l' (merge_same n false l') ->
                     P (o :: l) (o' :: merge_same n false l')) ->
  forall l, (length l <= n)%nat -> P l (merge_same n false l).
Proof.
  intros H0 H1 l Hn. remember (length l) as k eqn:Ek. revert l Ek Hn.
  induction (lt_wf k) as [k _ IH]. intros [|o l] -> Hn.
  { replace (merge_same n false []) with (@nil canon_ace) by by destruct n. done. }
  destruct (merge_into false o l) as [o' l'] eqn:E. cbn [length] in Hn.
  rewrite (merge_same_cons n o l o' l') by (done || lia).
  destruct (merge_into_spec _ _ _ _ E) as (_ & _ & Hl & _).
  apply H1; [done|lia|]. apply (IH (length l')); cbn; lia.
Qed.

Lemma merge_same_from n l : (length l <= n)%nat -> from_list l (merge_same n false l).
Proof.
  revert l. apply merge_same_ind; [intros ? []|].
  intros o l o' l' E Hn IH. destruct (merge_into_spec _ _ _ _ E) as (H1 & H2 & _ & H4 & H5).
  intros a [<-|Ha].
  - split; [exists o; cbn; eauto|]. intros b Hb. apply H4 in Hb as [Hb|(c & Hc & [= Hk1 Hk2 Hk3] & Hb)].
    + exists o. rewrite (same_who_key _ _ H1). cbn. auto.
    + exists c. rewrite (same_who_key _ _ H1), H2. unfold key. rewrite Hk1, Hk2. cbn. auto.
  - destruct (IH a Ha) as [(a0 & Ha0 & Hw) Hb]. split.
    + exists a0. split; [right; by apply H5|done].
    + intros b Hbit. destruct (Hb b Hbit) as (a1 & Ha1 & ?). exists a1. split; [right; by apply H5|done].
Qed.

Lemma merge_same_kept n l : (length l <= n)%nat -> kept_in l (merge_same n false l).
Proof.
  revert l. apply merge_same_ind; [intros ? []|].
  intros o l o' l' E Hn IH. destruct (merge_into_spec _ _ _ _ E) as (H1 & H2 & _ & H4 & H5).
  assert (Ho : forall a, akey a = akey o -> (a = o \/ In a l) ->
    exists a', In a' (o' :: merge_same n false l') /\ key a' = key a /\ ca_attr a' = ca_attr a /\
               forall b, bit b a = true -> bit b a' = true).
  { intros a [= Hk1 Hk2 Hk3] Hin. exists o'. split; [by left|]. split; [|split].
    - rewrite (same_who_key _ _ H1). unfold key. congruence.
    - congruence.
    - intros b Hb. apply H4. destruct Hin as [->|Hin]; [by left|right]. exists a. split_and!; try done.
      unfold akey, key. congruence. }
  intros a [<-|Ha]; [by apply Ho; auto|].
  destruct (decide (akey a = akey o)) as [Hk|Hk]; [by apply Ho; auto|].
  destruct (IH a) as (a' & ? & ?); [by apply H5|]. exists a'. split; [by right|done].
Qed.

Lemma merge_same_nodup n l : (length l <= n)%nat -> NoDup (akey <$> merge_same n false l).
Proof.
  revert l. apply (merge_same_ind (fun _ m => NoDup (akey <$> m))); [constructor|].
  intros o l o' l' E Hn IH. destruct (merge_into_spec _ _ _ _ E) as (H1 & H2 & Hl & _ & H5).
  cbn. constructor; [|done]. intros Hin. apply list_elem_of_fmap in Hin as (a & Hk & Ha).
  apply list_elem_of_In in Ha. destruct (merge_same_from n l' Hn a Ha) as [(a0 & Ha0 & Hw & Hat) _].
  apply H5 in Ha0 as [_ []]. unfold akey. rewrite <- (same_who_key _ _ Hw), <- Hat.
  fold (akey a). rewrite <- Hk. unfold akey. by rewrite (same_who_key _ _ H1), H2.
Qed.

Lemma merge_into_app o l1 l2 : Forall (fun c => akey c <> akey o) l2 ->
  merge_into false o (l1 ++ l2) = (fst (merge_into false o l1), snd (merge_into false o l1) ++ l2).
Proof.
  intros H2. revert o H2. induction l1 as [|c l1 IH]; intros o H2.
  - cbn [app]. induction H2 as [|c l2 Hc H2 IH]; [done|]. cbn [merge_into].
    destruct (can_merge false o c) eqn:E; [by apply can_merge_key in E|]. by rewrite IH.
  - cbn [app merge_into]. destruct (can_merge false o c) eqn:E.
    + by apply IH.
    + rewrite IH by done. by destruct (merge_into false o l1).
Qed.

(** Entries that deny and entries that allow are merged apart. *)
Lemma merge_same_app n ds als : Forall deny_entry ds -> Forall allow_entry als ->
  (length (ds ++ als) <= n)%nat ->
  merge_same n false (ds ++ als) = merge_same n false ds ++ merge_same n false als.
Proof.
  intros Hd Ha Hn. rewrite length_app in Hn.
  assert (Hn' : (length ds <= n)%nat) by lia. revert Hd Hn.
  revert ds Hn'. apply (merge_same_ind (fun ds m =>
    Forall deny_entry ds -> (length ds + length als <= n)%nat ->
    merge_same n false (ds ++ als) = m ++ merge_same n false als)); [done|].
  intros o l o' l' E Hl' IH Hd Hn. apply Forall_cons in Hd as [Ho Hd].
  destruct (merge_into_spec _ _ _ _ E) as (_ & _ & Hl & _ & H5). cbn [length] in Hn.
  cbn [app]. rewrite (merge_same_cons n o (l ++ als) o' (l' ++ als)).
  - cbn [app]. f_equal. apply IH; [|lia]. apply Forall_forall. intros x Hx%list_elem_of_In.
    apply H5 in Hx as [Hx _]. rewrite Forall_forall in Hd. by apply Hd, list_elem_of_In.
  - rewrite length_app. lia.
  - rewrite merge_into_app, E; [done|]. eapply Forall_impl; [exact Ha|]. intros c Hc [= _ _ Hat].
    unfold deny_entry, allow_entry in *. congruence.
Qed.

(** ** The masking of what is denied under the same key *)

Lemma mask_after_allow a l : allow_entry a -> mask_after a l = (true, l).
Proof.
  intros Ha. induction l as [|c l IH]; [done|]. cbn. rewrite (allow_not_deny a Ha), andb_false_r. cbn.
  by rewrite IH.
Qed.

Lemma mask_after_skip d l1 l2 : Forall deny_entry l1 ->
  mask_after d (l1 ++ l2) = (fst (mask_after d l2), l1 ++ snd (mask_after d l2)).
Proof.
  intros H. induction H as [|c l1 Hc H IH]; [apply surjective_pairing|]. cbn.
  by rewrite (deny_not_allow c Hc), andb_false_r, IH.
Qed.

Lemma mask_after_cons d c l : deny_entry d -> allow_entry c ->
  mask_after d (c :: l) =
    (if bool_decide (key c = key d)
     then if clear_bits (ca_perms c) (ca_perms d) =? 0 then mask_after d l
          else (false, set_ca_perms c (clear_bits (ca_perms c) (ca_perms d)) :: l)
     else (fst (mask_after d l), c :: snd (mask_after d l))).
Proof.
  intros Hd Hc. cbn [mask_after]. rewrite (deny_is_deny d Hd), (allow_is_allow c Hc), !andb_true_r.
  destruct (bool_decide_reflect (key c = key d)) as [Hk|Hk].
  - by rewrite (proj2 (key_eqb c d)).
  - destruct (_ && _) eqn:E; [by apply key_eqb in E|]. by destruct (mask_after d l).
Qed.

(** What one deny entry does to the entries that allow, at most one a key. *)
Lemma mask_after_cases d als : deny_entry d -> Forall allow_entry als -> NoDup (key <$> als) ->
  (Forall (fun a => key a <> key d) als /\ mask_after d als = (true, als)) \/
  (exists l1 a l2, als = l1 ++ a :: l2 /\ key a = key d /\
     ((clear_bits (ca_perms a) (ca_perms d) = 0 /\ mask_after d als = (true, l1 ++ l2)) \/
      mask_after d als = (false, l1 ++ set_ca_perms a (clear_bits (ca_perms a) (ca_perms d)) :: l2))).
Proof.
  intros Hd Ha Hn. induction Ha as [|c l Hc Hl IH]; [by left|].
  rewrite mask_after_cons by done. cbn [fmap list_fmap] in Hn. apply NoDup_cons in Hn as [Hni Hn].
  specialize (IH Hn). case_bool_decide as Hk.
  - right. exists [], c, l. split; [done|]. split; [done|]. cbn [app].
    destruct (Z.eqb_spec (clear_bits (ca_perms c) (ca_perms d)) 0) as [E|E]; [left|right; done].
    split; [done|]. destruct IH as [[_ H]|(l1 & a & l2 & -> & Hk' & _)]; [done|].
    exfalso. apply Hni. rewrite fmap_app. apply elem_of_app. right. cbn. rewrite Hk, Hk'. left.
  - destruct IH as [[H ->]|(l1 & a & l2 & -> & Hk' & H)]; [by left; split; [constructor|]|].
    right. exists (c :: l1), a, l2. split; [done|]. split; [done|].
    destruct H as [[H ->]|H]; [left; done|right; by rewrite H].
Qed.

Record masked_by (d : canon_ace) (als : list canon_ace) (s : bool) (als' : list canon_ace) : Prop := {
  mb_allow : Forall allow_entry als';
  mb_nodup : NoDup (key <$> als');
  mb_weaker : forall a', In a' als' -> exists a, In a als /\ weaker a' a;
  mb_denied : forall b a', bit b d = true -> In a' als' -> key a' = key d -> bit b a' = false;
  mb_goes : s = false -> exists a', In a' als' /\ key a' = key d;
  mb_none : (forall a, In a als -> key a <> key d) -> s = true;
  mb_other : forall a, In a als -> key a <> key d -> In a als';
  mb_named : forall a, In a als -> key a = key d -> ca_perms a <> 0 -> s = false \/ s = true /\ ca_perms d <> 0;
  mb_stays : s = true -> forall a', In a' als' -> key a' <> key d
}.

Lemma NoDup_middle (l1 l2 : list canon_ace) a : NoDup (key <$> l1 ++ a :: l2) ->
  NoDup (key <$> l1 ++ l2) /\ forall a', In a' (l1 ++ l2) -> key a' <> key a.
Proof.
  rewrite !fmap_app. cbn. intros H. assert (Hp : (key <$> l1) ++ key a :: (key <$> l2) ≡ₚ
    key a :: (key <$> l1) ++ (key <$> l2)) by by rewrite Permutation_middle.
  rewrite Hp in H. apply NoDup_cons in H as [H1 H2]. split; [done|]. intros a' Ha' Hk. apply H1.
  rewrite <- Hk, <- fmap_app. apply list_elem_of_fmap. exists a'. split; [done|]. by apply list_elem_of_In.
Qed.

Lemma mask_after_spec d als : deny_entry d -> Forall allow_entry als -> NoDup (key <$> als) ->
  masked_by d als (fst (mask_after d als)) (snd (mask_after d als)).
Proof.
  intros Hd Ha Hn. destruct (mask_after_cases d als Hd Ha Hn) as [[Hk ->]|(l1 & a & l2 & -> & Hk & H)].
  - rewrite Forall_forall in Hk. assert (Hk' : forall a, In a als -> key a <> key d)
      by (intros x Hx; by apply Hk, list_elem_of_In).
    split; cbn; try done; [intros a' Hin; exists a'; split; [done|apply weaker_self]|..];
      intros; exfalso; eapply Hk'; eauto.
  - destruct (NoDup_middle _ _ _ Hn) as [Hn' Hne]. apply Forall_app in Ha as [Ha1 Ha2].
    apply Forall_cons in Ha2 as [Haa Ha2]. rewrite Hk in Hne.
    assert (Hsub : forall x, In x (l1 ++ l2) -> In x (l1 ++ a :: l2))
      by (intros x; rewrite !in_app_iff; cbn; tauto).
    assert (Hoth : forall x, In x (l1 ++ a :: l2) -> key x <> key d -> In x (l1 ++ l2))
      by (intros x; rewrite !in_app_iff; cbn; intros [?|[->|?]] ?; tauto).
    destruct H as [[H0 ->]| ->]; cbn [fst snd].
    + split; try done; [by apply Forall_app|intros x Hx; exists x; split; [auto|apply weaker_self]|..].
      * intros b x _ Hx Hkx. by destruct (Hne x Hx).
      * intros x Hx Hkx Hp. right. split; [done|]. intros Hz. apply Hp.
        assert (x = a) as -> by (apply in_app_iff in Hx as [Hx|[Hx|Hx]]; [..|done|];
          [destruct (Hne x); [apply in_app_iff; auto|done]..]).
        by rewrite Hz, (Z.ldiff_0_r (ca_perms a) : clear_bits _ 0 = _) in H0.
    + set (a' := set_ca_perms a _). assert (Hw : weaker a' a) by apply weaker_clear.
      split; try done.
      * apply Forall_app. split; [done|]. by constructor.
      * rewrite fmap_app in *. done.
      * intros x. rewrite in_app_iff. cbn. intros [Hx|[<-|Hx]].
        -- exists x. split; [apply Hsub, in_app_iff; auto|apply weaker_self].
        -- exists a. split; [apply in_app_iff; cbn; auto|done].
        -- exists x. split; [apply Hsub, in_app_iff; auto|apply weaker_self].
      * intros b x Hb. rewrite in_app_iff. cbn. intros [Hx|[<-|Hx]] Hkx;
          [by destruct (Hne x); [apply in_app_iff; auto|]..| |by destruct (Hne x); [apply in_app_iff; auto|]].
        unfold bit in *. cbn. by rewrite testbit_clear, Hb, andb_false_r.
      * intros _. exists a'. split; [apply in_app_iff; cbn; auto|done].
      * intros Hall. exfalso. apply (Hall a); [apply in_app_iff; cbn; auto|done].
      * intros x Hx Hkx. specialize (Hoth x Hx Hkx). rewrite in_app_iff in *. cbn. tauto.
      * intros. by left.
Qed.

(** The second half of [merge_aces] on entries that deny before entries that allow. *)
Fixpoint mask_all (ds als : list canon_ace) : list canon_ace * list canon_ace :=
  match ds with
  | [] => ([], als)
  | d :: ds =>
      let r := mask_all ds (snd (mask_after d als)) in
      (if fst (mask_after d als) then d :: fst r else fst r, snd r)
  end.

Lemma mask_after_length d l : (length (snd (mask_after d l)) <= length l)%nat.
Proof.
  induction l as [|c l IH]; cbn; [lia|]. repeat case_match; cbn in *; simplify_eq; cbn in *; lia.
Qed.

Lemma mask_denied_allow n als : Forall allow_entry als -> (length als <= n)%nat -> mask_denied n als = als.
Proof.
  intros H. revert n. induction H as [|a l Ha H IH]; intros [|n] Hn; cbn [length] in Hn; try done; try lia.
  cbn [mask_denied]. rewrite mask_after_allow by done. cbn. rewrite IH; [done|lia].
Qed.

Lemma mask_denied_app n ds als : Forall deny_entry ds -> Forall allow_entry als -> NoDup (key <$> als) ->
  (length (ds ++ als) <= n)%nat ->
  mask_denied n (ds ++ als) = fst (mask_all ds als) ++ snd (mask_all ds als).
Proof.
  intros Hd. revert n als. induction Hd as [|d ds Hdd Hd IH]; intros n als Ha Hk Hn.
  - cbn. apply mask_denied_allow; done.
  - destruct n as [|n]; [cbn in Hn; lia|]. cbn [app mask_denied mask_all]. rewrite mask_after_skip by done.
    destruct (mask_after_spec d als Hdd Ha Hk) as [Ha' Hk' _ _ _ _ _ _ _].
    pose proof (mask_after_length d als). rewrite IH; try done.
    + by destruct (fst (mask_after d als)).
    + cbn [app length] in Hn. rewrite length_app in *. lia.
Qed.

Record mask_facts (ds als ds' als' : list canon_ace) : Prop := {
  mf_allow : Forall allow_entry als';
  mf_weaker : forall a', In a' als' -> exists a, In a als /\ weaker a' a;
  mf_sub : forall d, In d ds' -> In d ds;
  mf_denied : forall d b a', In d ds -> bit b d = true -> In a' als' -> key a' = key d -> bit b a' = false;
  mf_goes : forall d, In d ds -> In d ds' \/ exists a', In a' als' /\ key a' = key d;
  mf_none : forall d, In d ds -> (forall a, In a als -> key a <> key d) -> In d ds';
  mf_other : forall a, In a als -> (forall d, In d ds -> key d <> key a) -> In a als';
  mf_named : forall a, In a als -> ca_perms a <> 0 ->
    (exists a', In a' als' /\ key a' = key a) \/ exists d, In d ds' /\ key d = key a /\ ca_perms d <> 0;
  mf_nodup : NoDup (key <$> ds' ++ als')
}.

Lemma mask_all_facts ds als : Forall deny_entry ds -> NoDup (key <$> ds) ->
  Forall allow_entry als -> NoDup (key <$> als) ->
  mask_facts ds als (fst (mask_all ds als)) (snd (mask_all ds als)).
Proof.
  intros Hd. revert als. induction Hd as [|d ds Hdd Hd IH]; intros als Hkd Ha Hka.
  { split; cbn; try done; [|intros a Hin _; left; eauto]. intros a Hin. exists a. split; [done|apply weaker_self]. }
  cbn [fmap list_fmap] in Hkd. apply NoDup_cons in Hkd as [Hni Hkd]. cbn [mask_all].
  pose proof (mask_after_spec d als Hdd Ha Hka) as M. destruct (mask_after d als) as [s als1]. cbn [fst snd] in *.
  destruct (IH als1 Hkd (mb_allow _ _ _ _ M) (mb_nodup _ _ _ _ M)) as [F1 F2 F3 F4 F5 F6 F7 F8 F9].
  destruct (mask_all ds als1) as [ds' als']. cbn [fst snd] in *.
  assert (Hne : forall x, In x ds -> key x <> key d).
  { intros x Hx Hkx. apply Hni. apply list_elem_of_fmap. exists x. split; [done|by apply list_elem_of_In]. }
  assert (Hback : forall a', In a' als' -> exists a, In a als1 /\ weaker a' a) by done.
  assert (Hin : forall x, In x ds' -> In x (if s then d :: ds' else ds')) by (destruct s; cbn; auto).
  split; try done.
  - intros a' Ha'. destruct (F2 a' Ha') as (a1 & Ha1 & W1).
    destruct (mb_weaker _ _ _ _ M a1 Ha1) as (a & Hina & W). exists a. split; [done|by eapply weaker_trans].
  - intros x Hx. destruct s; [destruct Hx as [->|Hx]|]; cbn; auto.
  - intros x b a' [<-|Hx] Hb Ha' Hk; [|by apply (F4 x b)].
    destruct (F2 a' Ha') as (a1 & Ha1 & Hw & _ & W). destruct (bit b a') eqn:E; [|done].
    apply W in E. rewrite (mb_denied _ _ _ _ M b a1) in E; try done.
    by rewrite <- (same_who_key _ _ Hw).
  - intros x [<-|Hx].
    + destruct s eqn:Es; [left; cbn; auto|right]. destruct (mb_goes _ _ _ _ M eq_refl) as (a1 & Ha1 & Hk1).
      exists a1. split; [|done]. apply F7; [done|]. intros y Hy. rewrite Hk1. by apply Hne.
    + destruct (F5 x Hx) as [H|H]; auto.
  - intros x [<-|Hx] Hno; [rewrite (mb_none _ _ _ _ M Hno); by left|].
    apply Hin, F6; [done|]. intros a1 Ha1. destruct (mb_weaker _ _ _ _ M a1 Ha1) as (a & Hina & Hw & _).
    rewrite (same_who_key _ _ Hw). by apply Hno.
  - intros a Hina Hno. apply F7; [apply (mb_other _ _ _ _ M)|].
    + done.
    + intros Hk. apply (Hno d); [by left|done].
    + intros x Hx. apply Hno. by right.
  - intros a Hina Hp. destruct (decide (key a = key d)) as [Hk|Hk].
    + destruct (mb_named _ _ _ _ M a Hina Hk Hp) as [->|[-> Hpd]].
      * left. destruct (mb_goes _ _ _ _ M eq_refl) as (a1 & Ha1 & Hk1). exists a1. split; [|congruence].
        apply F7; [done|]. intros y Hy. rewrite Hk1. by apply Hne.
      * right. exists d. split; [by left|done].
    + destruct (F8 a (mb_other _ _ _ _ M a Hina Hk) Hp) as [?|(x & Hx & ?)]; [by left|right].
      exists x. split; [by apply Hin|done].
  - destruct s; [|done]. cbn. constructor; [|done]. intros Hk. apply list_elem_of_fmap in Hk as (x & Hk & Hx).
    apply list_elem_of_In, in_app_iff in Hx as [Hx|Hx]; [by apply (Hne x); [apply F3|]|].
    destruct (F2 x Hx) as (a1 & Ha1 & Hw & _). apply (mb_stays _ _ _ _ M eq_refl a1 Ha1).
    by rewrite <- (same_who_key _ _ Hw).
Qed.

(** ** What [merge_aces] does *)

Record merge_facts (ds als ds' als' : list canon_ace) : Prop := {
  mg_deny : Forall deny_entry ds';
  mg_allow : Forall allow_entry als';
  mg_deny_from : forall d', In d' ds' -> exists d, In d ds /\ same_who d' d;
  mg_allow_from : forall a', In a' als' -> exists a, In a als /\ same_who a' a;
  mg_bits : forall b a', In a' als' -> bit b a' = true -> exists a, In a als /\ key a = key a' /\ bit b a = true;
  mg_denied : forall b d a', In d ds -> bit b d = true -> In a' als' -> key a' = key d -> bit b a' = false;
  mg_goes : forall b d, In d ds -> bit b d = true ->
    (exists d', In d' ds' /\ key d' = key d /\ bit b d' = true) \/ exists a', In a' als' /\ key a' = key d;
  mg_none : forall b d, In d ds -> bit b d = true -> (forall a, In a als -> key a <> key d) ->
    exists d', In d' ds' /\ key d' = key d /\ bit b d' = true;
  mg_named : forall a, In a (ds ++ als) -> ca_perms a <> 0 ->
    (exists a', In a' als' /\ key a' = key a) \/ exists d', In d' ds' /\ key d' = key a /\ ca_perms d' <> 0;
  mg_deny_bits : forall b d d', In d ds -> bit b d = true -> In d' ds' -> key d' = key d -> bit b d' = true;
  mg_nodup : NoDup (key <$> ds' ++ als')
}.

Lemma more_bits_nonzero a a' : (forall b, bit b a = true -> bit b a' = true) -> ca_perms a <> 0 -> ca_perms a' <> 0.
Proof.
  intros H Hp Hz. apply Hp. apply Z.bits_inj. intros i. rewrite Z.testbit_0_l.
  destruct (Z.testbit (ca_perms a) i) eqn:E; [|done]. apply (H i) in E. unfold bit in E.
  by rewrite Hz, Z.testbit_0_l in E.
Qed.

(** Lists with one attribute: different entries have different keys. *)
Lemma akey_nodup at_ l : Forall (fun a => ca_attr a = at_) l -> NoDup (akey <$> l) -> NoDup (key <$> l).
Proof.
  intros Hat Hn. induction Hat as [|a l Ha Hl IH]; cbn in *; [constructor|].
  apply NoDup_cons in Hn as [Hni Hn]. constructor; [|by apply IH]. intros Hin. apply Hni.
  apply list_elem_of_fmap in Hin as (x & Hx & Hxl). apply list_elem_of_fmap. exists x. split; [|done].
  rewrite Forall_forall in Hl. unfold akey. by rewrite Hx, Ha, (Hl x).
Qed.

Lemma NoDup_fmap_inj (f : canon_ace -> Z * ace_owner) l x y : NoDup (f <$> l) -> In x l -> In y l -> f x = f y -> x = y.
Proof.
  intros Hn Hx Hy Hf. apply list_elem_of_In, list_elem_of_lookup in Hx as [i Hi].
  apply list_elem_of_In, list_elem_of_lookup in Hy as [j Hj].
  assert (i = j) as -> by (eapply (NoDup_lookup (f <$> l)); [done|rewrite list_lookup_fmap, Hi; done|];
    rewrite list_lookup_fmap, Hj; cbn; by rewrite Hf).
  congruence.
Qed.

Lemma merge_same_attr at_ n l : (length l <= n)%nat -> Forall (fun a => ca_attr a = at_) l ->
  Forall (fun a => ca_attr a = at_) (merge_same n false l).
Proof.
  intros Hn H. rewrite Forall_forall in *. intros a' Ha'%list_elem_of_In.
  destruct (merge_same_from n l Hn a' Ha') as [(a & Ha & _ & ->) _]. by apply H, list_elem_of_In.
Qed.

Lemma merge_aces_facts ds als : Forall deny_entry ds -> Forall allow_entry als ->
  exists ds' als', merge_aces (ds ++ als) false = ds' ++ als' /\ merge_facts ds als ds' als'.
Proof.
  intros Hd Ha. unfold merge_aces. set (n := length (ds ++ als)).
  assert (Hnd : (length ds <= n)%nat) by (unfold n; rewrite length_app; lia).
  assert (Hna : (length als <= n)%nat) by (unfold n; rewrite length_app; lia).
  rewrite merge_same_app by done.
  pose proof (merge_same_attr _ n ds Hnd Hd) as Hd1. pose proof (merge_same_attr _ n als Hna Ha) as Ha1.
  pose proof (akey_nodup _ _ Hd1 (merge_same_nodup n ds Hnd)) as Hkd.
  pose proof (akey_nodup _ _ Ha1 (merge_same_nodup n als Hna)) as Hka.
  pose proof (merge_same_from n ds Hnd) as Fd. pose proof (merge_same_from n als Hna) as Fa.
  pose proof (merge_same_kept n ds Hnd) as Kd. pose proof (merge_same_kept n als Hna) as Ka.
  set (ds1 := merge_same n false ds) in *. set (als1 := merge_same n false als) in *.
  rewrite mask_denied_app by done.
  destruct (mask_all_facts ds1 als1 Hd1 Hkd Ha1 Hka) as [F1 F2 F3 F4 F5 F6 F7 F8 F9].
  eexists _, _. split; [done|]. split; try done.
  - rewrite Forall_forall in *. intros d Hin%list_elem_of_In. by apply Hd1, list_elem_of_In, F3.
  - intros d' Hd'. destruct (Fd d' (F3 _ Hd')) as [(d & ? & ? & ?) _]. eauto.
  - intros a' Ha'. destruct (F2 a' Ha') as (a1 & Hin1 & Hw & _).
    destruct (Fa a1 Hin1) as [(a & ? & Hw' & _) _]. exists a. split; [done|by eapply same_who_trans].
  - intros b a' Ha' Hb. destruct (F2 a' Ha') as (a1 & Hin1 & Hw & _ & W). apply W in Hb.
    destruct (Fa a1 Hin1) as [_ H]. destruct (H b Hb) as (a & ? & ? & _ & ?). exists a.
    rewrite (same_who_key _ _ Hw). done.
  - intros b d a' Hin Hb Ha' Hk. destruct (Kd d Hin) as (d1 & Hin1 & Hk1 & _ & Hb1).
    apply (F4 d1 b a'); auto. congruence.
  - intros b d Hin Hb. destruct (Kd d Hin) as (d1 & Hin1 & Hk1 & _ & Hb1).
    destruct (F5 d1 Hin1) as [?|(a' & ? & ?)]; [left; exists d1; auto|right; exists a'; split; [done|congruence]].
  - intros b d Hin Hb Hno. destruct (Kd d Hin) as (d1 & Hin1 & Hk1 & _ & Hb1). exists d1.
    split; [apply F6; [done|]|auto]. intros a1 Ha1'. destruct (Fa a1 Ha1') as [(a & Hina & Hw & _) _].
    rewrite (same_who_key _ _ Hw), Hk1. by apply Hno.
  - intros a [Hin|Hin]%in_app_iff Hp.
    + destruct (Kd a Hin) as (d1 & Hin1 & Hk1 & _ & Hb1).
      destruct (F5 d1 Hin1) as [?|(a' & ? & ?)]; [right; exists d1|left; exists a'; split; [done|congruence]].
      split_and!; try done. by eapply more_bits_nonzero.
    + destruct (Ka a Hin) as (a1 & Hin1 & Hk1 & _ & Hb1).
      destruct (F8 a1 Hin1) as [(a' & ? & ?)|(d & ? & ? & ?)]; [by eapply more_bits_nonzero|left|right].
      * exists a'. split; [done|congruence].
      * exists d. split_and!; try done. congruence.
  - intros b d d' Hin Hb Hd' Hk. destruct (Kd d Hin) as (d1 & Hin1 & Hk1 & _ & Hb1).
    rewrite (NoDup_fmap_inj key ds1 d' d1); auto. congruence.
Qed.

(** ** The passes over deny entries *)

Definition everyone (a : canon_ace) : bool := dom_sid_equal (Some (ca_trustee a)) (Some global_sid_World).

Definition keep (d : canon_ace) : bool := negb (ca_perms d =? 0) && negb (everyone d).

Lemma deny_pass1_allow n done als : Forall allow_entry als -> (length als <= n)%nat ->
  deny_pass1 n done als = Some (done ++ als).
Proof.
  intros H. revert n done. induction H as [|a l Ha H IH]; intros n done Hn.
  - rewrite app_nil_r. by destruct n.
  - destruct n as [|n]; cbn [length] in Hn; [lia|]. cbn [deny_pass1]. rewrite (allow_not_deny a Ha). cbn [negb].
    rewrite IH by lia. by rewrite <- app_assoc.
Qed.

Lemma Forall2_weaker_self l : Forall2 weaker l l.
Proof. induction l; constructor; [apply weaker_self|done]. Qed.

Lemma Forall2_weaker_trans l1 l2 l3 : Forall2 weaker l1 l2 -> Forall2 weaker l2 l3 -> Forall2 weaker l1 l3.
Proof.
  intros H. revert l3. induction H as [|x y l1 l2 Hw _ IH]; intros l3 H3; inversion H3; subst; constructor; auto.
  by eapply weaker_trans.
Qed.

Lemma Forall2_weaker_in l' l a' : Forall2 weaker l' l -> In a' l' -> exists a, In a l /\ weaker a' a.
Proof.
  induction 1 as [|x y l' l Hw _ IH]; [done|]. intros [<-|Hin]; [exists y; cbn; auto|].
  destruct (IH Hin) as (a & ? & ?). exists a. cbn. auto.
Qed.

Lemma Forall2_weaker_in_r l' l a : Forall2 weaker l' l -> In a l -> exists a', In a' l' /\ weaker a' a.
Proof.
  induction 1 as [|x y l' l Hw _ IH]; [done|]. intros [<-|Hin]; [exists x; cbn; auto|].
  destruct (IH Hin) as (a' & ? & ?). exists a'. cbn. auto.
Qed.

Lemma Forall2_weaker_allow l' l : Forall2 weaker l' l -> Forall allow_entry l -> Forall allow_entry l'.
Proof.
  induction 1 as [|x y l' l (_ & Hat & _) _ IH]; intros Ha; [constructor|]. apply Forall_cons in Ha as [Hy Ha].
  constructor; [|by apply IH]. unfold allow_entry in *. congruence.
Qed.

Definition clear_perms (d a : canon_ace) : canon_ace := set_ca_perms a (clear_bits (ca_perms a) (ca_perms d)).

Lemma clear_perms_weaker d l : Forall2 weaker (map (clear_perms d) l) l.
Proof. induction l; constructor; [apply weaker_clear|done]. Qed.

(** Pass 1: unless all is denied to Everyone, denies of Everyone are taken out
    and what they deny from every entry that allows. *)
Lemma deny_pass1_spec n done ds als l : Forall deny_entry ds -> Forall allow_entry als ->
  (length (ds ++ als) <= n)%nat -> deny_pass1 n done (ds ++ als) = Some l ->
  l = [] \/ exists als', l = done ++ List.filter keep ds ++ als' /\ Forall2 weaker als' als /\
    forall d b a', In d ds -> everyone d = true -> bit b d = true -> In a' als' -> bit b a' = false.
Proof.
  intros Hd. revert n done als. induction Hd as [|d ds Hdd Hd IH]; intros n done als Ha Hn H.
  { right. exists als. cbn [app] in *. rewrite deny_pass1_allow in H by done.
    injection H as <-. split_and!; [done|apply Forall2_weaker_self|done]. }
  destruct n as [|n]; [cbn in Hn; lia|]. cbn [app deny_pass1] in H. rewrite (deny_is_deny d Hdd) in H.
  cbn [negb app length] in *. fold (everyone d) in H. unfold List.filter, keep; fold keep; fold (List.filter keep ds).
  destruct (Z.eqb_spec (ca_perms d) 0) as [E0|E0]; cbn [negb andb].
  { destruct (IH n done als Ha ltac:(lia) H) as [->|(als' & -> & W & C)]; [by left|right].
    exists als'. split_and!; try done. intros x b a' [<-|Hx]; [|by apply C].
    intros _ Hb. by apply bit_nonzero in Hb. }
  destruct (everyone d) eqn:Ee; cbn [negb] in *.
  - destruct (negb (owner_is WORLD_ACE d)); [done|].
    destruct (ca_perms d =? ALL_ACE_PERMS); [destruct done; simplify_eq; by left|].
    rewrite map_app in H.
    replace (map _ ds) with ds in H; [replace (map _ als) with (map (clear_perms d) als) in H|].
    + apply IH in H as [->|(als' & -> & W & C)]; [by left|right| |].
      * exists als'. split_and!; [done|eapply Forall2_weaker_trans; [exact W|apply clear_perms_weaker]|].
        intros x b a' [<-|Hx]; [|by apply C]. intros _ Hb Ha'.
        destruct (Forall2_weaker_in _ _ _ W Ha') as (a1 & Hin & _ & _ & Wb).
        apply in_map_iff in Hin as (a & <- & _). destruct (bit b a') eqn:E; [|done]. apply Wb in E.
        unfold bit, clear_perms in *. cbn in E. rewrite testbit_clear, Hb, andb_false_r in E. done.
      * eapply Forall2_weaker_allow; [apply clear_perms_weaker|done].
      * rewrite length_app, length_map in *. lia.
    + clear - Ha. induction Ha as [|a l H Ha IH]; cbn; [done|]. rewrite (allow_is_allow a H), IH. done.
    + clear - Hd. induction Hd as [|a l H Ha IH]; cbn; [done|]. rewrite (deny_not_allow a H), <- IH. done.
  - apply IH in H as [->|(als' & -> & W & C)]; [by left|right|done|lia].
    exists als'. split_and!; [by rewrite <- app_assoc|done|]. intros x b a' [<-|Hx]; [congruence|by apply C].
Qed.

(** Pass 2: what becomes of a user's deny entry. *)
Definition converted_user (conn : acl_conn) (als : list canon_ace) (d : canon_ace) : canon_ace :=
  if ca_perms d =? ALL_ACE_PERMS then to_allow d 0
  else to_allow d (clear_bits (allowed_by_groups conn d als) (ca_perms d)).

Lemma converted_user_who conn als d : same_who (converted_user conn als d) d.
Proof. unfold converted_user. by case_match. Qed.

Definition not_user (a : canon_ace) : bool := negb (owner_is UID_ACE a).

Lemma deny_pass2_allow n conn done als : Forall allow_entry als -> deny_pass2 n conn done als = done ++ als.
Proof.
  intros H. revert n done. induction H as [|a l Ha H IH]; intros n done; [by destruct n|].
  destruct n as [|n]; [done|]. cbn [deny_pass2]. rewrite (allow_not_deny a Ha). cbn [negb].
  rewrite IH. by rewrite <- app_assoc.
Qed.

Lemma allowed_by_groups_rest conn d ds als cs : Forall deny_entry ds -> Forall (fun c => owner_is UID_ACE c = true) cs ->
  allowed_by_groups conn d (ds ++ als ++ cs) = allowed_by_groups conn d als.
Proof.
  intros Hd Hc. unfold allowed_by_groups. rewrite !foldl_app.
  assert (Hcs : forall z, foldl (fun new_perms a =>
      if negb (is_allow a) then new_perms else if owner_is UID_ACE a then new_perms
      else if uid_entry_in_group conn d a then Z.lor new_perms (ca_perms a) else new_perms) z cs = z).
  { induction Hc as [|c cs Hc _ IH]; intros z; cbn; [done|]. rewrite Hc. by destruct (negb (is_allow c)). }
  rewrite Hcs. f_equal. induction Hd as [|c ds Hdc _ IH]; cbn; [done|]. by rewrite (deny_not_allow c Hdc).
Qed.

Lemma deny_pass2_spec n conn done ds als cs : Forall deny_entry ds -> Forall allow_entry als ->
  Forall allow_entry cs -> Forall (fun c => owner_is UID_ACE c = true) cs -> (length ds <= n)%nat ->
  deny_pass2 n conn done (ds ++ als ++ cs) =
    done ++ List.filter not_user ds ++ als ++ cs ++
    map (converted_user conn als) (List.filter (owner_is UID_ACE) ds).
Proof.
  intros Hd Ha. revert n done cs. induction Hd as [|d ds Hdd Hd IH]; intros n done cs Hc Hu Hn.
  { cbn. rewrite deny_pass2_allow, app_nil_r; [done|]. by apply Forall_app. }
  destruct n as [|n]; [cbn in Hn; lia|]. cbn [length] in Hn. cbn [app deny_pass2 List.filter].
  unfold not_user at 1. rewrite (deny_is_deny d Hdd). cbn [negb].
  destruct (owner_is UID_ACE d) eqn:Eu; cbn [negb].
  - rewrite allowed_by_groups_rest by done. fold (converted_user conn als d).
    assert (Hc' : Forall allow_entry (cs ++ [converted_user conn als d])).
    { apply Forall_app. split; [done|]. constructor; [|done]. unfold converted_user. by case_match. }
    assert (Hu' : Forall (fun c => owner_is UID_ACE c = true) (cs ++ [converted_user conn als d])).
    { apply Forall_app. split; [done|]. constructor; [|done]. unfold converted_user. by case_match. }
    transitivity (deny_pass2 n conn done (ds ++ als ++ cs ++ [converted_user conn als d])).
    { rewrite !app_assoc. destruct ((ds ++ als) ++ cs) eqn:E; [|done]. cbn [app].
      symmetry. apply deny_pass2_allow. by apply Forall_app in Hc' as [_ ?]. }
    rewrite IH by (done || lia). cbn [map]. by rewrite <- !app_assoc.
  - rewrite IH by (done || lia). by rewrite <- !app_assoc.
Qed.

(** Pass 3: what becomes of a group's deny entry, and of the users in it. *)
Definition converted_group (als : list canon_ace) (g : canon_ace) : canon_ace :=
  to_allow g (match allow_everyone als with
              | Some e => clear_bits (ca_perms e) (ca_perms g) | None => 0 end).

Definition mask_groups (conn : acl_conn) (gs als : list canon_ace) : list canon_ace :=
  foldl (fun als g => mask_members conn g als) als gs.

Lemma deny_pass3_allow n conn done als : Forall allow_entry als -> deny_pass3 n conn done als = done ++ als.
Proof.
  intros H. revert n done. induction H as [|a l Ha H IH]; intros n done; [by destruct n|].
  destruct n as [|n]; [done|]. cbn [deny_pass3]. rewrite (allow_not_deny a Ha). cbn [negb].
  rewrite IH. by rewrite <- app_assoc.
Qed.

Lemma mask_members_weaker conn g l : Forall2 weaker (mask_members conn g l) l.
Proof.
  induction l as [|a l IH]; constructor; [|done].
  repeat case_match; (apply weaker_self || apply weaker_clear).
Qed.

Lemma mask_members_others conn g l : Forall (fun a => owner_is UID_ACE a = false) l -> mask_members conn g l = l.
Proof.
  induction 1 as [|a l Ha H IH]; [done|]. cbn. rewrite Ha. cbn. unfold mask_members in IH. rewrite IH.
  by destruct (negb (is_allow a)).
Qed.

Lemma mask_members_deny conn g l : Forall deny_entry l -> mask_members conn g l = l.
Proof.
  induction 1 as [|a l Ha H IH]; [done|]. cbn. rewrite (deny_not_allow a Ha). cbn. unfold mask_members in IH.
  by rewrite IH.
Qed.

Lemma mask_members_app conn g l1 l2 : mask_members conn g (l1 ++ l2) = mask_members conn g l1 ++ mask_members conn g l2.
Proof. apply map_app. Qed.

Lemma allow_everyone_app l1 l2 :
  allow_everyone (l1 ++ l2) = match allow_everyone l2 with Some e => Some e | None => allow_everyone l1 end.
Proof.
  unfold allow_everyone. rewrite foldl_app. generalize (foldl
    (fun r a => if is_allow a && owner_is WORLD_ACE a then Some a else r) None l1). intros r.
  revert r. induction l2 as [|a l IH] using rev_ind; intros r; [done|]. rewrite !foldl_app. cbn.
  destruct (is_allow a && owner_is WORLD_ACE a); [done|]. apply IH.
Qed.

Lemma allow_everyone_mask conn g l : allow_everyone (mask_members conn g l) = allow_everyone l.
Proof.
  induction l as [|a l IH] using rev_ind; [done|]. rewrite mask_members_app, !allow_everyone_app, IH.
  unfold mask_members, allow_everyone, owner_is. cbn.
  destruct (is_allow a) eqn:Ea; cbn; [|by rewrite Ea].
  destruct (bool_decide_reflect (ca_owner a = UID_ACE)) as [E|E]; cbn; [|by rewrite Ea].
  assert (Hn : forall x, ca_owner x = UID_ACE -> bool_decide (ca_owner x = WORLD_ACE) = false) by by intros x ->.
  rewrite (Hn a E). rewrite Hn, andb_false_r; [done|]. by destruct (uid_entry_in_group conn a g).
Qed.

Lemma allow_everyone_none l : Forall (fun a => owner_is WORLD_ACE a = false \/ deny_entry a) l -> allow_everyone l = None.
Proof.
  induction l as [|a l IH] using rev_ind; intros H; [done|]. apply Forall_app in H as [H Ha].
  rewrite allow_everyone_app, IH by done. apply Forall_cons in Ha as [[Ha|Ha] _]; unfold allow_everyone; cbn.
  - by rewrite Ha, andb_false_r.
  - by rewrite (deny_not_allow a Ha).
Qed.

Lemma converted_group_mask conn g als gs :
  map (converted_group (mask_members conn g als)) gs = map (converted_group als) gs.
Proof. apply map_ext. intros a. unfold converted_group. by rewrite allow_everyone_mask. Qed.

Definition group_entry (a : canon_ace) : Prop := ca_owner a = GID_ACE.

Lemma group_not_user a : group_entry a -> owner_is UID_ACE a = false.
Proof. unfold group_entry, owner_is. by intros ->. Qed.

Lemma group_not_world a : group_entry a -> owner_is WORLD_ACE a = false.
Proof. unfold group_entry, owner_is. by intros ->. Qed.

Lemma deny_pass3_spec n conn done gs als cs : Forall deny_entry gs -> Forall group_entry gs ->
  Forall allow_entry als -> Forall allow_entry cs -> Forall group_entry cs -> (length gs <= n)%nat ->
  deny_pass3 n conn done (gs ++ als ++ cs) =
    done ++ mask_groups conn gs als ++ cs ++ map (converted_group als) gs.
Proof.
  intros Hd. revert n done als cs. induction Hd as [|g gs Hdg Hd IH]; intros n done als cs Hg Ha Hc Hgc Hn.
  { cbn. rewrite deny_pass3_allow, app_nil_r; [done|]. by apply Forall_app. }
  apply Forall_cons in Hg as [Hgg Hg].
  destruct n as [|n]; [cbn in Hn; lia|]. cbn [length] in Hn. cbn [app deny_pass3].
  rewrite (deny_is_deny g Hdg). unfold owner_is at 1. rewrite Hgg. cbn [negb].
  rewrite !mask_members_app, (mask_members_deny conn g gs Hd), (mask_members_others conn g cs)
    by (eapply Forall_impl; [exact Hgc|apply group_not_user]).
  rewrite !allow_everyone_app, (allow_everyone_none cs), (allow_everyone_none gs)
    by (eapply Forall_impl; [done|intros; first [by left; apply group_not_world|by right]]).
  replace (match allow_everyone als with Some e => Some e | None => None end) with (allow_everyone als)
    by by destruct (allow_everyone als).
  fold (converted_group als g). set (als1 := mask_members conn g als).
  assert (Ha1 : Forall allow_entry als1)
    by (eapply Forall2_weaker_allow; [apply mask_members_weaker|done]).
  assert (Hc' : Forall allow_entry (cs ++ [converted_group als g])) by (apply Forall_app; split; [done|by constructor]).
  transitivity (deny_pass3 n conn done (gs ++ als1 ++ cs ++ [converted_group als g])).
  { rewrite !app_assoc. destruct ((gs ++ als1) ++ cs) eqn:E; [|done]. cbn [app].
    symmetry. apply deny_pass3_allow. by apply Forall_app in Hc' as [_ ?]. }
  rewrite IH; try done; [|apply Forall_app; split; [done|by constructor]|lia].
  unfold als1. rewrite converted_group_mask. cbn [map mask_groups foldl]. by rewrite <- !app_assoc.
Qed.

Lemma mask_groups_weaker conn gs l : Forall2 weaker (mask_groups conn gs l) l.
Proof.
  revert l. induction gs as [|g gs IH]; intros l; [apply Forall2_weaker_self|].
  eapply Forall2_weaker_trans; [apply IH|apply mask_members_weaker].
Qed.

Lemma uid_in_group_who conn a a' g g' : same_who a a' -> same_who g g' ->
  uid_entry_in_group conn a g = uid_entry_in_group conn a' g'.
Proof. intros (_ & H1 & _ & H2) (_ & H3 & _ & H4). unfold uid_entry_in_group. by rewrite H1, H2, H3, H4. Qed.

Lemma mask_groups_denied conn gs l g f b : In g gs -> bit b g = true -> Forall allow_entry l ->
  In f (mask_groups conn gs l) -> owner_is UID_ACE f = true -> uid_entry_in_group conn f g = true -> bit b f = false.
Proof.
  revert l. induction gs as [|g0 gs IH]; intros l; [done|]. intros [->|Hg] Hb Ha Hf Hu Hin.
  - cbn [mask_groups foldl] in Hf. destruct (Forall2_weaker_in _ _ _ (mask_groups_weaker conn gs _) Hf) as (x & Hx & W).
    apply in_map_iff in Hx as (a & Ex & Hina). destruct W as (Hw & _ & W).
    rewrite Forall_forall in Ha. rewrite (allow_is_allow a) in Ex by by apply Ha, list_elem_of_In. cbn [negb] in Ex.
    assert (Hwa : same_who f a) by (eapply same_who_trans; [exact Hw|]; subst x; by repeat case_match).
    assert (Hua : owner_is UID_ACE a = true) by (unfold owner_is in *; by rewrite <- (proj1 (proj2 (proj2 Hwa)))).
    rewrite Hua in Ex. cbn [negb] in Ex.
    rewrite (uid_in_group_who conn f a g g Hwa (same_who_refl g)) in Hin. rewrite Hin in Ex. subst x.
    destruct (bit b f) eqn:E; [|done]. apply W in E. unfold bit in *. cbn in E.
    by rewrite testbit_clear, Hb, andb_false_r in E.
  - apply (IH (mask_members conn g0 l)); try done.
    eapply Forall2_weaker_allow; [apply mask_members_weaker|done].
Qed.

(** The list without deny entries. *)
Lemma process_deny_list_spec conn ds als l : Forall deny_entry ds -> Forall allow_entry als ->
  (forall a, In a (ds ++ als) -> everyone a = owner_is WORLD_ACE a) ->
  process_deny_list conn (ds ++ als) = Some l ->
  l = [] \/ exists als1, Forall2 weaker als1 als /\
    (forall d b a', In d ds -> everyone d = true -> bit b d = true -> In a' als1 -> bit b a' = false) /\
    let kept := List.filter keep ds in
    let gs := List.filter not_user kept in
    let us := map (converted_user conn als1) (List.filter (owner_is UID_ACE) kept) in
    l = mask_groups conn gs (als1 ++ us) ++ map (converted_group (als1 ++ us)) gs.
Proof.
  intros Hd Ha Hw H. unfold process_deny_list in H.
  destruct (deny_pass1 _ [] (ds ++ als)) as [l1|] eqn:E1; [|done]. cbn [mbind option_bind] in H.
  apply (inj Some) in H. subst l. apply deny_pass1_spec in E1 as [->|(als1 & -> & W & C)]; try done; [by left|right].
  exists als1. split; [done|]. split; [done|]. cbn zeta. cbn [app].
  assert (Hk : Forall deny_entry (List.filter keep ds)).
  { rewrite Forall_forall in *. intros x Hx%list_elem_of_In. apply filter_In in Hx as [Hx _].
    by apply Hd, list_elem_of_In. }
  pose proof (Forall2_weaker_allow _ _ W Ha) as Ha1. set (kept := List.filter keep ds) in *.
  set (us := map _ _). assert (Hus : Forall allow_entry us).
  { apply Forall_forall. intros x Hx%list_elem_of_In. apply in_map_iff in Hx as (d & <- & _).
    unfold converted_user. by case_match. }
  pose proof (deny_pass2_spec (2 * length (kept ++ als1)) conn [] kept als1 [] Hk Ha1) as P2.
  cbn [app] in P2. rewrite app_nil_r in P2. rewrite P2; [|done..|rewrite length_app; lia]. fold us.
  pose proof (deny_pass3_spec (2 * length (List.filter not_user kept ++ als1 ++ us)) conn []
    (List.filter not_user kept) (als1 ++ us) []) as P3. cbn [app] in P3. rewrite app_nil_r in P3. apply P3; try done.
  - rewrite Forall_forall in *. intros x Hx%list_elem_of_In. apply filter_In in Hx as [Hx _].
    by apply Hk, list_elem_of_In.
  - apply Forall_forall. intros x Hx%list_elem_of_In. apply filter_In in Hx as [Hx Hn].
    apply filter_In in Hx as [Hx Hke]. unfold keep in Hke. apply andb_true_iff in Hke as [_ Hne].
    rewrite Hw in Hne by (apply in_app_iff; auto). unfold not_user, owner_is, group_entry in *.
    destruct (ca_owner x); done.
  - by apply Forall_app.
  - rewrite length_app. lia.
Qed.

(** ** A user's rights *)

Record posix_user := Posix_user { pu_uid : Z; pu_groups : list Z }.

Definition in_groups (u : posix_user) (gid : Z) : bool := existsb (Z.eqb gid) (pu_groups u).

Definition applies (u : posix_user) (a : canon_ace) : bool :=
  match ca_owner a with
  | UID_ACE => ca_id a =? pu_uid u
  | GID_ACE => in_groups u (ca_id a)
  | WORLD_ACE => true
  end.

Definition named (u : posix_user) (a : canon_ace) : Prop := ca_owner a = UID_ACE /\ ca_id a = pu_uid u.

(** The NT rule: the first entry that applies and has the bit decides. *)
Definition nt_grants (u : posix_user) (b : Z) (l : list canon_ace) : bool :=
  match List.find (fun a => applies u a && bit b a) l with
  | Some a => is_allow a
  | None => false
  end.

Definition clear_for (u : posix_user) (b : Z) (l : list canon_ace) : Prop :=
  forall a, In a l -> applies u a = true -> bit b a = false.

Definition named_without (u : posix_user) (b : Z) (l : list canon_ace) : Prop :=
  (exists a, In a l /\ named u a) /\ forall a, In a l -> named u a -> bit b a = false.

Lemma applies_who u a a' : same_who a a' -> applies u a = applies u a'.
Proof. intros (_ & _ & H1 & H2). unfold applies. by rewrite H1, H2. Qed.

Lemma applies_key u a a' : key a = key a' -> applies u a = applies u a'.
Proof. intros [= H1 H2]. unfold applies. by rewrite H1, H2. Qed.

Lemma named_key u a a' : key a = key a' -> named u a -> named u a'.
Proof. intros [= H1 H2]. unfold named. by rewrite H1, H2. Qed.

Lemma named_applies u a : named u a -> applies u a = true.
Proof. intros [H1 H2]. unfold applies. rewrite H1. by apply Z.eqb_eq. Qed.

Lemma named_same u a a' : named u a -> named u a' -> key a = key a'.
Proof. unfold named, key. intros [-> ->] [-> ->]. done. Qed.

Lemma nt_grants_false u b ds als : Forall deny_entry ds -> Forall allow_entry als ->
  nt_grants u b (ds ++ als) = false ->
  (exists d, In d ds /\ applies u d = true /\ bit b d = true) \/ clear_for u b als.
Proof.
  intros Hd Ha. unfold nt_grants. destruct (List.find _ (ds ++ als)) as [a|] eqn:E.
  - apply find_some in E as [Hin [H1 H2]%andb_true_iff]. intros Hal. left. exists a. split; [|done].
    apply in_app_iff in Hin as [Hin|Hin]; [done|]. rewrite Forall_forall in Ha.
    by rewrite (allow_is_allow a) in Hal by by apply Ha, list_elem_of_In.
  - intros _. right. intros a Hin Hap. pose proof (find_none _ _ E a ltac:(apply in_app_iff; auto)) as H.
    cbn in H. by rewrite Hap in H.
Qed.

Section Closed.
Context (conn : acl_conn) (u : posix_user) (b : Z) (origin : list canon_ace).

(** Who is in a group is known, for the entries of the list. *)
Hypothesis knows_groups : forall a g, In a origin -> In g origin -> named u a -> ca_owner g <> UID_ACE ->
  uid_entry_in_group conn a g = applies u g.

Definition from_origin (a : canon_ace) : Prop := exists a0, In a0 origin /\ same_who a a0.

Lemma knows a g : from_origin a -> from_origin g -> named u a -> ca_owner g <> UID_ACE ->
  uid_entry_in_group conn a g = applies u g.
Proof.
  intros (a0 & Ha & Wa) (g0 & Hg & Wg) Hn Ho. rewrite (uid_in_group_who _ _ _ _ _ Wa Wg), (applies_who u _ _ Wg).
  apply knows_groups; try done; [by eapply named_key; [apply same_who_key; exact Wa|]|].
  by rewrite <- (proj1 (proj2 (proj2 Wg))).
Qed.

Lemma allowed_by_groups_bit d als : Z.testbit (allowed_by_groups conn d als) b = true ->
  exists a, In a als /\ owner_is UID_ACE a = false /\ uid_entry_in_group conn d a = true /\ bit b a = true.
Proof.
  unfold allowed_by_groups. induction als as [|a als IH] using rev_ind; [by rewrite Z.testbit_0_l|].
  rewrite foldl_app. cbn. intros H.
  assert (Hl : forall x, In x als -> In x (als ++ [a])) by (intros; apply in_app_iff; auto).
  destruct (negb (is_allow a)); [destruct (IH H) as (x & ? & ?); eauto|].
  destruct (owner_is UID_ACE a) eqn:Eu; [destruct (IH H) as (x & ? & ?); eauto|].
  destruct (uid_entry_in_group conn d a) eqn:Eg; [|destruct (IH H) as (x & ? & ?); eauto].
  rewrite Z.lor_spec in H. apply orb_true_iff in H as [H|H]; [destruct (IH H) as (x & ? & ?); eauto|].
  exists a. rewrite in_app_iff. cbn. auto.
Qed.

Lemma converted_user_bit als d : bit b d = true -> bit b (converted_user conn als d) = false.
Proof.
  unfold converted_user, bit. intros H. case_match; cbn; [by rewrite Z.testbit_0_l|].
  by rewrite testbit_clear, H, andb_false_r.
Qed.

Lemma converted_user_clear als d : from_origin d -> (forall a, In a als -> from_origin a) ->
  clear_for u b als -> named u d -> bit b (converted_user conn als d) = false.
Proof.
  intros Hd Hals Hc Hn. unfold converted_user, bit. case_match; cbn; [by rewrite Z.testbit_0_l|].
  rewrite testbit_clear. destruct (Z.testbit (allowed_by_groups conn d als) b) eqn:E; [|done].
  apply allowed_by_groups_bit in E as (a & Hin & Hu & Hg & Hb).
  rewrite knows in Hg; auto; [by rewrite (Hc a Hin Hg) in Hb|].
  unfold owner_is in Hu. by apply bool_decide_eq_false in Hu.
Qed.

Lemma converted_group_clear als g : clear_for u b als -> bit b (converted_group als g) = false.
Proof.
  intros Hc. unfold converted_group, bit, to_allow. cbn.
  destruct (allow_everyone als) as [e|] eqn:E; [|by rewrite Z.testbit_0_l].
  assert (He : In e als /\ owner_is WORLD_ACE e = true).
  { clear Hc. unfold allow_everyone in E. revert e E. induction als as [|a als IH] using rev_ind; [done|].
    intros e. rewrite foldl_app. cbn. rewrite in_app_iff. destruct (is_allow a && owner_is WORLD_ACE a) eqn:Ea.
    - intros [= <-]. apply andb_true_iff in Ea as [_ ?]. cbn. auto.
    - intros H. destruct (IH e H). auto. }
  destruct He as [Hin Ho]. rewrite testbit_clear. fold (bit b e). rewrite (Hc e Hin); [done|].
  unfold owner_is in Ho. apply bool_decide_eq_true in Ho. unfold applies. by rewrite Ho.
Qed.

(** The passes keep a list without the bit, and a list that names the user without it. *)
Lemma passes_clear als1 kept : (forall a, In a als1 -> from_origin a) -> (forall a, In a kept -> from_origin a) ->
  let gs := List.filter not_user kept in
  let us := map (converted_user conn als1) (List.filter (owner_is UID_ACE) kept) in
  clear_for u b als1 -> clear_for u b (mask_groups conn gs (als1 ++ us) ++ map (converted_group (als1 ++ us)) gs).
Proof.
  intros Ho Hk gs us Hc.
  assert (Hc' : clear_for u b (als1 ++ us)).
  { intros a [Ha|Ha]%in_app_iff Hap; [by apply Hc|]. apply in_map_iff in Ha as (d & <- & Hd).
    apply filter_In in Hd as [Hd Hu]. apply converted_user_clear; auto. unfold owner_is in Hu.
    apply bool_decide_eq_true in Hu. split; [done|]. rewrite (applies_who u _ _ (converted_user_who conn als1 d)) in Hap.
    unfold applies in Hap. rewrite Hu in Hap. by apply Z.eqb_eq. }
  intros f [Hf|Hf]%in_app_iff Hap.
  - destruct (Forall2_weaker_in _ _ _ (mask_groups_weaker conn gs _) Hf) as (x & Hx & Hw & _ & W).
    destruct (bit b f) eqn:E; [|done]. apply W in E. rewrite (Hc' x Hx) in E; [done|].
    by rewrite <- (applies_who u _ _ Hw).
  - apply in_map_iff in Hf as (g & <- & _). by apply converted_group_clear.
Qed.

Lemma passes_named gs als : Forall allow_entry als -> Forall group_entry gs -> (exists a, In a als /\ named u a) ->
  (forall f, In f (mask_groups conn gs als) -> named u f -> bit b f = false) ->
  named_without u b (mask_groups conn gs als ++ map (converted_group als) gs).
Proof.
  intros Ha Hg (a & Hin & Hn) Hb. split.
  - destruct (Forall2_weaker_in_r _ _ _ (mask_groups_weaker conn gs als) Hin) as (f & Hf & Hw & _).
    exists f. split; [apply in_app_iff; auto|]. eapply named_key; [|done]. symmetry. by apply same_who_key.
  - intros f [Hf|Hf]%in_app_iff Hnf; [by apply Hb|]. apply in_map_iff in Hf as (g & <- & Hgin).
    destruct Hnf as [Hu _]. cbn in Hu. rewrite Forall_forall in Hg.
    specialize (Hg g ltac:(by apply list_elem_of_In)). unfold group_entry in Hg. congruence.
Qed.

End Closed.

Section Lists_closed.
Context (conn : acl_conn) (u : posix_user) (b : Z) (ds als : list canon_ace).
Hypothesis denies : Forall deny_entry ds.
Hypothesis allows : Forall allow_entry als.
Hypothesis world_entries : forall a, In a (ds ++ als) -> everyone a = owner_is WORLD_ACE a.
Hypothesis knows_groups : forall a g, In a (ds ++ als) -> In g (ds ++ als) -> named u a -> ca_owner g <> UID_ACE ->
  uid_entry_in_group conn a g = applies u g.

(** No group, and not Everyone, is both denied and allowed. *)
Hypothesis one_sided : forall d a, In d ds -> In a als -> ca_owner d <> UID_ACE -> key a <> key d.

(** A user in a denied group has an entry. *)
Hypothesis denied_named : forall d, In d ds -> ca_owner d = GID_ACE -> applies u d = true ->
  exists e, In e (ds ++ als) /\ named u e /\ ca_perms e <> 0.

Section Stages.
Context (ds' als' als1 : list canon_ace).
Hypothesis merged : merge_facts ds als ds' als'.
Hypothesis weakened : Forall2 weaker als1 als'.
Hypothesis everyone_cleared : forall d c a', In d ds' -> everyone d = true -> bit c d = true -> In a' als1 -> bit c a' = false.

Let kept := List.filter keep ds'.
Let gs := List.filter not_user kept.
Let us := map (converted_user conn als1) (List.filter (owner_is UID_ACE) kept).

Lemma als1_origin a : In a als1 -> from_origin (ds ++ als) a.
Proof.
  intros Ha. destruct (Forall2_weaker_in _ _ _ weakened Ha) as (a' & Ha' & Hw & _).
  destruct (mg_allow_from _ _ _ _ merged a' Ha') as (a0 & Ha0 & Hw'). exists a0.
  split; [apply in_app_iff; auto|by eapply same_who_trans].
Qed.

Lemma deny_origin d : In d ds' -> from_origin (ds ++ als) d.
Proof.
  intros Hd. destruct (mg_deny_from _ _ _ _ merged d Hd) as (d0 & Hd0 & Hw). exists d0.
  split; [apply in_app_iff; auto|done].
Qed.

Lemma kept_origin d : In d kept -> from_origin (ds ++ als) d.
Proof. intros [Hd _]%filter_In. by apply deny_origin. Qed.

Lemma deny_kept d : In d ds' -> ca_perms d <> 0 -> ca_owner d <> WORLD_ACE -> In d kept.
Proof.
  intros Hd Hp Ho. apply filter_In. split; [done|]. unfold keep. apply andb_true_iff. split.
  - apply negb_true_iff. by apply Z.eqb_neq.
  - destruct (deny_origin d Hd) as (d0 & Hd0 & _ & Ht & Hoo & _). unfold everyone. rewrite Ht.
    fold (everyone d0). rewrite world_entries by done. unfold owner_is. rewrite <- Hoo.
    by rewrite bool_decide_eq_false_2.
Qed.

Lemma us_in d : In d ds' -> ca_perms d <> 0 -> named u d -> In (converted_user conn als1 d) us.
Proof.
  intros Hd Hp [Hu _]. apply in_map, filter_In. split; [apply deny_kept; congruence|].
  unfold owner_is. by rewrite Hu.
Qed.

Lemma gs_groups : Forall group_entry gs.
Proof.
  apply Forall_forall. intros x Hx%list_elem_of_In. apply filter_In in Hx as [Hx Hn].
  apply filter_In in Hx as [Hx Hk]. unfold keep in Hk. apply andb_true_iff in Hk as [_ Hk].
  destruct (deny_origin x Hx) as (d0 & Hd0 & _ & Ht & Hoo & _). unfold everyone in Hk. rewrite Ht in Hk.
  fold (everyone d0) in Hk. rewrite world_entries in Hk by done. unfold not_user, owner_is, group_entry in *.
  rewrite <- Hoo in Hk. by destruct (ca_owner x).
Qed.

Lemma us_allow : Forall allow_entry us.
Proof.
  apply Forall_forall. intros x Hx%list_elem_of_In. apply in_map_iff in Hx as (d & <- & _).
  unfold converted_user. by case_match.
Qed.

Lemma stages_allow : Forall allow_entry (als1 ++ us).
Proof.
  apply Forall_app. split; [|apply us_allow].
  eapply Forall2_weaker_allow; [exact weakened|exact (mg_allow _ _ _ _ merged)].
Qed.

Lemma stage_origin f : In f (mask_groups conn gs (als1 ++ us) ++ map (converted_group (als1 ++ us)) gs) ->
  from_origin (ds ++ als) f /\ allow_entry f.
Proof.
  intros [Hf|Hf]%in_app_iff.
  - destruct (Forall2_weaker_in _ _ _ (mask_groups_weaker conn gs _) Hf) as (x & Hx & Hw & Hat & _).
    pose proof stages_allow as Hal. rewrite Forall_forall in Hal.
    split; [|unfold allow_entry; rewrite Hat; by apply Hal, list_elem_of_In].
    assert (Hox : from_origin (ds ++ als) x).
    { apply in_app_iff in Hx as [Hx|Hx]; [by apply als1_origin|]. apply in_map_iff in Hx as (d & <- & Hd).
      apply filter_In in Hd as [Hd _]. destruct (kept_origin d Hd) as (d0 & ? & ?). exists d0. split; [done|].
      eapply same_who_trans; [apply converted_user_who|done]. }
    destruct Hox as (a0 & ? & ?). exists a0. split; [done|by eapply same_who_trans].
  - apply in_map_iff in Hf as (g & <- & Hg). apply filter_In in Hg as [Hg _].
    destruct (kept_origin g Hg) as (g0 & ? & ?). split; [|done]. by exists g0.
Qed.

(** No entry that allows has the bit. *)
Lemma stages_clear : clear_for u b als1 ->
  clear_for u b (mask_groups conn gs (als1 ++ us) ++ map (converted_group (als1 ++ us)) gs).
Proof.
  apply (passes_clear conn u b (ds ++ als) knows_groups als1 kept); [apply als1_origin|apply kept_origin].
Qed.

Lemma allows_clear : clear_for u b als -> clear_for u b als1.
Proof.
  intros Hc a Ha Hap. destruct (Forall2_weaker_in _ _ _ weakened Ha) as (a' & Ha' & Hw & _ & W).
  destruct (bit b a) eqn:E; [|done]. apply W in E.
  destruct (mg_bits _ _ _ _ merged b a' Ha' E) as (a0 & Ha0 & Hk & Hb).
  rewrite (Hc a0 Ha0) in Hb; [done|]. rewrite (applies_key u a0 a'), <- (applies_who u a a'); done.
Qed.

Lemma world_clear d : In d ds -> bit b d = true -> ca_owner d = WORLD_ACE -> clear_for u b als1.
Proof.
  intros Hd Hb Ho a Ha _. destruct (mg_none _ _ _ _ merged b d Hd Hb) as (d' & Hd' & Hk & Hb').
  { intros x Hx. apply one_sided; [done..|congruence]. }
  apply (everyone_cleared d'); try done. destruct (deny_origin d' Hd') as (d0 & Hd0 & _ & Ht & Hoo & _).
  unfold everyone. rewrite Ht. fold (everyone d0). rewrite world_entries by done. unfold owner_is.
  rewrite <- Hoo. injection Hk as _ ->. by rewrite Ho.
Qed.

(** A user with entries of its own stays named. *)
Lemma stages_named e : In e (ds ++ als) -> named u e -> ca_perms e <> 0 -> exists a, In a (als1 ++ us) /\ named u a.
Proof.
  intros He Hn Hp. destruct (mg_named _ _ _ _ merged e He Hp) as [(a' & Ha' & Hk)|(d' & Hd' & Hk & Hp')].
  - destruct (Forall2_weaker_in_r _ _ _ weakened Ha') as (a & Ha & Hw & _). exists a.
    split; [apply in_app_iff; auto|]. eapply named_key; [|exact Hn]. rewrite <- Hk. symmetry. by apply same_who_key.
  - assert (Hn' : named u d') by by apply (named_key u e d').
    exists (converted_user conn als1 d'). split; [apply in_app_iff; right; by apply us_in|].
    eapply named_key; [|exact Hn']. symmetry. apply same_who_key, converted_user_who.
Qed.

Lemma user_denied d : In d ds -> bit b d = true -> named u d ->
  named_without u b (mask_groups conn gs (als1 ++ us) ++ map (converted_group (als1 ++ us)) gs).
Proof.
  intros Hd Hb Hn. apply passes_named; [apply stages_allow|apply gs_groups| |].
  { apply (stages_named d); [apply in_app_iff; auto|done|by eapply bit_nonzero]. }
  intros f Hf Hnf. destruct (Forall2_weaker_in _ _ _ (mask_groups_weaker conn gs _) Hf) as (x & Hx & Hw & _ & W).
  destruct (bit b f) eqn:E; [|done]. apply W in E. clear W.
  assert (Hkx : key x = key d).
  { rewrite <- (same_who_key _ _ Hw). by eapply named_same. }
  apply in_app_iff in Hx as [Hx|Hx].
  - destruct (Forall2_weaker_in _ _ _ weakened Hx) as (a' & Ha' & Hw' & _ & W). apply W in E.
    rewrite (mg_denied _ _ _ _ merged b d a') in E; try done. by rewrite <- (same_who_key _ _ Hw').
  - apply in_map_iff in Hx as (d' & <- & Hd'). apply filter_In in Hd' as [[Hd' _]%filter_In _].
    rewrite converted_user_bit in E; [done|]. apply (mg_deny_bits _ _ _ _ merged b d d'); try done.
    by rewrite <- (same_who_key _ _ (converted_user_who conn als1 d')).
Qed.

Lemma group_denied d : In d ds -> bit b d = true -> ca_owner d = GID_ACE -> applies u d = true ->
  named_without u b (mask_groups conn gs (als1 ++ us) ++ map (converted_group (als1 ++ us)) gs).
Proof.
  intros Hd Hb Ho Hap. apply passes_named; [apply stages_allow|apply gs_groups| |].
  { destruct (denied_named d Hd Ho Hap) as (e & He & Hn & Hp). by eapply stages_named. }
  intros f Hf Hnf. destruct (mg_none _ _ _ _ merged b d Hd Hb) as (d' & Hd' & Hk & Hb').
  { intros x Hx. apply one_sided; [done..|congruence]. }
  assert (Ho' : ca_owner d' = GID_ACE) by (injection Hk as _ ->; done).
  apply (mask_groups_denied conn gs (als1 ++ us) d'); try done.
  - apply filter_In. split; [apply deny_kept; [done|by eapply bit_nonzero|congruence]|].
    unfold not_user, owner_is. by rewrite Ho'.
  - apply stages_allow.
  - unfold owner_is. by rewrite (proj1 Hnf).
  - rewrite (knows conn u (ds ++ als) knows_groups f d'); [by rewrite (applies_key u d' d)|..|done|congruence].
    + by apply stage_origin, in_app_iff; left.
    + by apply deny_origin.
Qed.

End Stages.

Lemma merged_world ds' als' a : merge_facts ds als ds' als' -> In a (ds' ++ als') -> everyone a = owner_is WORLD_ACE a.
Proof.
  intros M Ha. assert (Hor : from_origin (ds ++ als) a).
  { apply in_app_iff in Ha as [Ha|Ha]; [destruct (mg_deny_from _ _ _ _ M a Ha) as (x & ? & ?)|
      destruct (mg_allow_from _ _ _ _ M a Ha) as (x & ? & ?)]; exists x; (split; [apply in_app_iff; auto|done]). }
  destruct Hor as (x & Hx & _ & Ht & Ho & _). unfold everyone, owner_is. rewrite Ht, Ho. by apply world_entries.
Qed.

(** The two steps together. *)
Lemma process_merged l : process_deny_list conn (merge_aces (ds ++ als) false) = Some l ->
  exists ds' als', merge_facts ds als ds' als' /\
  (l = [] \/ exists als1, Forall2 weaker als1 als' /\
    (forall d b a', In d ds' -> everyone d = true -> bit b d = true -> In a' als1 -> bit b a' = false) /\
    let kept := List.filter keep ds' in
    let gs := List.filter not_user kept in
    let us := map (converted_user conn als1) (List.filter (owner_is UID_ACE) kept) in
    l = mask_groups conn gs (als1 ++ us) ++ map (converted_group (als1 ++ us)) gs).
Proof.
  destruct (merge_aces_facts ds als denies allows) as (ds' & als' & -> & M). intros H. exists ds', als'. split; [done|].
  apply process_deny_list_spec in H; [done|exact (mg_deny _ _ _ _ M)|exact (mg_allow _ _ _ _ M)|].
  intros a. by apply merged_world.
Qed.

Lemma lists_origin l f : process_deny_list conn (merge_aces (ds ++ als) false) = Some l -> In f l ->
  from_origin (ds ++ als) f /\ allow_entry f.
Proof.
  intros (ds' & als' & M & [->|(als1 & W & C & ->)])%process_merged; [done|]. by apply (stage_origin ds' als' als1 M W).
Qed.

(** What [process_deny_list] makes of the list does not give the user the bit. *)
Lemma lists_closed l : process_deny_list conn (merge_aces (ds ++ als) false) = Some l ->
  nt_grants u b (ds ++ als) = false -> clear_for u b l \/ named_without u b l.
Proof.
  intros (ds' & als' & M & [->|(als1 & W & C & ->)])%process_merged; [left; by intros ? []|].
  intros [(d & Hd & Hap & Hb)|Hc]%nt_grants_false; try done;
    [|left; apply (stages_clear ds' als' als1 M W); by apply (allows_clear ds' als' als1 M W)].
  destruct (ca_owner d) eqn:Ho.
  - right. eapply (user_denied ds' als' als1 M W); try done. split; [done|].
    unfold applies in Hap. rewrite Ho in Hap. by apply Z.eqb_eq.
  - right. by apply (group_denied ds' als' als1 M W d).
  - left. apply (stages_clear ds' als' als1 M W). by apply (world_clear ds' als' als1 M C d).
Qed.

End Lists_closed.

(** ** One entry a key *)

Lemma Forall2_weaker_keys l' l : Forall2 weaker l' l -> key <$> l' = key <$> l.
Proof. induction 1 as [|x y l' l Hw _ IH]; [done|]. cbn. by rewrite IH, (same_who_key x y (proj1 Hw)). Qed.

Lemma filter_complement (f : canon_ace -> bool) l : List.filter f l ++ List.filter (fun a => negb (f a)) l ≡ₚ l.
Proof.
  induction l as [|a l IH]; [done|]. cbn. destruct (f a); cbn; [by rewrite IH|].
  by rewrite <- Permutation_middle, IH.
Qed.

Lemma filter_keys (f : canon_ace -> bool) l l' : NoDup (key <$> l ++ l') -> NoDup (key <$> List.filter f l ++ l').
Proof.
  induction l as [|a l IH]; cbn; [done|]. intros [Hni Hn]%NoDup_cons. destruct (f a); cbn; [|by apply IH].
  constructor; [|by apply IH]. intros Hin. apply Hni. apply list_elem_of_fmap in Hin as (x & Hk & Hx).
  apply list_elem_of_fmap. exists x. split; [done|]. apply list_elem_of_In, in_app_iff in Hx as [Hx|Hx];
    apply list_elem_of_In, in_app_iff; [left; by apply filter_In in Hx as [? _]|by right].
Qed.

Lemma lists_nodup conn ds als l : Forall deny_entry ds -> Forall allow_entry als ->
  (forall a, In a (ds ++ als) -> everyone a = owner_is WORLD_ACE a) ->
  process_deny_list conn (merge_aces (ds ++ als) false) = Some l -> NoDup (key <$> l).
Proof.
  intros Hd Ha Hw H. apply (process_merged conn ds als Hd Ha Hw) in H as (ds' & als' & M & [->|(als1 & W & _ & ->)]);
    [constructor|].
  set (kept := List.filter keep ds').
  pose proof (filter_keys keep ds' als' (mg_nodup _ _ _ _ M)) as Hn. fold kept in Hn.
  rewrite !fmap_app, (Forall2_weaker_keys _ _ (mask_groups_weaker _ _ _)), fmap_app, (Forall2_weaker_keys _ _ W).
  assert (E1 : key <$> map (converted_user conn als1) (List.filter (owner_is UID_ACE) kept) =
               key <$> List.filter (owner_is UID_ACE) kept).
  { induction (List.filter _ kept) as [|x k IH]; [done|]. cbn. f_equal; [|exact IH].
    apply same_who_key, converted_user_who. }
  assert (E2 : forall e, key <$> map (converted_group e) (List.filter not_user kept) = key <$> List.filter not_user kept).
  { intros e. induction (List.filter not_user kept) as [|x k IH]; [done|]. cbn. by f_equal. }
  rewrite E1, E2, <- app_assoc, <- (fmap_app key (List.filter (owner_is UID_ACE) kept)).
  change (List.filter not_user kept) with (List.filter (fun a => negb (owner_is UID_ACE a)) kept).
  rewrite (filter_complement (owner_is UID_ACE) kept), Permutation_app_comm, <- fmap_app. done.
Qed.
