(* ===== verification/PosixAclClosed.v ===== *)
(** * The POSIX ACL of an NT ACL grants no more

    From the DACL that a client sends to the ACL that the file system gets
    (source3/smbd/posix_acls.c): the rules by which both are evaluated, and that
    the second grants a user nothing that the first does not. The limits of this
    are lists that the code gets wrong, given at the end. *)

From S2P Require Import Prelude.
From S2P Require Import DomSid.
From S2P Require Import SecModel.
From S2P Require Import SecDesc.
From S2P Require Import SecInherit.
From S2P Require Import FileAccess.
From S2P Require Import PosixAcl.
From S2P Require Import PosixAclProps.
From stdpp Require Import prelude list.

#[local] Open Scope Z_scope.

(** ** The POSIX rule *)

Definition entry_tag_is (t : smb_acl_tag) (e : smb_acl_entry) : bool := bool_decide (a_type e = t).

Definition has_perm (p : Z) (e : smb_acl_entry) : bool := Z.testbit (a_perm e) p.

(** The access check of POSIX 1003.1e: the owner's entry, else the entry that
    names the user, else the entries of the user's groups, else that of others;
    the mask limits the second and the third. *)
Definition posix_access (pst : file_stat) (u : posix_user) (p : Z) (acl : list smb_acl_entry) : bool :=
  let masked e :=
    has_perm p e && match List.find (entry_tag_is SMB_ACL_MASK) acl with
                    | Some m => has_perm p m
                    | None => true
                    end in
  if pu_uid u =? st_uid pst then existsb (fun e => entry_tag_is SMB_ACL_USER_OBJ e && has_perm p e) acl
  else
    match List.find (fun e => entry_tag_is SMB_ACL_USER e && (a_qualifier e =? pu_uid u)) acl with
    | Some e => masked e
    | None =>
        match List.filter (fun e => entry_tag_is SMB_ACL_GROUP_OBJ e && in_groups u (st_gid pst) ||
                                    entry_tag_is SMB_ACL_GROUP e && in_groups u (a_qualifier e)) acl with
        | [] => existsb (fun e => entry_tag_is SMB_ACL_OTHER e && has_perm p e) acl
        | gs => existsb masked gs
        end
    end.

(** The entries that can count for a user who is not the owner. *)
Definition counts (pst : file_stat) (u : posix_user) (a : canon_ace) : bool :=
  match ca_type a with
  | SMB_ACL_USER => ca_id a =? pu_uid u
  | SMB_ACL_GROUP_OBJ => in_groups u (st_gid pst)
  | SMB_ACL_GROUP => in_groups u (ca_id a)
  | SMB_ACL_OTHER => true
  | _ => false
  end.

Definition mode_bit (b : Z) : Prop := b = 6 \/ b = 7 \/ b = 8.

Lemma permset_bit m b : mode_bit b -> Z.testbit (map_acl_perms_to_permset m) (b - 6) = Z.testbit m b.
Proof.
  intros Hb. unfold map_acl_perms_to_permset.
  change S_IRUSR with (Z.shiftl 1 8). change S_IWUSR with (Z.shiftl 1 7). change S_IXUSR with (Z.shiftl 1 6).
  rewrite !bit_of_word by lia.
  destruct Hb as [->|[->| ->]]; destruct (Z.testbit m 8), (Z.testbit m 7), (Z.testbit m 6); done.
Qed.

Lemma posix_acl_entry l e : In e (posix_acl_of l) ->
  (exists a, In a l /\ e = posix_entry a) \/ a_type e = SMB_ACL_MASK.
Proof.
  unfold posix_acl_of. intros [H|H]%in_app_iff.
  - apply in_map_iff in H as (a & <- & ?). left. eauto.
  - destruct (_ && _); [|done]. destruct H as [<-|[]]. by right.
Qed.

(** Whoever has access has it from an entry, and from the user's own if there is one. *)
Lemma posix_access_entry pst u b l : mode_bit b -> pu_uid u <> st_uid pst ->
  posix_access pst u (b - 6) (posix_acl_of l) = true ->
  exists a, In a l /\ counts pst u a = true /\ bit b a = true /\
    ((exists a', In a' l /\ ca_type a' = SMB_ACL_USER /\ ca_id a' = pu_uid u) -> ca_type a = SMB_ACL_USER).
Proof.
  intros Hb Ho. unfold posix_access. rewrite (proj2 (Z.eqb_neq _ _) Ho).
  assert (Hbit : forall a, has_perm (b - 6) (posix_entry a) = bit b a).
  { intros a. unfold has_perm, bit. cbn. by apply permset_bit. }
  destruct (List.find _ (posix_acl_of l)) as [e|] eqn:E.
  - apply find_some in E as [Hin [Ht Hq]%andb_true_iff]. intros [Hp _]%andb_true_iff.
    unfold entry_tag_is in Ht. apply bool_decide_eq_true in Ht. apply posix_acl_entry in Hin as [(a & Ha & ->)|?]; [|congruence].
    exists a. cbn in Ht, Hq. unfold tag_is in Hq. rewrite Ht in Hq. rewrite Hbit in Hp. unfold counts. by rewrite Ht.
  - intros H. assert (Hno : ~ exists a', In a' l /\ ca_type a' = SMB_ACL_USER /\ ca_id a' = pu_uid u).
    { intros (a & Ha & Ht & Hi). assert (Hin : In (posix_entry a) (posix_acl_of l))
        by (apply in_app_iff; left; by apply (in_map posix_entry)).
      pose proof (find_none _ _ E (posix_entry a) Hin) as Hf. unfold entry_tag_is, posix_entry, tag_is in Hf. cbn in Hf.
      rewrite Ht in Hf. cbn in Hf. by rewrite Hi, Z.eqb_refl in Hf. }
    assert (Hx : exists e, In e (posix_acl_of l) /\ has_perm (b - 6) e = true /\
      (a_type e = SMB_ACL_GROUP_OBJ /\ in_groups u (st_gid pst) = true \/
       a_type e = SMB_ACL_GROUP /\ in_groups u (a_qualifier e) = true \/ a_type e = SMB_ACL_OTHER)).
    { destruct (List.filter _ (posix_acl_of l)) as [|g gs] eqn:Eg.
      - apply existsb_exists in H as (e & ? & [Ht ?]%andb_true_iff). exists e. unfold entry_tag_is in Ht.
        apply bool_decide_eq_true in Ht. auto.
      - apply existsb_exists in H as (e & He & [Hp _]%andb_true_iff). rewrite <- Eg in He.
        apply filter_In in He as [He Ht]. exists e. split; [done|]. split; [done|]. unfold entry_tag_is in Ht.
        apply orb_true_iff in Ht as [[Ht ?]%andb_true_iff|[Ht ?]%andb_true_iff]; apply bool_decide_eq_true in Ht; auto. }
    destruct Hx as (e & Hin & Hp & Ht). apply posix_acl_entry in Hin as [(a & Ha & ->)|Hm].
    2: { destruct Ht as [[? _]|[[? _]|?]]; congruence. }
    exists a. rewrite Hbit in Hp. split_and!; try done. unfold counts. cbn in Ht. unfold tag_is in Ht.
    destruct Ht as [[-> ?]|[[Ht Hg]| ->]]; try done. rewrite Ht in *. by cbn in Hg.
Qed.

(** ** The entries that are added *)

Lemma last_of_some t l a : last_of t l = Some a -> In a l /\ ca_type a = t.
Proof.
  unfold last_of. revert a. induction l as [|x l IH] using rev_ind; [done|]. intros a. rewrite foldl_app. cbn.
  rewrite in_app_iff. destruct (tag_is t x) eqn:E.
  - intros [= <-]. unfold tag_is in E. apply bool_decide_eq_true in E. cbn. auto.
  - intros H. destruct (IH a H). auto.
Qed.

Lemma last_of_none t l a : last_of t l = None -> In a l -> ca_type a <> t.
Proof.
  unfold last_of. induction l as [|x l IH] using rev_ind; [done|]. rewrite foldl_app. cbn.
  destruct (tag_is t x) eqn:E; [done|]. intros H [Hin|[<-|[]]]%in_app_iff; [by apply IH|].
  unfold tag_is in E. by apply bool_decide_eq_false in E.
Qed.

(** Where an entry of the list that is set comes from. *)
Definition set_from (pst : file_stat) (l : list canon_ace) (r : canon_ace) : Prop :=
  (exists f, In f l /\ same_who r f /\ (ca_type f <> SMB_ACL_USER_OBJ -> forall b, bit b r = true -> bit b f = true)) \/
  (ca_type r = SMB_ACL_USER_OBJ /\ ca_id r = st_uid pst) \/
  (ca_type r = SMB_ACL_USER /\ ca_id r = st_uid pst) \/
  ((ca_type r = SMB_ACL_GROUP_OBJ \/ ca_type r = SMB_ACL_GROUP) /\ ca_id r = st_gid pst /\
   forall b, bit b r = true ->
     exists f, In f l /\ (ca_type f = SMB_ACL_GROUP_OBJ \/
       ca_type f = SMB_ACL_OTHER /\ forall x, In x l -> ca_type x <> SMB_ACL_GROUP_OBJ) /\ bit b f = true) \/
  (ca_type r = SMB_ACL_OTHER /\ ca_perms r = 0).

Lemma trimmed_who is_dir a : same_who (trimmed is_dir a) a /\ ca_attr (trimmed is_dir a) = ca_attr a.
Proof. unfold trimmed, ensure_minimal_owner_ace_perms. by repeat case_match. Qed.

Lemma trimmed_bits is_dir a b : ca_type a <> SMB_ACL_USER_OBJ -> bit b (trimmed is_dir a) = true -> bit b a = true.
Proof.
  intros Ht. unfold trimmed, tag_is. cbn. rewrite bool_decide_eq_false_2 by done. unfold bit. cbn.
  rewrite Z.land_spec. by intros [? _]%andb_true_iff.
Qed.

Lemma trimmed_keeps is_dir a b : mode_bit b -> bit b a = true -> bit b (trimmed is_dir a) = true.
Proof.
  intros Hb Ha. assert (Ht : bit b (trim_ace_perms a) = true).
  { unfold bit in *. cbn. rewrite Z.land_spec, Ha. by destruct Hb as [->|[->| ->]]. }
  unfold trimmed, ensure_minimal_owner_ace_perms. unfold bit in *.
  repeat case_match; cbn; rewrite ?Z.lor_spec; cbn in Ht; by rewrite ?Ht.
Qed.

Lemma trimmed_from pst is_dir l a : In a (map (trimmed is_dir) l) -> set_from pst l a.
Proof.
  intros (f & <- & Hf)%in_map_iff. left. exists f. split; [done|]. split; [apply trimmed_who|].
  intros Ht b. by apply trimmed_bits.
Qed.

(** The entries of owner and group have the ids of the file. *)
Definition obj_ids (pst : file_stat) (l : list canon_ace) : Prop :=
  forall a, In a l -> (ca_type a = SMB_ACL_USER_OBJ -> ca_id a = st_uid pst) /\
                      (ca_type a = SMB_ACL_GROUP_OBJ -> ca_id a = st_gid pst).

Lemma with_owner_spec conn is_dir owner pst l o user l' : with_owner conn is_dir owner pst l o = (user, l') ->
  obj_ids pst l ->
  ca_type user = SMB_ACL_USER_OBJ /\ ca_id user = st_uid pst /\ In user l' /\
  (forall a, In a l -> In a l') /\ (forall a, In a l' -> In a l \/ a = user).
Proof.
  unfold with_owner. destruct (last_of SMB_ACL_USER_OBJ l) as [x|] eqn:E; intros [= <- <-] Ho.
  - apply last_of_some in E as [Hx Ht]. split_and!; try done; [by apply Ho|auto].
  - unfold ensure_minimal_owner_ace_perms. destruct is_dir; split_and!; cbn; auto; intros a [<-|?]; auto.
Qed.

Lemma with_group_spec grp pst l o group l' : with_group grp pst l o = (group, l') -> obj_ids pst l ->
  ca_type group = SMB_ACL_GROUP_OBJ /\ ca_id group = st_gid pst /\ In group l' /\
  (forall a, In a l -> In a l') /\ (forall a, In a l' -> In a l \/ a = group) /\
  (In group l \/ (ca_perms group = match o with Some o => ca_perms o | None => 0 end /\
                  forall x, In x l -> ca_type x <> SMB_ACL_GROUP_OBJ)).
Proof.
  unfold with_group. destruct (last_of SMB_ACL_GROUP_OBJ l) as [x|] eqn:E; intros [= <- <-] Ho.
  - apply last_of_some in E as [Hx Ht]. split_and!; try done; [by apply Ho|auto|auto].
  - split_and!; cbn; auto; [intros a [<-|?]; auto|]. right. split; [done|]. intros x. by apply last_of_none.
Qed.

Lemma with_duplicates_spec user group l a : In a (with_duplicates user group l) ->
  In a l \/ a = duplicate_user user \/ a = duplicate_group group.
Proof.
  unfold with_duplicates. destruct (find_duplicates user group l) as [du dg].
  repeat case_match; cbn; intuition.
Qed.

Lemma with_duplicates_in user group l a : In a l -> In a (with_duplicates user group l).
Proof.
  unfold with_duplicates. destruct (find_duplicates user group l) as [du dg].
  repeat case_match; cbn; intuition.
Qed.

Lemma obj_ids_trimmed pst is_dir l : obj_ids pst l -> obj_ids pst (map (trimmed is_dir) l).
Proof.
  intros H a (f & <- & Hf)%in_map_iff. destruct (trimmed_who is_dir f) as [(-> & _ & _ & ->) _]. by apply H.
Qed.

Lemma with_other_spec l o a : In a (with_other l o) ->
  In a l \/ ca_type a = SMB_ACL_OTHER /\ ca_perms a = 0.
Proof. unfold with_other. destruct o; [by left|]. cbn. intros [<-|?]; auto. Qed.

Lemma with_other_in l o a : In a l -> In a (with_other l o).
Proof. unfold with_other. destruct o; cbn; auto. Qed.

(** Every entry that is set has a source, and every entry of the list is set. *)
Lemma ensure_spec conn is_dir owner grp pst l : obj_ids pst l ->
  (forall r, In r (ensure_canon_entry_valid_on_set conn is_dir owner grp pst l) -> set_from pst l r) /\
  (forall f, In f l -> exists r, In r (ensure_canon_entry_valid_on_set conn is_dir owner grp pst l) /\ same_who r f /\
     forall b, mode_bit b -> bit b f = true -> bit b r = true).
Proof.
  intros Ho%(obj_ids_trimmed pst is_dir). unfold ensure_canon_entry_valid_on_set.
  pose proof (trimmed_from pst is_dir l) as Hfrom. set (t := map (trimmed is_dir) l) in *.
  set (o := last_of SMB_ACL_OTHER t). destruct (with_owner _ _ _ _ t o) as [user l1] eqn:E1.
  apply with_owner_spec in E1 as (U1 & U2 & U3 & U4 & U5); [|done].
  assert (Ho1 : obj_ids pst l1).
  { intros a Ha. apply U5 in Ha as [Ha| ->]; [by apply Ho|]. rewrite U1. done. }
  destruct (with_group grp pst l1 o) as [group l2] eqn:E2.
  apply with_group_spec in E2 as (G1 & G2 & G3 & G4 & G5 & G6); [|done].
  assert (Hg : forall b, bit b group = true ->
     exists f, In f l /\ (ca_type f = SMB_ACL_GROUP_OBJ \/
       ca_type f = SMB_ACL_OTHER /\ forall x, In x l -> ca_type x <> SMB_ACL_GROUP_OBJ) /\ bit b f = true).
  { intros b Hb. destruct G6 as [Hin|[Hp Hnog]].
    - apply U5 in Hin as [Hin| ->]; [|congruence]. apply in_map_iff in Hin as (f & <- & Hf).
      destruct (trimmed_who is_dir f) as [(Ht & _) _]. rewrite Ht in G1. exists f. split_and!; auto.
      apply trimmed_bits in Hb; [done|congruence].
    - unfold bit in Hb. rewrite Hp in Hb. destruct o as [x|] eqn:Eo; [|by rewrite Z.testbit_0_l in Hb].
      apply last_of_some in Eo as [Hin Ht]. apply in_map_iff in Hin as (f & <- & Hf).
      destruct (trimmed_who is_dir f) as [(Htf & _) _]. rewrite Htf in Ht. exists f. split; [done|].
      split; [right; split; [done|]|apply trimmed_bits in Hb; [done|congruence]].
      intros x Hx. rewrite <- (proj1 (proj1 (trimmed_who is_dir x))). apply Hnog, U4. by apply in_map. }
  split.
  - intros r Hr. apply with_duplicates_spec in Hr as [Hr|[->| ->]].
    + apply with_other_spec in Hr as [Hr|Hr]; [|by right; right; right; right].
      apply G5 in Hr as [Hr| ->]; [apply U5 in Hr as [Hr| ->]|]; [by apply Hfrom|by right; left|].
      right; right; right; left. auto.
    + right; right; left. done.
    + right; right; right; left. cbn. auto.
  - intros f Hf. exists (trimmed is_dir f). split; [|split; [apply trimmed_who|apply trimmed_keeps]].
    apply with_duplicates_in, with_other_in, G4, U4. by apply in_map.
Qed.

(** ** Lists with the types that the ids give *)

Definition typed (pst : file_stat) (a : canon_ace) : Prop :=
  ca_type a = match ca_owner a with
              | UID_ACE => user_tag pst (ca_id a)
              | GID_ACE => group_tag pst (ca_id a)
              | WORLD_ACE => SMB_ACL_OTHER
              end.

Lemma typed_cases pst a : typed pst a ->
  match ca_type a with
  | SMB_ACL_USER_OBJ => ca_owner a = UID_ACE /\ ca_id a = st_uid pst
  | SMB_ACL_USER => ca_owner a = UID_ACE /\ ca_id a <> st_uid pst
  | SMB_ACL_GROUP_OBJ => ca_owner a = GID_ACE /\ ca_id a = st_gid pst
  | SMB_ACL_GROUP => ca_owner a = GID_ACE /\ ca_id a <> st_gid pst
  | SMB_ACL_OTHER => ca_owner a = WORLD_ACE
  | SMB_ACL_MASK => False
  end.
Proof.
  unfold typed, user_tag, group_tag. destruct (ca_owner a); [| |by intros ->].
  - destruct (Z.eqb_spec (ca_id a) (st_uid pst)) as [E|E]; by intros ->.
  - destruct (Z.eqb_spec (ca_id a) (st_gid pst)) as [E|E]; by intros ->.
Qed.

Lemma typed_obj_ids pst l : Forall (typed pst) l -> obj_ids pst l.
Proof.
  intros H a Ha. rewrite Forall_forall in H. specialize (H a ltac:(by apply list_elem_of_In)).
  apply typed_cases in H. split; intros E; rewrite E in H; tauto.
Qed.

Lemma typed_who pst a a' : same_who a a' -> typed pst a' -> typed pst a.
Proof. intros (H1 & _ & H2 & H3). unfold typed. by rewrite H1, H2, H3. Qed.

Lemma counts_applies pst u a : typed pst a -> counts pst u a = true -> applies u a = true.
Proof.
  intros H%typed_cases. unfold counts, applies. destruct (ca_type a); try done.
  all: repeat match goal with H : _ /\ _ |- _ => destruct H | H : ca_owner _ = _ |- _ => rewrite H end; try done.
  by rewrite <- H0.
Qed.

Lemma set_list_closed conn is_dir owner grp pst u b l : mode_bit b -> pu_uid u <> st_uid pst ->
  Forall (typed pst) l -> clear_for u b l \/ named_without u b l ->
  posix_access pst u (b - 6) (posix_acl_of (ensure_canon_entry_valid_on_set conn is_dir owner grp pst l)) = false.
Proof.
  intros Hb Hu Ht Hc. destruct (ensure_spec conn is_dir owner grp pst l) as [Hfrom Hall]; [by apply typed_obj_ids|].
  assert (Hty : forall f, In f l -> typed pst f).
  { rewrite Forall_forall in Ht. intros f Hf. by apply Ht, list_elem_of_In. }
  apply not_true_is_false. intros H. apply posix_access_entry in H as (r & Hr & Hco & Hbr & Hown); try done.
  specialize (Hfrom r Hr). destruct Hc as [Hc|[(e & He & Hn) Hc]].
  - destruct Hfrom as [(f & Hf & Hw & W)|[[E _]|[[E Ei]|[[E [Ei Hg]]|[_ E]]]]].
    + assert (Hcf : counts pst u f = true)
        by (unfold counts in *; by rewrite <- (proj1 Hw), <- (proj2 (proj2 (proj2 Hw)))).
      assert (Hno : ca_type f <> SMB_ACL_USER_OBJ) by (intros E; unfold counts in Hcf; by rewrite E in Hcf).
      specialize (W Hno b Hbr). rewrite (Hc f Hf) in W; [done|]. by eapply counts_applies; [apply Hty|].
    + unfold counts in Hco. by rewrite E in Hco.
    + unfold counts in Hco. rewrite E, Ei in Hco. apply Z.eqb_eq in Hco. congruence.
    + assert (Hin : in_groups u (st_gid pst) = true) by (unfold counts in Hco; by destruct E as [E|E]; rewrite E, ?Ei in Hco).
      destruct (Hg b Hbr) as (f & Hf & Htf & Hbf). rewrite (Hc f Hf) in Hbf; [done|].
      apply (counts_applies pst); [by apply Hty|]. unfold counts. by destruct Htf as [-> | [-> _]].
    + unfold bit in Hbr. by rewrite E, Z.testbit_0_l in Hbr.
  - assert (Hte : ca_type e = SMB_ACL_USER).
    { rewrite (Hty e He). destruct Hn as [-> ->]. unfold user_tag. by rewrite (proj2 (Z.eqb_neq _ _) Hu). }
    destruct (Hall e He) as (r' & Hr' & Hw' & _). assert (Etr : ca_type r = SMB_ACL_USER).
    { apply Hown. exists r'. destruct Hw' as (-> & _ & _ & ->). destruct Hn. done. }
    unfold counts in Hco. rewrite Etr in Hco. apply Z.eqb_eq in Hco.
    destruct Hfrom as [(f & Hf & Hw & W)|[[E _]|[[E Ei]|[[[E|E] _]|[E _]]]]]; try congruence.
    destruct Hw as (W1 & _ & _ & W4). pose proof (typed_cases _ _ (Hty f Hf)) as Hcase.
    rewrite <- W1, Etr in Hcase. destruct Hcase as [Hou _].
    specialize (W ltac:(congruence) b Hbr). rewrite (Hc f Hf) in W; [done|]. split; congruence.
Qed.

(** ** The NT rule on the DACL *)

Definition ace_active (psa : security_ace) : bool := negb (has_bits (ace_flags psa) SEC_ACE_FLAG_INHERIT_ONLY).

Definition ace_world (psa : security_ace) : bool := dom_sid_equal (Some (trustee psa)) (Some global_sid_World).

(** The user and the group that an entry names. *)
Definition ace_id (conn : acl_conn) (psa : security_ace) : option (id_type * Z) :=
  if ace_world psa || dom_sid_equal (Some (trustee psa)) (Some global_sid_Creator_Owner) ||
     dom_sid_equal (Some (trustee psa)) (Some global_sid_Creator_Group)
  then None else map_sid conn (trustee psa).

Definition ace_user (conn : acl_conn) (psa : security_ace) : option Z :=
  match ace_id conn psa with
  | Some (ID_TYPE_UID, id) | Some (ID_TYPE_BOTH, id) => Some id
  | _ => None
  end.

Definition ace_group (conn : acl_conn) (psa : security_ace) : option Z :=
  match ace_id conn psa with
  | Some (ID_TYPE_GID, id) | Some (ID_TYPE_BOTH, id) => Some id
  | _ => None
  end.

Definition ace_applies (conn : acl_conn) (u : posix_user) (psa : security_ace) : bool :=
  ace_active psa &&
  (ace_world psa || bool_decide (ace_user conn psa = Some (pu_uid u)) ||
   match ace_group conn psa with Some g => in_groups u g | None => false end).

Definition ace_has (b : Z) (psa : security_ace) : bool := Z.testbit (map_nt_perms (access_mask psa)) b.

Definition ace_allows (psa : security_ace) : bool := bool_decide (ace_type psa = SEC_ACE_TYPE_ACCESS_ALLOWED).

(** The first entry that applies and has a right of the kind decides. *)
Fixpoint dacl_grants (conn : acl_conn) (u : posix_user) (b : Z) (l : list security_ace) : bool :=
  match l with
  | [] => false
  | psa :: l => if ace_applies conn u psa && ace_has b psa then ace_allows psa else dacl_grants conn u b l
  end.

(** ** The entries of one NT entry *)

(** [e] is an entry of the file list for [psa]. *)
Definition entry_of (conn : acl_conn) (pst : file_stat) (psa : security_ace) (e : canon_ace) : Prop :=
  typed pst e /\ everyone e = owner_is WORLD_ACE e /\ ca_trustee e = trustee psa /\
  ca_perms e = map_nt_perms (access_mask psa) /\
  ca_attr e = (if ace_allows psa then ALLOW_ACE else DENY_ACE) /\ ace_active psa = true /\
  match ca_owner e with
  | UID_ACE => ace_user conn psa = Some (ca_id e)
  | GID_ACE => ace_group conn psa = Some (ca_id e)
  | WORLD_ACE => ace_world psa = true /\ ca_id e = NO_ID
  end.

(** All entries of [psa]. *)
Definition entries_of (conn : acl_conn) (pst : file_stat) (psa : security_ace) (es : list canon_ace) : Prop :=
  Forall (entry_of conn pst psa) es /\
  (ace_active psa = true ->
   (ace_world psa = true -> exists e, In e es /\ ca_owner e = WORLD_ACE) /\
   (forall id, ace_user conn psa = Some id -> exists e, In e es /\ ca_owner e = UID_ACE /\ ca_id e = id) /\
   (forall id, ace_group conn psa = Some id -> exists e, In e es /\ ca_owner e = GID_ACE /\ ca_id e = id)).

(** A file list: deny entries first; allow entries only if one was seen. *)
Definition denies_first (st : canon_lists) : Prop :=
  exists ds als, file_ace st = ds ++ als /\ Forall deny_entry ds /\ Forall allow_entry als /\
                 (got_file_allow st = false -> als = []).

Lemma add_dir_ace_file st a st' : add_dir_ace st a = Some st' ->
  file_ace st' = file_ace st /\ got_file_allow st' = got_file_allow st.
Proof. unfold add_dir_ace. case_match; [done|]. by intros [= <-]. Qed.

Lemma add_file_ace_spec st a st' : add_file_ace st a = Some st' -> denies_first st ->
  file_ace st' = file_ace st ++ [a] /\ denies_first st'.
Proof.
  unfold add_file_ace. destruct (is_deny a && (got_file_allow st || is_allow a)) eqn:E; [done|].
  intros [= <-] (ds & als & Hl & Hd & Ha & Hg). split; [done|]. unfold denies_first. cbn. rewrite Hl.
  destruct (ca_attr a) eqn:Ea.
  - exists ds, (als ++ [a]). rewrite <- app_assoc. split_and!; try done.
    + apply Forall_app. by split; [|constructor].
    + by rewrite (allow_is_allow a Ea), orb_true_r.
  - rewrite (deny_is_deny a Ea), (deny_not_allow a Ea), orb_false_r in *. cbn in E. rewrite (Hg E).
    exists (ds ++ [a]), []. rewrite !app_nil_r. split_and!; try done. apply Forall_app. by split; [|constructor].
Qed.

(** The entry as it is added, up to its flags. *)
Definition filled (psa : security_ace) (a : canon_ace) : canon_ace :=
  Canon_ace (ca_type a) (Z.lor (ca_perms a) (map_nt_perms (access_mask psa))) (ca_trustee a) (ca_owner a)
    (if ace_allows psa then ALLOW_ACE else DENY_ACE) (ca_id a) (ace_flags psa).

Lemma add_current_spec is_dir psa st a st' : add_current_ace_to_acl is_dir psa st a = Some st' -> denies_first st ->
  denies_first st' /\
  (if ace_active psa then exists f, file_ace st' = file_ace st ++ [set_ca_flags (filled psa a) f]
   else file_ace st' = file_ace st).
Proof.
  unfold add_current_ace_to_acl. fold (ace_allows psa). fold (filled psa a). unfold ace_active.
  destruct (has_bits (ace_flags psa) SEC_ACE_FLAG_INHERIT_ONLY); cbn [negb]; intros H Hd.
  - destruct (is_dir && _); [|by simplify_eq]. destruct (add_dir_ace _ _) as [st1|] eqn:E; [|done]. cbn in H.
    injection H as <-. apply add_dir_ace_file in E as [E1 E2]. split; [|done].
    unfold denies_first in *. by rewrite E1, E2.
  - destruct (is_dir && _).
    + destruct (add_dir_ace _ _) as [st1|] eqn:E; [|done]. cbn in H. apply add_dir_ace_file in E as [E1 E2].
      apply add_file_ace_spec in H as [H1 H2]; [|unfold denies_first in *; by rewrite E1, E2].
      split; [done|]. rewrite H1, E1. eauto.
    + apply add_file_ace_spec in H as [H1 H2]; [|done]. split; [done|]. rewrite H1. by exists (ace_flags psa).
Qed.

Definition who_ok (conn : acl_conn) (psa : security_ace) (o : ace_owner) (id : Z) : Prop :=
  match o with
  | UID_ACE => ace_world psa = false /\ ace_user conn psa = Some id
  | GID_ACE => ace_world psa = false /\ ace_group conn psa = Some id
  | WORLD_ACE => ace_world psa = true /\ id = NO_ID
  end.

Definition owner_tag (pst : file_stat) (o : ace_owner) (id : Z) : smb_acl_tag :=
  match o with UID_ACE => user_tag pst id | GID_ACE => group_tag pst id | WORLD_ACE => SMB_ACL_OTHER end.

(** Adding one entry. *)
Lemma add_one_spec conn is_dir pst psa o id st st' :
  add_current_ace_to_acl is_dir psa st (new_canon_ace (owner_tag pst o id) (trustee psa) o id) = Some st' ->
  denies_first st -> who_ok conn psa o id ->
  denies_first st' /\ exists es, file_ace st' = file_ace st ++ es /\ Forall (entry_of conn pst psa) es /\
    (ace_active psa = true -> exists e, In e es /\ ca_owner e = o /\ ca_id e = id).
Proof.
  intros H Hd Hw. apply add_current_spec in H as [H1 H2]; [|done]. split; [done|].
  destruct (ace_active psa) eqn:Ea; [|exists []; by rewrite app_nil_r].
  destruct H2 as [f ->]. eexists. split; [done|]. split; [|intros _; eexists; split; [by left|done]].
  constructor; [|done]. unfold entry_of, everyone, owner_is. cbn. fold (ace_world psa).
  unfold typed, who_ok in *. split_and!; try done; destruct o; cbn; try tauto; done.
Qed.

Lemma ace_active_inherit_only psa :
  ace_active (set_flags psa (Z.lor (ace_flags psa) SEC_ACE_FLAG_INHERIT_ONLY)) = false.
Proof. unfold ace_active. cbn. rewrite has_bits_or, orb_true_r. done. Qed.

Lemma entries_of_nil conn pst psa : ace_world psa = false -> ace_user conn psa = None -> ace_group conn psa = None ->
  entries_of conn pst psa [].
Proof. intros H1 H2 H3. split; [done|]. intros _. rewrite H1, H2, H3. done. Qed.

Lemma entries_of_inactive conn pst psa : ace_active psa = false -> entries_of conn pst psa [].
Proof. intros H. split; [done|]. by rewrite H. Qed.

(** One turn of the loop adds the entries of its NT entry. *)
Lemma add_nt_ace_spec conn is_dir pst st psa st' : add_nt_ace conn is_dir pst st psa = Some st' -> denies_first st ->
  denies_first st' /\ exists es, file_ace st' = file_ace st ++ es /\ entries_of conn pst psa es.
Proof.
  unfold add_nt_ace. fold (ace_world psa). intros H Hd.
  pose proof (ace_active_inherit_only psa) as Hio. set (io := set_flags psa _) in *.
  destruct (ace_world psa) eqn:Ew.
  { apply (add_one_spec conn is_dir pst psa WORLD_ACE) in H as (H1 & es & H2 & H3 & H4); [|done..].
    split; [done|]. exists es. split; [done|]. split; [done|]. intros Ha.
    assert (ace_id conn psa = None) as E by (unfold ace_id; by rewrite Ew).
    unfold ace_user, ace_group. rewrite E. split_and!; try done. intros _. destruct (H4 Ha) as (e & ? & ? & _). eauto. }
  assert (Hcreator : forall a, dom_sid_equal (Some (trustee psa)) (Some global_sid_Creator_Owner) ||
      dom_sid_equal (Some (trustee psa)) (Some global_sid_Creator_Group) = true ->
      add_current_ace_to_acl is_dir io st a = Some st' ->
      denies_first st' /\ exists es, file_ace st' = file_ace st ++ es /\ entries_of conn pst psa es).
  { intros a Hc Hadd. apply add_current_spec in Hadd as [H1 H2]; [|done]. rewrite Hio in H2. split; [done|].
    exists []. rewrite app_nil_r. split; [done|]. assert (ace_id conn psa = None) as E
      by (unfold ace_id; rewrite <- orb_assoc, Hc; by rewrite orb_true_r).
    by apply entries_of_nil; unfold ace_user, ace_group; rewrite ?E. }
  destruct (dom_sid_equal _ (Some global_sid_Creator_Owner)) eqn:Eo; [by eapply Hcreator|].
  destruct (dom_sid_equal _ (Some global_sid_Creator_Group)) eqn:Eg; [by eapply Hcreator|]. clear Hcreator.
  assert (Eid : ace_id conn psa = map_sid conn (trustee psa)) by (unfold ace_id; by rewrite Ew, Eo, Eg).
  unfold entries_of, ace_user, ace_group. rewrite Eid, Ew.
  destruct (map_sid conn (trustee psa)) as [[t id]|]; [|done].
  assert (Hu : t = ID_TYPE_UID \/ t = ID_TYPE_BOTH -> who_ok conn psa UID_ACE id)
    by (intros Ht; unfold who_ok, ace_user; rewrite Eid; by destruct Ht as [-> | ->]).
  assert (Hg : t = ID_TYPE_GID \/ t = ID_TYPE_BOTH -> who_ok conn psa GID_ACE id)
    by (intros Ht; unfold who_ok, ace_group; rewrite Eid; by destruct Ht as [-> | ->]).
  destruct t.
  - split; [by repeat case_match; simplify_eq|]. exists []. rewrite app_nil_r.
    split; [by repeat case_match; simplify_eq|done].
  - apply (add_one_spec conn is_dir pst psa UID_ACE) in H as (H1 & es & H2 & H3 & H4); [|done|auto].
    split; [done|]. exists es. split_and!; try done. intros Ha. split_and!; try done. intros ? [= <-]. auto.
  - apply (add_one_spec conn is_dir pst psa GID_ACE) in H as (H1 & es & H2 & H3 & H4); [|done|auto].
    split; [done|]. exists es. split_and!; try done. intros Ha. split_and!; try done. intros ? [= <-]. auto.
  - destruct (add_current_ace_to_acl _ _ _ _) as [st1|] eqn:E1; [|done]. cbn in H.
    apply (add_one_spec conn is_dir pst psa UID_ACE) in E1 as (H1 & es & H2 & H3 & H4); [|done|auto].
    apply (add_one_spec conn is_dir pst psa GID_ACE) in H as (H1' & es' & H2' & H3' & H4'); [|done|auto].
    split; [done|]. exists (es ++ es'). rewrite H2', H2, app_assoc. split; [done|]. split; [by apply Forall_app|].
    intros Ha. split; [done|]. destruct (H4 Ha) as (e & ? & ?), (H4' Ha) as (e' & ? & ?).
    split; intros ? [= <-]; [exists e|exists e']; rewrite in_app_iff; auto.
Qed.

Lemma add_nt_aces_spec conn is_dir pst l st st' : add_nt_aces conn is_dir pst st l = Some st' -> denies_first st ->
  denies_first st' /\ exists ess, file_ace st' = file_ace st ++ concat ess /\ Forall2 (entries_of conn pst) l ess.
Proof.
  revert st. induction l as [|psa l IH]; intros st; cbn [add_nt_aces].
  - intros [= <-] Hd. split; [done|]. exists []. by rewrite app_nil_r.
  - destruct (add_nt_ace conn is_dir pst st psa) as [st1|] eqn:E; [|done]. cbn. intros H Hd.
    apply add_nt_ace_spec in E as (Hd1 & es & Hf & He); [|done].
    destruct (IH st1 H Hd1) as (Hd2 & ess & Hf2 & Hess). split; [done|]. exists (es :: ess).
    split; [cbn; by rewrite Hf2, Hf, app_assoc|by constructor].
Qed.

(** The list of entries decides as the DACL does. *)
Lemma entry_applies conn pst u psa es : entries_of conn pst psa es ->
  existsb (applies u) es = ace_applies conn u psa.
Proof.
  intros [Hes Hall]. rewrite Forall_forall in Hes. apply eq_true_iff_eq. rewrite existsb_exists. unfold ace_applies. split.
  - intros (e & Hin & Hap). destruct (Hes e ltac:(by apply list_elem_of_In)) as (_ & _ & _ & _ & _ & -> & Ho).
    unfold applies in Hap. destruct (ca_owner e).
    + rewrite Ho. apply Z.eqb_eq in Hap. rewrite Hap, bool_decide_eq_true_2 by done. by rewrite orb_true_r.
    + rewrite Ho, Hap. by rewrite orb_true_r.
    + by rewrite (proj1 Ho).
  - intros [Ha H]%andb_true_iff. destruct (Hall Ha) as (H1 & H2 & H3).
    apply orb_true_iff in H as [[H|H]%orb_true_iff|H].
    + destruct (H1 H) as (e & Hin & Ho). exists e. split; [done|]. unfold applies. by rewrite Ho.
    + apply bool_decide_eq_true in H. destruct (H2 _ H) as (e & Hin & Ho & Hi). exists e. split; [done|].
      unfold applies. rewrite Ho. by apply Z.eqb_eq.
    + destruct (ace_group conn psa) as [g|]; [|done]. destruct (H3 _ eq_refl) as (e & Hin & Ho & Hi). exists e.
      split; [done|]. unfold applies. by rewrite Ho, Hi.
Qed.

Lemma find_app {A} (f : A -> bool) l1 l2 :
  List.find f (l1 ++ l2) = match List.find f l1 with Some x => Some x | None => List.find f l2 end.
Proof. induction l1 as [|x l IH]; [done|]. cbn. destruct (f x); [done|]. apply IH. Qed.

Lemma nt_grants_entries conn pst u b l ess : Forall2 (entries_of conn pst) l ess ->
  nt_grants u b (concat ess) = dacl_grants conn u b l.
Proof.
  induction 1 as [|psa es l ess He Hl IH]; [done|]. cbn [concat dacl_grants]. unfold nt_grants in *. rewrite find_app.
  rewrite <- (entry_applies conn pst u psa es He). destruct He as [Hes _]. rewrite Forall_forall in Hes.
  destruct (List.find _ es) as [a|] eqn:E.
  - apply find_some in E as [Hin [Hap Hb]%andb_true_iff].
    destruct (Hes a ltac:(by apply list_elem_of_In)) as (_ & _ & _ & Hp & Hat & _).
    replace (existsb (applies u) es) with true by (symmetry; apply existsb_exists; eauto).
    unfold ace_has, bit in *. rewrite <- Hp, Hb. cbn. unfold is_allow. rewrite Hat. by destruct (ace_allows psa).
  - destruct (existsb (applies u) es && ace_has b psa) eqn:Ex; [|done]. exfalso.
    apply andb_true_iff in Ex as [(e & Hin & Hap)%existsb_exists Hb].
    pose proof (find_none _ _ E e Hin) as Hn. destruct (Hes e ltac:(by apply list_elem_of_In)) as (_ & _ & _ & Hp & _).
    unfold ace_has, bit in *. cbn in Hn. by rewrite Hap, Hp, Hb in Hn.
Qed.

(** ** The NT 4 flags *)

(** What [repair_all] leaves as it is. *)
Definition same_ace (a a0 : security_ace) : Prop :=
  access_mask a = access_mask a0 /\ trustee a = trustee a0 /\ ace_type a = ace_type a0 /\ ace_active a = ace_active a0.

Lemma same_ace_refl a : same_ace a a.
Proof. done. Qed.

Lemma same_ace_trans a b c : same_ace a b -> same_ace b c -> same_ace a c.
Proof. unfold same_ace. intuition congruence. Qed.

Lemma same_ace_or a x : same_ace (set_flags a (Z.lor (ace_flags a) (Z.land x INHERIT_BITS))) a.
Proof.
  split_and!; try done. unfold ace_active. cbn. rewrite has_bits_or.
  replace (has_bits (Z.land x INHERIT_BITS) SEC_ACE_FLAG_INHERIT_ONLY) with false; [by rewrite orb_false_r|].
  symmetry. unfold has_bits. rewrite <- Z.land_assoc. change (Z.land INHERIT_BITS SEC_ACE_FLAG_INHERIT_ONLY) with 0.
  by rewrite Z.land_0_r.
Qed.

Lemma same_ace_clear a : same_ace (set_flags a (clear_bits (ace_flags a) INHERIT_BITS)) a.
Proof. split_and!; try done. unfold ace_active. cbn. by rewrite has_bits_clear. Qed.

Lemma surj_repair (r : security_ace * list security_ace) q :
  (let '(p, l) := r in (p, q :: l)) = (fst r, q :: snd r).
Proof. by destruct r. Qed.

Lemma repair_flags_same p l : same_ace (fst (repair_flags p l)) p /\ Forall2 same_ace (snd (repair_flags p l)) l.
Proof.
  revert p. induction l as [|q l IH]; intros p; [split; [apply same_ace_refl|constructor]|]. cbn [repair_flags].
  assert (Hstep : exists p' q', same_ace p' p /\ same_ace q' q /\
    repair_flags p (q :: l) = (fst (repair_flags p' l), q' :: snd (repair_flags p' l))).
  { cbn [repair_flags]. destruct (negb (access_mask p =? access_mask q)); [|
      destruct (negb (dom_sid_equal (Some (trustee p)) (Some (trustee q)))); [|
      destruct (has_bits (ace_flags p) SEC_ACE_FLAG_INHERIT_ONLY); [|
      destruct (has_bits (ace_flags q) SEC_ACE_FLAG_INHERIT_ONLY)]]];
      cbn beta iota; eexists _, _; (split; [|split; [|apply surj_repair]]);
      auto using same_ace_refl, same_ace_or, same_ace_clear. }
  destruct Hstep as (p' & q' & Hp & Hq & E). cbn [repair_flags] in E. rewrite E. cbn. destruct (IH p') as [H1 H2].
  split; [by eapply same_ace_trans|by constructor].
Qed.

Lemma repair_all_same n l : (length l <= n)%nat -> Forall2 same_ace (repair_all n l) l.
Proof.
  revert n l. induction n as [|n IH]; intros [|p l] Hn; cbn [length] in Hn; try (constructor; fail); try lia.
  cbn [repair_all]. destruct (repair_flags_same p l) as [H1 H2]. destruct (repair_flags p l) as [p' l'].
  cbn [fst snd] in *. constructor; [done|].
  assert (Hlen : length l' = length l) by by eapply Forall2_length.
  assert (Htr : forall l1 l2 l3, Forall2 same_ace l1 l2 -> Forall2 same_ace l2 l3 -> Forall2 same_ace l1 l3).
  { clear. intros l1 l2 l3 H. revert l3. induction H; intros l3 H3; inversion H3; subst; constructor; auto.
    by eapply same_ace_trans. }
  eapply Htr; [apply IH; lia|done].
Qed.

Lemma same_ace_applies conn u a a0 : same_ace a a0 -> ace_applies conn u a = ace_applies conn u a0.
Proof.
  intros (_ & Ht & _ & Ha). unfold ace_applies, ace_user, ace_group, ace_id, ace_world. by rewrite Ht, Ha.
Qed.

Lemma dacl_grants_same conn u b l l0 : Forall2 same_ace l l0 -> dacl_grants conn u b l = dacl_grants conn u b l0.
Proof.
  induction 1 as [|a a0 l l0 Ha _ IH]; [done|]. cbn. rewrite (same_ace_applies conn u a a0 Ha), IH.
  destruct Ha as (Hm & _ & Ht & _). unfold ace_has, ace_allows. by rewrite Hm, Ht.
Qed.

(** ** What the theorem asks of the ids and of the DACL *)

(** The owner's and the group's SID map to the ids of the file. *)
Record own_ids (conn : acl_conn) (pst : file_stat) (owner grp : dom_sid) (l : list security_ace) : Prop := {
  oi_owner : forall psa id, In psa l -> dom_sid_equal (Some (trustee psa)) (Some owner) = true ->
    ace_user conn psa = Some id -> id = st_uid pst;
  oi_group : forall psa id, In psa l -> dom_sid_equal (Some (trustee psa)) (Some grp) = true ->
    ace_group conn psa = Some id -> id = st_gid pst
}.

(** So do they, and who is in a group is known. *)
Record faithful_ids (conn : acl_conn) (pst : file_stat) (owner grp : dom_sid) (u : posix_user)
    (l : list security_ace) : Prop := {
  fi_own : own_ids conn pst owner grp l;
  fi_members : forall a g gid, In a l -> In g l -> ace_user conn a = Some (pu_uid u) -> ace_group conn g = Some gid ->
    uid_entry_in_group conn (new_canon_ace SMB_ACL_USER (trustee a) UID_ACE (pu_uid u))
                            (new_canon_ace SMB_ACL_GROUP (trustee g) GID_ACE gid) = in_groups u gid
}.

(** Neither Everyone nor a group is both denied and allowed something. *)
Definition one_sided (conn : acl_conn) (l : list security_ace) : Prop :=
  forall d a, In d l -> In a l -> ace_active d = true -> ace_active a = true ->
    ace_allows d = false -> ace_allows a = true ->
    ace_world d && ace_world a = false /\ (ace_group conn d = None \/ ace_group conn d <> ace_group conn a).

(** A user in a group that is denied something has an entry that is not empty. *)
Definition denied_named (conn : acl_conn) (u : posix_user) (l : list security_ace) : Prop :=
  forall d g, In d l -> ace_active d = true -> ace_allows d = false -> ace_group conn d = Some g ->
    in_groups u g = true ->
    exists e, In e l /\ ace_active e = true /\ ace_user conn e = Some (pu_uid u) /\ map_nt_perms (access_mask e) <> 0.

Lemma entry_of_same conn pst a a0 e : same_ace a a0 -> entry_of conn pst a e -> entry_of conn pst a0 e.
Proof.
  intros (H1 & H2 & H3 & H4). unfold entry_of, ace_user, ace_group, ace_id, ace_world, ace_allows.
  by rewrite H1, H2, H3, H4.
Qed.

Lemma Forall2_in_l {A B} (P : A -> B -> Prop) l l' x : Forall2 P l l' -> In x l -> exists y, In y l' /\ P x y.
Proof.
  induction 1 as [|a b l l' Hab _ IH]; [done|]. intros [->|H]; [exists b; cbn; auto|].
  destruct (IH H) as (y & ? & ?). exists y. cbn. auto.
Qed.

Lemma Forall2_in_r {A B} (P : A -> B -> Prop) l l' y : Forall2 P l l' -> In y l' -> exists x, In x l /\ P x y.
Proof.
  induction 1 as [|a b l l' Hab _ IH]; [done|]. intros [->|H]; [exists a; cbn; auto|].
  destruct (IH H) as (x & ? & ?). exists x. cbn. auto.
Qed.

(** The file list of a DACL. *)
Record file_list (conn : acl_conn) (pst : file_stat) (l : list security_ace) (es : list canon_ace) : Prop := {
  fl_from : forall e, In e es -> exists psa, In psa l /\ entry_of conn pst psa e;
  fl_entries : forall psa o id, In psa l -> ace_active psa = true -> who_ok conn psa o id ->
    exists e, In e es /\ ca_owner e = o /\ ca_id e = id /\ ca_perms e = map_nt_perms (access_mask psa);
  fl_split : exists ds als, es = ds ++ als /\ Forall deny_entry ds /\ Forall allow_entry als;
  fl_grants : forall u b, nt_grants u b es = dacl_grants conn u b l
}.

Lemma file_list_nt_aces conn is_dir pst l st : add_nt_aces conn is_dir pst (Canon_lists [] [] false false is_dir)
    (repair_all (length l) l) = Some st -> file_list conn pst l (file_ace st).
Proof.
  intros H. pose proof (repair_all_same (length l) l ltac:(lia)) as Hr.
  apply add_nt_aces_spec in H as ((ds & als & Hf & Hd & Ha & _) & ess & He & Hess); [|by exists [], []].
  cbn [file_ace app] in He. split.
  - intros e Hin. rewrite He in Hin. apply in_concat in Hin as (es & Hes & Hin).
    destruct (Forall2_in_r _ _ _ _ Hess Hes) as (psa & Hp & Hall & _).
    destruct (Forall2_in_l _ _ _ _ Hr Hp) as (psa0 & Hp0 & Hs). exists psa0. split; [done|].
    rewrite Forall_forall in Hall. eapply entry_of_same; [done|]. by apply Hall, list_elem_of_In.
  - intros psa0 o id Hp0 Hact Hu. destruct (Forall2_in_r _ _ _ _ Hr Hp0) as (psa & Hp & Hs).
    destruct (Forall2_in_l _ _ _ _ Hess Hp) as (es & Hes & Hall & Hex).
    destruct Hs as (S1 & S2 & S3 & S4). destruct Hex as (X1 & X2 & X3); [by rewrite S4|]. rewrite Forall_forall in Hall.
    assert (Hx : exists e, In e es /\ ca_owner e = o /\ ca_id e = id).
    { unfold who_ok, ace_user, ace_group, ace_id, ace_world in *. rewrite <- S2 in Hu. destruct o, Hu as [Hu1 Hu2]; auto.
      destruct (X1 Hu1) as (e & Hin & Ho). exists e. split_and!; try done. rewrite Hu2.
      destruct (Hall e ltac:(by apply list_elem_of_In)) as (_ & _ & _ & _ & _ & _ & Hid). rewrite Ho in Hid. by destruct Hid. }
    destruct Hx as (e & Hin & Ho & Hi). exists e. rewrite He. split; [apply in_concat; eauto|]. split_and!; try done.
    destruct (Hall e ltac:(by apply list_elem_of_In)) as (_ & _ & _ & -> & _). by rewrite S1.
  - by exists ds, als.
  - intros u b. rewrite He, (nt_grants_entries conn pst u b _ _ Hess). by apply dacl_grants_same.
Qed.

Lemma make_owning_objs_same owner grp gu gg l :
  Forall (fun a => (ca_owner a = UID_ACE -> dom_sid_equal (Some (ca_trustee a)) (Some owner) = true ->
                    ca_type a = SMB_ACL_USER_OBJ) /\
                   (ca_owner a = GID_ACE -> dom_sid_equal (Some (ca_trustee a)) (Some grp) = true ->
                    ca_type a = SMB_ACL_GROUP_OBJ)) l ->
  make_owning_objs owner grp gu gg l = l.
Proof.
  assert (Hset : forall a t, ca_type a = t -> set_ca_type a t = a) by by intros [] ? [= ->].
  intros H. revert gu gg. induction H as [|a l [H1 H2] _ IH]; intros gu gg; [done|]. cbn [make_owning_objs].
  assert (E : forall g o t sid, (ca_owner a = o -> dom_sid_equal (Some (ca_trustee a)) (Some sid) = true -> ca_type a = t) ->
    (if negb g && owner_is o a && dom_sid_equal (Some (ca_trustee a)) (Some sid) then set_ca_type a t else a) = a).
  { intros g o t sid Ht. unfold owner_is. destruct (negb g); [|done]. cbn [andb].
    destruct (bool_decide_reflect (ca_owner a = o)) as [Eo|]; [|done]. cbn [andb].
    destruct (dom_sid_equal (Some (ca_trustee a)) (Some sid)) eqn:Es; [|reflexivity]. apply Hset. by apply Ht. }
  rewrite (E gu UID_ACE SMB_ACL_USER_OBJ owner H1), (E gg GID_ACE SMB_ACL_GROUP_OBJ grp H2). by rewrite IH.
Qed.

Lemma check_owning_objs_same conn pst owner grp l es : own_ids conn pst owner grp l -> file_list conn pst l es ->
  check_owning_objs owner grp es = es.
Proof.
  intros own F. unfold check_owning_objs. destruct (_ && _); [done|]. apply make_owning_objs_same.
  apply Forall_forall. intros e He%list_elem_of_In.
  destruct (fl_from _ _ _ _ F e He) as (psa & Hp & Ht & _ & Htr & _ & _ & _ & Ho).
  unfold typed in Ht. rewrite Htr. split; intros Eo Es; rewrite Eo in *; rewrite Ht.
  - unfold user_tag. rewrite (oi_owner _ _ _ _ _ own psa (ca_id e) Hp Es Ho). by rewrite Z.eqb_refl.
  - unfold group_tag. rewrite (oi_group _ _ _ _ _ own psa (ca_id e) Hp Es Ho). by rewrite Z.eqb_refl.
Qed.

Section Dacl_closed.
Context (conn : acl_conn) (is_dir : bool) (pst : file_stat) (owner grp : dom_sid) (u : posix_user) (b : Z)
        (l : list security_ace).
Hypothesis rwx : mode_bit b.
Hypothesis not_owner : pu_uid u <> st_uid pst.
Hypothesis faithful : faithful_ids conn pst owner grp u l.
Hypothesis sides : one_sided conn l.
Hypothesis members_named : denied_named conn u l.

Lemma file_list_knows es a g : file_list conn pst l es -> In a es -> In g es -> named u a -> ca_owner g <> UID_ACE ->
  uid_entry_in_group conn a g = applies u g.
Proof.
  intros F Ha Hg [Hn1 Hn2] Ho. destruct (fl_from _ _ _ _ F a Ha) as (pa & Hpa & _ & _ & Hta & _ & _ & _ & Hoa).
  destruct (fl_from _ _ _ _ F g Hg) as (pg & Hpg & _ & Hev & Htg & _ & _ & _ & Hog).
  rewrite Hn1, Hn2 in Hoa. unfold applies. destruct (ca_owner g) eqn:Eg; [done| |].
  - rewrite <- (fi_members _ _ _ _ _ _ faithful pa pg (ca_id g) Hpa Hpg Hoa Hog).
    unfold uid_entry_in_group. cbn. by rewrite Hta, Htg, Hn2.
  - unfold uid_entry_in_group. unfold everyone, owner_is in Hev. rewrite Hev, Eg. done.
Qed.

Lemma file_list_closed es f : file_list conn pst l es -> process_deny_list conn (merge_aces es false) = Some f ->
  dacl_grants conn u b l = false ->
  posix_access pst u (b - 6) (posix_acl_of (ensure_canon_entry_valid_on_set conn is_dir owner grp pst f)) = false.
Proof.
  intros F H Hno. destruct (fl_split _ _ _ _ F) as (ds & als & -> & Hd & Ha).
  pose proof (fun a Hin => fl_from _ _ _ _ F a Hin) as From. rewrite <- (fl_grants _ _ _ _ F) in Hno.
  assert (Hw : forall a, In a (ds ++ als) -> everyone a = owner_is WORLD_ACE a)
    by (intros a Hin; by destruct (From a Hin) as (psa & _ & _ & He & _)).
  pose proof (fun f => lists_origin conn ds als Hd Ha Hw _ f H) as Hor.
  apply set_list_closed; try done.
  { apply Forall_forall. intros x Hx%list_elem_of_In. destruct (Hor x Hx) as [(x0 & Hx0 & Hwx) _].
    eapply typed_who; [done|]. by destruct (From x0 Hx0) as (psa & _ & Ht & _). }
  apply (lists_closed conn u b ds als Hd Ha Hw); try done.
  - intros a g Hina Hing. by apply (file_list_knows (ds ++ als)).
  - intros d a Hind Hina Ho [= Hi Hoo]. rewrite Forall_forall in Hd, Ha.
    specialize (Hd d ltac:(by apply list_elem_of_In)). specialize (Ha a ltac:(by apply list_elem_of_In)).
    destruct (From d ltac:(apply in_app_iff; auto)) as (pd & Hpd & _ & _ & _ & _ & Hatd & Hacd & Hod).
    destruct (From a ltac:(apply in_app_iff; auto)) as (pa & Hpa & _ & _ & _ & _ & Hata & Haca & Hoa).
    unfold deny_entry, allow_entry in *. rewrite Hatd in Hd. rewrite Hata in Ha.
    destruct (sides pd pa Hpd Hpa Hacd Haca) as [S1 S2]; [by destruct (ace_allows pd)|by destruct (ace_allows pa)|].
    rewrite Hoo, Hi in Hoa. destruct (ca_owner d); [done| |by rewrite (proj1 Hod), (proj1 Hoa) in S1].
    rewrite Hod, Hoa in S2. destruct S2; congruence.
  - intros d Hind Ho Hap. rewrite Forall_forall in Hd. specialize (Hd d ltac:(by apply list_elem_of_In)).
    destruct (From d ltac:(apply in_app_iff; auto)) as (pd & Hpd & _ & _ & _ & _ & Hatd & Hacd & Hod).
    unfold deny_entry, applies in *. rewrite Ho in *. rewrite Hatd in Hd.
    destruct (members_named pd (ca_id d) Hpd Hacd) as (pe & Hpe & Hace & Hue & Hpp); [by destruct (ace_allows pd)|done..|].
    assert (Hok : who_ok conn pe UID_ACE (pu_uid u)).
    { split; [|done]. unfold ace_user, ace_id in Hue. by destruct (ace_world pe). }
    destruct (fl_entries _ _ _ _ F pe _ _ Hpe Hace Hok) as (e & He & Hoe & Hie & Hp).
    exists e. split; [done|]. split; [done|]. by rewrite Hp.
Qed.

End Dacl_closed.

(** The file list that is set comes from the list of the DACL. *)
Lemma unpack_file_list conn is_dir pst owner grp info psd acl file dir :
  dacl psd = Some acl -> own_ids conn pst owner grp (aces acl) ->
  unpack_canon_ace conn is_dir pst owner grp info psd = Some (true, file, dir) -> file <> [] ->
  exists es f, file_list conn pst (aces acl) es /\ process_deny_list conn (merge_aces es false) = Some f /\
    file = ensure_canon_entry_valid_on_set conn is_dir owner grp pst f.
Proof.
  intros Hacl Hf H Hnil. unfold unpack_canon_ace in H. rewrite Hacl in H. destruct (info =? 0); [done|].
  destruct (negb (has_bits info SECINFO_DACL)); [by injection H as <- _|].
  unfold create_canon_ace_lists in H. destruct (negb (forallb _ _)); [done|].
  destruct (add_nt_aces _ _ _ _ _) as [st|] eqn:E; cbn [mbind option_bind] in H; [|done].
  apply file_list_nt_aces in E as F. rewrite (check_owning_objs_same conn pst owner grp (aces acl) _ Hf F) in H.
  destruct (is_dir && all_aces_are_inherit_only st); [by injection H as <- _|].
  destruct (decide (file_ace st = [] /\ dir_ace st = [])) as [[E1 E2]|Hne].
  { rewrite E1, E2 in H. by injection H as <- _. }
  assert (H' : (f ← process_deny_list conn (merge_aces (file_ace st) false);
    Some (ensure_canon_entry_valid_on_set conn is_dir owner grp pst f)) = Some file).
  { destruct (file_ace st), (dir_ace st); try tauto;
      (destruct (process_deny_list conn (merge_aces _ false)); [|done]; cbn [mbind option_bind] in *;
       destruct (process_deny_list conn (merge_aces _ true)); [|done]; cbn [mbind option_bind] in *; by injection H as <- _). }
  destruct (process_deny_list conn (merge_aces (file_ace st) false)) as [f|] eqn:Ep; [|done].
  cbn [mbind option_bind] in H'. injection H' as <-. by exists (file_ace st), f.
Qed.

(** Setting an NT ACL on a POSIX file fails closed: let [unpack_canon_ace]
    turn the DACL of a security descriptor into the entries for the file. For a
    user who does not own the file, read, write or execute access that the POSIX
    ACL of these entries gives is also given by the DACL, when the first entry
    that applies to the user and has a right of that kind decides. It is asked
    that the SIDs of owner and group map to the ids of the file, that the
    membership of the user in the groups of the DACL is known, that no group and
    not Everyone is denied something and allowed something, and that a user in a
    denied group has an entry. *)
Lemma posix_acl_fails_closed conn is_dir pst owner grp info psd acl u b file dir :
  dacl psd = Some acl ->
  unpack_canon_ace conn is_dir pst owner grp info psd = Some (true, file, dir) ->
  mode_bit b -> pu_uid u <> st_uid pst ->
  faithful_ids conn pst owner grp u (aces acl) -> one_sided conn (aces acl) -> denied_named conn u (aces acl) ->
  posix_access pst u (b - 6) (posix_acl_of file) = true ->
  dacl_grants conn u b (aces acl) = true.
Proof.
  intros Hacl H Hb Hu Hf Hs Hn Hac. apply not_false_is_true. intros Hno. revert Hac. apply not_true_iff_false.
  destruct (decide (file = [])) as [->|Hnil].
  { unfold posix_access. by rewrite (proj2 (Z.eqb_neq _ _) Hu). }
  destruct (unpack_file_list conn is_dir pst owner grp info psd acl file dir Hacl (fi_own _ _ _ _ _ _ Hf) H Hnil) as (es & f & F & Ep & ->).
  by apply (file_list_closed conn is_dir pst owner grp u b (aces acl) Hb Hu Hf Hs Hn es f F Ep).
Qed.

(** ** A valid ACL *)

(** What POSIX asks of an ACL: one entry for each of owner, owning group and
    others, one for each user and group that is named, and a mask where one is. *)
Definition entry_key (e : smb_acl_entry) : smb_acl_tag * Z := (a_type e, a_qualifier e).

Definition named_entry (e : smb_acl_entry) : bool := entry_tag_is SMB_ACL_USER e || entry_tag_is SMB_ACL_GROUP e.

Record acl_valid (acl : list smb_acl_entry) : Prop := {
  av_once : NoDup (entry_key <$> acl);
  av_objs : forall t, t = SMB_ACL_USER_OBJ \/ t = SMB_ACL_GROUP_OBJ \/ t = SMB_ACL_OTHER -> In (t, 0) (entry_key <$> acl);
  av_quals : forall e, In e acl -> named_entry e = false -> a_qualifier e = 0;
  av_mask : existsb named_entry acl = true <-> In (SMB_ACL_MASK, 0) (entry_key <$> acl)
}.

Definition tkey (a : canon_ace) : smb_acl_tag * Z := entry_key (posix_entry a).

Lemma tkey_obj a t : ca_type a = t -> t <> SMB_ACL_USER -> t <> SMB_ACL_GROUP -> tkey a = (t, 0).
Proof.
  intros H H1 H2. unfold tkey, entry_key, posix_entry, tag_is. cbn. rewrite H.
  by rewrite !bool_decide_eq_false_2.
Qed.

Lemma tkey_id a : ca_type a = SMB_ACL_USER \/ ca_type a = SMB_ACL_GROUP -> tkey a = (ca_type a, ca_id a).
Proof. unfold tkey, entry_key, posix_entry, tag_is. cbn. by intros [-> | ->]. Qed.

Lemma tkey_who a a' : same_who a a' -> tkey a = tkey a'.
Proof. intros (H1 & _ & _ & H2). unfold tkey, entry_key, posix_entry, tag_is. cbn. by rewrite H1, H2. Qed.

Definition world_id (a : canon_ace) : Prop := ca_owner a = WORLD_ACE -> ca_id a = NO_ID.

Lemma tkey_key pst a a' : typed pst a -> typed pst a' -> world_id a -> world_id a' -> tkey a = tkey a' -> key a = key a'.
Proof.
  intros H%typed_cases H'%typed_cases Hw Hw' E. unfold tkey, entry_key, posix_entry, tag_is in E. cbn in E.
  injection E as Et Eq. rewrite <- Et in H', Eq. unfold key, world_id in *.
  destruct (ca_type a); try tauto; repeat match goal with H : _ /\ _ |- _ => destruct H end; try congruence;
    [change (ca_id a = ca_id a') in Eq; congruence..|]. rewrite Hw, Hw'; congruence.
Qed.

Lemma typed_nodup pst l : Forall (typed pst) l -> Forall world_id l -> NoDup (key <$> l) -> NoDup (tkey <$> l).
Proof.
  intros Ht Hw Hn. induction l as [|a l IH]; [constructor|]. apply Forall_cons in Ht as [Ha Ht].
  apply Forall_cons in Hw as [Hwa Hw]. cbn in *. apply NoDup_cons in Hn as [Hni Hn].
  constructor; [|by apply IH]. intros Hin. apply Hni. apply list_elem_of_fmap in Hin as (x & Hk & Hx).
  rewrite Forall_forall in Ht, Hw. apply list_elem_of_fmap. exists x. split; [|done].
  apply (tkey_key pst); auto.
Qed.

(** The steps keep one entry a key. *)
Lemma last_of_fresh t l : last_of t l = None -> t <> SMB_ACL_USER -> t <> SMB_ACL_GROUP -> ~ In (t, 0) (tkey <$> l).
Proof.
  intros H H1 H2 Hin. apply list_elem_of_In, list_elem_of_fmap in Hin as (a & Hk & Ha%list_elem_of_In).
  apply (last_of_none t l a H Ha). unfold tkey, entry_key in Hk. cbn in Hk. congruence.
Qed.

Lemma last_of_has t l a : last_of t l = Some a -> t <> SMB_ACL_USER -> t <> SMB_ACL_GROUP -> In (t, 0) (tkey <$> l).
Proof.
  intros [Ha Ht]%last_of_some H1 H2. apply list_elem_of_In, list_elem_of_fmap. exists a.
  split; [symmetry; by apply tkey_obj|by apply list_elem_of_In].
Qed.

Lemma NoDup_tkey_cons a t l : ca_type a = t -> t <> SMB_ACL_USER -> t <> SMB_ACL_GROUP -> last_of t l = None ->
  NoDup (tkey <$> l) -> NoDup (tkey <$> a :: l) /\ In (t, 0) (tkey <$> a :: l).
Proof.
  intros Ht H1 H2 Hl Hn. cbn. rewrite (tkey_obj a t Ht H1 H2). split; [|by left].
  constructor; [|done]. intros Hin%list_elem_of_In. by apply (last_of_fresh t l).
Qed.

Lemma last_of_cons_other t a l : ca_type a <> t -> last_of t l = None -> last_of t (a :: l) = None.
Proof.
  intros Ha Hl. destruct (last_of t (a :: l)) as [x|] eqn:E; [|done]. apply last_of_some in E as [[->|Hx] Ht]; [done|].
  by destruct (last_of_none t l x Hl).
Qed.

Lemma with_owner_nodup conn is_dir owner pst l o user l' : with_owner conn is_dir owner pst l o = (user, l') ->
  NoDup (tkey <$> l) ->
  NoDup (tkey <$> l') /\ In (SMB_ACL_USER_OBJ, 0) (tkey <$> l') /\
  (forall t, t <> SMB_ACL_USER_OBJ -> last_of t l = None -> last_of t l' = None).
Proof.
  unfold with_owner. destruct (last_of SMB_ACL_USER_OBJ l) as [x|] eqn:E; intros H Hn; simplify_eq.
  - split_and!; try done. by eapply last_of_has.
  - match goal with |- context [?a :: l] => set (pace := a) end.
    assert (Ht : ca_type pace = SMB_ACL_USER_OBJ) by (unfold pace, ensure_minimal_owner_ace_perms; by destruct is_dir).
    destruct (NoDup_tkey_cons pace SMB_ACL_USER_OBJ l Ht) as [H1 H2]; try done. split_and!; try done.
    intros t Hne. apply last_of_cons_other. congruence.
Qed.

Lemma with_group_nodup grp pst l o group l' : with_group grp pst l o = (group, l') -> NoDup (tkey <$> l) ->
  NoDup (tkey <$> l') /\ In (SMB_ACL_GROUP_OBJ, 0) (tkey <$> l') /\
  (forall k, In k (tkey <$> l) -> In k (tkey <$> l')) /\
  (forall t, t <> SMB_ACL_GROUP_OBJ -> last_of t l = None -> last_of t l' = None).
Proof.
  unfold with_group. destruct (last_of SMB_ACL_GROUP_OBJ l) as [x|] eqn:E; intros H Hn; simplify_eq.
  - split_and!; try done. by eapply last_of_has.
  - match goal with |- context [?a :: l] => set (pace := a) end.
    destruct (NoDup_tkey_cons pace SMB_ACL_GROUP_OBJ l) as [H1 H2]; try done. split_and!; try done.
    + intros k Hk. by right.
    + intros t Hne. apply last_of_cons_other. cbn. congruence.
Qed.

Lemma with_other_nodup l o : (o = None -> last_of SMB_ACL_OTHER l = None) ->
  (forall a, o = Some a -> In (SMB_ACL_OTHER, 0) (tkey <$> l)) -> NoDup (tkey <$> l) ->
  NoDup (tkey <$> with_other l o) /\ In (SMB_ACL_OTHER, 0) (tkey <$> with_other l o) /\
  (forall k, In k (tkey <$> l) -> In k (tkey <$> with_other l o)).
Proof.
  intros Hno Hyes Hn. unfold with_other. destruct o as [a|]; [by eauto|].
  match goal with |- context [?a :: l] => set (pace := a) end.
  destruct (NoDup_tkey_cons pace SMB_ACL_OTHER l) as [H1 H2]; auto; try done. split_and!; try done. intros k Hk. by right.
Qed.

Definition not_named (pst : file_stat) (a : canon_ace) : Prop :=
  (ca_type a = SMB_ACL_USER -> ca_id a <> st_uid pst) /\ (ca_type a = SMB_ACL_GROUP -> ca_id a <> st_gid pst) /\
  ca_type a <> SMB_ACL_MASK.

Lemma typed_not_named pst a : typed pst a -> not_named pst a.
Proof. intros H%typed_cases. unfold not_named. destruct (ca_type a); tauto || (split_and!; done || tauto). Qed.

Lemma with_duplicates_nodup pst user group l : Forall (not_named pst) l -> NoDup (tkey <$> l) ->
  ca_id user = st_uid pst -> ca_id group = st_gid pst ->
  NoDup (tkey <$> with_duplicates user group l) /\ (forall k, In k (tkey <$> l) -> In k (tkey <$> with_duplicates user group l)) /\
  forall a, In a (with_duplicates user group l) -> ca_type a <> SMB_ACL_MASK.
Proof.
  intros Hl Hn Hu Hg. rewrite Forall_forall in Hl.
  assert (Nu : ~ In (SMB_ACL_USER, st_uid pst) (tkey <$> l)).
  { intros Hin. apply list_elem_of_In, list_elem_of_fmap in Hin as (a & Hk & Ha). destruct (Hl a Ha) as (H1 & _ & _).
    assert (Et : ca_type a = SMB_ACL_USER) by (unfold tkey, entry_key in Hk; cbn in Hk; congruence).
    rewrite tkey_id in Hk by auto. apply H1; congruence. }
  assert (Ng : ~ In (SMB_ACL_GROUP, st_gid pst) (tkey <$> l)).
  { intros Hin. apply list_elem_of_In, list_elem_of_fmap in Hin as (a & Hk & Ha). destruct (Hl a Ha) as (_ & H1 & _).
    assert (Et : ca_type a = SMB_ACL_GROUP) by (unfold tkey, entry_key in Hk; cbn in Hk; congruence).
    rewrite tkey_id in Hk by auto. apply H1; congruence. }
  assert (Ku : tkey (duplicate_user user) = (SMB_ACL_USER, st_uid pst)) by (rewrite tkey_id by auto; cbn; congruence).
  assert (Kg : tkey (duplicate_group group) = (SMB_ACL_GROUP, st_gid pst)) by (rewrite tkey_id by auto; cbn; congruence).
  split; [|split].
  - unfold with_duplicates. destruct (find_duplicates user group l) as [du dg].
    destruct (_ && _), (negb du), (negb dg); cbn; rewrite ?Ku, ?Kg; repeat (constructor; [rewrite list_elem_of_In; cbn|]);
      try done; intuition congruence.
  - intros k Hk. apply list_elem_of_In, list_elem_of_fmap in Hk as (a & -> & Ha%list_elem_of_In).
    apply list_elem_of_In, list_elem_of_fmap. exists a. split; [done|]. by apply list_elem_of_In, with_duplicates_in.
  - intros a [Ha|[->| ->]]%with_duplicates_spec; try done. apply (Hl a). by apply list_elem_of_In.
Qed.

(** The list that is set has one entry a key, the three that are required, and no mask. *)
Lemma ensure_nodup conn is_dir owner grp pst l : Forall (typed pst) l -> Forall world_id l -> NoDup (key <$> l) ->
  let r := ensure_canon_entry_valid_on_set conn is_dir owner grp pst l in
  NoDup (tkey <$> r) /\
  (forall t, t = SMB_ACL_USER_OBJ \/ t = SMB_ACL_GROUP_OBJ \/ t = SMB_ACL_OTHER -> In (t, 0) (tkey <$> r)) /\
  forall a, In a r -> ca_type a <> SMB_ACL_MASK.
Proof.
  intros Ht Hw Hn. pose proof (typed_nodup pst l Ht Hw Hn) as Htk. unfold ensure_canon_entry_valid_on_set.
  assert (Ek : tkey <$> map (trimmed is_dir) l = tkey <$> l).
  { clear. induction l as [|a l IH]; [done|]. cbn. f_equal; [|exact IH]. apply tkey_who, trimmed_who. }
  assert (Htt : Forall (typed pst) (map (trimmed is_dir) l)).
  { clear - Ht. induction Ht; constructor; [|done]. eapply typed_who; [apply trimmed_who|done]. }
  rewrite <- Ek in Htk. set (t := map (trimmed is_dir) l) in *. set (o := last_of SMB_ACL_OTHER t).
  pose proof (typed_obj_ids pst t Htt) as Ho. destruct (with_owner _ _ _ _ t o) as [user l1] eqn:E1.
  destruct (with_owner_spec _ _ _ _ _ _ _ _ E1 Ho) as (U1 & U2 & U3 & U4 & U5).
  destruct (with_owner_nodup _ _ _ _ _ _ _ _ E1 Htk) as (N1 & K1 & L1).
  assert (Ho1 : obj_ids pst l1).
  { intros a Ha. apply U5 in Ha as [Ha| ->]; [by apply Ho|]. rewrite U1. done. }
  destruct (with_group grp pst l1 o) as [group l2] eqn:E2.
  destruct (with_group_spec _ _ _ _ _ _ E2 Ho1) as (G1 & G2 & G3 & G4 & G5 & _).
  destruct (with_group_nodup _ _ _ _ _ _ E2 N1) as (N2 & K2 & K2' & L2).
  destruct (with_other_nodup l2 o) as (N3 & K3 & K3').
  { intros Eo. apply L2; [done|]. by apply L1. }
  { intros a Eo. apply last_of_some in Eo as [Ha Hta]. apply list_elem_of_In, list_elem_of_fmap. exists a.
    split; [symmetry; by apply tkey_obj|]. by apply list_elem_of_In, G4, U4. }
  { done. }
  assert (Hnn : Forall (not_named pst) (with_other l2 o)).
  { rewrite Forall_forall in Htt. apply Forall_forall. intros a Ha%list_elem_of_In.
    apply with_other_spec in Ha as [Ha|[Ha _]]; [|unfold not_named; by rewrite Ha].
    apply G5 in Ha as [Ha| ->]; [|unfold not_named; by rewrite G1].
    apply U5 in Ha as [Ha| ->]; [|unfold not_named; by rewrite U1]. by apply typed_not_named, Htt, list_elem_of_In. }
  destruct (with_duplicates_nodup pst user group _ Hnn N3 U2 G2) as (N4 & K4 & M4).
  split; [done|]. split; [|done]. intros tt [->|[->| ->]]; apply K4; auto.
Qed.

Lemma posix_acl_valid_of r : NoDup (tkey <$> r) ->
  (forall t, t = SMB_ACL_USER_OBJ \/ t = SMB_ACL_GROUP_OBJ \/ t = SMB_ACL_OTHER -> In (t, 0) (tkey <$> r)) ->
  (forall a, In a r -> ca_type a <> SMB_ACL_MASK) -> acl_valid (posix_acl_of r).
Proof.
  intros Hn Ho Hm. unfold posix_acl_of.
  assert (Hgot : existsb (tag_is SMB_ACL_MASK) r = false).
  { apply not_true_iff_false. intros (a & Ha & Ht)%existsb_exists. unfold tag_is in Ht. apply bool_decide_eq_true in Ht.
    by apply (Hm a). }
  rewrite Hgot, andb_true_r. set (needs := existsb (fun a => tag_is SMB_ACL_USER a || tag_is SMB_ACL_GROUP a) r).
  assert (Hkey : entry_key <$> map posix_entry r = tkey <$> r) by (symmetry; apply (list_fmap_compose posix_entry entry_key)).
  assert (Hno : ~ In (SMB_ACL_MASK, 0) (tkey <$> r)).
  { intros Hin. apply list_elem_of_In, list_elem_of_fmap in Hin as (a & Hk & Ha%list_elem_of_In). apply (Hm a Ha).
    unfold tkey, entry_key in Hk. cbn in Hk. congruence. }
  assert (Hneeds : existsb named_entry (map posix_entry r) = needs).
  { unfold needs. clear. induction r as [|a r IH]; [done|]. cbn. by rewrite IH. }
  split.
  - rewrite fmap_app, Hkey. destruct needs; [|by rewrite app_nil_r]. apply NoDup_app. split_and!; [done| |].
    + intros k Hk Hin. cbn in Hin. apply list_elem_of_singleton in Hin as ->. by apply Hno, list_elem_of_In.
    + cbn. constructor; [apply not_elem_of_nil|constructor].
  - intros t Ht. rewrite fmap_app, Hkey. apply in_app_iff. left. by apply Ho.
  - intros e [He|He]%in_app_iff Hne.
    + apply in_map_iff in He as (a & <- & _). unfold named_entry, entry_tag_is in Hne. cbn in *.
      unfold tag_is. by rewrite Hne.
    + destruct needs; [|done]. by destruct He as [<-|[]].
  - rewrite existsb_app, Hneeds, fmap_app, Hkey, in_app_iff. destruct needs; cbn; intuition discriminate.
Qed.

(** C36. The access ACL that is made of a DACL is valid: it has exactly one entry
    for the owner, the owning group and others, no two entries for the same user or
    group, and a mask exactly where a user or group is named. It is asked that the
    SIDs of owner and group map to the ids of the file. *)
Theorem posix_acl_valid conn is_dir pst owner grp info psd acl file dir :
  dacl psd = Some acl -> own_ids conn pst owner grp (aces acl) ->
  unpack_canon_ace conn is_dir pst owner grp info psd = Some (true, file, dir) -> file <> [] ->
  acl_valid (posix_acl_of file).
Proof.
  intros Hacl Hf H Hne.
  destruct (unpack_file_list conn is_dir pst owner grp info psd acl file dir Hacl Hf H Hne) as (es & f & F & Ep & ->).
  destruct (fl_split _ _ _ _ F) as (ds & als & -> & Hd & Ha). pose proof (fun a Hin => fl_from _ _ _ _ F a Hin) as From.
  assert (Hw : forall a, In a (ds ++ als) -> everyone a = owner_is WORLD_ACE a)
    by (intros a Hin; by destruct (From a Hin) as (psa & _ & _ & He & _)).
  pose proof (fun x => lists_origin conn ds als Hd Ha Hw _ x Ep) as Hor.
  pose proof (lists_nodup conn ds als f Hd Ha Hw Ep) as Hn.
  destruct (ensure_nodup conn is_dir owner grp pst f) as (H1 & H2 & H3); [..|done|by apply posix_acl_valid_of].
  - apply Forall_forall. intros x Hx%list_elem_of_In. destruct (Hor x Hx) as [(x0 & Hx0 & Hwx) _].
    eapply typed_who; [done|]. by destruct (From x0 Hx0) as (psa & _ & Ht & _).
  - apply Forall_forall. intros x Hx%list_elem_of_In Ho. destruct (Hor x Hx) as [(x0 & Hx0 & _ & _ & Hwo & Hwi) _].
    destruct (From x0 Hx0) as (psa & _ & _ & _ & _ & _ & _ & _ & Hid). rewrite <- Hwo, Ho in Hid. rewrite Hwi. by destruct Hid.
Qed.

(** ** Examples *)

Module Example.

Definition unix_sid (kind id : Z) : dom_sid := Dom_sid 1 2 [0; 0; 0; 0; 0; 22] (kind :: id :: replicate 13 0).

Definition unix_id (sid : dom_sid) : option (id_type * Z) :=
  match sub_auths sid with
  | 1 :: id :: _ => Some (ID_TYPE_UID, id)
  | 2 :: id :: _ => Some (ID_TYPE_GID, id)
  | _ => None
  end.

(** User 1001 is in groups 2000 and 2001. *)
Definition conn : acl_conn :=
  Acl_conn None 0 0 [] (fun u g => match unix_id u, unix_id g with
                                   | Some (_, 1001), Some (_, g) => (g =? 2000) || (g =? 2001)
                                   | _, _ => false
                                   end)
           unix_id (unix_sid 1) (unix_sid 2) false false false false false false.

Definition pst : file_stat := File_stat 1000 2002 0x81A4.
Definition alice : posix_user := Posix_user 1001 [2000; 2001].

Definition ace (t : security_ace_type) (mask : Z) (sid : dom_sid) : security_ace := Security_ace t 0 mask None None sid.
Definition allow := ace SEC_ACE_TYPE_ACCESS_ALLOWED.
Definition deny := ace SEC_ACE_TYPE_ACCESS_DENIED.

Definition sd (l : list security_ace) : security_descriptor :=
  Security_descriptor 1 SEC_DESC_DACL_PRESENT None None None (Some (Security_acl 2 l)).

Definition unpack (l : list security_ace) : option (bool * list canon_ace * list canon_ace) :=
  unpack_canon_ace conn false pst (unix_sid 1 1000) (unix_sid 2 2002) SECINFO_DACL (sd l).

Definition file_acl (l : list security_ace) : list smb_acl_entry :=
  match unpack l with Some (_, file, _) => posix_acl_of file | None => [] end.

(** Group 2000 may not write, alice may read and write. *)
Definition guarded : list security_ace :=
  [deny FILE_GENERIC_WRITE (unix_sid 2 2000); allow (Z.lor FILE_GENERIC_READ FILE_GENERIC_WRITE) (unix_sid 1 1001);
   allow FILE_GENERIC_WRITE (unix_sid 2 2001); allow FILE_GENERIC_READ global_sid_World].

End Example.

Lemma posix_acl_valid_witness :
  acl_valid (posix_acl_of (match Example.unpack Example.guarded with Some (_, file, _) => file | None => [] end)).
Proof.
  apply (posix_acl_valid Example.conn false Example.pst (Example.unix_sid 1 1000) (Example.unix_sid 2 2002)
    SECINFO_DACL (Example.sd Example.guarded) (Security_acl 2 Example.guarded)
    (match Example.unpack Example.guarded with Some (_, file, _) => file | None => [] end)
    (match Example.unpack Example.guarded with Some (_, _, dir) => dir | None => [] end)).
  - reflexivity.
  - split.
    + intros psa id H. cbn in H. destruct H as [<-|[<-|[<-|[<-|[]]]]]; vm_compute; discriminate.
    + intros psa id H. cbn in H. destruct H as [<-|[<-|[<-|[<-|[]]]]]; vm_compute; discriminate.
  - vm_compute. reflexivity.
  - vm_compute. discriminate.
Defined.

(** Everyone is denied write and allowed read: the deny entry is merged away, and
    alice keeps the write access of an entry after it. *)
Lemma everyone_deny_lost :
  let l := [Example.deny FILE_GENERIC_WRITE global_sid_World;
            Example.allow (Z.lor FILE_GENERIC_READ FILE_GENERIC_WRITE) (Example.unix_sid 1 1001);
            Example.allow FILE_GENERIC_READ global_sid_World] in
  dacl_grants Example.conn Example.alice 7 l = false /\
  posix_access Example.pst Example.alice 1 (Example.file_acl l) = true.
Proof. split; vm_compute; reflexivity. Qed.

(** One group of alice is denied write, another is allowed it: alice can write. *)
Lemma group_deny_fails_open :
  let l := [Example.deny FILE_GENERIC_WRITE (Example.unix_sid 2 2000);
            Example.allow FILE_GENERIC_WRITE (Example.unix_sid 2 2001)] in
  dacl_grants Example.conn Example.alice 7 l = false /\
  posix_access Example.pst Example.alice 1 (Example.file_acl l) = true.
Proof. split; vm_compute; reflexivity. Qed.

(** Everyone is denied all after another deny entry: the list is used after it is freed. *)
Lemma everyone_deny_all_crash :
  Example.unpack [Example.deny FILE_GENERIC_WRITE (Example.unix_sid 1 1001);
                  Example.deny FILE_GENERIC_ALL global_sid_World] = None.
Proof. vm_compute. reflexivity. Qed.

(** In a default ACL a deny entry for the owner's user masks the entry of the
    creator instead, and is gone when the entry it is for is reached. *)
Lemma default_deny_misses :
  match unpack_canon_ace Example.conn true Example.pst (Example.unix_sid 1 1000) (Example.unix_sid 2 2002) SECINFO_DACL
      (Example.sd [Security_ace SEC_ACE_TYPE_ACCESS_DENIED INHERIT_BITS FILE_GENERIC_WRITE None None (Example.unix_sid 1 1000);
                   Security_ace SEC_ACE_TYPE_ACCESS_ALLOWED INHERIT_BITS FILE_GENERIC_ALL None None global_sid_Creator_Owner;
                   Security_ace SEC_ACE_TYPE_ACCESS_ALLOWED INHERIT_BITS FILE_GENERIC_ALL None None (Example.unix_sid 1 1000)])
  with
  | Some (_, _, dir) =>
      existsb (fun a => tag_is SMB_ACL_USER a && (ca_id a =? 1000) && (ca_perms a =? ALL_ACE_PERMS)) dir
  | None => false
  end = true.
Proof. vm_compute. reflexivity. Qed.
