(* ===== verification/PosixAclRound.v ===== *)
(** * Reading an ACL and setting it again

    A client that reads the security descriptor of a file and sets it again
    leaves everyone but the owner with the access they had: the way from a POSIX
    ACL to a descriptor and back (source3/smbd/posix_acls.c). *)

From S2P Require Import Prelude.
From S2P Require Import DomSid.
From S2P Require Import SecModel.
From S2P Require Import SecDesc.
From S2P Require Import SecDescProps.
From S2P Require Import SecInherit.
From S2P Require Import FileAccess.
From S2P Require Import PosixAcl.
From S2P Require Import PosixAclFile.
From S2P Require Import PosixAclProps.
From S2P Require Import PosixAclClosed.
From stdpp Require Import prelude list.

#[local] Open Scope Z_scope.

(** ** What the access of a user depends on *)

Inductive class := CUser | CGroup | COther.

#[export] Instance class_eq_dec : EqDecision class.
Proof. solve_decision. Defined.

(** The class in which an entry counts for a user who is not the owner. *)
Definition entry_class (pst : file_stat) (u : posix_user) (e : smb_acl_entry) : option class :=
  match a_type e with
  | SMB_ACL_USER => if a_qualifier e =? pu_uid u then Some CUser else None
  | SMB_ACL_GROUP_OBJ => if in_groups u (st_gid pst) then Some CGroup else None
  | SMB_ACL_GROUP => if in_groups u (a_qualifier e) then Some CGroup else None
  | SMB_ACL_OTHER => Some COther
  | _ => None
  end.

Definition mask_perm (p : Z) (acl : list smb_acl_entry) : bool :=
  match List.find (entry_tag_is SMB_ACL_MASK) acl with Some m => has_perm p m | None => true end.

Definition acl_has (pst : file_stat) (u : posix_user) (c : class) (acl : list smb_acl_entry) : Prop :=
  exists e, In e acl /\ entry_class pst u e = Some c.

Definition acl_gives (pst : file_stat) (u : posix_user) (p : Z) (c : class) (acl : list smb_acl_entry) : Prop :=
  exists e, In e acl /\ entry_class pst u e = Some c /\ has_perm p e = true /\ (c <> COther -> mask_perm p acl = true).

(** The decision of POSIX from what there is in each class. *)
Definition decided (has gives : class -> Prop) : Prop :=
  (has CUser /\ gives CUser) \/ (~ has CUser /\ has CGroup /\ gives CGroup) \/ (~ has CUser /\ ~ has CGroup /\ gives COther).

Lemma decided_iff has gives has' gives' : (forall c, has c <-> has' c) -> (forall c, gives c <-> gives' c) ->
  decided has gives <-> decided has' gives'.
Proof. intros H1 H2. unfold decided. by rewrite !H1, !H2. Qed.

Lemma entry_tag_true t e : entry_tag_is t e = true <-> a_type e = t.
Proof. unfold entry_tag_is. by rewrite bool_decide_eq_true. Qed.

Lemma find_user pst u acl : List.find (fun e => entry_tag_is SMB_ACL_USER e && (a_qualifier e =? pu_uid u)) acl = None ->
  ~ acl_has pst u CUser acl.
Proof.
  intros E (e & He & Hc). pose proof (find_none _ _ E e He) as H. unfold entry_class, entry_tag_is in *. cbn in H.
  destruct (a_type e); try (by repeat case_match); destruct (a_qualifier e =? pu_uid u); done.
Qed.

Lemma entry_class_group pst u e : entry_class pst u e = Some CGroup <->
  entry_tag_is SMB_ACL_GROUP_OBJ e && in_groups u (st_gid pst) ||
  entry_tag_is SMB_ACL_GROUP e && in_groups u (a_qualifier e) = true.
Proof.
  unfold entry_class, entry_tag_is. destruct (a_type e); cbn; try done; repeat case_match; done.
Qed.

Lemma entry_class_other pst u e : entry_class pst u e = Some COther <-> a_type e = SMB_ACL_OTHER.
Proof. unfold entry_class. destruct (a_type e); repeat case_match; done. Qed.

Lemma entry_class_user pst u e : entry_class pst u e = Some CUser <->
  a_type e = SMB_ACL_USER /\ a_qualifier e = pu_uid u.
Proof.
  unfold entry_class. rewrite <- Z.eqb_eq. destruct (a_type e); repeat case_match; intuition (discriminate || done).
Qed.

Lemma posix_access_decided pst u p acl : acl_valid acl -> pu_uid u <> st_uid pst ->
  posix_access pst u p acl = true <-> decided (fun c => acl_has pst u c acl) (fun c => acl_gives pst u p c acl).
Proof.
  intros V Hu. unfold posix_access. rewrite (proj2 (Z.eqb_neq _ _) Hu). fold (mask_perm p acl).
  destruct (List.find _ acl) as [e|] eqn:E.
  - apply find_some in E as [Hin [Ht Hq]%andb_true_iff]. apply entry_tag_true in Ht. apply Z.eqb_eq in Hq.
    assert (Hc : entry_class pst u e = Some CUser) by by apply entry_class_user.
    assert (Hhas : acl_has pst u CUser acl) by by exists e. rewrite andb_true_iff. split.
    + intros [Hp Hm]. left. split; [done|]. by exists e.
    + intros [[_ (e' & He' & Hc' & Hp & Hm)]|[[H _]|[H _]]]; [|done..]. apply entry_class_user in Hc' as [Ht' Hq'].
      assert (e' = e) as ->; [|split; [done|by apply Hm]].
      apply list_elem_of_In, list_elem_of_lookup in He' as [i Hi]. apply list_elem_of_In, list_elem_of_lookup in Hin as [j Hj].
      assert (i = j) as ->; [|congruence]. eapply (NoDup_lookup (entry_key <$> acl)); [exact (av_once _ V)|
        rewrite list_lookup_fmap, Hi; done|]. rewrite list_lookup_fmap, Hj. cbn. unfold entry_key. congruence.
  - apply (find_user pst) in E. destruct (List.filter _ acl) as [|g gs] eqn:Eg.
    + assert (Hng : ~ acl_has pst u CGroup acl).
      { intros (e & He & Hc%entry_class_group). assert (Hin : In e (List.filter (fun e =>
          entry_tag_is SMB_ACL_GROUP_OBJ e && in_groups u (st_gid pst) ||
          entry_tag_is SMB_ACL_GROUP e && in_groups u (a_qualifier e)) acl)) by by apply filter_In. by rewrite Eg in Hin. }
      rewrite existsb_exists. unfold decided. split.
      * intros (e & He & [Ht%entry_tag_true Hp]%andb_true_iff). right. right. split; [done|]. split; [done|].
        exists e. split_and!; try done. by apply entry_class_other.
      * intros [[? _]|[(_ & ? & _)|(_ & _ & e & He & Hc & Hp & _)]]; [done..|]. exists e. split; [done|].
        apply andb_true_iff. split; [|done]. by apply entry_tag_true, (entry_class_other pst u).
    + assert (Hg : forall e, In e (g :: gs) <-> In e acl /\ entry_class pst u e = Some CGroup).
      { intros e. rewrite <- Eg, filter_In, entry_class_group. done. }
      assert (Hhg : acl_has pst u CGroup acl) by (exists g; apply Hg; by left).
      rewrite existsb_exists. unfold decided. split.
      * intros (e & [He Hc]%Hg & [Hp Hm]%andb_true_iff). right. left. split; [done|]. split; [done|]. by exists e.
      * intros [[? _]|[(_ & _ & e & He & Hc & Hp & Hm)|(_ & ? & _)]]; [done| |done]. exists e. split; [by apply Hg|].
        rewrite Hp. by apply Hm.
Qed.

(** ** Lists of entries *)

(** The class by user or group id. *)
Definition ace_class (u : posix_user) (a : canon_ace) : option class :=
  match ca_owner a with
  | UID_ACE => if ca_id a =? pu_uid u then Some CUser else None
  | GID_ACE => if in_groups u (ca_id a) then Some CGroup else None
  | WORLD_ACE => Some COther
  end.

Definition list_has (u : posix_user) (c : class) (l : list canon_ace) : Prop :=
  exists a, In a l /\ ace_class u a = Some c.

Definition list_gives (u : posix_user) (b : Z) (c : class) (l : list canon_ace) : Prop :=
  exists a, In a l /\ ace_class u a = Some c /\ bit b a = true.

Lemma ace_class_key u a a' : key a = key a' -> ace_class u a = ace_class u a'.
Proof. intros [= H1 H2]. unfold ace_class. by rewrite H1, H2. Qed.

Lemma posix_entry_class pst u a : entry_class pst u (posix_entry a) =
  match ca_type a with
  | SMB_ACL_USER => if ca_id a =? pu_uid u then Some CUser else None
  | SMB_ACL_GROUP_OBJ => if in_groups u (st_gid pst) then Some CGroup else None
  | SMB_ACL_GROUP => if in_groups u (ca_id a) then Some CGroup else None
  | SMB_ACL_OTHER => Some COther
  | _ => None
  end.
Proof. unfold entry_class, posix_entry, tag_is. cbn. by destruct (ca_type a). Qed.

Lemma typed_class pst u a : typed pst a -> pu_uid u <> st_uid pst -> entry_class pst u (posix_entry a) = ace_class u a.
Proof.
  intros H%typed_cases Hu. rewrite posix_entry_class. unfold ace_class.
  destruct (ca_type a); try tauto; repeat match goal with H : _ /\ _ |- _ => destruct H end;
    repeat match goal with H : ca_owner _ = _ |- _ => rewrite H; clear H end; try done.
  - rewrite H0. by rewrite (proj2 (Z.eqb_neq _ _) (not_eq_sym Hu)).
  - by rewrite H0.
Qed.

Lemma mask_perm_of p l : (forall a, In a l -> ca_type a <> SMB_ACL_MASK) -> 0 <= p <= 2 -> mask_perm p (posix_acl_of l) = true.
Proof.
  intros Hm Hp. unfold mask_perm. destruct (List.find _ _) as [m|] eqn:E; [|done].
  apply find_some in E as [Hin Ht%entry_tag_true]. unfold posix_acl_of in Hin.
  apply in_app_iff in Hin as [Hin|Hin].
  - apply in_map_iff in Hin as (a & <- & Ha). by apply (Hm a) in Ha.
  - destruct (_ && _); [|done]. destruct Hin as [<-|[]]. unfold has_perm. cbn.
    assert (p = 0 \/ p = 1 \/ p = 2) as [->|[->| ->]] by lia; done.
Qed.

Lemma acl_has_of pst u c l : acl_has pst u c (posix_acl_of l) <->
  exists a, In a l /\ entry_class pst u (posix_entry a) = Some c.
Proof.
  split.
  - intros (e & He & Hc). apply posix_acl_entry in He as [(a & Ha & ->)|Hm]; [by exists a|].
    unfold entry_class in Hc. by rewrite Hm in Hc.
  - intros (a & Ha & Hc). exists (posix_entry a). split; [|done]. apply in_app_iff. left. by apply in_map.
Qed.

Lemma acl_gives_of pst u b c l : (forall a, In a l -> ca_type a <> SMB_ACL_MASK) -> mode_bit b ->
  acl_gives pst u (b - 6) c (posix_acl_of l) <->
  exists a, In a l /\ entry_class pst u (posix_entry a) = Some c /\ bit b a = true.
Proof.
  intros Hm Hb. split.
  - intros (e & He & Hc & Hp & _). apply posix_acl_entry in He as [(a & Ha & ->)|Hmask].
    + exists a. split_and!; try done. unfold has_perm in Hp. cbn in Hp. by rewrite permset_bit in Hp.
    + unfold entry_class in Hc. by rewrite Hmask in Hc.
  - intros (a & Ha & Hc & Hbit). exists (posix_entry a). split; [apply in_app_iff; left; by apply in_map|].
    split; [done|]. split; [unfold has_perm; cbn; by rewrite permset_bit|]. intros _. apply mask_perm_of; [done|].
    destruct Hb as [->|[->| ->]]; lia.
Qed.

(** The access that the list gives when it is set. *)
Lemma set_list_access conn is_dir owner grp pst u b l : mode_bit b -> pu_uid u <> st_uid pst ->
  Forall (typed pst) l -> Forall world_id l -> NoDup (key <$> l) ->
  (exists g, In g l /\ ca_type g = SMB_ACL_GROUP_OBJ) -> (exists o, In o l /\ ca_type o = SMB_ACL_OTHER) ->
  posix_access pst u (b - 6) (posix_acl_of (ensure_canon_entry_valid_on_set conn is_dir owner grp pst l)) = true <->
  decided (fun c => list_has u c l) (fun c => list_gives u b c l).
Proof.
  intros Hb Hu Ht Hw Hn (g & Hg & Hgt) (o & Ho & Hot).
  destruct (ensure_nodup conn is_dir owner grp pst l Ht Hw Hn) as (N1 & N2 & N3).
  destruct (ensure_spec conn is_dir owner grp pst l) as [Hfrom Hall]; [by apply typed_obj_ids|].
  rewrite posix_access_decided by (done || by apply posix_acl_valid_of).
  set (r := ensure_canon_entry_valid_on_set conn is_dir owner grp pst l) in *. rewrite Forall_forall in Ht.
  assert (Hty : forall f, In f l -> typed pst f) by (intros f Hf; by apply Ht, list_elem_of_In).
  assert (Hclass : forall f x, In f l -> same_who x f -> entry_class pst u (posix_entry x) = ace_class u f).
  { intros f x Hf (H1 & _ & _ & H2). rewrite <- (typed_class pst u f), !posix_entry_class by auto. by rewrite H1, H2. }
  assert (Hgc : forall x, ca_type x = SMB_ACL_GROUP_OBJ \/ ca_type x = SMB_ACL_GROUP -> ca_id x = st_gid pst ->
    entry_class pst u (posix_entry x) = ace_class u g).
  { intros x Hx Hi. rewrite <- (typed_class pst u g), !posix_entry_class, Hgt by auto. by destruct Hx as [-> | ->]; rewrite ?Hi. }
  apply decided_iff; intros c.
  - rewrite acl_has_of. split.
    + intros (x & Hx & Hc). destruct (Hfrom x Hx) as [(f & Hf & Hwf & _)|[[E _]|[[E Ei]|[[E [Ei _]]|[E _]]]]].
      * exists f. split; [done|]. by rewrite <- (Hclass f x).
      * rewrite posix_entry_class, E in Hc. done.
      * rewrite posix_entry_class, E, Ei, (proj2 (Z.eqb_neq _ _) (not_eq_sym Hu)) in Hc. done.
      * exists g. split; [done|]. by rewrite <- (Hgc x).
      * exists o. split; [done|]. rewrite posix_entry_class, E in Hc. rewrite <- (typed_class pst) by auto.
        by rewrite posix_entry_class, Hot.
    + intros (f & Hf & Hc). destruct (Hall f Hf) as (x & Hx & Hwx & _). exists x. split; [done|]. by rewrite (Hclass f x).
  - rewrite acl_gives_of by done. split.
    + intros (x & Hx & Hc & Hbx). destruct (Hfrom x Hx) as [(f & Hf & Hwf & W)|[[E _]|[[E Ei]|[[E [Ei W]]|[E Ep]]]]].
      * exists f. split; [done|]. split; [by rewrite <- (Hclass f x)|]. apply W; [|done]. intros E.
        rewrite posix_entry_class, (proj1 Hwf), E in Hc. done.
      * rewrite posix_entry_class, E in Hc. done.
      * rewrite posix_entry_class, E, Ei, (proj2 (Z.eqb_neq _ _) (not_eq_sym Hu)) in Hc. done.
      * destruct (W b Hbx) as (f & Hf & [Hft|[_ Hno]] & Hbf); [|by destruct (Hno g Hg)].
        exists f. split; [done|]. split; [|done]. rewrite <- Hc, (Hgc x E Ei), <- !(typed_class pst) by auto.
        by rewrite !posix_entry_class, Hft, Hgt.
      * unfold bit in Hbx. by rewrite Ep, Z.testbit_0_l in Hbx.
    + intros (f & Hf & Hc & Hbf). destruct (Hall f Hf) as (x & Hx & Hwx & Hbx). exists x. split; [done|].
      split; [by rewrite (Hclass f x)|auto].
Qed.

(** ** A DACL without deny entries *)

Lemma allow_only conn es : Forall allow_entry es ->
  exists f, process_deny_list conn (merge_aces es false) = Some f /\ from_list es f /\ kept_in es f /\ NoDup (key <$> f).
Proof.
  intros Ha. exists (merge_same (length es) false es).
  pose proof (merge_same_attr ALLOW_ACE (length es) es ltac:(lia) Ha) as Ha'. split; [|split; [|split]].
  - unfold merge_aces. rewrite mask_denied_allow by (done || lia). unfold process_deny_list.
    rewrite deny_pass1_allow by (done || lia). cbn [app mbind option_bind].
    rewrite deny_pass2_allow by done. cbn [app]. by rewrite deny_pass3_allow.
  - apply merge_same_from. lia.
  - apply merge_same_kept. lia.
  - apply (akey_nodup ALLOW_ACE); [done|]. apply merge_same_nodup. lia.
Qed.

Lemma merged_has es f u c : from_list es f -> kept_in es f -> list_has u c f <-> list_has u c es.
Proof.
  intros Hf Hk. split.
  - intros (a & Ha & Hc). destruct (Hf a Ha) as [(x & Hx & Hw & _) _]. exists x. split; [done|].
    by rewrite <- (ace_class_key u a x) by by apply same_who_key.
  - intros (a & Ha & Hc). destruct (Hk a Ha) as (x & Hx & Hkx & _). exists x. split; [done|]. by rewrite (ace_class_key u x a).
Qed.

Lemma merged_gives es f u b c : from_list es f -> kept_in es f -> list_gives u b c f <-> list_gives u b c es.
Proof.
  intros Hf Hk. split.
  - intros (a & Ha & Hc & Hb). destruct (Hf a Ha) as [_ H]. destruct (H b Hb) as (x & Hx & Hkx & _ & Hbx). exists x.
    split; [done|]. split; [|done]. by rewrite (ace_class_key u x a).
  - intros (a & Ha & Hc & Hb). destruct (Hk a Ha) as (x & Hx & Hkx & _ & Hbx). exists x. split; [done|].
    split; [by rewrite (ace_class_key u x a)|auto].
Qed.

(** ** From entries to the DACL and back *)

Definition perms_ok (a : canon_ace) : Prop := In (ca_perms a) [0; 0x40; 0x80; 0xC0; 0x100; 0x140; 0x180; 0x1C0].

(** The permissions survive the way over an NT mask. *)
Lemma perms_roundtrip conn is_dir p : In p [0; 0x40; 0x80; 0xC0; 0x100; 0x140; 0x180; 0x1C0] ->
  map_nt_perms (map_canon_ace_perms conn p is_dir) = p.
Proof.
  intros H. unfold map_canon_ace_perms. destruct (lp_acl_map_full_control conn), (lp_dos_filemode conn), is_dir;
    repeat (destruct H as [<-|H]; [vm_compute; reflexivity|]); destruct H.
Qed.

(** The SID of an entry maps back to its id. *)
Definition sid_ok (conn : acl_conn) (a : canon_ace) : Prop :=
  match ca_owner a with
  | UID_ACE => ace_world (nt_ace conn false 0 a) = false /\ ace_id conn (nt_ace conn false 0 a) = Some (ID_TYPE_UID, ca_id a)
  | GID_ACE => ace_world (nt_ace conn false 0 a) = false /\ ace_id conn (nt_ace conn false 0 a) = Some (ID_TYPE_GID, ca_id a)
  | WORLD_ACE => ace_world (nt_ace conn false 0 a) = true /\ ca_id a = NO_ID
  end.

Definition plain (a : canon_ace) : Prop := ca_flags a = 0.

Lemma sid_ok_who conn a : sid_ok conn a -> who_ok conn (nt_ace conn false 0 a) (ca_owner a) (ca_id a).
Proof. unfold sid_ok, who_ok, ace_user, ace_group. destruct (ca_owner a); intros [-> H]; rewrite ?H; done. Qed.

Lemma entry_of_key conn pst a e : sid_ok conn a -> entry_of conn pst (nt_ace conn false 0 a) e -> key e = key a.
Proof.
  intros Hs (_ & _ & _ & _ & _ & _ & Hid). unfold sid_ok, key in *. unfold ace_user, ace_group in Hid.
  assert (Hwid : ace_world (nt_ace conn false 0 a) = true -> ace_id conn (nt_ace conn false 0 a) = None)
    by (intros Hw; unfold ace_id; by rewrite Hw).
  destruct (ca_owner a); destruct Hs as [Hw Hs]; rewrite ?Hs, ?(Hwid Hw) in Hid; destruct (ca_owner e); try congruence;
    destruct Hid; congruence.
Qed.

Lemma plain_active conn a : plain a -> ace_active (nt_ace conn false 0 a) = true.
Proof. unfold plain, ace_active. cbn. by intros ->. Qed.

(** The lists before and after are of one class and have the same permissions. *)
Section Nt_round.
Context (conn : acl_conn) (pst : file_stat) (cs es : list canon_ace) (l : list security_ace) (u : posix_user) (b : Z).
Hypothesis sids : Forall (sid_ok conn) cs.
Hypothesis plains : Forall plain cs.
Hypothesis perms : Forall perms_ok cs.
Hypothesis entries : forall psa, In psa l <-> exists a, In a cs /\ psa = nt_ace conn false 0 a.
Hypothesis listed : file_list conn pst l es.

Lemma round_back e : In e es -> exists a, In a cs /\ key e = key a /\ ca_perms e = ca_perms a.
Proof.
  intros He. destruct (fl_from _ _ _ _ listed e He) as (psa & Hp & Hof). apply entries in Hp as (a & Ha & ->).
  rewrite Forall_forall in sids, perms. apply list_elem_of_In in Ha as Ha'. exists a. split; [done|].
  split; [by eapply entry_of_key; [apply sids|]|]. destruct Hof as (_ & _ & _ & -> & _). by apply perms_roundtrip, perms.
Qed.

Lemma round_there a : In a cs -> exists e, In e es /\ key e = key a /\ ca_perms e = ca_perms a.
Proof.
  intros Ha. rewrite Forall_forall in sids, perms, plains. apply list_elem_of_In in Ha as Ha'.
  destruct (fl_entries _ _ _ _ listed (nt_ace conn false 0 a) (ca_owner a) (ca_id a)) as (e & He & Ho & Hi & Hp).
  - apply entries. by exists a.
  - by apply plain_active, plains.
  - by apply sid_ok_who, sids.
  - exists e. split; [done|]. split; [unfold key; congruence|]. rewrite Hp. by apply perms_roundtrip, perms.
Qed.

Lemma round_has c : list_has u c es <-> list_has u c cs.
Proof.
  split; intros (a & Ha & Hc).
  - destruct (round_back a Ha) as (x & Hx & Hk & _). exists x. split; [done|]. by rewrite <- (ace_class_key u a x).
  - destruct (round_there a Ha) as (x & Hx & Hk & _). exists x. split; [done|]. by rewrite (ace_class_key u x a).
Qed.

Lemma round_gives c : list_gives u b c es <-> list_gives u b c cs.
Proof.
  split; intros (a & Ha & Hc & Hb).
  - destruct (round_back a Ha) as (x & Hx & Hk & Hp). exists x. unfold bit in *. rewrite <- Hp.
    by rewrite <- (ace_class_key u a x).
  - destruct (round_there a Ha) as (x & Hx & Hk & Hp). exists x. unfold bit in *. rewrite Hp.
    by rewrite (ace_class_key u x a).
Qed.

End Nt_round.

(** ** From the POSIX ACL to entries *)

Lemma read_entries_spec conn pst owner grp acl :
  let '(l, mask) := read_entries conn pst owner grp None false acl in
  (forall a, In a l <-> exists e, In e acl /\ canon_entry conn pst owner grp None false e = Some a) /\
  mask = match List.find (entry_tag_is SMB_ACL_MASK) (rev acl) with
         | Some m => convert_permset_to_mode_t (a_perm m)
         | None => ALL_ACE_PERMS
         end.
Proof.
  unfold read_entries. induction acl as [|e acl IH] using rev_ind; [split; [|done]; split; [done|by intros (? & [] & _)]|].
  rewrite foldl_app. destruct (foldl _ _ acl) as [l mask]. destruct IH as [IH1 IH2]. cbn [foldl].
  rewrite rev_app_distr. cbn [rev app List.find].
  destruct (canon_entry conn pst owner grp None false e) as [a|] eqn:Ea.
  - split.
    + intros x. cbn [In]. rewrite IH1. setoid_rewrite in_app_iff. cbn. split.
      * intros [<-|(y & Hy & H)]; [exists e; auto|exists y; auto].
      * intros (y & [Hy|[<-|[]]] & H); [right; eauto|left; congruence].
    + rewrite IH2. destruct (entry_tag_is SMB_ACL_MASK e) eqn:Em; [|done]. apply entry_tag_true in Em.
      unfold canon_entry in Ea. by rewrite Em in Ea.
  - assert (Em : a_type e = SMB_ACL_MASK) by (unfold canon_entry in Ea; by destruct (a_type e)).
    unfold entry_tag_is. rewrite bool_decide_eq_true_2 by done. split; [|done]. intros x. rewrite IH1.
    setoid_rewrite in_app_iff. cbn. split; [intros (y & ? & ?); eauto|].
    intros (y & [Hy|[<-|[]]] & H); [eauto|congruence].
Qed.

Definition mask_entry (mask : Z) (a : canon_ace) : canon_ace :=
  if negb (tag_is SMB_ACL_OTHER a) && negb (tag_is SMB_ACL_USER_OBJ a)
  then set_ca_perms a (Z.land (ca_perms a) mask) else a.

Lemma mask_and_promote_perm mask todo done_ : mask_and_promote mask done_ todo ≡ₚ done_ ++ map (mask_entry mask) todo.
Proof.
  revert done_. induction todo as [|a todo IH]; intros done_; cbn [mask_and_promote map]; [by rewrite app_nil_r|].
  fold (mask_entry mask a). case_match; rewrite IH; [by rewrite <- Permutation_middle|by rewrite <- app_assoc].
Qed.

Lemma take_out_perm t l a l' : take_out t l = Some (a, l') -> l ≡ₚ a :: l'.
Proof.
  revert a l'. induction l as [|x l IH]; [done|]. intros a l'. cbn. destruct (take_out t l) as [[e r]|].
  - intros [= <- <-]. rewrite (IH e r) by done. apply perm_swap.
  - case_match; [by intros [= <- <-]|done].
Qed.

Lemma arrange_perm l : arrange_posix_perms l ≡ₚ l.
Proof.
  unfold arrange_posix_perms. destruct (take_out SMB_ACL_USER_OBJ l) as [[o l1]|] eqn:E1; [|done].
  apply take_out_perm in E1. destruct (take_out SMB_ACL_OTHER l) as [p|]; [|done].
  destruct (take_out SMB_ACL_OTHER (o :: l1)) as [[x l2]|] eqn:E2; [|by rewrite E1].
  apply take_out_perm in E2. rewrite E1, E2. symmetry. apply Permutation_cons_append.
Qed.

Lemma existsb_tag t l : existsb (tag_is t) l = true <-> exists a, In a l /\ ca_type a = t.
Proof.
  rewrite existsb_exists. unfold tag_is. setoid_rewrite bool_decide_eq_true. done.
Qed.

(** The type of an entry is kept. *)
Lemma canon_entry_type conn pst owner grp e a : canon_entry conn pst owner grp None false e = Some a -> ca_type a = a_type e.
Proof. unfold canon_entry. destruct (a_type e) eqn:E; try done; intros [= <-]; cbn; congruence. Qed.

Lemma canon_entry_some conn pst owner grp e : a_type e <> SMB_ACL_MASK ->
  exists a, canon_entry conn pst owner grp None false e = Some a.
Proof. unfold canon_entry. destruct (a_type e); eauto. done. Qed.

(** The entries of a valid ACL. *)
Lemma canonicalise_acl_in conn pst owner grp acl : acl_valid acl ->
  forall c, In c (canonicalise_acl conn pst owner grp None false acl) <->
    exists e a, In e acl /\ canon_entry conn pst owner grp None false e = Some a /\
      c = mask_entry (match List.find (entry_tag_is SMB_ACL_MASK) (rev acl) with
                      | Some m => convert_permset_to_mode_t (a_perm m) | None => ALL_ACE_PERMS end) a.
Proof.
  intros V c. unfold canonicalise_acl. pose proof (read_entries_spec conn pst owner grp acl) as R.
  destruct (read_entries _ _ _ _ _ _ acl) as [l mask]. destruct R as [R1 <-].
  assert (Hgot : forall t, t = SMB_ACL_USER_OBJ \/ t = SMB_ACL_GROUP_OBJ \/ t = SMB_ACL_OTHER -> existsb (tag_is t) l = true).
  { intros t Ht. pose proof (av_objs _ V t Ht) as Hin. apply list_elem_of_In, list_elem_of_fmap in Hin as (e & Hk & He).
    injection Hk as Hk _. destruct (canon_entry_some conn pst owner grp e) as [a Ha].
    { rewrite <- Hk. by destruct Ht as [->|[->| ->]]. }
    apply existsb_tag. exists a. split; [apply R1; exists e; split; [by apply list_elem_of_In|done]|].
    by rewrite (canon_entry_type conn pst owner grp e a). }
  assert (E : ensure_canon_entry_valid_on_get owner grp pst l = l).
  { unfold ensure_canon_entry_valid_on_get. by rewrite !Hgot by auto. }
  rewrite E. assert (P : arrange_posix_perms (mask_and_promote mask [] l) ≡ₚ map (mask_entry mask) l)
    by by rewrite arrange_perm, mask_and_promote_perm.
  split.
  - intros Hc. apply (Permutation_in _ P) in Hc. apply in_map_iff in Hc as (a & <- & Ha). apply R1 in Ha as (e & ? & ?).
    by exists e, a.
  - intros (e & a & He & Ha & ->). apply (Permutation_in _ (symmetry P)). apply in_map, R1. eauto.
Qed.

Lemma permset_mode_bit p b : mode_bit b -> Z.testbit (convert_permset_to_mode_t p) b = Z.testbit p (b - 6).
Proof.
  intros Hb. unfold convert_permset_to_mode_t.
  change SMB_ACL_READ with (Z.shiftl 1 2). change SMB_ACL_WRITE with (Z.shiftl 1 1). change SMB_ACL_EXECUTE with (Z.shiftl 1 0).
  rewrite !bit_of_word by lia.
  destruct Hb as [->|[->| ->]]; cbn [Z.sub Z.add Z.opp Z.pos_sub]; destruct (Z.testbit p 2) eqn:E2, (Z.testbit p 1) eqn:E1, (Z.testbit p 0) eqn:E0;
    cbn -[Z.testbit]; rewrite ?E0, ?E1, ?E2; done.
Qed.

Definition MODES : list Z := [0; 0x40; 0x80; 0xC0; 0x100; 0x140; 0x180; 0x1C0].

Lemma permset_mode_ok p : In (convert_permset_to_mode_t p) MODES.
Proof. unfold convert_permset_to_mode_t. repeat case_match; cbn; tauto. Qed.

Lemma land_mode_ok x y : In x MODES -> In y MODES -> In (Z.land x y) MODES.
Proof.
  intros Hx Hy. repeat (destruct Hx as [<-|Hx]; [repeat (destruct Hy as [<-|Hy]; [cbn; tauto|]); destruct Hy|]). destruct Hx.
Qed.

Lemma valid_mask acl m m' : acl_valid acl -> In m acl -> In m' acl -> a_type m = SMB_ACL_MASK -> a_type m' = SMB_ACL_MASK -> m = m'.
Proof.
  intros V Hm Hm' Ht Ht'. assert (Hq : forall e, In e acl -> a_type e = SMB_ACL_MASK -> a_qualifier e = 0).
  { intros e He Hte. apply (av_quals _ V e He). unfold named_entry, entry_tag_is. by rewrite Hte. }
  pose proof (Hq m Hm Ht) as Q. pose proof (Hq m' Hm' Ht') as Q'.
  apply list_elem_of_In, list_elem_of_lookup in Hm as [i Hi]. apply list_elem_of_In, list_elem_of_lookup in Hm' as [j Hj].
  assert (i = j) as ->; [|congruence]. eapply (NoDup_lookup (entry_key <$> acl)); [exact (av_once _ V)|
    rewrite list_lookup_fmap, Hi; done|]. rewrite list_lookup_fmap, Hj. cbn. unfold entry_key. congruence.
Qed.

Definition mode_mask (acl : list smb_acl_entry) : Z :=
  match List.find (entry_tag_is SMB_ACL_MASK) (rev acl) with
  | Some m => convert_permset_to_mode_t (a_perm m) | None => ALL_ACE_PERMS end.

Lemma mode_mask_ok acl : In (mode_mask acl) MODES.
Proof. unfold mode_mask. case_match; [apply permset_mode_ok|]. cbn. tauto. Qed.

Lemma mode_mask_bit acl b : acl_valid acl -> mode_bit b -> Z.testbit (mode_mask acl) b = mask_perm (b - 6) acl.
Proof.
  intros V Hb. unfold mode_mask, mask_perm. destruct (List.find _ (rev acl)) as [m|] eqn:E.
  - apply find_some in E as [Hm%in_rev Ht%entry_tag_true]. destruct (List.find _ acl) as [m'|] eqn:E'.
    + apply find_some in E' as [Hm' Ht'%entry_tag_true]. rewrite (valid_mask acl m m') by done. by apply permset_mode_bit.
    + pose proof (find_none _ _ E' m Hm) as Hn. unfold entry_tag_is in Hn. by rewrite bool_decide_eq_true_2 in Hn.
  - destruct (List.find _ acl) as [m'|] eqn:E'; [|by destruct Hb as [->|[->| ->]]].
    apply find_some in E' as [Hm' Ht']. pose proof (find_none _ _ E m' ltac:(by apply in_rev; rewrite rev_involutive)) as Hn. congruence.
Qed.

(** SIDs that map back to the ids they are for. *)
Record maps_back (conn : acl_conn) : Prop := {
  mb_uid : forall id, map_sid conn (uid_to_sid conn id) = Some (ID_TYPE_UID, id);
  mb_gid : forall id, map_sid conn (gid_to_sid conn id) = Some (ID_TYPE_GID, id);
  mb_uid_plain : forall id sid, In sid [global_sid_World; global_sid_Creator_Owner; global_sid_Creator_Group] ->
    dom_sid_equal (Some (uid_to_sid conn id)) (Some sid) = false;
  mb_gid_plain : forall id sid, In sid [global_sid_World; global_sid_Creator_Owner; global_sid_Creator_Group] ->
    dom_sid_equal (Some (gid_to_sid conn id)) (Some sid) = false;
  mb_uid_equal : forall id id', in_w 32 id -> in_w 32 id' -> dom_sid_equal (Some (uid_to_sid conn id)) (Some (uid_to_sid conn id')) = true -> id = id';
  mb_gid_equal : forall id id', in_w 32 id -> in_w 32 id' -> dom_sid_equal (Some (gid_to_sid conn id)) (Some (gid_to_sid conn id')) = true -> id = id'
}.

(** Ids are 32 bits wide. *)
Definition ids_fit (pst : file_stat) (acl : list smb_acl_entry) : Prop :=
  in_w 32 (st_uid pst) /\ in_w 32 (st_gid pst) /\ Forall (fun e => in_w 32 (a_qualifier e)) acl.

Section Get.
Context (conn : acl_conn) (pst : file_stat) (acl : list smb_acl_entry).
Hypothesis back : maps_back conn.
Hypothesis valid : acl_valid acl.

Let cs := canonicalise_acl conn pst (uid_to_sid conn (st_uid pst)) (gid_to_sid conn (st_gid pst)) None false acl.

Lemma get_in c : In c cs <-> exists e a, In e acl /\
  canon_entry conn pst (uid_to_sid conn (st_uid pst)) (gid_to_sid conn (st_gid pst)) None false e = Some a /\
  c = mask_entry (mode_mask acl) a.
Proof. by apply canonicalise_acl_in. Qed.

Lemma mask_entry_who m a : same_who (mask_entry m a) a /\ ca_flags (mask_entry m a) = ca_flags a.
Proof. unfold mask_entry. by case_match. Qed.

Lemma user_sid_ok t p f id : sid_ok conn (Canon_ace t p (uid_to_sid conn id) UID_ACE ALLOW_ACE id f).
Proof.
  unfold sid_ok, ace_id, ace_world. cbn. rewrite !(mb_uid_plain _ back) by (cbn; tauto). cbn. split; [done|]. apply back.
Qed.

Lemma group_sid_ok t p f id : sid_ok conn (Canon_ace t p (gid_to_sid conn id) GID_ACE ALLOW_ACE id f).
Proof.
  unfold sid_ok, ace_id, ace_world. cbn. rewrite !(mb_gid_plain _ back) by (cbn; tauto). cbn. split; [done|]. apply back.
Qed.

Lemma get_sids : Forall (sid_ok conn) cs.
Proof.
  apply Forall_forall. intros c Hc%list_elem_of_In. apply get_in in Hc as (e & a & He & Ha & ->).
  destruct (mask_entry_who (mode_mask acl) a) as [(_ & Htr & Ho & Hi) _].
  assert (Hs : sid_ok conn a).
  { unfold canon_entry in Ha. destruct (a_type e); simplify_eq; cbn; (apply user_sid_ok || apply group_sid_ok || done). }
  unfold sid_ok, ace_id, ace_world in *. cbn in *. by rewrite Htr, Ho, Hi.
Qed.

Lemma get_trustee c : In c cs -> match ca_owner c with
                                 | UID_ACE => ca_trustee c = uid_to_sid conn (ca_id c)
                                 | GID_ACE => ca_trustee c = gid_to_sid conn (ca_id c)
                                 | WORLD_ACE => True
                                 end.
Proof.
  intros (e & a & He & Ha & ->)%get_in. destruct (mask_entry_who (mode_mask acl) a) as [(_ & -> & -> & ->) _].
  unfold canon_entry in Ha. by destruct (a_type e); simplify_eq.
Qed.

Lemma get_ids c : ids_fit pst acl -> In c cs -> in_w 32 (ca_id c).
Proof.
  intros (Hu & Hg & Hq) (e & a & He & Ha & ->)%get_in. destruct (mask_entry_who (mode_mask acl) a) as [(_ & _ & _ & ->) _].
  rewrite Forall_forall in Hq. specialize (Hq e ltac:(by apply list_elem_of_In)).
  unfold canon_entry in Ha. by destruct (a_type e); simplify_eq.
Qed.

Lemma get_plain : Forall plain cs.
Proof.
  apply Forall_forall. intros c Hc%list_elem_of_In. apply get_in in Hc as (e & a & He & Ha & ->).
  unfold plain. rewrite (proj2 (mask_entry_who _ _)). unfold canon_entry in Ha. by destruct (a_type e); simplify_eq.
Qed.

Lemma get_perms : Forall perms_ok cs.
Proof.
  apply Forall_forall. intros c Hc%list_elem_of_In. apply get_in in Hc as (e & a & He & Ha & ->).
  assert (Hp : ca_perms a = convert_permset_to_mode_t (a_perm e)) by (unfold canon_entry in Ha; by destruct (a_type e); simplify_eq).
  unfold perms_ok, mask_entry. pose proof (permset_mode_ok (a_perm e)). case_match; cbn; rewrite Hp; [|done].
  apply land_mode_ok; [done|apply mode_mask_ok].
Qed.

Lemma canon_entry_class u e a : pu_uid u <> st_uid pst ->
  canon_entry conn pst (uid_to_sid conn (st_uid pst)) (gid_to_sid conn (st_gid pst)) None false e = Some a ->
  ace_class u a = entry_class pst u e.
Proof.
  intros Hu. unfold canon_entry, entry_class, ace_class. destruct (a_type e); intros; simplify_eq; cbn; try done.
  by rewrite (proj2 (Z.eqb_neq _ _) (not_eq_sym Hu)).
Qed.

Lemma get_has u c : pu_uid u <> st_uid pst -> list_has u c cs <-> acl_has pst u c acl.
Proof.
  intros Hu. split.
  - intros (x & Hx & Hc). apply get_in in Hx as (e & a & He & Ha & ->). exists e. split; [done|].
    rewrite <- (canon_entry_class u e a Hu Ha). rewrite <- (ace_class_key u (mask_entry (mode_mask acl) a) a); [done|].
    by apply same_who_key, mask_entry_who.
  - intros (e & He & Hc). destruct (canon_entry_some conn pst (uid_to_sid conn (st_uid pst)) (gid_to_sid conn (st_gid pst)) e) as [a Ha].
    { intros Hm. unfold entry_class in Hc. by rewrite Hm in Hc. }
    exists (mask_entry (mode_mask acl) a). split; [apply get_in; eauto|].
    rewrite (ace_class_key u _ a) by by apply same_who_key, mask_entry_who. by rewrite (canon_entry_class u e a Hu Ha).
Qed.

Lemma get_bit b e a c u : mode_bit b -> pu_uid u <> st_uid pst -> entry_class pst u e = Some c ->
  canon_entry conn pst (uid_to_sid conn (st_uid pst)) (gid_to_sid conn (st_gid pst)) None false e = Some a ->
  bit b (mask_entry (mode_mask acl) a) = true <->
  has_perm (b - 6) e = true /\ (c <> COther -> mask_perm (b - 6) acl = true).
Proof.
  intros Hb Hu Hc Ha. assert (Hp : ca_perms a = convert_permset_to_mode_t (a_perm e))
    by (unfold canon_entry in Ha; by destruct (a_type e); simplify_eq).
  pose proof (canon_entry_type _ _ _ _ _ _ Ha) as Ht. unfold bit, mask_entry, tag_is, has_perm.
  destruct (decide (c = COther)) as [->|Hne].
  - apply entry_class_other in Hc. rewrite Ht, Hc, bool_decide_eq_true_2 by done. cbn [negb andb].
    rewrite Hp, permset_mode_bit by done. intuition.
  - assert (H1 : a_type e <> SMB_ACL_OTHER) by (intros E; unfold entry_class in Hc; rewrite E in Hc; congruence).
    assert (H2 : a_type e <> SMB_ACL_USER_OBJ) by (intros E; unfold entry_class in Hc; rewrite E in Hc; congruence).
    rewrite Ht, !bool_decide_eq_false_2 by done. cbn [negb andb set_ca_perms ca_perms]. rewrite Z.land_spec, andb_true_iff, Hp, permset_mode_bit, mode_mask_bit by done.
    intuition.
Qed.

Lemma get_gives u b c : mode_bit b -> pu_uid u <> st_uid pst -> list_gives u b c cs <-> acl_gives pst u (b - 6) c acl.
Proof.
  intros Hb Hu. split.
  - intros (x & Hx & Hc & Hbx). apply get_in in Hx as (e & a & He & Ha & ->).
    rewrite (ace_class_key u _ a), (canon_entry_class u e a Hu Ha) in Hc by by apply same_who_key, mask_entry_who.
    apply (get_bit b e a c u Hb Hu Hc Ha) in Hbx as [H1 H2]. by exists e.
  - intros (e & He & Hc & Hp & Hm).
    destruct (canon_entry_some conn pst (uid_to_sid conn (st_uid pst)) (gid_to_sid conn (st_gid pst)) e) as [a Ha].
    { intros E. unfold entry_class in Hc. by rewrite E in Hc. }
    exists (mask_entry (mode_mask acl) a). split; [apply get_in; eauto|]. split.
    + rewrite (ace_class_key u _ a) by by apply same_who_key, mask_entry_who. by rewrite (canon_entry_class u e a Hu Ha).
    + by apply (get_bit b e a c u Hb Hu Hc Ha).
Qed.

End Get.

(** ** The descriptor *)

Lemma merge_default_none ai l : Forall (fun a => ace_flags a = 0) l -> merge_default ai l = None.
Proof.
  induction 1 as [|a l Ha _ IH]; [done|]. cbn. unfold default_of. rewrite Ha. cbn. by rewrite andb_false_r, IH.
Qed.

Lemma merge_default_aces_plain l : Forall (fun a => ace_flags a = 0) l -> merge_default_aces l = l.
Proof.
  unfold merge_default_aces. induction 1 as [|a l Ha Hl IH]; [done|]. cbn [length merge_default_loop].
  by rewrite (merge_default_none a l Hl), IH.
Qed.

Lemma dacl_sort_perm qsort `{!Qsort qsort} l : dacl_sort_into_canonical_order qsort l ≡ₚ l.
Proof. destruct (dacl_sort_parts qsort l) as (e & h & -> & He & Hh & _). rewrite He, Hh. apply filter_partition. Qed.

(** The DACL that is read has the entries of the ACL. *)
Lemma get_dacl qsort `{!Qsort qsort} junk conn pst acl info : maps_back conn -> acl_valid acl ->
  has_bits info SECINFO_DACL = true ->
  exists l, dacl (posix_get_nt_acl_common qsort junk conn false pst None acl None info) = Some (Security_acl 2 l) /\
    l ≡ₚ map (nt_ace conn false 0) (canonicalise_acl conn pst (uid_to_sid conn (st_uid pst))
                                      (gid_to_sid conn (st_gid pst)) None false acl).
Proof.
  intros Hb V Hi. unfold posix_get_nt_acl_common. rewrite Hi.
  pose proof (get_plain conn pst acl V) as Hp. pose proof (get_in conn pst acl V) as Hin.
  set (cs := canonicalise_acl _ _ _ _ _ _ acl) in *. cbn [map]. rewrite app_nil_r, merge_default_aces_plain.
  2: { apply Forall_fmap. eapply Forall_impl; [exact Hp|]. unfold plain. intros a Ha. cbn. by rewrite Ha. }
  assert (Hne : exists c cs', cs = c :: cs').
  { pose proof (av_objs _ V SMB_ACL_OTHER ltac:(auto)) as Ho. apply list_elem_of_In, list_elem_of_fmap in Ho as (e & Hk & He).
    injection Hk as Hk _. destruct (canon_entry_some conn pst (uid_to_sid conn (st_uid pst)) (gid_to_sid conn (st_gid pst)) e) as [a Ha];
      [by rewrite <- Hk|].
    assert (Hc : In (mask_entry (mode_mask acl) a) cs) by (apply Hin; exists e, a; split; [by apply list_elem_of_In|done]).
    destruct cs as [|c cs']; [done|eauto]. }
  destruct Hne as (c & cs' & ->). cbn [map]. eexists. split; [done|].
  rewrite dacl_sort_perm by done. unfold make_sec_acl. cbn [aces]. rewrite take_ge by done. done.
Qed.

(** ** Setting it *)

Definition mappable (conn : acl_conn) (psa : security_ace) : Prop :=
  ace_allows psa = true /\ ace_active psa = true /\
  (ace_world psa = true \/ exists t id, ace_id conn psa = Some (t, id) /\ t <> ID_TYPE_NOT_SPECIFIED).

Lemma add_current_ok psa st a : ace_allows psa = true -> ace_active psa = true ->
  exists st', add_current_ace_to_acl false psa st a = Some st' /\ dir_ace st' = dir_ace st.
Proof.
  intros Ha Hact. unfold add_current_ace_to_acl. fold (ace_allows psa). rewrite Ha. unfold ace_active in Hact.
  cbn [andb]. rewrite Hact. unfold add_file_ace, is_deny. cbn. eauto.
Qed.

Lemma add_nt_ace_ok conn pst st psa : mappable conn psa ->
  exists st', add_nt_ace conn false pst st psa = Some st' /\ dir_ace st' = dir_ace st.
Proof.
  intros (Ha & Hact & Hid). unfold add_nt_ace. fold (ace_world psa). destruct (ace_world psa) eqn:Ew; [by apply add_current_ok|].
  destruct Hid as [?|(t & id & Hid & Ht)]; [done|]. unfold ace_id in Hid. rewrite Ew in Hid. cbn [orb] in Hid.
  destruct (dom_sid_equal _ (Some global_sid_Creator_Owner)); [done|].
  destruct (dom_sid_equal _ (Some global_sid_Creator_Group)); [done|]. cbn in Hid. rewrite Hid.
  destruct t; [done|by apply add_current_ok..|].
  destruct (add_current_ok psa st (new_canon_ace (user_tag pst id) (trustee psa) UID_ACE id) Ha Hact) as (st1 & -> & E1).
  cbn [mbind option_bind].
  destruct (add_current_ok psa st1 (new_canon_ace (group_tag pst id) (trustee psa) GID_ACE id) Ha Hact) as (st2 & -> & E2).
  exists st2. split; [done|congruence].
Qed.

Lemma add_nt_aces_ok conn pst l st : Forall (mappable conn) l ->
  exists st', add_nt_aces conn false pst st l = Some st' /\ dir_ace st' = dir_ace st.
Proof.
  intros H. revert st. induction H as [|psa l Hp _ IH]; intros st; [by exists st|]. cbn [add_nt_aces].
  destruct (add_nt_ace_ok conn pst st psa Hp) as (st1 & -> & E1). cbn [mbind option_bind].
  destruct (IH st1) as (st2 & -> & E2). exists st2. split; [done|congruence].
Qed.

Lemma mappable_same conn l l0 : Forall2 same_ace l l0 -> Forall (mappable conn) l0 -> Forall (mappable conn) l.
Proof.
  induction 1 as [|a a0 l l0 (H1 & H2 & H3 & H4) _ IH]; [done|]. intros [Ha Hl]%Forall_cons. constructor; [|by apply IH].
  unfold mappable, ace_allows, ace_id, ace_world in *. by rewrite H2, H3, H4.
Qed.

(** A DACL of such entries is accepted. *)
Lemma unpack_allow_ok conn pst owner grp info psd acl : dacl psd = Some acl -> has_bits info SECINFO_DACL = true ->
  own_ids conn pst owner grp (aces acl) -> Forall (mappable conn) (aces acl) -> aces acl <> [] ->
  exists es f, file_list conn pst (aces acl) es /\ from_list es f /\ kept_in es f /\ NoDup (key <$> f) /\
    unpack_canon_ace conn false pst owner grp info psd =
      Some (true, ensure_canon_entry_valid_on_set conn false owner grp pst f, []).
Proof.
  intros Hacl Hi Hown Hm Hne. unfold unpack_canon_ace. rewrite Hacl, Hi.
  assert (E0 : (info =? 0) = false) by (destruct (Z.eqb_spec info 0) as [->|]; [by vm_compute in Hi|done]). rewrite E0.
  cbn [negb]. unfold create_canon_ace_lists.
  assert (Hset : forallb (fun a => settable_type (ace_type a)) (aces acl) = true).
  { apply forallb_forall. intros a Ha. rewrite Forall_forall in Hm. destruct (Hm a ltac:(by apply list_elem_of_In)) as (Hal & _).
    unfold ace_allows in Hal. apply bool_decide_eq_true in Hal. by rewrite Hal. }
  rewrite Hset. cbn [negb]. pose proof (repair_all_same (length (aces acl)) (aces acl) ltac:(lia)) as Hr.
  destruct (add_nt_aces_ok conn pst _ (Canon_lists [] [] false false false) (mappable_same conn _ _ Hr Hm)) as (st & Est & Ed).
  rewrite Est. cbn [mbind option_bind andb]. apply file_list_nt_aces in Est as F.
  rewrite (check_owning_objs_same conn pst owner grp (aces acl) _ Hown F), Ed. cbn [dir_ace].
  assert (Hal : Forall allow_entry (file_ace st)).
  { apply Forall_forall. intros e He%list_elem_of_In. destruct (fl_from _ _ _ _ F e He) as (psa & Hp & _ & _ & _ & _ & Hat & _).
    rewrite Forall_forall in Hm. destruct (Hm psa ltac:(by apply list_elem_of_In)) as (Hal & _). unfold allow_entry. by rewrite Hat, Hal. }
  destruct (allow_only conn (file_ace st) Hal) as (f & Ef & Hf & Hk & Hn). exists (file_ace st), f. split_and!; try done.
  assert (Hnil : file_ace st <> []).
  { destruct (aces acl) as [|psa l] eqn:Eal; [done|]. apply Forall_cons in Hm as [(_ & Hact & Hid) _]. intros Enil.
    assert (Hw : exists o id, who_ok conn psa o id).
    { destruct (ace_world psa) eqn:Ew; [by exists WORLD_ACE, NO_ID|]. destruct Hid as [?|(t & id & Hid & Ht)]; [done|].
      destruct t; [done|exists UID_ACE, id|exists GID_ACE, id|exists UID_ACE, id]; unfold who_ok, ace_user, ace_group; by rewrite Hid. }
    destruct Hw as (o & id & Hw). destruct (fl_entries _ _ _ _ F psa o id (or_introl eq_refl) Hact Hw) as (e & He & _). by rewrite Enil in He. }
  destruct (file_ace st) as [|x l]; [done|]. rewrite Ef. done.
Qed.

Section Round.
Context (conn : acl_conn) (pst : file_stat) (acl : list smb_acl_entry) (l : list security_ace).
Hypothesis back : maps_back conn.
Hypothesis valid : acl_valid acl.
Hypothesis ids : ids_fit pst acl.

Let cs := canonicalise_acl conn pst (uid_to_sid conn (st_uid pst)) (gid_to_sid conn (st_gid pst)) None false acl.

Hypothesis read_dacl : l ≡ₚ map (nt_ace conn false 0) cs.

Lemma read_in psa : In psa l <-> exists a, In a cs /\ psa = nt_ace conn false 0 a.
Proof.
  split.
  - intros Hp. apply (Permutation_in _ read_dacl), in_map_iff in Hp as (a & <- & Ha). by exists a.
  - intros (a & Ha & ->). apply (Permutation_in _ (symmetry read_dacl)). by apply in_map.
Qed.

Lemma read_mappable : Forall (mappable conn) l.
Proof.
  pose proof (get_sids conn pst acl back valid) as Hs. pose proof (get_plain conn pst acl valid) as Hp.
  rewrite Forall_forall in Hs, Hp. apply Forall_forall. intros psa Hpsa%list_elem_of_In. apply read_in in Hpsa as (a & Ha & ->).
  apply list_elem_of_In in Ha. split; [done|]. split; [by apply plain_active, Hp|]. specialize (Hs a Ha). unfold sid_ok in Hs.
  destruct (ca_owner a), Hs as [H1 H2]; [right..|by left]; eexists _, _; done.
Qed.

Lemma read_own_ids : own_ids conn pst (uid_to_sid conn (st_uid pst)) (gid_to_sid conn (st_gid pst)) l.
Proof.
  pose proof (get_sids conn pst acl back valid) as Hs. rewrite Forall_forall in Hs.
  split; intros psa id Hin Heq Hid; apply read_in in Hin as (a & Ha & ->); apply list_elem_of_In in Ha as Ha';
    specialize (Hs a Ha'); pose proof (get_trustee conn pst acl valid a Ha) as Ht; cbn in Heq;
    unfold sid_ok in Hs; unfold ace_user, ace_group in Hid; destruct (ca_owner a), Hs as [Hw Hs];
    rewrite ?Hs in Hid; try done; try (unfold ace_id in Hid; by rewrite Hw in Hid); injection Hid as <-; rewrite Ht in Heq.
  - apply (mb_uid_equal _ back) in Heq; [done|by apply (get_ids conn pst acl valid a ids)|apply ids].
  - apply (mb_gid_equal _ back) in Heq; [done|by apply (get_ids conn pst acl valid a ids)|apply ids].
Qed.

(** The entries of owning group and others are there. *)
Lemma read_objs t : t = SMB_ACL_GROUP_OBJ \/ t = SMB_ACL_OTHER ->
  exists c, In c cs /\ ca_owner c = (if bool_decide (t = SMB_ACL_OTHER) then WORLD_ACE else GID_ACE) /\
            (t = SMB_ACL_GROUP_OBJ -> ca_id c = st_gid pst).
Proof.
  intros Ht. pose proof (av_objs _ valid t ltac:(tauto)) as Hin. apply list_elem_of_In, list_elem_of_fmap in Hin as (e & Hk & He).
  injection Hk as Hk _.
  destruct (canon_entry_some conn pst (uid_to_sid conn (st_uid pst)) (gid_to_sid conn (st_gid pst)) e) as [a Ha];
    [rewrite <- Hk; by destruct Ht as [-> | ->]|].
  exists (mask_entry (mode_mask acl) a). split; [apply get_in; [done|]; exists e, a; split; [by apply list_elem_of_In|done]|].
  destruct (mask_entry_who (mode_mask acl) a) as [(_ & _ & -> & ->) _]. unfold canon_entry in Ha. rewrite <- Hk in Ha.
  destruct Ht as [-> | ->]; by simplify_eq.
Qed.

Lemma round_access es f u b : file_list conn pst l es -> from_list es f -> kept_in es f -> NoDup (key <$> f) ->
  mode_bit b -> pu_uid u <> st_uid pst ->
  posix_access pst u (b - 6) (posix_acl_of (ensure_canon_entry_valid_on_set conn false (uid_to_sid conn (st_uid pst))
    (gid_to_sid conn (st_gid pst)) pst f)) = posix_access pst u (b - 6) acl.
Proof.
  intros F Hf Hk Hn Hb Hu. pose proof (get_sids conn pst acl back valid) as Hs. pose proof (get_plain conn pst acl valid) as Hp.
  pose proof (get_perms conn pst acl valid) as Hpm. pose proof read_in as Hin. fold cs in Hs, Hp, Hpm.
  assert (Hfrom : forall a, In a f -> typed pst a /\ world_id a).
  { intros a Ha. destruct (Hf a Ha) as [(x & Hx & Hw & _) _]. destruct (fl_from _ _ _ _ F x Hx) as (psa & _ & Ht & _ & _ & _ & _ & _ & Hid).
    split; [by eapply typed_who|]. intros Ho. destruct Hw as (_ & _ & Hwo & Hwi). rewrite <- Hwo, Ho in Hid. rewrite Hwi. by destruct Hid. }
  assert (Hobj : forall t, t = SMB_ACL_GROUP_OBJ \/ t = SMB_ACL_OTHER -> exists a, In a f /\ ca_type a = t).
  { intros t Ht. destruct (read_objs t Ht) as (c & Hc & Ho & Hi).
    destruct (round_there conn pst cs es l Hs Hp Hpm Hin F c Hc) as (e & He & Hke & _).
    destruct (Hk e He) as (a & Ha & Hka & _). exists a. split; [done|]. destruct (Hfrom a Ha) as [Hta _]. unfold typed in Hta.
    assert (Hkk : key a = key c) by congruence. injection Hkk as Hi' Ho'. rewrite Hta, Ho', Ho, Hi'.
    destruct Ht as [-> | ->]; cbn; [|done]. rewrite Hi by done. unfold group_tag. by rewrite Z.eqb_refl. }
  apply eq_true_iff_eq. rewrite (posix_access_decided pst u (b - 6) acl) by done.
  rewrite set_list_access; auto.
  - apply decided_iff; intros c.
    + rewrite (merged_has es f u c Hf Hk), (round_has conn pst cs es l u Hs Hp Hpm Hin F c). by apply get_has.
    + rewrite (merged_gives es f u b c Hf Hk), (round_gives conn pst cs es l u b Hs Hp Hpm Hin F c). by apply get_gives.
  - apply Forall_forall. intros a Ha%list_elem_of_In. by apply Hfrom.
  - apply Forall_forall. intros a Ha%list_elem_of_In. by apply Hfrom.
Qed.

End Round.

(** C8. Reading the security descriptor of a file and setting it again keeps the
    access of everyone but the owner. For a file with a valid POSIX ACL the
    descriptor that [posix_get_nt_acl_common] makes is accepted by
    [unpack_canon_ace], and the access ACL made of it grants read, write and execute
    access to every user who does not own the file exactly where the old one does,
    whatever the mask and the order of entries. It is asked that the SIDs of users
    and groups map back to their ids, which have 32 bits. *)
Theorem get_set_keeps_access qsort `{!Qsort qsort} junk conn pst acl info : maps_back conn -> acl_valid acl ->
  ids_fit pst acl -> has_bits info SECINFO_DACL = true ->
  exists file,
    unpack_canon_ace conn false pst (uid_to_sid conn (st_uid pst)) (gid_to_sid conn (st_gid pst)) info
      (posix_get_nt_acl_common qsort junk conn false pst None acl None info) = Some (true, file, []) /\
    forall u b, mode_bit b -> pu_uid u <> st_uid pst ->
      posix_access pst u (b - 6) (posix_acl_of file) = posix_access pst u (b - 6) acl.
Proof.
  intros Hb V Hids Hi. destruct (get_dacl qsort junk conn pst acl info Hb V Hi) as (l & Hd & Hl).
  destruct (unpack_allow_ok conn pst (uid_to_sid conn (st_uid pst)) (gid_to_sid conn (st_gid pst)) info _ _ Hd Hi)
    as (es & f & F & Hf & Hk & Hn & ->).
  - by apply (read_own_ids conn pst acl l Hb V Hids Hl).
  - by apply (read_mappable conn pst acl l Hb V Hl).
  - cbn [aces]. intros ->. destruct (read_objs conn pst acl V SMB_ACL_OTHER ltac:(auto)) as (c & Hc & _).
    apply (read_in conn pst acl [] Hl (nt_ace conn false 0 c)). by exists c.
  - eexists. split; [done|]. intros u b Hmb Hu. by apply (round_access conn pst acl l Hb V Hl es f).
Qed.

(** ** Example *)

Lemma unix_sid_equal kind id id' : in_w 32 id -> in_w 32 id' ->
  dom_sid_equal (Some (Example.unix_sid kind id)) (Some (Example.unix_sid kind id')) = true -> id = id'.
Proof.
  unfold dom_sid_equal, dom_sid_compare, with_nulls, compare_values, Example.unix_sid, in_w.
  cbn [num_auths sub_auths]. rewrite Z.eqb_refl. change (Z.to_nat 2) with 2%nat. cbn [last_difference nth].
  intros H1 H2 H%Z.eqb_eq. destruct (Z.eqb_spec id id') as [E|E]; [done|]. exfalso. revert H. unfold i32.
  intros H. Z.div_mod_to_equations. lia.
Qed.

Lemma example_maps_back : maps_back Example.conn.
Proof.
  split.
  - done.
  - done.
  - intros id sid H. destruct H as [<-|[<-|[<-|[]]]]; reflexivity.
  - intros id sid H. destruct H as [<-|[<-|[<-|[]]]]; reflexivity.
  - intros id id'. apply unix_sid_equal.
  - intros id id'. apply unix_sid_equal.
Qed.

Definition example_acl : list smb_acl_entry :=
  [Smb_acl_entry SMB_ACL_USER_OBJ 0 6; Smb_acl_entry SMB_ACL_USER 1001 6; Smb_acl_entry SMB_ACL_GROUP_OBJ 0 4;
   Smb_acl_entry SMB_ACL_GROUP 2000 2; Smb_acl_entry SMB_ACL_MASK 0 4; Smb_acl_entry SMB_ACL_OTHER 0 0].

Lemma get_set_keeps_access_witness :
  exists file,
    unpack_canon_ace Example.conn false Example.pst (uid_to_sid Example.conn 1000) (gid_to_sid Example.conn 2002)
      SECINFO_DACL (posix_get_nt_acl_common isort [] Example.conn false Example.pst None example_acl None SECINFO_DACL)
      = Some (true, file, []) /\
    forall u b, mode_bit b -> pu_uid u <> 1000 ->
      posix_access Example.pst u (b - 6) (posix_acl_of file) = posix_access Example.pst u (b - 6) example_acl.
Proof.
  apply (get_set_keeps_access isort [] Example.conn Example.pst example_acl SECINFO_DACL).
  - apply example_maps_back.
  - split.
    + apply (bool_decide_unpack _). vm_compute. reflexivity.
    + intros t [->|[->| ->]]; vm_compute; tauto.
    + intros e He. repeat (destruct He as [<-|He]; [vm_compute; done|]). destruct He.
    + split; [vm_compute; tauto|reflexivity].
  - split; [vm_compute; split; discriminate || reflexivity|]. split; [vm_compute; split; discriminate || reflexivity|].
    repeat (apply Forall_cons; split; [vm_compute; split; discriminate || reflexivity|]). apply Forall_nil_2.
  - reflexivity.
Defined.
