(* ===== verification/PosixAclWire.v ===== *)
(** * POSIX ACLs of the UNIX extensions, and default ACLs

    The requests of the CIFS UNIX extensions that read and set POSIX ACLs
    (source3/smbd/trans2.c and posix_acls.c), with the format they use on the
    wire, and the descriptors that files without a stored one get
    ([make_default_filesystem_acl]). *)

From S2P Require Import Prelude.
From S2P Require Import DomSid.
From S2P Require Import SecModel.
From S2P Require Import AccessProps.
From S2P Require Import SecDesc.
From S2P Require Import SecInherit.
From S2P Require Import Errmap.
From S2P Require Import FileAccess.
From S2P Require Import PosixAcl.
From S2P Require Import PosixAclFile.
From S2P Require Import PosixAclProps.
From S2P Require Import PosixAclClosed.
From S2P Require Import PosixAclFileProps.
From stdpp Require Import prelude list.

#[local] Open Scope Z_scope.

(** ** The format *)

Definition SMB_POSIX_ACL_VERSION : Z := 1.
Definition SMB_POSIX_ACL_HEADER_SIZE : nat := 6.
Definition SMB_POSIX_ACL_ENTRY_SIZE : nat := 10.
Definition SMB_POSIX_IGNORE_ACE_ENTRIES : Z := 0xFFFF.
Definition SMB_POSIX_ACL_READ : Z := 4.
Definition SMB_POSIX_ACL_WRITE : Z := 2.
Definition SMB_POSIX_ACL_EXECUTE : Z := 1.
Definition RWX : Z := Z.lor SMB_POSIX_ACL_READ (Z.lor SMB_POSIX_ACL_WRITE SMB_POSIX_ACL_EXECUTE).

Definition NT_STATUS_NOT_IMPLEMENTED : NTSTATUS := 0xC0000002.
Definition NT_STATUS_BUFFER_TOO_SMALL : NTSTATUS := 0xC0000023.

Definition unix_ex_wire_to_permset (wire_perm : Z) : option Z :=
  if negb (clear_bits wire_perm RWX =? 0) then None
  else
    let p := 0 in
    let p := if has_bits wire_perm SMB_POSIX_ACL_READ then Z.lor p SMB_ACL_READ else p in
    let p := if has_bits wire_perm SMB_POSIX_ACL_WRITE then Z.lor p SMB_ACL_WRITE else p in
    Some (if has_bits wire_perm SMB_POSIX_ACL_EXECUTE then Z.lor p SMB_ACL_EXECUTE else p).

Definition unix_ex_wire_to_tagtype (wire_tt : Z) : option smb_acl_tag :=
  if wire_tt =? 0x01 then Some SMB_ACL_USER_OBJ
  else if wire_tt =? 0x02 then Some SMB_ACL_USER
  else if wire_tt =? 0x04 then Some SMB_ACL_GROUP_OBJ
  else if wire_tt =? 0x08 then Some SMB_ACL_GROUP
  else if wire_tt =? 0x10 then Some SMB_ACL_MASK
  else if wire_tt =? 0x20 then Some SMB_ACL_OTHER
  else None.

(** [None] where the data is read past its end, [Some None] where it is refused.
    Only users and groups have a qualifier. *)
Fixpoint create_posix_acl_from_wire (num_acls : nat) (pdata : list Z) (ofs : nat)
    : option (option (list smb_acl_entry)) :=
  match num_acls with
  | O => Some (Some [])
  | S n =>
      tt ← CVAL pdata ofs;
      match unix_ex_wire_to_tagtype tt with
      | None => Some None
      | Some tag_type =>
          wp ← CVAL pdata (ofs + 1);
          match unix_ex_wire_to_permset wp with
          | None => Some None
          | Some permset =>
              id ← (match tag_type with
                    | SMB_ACL_USER | SMB_ACL_GROUP => read_le 4 pdata (ofs + 2)
                    | _ => Some 0
                    end);
              rest ← create_posix_acl_from_wire n pdata (ofs + SMB_POSIX_ACL_ENTRY_SIZE);
              Some (cons (Smb_acl_entry tag_type id permset) <$> rest)
          end
      end
  end.

(** Writing into the reply: [None] past its end. *)
Definition put_at (buf : list Z) (ofs : nat) (bytes : list Z) : option (list Z) :=
  if (ofs + length bytes <=? length buf)%nat
  then Some (take ofs buf ++ bytes ++ drop (ofs + length bytes) buf) else None.

Definition marshall_entry (pst : file_stat) (e : smb_acl_entry) : list Z :=
  let perms := Z.lor (Z.lor (if has_bits (a_perm e) SMB_ACL_READ then SMB_POSIX_ACL_READ else 0)
                            (if has_bits (a_perm e) SMB_ACL_WRITE then SMB_POSIX_ACL_WRITE else 0))
                     (if has_bits (a_perm e) SMB_ACL_EXECUTE then SMB_POSIX_ACL_EXECUTE else 0) in
  let entry tag own high := [tag; perms] ++ le_bytes 4 own ++ le_bytes 4 high in
  match a_type e with
  | SMB_ACL_USER_OBJ => entry 0x01 (st_uid pst) 0
  | SMB_ACL_USER => entry 0x02 (a_qualifier e) 0
  | SMB_ACL_GROUP_OBJ => entry 0x04 (st_gid pst) 0
  | SMB_ACL_GROUP => entry 0x08 (a_qualifier e) 0
  | SMB_ACL_MASK => entry 0x10 0xFFFFFFFF 0xFFFFFFFF
  | SMB_ACL_OTHER => entry 0x20 0xFFFFFFFF 0xFFFFFFFF
  end.

Fixpoint marshall_posix_acl (pst : file_stat) (buf : list Z) (ofs : nat) (acl : list smb_acl_entry)
    : option (list Z) :=
  match acl with
  | [] => Some buf
  | e :: acl =>
      buf ← put_at buf ofs (marshall_entry pst e);
      marshall_posix_acl pst buf (ofs + SMB_POSIX_ACL_ENTRY_SIZE) acl
  end.

(** ** The requests *)

(** The file: the outcome of a call after the calls before it ([None] is success,
    otherwise the error number), its access ACL by descriptor and by path (an error
    number where the call fails) and its default ACL, and whether the memory of a
    new ACL moves when it grows to [n] entries. *)
Record unix_file := Unix_file {
  u_result : list acl_call -> acl_call -> option Z;
  u_access : bool -> Z + list smb_acl_entry;
  u_default : option (list smb_acl_entry);
  u_stat : file_stat;
  u_is_dir : bool;
  u_has_fd : bool;
  refuse_symlink : NTSTATUS;
  u_moves : nat -> bool
}.

(** A call: its result, [errno] after it and the calls so far. *)
Definition make_call (f : unix_file) (c : acl_call) (errno : Z) (log : list acl_call)
    : bool * Z * list acl_call :=
  match u_result f log c with
  | None => (true, errno, log ++ [c])
  | Some e => (false, e, log ++ [c])
  end.

Definition set_unix_posix_default_acl (f : unix_file) (num_def_acls : nat) (pdata : list Z) (ofs : nat)
    (errno : Z) (log : list acl_call) : option (bool * Z * list acl_call) :=
  if negb (u_is_dir f) then
    if (num_def_acls =? 0)%nat then Some (true, errno, log) else Some (false, EISDIR, log)
  else if (num_def_acls =? 0)%nat then Some (make_call f (Delete_default false) errno log)
  else
    def_acl ← create_posix_acl_from_wire num_def_acls pdata ofs;
    match def_acl with
    | None => Some (false, errno, log)
    | Some def_acl => Some (make_call f (Set_acl false true false def_acl) errno log)
    end.

Definition sys_acl_set_permset (perm permset : Z) : Z :=
  if negb (clear_bits permset (Z.lor SMB_ACL_READ (Z.lor SMB_ACL_WRITE SMB_ACL_EXECUTE)) =? 0) then perm else permset.

(** The loop of [remove_posix_acl]. The entries of the new ACL are kept as pointers
    into an array that has grown since: [None] where one that has moved is used. *)
Fixpoint copy_permsets (user_moved group_moved : bool) (acl : list smb_acl_entry) (user group other : Z)
    : option (Z * Z * Z) :=
  match acl with
  | [] => Some (user, group, other)
  | e :: acl =>
      match a_type e with
      | SMB_ACL_USER_OBJ =>
          if user_moved then None
          else copy_permsets user_moved group_moved acl (sys_acl_set_permset user (a_perm e)) group other
      | SMB_ACL_GROUP_OBJ =>
          if group_moved then None
          else copy_permsets user_moved group_moved acl user (sys_acl_set_permset group (a_perm e)) other
      | SMB_ACL_OTHER =>
          copy_permsets user_moved group_moved acl user group (sys_acl_set_permset other (a_perm e))
      | _ => copy_permsets user_moved group_moved acl user group other
      end
  end.

Definition remove_posix_acl (f : unix_file) (errno : Z) (log : list acl_call)
    : option (bool * Z * list acl_call) :=
  match u_access f (u_has_fd f) with
  | inl e => Some (false, e, log)
  | inr file_acl =>
      perms ← copy_permsets (u_moves f 2%nat || u_moves f 3%nat) (u_moves f 3%nat) file_acl 0 0 0;
      let '(user, group, other) := perms in
      Some (make_call f
        (Set_acl false false (u_has_fd f)
           [Smb_acl_entry SMB_ACL_USER_OBJ 0 user; Smb_acl_entry SMB_ACL_GROUP_OBJ 0 group;
            Smb_acl_entry SMB_ACL_OTHER 0 other]) errno log)
  end.

Definition set_unix_posix_acl (f : unix_file) (num_acls : nat) (pdata : list Z) (ofs : nat) (errno : Z)
    (log : list acl_call) : option (bool * Z * list acl_call) :=
  if (num_acls =? 0)%nat then remove_posix_acl f errno log
  else
    file_acl ← create_posix_acl_from_wire num_acls pdata ofs;
    match file_acl with
    | None => Some (false, errno, log)
    | Some file_acl => Some (make_call f (Set_acl false false (u_has_fd f) file_acl) errno log)
    end.

(** The status and the calls; [errno] is what was left from before. *)
Definition smb_set_posix_acl (f : unix_file) (errno : Z) (pdata : list Z) : option (NTSTATUS * list acl_call) :=
  if (length pdata <? SMB_POSIX_ACL_HEADER_SIZE)%nat then Some (NT_STATUS_INVALID_PARAMETER, [])
  else
    version ← read_le 2 pdata 0;
    nf ← read_le 2 pdata 2;
    nd ← read_le 2 pdata 4;
    let valid_file_acls := negb (nf =? SMB_POSIX_IGNORE_ACE_ENTRIES) in
    let num_file_acls := Z.to_nat (if valid_file_acls then nf else 0) in
    let valid_def_acls := negb (nd =? SMB_POSIX_IGNORE_ACE_ENTRIES) in
    let num_def_acls := Z.to_nat (if valid_def_acls then nd else 0) in
    if negb (version =? SMB_POSIX_ACL_VERSION) then Some (NT_STATUS_INVALID_PARAMETER, [])
    else if (length pdata <? SMB_POSIX_ACL_HEADER_SIZE + (num_file_acls + num_def_acls) * SMB_POSIX_ACL_ENTRY_SIZE)%nat
    then Some (NT_STATUS_INVALID_PARAMETER, [])
    else if negb (NT_STATUS_IS_OK (refuse_symlink f)) then Some (refuse_symlink f, [])
    else
      r ← (if valid_file_acls then set_unix_posix_acl f num_file_acls pdata SMB_POSIX_ACL_HEADER_SIZE errno []
           else Some (true, errno, []));
      let '(ok, errno, log) := r in
      if negb ok then Some (map_nt_error_from_unix errno, log)
      else
        r ← (if valid_def_acls
             then set_unix_posix_default_acl f num_def_acls pdata
                    (SMB_POSIX_ACL_HEADER_SIZE + num_file_acls * SMB_POSIX_ACL_ENTRY_SIZE) errno log
             else Some (true, errno, log));
        let '(ok, errno, log) := r in
        if negb ok then Some (map_nt_error_from_unix errno, log) else Some (NT_STATUS_OK, log).

(** The default ACL as it is read; one without entries counts as none. *)
Definition query_default (f : unix_file) : list smb_acl_entry :=
  if u_is_dir f then default [] (free_empty_sys_acl (u_default f)) else [].

(** The case SMB_QUERY_POSIX_ACL of [smbd_do_qfilepathinfo]: [buf] is the memory of
    the reply, and its length the size that is allowed. *)
Definition query_posix_acl (f : unix_file) (buf : list Z) : option (NTSTATUS + list Z) :=
  if negb (NT_STATUS_IS_OK (refuse_symlink f)) then Some (inl (refuse_symlink f))
  else
    let not_supported := match u_access f (u_has_fd f) with
                         | inl errno => no_acl_syscall_error errno
                         | inr _ => false
                         end in
    if not_supported : bool then Some (inl NT_STATUS_NOT_IMPLEMENTED)
    else
      let file_acl := match u_access f (u_has_fd f) with inl _ => [] | inr acl => acl end in
      let def_acl := query_default f in
      let num_file_acls := Z.to_nat (u16 (Z.of_nat (length file_acl))) in
      let num_def_acls := Z.to_nat (u16 (Z.of_nat (length def_acl))) in
      let size := ((num_file_acls + num_def_acls) * SMB_POSIX_ACL_ENTRY_SIZE + SMB_POSIX_ACL_HEADER_SIZE)%nat in
      if (length buf <? size)%nat then Some (inl NT_STATUS_BUFFER_TOO_SMALL)
      else
        buf ← put_at buf 0 (le_bytes 2 SMB_POSIX_ACL_VERSION);
        buf ← put_at buf 2 (le_bytes 2 (Z.of_nat num_file_acls));
        buf ← put_at buf 4 (le_bytes 2 (Z.of_nat num_def_acls));
        buf ← marshall_posix_acl (u_stat f) buf SMB_POSIX_ACL_HEADER_SIZE file_acl;
        buf ← marshall_posix_acl (u_stat f) buf
                (SMB_POSIX_ACL_HEADER_SIZE + num_file_acls * SMB_POSIX_ACL_ENTRY_SIZE) def_acl;
        Some (inr (take size buf)).

(** ** Default ACLs *)

Inductive default_acl_style := DEFAULT_ACL_POSIX | DEFAULT_ACL_WINDOWS | DEFAULT_ACL_EVERYONE.

Definition SEC_FILE_EXECUTE : Z := 0x20.

(** SEC_RIGHTS_FILE_READ, SEC_RIGHTS_FILE_WRITE and SEC_RIGHTS_FILE_ALL are the
    generic rights of files. *)
Definition owner_access (mode : Z) : Z :=
  let access_mask := 0 in
  let access_mask :=
    if has_bits mode S_IRUSR then
      if has_bits mode S_IWUSR then Z.lor access_mask FILE_GENERIC_ALL
      else Z.lor access_mask (Z.lor FILE_GENERIC_READ SEC_FILE_EXECUTE)
    else access_mask in
  if has_bits mode S_IWUSR then Z.lor access_mask (Z.lor FILE_GENERIC_WRITE SEC_STD_DELETE) else access_mask.

(** The same for the group and for others, with their bits. *)
Definition class_access (mode r w : Z) : Z :=
  let access_mask := 0 in
  let access_mask := if has_bits mode r then Z.lor access_mask (Z.lor FILE_GENERIC_READ SEC_FILE_EXECUTE) else access_mask in
  if has_bits mode w then Z.lor access_mask FILE_GENERIC_WRITE else access_mask.

(** [mem] is what the array of entries on the stack held. *)
Definition default_ace (mem : nat -> security_ace) (idx : nat) (sid : dom_sid) (access_mask : Z) : security_ace :=
  init_sec_ace (mem idx) sid SEC_ACE_TYPE_ACCESS_ALLOWED access_mask 0.

(** Owner, group, everyone and the system. *)
Definition posix_aces (mem : nat -> security_ace) (owner_sid group_sid : dom_sid) (mode : Z) : list security_ace :=
  let aces := [default_ace mem 0 owner_sid (owner_access mode)] in
  let access_mask := class_access mode S_IRGRP S_IWGRP in
  let aces := if negb (access_mask =? 0) then aces ++ [default_ace mem (length aces) group_sid access_mask] else aces in
  let access_mask := class_access mode S_IROTH S_IWOTH in
  let aces := if negb (access_mask =? 0)
              then aces ++ [default_ace mem (length aces) global_sid_World access_mask] else aces in
  aces ++ [default_ace mem (length aces) global_sid_System FILE_GENERIC_ALL].

Definition make_default_acl_posix (conn : acl_conn) (junk : list Z) (mem : nat -> security_ace) (psbuf : file_stat)
    : security_descriptor :=
  let owner_sid := uid_to_sid conn (st_uid psbuf) in
  let group_sid := gid_to_sid conn (st_gid psbuf) in
  let aces := posix_aces mem owner_sid group_sid (st_mode psbuf) in
  make_sec_desc junk SD_REVISION (Z.lor SEC_DESC_SELF_RELATIVE SEC_DESC_DACL_PRESENT) (Some owner_sid) (Some group_sid)
    None (Some (make_sec_acl 2 (length aces) aces)).

Definition make_default_acl_windows (conn : acl_conn) (junk : list Z) (mem : nat -> security_ace) (psbuf : file_stat)
    : security_descriptor :=
  let owner_sid := uid_to_sid conn (st_uid psbuf) in
  let group_sid := gid_to_sid conn (st_gid psbuf) in
  make_sec_desc junk SD_REVISION (Z.lor SEC_DESC_SELF_RELATIVE SEC_DESC_DACL_PRESENT) (Some owner_sid) (Some group_sid)
    None (Some (make_sec_acl 2 2 [default_ace mem 0 owner_sid (owner_access (st_mode psbuf));
                                  default_ace mem 1 global_sid_System FILE_GENERIC_ALL])).

Definition make_default_acl_everyone (conn : acl_conn) (junk : list Z) (mem : nat -> security_ace) (psbuf : file_stat)
    : security_descriptor :=
  make_sec_desc junk SD_REVISION (Z.lor SEC_DESC_SELF_RELATIVE SEC_DESC_DACL_PRESENT)
    (Some (uid_to_sid conn (st_uid psbuf))) (Some (gid_to_sid conn (st_gid psbuf)))
    None (Some (make_sec_acl 2 1 [default_ace mem 0 global_sid_World FILE_GENERIC_ALL])).

Definition make_default_filesystem_acl (conn : acl_conn) (junk : list Z) (mem : nat -> security_ace)
    (acl_style : default_acl_style) (psbuf : file_stat) : security_descriptor :=
  match acl_style with
  | DEFAULT_ACL_POSIX => make_default_acl_posix conn junk mem psbuf
  | DEFAULT_ACL_WINDOWS => make_default_acl_windows conn junk mem psbuf
  | DEFAULT_ACL_EVERYONE => make_default_acl_everyone conn junk mem psbuf
  end.

(** ** Reading back what was written *)

Definition entry_fits (e : smb_acl_entry) : Prop :=
  0 <= a_perm e < 8 /\
  match a_type e with
  | SMB_ACL_USER | SMB_ACL_GROUP => 0 <= a_qualifier e < 2 ^ 32
  | _ => a_qualifier e = 0
  end.

Lemma length_marshall_entry st e : length (marshall_entry st e) = SMB_POSIX_ACL_ENTRY_SIZE.
Proof. unfold marshall_entry. by destruct (a_type e). Qed.

Lemma length_marshalled st acl :
  length (concat (map (marshall_entry st) acl)) = (length acl * SMB_POSIX_ACL_ENTRY_SIZE)%nat.
Proof. induction acl as [|e acl IH]; [done|]. cbn [map concat length]. rewrite length_app, length_marshall_entry, IH. lia. Qed.

Lemma put_at_app pre old bytes post : length old = length bytes ->
  put_at (pre ++ old ++ post) (length pre) bytes = Some (pre ++ bytes ++ post).
Proof.
  intros E. unfold put_at. rewrite !length_app. destruct (Nat.leb_spec (length pre + length bytes) (length pre + (length old + length post))); [|lia].
  by rewrite take_app_length, <- E, <- length_app, (app_assoc pre old post), drop_app_length.
Qed.

Lemma split_front {A} n (l : list A) : (n <= length l)%nat -> exists a r, l = a ++ r /\ length a = n.
Proof. intros H. exists (take n l), (drop n l). by rewrite take_drop, length_take_le. Qed.

Lemma marshall_app st acl pre old post : length old = (length acl * SMB_POSIX_ACL_ENTRY_SIZE)%nat ->
  marshall_posix_acl st (pre ++ old ++ post) (length pre) acl =
    Some (pre ++ concat (map (marshall_entry st) acl) ++ post).
Proof.
  revert pre old. induction acl as [|e acl IH]; intros pre old E.
  - cbn in E. by apply nil_length_inv in E as ->.
  - destruct (split_front SMB_POSIX_ACL_ENTRY_SIZE old) as (o & r & -> & Ho); [rewrite E; cbn [length]; lia|].
    cbn [marshall_posix_acl]. rewrite <- app_assoc, put_at_app by by rewrite length_marshall_entry.
    cbn [mbind option_bind map concat]. rewrite app_assoc.
    replace (length pre + SMB_POSIX_ACL_ENTRY_SIZE)%nat with (length (pre ++ marshall_entry st e))
      by (rewrite length_app, length_marshall_entry; done).
    rewrite IH by (rewrite length_app in E; cbn [length] in E; lia). by rewrite <- !app_assoc.
Qed.

Lemma wire_permset p : 0 <= p < 8 ->
  unix_ex_wire_to_permset
    (Z.lor (Z.lor (if has_bits p SMB_ACL_READ then SMB_POSIX_ACL_READ else 0)
                  (if has_bits p SMB_ACL_WRITE then SMB_POSIX_ACL_WRITE else 0))
           (if has_bits p SMB_ACL_EXECUTE then SMB_POSIX_ACL_EXECUTE else 0)) = Some p.
Proof.
  intros Hp. assert (p = 0 \/ p = 1 \/ p = 2 \/ p = 3 \/ p = 4 \/ p = 5 \/ p = 6 \/ p = 7) as H by lia.
  by destruct H as [-> |[-> |[-> |[-> |[-> |[-> |[-> | ->]]]]]]].
Qed.

Lemma wire_read st acl pre post : Forall entry_fits acl ->
  create_posix_acl_from_wire (length acl) (pre ++ concat (map (marshall_entry st) acl) ++ post) (length pre) = Some (Some acl).
Proof.
  intros H. revert pre. induction H as [|e acl [Hp Hq] H IH]; intros pre; [done|].
  assert (exists tag perms own high, marshall_entry st e = [tag; perms] ++ le_bytes 4 own ++ le_bytes 4 high /\
    unix_ex_wire_to_tagtype tag = Some (a_type e) /\ unix_ex_wire_to_permset perms = Some (a_perm e) /\
    match a_type e with SMB_ACL_USER | SMB_ACL_GROUP => own = a_qualifier e | _ => True end)
    as (tag & perms & own & high & E & Ht & Hw & Ho).
  { unfold marshall_entry. destruct (a_type e); do 4 eexists; (split; [reflexivity|]); split_and!; try done; by apply wire_permset. }
  cbn [map concat length create_posix_acl_from_wire]. rewrite <- app_assoc.
  specialize (IH (pre ++ marshall_entry st e)). rewrite length_app, length_marshall_entry, <- app_assoc in IH. rewrite IH.
  rewrite E. set (post' := concat (map (marshall_entry st) acl) ++ post).
  rewrite <- !app_assoc. cbn [app]. rewrite CVAL_at. cbn [mbind option_bind]. rewrite Ht.
  replace (pre ++ tag :: perms :: le_bytes 4 own ++ le_bytes 4 high ++ post')
    with ((pre ++ [tag]) ++ perms :: le_bytes 4 own ++ le_bytes 4 high ++ post') by by rewrite <- app_assoc.
  replace (length pre + 1)%nat with (length (pre ++ [tag])) by by rewrite length_app.
  rewrite CVAL_at. cbn [mbind option_bind]. rewrite Hw.
  replace ((pre ++ [tag]) ++ perms :: le_bytes 4 own ++ le_bytes 4 high ++ post')
    with ((pre ++ [tag; perms]) ++ le_bytes 4 own ++ le_bytes 4 high ++ post') by by rewrite <- !app_assoc.
  replace (length pre + 2)%nat with (length (pre ++ [tag; perms])) by by rewrite length_app.
  destruct e as [t q p]. cbn [a_type a_qualifier a_perm] in *.
  destruct t; subst; try rewrite (read_le_at 4) by lia; done.
Qed.

(** The data of a request or reply for two ACLs. *)
Definition wire_header (nf nd : nat) : list Z :=
  le_bytes 2 SMB_POSIX_ACL_VERSION ++ le_bytes 2 (Z.of_nat nf) ++ le_bytes 2 (Z.of_nat nd).

Definition wire_data (st : file_stat) (acl def : list smb_acl_entry) : list Z :=
  wire_header (length acl) (length def) ++ concat (map (marshall_entry st) acl) ++ concat (map (marshall_entry st) def).

Lemma length_wire_data st acl def :
  length (wire_data st acl def) = (SMB_POSIX_ACL_HEADER_SIZE + (length acl + length def) * SMB_POSIX_ACL_ENTRY_SIZE)%nat.
Proof. unfold wire_data. rewrite !length_app, !length_marshalled.
  change (length (wire_header _ _)) with SMB_POSIX_ACL_HEADER_SIZE. lia. Qed.

Lemma count_small n : Z.of_nat n < 65536 -> Z.to_nat (u16 (Z.of_nat n)) = n.
Proof. intros H. unfold u16. rewrite Z.mod_small by lia. apply Nat2Z.id. Qed.

(** The reply has the two ACLs. *)
Lemma query_reply f buf acl : NT_STATUS_IS_OK (refuse_symlink f) = true -> u_access f (u_has_fd f) = inr acl ->
  Z.of_nat (length acl) < 65536 -> Z.of_nat (length (query_default f)) < 65536 ->
  (length (wire_data (u_stat f) acl (query_default f)) <= length buf)%nat ->
  query_posix_acl f buf = Some (inr (wire_data (u_stat f) acl (query_default f))).
Proof.
  intros Hs Ha Hf Hd Hb. unfold query_posix_acl. rewrite Hs, Ha. cbn [negb]. set (def := query_default f) in *.
  rewrite !count_small by done. rewrite length_wire_data in Hb.
  rewrite (proj2 (Nat.ltb_ge _ _)) by lia.
  destruct (split_front 2 buf) as (b1 & r1 & -> & L1); [cbn in Hb; lia|]. rewrite length_app in Hb.
  destruct (split_front 2 r1) as (b2 & r2 & -> & L2); [cbn in Hb; lia|]. rewrite length_app in Hb.
  destruct (split_front 2 r2) as (b3 & r3 & -> & L3); [cbn in Hb; lia|]. rewrite length_app in Hb.
  destruct (split_front (length acl * SMB_POSIX_ACL_ENTRY_SIZE) r3) as (b4 & r4 & -> & L4); [cbn in Hb; lia|]. rewrite length_app in Hb.
  destruct (split_front (length def * SMB_POSIX_ACL_ENTRY_SIZE) r4) as (b5 & post & -> & L5); [cbn in Hb; lia|].
  set (h1 := le_bytes 2 SMB_POSIX_ACL_VERSION). set (h2 := le_bytes 2 (Z.of_nat (length acl))). set (h3 := le_bytes 2 (Z.of_nat (length def))).
  set (r := b4 ++ b5 ++ post).
  assert (P1 : put_at (b1 ++ b2 ++ b3 ++ r) 0 h1 = Some (h1 ++ b2 ++ b3 ++ r)) by (apply (put_at_app []); by rewrite L1).
  assert (P2 : put_at (h1 ++ b2 ++ b3 ++ r) 2 h2 = Some (h1 ++ h2 ++ b3 ++ r)) by (apply (put_at_app h1); by rewrite L2).
  assert (P3 : put_at (h1 ++ h2 ++ b3 ++ r) 4 h3 = Some (((h1 ++ h2) ++ h3) ++ r))
    by (rewrite app_assoc, <- (app_assoc (h1 ++ h2)); apply (put_at_app (h1 ++ h2)); by rewrite L3).
  rewrite P1. cbn [mbind option_bind]. rewrite P2. cbn [mbind option_bind]. rewrite P3. cbn [mbind option_bind]. unfold r.
  change SMB_POSIX_ACL_HEADER_SIZE with (length ((h1 ++ h2) ++ h3)).
  rewrite (marshall_app _ acl) by done. cbn [mbind option_bind]. rewrite (app_assoc (((h1 ++ h2) ++ h3))).
  rewrite <- (length_marshalled (u_stat f) acl), <- (length_app ((h1 ++ h2) ++ h3)).
  rewrite (marshall_app _ def) by done. cbn [mbind option_bind]. do 2 f_equal.
  unfold wire_data, wire_header. fold h1 h2 h3. rewrite (app_assoc _ _ post).
  rewrite take_app_le; [rewrite firstn_all2|]; rewrite ?length_app, ?length_marshalled; cbn [length]; try lia.
  by rewrite <- !app_assoc.
Qed.

(** A request with that data sets them. *)
Lemma set_wire_data f errno st acl def : NT_STATUS_IS_OK (refuse_symlink f) = true ->
  (forall log c, u_result f log c = None) -> acl <> [] -> Forall entry_fits acl -> Forall entry_fits def ->
  Z.of_nat (length acl) < 65535 -> Z.of_nat (length def) < 65535 -> (u_is_dir f = false -> def = []) ->
  smb_set_posix_acl f errno (wire_data st acl def) =
    Some (NT_STATUS_OK, Set_acl false false (u_has_fd f) acl ::
      (if u_is_dir f then [match def with [] => Delete_default false | _ => Set_acl false true false def end] else [])).
Proof.
  intros Hs Hr Hne Hfa Hfd Hf Hd Hdir. unfold smb_set_posix_acl.
  pose proof (length_wire_data st acl def) as Hlen. set (data := wire_data st acl def) in *.
  set (h1 := le_bytes 2 SMB_POSIX_ACL_VERSION). set (h2 := le_bytes 2 (Z.of_nat (length acl))). set (h3 := le_bytes 2 (Z.of_nat (length def))).
  set (tl := concat (map (marshall_entry st) acl) ++ concat (map (marshall_entry st) def)).
  assert (E : data = h1 ++ h2 ++ h3 ++ tl) by (unfold data, wire_data, wire_header; by rewrite <- !app_assoc).
  rewrite (proj2 (Nat.ltb_ge _ _)) by (rewrite Hlen; lia).
  assert (read_le 2 data 0 = Some SMB_POSIX_ACL_VERSION) as -> by (rewrite E; by apply (read_le_at 2 [])).
  assert (read_le 2 data 2 = Some (Z.of_nat (length acl))) as -> by (rewrite E; apply (read_le_at 2 h1); lia).
  assert (read_le 2 data 4 = Some (Z.of_nat (length def))) as ->
    by (rewrite E, app_assoc; apply (read_le_at 2 (h1 ++ h2)); lia).
  cbn [mbind option_bind]. unfold SMB_POSIX_IGNORE_ACE_ENTRIES.
  rewrite (proj2 (Z.eqb_neq (Z.of_nat (length acl)) _)), (proj2 (Z.eqb_neq (Z.of_nat (length def)) _)), Z.eqb_refl by lia.
  cbn [negb]. rewrite !Nat2Z.id, Hs. rewrite (proj2 (Nat.ltb_ge _ _)) by lia. cbn [negb].
  assert (Ea : create_posix_acl_from_wire (length acl) data SMB_POSIX_ACL_HEADER_SIZE = Some (Some acl)).
  { rewrite E, !app_assoc. unfold tl.
    by apply (wire_read st acl ((h1 ++ h2) ++ h3)). }
  assert (Ed : create_posix_acl_from_wire (length def) data
            (SMB_POSIX_ACL_HEADER_SIZE + length acl * SMB_POSIX_ACL_ENTRY_SIZE) = Some (Some def)).
  { rewrite E. unfold tl. rewrite !app_assoc, <- (app_nil_r (concat (map (marshall_entry st) def))), <- (length_marshalled st acl).
    change SMB_POSIX_ACL_HEADER_SIZE with (length ((h1 ++ h2) ++ h3)). rewrite <- length_app. by apply wire_read. }
  unfold set_unix_posix_acl. destruct acl as [|e acl]; [done|]. change (length (e :: acl) =? 0)%nat with false.
  rewrite Ea. cbn [mbind option_bind]. unfold make_call at 1. rewrite Hr. cbn [mbind option_bind negb app].
  unfold set_unix_posix_default_acl. destruct (u_is_dir f); cbn [negb].
  - destruct def as [|d def]; [cbn [length Nat.eqb mbind option_bind]; unfold make_call; by rewrite Hr|].
    change (length (d :: def) =? 0)%nat with false. rewrite Ed. cbn [mbind option_bind]. unfold make_call. by rewrite Hr.
  - by rewrite Hdir.
Qed.

(** The UNIX extensions give back what they take: the data that a query returns
    for a file's POSIX ACLs, sent back in a request to set them, sets exactly the
    same access ACL, and on a directory the same default ACL, or deletes it where
    there was none. It is asked that the reply fits, that each ACL has less than
    65535 entries with 32 bit ids, and that the calls succeed. *)
Theorem unix_acl_roundtrip f buf errno acl :
  NT_STATUS_IS_OK (refuse_symlink f) = true -> u_access f (u_has_fd f) = inr acl ->
  acl <> [] -> Forall entry_fits acl -> Forall entry_fits (query_default f) ->
  Z.of_nat (length acl) < 65535 -> Z.of_nat (length (query_default f)) < 65535 ->
  (SMB_POSIX_ACL_HEADER_SIZE + (length acl + length (query_default f)) * SMB_POSIX_ACL_ENTRY_SIZE <= length buf)%nat ->
  (forall log c, u_result f log c = None) ->
  exists data, query_posix_acl f buf = Some (inr data) /\
    smb_set_posix_acl f errno data =
      Some (NT_STATUS_OK, Set_acl false false (u_has_fd f) acl ::
        (if u_is_dir f
         then [match query_default f with [] => Delete_default false | _ => Set_acl false true false (query_default f) end] else [])).
Proof.
  intros Hs Ha Hne Hfa Hfd Hf Hd Hb Hr. exists (wire_data (u_stat f) acl (query_default f)). split.
  - apply query_reply; rewrite ?length_wire_data; try done; lia.
  - apply set_wire_data; try done. unfold query_default. by intros ->.
Qed.

(** ** Any request *)

Lemma rwx_bits p : clear_bits p 7 = 0 -> 0 <= p < 8.
Proof.
  intros H. unfold clear_bits in H.
  pose proof (Z.lor_ldiff_and p 7) as E. rewrite H, Z.lor_0_l in E. change 7 with (Z.ones 3) in E.
  rewrite Z.land_ones in E by lia. pose proof (Z.mod_pos_bound p (2 ^ 3)). lia.
Qed.

Lemma wire_permset_fits w p : unix_ex_wire_to_permset w = Some p -> 0 <= p < 8.
Proof.
  unfold unix_ex_wire_to_permset. destruct (negb _); [done|]. intros [= <-].
  by destruct (has_bits w SMB_POSIX_ACL_READ), (has_bits w SMB_POSIX_ACL_WRITE), (has_bits w SMB_POSIX_ACL_EXECUTE).
Qed.

Lemma read_le_total n buf ofs : Forall is_byte buf -> (ofs + n <= length buf)%nat ->
  exists v, read_le n buf ofs = Some v /\ 0 <= v < 256 ^ Z.of_nat n.
Proof.
  intros Hb H. unfold read_le. rewrite (proj2 (Nat.leb_le _ _)) by done. eexists. split; [done|].
  pose proof (le_value_bound (take n (drop ofs buf)) (Forall_take _ _ _ (Forall_drop _ _ _ Hb))) as B.
  rewrite length_take_le in B by (rewrite length_drop; lia). done.
Qed.

Lemma wire_total n data ofs : Forall is_byte data -> (ofs + n * SMB_POSIX_ACL_ENTRY_SIZE <= length data)%nat ->
  exists r, create_posix_acl_from_wire n data ofs = Some r /\ forall acl, r = Some acl -> Forall entry_fits acl.
Proof.
  intros Hb. revert ofs. induction n as [|n IH]; intros ofs H; cbn [create_posix_acl_from_wire].
  { eexists. split; [done|]. intros acl [= <-]. constructor. }
  unfold SMB_POSIX_ACL_ENTRY_SIZE in *. unfold CVAL.
  destruct (lookup_lt_is_Some_2 data ofs) as [tt Et]; [lia|]. rewrite Et. cbn [mbind option_bind].
  destruct (unix_ex_wire_to_tagtype tt) as [tag|]; [|by eexists].
  destruct (lookup_lt_is_Some_2 data (ofs + 1)) as [wp Ew]; [lia|]. rewrite Ew. cbn [mbind option_bind].
  destruct (unix_ex_wire_to_permset wp) as [p|] eqn:Ep; [|by eexists]. apply wire_permset_fits in Ep.
  destruct (read_le_total 4 data (ofs + 2)) as (id & Ei & Hid); [done|lia|].
  destruct (IH (ofs + 10)%nat) as (r & Er & Hr); [lia|]. rewrite Ei, Er.
  destruct tag; cbn [mbind option_bind]; eexists; (split; [done|]);
    (intros acl H1; destruct r as [rest|]; [|done]; cbn in H1; injection H1 as <-; constructor; [|by apply Hr]);
    unfold entry_fits; cbn; lia.
Qed.

Lemma copy_total acl u g o : 0 <= u < 8 -> 0 <= g < 8 -> 0 <= o < 8 ->
  exists u' g' o', copy_permsets false false acl u g o = Some (u', g', o') /\ 0 <= u' < 8 /\ 0 <= g' < 8 /\ 0 <= o' < 8.
Proof.
  assert (S : forall old p, 0 <= old < 8 -> 0 <= sys_acl_set_permset old p < 8).
  { intros old p H. unfold sys_acl_set_permset. destruct (Z.eqb_spec (clear_bits p (Z.lor SMB_ACL_READ (Z.lor SMB_ACL_WRITE SMB_ACL_EXECUTE))) 0); [|done].
    by apply rwx_bits. }
  revert u g o. induction acl as [|e acl IH]; intros u g o Hu Hg Ho; cbn [copy_permsets]; [by exists u, g, o|].
  destruct (a_type e); apply IH; auto.
Qed.

Definition call_fits (c : acl_call) : Prop :=
  match c with Set_acl _ _ _ acl => Forall entry_fits acl | _ => True end.

Lemma make_call_fits f c errno log : call_fits c -> Forall call_fits log ->
  exists ok e log', make_call f c errno log = (ok, e, log') /\ Forall call_fits log'.
Proof.
  intros Hc Hl. unfold make_call. destruct (u_result f log c); do 3 eexists; (split; [done|]);
    apply Forall_app; (split; [done|]); by constructor.
Qed.

(** What a request that sets an ACL ends in: a result, with entries that fit in
    every call, unless [bad] holds. *)
Definition acl_outcome (r : option (bool * Z * list acl_call)) (bad : Prop) : Prop :=
  (exists ok e log, r = Some (ok, e, log) /\ Forall call_fits log) \/ bad.

(** Whether the allocation for the second or the third entry of the ACL that
    [remove_posix_acl] builds moves the list, so that the pointers it has to the
    entries before are dangling. *)
Definition list_moves (f : unix_file) : Prop := u_moves f 2 = true \/ u_moves f 3 = true.

Lemma remove_total f errno log : Forall call_fits log ->
  acl_outcome (remove_posix_acl f errno log) (list_moves f).
Proof.
  intros Hl. unfold remove_posix_acl. destruct (u_access f (u_has_fd f)) as [e|acl]; [left; by do 3 eexists|].
  unfold acl_outcome, list_moves.
  destruct (u_moves f 2), (u_moves f 3); cbn [orb]; [tauto..|]. left.
  destruct (copy_total acl 0 0 0) as (u & g & o & -> & Hu & Hg & Ho); [lia..|].
  cbn [mbind option_bind].
  edestruct make_call_fits as (ok & e & log' & -> & H); [| |by do 3 eexists]; [|done].
  repeat (apply List.Forall_cons); [..|constructor]; split; cbn; lia.
Qed.

Lemma set_access_total f n data ofs errno log : Forall is_byte data ->
  (ofs + n * SMB_POSIX_ACL_ENTRY_SIZE <= length data)%nat -> Forall call_fits log ->
  acl_outcome (set_unix_posix_acl f n data ofs errno log) (n = 0%nat /\ list_moves f).
Proof.
  intros Hb H Hl. unfold set_unix_posix_acl. destruct (Nat.eqb_spec n 0) as [Hn|Hn].
  { destruct (remove_total f errno log Hl); [by left|by right]. }
  left. destruct (wire_total n data ofs) as (r & -> & Hr); [done..|]. cbn [mbind option_bind].
  destruct r as [acl|]; [|by do 3 eexists].
  edestruct make_call_fits as (ok & e & log' & -> & H'); [| |by do 3 eexists]; [|done]. by apply Hr.
Qed.

Lemma set_default_total f n data ofs errno log : Forall is_byte data ->
  (ofs + n * SMB_POSIX_ACL_ENTRY_SIZE <= length data)%nat -> Forall call_fits log ->
  exists ok e log', set_unix_posix_default_acl f n data ofs errno log = Some (ok, e, log') /\ Forall call_fits log'.
Proof.
  intros Hb H Hl. unfold set_unix_posix_default_acl. destruct (negb (u_is_dir f)); [destruct (n =? 0)%nat; by do 3 eexists|].
  destruct (n =? 0)%nat.
  { edestruct make_call_fits as (ok & e & log' & -> & H'); [| |by do 3 eexists]; done. }
  destruct (wire_total n data ofs) as (r & -> & Hr); [done..|]. cbn [mbind option_bind].
  destruct r as [acl|]; [|by do 3 eexists].
  edestruct make_call_fits as (ok & e & log' & -> & H'); [| |by do 3 eexists]; [|done]. by apply Hr.
Qed.

(** C38. A request of the UNIX extensions to set POSIX ACLs is answered whatever data
    the client sends: nothing is read outside it, and every entry that is given to
    the file system has a known type, only the bits for read, write and execute,
    and an id of 32 bits. The one exception is a request to remove the access ACL
    (its count of entries is zero) where talloc_realloc moves the list of the new
    ACL while [remove_posix_acl] adds the entries for the group and for others. *)
Theorem smb_set_posix_acl_in_bounds f errno data : Forall is_byte data ->
  (exists status log, smb_set_posix_acl f errno data = Some (status, log) /\ Forall call_fits log) \/
  (read_le 2 data 2 = Some 0 /\ (u_moves f 2 = true \/ u_moves f 3 = true)).
Proof.
  intros Hb. unfold smb_set_posix_acl. destruct (Nat.ltb_spec (length data) SMB_POSIX_ACL_HEADER_SIZE) as [_|Hh]; [left; by do 2 eexists|].
  unfold SMB_POSIX_ACL_HEADER_SIZE in Hh.
  destruct (read_le_total 2 data 0) as (version & -> & _); [done|lia|].
  destruct (read_le_total 2 data 2) as (nf & -> & Hnf); [done|lia|].
  destruct (read_le_total 2 data 4) as (nd & -> & _); [done|lia|]. cbn [mbind option_bind].
  set (vf := negb (nf =? _)). set (n := Z.to_nat (if vf then nf else 0)). set (vd := negb (nd =? _)). set (d := Z.to_nat (if vd then nd else 0)).
  destruct (negb (version =? _)); [left; by do 2 eexists|].
  destruct (Nat.ltb_spec (length data) (SMB_POSIX_ACL_HEADER_SIZE + (n + d) * SMB_POSIX_ACL_ENTRY_SIZE)) as [_|Hd]; [left; by do 2 eexists|].
  destruct (negb (NT_STATUS_IS_OK _)); [left; by do 2 eexists|].
  assert (acl_outcome (if vf then set_unix_posix_acl f n data SMB_POSIX_ACL_HEADER_SIZE errno [] else Some (true, errno, []))
    (nf = 0 /\ list_moves f)) as [(ok & e & log & -> & Hl)|[-> Hm]]; [|cbn [mbind option_bind]|by right].
  { destruct vf; [|left; by do 3 eexists].
    destruct (set_access_total f n data SMB_POSIX_ACL_HEADER_SIZE errno []) as [|[Hn Hm]]; [done|lia|done|by left|].
    right. split; [unfold n in Hn; lia|done]. }
  left. destruct ok; cbn [negb]; [|by do 2 eexists].
  assert (exists ok' e' log', (if vd then set_unix_posix_default_acl f d data (SMB_POSIX_ACL_HEADER_SIZE + n * SMB_POSIX_ACL_ENTRY_SIZE) e log
    else Some (true, e, log)) = Some (ok', e', log') /\ Forall call_fits log') as (ok' & e' & log' & -> & Hl').
  { destruct vd; [|by do 3 eexists]. apply set_default_total; [done|lia|done]. }
  cbn [mbind option_bind]. destruct ok'; by do 2 eexists.
Qed.

(** ** Default ACLs follow the mode *)

(** The rights of a list of default entries: what the entries that apply allow. *)
Lemma default_first_match token l i :
  Forall (fun a => ace_type a = SEC_ACE_TYPE_ACCESS_ALLOWED /\ ace_flags a = 0) l ->
  allows (first_match token false l i) =
    existsb (fun a => security_token_has_sid token (Some (trustee a)) && Z.testbit (access_mask a) i) l.
Proof.
  induction 1 as [|a l [Ht Hf] H IH]; [done|]. cbn [first_match existsb].
  assert (ace_skipped token false a = negb (security_token_has_sid token (Some (trustee a)))) as ->.
  { unfold ace_skipped, inherit_only. by rewrite Hf. }
  rewrite Ht. destruct (security_token_has_sid _ _); cbn [negb andb orb]; [|done].
  by destruct (Z.testbit (access_mask a) i).
Qed.

(** What the posix style gives a user who is not the owner and not the system: the
    rights of the group bits of the mode to members of the group, and those of the
    bits for others to everyone. *)
Lemma default_posix_follows_mode conn junk mem st token i :
  let sd := make_default_acl_posix conn junk mem st in
  let group := Some (gid_to_sid conn (st_gid st)) in
  security_token_has_sid token (SecModel.owner_sid sd) = false ->
  security_token_has_sid token (Some (uid_to_sid conn (st_uid st))) = false ->
  security_token_has_sid token (Some global_sid_System) = false ->
  exists acl, dacl sd = Some acl /\
    bit_allowed sd token acl i =
      (security_token_has_sid token group && Z.testbit (class_access (st_mode st) S_IRGRP S_IWGRP) i) ||
      (security_token_has_sid token (Some global_sid_World) && Z.testbit (class_access (st_mode st) S_IROTH S_IWOTH) i).
Proof.
  intros sd group Ho Ho' Hs. eexists. split; [reflexivity|]. unfold bit_allowed, owner_implicit. rewrite Ho. cbn [andb orb].
  cbn [security_acl_dup aces make_sec_acl]. rewrite firstn_all. unfold posix_aces. cbv zeta.
  set (gm := class_access (st_mode st) S_IRGRP S_IWGRP). set (om := class_access (st_mode st) S_IROTH S_IWOTH).
  rewrite default_first_match by (destruct (negb (gm =? 0)), (negb (om =? 0)); repeat constructor).
  destruct (Z.eqb_spec gm 0) as [Eg|_], (Z.eqb_spec om 0) as [Ew|_]; rewrite ?Eg, ?Ew, ?Z.bits_0; cbn [negb app existsb];
    cbn [default_ace init_sec_ace trustee access_mask]; rewrite Ho', Hs; cbn [andb orb]; unfold group;
    by rewrite ?andb_false_r, ?orb_false_r.
Qed.

(** ** Examples *)

Module Wire_example.

Definition acl (mask : Z) : list smb_acl_entry :=
  [Smb_acl_entry SMB_ACL_USER_OBJ 0 7; Smb_acl_entry SMB_ACL_USER 1001 4; Smb_acl_entry SMB_ACL_GROUP_OBJ 0 7;
   Smb_acl_entry SMB_ACL_MASK 0 mask; Smb_acl_entry SMB_ACL_OTHER 0 0].

Definition def_acl : list smb_acl_entry :=
  [Smb_acl_entry SMB_ACL_USER_OBJ 0 7; Smb_acl_entry SMB_ACL_GROUP_OBJ 0 5; Smb_acl_entry SMB_ACL_OTHER 0 5].

(** A directory of user 1000 and group 2002. *)
Definition dir (mask : Z) (moves : bool) : unix_file :=
  Unix_file (fun _ _ => None) (fun _ => inr (acl mask)) (Some def_acl) (File_stat 1000 2002 0x41F8) true false 0
    (fun _ => moves).

(** Whose access ACL cannot be read. *)
Definition unreadable : unix_file :=
  Unix_file (fun _ _ => None) (fun _ => inl EIO) None (File_stat 1000 2002 0x81F8) false false 0 (fun _ => false).

Definition bob : posix_user := Posix_user 1002 [2002].

End Wire_example.

Lemma unix_acl_roundtrip_witness : exists data,
  query_posix_acl (Wire_example.dir 4 false) (replicate 100 0) = Some (inr data) /\
  smb_set_posix_acl (Wire_example.dir 4 false) 0 data =
    Some (NT_STATUS_OK, [Set_acl false false false (Wire_example.acl 4); Set_acl false true false Wire_example.def_acl]).
Proof.
  apply (unix_acl_roundtrip (Wire_example.dir 4 false) (replicate 100 0) 0 (Wire_example.acl 4));
    try (cbn; done); try (cbn; lia);
    repeat (apply List.Forall_cons); try constructor; cbn; lia.
Defined.

Lemma smb_set_posix_acl_in_bounds_witness : exists status log,
  smb_set_posix_acl (Wire_example.dir 4 false) 0 [1; 0; 1; 0; 255; 255; 8; 3] = Some (status, log) /\ Forall call_fits log.
Proof.
  destruct (smb_set_posix_acl_in_bounds (Wire_example.dir 4 false) 0 [1; 0; 1; 0; 255; 255; 8; 3]) as [H|[H _]].
  - repeat (apply List.Forall_cons); try constructor; lia.
  - exact H.
  - discriminate H.
Defined.

(** Removing an ACL copies the entry of the owning group without the mask: a member of
    the group whom the mask had left only read access can write afterwards. *)
Lemma remove_acl_widens :
  posix_access (u_stat (Wire_example.dir 4 false)) Wire_example.bob 1 (Wire_example.acl 4) = false /\
  exists acl, smb_set_posix_acl (Wire_example.dir 4 false) 0 [1; 0; 0; 0; 255; 255] = Some (NT_STATUS_OK, [Set_acl false false false acl]) /\
    posix_access (u_stat (Wire_example.dir 4 false)) Wire_example.bob 1 acl = true.
Proof. split; [reflexivity|]. eexists. split; reflexivity. Qed.

(** The pointers to the first entries of the new ACL are used after its array may have
    been moved by the creation of the next ones. *)
Lemma remove_acl_uses_moved_entries :
  smb_set_posix_acl (Wire_example.dir 4 true) 0 [1; 0; 0; 0; 255; 255] = None.
Proof. reflexivity. Qed.

(** An error while the ACL is read is answered with an ACL without entries. *)
Lemma unreadable_acl_reported_empty :
  query_posix_acl Wire_example.unreadable (replicate 100 0) = Some (inr [1; 0; 0; 0; 0; 0]).
Proof. reflexivity. Qed.
