(* ===== verification/BrlModel.v ===== *)
(** * Byte-range locking: the model of source3/locking/brlock.c

    The data of the byte-range lock database and the operations of brlock.c
    on it.  A record of brlock.tdb is an array of [lock_struct]; the pair
    [num_locks]/[lock_data] of the C structure is a list here.

    Calls that leave the module are of two kinds.  Queries of the rest of the
    server (is a process alive, is POSIX locking enabled, did the kernel grant
    the fcntl lock, did an allocation succeed) are fields of [brl_env], an
    argument of the operations.  Notifications (oplock contention, unlock
    messages to waiters, calls of the fcntl layer) are returned as a list of
    [brl_event] in the order in which the code performs them.  A call of
    [smb_panic], also through a failing [SMB_ASSERT], is the result [None]. *)

From S2P Require Import Prelude.
From S2P Require Import Errmap.
From S2P Require Import ServerId.
From stdpp Require Import prelude list.

#[local] Open Scope Z_scope.

(** [id.pid = 0]: how the lock code marks the entry of a dead process. *)
Definition clear_pid (id : server_id) : server_id :=
  Server_id 0 (task_id id) (vnn id) (unique_id id).

(** ** Locks (source3/include/locking.h) *)

Inductive brl_type :=
  READ_LOCK | WRITE_LOCK | PENDING_READ_LOCK | PENDING_WRITE_LOCK | UNLOCK_LOCK.

Inductive brl_flavour := WINDOWS_LOCK | POSIX_LOCK.

#[export] Instance brl_type_eq_dec : EqDecision brl_type.
Proof. solve_decision. Defined.

#[export] Instance brl_flavour_eq_dec : EqDecision brl_flavour.
Proof. solve_decision. Defined.

Definition IS_PENDING_LOCK (t : brl_type) : bool :=
  match t with PENDING_READ_LOCK | PENDING_WRITE_LOCK => true | _ => false end.

Definition is_type (t t' : brl_type) : bool := bool_decide (t = t').
Definition is_flav (f f' : brl_flavour) : bool := bool_decide (f = f').

Record lock_context := Lock_context {
  smblctx : Z;            (** uint64_t *)
  tid : Z;                (** uint32_t *)
  ctx_pid : server_id
}.

Record lock_struct := Lock_struct {
  context : lock_context;
  l_start : Z;            (** br_off, uint64_t *)
  l_size : Z;             (** br_off, uint64_t *)
  fnum : Z;               (** uint64_t *)
  lock_type : brl_type;
  lock_flav : brl_flavour
}.

#[export] Instance lock_context_eq_dec : EqDecision lock_context.
Proof. solve_decision. Defined.

#[export] Instance lock_struct_eq_dec : EqDecision lock_struct.
Proof. solve_decision. Defined.

(** [l->start + l->size] in [uint64_t] arithmetic. *)
Definition l_end (l : lock_struct) : Z := u64 (l_start l + l_size l).

(** Field updates. *)
Definition set_range (l : lock_struct) (start size : Z) : lock_struct :=
  Lock_struct (context l) start size (fnum l) (lock_type l) (lock_flav l).

Definition set_context (l : lock_struct) (c : lock_context) : lock_struct :=
  Lock_struct c (l_start l) (l_size l) (fnum l) (lock_type l) (lock_flav l).

(** [plock->context.smblctx = x] *)
Definition set_smblctx (l : lock_struct) (x : Z) : lock_struct :=
  set_context l (Lock_context x (tid (context l)) (ctx_pid (context l))).

(** [locks[i].context.pid.pid = 0] *)
Definition mark_dead (l : lock_struct) : lock_struct :=
  set_context l (Lock_context (smblctx (context l)) (tid (context l))
                              (clear_pid (ctx_pid (context l)))).

Definition zero_lock : lock_struct :=
  Lock_struct (Lock_context 0 0 (Server_id 0 0 0 0)) 0 0 0 READ_LOCK WINDOWS_LOCK.

(** ** The open file and the lock record *)

(** The part of [struct smbXsrv_open_global0] the lock code reads. *)
Record open_global := Open_global {
  open_persistent_id : Z;
  durable : bool
}.

(** The fields of [files_struct] the lock code uses; [cnum] is
    [fsp->conn->cnum], [self] is [messaging_server_id(...)] of its
    connection. *)
Record files_struct := Files_struct {
  file_id : Z;
  cnum : Z;
  fsp_fnum : Z;
  self : server_id;
  last_lock_failure : lock_struct;
  current_lock_count : Z;
  op : option open_global
}.

Definition set_last_lock_failure (f : files_struct) (l : lock_struct) : files_struct :=
  Files_struct (file_id f) (cnum f) (fsp_fnum f) (self f) l (current_lock_count f) (op f).

Definition set_current_lock_count (f : files_struct) (n : Z) : files_struct :=
  Files_struct (file_id f) (cnum f) (fsp_fnum f) (self f) (last_lock_failure f) n (op f).

(** [record] says whether [br_lck->record] is non-NULL (a locked database
    record) or NULL (a read-only copy). *)
Record byte_range_lock := Byte_range_lock {
  fsp : files_struct;
  modified : bool;
  num_read_oplocks : Z;
  lock_data : list lock_struct;
  record : bool
}.

Definition brl_num_locks (b : byte_range_lock) : nat := length (lock_data b).

Definition with_locks (b : byte_range_lock) (l : list lock_struct) (m : bool) : byte_range_lock :=
  Byte_range_lock (fsp b) m (num_read_oplocks b) l (record b).

Definition with_fsp (b : byte_range_lock) (f : files_struct) : byte_range_lock :=
  Byte_range_lock f (modified b) (num_read_oplocks b) (lock_data b) (record b).

(** [SMB_ASSERT(brl->record != NULL)] guards the write. *)
Definition brl_set_num_read_oplocks (b : byte_range_lock) (n : Z) : option byte_range_lock :=
  if record b then Some (Byte_range_lock (fsp b) true n (lock_data b) (record b)) else None.

(** ** The environment of the lock code *)

(** The outcome of an fcntl lock attempt of locking/posix.c: success, the
    [errno_ret] output and the value of [errno] afterwards. *)
Record posix_result := Posix_result {
  posix_ok : bool;
  errno_ret : Z;
  errno : Z
}.

Record brl_env := Brl_env {
  serverid_exists : server_id -> bool;
  lp_posix_locking : bool;
  set_posix_lock_windows_flavour :
    files_struct -> Z -> Z -> brl_type -> lock_context -> list lock_struct -> posix_result;
  set_posix_lock_posix_flavour :
    files_struct -> Z -> Z -> brl_type -> lock_context -> posix_result;
  is_posix_locked :
    files_struct -> Z -> Z -> brl_type -> brl_flavour -> bool * Z * Z * brl_type;
  talloc_array_ok : bool;
  talloc_realloc_ok : bool;
  talloc_memdup_ok : bool
}.

Inductive contend_type := LEVEL2_CONTEND_WINDOWS_BRL | LEVEL2_CONTEND_POSIX_BRL.

Inductive brl_event :=
| contend_level2_oplocks_begin (t : contend_type)
| contend_level2_oplocks_end (t : contend_type)
| ev_set_posix_lock (start size : Z) (t : brl_type) (c : lock_context)
| release_posix_lock_windows_flavour
    (start size : Z) (t : brl_type) (c : lock_context) (rest : list lock_struct)
| release_posix_lock_posix_flavour
    (start size : Z) (c : lock_context) (rest : list lock_struct)
| messaging_send_unlock (dst : server_id).

(** ** Conflict predicates *)

Definition brl_same_context (ctx1 ctx2 : lock_context) : bool :=
  server_id_equal (ctx_pid ctx1) (ctx_pid ctx2) &&
  (smblctx ctx1 =? smblctx ctx2) &&
  (tid ctx1 =? tid ctx2).

Definition brl_overlap (lck1 lck2 : lock_struct) : bool :=
  if negb (l_size lck1 =? 0) && (l_start lck1 =? l_start lck2) &&
     (l_size lck1 =? l_size lck2) then true
  else if (l_end lck2 <=? l_start lck1) || (l_end lck1 <=? l_start lck2) then false
  else true.

Definition brl_conflict (lck1 lck2 : lock_struct) : bool :=
  if IS_PENDING_LOCK (lock_type lck1) || IS_PENDING_LOCK (lock_type lck2) then false
  else if is_type (lock_type lck1) READ_LOCK && is_type (lock_type lck2) READ_LOCK then false
  else if is_type (lock_type lck1) WRITE_LOCK && is_type (lock_type lck2) READ_LOCK &&
          brl_same_context (context lck1) (context lck2) &&
          (fnum lck1 =? fnum lck2) then false
  else brl_overlap lck1 lck2.

Definition brl_conflict_posix (lck1 lck2 : lock_struct) : bool :=
  if IS_PENDING_LOCK (lock_type lck1) || IS_PENDING_LOCK (lock_type lck2) then false
  else if is_type (lock_type lck1) READ_LOCK && is_type (lock_type lck2) READ_LOCK then false
  else if brl_same_context (context lck1) (context lck2) then false
  else brl_overlap lck1 lck2.

Definition brl_conflict_other (lock rw_probe : lock_struct) : bool :=
  if IS_PENDING_LOCK (lock_type lock) || IS_PENDING_LOCK (lock_type rw_probe) then false
  else if is_type (lock_type lock) READ_LOCK && is_type (lock_type rw_probe) READ_LOCK then false
  else if is_flav (lock_flav lock) POSIX_LOCK && is_flav (lock_flav rw_probe) POSIX_LOCK then false
  else if negb (brl_overlap lock rw_probe) then false
  else if negb (brl_same_context (context lock) (context rw_probe)) then true
  else if negb (fnum lock =? fnum rw_probe) then true
  else if is_type (lock_type lock) READ_LOCK && is_type (lock_type rw_probe) WRITE_LOCK then true
  else false.

Definition brl_pending_overlap (lock pend_lock : lock_struct) : bool :=
  if (l_start lock <=? l_start pend_lock) && (l_start pend_lock <? l_end lock) then true
  else if (l_start pend_lock <=? l_start lock) && (l_start lock <? l_end pend_lock) then true
  else false.

(** The status of a failed Windows lock and the open file with its
    [last_lock_failure] updated. *)
Definition brl_lock_failed (f : files_struct) (lock : lock_struct) (blocking_lock : bool)
    : NTSTATUS * files_struct :=
  let remember := if blocking_lock then f else set_last_lock_failure f lock in
  let last := last_lock_failure f in
  if (0xEF000000 <=? l_start lock) && (Z.shiftr (l_start lock) 63 =? 0) then
    (NT_STATUS_FILE_LOCK_CONFLICT, remember)
  else if server_id_equal (ctx_pid (context lock)) (ctx_pid (context last)) &&
          (tid (context lock) =? tid (context last)) &&
          (fnum lock =? fnum last) && (l_start lock =? l_start last) then
    (NT_STATUS_FILE_LOCK_CONFLICT, f)
  else (NT_STATUS_LOCK_NOT_GRANTED, remember).

(** ** Locking *)

(** What a lock operation returns: the status, the record, the proposed lock
    as the code leaves it, and the notifications sent. *)
Record lock_result := Lock_result {
  r_status : NTSTATUS;
  r_brl : byte_range_lock;
  r_plock : lock_struct;
  r_events : list brl_event
}.

(** The conflict scan of [brl_lock_windows_default]: the array with the
    entries of dead processes marked, whether anything was marked, and the
    lock that blocks the request, if any. *)
Fixpoint windows_scan (env : brl_env) (plock : lock_struct) (locks : list lock_struct)
    : list lock_struct * bool * option lock_struct :=
  match locks with
  | [] => ([], false, None)
  | l :: rest =>
      if brl_conflict l plock then
        if negb (serverid_exists env (ctx_pid (context l))) then
          let '(rest', _, blocker) := windows_scan env plock rest in
          (mark_dead l :: rest', true, blocker)
        else (l :: rest, false, Some l)
      else
        let '(rest', m, blocker) := windows_scan env plock rest in
        (l :: rest', m, blocker)
  end.

(** The status of a failed fcntl lock. *)
Definition posix_failure_status (res : posix_result) : NTSTATUS :=
  if (errno_ret res =? EACCES) || (errno_ret res =? EAGAIN) then NT_STATUS_FILE_LOCK_CONFLICT
  else map_nt_error_from_unix (errno res).

Definition contend_begin_ev (t : brl_type) (k : contend_type) : list brl_event :=
  if IS_PENDING_LOCK t then [] else [contend_level2_oplocks_begin k].

Definition contend_end_ev (t : brl_type) (k : contend_type) : list brl_event :=
  if IS_PENDING_LOCK t then [] else [contend_level2_oplocks_end k].

Definition brl_lock_windows_default (env : brl_env) (br_lck : byte_range_lock)
    (plock : lock_struct) (blocking_lock : bool) : option lock_result :=
  if is_type (lock_type plock) UNLOCK_LOCK then None
  else if (u64 (l_start plock + l_size plock - 1) <? l_start plock) &&
          negb (l_size plock =? 0) then
    Some (Lock_result NT_STATUS_INVALID_LOCK_RANGE br_lck plock [])
  else
    let '(locks, marked, blocker) := windows_scan env plock (lock_data br_lck) in
    let br_lck := with_locks br_lck locks (modified br_lck || marked) in
    match blocker with
    | Some l =>
        let plock := set_smblctx plock (smblctx (context l)) in
        let '(status, f) := brl_lock_failed (fsp br_lck) plock blocking_lock in
        Some (Lock_result status (with_fsp br_lck f) plock [])
    | None =>
        let t := lock_type plock in
        let begin := contend_begin_ev t LEVEL2_CONTEND_WINDOWS_BRL in
        let fail := contend_end_ev t LEVEL2_CONTEND_WINDOWS_BRL in
        let map_posix := negb (IS_PENDING_LOCK t) && lp_posix_locking env in
        let res := set_posix_lock_windows_flavour env (fsp br_lck) (l_start plock)
                     (l_size plock) t (context plock) locks in
        let set := if map_posix
                   then [ev_set_posix_lock (l_start plock) (l_size plock) t (context plock)]
                   else [] in
        if map_posix && negb (posix_ok res) then
          Some (Lock_result (posix_failure_status res) br_lck
                            (set_smblctx plock UINT64_MAX) (begin ++ set ++ fail))
        else if negb (talloc_realloc_ok env) then
          Some (Lock_result NT_STATUS_NO_MEMORY br_lck plock (begin ++ set ++ fail))
        else
          Some (Lock_result NT_STATUS_OK (with_locks br_lck (locks ++ [plock]) true)
                            plock (begin ++ set))
    end.

(** The proposed lock as [brlock_posix_split_merge] leaves it and the
    entries it writes to its output array; the length of the latter is the
    function's return value.  [None] is the closing [smb_panic]. *)
Definition brlock_posix_split_merge (ex plock : lock_struct)
    : option (list lock_struct * lock_struct) :=
  let lock_types_differ := negb (is_type (lock_type ex) (lock_type plock)) in
  (* different context: just copy *)
  if negb (brl_same_context (context ex) (context plock)) then Some ([ex], plock)
  (* no overlap: copy existing *)
  else if (l_end plock <? l_start ex) || (l_end ex <? l_start plock) then Some ([ex], plock)
  (* replace: discard existing *)
  else if (l_start plock <=? l_start ex) && (l_end ex <=? l_end plock) then Some ([], plock)
  (* adjacent after *)
  else if l_end plock =? l_start ex then
    if lock_types_differ then Some ([ex], plock)
    else Some ([], set_range plock (l_start plock) (u64 (l_size plock + l_size ex)))
  (* adjacent before *)
  else if l_end ex =? l_start plock then
    if lock_types_differ then Some ([ex], plock)
    else Some ([], set_range plock (l_start ex) (u64 (l_size plock + l_size ex)))
  (* overlap after *)
  else if (l_start plock <=? l_start ex) && (l_start ex <=? l_end plock) &&
          (l_end plock <? l_end ex) then
    if lock_types_differ then
      Some ([set_range ex (l_end plock) (u64 (l_end ex - l_end plock))], plock)
    else
      Some ([], set_range plock (l_start plock)
                  (u64 (l_size plock + (l_end ex - l_end plock))))
  (* overlap before *)
  else if (l_start ex <? l_start plock) && (l_start plock <=? l_end ex) &&
          (l_end ex <=? l_end plock) then
    if lock_types_differ then
      Some ([set_range ex (l_start ex) (u64 (l_start plock - l_start ex))], plock)
    else
      Some ([], set_range plock (l_start ex)
                  (u64 (l_size plock + (l_start plock - l_start ex))))
  (* complete overlap *)
  else if (l_start ex <? l_start plock) && (l_end plock <? l_end ex) then
    if lock_types_differ then
      Some ([set_range ex (l_start ex) (u64 (l_start plock - l_start ex));
             set_range ex (l_end plock) (u64 (l_end ex - l_end plock))], plock)
    else Some ([], set_range plock (l_start ex) (l_size ex))
  else None.

(** The state of the scan of [brl_lock_posix]. *)
Record posix_scan := Posix_scan {
  ps_locks : list lock_struct;     (** the old array, dead entries marked *)
  ps_tp : list lock_struct;        (** the new array *)
  ps_plock : lock_struct;          (** the proposed lock, merges applied *)
  ps_posix_count : nat;
  ps_signal : bool;                (** signal_pending_read *)
  ps_marked : bool;
  ps_blocker : option lock_struct
}.

(** One iteration's contribution in front of the rest of the scan. *)
Definition ps_cons (old : lock_struct) (new : list lock_struct) (n : nat)
    (signal marked : bool) (s : posix_scan) : posix_scan :=
  Posix_scan (old :: ps_locks s) (new ++ ps_tp s) (ps_plock s) (n + ps_posix_count s)
             (signal || ps_signal s) (marked || ps_marked s) (ps_blocker s).

(** The scan loop of [brl_lock_posix]. *)
Fixpoint lock_posix_scan (env : brl_env) (plock : lock_struct) (locks : list lock_struct)
    : option posix_scan :=
  match locks with
  | [] => Some (Posix_scan [] [] plock 0 false false None)
  | curr :: rest =>
      let signal := is_type (lock_type curr) PENDING_READ_LOCK &&
                    brl_pending_overlap plock curr in
      let windows := is_flav (lock_flav curr) WINDOWS_LOCK in
      if (if windows then brl_conflict curr plock else brl_conflict_posix curr plock) then
        if negb (serverid_exists env (ctx_pid (context curr))) then
          s ← lock_posix_scan env plock rest;
          Some (ps_cons (mark_dead curr) [] 0 signal true s)
        else
          Some (Posix_scan (curr :: rest) [] plock 0 signal false (Some curr))
      else if windows then
        s ← lock_posix_scan env plock rest;
        Some (ps_cons curr [curr] 0 signal false s)
      else
        '(out, plock') ← brlock_posix_split_merge curr plock;
        s ← lock_posix_scan env plock' rest;
        Some (ps_cons curr out (length out) signal false s)
  end.

(** The loop that looks for the position of the new lock: both branches of
    its body go on to the next entry. *)
Fixpoint insert_index (plock : lock_struct) (tp : list lock_struct) (i : nat) : nat :=
  match tp with
  | [] => i
  | curr :: rest =>
      if l_start curr <=? l_start plock then insert_index plock rest (S i)
      else insert_index plock rest (S i)
  end.

(** [memmove] of the tail and [memcpy] of the lock at index [i]. *)
Definition insert_at (i : nat) (l : lock_struct) (tp : list lock_struct) : list lock_struct :=
  take i tp ++ [l] ++ drop i tp.

(** Unlock messages to the waiters of [locks] that [p] selects. *)
Definition unlock_messages (p : lock_struct -> bool) (locks : list lock_struct)
    : list brl_event :=
  (fun l => messaging_send_unlock (ctx_pid (context l))) <$> List.filter p locks.

Definition brl_lock_posix (env : brl_env) (br_lck : byte_range_lock) (plock : lock_struct)
    : option lock_result :=
  if (l_start plock =? 0) && (l_size plock =? 0) then
    Some (Lock_result NT_STATUS_INVALID_PARAMETER br_lck plock [])
  else if u64 (l_start plock + l_size plock - 1) <? l_start plock then
    Some (Lock_result NT_STATUS_INVALID_PARAMETER br_lck plock [])
  else if negb (talloc_array_ok env) then
    Some (Lock_result NT_STATUS_NO_MEMORY br_lck plock [])
  else
    s ← lock_posix_scan env plock (lock_data br_lck);
    let br_lck := with_locks br_lck (ps_locks s) (modified br_lck || ps_marked s) in
    match ps_blocker s with
    | Some l =>
        Some (Lock_result NT_STATUS_FILE_LOCK_CONFLICT br_lck
                          (set_smblctx (ps_plock s) (smblctx (context l))) [])
    | None =>
        let plock := ps_plock s in
        let t := lock_type plock in
        let break_oplocks := negb (IS_PENDING_LOCK t) && (ps_posix_count s =? 0)%nat in
        let begin := if break_oplocks
                     then [contend_level2_oplocks_begin LEVEL2_CONTEND_POSIX_BRL] else [] in
        let fail := if break_oplocks
                    then [contend_level2_oplocks_end LEVEL2_CONTEND_POSIX_BRL] else [] in
        let tp := insert_at (insert_index plock (ps_tp s) 0) plock (ps_tp s) in
        let map_posix := negb (IS_PENDING_LOCK t) && lp_posix_locking env in
        let res := set_posix_lock_posix_flavour env (fsp br_lck) (l_start plock)
                     (l_size plock) t (context plock) in
        let set := if map_posix
                   then [ev_set_posix_lock (l_start plock) (l_size plock) t (context plock)]
                   else [] in
        if map_posix && negb (posix_ok res) then
          Some (Lock_result (posix_failure_status res) br_lck
                            (set_smblctx plock UINT64_MAX) (begin ++ set ++ fail))
        else if (length tp <? brl_num_locks br_lck + 2)%nat && negb (talloc_realloc_ok env) then
          Some (Lock_result NT_STATUS_NO_MEMORY br_lck plock (begin ++ set ++ fail))
        else
          let messages :=
            if ps_signal s then
              unlock_messages (fun l => IS_PENDING_LOCK (lock_type l) &&
                                        is_type (lock_type l) PENDING_READ_LOCK &&
                                        brl_pending_overlap plock l) tp
            else [] in
          Some (Lock_result NT_STATUS_OK (with_locks br_lck tp true) plock
                            (begin ++ set ++ messages))
    end.

(** The status, the record, the blocking context to report (on an error) and
    the notifications of [brl_lock].  The Windows flavour goes through the VFS
    to its default implementation. *)
Definition brl_lock (env : brl_env) (br_lck : byte_range_lock) (smblctx0 : Z)
    (pid0 : server_id) (start size : Z) (lock_type0 : brl_type) (lock_flav0 : brl_flavour)
    (blocking_lock : bool) : option (NTSTATUS * byte_range_lock * option Z * list brl_event) :=
  let lock := Lock_struct (Lock_context smblctx0 (cnum (fsp br_lck)) pid0) start size
                          (fsp_fnum (fsp br_lck)) lock_type0 lock_flav0 in
  r ← match lock_flav0 with
      | WINDOWS_LOCK => brl_lock_windows_default env br_lck lock blocking_lock
      | POSIX_LOCK => brl_lock_posix env br_lck lock
      end;
  let psmblctx := if negb (NT_STATUS_IS_OK (r_status r))
                  then Some (smblctx (context (r_plock r))) else None in
  Some (r_status r, r_brl r, psmblctx, r_events r).

(** ** Unlocking *)

(** The index of the first entry that satisfies [p]. *)
Fixpoint find_index (p : lock_struct -> bool) (locks : list lock_struct) : option nat :=
  match locks with
  | [] => None
  | l :: rest => if p l then Some 0%nat else S <$> find_index p rest
  end.

(** The array after the [memmove] and the decrement of [num_locks] that
    follows every call. *)
Definition brl_delete_lock_struct (locks : list lock_struct) (del_idx : nat)
    : list lock_struct :=
  if (length locks <=? del_idx)%nat then locks
  else take del_idx locks ++ drop (S del_idx) locks.

(** The entry [brl_unlock_windows_default] removes. *)
Definition unlock_windows_match (plock lock : lock_struct) : bool :=
  negb (IS_PENDING_LOCK (lock_type lock)) &&
  (brl_same_context (context lock) (context plock) &&
   (fnum lock =? fnum plock) &&
   is_flav (lock_flav lock) WINDOWS_LOCK &&
   (l_start lock =? l_start plock) &&
   (l_size lock =? l_size plock)).

(** Waiters an unlock of [plock] wakes up. *)
Definition pending_waiter (plock pend_lock : lock_struct) : bool :=
  IS_PENDING_LOCK (lock_type pend_lock) && brl_pending_overlap plock pend_lock.

Definition brl_unlock_windows_default (env : brl_env) (br_lck : byte_range_lock)
    (plock : lock_struct) : option (bool * byte_range_lock * list brl_event) :=
  if negb (is_type (lock_type plock) UNLOCK_LOCK) then None
  else
    match find_index (unlock_windows_match plock) (lock_data br_lck) with
    | None => Some (false, br_lck, [])
    | Some i =>
        let deleted_lock_type := default READ_LOCK (lock_type <$> lock_data br_lck !! i) in
        let locks := brl_delete_lock_struct (lock_data br_lck) i in
        let release :=
          if lp_posix_locking env
          then [release_posix_lock_windows_flavour (l_start plock) (l_size plock)
                  deleted_lock_type (context plock) locks]
          else [] in
        Some (true, with_locks br_lck locks true,
              release ++ unlock_messages (pending_waiter plock) locks ++
              [contend_level2_oplocks_end LEVEL2_CONTEND_WINDOWS_BRL])
    end.

(** The scan loop of [brl_unlock_posix]: it either meets a Windows lock of
    the same context that conflicts, or produces the new array. *)
Inductive unlock_scan :=
| Unlock_conflict
| Unlock_done (tp : list lock_struct) (overlap_found : bool) (plock : lock_struct).

Definition us_cons (out : list lock_struct) (overlap : bool) (s : unlock_scan) : unlock_scan :=
  match s with
  | Unlock_conflict => Unlock_conflict
  | Unlock_done tp o plock => Unlock_done (out ++ tp) (overlap || o) plock
  end.

Fixpoint unlock_posix_scan (plock : lock_struct) (locks : list lock_struct)
    : option unlock_scan :=
  match locks with
  | [] => Some (Unlock_done [] false plock)
  | lock :: rest =>
      if IS_PENDING_LOCK (lock_type lock) ||
         negb (brl_same_context (context lock) (context plock)) then
        us_cons [lock] false <$> unlock_posix_scan plock rest
      else if is_flav (lock_flav lock) WINDOWS_LOCK then
        if brl_conflict lock plock then Some Unlock_conflict
        else us_cons [lock] false <$> unlock_posix_scan plock rest
      else
        '(out, plock') ← brlock_posix_split_merge lock plock;
        match out with
        | [] => us_cons [] true <$> unlock_posix_scan plock' rest
        | [o] => us_cons [o] (negb (l_size o =? l_size lock)) <$> unlock_posix_scan plock' rest
        | _ => (* a split: copy the rest of the array and break *)
            Some (Unlock_done (out ++ rest) true plock')
        end
  end.

Definition brl_unlock_posix (env : brl_env) (br_lck : byte_range_lock) (plock : lock_struct)
    : option (bool * byte_range_lock * list brl_event) :=
  if (l_start plock =? 0) && (l_size plock =? 0) then Some (false, br_lck, [])
  else if (l_end plock <? l_start plock) || (l_end plock <? l_size plock) then
    Some (false, br_lck, [])
  else if negb (talloc_array_ok env) then Some (false, br_lck, [])
  else
    s ← unlock_posix_scan plock (lock_data br_lck);
    match s with
    | Unlock_conflict => Some (false, br_lck, [])
    | Unlock_done tp overlap_found plock =>
        if negb overlap_found then Some (true, br_lck, [])
        else
          let release :=
            if lp_posix_locking env
            then [release_posix_lock_posix_flavour (l_start plock) (l_size plock)
                    (context plock) tp]
            else [] in
          if (0 <? length tp)%nat && negb (talloc_realloc_ok env) then
            Some (false, br_lck, release)
          else
            Some (true, with_locks br_lck tp true,
                  release ++ [contend_level2_oplocks_end LEVEL2_CONTEND_POSIX_BRL] ++
                  unlock_messages (pending_waiter plock) tp)
    end.

Definition brl_unlock (env : brl_env) (br_lck : byte_range_lock) (smblctx0 : Z)
    (pid0 : server_id) (start size : Z) (lock_flav0 : brl_flavour)
    : option (bool * byte_range_lock * list brl_event) :=
  let lock := Lock_struct (Lock_context smblctx0 (cnum (fsp br_lck)) pid0) start size
                          (fsp_fnum (fsp br_lck)) UNLOCK_LOCK lock_flav0 in
  match lock_flav0 with
  | WINDOWS_LOCK => brl_unlock_windows_default env br_lck lock
  | POSIX_LOCK => brl_unlock_posix env br_lck lock
  end.

(** ** Queries *)

(** The scan of [brl_locktest]: the array with dead entries marked, whether
    any was marked, and whether the probe is blocked. *)
Fixpoint locktest_scan (env : brl_env) (writable : bool) (rw_probe : lock_struct)
    (locks : list lock_struct) : list lock_struct * bool * bool :=
  match locks with
  | [] => ([], false, false)
  | l :: rest =>
      if brl_conflict_other l rw_probe then
        if negb writable then (l :: rest, false, true)
        else if negb (serverid_exists env (ctx_pid (context l))) then
          let '(rest', _, blocked) := locktest_scan env writable rw_probe rest in
          (mark_dead l :: rest', true, blocked)
        else (l :: rest, false, true)
      else
        let '(rest', m, blocked) := locktest_scan env writable rw_probe rest in
        (l :: rest', m, blocked)
  end.

Definition brl_locktest (env : brl_env) (br_lck : byte_range_lock) (rw_probe : lock_struct)
    : bool * byte_range_lock :=
  let '(locks, marked, blocked) :=
    locktest_scan env (record br_lck) rw_probe (lock_data br_lck) in
  let br_lck := with_locks br_lck locks (modified br_lck || marked) in
  if blocked then (false, br_lck)
  else if lp_posix_locking env && is_flav (lock_flav rw_probe) WINDOWS_LOCK then
    let '(ret, _, _, _) := is_posix_locked env (fsp br_lck) (l_start rw_probe)
                             (l_size rw_probe) (lock_type rw_probe) WINDOWS_LOCK in
    (negb ret, br_lck)
  else (true, br_lck).

Definition lockquery_conflict (lock exlock : lock_struct) : bool :=
  match lock_flav exlock with
  | WINDOWS_LOCK => brl_conflict exlock lock
  | POSIX_LOCK => brl_conflict_posix exlock lock
  end.

(** The status and the in/out arguments [psmblctx], [pstart], [psize] and
    [plock_type]. *)
Definition brl_lockquery (env : brl_env) (br_lck : byte_range_lock) (psmblctx : Z)
    (pid0 : server_id) (pstart psize : Z) (plock_type : brl_type) (lock_flav0 : brl_flavour)
    : NTSTATUS * (Z * Z * Z * brl_type) :=
  let f := fsp br_lck in
  let lock := Lock_struct (Lock_context psmblctx (cnum f) pid0) pstart psize (fsp_fnum f)
                          plock_type lock_flav0 in
  match List.find (lockquery_conflict lock) (lock_data br_lck) with
  | Some exlock =>
      (NT_STATUS_LOCK_NOT_GRANTED,
       (smblctx (context exlock), l_start exlock, l_size exlock, lock_type exlock))
  | None =>
      if lp_posix_locking env then
        let '(ret, pstart, psize, plock_type) :=
          is_posix_locked env f pstart psize plock_type POSIX_LOCK in
        if (ret : bool) then
          (NT_STATUS_LOCK_NOT_GRANTED, (UINT64_MAX, pstart, psize, plock_type))
        else (NT_STATUS_OK, (psmblctx, pstart, psize, plock_type))
      else (NT_STATUS_OK, (psmblctx, pstart, psize, plock_type))
  end.

(** ** Cancelling, closing, durable handles *)

Definition cancel_match (plock lock : lock_struct) : bool :=
  brl_same_context (context lock) (context plock) &&
  (fnum lock =? fnum plock) &&
  IS_PENDING_LOCK (lock_type lock) &&
  is_flav (lock_flav lock) (lock_flav plock) &&
  (l_start lock =? l_start plock) &&
  (l_size lock =? l_size plock).

Definition brl_lock_cancel_default (br_lck : byte_range_lock) (plock : lock_struct)
    : bool * byte_range_lock :=
  match find_index (cancel_match plock) (lock_data br_lck) with
  | None => (false, br_lck)
  | Some i =>
      (true, with_locks br_lck (brl_delete_lock_struct (lock_data br_lck) i) true)
  end.

(** The uninitialised [lock_type] of the C code is the argument [any_type]. *)
Definition brl_lock_cancel (any_type : brl_type) (br_lck : byte_range_lock) (smblctx0 : Z)
    (pid0 : server_id) (start size : Z) (lock_flav0 : brl_flavour) : bool * byte_range_lock :=
  brl_lock_cancel_default br_lck
    (Lock_struct (Lock_context smblctx0 (cnum (fsp br_lck)) pid0) start size
                 (fsp_fnum (fsp br_lck)) any_type lock_flav0).

(** The entries [brl_close_fnum] unlocks. *)
Definition close_match (f : files_struct) (lock : lock_struct) : bool :=
  (tid (context lock) =? cnum f) &&
  server_id_equal (ctx_pid (context lock)) (self f) &&
  (fnum lock =? fsp_fnum f).

(** The loop of [brl_close_fnum] over the copy of the array it took. *)
Fixpoint close_loop (env : brl_env) (f : files_struct) (locks_copy : list lock_struct)
    (br_lck : byte_range_lock) : option (byte_range_lock * list brl_event) :=
  match locks_copy with
  | [] => Some (br_lck, [])
  | lock :: rest =>
      if close_match f lock then
        '(_, br_lck, ev) ← brl_unlock env br_lck (smblctx (context lock)) (self f)
                             (l_start lock) (l_size lock) (lock_flav lock);
        '(br_lck, ev') ← close_loop env f rest br_lck;
        Some (br_lck, ev ++ ev')
      else close_loop env f rest br_lck
  end.

Definition brl_close_fnum (env : brl_env) (br_lck : byte_range_lock)
    : option (byte_range_lock * list brl_event) :=
  if (0 <? brl_num_locks br_lck)%nat && negb (talloc_memdup_ok env) then None
  else close_loop env (fsp br_lck) (lock_data br_lck) br_lck.

Definition TID_FIELD_INVALID : Z := 0.
Definition FNUM_FIELD_INVALID : Z := 0.

(** The loop of [brl_mark_disconnected]: the entries written so far and
    whether the loop ran to its end. *)
Fixpoint mark_loop (f : files_struct) (smblctx0 : Z) (locks : list lock_struct)
    : list lock_struct * bool :=
  match locks with
  | [] => ([], true)
  | lock :: rest =>
      let c := context lock in
      if negb (smblctx c =? smblctx0) then (lock :: rest, false)
      else if negb (tid c =? cnum f) then (lock :: rest, false)
      else if negb (server_id_equal (ctx_pid c) (self f)) then (lock :: rest, false)
      else if negb (fnum lock =? fsp_fnum f) then (lock :: rest, false)
      else
        let lock' := Lock_struct
          (Lock_context (smblctx c) TID_FIELD_INVALID server_id_set_disconnected)
          (l_start lock) (l_size lock) FNUM_FIELD_INVALID (lock_type lock) (lock_flav lock) in
        let '(rest', ok) := mark_loop f smblctx0 rest in
        (lock' :: rest', ok)
  end.

(** The loop of [brl_reconnect_disconnected]. *)
Fixpoint reconnect_loop (f : files_struct) (smblctx0 : Z) (locks : list lock_struct)
    : list lock_struct * bool :=
  match locks with
  | [] => ([], true)
  | lock :: rest =>
      let c := context lock in
      if negb (smblctx c =? smblctx0) then (lock :: rest, false)
      else if negb (tid c =? TID_FIELD_INVALID) then (lock :: rest, false)
      else if negb (server_id_is_disconnected (ctx_pid c)) then (lock :: rest, false)
      else if negb (fnum lock =? FNUM_FIELD_INVALID) then (lock :: rest, false)
      else
        let lock' := Lock_struct (Lock_context (smblctx c) (cnum f) (self f))
          (l_start lock) (l_size lock) (fsp_fnum f) (lock_type lock) (lock_flav lock) in
        let '(rest', ok) := reconnect_loop f smblctx0 rest in
        (lock' :: rest', ok)
  end.

(** The loop of [byte_range_lock_flush] that drops the entries of dead
    processes: entry [i] is overwritten with the last one. *)
Fixpoint flush_loop (fuel : nat) (i : nat) (locks : list lock_struct) : list lock_struct :=
  match fuel with
  | O => locks
  | S fuel =>
      match locks !! i, last locks with
      | Some l, Some z =>
          if pid (ctx_pid (context l)) =? 0
          then flush_loop fuel i (take (length locks - 1) (<[i := z]> locks))
          else flush_loop fuel (S i) locks
      | _, _ => locks
      end
  end.

(** Every iteration brings [i] and [num_locks] closer, so the number of
    entries bounds the number of iterations. *)
Definition flush_locks (locks : list lock_struct) : list lock_struct :=
  flush_loop (length locks) 0 locks.
