(* ===== verification/BrlSafety.v ===== *)
(** * Byte-range locking: exclusivity of granted locks

    The central promise of the lock table: no byte is covered by a granted
    write lock of one live client and a granted lock of another.  The promise
    is an invariant of the operations of BrlModel, for requests that do not
    reach the end of the 64-bit offset space (see [brl_overlap_misses_end] for
    what happens there). *)

From S2P Require Import Prelude.
From S2P Require Import Errmap.
From S2P Require Import ServerId.
From S2P Require Import BrlModel.
From stdpp Require Import prelude list.

#[local] Open Scope Z_scope.

(** ** Specification *)

(** Byte [b] lies in the range of [l]. *)
Definition covers (l : lock_struct) (b : Z) : Prop := l_start l <= b < l_start l + l_size l.

(** The range of [l] ends before the last offset of the 64-bit space. *)
Definition range_ok (l : lock_struct) : Prop :=
  0 <= l_start l /\ 0 <= l_size l /\ l_start l + l_size l < 2 ^ 64.

(** The entry of a process found dead. *)
Definition dead (l : lock_struct) : Prop := pid (ctx_pid (context l)) = 0.

(** Two entries that may be in the table together. *)
Definition compatible (a b : lock_struct) : Prop :=
  IS_PENDING_LOCK (lock_type a) = true \/ IS_PENDING_LOCK (lock_type b) = true \/
  dead a \/ dead b \/
  (lock_type a = READ_LOCK /\ lock_type b = READ_LOCK) \/
  context a = context b \/
  (forall x, ~ (covers a x /\ covers b x)).

Definition table_ok (locks : list lock_struct) : Prop :=
  Forall range_ok locks /\ pairwise compatible locks.

(** [o] is what is left of [ex]: same owner and type, a part of the range. *)
Definition piece (o ex : lock_struct) : Prop :=
  context o = context ex /\ lock_type o = lock_type ex /\ lock_flav o = lock_flav ex /\
  fnum o = fnum ex /\ range_ok o /\ (forall x, covers o x -> covers ex x).

(** A POSIX lock range is never empty. *)
Definition pos_range (l : lock_struct) : Prop := range_ok l /\ 0 < l_size l.

Definition apart (a b : lock_struct) : Prop := forall x, ~ (covers a x /\ covers b x).

(** Same owner, type, flavour and handle. *)
Definition same_kind (a b : lock_struct) : Prop :=
  context a = context b /\ lock_type a = lock_type b /\ lock_flav a = lock_flav b /\
  fnum a = fnum b.

(** The contract of [brlock_posix_split_merge ex plock]: [out] is what is left
    of the existing lock [ex] and [plock'] is the proposed lock after merging,
    if both have the same context; otherwise nothing happens. *)
Record split_merge_ok (ex plock : lock_struct) (out : list lock_struct)
    (plock' : lock_struct) : Prop := {
  sm_kind : same_kind plock' plock;
  sm_range : range_ok plock' /\ l_size plock <= l_size plock';
  sm_pieces : Forall (fun o => piece o ex /\ 0 < l_size o) out;
  sm_grow : forall x, covers plock x -> covers plock' x;
  sm_merged : forall x, covers plock' x ->
    covers plock x \/
    (context ex = context plock /\ lock_type ex = lock_type plock /\ covers ex x);
  sm_kept : context ex = context plock -> forall x, covers ex x ->
    covers plock' x \/ exists o, o ∈ out /\ covers o x;
  sm_apart : context ex = context plock -> Forall (apart plock') out;
  sm_foreign : context ex <> context plock -> out = [ex] /\ plock' = plock;
  sm_self : pairwise apart out;
  sm_count : (length out <= 1)%nat \/
    (length out = 2%nat /\ context ex = context plock /\ forall x, covers plock x -> covers ex x)
}.

(** ** Contexts and ranges *)

Lemma brl_same_context_spec (a b : lock_context) : brl_same_context a b = true <-> a = b.
Proof.
  unfold brl_same_context. destruct a as [s1 t1 p1], b as [s2 t2 p2]; simpl.
  rewrite !andb_true_iff, server_id_equal_spec, !Z.eqb_eq.
  split; [intros [[-> ->] ->] | intros [= -> -> ->]]; done.
Qed.

Lemma l_end_ok (l : lock_struct) : range_ok l -> l_end l = l_start l + l_size l.
Proof. intros (?&?&?). apply u64_id. unfold in_w. lia. Qed.

(** Ranges that [brl_overlap] rejects share no byte. *)
Lemma brl_overlap_false (a b : lock_struct) :
  range_ok a -> range_ok b -> brl_overlap a b = false -> forall x, ~ (covers a x /\ covers b x).
Proof.
  intros Ha Hb. unfold brl_overlap. rewrite !l_end_ok by done.
  unfold covers, range_ok in *. repeat case_if; [done| |done]. intros _ x.
  apply orb_true_iff in Heqb1. lia.
Qed.

Lemma covers_mark_dead (l : lock_struct) (x : Z) : covers (mark_dead l) x <-> covers l x.
Proof. done. Qed.

Lemma range_ok_mark_dead (l : lock_struct) : range_ok (mark_dead l) <-> range_ok l.
Proof. done. Qed.

Lemma mark_dead_dead (l : lock_struct) : dead (mark_dead l).
Proof. done. Qed.

(** ** Compatibility *)

Lemma compatible_sym (a b : lock_struct) : compatible a b -> compatible b a.
Proof.
  unfold compatible. intros [H|[H|[H|[H|[[H H']|[H|H]]]]]]; auto 10.
  do 6 right. intros x [Hb Ha]. exact (H x (conj Ha Hb)).
Qed.

(** Entries that need disjoint ranges: both granted, alive, of different
    contexts, and at least one of them a write lock. *)
Definition contending (a b : lock_struct) : Prop :=
  IS_PENDING_LOCK (lock_type a) = false /\ IS_PENDING_LOCK (lock_type b) = false /\
  ~ dead a /\ ~ dead b /\ ~ (lock_type a = READ_LOCK /\ lock_type b = READ_LOCK) /\
  context a <> context b.

Lemma compatible_iff (a b : lock_struct) :
  compatible a b <-> (contending a b -> apart a b).
Proof.
  unfold compatible, contending, apart, dead. split.
  - intros [H|[H|[H|[H|[[H H']|[H|H]]]]]] (? & ? & ? & ? & ? & ?); try congruence; tauto.
  - intros H.
    destruct (IS_PENDING_LOCK (lock_type a)); [tauto|].
    destruct (IS_PENDING_LOCK (lock_type b)); [tauto|].
    destruct (decide (pid (ctx_pid (context a)) = 0)); [tauto|].
    destruct (decide (pid (ctx_pid (context b)) = 0)); [tauto|].
    destruct (decide (lock_type a = READ_LOCK)), (decide (lock_type b = READ_LOCK));
      destruct (decide (context a = context b)); try tauto;
      do 6 right; apply H; tauto.
Qed.

Lemma compatible_dead_l (a b : lock_struct) : dead a -> compatible a b.
Proof. unfold compatible. tauto. Qed.

Lemma compatible_dead_r (a b : lock_struct) : dead b -> compatible a b.
Proof. unfold compatible. tauto. Qed.

Lemma piece_refl (l : lock_struct) : range_ok l -> piece l l.
Proof. intros H. unfold piece. split_and!; auto. Qed.

Lemma compatible_piece (a a' b b' : lock_struct) :
  piece a' a -> piece b' b -> compatible a b -> compatible a' b'.
Proof.
  intros (Hc & Ht & _ & _ & _ & Ha) (Hc' & Ht' & _ & _ & _ & Hb).
  unfold compatible, dead. rewrite Hc, Ht, Hc', Ht'.
  intros [H|[H|[H|[H|[[H H']|[H|H]]]]]]; auto 10.
  do 6 right. intros x [Ha' Hb']. apply (H x). auto.
Qed.

(** A request that [brl_conflict] lets pass is compatible. *)
Lemma brl_conflict_false (a b : lock_struct) :
  range_ok a -> range_ok b -> brl_conflict a b = false -> compatible a b.
Proof.
  intros Ha Hb. unfold brl_conflict, compatible, is_type.
  repeat case_if; intros Hov; boolify.
  - apply orb_true_iff in Heqb0. tauto.
  - tauto.
  - apply brl_same_context_spec in H1. tauto.
  - do 6 right. by apply brl_overlap_false.
Qed.

Lemma brl_conflict_posix_false (a b : lock_struct) :
  range_ok a -> range_ok b -> brl_conflict_posix a b = false -> compatible a b.
Proof.
  intros Ha Hb. unfold brl_conflict_posix, compatible, is_type.
  repeat case_if; intros Hov; boolify.
  - apply orb_true_iff in Heqb0. tauto.
  - tauto.
  - apply brl_same_context_spec in Heqb2. tauto.
  - do 6 right. by apply brl_overlap_false.
Qed.

#[export] Hint Resolve compatible_dead_l compatible_dead_r mark_dead_dead piece_refl : samba.

(** ** Tables *)

Lemma table_ok_cons (l : lock_struct) (ls : list lock_struct) :
  table_ok (l :: ls) <-> range_ok l /\ Forall (compatible l) ls /\ table_ok ls.
Proof. unfold table_ok. simpl. rewrite Forall_cons. tauto. Qed.

Lemma table_ok_app (l k : list lock_struct) :
  table_ok (l ++ k) <->
  table_ok l /\ table_ok k /\ Forall (fun a => Forall (compatible a) k) l.
Proof. unfold table_ok. rewrite Forall_app, pairwise_app. tauto. Qed.

Lemma table_ok_elems (ls : list lock_struct) (a b : lock_struct) :
  table_ok ls -> a ∈ ls -> b ∈ ls -> a = b \/ compatible a b.
Proof.
  intros [_ Hp]. induction ls as [|l ls IH]; [by intros ?%elem_of_nil|].
  destruct Hp as [Hl Hp]. rewrite Forall_forall in Hl.
  intros [->|Ha]%elem_of_cons [->|Hb]%elem_of_cons; auto using compatible_sym.
Qed.

Lemma table_ok_snoc (ls : list lock_struct) (l : lock_struct) :
  table_ok ls -> range_ok l -> Forall (fun a => compatible a l) ls -> table_ok (ls ++ [l]).
Proof.
  intros Hls Hl Hc. apply table_ok_app. split_and!; [done| |].
  - apply table_ok_cons. split_and!; [done|constructor|split; constructor].
  - eapply Forall_impl; [exact Hc|]. intros a Ha. by apply Forall_singleton.
Qed.

Lemma table_ok_sublist (l k : list lock_struct) : sublist l k -> table_ok k -> table_ok l.
Proof.
  intros Hs [Hr Hp]. split; [|by eapply pairwise_sublist].
  rewrite Forall_forall in *. intros x Hx. apply Hr. by eapply elem_of_sublist.
Qed.

Lemma table_ok_delete (ls : list lock_struct) (i : nat) :
  table_ok ls -> table_ok (brl_delete_lock_struct ls i).
Proof.
  unfold brl_delete_lock_struct. destruct (length ls <=? i)%nat; [done|].
  apply table_ok_sublist. rewrite <- (take_drop i ls) at 3.
  apply sublist_app; [done|]. destruct (drop i ls) eqn:E.
  - rewrite drop_ge; [done|]. pose proof (length_drop ls i) as Hl. rewrite E in Hl. simpl in Hl. lia.
  - rewrite <- Nat.add_1_r, <- drop_drop, E. simpl. by constructor.
Qed.

Lemma delete_permutation (ls : list lock_struct) (i : nat) (x : lock_struct) :
  ls !! i = Some x -> ls ≡ₚ brl_delete_lock_struct ls i ++ [x].
Proof.
  intros Hi. pose proof (lookup_lt_Some _ _ _ Hi) as Hlt. unfold brl_delete_lock_struct.
  destruct (Nat.leb_spec (length ls) i); [lia|]. rewrite <- (take_drop_middle ls i x Hi) at 1. solve_Permutation.
Qed.

Lemma find_index_spec (p : lock_struct -> bool) (locks : list lock_struct) :
  match find_index p locks with
  | Some i => exists l, locks !! i = Some l /\ p l = true
  | None => Forall (fun l => p l = false) locks
  end.
Proof.
  induction locks as [|l locks IH]; simpl; [constructor|].
  destruct (p l) eqn:E; [by exists l|].
  destruct (find_index p locks) as [i|]; simpl; [exact IH|]. by constructor.
Qed.


(** ** Windows locks *)

(** What the scan leaves in the array: the old entries, some of those whose
    process does not exist marked dead. *)
Definition marked_from (env : brl_env) (new old : lock_struct) : Prop :=
  new = old \/ (new = mark_dead old /\ serverid_exists env (ctx_pid (context old)) = false).

Lemma marked_refl (env : brl_env) (locks : list lock_struct) : Forall2 (marked_from env) locks locks.
Proof. induction locks; constructor; auto. by left. Qed.

Lemma marked_same (env : brl_env) (l : lock_struct) : marked_from env l l.
Proof. by left. Qed.

Lemma marked_dead (env : brl_env) (l : lock_struct) :
  negb (serverid_exists env (ctx_pid (context l))) = true -> marked_from env (mark_dead l) l.
Proof. intros H%negb_true_iff. by right. Qed.

#[export] Hint Resolve marked_refl marked_same marked_dead : samba.

Lemma table_ok_marked (env : brl_env) (old new : list lock_struct) :
  Forall2 (marked_from env) new old -> table_ok old -> table_ok new.
Proof.
  assert (forall a b new old, marked_from env a b -> Forall2 (marked_from env) new old ->
            Forall (compatible b) old -> Forall (compatible a) new) as Hfor.
  { intros a b n o Hab. induction 1 as [|x y n o Hxy _ IH]; [done|].
    rewrite !Forall_cons. intros [Hby Ho]. split; [|auto].
    destruct Hab as [->|[-> _]], Hxy as [->|[-> _]]; auto with samba. }
  induction 1 as [|a b n o Hab Hno IH]; [done|].
  rewrite !table_ok_cons. intros (Hr & Hc & Ho). split_and!; [|eauto|auto].
  by destruct Hab as [->|[-> _]].
Qed.

Lemma windows_scan_marked (env : brl_env) (plock : lock_struct) (locks : list lock_struct) :
  Forall2 (marked_from env) (windows_scan env plock locks).1.1 locks.
Proof.
  induction locks as [|l rest IH]; simpl; [constructor|].
  destruct (windows_scan env plock rest) as [[rest' m] blk]. simpl in IH.
  repeat case_if; simpl; constructor; auto with samba.
Qed.

Lemma windows_scan_free (env : brl_env) (plock : lock_struct) (locks : list lock_struct) :
  range_ok plock -> Forall range_ok locks ->
  (windows_scan env plock locks).2 = None ->
  Forall (fun l => compatible l plock) (windows_scan env plock locks).1.1.
Proof.
  intros Hp. induction 1 as [|l rest Hl _ IH]; simpl; [constructor|].
  destruct (windows_scan env plock rest) as [[rest' m] blk]. simpl in IH.
  repeat case_if; simpl; intros; simplify_eq; constructor; auto with samba.
  by apply brl_conflict_false.
Qed.

Lemma brl_lock_windows_ok (env : brl_env) (br : byte_range_lock) (plock : lock_struct)
    (blocking : bool) (r : lock_result) :
  range_ok plock -> table_ok (lock_data br) ->
  brl_lock_windows_default env br plock blocking = Some r ->
  table_ok (lock_data (r_brl r)).
Proof.
  intros Hp Ht. unfold brl_lock_windows_default.
  pose proof (windows_scan_marked env plock (lock_data br)) as Hm.
  pose proof (windows_scan_free env plock (lock_data br) Hp (proj1 Ht)) as Hf.
  destruct (windows_scan env plock (lock_data br)) as [[locks m] blk]. simpl in *.
  pose proof (table_ok_marked _ _ _ Hm Ht) as Ht'.
  destruct (is_type _ _); [done|]. destruct (_ && _); [by intros [= <-]|].
  destruct blk as [l|].
  - destruct (brl_lock_failed _ _ _) as [s f]. by intros [= <-].
  - repeat case_if; intros [= <-]; simpl; first [done | by apply table_ok_snoc; auto].
Qed.

(** ** Splitting and merging POSIX locks *)

Lemma set_range_kind (l : lock_struct) (s n : Z) : same_kind (set_range l s n) l.
Proof. done. Qed.

Lemma piece_set_range (l : lock_struct) (s n : Z) :
  range_ok l -> l_start l <= s -> 0 <= n -> s + n <= l_start l + l_size l ->
  piece (set_range l s n) l.
Proof.
  intros (?&?&?) ???. unfold piece, range_ok, covers. simpl.
  split_and!; try done; try lia.
Qed.

Lemma split_merge_copy (ex plock : lock_struct) :
  pos_range ex -> range_ok plock ->
  (context ex = context plock -> apart plock ex) ->
  split_merge_ok ex plock [ex] plock.
Proof.
  intros Hex Hpl Hd. constructor; auto.
  - done.
  - done.
  - apply Forall_singleton. split; [apply piece_refl|]; apply Hex.
  - intros _ x Hx. right. exists ex. split; [by left|done].
  - simpl. auto using Forall_nil_2.
Qed.

(** Same context: the shape of the other results. *)
Lemma split_merge_same (ex plock plock' : lock_struct) (out : list lock_struct) :
  context ex = context plock ->
  same_kind plock' plock ->
  range_ok plock' /\ l_size plock <= l_size plock' ->
  Forall (fun o => piece o ex /\ 0 < l_size o) out ->
  (forall x, covers plock x -> covers plock' x) ->
  (forall x, covers plock' x ->
     covers plock x \/ (lock_type ex = lock_type plock /\ covers ex x)) ->
  (forall x, covers ex x -> covers plock' x \/ Exists (fun o => covers o x) out) ->
  Forall (apart plock') out ->
  pairwise apart out ->
  (length out <= 1)%nat \/ (length out = 2%nat /\ forall x, covers plock x -> covers ex x) ->
  split_merge_ok ex plock out plock'.
Proof.
  intros Hc Hkd Hr Hp Hg Hm Hk Ha Hs Hn. constructor; [done..| | | |done|done|tauto].
  - intros x Hx. destruct (Hm x Hx) as [?|[? ?]]; auto.
  - intros _ x Hx. destruct (Hk x Hx) as [?|He]; [by left|right].
    by apply Exists_exists in He.
  - done.
Qed.

(** One branch of the split: the remainders are concrete ranges. *)
Ltac split_merge_case plock :=
  eexists _, _; split; [reflexivity|];
  rewrite ?u64_id by (unfold in_w; lia);
  apply split_merge_same; unfold pos_range, range_ok, apart, covers in *; simpl in *;
  repeat (apply Forall_cons; split); try apply Forall_nil;
  try (split; [apply piece_set_range; unfold range_ok; simpl; lia | simpl; lia]);
  repeat setoid_rewrite Exists_cons; try setoid_rewrite Exists_nil;
  rewrite ?Forall_singleton; simpl; try done; try lia;
  try (intros x Hx; destruct (decide (l_start plock <= x < l_start plock + l_size plock));
       [by left | right; split; [done | lia]]);
  try (right; split; [done | lia]);
  try (split_and!; auto using Forall_nil_2; lia).

Theorem split_merge_correct (ex plock : lock_struct) :
  pos_range ex -> range_ok plock ->
  exists out plock', brlock_posix_split_merge ex plock = Some (out, plock') /\
                     split_merge_ok ex plock out plock'.
Proof.
  intros Hex Hpl. unfold brlock_posix_split_merge.
  rewrite !(l_end_ok ex), !(l_end_ok plock) by (apply Hex || done).
  destruct (brl_same_context (context ex) (context plock)) eqn:Hc; simpl.
  2: { exists [ex], plock. split; [done|]. apply split_merge_copy; [done..|].
       intros Hc'. apply brl_same_context_spec in Hc'. congruence. }
  apply brl_same_context_spec in Hc. unfold is_type.
  destruct Hex as [(?&?&?) ?], Hpl as (?&?&?).
  repeat case_if; boolify;
    match goal with
    | |- exists out plock', None = _ /\ _ => exfalso; lia
    | |- exists out plock', Some ([ex], plock) = _ /\ _ =>
        eexists _, _; split; [reflexivity|]; apply split_merge_copy;
        unfold pos_range, range_ok, apart, covers; lia
    | |- _ => split_merge_case plock
    end.
Qed.

Lemma sm_pos (ex plock : lock_struct) (out : list lock_struct) (plock' : lock_struct) :
  split_merge_ok ex plock out plock' -> 0 < l_size plock -> pos_range plock'.
Proof. intros [_ [? ?] _ _ _ _ _ _ _ _] ?. split; [done|lia]. Qed.

(** The proposed lock never meets the closing [smb_panic], also when a range
    ends exactly at the end of the 64-bit space. *)
Lemma split_merge_no_panic (ex plock : lock_struct) :
  0 <= l_start ex -> 0 < l_size ex -> l_start ex + l_size ex <= 2 ^ 64 ->
  0 <= l_start plock -> 0 < l_size plock -> l_start plock + l_size plock <= 2 ^ 64 ->
  is_Some (brlock_posix_split_merge ex plock).
Proof.
  intros. 
  assert (l_end ex = l_start ex + l_size ex \/
          (l_end ex = 0 /\ l_start ex + l_size ex = 2 ^ 64)) as He.
  { unfold l_end, u64. destruct (decide (l_start ex + l_size ex = 2 ^ 64)) as [->|].
    - right. split; [by rewrite Z_mod_same_full|done].
    - left. apply Z.mod_small. lia. }
  assert (l_end plock = l_start plock + l_size plock \/
          (l_end plock = 0 /\ l_start plock + l_size plock = 2 ^ 64)) as Hp.
  { unfold l_end, u64. destruct (decide (l_start plock + l_size plock = 2 ^ 64)) as [->|].
    - right. split; [by rewrite Z_mod_same_full|done].
    - left. apply Z.mod_small. lia. }
  unfold brlock_posix_split_merge.
  repeat case_if; try by eexists. exfalso. boolify. lia.
Qed.

(** ** The scan of [brl_lock_posix] *)

(** Entries as the POSIX code maintains them. *)
Definition posix_wf (locks : list lock_struct) : Prop :=
  Forall (fun l => lock_flav l = POSIX_LOCK -> 0 < l_size l) locks.

Record posix_scan_ok (env : brl_env) (plock : lock_struct) (locks : list lock_struct) (s : posix_scan) : Prop := {
  pso_kind : same_kind (ps_plock s) plock;
  pso_range : pos_range (ps_plock s);
  pso_grow : forall x, covers plock x -> covers (ps_plock s) x;
  pso_merged : forall x, covers (ps_plock s) x ->
    covers plock x \/
    exists ex, ex ∈ locks /\ lock_flav ex = POSIX_LOCK /\ context ex = context plock /\
               lock_type ex = lock_type plock /\ covers ex x;
  pso_marked : Forall2 (marked_from env) (ps_locks s) locks;
  pso_pieces : ps_blocker s = None ->
    Forall (fun o => exists ex, ex ∈ locks /\ piece o ex /\ compatible ex plock /\
                                (lock_flav o = POSIX_LOCK -> 0 < l_size o)) (ps_tp s)
}.

Lemma grown_piece (plock plock' : lock_struct) :
  same_kind plock' plock -> pos_range plock ->
  (forall x, covers plock x -> covers plock' x) -> piece plock plock'.
Proof. intros (? & ? & ? & ?) [Hr _] Hg. unfold piece. split_and!; try done; congruence. Qed.

(** One iteration in front of a scan that continues with [plock']. *)
Lemma pso_step (env : brl_env) (plock plock' l old : lock_struct) (rest new : list lock_struct) (n : nat)
    (signal mk : bool) (s : posix_scan) :
  pos_range plock -> Forall range_ok rest ->
  same_kind plock' plock ->
  (forall x, covers plock x -> covers plock' x) ->
  (forall x, covers plock' x -> covers plock x \/
     (lock_flav l = POSIX_LOCK /\ context l = context plock /\
      lock_type l = lock_type plock /\ covers l x)) ->
  marked_from env old l ->
  Forall (fun o => piece o l /\ compatible l plock /\
                   (lock_flav o = POSIX_LOCK -> 0 < l_size o)) new ->
  posix_scan_ok env plock' rest s ->
  posix_scan_ok env plock (l :: rest) (ps_cons old new n signal mk s).
Proof.
  intros Hp Hr Hk' Hg' Hm' Hold Hnew [Hk Hrg Hg Hm Hmk Hpc].
  pose proof Hk' as (Hkc & Hkt & Hkf & Hkn). constructor; simpl; auto.
  - destruct Hk as (? & ? & ? & ?). unfold same_kind. simpl. split_and!; congruence.
  - intros x Hx. destruct (Hm x Hx) as [Hx'|(ex & ? & ? & ? & ? & ?)].
    + destruct (Hm' x Hx') as [?|(? & ? & ? & ?)]; [by left|right].
      exists l. split_and!; auto. by left.
    + right. exists ex. split_and!; try done; [by right|congruence|congruence].
  - intros Hb. apply Forall_app. split; (eapply Forall_impl; [first [exact Hnew|exact (Hpc Hb)]|]).
    + intros o (? & ? & ?). exists l. split_and!; auto. by left.
    + intros o (ex & Hin & ? & Hcp & ?). exists ex. split_and!; try done; [by right|].
      eapply compatible_piece; [by apply piece_refl, (proj1 (Forall_forall _ _) Hr)| |exact Hcp].
      by apply grown_piece.
Qed.

(** The flavour-dependent conflict test of the scan. *)
Lemma scan_conflict_false (l plock : lock_struct) :
  range_ok l -> range_ok plock ->
  (if is_flav (lock_flav l) WINDOWS_LOCK then brl_conflict l plock
   else brl_conflict_posix l plock) = false -> compatible l plock.
Proof.
  intros Hl Hp. destruct (is_flav _ _); [by apply brl_conflict_false|by apply brl_conflict_posix_false].
Qed.

Lemma not_windows (f : brl_flavour) : is_flav f WINDOWS_LOCK = false -> f = POSIX_LOCK.
Proof. unfold is_flav. rewrite bool_decide_eq_false. by destruct f. Qed.

Lemma lock_posix_scan_correct (env : brl_env) (locks : list lock_struct) (plock : lock_struct) :
  pos_range plock -> Forall range_ok locks -> posix_wf locks ->
  exists s, lock_posix_scan env plock locks = Some s /\ posix_scan_ok env plock locks s.
Proof.
  intros Hp Hr. revert plock Hp. induction Hr as [|l rest Hl Hr IH]; intros plock Hp Hwf; simpl.
  { eexists. split; [done|]. constructor; simpl; auto; done. }
  apply Forall_cons in Hwf as [Hlwf Hwf].
  destruct (IH plock Hp Hwf) as (s & Hs & Hok).
  pose proof (scan_conflict_false l plock Hl (proj1 Hp)) as Hcompat.
  destruct (if is_flav _ _ then _ else _) eqn:Hconf.
  - destruct (serverid_exists _ _) eqn:Hex; simpl.
    + eexists. split; [done|]. constructor; simpl; auto; try done. apply marked_refl.
    + rewrite Hs. simpl. eexists. split; [done|].
      eapply pso_step; try exact Hok; auto; [done|by right].
  - specialize (Hcompat eq_refl). destruct (is_flav (lock_flav l) WINDOWS_LOCK) eqn:Hfl.
    + rewrite Hs. simpl. eexists. split; [done|].
      eapply pso_step; try exact Hok; auto; [done|by left|].
      apply Forall_singleton. auto using piece_refl.
    + apply not_windows in Hfl.
      destruct (split_merge_correct l plock) as (out & plock' & -> & Hsm);
        [by split; auto|apply Hp|].
      simpl. destruct (IH plock' (sm_pos _ _ _ _ Hsm (proj2 Hp)) Hwf) as (s' & Hs' & Hok').
      rewrite Hs'. simpl. eexists. split; [done|].
      destruct Hsm as [Hk Hrg Hpc Hg Hm _ _ _ _ _].
      eapply pso_step; try exact Hok'; auto; [|by left|].
      * intros x Hx. destruct (Hm x Hx) as [?|(? & ? & ?)]; auto.
      * eapply Forall_impl; [exact Hpc|]. intros o [? ?]. auto.
Qed.

(** The merged lock is compatible with every entry of the new array. *)
Lemma merged_compatible (plock ex o p' : lock_struct) (locks : list lock_struct) :
  table_ok locks -> ex ∈ locks -> piece o ex -> compatible ex plock -> same_kind p' plock ->
  (forall x, covers p' x -> covers plock x \/
     exists e, e ∈ locks /\ lock_flav e = POSIX_LOCK /\ context e = context plock /\
               lock_type e = lock_type plock /\ covers e x) ->
  compatible o p'.
Proof.
  intros Ht Hex (Hoc & Hot & _ & _ & _ & Hox) Hcp (Hpc & Hpt & _ & _) Hm.
  apply compatible_iff. intros (Hp1 & Hp2 & Hd1 & Hd2 & Hrw & Hcx) x [Hx Hx'].
  unfold dead in *. rewrite Hoc, Hot, Hpc, Hpt in *.
  destruct (Hm x Hx') as [Hxp|(e & He & _ & Hec & Het & Hxe)].
  - apply compatible_iff in Hcp; [|by repeat split]. apply (Hcp x). auto.
  - destruct (table_ok_elems locks ex e Ht Hex He) as [->|Hc]; [congruence|].
    apply compatible_iff in Hc; [apply (Hc x); auto|].
    unfold contending, dead. rewrite Hec, Het. by repeat split.
Qed.

(** An array made of pieces of a good table is good. *)
Lemma pieces_table_ok (old new : list lock_struct) :
  table_ok old -> Forall (fun o => exists ex, ex ∈ old /\ piece o ex) new -> table_ok new.
Proof.
  intros Ho Hnew. split.
  - eapply Forall_impl; [exact Hnew|]. by intros o (ex & _ & _ & _ & _ & _ & ? & _).
  - induction Hnew as [|o new (ex & Hin & Hpc) Hnew IH]; simpl; [done|]. split; [|done].
    eapply Forall_impl; [exact Hnew|]. intros o' (ex' & Hin' & Hpc').
    destruct (table_ok_elems old ex ex' Ho Hin Hin') as [->|Hc].
    + apply compatible_iff. intros (_ & _ & _ & _ & _ & Hne).
      destruct Hne. destruct Hpc as [-> _], Hpc' as [-> _]. done.
    + by eapply compatible_piece.
Qed.

Lemma insert_index_length (plock : lock_struct) (tp : list lock_struct) (i : nat) :
  insert_index plock tp i = (i + length tp)%nat.
Proof.
  revert i. induction tp as [|c tp IH]; intros i; simpl; [lia|].
  destruct (_ <=? _); rewrite IH; lia.
Qed.

(** The new lock ends up at the end of the array. *)
Lemma insert_at_end (plock : lock_struct) (tp : list lock_struct) :
  insert_at (insert_index plock tp 0) plock tp = tp ++ [plock].
Proof.
  unfold insert_at. rewrite insert_index_length. simpl.
  by rewrite take_ge, drop_ge by lia.
Qed.

Lemma posix_wf_marked (env : brl_env) (old new : list lock_struct) :
  Forall2 (marked_from env) new old -> posix_wf old -> posix_wf new.
Proof.
  unfold posix_wf. induction 1 as [|a b n o Hab _ IH]; [done|].
  rewrite !Forall_cons. intros [Hb Ho]. split; [|auto]. by destruct Hab as [->|[-> _]].
Qed.

(** Good tables whose POSIX entries are not empty. *)
Definition brl_inv (locks : list lock_struct) : Prop := table_ok locks /\ posix_wf locks.

Lemma posix_scan_table (env : brl_env) (plock : lock_struct) (locks : list lock_struct)
    (s : posix_scan) :
  brl_inv locks -> posix_scan_ok env plock locks s -> ps_blocker s = None ->
  brl_inv (ps_tp s ++ [ps_plock s]).
Proof.
  intros [Ht Hw] Hok Hb. destruct Hok as [Hk [Hrg Hpos] _ Hm _ Hpc]. specialize (Hpc Hb). split.
  - apply table_ok_snoc; [|done|].
    + apply (pieces_table_ok locks); [done|]. eapply Forall_impl; [exact Hpc|].
      intros o (ex & ? & ? & _). eauto.
    + eapply Forall_impl; [exact Hpc|]. intros o (ex & ? & ? & ? & _).
      by eapply merged_compatible.
  - apply Forall_app. split; [|by apply Forall_singleton].
    eapply Forall_impl; [exact Hpc|]. by intros o (ex & _ & _ & _ & ?).
Qed.

(** A request that passes the checks at the top of [brl_lock_posix]. *)
Lemma lock_posix_guard (plock : lock_struct) :
  range_ok plock ->
  (l_start plock =? 0) && (l_size plock =? 0) = false ->
  (u64 (l_start plock + l_size plock - 1) <? l_start plock) = false -> pos_range plock.
Proof.
  intros Hr H0 H1. split; [done|]. destruct Hr as (? & ? & ?). boolify.
  destruct (decide (l_size plock = 0)) as [E|]; [|lia]. exfalso.
  rewrite u64_id in H1 by (unfold in_w; lia). lia.
Qed.

Lemma brl_lock_posix_ok (env : brl_env) (br : byte_range_lock) (plock : lock_struct)
    (r : lock_result) :
  range_ok plock -> brl_inv (lock_data br) ->
  brl_lock_posix env br plock = Some r -> brl_inv (lock_data (r_brl r)).
Proof.
  intros Hp [Ht Hw]. unfold brl_lock_posix.
  destruct (_ && _) eqn:G0; [by intros [= <-]|].
  destruct (_ <? _) eqn:G1; [by intros [= <-]|].
  destruct (negb _); [by intros [= <-]|].
  destruct (lock_posix_scan_correct env (lock_data br) plock) as (s & -> & Hok);
    [by apply lock_posix_guard|apply Ht|done|].
  simpl. pose proof (pso_marked _ _ _ _ Hok) as Hmk.
  assert (brl_inv (ps_locks s)) as Hold
    by (split; [by eapply table_ok_marked|by eapply posix_wf_marked]).
  destruct (ps_blocker s) eqn:Hb; [by intros [= <-]|].
  rewrite insert_at_end. repeat case_if; intros [= <-]; simpl; try done;
    by apply (posix_scan_table env plock (lock_data br)).
Qed.

Lemma brl_inv_windows (env : brl_env) (br : byte_range_lock) (plock : lock_struct)
    (blocking : bool) (r : lock_result) :
  range_ok plock -> lock_flav plock = WINDOWS_LOCK -> brl_inv (lock_data br) ->
  brl_lock_windows_default env br plock blocking = Some r -> brl_inv (lock_data (r_brl r)).
Proof.
  intros Hp Hf [Ht Hw] Hr. split; [by eapply brl_lock_windows_ok|]. revert Hr.
  unfold brl_lock_windows_default.
  pose proof (windows_scan_marked env plock (lock_data br)) as Hm.
  destruct (windows_scan env plock (lock_data br)) as [[locks m] blk]. simpl in *.
  pose proof (posix_wf_marked _ _ _ Hm Hw) as Hw'.
  destruct (is_type _ _); [done|]. destruct (_ && _); [by intros [= <-]|].
  destruct blk as [l|].
  - destruct (brl_lock_failed _ _ _) as [st f]. by intros [= <-].
  - repeat case_if; intros [= <-]; simpl; try done;
      (apply Forall_app; split; [done|apply Forall_singleton; congruence]).
Qed.

(** ** Unlocking *)

(** [n] is what is left of an entry of [locks]. *)
Definition piece_of (locks : list lock_struct) (n : lock_struct) : Prop :=
  exists ex, ex ∈ locks /\ piece n ex /\ (lock_flav n = POSIX_LOCK -> 0 < l_size n).

Lemma piece_of_self (locks : list lock_struct) :
  Forall range_ok locks -> posix_wf locks -> Forall (piece_of locks) locks.
Proof.
  unfold posix_wf. rewrite !Forall_forall. intros Hr Hw l Hl. exists l. auto using piece_refl.
Qed.

Lemma piece_of_cons (l : lock_struct) (rest new tp : list lock_struct) :
  Forall (piece_of [l]) new -> Forall (piece_of rest) tp ->
  Forall (piece_of (l :: rest)) (new ++ tp).
Proof.
  intros Hnew Htp. apply Forall_app. split.
  - eapply Forall_impl; [exact Hnew|]. intros n (ex & ->%list_elem_of_singleton & ?).
    exists l. split; [by left|done].
  - eapply Forall_impl; [exact Htp|]. intros n (ex & ? & ?). exists ex. split; [by right|done].
Qed.

Lemma piece_of_inv (old new : list lock_struct) :
  brl_inv old -> Forall (piece_of old) new -> brl_inv new.
Proof.
  intros [Ht _] Hnew. split.
  - apply (pieces_table_ok old); [done|]. eapply Forall_impl; [exact Hnew|].
    intros n (ex & ? & ? & _). eauto.
  - eapply Forall_impl; [exact Hnew|]. by intros n (ex & _ & _ & ?).
Qed.

(** Everything in the new array of [brl_unlock_posix] is a piece of an old
    entry. *)
Lemma unlock_posix_scan_pieces (locks : list lock_struct) (plock : lock_struct)
    (tp : list lock_struct) (o : bool) (p' : lock_struct) :
  Forall range_ok locks -> posix_wf locks -> range_ok plock ->
  unlock_posix_scan plock locks = Some (Unlock_done tp o p') ->
  Forall (piece_of locks) tp.
Proof.
  intros Hr. revert plock tp o p'.
  induction Hr as [|l rest Hl Hr IH]; intros plock tp o p' Hwf Hp; simpl; [by intros [= <- _ _]|].
  apply Forall_cons in Hwf as [Hlwf Hwf].
  assert (forall (new : list lock_struct) ov q, range_ok q -> Forall (piece_of [l]) new ->
    us_cons new ov <$> unlock_posix_scan q rest = Some (Unlock_done tp o p') ->
    Forall (piece_of (l :: rest)) tp) as Hgo.
  { intros new ov q Hq Hnew Hs.
    destruct (unlock_posix_scan q rest) as [[|tp' o' q']|] eqn:E; simplify_eq/=.
    apply piece_of_cons; [done|]. by eapply IH. }
  assert (Forall (piece_of [l]) [l]) as Hself
    by (apply piece_of_self; by apply Forall_singleton).
  destruct (_ || _); [by apply Hgo|].
  destruct (is_flav _ _) eqn:Hfl; [destruct (brl_conflict _ _); [done|by apply Hgo]|].
  apply not_windows in Hfl.
  destruct (split_merge_correct l plock) as (out & plock' & -> & Hsm); [by split; auto|done|].
  destruct Hsm as [_ [Hrg _] Hpc _ _ _ _ _ _ _]. simpl.
  assert (Forall (piece_of [l]) out) as Hout.
  { eapply Forall_impl; [exact Hpc|]. intros n [? ?]. exists l. split; [by left|auto]. }
  destruct out as [|o1 [|o2 out]]; [by apply Hgo..|].
  intros [= <- _ _]. apply (piece_of_cons l rest (o1 :: o2 :: out)); [done|].
  by apply piece_of_self.
Qed.

Lemma brl_inv_delete (ls : list lock_struct) (i : nat) :
  brl_inv ls -> brl_inv (brl_delete_lock_struct ls i).
Proof.
  intros [Ht Hw]. split; [by apply table_ok_delete|].
  unfold brl_delete_lock_struct, posix_wf in *. destruct (_ <=? _)%nat; [done|].
  apply Forall_app. split; [by apply Forall_take|by apply Forall_drop].
Qed.

Lemma brl_unlock_inv (env : brl_env) (br br' : byte_range_lock) (smb : Z) (p : server_id)
    (start size : Z) (f : brl_flavour) (ok : bool) (ev : list brl_event) :
  0 <= start -> 0 <= size -> start + size < 2 ^ 64 -> brl_inv (lock_data br) ->
  brl_unlock env br smb p start size f = Some (ok, br', ev) -> brl_inv (lock_data br').
Proof.
  intros ? ? ? Hinv. unfold brl_unlock. destruct f.
  - unfold brl_unlock_windows_default. simpl.
    destruct (find_index _ _); [|by intros [= _ <- _]].
    intros [= _ <- _]. by apply brl_inv_delete.
  - unfold brl_unlock_posix.
    destruct (_ && _); [by intros [= _ <- _]|]. destruct (_ || _); [by intros [= _ <- _]|].
    destruct (negb _); [by intros [= _ <- _]|].
    match goal with |- context [unlock_posix_scan ?q _] => set (plock := q) end.
    destruct (unlock_posix_scan plock (lock_data br)) as [[|tp o p']|] eqn:E; simpl; [| |done].
    { by intros [= _ <- _]. }
    apply unlock_posix_scan_pieces in E; [|apply Hinv|apply Hinv|done].
    repeat case_if; intros [= _ <- _]; try done; simpl; by eapply piece_of_inv.
Qed.

Lemma brl_lock_inv (env : brl_env) (br br' : byte_range_lock) (smb : Z) (p : server_id)
    (start size : Z) (t : brl_type) (f : brl_flavour) (blocking : bool) (st : NTSTATUS)
    (who : option Z) (ev : list brl_event) :
  0 <= start -> 0 <= size -> start + size < 2 ^ 64 -> brl_inv (lock_data br) ->
  brl_lock env br smb p start size t f blocking = Some (st, br', who, ev) ->
  brl_inv (lock_data br').
Proof.
  intros ? ? ? Hinv. unfold brl_lock. destruct f; simpl.
  - destruct (brl_lock_windows_default _ _ _ _) as [r|] eqn:E; simpl; [|done].
    intros [= _ <- _ _]. by eapply brl_inv_windows in E.
  - destruct (brl_lock_posix _ _ _) as [r|] eqn:E; simpl; [|done].
    intros [= _ <- _ _]. by eapply brl_lock_posix_ok in E.
Qed.

(** ** The other operations *)

Lemma locktest_scan_marked (env : brl_env) (w : bool) (probe : lock_struct)
    (locks : list lock_struct) :
  Forall2 (marked_from env) (locktest_scan env w probe locks).1.1 locks.
Proof.
  induction locks as [|l rest IH]; simpl; [constructor|].
  destruct (locktest_scan env w probe rest) as [[rest' m] blk]. simpl in IH.
  repeat case_if; simpl; constructor; auto with samba.
Qed.

Lemma brl_inv_marked (env : brl_env) (old new : list lock_struct) :
  Forall2 (marked_from env) new old -> brl_inv old -> brl_inv new.
Proof. intros Hm [Ht Hw]. split; [by eapply table_ok_marked|by eapply posix_wf_marked]. Qed.

Lemma brl_locktest_inv (env : brl_env) (br : byte_range_lock) (probe : lock_struct) :
  brl_inv (lock_data br) -> brl_inv (lock_data (brl_locktest env br probe).2).
Proof.
  intros Hinv. unfold brl_locktest.
  pose proof (locktest_scan_marked env (record br) probe (lock_data br)) as Hm.
  destruct (locktest_scan _ _ _ _) as [[locks m] blk]. simpl in *.
  apply brl_inv_marked in Hm; [|done].
  repeat case_if; try done. by destruct (is_posix_locked _ _ _ _ _ _) as [[[? ?] ?] ?].
Qed.

Lemma brl_cancel_inv (t : brl_type) (br : byte_range_lock) (smb : Z) (p : server_id)
    (start size : Z) (f : brl_flavour) :
  brl_inv (lock_data br) -> brl_inv (lock_data (brl_lock_cancel t br smb p start size f).2).
Proof.
  intros Hinv. unfold brl_lock_cancel, brl_lock_cancel_default.
  destruct (find_index _ _); [by apply brl_inv_delete|done].
Qed.

Lemma close_loop_inv (env : brl_env) (f : files_struct) (copy : list lock_struct)
    (br br' : byte_range_lock) (ev : list brl_event) :
  Forall range_ok copy -> brl_inv (lock_data br) ->
  close_loop env f copy br = Some (br', ev) -> brl_inv (lock_data br').
Proof.
  intros Hc. revert br ev. induction Hc as [|l copy Hl Hc IH]; intros br ev Hinv; simpl.
  { by intros [= <- _]. }
  destruct (close_match f l); [|by apply IH].
  destruct (brl_unlock _ _ _ _ _ _ _) as [[[ok br1] ev1]|] eqn:E; simpl; [|done].
  apply brl_unlock_inv in E; [|apply Hl..|done].
  destruct (close_loop env f copy br1) as [[br2 ev2]|] eqn:E2; simpl; [|done].
  intros [= <- _]. by eapply IH.
Qed.

(** The entries [byte_range_lock_flush] keeps. *)
Definition alive (l : lock_struct) : bool := negb (pid (ctx_pid (context l)) =? 0).

(** Overwriting an entry with the last one and dropping the last one removes
    the entry. *)
Lemma overwrite_with_last (pre post : list lock_struct) (l z : lock_struct) :
  last (pre ++ l :: post) = Some z ->
  let new := take (length (pre ++ l :: post) - 1) (<[length pre := z]> (pre ++ l :: post)) in
  new ≡ₚ pre ++ post /\ take (length pre) new = pre.
Proof.
  intros Hz new. unfold new. rewrite insert_app_r_alt, Nat.sub_diag by lia. simpl.
  destruct post as [|y post _] using rev_ind.
  - rewrite length_app. simpl. rewrite Nat.add_sub, take_app_length, app_nil_r, take_ge by lia. done.
  - rewrite app_comm_cons, app_assoc, last_snoc in Hz. simplify_eq.
    replace (length (pre ++ l :: post ++ [z]) - 1)%nat with (length (pre ++ z :: post))
      by (rewrite !length_app; simpl; rewrite length_app; simpl; lia).
    rewrite app_comm_cons, app_assoc, take_app_length, take_app_length. split; [|done].
    by rewrite <- Permutation_cons_append.
Qed.

Lemma filter_alive_id (ls : list lock_struct) :
  Forall (fun l => alive l = true) ls -> List.filter alive ls = ls.
Proof. induction 1 as [|l ls Hl _ IH]; simpl; [done|]. by rewrite Hl, IH. Qed.

Lemma flush_loop_perm (fuel i : nat) (locks : list lock_struct) :
  (length locks <= fuel + i)%nat -> Forall (fun l => alive l = true) (take i locks) ->
  flush_loop fuel i locks ≡ₚ List.filter alive locks.
Proof.
  revert i locks. induction fuel as [|fuel IH]; intros i locks Hlen Hpre; simpl.
  { rewrite take_ge in Hpre by lia. by rewrite filter_alive_id. }
  destruct (locks !! i) as [l|] eqn:Hi.
  2: { apply lookup_ge_None in Hi. rewrite take_ge in Hpre by lia. by rewrite filter_alive_id. }
  destruct (last locks) as [z|] eqn:Hz; [|apply last_None in Hz; by rewrite Hz in Hi].
  destruct (pid (ctx_pid (context l)) =? 0) eqn:Hd.
  2: { apply IH; [lia|]. rewrite (take_S_r _ _ _ Hi). apply Forall_app. split; [done|].
       apply Forall_singleton. unfold alive. by rewrite Hd. }
  pose proof (lookup_lt_Some _ _ _ Hi) as Hlt.
  pose proof (take_drop_middle locks i l Hi) as Hls.
  assert (length (take i locks) = i) as Hpl by (rewrite length_take; lia).
  set (pre := take i locks) in *. set (post := drop (S i) locks) in *.
  clearbody pre post. subst i locks.
  destruct (overwrite_with_last pre post l z Hz) as [Hp Ht].
  rewrite IH, Hp.
  - rewrite !List.filter_app. simpl. unfold alive at 4. by rewrite Hd.
  - apply Permutation_length in Hp. rewrite Hp. rewrite length_app in *. simpl in Hlen. lia.
  - by rewrite Ht.
Qed.
