(* ===== verification/BrlPosix.v ===== *)
(** * Byte-range locking: the POSIX lock map

    POSIX locks of one owner form a map from bytes to lock types: a new lock
    overrides the old types on its range, an unlock erases its range, and
    nothing else changes.  The code keeps the map as an array of ranges that it
    splits and merges; this file proves that the array implements the map, and
    that the ranges of one owner stay disjoint, which the bound on the size of
    the new array and the early exit of the unlock loop both rely on. *)

From S2P Require Import Prelude.
From S2P Require Import Errmap.
From S2P Require Import ServerId.
From S2P Require Import BrlModel.
From S2P Require Import BrlSafety.
From stdpp Require Import prelude list.

#[local] Open Scope Z_scope.

(** ** Specification *)

(** Owner [c] has a POSIX entry of type [t] on byte [x]. *)
Definition holds (locks : list lock_struct) (c : lock_context) (x : Z) (t : brl_type) : Prop :=
  exists l, l ∈ locks /\ lock_flav l = POSIX_LOCK /\ context l = c /\ lock_type l = t /\
            covers l x.

(** POSIX entries of one live owner do not overlap. *)
Definition posix_apart (a b : lock_struct) : Prop :=
  alive a = true -> lock_flav a = POSIX_LOCK -> lock_flav b = POSIX_LOCK ->
  context a = context b -> apart a b.

(** [UNLOCK_LOCK] is never stored. *)
Definition stored_types (locks : list lock_struct) : Prop :=
  Forall (fun l => lock_type l <> UNLOCK_LOCK) locks.

Definition posix_inv (locks : list lock_struct) : Prop :=
  brl_inv locks /\ pairwise posix_apart locks /\ stored_types locks.

(** ** The map of an array *)

Lemma holds_nil (c : lock_context) (x : Z) (t : brl_type) : ~ holds [] c x t.
Proof. intros (l & Hl & _). by apply elem_of_nil in Hl. Qed.

Lemma holds_app (l k : list lock_struct) (c : lock_context) (x : Z) (t : brl_type) :
  holds (l ++ k) c x t <-> holds l c x t \/ holds k c x t.
Proof.
  unfold holds. split.
  - intros (e & [?|?]%elem_of_app & ?); [left|right]; eauto.
  - intros [(e & ? & ?)|(e & ? & ?)]; exists e; rewrite elem_of_app; auto.
Qed.

Lemma holds_single (l : lock_struct) (c : lock_context) (x : Z) (t : brl_type) :
  holds [l] c x t <->
  lock_flav l = POSIX_LOCK /\ context l = c /\ lock_type l = t /\ covers l x.
Proof.
  unfold holds. split.
  - by intros (e & ->%list_elem_of_singleton & ?).
  - intros ?. exists l. split; [by apply list_elem_of_singleton|done].
Qed.

Lemma holds_cons (l : lock_struct) (k : list lock_struct) (c : lock_context) (x : Z)
    (t : brl_type) :
  holds (l :: k) c x t <-> holds [l] c x t \/ holds k c x t.
Proof. apply (holds_app [l] k). Qed.

(** The pieces of one entry hold no more than the entry. *)
Lemma holds_pieces (l : lock_struct) (out : list lock_struct) (c : lock_context) (x : Z)
    (t : brl_type) :
  Forall (fun o => piece o l /\ 0 < l_size o) out -> holds out c x t -> holds [l] c x t.
Proof.
  rewrite Forall_forall. intros Hp (o & Ho & Hf & Hc & Ht & Hx).
  destruct (Hp o Ho) as [(Hpc & Hpt & Hpf & _ & _ & Hpx) _]. rewrite holds_single.
  split_and!; [congruence..|auto].
Qed.

(** Disjoint entries: the map is a function. *)
Lemma holds_fun (locks : list lock_struct) (c : lock_context) (x : Z) (t t' : brl_type) :
  pid (ctx_pid c) <> 0 -> pairwise posix_apart locks ->
  holds locks c x t -> holds locks c x t' -> t = t'.
Proof.
  intros Hc. induction locks as [|l locks IH]; intros Hp; [by intros ?%holds_nil|].
  destruct Hp as [Hl Hp]. rewrite Forall_forall in Hl.
  assert (alive l = true \/ context l <> c) as Hal.
  { unfold alive. destruct (pid (ctx_pid (context l)) =? 0) eqn:E; [right|by left].
    boolify. congruence. }
  rewrite !(holds_cons l locks), !holds_single.
  assert (forall t0 t1, (lock_flav l = POSIX_LOCK /\ context l = c /\ lock_type l = t0 /\
            covers l x) -> holds locks c x t1 -> False) as Hx.
  { intros t0 t1 (Hlf & Hlc & _ & Hlx) (e & He & Hef & Hec & _ & Hex).
    destruct Hal as [Hal|]; [|done].
    apply (Hl e He Hal Hlf Hef ltac:(congruence) x). auto. }
  intros [Ha|Ha] [Hb|Hb]; [|by destruct (Hx _ _ Ha Hb)|by destruct (Hx _ _ Hb Ha)|by apply IH].
  destruct Ha as (_ & _ & <- & _), Hb as (_ & _ & <- & _). done.
Qed.

(** ** The scan of [brl_lock_posix] implements the map update *)

(** An entry that the scan finds in conflict is not one of the owner's POSIX
    entries. *)
Lemma conflict_foreign (l plock : lock_struct) (x : Z) (t : brl_type) :
  (if is_flav (lock_flav l) WINDOWS_LOCK then brl_conflict l plock
   else brl_conflict_posix l plock) = true -> ~ holds [l] (context plock) x t.
Proof.
  rewrite holds_single. intros Hc (Hf & Hx & _ & _). rewrite Hf in Hc. simpl in Hc.
  unfold brl_conflict_posix in Hc.
  rewrite (proj2 (brl_same_context_spec _ _) Hx) in Hc. repeat case_if; done.
Qed.

Lemma windows_foreign (l : lock_struct) (c : lock_context) (x : Z) (t : brl_type) :
  is_flav (lock_flav l) WINDOWS_LOCK = true -> ~ holds [l] c x t.
Proof. unfold is_flav. rewrite holds_single. intros H%bool_decide_eq_true (Hf & _). congruence. Qed.

(** The step of the induction: a tail that satisfies the specification for
    [plock'] in front of an entry [l] whose owner matches. *)
Lemma scan_holds_own (env : brl_env) (l plock plock' : lock_struct) (rest out : list lock_struct)
    (s : posix_scan) :
  lock_flav l = POSIX_LOCK -> context l = context plock ->
  pid (ctx_pid (context plock)) <> 0 ->
  split_merge_ok l plock out plock' -> posix_scan_ok env plock' rest s ->
  Forall (posix_apart l) rest ->
  (forall x t, holds (ps_tp s) (context plock) x t <->
               holds rest (context plock) x t /\ ~ covers (ps_plock s) x) ->
  forall x t, holds (out ++ ps_tp s) (context plock) x t <->
              holds (l :: rest) (context plock) x t /\ ~ covers (ps_plock s) x.
Proof.
  intros Hf Hc Hpid Hsm Hok Hap IH x t.
  assert (alive l = true) as Hal by (unfold alive; apply negb_true_iff, Z.eqb_neq; congruence).
  pose proof (sm_kind _ _ _ _ Hsm) as (Hkc & _).
  rewrite holds_app, IH, (holds_cons l rest). split.
  - intros [Ho|[? ?]]; [|auto]. split; [left; by eapply holds_pieces, Ho; apply Hsm|].
    destruct Ho as (o & Ho & _ & _ & _ & Hox). intros HP.
    pose proof (sm_pieces _ _ _ _ Hsm) as Hpc. rewrite Forall_forall in Hpc.
    destruct (Hpc o Ho) as [(_ & _ & _ & _ & _ & Hpx) _].
    destruct (pso_merged _ _ _ _ Hok x HP) as [Hx'|(ex & Hex & Hexf & Hexc & _ & Hexx)].
    + pose proof (sm_apart _ _ _ _ Hsm Hc) as Ha. rewrite Forall_forall in Ha.
      by apply (Ha o Ho x).
    + rewrite Forall_forall in Hap. apply (Hap ex Hex Hal Hf Hexf ltac:(congruence) x). auto.
  - intros [[Hl|Hr] HnP]; [left|by right]. apply holds_single in Hl as (_ & _ & Ht & Hx).
    destruct (sm_kept _ _ _ _ Hsm Hc x Hx) as [Hx'|(o & Ho & Hox)].
    { destruct HnP. by apply (pso_grow _ _ _ _ Hok). }
    pose proof (sm_pieces _ _ _ _ Hsm) as Hpc. rewrite Forall_forall in Hpc.
    destruct (Hpc o Ho) as [(Hpc1 & Hpt & Hpf & _) _].
    exists o. split_and!; [done|congruence..|done].
Qed.

Lemma scan_holds_foreign (l plock : lock_struct) (rest : list lock_struct) (P : lock_struct)
    (tp : list lock_struct) :
  (forall x t, ~ holds [l] (context plock) x t) ->
  (forall x t, holds tp (context plock) x t <->
               holds rest (context plock) x t /\ ~ covers P x) ->
  forall x t, holds tp (context plock) x t <->
              holds (l :: rest) (context plock) x t /\ ~ covers P x.
Proof. intros Hl IH x t. rewrite IH, (holds_cons l). specialize (Hl x t). tauto. Qed.

Lemma lock_scan_holds (env : brl_env) (locks : list lock_struct) (plock : lock_struct)
    (s : posix_scan) :
  pos_range plock -> Forall range_ok locks -> posix_wf locks -> pairwise posix_apart locks ->
  pid (ctx_pid (context plock)) <> 0 ->
  lock_posix_scan env plock locks = Some s -> ps_blocker s = None ->
  forall x t, holds (ps_tp s) (context plock) x t <->
              holds locks (context plock) x t /\ ~ covers (ps_plock s) x.
Proof.
  intros Hp Hr. revert plock s Hp.
  induction Hr as [|l rest Hl Hr IH]; intros plock s Hp Hwf Hap Hpid; simpl.
  { intros [= <-] _ x t. split; [by intros ?%holds_nil|by intros [?%holds_nil _]]. }
  apply Forall_cons in Hwf as [Hlwf Hwf]. destruct Hap as [Hla Hap].
  destruct (if is_flav _ _ then _ else _) eqn:Hconf.
  - destruct (serverid_exists _ _); simpl; [by intros [= <-]|].
    destruct (lock_posix_scan env plock rest) as [s'|] eqn:Hs; simpl; [|done].
    intros [= <-] Hb. apply scan_holds_foreign; [intros; by apply conflict_foreign|].
    by apply (IH plock s').
  - destruct (is_flav (lock_flav l) WINDOWS_LOCK) eqn:Hfl.
    + destruct (lock_posix_scan env plock rest) as [s'|] eqn:Hs; simpl; [|done].
      intros [= <-] Hb x t. simpl. rewrite (holds_cons l (ps_tp s')), (holds_cons l rest).
      pose proof (windows_foreign l (context plock) x t Hfl).
      rewrite (IH plock s' Hp Hwf Hap Hpid Hs Hb). tauto.
    + apply not_windows in Hfl.
      destruct (split_merge_correct l plock) as (out & plock' & -> & Hsm);
        [by split; auto|apply Hp|].
      simpl. pose proof (sm_pos _ _ _ _ Hsm (proj2 Hp)) as Hp'.
      pose proof (sm_kind _ _ _ _ Hsm) as (Hkc & _).
      destruct (lock_posix_scan env plock' rest) as [s'|] eqn:Hs; simpl; [|done].
      intros [= <-] Hb. simpl.
      assert (forall x t, holds (ps_tp s') (context plock) x t <->
                holds rest (context plock) x t /\ ~ covers (ps_plock s') x) as IH'.
      { rewrite <- Hkc. apply (IH plock' s'); auto. by rewrite Hkc. }
      destruct (decide (context l = context plock)) as [Hc|Hc].
      * destruct (lock_posix_scan_correct env rest plock') as (s2 & Hs2 & Hok); [done..|].
        rewrite Hs in Hs2. injection Hs2 as <-. by eapply scan_holds_own.
      * destruct (sm_foreign _ _ _ _ Hsm Hc) as [-> ->]. intros x t. simpl.
        rewrite (holds_cons l (ps_tp s')), (holds_cons l rest), IH', holds_single. tauto.
Qed.

(** ** The entries of one owner stay apart *)

Lemma apart_sym (a b : lock_struct) : apart a b -> apart b a.
Proof. intros H x [? ?]. apply (H x). auto. Qed.

Lemma alive_pid (l : lock_struct) : alive l = true <-> pid (ctx_pid (context l)) <> 0.
Proof. unfold alive. rewrite negb_true_iff. apply Z.eqb_neq. Qed.

Lemma posix_apart_pieces (a b a' b' : lock_struct) :
  piece a' a -> piece b' b -> posix_apart a b -> posix_apart a' b'.
Proof.
  intros (Hc & _ & Hf & _ & _ & Hx) (Hc' & _ & Hf' & _ & _ & Hx') Hab Hal F F' C x [? ?].
  unfold alive in *. rewrite Hc, Hf, Hf', Hc' in *. apply (Hab Hal F F' C x). auto.
Qed.

Lemma scan_tp_apart (env : brl_env) (locks : list lock_struct) (plock : lock_struct)
    (s : posix_scan) :
  pos_range plock -> Forall range_ok locks -> posix_wf locks -> pairwise posix_apart locks ->
  lock_posix_scan env plock locks = Some s -> ps_blocker s = None ->
  pairwise posix_apart (ps_tp s).
Proof.
  intros Hp Hr. revert plock s Hp.
  induction Hr as [|l rest Hl Hr IH]; intros plock s Hp Hwf Hap; simpl; [by intros [= <-]|].
  apply Forall_cons in Hwf as [Hlwf Hwf]. destruct Hap as [Hla Hap].
  assert (forall q s' new, pos_range q -> lock_posix_scan env q rest = Some s' ->
    ps_blocker s' = None -> Forall (fun o => piece o l) new -> pairwise posix_apart new ->
    pairwise posix_apart (new ++ ps_tp s')) as Hgo.
  { intros q s' new Hq Hs' Hb Hnew Hself. apply pairwise_app. split_and!; [done|by eapply IH|].
    destruct (lock_posix_scan_correct env rest q) as (s2 & Hs2 & Hok); [done..|].
    rewrite Hs' in Hs2. injection Hs2 as <-.
    eapply Forall_impl; [exact Hnew|]. intros o Ho.
    eapply Forall_impl; [exact (pso_pieces _ _ _ _ Hok Hb)|]. intros o' (ex & Hex & Hpc & _).
    rewrite Forall_forall in Hla. by eapply posix_apart_pieces; eauto. }
  destruct (if is_flav _ _ then _ else _) eqn:Hconf.
  - destruct (serverid_exists _ _); simpl; [by intros [= <-]|].
    destruct (lock_posix_scan env plock rest) as [s'|] eqn:Hs; simpl; [|done].
    intros [= <-] Hb. by apply (Hgo plock s' []).
  - destruct (is_flav (lock_flav l) WINDOWS_LOCK) eqn:Hfl.
    + destruct (lock_posix_scan env plock rest) as [s'|] eqn:Hs; simpl; [|done].
      intros [= <-] Hb. apply (Hgo plock s' [l]); auto; [|done].
      apply Forall_singleton. by apply piece_refl.
    + apply not_windows in Hfl.
      destruct (split_merge_correct l plock) as (out & plock' & -> & Hsm);
        [by split; auto|apply Hp|].
      simpl. destruct (lock_posix_scan env plock' rest) as [s'|] eqn:Hs; simpl; [|done].
      intros [= <-] Hb. apply (Hgo plock' s' out); auto.
      * by eapply sm_pos, Hp.
      * eapply Forall_impl; [apply Hsm|]. by intros o [? _].
      * eapply pairwise_mono; [|apply Hsm]. intros a b _ _ Hab _ _ _ _. exact Hab.
Qed.

(** The new array: what is left of the old one, and the merged lock. *)
Lemma lock_posix_apart (env : brl_env) (locks : list lock_struct) (plock : lock_struct)
    (s : posix_scan) :
  pos_range plock -> posix_inv locks -> pid (ctx_pid (context plock)) <> 0 ->
  lock_posix_scan env plock locks = Some s -> ps_blocker s = None ->
  pairwise posix_apart (ps_tp s ++ [ps_plock s]).
Proof.
  intros Hp [[[Hr _] Hwf] [Hap _]] Hpid Hs Hb. apply pairwise_app. split_and!.
  - by eapply scan_tp_apart.
  - by split.
  - apply Forall_forall. intros o Ho. apply Forall_singleton.
    intros Hal Hf _ Hc x [Hx HP].
    destruct (lock_posix_scan_correct env locks plock) as (s2 & Hs2 & Hok); [done..|].
    rewrite Hs in Hs2. injection Hs2 as <-.
    pose proof (pso_kind _ _ _ _ Hok) as (Hkc & _).
    assert (holds (ps_tp s) (context plock) x (lock_type o)) as Hh
      by (exists o; split_and!; auto; congruence).
    apply (lock_scan_holds env locks plock s) in Hh as [_ Hn]; auto.
Qed.

(** ** The size of the new array *)

Definition own_cover (c : lock_context) (x : Z) (l : lock_struct) : bool :=
  is_flav (lock_flav l) POSIX_LOCK && brl_same_context (context l) c &&
  ((l_start l <=? x) && (x <? l_start l + l_size l)).

Lemma own_cover_spec (c : lock_context) (x : Z) (l : lock_struct) :
  own_cover c x l = true <-> lock_flav l = POSIX_LOCK /\ context l = c /\ covers l x.
Proof.
  unfold own_cover, is_flav, covers.
  rewrite !andb_true_iff, bool_decide_eq_true, brl_same_context_spec, Z.leb_le, Z.ltb_lt. tauto.
Qed.

(** Only an entry that covers the whole request grows into two. *)
Lemma lock_scan_length (env : brl_env) (locks : list lock_struct) (plock : lock_struct)
    (s : posix_scan) (x : Z) :
  pos_range plock -> Forall range_ok locks -> posix_wf locks -> covers plock x ->
  lock_posix_scan env plock locks = Some s ->
  (length (ps_tp s) <= length locks + length (List.filter (own_cover (context plock) x) locks))%nat.
Proof.
  intros Hp Hr. revert plock s Hp.
  induction Hr as [|l rest Hl Hr IH]; intros plock s Hp Hwf Hx; simpl; [by intros [= <-]|].
  apply Forall_cons in Hwf as [Hlwf Hwf].
  destruct (if is_flav _ _ then _ else _) eqn:Hconf.
  - destruct (serverid_exists _ _); simpl; [intros [= <-]; simpl; lia|].
    destruct (lock_posix_scan env plock rest) as [s'|] eqn:Hs; simpl; [|done].
    intros [= <-]. simpl. specialize (IH plock s' Hp Hwf Hx Hs).
    destruct (own_cover _ _ _); simpl; lia.
  - destruct (is_flav (lock_flav l) WINDOWS_LOCK) eqn:Hfl.
    + destruct (lock_posix_scan env plock rest) as [s'|] eqn:Hs; simpl; [|done].
      intros [= <-]. simpl. specialize (IH plock s' Hp Hwf Hx Hs).
      destruct (own_cover _ _ _); simpl; lia.
    + apply not_windows in Hfl.
      destruct (split_merge_correct l plock) as (out & plock' & -> & Hsm);
        [by split; auto|apply Hp|].
      simpl. destruct (lock_posix_scan env plock' rest) as [s'|] eqn:Hs; simpl; [|done].
      intros [= <-]. simpl. rewrite length_app.
      pose proof (sm_kind _ _ _ _ Hsm) as (Hkc & _).
      specialize (IH plock' s' (sm_pos _ _ _ _ Hsm (proj2 Hp)) Hwf
                     (sm_grow _ _ _ _ Hsm x Hx) Hs). rewrite Hkc in IH.
      destruct (own_cover (context plock) x l) eqn:Ho; simpl;
        destruct (sm_count _ _ _ _ Hsm) as [?|(Hlen & Hc & Hin)]; try lia.
      assert (own_cover (context plock) x l = true) by (apply own_cover_spec; auto).
      congruence.
Qed.

Lemma own_cover_unique (locks : list lock_struct) (c : lock_context) (x : Z) :
  pid (ctx_pid c) <> 0 -> pairwise posix_apart locks ->
  (length (List.filter (own_cover c x) locks) <= 1)%nat.
Proof.
  intros Hc. induction locks as [|l locks IH]; simpl; [lia|]. intros [Hl Hap].
  specialize (IH Hap). destruct (own_cover c x l) eqn:Ho; simpl; [|done].
  apply own_cover_spec in Ho as (Hf & Hlc & Hx).
  destruct (List.filter (own_cover c x) locks) as [|k ks] eqn:E; [simpl; lia|]. exfalso.
  assert (In k (List.filter (own_cover c x) locks)) as Hk by (rewrite E; by left).
  apply filter_In in Hk as [Hin (Hkf & Hkc & Hkx)%own_cover_spec].
  rewrite Forall_forall in Hl.
  apply (Hl k (proj2 (list_elem_of_In _ _) Hin)) with (x := x); try done; [|congruence].
  apply alive_pid. congruence.
Qed.

Lemma lock_scan_fits (env : brl_env) (locks : list lock_struct) (plock : lock_struct)
    (s : posix_scan) :
  pos_range plock -> posix_inv locks -> pid (ctx_pid (context plock)) <> 0 ->
  lock_posix_scan env plock locks = Some s ->
  (length (ps_tp s ++ [ps_plock s]) <= length locks + 2)%nat.
Proof.
  intros Hp [[[Hr _] Hwf] [Hap _]] Hpid Hs.
  assert (covers plock (l_start plock)) as Hx by (destruct Hp as [_ ?]; unfold covers; lia).
  pose proof (lock_scan_length env locks plock s _ Hp Hr Hwf Hx Hs).
  pose proof (own_cover_unique locks (context plock) (l_start plock) Hpid Hap).
  rewrite length_app. simpl. lia.
Qed.

(** ** Unlocking implements the erasure of a range *)

Lemma split_merge_differ (ex plock p' : lock_struct) (out : list lock_struct) :
  lock_type ex <> lock_type plock ->
  brlock_posix_split_merge ex plock = Some (out, p') -> p' = plock.
Proof.
  intros Hne. unfold brlock_posix_split_merge, is_type.
  rewrite bool_decide_eq_false_2 by done. simpl. repeat case_if; by intros [= _ <-].
Qed.

(** What one entry contributes to the new array of an unlock of [plock]. *)
Record unlock_out (plock l : lock_struct) (out : list lock_struct) : Prop := {
  uo_pieces : Forall (fun o => piece o l) out;
  uo_apart : pairwise posix_apart out;
  uo_holds : forall x t, holds out (context plock) x t <->
    holds [l] (context plock) x t /\ (IS_PENDING_LOCK t = true \/ ~ covers plock x)
}.

Lemma unlock_out_copy (plock l : lock_struct) :
  range_ok l ->
  (forall x t, holds [l] (context plock) x t ->
     IS_PENDING_LOCK t = true \/ ~ covers plock x) -> unlock_out plock l [l].
Proof.
  intros Hr Hh. constructor.
  - apply Forall_singleton. by apply piece_refl.
  - done.
  - intros x t. split; [|tauto]. auto.
Qed.

Lemma unlock_out_split (plock l : lock_struct) (out : list lock_struct) :
  lock_flav l = POSIX_LOCK -> context l = context plock ->
  IS_PENDING_LOCK (lock_type l) = false ->
  split_merge_ok l plock out plock -> unlock_out plock l out.
Proof.
  intros Hf Hc Hnp Hsm. pose proof (sm_pieces _ _ _ _ Hsm) as Hpc. constructor.
  - eapply Forall_impl; [exact Hpc|]. by intros o [? _].
  - eapply pairwise_mono; [|apply Hsm]. intros a b _ _ Hab _ _ _ _. exact Hab.
  - intros x t. pose proof (sm_apart _ _ _ _ Hsm Hc) as Ha. rewrite Forall_forall in Ha, Hpc.
    split.
    + intros Ho. split; [by eapply holds_pieces, Ho; apply Hsm|]. right. intros Hx.
      destruct Ho as (o & Ho & _ & _ & _ & Hox). by apply (Ha o Ho x).
    + rewrite holds_single. intros [(_ & _ & <- & Hx) [?|Hn]]; [congruence|].
      destruct (sm_kept _ _ _ _ Hsm Hc x Hx) as [?|(o & Ho & Hox)]; [done|].
      destruct (Hpc o Ho) as [(? & ? & ? & _) _]. exists o. split_and!; [done|congruence..|done].
Qed.

(** A remainder as long as the entry is the entry. *)
Lemma piece_same_size (o l : lock_struct) :
  piece o l -> 0 < l_size o -> l_size o = l_size l -> o = l.
Proof.
  intros (? & ? & ? & ? & _ & Hx) Hpos Hs. unfold covers in Hx.
  pose proof (Hx (l_start o)). pose proof (Hx (l_start o + l_size o - 1)).
  assert (l_start o = l_start l) by lia. destruct o, l; simpl in *. congruence.
Qed.

(** The array, the flag and the lock that result from an unlock of [plock]
    when entry [l] contributes [out] and the loop goes on or stops. *)
Definition unlock_step (plock l : lock_struct) (rest tp : list lock_struct) (ov : bool)
    (p' : lock_struct) : Prop :=
  exists out, unlock_out plock l out /\
    ((exists tp' ov' changed, unlock_posix_scan plock rest = Some (Unlock_done tp' ov' p') /\
        tp = out ++ tp' /\ ov = changed || ov' /\ (changed = false -> out = [l]) /\
        (length out <= 1)%nat) \/
     (tp = out ++ rest /\ ov = true /\ p' = plock /\ length out = 2%nat /\
      lock_flav l = POSIX_LOCK /\ context l = context plock /\
      forall x, covers plock x -> covers l x)).

Lemma unlock_step_go (plock l : lock_struct) (rest tp new : list lock_struct) (ov ch : bool)
    (p' : lock_struct) :
  unlock_out plock l new -> (length new <= 1)%nat -> (ch = false -> new = [l]) ->
  us_cons new ch <$> unlock_posix_scan plock rest = Some (Unlock_done tp ov p') ->
  unlock_step plock l rest tp ov p'.
Proof.
  intros Hnew Hlen Hch Hs.
  destruct (unlock_posix_scan plock rest) as [[|tp' ov' q]|] eqn:E; simplify_eq/=.
  exists new. split; [done|]. left. exists tp', ov', ch. auto.
Qed.

(** One iteration of the unlock loop. *)
Lemma unlock_scan_step (plock l : lock_struct) (rest tp : list lock_struct) (ov : bool)
    (p' : lock_struct) :
  range_ok l -> (lock_flav l = POSIX_LOCK -> 0 < l_size l) -> lock_type l <> UNLOCK_LOCK ->
  range_ok plock -> lock_type plock = UNLOCK_LOCK ->
  unlock_posix_scan plock (l :: rest) = Some (Unlock_done tp ov p') ->
  unlock_step plock l rest tp ov p'.
Proof.
  intros Hl Hpos Ht Hp Hpt. simpl.
  destruct (_ || _) eqn:Hskip.
  { apply unlock_step_go; [|done..]. apply unlock_out_copy; [done|]. intros x t.
    rewrite holds_single. intros (_ & Hc & <- & _). left.
    apply orb_true_iff in Hskip as [?|Hs]; [done|].
    apply negb_true_iff in Hs. by rewrite (proj2 (brl_same_context_spec _ _) Hc) in Hs. }
  apply orb_false_iff in Hskip as [Hnp Hctx%negb_false_iff%brl_same_context_spec].
  destruct (is_flav _ _) eqn:Hfl.
  { destruct (brl_conflict _ _); [done|]. apply unlock_step_go; [|done..].
    apply unlock_out_copy; [done|]. intros x t Hh. by apply windows_foreign in Hh. }
  apply not_windows in Hfl.
  destruct (split_merge_correct l plock) as (out & plock' & Hsm' & Hsm); [by split; auto|done|].
  rewrite Hsm'. simpl. apply split_merge_differ in Hsm'; [|congruence]. subst plock'.
  pose proof (unlock_out_split _ _ _ Hfl Hctx Hnp Hsm) as Huo.
  pose proof (sm_pieces _ _ _ _ Hsm) as Hpc. pose proof (sm_count _ _ _ _ Hsm) as Hcnt.
  destruct out as [|o1 [|o2 [|o3 out]]]; simpl in Hcnt.
  - apply unlock_step_go; [done|simpl; lia|done].
  - apply unlock_step_go; [done..|]. intros Hsz. apply Forall_singleton in Hpc as [Hpc Hop].
    apply negb_false_iff, Z.eqb_eq in Hsz. f_equal. by apply piece_same_size.
  - intros [= <- <- <-]. eexists. split; [exact Huo|]. right.
    destruct Hcnt as [?|(_ & _ & Hin)]; [lia|]. done.
  - lia.
Qed.

Section UnlockScan.
Context (plock : lock_struct) (Hp : range_ok plock) (Hpt : lock_type plock = UNLOCK_LOCK)
        (Hpid : pid (ctx_pid (context plock)) <> 0).

(** The early exit after a split is sound: the remaining entries of the owner
    do not meet the range. *)
Lemma unlock_rest_apart (l : lock_struct) (rest : list lock_struct) (x : Z) (t : brl_type) :
  lock_flav l = POSIX_LOCK -> context l = context plock -> Forall (posix_apart l) rest ->
  (forall y, covers plock y -> covers l y) ->
  holds rest (context plock) x t -> ~ covers plock x.
Proof.
  intros Hf Hc Ha Hin (e & He & Hef & Hec & _ & Hex) Hx. rewrite Forall_forall in Ha.
  apply (Ha e He) with (x := x); auto; [apply alive_pid; congruence|congruence].
Qed.

Lemma unlock_scan_holds (locks tp : list lock_struct) (ov : bool) (p' : lock_struct) :
  Forall range_ok locks -> posix_wf locks -> pairwise posix_apart locks -> stored_types locks ->
  unlock_posix_scan plock locks = Some (Unlock_done tp ov p') ->
  p' = plock /\ (ov = false -> tp = locks) /\ (length tp <= length locks + 1)%nat /\
  forall x t, holds tp (context plock) x t <->
              holds locks (context plock) x t /\ (IS_PENDING_LOCK t = true \/ ~ covers plock x).
Proof.
  intros Hr. revert tp ov. induction Hr as [|l rest Hl Hr IH]; intros tp ov Hw Ha Hst.
  { simpl. intros [= <- _ <-]. split_and!; [done|done|simpl; lia|]. intros x t.
    split; [by intros ?%holds_nil|by intros [?%holds_nil _]]. }
  apply Forall_cons in Hw as [Hlw Hw]. destruct Ha as [Hla Ha].
  apply Forall_cons in Hst as [Hlt Hst]. intros Hs.
  apply unlock_scan_step in Hs as (out & Huo & [Hgo|Hstop]); [| |done..].
  - destruct Hgo as (tp' & ov' & ch & Hs' & -> & -> & Hch & Hlen).
    destruct (IH tp' ov' Hw Ha Hst Hs') as (-> & Hov & Hlen' & Hh). split_and!; [done| |..].
    + intros [-> ->]%orb_false_iff. by rewrite Hch, Hov.
    + rewrite length_app. simpl. lia.
    + intros x t. rewrite holds_app, (uo_holds _ _ _ Huo), Hh, (holds_cons l rest). tauto.
  - destruct Hstop as (-> & -> & -> & Hlen & Hf & Hc & Hin). split_and!; [done|done| |].
    + rewrite length_app. simpl. lia.
    + intros x t. rewrite holds_app, (uo_holds _ _ _ Huo), (holds_cons l rest).
      pose proof (unlock_rest_apart l rest x t Hf Hc Hla Hin). tauto.
Qed.

Lemma unlock_scan_apart (locks tp : list lock_struct) (ov : bool) (p' : lock_struct) :
  Forall range_ok locks -> posix_wf locks -> pairwise posix_apart locks -> stored_types locks ->
  unlock_posix_scan plock locks = Some (Unlock_done tp ov p') -> pairwise posix_apart tp.
Proof.
  intros Hr. revert tp ov. induction Hr as [|l rest Hl Hr IH]; intros tp ov Hw Ha Hst.
  { simpl. by intros [= <- _ _]. }
  apply Forall_cons in Hw as [Hlw Hw]. destruct Ha as [Hla Ha].
  apply Forall_cons in Hst as [Hlt Hst]. intros Hs.
  assert (forall out tp', unlock_out plock l out -> Forall (piece_of rest) tp' ->
    pairwise posix_apart tp' -> pairwise posix_apart (out ++ tp')) as Hcons.
  { intros out tp' Huo Hpc Hap. apply pairwise_app. split_and!; [apply Huo|done|].
    eapply Forall_impl; [apply Huo|]. intros o Ho. eapply Forall_impl; [exact Hpc|].
    intros o' (ex & Hex & Hpc' & _). rewrite Forall_forall in Hla.
    by eapply posix_apart_pieces; eauto. }
  apply unlock_scan_step in Hs as (out & Huo & [Hgo|Hstop]); [| |done..].
  - destruct Hgo as (tp' & ov' & ch & Hs' & -> & _).
    apply Hcons; [done|by apply (unlock_posix_scan_pieces rest plock tp' ov' p')|by eapply IH].
  - destruct Hstop as (-> & _). apply Hcons; [done|by apply piece_of_self|done].
Qed.
End UnlockScan.
