(* ===== verification/BrlReach.v ===== *)
(** * Byte-range locking: reachable lock tables

    The operations of brlock.c as steps on the lock array of one file, the
    tables reachable from the empty one by any sequence of them, and what
    holds of every reachable table: exclusivity of granted locks, and the
    behaviour of POSIX locking and unlocking on it. *)

From S2P Require Import Prelude.
From S2P Require Import Errmap.
From S2P Require Import ServerId.
From S2P Require Import BrlModel.
From S2P Require Import BrlSafety.
From S2P Require Import BrlPosix.
From stdpp Require Import prelude list.

#[local] Open Scope Z_scope.

(** Requests are given by two 64-bit numbers. A lock request must not end
    exactly at 2^64; one that would end behind it is refused by the code. *)
Definition u64_request (start size : Z) : Prop := in_w 64 start /\ in_w 64 size.
Definition req_ok (start size : Z) : Prop := u64_request start size /\ start + size <> 2 ^ 64.

Definition range_fits (start size : Z) : Prop := 0 <= start /\ 0 <= size /\ start + size < 2 ^ 64.

Lemma u64_wrapped (z : Z) : 2 ^ 64 <= z < 2 ^ 65 -> u64 z = z - 2 ^ 64.
Proof.
  intros H. unfold u64. rewrite <- (Z.mod_small (z - 2 ^ 64) (2 ^ 64)) by lia.
  rewrite <- Zminus_mod_idemp_r, Z_mod_same_full. f_equal. lia.
Qed.

(** One operation on the record of a file; the environment may change from
    step to step (processes die, the kernel grants or refuses locks). *)
Inductive brl_step : list lock_struct -> list lock_struct -> Prop :=
| step_lock env br smb p start size t f blocking st br' who ev :
    req_ok start size -> pid p <> 0 -> t <> UNLOCK_LOCK ->
    brl_lock env br smb p start size t f blocking = Some (st, br', who, ev) ->
    brl_step (lock_data br) (lock_data br')
| step_unlock env br smb p start size f ok br' ev :
    u64_request start size -> pid p <> 0 ->
    brl_unlock env br smb p start size f = Some (ok, br', ev) ->
    brl_step (lock_data br) (lock_data br')
| step_cancel t br smb p start size f :
    brl_step (lock_data br) (lock_data (brl_lock_cancel t br smb p start size f).2)
| step_locktest env br probe :
    brl_step (lock_data br) (lock_data (brl_locktest env br probe).2)
| step_close env br br' ev :
    pid (self (fsp br)) <> 0 ->
    brl_close_fnum env br = Some (br', ev) -> brl_step (lock_data br) (lock_data br')
| step_mark_disconnected f smb locks locks' :
    pid (self f) <> 0 -> mark_loop f smb locks = (locks', true) -> brl_step locks locks'
| step_reconnect f smb locks locks' :
    reconnect_loop f smb locks = (locks', true) -> brl_step locks locks'
| step_flush locks : brl_step locks (flush_locks locks).

Inductive brl_reachable : list lock_struct -> Prop :=
| reach_empty : brl_reachable []
| reach_step locks locks' : brl_reachable locks -> brl_step locks locks' -> brl_reachable locks'.

(** ** Marking dead entries *)

Lemma posix_apart_sym (a b : lock_struct) : posix_apart a b -> posix_apart b a.
Proof.
  intros H Hal Hf Hf' Hc. apply apart_sym, H; auto. apply alive_pid. rewrite <- Hc.
  by apply alive_pid.
Qed.

Lemma dead_not_alive (l : lock_struct) : alive (mark_dead l) = false.
Proof. done. Qed.

Lemma posix_apart_marked (env : brl_env) (a a' b b' : lock_struct) :
  marked_from env a' a -> marked_from env b' b -> posix_apart a b -> posix_apart a' b'.
Proof.
  intros [->|[-> _]] [->|[-> _]] H; [done| |by intros ?|by intros ?].
  intros Hal _ _ Hc. apply alive_pid in Hal. by rewrite Hc in Hal.
Qed.

Lemma posix_inv_marked (env : brl_env) (old new : list lock_struct) :
  Forall2 (marked_from env) new old -> posix_inv old -> posix_inv new.
Proof.
  intros Hm (Hi & Ha & Hs). split_and!; [by eapply brl_inv_marked| |].
  - clear Hi Hs. induction Hm as [|a b n o Hab Hno IH]; [done|].
    destruct Ha as [Hb Ho]. split; [|auto]. clear IH Ho.
    induction Hno as [|x y n o Hxy _ IH]; [done|]. apply Forall_cons in Hb as [Hby Hb].
    constructor; [by eapply posix_apart_marked|auto].
  - clear Hi Ha. unfold stored_types in *. induction Hm as [|a b n o Hab _ IH]; [done|].
    apply Forall_cons in Hs as [Hb Ho]. constructor; [by destruct Hab as [->|[-> _]]|auto].
Qed.

(** ** The invariant is preserved *)

Lemma posix_apart_windows (locks : list lock_struct) (l : lock_struct) :
  lock_flav l = WINDOWS_LOCK -> Forall (fun a => Forall (posix_apart a) [l]) locks.
Proof.
  intros Hl. apply Forall_forall. intros a _. apply Forall_singleton. intros _ _ ?. congruence.
Qed.

Lemma windows_lock_posix_inv (env : brl_env) (br : byte_range_lock) (plock : lock_struct)
    (blocking : bool) (r : lock_result) :
  range_ok plock -> lock_flav plock = WINDOWS_LOCK -> lock_type plock <> UNLOCK_LOCK ->
  posix_inv (lock_data br) ->
  brl_lock_windows_default env br plock blocking = Some r -> posix_inv (lock_data (r_brl r)).
Proof.
  intros Hp Hf Ht Hinv Hr.
  assert (brl_inv (lock_data (r_brl r))) as Hi by (eapply brl_inv_windows; eauto; apply Hinv).
  pose proof (windows_scan_marked env plock (lock_data br)) as Hm.
  revert Hr. unfold brl_lock_windows_default.
  destruct (windows_scan env plock (lock_data br)) as [[locks m] blk]. simpl in *.
  apply posix_inv_marked in Hm; [|done]. destruct Hm as (_ & Ha & Hs).
  destruct (is_type _ _); [done|]. destruct (_ && _); [by intros [= <-]|].
  assert (pairwise posix_apart (locks ++ [plock]) /\ stored_types (locks ++ [plock])) as [Ha' Hs'].
  { split; [apply pairwise_app; split_and!; [done|by split|by apply posix_apart_windows]|].
    apply Forall_app. split; [done|by apply Forall_singleton]. }
  destruct blk as [l|].
  - destruct (brl_lock_failed _ _ _) as [st f]. intros [= <-]. by split.
  - repeat case_if; intros [= <-]; by split.
Qed.

Lemma posix_lock_posix_inv (env : brl_env) (br : byte_range_lock) (plock : lock_struct)
    (r : lock_result) :
  range_ok plock -> pid (ctx_pid (context plock)) <> 0 -> lock_type plock <> UNLOCK_LOCK ->
  posix_inv (lock_data br) ->
  brl_lock_posix env br plock = Some r -> posix_inv (lock_data (r_brl r)).
Proof.
  intros Hp Hpid Ht Hinv Hr.
  assert (brl_inv (lock_data (r_brl r))) as Hi by (eapply brl_lock_posix_ok; eauto; apply Hinv).
  revert Hr. unfold brl_lock_posix.
  destruct (_ && _) eqn:G0; [by intros [= <-]|].
  destruct (_ <? _) eqn:G1; [by intros [= <-]|].
  destruct (negb _); [by intros [= <-]|].
  assert (pos_range plock) as Hpos by by apply lock_posix_guard.
  destruct (lock_posix_scan_correct env (lock_data br) plock) as (s & Hs & Hok);
    [done|apply Hinv|apply Hinv|].
  rewrite Hs. simpl. pose proof (posix_inv_marked _ _ _ (pso_marked _ _ _ _ Hok) Hinv) as Hold.
  destruct (ps_blocker s) eqn:Hb; [by intros [= <-]|].
  rewrite insert_at_end.
  assert (pairwise posix_apart (ps_tp s ++ [ps_plock s])) as Ha
    by by apply (lock_posix_apart env (lock_data br) plock).
  assert (stored_types (ps_tp s ++ [ps_plock s])) as Hst.
  { apply Forall_app. split.
    - eapply Forall_impl; [exact (pso_pieces _ _ _ _ Hok Hb)|].
      intros o (ex & Hex & (_ & -> & _) & _). destruct Hinv as (_ & _ & Hst).
      by apply (proj1 (Forall_forall _ _) Hst).
    - apply Forall_singleton. by destruct (pso_kind _ _ _ _ Hok) as (_ & -> & _). }
  repeat case_if; intros [= <-]; try done; by split.
Qed.

Lemma posix_inv_sublist (l k : list lock_struct) : sublist l k -> posix_inv k -> posix_inv l.
Proof.
  intros Hs ([Ht Hw] & Ha & Hst). split_and!.
  - split; [by eapply table_ok_sublist|]. unfold posix_wf in *. rewrite Forall_forall in *.
    intros x Hx. apply Hw. by eapply elem_of_sublist.
  - by eapply pairwise_sublist.
  - unfold stored_types in *. rewrite Forall_forall in *. intros x Hx. apply Hst.
    by eapply elem_of_sublist.
Qed.

Lemma delete_sublist (ls : list lock_struct) (i : nat) :
  sublist (brl_delete_lock_struct ls i) ls.
Proof.
  unfold brl_delete_lock_struct. destruct (length ls <=? i)%nat eqn:E; [done|].
  rewrite <- (take_drop i ls) at 3. apply sublist_app; [done|].
  rewrite <- Nat.add_1_r, <- drop_drop. apply sublist_drop.
Qed.

(** ** Requests behind the end *)

Lemma lock_behind_refused (env : brl_env) (br br' : byte_range_lock) (smb : Z) (p : server_id)
    (start size : Z) (t : brl_type) (f : brl_flavour) (blocking : bool) (st : NTSTATUS)
    (who : option Z) (ev : list brl_event) :
  u64_request start size -> 2 ^ 64 < start + size ->
  brl_lock env br smb p start size t f blocking = Some (st, br', who, ev) -> br' = br.
Proof.
  intros [Hs Hz] H. unfold in_w in *.
  assert (u64 (start + size - 1) <? start = true) as Hg
    by (rewrite u64_wrapped by lia; apply Z.ltb_lt; lia).
  assert (size =? 0 = false) as H0 by (apply Z.eqb_neq; lia).
  unfold brl_lock, brl_lock_windows_default, brl_lock_posix. destruct f; cbn [l_start l_size].
  - rewrite Hg, H0. destruct (is_type _ _); [done|]. cbn. by intros [= _ <-].
  - rewrite Hg, H0, andb_false_r. cbn. by intros [= _ <-].
Qed.

Lemma unlock_behind_refused (env : brl_env) (br : byte_range_lock) (smb : Z) (p : server_id)
    (start size : Z) :
  u64_request start size -> 2 ^ 64 <= start + size ->
  brl_unlock env br smb p start size POSIX_LOCK = Some (false, br, []).
Proof.
  intros [Hs Hz] H. unfold in_w in *. unfold brl_unlock, brl_unlock_posix, l_end. cbn [l_start l_size].
  rewrite u64_wrapped by lia. assert (start + size - 2 ^ 64 <? start = true) as -> by (apply Z.ltb_lt; lia).
  by destruct (_ && _).
Qed.

Lemma u64_request_cases (start size : Z) :
  u64_request start size -> range_fits start size \/ 2 ^ 64 <= start + size.
Proof. unfold u64_request, range_fits, in_w. lia. Qed.

(** A request that passes the tests for ranges behind the end. *)
Lemma guarded_fits (plock : lock_struct) :
  req_ok (l_start plock) (l_size plock) ->
  (u64 (l_start plock + l_size plock - 1) <? l_start plock) = false -> range_ok plock.
Proof.
  intros [Hu Hne] Hg%Z.ltb_ge. destruct (u64_request_cases _ _ Hu) as [?|Hb]; [done|].
  destruct Hu as [Hs Hz]. unfold in_w in *. rewrite u64_wrapped in Hg; lia.
Qed.

Lemma windows_guard_fits (plock : lock_struct) :
  req_ok (l_start plock) (l_size plock) ->
  (u64 (l_start plock + l_size plock - 1) <? l_start plock) && negb (l_size plock =? 0) = false ->
  range_ok plock.
Proof.
  intros Hr [Hg|Hz]%andb_false_iff; [by apply guarded_fits|]. boolify.
  destruct Hr as [[Hs _] _]. unfold in_w, range_ok in *. lia.
Qed.

Lemma unlock_fits_inv (env : brl_env) (br br' : byte_range_lock) (smb : Z) (p : server_id)
    (start size : Z) (f : brl_flavour) (ok : bool) (ev : list brl_event) :
  range_fits start size -> pid p <> 0 -> posix_inv (lock_data br) ->
  brl_unlock env br smb p start size f = Some (ok, br', ev) -> posix_inv (lock_data br').
Proof.
  intros (? & ? & ?) Hpid Hinv Hu.
  assert (brl_inv (lock_data br')) as Hi
    by (by eapply (brl_unlock_inv env br br' smb p start size f); [..|apply Hinv|exact Hu]).
  revert Hu. unfold brl_unlock. destruct f.
  - unfold brl_unlock_windows_default. simpl.
    destruct (find_index _ _); [|by intros [= _ <- _]].
    intros [= _ <- _]. by apply (posix_inv_sublist _ (lock_data br)); [apply delete_sublist|].
  - unfold brl_unlock_posix.
    destruct (_ && _); [by intros [= _ <- _]|]. destruct (_ || _); [by intros [= _ <- _]|].
    destruct (negb _); [by intros [= _ <- _]|].
    match goal with |- context [unlock_posix_scan ?q _] => set (plock := q) end.
    destruct (unlock_posix_scan plock (lock_data br)) as [[|tp o p']|] eqn:E; simpl; [| |done].
    { by intros [= _ <- _]. }
    destruct Hinv as ([[Hr Hc] Hw] & Ha & Hst).
    assert (pairwise posix_apart tp) as Ha'
      by (by eapply (unlock_scan_apart plock); [| |exact Hr|..]).
    assert (stored_types tp) as Hst'.
    { apply unlock_posix_scan_pieces in E; [|done..]. eapply Forall_impl; [exact E|].
      intros n (ex & Hex & (_ & -> & _) & _). by apply (proj1 (Forall_forall _ _) Hst). }
    repeat case_if; intros [= _ <- _]; split_and!; done.
Qed.

Lemma unlock_posix_inv (env : brl_env) (br br' : byte_range_lock) (smb : Z) (p : server_id)
    (start size : Z) (f : brl_flavour) (ok : bool) (ev : list brl_event) :
  u64_request start size -> pid p <> 0 -> posix_inv (lock_data br) ->
  brl_unlock env br smb p start size f = Some (ok, br', ev) -> posix_inv (lock_data br').
Proof.
  intros Hu Hpid Hinv. destruct (u64_request_cases _ _ Hu) as [Hf|Hb]; [by apply unlock_fits_inv|].
  destruct f; [|rewrite unlock_behind_refused by done; by intros [= _ <- _]].
  unfold brl_unlock, brl_unlock_windows_default. simpl.
  destruct (find_index _ _); [|by intros [= _ <- _]].
  intros [= _ <- _]. by apply (posix_inv_sublist _ (lock_data br)); [apply delete_sublist|].
Qed.

Lemma close_posix_inv (env : brl_env) (f : files_struct) (copy : list lock_struct)
    (br br' : byte_range_lock) (ev : list brl_event) :
  pid (self f) <> 0 -> Forall range_ok copy -> posix_inv (lock_data br) ->
  close_loop env f copy br = Some (br', ev) -> posix_inv (lock_data br').
Proof.
  intros Hpid Hc. revert br ev. induction Hc as [|l copy Hl Hc IH]; intros br ev Hinv; simpl.
  { by intros [= <- _]. }
  destruct (close_match f l); [|by apply IH].
  destruct (brl_unlock _ _ _ _ _ _ _) as [[[ok br1] ev1]|] eqn:E; simpl; [|done].
  apply unlock_fits_inv in E; [|done..].
  destruct (close_loop env f copy br1) as [[br2 ev2]|] eqn:E2; simpl; [|done].
  intros [= <- _]. by eapply IH.
Qed.

(** All entries of one owner are handed over to another. *)
Definition relabelled (c0 c1 : lock_context) (n o : lock_struct) : Prop :=
  context o = c0 /\ context n = c1 /\ l_start n = l_start o /\ l_size n = l_size o /\
  lock_type n = lock_type o /\ lock_flav n = lock_flav o.

Lemma posix_inv_relabelled (c0 c1 : lock_context) (old new : list lock_struct) :
  pid (ctx_pid c0) <> 0 -> Forall2 (relabelled c0 c1) new old ->
  posix_inv old -> posix_inv new.
Proof.
  intros Hpid Hrl ([[Hr _] Hw] & Ha & Hst).
  assert (Forall (fun n => context n = c1) new) as Hctx
    by (clear -Hrl; induction Hrl as [|n o ns os (_ & ? & _) _ IH]; constructor; auto).
  split_and!; [split; [split|]|..].
  - clear -Hrl Hr. induction Hrl as [|n o ns os (_ & _ & Es & Ez & _) _ IH]; [done|].
    apply Forall_cons in Hr as [Ho Hr]. constructor; [|auto].
    unfold range_ok. by rewrite Es, Ez.
  - clear -Hctx. induction Hctx as [|n ns Hn Hns IH]; [done|]. split; [|done].
    eapply Forall_impl; [exact Hns|]. intros m Hm. apply compatible_iff.
    intros (_ & _ & _ & _ & _ & Hne). congruence.
  - clear -Hrl Hw. unfold posix_wf in *.
    induction Hrl as [|n o ns os (_ & _ & _ & Ez & _ & Ef) _ IH]; [done|].
    apply Forall_cons in Hw as [Ho Hw]. constructor; [by rewrite Ez, Ef|auto].
  - clear -Hrl Ha Hpid. induction Hrl as [|n o ns os Hno Hrl IH]; [done|].
    destruct Ha as [Hoa Ha]. split; [|auto]. clear IH Ha.
    induction Hrl as [|m q ms qs Hmq _ IH]; [done|]. apply Forall_cons in Hoa as [Hoq Hoa].
    constructor; [|auto]. destruct Hno as (Hoc & _ & Es & Ez & _ & Ef).
    destruct Hmq as (Hqc & _ & Es' & Ez' & _ & Ef').
    intros _ Hf Hf' _ x. unfold covers. rewrite Es, Ez, Es', Ez'.
    apply Hoq; [by apply alive_pid; rewrite Hoc|congruence..].
  - clear -Hrl Hst. unfold stored_types in *.
    induction Hrl as [|n o ns os (_ & _ & _ & _ & Et & _) _ IH]; [done|].
    apply Forall_cons in Hst as [Ho Hst]. constructor; [by rewrite Et|auto].
Qed.

Lemma mark_loop_relabelled (f : files_struct) (smb : Z) (locks locks' : list lock_struct) :
  mark_loop f smb locks = (locks', true) ->
  Forall2 (relabelled (Lock_context smb (cnum f) (self f))
             (Lock_context smb TID_FIELD_INVALID server_id_set_disconnected)) locks' locks.
Proof.
  revert locks'. induction locks as [|l locks IH]; intros locks'; simpl; [by intros [= <-]|].
  repeat case_if; boolify; try done.
  destruct (mark_loop f smb locks) as [rest ok]. intros [= <- ->]. constructor; [|auto].
  apply server_id_equal_spec in Heqb1. unfold relabelled. simpl. split_and!; try done;
    [|congruence]. destruct (context l); simpl in *. congruence.
Qed.

Lemma reconnect_loop_relabelled (f : files_struct) (smb : Z) (locks locks' : list lock_struct) :
  reconnect_loop f smb locks = (locks', true) ->
  Forall2 (relabelled (Lock_context smb TID_FIELD_INVALID server_id_set_disconnected)
             (Lock_context smb (cnum f) (self f))) locks' locks.
Proof.
  revert locks'. induction locks as [|l locks IH]; intros locks'; simpl; [by intros [= <-]|].
  repeat case_if; boolify; try done.
  destruct (reconnect_loop f smb locks) as [rest ok]. intros [= <- ->]. constructor; [|auto].
  apply server_id_equal_spec in Heqb1. unfold relabelled. simpl. split_and!; try done;
    [|congruence]. destruct (context l); simpl in *. congruence.
Qed.

Lemma posix_inv_permutation (l k : list lock_struct) : l ≡ₚ k -> posix_inv l -> posix_inv k.
Proof.
  intros Hp ([[Hr Hc] Hw] & Ha & Hst). unfold posix_inv, brl_inv, table_ok, posix_wf, stored_types.
  split_and!; try (by rewrite <- Hp); eapply pairwise_permutation; eauto;
    [apply compatible_sym|apply posix_apart_sym].
Qed.

Lemma filter_sublist {A : Type} (p : A -> bool) (l : list A) : sublist (List.filter p l) l.
Proof. induction l as [|x l IH]; simpl; [done|]. destruct (p x); by constructor. Qed.

Lemma flush_locks_perm (locks : list lock_struct) :
  flush_locks locks ≡ₚ List.filter alive locks.
Proof. apply flush_loop_perm; [lia|]. apply Forall_nil_2. Qed.

Lemma step_inv (locks locks' : list lock_struct) :
  brl_step locks locks' -> posix_inv locks -> posix_inv locks'.
Proof.
  destruct 1 as [env br smb p start size t f blocking st br' who ev Hreq Hpid Ht Hl
    |env br smb p start size f ok br' ev Hreq Hpid Hu|t br smb p start size f
    |env br probe|env br br' ev Hpid Hc|f smb locks locks' Hpid Hm
    |f smb locks locks' Hm|locks]; intros Hinv.
  - destruct Hreq as [Hu Hne]. destruct (u64_request_cases _ _ Hu) as [Hfit|Hb];
      [|by apply lock_behind_refused in Hl as ->; [|done|lia]].
    unfold brl_lock in Hl. destruct f; simpl in Hl.
    + destruct (brl_lock_windows_default _ _ _ _) as [r|] eqn:E; simplify_eq/=.
      by eapply windows_lock_posix_inv in E.
    + destruct (brl_lock_posix _ _ _) as [r|] eqn:E; simplify_eq/=.
      by eapply posix_lock_posix_inv in E.
  - by eapply unlock_posix_inv.
  - unfold brl_lock_cancel, brl_lock_cancel_default. destruct (find_index _ _); [|done].
    by apply (posix_inv_sublist _ (lock_data br)); [apply delete_sublist|].
  - unfold brl_locktest.
    pose proof (locktest_scan_marked env (record br) probe (lock_data br)) as Hm.
    destruct (locktest_scan _ _ _ _) as [[ls m] blk]. simpl in *.
    apply posix_inv_marked in Hm; [|done]. repeat case_if; try done.
    by destruct (is_posix_locked _ _ _ _ _ _) as [[[? ?] ?] ?].
  - unfold brl_close_fnum in Hc. case_if; [done|].
    eapply close_posix_inv in Hc; eauto. apply Hinv.
  - by eapply posix_inv_relabelled, Hinv; [|by apply mark_loop_relabelled].
  - by eapply posix_inv_relabelled, Hinv; [|by apply reconnect_loop_relabelled].
  - eapply posix_inv_permutation; [symmetry; apply flush_locks_perm|].
    by eapply posix_inv_sublist; [apply filter_sublist|].
Qed.

Lemma reachable_inv (locks : list lock_struct) : brl_reachable locks -> posix_inv locks.
Proof.
  induction 1 as [|locks locks' _ IH Hs]; [|by eapply step_inv].
  repeat split; constructor.
Qed.
