(* ===== verification/BrlProps.v ===== *)
(** * Byte-range locking: properties

    The properties of brlock.c proved from the invariants of BrlSafety,
    BrlPosix and BrlReach, and what the model shows where the code does not do
    what it means to. *)

From S2P Require Import Prelude.
From S2P Require Import Errmap.
From S2P Require Import ServerId.
From S2P Require Import BrlModel.
From S2P Require Import BrlSafety.
From S2P Require Import BrlPosix.
From S2P Require Import BrlReach.
From stdpp Require Import prelude list.

#[local] Open Scope Z_scope.

(** ** Concrete data for the witnesses *)

(** A server on which every process is alive, POSIX locking is off and
    allocations succeed. *)
Definition quiet_env : brl_env :=
  Brl_env (fun _ => true) false
          (fun _ _ _ _ _ _ => Posix_result true 0 0) (fun _ _ _ _ _ => Posix_result true 0 0)
          (fun _ s z t _ => (false, s, z, t)) true true true.

Definition client (n : Z) : server_id := Server_id n 0 NONCLUSTER_VNN n.

Definition file_of (n : Z) : files_struct :=
  Files_struct 1 7 (100 + n) (client n) zero_lock 0 (Some (Open_global 42 true)).

Definition record_of (n : Z) (locks : list lock_struct) : byte_range_lock :=
  Byte_range_lock (file_of n) false 0 locks true.

Definition mk_lock (n start size : Z) (t : brl_type) (f : brl_flavour) : lock_struct :=
  Lock_struct (Lock_context n 7 (client n)) start size (100 + n) t f.

(** The record after a request of client [n]. *)
Definition after_lock (n start size : Z) (t : brl_type) (f : brl_flavour)
    (locks : list lock_struct) : option (NTSTATUS * list lock_struct) :=
  '(st, br, _, _) ← brl_lock quiet_env (record_of n locks) n (client n) start size t f false;
  Some (st, lock_data br).

Definition after_unlock (n start size : Z) (f : brl_flavour)
    (locks : list lock_struct) : option (bool * list lock_struct) :=
  '(ok, br, _) ← brl_unlock quiet_env (record_of n locks) n (client n) start size f;
  Some (ok, lock_data br).

Lemma reach_lock (n start size : Z) (t : brl_type) (f : brl_flavour)
    (locks locks' : list lock_struct) (st : NTSTATUS) :
  brl_reachable locks -> req_ok start size -> n <> 0 -> t <> UNLOCK_LOCK ->
  after_lock n start size t f locks = Some (st, locks') -> brl_reachable locks'.
Proof.
  intros Hr Hreq Hn Ht. unfold after_lock.
  destruct (brl_lock _ _ _ _ _ _ _ _ _) as [[[[s b] w] e]|] eqn:E; simpl; [|done].
  intros [= <- <-]. eapply reach_step; [exact Hr|]. change locks with (lock_data (record_of n locks)).
  by eapply step_lock; [..|exact E].
Qed.

(** Two readers on overlapping ranges, one of them with a write lock
    elsewhere. *)
Definition sample_table : list lock_struct :=
  [mk_lock 1 0 10 READ_LOCK WINDOWS_LOCK; mk_lock 2 5 10 READ_LOCK POSIX_LOCK;
   mk_lock 2 100 20 WRITE_LOCK POSIX_LOCK].

Lemma sample_reachable : brl_reachable sample_table.
Proof.
  apply (reach_lock 2 100 20 WRITE_LOCK POSIX_LOCK (take 2 sample_table) _ NT_STATUS_OK);
    [|done..|reflexivity].
  apply (reach_lock 2 5 10 READ_LOCK POSIX_LOCK (take 1 sample_table) _ NT_STATUS_OK);
    [|done..|reflexivity].
  apply (reach_lock 1 0 10 READ_LOCK WINDOWS_LOCK [] _ NT_STATUS_OK); [|done..|reflexivity].
  constructor.
Qed.

(** ** Totality *)

Lemma unlock_posix_scan_total (locks : list lock_struct) (plock : lock_struct) :
  Forall range_ok locks -> posix_wf locks -> range_ok plock ->
  is_Some (unlock_posix_scan plock locks).
Proof.
  intros Hr. revert plock. induction Hr as [|l rest Hl Hr IH]; intros plock Hw Hp; simpl.
  { by eexists. }
  apply Forall_cons in Hw as [Hlw Hw].
  destruct (_ || _); [apply fmap_is_Some; auto|].
  destruct (is_flav _ _) eqn:Hfl;
    [destruct (brl_conflict _ _); [by eexists|apply fmap_is_Some; auto]|].
  apply not_windows in Hfl.
  destruct (split_merge_correct l plock) as (out & plock' & -> & Hsm); [by split; auto|done|].
  simpl. destruct (sm_range _ _ _ _ Hsm) as [Hrg _].
  destruct out as [|o1 [|o2 out]]; [apply fmap_is_Some; auto..|by eexists].
Qed.

Lemma posix_failure_not_ok (res : posix_result) : posix_failure_status res <> NT_STATUS_OK.
Proof.
  unfold posix_failure_status. destruct (_ || _); [done|].
  pose proof (map_nt_error_not_ok (errno res)) as H. unfold NT_STATUS_IS_OK in H.
  by apply Z.eqb_neq.
Qed.

(** A POSIX lock request returns, and either fails and leaves the table but
    for marks, or installs the scan's array and the merged lock. *)
Lemma brl_lock_posix_cases (env : brl_env) (br : byte_range_lock) (plock : lock_struct) :
  posix_inv (lock_data br) -> req_ok (l_start plock) (l_size plock) ->
  exists r, brl_lock_posix env br plock = Some r /\
    ((r_status r <> NT_STATUS_OK /\ Forall2 (marked_from env) (lock_data (r_brl r)) (lock_data br)) \/
     (exists s, r_status r = NT_STATUS_OK /\ pos_range plock /\
        lock_posix_scan env plock (lock_data br) = Some s /\ ps_blocker s = None /\
        posix_scan_ok env plock (lock_data br) s /\
        lock_data (r_brl r) = ps_tp s ++ [ps_plock s] /\ r_plock r = ps_plock s)).
Proof.
  intros Hinv Hp. unfold brl_lock_posix.
  destruct (_ && _) eqn:G0; [eexists; split; [done|]; left; by split; [|apply marked_refl]|].
  destruct (_ <? _) eqn:G1; [eexists; split; [done|]; left; by split; [|apply marked_refl]|].
  destruct (negb _); [eexists; split; [done|]; left; by split; [|apply marked_refl]|].
  apply guarded_fits in Hp; [|done].
  assert (pos_range plock) as Hpos by by apply lock_posix_guard.
  destruct (lock_posix_scan_correct env (lock_data br) plock) as (s & Hs & Hok);
    [done|apply Hinv|apply Hinv|].
  rewrite Hs. simpl. pose proof (pso_marked _ _ _ _ Hok) as Hmk.
  destruct (ps_blocker s) eqn:Hb; [eexists; split; [done|]; by left|].
  rewrite insert_at_end.
  match goal with |- context [if ?c then Some (Lock_result (posix_failure_status _) _ _ _) else _]
    => destruct c end.
  { eexists. split; [done|]. left. split; [apply posix_failure_not_ok|done]. }
  match goal with |- context [if ?c then Some (Lock_result NT_STATUS_NO_MEMORY _ _ _) else _]
    => destruct c end; [eexists; split; [done|]; by left|].
  eexists. split; [done|]. right. by exists s.
Qed.

(** The array the scan and the final insertion build holds the updated map. *)
Lemma scan_map_update (env : brl_env) (locks : list lock_struct) (plock : lock_struct)
    (s : posix_scan) (x : Z) (t : brl_type) :
  posix_inv locks -> pos_range plock -> lock_flav plock = POSIX_LOCK ->
  pid (ctx_pid (context plock)) <> 0 ->
  lock_posix_scan env plock locks = Some s -> ps_blocker s = None ->
  posix_scan_ok env plock locks s ->
  holds (ps_tp s ++ [ps_plock s]) (context plock) x t <->
  (covers plock x /\ t = lock_type plock) \/ (~ covers plock x /\ holds locks (context plock) x t).
Proof.
  intros ([[Hr _] Hw] & Ha & _) Hpos Hf Hpid Hs Hb Hok.
  pose proof (pso_kind _ _ _ _ Hok) as (Hkc & Hkt & Hkf & _).
  rewrite holds_app, holds_single, (lock_scan_holds env locks plock s), Hkf, Hkc, Hkt by done.
  pose proof (pso_grow _ _ _ _ Hok x) as Hg.
  assert (covers (ps_plock s) x -> covers plock x \/
          holds locks (context plock) x (lock_type plock)) as Hm.
  { intros HP. destruct (pso_merged _ _ _ _ Hok x HP) as [?|(ex & ? & ? & ? & ? & ?)]; [by left|right].
    by exists ex. }
  assert (covers plock x \/ ~ covers plock x) as Hdec by (unfold covers; lia).
  assert (covers (ps_plock s) x \/ ~ covers (ps_plock s) x) as Hdec' by (unfold covers; lia).
  split.
  - intros [[Hh Hn]|(_ & _ & <- & HP)]; [right; tauto|].
    destruct Hdec; [by left|right]. split; [done|]. destruct (Hm HP); tauto.
  - intros [[Hx ->]|[Hn Hh]]; [right; tauto|].
    destruct Hdec' as [HP|HnP]; [|by left]. right. destruct (Hm HP) as [?|Hh']; [done|].
    split_and!; try done. by eapply holds_fun.
Qed.

(** ** Properties *)

(** C1. Exclusivity: in every table reachable by any sequence of lock, unlock,
    cancel, test, close, disconnect, reconnect and flush operations of processes
    (whose ids are not 0), two distinct granted entries of live processes that
    cover a common byte belong to the same lock context, or are both read locks.
    The requests are arbitrary pairs of 64-bit numbers, except that no lock
    request ends exactly at 2^64: [brl_overlap] computes the end of such a range
    as 0 ([overlap_missed_at_top]). *)
Theorem brl_exclusive (locks : list lock_struct) (i j : nat) (a b : lock_struct) (x : Z) :
  brl_reachable locks -> locks !! i = Some a -> locks !! j = Some b -> i <> j ->
  IS_PENDING_LOCK (lock_type a) = false -> IS_PENDING_LOCK (lock_type b) = false ->
  alive a = true -> alive b = true -> covers a x -> covers b x ->
  context a = context b \/ (lock_type a = READ_LOCK /\ lock_type b = READ_LOCK).
Proof.
  intros Hr Ha Hb _ Hpa Hpb Hla Hlb Hxa Hxb.
  apply list_elem_of_lookup_2 in Ha, Hb.
  destruct (table_ok_elems locks a b (proj1 (proj1 (reachable_inv _ Hr))) Ha Hb) as [->|Hc];
    [by left|].
  destruct (decide (context a = context b)) as [|Hne]; [by left|right].
  destruct (decide (lock_type a = READ_LOCK /\ lock_type b = READ_LOCK)) as [|Hrd]; [done|].
  apply compatible_iff in Hc; [by destruct (Hc x)|].
  apply alive_pid in Hla, Hlb. by repeat split.
Qed.

Lemma brl_exclusive_witness :
  mk_lock 1 0 10 READ_LOCK WINDOWS_LOCK <> mk_lock 2 5 10 READ_LOCK POSIX_LOCK /\
  (context (mk_lock 1 0 10 READ_LOCK WINDOWS_LOCK) = context (mk_lock 2 5 10 READ_LOCK POSIX_LOCK) \/
   (READ_LOCK = READ_LOCK /\ READ_LOCK = READ_LOCK)).
Proof.
  split; [discriminate|].
  apply (brl_exclusive sample_table 0 1 (mk_lock 1 0 10 READ_LOCK WINDOWS_LOCK)
           (mk_lock 2 5 10 READ_LOCK POSIX_LOCK) 7 sample_reachable);
    try reflexivity; try discriminate; unfold covers; simpl; lia.
Defined.

(** C13. POSIX locking is a map update: on every table of [brl_reachable] a POSIX
    lock request of a process, for a range of 64-bit numbers that does not end
    exactly at 2^64, returns; when it succeeds, the requesting owner holds the requested
    type on exactly the requested bytes and keeps what it had on all other
    bytes; when it fails, the table is unchanged but for entries of processes
    that do not exist, which may be marked dead. *)
Theorem brl_lock_posix_map (env : brl_env) (br : byte_range_lock) (plock : lock_struct) :
  brl_reachable (lock_data br) -> req_ok (l_start plock) (l_size plock) -> lock_flav plock = POSIX_LOCK ->
  pid (ctx_pid (context plock)) <> 0 ->
  exists r, brl_lock_posix env br plock = Some r /\
    (r_status r = NT_STATUS_OK -> forall x t,
       holds (lock_data (r_brl r)) (context plock) x t <->
       (covers plock x /\ t = lock_type plock) \/
       (~ covers plock x /\ holds (lock_data br) (context plock) x t)) /\
    (r_status r <> NT_STATUS_OK ->
       Forall2 (marked_from env) (lock_data (r_brl r)) (lock_data br)).
Proof.
  intros Hreach Hp Hf Hpid. pose proof (reachable_inv _ Hreach) as Hinv.
  destruct (brl_lock_posix_cases env br plock Hinv Hp)
    as (r & Hr & [[Hne Hm]|(s & Hst & Hpos & Hs & Hb & Hok & Hl & _)]); exists r.
  - split; [done|]. split; [by intros ?|done].
  - split; [done|]. split; [|by intros []]. intros _ x t. rewrite Hl.
    by apply (scan_map_update env).
Qed.

Lemma brl_lock_posix_map_witness :
  exists r, brl_lock_posix quiet_env (record_of 2 sample_table)
              (mk_lock 2 7 4 WRITE_LOCK POSIX_LOCK) = Some r /\
    (r_status r = NT_STATUS_OK -> forall x t,
       holds (lock_data (r_brl r)) (Lock_context 2 7 (client 2)) x t <->
       (covers (mk_lock 2 7 4 WRITE_LOCK POSIX_LOCK) x /\ t = WRITE_LOCK) \/
       (~ covers (mk_lock 2 7 4 WRITE_LOCK POSIX_LOCK) x /\
        holds sample_table (Lock_context 2 7 (client 2)) x t)) /\
    (r_status r <> NT_STATUS_OK ->
       Forall2 (marked_from quiet_env) (lock_data (r_brl r)) sample_table).
Proof.
  apply (brl_lock_posix_map quiet_env (record_of 2 sample_table)
           (mk_lock 2 7 4 WRITE_LOCK POSIX_LOCK)).
  - exact sample_reachable.
  - unfold req_ok, u64_request, in_w; simpl; lia.
  - reflexivity.
  - discriminate.
Defined.

(** C14. POSIX unlocking is an erasure: on every table of [brl_reachable] an
    unlock request of a process, for any two 64-bit numbers, returns; when it
    succeeds, the owner's granted entries are gone from exactly the requested
    bytes, also when the loop stops early after a split, and pending entries are
    kept; when it fails, nothing changes. *)
Theorem brl_unlock_posix_map (env : brl_env) (br : byte_range_lock) (smb : Z) (p : server_id)
    (start size : Z) :
  brl_reachable (lock_data br) -> u64_request start size -> pid p <> 0 ->
  exists ok br' ev, brl_unlock env br smb p start size POSIX_LOCK = Some (ok, br', ev) /\
    (ok = true -> forall x t,
       holds (lock_data br') (Lock_context smb (cnum (fsp br)) p) x t <->
       holds (lock_data br) (Lock_context smb (cnum (fsp br)) p) x t /\
       (IS_PENDING_LOCK t = true \/ ~ (start <= x < start + size))) /\
    (ok = false -> lock_data br' = lock_data br).
Proof.
  intros Hreach Hu Hpid. destruct (u64_request_cases _ _ Hu) as [(? & ? & ?)|Hb];
    [|rewrite unlock_behind_refused by done; by eexists false, br, _].
  destruct (reachable_inv _ Hreach) as ([[Hr _] Hw] & Ha & Hst).
  unfold brl_unlock, brl_unlock_posix.
  destruct (_ && _); [by eexists false, br, _|].
  destruct (_ || _); [by eexists false, br, _|].
  destruct (negb _); [by eexists false, br, _|].
  match goal with |- context [unlock_posix_scan ?q _] => set (plock := q) end.
  assert (range_ok plock) as Hp by done.
  destruct (unlock_posix_scan_total (lock_data br) plock Hr Hw Hp) as [[|tp ov p'] Hs];
    rewrite Hs; simpl; [by eexists false, br, _|].
  destruct (unlock_scan_holds plock Hp eq_refl Hpid (lock_data br) tp ov p' Hr Hw Ha Hst Hs)
    as (-> & Hov & _ & Hh).
  destruct ov; simpl.
  - destruct (_ && _); [by eexists false, br, _|]. eexists true, _, _. split; [done|].
    split; [|done]. intros _. exact Hh.
  - eexists true, br, _. split; [done|]. split; [|done]. intros _. rewrite <- Hov by done.
    rewrite Hov in Hh by done. rewrite Hov by done. exact Hh.
Qed.

Lemma brl_unlock_posix_map_witness :
  exists ok br' ev, brl_unlock quiet_env (record_of 2 sample_table) 2 (client 2) 105 5 POSIX_LOCK
                    = Some (ok, br', ev) /\
    (ok = true -> forall x t,
       holds (lock_data br') (Lock_context 2 7 (client 2)) x t <->
       holds sample_table (Lock_context 2 7 (client 2)) x t /\
       (IS_PENDING_LOCK t = true \/ ~ (105 <= x < 105 + 5))) /\
    (ok = false -> lock_data br' = sample_table).
Proof.
  apply (brl_unlock_posix_map quiet_env (record_of 2 sample_table) 2 (client 2) 105 5).
  - exact sample_reachable.
  - unfold u64_request, in_w; lia.
  - discriminate.
Defined.

(** Memory safety of the POSIX paths: on every reachable table the array
    that [brl_lock_posix] fills has at most [num_locks + 2] entries and the one
    that [brl_unlock_posix] fills at most [num_locks + 1], the sizes the code
    allocates. *)
Theorem posix_arrays_fit (env : brl_env) (br : byte_range_lock) (plock : lock_struct) :
  brl_reachable (lock_data br) -> pos_range plock -> pid (ctx_pid (context plock)) <> 0 ->
  (forall s, lock_posix_scan env plock (lock_data br) = Some s ->
     (length (insert_at (insert_index (ps_plock s) (ps_tp s) 0) (ps_plock s) (ps_tp s))
      <= brl_num_locks br + 2)%nat) /\
  (forall tp ov p', lock_type plock = UNLOCK_LOCK ->
     unlock_posix_scan plock (lock_data br) = Some (Unlock_done tp ov p') ->
     (length tp <= brl_num_locks br + 1)%nat).
Proof.
  intros Hreach Hp Hpid. pose proof (reachable_inv _ Hreach) as Hinv. split.
  - intros s Hs. rewrite insert_at_end. by apply (lock_scan_fits env (lock_data br) plock).
  - intros tp ov p' Ht Hs. destruct Hinv as ([[Hr _] Hw] & Ha & Hst).
    apply (unlock_scan_holds plock (proj1 Hp) Ht Hpid (lock_data br) tp ov p' Hr Hw Ha Hst Hs).
Qed.

Lemma posix_arrays_fit_witness :
  exists tp ov p', unlock_posix_scan (mk_lock 2 105 5 UNLOCK_LOCK POSIX_LOCK) sample_table =
    Some (Unlock_done tp ov p') /\ (length tp <= 4)%nat.
Proof.
  eexists _, _, _. split; [reflexivity|].
  eapply (proj2 (posix_arrays_fit quiet_env (record_of 2 sample_table)
                   (mk_lock 2 105 5 UNLOCK_LOCK POSIX_LOCK) sample_reachable
                   ltac:(unfold pos_range, range_ok; simpl; lia) ltac:(discriminate)));
    reflexivity.
Defined.

(** ** Windows locks of a closed handle *)

(** The granted Windows entries of a handle under one context and range. *)
Definition win_key (f : files_struct) (smb start size : Z) (l : lock_struct) : bool :=
  close_match f l && is_flav (lock_flav l) WINDOWS_LOCK &&
  negb (IS_PENDING_LOCK (lock_type l)) &&
  ((smblctx (context l) =? smb) && (l_start l =? start) && (l_size l =? size)).

Definition win_count (f : files_struct) (smb start size : Z) (locks : list lock_struct) : nat :=
  length (List.filter (win_key f smb start size) locks).

Lemma win_count_delete (f : files_struct) (smb start size : Z) (locks : list lock_struct) (i : nat)
    (l : lock_struct) :
  locks !! i = Some l ->
  (win_count f smb start size (brl_delete_lock_struct locks i) +
   (if win_key f smb start size l then 1 else 0) = win_count f smb start size locks)%nat.
Proof.
  intros Hi. pose proof (lookup_lt_Some _ _ _ Hi) as Hlt. unfold brl_delete_lock_struct, win_count.
  destruct (Nat.leb_spec (length locks) i); [lia|].
  rewrite <- (take_drop_middle locks i l Hi) at 3.
  rewrite !List.filter_app, !length_app. simpl. destruct (win_key f smb start size l); simpl; lia.
Qed.

(** The entries an unlock of the handle's own lock matches are those of its
    key. *)
Lemma unlock_match_key (f : files_struct) (smb start size : Z) (l : lock_struct) :
  unlock_windows_match
    (Lock_struct (Lock_context smb (cnum f) (self f)) start size (fsp_fnum f) UNLOCK_LOCK
       WINDOWS_LOCK) l = win_key f smb start size l.
Proof.
  unfold unlock_windows_match, win_key, close_match, brl_same_context. simpl.
  destruct (IS_PENDING_LOCK _), (is_flav _ _), (server_id_equal _ _), (smblctx (context l) =? smb),
    (tid (context l) =? cnum f), (fnum l =? fsp_fnum f), (l_start l =? start),
    (l_size l =? size); done.
Qed.

(** Unlocking POSIX ranges copies the Windows entries. *)
Lemma unlock_posix_scan_windows (locks : list lock_struct) (plock : lock_struct)
    (tp : list lock_struct) (ov : bool) (p' : lock_struct) (q : lock_struct -> bool) :
  (forall l, q l = true -> lock_flav l = WINDOWS_LOCK) ->
  unlock_posix_scan plock locks = Some (Unlock_done tp ov p') ->
  (length (List.filter q tp) <= length (List.filter q locks))%nat.
Proof.
  intros Hq. revert plock tp ov. induction locks as [|l rest IH]; intros plock tp ov; simpl.
  { by intros [= <- _ _]. }
  assert (forall new ch r, (length (List.filter q new) <= (if q l then 1 else 0))%nat ->
    us_cons new ch <$> unlock_posix_scan r rest = Some (Unlock_done tp ov p') ->
    (length (List.filter q tp) <= (if q l then 1 else 0) + length (List.filter q rest))%nat) as Hgo.
  { intros new ch r Hn Hs. destruct (unlock_posix_scan r rest) as [[|tp' o' z]|] eqn:E;
      simplify_eq/=. rewrite List.filter_app, length_app. specialize (IH _ _ _ E). lia. }
  assert (length (if q l then l :: List.filter q rest else List.filter q rest) =
          (if q l then 1 else 0) + length (List.filter q rest))%nat as -> by by destruct (q l).
  destruct (_ || _); [apply Hgo; simpl; by destruct (q l)|].
  destruct (is_flav _ _) eqn:Hfl.
  { destruct (brl_conflict _ _); [done|apply Hgo; simpl; by destruct (q l)]. }
  apply not_windows in Hfl.
  destruct (brlock_posix_split_merge l plock) as [[out r]|] eqn:E; simpl; [|done].
  assert (List.filter q out = []) as Hout.
  { assert (Forall (fun o => lock_flav o = POSIX_LOCK) out) as Hf.
    { revert E. unfold brlock_posix_split_merge. repeat case_if; intros [= <- _];
        repeat constructor; done. }
    clear -Hf Hq. induction Hf as [|o out Ho _ IHo]; simpl; [done|]. destruct (q o) eqn:Eq; [|done].
    apply Hq in Eq. congruence. }
  destruct out as [|o1 [|o2 out]].
  - apply Hgo. simpl. lia.
  - apply Hgo. rewrite Hout. simpl. lia.
  - intros [= <- _ _]. rewrite app_comm_cons, app_comm_cons, List.filter_app, Hout. simpl. lia.
Qed.

Lemma win_key_windows (f : files_struct) (smb start size : Z) (l : lock_struct) :
  win_key f smb start size l = true -> lock_flav l = WINDOWS_LOCK.
Proof.
  unfold win_key, is_flav. rewrite !andb_true_iff, bool_decide_eq_true. tauto.
Qed.

(** What an unlock of the handle's own range does to the counts. *)
Lemma unlock_counts (env : brl_env) (br br' : byte_range_lock) (smb start size : Z)
    (fl : brl_flavour) (ok : bool) (ev : list brl_event) :
  brl_unlock env br smb (self (fsp br)) start size fl = Some (ok, br', ev) ->
  fsp br' = fsp br /\
  (forall s b z, (win_count (fsp br) s b z (lock_data br') <=
                  win_count (fsp br) s b z (lock_data br))%nat) /\
  (fl = WINDOWS_LOCK -> (win_count (fsp br) smb start size (lock_data br') <=
                         win_count (fsp br) smb start size (lock_data br) - 1)%nat).
Proof.
  unfold brl_unlock. destruct fl.
  - unfold brl_unlock_windows_default. simpl.
    match goal with |- context [find_index ?p _] => set (q := p) end.
    pose proof (find_index_spec q (lock_data br)) as Hfi.
    assert (forall l, q l = win_key (fsp br) smb start size l) as Hq
      by (intros l; apply unlock_match_key).
    destruct (find_index q (lock_data br)) as [i|]; intros [= _ <- _]; simpl.
    + destruct Hfi as (l & Hi & Hl). rewrite Hq in Hl. split_and!; [done| |].
      * intros s b z. pose proof (win_count_delete (fsp br) s b z _ _ _ Hi). lia.
      * intros _. pose proof (win_count_delete (fsp br) smb start size _ _ _ Hi) as H.
        rewrite Hl in H. lia.
    + split_and!; [done|done|]. intros _.
      assert (win_count (fsp br) smb start size (lock_data br) = 0%nat) as ->; [|lia].
      unfold win_count. induction Hfi as [|l ls Hl _ IH]; simpl; [done|].
      by rewrite <- Hq, Hl.
  - unfold brl_unlock_posix.
    destruct (_ && _); [by intros [= _ <- _]|]. destruct (_ || _); [by intros [= _ <- _]|].
    destruct (negb _); [by intros [= _ <- _]|].
    match goal with |- context [unlock_posix_scan ?q _] => set (plock := q) end.
    destruct (unlock_posix_scan plock (lock_data br)) as [[|tp o p']|] eqn:E; simpl; [| |done].
    { by intros [= _ <- _]. }
    repeat case_if; intros [= _ <- _]; split_and!; try done; intros s b z;
      exact (unlock_posix_scan_windows _ _ _ _ _ _ (win_key_windows (fsp br) s b z) E).
Qed.

Lemma close_loop_counts (env : brl_env) (copy : list lock_struct) (br br' : byte_range_lock)
    (ev : list brl_event) :
  (forall s b z, (win_count (fsp br) s b z (lock_data br) <= win_count (fsp br) s b z copy)%nat) ->
  close_loop env (fsp br) copy br = Some (br', ev) ->
  forall s b z, win_count (fsp br) s b z (lock_data br') = 0%nat.
Proof.
  revert br ev. induction copy as [|l copy IH]; intros br ev Hle; simpl.
  { intros [= <- _] s b z. specialize (Hle s b z). unfold win_count in *. simpl in Hle. lia. }
  assert (forall s b z, (win_count (fsp br) s b z (l :: copy) =
    (if win_key (fsp br) s b z l then 1 else 0) + win_count (fsp br) s b z copy)%nat) as Hcons
    by (intros s b z; unfold win_count; simpl; by destruct (win_key _ _ _ _ _)).
  destruct (close_match (fsp br) l) eqn:Hm.
  2: { apply IH. intros s b z. specialize (Hle s b z). rewrite Hcons in Hle.
       unfold win_key in Hle. rewrite Hm in Hle. simpl in Hle. lia. }
  destruct (brl_unlock _ _ _ _ _ _ _) as [[[ok br1] ev1]|] eqn:E; simpl; [|done].
  apply unlock_counts in E as (Hf & Hall & Hown).
  destruct (close_loop env (fsp br) copy br1) as [[br2 ev2]|] eqn:E2; simpl; [|done].
  intros [= <- _] s b z. rewrite <- Hf in *. apply (IH br1 ev2); [|done].
  intros s' b' z'. specialize (Hle s' b' z'). specialize (Hall s' b' z'). rewrite Hcons in Hle.
  destruct (win_key (fsp br1) s' b' z' l) eqn:Hk; [|lia].
  pose proof (win_key_windows _ _ _ _ _ Hk) as Hw.
  unfold win_key in Hk. rewrite !andb_true_iff, !Z.eqb_eq in Hk.
  destruct Hk as (_ & (<- & <-) & <-). specialize (Hown Hw). lia.
Qed.

(** Closing never panics on a table that satisfies the invariant. *)
Lemma unlock_total (env : brl_env) (br : byte_range_lock) (smb : Z) (p : server_id)
    (start size : Z) (fl : brl_flavour) :
  posix_inv (lock_data br) -> range_fits start size -> is_Some (brl_unlock env br smb p start size fl).
Proof.
  intros ([[Hr _] Hw] & _ & _) Hreq. unfold brl_unlock. destruct fl.
  { unfold brl_unlock_windows_default. destruct (find_index _ _); by eexists. }
  unfold brl_unlock_posix. do 3 (case_if; [by eexists|]).
  match goal with |- context [unlock_posix_scan ?q _] =>
    destruct (unlock_posix_scan_total (lock_data br) q Hr Hw Hreq) as [[|tp ov p'] ->] end;
    simpl; repeat case_if; by eexists.
Qed.

Lemma close_loop_total (env : brl_env) (f : files_struct) (copy : list lock_struct)
    (br : byte_range_lock) :
  pid (self f) <> 0 -> Forall range_ok copy -> posix_inv (lock_data br) ->
  is_Some (close_loop env f copy br).
Proof.
  intros Hpid Hc. revert br. induction Hc as [|l copy Hl Hc IH]; intros br Hinv; simpl.
  { by eexists. }
  destruct (close_match f l); [|by apply IH].
  destruct (unlock_total env br (smblctx (context l)) (self f) (l_start l) (l_size l)
              (lock_flav l) Hinv Hl) as [[[ok br1] ev1] E].
  rewrite E. simpl. apply unlock_fits_inv in E; [|done..].
  destruct (IH br1 E) as [[br2 ev2] ->]. by eexists.
Qed.

(** Closing a handle releases its Windows locks: on every reachable table
    [brl_close_fnum] returns (when it can copy the array), and no granted Windows lock of the handle is left
    in the table. *)
Theorem close_releases_windows_locks (env : brl_env) (br : byte_range_lock) :
  brl_reachable (lock_data br) -> pid (self (fsp br)) <> 0 -> talloc_memdup_ok env = true ->
  exists br' ev, brl_close_fnum env br = Some (br', ev) /\
    forall l, l ∈ lock_data br' -> close_match (fsp br) l = true ->
      lock_flav l = WINDOWS_LOCK -> IS_PENDING_LOCK (lock_type l) = true.
Proof.
  intros Hreach Hpid Hmem. pose proof (reachable_inv _ Hreach) as Hinv.
  unfold brl_close_fnum. rewrite Hmem, andb_false_r.
  destruct (close_loop_total env (fsp br) (lock_data br) br Hpid (proj1 (proj1 (proj1 Hinv))) Hinv)
    as [[br' ev] Hc].
  exists br', ev. split; [done|]. intros l Hl Hm Hf.
  pose proof (close_loop_counts env (lock_data br) br br' ev ltac:(auto) Hc
                (smblctx (context l)) (l_start l) (l_size l)) as H0.
  destruct (IS_PENDING_LOCK (lock_type l)) eqn:Hp; [done|]. exfalso.
  unfold win_count in H0. apply nil_length_inv in H0.
  assert (In l (List.filter (win_key (fsp br) (smblctx (context l)) (l_start l) (l_size l))
                  (lock_data br'))) as Hin; [|by rewrite H0 in Hin].
  apply filter_In. split; [by apply list_elem_of_In|].
  unfold win_key. by rewrite Hm, Hf, Hp, !Z.eqb_refl.
Qed.

Lemma close_releases_windows_locks_witness :
  exists br' ev, brl_close_fnum quiet_env (record_of 1 sample_table) = Some (br', ev) /\
    forall l, l ∈ lock_data br' -> close_match (file_of 1) l = true ->
      lock_flav l = WINDOWS_LOCK -> IS_PENDING_LOCK (lock_type l) = true.
Proof.
  apply (close_releases_windows_locks quiet_env (record_of 1 sample_table)).
  - exact sample_reachable.
  - discriminate.
  - reflexivity.
Defined.

(** ** Where the code departs from what it means to do *)

(** Ranges that end at the top of the 64-bit offset space escape the
    overlap test: two clients are both granted a write lock on byte 2^64-1,
    although [brl_exclusive] holds for all other ranges. *)
Theorem overlap_missed_at_top :
  exists t1 t2 a b,
    after_lock 1 (2 ^ 64 - 2) 2 WRITE_LOCK WINDOWS_LOCK [] = Some (NT_STATUS_OK, t1) /\
    after_lock 2 (2 ^ 64 - 1) 1 WRITE_LOCK WINDOWS_LOCK t1 = Some (NT_STATUS_OK, t2) /\
    t2 = [a; b] /\ lock_type a = WRITE_LOCK /\ lock_type b = WRITE_LOCK /\
    context a <> context b /\ covers a (2 ^ 64 - 1) /\ covers b (2 ^ 64 - 1).
Proof.
  eexists _, _, _, _. split; [vm_compute; reflexivity|]. split; [vm_compute; reflexivity|].
  split; [reflexivity|]. unfold covers. simpl. split_and!; try done; lia.
Qed.

(** A POSIX lock whose range ends at 2^64 is granted but cannot be
    released: the unlock request for the same range is refused. *)
Theorem posix_lock_not_unlockable :
  exists t1, after_lock 1 (2 ^ 64 - 2) 2 WRITE_LOCK POSIX_LOCK [] = Some (NT_STATUS_OK, t1) /\
    t1 <> [] /\ after_unlock 1 (2 ^ 64 - 2) 2 POSIX_LOCK t1 = Some (false, t1).
Proof. eexists. split_and!; [vm_compute; reflexivity|done|vm_compute; reflexivity]. Qed.

(** A pending POSIX request gives up the lock its owner holds: two clients
    hold read locks, the second one asks for a write lock and queues a pending
    entry, and the first one is then granted a write lock on the bytes whose
    read lock the second one never released. *)
Theorem pending_posix_drops_held_lock :
  exists t1 t2 t3 t4 t5,
    after_lock 2 0 10 READ_LOCK POSIX_LOCK [] = Some (NT_STATUS_OK, t1) /\
    after_lock 1 0 10 READ_LOCK POSIX_LOCK t1 = Some (NT_STATUS_OK, t2) /\
    after_lock 2 0 10 WRITE_LOCK POSIX_LOCK t2 = Some (NT_STATUS_FILE_LOCK_CONFLICT, t3) /\
    holds t3 (Lock_context 2 7 (client 2)) 5 READ_LOCK /\
    after_lock 2 0 10 PENDING_WRITE_LOCK POSIX_LOCK t3 = Some (NT_STATUS_OK, t4) /\
    after_lock 1 0 10 WRITE_LOCK POSIX_LOCK t4 = Some (NT_STATUS_OK, t5) /\
    ~ holds t5 (Lock_context 2 7 (client 2)) 5 READ_LOCK.
Proof.
  eexists _, _, _, _, _. do 3 (split; [vm_compute; reflexivity|]).
  split; [eexists; split; [left|]; simpl; unfold covers; simpl; split_and!; try done; lia|].
  do 2 (split; [vm_compute; reflexivity|]).
  intros (l & Hl & _ & Hc & Ht & _). rewrite !elem_of_cons in Hl.
  destruct Hl as [->|[->|Hl]]; [done..|by apply not_elem_of_nil in Hl].
Qed.
