(* ===== verification/BrlDb.v ===== *)
(** * Byte-range locking: the lock database

    The part of brlock.c that reads and writes records of brlock.tdb, and the
    operations that work on a record from fetch to flush.  A record is the
    array of [lock_struct] followed by the 32-bit count of read oplocks, both
    copied with [memcpy]; the layout is that of the x86-64 ABI.  The database
    is a finite map from file ids to records with the sequence number that
    [TDB_SEQNUM] maintains. *)

From S2P Require Import Prelude.
From S2P Require Import Errmap.
From S2P Require Import ServerId.
From S2P Require Import BrlModel.
From S2P Require Import BrlSafety.
From S2P Require Import BrlPosix.
From S2P Require Import BrlReach.
From stdpp Require Import prelude list gmap.

#[local] Open Scope Z_scope.

(** ** The object representation of [struct lock_struct] *)

Definition brl_type_to_Z (t : brl_type) : Z :=
  match t with
  | READ_LOCK => 0 | WRITE_LOCK => 1 | PENDING_READ_LOCK => 2 | PENDING_WRITE_LOCK => 3
  | UNLOCK_LOCK => 4
  end.

(** Only enumerators are ever stored. *)
Definition brl_type_of_Z (z : Z) : brl_type :=
  if z =? 0 then READ_LOCK else if z =? 1 then WRITE_LOCK
  else if z =? 2 then PENDING_READ_LOCK else if z =? 3 then PENDING_WRITE_LOCK
  else UNLOCK_LOCK.

Definition brl_flavour_to_Z (f : brl_flavour) : Z :=
  match f with WINDOWS_LOCK => 0 | POSIX_LOCK => 1 end.

Definition brl_flavour_of_Z (z : Z) : brl_flavour := if z =? 0 then WINDOWS_LOCK else POSIX_LOCK.

Definition sizeof_lock_struct : nat := 72.

(** The members in order, with the four bytes of padding after [tid]. *)
Definition lock_to_bytes (l : lock_struct) : list Z :=
  let c := context l in
  let p := ctx_pid c in
  le_bytes 8 (smblctx c) ++ le_bytes 4 (tid c) ++ le_bytes 4 0 ++
  le_bytes 8 (pid p) ++ le_bytes 4 (task_id p) ++ le_bytes 4 (vnn p) ++ le_bytes 8 (unique_id p) ++
  le_bytes 8 (l_start l) ++ le_bytes 8 (l_size l) ++ le_bytes 8 (fnum l) ++
  le_bytes 4 (brl_type_to_Z (lock_type l)) ++ le_bytes 4 (brl_flavour_to_Z (lock_flav l)).

(** The [n] bytes at offset [off], as an integer. *)
Definition field (bs : list Z) (off n : nat) : Z := le_value (take n (drop off bs)).

Definition lock_of_bytes (bs : list Z) : lock_struct :=
  Lock_struct
    (Lock_context (field bs 0 8) (field bs 8 4)
       (Server_id (field bs 16 8) (field bs 24 4) (field bs 28 4) (field bs 32 8)))
    (field bs 40 8) (field bs 48 8) (field bs 56 8)
    (brl_type_of_Z (field bs 64 4)) (brl_flavour_of_Z (field bs 68 4)).

(** ** Records *)

(** [talloc_memdup] of [n] structures. *)
Fixpoint locks_of_bytes (n : nat) (bs : list Z) : list lock_struct :=
  match n with
  | O => []
  | S n => lock_of_bytes (take sizeof_lock_struct bs) ::
           locks_of_bytes n (drop sizeof_lock_struct bs)
  end.

(** The failures the environment may produce. *)
Record db_env := Db_env {
  fetch_locked_ok : bool;   (** [dbwrap_fetch_locked] got the record lock *)
  memdup_ok : bool;         (** allocations succeed *)
  store_ok : bool           (** [dbwrap_record_store] and [_delete] succeed *)
}.

(** [Some (lock_data, num_read_oplocks)], or [None] for [false]. *)
Definition brl_parse_data (env : db_env) (data : list Z) : option (list lock_struct * Z) :=
  if (length data =? 0)%nat then Some ([], 0)
  else if negb (length data mod sizeof_lock_struct =? 4)%nat then None
  else
    let num_locks := (length data / sizeof_lock_struct)%nat in
    let data_len := (num_locks * sizeof_lock_struct)%nat in
    if negb (memdup_ok env) then None
    else Some (locks_of_bytes num_locks data, field data data_len 4).

Definition brl_print_data (locks : list lock_struct) (oplocks : Z) : list Z :=
  concat (lock_to_bytes <$> locks) ++ le_bytes 4 oplocks.

Record brlock_db := Brlock_db {
  db_data : gmap Z (list Z);
  db_seqnum : Z    (** int *)
}.

(** Every modification increments the sequence number. *)
Definition db_store (db : brlock_db) (k : Z) (v : list Z) : brlock_db :=
  Brlock_db (<[k := v]> (db_data db)) (u32 (db_seqnum db + 1)).

Definition db_delete (db : brlock_db) (k : Z) : brlock_db :=
  Brlock_db (delete k (db_data db)) (u32 (db_seqnum db + 1)).

(** [dbwrap_record_get_value]: a missing record is empty. *)
Definition db_value (db : brlock_db) (k : Z) : list Z := default [] (db_data db !! k).

Definition brl_get_locks (env : db_env) (db : brlock_db) (f : files_struct)
    : option byte_range_lock :=
  if negb (memdup_ok env) then None
  else if negb (fetch_locked_ok env) then None
  else
    '(locks, oplocks) ← brl_parse_data env (db_value db (file_id f));
    Some (Byte_range_lock f false oplocks locks true).

(** The destructor of [br_lck]; [None] is the [smb_panic] after a failed
    database operation. *)
Definition byte_range_lock_flush (env : db_env) (db : brlock_db) (br_lck : byte_range_lock)
    : option brlock_db :=
  if negb (modified br_lck) then Some db
  else
    let locks := flush_locks (lock_data br_lck) in
    if negb (store_ok env) then None
    else if (length locks =? 0)%nat && (num_read_oplocks br_lck =? 0) then
      Some (db_delete db (file_id (fsp br_lck)))
    else
      Some (db_store db (file_id (fsp br_lck)) (brl_print_data locks (num_read_oplocks br_lck))).

(** ** Durable handles *)

(** The result, the open file and the database afterwards; [None] is a
    panic. *)
Definition brl_mark_disconnected (env : db_env) (db : brlock_db) (f : files_struct)
    : option (bool * brlock_db) :=
  match op f with
  | None => Some (false, db)
  | Some g =>
      if negb (durable g) then Some (false, db)
      else if current_lock_count f =? 0 then Some (true, db)
      else
        match brl_get_locks env db f with
        | None => Some (false, db)
        | Some br =>
            let '(locks, ok) := mark_loop f (open_persistent_id g) (lock_data br) in
            (* on a mismatch the record is freed unmodified *)
            db' ← byte_range_lock_flush env db (with_locks br locks ok);
            Some (ok, db')
        end
  end.

Definition brl_reconnect_disconnected (env : db_env) (db : brlock_db) (f : files_struct)
    : option (bool * files_struct * brlock_db) :=
  match op f with
  | None => Some (false, f, db)
  | Some g =>
      if negb (durable g) then Some (false, f, db)
      else
        match brl_get_locks env db f with
        | None => Some (false, f, db)
        | Some br =>
            if (brl_num_locks br =? 0)%nat then
              db' ← byte_range_lock_flush env db br; Some (true, f, db')
            else
              let '(locks, ok) := reconnect_loop f (open_persistent_id g) (lock_data br) in
              let f' := if ok then set_current_lock_count f (Z.of_nat (brl_num_locks br)) else f in
              db' ← byte_range_lock_flush env db (with_locks br locks ok);
              Some (ok, f', db')
        end
  end.

(** ** Traversal and revalidation *)

(** [brl_traverse_fn] on one record: the callback on every lock, in order.
    The trailing oplock count is cut off by the integer division. *)
Definition traverse_record {S : Type} (fn : S -> Z -> lock_struct -> S) (st : S) (k : Z)
    (value : list Z) : S :=
  foldl (fun s l => fn s k l) st
        (locks_of_bytes (length value / sizeof_lock_struct) value).

(** [brl_forall]: the state after the traversal and the number of records. *)
Definition brl_forall {S : Type} (fn : S -> Z -> lock_struct -> S) (st : S) (db : brlock_db)
    : S * nat :=
  (foldl (fun s kv => traverse_record fn s kv.1 kv.2) st (map_to_list (db_data db)),
   size (db_data db)).

Definition brl_revalidate_collect (pids : list server_id) (k : Z) (l : lock_struct)
    : list server_id :=
  if negb (IS_PENDING_LOCK (lock_type l)) then pids
  else pids ++ [ctx_pid (context l)].

(** [compare_procids] orders by [pid] alone. *)
Definition compare_procids (p1 p2 : server_id) : Z :=
  if pid p1 <? pid p2 then -1 else if pid p2 <? pid p1 then 1 else 0.

(** The sending loop over the sorted array. *)
Fixpoint revalidate_send (last_pid : server_id) (pids : list server_id) : list brl_event :=
  match pids with
  | [] => []
  | p :: rest =>
      if server_id_equal last_pid p then revalidate_send last_pid rest
      else messaging_send_unlock p :: revalidate_send p rest
  end.

(** [qsort] is an argument: any function that sorts by the comparison; nothing
    is sent when an allocation fails. *)
Definition brl_revalidate (alloc_ok : bool) (qsort : list server_id -> list server_id)
    (db : brlock_db) : list brl_event :=
  let pids := (brl_forall brl_revalidate_collect [] db).1 in
  if negb alloc_ok then []
  else if (length pids =? 0)%nat then []
  else revalidate_send (Server_id 0 0 0 0) (qsort pids).

(** ** Cleanup of disconnected handles *)

Definition cleanup_blocked (open_persistent_id0 : Z) (l : lock_struct) : bool :=
  negb (server_id_is_disconnected (ctx_pid (context l))) ||
  negb (smblctx (context l) =? open_persistent_id0).

Definition brl_cleanup_disconnected (env : db_env) (db : brlock_db) (fid : Z)
    (open_persistent_id0 : Z) : bool * brlock_db :=
  if negb (fetch_locked_ok env) then (false, db)
  else
    match db_data db !! fid with
    | None => (true, db)
    | Some val =>
        let num := (length val / sizeof_lock_struct)%nat in
        if existsb (cleanup_blocked open_persistent_id0) (locks_of_bytes num val) then (false, db)
        else if negb (store_ok env) then (false, db)
        else (true, db_delete db fid)
    end.

(** ** Print and parse *)

(** Every field fits its C type. *)
Definition wf_lock (l : lock_struct) : Prop :=
  in_w 64 (smblctx (context l)) /\ in_w 32 (tid (context l)) /\
  in_w 64 (pid (ctx_pid (context l))) /\ in_w 32 (task_id (ctx_pid (context l))) /\
  in_w 32 (vnn (ctx_pid (context l))) /\ in_w 64 (unique_id (ctx_pid (context l))) /\
  in_w 64 (l_start l) /\ in_w 64 (l_size l) /\ in_w 64 (fnum l).

Lemma length_lock_to_bytes (l : lock_struct) : length (lock_to_bytes l) = sizeof_lock_struct.
Proof. unfold lock_to_bytes. by rewrite !length_app, !length_le_bytes. Qed.

(** A field at offset 0, and a field behind a prefix. *)
Lemma field_here (n : nat) (z : Z) (bs : list Z) :
  0 <= z < 256 ^ Z.of_nat n -> field (le_bytes n z ++ bs) 0 n = z.
Proof.
  intros Hz. unfold field. rewrite drop_0, le_bytes_app_take. by apply le_roundtrip.
Qed.

Lemma field_skip (n m off k : nat) (z : Z) (bs : list Z) :
  off = (n + m)%nat -> field (le_bytes n z ++ bs) off k = field bs m k.
Proof.
  intros ->. unfold field. rewrite <- drop_drop, le_bytes_app_drop. done.
Qed.

Lemma brl_type_roundtrip (t : brl_type) : brl_type_of_Z (brl_type_to_Z t) = t.
Proof. by destruct t. Qed.

Lemma brl_flavour_roundtrip (f : brl_flavour) : brl_flavour_of_Z (brl_flavour_to_Z f) = f.
Proof. by destruct f. Qed.

Lemma brl_type_to_Z_range (t : brl_type) : 0 <= brl_type_to_Z t < 256 ^ Z.of_nat 4.
Proof. destruct t; simpl; lia. Qed.

Lemma brl_flavour_to_Z_range (f : brl_flavour) : 0 <= brl_flavour_to_Z f < 256 ^ Z.of_nat 4.
Proof. destruct f; simpl; lia. Qed.

Lemma field_app (bs bs' : list Z) (off n : nat) :
  (off + n <= length bs)%nat -> field (bs ++ bs') off n = field bs off n.
Proof.
  intros H. unfold field. rewrite drop_app_le by lia.
  by rewrite take_app_le by (rewrite length_drop; lia).
Qed.

(** Moves to the field at the offset and reads it. *)
Ltac solve_field :=
  repeat match goal with
  | |- context [field (le_bytes ?n ?z ++ ?bs) ?off ?k] =>
      lazymatch eval vm_compute in (n <=? off)%nat with
      | true => let m := eval vm_compute in (off - n)%nat in
                rewrite (field_skip n m off k z bs) by reflexivity
      end
  end;
  rewrite field_here by done.

Lemma lock_roundtrip (l : lock_struct) (bs : list Z) :
  wf_lock l -> lock_of_bytes (lock_to_bytes l ++ bs) = l.
Proof.
  unfold wf_lock, in_w.
  change (2 ^ 64) with (256 ^ Z.of_nat 8). change (2 ^ 32) with (256 ^ Z.of_nat 4).
  pose proof (brl_type_to_Z_range (lock_type l)) as Ht.
  pose proof (brl_flavour_to_Z_range (lock_flav l)) as Hf.
  destruct l as [[s t [p k v u]] st sz fn ty fl]. unfold lock_of_bytes, lock_to_bytes.
  cbn [context smblctx tid ctx_pid pid task_id vnn unique_id l_start l_size fnum lock_type
       lock_flav] in *.
  intros (H1 & H2 & H3 & H4 & H5 & H6 & H7 & H8 & H9).
  rewrite <- !app_assoc.
  f_equal; [f_equal; [| |f_equal]|..]; solve_field; try done.
  - apply brl_type_roundtrip.
  - apply brl_flavour_roundtrip.
Qed.

Lemma locks_roundtrip (locks : list lock_struct) (bs : list Z) :
  Forall wf_lock locks ->
  locks_of_bytes (length locks) (concat (lock_to_bytes <$> locks) ++ bs) = locks.
Proof.
  induction 1 as [|l locks Hl _ IH]; [done|]. cbn [length locks_of_bytes].
  rewrite fmap_cons. cbn [concat]. rewrite <- app_assoc.
  pose proof (length_lock_to_bytes l) as Hlen. f_equal.
  - rewrite <- Hlen, take_app_length. rewrite <- (app_nil_r (lock_to_bytes l)).
    by apply lock_roundtrip.
  - rewrite <- Hlen at 1. by rewrite drop_app_length.
Qed.

Lemma length_print (locks : list lock_struct) :
  length (concat (lock_to_bytes <$> locks)) = (length locks * sizeof_lock_struct)%nat.
Proof.
  induction locks as [|l locks IH]; [done|].
  rewrite fmap_cons. cbn [concat length]. rewrite length_app, length_lock_to_bytes, IH. lia.
Qed.

Lemma parse_print (env : db_env) (locks : list lock_struct) (oplocks : Z) :
  memdup_ok env = true -> Forall wf_lock locks -> in_w 32 oplocks ->
  brl_parse_data env (brl_print_data locks oplocks) = Some (locks, oplocks).
Proof.
  intros Hm Hl Ho. unfold brl_parse_data, brl_print_data.
  rewrite length_app, length_print, length_le_bytes, Hm.
  assert (sizeof_lock_struct = 72%nat) as Hsz by done.
  destruct (_ =? 0)%nat eqn:E0; [apply Nat.eqb_eq in E0; lia|].
  rewrite (Nat.add_comm _ 4), Nat.Div0.mod_add, Nat.div_add by lia.
  rewrite (Nat.mod_small 4), (Nat.div_small 4) by lia. simpl negb. cbn [Nat.add].
  f_equal. f_equal.
  - by apply locks_roundtrip.
  - unfold field. rewrite <- length_print, drop_app_length.
    rewrite <- (app_nil_r (le_bytes 4 oplocks)), le_bytes_app_take.
    by apply le_roundtrip.
Qed.

(** ** Flush *)

Lemma flush_loop_alive (fuel i : nat) (locks : list lock_struct) :
  Forall (fun l => alive l = true) locks -> flush_loop fuel i locks = locks.
Proof.
  intros H. revert i. induction fuel as [|fuel IH]; intros i; simpl; [done|].
  destruct (locks !! i) as [l|] eqn:E; [|done]. destruct (last locks); [|done].
  rewrite Forall_forall in H. apply list_elem_of_lookup_2 in E. apply H in E.
  unfold alive in E. apply negb_true_iff in E. by rewrite E.
Qed.

Lemma flush_wf (locks : list lock_struct) :
  Forall wf_lock locks -> Forall wf_lock (flush_locks locks).
Proof.
  intros H. rewrite flush_locks_perm. rewrite Forall_forall in *. intros l Hl. apply H.
  eapply elem_of_sublist; [exact Hl|apply filter_sublist].
Qed.

Definition env_ok (env : db_env) : Prop :=
  fetch_locked_ok env = true /\ memdup_ok env = true /\ store_ok env = true.

(** What a reader finds after a flush of a modified record. *)
Lemma get_after_flush (env : db_env) (db : brlock_db) (br : byte_range_lock) (f : files_struct) :
  env_ok env -> modified br = true -> Forall wf_lock (lock_data br) ->
  in_w 32 (num_read_oplocks br) -> file_id f = file_id (fsp br) ->
  exists db', byte_range_lock_flush env db br = Some db' /\
    brl_get_locks env db' f =
      Some (Byte_range_lock f false (num_read_oplocks br) (flush_locks (lock_data br)) true) /\
    forall k, k <> file_id (fsp br) -> db_data db' !! k = db_data db !! k.
Proof.
  intros (Hf & Hm & Hs) Hmod Hwf Ho Hid. unfold byte_range_lock_flush, brl_get_locks.
  rewrite Hmod, Hs, Hm, Hf, Hid. simpl.
  destruct (_ && _) eqn:E.
  - apply andb_true_iff in E as [E1%Nat.eqb_eq E2%Z.eqb_eq]. eexists. split; [done|]. split.
    + unfold db_value, db_delete. simpl. rewrite lookup_delete_eq. simpl.
      rewrite E2. apply nil_length_inv in E1. by rewrite E1.
    + intros k Hk. unfold db_delete. simpl. by rewrite lookup_delete_ne.
  - eexists. split; [done|]. split.
    + unfold db_value, db_store. simpl. rewrite lookup_insert_eq. simpl.
      rewrite parse_print; [done|done|by apply flush_wf|done].
    + intros k Hk. unfold db_store. simpl. by rewrite lookup_insert_ne.
Qed.

(** ** Disconnect and reconnect *)

(** The entry of a disconnected handle, and the entry handed to [f]. *)
Definition disconnected (smb : Z) (l : lock_struct) : lock_struct :=
  Lock_struct (Lock_context smb TID_FIELD_INVALID server_id_set_disconnected)
    (l_start l) (l_size l) FNUM_FIELD_INVALID (lock_type l) (lock_flav l).

Definition hand_over (f : files_struct) (smb : Z) (l : lock_struct) : lock_struct :=
  Lock_struct (Lock_context smb (cnum f) (self f))
    (l_start l) (l_size l) (fsp_fnum f) (lock_type l) (lock_flav l).

Lemma mark_loop_map (f : files_struct) (smb : Z) (locks : list lock_struct) :
  Forall (fun l => context l = Lock_context smb (cnum f) (self f) /\ fnum l = fsp_fnum f) locks ->
  mark_loop f smb locks = (disconnected smb <$> locks, true).
Proof.
  induction 1 as [|l locks [Hc Hn] _ IH]; [done|]. simpl. rewrite Hc, Hn. simpl.
  rewrite !Z.eqb_refl, (proj2 (server_id_equal_spec _ _) eq_refl). simpl. by rewrite IH.
Qed.

Lemma reconnect_loop_map (f : files_struct) (smb : Z) (locks : list lock_struct) :
  reconnect_loop f smb (disconnected smb <$> locks) = (hand_over f smb <$> locks, true).
Proof.
  induction locks as [|l locks IH]; [done|]. rewrite !fmap_cons.
  cbn -[fmap list_fmap Z.eqb]. rewrite !Z.eqb_refl. cbn -[fmap list_fmap]. by rewrite IH.
Qed.

Lemma disconnected_alive (smb : Z) (locks : list lock_struct) :
  Forall (fun l => alive l = true) (disconnected smb <$> locks).
Proof. apply Forall_fmap, Forall_forall. done. Qed.

Lemma disconnected_wf (smb : Z) (locks : list lock_struct) :
  in_w 64 smb -> Forall wf_lock locks -> Forall wf_lock (disconnected smb <$> locks).
Proof.
  intros Hs H. apply Forall_fmap. eapply Forall_impl; [exact H|].
  intros l (_ & _ & _ & _ & _ & _ & ? & ? & _). unfold wf_lock, in_w in *. simpl.
  unfold UINT64_MAX, UINT32_MAX, NONCLUSTER_VNN, SERVERID_UNIQUE_ID_NOT_TO_VERIFY,
    TID_FIELD_INVALID, FNUM_FIELD_INVALID. lia.
Qed.

(** A file whose record holds exactly the locks of its durable handle. *)
Record durable_owner (env : db_env) (db : brlock_db) (f : files_struct) (g : open_global)
    (locks : list lock_struct) (oplocks : Z) : Prop := {
  do_op : op f = Some g;
  do_durable : durable g = true;
  do_id : in_w 64 (open_persistent_id g);
  do_count : current_lock_count f <> 0;
  do_record : brl_get_locks env db f = Some (Byte_range_lock f false oplocks locks true);
  do_locks : locks <> [];
  do_wf : Forall wf_lock locks;
  do_oplocks : in_w 32 oplocks;
  do_owner : Forall (fun l => context l = Lock_context (open_persistent_id g) (cnum f) (self f) /\
                              fnum l = fsp_fnum f) locks
}.

(** C32. Durable handles: disconnecting a durable handle and reconnecting it,
    possibly in another server process and under another tree connect and
    handle number, succeeds and leaves in the database exactly the locks of the
    handle, with their ranges and types, owned by the new connection. *)
Theorem durable_reconnect_keeps_locks (env : db_env) (db : brlock_db) (f f' : files_struct)
    (g : open_global) (locks : list lock_struct) (oplocks : Z) :
  env_ok env -> durable_owner env db f g locks oplocks ->
  file_id f' = file_id f -> op f' = Some g -> pid (self f') <> 0 ->
  Forall wf_lock (hand_over f' (open_persistent_id g) <$> locks) ->
  exists db1 f'' db2,
    brl_mark_disconnected env db f = Some (true, db1) /\
    brl_reconnect_disconnected env db1 f' = Some (true, f'', db2) /\
    current_lock_count f'' = Z.of_nat (length locks) /\
    brl_get_locks env db2 f'' =
      Some (Byte_range_lock f'' false oplocks (hand_over f' (open_persistent_id g) <$> locks) true).
Proof.
  intros Henv [Hop Hdur Hpid Hcnt Hrec Hne Hwf Ho Hown] Hid Hop' Hself Hwf'.
  set (smb := open_persistent_id g) in *.
  destruct (get_after_flush env db (Byte_range_lock f true oplocks (disconnected smb <$> locks) true)
              f' Henv eq_refl (disconnected_wf smb locks Hpid Hwf) Ho Hid) as (db1 & Hf1 & Hg1 & _).
  unfold flush_locks in Hg1. rewrite flush_loop_alive in Hg1 by apply disconnected_alive.
  set (f'' := set_current_lock_count f' (Z.of_nat (length locks))).
  destruct (get_after_flush env db1 (Byte_range_lock f' true oplocks (hand_over f' smb <$> locks) true)
              f'' Henv eq_refl Hwf' Ho eq_refl) as (db2 & Hf2 & Hg2 & _).
  unfold flush_locks in Hg2. rewrite flush_loop_alive in Hg2.
  2: { apply Forall_fmap, Forall_forall. intros l _. by apply alive_pid. }
  exists db1, f'', db2. split_and!; [| |done|exact Hg2].
  - unfold brl_mark_disconnected. rewrite Hop, Hdur, Hrec. simpl.
    destruct (Z.eqb_spec (current_lock_count f) 0); [done|]. fold smb.
    rewrite mark_loop_map by done. unfold with_locks. simpl in *. by rewrite Hf1.
  - unfold brl_reconnect_disconnected. rewrite Hop', Hdur, Hg1. simpl. fold smb.
    unfold brl_num_locks. simpl. rewrite length_fmap.
    destruct (Nat.eqb_spec (length locks) 0) as [E|_]; [by apply nil_length_inv in E|].
    rewrite reconnect_loop_map. unfold with_locks. simpl in *. rewrite Hf2. done.
Qed.

Definition ok_env : db_env := Db_env true true true.

Definition durable_file (cn fn : Z) (who : server_id) (n : Z) : files_struct :=
  Files_struct 1 cn fn who zero_lock n (Some (Open_global 42 true)).

Definition durable_locks : list lock_struct :=
  [Lock_struct (Lock_context 42 7 (Server_id 9 0 NONCLUSTER_VNN 5)) 10 20 101 WRITE_LOCK WINDOWS_LOCK;
   Lock_struct (Lock_context 42 7 (Server_id 9 0 NONCLUSTER_VNN 5)) 50 1 101 READ_LOCK WINDOWS_LOCK].

Lemma durable_reconnect_keeps_locks_witness :
  exists db1 f'' db2,
    brl_mark_disconnected ok_env (db_store (Brlock_db ∅ 0) 1 (brl_print_data durable_locks 3))
      (durable_file 7 101 (Server_id 9 0 NONCLUSTER_VNN 5) 2) = Some (true, db1) /\
    brl_reconnect_disconnected ok_env db1
      (durable_file 8 202 (Server_id 11 0 NONCLUSTER_VNN 6) 0) = Some (true, f'', db2) /\
    current_lock_count f'' = 2 /\
    brl_get_locks ok_env db2 f'' =
      Some (Byte_range_lock f'' false 3
        (hand_over (durable_file 8 202 (Server_id 11 0 NONCLUSTER_VNN 6) 0) 42 <$> durable_locks) true).
Proof.
  apply (durable_reconnect_keeps_locks ok_env
           (db_store (Brlock_db ∅ 0) 1 (brl_print_data durable_locks 3))
           (durable_file 7 101 (Server_id 9 0 NONCLUSTER_VNN 5) 2)
           (durable_file 8 202 (Server_id 11 0 NONCLUSTER_VNN 6) 0) (Open_global 42 true)
           durable_locks 3).
  - by repeat split.
  - constructor; try reflexivity; try discriminate; try (unfold in_w; simpl; lia).
    + repeat (apply Forall_cons; split); try apply Forall_nil_2;
      unfold wf_lock, in_w; simpl; unfold NONCLUSTER_VNN; lia.
    + repeat (apply Forall_cons; split); by try apply Forall_nil_2.
  - reflexivity.
  - reflexivity.
  - discriminate.
  - repeat (apply Forall_cons; split); try apply Forall_nil_2;
      unfold wf_lock, in_w; simpl; unfold NONCLUSTER_VNN; lia.
Defined.

(** ** Revalidation *)

Lemma revalidate_send_spec (pids : list server_id) (last_pid p : server_id) :
  (messaging_send_unlock p ∈ revalidate_send last_pid pids -> p ∈ pids) /\
  (p ∈ pids -> p = last_pid \/ messaging_send_unlock p ∈ revalidate_send last_pid pids).
Proof.
  revert last_pid. induction pids as [|q pids IH]; intros last_pid; simpl.
  { split; intros H; by apply elem_of_nil in H. }
  destruct (server_id_equal last_pid q) eqn:E.
  - apply server_id_equal_spec in E as ->. destruct (IH q) as [H1 H2]. split.
    + intros H. right. auto.
    + intros [->|H]%elem_of_cons; auto.
  - destruct (IH q) as [H1 H2]. split.
    + intros [H|H]%elem_of_cons; [injection H as ->; by left|right; auto].
    + intros [->|H]%elem_of_cons; [right; by left|].
      destruct (H2 H) as [->|H']; right; [by left|by right].
Qed.

(** The locks stored in a record. *)
Definition record_locks (value : list Z) : list lock_struct :=
  locks_of_bytes (length value / sizeof_lock_struct) value.

Definition waits (p : server_id) (l : lock_struct) : Prop :=
  IS_PENDING_LOCK (lock_type l) = true /\ ctx_pid (context l) = p.

Lemma collect_record (p : server_id) (k : Z) (locks : list lock_struct) (acc : list server_id) :
  p ∈ foldl (fun s l => brl_revalidate_collect s k l) acc locks <->
  p ∈ acc \/ exists l, l ∈ locks /\ waits p l.
Proof.
  revert acc. induction locks as [|l locks IH]; intros acc; simpl.
  { split; [by left|]. intros [?|(l & Hl & _)]; [done|by apply elem_of_nil in Hl]. }
  rewrite IH. unfold brl_revalidate_collect, waits.
  setoid_rewrite elem_of_cons.
  destruct (IS_PENDING_LOCK (lock_type l)) eqn:E; simpl.
  - rewrite elem_of_app, list_elem_of_singleton. split.
    + intros [[?|H]|(m & ? & ?)]; [by left|right; exists l; auto|right; eauto].
    + intros [?|(m & [->|?] & ? & ?)]; [auto|auto|right; eauto].
  - split.
    + intros [?|(m & ? & ?)]; [by left|right; eauto].
    + intros [?|(m & [->|?] & ? & ?)]; [auto|congruence|right; eauto].
Qed.

Lemma collect_db (p : server_id) (kvs : list (Z * list Z)) (acc : list server_id) :
  p ∈ foldl (fun s kv => traverse_record brl_revalidate_collect s kv.1 kv.2) acc kvs <->
  p ∈ acc \/ exists kv l, kv ∈ kvs /\ l ∈ record_locks kv.2 /\ waits p l.
Proof.
  revert acc. induction kvs as [|kv kvs IH]; intros acc; simpl.
  { split; [by left|]. intros [?|(kv & l & Hkv & _)]; [done|by apply elem_of_nil in Hkv]. }
  rewrite IH. unfold traverse_record at 1. rewrite collect_record. fold (record_locks kv.2).
  setoid_rewrite elem_of_cons. split.
  - intros [[?|(l & ? & ?)]|(kv' & l & ? & ? & ?)]; [by left|right; eauto 10|right; eauto 10].
  - intros [?|(kv' & l & [->|?] & ? & ?)]; [by left; left|left; right; eauto|right; eauto 10].
Qed.

(** Revalidation wakes every waiter and nobody else: a retry message goes
    to a process (other than the all-zero id) exactly when some record of the
    database holds a pending lock of that process, whatever order [qsort]
    leaves among equal pids. *)
Theorem brl_revalidate_wakes (qsort : list server_id -> list server_id) (db : brlock_db)
    (p : server_id) :
  (forall pids, qsort pids ≡ₚ pids) -> p <> Server_id 0 0 0 0 ->
  messaging_send_unlock p ∈ brl_revalidate true qsort db <->
  exists k value l, db_data db !! k = Some value /\ l ∈ record_locks value /\ waits p l.
Proof.
  intros Hq Hp. unfold brl_revalidate. simpl negb.
  set (pids := (brl_forall brl_revalidate_collect [] db).1).
  assert (p ∈ pids <-> exists k value l,
            db_data db !! k = Some value /\ l ∈ record_locks value /\ waits p l) as Hpids.
  { unfold pids, brl_forall. simpl. rewrite collect_db. split.
    - intros [H|([k v] & l & Hkv & ? & ?)]; [by apply elem_of_nil in H|].
      apply elem_of_map_to_list in Hkv. by exists k, v, l.
    - intros (k & v & l & Hkv & ? & ?). right. exists (k, v), l.
      by rewrite elem_of_map_to_list. }
  rewrite <- Hpids. destruct (Nat.eqb_spec (length pids) 0) as [E|_].
  { apply nil_length_inv in E. rewrite E. split; intros H; by apply elem_of_nil in H. }
  destruct (revalidate_send_spec (qsort pids) (Server_id 0 0 0 0) p) as [H1 H2].
  assert (p ∈ qsort pids <-> p ∈ pids) as Hqp by by rewrite (Hq pids).
  rewrite Hqp in H1, H2. split; [done|]. intros H. by destruct (H2 H).
Qed.

Definition waiting_lock : lock_struct :=
  Lock_struct (Lock_context 1 7 (Server_id 9 0 NONCLUSTER_VNN 5)) 10 20 101 PENDING_WRITE_LOCK
              WINDOWS_LOCK.

Lemma brl_revalidate_wakes_witness :
  messaging_send_unlock (Server_id 9 0 NONCLUSTER_VNN 5) ∈
    brl_revalidate true id (db_store (Brlock_db ∅ 0) 1 (brl_print_data [waiting_lock] 0)).
Proof.
  apply (brl_revalidate_wakes id (db_store (Brlock_db ∅ 0) 1 (brl_print_data [waiting_lock] 0))
           (Server_id 9 0 NONCLUSTER_VNN 5)); [done|discriminate|].
  exists 1, (brl_print_data [waiting_lock] 0), waiting_lock.
  split; [reflexivity|]. split; [by left|]. by split.
Defined.
