(* ===== verification/PosixModel.v ===== *)
(** * System POSIX locks: the model of source3/locking/posix.c

    The layer below the byte-range lock table: how Windows and POSIX locks of
    clients are mapped to fcntl locks of the server process, how many locks a file
    has, and which file descriptors may be closed.

    The system calls go through [posix_env], whose answers may depend on all calls
    made before; the calls and their outcomes are recorded in order. A failing
    [SMB_ASSERT] or a call of [smb_panic] is [None]. *)

From S2P Require Import Prelude.
From S2P Require Import ServerId.
From S2P Require Import BrlModel.
From S2P Require Import Errmap.
From stdpp Require Import prelude list gmap.

#[local] Open Scope Z_scope.

Definition INT32_MAX : Z := 0x7FFFFFFF.
Definition INT64_MAX : Z := 0x7FFFFFFFFFFFFFFF.

(** ** The system *)

Inductive fcntl_type := F_RDLCK | F_WRLCK | F_UNLCK.

#[export] Instance fcntl_type_eq_dec : EqDecision fcntl_type.
Proof. solve_decision. Defined.

(** A call and whether it succeeded. *)
Inductive sys_event :=
| Sys_lock (fd offset count : Z) (type : fcntl_type) (ok : bool)
| Sys_close (fd : Z) (ok : bool).

(** What the code uses of the open file. *)
Record posix_fsp := Posix_fsp {
  pf_id : Z;                       (** fsp->file_id *)
  pf_fd : Z;                       (** fsp->fh->fd *)
  pf_can_write : bool;
  pf_use_ofd_locks : bool;
}.

(** The answers of the surroundings; those of the system calls are a success flag
    and errno. *)
Record posix_env := Posix_env {
  sys_lock : list sys_event -> Z -> Z -> Z -> fcntl_type -> bool * Z;
  sys_close : list sys_event -> Z -> bool * Z;
  sys_getlock : Z -> Z -> Z -> fcntl_type -> bool * Z * (Z * Z * fcntl_type);
  pe_locking : bool;               (** lp_locking and lp_posix_locking *)
  pe_talloc_ok : bool;
  pe_split_ok : bool;              (** memory for a range that is split *)
}.

(** ** Lock types and ranges *)

Definition map_posix_lock_type (f : posix_fsp) (t : brl_type) : fcntl_type :=
  if is_type t WRITE_LOCK && negb (pf_can_write f) then F_RDLCK
  else if is_type t READ_LOCK then F_RDLCK else F_WRLCK.

(** off_t has 64 bits: ~(0x4 << 60 << 1). *)
Definition max_positive_lock_offset : Z := 0x7FFFFFFFFFFFFFFF.

(** The offset and count for the system, [None] for False. *)
Definition posix_lock_in_range (u_offset u_count : Z) : option (Z * Z) :=
  if u_count =? 0 then None
  else if negb (clear_bits u_offset max_positive_lock_offset =? 0) then None
  else
    let offset := u_offset in
    let count := if negb (clear_bits u_count max_positive_lock_offset =? 0)
                 then max_positive_lock_offset else u_count in
    let count := if (INT64_MAX - count <? offset) || (max_positive_lock_offset <? offset + count)
                 then max_positive_lock_offset - offset else count in
    if count =? 0 then None else Some (offset, count).

(** ** System locks *)

Definition call_lock (env : posix_env) (h : list sys_event) (f : posix_fsp) (offset count : Z)
    (type : fcntl_type) : bool * Z * list sys_event :=
  let '(ret, err) := sys_lock env h (pf_fd f) offset count type in
  (ret, err, h ++ [Sys_lock (pf_fd f) offset count type ret]).

Definition ENOLCK : Z := 37.

Definition strange_errno (err : Z) : bool := (err =? EFBIG) || (err =? ENOLCK) || (err =? EINVAL).

(** The result, errno and the calls. *)
Definition posix_fcntl_lock (env : posix_env) (h : list sys_event) (f : posix_fsp) (offset count : Z)
    (type : fcntl_type) : bool * Z * list sys_event :=
  let '(ret, err, h) := call_lock env h f offset count type in
  if negb ret && strange_errno err then
    if negb (clear_bits offset 0x7fffffff =? 0) then (true, err, h)
    else if negb (clear_bits count 0x7fffffff =? 0)
    then call_lock env h f offset (Z.land count 0x7fffffff) type
    else (ret, err, h)
  else (ret, err, h).

Definition posix_fcntl_getlock (env : posix_env) (f : posix_fsp) (offset count : Z) (type : fcntl_type)
    : bool * (Z * Z * fcntl_type) :=
  let '(ret, err, out) := sys_getlock env (pf_fd f) offset count type in
  let '(offset', count', type') := out in
  if negb ret && strange_errno err then
    if negb (clear_bits offset' 0x7fffffff =? 0) then (true, out)
    else if negb (clear_bits count' 0x7fffffff =? 0)
    then let '(ret, _, out) := sys_getlock env (pf_fd f) offset' (Z.land count' 0x7fffffff) type' in (ret, out)
    else (ret, out)
  else (ret, out).

(** Whether the range is locked by another process, and offset, count and type as
    the function leaves them. *)
Definition is_posix_locked (env : posix_env) (f : posix_fsp) (u_offset u_count : Z) (t : brl_type)
    (flav : brl_flavour) : bool * Z * Z * brl_type :=
  match posix_lock_in_range u_offset u_count with
  | None => (false, u_offset, u_count, t)
  | Some (offset, count) =>
      let '(ret, (offset, count, type)) := posix_fcntl_getlock env f offset count (map_posix_lock_type f t) in
      if negb ret then (false, u_offset, u_count, t)
      else if bool_decide (type = F_UNLCK) then (false, u_offset, u_count, t)
      else if is_flav flav POSIX_LOCK
      then (true, u64 offset, u64 count, if bool_decide (type = F_RDLCK) then READ_LOCK else WRITE_LOCK)
      else (true, u_offset, u_count, t)
  end.

(** ** The pending close database

    Three kinds of keys: a file with the letter r for the number of locks, a file
    for the descriptors to be closed, and a lock context. *)
Record posix_db := Posix_db {
  lock_ref_count : gmap Z Z;
  fds_to_close : gmap Z (list Z);
  posix_contexts : gset Z;
}.

Record posix_state := Posix_state { pdb : posix_db; hist : list sys_event }.

(** [dbwrap_change_int32_atomic] with 0 for a missing record: the old value and the
    new database. *)
Definition change_ref_count (id change : Z) (db : posix_db) : Z * posix_db :=
  let val := default 0 (lock_ref_count db !! id) in
  (val, Posix_db (<[id := i32 (val + change)]> (lock_ref_count db)) (fds_to_close db) (posix_contexts db)).

Definition increment_lock_ref_count (f : posix_fsp) (db : posix_db) : option posix_db :=
  let '(old, db) := change_ref_count (pf_id f) 1 db in
  if old <? INT32_MAX then Some db else None.

Definition decrement_lock_ref_count (f : posix_fsp) (db : posix_db) : option posix_db :=
  let '(old, db) := change_ref_count (pf_id f) (-1) db in
  if 0 <? old then Some db else None.

Definition get_lock_ref_count (f : posix_fsp) (db : posix_db) : Z := default 0 (lock_ref_count db !! pf_id f).

Definition delete_lock_ref_count (f : posix_fsp) (db : posix_db) : posix_db :=
  Posix_db (delete (pf_id f) (lock_ref_count db)) (fds_to_close db) (posix_contexts db).

Definition get_posix_pending_close_entries (f : posix_fsp) (db : posix_db) : list Z :=
  default [] (fds_to_close db !! pf_id f).

Definition add_fd_to_close_entry (env : posix_env) (f : posix_fsp) (db : posix_db) : option posix_db :=
  if negb (pe_talloc_ok env) then None
  else Some (Posix_db (lock_ref_count db)
               (<[pf_id f := get_posix_pending_close_entries f db ++ [pf_fd f]]> (fds_to_close db))
               (posix_contexts db)).

Definition delete_close_entries (f : posix_fsp) (db : posix_db) : posix_db :=
  Posix_db (lock_ref_count db) (delete (pf_id f) (fds_to_close db)) (posix_contexts db).

Definition call_close (env : posix_env) (h : list sys_event) (fd : Z) : bool * list sys_event :=
  let ok := (sys_close env h fd).1 in (ok, h ++ [Sys_close fd ok]).

(** Closes the descriptors; the result tells whether all calls succeeded. *)
Fixpoint close_fds (env : posix_env) (h : list sys_event) (fds : list Z) (ok : bool) : bool * list sys_event :=
  match fds with
  | [] => (ok, h)
  | fd :: fds => let '(r, h) := call_close env h fd in close_fds env h fds (ok && r)
  end.

(** True for 0. *)
Definition fd_close_posix (env : posix_env) (f : posix_fsp) (s : posix_state) : option (bool * posix_state) :=
  if negb (pe_locking env) || pf_use_ofd_locks f then
    let '(ok, h) := call_close env (hist s) (pf_fd f) in Some (ok, Posix_state (pdb s) h)
  else if negb (get_lock_ref_count f (pdb s) =? 0) then
    match add_fd_to_close_entry env f (pdb s) with
    | Some db => Some (true, Posix_state db (hist s))
    | None => None
    end
  else
    let fds := get_posix_pending_close_entries f (pdb s) in
    let '(saved, h) := close_fds env (hist s) fds true in
    let db := if (length fds =? 0)%nat then pdb s else delete_close_entries f (pdb s) in
    let db := delete_lock_ref_count f db in
    let '(ok, h) := call_close env h (pf_fd f) in
    Some (ok && saved, Posix_state db h).

(** ** Ranges that do not overlap existing locks *)

Record lock_list := Lock_list { ll_start : Z; ll_size : Z }.

Definition ll_end (r : lock_list) : Z := ll_start r + ll_size r.

(** What the walk over the list makes of it: [Ll_null] when memory runs out. *)
Inductive ll_result := Ll (l : list lock_list) | Ll_null | Ll_panic.

Definition ll_cons (r : lock_list) (x : ll_result) : ll_result :=
  match x with Ll l => Ll (r :: l) | _ => x end.

(** The walk over the list for one lock. *)
Fixpoint ll_walk (mem : bool) (lock : lock_struct) (l : list lock_list) : ll_result :=
  match l with
  | [] => Ll []
  | curr :: rest =>
      if (l_end lock <=? ll_start curr) || (ll_end curr <=? l_start lock)
      then ll_cons curr (ll_walk mem lock rest)
      else if (l_start lock <=? ll_start curr) && (ll_end curr <=? l_end lock)
      then ll_walk mem lock rest
      else if (l_start lock <=? ll_start curr) && (ll_start curr <? l_end lock) && (l_end lock <? ll_end curr)
      then ll_cons (Lock_list (l_end lock) (ll_end curr - l_end lock)) (ll_walk mem lock rest)
      else if (ll_start curr <? l_start lock) && (l_start lock <? ll_end curr) && (ll_end curr <=? l_end lock)
      then ll_cons (Lock_list (ll_start curr) (l_start lock - ll_start curr)) (ll_walk mem lock rest)
      else if (ll_start curr <? l_start lock) && (l_end lock <? ll_end curr)
      then
        if negb mem then Ll_null
        else ll_cons (Lock_list (ll_start curr) (l_start lock - ll_start curr))
               (ll_cons (Lock_list (l_end lock) (ll_end curr - l_end lock)) (ll_walk mem lock rest))
      else Ll_panic
  end.

(** A lock that the system holds for this process. *)
Definition own_lock (ctx : lock_context) (lock : lock_struct) : bool :=
  (is_type (lock_type lock) READ_LOCK || is_type (lock_type lock) WRITE_LOCK) &&
  server_id_equal (ctx_pid (context lock)) (ctx_pid ctx).

Fixpoint posix_lock_list (mem : bool) (ctx : lock_context) (lhead : list lock_list) (plocks : list lock_struct)
    : option (list lock_list) :=
  match plocks, lhead with
  | [], _ | _, [] => Some lhead
  | lock :: plocks, _ =>
      if negb (own_lock ctx lock) then posix_lock_list mem ctx lhead plocks
      else
        match ll_walk mem lock lhead with
        | Ll l => posix_lock_list mem ctx l plocks
        | Ll_null => Some []
        | Ll_panic => None
        end
  end.

(** ** Windows locks *)

(** Locks the ranges until one fails: the number of locked ranges, the errno of the
    failure, and the calls. *)
Fixpoint lock_ranges (env : posix_env) (h : list sys_event) (f : posix_fsp) (type : fcntl_type)
    (l : list lock_list) : nat * option Z * list sys_event :=
  match l with
  | [] => (0%nat, None, h)
  | r :: l =>
      let '(ret, err, h) := posix_fcntl_lock env h f (ll_start r) (ll_size r) type in
      if negb ret then (0%nat, Some err, h)
      else let '(n, e, h) := lock_ranges env h f type l in (S n, e, h)
  end.

(** Unlocks the ranges; the result tells whether all calls succeeded. *)
Fixpoint unlock_ranges (env : posix_env) (h : list sys_event) (f : posix_fsp) (l : list lock_list)
    : bool * list sys_event :=
  match l with
  | [] => (true, h)
  | r :: l =>
      let '(ret, _, h) := posix_fcntl_lock env h f (ll_start r) (ll_size r) F_UNLCK in
      let '(ret', h) := unlock_ranges env h f l in (ret && ret', h)
  end.

Definition with_db (s : posix_state) (db : option posix_db) : option posix_state :=
  (fun db => Posix_state db (hist s)) <$> db.

(** The result and, if a system lock failed, its errno. *)
Definition set_posix_lock_windows_flavour (env : posix_env) (f : posix_fsp) (u_offset u_count : Z)
    (t : brl_type) (ctx : lock_context) (plocks : list lock_struct) (s : posix_state)
    : option (bool * option Z * posix_state) :=
  match posix_lock_in_range u_offset u_count with
  | None => (fun s => (true, None, s)) <$> with_db s (increment_lock_ref_count f (pdb s))
  | Some (offset, count) =>
      if negb (pe_talloc_ok env) then Some (false, None, s)
      else
        match posix_lock_list (pe_split_ok env) ctx [Lock_list offset count] plocks with
        | None => None
        | Some llist =>
            let '(lock_count, err, h) := lock_ranges env (hist s) f (map_posix_lock_type f t) llist in
            match err with
            | Some _ =>
                let '(_, h) := unlock_ranges env h f (take lock_count llist) in
                Some (false, err, Posix_state (pdb s) h)
            | None =>
                (fun s => (true, None, s)) <$> with_db (Posix_state (pdb s) h) (increment_lock_ref_count f (pdb s))
            end
        end
  end.

Definition release_posix_lock_windows_flavour (env : posix_env) (f : posix_fsp) (u_offset u_count : Z)
    (deleted_lock_type : brl_type) (ctx : lock_context) (plocks : list lock_struct) (s : posix_state)
    : option (bool * posix_state) :=
  match with_db s (decrement_lock_ref_count f (pdb s)) with
  | None => None
  | Some s =>
      match posix_lock_in_range u_offset u_count with
      | None => Some (true, s)
      | Some (offset, count) =>
          if negb (pe_talloc_ok env) then Some (false, s)
          else
            match posix_lock_list (pe_split_ok env) ctx [Lock_list offset count] plocks with
            | None => None
            | Some ulist =>
                let changed := match ulist with
                               | [r] => negb (ll_start r =? offset) || negb (ll_size r =? count)
                               | _ => true
                               end in
                let '(ok, h) :=
                  if is_type deleted_lock_type WRITE_LOCK && changed
                  then let '(ret, _, h) := posix_fcntl_lock env (hist s) f offset count F_RDLCK in (ret, h)
                  else (true, hist s) in
                if negb ok then Some (false, Posix_state (pdb s) h)
                else let '(ret, h) := unlock_ranges env h f ulist in Some (ret, Posix_state (pdb s) h)
            end
      end
  end.

(** ** POSIX locks *)

Definition increment_posix_lock_count (f : posix_fsp) (smblctx : Z) (db : posix_db) : option posix_db :=
  if bool_decide (smblctx ∈ posix_contexts db) then Some db
  else increment_lock_ref_count f (Posix_db (lock_ref_count db) (fds_to_close db) ({[smblctx]} ∪ posix_contexts db)).

Definition decrement_posix_lock_count (f : posix_fsp) (smblctx : Z) (db : posix_db) : option posix_db :=
  decrement_lock_ref_count f (Posix_db (lock_ref_count db) (fds_to_close db) (posix_contexts db ∖ {[smblctx]})).

Definition locks_exist_on_context (plocks : list lock_struct) (ctx : lock_context) : bool :=
  existsb (fun lock => own_lock ctx lock && (smblctx ctx =? smblctx (context lock))) plocks.

Definition set_posix_lock_posix_flavour (env : posix_env) (f : posix_fsp) (u_offset u_count : Z)
    (t : brl_type) (ctx : lock_context) (s : posix_state) : option (bool * option Z * posix_state) :=
  match posix_lock_in_range u_offset u_count with
  | None => (fun s => (true, None, s)) <$> with_db s (increment_posix_lock_count f (smblctx ctx) (pdb s))
  | Some (offset, count) =>
      let '(ret, err, h) := posix_fcntl_lock env (hist s) f offset count (map_posix_lock_type f t) in
      if negb ret then Some (false, Some err, Posix_state (pdb s) h)
      else (fun s => (true, None, s)) <$>
             with_db (Posix_state (pdb s) h) (increment_posix_lock_count f (smblctx ctx) (pdb s))
  end.

Definition release_posix_lock_posix_flavour (env : posix_env) (f : posix_fsp) (u_offset u_count : Z)
    (ctx : lock_context) (plocks : list lock_struct) (s : posix_state) : option (bool * posix_state) :=
  let release s := if negb (locks_exist_on_context plocks ctx)
                   then with_db s (decrement_posix_lock_count f (smblctx ctx) (pdb s)) else Some s in
  match posix_lock_in_range u_offset u_count with
  | None => pair true <$> release s
  | Some (offset, count) =>
      if negb (pe_talloc_ok env) then Some (false, s)
      else
        match posix_lock_list (pe_split_ok env) ctx [Lock_list offset count] plocks with
        | None => None
        | Some ulist =>
            let '(ret, h) := unlock_ranges env (hist s) f ulist in
            pair ret <$> release (Posix_state (pdb s) h)
        end
  end.
