(* ===== verification/PosixProps.v ===== *)
(** * System POSIX locks: what the kernel holds

    The fcntl locks that the kernel holds for the server process, computed from
    the calls that were made, against the byte-range lock table: at every moment
    the kernel holds exactly the bytes that locks of this process cover, and file
    descriptors are closed only when there are none. *)

From S2P Require Import Prelude.
From S2P Require Import Errmap.
From S2P Require Import ServerId.
From S2P Require Import BrlModel.
From S2P Require Import BrlSafety.
From S2P Require Import PosixModel.
From stdpp Require Import prelude list gmap.

#[local] Open Scope Z_scope.

(** ** Ranges *)

Definition ll_in (r : lock_list) (b : Z) : Prop := ll_start r <= b < ll_end r.

Definition in_list (l : list lock_list) (b : Z) : Prop := Exists (fun r => ll_in r b) l.

Definition ll_ok (r : lock_list) : Prop :=
  0 <= ll_start r /\ 0 < ll_size r /\ ll_end r <= max_positive_lock_offset.

Lemma in_list_cons r l b : in_list (r :: l) b <-> ll_in r b \/ in_list l b.
Proof. apply Exists_cons. Qed.

Lemma in_list_nil b : in_list [] b <-> False.
Proof. apply Exists_nil. Qed.

(** The walk removes the bytes of the lock. *)
Lemma ll_walk_ok lock l :
  range_ok lock -> Forall ll_ok l ->
  exists l', ll_walk true lock l = Ll l' /\ Forall ll_ok l' /\
  forall b, in_list l' b <-> in_list l b /\ ~ covers lock b.
Proof.
  intros Hr. induction 1 as [|r l Hr1 Hl IH]; cbn [ll_walk].
  { exists []. split_and!; [done | done |]. intros b. rewrite in_list_nil. tauto. }
  destruct IH as (l' & -> & Hok & Hin). rewrite (l_end_ok lock Hr).
  destruct Hr as (H1 & H2 & H3), Hr1 as (H4 & H5 & H6). unfold ll_end in *.
  repeat case_match; cbn [ll_cons negb] in *; try discriminate;
    rewrite ?orb_true_iff, ?andb_false_iff, ?Z.leb_le, ?Z.leb_gt, ?Z.ltb_lt, ?Z.ltb_ge in *; boolify; try lia; eexists; (split; [done|]);
    (split; [repeat (apply Forall_cons; split); try done; unfold ll_ok, ll_end; cbn; lia|]);
    intros b; rewrite ?in_list_cons, Hin; unfold ll_in, covers, ll_end; cbn; intuition lia.
Qed.

(** A byte that a lock of the process of [ctx] covers. *)
Definition held_by (ctx : lock_context) (T : list lock_struct) (b : Z) : Prop :=
  exists x, x ∈ T /\ own_lock ctx x = true /\ covers x b.

Lemma held_by_cons ctx x T b :
  held_by ctx (x :: T) b <-> (own_lock ctx x = true /\ covers x b) \/ held_by ctx T b.
Proof.
  unfold held_by. split.
  - intros (y & [->|Hy]%elem_of_cons & Ho & Hc); [by left | right; by exists y].
  - intros [[Ho Hc]|(y & Hy & Ho & Hc)]; [exists x | exists y]; rewrite elem_of_cons; auto.
Qed.

Lemma posix_lock_list_ok ctx T l :
  Forall (fun x => own_lock ctx x = true -> range_ok x) T -> Forall ll_ok l ->
  exists l', posix_lock_list true ctx l T = Some l' /\ Forall ll_ok l' /\
  forall b, in_list l' b <-> in_list l b /\ ~ held_by ctx T b.
Proof.
  intros HT. revert l. induction HT as [|x T Hx HT IH]; intros l Hl.
  { exists l. split_and!; [done | done |]. intros b. split; [|by intros [? _]]. intros H. split; [done|].
    by intros (y & Hy%elem_of_nil & _). }
  destruct l as [|r l].
  { exists []. split_and!; [done | done |]. intros b. rewrite in_list_nil. tauto. }
  cbn [posix_lock_list]. destruct (own_lock ctx x) eqn:Ho; cbn [negb].
  - destruct (ll_walk_ok x (r :: l) (Hx eq_refl) Hl) as (l1 & -> & Hl1 & Hin1).
    destruct (IH l1 Hl1) as (l2 & -> & Hl2 & Hin2). exists l2. split_and!; [done | done |].
    intros b. rewrite Hin2, Hin1, held_by_cons, Ho. tauto.
  - destruct (IH (r :: l) Hl) as (l2 & -> & Hl2 & Hin2). exists l2. split_and!; [done | done |].
    intros b. rewrite Hin2, held_by_cons, Ho. intuition congruence.
Qed.

(** The range for the system: the bytes of the lock below the maximal offset. *)
Lemma posix_lock_in_range_spec start size :
  0 <= start -> 0 <= size -> start + size < 2 ^ 64 ->
  match posix_lock_in_range start size with
  | Some (offset, count) => ll_ok (Lock_list offset count) /\
      forall b, offset <= b < offset + count <-> start <= b < start + size /\ b < max_positive_lock_offset
  | None => forall b, ~ (start <= b < start + size /\ b < max_positive_lock_offset)
  end.
Proof.
  intros H1 H2 H3.
  assert (Hclear : forall x, 0 <= x < 2 ^ 64 -> clear_bits x max_positive_lock_offset = 0 <-> x < 2 ^ 63).
  { intros x Hx. unfold clear_bits, max_positive_lock_offset.
    change 0x7FFFFFFFFFFFFFFF with (Z.ones 63). rewrite Z.ldiff_ones_r by lia.
    rewrite Z.shiftl_mul_pow2, Z.shiftr_div_pow2 by lia.
    pose proof (Z.div_mod x (2 ^ 63) ltac:(lia)). pose proof (Z.mod_pos_bound x (2 ^ 63) ltac:(lia)). split; nia. }
  unfold posix_lock_in_range. destruct (Z.eqb_spec size 0) as [->|Hs]; [intros b; lia|].
  destruct (Z.eqb_spec (clear_bits start max_positive_lock_offset) 0) as [Hc|Hc]; cbn [negb]; rewrite Hclear in Hc by lia;
    cycle 1; [unfold max_positive_lock_offset; intros b; lia|].
  cbv zeta. unfold ll_ok, ll_end, max_positive_lock_offset, INT64_MAX in *.
  destruct (Z.eqb_spec (clear_bits size 0x7FFFFFFFFFFFFFFF) 0) as [Hc2|Hc2]; cbn [negb]; rewrite Hclear in Hc2 by lia;
    match goal with |- context [?x || ?y] => destruct (x || y) eqn:E end;
    rewrite ?orb_true_iff, ?Z.ltb_lt in E; boolify;
    match goal with |- context [?x =? 0] => destruct (Z.eqb_spec x 0) end; cbn;
    try (split; [lia|]); intros b; lia.
Qed.

(** ** The locks the kernel holds

    [file fd]: the descriptor belongs to the file. A lock call sets the type of its
    bytes, where a count of 0 reaches to the end; closing any descriptor of a file
    drops all locks of the process on it. *)

Definition apply_event (file : Z -> bool) (e : sys_event) (K : Z -> option fcntl_type) (b : Z) : option fcntl_type :=
  match e with
  | Sys_lock fd offset count type true =>
      if file fd && (offset <=? b) && ((count =? 0) || (b <? offset + count))
      then match type with F_UNLCK => None | _ => Some type end else K b
  | Sys_lock _ _ _ _ false => K b
  | Sys_close fd _ => if file fd then None else K b
  end.

Definition kernel (file : Z -> bool) (h : list sys_event) : Z -> option fcntl_type :=
  foldl (fun K e => apply_event file e K) (fun _ => None) h.

Lemma kernel_snoc file h e b : kernel file (h ++ [e]) b = apply_event file e (kernel file h) b.
Proof. unfold kernel. by rewrite foldl_snoc. Qed.

#[export] Instance ll_in_dec r b : Decision (ll_in r b).
Proof. unfold ll_in. apply _. Defined.

#[export] Instance in_list_dec l b : Decision (in_list l b).
Proof. unfold in_list. apply _. Defined.

Definition lock_value (t : fcntl_type) : option fcntl_type :=
  match t with F_UNLCK => None | _ => Some t end.

Lemma kernel_lock file fd r t h b :
  file fd = true -> ll_ok r ->
  kernel file (h ++ [Sys_lock fd (ll_start r) (ll_size r) t true]) b =
    if decide (ll_in r b) then lock_value t else kernel file h b.
Proof.
  intros Hfd (_ & Hs & _). rewrite kernel_snoc. cbn [apply_event]. rewrite Hfd. unfold ll_in, ll_end.
  destruct (Z.eqb_spec (ll_size r) 0); [lia|]. cbn [orb].
  destruct (Z.leb_spec (ll_start r) b), (Z.ltb_spec b (ll_start r + ll_size r)); cbn [andb];
    destruct (decide _); try lia; done.
Qed.

(** The errors on which [posix_fcntl_lock] reports success without a lock, or with
    one on another range, do not occur: it does so for the errors EFBIG, ENOLCK and
    EINVAL on offsets or counts of more than 31 bits. *)
Definition sane_errno (env : posix_env) : Prop :=
  forall h fd offset count t, (sys_lock env h fd offset count t).1 = false ->
    strange_errno (sys_lock env h fd offset count t).2 = true ->
    clear_bits offset 0x7fffffff = 0 /\ clear_bits count 0x7fffffff = 0.

Definition unlock_succeeds (env : posix_env) : Prop :=
  forall h fd offset count, (sys_lock env h fd offset count F_UNLCK).1 = true.

Section calls.
Context (env : posix_env) (file : Z -> bool) (f : posix_fsp).
Context (Hsane : sane_errno env) (Hfd : file (pf_fd f) = true).

Lemma posix_fcntl_lock_run h r t :
  ll_ok r ->
  let '(ret, _, h') := posix_fcntl_lock env h f (ll_start r) (ll_size r) t in
  ret = (sys_lock env h (pf_fd f) (ll_start r) (ll_size r) t).1 /\
  forall b, kernel file h' b =
    if decide (ret = true /\ ll_in r b) then lock_value t else kernel file h b.
Proof using Hsane Hfd.
  intros Hr. unfold posix_fcntl_lock, call_lock.
  pose proof (Hsane h (pf_fd f) (ll_start r) (ll_size r) t) as Hs.
  destruct (sys_lock env h (pf_fd f) (ll_start r) (ll_size r) t) as [[|] err]; cbn in *.
  - split; [done|]. intros b. rewrite kernel_lock by done. by repeat destruct (decide _); naive_solver.
  - assert (Hk : forall b, kernel file (h ++ [Sys_lock (pf_fd f) (ll_start r) (ll_size r) t false]) b =
      if decide (false = true /\ ll_in r b) then lock_value t else kernel file h b).
    { intros b. rewrite kernel_snoc. cbn. by destruct (decide _) as [[? _]|]. }
    destruct (strange_errno err); [|by split]. destruct (Hs eq_refl eq_refl) as [-> ->]. by split.
Qed.

Lemma lock_ranges_run t l h :
  Forall ll_ok l ->
  let '(n, e, h') := lock_ranges env h f t l in
  (n <= length l)%nat /\ (e = None -> n = length l) /\
  forall b, kernel file h' b = if decide (in_list (take n l) b) then lock_value t else kernel file h b.
Proof using Hsane Hfd.
  intros Hl. revert h. induction Hl as [|r l Hr Hl IH]; intros h; cbn [lock_ranges].
  { split_and!; [done | done |]. intros b. by destruct (decide _) as [?%in_list_nil|]. }
  pose proof (posix_fcntl_lock_run h r t Hr) as H1.
  destruct (posix_fcntl_lock env h f (ll_start r) (ll_size r) t) as [[ret err] h1]. destruct H1 as [_ H1].
  destruct ret; cbn [negb].
  - specialize (IH h1). destruct (lock_ranges env h1 f t l) as [[n e] h2]. destruct IH as (Hn & He & Hk).
    cbn [length take]. split_and!; [lia | intros E; by rewrite (He E) |]. intros b. rewrite Hk, H1.
    destruct (decide (in_list (r :: take n l) b)) as [Hin|Hin]; rewrite in_list_cons in Hin;
      repeat destruct (decide _); naive_solver.
  - split_and!; [cbn; lia | done |]. intros b. rewrite H1. cbn [take].
    destruct (decide (in_list [] b)) as [?%in_list_nil|]; [done|]. by destruct (decide _) as [[? _]|].
Qed.

Lemma unlock_ranges_run l h :
  Forall ll_ok l ->
  let '(ret, h') := unlock_ranges env h f l in
  (forall b, ~ in_list l b -> kernel file h' b = kernel file h b) /\
  (unlock_succeeds env -> ret = true /\ forall b, in_list l b -> kernel file h' b = None).
Proof using Hsane Hfd.
  intros Hl. revert h. induction Hl as [|r l Hr Hl IH]; intros h; cbn [unlock_ranges].
  { split; [done|]. intros _. split; [done|]. by intros b ?%in_list_nil. }
  pose proof (posix_fcntl_lock_run h r F_UNLCK Hr) as H1.
  destruct (posix_fcntl_lock env h f (ll_start r) (ll_size r) F_UNLCK) as [[ret err] h1].
  destruct H1 as [Hret H1]. specialize (IH h1). destruct (unlock_ranges env h1 f l) as [ret' h2].
  destruct IH as [Hout Hin]. split.
  - intros b Hb. rewrite in_list_cons in Hb. rewrite Hout, H1 by tauto. destruct (decide _) as [[_ ?]|]; tauto.
  - intros Hu. destruct (Hin Hu) as [-> Hnone]. assert (ret = true) as -> by (rewrite Hret; apply Hu). split; [done|].
    intros b Hb. destruct (decide (in_list l b)) as [|Hn]; [by apply Hnone|].
    rewrite Hout, H1 by done. apply in_list_cons in Hb as [Hb|?]; [|done]. by rewrite decide_True.
Qed.

End calls.

(** ** The locks the table promises *)

Definition covers_b (x : lock_struct) (b : Z) : bool := (l_start x <=? b) && (b <? l_start x + l_size x).

Definition own_covers (ctx : lock_context) (b : Z) (x : lock_struct) : bool := own_lock ctx x && covers_b x b.

(** The type the kernel should hold a byte with. *)
Definition held (ctx : lock_context) (T : list lock_struct) (b : Z) : option fcntl_type :=
  if existsb (fun x => own_covers ctx b x && is_type (lock_type x) WRITE_LOCK) T then Some F_WRLCK
  else if existsb (own_covers ctx b) T then Some F_RDLCK else None.

(** A byte is held at least as strongly: a write lock is stronger than a read lock. *)
Definition at_least (k t : option fcntl_type) : Prop := t = None \/ k = Some F_WRLCK \/ k = t.

(** The kernel holds at least what the table promises, and where [exact] holds it holds
    nothing else. *)
Definition mirrors (exact : Prop) (file : Z -> bool) (ctx : lock_context) (h : list sys_event) (T : list lock_struct) : Prop :=
  forall b, 0 <= b < max_positive_lock_offset ->
    at_least (kernel file h b) (held ctx T b) /\ (exact -> kernel file h b = held ctx T b).

Lemma at_least_trans a b c : at_least a b -> at_least b c -> at_least a c.
Proof. unfold at_least. intros [->|[->| ->]] [->|[?|?]]; subst; auto; congruence. Qed.

Lemma covers_b_spec x b : covers_b x b = true <-> covers x b.
Proof. unfold covers_b, covers. rewrite andb_true_iff, Z.leb_le, Z.ltb_lt. done. Qed.

Lemma held_none ctx T b : held ctx T b = None <-> ~ held_by ctx T b.
Proof.
  assert (Hex : existsb (own_covers ctx b) T = true <-> held_by ctx T b).
  { rewrite existsb_exists. unfold held_by, own_covers. split; intros (x & Hx & H).
    - apply andb_true_iff in H as [H1 H2%covers_b_spec]. exists x. by rewrite list_elem_of_In.
    - exists x. rewrite <- list_elem_of_In. destruct H as [-> Hc]. split; [done|]. by apply covers_b_spec. }
  rewrite <- Hex. unfold held. destruct (existsb (own_covers ctx b) T) eqn:E2; [split; [by case_match | done]|].
  case_match eqn:E; [|split; done]. apply existsb_exists in E as (x & Hx & [Hc _]%andb_true_iff).
  apply not_true_iff_false in E2. destruct E2. apply existsb_exists. by exists x.
Qed.

Lemma held_write ctx T b :
  held ctx T b = Some F_WRLCK ->
  exists y, y ∈ T /\ own_lock ctx y = true /\ lock_type y = WRITE_LOCK /\ covers y b.
Proof.
  unfold held. case_match eqn:E; [|by case_match]. intros _. apply existsb_exists in E as (y & Hy & H).
  unfold own_covers in H. rewrite !andb_true_iff in H. destruct H as [[Ho Hc%covers_b_spec] Ht]. exists y.
  apply list_elem_of_In in Hy. by destruct (lock_type y).
Qed.

Lemma held_snoc ctx T x b :
  own_lock ctx x = true ->
  held ctx (T ++ [x]) b =
    if covers_b x b then
      if is_type (lock_type x) WRITE_LOCK then Some F_WRLCK
      else match held ctx T b with Some t => Some t | None => Some F_RDLCK end
    else held ctx T b.
Proof.
  intros Ho. unfold held. rewrite !existsb_app. cbn [existsb]. unfold own_covers at 2 4. rewrite Ho, !orb_false_r. cbn [andb].
  destruct (covers_b x b); cbn [andb]; [|by rewrite !orb_false_r].
  destruct (is_type (lock_type x) WRITE_LOCK); [by rewrite orb_true_r|]. rewrite orb_false_r, orb_true_r.
  by repeat case_match.
Qed.

Lemma existsb_permutation {A} (p : A -> bool) l l' : l ≡ₚ l' -> existsb p l = existsb p l'.
Proof.
  induction 1 as [|x l l' _ IH|x y l|l1 l2 l3 _ IH1 _ IH2]; cbn; [done | by rewrite IH | | by rewrite IH1].
  by destruct (p x), (p y).
Qed.

Lemma held_permutation ctx T T' b : T ≡ₚ T' -> held ctx T b = held ctx T' b.
Proof. intros Hp. unfold held. by rewrite !(existsb_permutation _ _ _ Hp). Qed.

(** Only the locks of the process count. *)
Lemma held_filter ctx T b : held ctx T b = held ctx (filter (fun x => own_lock ctx x = true) T) b.
Proof.
  unfold held. assert (H : forall q, existsb (fun x => own_covers ctx b x && q x) T =
    existsb (fun x => own_covers ctx b x && q x) (filter (fun x => own_lock ctx x = true) T)).
  { intros q. induction T as [|x T IH]; [done|]. rewrite filter_cons. cbn [existsb]. rewrite IH.
    destruct (decide _) as [E|E]; [done|]. apply not_true_iff_false in E. unfold own_covers at 1. by rewrite E. }
  rewrite (H (fun x => is_type (lock_type x) WRITE_LOCK)).
  assert (H2 : forall l, existsb (own_covers ctx b) l = existsb (fun x => own_covers ctx b x && true) l).
  { intros l. induction l as [|x l IH]; [done|]. cbn. by rewrite andb_true_r, IH. }
  by rewrite (H2 T), (H2 (filter _ T)), (H (fun _ => true)).
Qed.

(** The table without the last lock promises no more. *)
Lemma at_least_snoc ctx T x b : own_lock ctx x = true -> at_least (held ctx (T ++ [x]) b) (held ctx T b).
Proof.
  intros Ho. rewrite held_snoc by done. unfold at_least. repeat case_match; auto.
Qed.

(** ** Setting and releasing Windows locks *)

(** A lock on bytes the process holds can be turned into a read lock. *)
Definition downgrade_succeeds (env : posix_env) (file : Z -> bool) : Prop :=
  forall h fd r, file fd = true -> (forall b, ll_in r b -> kernel file h b <> None) ->
    (sys_lock env h fd (ll_start r) (ll_size r) F_RDLCK).1 = true.

(** What is assumed of the surroundings: no error that [posix_fcntl_lock] hides, and
    memory for a range that is split, whose lack [posix_lock_list] hides. *)
Record system_ok (env : posix_env) : Prop := {
  so_errno : sane_errno env;
  so_split : pe_split_ok env = true;
}.

(** Nothing that gives up a lock or a part of it fails. *)
Record system_frees (env : posix_env) (file : Z -> bool) : Prop := {
  sf_unlock : unlock_succeeds env;
  sf_downgrade : downgrade_succeeds env file;
  sf_memory : pe_talloc_ok env = true;
}.

Section windows.
Context (env : posix_env) (file : Z -> bool) (f : posix_fsp) (Hsys : system_ok env).
Context (exact : Prop) (Hfrees : exact -> system_frees env file).
Context (Hfd : file (pf_fd f) = true).

(** The bytes of the lock that the system can hold. *)
Lemma range_in_list x :
  range_ok x ->
  match posix_lock_in_range (l_start x) (l_size x) with
  | Some (offset, count) => ll_ok (Lock_list offset count) /\
      forall b, b < max_positive_lock_offset -> in_list [Lock_list offset count] b <-> covers_b x b = true
  | None => forall b, b < max_positive_lock_offset -> covers_b x b = false
  end.
Proof.
  intros (H1 & H2 & H3). pose proof (posix_lock_in_range_spec _ _ H1 H2 H3) as H.
  destruct (posix_lock_in_range (l_start x) (l_size x)) as [[o c]|].
  - destruct H as [Hok H]. split; [done|]. intros b Hb. rewrite in_list_cons, in_list_nil, covers_b_spec.
    unfold ll_in, ll_end, covers. cbn. rewrite H. tauto.
  - intros b Hb. apply not_true_iff_false. rewrite covers_b_spec. unfold covers. specialize (H b). tauto.
Qed.

Lemma map_lock_value t :
  pf_can_write f = true -> t = READ_LOCK \/ t = WRITE_LOCK ->
  lock_value (map_posix_lock_type f t) = Some (if is_type t WRITE_LOCK then F_WRLCK else F_RDLCK).
Proof. intros Hw [->| ->]; unfold map_posix_lock_type; by rewrite Hw. Qed.

Lemma own_lock_type ctx x : own_lock ctx x = true -> lock_type x = READ_LOCK \/ lock_type x = WRITE_LOCK.
Proof.
  unfold own_lock, is_type. intros [[H|H]%orb_true_iff _]%andb_true_iff; apply bool_decide_eq_true in H; auto.
Qed.

Lemma set_windows_ok ctx T x s :
  pf_can_write f = true -> Forall (fun y => own_lock ctx y = true -> range_ok y) T -> range_ok x ->
  own_lock ctx x = true ->
  (lock_type x = WRITE_LOCK -> forall b, covers x b -> ~ held_by ctx T b) ->
  mirrors exact file ctx (hist s) T ->
  exists (ok : bool) err h',
    set_posix_lock_windows_flavour env f (l_start x) (l_size x) (lock_type x) ctx T s =
      (if ok then (fun db => (true, None, Posix_state db h')) <$> increment_lock_ref_count f (pdb s)
       else Some (false, err, Posix_state (pdb s) h')) /\
    mirrors exact file ctx h' (if ok then T ++ [x] else T).
Proof using Hsys Hfd Hfrees.
  intros Hw HT Hx Hown Hfree Hm. destruct Hsys as [Herr Hsplit].
  pose proof (range_in_list x Hx) as Hin. unfold set_posix_lock_windows_flavour.
  destruct (posix_lock_in_range (l_start x) (l_size x)) as [[o c]|]; cycle 1.
  { exists true, None, (hist s). split; [by destruct (increment_lock_ref_count f (pdb s))|].
    intros b Hb. rewrite held_snoc, Hin by (done || lia). by apply Hm. }
  destruct Hin as [Hok Hin]. destruct (pe_talloc_ok env); cbn [negb]; [|by exists false, None, (hist s); destruct s].
  rewrite Hsplit. destruct (posix_lock_list_ok ctx T [Lock_list o c] HT) as (l & -> & Hl & Hlb); [by apply Forall_singleton|].
  pose proof (lock_ranges_run env file f Herr Hfd (map_posix_lock_type f (lock_type x)) l (hist s) Hl) as Hrun.
  destruct (lock_ranges env (hist s) f (map_posix_lock_type f (lock_type x)) l) as [[n e] h1].
  destruct Hrun as (Hn & He & Hk). destruct e as [err|].
  - assert (Htake : Forall ll_ok (take n l)) by by apply Forall_take.
    pose proof (unlock_ranges_run env file f Herr Hfd (take n l) h1 Htake) as Hu.
    destruct (unlock_ranges env h1 f (take n l)) as [ret h2]. destruct Hu as [Hout Hun].
    exists false, (Some err), h2. split; [done|]. intros b Hb.
    destruct (decide (in_list (take n l) b)) as [Hi|Hi];
      [|rewrite Hout, Hk, decide_False by done; by apply Hm].
    assert (Hno : held ctx T b = None).
    { apply held_none, Hlb. unfold in_list in *. rewrite <- (take_drop n l). apply Exists_app. by left. }
    rewrite Hno. split; [by left|]. intros Hex. by apply (Hun (sf_unlock _ _ (Hfrees Hex))).
  - specialize (He eq_refl). rewrite He in Hk. rewrite firstn_all in Hk.
    exists true, None, h1. split; [by destruct (increment_lock_ref_count f (pdb s))|].
    intros b Hb. rewrite Hk, held_snoc by done. rewrite map_lock_value by (done || by eapply own_lock_type).
    specialize (Hlb b). rewrite Hin in Hlb by lia. specialize (Hm b Hb).
    destruct (covers_b x b) eqn:Ec; [|destruct (decide _) as [Hi|]; [by apply Hlb in Hi as [? _] | done]].
    unfold is_type in *. destruct (decide (in_list l b)) as [Hi|Hi].
    + apply Hlb in Hi as [_ Hnot]. apply held_none in Hnot. rewrite Hnot.
      case_bool_decide; (split; [|done]); right; by right.
    + destruct (held ctx T b) as [t|] eqn:Eh; [|apply held_none in Eh; destruct Hi; by apply Hlb].
      case_bool_decide as Ew; [|done]. exfalso. apply covers_b_spec in Ec.
      pose proof (proj2 (held_none ctx T b) (Hfree Ew b Ec)). congruence.
Qed.

(** The calls of a release, once the count is right. *)
Definition release_calls (o c : Z) (t : brl_type) (l : list lock_list) (h : list sys_event) : bool * list sys_event :=
  let changed := match l with [r] => negb (ll_start r =? o) || negb (ll_size r =? c) | _ => true end in
  let '(ok, h) := if is_type t WRITE_LOCK && changed
                  then let '(ret, _, h) := posix_fcntl_lock env h f o c F_RDLCK in (ret, h) else (true, h) in
  if negb ok then (false, h) else unlock_ranges env h f l.

(** Unlocking ranges that the table does not need keeps what it promises. *)
Lemma unlock_unneeded ctx T l h :
  Forall ll_ok l -> (forall b, in_list l b -> ~ held_by ctx T b) ->
  (forall b, 0 <= b < max_positive_lock_offset -> ~ in_list l b ->
     at_least (kernel file h b) (held ctx T b) /\ (exact -> kernel file h b = held ctx T b)) ->
  mirrors exact file ctx (unlock_ranges env h f l).2 T.
Proof using Hsys Hfd Hfrees.
  intros Hl Hno Hout b Hb. pose proof (unlock_ranges_run env file f (so_errno _ Hsys) Hfd l h Hl) as Hu.
  destruct (unlock_ranges env h f l) as [ret h']. destruct Hu as [Hsame Hun]. cbn [snd].
  destruct (decide (in_list l b)) as [Hi|Hi]; [|rewrite Hsame by done; by apply Hout].
  rewrite (proj2 (held_none ctx T b) (Hno b Hi)). split; [by left|]. intros Hex.
  by apply (Hun (sf_unlock _ _ (Hfrees Hex))).
Qed.

Lemma release_calls_ok ctx T x o c l h :
  own_lock ctx x = true -> ll_ok (Lock_list o c) -> Forall ll_ok l ->
  (forall b, b < max_positive_lock_offset -> in_list [Lock_list o c] b <-> covers_b x b = true) ->
  (forall b, in_list l b <-> in_list [Lock_list o c] b /\ ~ held_by ctx T b) ->
  (lock_type x = WRITE_LOCK -> forall b, covers x b -> held ctx T b <> Some F_WRLCK) ->
  mirrors exact file ctx h (T ++ [x]) ->
  mirrors exact file ctx (release_calls o c (lock_type x) l h).2 T.
Proof using Hsys Hfd Hfrees.
  intros Hown Hok Hl Hin Hlb Hfree Hm. unfold release_calls. cbv zeta.
  set (changed := match l with [r] => _ | _ => true end).
  assert (Hneed : forall b, in_list l b -> ~ held_by ctx T b) by (intros b Hb; by apply Hlb in Hb as [_ ?]).
  assert (Hkeep : forall b, 0 <= b < max_positive_lock_offset -> covers_b x b = false ->
    at_least (kernel file h b) (held ctx T b) /\ (exact -> kernel file h b = held ctx T b)).
  { intros b Hb Hc. specialize (Hm b Hb). rewrite held_snoc, Hc in Hm by done. done. }
  unfold is_type at 1. case_bool_decide as Ew; cbn [andb]; [destruct changed eqn:Ech|].
  - pose proof (posix_fcntl_lock_run env file f (so_errno _ Hsys) Hfd h (Lock_list o c) F_RDLCK Hok) as Hd.
    cbn [ll_start ll_size] in Hd.
    destruct (posix_fcntl_lock env h f o c F_RDLCK) as [[ret err] h1]. destruct Hd as [Hret Hd].
    destruct ret; cbn [negb snd].
    + apply unlock_unneeded; [done..|]. intros b Hb Hi. rewrite Hd. specialize (Hlb b). specialize (Hin b ltac:(lia)).
      rewrite in_list_cons, in_list_nil in *.
      destruct (decide _) as [[_ Hr]|Hr]; cbn [lock_value]; cycle 1.
      { apply Hkeep; [done|]. apply not_true_iff_false. rewrite <- Hin. naive_solver. }
      assert (Hcov : covers_b x b = true) by (apply Hin; by left).
      assert (held ctx T b = Some F_RDLCK) as ->; [|split; [right; by right|done]].
      pose proof (Hfree Ew b (proj1 (covers_b_spec x b) Hcov)) as Hnw.
      destruct (held ctx T b) as [t|] eqn:Eh; [|apply held_none in Eh; destruct Hi; apply Hlb; auto].
      unfold held in Eh. repeat case_match; congruence.
    + intros b Hb. rewrite Hd. destruct (decide _) as [[? _]|_]; [done|]. pose proof Hm as Hall. specialize (Hm b Hb). split.
      * eapply at_least_trans; [apply Hm | by apply at_least_snoc].
      * intros Hex. enough (false = true) by done. rewrite Hret.
        apply (sf_downgrade _ _ (Hfrees Hex) h (pf_fd f) (Lock_list o c) Hfd). intros q Hq.
        assert (Hq' : 0 <= q < max_positive_lock_offset).
        { destruct Hok as (? & ? & ?). unfold ll_in, ll_end in *. cbn in *. lia. }
        rewrite (proj2 (Hall q Hq') Hex), held_snoc, (proj1 (Hin q ltac:(lia))) by (done || by left).
        unfold is_type. by rewrite bool_decide_eq_true_2.
  - cbn [negb]. apply unlock_unneeded; [done..|]. intros b Hb Hi. apply Hkeep; [done|].
    specialize (Hin b ltac:(lia)). apply not_true_iff_false. rewrite <- Hin. intros Hr. apply Hi.
    subst changed. destruct l as [|r [|]]; [done | | done]. boolify.
    rewrite in_list_cons, in_list_nil in *. unfold ll_in, ll_end in *. cbn in Hr. left. lia.
  - cbn [negb]. apply unlock_unneeded; [done..|]. intros b Hb Hi.
    specialize (Hin b ltac:(lia)). specialize (Hlb b). specialize (Hm b Hb). rewrite held_snoc in Hm by done.
    destruct (covers_b x b) eqn:Ec; [|done]. unfold is_type in Hm. rewrite bool_decide_eq_false_2 in Hm by done.
    destruct (held ctx T b) as [t|] eqn:Eh; [done|]. apply held_none in Eh. destruct Hi. apply Hlb.
    split; [by apply Hin | done].
Qed.

Lemma release_windows_ok ctx T x s :
  Forall (fun y => own_lock ctx y = true -> range_ok y) T -> range_ok x -> own_lock ctx x = true ->
  (lock_type x = WRITE_LOCK -> forall b, covers x b -> held ctx T b <> Some F_WRLCK) ->
  mirrors exact file ctx (hist s) (T ++ [x]) ->
  match decrement_lock_ref_count f (pdb s) with
  | None => release_posix_lock_windows_flavour env f (l_start x) (l_size x) (lock_type x) ctx T s = None
  | Some db => exists ret h',
      release_posix_lock_windows_flavour env f (l_start x) (l_size x) (lock_type x) ctx T s =
        Some (ret, Posix_state db h') /\ mirrors exact file ctx h' T
  end.
Proof using Hsys Hfd Hfrees.
  intros HT Hx Hown Hfree Hm.
  pose proof (range_in_list x Hx) as Hin. unfold release_posix_lock_windows_flavour, with_db.
  destruct (decrement_lock_ref_count f (pdb s)) as [db|]; [|done]. cbn [fmap option_fmap option_map pdb hist].
  destruct (posix_lock_in_range (l_start x) (l_size x)) as [[o c]|]; cycle 1.
  { exists true, (hist s). split; [done|]. intros b Hb. specialize (Hm b Hb). by rewrite held_snoc, Hin in Hm by (done || lia). }
  destruct Hin as [Hok Hin]. destruct (pe_talloc_ok env) eqn:Emem; cbn [negb]; cycle 1.
  { exists false, (hist s). split; [done|]. intros b Hb. split.
    - eapply at_least_trans; [by apply Hm | by apply at_least_snoc].
    - intros Hex. destruct (Hfrees Hex). congruence. }
  rewrite (so_split _ Hsys).
  destruct (posix_lock_list_ok ctx T [Lock_list o c] HT) as (l & -> & Hl & Hlb); [by apply Forall_singleton|].
  pose proof (release_calls_ok ctx T x o c l (hist s) Hown Hok Hl Hin Hlb Hfree Hm) as Hrel.
  unfold release_calls in Hrel. cbv zeta in Hrel.
  destruct (if is_type (lock_type x) WRITE_LOCK && _ then _ else _) as [ok h1]. destruct (negb ok); [by exists false, h1|].
  destruct (unlock_ranges env h1 f l) as [ret h2]. by exists ret, h2.
Qed.
End windows.
