(* ===== verification/PosixReach.v ===== *)
(** * The lock table and the system locks together

    The Windows lock and unlock of brlock.c with their calls of posix.c carried
    out, closing of files, and the activity of other processes, as steps on the
    table of a file and the system locks of one process. On every run the kernel
    holds at least what the table promises, and exactly that where nothing that gives
    up a lock fails. *)

From S2P Require Import Prelude.
From S2P Require Import Errmap.
From S2P Require Import ServerId.
From S2P Require Import BrlModel.
From S2P Require Import BrlSafety.
From S2P Require Import BrlPosix.
From S2P Require Import BrlReach.
From S2P Require Import PosixModel.
From S2P Require Import PosixProps.
From stdpp Require Import prelude list gmap.

#[local] Open Scope Z_scope.

(** ** The composition *)

(** The answer brlock.c gets from [set_posix_lock_windows_flavour]. *)
Definition posix_answer (r : option (bool * option Z * posix_state)) : posix_result :=
  match r with
  | Some (ok, err, _) => Posix_result ok (default 0 err) (default 0 err)
  | None => Posix_result false 0 0
  end.

Definition with_posix (benv : brl_env) (env : posix_env) (f : posix_fsp) (s : posix_state) : brl_env :=
  Brl_env (BrlModel.serverid_exists benv) (lp_posix_locking benv)
    (fun _ start size t c locks => posix_answer (set_posix_lock_windows_flavour env f start size t c locks s))
    (BrlModel.set_posix_lock_posix_flavour benv) (BrlModel.is_posix_locked benv)
    (talloc_array_ok benv) (talloc_realloc_ok benv) (talloc_memdup_ok benv).

Definition is_set_event (e : brl_event) : bool :=
  match e with ev_set_posix_lock _ _ _ _ => true | _ => false end.

(** [brl_lock_windows_default] with its call of posix.c. *)
Definition lock_windows (benv : brl_env) (env : posix_env) (f : posix_fsp) (br : byte_range_lock)
    (plock : lock_struct) (blocking : bool) (s : posix_state) : option (lock_result * posix_state) :=
  match brl_lock_windows_default (with_posix benv env f s) br plock blocking with
  | None => None
  | Some r =>
      if existsb is_set_event (r_events r) then
        match set_posix_lock_windows_flavour env f (l_start plock) (l_size plock) (lock_type plock)
                (context plock) (windows_scan benv plock (lock_data br)).1.1 s with
        | Some (_, _, s') => Some (r, s')
        | None => None
        end
      else Some (r, s)
  end.

(** [brl_unlock_windows_default] with its call of posix.c. *)
Definition unlock_windows (benv : brl_env) (env : posix_env) (f : posix_fsp) (br : byte_range_lock)
    (plock : lock_struct) (s : posix_state) : option (bool * byte_range_lock * posix_state) :=
  match brl_unlock_windows_default benv br plock with
  | None => None
  | Some (b, br', ev) =>
      match ev with
      | BrlModel.release_posix_lock_windows_flavour start size t c rest :: _ =>
          match release_posix_lock_windows_flavour env f start size t c rest s with
          | Some (_, s') => Some (b, br', s')
          | None => None
          end
      | _ => Some (b, br', s)
      end
  end.

Section joint.
(** The process, the file and its descriptors; [full] restricts the runs to those in
    which the lock array could always be enlarged. *)
Context (env : posix_env) (file : Z -> bool) (id : Z) (p : server_id) (full : bool).

Definition pctx : lock_context := Lock_context 0 0 p.

Definition own (T : list lock_struct) : list lock_struct := filter (fun x => own_lock pctx x = true) T.

(** An open file of the process. *)
Definition handle (f : posix_fsp) : Prop :=
  pf_id f = id /\ file (pf_fd f) = true /\ pf_can_write f = true /\ pf_use_ofd_locks f = false.

(** Entries of this process are locks or pending requests with a range below the end
    of the 64-bit space. *)
Definition entries_ok (T : list lock_struct) : Prop :=
  Forall (fun x => ctx_pid (context x) = p -> range_ok x /\ lock_type x <> UNLOCK_LOCK) T.

(** [J_other]: other processes, and requests of this one that are only waiting. *)
Inductive joint_step : list lock_struct * posix_state -> list lock_struct * posix_state -> Prop :=
| J_lock benv f br plock blocking r s s' :
    handle f -> ctx_pid (context plock) = p -> req_ok (l_start plock) (l_size plock) -> lock_type plock <> UNLOCK_LOCK ->
    BrlModel.serverid_exists benv p = true -> lp_posix_locking benv = true ->
    (full = true -> talloc_realloc_ok benv = true) ->
    lock_windows benv env f br plock blocking s = Some (r, s') ->
    joint_step (lock_data br, s) (lock_data (r_brl r), s')
| J_unlock benv f br plock b br' s s' :
    handle f -> ctx_pid (context plock) = p -> lp_posix_locking benv = true ->
    unlock_windows benv env f br plock s = Some (b, br', s') ->
    joint_step (lock_data br, s) (lock_data br', s')
| J_close f b T s s' :
    handle f -> fd_close_posix env f s = Some (b, s') -> joint_step (T, s) (T, s')
| J_other T T' s :
    own T' = own T -> entries_ok T' -> joint_step (T, s) (T', s).

Inductive joint_reach : list lock_struct * posix_state -> Prop :=
| Joint_start T : own T = [] -> entries_ok T -> joint_reach (T, Posix_state (Posix_db ∅ ∅ ∅) [])
| Joint_next x y : joint_reach x -> joint_step x y -> joint_reach y.

(** ** The invariant *)

Definition write_apart (a b : lock_struct) : Prop :=
  lock_type a = WRITE_LOCK -> lock_type b = WRITE_LOCK -> apart a b.

Definition ref_count (s : posix_state) : Z := default 0 (lock_ref_count (pdb s) !! id).

(** When the kernel holds nothing else than the table promises. *)
Definition exact : Prop := full = true /\ system_frees env file.

(** The number of references of the file to its locks. *)
Definition counted (T : list lock_struct) (s : posix_state) : Prop :=
  Z.of_nat (length (own T)) <= ref_count s <= INT32_MAX /\
  (full = true -> ref_count s = Z.of_nat (length (own T))).

Definition joint_inv (x : list lock_struct * posix_state) : Prop :=
  entries_ok x.1 /\ pairwise write_apart (own x.1) /\ mirrors exact file pctx (hist x.2) x.1 /\
  counted x.1 x.2.

Lemma own_lock_pctx c x : ctx_pid c = p -> own_lock c x = own_lock pctx x.
Proof. intros Hc. unfold own_lock. by rewrite Hc. Qed.

Lemma own_lock_pid x : own_lock pctx x = true -> ctx_pid (context x) = p.
Proof. unfold own_lock. intros [_ H]%andb_true_iff. by apply server_id_equal_spec in H. Qed.

Lemma entries_own T c :
  entries_ok T -> ctx_pid c = p -> Forall (fun y => own_lock c y = true -> range_ok y) T.
Proof.
  intros HT Hc. eapply Forall_impl; [exact HT|]. cbn. intros y Hy Ho. rewrite own_lock_pctx in Ho by done.
  by apply Hy, own_lock_pid.
Qed.

Lemma held_ctx c T b : ctx_pid c = p -> held c T b = held pctx T b.
Proof.
  intros Hc. unfold held, own_covers.
  assert (H : forall (g : lock_struct -> bool -> bool) l,
    existsb (fun x => g x (own_lock c x)) l = existsb (fun x => g x (own_lock pctx x)) l).
  { intros g l. induction l as [|x l IH]; [done|]. cbn. by rewrite IH, (own_lock_pctx c x Hc). }
  rewrite (H (fun x o => o && covers_b x b && is_type (lock_type x) WRITE_LOCK)).
  by rewrite (H (fun x o => o && covers_b x b)).
Qed.

Lemma mirrors_ctx c h T : ctx_pid c = p -> mirrors exact file c h T <-> mirrors exact file pctx h T.
Proof. intros Hc. unfold mirrors. by split; intros H b Hb; specialize (H b Hb); rewrite held_ctx in *. Qed.

Lemma mirrors_own h T T' : own T' = own T -> mirrors exact file pctx h T -> mirrors exact file pctx h T'.
Proof.
  intros Ho H b Hb. specialize (H b Hb). rewrite held_filter in *. unfold own in Ho. by rewrite Ho.
Qed.

Lemma mirrors_fewer h T x : own_lock pctx x = true -> (exact -> False) ->
  mirrors exact file pctx h (T ++ [x]) -> mirrors exact file pctx h T.
Proof.
  intros Ho Hne H b Hb. split; [|by intros ?%Hne].
  eapply at_least_trans; [by apply H | by apply at_least_snoc].
Qed.

(** ** Locking *)

Context (Hp : pid p <> 0).

Lemma mark_dead_foreign x : own_lock pctx (mark_dead x) = false.
Proof using Hp.
  apply not_true_iff_false. intros H%own_lock_pid. cbn in H. unfold clear_pid in H. rewrite <- H in Hp. by cbn in Hp.
Qed.

Lemma own_cons x T : own (x :: T) = if own_lock pctx x then x :: own T else own T.
Proof. unfold own. rewrite filter_cons. destruct (decide _) as [->|E]; [done|]. by apply not_true_iff_false in E as ->. Qed.

Lemma scan_own benv plock T :
  BrlModel.serverid_exists benv p = true -> own (windows_scan benv plock T).1.1 = own T.
Proof using Hp.
  intros Hx. induction T as [|x T IH]; [done|]. cbn [windows_scan].
  destruct (windows_scan benv plock T) as [[T' m] blk]. cbn [fst snd] in IH.
  destruct (brl_conflict x plock); [destruct (BrlModel.serverid_exists benv (ctx_pid (context x))) eqn:E|]; cbn [negb fst];
    [done | | by rewrite !own_cons, IH].
  rewrite !own_cons, mark_dead_foreign, IH. destruct (own_lock pctx x) eqn:Eo; [|done].
  apply own_lock_pid in Eo. congruence.
Qed.

Lemma scan_entries benv plock T : entries_ok T -> entries_ok (windows_scan benv plock T).1.1.
Proof using Hp.
  intros H. pose proof (windows_scan_marked benv plock T) as Hm. unfold entries_ok in *.
  induction Hm as [|x y T1 T2 Hxy _ IH]; [constructor|]. apply Forall_cons in H as [Hy H]. constructor; [|auto].
  destruct Hxy as [->|[-> _]]; [done|]. intros Hc. cbn in Hc. unfold clear_pid in Hc. by rewrite <- Hc in Hp.
Qed.

Lemma scan_no_conflict benv plock T :
  (windows_scan benv plock T).2 = None ->
  Forall (fun x => own_lock pctx x = true -> brl_conflict x plock = false) (windows_scan benv plock T).1.1.
Proof using Hp.
  induction T as [|x T IH]; [constructor|]. cbn [windows_scan].
  destruct (windows_scan benv plock T) as [[T' m] blk]. cbn [fst snd] in IH.
  destruct (brl_conflict x plock) eqn:Ec; [destruct (negb _)|]; cbn; intros H; try done; constructor; auto.
  intros Ho. by rewrite mark_dead_foreign in Ho.
Qed.

(** A write lock that is free of conflicts is apart from all locks of the process. *)
Lemma write_apart_own plock x :
  lock_type plock = WRITE_LOCK -> range_ok plock -> range_ok x -> own_lock pctx x = true ->
  brl_conflict x plock = false -> apart x plock.
Proof.
  intros Hw Hpl Hx Ho Hc. apply own_lock_type in Ho. unfold brl_conflict, is_type in Hc. rewrite Hw in Hc.
  assert (IS_PENDING_LOCK (lock_type x) = false) as Hpend by (by destruct Ho as [-> | ->]).
  rewrite Hpend in Hc. cbn [IS_PENDING_LOCK orb] in Hc.
  rewrite (bool_decide_eq_false_2 (WRITE_LOCK = READ_LOCK)) in Hc by done. rewrite !andb_false_r in Hc. cbn [andb] in Hc.
  intros b. by apply (brl_overlap_false x plock).
Qed.

Context (Hsys : system_ok env) (Hon : pe_locking env = true).

Lemma entries_snoc T x : entries_ok T -> range_ok x -> lock_type x <> UNLOCK_LOCK -> entries_ok (T ++ [x]).
Proof. intros HT Hr Ht. apply Forall_app. split; [done|]. by apply Forall_singleton. Qed.

Lemma own_app T T' : own (T ++ T') = own T ++ own T'.
Proof. apply filter_app. Qed.

Lemma increment_count f s s' h :
  pf_id f = id -> 0 <= ref_count s ->
  (fun db => Posix_state db h) <$> increment_lock_ref_count f (pdb s) = Some s' ->
  hist s' = h /\ ref_count s' = ref_count s + 1 /\ ref_count s' <= INT32_MAX.
Proof.
  intros Hf. unfold increment_lock_ref_count, change_ref_count, ref_count. rewrite Hf.
  set (v := default 0 (lock_ref_count (pdb s) !! id)). intros Hv. destruct (Z.ltb_spec v INT32_MAX) as [Hlt|]; [|done].
  intros [= <-]. split; [done|]. cbn. rewrite lookup_insert_eq. cbn.
  rewrite i32_id by (unfold INT32_MAX in Hlt; lia). lia.
Qed.

Lemma decrement_count f s :
  pf_id f = id -> 0 < ref_count s <= INT32_MAX ->
  exists db, decrement_lock_ref_count f (pdb s) = Some db /\
    forall h, ref_count (Posix_state db h) = ref_count s - 1.
Proof.
  intros Hf. unfold decrement_lock_ref_count, change_ref_count, ref_count. rewrite Hf.
  set (v := default 0 (lock_ref_count (pdb s) !! id)). intros Hv. destruct (Z.ltb_spec 0 v) as [Hlt|]; [|lia].
  eexists. split; [done|]. intros h. cbn. rewrite lookup_insert_eq. cbn. apply i32_id. unfold INT32_MAX in Hv. lia.
Qed.

Lemma scan_ext e1 e2 plock T :
  BrlModel.serverid_exists e1 = BrlModel.serverid_exists e2 -> windows_scan e1 plock T = windows_scan e2 plock T.
Proof. intros He. induction T as [|x T IH]; [done|]. cbn. by rewrite IH, He. Qed.

(** The table without change for this process. *)
Lemma joint_inv_same T T' s : own T' = own T -> entries_ok T' -> joint_inv (T, s) -> joint_inv (T', s).
Proof.
  intros Ho He (_ & Hw & Hm & Hc). unfold joint_inv, counted in *. cbn [fst snd] in *. rewrite Ho. split; [done|].
  split; [done|]. split; [|done]. by eapply mirrors_own.
Qed.

(** What is needed of the system call for a new lock. *)
Lemma set_lock_inv f T x s ok err s' :
  handle f -> ctx_pid (context x) = p -> range_ok x -> own_lock pctx x = true ->
  Forall (fun y => own_lock pctx y = true -> brl_conflict y x = false) T -> joint_inv (T, s) ->
  set_posix_lock_windows_flavour env f (l_start x) (l_size x) (lock_type x) (context x) T s = Some (ok, err, s') ->
  joint_inv (if ok then T ++ [x] else T, s').
Proof using Hsys.
  intros (Hid & Hfd & Hcw & _) Hc Hr Ho Hfree (He & Hw & Hm & Hle & Heq). cbn [fst snd] in *.
  assert (Hap : lock_type x = WRITE_LOCK -> Forall (fun y => apart y x) (own T)).
  { intros Ht. apply Forall_forall. intros y [Hy Hin]%list_elem_of_filter.
    rewrite Forall_forall in Hfree. unfold entries_ok in He. rewrite Forall_forall in He.
    apply write_apart_own; [done | done | by apply He, own_lock_pid | done | by apply Hfree]. }
  destruct (set_windows_ok env file f Hsys exact (@proj2 _ _) Hfd (context x) T x s) as (ok' & err' & h & -> & Hm'); try done.
  { by apply entries_own. }
  { by rewrite own_lock_pctx. }
  { intros Ht b Hb (y & Hy & Hoy & Hyb). rewrite own_lock_pctx in Hoy by done.
    specialize (Hap Ht). rewrite Forall_forall in Hap. apply (Hap y) with b; [by apply list_elem_of_filter | exact (conj Hyb Hb)]. }
  { by apply mirrors_ctx. }
  apply mirrors_ctx in Hm'; [|done]. destruct ok'; cycle 1.
  { intros [= <- <- <-]. by split_and!. }
  intros Hset. destruct (increment_lock_ref_count f (pdb s)) as [db|] eqn:Einc; [|done]. injection Hset as <- <- <-.
  destruct (increment_count f s (Posix_state db h) h Hid) as (_ & Hcount & Hmax); [lia | by rewrite Einc |].
  unfold joint_inv, counted. cbn [fst snd]. split; [|split; [|split; [done|]]].
  - apply entries_snoc; [done | done |]. destruct (own_lock_type _ _ Ho) as [-> | ->]; done.
  - rewrite own_app, own_cons, Ho. cbn. apply pairwise_app. split_and!; [done | done |].
    apply Forall_forall. intros y Hy. apply Forall_singleton. intros _ Ht. specialize (Hap Ht).
    rewrite Forall_forall in Hap. by apply Hap.
  - rewrite Hcount, own_app, own_cons, Ho, length_app. cbn [length]. change (length (own [])) with 0%nat.
    split; [lia|]. intros Hf. specialize (Heq Hf). lia.
Qed.

(** The system lock was set but the array could not be enlarged. *)
Lemma unstored_lock_inv T x s :
  own_lock pctx x = true -> full = false -> joint_inv (T ++ [x], s) -> joint_inv (T, s).
Proof.
  intros Ho Hfull (He & Hw & Hm & Hle & _). unfold joint_inv, counted, entries_ok in *. cbn [fst snd] in *.
  rewrite own_app, length_app in Hle. rewrite own_app in Hw. apply Forall_app in He as [He _].
  apply pairwise_app in Hw as (Hw & _). split; [done|]. split; [done|]. split.
  - eapply mirrors_fewer; [done| |done]. intros [? _]. congruence.
  - split; [lia|]. congruence.
Qed.

Lemma lock_inv benv f br plock blocking r s s' :
  handle f -> ctx_pid (context plock) = p -> req_ok (l_start plock) (l_size plock) -> lock_type plock <> UNLOCK_LOCK ->
  BrlModel.serverid_exists benv p = true -> lp_posix_locking benv = true ->
  (full = true -> talloc_realloc_ok benv = true) ->
  lock_windows benv env f br plock blocking s = Some (r, s') ->
  joint_inv (lock_data br, s) -> joint_inv (lock_data (r_brl r), s').
Proof using Hp Hsys.
  intros Hf Hc Hr Ht Hx Hlp Hmem Hrun Hinv.
  assert (joint_inv ((windows_scan benv plock (lock_data br)).1.1, s)) as Hscan.
  { eapply joint_inv_same; [by apply scan_own | by apply scan_entries, Hinv | done]. }
  pose proof (scan_no_conflict benv plock (lock_data br)) as Hfree.
  revert Hrun. unfold lock_windows, brl_lock_windows_default.
  destruct (is_type (lock_type plock) UNLOCK_LOCK); [done|].
  destruct (_ && negb (l_size plock =? 0)) eqn:Eguard; [by intros [= <- <-]|].
  apply windows_guard_fits in Hr; [|done].
  rewrite (scan_ext (with_posix benv env f s) benv) by done.
  destruct (windows_scan benv plock (lock_data br)) as [[T m] [blk|]]; cbn [fst snd] in *.
  { destruct (brl_lock_failed _ _ _). by intros [= <- <-]. }
  cbn [with_posix lp_posix_locking talloc_realloc_ok BrlModel.set_posix_lock_windows_flavour]. rewrite Hlp, andb_true_r.
  destruct (IS_PENDING_LOCK (lock_type plock)) eqn:Epend; cbn [negb andb].
  { assert (own_lock pctx plock = false) as Hno by (unfold own_lock; by destruct (lock_type plock)).
    destruct (talloc_realloc_ok benv); cbn [negb];
      replace (existsb _ _) with false by (by destruct (lock_type plock)); intros [= <- <-]; [|done].
    eapply joint_inv_same; [| by apply entries_snoc; [apply Hscan | ..] | exact Hscan].
    cbn. rewrite own_app, own_cons, Hno. apply app_nil_r. }
  assert (own_lock pctx plock = true) as Hown.
  { unfold own_lock. rewrite Hc. apply andb_true_iff. split; [by destruct (lock_type plock)|]. by apply server_id_equal_spec. }
  destruct (set_posix_lock_windows_flavour env f _ _ _ _ T s) as [[[ok err] s1]|] eqn:Eset; cycle 1.
  { cbn. replace (existsb _ _) with true by (by destruct (lock_type plock)). done. }
  pose proof (set_lock_inv f T plock s ok err s1 Hf Hc Hr Hown (Hfree eq_refl) Hscan Eset) as Hnew.
  destruct ok; cbn; [destruct (talloc_realloc_ok benv) eqn:Ere|]; cbn;
    replace (existsb _ _) with true by (by destruct (lock_type plock)); intros [= <- <-]; [done| |done].
  apply (unstored_lock_inv _ plock); [done| |done]. destruct full; [by specialize (Hmem eq_refl)|done].
Qed.

(** ** Unlocking *)

(** The entry that an unlock removes is a lock of the process. *)
Lemma match_own plock x T :
  ctx_pid (context plock) = p -> entries_ok T -> x ∈ T -> unlock_windows_match plock x = true ->
  range_ok x /\ own_lock pctx x = true /\ context x = context plock /\ l_start x = l_start plock /\ l_size x = l_size plock.
Proof.
  intros Hc HT Hin. unfold unlock_windows_match. rewrite !andb_true_iff, !Z.eqb_eq. intros (Hpend & (((Hctx & _) & _) & Hs) & Hz).
  apply brl_same_context_spec in Hctx. unfold entries_ok in HT. rewrite Forall_forall in HT.
  destruct (HT x Hin) as [Hr Ht]; [by rewrite Hctx|]. split_and!; [done | | done..]. unfold own_lock. apply andb_true_iff. split.
  - by destruct (lock_type x).
  - apply server_id_equal_spec. by rewrite Hctx.
Qed.

Lemma own_permutation T T' : T ≡ₚ T' -> own T ≡ₚ own T'.
Proof. intros H. unfold own. by rewrite H. Qed.

(** The system call for the removal of the lock [x]. *)
Lemma release_lock_inv f T T' x s :
  handle f -> T ≡ₚ T' ++ [x] -> own_lock pctx x = true -> range_ok x -> joint_inv (T, s) ->
  exists ret s', release_posix_lock_windows_flavour env f (l_start x) (l_size x) (lock_type x) (context x) T' s =
      Some (ret, s') /\ joint_inv (T', s').
Proof using Hsys.
  intros (Hid & Hfd & _) HT Ho Hr (He & Hw & Hm & Hle & Heq). cbn [fst snd] in *.
  assert (ctx_pid (context x) = p) as Hc by (by apply own_lock_pid).
  pose proof (own_permutation _ _ HT) as HO. rewrite own_app, own_cons, Ho in HO. cbn in HO.
  assert (entries_ok T') as He'. { unfold entries_ok in *. rewrite HT in He. by apply Forall_app in He as [? _]. }
  eapply pairwise_permutation in Hw; [| | exact HO]; [|intros a b Hab Ha Hb q [? ?]; by apply (Hab Hb Ha q)].
  apply pairwise_app in Hw as (Hw & _ & Hwx).
  rewrite HO, length_app in Hle, Heq. cbn [length] in Hle, Heq.
  destruct (decrement_count f s Hid) as (db & Hdb & Hcount); [lia|].
  pose proof (release_windows_ok env file f Hsys exact (@proj2 _ _) Hfd (context x) T' x s) as Hrel. rewrite Hdb in Hrel.
  destruct Hrel as (ret & h' & -> & Hm'); [by apply entries_own | done | by rewrite own_lock_pctx | | |].
  - intros Ht b Hb Hheld. rewrite held_ctx in Hheld by done. apply held_write in Hheld as (y & Hy & Hoy & Hty & Hyb).
    rewrite Forall_forall in Hwx. specialize (Hwx y). rewrite Forall_singleton in Hwx.
    apply Hwx with b; [by apply list_elem_of_filter | done | done | done].
  - apply mirrors_ctx; [done|]. intros b Hb. rewrite <- (held_permutation _ _ _ _ HT). by apply Hm.
  - exists ret, (Posix_state db h'). split; [done|]. apply mirrors_ctx in Hm'; [|done].
    unfold joint_inv, counted. cbn [fst snd]. rewrite Hcount. split; [done|]. split; [done|]. split; [done|].
    split; [lia|]. intros Hf. specialize (Heq Hf). lia.
Qed.

Lemma unlock_run benv f br plock s :
  handle f -> ctx_pid (context plock) = p -> lp_posix_locking benv = true -> lock_type plock = UNLOCK_LOCK ->
  joint_inv (lock_data br, s) ->
  exists b br' s', unlock_windows benv env f br plock s = Some (b, br', s') /\ joint_inv (lock_data br', s').
Proof using Hsys.
  intros Hf Hc Hlp Ht Hinv. unfold unlock_windows, brl_unlock_windows_default. rewrite Ht. cbn [negb is_type].
  pose proof (find_index_spec (unlock_windows_match plock) (lock_data br)) as Hfi.
  destruct (find_index _ _) as [i|]; [|by exists false, br, s].
  destruct Hfi as (x & Hi & Hmatch). rewrite Hi, Hlp. cbn [default fmap option_fmap option_map app].
  destruct (match_own plock x (lock_data br) Hc) as (Hr & Ho & Hcx & Hs & Hz); [apply Hinv | by eapply list_elem_of_lookup_2 | done |].
  rewrite <- Hs, <- Hz, <- Hcx. replace (is_type UNLOCK_LOCK UNLOCK_LOCK) with true by done. cbn [negb Datatypes.id].
  destruct (release_lock_inv f (lock_data br) (brl_delete_lock_struct (lock_data br) i) x s) as (ret & s' & -> & Hinv');
    [done | by apply delete_permutation | done..|].
  by eexists _, _, _.
Qed.

(** ** Closing *)

Definition pending (s : posix_state) : list Z := default [] (fds_to_close (pdb s) !! id).

Definition closed (s : posix_state) (fd : Z) : Prop := exists ok, Sys_close fd ok ∈ hist s.

Lemma close_fds_incl fds h ok e : e ∈ h -> e ∈ (close_fds env h fds ok).2.
Proof. revert h ok. induction fds as [|fd fds IH]; intros h ok He; [done|]. cbn. apply IH, elem_of_app. by left. Qed.

Lemma close_fds_closed fds h ok fd : fd ∈ fds -> exists ok', Sys_close fd ok' ∈ (close_fds env h fds ok).2.
Proof.
  revert h ok. induction fds as [|x fds IH]; intros h ok [->|H]%elem_of_cons || intros h ok H; [by apply not_elem_of_nil in H | |by apply IH].
  exists (sys_close env h x).1. cbn. apply close_fds_incl, elem_of_app. right. by apply list_elem_of_singleton.
Qed.

(** A close drops the locks only when none are counted. *)
Lemma close_inv f T s b s' :
  handle f -> joint_inv (T, s) -> fd_close_posix env f s = Some (b, s') ->
  joint_inv (T, s') /\
  if decide (ref_count s = 0) then Forall (closed s') (pending s ++ [pf_fd f]) /\ pending s' = []
  else hist s' = hist s /\ pending s' = pending s ++ [pf_fd f].
Proof using Hon.
  intros (Hid & Hfd & _ & Hofd) Hinv. pose proof Hinv as (He & Hw & Hm & Hle & Heq). cbn [fst snd] in *.
  unfold fd_close_posix, get_lock_ref_count, add_fd_to_close_entry, get_posix_pending_close_entries.
  rewrite Hon, Hofd, Hid. fold (ref_count s) (pending s). cbn [negb orb].
  destruct (decide (ref_count s = 0)) as [E0|E0].
  - rewrite E0 in *. cbn [Z.eqb negb]. assert (own T = []) as Eo by (destruct (own T); [done|cbn in Hle; lia]).
    pose proof (close_fds_closed (pending s) (hist s) true) as Hcl.
    destruct (close_fds env (hist s) _ true) as [saved h]. cbn [snd call_close] in *.
    intros [= _ <-]. split_and!.
    + unfold joint_inv, counted, ref_count. cbn. rewrite Hid, lookup_delete_eq. fold (own T). rewrite Eo. split_and!; try done.
      intros b' Hb. rewrite kernel_snoc. cbn. rewrite Hfd, held_filter. fold (own T). rewrite Eo. split; [by left|done].
    + unfold closed. apply Forall_app. split; [apply Forall_forall; intros fd Hin; destruct (Hcl fd Hin) as [ok Hok]; exists ok|].
      * apply elem_of_app. by left.
      * apply Forall_singleton. eexists. apply elem_of_app. right. by apply list_elem_of_singleton.
    + destruct (length (pending s) =? 0)%nat eqn:El; [|unfold pending; cbn; by rewrite Hid, lookup_delete_eq].
      apply Nat.eqb_eq, length_zero_iff_nil in El. exact El.
  - replace (negb _) with true by (symmetry; by apply negb_true_iff, Z.eqb_neq).
    destruct (negb (pe_talloc_ok env)); [done|]. intros [= _ <-]. split_and!; [by split_and! | done |].
    unfold pending. cbn. rewrite lookup_insert_eq. done.
Qed.

Lemma close_total f s : pe_talloc_ok env = true -> is_Some (fd_close_posix env f s).
Proof.
  intros Hmem. unfold fd_close_posix, add_fd_to_close_entry. rewrite Hmem. cbn [negb].
  repeat case_match; try (by eexists); simplify_eq.
Qed.

(** ** Reachable states *)

Lemma joint_step_inv x y : joint_step x y -> joint_inv x -> joint_inv y.
Proof using Hp Hsys Hon.
  intros [] Hinv.
  - by eapply lock_inv.
  - destruct (bool_decide (lock_type plock = UNLOCK_LOCK)) eqn:E; apply bool_decide_eq_true in E || apply bool_decide_eq_false in E.
    + destruct (unlock_run benv f br plock s) as (? & ? & ? & ? & ?); [done..|]. by simplify_eq.
    + unfold unlock_windows, brl_unlock_windows_default in *. by destruct (lock_type plock).
  - by eapply close_inv.
  - by eapply joint_inv_same.
Qed.

Lemma joint_reach_inv x : joint_reach x -> joint_inv x.
Proof using Hp Hsys Hon.
  induction 1 as [T Ho HT | x y _ IH Hs]; [| by eapply joint_step_inv].
  unfold joint_inv, mirrors, counted. cbn [fst snd]. rewrite Ho. split; [done|]. split; [done|]. split; [|done].
  intros b _. rewrite held_filter. fold (own T). rewrite Ho. split; [by left|done].
Qed.

End joint.

(** ** Data for the witnesses *)

Definition sys_demo : posix_env :=
  Posix_env (fun _ _ _ _ _ => (true, 0)) (fun _ _ => (true, 0)) (fun _ o c t => (true, 0, (o, c, F_UNLCK))) true true true.
Definition smbd_demo : server_id := Server_id 77 0 0 9.
Definition benv_demo : brl_env :=
  Brl_env (fun _ => true) true (fun _ _ _ _ _ _ => Posix_result true 0 0) (fun _ _ _ _ _ => Posix_result true 0 0)
    (fun _ o c t _ => (false, o, c, t)) true true true.
Definition fsp_demo (fd : Z) : posix_fsp := Posix_fsp 4 fd true false.
Definition win_demo (start size : Z) (t : brl_type) : lock_struct :=
  Lock_struct (Lock_context 5 1 smbd_demo) start size 3 t WINDOWS_LOCK.
Definition brl_demo (T : list lock_struct) : byte_range_lock :=
  Byte_range_lock (Files_struct 4 1 3 smbd_demo (win_demo 0 0 READ_LOCK) 0 None) false 0 T false.

Lemma system_ok_demo : system_ok sys_demo.
Proof. by split. Qed.

Lemma system_frees_demo : system_frees sys_demo (fun _ => true).
Proof. by split. Qed.

(** The example of the comment in [set_posix_lock_windows_flavour]: a write lock, a
    read lock over it, the unlock of the write lock. *)
Definition demo_lock (plock : lock_struct) (x : list lock_struct * posix_state) : list lock_struct * posix_state :=
  match lock_windows benv_demo sys_demo (fsp_demo 10) (brl_demo x.1) plock false x.2 with
  | Some (r, s) => (lock_data (r_brl r), s)
  | None => x
  end.
Definition demo_unlock (plock : lock_struct) (x : list lock_struct * posix_state) : list lock_struct * posix_state :=
  match unlock_windows benv_demo sys_demo (fsp_demo 10) (brl_demo x.1) plock x.2 with
  | Some (_, br, s) => (lock_data br, s)
  | None => x
  end.
Definition demo_run : list lock_struct * posix_state :=
  demo_unlock (win_demo 2 10 UNLOCK_LOCK)
    (demo_lock (win_demo 0 14 READ_LOCK)
      (demo_lock (win_demo 2 10 WRITE_LOCK) ([], Posix_state (Posix_db ∅ ∅ ∅) []))).

Lemma handle_demo fd : handle (fun _ => true) 4 (fsp_demo fd).
Proof. by split_and!. Qed.

Lemma demo_lock_reach plock x :
  ctx_pid (context plock) = smbd_demo -> req_ok (l_start plock) (l_size plock) -> lock_type plock <> UNLOCK_LOCK ->
  joint_reach sys_demo (fun _ => true) 4 smbd_demo true x ->
  joint_reach sys_demo (fun _ => true) 4 smbd_demo true (demo_lock plock x).
Proof.
  intros Hc Hr Ht Hx. unfold demo_lock. destruct (lock_windows _ _ _ _ _ _ _) as [[r s]|] eqn:E; [|done].
  eapply Joint_next; [exact Hx|]. destruct x as [T s0].
  by eapply (J_lock _ _ _ _ _ benv_demo _ (brl_demo T)); [apply handle_demo | ..].
Qed.

Lemma demo_unlock_reach plock x :
  ctx_pid (context plock) = smbd_demo ->
  joint_reach sys_demo (fun _ => true) 4 smbd_demo true x ->
  joint_reach sys_demo (fun _ => true) 4 smbd_demo true (demo_unlock plock x).
Proof.
  intros Hc Hx. unfold demo_unlock. destruct (unlock_windows _ _ _ _ _ _) as [[[b br] s]|] eqn:E; [|done].
  eapply Joint_next; [exact Hx|]. destruct x as [T s0].
  by eapply (J_unlock _ _ _ _ _ benv_demo _ (brl_demo T)); [apply handle_demo | ..].
Qed.

Lemma demo_reach : joint_reach sys_demo (fun _ => true) 4 smbd_demo true demo_run.
Proof.
  apply demo_unlock_reach; [done|]. apply demo_lock_reach; [done | by vm_compute | done |].
  apply demo_lock_reach; [done | by vm_compute | done |]. by apply Joint_start; [|constructor].
Qed.

(** ** Claims *)

(** C15. On every run of Windows locks, unlocks and closes of a process on a file,
    interleaved with the other processes, the kernel holds each byte for the process at
    least as strongly as the table of the file says: for writing where the process has
    a write lock, and for reading or writing where it has only read locks, whatever
    system calls and allocations fail, and although locks are merged and split; read
    locks stacked over a write lock survive its removal. Where no call that unlocks or
    turns a lock into a read lock and no allocation fails, the kernel holds exactly what
    the table says. Conditions: POSIX locking is on and process-wide, the handles are
    open for writing, the process id is not 0, no lock request ends exactly at 2^64, the
    kernel does not refuse an offset or count of more than 31 bits with EFBIG, ENOLCK or
    EINVAL, and there is memory for ranges that are split ([split_without_memory] shows
    what happens otherwise). *)
Theorem system_locks_mirror_table env file id p full T s :
  pid p <> 0 -> system_ok env -> pe_locking env = true -> joint_reach env file id p full (T, s) ->
  forall b, 0 <= b < max_positive_lock_offset ->
    at_least (kernel file (hist s) b) (held (pctx p) T b) /\
    (full = true -> system_frees env file -> kernel file (hist s) b = held (pctx p) T b).
Proof.
  intros Hp Hsys Hon Hr b Hb. apply joint_reach_inv in Hr as (_ & _ & Hm & _); [|done..].
  split; [by apply Hm|]. intros Hf Hs. by apply Hm.
Qed.

Lemma system_locks_mirror_table_witness :
  demo_run.1 = [win_demo 0 14 READ_LOCK] /\ at_least (kernel (fun _ => true) (hist demo_run.2) 5) (Some F_RDLCK) /\
  kernel (fun _ => true) (hist demo_run.2) 14 = None.
Proof.
  assert (H : forall b, 0 <= b < max_positive_lock_offset -> _)
    by exact (system_locks_mirror_table sys_demo (fun _ => true) 4 smbd_demo true demo_run.1 demo_run.2
                ltac:(discriminate) system_ok_demo eq_refl demo_reach).
  split; [vm_compute; reflexivity|]. split.
  - exact (proj1 (H 5 ltac:(split; discriminate || reflexivity))).
  - exact (proj2 (H 14 ltac:(split; discriminate || reflexivity)) eq_refl system_frees_demo).
Defined.

(** Closing a file and unlocking never fail an assertion. A descriptor of a file on
    which the process has locks is kept open, so that the kernel drops none of them, and
    is remembered; when there are no locks all remembered descriptors are closed. *)
Theorem close_keeps_system_locks env file id p T s f :
  pid p <> 0 -> system_ok env -> pe_locking env = true -> pe_talloc_ok env = true ->
  joint_reach env file id p true (T, s) -> handle file id f ->
  (exists b s', fd_close_posix env f s = Some (b, s') /\
    if decide (own p T = []) then Forall (closed s') (pending id s ++ [pf_fd f]) /\ pending id s' = []
    else hist s' = hist s /\ pending id s' = pending id s ++ [pf_fd f]) /\
  (forall benv br plock, lock_data br = T -> ctx_pid (context plock) = p -> lp_posix_locking benv = true ->
    lock_type plock = UNLOCK_LOCK -> exists r, unlock_windows benv env f br plock s = Some r).
Proof.
  intros Hp Hsys Hon Hmem Hr Hf. apply joint_reach_inv in Hr; [|done..]. split.
  - destruct (close_total env f s Hmem) as [[b s'] Hc]. exists b, s'. split; [done|].
    destruct (close_inv env file id p true Hon f T s b s' Hf Hr Hc) as [_ H].
    destruct Hr as (_ & _ & _ & _ & Heq). specialize (Heq eq_refl). cbn [fst snd] in Heq.
    destruct (decide (own p T = [])) as [E|E], (decide (ref_count id s = 0)) as [E'|E']; try done;
      [rewrite E in Heq; by cbn in Heq | destruct (own p T); [done | cbn in Heq; lia]].
  - intros benv br plock <- Hc Hlp Ht.
    destruct (unlock_run env file id p true Hsys benv f br plock s) as (b & br' & s' & -> & _); [done..|]. eauto.
Qed.

Lemma close_keeps_system_locks_witness :
  exists b s', fd_close_posix sys_demo (fsp_demo 11) demo_run.2 = Some (b, s') /\
    hist s' = hist demo_run.2 /\ pending 4 s' = [11].
Proof.
  destruct (close_keeps_system_locks sys_demo (fun _ => true) 4 smbd_demo demo_run.1 demo_run.2 (fsp_demo 11))
    as [(b & s' & Hc & H) _];
    [discriminate | exact system_ok_demo | reflexivity | reflexivity | exact demo_reach | apply handle_demo |].
  exists b, s'. split; [exact Hc|]. destruct (decide _) as [E|_]; [discriminate E | exact H].
Defined.

(** ** Deviations *)

(** POSIX locks of one context on two files: the second file is not counted, and its
    unlock fails the assertion on the count. *)
Lemma posix_context_two_files :
  (let ctx := Lock_context 5 1 smbd_demo in
  let f1 := Posix_fsp 1 10 true false in
  let f2 := Posix_fsp 2 11 true false in
  r1 ← set_posix_lock_posix_flavour sys_demo f1 0 10 WRITE_LOCK ctx (Posix_state (Posix_db ∅ ∅ ∅) []);
  r2 ← set_posix_lock_posix_flavour sys_demo f2 0 10 WRITE_LOCK ctx r1.2;
  Some (r1.1.1, r2.1.1, get_lock_ref_count f2 (pdb r2.2),
        release_posix_lock_posix_flavour sys_demo f2 0 10 ctx [] r2.2)) = Some (true, true, 0, None).
Proof. vm_compute. reflexivity. Qed.

(** A range beyond 31 bits that the system refuses to look at is reported as locked. *)
Lemma unknown_range_is_locked :
  let env := Posix_env (sys_lock sys_demo) (sys_close sys_demo) (fun _ o c t => (false, EFBIG, (o, c, t))) true true true in
  PosixModel.is_posix_locked env (fsp_demo 10) (2 ^ 31) 1 WRITE_LOCK WINDOWS_LOCK = (true, 2 ^ 31, 1, WRITE_LOCK).
Proof. vm_compute. reflexivity. Qed.

(** A count of 2^31 is cut to 0, which locks to the end of the file. *)
Lemma truncated_count_locks_all :
  let env := Posix_env (fun _ _ _ count _ => (count <=? 0x7fffffff, EFBIG)) (sys_close sys_demo) (sys_getlock sys_demo) true true true in
  kernel (fun _ => true) (posix_fcntl_lock env [] (fsp_demo 10) 0 (2 ^ 31) F_WRLCK).2 (2 ^ 40) = Some F_WRLCK.
Proof. vm_compute. reflexivity. Qed.

(** A read lock around one that the process has needs a split range; without memory for
    it success is reported and no system lock is set. *)
Lemma split_without_memory :
  let env := Posix_env (sys_lock sys_demo) (sys_close sys_demo) (sys_getlock sys_demo) true true false in
  exists s', set_posix_lock_windows_flavour env (fsp_demo 10) 0 20 READ_LOCK (Lock_context 5 1 smbd_demo)
    [win_demo 5 5 READ_LOCK] (Posix_state (Posix_db ∅ ∅ ∅) []) = Some (true, None, s') /\ hist s' = [].
Proof. eexists. split; reflexivity. Qed.
