(* ===== verification/GLockModel.v ===== *)
(** * Global locks

    source3/lib/g_lock.c: named read and write locks that the processes of a node
    or cluster share, with a data area per lock, kept as records of a database. A
    record holds the number of holders, 25 bytes per holder, and the data. Every
    operation runs under the lock of its record. *)

From S2P Require Import Prelude.
From S2P Require Import ServerId.
From stdpp Require Import prelude list gmap.

#[local] Open Scope Z_scope.

(** ** Records *)

Definition NT_STATUS_WAS_LOCKED : NTSTATUS := 0x40000019.
Definition NT_STATUS_NOT_LOCKED : NTSTATUS := 0xC000002A.
Definition NT_STATUS_FILE_INVALID : NTSTATUS := 0xC0000098.
Definition NT_STATUS_INTERNAL_DB_CORRUPTION : NTSTATUS := 0xC00000E4.
Definition NT_STATUS_NOT_FOUND : NTSTATUS := 0xC0000225.
Definition NT_STATUS_IO_TIMEOUT : NTSTATUS := 0xC00000B5.

Definition G_LOCK_READ : Z := 0.
Definition G_LOCK_WRITE : Z := 1.

Record g_lock_rec := G_lock_rec { gr_type : Z; gr_pid : server_id }.

(** SERVER_ID_BUF_LENGTH + 1 *)
Definition G_LOCK_REC_LENGTH : nat := 25.

Definition g_lock_rec_put (r : g_lock_rec) : list Z := u8 (gr_type r) :: server_id_put (gr_pid r).

Definition g_lock_rec_get (buf : list Z) : g_lock_rec := G_lock_rec (hd 0 buf) (server_id_get (tail buf)).

(** [recsbuf]: the bytes from the first holder up to the data. *)
Record g_lock := G_lock { recsbuf : list Z; num_recs : nat; gdata : list Z }.

Definition g_lock_parse (buf : list Z) : option g_lock :=
  if (length buf <? 4)%nat then Some (G_lock [] 0 [])
  else
    let found_recs := le_value (take 4 buf) in
    let buf := drop 4 buf in
    if Z.of_nat (length buf / G_LOCK_REC_LENGTH) <? found_recs then None
    else
      let data_ofs := (Z.to_nat found_recs * G_LOCK_REC_LENGTH)%nat in
      Some (G_lock (take data_ofs buf) (Z.to_nat found_recs) (drop data_ofs buf)).

(** [None]: abort. *)
Definition g_lock_get_rec (lck : g_lock) (i : nat) : option g_lock_rec :=
  if (num_recs lck <=? i)%nat then None
  else Some (g_lock_rec_get (take G_LOCK_REC_LENGTH (drop (i * G_LOCK_REC_LENGTH) (recsbuf lck)))).

Definition g_lock_rec_del (lck : g_lock) (i : nat) : option g_lock :=
  if (num_recs lck <=? i)%nat then None
  else
    let num := (num_recs lck - 1)%nat in
    let buf := recsbuf lck in
    Some (G_lock
      (if (i <? num)%nat
       then take (i * G_LOCK_REC_LENGTH) buf ++
            take G_LOCK_REC_LENGTH (drop (num * G_LOCK_REC_LENGTH) buf) ++
            drop (S i * G_LOCK_REC_LENGTH) buf
       else buf) num (gdata lck)).

(** ** The surroundings *)

(** [record_storev v]: the status of storing [v]; the record keeps its value if it
    is not OK. *)
Record g_env := G_env {
  serverid_exists : server_id -> bool;
  generate_random : Z;
  record_storev : list Z -> NTSTATUS;
  record_delete : NTSTATUS;
}.

(** The bytes that are stored. *)
Definition store_bytes (lck : g_lock) (add : option g_lock_rec) : list Z :=
  let num := match add with Some _ => S (num_recs lck) | None => num_recs lck end in
  le_bytes 4 (Z.of_nat num) ++ take (num_recs lck * G_LOCK_REC_LENGTH) (recsbuf lck) ++
  match add with Some r => g_lock_rec_put r | None => [] end ++ gdata lck.

(** The status and the value of the record. *)
Definition g_lock_store (env : g_env) (value : list Z) (lck : g_lock) (add : option g_lock_rec)
    : NTSTATUS * list Z :=
  let v := store_bytes lck add in
  let status := record_storev env v in
  (status, if NT_STATUS_IS_OK status then v else value).

(** ** Locking *)

Definition g_lock_conflicts (l1 l2 : Z) : bool := negb ((l1 =? G_LOCK_READ) && (l2 =? G_LOCK_READ)).

(** The check of a random holder. *)
Definition drop_random (env : g_env) (type : Z) (lck : g_lock) : option (g_lock * bool) :=
  if (type =? G_LOCK_READ) && (0 <? num_recs lck)%nat then
    let i := Z.to_nat (generate_random env mod Z.of_nat (num_recs lck)) in
    check_rec ← g_lock_get_rec lck i;
    if (gr_type check_rec =? G_LOCK_READ) && negb (serverid_exists env (gr_pid check_rec))
    then lck ← g_lock_rec_del lck i; Some (lck, true)
    else Some (lck, false)
  else Some (lck, false).

(** The first holder from [i] on that satisfies [p]; [n]: the holders left. *)
Fixpoint find_rec (p : g_lock_rec -> bool) (lck : g_lock) (n i : nat) : option (option (nat * g_lock_rec)) :=
  match n with
  | O => Some None
  | S n =>
      lock ← g_lock_get_rec lck i;
      if p lock then Some (Some (i, lock)) else find_rec p lck n (S i)
  end.

Definition not_to_verify (p : server_id) : server_id :=
  Server_id (pid p) (task_id p) (vnn p) SERVERID_UNIQUE_ID_NOT_TO_VERIFY.

(** The loop over the other holders: the record, whether it changed, and the holder
    that blocks the request. Each turn uses one of the [fuel] holders. *)
Fixpoint conflict_loop (env : g_env) (type : Z) (fuel : nat) (lck : g_lock) (i : nat)
    : option (g_lock * bool * option server_id) :=
  if (num_recs lck <=? i)%nat then Some (lck, false, None)
  else
    match fuel with
    | O => None
    | S fuel =>
        lock ← g_lock_get_rec lck i;
        if g_lock_conflicts type (gr_type lock) then
          if serverid_exists env (not_to_verify (gr_pid lock)) then Some (lck, false, Some (gr_pid lock))
          else
            lck ← g_lock_rec_del lck i;
            '(lck, _, b) ← conflict_loop env type fuel lck i;
            Some (lck, true, b)
        else conflict_loop env type fuel lck (S i)
    end.

(** The part of [g_lock_trylock] after the label done. *)
Definition trylock_done (env : g_env) (value : list Z) (lck : g_lock) (modified : bool)
    (mylock : option g_lock_rec) (status : NTSTATUS) : NTSTATUS * list Z :=
  if modified then
    let add := match mylock with
               | Some r => if negb (pid (gr_pid r) =? 0) then Some r else None
               | None => None
               end in
    let '(store_status, value) := g_lock_store env value lck add in
    (if negb (NT_STATUS_IS_OK store_status) then store_status else status, value)
  else (status, value).

(** The conflicts with the other holders. *)
Definition trylock_others (env : g_env) (value : list Z) (self : server_id) (type : Z) (lck : g_lock)
    (modified : bool) (mylock : option g_lock_rec) : option (NTSTATUS * option server_id * list Z) :=
  '(lck, m, blocker) ← conflict_loop env type (num_recs lck) lck 0;
  let '(status, value) :=
    match blocker with
    | Some _ => trylock_done env value lck (modified || m) mylock NT_STATUS_LOCK_NOT_GRANTED
    | None => trylock_done env value lck true (Some (G_lock_rec type self)) NT_STATUS_OK
    end in
  Some (status, blocker, value).

(** The status, the blocker and the value of the record. [mylock] is [None] while
    it is all zero. *)
Definition g_lock_trylock (env : g_env) (value : list Z) (self : server_id) (type : Z)
    : option (NTSTATUS * option server_id * list Z) :=
  match g_lock_parse value with
  | None => Some (NT_STATUS_INTERNAL_DB_CORRUPTION, None, value)
  | Some lck =>
      '(lck, modified) ← drop_random env type lck;
      mine ← find_rec (fun lock => server_id_equal self (gr_pid lock)) lck (num_recs lck) 0;
      match mine with
      | Some (i, lock) =>
          if gr_type lock =? type then
            let '(status, value) := trylock_done env value lck modified None NT_STATUS_WAS_LOCKED in
            Some (status, None, value)
          else
            lck ← g_lock_rec_del lck i;
            trylock_others env value self type lck true (Some lock)
      | None => trylock_others env value self type lck modified None
      end
  end.

(** A request: finished, failed, waiting for the record to change, or left without
    a watch that could end it. *)
Inductive lock_request :=
| Req_done
| Req_error (status : NTSTATUS)
| Req_waiting (blocker : server_id)
| Req_unfinished.

(** The common part of [g_lock_lock_send] and [g_lock_lock_retry]: [do_locked] is the
    status of getting the record, [watch_ok] and [endtime_ok] whether the watch and its
    timeout could be set up. *)
Definition g_lock_lock_send (env : g_env) (do_locked : NTSTATUS) (watch_ok endtime_ok : bool) (value : list Z)
    (self : server_id) (type : Z) : option (lock_request * list Z) :=
  if negb (NT_STATUS_IS_OK do_locked) then Some (Req_error do_locked, value)
  else
    '(status, blocker, value) ← g_lock_trylock env value self type;
    Some (if NT_STATUS_IS_OK status then Req_done
          else if negb (status =? NT_STATUS_LOCK_NOT_GRANTED) then Req_error status
          else match blocker with
               | Some b => if negb watch_ok then Req_error NT_STATUS_NO_MEMORY
                           else if negb endtime_ok then Req_unfinished else Req_waiting b
               | None => Req_unfinished
               end, value).

Definition g_lock_lock_retry (env : g_env) (watch_status do_locked : NTSTATUS) (watch_ok endtime_ok : bool) (value : list Z)
    (self : server_id) (type : Z) : option (lock_request * list Z) :=
  if negb (NT_STATUS_IS_OK watch_status) && negb (watch_status =? NT_STATUS_IO_TIMEOUT)
  then Some (Req_error watch_status, value)
  else g_lock_lock_send env do_locked watch_ok endtime_ok value self type.

(** ** The other operations *)

(** A deleted record reads as empty. *)
Definition g_lock_unlock_fn (env : g_env) (value : list Z) (self : server_id) : option (NTSTATUS * list Z) :=
  match g_lock_parse value with
  | None => Some (NT_STATUS_FILE_INVALID, value)
  | Some lck =>
      mine ← find_rec (fun lock => server_id_equal self (gr_pid lock)) lck (num_recs lck) 0;
      match mine with
      | None => Some (NT_STATUS_NOT_FOUND, value)
      | Some (i, _) =>
          lck ← g_lock_rec_del lck i;
          Some (if (num_recs lck =? 0)%nat && (length (gdata lck) =? 0)%nat
                then (record_delete env, if NT_STATUS_IS_OK (record_delete env) then [] else value)
                else g_lock_store env value lck None)
      end
  end.

Definition g_lock_write_data_fn (env : g_env) (value : list Z) (self : server_id) (data : list Z)
    : option (NTSTATUS * list Z) :=
  match g_lock_parse value with
  | None => Some (NT_STATUS_INTERNAL_DB_CORRUPTION, value)
  | Some lck =>
      mine ← find_rec (fun lock => (gr_type lock =? G_LOCK_WRITE) && server_id_equal self (gr_pid lock))
               lck (num_recs lck) 0;
      match mine with
      | None => Some (NT_STATUS_NOT_LOCKED, value)
      | Some _ => Some (g_lock_store env value (G_lock (recsbuf lck) (num_recs lck) data) None)
      end
  end.

(** [g_lock_unlock] and [g_lock_write_data] return the first error. *)
Definition g_lock_unlock (env : g_env) (do_locked : NTSTATUS) (value : list Z) (self : server_id)
    : option (NTSTATUS * list Z) :=
  if negb (NT_STATUS_IS_OK do_locked) then Some (do_locked, value) else g_lock_unlock_fn env value self.

Definition g_lock_write_data (env : g_env) (do_locked : NTSTATUS) (value : list Z) (self : server_id) (data : list Z)
    : option (NTSTATUS * list Z) :=
  if negb (NT_STATUS_IS_OK do_locked) then Some (do_locked, value) else g_lock_write_data_fn env value self data.

(** The holders and the data that [g_lock_dump] passes to its callback. *)
Fixpoint get_recs (lck : g_lock) (n i : nat) : option (list g_lock_rec) :=
  match n with
  | O => Some []
  | S n => r ← g_lock_get_rec lck i; l ← get_recs lck n (S i); Some (r :: l)
  end.

Definition g_lock_dump_fn (alloc_ok : bool) (value : list Z)
    : option (NTSTATUS * option (list g_lock_rec * list Z)) :=
  match g_lock_parse value with
  | None => Some (NT_STATUS_INTERNAL_DB_CORRUPTION, None)
  | Some lck =>
      if negb alloc_ok then Some (NT_STATUS_NO_MEMORY, None)
      else recs ← get_recs lck (num_recs lck) 0; Some (NT_STATUS_OK, Some (recs, gdata lck))
  end.
