(* ===== verification/GLock.v ===== *)
(** * Global locks: properties

    The records of [GLockModel] as lists of holders, the operations as steps of a
    readers-writer lock with data, and the runs of many processes on the database. *)

From S2P Require Import Prelude.
From S2P Require Import ServerId.
From S2P Require Import GLockModel.
From stdpp Require Import prelude list gmap.

#[local] Open Scope Z_scope.

(** ** The record as a list of holders *)

Definition rec_ok (r : g_lock_rec) : Prop := in_w 8 (gr_type r) /\ server_id_ok (gr_pid r).

Definition encode (rs : list g_lock_rec) (d : list Z) : list Z :=
  le_bytes 4 (Z.of_nat (length rs)) ++ concat (g_lock_rec_put <$> rs) ++ d.

(** The empty value of a missing record has no holders and no data. *)
Definition value_of (value : list Z) (rs : list g_lock_rec) (d : list Z) : Prop :=
  Forall rec_ok rs /\ Z.of_nat (length rs) < 2 ^ 32 /\ (value = encode rs d \/ (value = [] /\ rs = [] /\ d = [])).

Definition repr (lck : g_lock) (rs : list g_lock_rec) (d : list Z) : Prop :=
  Forall rec_ok rs /\ num_recs lck = length rs /\ gdata lck = d /\
  exists rest, recsbuf lck = concat (g_lock_rec_put <$> rs) ++ rest.

Lemma length_put r : length (g_lock_rec_put r) = G_LOCK_REC_LENGTH.
Proof. unfold g_lock_rec_put. cbn [length]. by rewrite length_server_id_put. Qed.

Lemma length_puts rs : length (concat (g_lock_rec_put <$> rs)) = (length rs * G_LOCK_REC_LENGTH)%nat.
Proof. induction rs as [|r rs IH]; [done|]. cbn [fmap list_fmap concat]. rewrite length_app, length_put, IH. cbn [length]. lia. Qed.

Lemma get_put r rest : rec_ok r -> g_lock_rec_get (g_lock_rec_put r ++ rest) = r.
Proof.
  intros [Ht Hp]. unfold g_lock_rec_get, g_lock_rec_put. cbn [app hd tail]. rewrite server_id_get_put by done.
  rewrite u8_id by done. by destruct r.
Qed.

(** The bytes around the holder with index [i]. *)
Lemma puts_split rs i r rest :
  rs !! i = Some r ->
  concat (g_lock_rec_put <$> rs) ++ rest =
    concat (g_lock_rec_put <$> take i rs) ++ g_lock_rec_put r ++ concat (g_lock_rec_put <$> drop (S i) rs) ++ rest.
Proof.
  intros Hi. rewrite <- (take_drop_middle rs i r Hi) at 1. rewrite fmap_app, concat_app. cbn [fmap list_fmap concat].
  by rewrite <- !app_assoc.
Qed.

Lemma puts_drop rs i r rest :
  rs !! i = Some r ->
  drop (i * G_LOCK_REC_LENGTH) (concat (g_lock_rec_put <$> rs) ++ rest) =
    g_lock_rec_put r ++ concat (g_lock_rec_put <$> drop (S i) rs) ++ rest.
Proof.
  intros Hi. pose proof (lookup_lt_Some _ _ _ Hi). rewrite (puts_split rs i r rest Hi). apply drop_app_length'.
  rewrite length_puts, length_take. lia.
Qed.

Lemma get_rec_spec lck rs d i :
  repr lck rs d -> g_lock_get_rec lck i = rs !! i.
Proof.
  intros (Hok & Hn & _ & rest & Hb). unfold g_lock_get_rec. rewrite Hn, Hb.
  destruct (Nat.leb_spec (length rs) i); [by rewrite lookup_ge_None_2|].
  destruct (lookup_lt_is_Some_2 rs i) as [r Hr]; [lia|]. rewrite Hr, (puts_drop rs i r rest Hr).
  rewrite take_app_length' by (by rewrite length_put). f_equal. rewrite <- (app_nil_r (g_lock_rec_put r)). apply get_put.
  by eapply Forall_lookup_1.
Qed.

(** The last holder takes the place of the deleted one. *)
Lemma rec_del_spec lck rs d i x :
  repr lck rs d -> rs !! i = Some x ->
  exists lck' rs', g_lock_rec_del lck i = Some lck' /\ repr lck' rs' d /\ rs ≡ₚ x :: rs' /\ take i rs' = take i rs.
Proof.
  intros (Hok & Hn & Hd & rest & Hb) Hi. pose proof (lookup_lt_Some _ _ _ Hi) as Hlt.
  pose proof (take_drop_middle rs i x Hi) as Hrs. assert (length (take i rs) = i) as Ha by (rewrite length_take; lia).
  revert Hrs Ha. generalize (take i rs) as a, (drop (S i) rs) as t. intros a t <- <-. clear Hlt.
  unfold g_lock_rec_del. rewrite Hn, Hb, length_app.
  apply Forall_app in Hok as [Hoka Hokt]. apply Forall_cons in Hokt as [Hokx Hokt].
  destruct t as [|z m _] using rev_ind; cbn [length]; rewrite ?length_app; cbn [length].
  - rewrite (proj2 (Nat.leb_gt _ _)), (proj2 (Nat.ltb_ge _ _)) by lia. eexists _, a. split; [done|]. split_and!.
    + split_and!; [done | cbn; lia | done |]. eexists. cbn [recsbuf]. rewrite fmap_app, concat_app, <- app_assoc. reflexivity.
    + symmetry. apply Permutation_cons_append.
    + by rewrite take_ge.
  - rewrite (proj2 (Nat.leb_gt _ _)), (proj2 (Nat.ltb_lt _ _)) by lia.
    apply Forall_app in Hokt as [Hokm Hokz]. eexists _, (a ++ z :: m). split; [done|]. split_and!.
    + split_and!; [|cbn; rewrite length_app; cbn; lia | done |].
      { apply Forall_app. split; [done|]. apply Forall_cons. by apply Forall_cons in Hokz as [? _]. }
      exists (g_lock_rec_put z ++ rest). cbn [recsbuf].
      replace (a ++ x :: m ++ [z]) with ((a ++ [x]) ++ m ++ [z]) by (by rewrite <- app_assoc).
      rewrite (puts_drop _ (length a + S (length m + 1) - 1) z), (take_app_length' (g_lock_rec_put z)), !fmap_app, !concat_app
        by (rewrite ?length_put; done || (rewrite !lookup_app_r; rewrite ?length_app; cbn; [|lia..]; apply list_lookup_singleton_Some; split; [lia|done])).
      rewrite <- !app_assoc, take_app_length' by (by rewrite length_puts).
      rewrite (app_assoc _ (concat (g_lock_rec_put <$> [x]))), (drop_app_length' (_ ++ _)) by (rewrite length_app, !length_puts; cbn [length]; lia).
      cbn [fmap list_fmap concat]. by rewrite !app_nil_r, <- !app_assoc.
    + rewrite (Permutation_app_comm a (x :: m ++ [z])). cbn. apply perm_skip.
      rewrite (Permutation_app_comm m [z]). cbn. by rewrite <- Permutation_middle, (Permutation_app_comm m a).
    + by rewrite take_app_length.
Qed.

Lemma parse_spec value rs d : value_of value rs d -> exists lck, g_lock_parse value = Some lck /\ repr lck rs d.
Proof.
  intros (Hok & Hn & [-> | (-> & -> & ->)]); cycle 1.
  { eexists. split; [done|]. split_and!; [done..|]. by exists []. }
  unfold g_lock_parse, encode. set (b := concat _ ++ d).
  assert (length b = (length rs * G_LOCK_REC_LENGTH + length d)%nat) as Hb by (unfold b; by rewrite length_app, length_puts).
  rewrite length_app, length_le_bytes, (proj2 (Nat.ltb_ge _ _)) by lia.
  rewrite le_bytes_app_take, le_bytes_app_drop, le_roundtrip, Nat2Z.id by lia.
  rewrite (proj2 (Z.ltb_ge _ _)) by (rewrite Hb; apply inj_le, Nat.div_le_lower_bound; unfold G_LOCK_REC_LENGTH; lia).
  eexists. split; [done|]. unfold b. split_and!; [done | done | |].
  - cbn [gdata]. apply drop_app_length'. by rewrite length_puts.
  - exists []. cbn [recsbuf]. rewrite app_nil_r. apply take_app_length'. by rewrite length_puts.
Qed.

Lemma store_spec lck rs d add :
  repr lck rs d -> store_bytes lck add = encode (rs ++ option_list add) d.
Proof.
  intros (_ & Hn & Hd & rest & Hb). unfold store_bytes, encode. rewrite Hn, Hd, Hb, fmap_app, concat_app, <- !app_assoc.
  rewrite take_app_length' by (by rewrite length_puts). f_equal; [|f_equal].
  - f_equal. destruct add; rewrite length_app; cbn; lia.
  - destruct add; cbn; by rewrite ?app_nil_r.
Qed.

Lemma find_rec_spec p lck rs d n i :
  repr lck rs d -> (n + i = length rs)%nat ->
  exists o, find_rec p lck n i = Some o /\
    match o with
    | Some (j, r) => rs !! j = Some r /\ p r = true
    | None => Forall (fun r => p r = false) (drop i rs)
    end.
Proof.
  intros Hr. revert i. induction n as [|n IH]; intros i Hi; cbn [find_rec].
  { exists None. split; [done|]. by rewrite drop_ge by lia. }
  destruct (lookup_lt_is_Some_2 rs i) as [r Hri]; [lia|]. rewrite (get_rec_spec lck rs d i Hr), Hri. cbn [mbind option_bind].
  destruct (p r) eqn:Hp; [by eexists|]. destruct (IH (S i)) as (o & -> & Ho); [lia|]. exists o. split; [done|].
  destruct o as [[]|]; [done|]. rewrite (drop_S rs r i Hri). by constructor.
Qed.

Lemma get_recs_spec lck rs d n i : repr lck rs d -> (n + i = length rs)%nat -> get_recs lck n i = Some (drop i rs).
Proof.
  intros Hr. revert i. induction n as [|n IH]; intros i Hi; cbn [get_recs]; [by rewrite drop_ge by lia|].
  destruct (lookup_lt_is_Some_2 rs i) as [r Hri]; [lia|]. rewrite (get_rec_spec lck rs d i Hr), Hri. cbn [mbind option_bind].
  rewrite IH by lia. cbn [mbind option_bind]. by rewrite (drop_S rs r i Hri).
Qed.

Lemma dump_spec value rs d : value_of value rs d -> g_lock_dump_fn true value = Some (NT_STATUS_OK, Some (rs, d)).
Proof.
  intros Hv. unfold g_lock_dump_fn. destruct (parse_spec value rs d Hv) as (lck & -> & Hr). cbn [negb].
  pose proof Hr as (_ & Hn & Hd & _). rewrite (get_recs_spec lck rs d) by (done || lia). cbn [mbind option_bind]. by rewrite Hd.
Qed.

(** Holders whose process was not found. *)
Definition gone (env : g_env) (r : g_lock_rec) : Prop :=
  serverid_exists env (gr_pid r) = false \/ serverid_exists env (not_to_verify (gr_pid r)) = false.

Lemma conflict_loop_spec env type fuel lck rs d i :
  repr lck rs d -> (length rs - i <= fuel)%nat ->
  exists lck' m b dead rs', conflict_loop env type fuel lck i = Some (lck', m, b) /\ repr lck' rs' d /\
    rs ≡ₚ dead ++ rs' /\ Forall (gone env) dead /\ (m = false -> rs' = rs) /\ take i rs' = take i rs /\
    match b with
    | Some q => exists r, r ∈ rs' /\ gr_pid r = q /\ g_lock_conflicts type (gr_type r) = true /\
                  serverid_exists env (not_to_verify q) = true
    | None => Forall (fun r => g_lock_conflicts type (gr_type r) = false) (drop i rs')
    end.
Proof.
  revert lck rs i. induction fuel as [|fuel IH]; intros lck rs i Hr Hf; pose proof Hr as (_ & Hn & _); cbn [conflict_loop]; rewrite Hn;
    (destruct (Nat.leb_spec (length rs) i) as [Hle|Hle];
     [exists lck, false, None, [], rs; split_and!; try done; by rewrite drop_ge by lia|]); [lia|].
  destruct (lookup_lt_is_Some_2 rs i) as [r Hri]; [lia|]. rewrite (get_rec_spec lck rs d i Hr), Hri. cbn [mbind option_bind].
  destruct (g_lock_conflicts type (gr_type r)) eqn:Hc; [destruct (serverid_exists env _) eqn:He|].
  - exists lck, false, (Some (gr_pid r)), [], rs. split_and!; try done. exists r. split_and!; try done. by eapply list_elem_of_lookup_2.
  - destruct (rec_del_spec lck rs d i r Hr Hri) as (lck1 & rs1 & -> & Hr1 & Hperm & Htake). cbn [mbind option_bind].
    destruct (IH lck1 rs1 i Hr1) as (lck' & m & b & dead & rs' & -> & Hr' & Hp' & Hg & _ & Ht & Hb).
    { apply Permutation_length in Hperm. cbn in Hperm. lia. }
    cbn [mbind option_bind]. exists lck', true, b, (r :: dead), rs'. split_and!; try done.
    + by rewrite Hperm, Hp'.
    + constructor; [by right | done].
    + by rewrite Ht.
  - destruct (IH lck rs (S i) Hr) as (lck' & m & b & dead & rs' & -> & Hr' & Hp' & Hg & Hm & Ht & Hb); [lia|].
    exists lck', m, b, dead, rs'. split_and!; try done.
    + apply (f_equal (take i)) in Ht. rewrite !take_take in Ht. by replace (i `min` S i)%nat with i in Ht by lia.
    + destruct b; [done|]. assert (rs' !! i = Some r) as Hi'.
      { rewrite <- (lookup_take_lt _ (S i)), Ht, lookup_take_lt by lia. done. }
      rewrite (drop_S rs' r i Hi'). by constructor.
Qed.

(** ** Specification: a readers-writer lock with data *)

Inductive rw_op := Rw_lock (type : Z) | Rw_unlock | Rw_write (data : list Z).

Definition run_op (env : g_env) (value : list Z) (self : server_id) (op : rw_op) : option (NTSTATUS * list Z) :=
  match op with
  | Rw_lock type => (fun r => (r.1.1, r.2)) <$> g_lock_trylock env value self type
  | Rw_unlock => g_lock_unlock_fn env value self
  | Rw_write data => g_lock_write_data_fn env value self data
  end.

Notation holders := (gmap server_id Z).

(** Entries of dead processes may go, the others stay. *)
Definition purged (live : server_id -> Prop) (E E' : holders) : Prop :=
  E' ⊆ E /\ forall q, live q -> E' !! q = E !! q.

Inductive rw_step (env : g_env) (live : server_id -> Prop) (self : server_id)
    : rw_op -> NTSTATUS -> holders * list Z -> holders * list Z -> Prop :=
| Rw_granted t E E0 d :
    E !! self <> Some t -> purged live E E0 ->
    (forall q u, q <> self -> E0 !! q = Some u -> g_lock_conflicts t u = false) ->
    rw_step env live self (Rw_lock t) NT_STATUS_OK (E, d) (<[self := t]> E0, d)
| Rw_was_locked t E E0 d :
    E !! self = Some t -> purged live E E0 ->
    rw_step env live self (Rw_lock t) NT_STATUS_WAS_LOCKED (E, d) (E0, d)
| Rw_refused t E E0 d q u :
    E !! self <> Some t -> purged live E E0 ->
    q <> self -> E !! q = Some u -> g_lock_conflicts t u = true -> serverid_exists env (not_to_verify q) = true ->
    rw_step env live self (Rw_lock t) NT_STATUS_LOCK_NOT_GRANTED (E, d) (E0, d)
| Rw_unlocked t E d :
    E !! self = Some t -> rw_step env live self Rw_unlock NT_STATUS_OK (E, d) (delete self E, d)
| Rw_not_held E d :
    E !! self = None -> rw_step env live self Rw_unlock NT_STATUS_NOT_FOUND (E, d) (E, d)
| Rw_written E d d' :
    E !! self = Some G_LOCK_WRITE -> rw_step env live self (Rw_write d') NT_STATUS_OK (E, d) (E, d')
| Rw_not_writer E d d' :
    E !! self <> Some G_LOCK_WRITE -> rw_step env live self (Rw_write d') NT_STATUS_NOT_LOCKED (E, d) (E, d)
| Rw_failed op status E d :
    status <> NT_STATUS_OK -> (status = record_delete env \/ exists v, status = record_storev env v) ->
    rw_step env live self op status (E, d) (E, d).

(** The holders that a record stands for. *)
Definition entries (rs : list g_lock_rec) : holders := list_to_map ((fun r => (gr_pid r, gr_type r)) <$> rs).

Definition abstracts (value : list Z) (x : holders * list Z) : Prop :=
  exists rs, value_of value rs x.2 /\ NoDup (gr_pid <$> rs) /\ x.1 = entries rs.

(** What is assumed of the surroundings: live processes are found, and a record
    that can be stored has less than 2^32 bytes. *)
Record g_env_ok (env : g_env) (live : server_id -> Prop) : Prop := {
  ge_exists : forall p, live p -> serverid_exists env p = true /\ serverid_exists env (not_to_verify p) = true;
  ge_store : forall v, record_storev env v = NT_STATUS_OK -> Z.of_nat (length v) < 2 ^ 32;
}.

Lemma entries_keys rs : ((fun r => (gr_pid r, gr_type r)) <$> rs).*1 = gr_pid <$> rs.
Proof. rewrite <- list_fmap_compose. by apply list_fmap_ext. Qed.

Lemma entries_lookup rs r : NoDup (gr_pid <$> rs) -> r ∈ rs -> entries rs !! gr_pid r = Some (gr_type r).
Proof.
  intros Hnd Hr. apply elem_of_list_to_map_1; [by rewrite entries_keys|]. apply list_elem_of_fmap. by exists r.
Qed.

Lemma entries_some rs p t : entries rs !! p = Some t -> G_lock_rec t p ∈ rs.
Proof. intros ([t' p'] & [= -> ->] & H)%elem_of_list_to_map_2%list_elem_of_fmap. done. Qed.

Lemma entries_none rs p : p ∉ gr_pid <$> rs -> entries rs !! p = None.
Proof. intros H. apply not_elem_of_list_to_map_1. by rewrite entries_keys. Qed.

Lemma entries_perm rs rs' : NoDup (gr_pid <$> rs) -> rs ≡ₚ rs' -> entries rs = entries rs'.
Proof. intros Hnd Hp. apply list_to_map_proper; [by rewrite entries_keys | by rewrite Hp]. Qed.

(** Dropping holders that are gone. *)
Lemma entries_purged env live rs dead rs' :
  g_env_ok env live -> NoDup (gr_pid <$> rs) -> rs ≡ₚ dead ++ rs' -> Forall (gone env) dead ->
  purged live (entries rs) (entries rs') /\ NoDup (gr_pid <$> rs').
Proof.
  intros Henv Hnd Hp Hg. rewrite (entries_perm _ _ Hnd Hp). rewrite Hp, fmap_app in Hnd. apply NoDup_app in Hnd as (Hnd1 & Hdis & Hnd2).
  split; [|done]. assert (Hsub : forall q t, entries rs' !! q = Some t -> entries (dead ++ rs') !! q = Some t).
  { intros q t Hq%entries_some. change q with (gr_pid (G_lock_rec t q)) at 1. change t with (gr_type (G_lock_rec t q)) at 2.
    apply entries_lookup; [|apply elem_of_app; by right]. rewrite fmap_app. by apply NoDup_app. }
  split; [by apply map_subseteq_spec|]. intros q Hq. destruct (entries rs' !! q) as [t|] eqn:E; [by rewrite (Hsub q t E)|].
  symmetry. apply entries_none. rewrite fmap_app, elem_of_app. intros [(r & -> & Hr)%list_elem_of_fmap|(r & -> & Hr)%list_elem_of_fmap].
  - rewrite Forall_forall in Hg. destruct (ge_exists _ _ Henv _ Hq) as [H1 H2]. destruct (Hg r Hr); congruence.
  - by rewrite (entries_lookup rs' r Hnd2 Hr) in E.
Qed.

(** ** The operations implement the specification *)

Lemma drop_random_spec env type lck rs d :
  repr lck rs d ->
  exists lck' m dead rs', drop_random env type lck = Some (lck', m) /\ repr lck' rs' d /\
    rs ≡ₚ dead ++ rs' /\ Forall (gone env) dead /\ (m = false -> rs' = rs).
Proof.
  intros Hr. pose proof Hr as (_ & Hn & _). unfold drop_random. rewrite Hn.
  destruct ((type =? G_LOCK_READ) && (0 <? length rs)%nat) eqn:E; [|by exists lck, false, [], rs].
  apply andb_true_iff in E as [_ E%Nat.ltb_lt]. set (i := Z.to_nat _).
  assert (i < length rs)%nat as Hi by (unfold i; pose proof (Z.mod_pos_bound (generate_random env) (Z.of_nat (length rs))); lia).
  destruct (lookup_lt_is_Some_2 rs i Hi) as [r Hri]. rewrite (get_rec_spec lck rs d i Hr), Hri. cbn [mbind option_bind].
  destruct (_ && negb _) eqn:Eg; [|by exists lck, false, [], rs]. apply andb_true_iff in Eg as [_ Eg%negb_true_iff].
  destruct (rec_del_spec lck rs d i r Hr Hri) as (lck1 & rs1 & -> & Hr1 & Hperm & _). cbn [mbind option_bind].
  exists lck1, true, [r], rs1. split_and!; try done. apply Forall_singleton. by left.
Qed.

Lemma value_of_stored env live lck rs d add :
  g_env_ok env live -> repr lck rs d -> from_option rec_ok True add ->
  record_storev env (store_bytes lck add) = NT_STATUS_OK -> value_of (store_bytes lck add) (rs ++ option_list add) d.
Proof.
  intros Henv Hr Ha Hst%(ge_store _ _ Henv). pose proof Hr as (Hok & _). revert Hst. rewrite (store_spec lck rs d add Hr). intros Hst.
  split_and!; [|unfold encode in Hst; rewrite !length_app, length_puts, length_app in Hst; rewrite length_app;
    unfold G_LOCK_REC_LENGTH in Hst; lia | by left].
  apply Forall_app. split; [done|]. destruct add; cbn; [by apply Forall_singleton|constructor].
Qed.

Definition db_failed (env : g_env) (status : NTSTATUS) : Prop :=
  status <> NT_STATUS_OK /\ (status = record_delete env \/ exists v, status = record_storev env v).

Lemma g_lock_store_spec env live value lck rs d add :
  g_env_ok env live -> repr lck rs d -> from_option rec_ok True add ->
  let '(st, v) := g_lock_store env value lck add in
  (db_failed env st /\ v = value) \/ (st = NT_STATUS_OK /\ value_of v (rs ++ option_list add) d).
Proof.
  intros Henv Hr Ha. unfold g_lock_store, NT_STATUS_IS_OK. destruct (Z.eqb_spec (record_storev env (store_bytes lck add)) 0) as [E|E].
  - right. split; [done|]. by eapply value_of_stored.
  - left. split; [|done]. split; [done|]. right. by eexists.
Qed.

Lemma trylock_done_spec env live value lck rs0 rs d modified mylock status :
  g_env_ok env live -> value_of value rs0 d -> repr lck rs d -> (modified = false -> rs = rs0) ->
  from_option (fun r => rec_ok r /\ pid (gr_pid r) <> 0 /\ modified = true) True mylock ->
  let '(st, v) := trylock_done env value lck modified mylock status in
  (db_failed env st /\ v = value) \/ (st = status /\ value_of v (rs ++ option_list mylock) d).
Proof.
  intros Henv Hv Hr Hm Hmy. unfold trylock_done. destruct modified; cycle 1.
  { right. split; [done|]. destruct mylock; [by destruct Hmy as (_ & _ & ?)|]. cbn. rewrite app_nil_r. by rewrite Hm. }
  set (add := match mylock with Some _ => _ | None => _ end).
  assert (add = mylock) as -> by (unfold add; destruct mylock as [r|]; [|done]; by rewrite (proj2 (Z.eqb_neq (pid (gr_pid r)) 0)) by apply Hmy).
  pose proof (g_lock_store_spec env live value lck rs d mylock Henv Hr) as Hst.
  destruct (g_lock_store env value lck mylock) as [st v]. destruct Hst as [[Hf ->]|[-> Hst]].
  - by destruct mylock; [apply Hmy|].
  - left. split; [|done]. destruct Hf as [Hne Hf]. unfold NT_STATUS_IS_OK. by rewrite (proj2 (Z.eqb_neq st 0)).
  - by right.
Qed.

Section refinement.
Context (env : g_env) (live : server_id -> Prop) (Henv : g_env_ok env live).
Context (self : server_id) (Hself : live self) (Hok : server_id_ok self) (Hpid : pid self <> 0).

Definition implements (op : rw_op) (x : holders * list Z) (value : list Z) (r : option (NTSTATUS * list Z)) : Prop :=
  exists st v x', r = Some (st, v) /\ rw_step env live self op st x x' /\ abstracts v x'.

Lemma implements_failed op rs d value st :
  value_of value rs d -> NoDup (gr_pid <$> rs) -> db_failed env st -> implements op (entries rs, d) value (Some (st, value)).
Proof using Type. intros Hv Hnd [Hne Hf]. eexists _, _, (entries rs, d). split_and!; [done | by apply Rw_failed |]. by exists rs. Qed.

Lemma insert_self rs t mylock :
  from_option (fun r => gr_pid r = self) True mylock -> self ∉ gr_pid <$> rs -> NoDup (gr_pid <$> rs) ->
  entries (rs ++ [G_lock_rec t self]) = <[self := t]> (entries (option_list mylock ++ rs)).
Proof using Type.
  intros Hm Hs Hnd. rewrite (entries_perm (rs ++ [G_lock_rec t self]) (G_lock_rec t self :: rs)).
  - destruct mylock as [r|]; [|done]. cbn in *. rewrite Hm. unfold entries. cbn. by rewrite insert_insert_eq.
  - rewrite fmap_app. apply NoDup_app. split_and!; [done | | apply NoDup_singleton]. intros p Hp ->%list_elem_of_singleton. done.
  - symmetry. apply Permutation_cons_append.
Qed.

(** [mylock]: the lock of the process itself, taken off the list. *)
Lemma trylock_others_spec value rs0 rs d type lck modified mylock dead :
  value_of value rs0 d -> NoDup (gr_pid <$> rs0) -> repr lck rs d ->
  rs0 ≡ₚ dead ++ option_list mylock ++ rs -> Forall (gone env) dead -> self ∉ gr_pid <$> rs ->
  from_option (fun r => gr_pid r = self /\ gr_type r <> type /\ modified = true) True mylock ->
  (modified = false -> rs = rs0) -> in_w 8 type ->
  implements (Rw_lock type) (entries rs0, d) value
    ((fun r => (r.1.1, r.2)) <$> trylock_others env value self type lck modified mylock).
Proof using All.
  intros Hv Hnd Hr Hp Hd Hs Hmy Hmod Ht. unfold trylock_others.
  destruct (conflict_loop_spec env type (num_recs lck) lck rs d 0 Hr) as (lck' & m & b & dead' & rs' & -> & Hr' & Hp' & Hd' & Hm & _ & Hb).
  { destruct Hr as (_ & -> & _). lia. }
  cbn [mbind option_bind].
  assert (Hall : rs0 ≡ₚ (dead ++ dead') ++ option_list mylock ++ rs').
  { rewrite Hp, Hp'. rewrite (Permutation_app_swap_app (option_list mylock) dead' rs'). by rewrite app_assoc. }
  destruct (entries_purged env live rs0 (dead ++ dead') (option_list mylock ++ rs') Henv Hnd Hall) as [Hpur Hnd'].
  { by apply Forall_app. }
  assert (Hs' : self ∉ gr_pid <$> rs'). { intros H. apply Hs. rewrite Hp', fmap_app, elem_of_app. by right. }
  assert (Hne : entries rs0 !! self <> Some type).
  { rewrite <- (proj2 Hpur self Hself). destruct mylock as [r|]; cbn [option_list app].
    - destruct Hmy as (<- & Hty & _). rewrite (entries_lookup (r :: rs')); [by intros [= ?] | done | by left].
    - by rewrite entries_none. }
  assert (Hndr : NoDup (gr_pid <$> rs')). { rewrite fmap_app in Hnd'. by apply NoDup_app in Hnd' as (_ & _ & ?). }
  assert (Hmr : from_option (fun r => rec_ok r /\ pid (gr_pid r) <> 0 /\ modified || m = true) True mylock).
  { destruct mylock as [r|]; [|done]. destruct Hmy as (Hpr & _ & ->). split_and!; [|by rewrite Hpr | done].
    destruct Hv as (Hv & _). rewrite Hp in Hv. apply Forall_app in Hv as [_ Hv]. by apply Forall_cons in Hv as [? _]. }
  destruct b as [q|].
  - pose proof (trylock_done_spec env live value lck' rs0 rs' d (modified || m) mylock NT_STATUS_LOCK_NOT_GRANTED Henv Hv Hr') as Hdone.
    destruct (trylock_done _ _ _ _ _ _) as [st v]. cbn [fmap option_fmap option_map fst snd].
    destruct Hdone as [[Hf ->]|[-> Hdone]]; [| done | by apply implements_failed |].
    { intros [? ?]%orb_false_iff. rewrite Hm by done. auto. }
    eexists _, _, (entries (option_list mylock ++ rs'), d). split_and!; [done | |].
    + destruct Hb as (r & Hin & <- & Hc & He). apply (Rw_refused _ _ _ _ _ _ _ (gr_pid r) (gr_type r)); try done.
      * intros E. apply Hs'. rewrite <- E. apply list_elem_of_fmap. by exists r.
      * apply entries_lookup; [done|]. rewrite Hall, !elem_of_app. by right; right.
    + exists (rs' ++ option_list mylock). split_and!; [done | by rewrite Permutation_app_comm |].
      cbn. apply entries_perm; [done | apply Permutation_app_comm].
  - pose proof (trylock_done_spec env live value lck' rs0 rs' d true (Some (G_lock_rec type self)) NT_STATUS_OK Henv Hv Hr') as Hdone.
    destruct (trylock_done _ _ _ _ _ _) as [st v]. cbn [fmap option_fmap option_map fst snd].
    destruct Hdone as [[Hf ->]|[-> Hdone]]; [done | done | by apply implements_failed |].
    eexists _, _, (<[self := type]> (entries (option_list mylock ++ rs')), d). split_and!; [done | |].
    + apply Rw_granted; [done | done |]. intros q u Hq Hu%entries_some. rewrite Forall_forall in Hb. apply (Hb (G_lock_rec u q)).
      apply elem_of_app in Hu as [Hu|Hu]; [|done]. destruct mylock as [r|]; [|by apply elem_of_nil in Hu].
      apply list_elem_of_singleton in Hu as <-. by destruct Hmy as [? _].
    + exists (rs' ++ [G_lock_rec type self]). split_and!; [done | |].
      * rewrite fmap_app. apply NoDup_app. split_and!; [done | | apply NoDup_singleton]. by intros p Hp1 ->%list_elem_of_singleton.
      * cbn [fst]. symmetry. apply insert_self; try done. destruct mylock; [by destruct Hmy as [? _] | done].
Qed.

Lemma lock_implements value rs d type :
  value_of value rs d -> NoDup (gr_pid <$> rs) -> in_w 8 type ->
  implements (Rw_lock type) (entries rs, d) value (run_op env value self (Rw_lock type)).
Proof using All.
  intros Hv Hnd Ht. cbn [run_op]. unfold g_lock_trylock. destruct (parse_spec value rs d Hv) as (lck & -> & Hr).
  destruct (drop_random_spec env type lck rs d Hr) as (lck1 & m & dead & rs1 & -> & Hr1 & Hp1 & Hd1 & Hm1). cbn [mbind option_bind].
  destruct (entries_purged env live rs dead rs1 Henv Hnd Hp1 Hd1) as [Hpur1 Hnd1].
  destruct (find_rec_spec (fun lock => server_id_equal self (gr_pid lock)) lck1 rs1 d (num_recs lck1) 0 Hr1) as (o & -> & Ho).
  { destruct Hr1 as (_ & -> & _). lia. }
  cbn [mbind option_bind]. destruct o as [[i r]|].
  - destruct Ho as [Hi Heq%server_id_equal_spec]. destruct (Z.eqb_spec (gr_type r) type) as [<-|Hty].
    + pose proof (trylock_done_spec env live value lck1 rs rs1 d m None NT_STATUS_WAS_LOCKED Henv Hv Hr1 Hm1 I) as Hdone.
      destruct (trylock_done _ _ _ _ _ _) as [st v]. cbn [fmap option_fmap option_map fst snd].
      destruct Hdone as [[Hf ->]|[-> Hdone]]; [by apply implements_failed|].
      cbn [option_list] in Hdone. rewrite app_nil_r in Hdone. eexists _, _, (entries rs1, d). split_and!; [done | | by exists rs1].
      apply Rw_was_locked; [|done]. rewrite <- (proj2 Hpur1 self Hself), Heq. apply entries_lookup; [done|].
      by eapply list_elem_of_lookup_2.
    + destruct (rec_del_spec lck1 rs1 d i r Hr1 Hi) as (lck2 & rs2 & -> & Hr2 & Hp2 & _). cbn [mbind option_bind].
      apply (trylock_others_spec _ _ rs2 _ _ _ _ _ dead); try done.
      * by rewrite Hp1, Hp2.
      * rewrite Heq. rewrite Hp2 in Hnd1. by apply NoDup_cons in Hnd1 as [? _].
  - apply (trylock_others_spec _ _ rs1 _ _ _ _ _ dead); try done. intros (r & E & Hin)%list_elem_of_fmap.
    rewrite Forall_forall in Ho. specialize (Ho r Hin). apply not_true_iff_false in Ho. by apply Ho, server_id_equal_spec.
Qed.

(** The loops of the other operations. *)
Lemma find_self p lck rs d :
  repr lck rs d -> NoDup (gr_pid <$> rs) ->
  exists o, find_rec (fun lock => p (gr_type lock) && server_id_equal self (gr_pid lock)) lck (num_recs lck) 0 = Some o /\
    match o with
    | Some (i, r) => rs !! i = Some r /\ gr_pid r = self /\ p (gr_type r) = true /\ entries rs !! self = Some (gr_type r)
    | None => forall t, entries rs !! self = Some t -> p t = false
    end.
Proof using Type.
  intros Hr Hnd. destruct (find_rec_spec (fun lock => p (gr_type lock) && server_id_equal self (gr_pid lock)) lck rs d (num_recs lck) 0 Hr)
    as (o & -> & Ho); [destruct Hr as (_ & -> & _); lia|].
  exists o. split; [done|]. destruct o as [[i r]|].
  - destruct Ho as [Hi [Hpr Heq%server_id_equal_spec]%andb_true_iff]. split_and!; [done | done | done |].
    rewrite Heq. apply entries_lookup; [done|]. by eapply list_elem_of_lookup_2.
  - intros t Ht%entries_some. rewrite Forall_forall in Ho. specialize (Ho _ Ht). cbn in Ho.
    apply andb_false_iff in Ho as [?|Ho]; [done|]. apply not_true_iff_false in Ho. by rewrite server_id_equal_spec in Ho.
Qed.

Lemma unlock_implements value rs d :
  value_of value rs d -> NoDup (gr_pid <$> rs) ->
  implements Rw_unlock (entries rs, d) value (run_op env value self Rw_unlock).
Proof using All.
  intros Hv Hnd. cbn [run_op]. unfold g_lock_unlock_fn. destruct (parse_spec value rs d Hv) as (lck & -> & Hr).
  destruct (find_self (fun _ => true) lck rs d Hr Hnd) as (o & Ho & Hspec). cbn [andb] in Ho. rewrite Ho. cbn [mbind option_bind].
  destruct o as [[i r]|]; cycle 1.
  { eexists _, _, (entries rs, d). split_and!; [done | | by exists rs]. apply Rw_not_held.
    destruct (entries rs !! self) as [t|] eqn:E; [|done]. by specialize (Hspec t eq_refl). }
  destruct Hspec as (Hi & Hpr & _ & Hself').
  destruct (rec_del_spec lck rs d i r Hr Hi) as (lck' & rs' & -> & Hr' & Hp' & _). cbn [mbind option_bind].
  assert (Hnew : NoDup (gr_pid <$> rs') /\ delete self (entries rs) = entries rs').
  { rewrite (entries_perm _ _ Hnd Hp'). rewrite Hp' in Hnd. cbn in Hnd. apply NoDup_cons in Hnd as [Hno Hnd']. split; [done|].
    unfold entries at 1. cbn. rewrite Hpr, delete_insert_id; [done|]. apply entries_none. by rewrite <- Hpr. }
  destruct Hnew as [Hnd' Hdel].
  assert (Hgoal : forall v, value_of v rs' d -> implements Rw_unlock (entries rs, d) value (Some (NT_STATUS_OK, v))).
  { intros v Hv'. eexists _, _, (delete self (entries rs), d). split_and!; [done | by eapply Rw_unlocked |]. exists rs'. by rewrite Hdel. }
  destruct (_ && _) eqn:Eempty.
  - destruct (NT_STATUS_IS_OK (record_delete env)) eqn:Eok; unfold NT_STATUS_IS_OK in Eok; boolify.
    + rewrite Eok. apply Hgoal. apply Nat.eqb_eq in H. apply Nat.eqb_eq, nil_length_inv in H0. destruct Hr' as (_ & Hn' & Hd' & _).
      rewrite Hn' in H. apply nil_length_inv in H as ->. rewrite <- Hd', H0. split_and!; [done | done |]. by right.
    + apply implements_failed; [done..|]. split; [done|]. by left.
  - pose proof (g_lock_store_spec env live value lck' rs' d None Henv Hr' I) as Hst. cbn [option_list] in Hst. rewrite app_nil_r in Hst.
    destruct (g_lock_store _ _ _ _) as [st v]. destruct Hst as [[Hf ->]|[-> Hst]]; [by apply implements_failed | by apply Hgoal].
Qed.

Lemma write_implements value rs d data :
  value_of value rs d -> NoDup (gr_pid <$> rs) ->
  implements (Rw_write data) (entries rs, d) value (run_op env value self (Rw_write data)).
Proof using All.
  intros Hv Hnd. cbn [run_op]. unfold g_lock_write_data_fn. destruct (parse_spec value rs d Hv) as (lck & -> & Hr).
  destruct (find_self (fun t => t =? G_LOCK_WRITE) lck rs d Hr Hnd) as (o & -> & Hspec). cbn [mbind option_bind].
  destruct o as [[i r]|]; cycle 1.
  { eexists _, _, (entries rs, d). split_and!; [done | | by exists rs]. apply Rw_not_writer. intros E. by specialize (Hspec _ E). }
  destruct Hspec as (_ & _ & Ht%Z.eqb_eq & Hw). rewrite Ht in Hw.
  assert (Hr' : repr (G_lock (recsbuf lck) (num_recs lck) data) rs data) by (destruct Hr as (? & ? & _ & ?); by split_and!).
  pose proof (g_lock_store_spec env live value _ rs data None Henv Hr' I) as Hst. cbn [option_list] in Hst. rewrite app_nil_r in Hst.
  destruct (g_lock_store _ _ _ _) as [st v]. destruct Hst as [[Hf ->]|[-> Hst]]; [by apply implements_failed|].
  eexists _, _, (entries rs, data). split_and!; [done | by apply Rw_written | by exists rs].
Qed.

Definition op_ok (op : rw_op) : Prop := match op with Rw_lock t => in_w 8 t | _ => True end.

Lemma run_op_implements op value x : op_ok op -> abstracts value x -> implements op x value (run_op env value self op).
Proof using All.
  intros Hop (rs & Hv & Hnd & Hx). destruct x as [E d]. cbn in *. subst E.
  destruct op; [by apply lock_implements | by apply unlock_implements | by apply write_implements].
Qed.

End refinement.

(** ** Runs of the system *)

(** The live processes and the database. *)
Record g_state := G_state { g_live : gset server_id; g_db : gmap (list Z) (list Z) }.

Definition value_at (db : gmap (list Z) (list Z)) (key : list Z) : list Z := default [] (db !! key).

(** Process ids are not reused as long as a record has them. *)
Inductive g_step : g_state -> g_state -> Prop :=
| G_op env self op key st v live db :
    g_env_ok env (fun p => p ∈ live) -> self ∈ live -> op_ok op ->
    run_op env (value_at db key) self op = Some (st, v) ->
    g_step (G_state live db) (G_state live (<[key := v]> db))
| G_exit self live db : g_step (G_state live db) (G_state (live ∖ {[self]}) db)
| G_start self live db :
    server_id_ok self -> pid self <> 0 ->
    (forall key x, abstracts (value_at db key) x -> x.1 !! self = None) ->
    g_step (G_state live db) (G_state ({[self]} ∪ live) db).

Inductive g_reach : g_state -> Prop :=
| G_empty : g_reach (G_state ∅ ∅)
| G_next s s' : g_reach s -> g_step s s' -> g_reach s'.

(** A writer is alone. *)
Definition exclusive (live : gset server_id) (E : holders) : Prop :=
  forall p q t u, p ∈ live -> q ∈ live -> p <> q -> E !! p = Some t -> E !! q = Some u -> g_lock_conflicts t u = false.

Definition g_inv (s : g_state) : Prop :=
  (forall p, p ∈ g_live s -> server_id_ok p /\ pid p <> 0) /\
  forall key, exists x, abstracts (value_at (g_db s) key) x /\ exclusive (g_live s) x.1.

Lemma conflicts_sym t u : g_lock_conflicts t u = g_lock_conflicts u t.
Proof. unfold g_lock_conflicts. by rewrite andb_comm. Qed.

Lemma exclusive_purged live E E' : purged (fun p => p ∈ live) E E' -> exclusive live E -> exclusive live E'.
Proof. intros [_ Hp] He p q t u Hp1 Hq Hne. rewrite !Hp by done. by apply He. Qed.

Lemma rw_step_exclusive env live self op st x x' :
  self ∈ live -> rw_step env (fun p => p ∈ live) self op st x x' -> exclusive live x.1 -> exclusive live x'.1.
Proof.
  intros Hs [t E E0 d _ Hp Hc | t E E0 d _ Hp | t E E0 d q u _ Hp | t E d Ht | | | | ] He; cbn in *; try done.
  - intros p q a b Hp1 Hq Hne. destruct (decide (self = p)) as [->|Hsp]; [rewrite lookup_insert_eq|rewrite lookup_insert_ne by done].
    + rewrite lookup_insert_ne by done. intros [= ->] Hb. by apply (Hc q b).
    + destruct (decide (self = q)) as [->|Hsq]; [rewrite lookup_insert_eq|rewrite lookup_insert_ne by done].
      * intros Ha [= ->]. rewrite conflicts_sym. by apply (Hc p a).
      * by apply (exclusive_purged live E E0 Hp He).
  - by eapply exclusive_purged.
  - by eapply exclusive_purged.
  - intros p q a b Hp1 Hq Hne [_ Ha]%lookup_delete_Some [_ Hb]%lookup_delete_Some. by apply (He p q).
Qed.

Lemma g_reach_inv s : g_reach s -> g_inv s.
Proof.
  induction 1 as [|s s' _ [Hids IH] Hst].
  { split; [done|]. intros key. exists (∅, []). split; [|by intros p q t u ?%not_elem_of_empty]. exists []. split_and!; [|constructor | done].
    split_and!; [constructor | done |]. by right. }
  destruct Hst as [env self op key st v live db Henv Hs Hop Hrun | self live db | self live db Hok Hpid Hfresh]; cbn in *.
  - split; [done|]. intros k. unfold value_at. cbn. destruct (decide (key = k)) as [->|Hk]; [|rewrite lookup_insert_ne by done; apply IH].
    rewrite lookup_insert_eq. cbn. destruct (IH k) as (x & Hx & He). destruct (Hids self Hs) as [Hok Hpid].
    destruct (run_op_implements env _ Henv self Hs Hok Hpid op _ x Hop Hx) as (st' & v' & x' & Hr & Hstep & Hx').
    rewrite Hrun in Hr. injection Hr as <- <-. exists x'. split; [done|]. by eapply rw_step_exclusive.
  - split; [intros p [Hp _]%elem_of_difference; auto|]. intros k. destruct (IH k) as (x & Hx & He). exists x. split; [done|].
    intros p q t u [Hp _]%elem_of_difference [Hq _]%elem_of_difference. by apply He.
  - split; [intros p [->%elem_of_singleton|Hp]%elem_of_union; auto|].
    intros k. destruct (IH k) as (x & Hx & He). exists x. split; [done|]. pose proof (Hfresh k x Hx) as Hno.
    intros p q t u [->%elem_of_singleton|Hp]%elem_of_union [->%elem_of_singleton|Hq]%elem_of_union Hne Ht Hu; try congruence.
    by apply (He p q t u).
Qed.

(** ** Data for the witnesses *)

Definition genv_demo : g_env :=
  G_env (fun _ => true) 7 (fun v => if Z.of_nat (length v) <? 2 ^ 32 then NT_STATUS_OK else NT_STATUS_UNSUCCESSFUL) NT_STATUS_OK.
Definition gp1 : server_id := Server_id 101 0 0 5.
Definition gp2 : server_id := Server_id 102 0 0 6.
Definition gkey : list Z := [0x6b; 0].
Definition read_value (value : list Z) (self : server_id) : list Z :=
  match run_op genv_demo value self (Rw_lock G_LOCK_READ) with Some (_, v) => v | None => [] end.

Lemma genv_demo_ok live : g_env_ok genv_demo live.
Proof. split; [done|]. intros v. cbn. destruct (Z.ltb_spec (Z.of_nat (length v)) (2 ^ 32)); [done|]. by intros [=]. Qed.

Lemma gp_ok : server_id_ok gp1 /\ server_id_ok gp2.
Proof. unfold server_id_ok, in_w. cbn. lia. Qed.

Lemma abstracts_nil x : abstracts [] x -> x.1 = ∅.
Proof. intros (rs & (_ & _ & [H%(f_equal length)|(_ & -> & _)]) & _ & ->); [|done]. unfold encode in H. by rewrite length_app, length_le_bytes in H. Qed.

(** Two readers. *)
Lemma g_reach_demo :
  g_reach (G_state ({[gp2]} ∪ ({[gp1]} ∪ ∅)) (<[gkey := read_value (read_value [] gp1) gp2]> (<[gkey := read_value [] gp1]> ∅))).
Proof.
  assert (Hlock : forall self live db, self ∈ live -> g_reach (G_state live db) -> (value_at db gkey = [] /\ self = gp1 \/
      value_at db gkey = read_value [] gp1 /\ self = gp2) ->
    g_reach (G_state live (<[gkey := read_value (value_at db gkey) self]> db))).
  { intros self live db Hs Hr Hv. eapply G_next; [exact Hr|].
    apply (G_op genv_demo self (Rw_lock G_LOCK_READ) gkey NT_STATUS_OK); [apply genv_demo_ok | done | by unfold op_ok, in_w |].
    destruct Hv as [[-> ->]|[-> ->]]; vm_compute; reflexivity. }
  assert (Hstart : g_reach (G_state ({[gp2]} ∪ ({[gp1]} ∪ ∅)) ∅)).
  { eapply G_next; [eapply G_next; [apply G_empty|]|]; apply G_start; try apply gp_ok; try done; by intros key x ->%abstracts_nil. }
  assert (Hin : gp1 ∈ ({[gp2]} ∪ ({[gp1]} ∪ ∅) : gset server_id) /\ gp2 ∈ ({[gp2]} ∪ ({[gp1]} ∪ ∅) : gset server_id))
    by set_solver.
  assert (H1 := Hlock gp1 _ _ (proj1 Hin) Hstart (or_introl (conj eq_refl eq_refl))).
  exact (Hlock gp2 _ _ (proj2 Hin) H1 (or_intror (conj eq_refl eq_refl))).
Qed.

(** ** Claims *)

(** C16. A record of g_lock.tdb is a readers-writer lock: on every run of processes that
    lock, unlock, write data, start and die, [g_lock_dump] finds a well formed record,
    and two live processes among its holders are both readers. *)
Theorem g_lock_exclusive live db key :
  g_reach (G_state live db) ->
  exists recs d, g_lock_dump_fn true (value_at db key) = Some (NT_STATUS_OK, Some (recs, d)) /\
    forall r1 r2, r1 ∈ recs -> r2 ∈ recs -> gr_pid r1 ∈ live -> gr_pid r2 ∈ live -> gr_pid r1 <> gr_pid r2 ->
      gr_type r1 = G_LOCK_READ /\ gr_type r2 = G_LOCK_READ.
Proof.
  intros [_ Hinv]%g_reach_inv. destruct (Hinv key) as ([E d] & (rs & Hv & Hnd & HE) & He). cbn in HE, He, Hv. subst E.
  exists rs, d. split; [by apply dump_spec|]. intros r1 r2 H1 H2 Hl1 Hl2 Hne.
  specialize (He _ _ (gr_type r1) (gr_type r2) Hl1 Hl2 Hne (entries_lookup rs r1 Hnd H1) (entries_lookup rs r2 Hnd H2)).
  unfold g_lock_conflicts in He. by boolify.
Qed.

Lemma g_lock_exclusive_witness :
  exists recs d, g_lock_dump_fn true (read_value (read_value [] gp1) gp2) = Some (NT_STATUS_OK, Some (recs, d)) /\
    length recs = 2%nat /\ forall r1 r2, r1 ∈ recs -> r2 ∈ recs -> gr_pid r1 = gp1 -> gr_pid r2 = gp2 -> gr_type r1 = G_LOCK_READ.
Proof.
  destruct (g_lock_exclusive _ _ gkey g_reach_demo) as (recs & d & Hd & H). exists recs, d. split; [exact Hd|]. split.
  - vm_compute in Hd. injection Hd as <- _. reflexivity.
  - intros r1 r2 H1 H2 E1 E2. apply (H r1 r2 H1 H2); rewrite ?E1, ?E2; [set_solver | set_solver | discriminate].
Defined.

(** C17. Every operation of a live process on a record returns without an abort and is a
    step of the readers-writer lock with data: a lock is granted when nobody else
    conflicts, a refused upgrade keeps the old lock, only a writer changes the data, an
    unlock removes the own lock only, and an error of the database changes nothing. *)
Theorem g_lock_refines env live self op value x :
  g_env_ok env live -> live self -> server_id_ok self -> pid self <> 0 -> op_ok op -> abstracts value x ->
  exists st v x', run_op env value self op = Some (st, v) /\ rw_step env live self op st x x' /\ abstracts v x'.
Proof. intros Henv Hs Hok Hpid. by apply run_op_implements. Qed.

(** A reader that another process has joined cannot become a writer, and keeps its lock. *)
Lemma g_lock_refines_witness :
  exists st v x', run_op genv_demo (read_value (read_value [] gp1) gp2) gp1 (Rw_lock G_LOCK_WRITE) = Some (st, v) /\
    st = NT_STATUS_LOCK_NOT_GRANTED /\ abstracts v x' /\ x'.1 !! gp1 = Some G_LOCK_READ.
Proof.
  assert (Hx : abstracts (read_value (read_value [] gp1) gp2)
                 (entries [G_lock_rec G_LOCK_READ gp1; G_lock_rec G_LOCK_READ gp2], [])).
  { eexists. split; [|split; [|reflexivity]].
    - split_and!; [|reflexivity | left; vm_compute; reflexivity]. repeat constructor; try apply gp_ok; by unfold in_w.
    - apply NoDup_cons. split; [|apply NoDup_singleton]. intros H%list_elem_of_singleton. discriminate H. }
  destruct (g_lock_refines genv_demo (fun _ => True) gp1 (Rw_lock G_LOCK_WRITE) (read_value (read_value [] gp1) gp2) _
    (genv_demo_ok _) I (proj1 gp_ok) ltac:(discriminate) ltac:(by unfold op_ok, in_w) Hx) as (st & v & x' & Hr & Hstep & Hx').
  exists st, v, x'. split; [exact Hr|]. vm_compute in Hr. injection Hr as <- <-. split; [reflexivity|]. split; [exact Hx'|].
  inversion Hstep as [| |t E E0 d q u _ [_ Hp]| | | | |]; subst; [|reflexivity]. cbn. rewrite (Hp gp1 I). reflexivity.
Defined.
