(* ===== verification/Iconv.v ===== *)
(** * Character set conversion

    lib/util/charset/iconv.c: the builtin conversions to and from UTF-16LE, and
    [smb_iconv], which goes through a buffer when neither side is UTF-16. Buffers
    are lists of bytes and are below 2^31 bytes long; HAVE_NATIVE_ICONV and
    HAVE_ICONV_ERRNO_ILLEGAL_MULTIBYTE are set, as on Linux. *)

From S2P Require Import Prelude.
From S2P Require Import Errmap.
From S2P Require Import CString.
From stdpp Require Import prelude list strings.

#[local] Open Scope Z_scope.

Definition E2BIG : Z := 7.
Definition EILSEQ : Z := 84.

(** What a conversion leaves: the bytes it wrote, the input that is left, the room
    that is left, and errno if it returned -1. *)
Record conv := Conv { cv_out : list Z; cv_in : list Z; cv_left : Z; cv_err : option Z }.

(** The type of the conversion functions: input and room. *)
Definition conv_fn : Type := list Z -> Z -> conv.

Definition stop (inb : list Z) (left : Z) (err : option Z) : conv := Conv [] inb left err.
Definition emit (out : list Z) (r : conv) : conv := Conv (out ++ cv_out r) (cv_in r) (cv_left r) (cv_err r).

(** ** ASCII, Latin-1 and hexadecimal *)

Fixpoint ascii_pull (inb : list Z) (left : Z) : conv :=
  match inb with
  | [] => stop [] left None
  | c :: rest =>
      if left <? 2 then stop inb left (Some E2BIG)
      else if negb (Z.land c 0x7F =? c) then stop inb left (Some EILSEQ)
      else emit [c; 0] (ascii_pull rest (left - 2))
  end.

(** What the functions from UTF-16 do when the loop has ended. *)
Definition push_end (inb : list Z) (left : Z) : conv :=
  stop inb left (match inb with [] => None | [_] => Some EINVAL | _ => Some E2BIG end).

Fixpoint ascii_push (inb : list Z) (left : Z) : conv :=
  match inb with
  | u0 :: u1 :: rest =>
      if left <? 1 then push_end inb left
      else if negb (Z.land u0 0x7F =? u0) || negb (u1 =? 0) then stop inb left (Some EILSEQ)
      else emit [u0] (ascii_push rest (left - 1))
  | _ => push_end inb left
  end.

Fixpoint latin1_pull (inb : list Z) (left : Z) : conv :=
  match inb with
  | [] => stop [] left None
  | c :: rest =>
      if left <? 2 then stop inb left (Some E2BIG)
      else emit [c; 0] (latin1_pull rest (left - 2))
  end.

(** The byte that is stored before the check is not part of the output. *)
Fixpoint latin1_push (inb : list Z) (left : Z) : conv :=
  match inb with
  | u0 :: u1 :: rest =>
      if left <? 1 then push_end inb left
      else if negb (u1 =? 0) then stop inb left (Some EILSEQ)
      else emit [u0] (latin1_push rest (left - 1))
  | _ => push_end inb left
  end.

Fixpoint ucs2hex_pull (inb : list Z) (left : Z) : conv :=
  match inb with
  | [] => stop [] left None
  | c :: rest =>
      if left <? 2 then stop inb left (Some E2BIG)
      else if negb (c =? 0x40) then emit [c; 0] (ucs2hex_pull rest (left - 2))
      else
        match rest with
        | h0 :: h1 :: h2 :: h3 :: rest =>
            match read_hex_bytes [h0; h1; h2; h3] 4 with
            | Some v => emit [Z.land v 0xff; u8 (Z.shiftr v 8)] (ucs2hex_pull rest (left - 2))
            | None => stop inb left (Some EILSEQ)
            end
        | _ => stop inb left (Some EINVAL)
        end
  end.

(** The text of [@%04x] for a 16-bit value. *)
Definition hex_text (v : Z) : list Z :=
  [0x40; digit_char (v / 2 ^ 12); digit_char (v / 2 ^ 8 mod 16); digit_char (v / 2 ^ 4 mod 16); digit_char (v mod 16)].

Fixpoint ucs2hex_push (inb : list Z) (left : Z) : conv :=
  match inb with
  | u0 :: u1 :: rest =>
      if left <? 1 then push_end inb left
      else if (u1 =? 0) && (Z.land u0 0x80 =? 0) && negb (u0 =? 0x40)
      then emit [u0] (ucs2hex_push rest (left - 1))
      else if left <? 5 then stop inb left (Some E2BIG)
      else emit (hex_text (le_value [u0; u1])) (ucs2hex_push rest (left - 5))
  | _ => push_end inb left
  end.

(** ** Copies *)

Fixpoint swab (l : list Z) : list Z :=
  match l with
  | a :: b :: rest => b :: a :: swab rest
  | _ => []
  end.

(** The end of [iconv_copy] and [iconv_swab] after [n] bytes. *)
Definition copy_end (out inb : list Z) (n : nat) (left : Z) : conv :=
  Conv out (drop n inb) (left - Z.of_nat n) (match drop n inb with [] => None | _ => Some E2BIG end).

Definition copy_len (inb : list Z) (left : Z) : nat := Nat.min (length inb) (Z.to_nat left).

Definition iconv_swab (inb : list Z) (left : Z) : conv :=
  let n := copy_len inb left in
  copy_end (swab (take n inb) ++ if Nat.odd n then [0] else []) inb n left.

Definition iconv_copy (inb : list Z) (left : Z) : conv :=
  let n := copy_len inb left in copy_end (take n inb) inb n left.

(** ** UTF-8 *)

Definition cont (c : Z) : bool := Z.land c 0xc0 =? 0x80.

Fixpoint utf8_pull (inb : list Z) (left : Z) : conv :=
  match inb with
  | [] => stop [] left None
  | c0 :: r1 =>
      if left <? 2 then stop inb left (Some E2BIG)
      else if Z.land c0 0x80 =? 0 then emit [c0; 0] (utf8_pull r1 (left - 2))
      else if Z.land c0 0xe0 =? 0xc0 then
        match r1 with
        | c1 :: r2 =>
            if negb (cont c1) then stop inb left (Some EILSEQ)
            else emit [u8 (Z.lor (Z.shiftl c0 6) (Z.land c1 0x3f)); Z.land (Z.shiftr c0 2) 0x7]
                   (utf8_pull r2 (left - 2))
        | _ => stop inb left (Some EILSEQ)
        end
      else if Z.land c0 0xf0 =? 0xe0 then
        match r1 with
        | c1 :: c2 :: r3 =>
            if negb (cont c1) || negb (cont c2) then stop inb left (Some EILSEQ)
            else emit [u8 (Z.lor (Z.shiftl c1 6) (Z.land c2 0x3f));
                       Z.lor (Z.shiftl (Z.land c0 0xF) 4) (Z.land (Z.shiftr c1 2) 0xF)]
                   (utf8_pull r3 (left - 2))
        | _ => stop inb left (Some EILSEQ)
        end
      else if Z.land c0 0xf8 =? 0xf0 then
        match r1 with
        | c1 :: c2 :: c3 :: r4 =>
            if negb (cont c1) || negb (cont c2) || negb (cont c3) then stop inb left (Some EILSEQ)
            else
              let codepoint :=
                Z.lor (Z.lor (Z.lor (Z.land c3 0x3f) (Z.shiftl (Z.land c2 0x3f) 6))
                         (Z.shiftl (Z.land c1 0x3f) 12)) (Z.shiftl (Z.land c0 0x7) 18) in
              if codepoint <? 0x10000 then
                emit [Z.land codepoint 0xFF; Z.shiftr codepoint 8] (utf8_pull r4 (left - 2))
              else
                let codepoint := codepoint - 0x10000 in
                if left <? 4 then stop inb left (Some E2BIG)
                else emit [Z.land (Z.shiftr codepoint 10) 0xFF; u8 (Z.lor (Z.shiftr codepoint 18) 0xd8);
                           Z.land codepoint 0xFF; Z.lor (Z.land (Z.shiftr codepoint 8) 0x3) 0xdc]
                       (utf8_pull r4 (left - 4))
        | _ => stop inb left (Some EILSEQ)
        end
      else stop inb left (Some EINVAL)
  end.

Fixpoint utf8_push (inb : list Z) (left : Z) : conv :=
  match inb with
  | u0 :: u1 :: r2 =>
      if left <? 1 then push_end inb left
      else if (u1 =? 0) && (Z.land u0 0x80 =? 0) then emit [u0] (utf8_push r2 (left - 1))
      else if Z.land u1 0xf8 =? 0 then
        if left <? 2 then stop inb left (Some E2BIG)
        else emit [u8 (Z.lor (Z.lor 0xc0 (Z.shiftr u0 6)) (Z.shiftl u1 2)); Z.lor 0x80 (Z.land u0 0x3f)]
               (utf8_push r2 (left - 2))
      else if Z.land u1 0xfc =? 0xdc then stop inb left (Some EILSEQ)
      else if negb (Z.land u1 0xfc =? 0xd8) then
        let codepoint := Z.lor u0 (Z.shiftl u1 8) in
        if left <? 3 then stop inb left (Some E2BIG)
        else emit [Z.lor 0xe0 (Z.shiftr codepoint 12); Z.lor 0x80 (Z.land (Z.shiftr codepoint 6) 0x3f);
                   Z.lor 0x80 (Z.land codepoint 0x3f)]
               (utf8_push r2 (left - 3))
      else
        match r2 with
        | u2 :: u3 :: r4 =>
            if negb (Z.land u3 0xfc =? 0xdc) then stop inb left (Some EILSEQ)
            else
              let codepoint :=
                0x10000 + Z.lor (Z.lor (Z.lor u2 (Z.shiftl (Z.land u3 0x3) 8)) (Z.shiftl u0 10))
                            (Z.shiftl (Z.land u1 0x3) 18) in
              if left <? 4 then stop inb left (Some E2BIG)
              else emit [Z.lor 0xf0 (Z.shiftr codepoint 18); Z.lor 0x80 (Z.land (Z.shiftr codepoint 12) 0x3f);
                         Z.lor 0x80 (Z.land (Z.shiftr codepoint 6) 0x3f); Z.lor 0x80 (Z.land codepoint 0x3f)]
                     (utf8_push r4 (left - 4))
        | _ => stop inb left (Some EINVAL)
        end
  | _ => push_end inb left
  end.

(** ** The string2key rules *)

Fixpoint utf16_munged_pull (inb : list Z) (left : Z) : conv :=
  match inb with
  | u0 :: u1 :: r2 =>
      if left <? 2 then push_end inb left
      else
        let codepoint := Z.lor u0 (Z.shiftl u1 8) in
        let codepoint := if codepoint =? 0 then 1 else codepoint in
        let codepoint16 (codepoint : Z) :=
          emit [Z.land codepoint 0xFF; Z.land (Z.shiftr codepoint 8) 0xFF] (utf16_munged_pull r2 (left - 2)) in
        if Z.land codepoint 0xfc00 =? 0xd800 then
          match r2 with
          | u2 :: u3 :: r4 =>
              let codepoint2 := Z.lor u2 (Z.shiftl u3 8) in
              if negb (Z.land codepoint2 0xfc00 =? 0xdc00) then codepoint16 0xfffd
              else if left <? 4 then stop inb left (Some E2BIG)
              else emit [u0; u1; u2; u3] (utf16_munged_pull r4 (left - 4))
          | _ => codepoint16 0xfffd
          end
        else if Z.land codepoint 0xfc00 =? 0xdc00 then codepoint16 0xfffd
        else codepoint16 codepoint
  | _ => push_end inb left
  end.

(** ** Conversion descriptors *)

Record charset_functions := Charset_functions {
  cf_name : string;
  cf_pull : conv_fn;
  cf_push : conv_fn;
  samba_internal_charset : bool;
}.

Definition builtin_functions : list charset_functions := [
  Charset_functions "UCS-2LE" iconv_copy iconv_copy false;
  Charset_functions "UTF-16LE" iconv_copy iconv_copy false;
  Charset_functions "UCS-2BE" iconv_swab iconv_swab false;
  Charset_functions "UTF-16BE" iconv_swab iconv_swab false;
  Charset_functions "UTF8" utf8_pull utf8_push false;
  Charset_functions "UTF-8" utf8_pull utf8_push false;
  Charset_functions "UTF16_MUNGED" utf16_munged_pull iconv_copy true;
  Charset_functions "ASCII" ascii_pull ascii_push false;
  Charset_functions "646" ascii_pull ascii_push false;
  Charset_functions "ISO-8859-1" latin1_pull latin1_push false;
  Charset_functions "UCS2-HEX" ucs2hex_pull ucs2hex_push true
].

Definition tolower_c (c : Ascii.ascii) : Ascii.ascii :=
  let n := Ascii.nat_of_ascii c in
  if (65 <=? n)%nat && (n <=? 90)%nat then Ascii.ascii_of_nat (n + 32) else c.

Fixpoint strcasecmp_eq (a b : string) : bool :=
  match a, b with
  | EmptyString, EmptyString => true
  | String x a, String y b => bool_decide (tolower_c x = tolower_c y) && strcasecmp_eq a b
  | _, _ => false
  end.

Record smb_iconv_t := Smb_iconv { ic_direct : option conv_fn; ic_pull : option conv_fn; ic_push : option conv_fn }.

Definition is_utf16 (name : string) : bool := strcasecmp_eq name "UCS-2LE" || strcasecmp_eq name "UTF-16LE".

(** The last entry of the table with the name that may be used. *)
Definition find_charset (name : string) (use_builtin_handlers : bool) : option charset_functions :=
  last (filter (fun f => strcasecmp_eq name (cf_name f) && (use_builtin_handlers || samba_internal_charset f) = true)
          builtin_functions).

Definition or_alt {A} (x y : option A) : option A := match x with Some _ => x | None => y end.

(** [iconv_open tocode fromcode]: the conversion of the system, if it has one. [None]
    is the error EINVAL; allocation is assumed to succeed. *)
Definition smb_iconv_open_ex (iconv_open : string -> string -> option conv_fn) (tocode fromcode : string)
    (use_builtin_handlers : bool) : option smb_iconv_t :=
  if bool_decide (fromcode = tocode) then Some (Smb_iconv (Some iconv_copy) None None)
  else
    let from := find_charset fromcode use_builtin_handlers in
    let to := find_charset tocode use_builtin_handlers in
    let pull := match from with
                | None => or_alt (iconv_open "UTF-16LE" fromcode) (iconv_open "UCS-2LE" fromcode)
                | Some f => Some (cf_pull f)
                end in
    let push := match to with
                | None => or_alt (iconv_open tocode "UTF-16LE") (iconv_open tocode "UCS-2LE")
                | Some f => Some (cf_push f)
                end in
    match pull, push with
    | Some pull, Some push =>
        if is_utf16 fromcode && bool_decide (is_Some to) then Some (Smb_iconv (Some push) None None)
        else if is_utf16 tocode && bool_decide (is_Some from) then Some (Smb_iconv (Some pull) None None)
        else if is_utf16 fromcode then Some (Smb_iconv (Some push) None None)
        else if is_utf16 tocode then Some (Smb_iconv (Some pull) None None)
        else Some (Smb_iconv None (Some pull) (Some push))
    | _, _ => None
    end.

Definition smb_iconv_open (iconv_open : string -> string -> option conv_fn) (tocode fromcode : string)
    : option smb_iconv_t :=
  smb_iconv_open_ex iconv_open tocode fromcode true.

Definition SMB_ICONV_BUFSIZE : Z := 2048.

(** The loop through the buffer; every turn consumes input, so that [fuel] need not
    exceed its length. *)
Fixpoint iconv_loop (fuel : nat) (pull push : conv_fn) (inb : list Z) (left : Z) : option conv :=
  match inb with
  | [] => Some (stop [] left None)
  | _ =>
      match fuel with
      | O => None
      | S fuel =>
          let p := pull inb SMB_ICONV_BUFSIZE in
          let pull_failed := match cv_err p with
                             | Some e => if negb (e =? E2BIG) then Some e else None
                             | None => None
                             end in
          let q := push (cv_out p) left in
          match or_alt (cv_err q) pull_failed with
          | Some e => Some (Conv (cv_out q) (cv_in p) (cv_left q) (Some e))
          | None => emit (cv_out q) <$> iconv_loop fuel pull push (cv_in p) (cv_left q)
          end
      end
  end.

(** [None] stands for a loop that makes no progress and for a descriptor without
    functions. *)
Definition smb_iconv (cd : smb_iconv_t) (inb : list Z) (left : Z) : option conv :=
  match cd with
  | Smb_iconv (Some direct) _ _ => Some (direct inb left)
  | Smb_iconv None (Some pull) (Some push) => iconv_loop (length inb) pull push inb left
  | _ => None
  end.
