(* ===== verification/IconvProps.v ===== *)
(** * Character set conversion: properties

    The standard encodings of a text, a list of Unicode scalar values, as reference
    for the conversions of [Iconv], and the interface between the functions and the
    loop of [smb_iconv]. *)

From S2P Require Import Prelude.
From S2P Require Import Errmap.
From S2P Require Import CString.
From S2P Require Import Iconv.
From stdpp Require Import prelude list strings.

#[local] Open Scope Z_scope.

(** ** Reference encodings *)

Definition scalar (cp : Z) : Prop := 0 <= cp < 0xD800 \/ 0xE000 <= cp < 0x110000.

(** A 16-bit unit in little-endian order. *)
Definition unit16 (u : Z) : list Z := [u mod 256; u / 256].

Definition utf16_char (cp : Z) : list Z :=
  if cp <? 0x10000 then unit16 cp
  else unit16 (0xD800 + (cp - 0x10000) / 1024) ++ unit16 (0xDC00 + (cp - 0x10000) mod 1024).

Definition utf8_char (cp : Z) : list Z :=
  if cp <? 0x80 then [cp]
  else if cp <? 0x800 then [0xC0 + cp / 64; 0x80 + cp mod 64]
  else if cp <? 0x10000 then [0xE0 + cp / 4096; 0x80 + cp / 64 mod 64; 0x80 + cp mod 64]
  else [0xF0 + cp / 262144; 0x80 + cp / 4096 mod 64; 0x80 + cp / 64 mod 64; 0x80 + cp mod 64].

Definition utf16 (t : list Z) : list Z := t ≫= utf16_char.
Definition utf8 (t : list Z) : list Z := t ≫= utf8_char.

(** ** Single characters *)

(** The step of a conversion over the bytes [src] of a character, which it writes as
    [dst]. *)
Definition steps (f : conv_fn) (src dst : list Z) : Prop :=
  forall rest left, f (src ++ rest) left =
    if left <? Z.of_nat (length dst) then stop (src ++ rest) left (Some E2BIG)
    else emit dst (f rest (left - Z.of_nat (length dst))).

(** A check of all bytes. *)
Ltac all_bytes c f Hc :=
  let H := fresh in pose proof (forall_below 256 f ltac:(vm_compute; reflexivity) c ltac:(lia)) as H; cbv beta in H;
  rewrite !andb_true_iff, ?Bool.eqb_true_iff in H.

Lemma lead_bytes c : 0 <= c < 256 ->
  (Z.land c 0x80 =? 0) = (c <? 0x80) /\ (Z.land c 0xe0 =? 0xc0) = ((0xC0 <=? c) && (c <? 0xE0)) /\
  (Z.land c 0xf0 =? 0xe0) = ((0xE0 <=? c) && (c <? 0xF0)) /\ (Z.land c 0xf8 =? 0xf0) = ((0xF0 <=? c) && (c <? 0xF8)) /\
  cont c = ((0x80 <=? c) && (c <? 0xC0)).
Proof.
  intros Hc. all_bytes c (fun c =>
    Bool.eqb (Z.land c 0x80 =? 0) (c <? 0x80) && Bool.eqb (Z.land c 0xe0 =? 0xc0) ((0xC0 <=? c) && (c <? 0xE0)) &&
    Bool.eqb (Z.land c 0xf0 =? 0xe0) ((0xE0 <=? c) && (c <? 0xF0)) &&
    Bool.eqb (Z.land c 0xf8 =? 0xf0) ((0xF0 <=? c) && (c <? 0xF8)) &&
    Bool.eqb (cont c) ((0x80 <=? c) && (c <? 0xC0))) Hc. tauto.
Qed.

Lemma unit_bytes c : 0 <= c < 256 ->
  (Z.land c 0xf8 =? 0) = (c <? 8) /\ (Z.land c 0xfc =? 0xdc) = ((0xDC <=? c) && (c <? 0xE0)) /\
  (Z.land c 0xfc =? 0xd8) = ((0xD8 <=? c) && (c <? 0xDC)).
Proof.
  intros Hc. all_bytes c (fun c => Bool.eqb (Z.land c 0xf8 =? 0) (c <? 8) &&
    Bool.eqb (Z.land c 0xfc =? 0xdc) ((0xDC <=? c) && (c <? 0xE0)) &&
    Bool.eqb (Z.land c 0xfc =? 0xd8) ((0xD8 <=? c) && (c <? 0xDC))) Hc. tauto.
Qed.

(** Decides a comparison of the goal. *)
Ltac decide_le x y := first [rewrite (proj2 (Z.leb_le x y)) by lia | rewrite (proj2 (Z.leb_gt x y)) by lia].
Ltac decide_lt x y := first [rewrite (proj2 (Z.ltb_lt x y)) by lia | rewrite (proj2 (Z.ltb_ge x y)) by lia].

Lemma lead1 c : 0 <= c < 0x80 -> (Z.land c 0x80 =? 0) = true.
Proof. intros Hc. destruct (lead_bytes c) as (-> & _); [lia|]. apply Z.ltb_lt. lia. Qed.

Lemma lead2 c : 0xC0 <= c < 0xE0 -> (Z.land c 0x80 =? 0) = false /\ (Z.land c 0xe0 =? 0xc0) = true.
Proof. intros Hc. destruct (lead_bytes c) as (-> & -> & _); [lia|]. lia. Qed.

Lemma lead3 c : 0xE0 <= c < 0xF0 ->
  (Z.land c 0x80 =? 0) = false /\ (Z.land c 0xe0 =? 0xc0) = false /\ (Z.land c 0xf0 =? 0xe0) = true.
Proof. intros Hc. destruct (lead_bytes c) as (-> & -> & -> & _); [lia|]. lia. Qed.

Lemma lead4 c : 0xF0 <= c < 0xF8 ->
  (Z.land c 0x80 =? 0) = false /\ (Z.land c 0xe0 =? 0xc0) = false /\ (Z.land c 0xf0 =? 0xe0) = false /\
  (Z.land c 0xf8 =? 0xf0) = true.
Proof. intros Hc. destruct (lead_bytes c) as (-> & -> & -> & -> & _); [lia|]. lia. Qed.

Lemma cont_byte b : 0 <= b < 64 -> cont (0x80 + b) = true.
Proof. intros Hb. destruct (lead_bytes (0x80 + b)) as (_ & _ & _ & _ & ->); [lia|]. lia. Qed.

(** The bytes of the two and three byte forms. *)
Lemma pull2_ops a b : 0 <= a < 32 -> 0 <= b < 64 ->
  u8 (Z.lor (Z.shiftl (0xC0 + a) 6) (Z.land (0x80 + b) 0x3f)) = (a * 64 + b) mod 256 /\
  Z.land (Z.shiftr (0xC0 + a) 2) 0x7 = (a * 64 + b) / 256.
Proof.
  intros Ha Hb. pose proof (forall_below2 32 64 (fun a b =>
    (u8 (Z.lor (Z.shiftl (0xC0 + a) 6) (Z.land (0x80 + b) 0x3f)) =? (a * 64 + b) mod 256) &&
    (Z.land (Z.shiftr (0xC0 + a) 2) 0x7 =? (a * 64 + b) / 256)) ltac:(vm_compute; reflexivity) a b Ha Hb) as H.
  cbv beta in H. by boolify.
Qed.

Lemma pull3_ops a b c : 0 <= a < 16 -> 0 <= b < 64 -> 0 <= c < 64 ->
  u8 (Z.lor (Z.shiftl (0x80 + b) 6) (Z.land (0x80 + c) 0x3f)) = (a * 4096 + b * 64 + c) mod 256 /\
  Z.lor (Z.shiftl (Z.land (0xE0 + a) 0xF) 4) (Z.land (Z.shiftr (0x80 + b) 2) 0xF) = (a * 4096 + b * 64 + c) / 256.
Proof.
  intros Ha Hb Hc.
  pose proof (forall_below2 64 64 (fun b c =>
    u8 (Z.lor (Z.shiftl (0x80 + b) 6) (Z.land (0x80 + c) 0x3f)) =? (b * 64 + c) mod 256) ltac:(vm_compute; reflexivity) b c Hb Hc) as H1.
  pose proof (forall_below2 16 64 (fun a b =>
    Z.lor (Z.shiftl (Z.land (0xE0 + a) 0xF) 4) (Z.land (Z.shiftr (0x80 + b) 2) 0xF) =? a * 16 + b / 4)
    ltac:(vm_compute; reflexivity) a b Ha Hb) as H2.
  cbv beta in H1, H2. boolify. rewrite H1, H2. split; Z.to_euclidean_division_equations; lia.
Qed.

Lemma pull1 c : 0 <= c < 0x80 -> steps utf8_pull [c] (unit16 c).
Proof.
  intros Hc rest left. unfold unit16. cbn [app utf8_pull length]. change (Z.of_nat 2) with 2.
  rewrite lead1, Z.mod_small, Z.div_small by lia. done.
Qed.

Lemma pull2 a b : 0 <= a < 32 -> 0 <= b < 64 -> steps utf8_pull [0xC0 + a; 0x80 + b] (unit16 (a * 64 + b)).
Proof.
  intros Ha Hb rest left. unfold unit16. destruct (pull2_ops a b Ha Hb) as [<- <-]. cbn [app utf8_pull length]. change (Z.of_nat 2) with 2.
  destruct (lead2 (0xC0 + a)) as [-> ->]; [lia|]. by rewrite cont_byte.
Qed.

Lemma pull3 a b c : 0 <= a < 16 -> 0 <= b < 64 -> 0 <= c < 64 ->
  steps utf8_pull [0xE0 + a; 0x80 + b; 0x80 + c] (unit16 (a * 4096 + b * 64 + c)).
Proof.
  intros Ha Hb Hc rest left. unfold unit16. destruct (pull3_ops a b c Ha Hb Hc) as [<- <-]. cbn [app utf8_pull length]. change (Z.of_nat 2) with 2.
  destruct (lead3 (0xE0 + a)) as (-> & -> & ->); [lia|]. by rewrite !cont_byte.
Qed.

(** The code point of four bytes. *)
Lemma pull4_ops a b c d : 0 <= a < 8 -> 0 <= b < 64 -> 0 <= c < 64 -> 0 <= d < 64 ->
  Z.lor (Z.lor (Z.lor (Z.land (0x80 + d) 0x3f) (Z.shiftl (Z.land (0x80 + c) 0x3f) 6))
           (Z.shiftl (Z.land (0x80 + b) 0x3f) 12)) (Z.shiftl (Z.land (0xF0 + a) 0x7) 18) =
  a * 262144 + b * 4096 + c * 64 + d.
Proof.
  intros Ha Hb Hc Hd.
  assert (Hl : forall x, 0 <= x < 64 -> Z.land (0x80 + x) 0x3f = x).
  { intros x Hx. change 0x3f with (Z.ones 6). rewrite Z.land_ones by lia. change (2 ^ 6) with 64. rewrite <- (Z.mod_small x 64) at 2 by lia.
    by rewrite <- Zplus_mod_idemp_l. }
  rewrite !Hl by lia.
  assert (Z.land (0xF0 + a) 0x7 = a) as ->.
  { change 0x7 with (Z.ones 3). rewrite Z.land_ones by lia. change (2 ^ 3) with 8. rewrite <- (Z.mod_small a 8) at 2 by lia.
    by rewrite <- Zplus_mod_idemp_l. }
  rewrite !Z.shiftl_mul_pow2 by lia.
  rewrite (Z.lor_comm d), lor_disjoint by lia. rewrite (Z.lor_comm (c * 2 ^ 6 + d)), lor_disjoint by lia.
  rewrite (Z.lor_comm (b * 2 ^ 12 + _)), lor_disjoint by lia. lia.
Qed.

(** The surrogates of [v], 20 bits above the 16-bit range. *)
Lemma surrogate_ops v : 0 <= v < 2 ^ 20 ->
  [Z.land (Z.shiftr v 10) 0xFF; u8 (Z.lor (Z.shiftr v 18) 0xd8); Z.land v 0xFF; Z.lor (Z.land (Z.shiftr v 8) 0x3) 0xdc] =
  unit16 (0xD800 + v / 1024) ++ unit16 (0xDC00 + v mod 1024).
Proof.
  intros Hv. rewrite !Z.shiftr_div_pow2 by lia. change 0xFF with (Z.ones 8). change 0x3 with (Z.ones 2). rewrite !Z.land_ones by lia.
  assert (Hq : forall x y, 0 <= x < 4 -> y = 0xd8 \/ y = 0xdc -> Z.lor x y = y + x /\ u8 (Z.lor x y) = y + x).
  { intros x y Hx [-> | ->]; assert (x = 0 \/ x = 1 \/ x = 2 \/ x = 3) as [-> |[-> |[-> | ->]]] by lia; split; reflexivity. }
  assert (Hv1 : 0 <= v / 2 ^ 18 < 4) by (Z.to_euclidean_division_equations; lia).
  assert (Hv2 : 0 <= v / 2 ^ 8 mod 2 ^ 2 < 4) by (apply Z.mod_pos_bound; lia).
  rewrite (proj2 (Hq (v / 2 ^ 18) 0xd8 Hv1 ltac:(by left))), (proj1 (Hq _ 0xdc Hv2 ltac:(by right))).
  unfold unit16. cbn [app]. change (2 ^ 10) with 1024. change (2 ^ 8) with 256. change (2 ^ 18) with 262144. change (2 ^ 2) with 4.
  repeat apply (f_equal2 cons); [..|done]; Z.to_euclidean_division_equations; lia.
Qed.

Lemma pull4 a b c d cp :
  0 <= a < 8 -> 0 <= b < 64 -> 0 <= c < 64 -> 0 <= d < 64 -> cp = a * 262144 + b * 4096 + c * 64 + d ->
  0x10000 <= cp < 0x110000 ->
  steps utf8_pull [0xF0 + a; 0x80 + b; 0x80 + c; 0x80 + d] (utf16_char cp).
Proof.
  intros Ha Hb Hc Hd Ecp Hcp rest left. unfold utf16_char. rewrite (proj2 (Z.ltb_ge cp 0x10000)) by lia.
  rewrite <- surrogate_ops by lia. cbn [app utf8_pull length]. change (Z.of_nat 4) with 4.
  destruct (lead4 (0xF0 + a)) as (-> & -> & -> & ->); [lia|]. rewrite !cont_byte by lia. cbn [negb orb].
  rewrite pull4_ops by done. rewrite <- Ecp, (proj2 (Z.ltb_ge cp 0x10000)) by lia.
  destruct (Z.ltb_spec left 2); [|done]. by rewrite (proj2 (Z.ltb_lt left 4)) by lia.
Qed.

Lemma utf8_pull_steps cp : scalar cp -> steps utf8_pull (utf8_char cp) (utf16_char cp).
Proof.
  intros Hcp. unfold utf8_char, scalar in *.
  assert (Hbmp : cp < 0x10000 -> utf16_char cp = unit16 cp) by (intros H; unfold utf16_char; by rewrite (proj2 (Z.ltb_lt cp 0x10000))).
  destruct (Z.ltb_spec cp 0x80); [rewrite Hbmp by lia; apply pull1; lia|].
  destruct (Z.ltb_spec cp 0x800); [rewrite Hbmp by lia|destruct (Z.ltb_spec cp 0x10000); [rewrite Hbmp by lia|]].
  - rewrite (Z_div_mod_eq_full cp 64) at 3. rewrite Z.mul_comm.
    apply pull2; Z.to_euclidean_division_equations; lia.
  - replace (unit16 cp) with (unit16 (cp / 4096 * 4096 + cp / 64 mod 64 * 64 + cp mod 64))
      by (f_equal; Z.to_euclidean_division_equations; lia).
    apply pull3; Z.to_euclidean_division_equations; lia.
  - apply pull4; Z.to_euclidean_division_equations; lia.
Qed.

(** ** Single characters, to UTF-8 *)

Lemma push_end_unit a b rest left : push_end (a :: b :: rest) left = stop (a :: b :: rest) left (Some E2BIG).
Proof. done. Qed.

Lemma push1 c : 0 <= c < 0x80 -> steps utf8_push (unit16 c) [c].
Proof.
  intros Hc rest left. unfold unit16. rewrite Z.mod_small, Z.div_small by lia. cbn [app utf8_push length].
  change (Z.of_nat 1) with 1. by rewrite lead1.
Qed.

Lemma push2_ops u0 u1 : 0 <= u0 < 256 -> 0 <= u1 < 8 ->
  [u8 (Z.lor (Z.lor 0xc0 (Z.shiftr u0 6)) (Z.shiftl u1 2)); Z.lor 0x80 (Z.land u0 0x3f)] =
  [0xC0 + (u0 + 256 * u1) / 64; 0x80 + (u0 + 256 * u1) mod 64].
Proof.
  intros H0 H1. pose proof (forall_below2 256 8 (fun u0 u1 =>
    (u8 (Z.lor (Z.lor 0xc0 (Z.shiftr u0 6)) (Z.shiftl u1 2)) =? 0xC0 + (u0 + 256 * u1) / 64) &&
    (Z.lor 0x80 (Z.land u0 0x3f) =? 0x80 + (u0 + 256 * u1) mod 64)) ltac:(vm_compute; reflexivity) u0 u1 H0 H1) as H.
  cbv beta in H. boolify. by f_equal; [|f_equal].
Qed.

(** [or] with a mark above the value. *)
Lemma mark_80 x : 0 <= x < 64 -> Z.lor 0x80 x = 0x80 + x.
Proof. intros Hx. apply (lor_disjoint 2 x 6); lia. Qed.

Lemma mark_e0 x : 0 <= x < 16 -> Z.lor 0xe0 x = 0xE0 + x.
Proof. intros Hx. apply (lor_disjoint 14 x 4); lia. Qed.

Lemma mark_f0 x : 0 <= x < 8 -> Z.lor 0xf0 x = 0xF0 + x.
Proof. intros Hx. apply (lor_disjoint 30 x 3); lia. Qed.

Lemma low6 x : 0 <= x -> Z.lor 0x80 (Z.land x 0x3f) = 0x80 + x mod 64.
Proof. intros Hx. change 0x3f with (Z.ones 6). rewrite Z.land_ones by lia. apply mark_80, Z.mod_pos_bound. lia. Qed.

Lemma lor_bytes a b : 0 <= a < 256 -> Z.lor a (Z.shiftl b 8) = a + 256 * b.
Proof. intros Ha. rewrite Z.shiftl_mul_pow2, Z.lor_comm, lor_disjoint by lia. lia. Qed.

Lemma unit16_value u : 0 <= u -> u mod 256 + 256 * (u / 256) = u.
Proof. intros. rewrite (Z_div_mod_eq_full u 256) at 3. lia. Qed.

Lemma push2 cp : 0x80 <= cp < 0x800 -> steps utf8_push (unit16 cp) [0xC0 + cp / 64; 0x80 + cp mod 64].
Proof.
  intros Hc rest left. unfold unit16. set (u0 := cp mod 256). set (u1 := cp / 256).
  assert (0 <= u0 < 256) as H0 by (apply Z.mod_pos_bound; lia).
  assert (0 <= u1 < 8) as H1 by (unfold u1; Z.to_euclidean_division_equations; lia).
  assert (cp = u0 + 256 * u1) as E by (symmetry; apply unit16_value; lia).
  replace [0xC0 + cp / 64; 0x80 + cp mod 64] with [0xC0 + (u0 + 256 * u1) / 64; 0x80 + (u0 + 256 * u1) mod 64] by (by rewrite <- E).
  rewrite <- push2_ops by done. cbn [app utf8_push length]. change (Z.of_nat 2) with 2.
  destruct (lead_bytes u0 H0) as (-> & _). destruct (unit_bytes u1) as (-> & _); [lia|].
  rewrite (proj2 (Z.ltb_lt u1 8)) by lia. replace ((u1 =? 0) && (u0 <? 0x80)) with false by lia.
  destruct (Z.ltb_spec left 1); [|done]. by rewrite (proj2 (Z.ltb_lt left 2)) by lia.
Qed.

Lemma push3 cp :
  0x800 <= cp < 0xD800 \/ 0xE000 <= cp < 0x10000 ->
  steps utf8_push (unit16 cp) [0xE0 + cp / 4096; 0x80 + cp / 64 mod 64; 0x80 + cp mod 64].
Proof.
  intros Hc rest left. unfold unit16. set (u0 := cp mod 256). set (u1 := cp / 256).
  assert (0 <= u0 < 256) as H0 by (apply Z.mod_pos_bound; lia).
  assert (8 <= u1 < 0xD8 \/ 0xE0 <= u1 < 256) as H1 by (unfold u1; Z.to_euclidean_division_equations; lia).
  assert (u0 + 256 * u1 = cp) as E by (apply unit16_value; lia).
  cbn [app utf8_push length]. change (Z.of_nat 3) with 3.
  rewrite (proj2 (Z.eqb_neq u1 0)) by lia. cbn [andb].
  destruct (unit_bytes u1) as (-> & -> & ->); [lia|]. rewrite (proj2 (Z.ltb_ge u1 8)) by lia.
  replace ((0xDC <=? u1) && (u1 <? 0xE0)) with false by lia. replace ((0xD8 <=? u1) && (u1 <? 0xDC)) with false by lia. cbn [negb].
  rewrite lor_bytes by done. rewrite E, !Z.shiftr_div_pow2, !low6, mark_e0 by (lia || (Z.to_euclidean_division_equations; lia)).
  destruct (Z.ltb_spec left 1); [|done]. by rewrite (proj2 (Z.ltb_lt left 3)) by lia.
Qed.

Lemma push4 cp :
  0x10000 <= cp < 0x110000 ->
  steps utf8_push (utf16_char cp)
    [0xF0 + cp / 262144; 0x80 + cp / 4096 mod 64; 0x80 + cp / 64 mod 64; 0x80 + cp mod 64].
Proof.
  intros Hc rest left. unfold utf16_char. rewrite (proj2 (Z.ltb_ge cp 0x10000)) by lia. unfold unit16.
  set (v := cp - 0x10000). set (u0 := (0xD800 + v / 1024) mod 256). set (u1 := (0xD800 + v / 1024) / 256).
  set (u2 := (0xDC00 + v mod 1024) mod 256). set (u3 := (0xDC00 + v mod 1024) / 256).
  assert (0 <= v < 2 ^ 20) as Hv by (unfold v; lia).
  assert (0xD8 <= u1 < 0xDC) as H1 by (unfold u1; Z.to_euclidean_division_equations; lia).
  assert (0xDC <= u3 < 0xE0) as H3 by (unfold u3; Z.to_euclidean_division_equations; lia).
  assert (0 <= u0 < 256 /\ 0 <= u2 < 256) as [H0 H2] by (split; apply Z.mod_pos_bound; lia).
  assert (E : 0x10000 + Z.lor (Z.lor (Z.lor u2 (Z.shiftl (Z.land u3 0x3) 8)) (Z.shiftl u0 10)) (Z.shiftl (Z.land u1 0x3) 18) = cp).
  { change 0x3 with (Z.ones 2). rewrite !Z.land_ones, lor_bytes by lia.
    pose proof (Z.mod_pos_bound u3 (2 ^ 2) ltac:(lia)). pose proof (Z.mod_pos_bound u1 (2 ^ 2) ltac:(lia)).
    rewrite !Z.shiftl_mul_pow2 by lia.
    rewrite (Z.lor_comm (u2 + _)), lor_disjoint by lia. rewrite (Z.lor_comm (u0 * _ + _)), lor_disjoint by lia.
    unfold u0, u1, u2, u3, v in *. change (2 ^ 2) with 4. change (2 ^ 18) with 262144. change (2 ^ 10) with 1024.
    Z.to_euclidean_division_equations; lia. }
  cbn [app utf8_push length]. change (Z.of_nat 4) with 4. rewrite (proj2 (Z.eqb_neq u1 0)) by lia. cbn [andb].
  destruct (unit_bytes u1) as (-> & -> & ->); [lia|]. rewrite (proj2 (Z.ltb_ge u1 8)) by lia.
  replace ((0xDC <=? u1) && (u1 <? 0xE0)) with false by lia. replace ((0xD8 <=? u1) && (u1 <? 0xDC)) with true by lia.
  destruct (unit_bytes u3) as (_ & -> & _); [lia|]. replace ((0xDC <=? u3) && (u3 <? 0xE0)) with true by lia. cbn [negb].
  rewrite E, !Z.shiftr_div_pow2, !low6, mark_f0 by (lia || (Z.to_euclidean_division_equations; lia)).
  destruct (Z.ltb_spec left 1); [|done]. by rewrite (proj2 (Z.ltb_lt left 4)) by lia.
Qed.

Lemma utf8_push_steps cp : scalar cp -> steps utf8_push (utf16_char cp) (utf8_char cp).
Proof.
  intros Hcp. unfold utf8_char, scalar in *.
  assert (Hbmp : cp < 0x10000 -> utf16_char cp = unit16 cp) by (intros H; unfold utf16_char; by rewrite (proj2 (Z.ltb_lt cp 0x10000))).
  destruct (Z.ltb_spec cp 0x80); [rewrite Hbmp by lia; apply push1; lia|].
  destruct (Z.ltb_spec cp 0x800); [rewrite Hbmp by lia; apply push2; lia|].
  destruct (Z.ltb_spec cp 0x10000); [rewrite Hbmp by lia; apply push3; lia | apply push4; lia].
Qed.

(** ** Texts *)

(** A conversion that works character by character: [src] and [dst] are the forms of
    a character of [dom]. *)
Class Charwise (f : conv_fn) (src dst : Z -> list Z) (dom : Z -> Prop) : Prop := {
  cw_nil : forall left, f [] left = stop [] left None;
  cw_steps : forall cp, dom cp -> steps f (src cp) (dst cp);
}.

Lemma emit_emit a b r : emit a (emit b r) = emit (a ++ b) r.
Proof. unfold emit. cbn. by rewrite app_assoc. Qed.

Lemma emit_stop out inb left e : emit out (stop inb left e) = Conv out inb left e.
Proof. unfold emit, stop. cbn. by rewrite app_nil_r. Qed.

Section charwise.
Context {f : conv_fn} {src dst : Z -> list Z} {dom : Z -> Prop} `{!Charwise f src dst dom}.

(** With enough room the whole text is converted. *)
Lemma charwise_text t rest left :
  Forall dom t -> Z.of_nat (length (t ≫= dst)) <= left ->
  f ((t ≫= src) ++ rest) left = emit (t ≫= dst) (f rest (left - Z.of_nat (length (t ≫= dst)))).
Proof.
  intros Ht. revert left. induction Ht as [|cp t Hcp _ IH]; intros left Hl; cbn [mbind list_bind app length] in *.
  { replace (left - Z.of_nat 0) with left by lia. unfold emit. by destruct (f rest left). }
  rewrite length_app in *. rewrite <- app_assoc, (cw_steps cp Hcp).
  rewrite (proj2 (Z.ltb_ge _ _)) by lia. rewrite IH by lia. rewrite emit_emit. f_equal. f_equal. lia.
Qed.

(** Otherwise it stops before the first character that does not fit. *)
Lemma charwise_stops t left :
  Forall dom t -> exists t1 t2, t = t1 ++ t2 /\ Z.of_nat (length (t1 ≫= dst)) <= Z.max 0 left /\
    f (t ≫= src) left = Conv (t1 ≫= dst) (t2 ≫= src) (left - Z.of_nat (length (t1 ≫= dst)))
                          (match t2 with [] => None | _ => Some E2BIG end) /\
    match t2 with [] => True | cp :: _ => left - Z.of_nat (length (t1 ≫= dst)) < Z.of_nat (length (dst cp)) end.
Proof.
  intros Ht. revert left. induction Ht as [|cp t Hcp Ht IH]; intros left.
  { exists [], []. cbn. rewrite cw_nil. split_and!; [done | lia | | done]. unfold stop. f_equal. lia. }
  cbn [mbind list_bind]. rewrite (cw_steps cp Hcp). destruct (Z.ltb_spec left (Z.of_nat (length (dst cp)))).
  { exists [], (cp :: t). cbn. split_and!; [done | lia | unfold stop; f_equal; lia | lia]. }
  destruct (IH (left - Z.of_nat (length (dst cp)))) as (t1 & t2 & -> & Hl & Hf & Hn).
  exists (cp :: t1), t2. cbn [mbind list_bind app]. rewrite length_app. split_and!; [done | lia | | destruct t2; [done|lia]].
  rewrite Hf. unfold emit. cbn. f_equal. lia.
Qed.

End charwise.

#[export] Instance utf8_pull_charwise : Charwise utf8_pull utf8_char utf16_char scalar.
Proof. split; [done | apply utf8_pull_steps]. Qed.

#[export] Instance utf8_push_charwise : Charwise utf8_push utf16_char utf8_char scalar.
Proof. split; [done | apply utf8_push_steps]. Qed.

(** ** What UTF-16 is accepted *)

Lemma utf16_char_unit u0 u1 :
  0 <= u0 < 256 -> 0 <= u1 < 0xD8 \/ 0xE0 <= u1 < 256 ->
  scalar (u0 + 256 * u1) /\ utf16_char (u0 + 256 * u1) = [u0; u1].
Proof.
  intros H0 H1. split; [unfold scalar; lia|]. unfold utf16_char. rewrite (proj2 (Z.ltb_lt _ _)) by lia. unfold unit16.
  apply f_equal2; [|apply f_equal2; [|done]]; Z.to_euclidean_division_equations; lia.
Qed.

Lemma utf16_char_pair u0 u1 u2 u3 :
  0 <= u0 < 256 -> 0xD8 <= u1 < 0xDC -> 0 <= u2 < 256 -> 0xDC <= u3 < 0xE0 ->
  exists cp, scalar cp /\ 0x10000 <= cp /\ utf16_char cp = [u0; u1; u2; u3].
Proof.
  intros H0 H1 H2 H3. exists (0x10000 + (u0 + 256 * u1 - 0xD800) * 1024 + (u2 + 256 * u3 - 0xDC00)).
  split; [unfold scalar; lia|]. split; [lia|]. unfold utf16_char. rewrite (proj2 (Z.ltb_ge _ _)) by lia.
  set (h := u0 + 256 * u1 - 0xD800). set (l := u2 + 256 * u3 - 0xDC00).
  replace (0x10000 + h * 1024 + l - 0x10000) with (h * 1024 + l) by lia.
  rewrite Z.div_add_l, (Z.div_small l), Z.add_0_r by (unfold l; lia).
  rewrite (Z.add_comm (h * 1024)), Z.mod_add, (Z.mod_small l) by (unfold l; lia).
  unfold unit16, h, l. cbn [app]. repeat apply (f_equal2 cons); [..|done]; Z.to_euclidean_division_equations; lia.
Qed.

(** Well formed means that the bytes encode a text. *)
Definition utf16_valid (u : list Z) : Prop := exists t, Forall scalar t /\ u = utf16 t.

Lemma utf16_valid_nil : utf16_valid [].
Proof. by exists []. Qed.

Lemma utf16_valid_cons cp u : scalar cp -> utf16_valid u -> utf16_valid (utf16_char cp ++ u).
Proof. intros Hcp (t & Ht & ->). exists (cp :: t). split; [by constructor | done]. Qed.

Lemma emit_err out r : cv_err (emit out r) = cv_err r.
Proof. done. Qed.

Lemma steps_ok f src dst rest left :
  steps f src dst -> cv_err (f (src ++ rest) left) = None -> cv_err (f rest (left - Z.of_nat (length dst))) = None.
Proof. intros Hs. rewrite Hs. by destruct (left <? _). Qed.

Lemma utf8_push_accepts u left : Forall is_byte u -> cv_err (utf8_push u left) = None -> utf16_valid u.
Proof.
  remember (length u) as n eqn:Hn. revert u left Hn. induction (lt_wf n) as [n _ IH]. intros u left -> Hb Hok.
  destruct u as [|u0 [|u1 r2]]; [apply utf16_valid_nil | done |].
  apply Forall_cons in Hb as [H0 [H1 Hr]%Forall_cons]. unfold is_byte in *.
  destruct (decide (0 <= u1 < 0xD8 \/ 0xE0 <= u1 < 256)) as [Hu|Hu].
  { destruct (utf16_char_unit u0 u1 H0 Hu) as [Hs Hc]. change (u0 :: u1 :: r2) with ([u0; u1] ++ r2) in *. rewrite <- Hc in *.
    apply utf16_valid_cons; [done|]. apply (IH (length r2)) with (left - Z.of_nat (length (utf8_char (u0 + 256 * u1)))); try done.
    - rewrite Hc. cbn. lia.
    - eapply steps_ok; [by apply utf8_push_steps | done]. }
  cbn [utf8_push] in Hok. destruct (left <? 1); [done|]. rewrite (proj2 (Z.eqb_neq u1 0)) in Hok by lia. cbn [andb] in Hok.
  destruct (unit_bytes u1 H1) as (E1 & E2 & E3). rewrite E1, E2, E3, (proj2 (Z.ltb_ge u1 8)) in Hok by lia.
  destruct ((0xDC <=? u1) && (u1 <? 0xE0)) eqn:E; [done|]. replace ((0xD8 <=? u1) && (u1 <? 0xDC)) with true in Hok by lia. cbn [negb] in Hok.
  destruct r2 as [|u2 [|u3 r4]]; [done | done |]. apply Forall_cons in Hr as [H2 [H3 Hr]%Forall_cons].
  destruct (unit_bytes u3 H3) as (_ & E5 & _). destruct (Z.land u3 252 =? 220) eqn:E4; [|done]. symmetry in E5. boolify.
  destruct (utf16_char_pair u0 u1 u2 u3) as (cp & Hs & Hge & Hc); [lia..|].
  destruct (left <? 4); [done|]. cbn in Hok.
  change (u0 :: u1 :: u2 :: u3 :: r4) with ([u0; u1; u2; u3] ++ r4). rewrite <- Hc. apply utf16_valid_cons; [done|].
  apply (IH (length r4)) with (left - 4); try done. cbn. lia.
Qed.

(** ** The other character sets *)

Lemma utf16_char_bmp cp : 0 <= cp < 0x10000 -> utf16_char cp = unit16 cp.
Proof. intros H. unfold utf16_char. by rewrite (proj2 (Z.ltb_lt _ _)) by lia. Qed.

Lemma byte_unit c : 0 <= c < 256 -> utf16_char c = [c; 0].
Proof. intros Hc. rewrite utf16_char_bmp by lia. unfold unit16. by rewrite Z.mod_small, Z.div_small. Qed.

Lemma ascii_test c : 0 <= c < 256 -> (Z.land c 0x7F =? c) = (c <? 0x80).
Proof. intros Hc. change 0x7F with (Z.ones 7). rewrite Z.land_ones by lia. change (2 ^ 7) with 128. Z.to_euclidean_division_equations; lia. Qed.

#[export] Instance ascii_pull_charwise : Charwise ascii_pull (fun cp => [cp]) utf16_char (fun cp => 0 <= cp < 0x80).
Proof.
  split; [done|]. intros cp Hcp rest left. rewrite byte_unit by lia. cbn [app ascii_pull length]. change (Z.of_nat 2) with 2.
  rewrite ascii_test by lia. by rewrite (proj2 (Z.ltb_lt cp 0x80)) by lia.
Qed.

#[export] Instance latin1_pull_charwise : Charwise latin1_pull (fun cp => [cp]) utf16_char (fun cp => 0 <= cp < 0x100).
Proof. split; [done|]. intros cp Hcp rest left. by rewrite byte_unit. Qed.

(** A conversion from UTF-16 either has a form for a character or refuses it. *)
Class Pusher (push : conv_fn) : Prop := {
  ps_nil : forall left, push [] left = stop [] left None;
  ps_char : forall cp, scalar cp -> exists o : option (list Z), forall rest left,
    push (utf16_char cp ++ rest) left =
      match o with
      | Some dst => if left <? Z.of_nat (length dst) then stop (utf16_char cp ++ rest) left (Some E2BIG)
                    else emit dst (push rest (left - Z.of_nat (length dst)))
      | None => stop (utf16_char cp ++ rest) left (Some (if left <? 1 then E2BIG else EILSEQ))
      end;
}.

#[export] Instance utf8_push_pusher : Pusher utf8_push.
Proof. split; [done|]. intros cp Hcp. exists (Some (utf8_char cp)). by apply utf8_push_steps. Qed.

(** A character beyond Latin-1 has a second byte that is not 0. *)
Lemma utf16_char_high cp : scalar cp -> 0x100 <= cp -> exists u0 u1 l, utf16_char cp = u0 :: u1 :: l /\ u1 <> 0.
Proof.
  intros Hs Hc. unfold utf16_char, scalar in *. destruct (Z.ltb_spec cp 0x10000); unfold unit16; cbn [app];
    eexists _, _, _; (split; [reflexivity|]); Z.to_euclidean_division_equations; lia.
Qed.

#[export] Instance ascii_push_pusher : Pusher ascii_push.
Proof.
  split; [done|]. intros cp Hcp. destruct (Z.ltb_spec cp 0x80) as [H|H]; [exists (Some [cp])|exists None]; intros rest left.
  - assert (0 <= cp) by (unfold scalar in Hcp; lia). rewrite byte_unit by lia. cbn [app ascii_push length]. change (Z.of_nat 1) with 1.
    rewrite ascii_test, (proj2 (Z.ltb_lt cp 0x80)) by lia. done.
  - destruct (Z.ltb_spec cp 0x100).
    + rewrite byte_unit by lia. cbn [app ascii_push]. rewrite ascii_test, (proj2 (Z.ltb_ge cp 0x80)) by lia. cbn. by destruct (left <? 1).
    + destruct (utf16_char_high cp Hcp) as (u0 & u1 & l & -> & Hu); [lia|]. cbn [app ascii_push].
      rewrite (proj2 (Z.eqb_neq u1 0)), orb_true_r by done. by destruct (left <? 1).
Qed.

#[export] Instance latin1_push_pusher : Pusher latin1_push.
Proof.
  split; [done|]. intros cp Hcp. destruct (Z.ltb_spec cp 0x100) as [H|H]; [exists (Some [cp])|exists None]; intros rest left.
  - rewrite byte_unit by (unfold scalar in Hcp; lia). done.
  - destruct (utf16_char_high cp Hcp) as (u0 & u1 & l & -> & Hu); [lia|]. cbn [app latin1_push].
    rewrite (proj2 (Z.eqb_neq u1 0)) by done. by destruct (left <? 1).
Qed.

(** ** Conversion in chunks *)

Lemma push_app push t b left : Pusher push -> Forall scalar t ->
  let q := push (utf16 t) left in
  push (utf16 t ++ b) left =
    match cv_err q with
    | None => emit (cv_out q) (push b (cv_left q))
    | Some e => Conv (cv_out q) (cv_in q ++ b) (cv_left q) (Some e)
    end.
Proof.
  intros Hpush Ht. revert left. induction Ht as [|cp t Hcp Ht IH]; intros left q; subst q; cbn [utf16 mbind list_bind app].
  { rewrite ps_nil. unfold emit, stop. cbn. by destruct (push b left). }
  destruct (ps_char cp Hcp) as [o Ho]. fold (utf16 t). rewrite <- app_assoc, !Ho. destruct o as [dst|]; [|unfold stop; cbn; by rewrite <- app_assoc].
  destruct (left <? _); [unfold stop; cbn; by rewrite <- app_assoc|]. rewrite (IH (left - _)), emit_err.
  destruct (cv_err (push (utf16 t) _)) eqn:E; [by unfold emit; cbn|]. by rewrite emit_emit.
Qed.

Lemma length_utf16_char cp : 2 <= Z.of_nat (length (utf16_char cp)) <= 4.
Proof. unfold utf16_char. destruct (cp <? 0x10000); cbn; lia. Qed.

Section chunks.
Context (pull push : conv_fn) (enc : Z -> list Z) (dom : Z -> Prop).
Context `{!Charwise pull enc utf16_char dom} `{!Pusher push}.
Context (Hdom : forall cp, dom cp -> scalar cp /\ enc cp <> []).

(** What [smb_iconv] promises, apart from the input that is left. *)
Definition same_result (r s : conv) : Prop := cv_out r = cv_out s /\ cv_left r = cv_left s /\ cv_err r = cv_err s.

Lemma iconv_loop_text t left fuel :
  Forall dom t -> (length t <= fuel)%nat ->
  exists r, iconv_loop fuel pull push (t ≫= enc) left = Some r /\ same_result r (push (utf16 t) left).
Proof using All.
  revert t left. induction fuel as [|fuel IH]; intros t left Ht Hf.
  { destruct t; [|cbn in Hf; lia]. eexists. split; [done|]. by rewrite ps_nil. }
  destruct t as [|cp t']; [eexists; split; [done|]; by rewrite ps_nil|].
  assert (Hne : (cp :: t') ≫= enc <> []). { apply Forall_cons in Ht as [Hcp _]. cbn [mbind list_bind]. destruct (Hdom cp Hcp). by destruct (enc cp). }
  set (t := cp :: t') in *. destruct (charwise_stops (f := pull) t SMB_ICONV_BUFSIZE Ht) as (t1 & t2 & E & _ & Hp & Hn).
  assert (Ht12 : Forall dom t1 /\ Forall dom t2) by (rewrite E in Ht; by apply Forall_app in Ht). destruct Ht12 as [Ht1 Ht2].
  assert (Ht1n : t1 <> []).
  { intros ->. cbn in E. subst t2. unfold t in Hn. cbn in Hn. pose proof (length_utf16_char cp). unfold SMB_ICONV_BUFSIZE in Hn. lia. }
  assert (Hlen : (length t2 <= fuel)%nat).
  { assert (length t = length t1 + length t2)%nat as Hl by (by rewrite E, length_app). destruct t1; [done|]. cbn [length] in Hl. lia. }
  assert (Hs1 : Forall scalar t1) by (eapply Forall_impl; [exact Ht1 | apply Hdom]).
  replace (utf16 t) with (utf16 t1 ++ utf16 t2) by (rewrite E; unfold utf16; by rewrite bind_app).
  rewrite push_app by done. cbn [iconv_loop]. destruct (t ≫= enc) as [|b0 bs] eqn:Eb; [done|].
  rewrite Hp. cbn [cv_out cv_in cv_err]. replace (match _ with Some e => _ | None => None end) with (None : option Z) by (by destruct t2).
  fold (utf16 t1). destruct (push (utf16 t1) left) as [qo qi ql [e|]] eqn:Eq; cbn [or_alt cv_err cv_out cv_in cv_left].
  { by eexists. }
  destruct (IH t2 ql Ht2 Hlen) as (r & -> & Hr). cbn. eexists. split; [done|].
  destruct Hr as (Ho & Hl & He). unfold same_result, emit. cbn. by rewrite Ho, Hl, He.
Qed.

Lemma length_text t : Forall dom t -> (length t <= length (t ≫= enc))%nat.
Proof using Hdom.
  induction 1 as [|cp t Hcp _ IH]; [done|]. cbn [mbind list_bind length]. rewrite length_app. destruct (Hdom cp Hcp).
  destruct (enc cp); [done|]. cbn [length]. lia.
Qed.

End chunks.

(** ** The string2key rules *)

Lemma surrogate_tests u0 u1 : 0 <= u0 < 256 -> 0 <= u1 < 256 ->
  (Z.land (u0 + 256 * u1) 0xfc00 =? 0xd800) = ((0xD8 <=? u1) && (u1 <? 0xDC)) /\
  (Z.land (u0 + 256 * u1) 0xfc00 =? 0xdc00) = ((0xDC <=? u1) && (u1 <? 0xE0)).
Proof.
  intros H0 H1. pose proof (forall_below2 256 256 (fun u0 u1 =>
    Bool.eqb (Z.land (u0 + 256 * u1) 0xfc00 =? 0xd800) ((0xD8 <=? u1) && (u1 <? 0xDC)) &&
    Bool.eqb (Z.land (u0 + 256 * u1) 0xfc00 =? 0xdc00) ((0xDC <=? u1) && (u1 <? 0xE0)))
    ltac:(vm_compute; reflexivity) u0 u1 H0 H1) as H.
  cbv beta in H. rewrite andb_true_iff, !Bool.eqb_true_iff in H. done.
Qed.

Lemma unit_bytes16 cp : 0 <= cp < 0x10000 -> [Z.land cp 0xFF; Z.land (Z.shiftr cp 8) 0xFF] = unit16 cp.
Proof.
  intros H. rewrite !land_255, Z.shiftr_div_pow2 by lia. unfold unit16. change (2 ^ 8) with 256.
  rewrite (Z.mod_small (cp / 256)); [done|]. Z.to_euclidean_division_equations; lia.
Qed.

(** The first one or two units of the input and what becomes of them. *)
Lemma munged_step u0 u1 rest left :
  is_byte u0 -> is_byte u1 -> Forall is_byte rest -> 2 + Z.of_nat (length rest) <= left ->
  exists k cp, (k <= length rest)%nat /\ (k = 0 \/ k = 2)%nat /\ scalar cp /\ cp <> 0 /\ length (utf16_char cp) = S (S k) /\
    utf16_munged_pull (u0 :: u1 :: rest) left =
      emit (utf16_char cp) (utf16_munged_pull (drop k rest) (left - Z.of_nat (S (S k)))).
Proof.
  intros H0 H1 Hr Hl. unfold is_byte in H0, H1. cbn [utf16_munged_pull]. rewrite (proj2 (Z.ltb_ge left 2)) by lia. rewrite lor_bytes by done.
  assert (Hunit : forall cp, 0 <= cp < 0x10000 -> scalar cp -> cp <> 0 ->
    exists k cp', (k <= length rest)%nat /\ (k = 0 \/ k = 2)%nat /\ scalar cp' /\ cp' <> 0 /\ length (utf16_char cp') = S (S k) /\
      emit [Z.land cp 0xFF; Z.land (Z.shiftr cp 8) 0xFF] (utf16_munged_pull rest (left - 2)) =
      emit (utf16_char cp') (utf16_munged_pull (drop k rest) (left - Z.of_nat (S (S k))))).
  { intros cp Hcp Hs Hz. exists 0%nat, cp. rewrite unit_bytes16, utf16_char_bmp by done. split_and!; try done; [lia | by left]. }
  set (v := u0 + 256 * u1). set (w := if v =? 0 then 1 else v).
  assert (Hw : (w = v \/ w = 1) /\ w <> 0 /\ 0 <= w < 0x10000) by (unfold w, v; destruct (Z.eqb_spec (u0 + 256 * u1) 0); lia).
  destruct (surrogate_tests u0 u1 H0 H1) as [Eh El]. fold v in Eh, El.
  assert (Hfffd : scalar 0xfffd) by (unfold scalar; lia).
  destruct (Z.land w 0xfc00 =? 0xd800) eqn:E1.
  - destruct Hw as ([Ew|Ew] & _); [rewrite Ew, Eh in E1|by rewrite Ew in E1]. symmetry in Eh. rewrite E1 in Eh. boolify.
    destruct rest as [|u2 [|u3 r4]]; [by apply Hunit..|]. apply Forall_cons in Hr as [Hb2 [Hb3 Hr]%Forall_cons]. unfold is_byte in Hb2, Hb3.
    rewrite lor_bytes by done. destruct (surrogate_tests u2 u3 Hb2 Hb3) as [_ ->].
    destruct ((0xDC <=? u3) && (u3 <? 0xE0)) eqn:E2; cbn [negb]; [|by apply Hunit]. boolify.
    cbn [length] in Hl. rewrite (proj2 (Z.ltb_ge left 4)) by lia. destruct (utf16_char_pair u0 u1 u2 u3) as (cp & Hs & Hge & Hc); [lia..|].
    exists 2%nat, cp. rewrite Hc. split_and!; try done; [cbn; lia | by right | lia].
  - destruct (Z.land w 0xfc00 =? 0xdc00) eqn:E2; [by apply Hunit|]. apply Hunit; [lia | | lia].
    destruct Hw as ([Ew|Ew] & _); [|rewrite Ew; unfold scalar; lia]. rewrite Ew, Eh in E1. rewrite Ew, El in E2.
    unfold scalar. unfold v in *. lia.
Qed.

Lemma munged_text u left :
  Forall is_byte u -> Nat.Even (length u) -> Z.of_nat (length u) <= left ->
  exists t, Forall (fun cp => scalar cp /\ cp <> 0) t /\ length (utf16 t) = length u /\
    utf16_munged_pull u left = Conv (utf16 t) [] (left - Z.of_nat (length u)) None.
Proof.
  remember (length u) as n eqn:Hn. revert u left Hn. induction (lt_wf n) as [n _ IH]. intros u left -> Hb Hev Hl.
  destruct u as [|u0 [|u1 r]].
  { exists []. split_and!; [constructor | done |]. cbn. unfold push_end, stop. f_equal. lia. }
  { destruct Hev as [k Hk]. cbn in Hk. lia. }
  apply Forall_cons in Hb as [H0 [H1 Hr]%Forall_cons]. cbn [length] in *.
  destruct (munged_step u0 u1 r left) as (k & cp & Hk & Hk02 & Hs & Hz & Hlen & ->); [done..| lia |].
  destruct (IH (length (drop k r))) with (u := drop k r) (left := left - Z.of_nat (S (S k))) as (t & Ht & Hlt & ->).
  - rewrite length_drop. lia.
  - done.
  - by apply Forall_drop.
  - rewrite length_drop. destruct Hev as [m Hm]. destruct Hk02 as [-> | ->]; [exists (m - 1)%nat|exists (m - 2)%nat]; lia.
  - rewrite length_drop. lia.
  - exists (cp :: t). split_and!; [by constructor | |].
    + cbn [utf16 mbind list_bind]. rewrite length_app. fold (utf16 t). rewrite Hlt, Hlen, length_drop. lia.
    + unfold emit. cbn [cv_out cv_in cv_left cv_err]. f_equal. rewrite length_drop. lia.
Qed.

(** A text without 0 is left alone. *)
#[export] Instance munged_charwise : Charwise utf16_munged_pull utf16_char utf16_char (fun cp => scalar cp /\ cp <> 0).
Proof.
  split; [done|]. intros cp [Hs Hz] rest left. unfold utf16_char, scalar in *. destruct (Z.ltb_spec cp 0x10000) as [Hc|Hc].
  - unfold unit16. set (u0 := cp mod 256). set (u1 := cp / 256).
    assert (0 <= u0 < 256) as H0 by (apply Z.mod_pos_bound; lia).
    assert (0 <= u1 < 0xD8 \/ 0xE0 <= u1 < 256) as H1 by (unfold u1; Z.to_euclidean_division_equations; lia).
    assert (u0 + 256 * u1 = cp) as E by (apply unit16_value; lia).
    cbn [app utf16_munged_pull length]. change (Z.of_nat 2) with 2. rewrite lor_bytes by done.
    rewrite E, (proj2 (Z.eqb_neq cp 0)), (unit_bytes16 cp) by (done || lia).
    destruct (surrogate_tests u0 u1 H0) as [Eh El]; [lia|]. rewrite E in Eh, El. rewrite Eh, El.
    replace ((0xD8 <=? u1) && (u1 <? 0xDC)) with false by lia. replace ((0xDC <=? u1) && (u1 <? 0xE0)) with false by lia. done.
  - unfold unit16. set (h := 0xD800 + (cp - 0x10000) / 1024). set (l := 0xDC00 + (cp - 0x10000) mod 1024).
    assert (0xD800 <= h < 0xDC00 /\ 0xDC00 <= l < 0xE000) as [Hh Hl] by (unfold h, l; Z.to_euclidean_division_equations; lia).
    cbn [app utf16_munged_pull length]. change (Z.of_nat 4) with 4.
    pose proof (Z.mod_pos_bound h 256 ltac:(lia)) as Hh0. pose proof (Z.mod_pos_bound l 256 ltac:(lia)) as Hl0.
    assert (0xD8 <= h / 256 < 0xDC /\ 0xDC <= l / 256 < 0xE0) as [Hh1 Hl1] by (Z.to_euclidean_division_equations; lia).
    rewrite !lor_bytes by done. rewrite (proj2 (Z.eqb_neq (h mod 256 + 256 * (h / 256)) 0)) by lia.
    destruct (surrogate_tests (h mod 256) (h / 256) Hh0) as [-> _]; [lia|]. destruct (surrogate_tests (l mod 256) (l / 256) Hl0) as [_ ->]; [lia|].
    replace ((0xD8 <=? h / 256) && (h / 256 <? 0xDC)) with true by lia. replace ((0xDC <=? l / 256) && (l / 256 <? 0xE0)) with true by lia.
    cbn [negb]. destruct (Z.ltb_spec left 2); [|done]. by rewrite (proj2 (Z.ltb_lt left 4)) by lia.
Qed.

(** ** Claims *)

(** The descriptors of the tests below, without native conversions. *)
Definition no_iconv (to from : string) : option conv_fn := None.
Definition cd_demo (to from : string) : smb_iconv_t := default (Smb_iconv None None None) (smb_iconv_open no_iconv to from).

Lemma charwise_whole f src dst dom `{!Charwise f src dst dom} t left : Forall dom t -> Z.of_nat (length (t ≫= dst)) <= left ->
  f (t ≫= src) left = Conv (t ≫= dst) [] (left - Z.of_nat (length (t ≫= dst))) None.
Proof.
  intros Ht Hl. rewrite <- (app_nil_r (t ≫= src)), (charwise_text (f := f) t [] left) by done. by rewrite cw_nil, emit_stop.
Qed.

(** C27. Converting UTF-16LE to UTF-8 succeeds exactly on the encoding of a text whose
    UTF-8 form fits the buffer; it writes that form, and converting back gives the
    original bytes. *)
Theorem utf16_utf8_roundtrip native u n :
  Forall is_byte u -> 0 <= n ->
  exists to8 to16 r, smb_iconv_open native "UTF-8" "UTF-16LE" = Some to8 /\
    smb_iconv_open native "UTF-16LE" "UTF-8" = Some to16 /\ smb_iconv to8 u n = Some r /\
    (cv_err r = None <-> exists t, Forall scalar t /\ u = utf16 t /\ Z.of_nat (length (utf8 t)) <= n) /\
    (forall t, cv_err r = None -> Forall scalar t -> u = utf16 t -> cv_out r = utf8 t /\ cv_in r = []) /\
    (forall m, cv_err r = None -> Z.of_nat (length u) <= m ->
       smb_iconv to16 (cv_out r) m = Some (Conv u [] (m - Z.of_nat (length u)) None)).
Proof.
  intros Hb Hn. exists (Smb_iconv (Some utf8_push) None None), (Smb_iconv (Some utf8_pull) None None), (utf8_push u n).
  split; [reflexivity|]. split; [reflexivity|]. split; [reflexivity|].
  assert (Hok : forall t, cv_err (utf8_push u n) = None -> Forall scalar t -> u = utf16 t ->
    cv_out (utf8_push u n) = utf8 t /\ cv_in (utf8_push u n) = [] /\ Z.of_nat (length (utf8 t)) <= n).
  { intros t He Ht ->. destruct (charwise_stops (f := utf8_push) t n Ht) as (t1 & t2 & -> & Hl & Hr & _).
    fold (utf16 (t1 ++ t2)) in Hr. rewrite Hr in *. cbn in He. destruct t2; [|done]. rewrite app_nil_r. cbn. fold (utf8 t1) in *. split_and!; [done | done | lia]. }
  split_and!.
  - split; [|intros (t & Ht & -> & Hl); unfold utf16; by rewrite (charwise_whole utf8_push utf16_char utf8_char scalar t n)].
    intros He. destruct (utf8_push_accepts u n Hb He) as (t & Ht & E). exists t. split_and!; [done | done |]. by apply (Hok t He Ht E).
  - intros t He Ht E. by destruct (Hok t He Ht E) as (? & ? & _).
  - intros m He Hm. destruct (utf8_push_accepts u n Hb He) as (t & Ht & E). destruct (Hok t He Ht E) as (-> & _). subst u.
    cbn. f_equal. by apply (charwise_whole utf8_pull utf8_char utf16_char scalar).
Qed.

Definition text_demo : list Z := [0x48; 0xE9; 0x20AC; 0x1F600].

Lemma utf16_utf8_roundtrip_witness :
  exists r, smb_iconv (cd_demo "UTF-8" "UTF-16LE") (utf16 text_demo) 20 = Some r /\ length (cv_out r) = 10%nat /\
    smb_iconv (cd_demo "UTF-16LE" "UTF-8") (cv_out r) 10 = Some (Conv (utf16 text_demo) [] 0 None).
Proof.
  destruct (utf16_utf8_roundtrip no_iconv (utf16 text_demo) 20) as (to8 & to16 & r & H8 & H16 & Hr & Hiff & Hout & Hback).
  - apply (Forall_by_forallb _ (fun b => (0 <=? b) && (b <? 256))); [|vm_compute; reflexivity].
    intros b Hb. unfold is_byte. boolify. lia.
  - lia.
  - exists r. assert (Ht : Forall scalar text_demo) by (unfold scalar; repeat constructor; lia).
    assert (He : cv_err r = None) by (apply Hiff; exists text_demo; split; [exact Ht | split; [reflexivity | vm_compute; discriminate]]).
    unfold cd_demo. rewrite H8, H16. cbn [default]. split; [exact Hr|]. split.
    + destruct (Hout text_demo He Ht eq_refl) as [-> _]. vm_compute. reflexivity.
    + apply (Hback 10 He). vm_compute. discriminate.
Defined.

(** Going through the 2048 byte buffer makes no difference: between the character
    sets that convert character by character, [smb_iconv] finishes and writes what the
    second conversion writes for the UTF-16 form of the whole text, with the same error
    and the same room left. *)
Theorem smb_iconv_chunks pull push enc dom t n :
  Charwise pull enc utf16_char dom -> Pusher push -> (forall cp, dom cp -> scalar cp /\ enc cp <> []) -> Forall dom t ->
  exists r, smb_iconv (Smb_iconv None (Some pull) (Some push)) (t ≫= enc) n = Some r /\
    same_result r (push (utf16 t) n).
Proof.
  intros Hpull Hpush Hdom Ht. cbn [smb_iconv]. apply (iconv_loop_text pull push enc dom); [done | done |]. by apply (length_text enc dom).
Qed.

(** A text of 1200 characters, some of four bytes, from UTF-8 to Latin-1 and to UTF-8. *)
Lemma smb_iconv_chunks_witness :
  let t := repeat 0x41 1022 ++ [0x1F600] ++ repeat 0xE9 177 in
  (exists r, smb_iconv (cd_demo "UTF8" "utf-8") (utf8 t) 3000 = Some r /\ cv_err r = None /\ cv_out r = utf8 t) /\
  (exists r, smb_iconv (cd_demo "ISO-8859-1" "UTF-8") (utf8 t) 3000 = Some r /\ cv_err r = Some EILSEQ /\
     cv_out r = repeat 0x41 1022).
Proof.
  intros t. assert (Ht : Forall scalar t).
  { apply (Forall_by_forallb _ (fun cp => (0 <=? cp) && (cp <? 0xD800) || ((0xE000 <=? cp) && (cp <? 0x110000)))); [|vm_compute; reflexivity].
    intros cp Hcp. unfold scalar. lia. }
  assert (Hd : forall cp, scalar cp -> scalar cp /\ utf8_char cp <> []).
  { intros cp Hcp. split; [exact Hcp|]. unfold utf8_char. repeat case_match; discriminate. }
  split.
  - destruct (smb_iconv_chunks utf8_pull utf8_push utf8_char scalar t 3000 _ _ Hd Ht) as (r & Hr & Ho & _ & He).
    exists r. split; [exact Hr|]. rewrite He, Ho. split; vm_compute; reflexivity.
  - destruct (smb_iconv_chunks utf8_pull latin1_push utf8_char scalar t 3000 _ _ Hd Ht) as (r & Hr & Ho & _ & He).
    exists r. split; [exact Hr|]. rewrite He, Ho. split; vm_compute; reflexivity.
Defined.

(** Under the string2key rules every byte string of even length becomes the UTF-16
    form of a text without the character 0, of the same length, which all conversions
    accept; a text that was well formed and without 0 is not changed. *)
Theorem munged_utf16_valid u n :
  Forall is_byte u -> Nat.Even (length u) -> Z.of_nat (length u) <= n ->
  exists t, Forall (fun cp => scalar cp /\ cp <> 0) t /\
    utf16_munged_pull u n = Conv (utf16 t) [] (n - Z.of_nat (length u)) None /\ length (utf16 t) = length u /\
    cv_err (utf8_push (utf16 t) (Z.of_nat (length (utf8 t)))) = None /\
    (forall t', Forall (fun cp => scalar cp /\ cp <> 0) t' -> u = utf16 t' -> utf16 t = u).
Proof.
  intros Hb Hev Hl. destruct (munged_text u n Hb Hev Hl) as (t & Ht & Hlen & Hr). exists t. split_and!; [done.. | |].
  - unfold utf16. rewrite (charwise_whole utf8_push utf16_char utf8_char scalar); [done | | done].
    eapply Forall_impl; [exact Ht|]. by intros cp [? _].
  - intros t' Ht' ->. unfold utf16 in Hr at 1.
    rewrite (charwise_whole utf16_munged_pull utf16_char utf16_char (fun cp => scalar cp /\ cp <> 0)) in Hr by done.
    injection Hr as <-. done.
Qed.

Definition munged_demo : list Z := [0; 0; 0x3D; 0xD8; 0x41; 0; 0x3D; 0xD8; 0; 0xDE; 0; 0xDC].

Lemma munged_utf16_valid_witness :
  (exists t, utf16_munged_pull munged_demo 12 = Conv (utf16 t) [] 0 None /\ Forall (fun cp => scalar cp /\ cp <> 0) t) /\
  cv_out (utf16_munged_pull munged_demo 12) = utf16 [1; 0xFFFD; 0x41; 0x1F600; 0xFFFD].
Proof.
  split; [|vm_compute; reflexivity]. destruct (munged_utf16_valid munged_demo 12) as (t & Ht & Hr & _).
  - unfold munged_demo, is_byte. repeat constructor; lia.
  - by exists 6%nat.
  - vm_compute. discriminate.
  - exists t. split; [exact Hr | exact Ht].
Defined.

(** ** Deviations *)

(** A surrogate pair at the end of the buffer is cut in two when the source is
    UTF-16BE, and a well formed text is refused. *)
Lemma pair_cut_by_buffer :
  let t := repeat 0x41 1023 ++ [0x1F600] in
  let be := cv_out (iconv_swab (utf16 t) 5000) in
  cv_err (utf8_push (utf16 t) 5000) = None /\
  (cv_err <$> smb_iconv (cd_demo "UTF-8" "UTF-16BE") be 5000) = Some (Some EINVAL).
Proof. vm_compute. done. Qed.

(** Code points above 0x10FFFF become broken UTF-16, which cannot be converted back. *)
Lemma pull_beyond_unicode :
  cv_out (utf8_pull [0xF7; 0xBF; 0xBF; 0xBF] 10) = [0xBF; 0xDF; 0xFF; 0xDF] /\
  cv_err (utf8_pull [0xF7; 0xBF; 0xBF; 0xBF] 10) = None /\ cv_err (utf8_push [0xBF; 0xDF; 0xFF; 0xDF] 10) = Some EILSEQ.
Proof. vm_compute. done. Qed.

(** Overlong forms of two and three bytes are accepted, among them that of 0 and of the
    slash. *)
Lemma pull_overlong : cv_out (utf8_pull [0xC0; 0x80; 0xC0; 0xAF; 0xE0; 0x80; 0xAF] 20) = utf16 [0; 0x2F; 0x2F].
Proof. vm_compute. done. Qed.
