(* ===== verification/ConvString.v ===== *)
(** * String conversion

    lib/util/charset/convert_string.c and the handle and character functions of
    lib/util/charset/codepoints.c: the descriptors for the character sets of the
    configuration, the fast path for ASCII in front of [smb_iconv], and reading and
    writing single characters. *)

From S2P Require Import Prelude.
From S2P Require Import Errmap.
From S2P Require Import CString.
From S2P Require Import Iconv.
From stdpp Require Import prelude list strings.

#[local] Open Scope Z_scope.

(** ** Handles *)

Inductive charset := CH_UTF16LE | CH_UNIX | CH_DOS | CH_UTF8 | CH_UTF16BE | CH_UTF16MUNGED.

#[export] Instance charset_eq_dec : EqDecision charset.
Proof. solve_decision. Defined.

Record smb_iconv_handle := Iconv_handle {
  unix_charset : string;
  dos_charset : string;
  use_builtin_handlers : bool;
  conv_handles : list (charset * charset * option smb_iconv_t);
}.

Definition charset_name (ic : smb_iconv_handle) (ch : charset) : string :=
  match ch with
  | CH_UTF16LE => "UTF-16LE"
  | CH_UNIX => unix_charset ic
  | CH_DOS => dos_charset ic
  | CH_UTF8 => "UTF8"
  | CH_UTF16BE => "UTF-16BE"
  | CH_UTF16MUNGED => "UTF16_MUNGED"
  end.

Definition smb_iconv_handle_reinit (dos unix : string) (builtin : bool) : smb_iconv_handle :=
  let dos := if strcasecmp_eq dos "UTF8" || strcasecmp_eq dos "UTF-8" then "CP850"%string else dos in
  Iconv_handle unix dos builtin [].

Fixpoint find_handle (from to : charset) (l : list (charset * charset * option smb_iconv_t))
    : option (option smb_iconv_t) :=
  match l with
  | [] => None
  | (f, t, h) :: l => if bool_decide (f = from) && bool_decide (t = to) then Some h else find_handle from to l
  end.

(** The descriptor, [None] for -1, and the handle with its changes. *)
Definition get_conv_handle (iconv_open : string -> string -> option conv_fn) (ic : smb_iconv_handle)
    (from to : charset) : option smb_iconv_t * smb_iconv_handle :=
  match find_handle from to (conv_handles ic) with
  | Some h => (h, ic)
  | None =>
      let open ic := smb_iconv_open_ex iconv_open (charset_name ic to) (charset_name ic from) (use_builtin_handlers ic) in
      let '(h, ic) :=
        match open ic with
        | Some h => (Some h, ic)
        | None =>
            if (bool_decide (from = CH_DOS) || bool_decide (to = CH_DOS)) &&
               negb (strcasecmp_eq (charset_name ic CH_DOS) "ASCII") then
              let ic := Iconv_handle (unix_charset ic) "ASCII" (use_builtin_handlers ic) (conv_handles ic) in
              (open ic, ic)
            else (None, ic)
        end in
      (h, Iconv_handle (unix_charset ic) (dos_charset ic) (use_builtin_handlers ic) ((from, to, h) :: conv_handles ic))
  end.

(** ** Conversion of strings

    A source is a list of bytes; with [nul] (a length of -1) it is memory in which
    the string ends with its terminator. The results are as for [smb_iconv]: the
    return value is true without error, the converted size is the length of the
    output. [None]: a read behind the memory, or no progress. *)

Definition wide (ch : charset) : bool := bool_decide (ch = CH_UTF16LE) || bool_decide (ch = CH_UTF16BE).

(** The string with its terminator. *)
Fixpoint upto_nul (src : list Z) : option (list Z) :=
  match src with
  | [] => None
  | c :: rest => if c =? 0 then Some [c] else cons c <$> upto_nul rest
  end.

(** [strlen_w]: the terminator is a unit of two bytes. *)
Fixpoint upto_nul_w (src : list Z) : option (list Z) :=
  match src with
  | a :: b :: rest => if (a =? 0) && (b =? 0) then Some [a; b] else app [a; b] <$> upto_nul_w rest
  | _ => None
  end.

Section convert.
Context (iconv_open : string -> string -> option conv_fn).

Definition convert_string_internal (ic : smb_iconv_handle) (from to : charset) (nul : bool) (src : list Z)
    (destlen : Z) : option (conv * smb_iconv_handle) :=
  let '(descriptor, ic) := get_conv_handle iconv_open ic from to in
  src ← (if nul then if wide from then upto_nul_w src else upto_nul src else Some src);
  match descriptor with
  | None => Some (stop src destlen (Some EINVAL), ic)
  | Some cd => r ← smb_iconv cd src destlen; Some (r, ic)
  end.

Section fast.
Context (ic : smb_iconv_handle) (from to : charset) (nul : bool).

(** The bytes written in front of what follows. *)
Definition wrote (l : list Z) (r : option (conv * smb_iconv_handle)) : option (conv * smb_iconv_handle) :=
  (fun '(c, ic) => (emit l c, ic)) <$> r.

(** What the fast paths return when their loop has ended. *)
Definition fast_end (src : list Z) (dlen lastp : Z) : option (conv * smb_iconv_handle) :=
  Some (stop src dlen (if (dlen =? 0) && (if nul then negb (lastp =? 0) else negb (length src =? 0)%nat)
                       then Some E2BIG else None), ic).

(** Between 8-bit character sets. *)
Fixpoint fast_8_8 (src : list Z) (dlen lastp : Z) : option (conv * smb_iconv_handle) :=
  match src with
  | [] => if nul && negb (dlen =? 0) then None else fast_end src dlen lastp
  | c :: rest =>
      if dlen =? 0 then fast_end src dlen lastp
      else if c <=? 0x7f then
        wrote [c] (if c =? 0 then fast_end rest (dlen - 1) c else fast_8_8 rest (dlen - 1) c)
      else convert_string_internal ic from to nul src dlen
  end.

(** From UTF-16LE, with the length given. *)
Fixpoint fast_16_8 (src : list Z) (dlen : Z) : option (conv * smb_iconv_handle) :=
  match src with
  | c :: d :: rest =>
      if negb (dlen =? 0) && (c <=? 0x7f) && (d =? 0) then wrote [c] (fast_16_8 rest (dlen - 1))
      else convert_string_internal ic from to nul src dlen
  | [] => fast_end [] dlen 0
  | _ => convert_string_internal ic from to nul src dlen
  end.

(** From UTF-16LE, up to the terminator. *)
Fixpoint fast_16_8_nul (src : list Z) (dlen lastp : Z) : option (conv * smb_iconv_handle) :=
  let ended (lastp : Z) :=
    if negb (lastp =? 0) then convert_string_internal ic from to nul src dlen else fast_end src dlen lastp in
  if dlen =? 0 then ended lastp
  else
    match src with
    | c :: d :: rest =>
        if (c <=? 0x7f) && (d =? 0) then
          wrote [c] (if c =? 0 then fast_end rest (dlen - 1) c else fast_16_8_nul rest (dlen - 1) c)
        else ended c
    | _ => None
    end.

(** To UTF-16LE. *)
Fixpoint fast_8_16 (src : list Z) (dlen lastp : Z) : option (conv * smb_iconv_handle) :=
  match src with
  | [] => if nul && negb (dlen =? 0) then None else fast_end src dlen lastp
  | c :: rest =>
      if dlen =? 0 then fast_end src dlen lastp
      else if (2 <=? dlen) && (c <=? 0x7f) then
        wrote [c; 0] (if c =? 0 then fast_end rest (dlen - 2) c else fast_8_16 rest (dlen - 2) c)
      else convert_string_internal ic from to nul src dlen
  end.

Definition convert_string_error_handle (src : list Z) (destlen : Z) : option (conv * smb_iconv_handle) :=
  if negb nul && (length src =? 0)%nat then Some (stop [] destlen None, ic)
  else if negb (wide from) && negb (wide to) then fast_8_8 src destlen 0
  else if bool_decide (from = CH_UTF16LE) && negb (bool_decide (to = CH_UTF16LE)) then
    if nul then fast_16_8_nul src destlen 0 else fast_16_8 src destlen
  else if negb (wide from) && bool_decide (to = CH_UTF16LE) then fast_8_16 src destlen 0
  else convert_string_internal ic from to nul src destlen.
End fast.

(** ** Conversion into a new buffer *)

Definition EOPNOTSUPP : Z := 95.

(** The result of [convert_string_talloc_handle]: the string in its buffer, with the
    two zero bytes behind it, and the size it reports, or errno. [alloc n] tells
    whether [n] bytes can be had. *)
Inductive talloc_result := Converted (buf : list Z) (converted_size : Z) | Convert_failed (err : Z).

(** The size of an empty string. *)
Definition empty_size (to : charset) : Z := if wide to || bool_decide (to = CH_UTF16MUNGED) then 2 else 1.

(** The turns after the label convert. The input pointer is not reset for a further
    turn, while the length is: what is read then begins at [inb], the rest of the
    source with the memory after it. [None]: the memory that is passed to [smb_iconv]
    reaches behind [inb], or a write to a null pointer. *)
Fixpoint talloc_turns (alloc : Z -> bool) (cd : smb_iconv_t) (to : charset) (srclen : nat) (fuel : nat)
    (inb : list Z) (destlen : Z) : option talloc_result :=
  match fuel with
  | O => None
  | S fuel =>
      if u64 (destlen * 2 + 2) <? destlen then Some (Convert_failed EOPNOTSUPP)
      else
        let destlen := u64 (destlen * 2) in
        if negb (alloc (u64 (destlen + 2))) then Some (Convert_failed ENOMEM)
        else if (length inb <? srclen)%nat then None
        else
          r ← smb_iconv cd (take srclen inb) destlen;
          match cv_err r with
          | Some e =>
              if e =? E2BIG then talloc_turns alloc cd to srclen fuel (cv_in r ++ drop srclen inb) destlen
              else Some (Convert_failed e)
          | None =>
              let destlen := u64 (destlen - cv_left r) in
              if negb (if 1024 <? cv_left r then alloc (destlen + 2) else true) then
                if destlen =? 0 then None else Some (Convert_failed ENOMEM)
              else Some (Converted (cv_out r ++ [0; 0]) (if destlen =? 0 then empty_size to else destlen))
          end
  end.

(** [src]: the bytes of the source, [None] for NULL or the length -1. Each of the
    [fuel] turns doubles the room. *)
Definition convert_string_talloc_handle (alloc : Z -> bool) (ic : smb_iconv_handle) (from to : charset)
    (src : option (list Z)) (fuel : nat) : option (talloc_result * smb_iconv_handle) :=
  match src with
  | None => Some (Convert_failed EINVAL, ic)
  | Some [] =>
      let destlen := empty_size to in
      Some (if alloc destlen then Converted (repeat 0 (Z.to_nat destlen)) destlen else Convert_failed ENOMEM, ic)
  | Some src =>
      let '(descriptor, ic) := get_conv_handle iconv_open ic from to in
      match descriptor with
      | None => Some (Convert_failed EOPNOTSUPP, ic)
      | Some cd =>
          r ← talloc_turns alloc cd to (length src) fuel src (u64 (Z.of_nat (length src) * 3) / 2);
          Some (r, ic)
      end
  end.

(** ** Single characters *)

Definition INVALID_CODEPOINT : Z := 0xFFFFFFFF.

(** The code point and the number of bytes; [str] is memory of at least one byte. *)
Definition next_codepoint_handle_ext (ic : smb_iconv_handle) (str : list Z) (len : nat) (src_charset : charset)
    : option (Z * Z * smb_iconv_handle) :=
  match str with
  | [] => None
  | c :: _ =>
      if (Z.land c 0x80 =? 0) && bool_decide (src_charset = CH_DOS \/ src_charset = CH_UNIX \/ src_charset = CH_UTF8)
      then Some (c, 1, ic)
      else
        let inb := take (Nat.min len 5) str in
        let '(descriptor, ic) := get_conv_handle iconv_open ic src_charset CH_UTF16LE in
        match descriptor with
        | None => Some (INVALID_CODEPOINT, 1, ic)
        | Some cd =>
            r1 ← smb_iconv cd inb 2;
            r ← (if cv_left r1 =? 2 then smb_iconv cd (cv_in r1) 4 else Some r1);
            if (cv_left r1 =? 2) && (cv_left r =? 4) then Some (INVALID_CODEPOINT, 1, ic)
            else
              let consumed := Z.of_nat (length inb) - Z.of_nat (length (cv_in r)) in
              Some (match cv_out r with
                    | [b0; b1] => le_value [b0; b1]
                    | [b0; b1; b2; b3] =>
                        0x10000 + Z.lor (Z.lor (Z.lor b2 (Z.shiftl (Z.land b3 0x3) 8)) (Z.shiftl b0 10))
                                        (Z.shiftl (Z.land b1 0x3) 18)
                    | _ => INVALID_CODEPOINT
                    end, consumed, ic)
        end
  end.

(** [strnlen (str, 5)] *)
Fixpoint strnlen (str : list Z) (max : nat) : nat :=
  match str, max with
  | c :: str, S max => if c =? 0 then 0%nat else S (strnlen str max)
  | _, _ => 0%nat
  end.

Definition next_codepoint_handle (ic : smb_iconv_handle) (str : list Z) : option (Z * Z * smb_iconv_handle) :=
  next_codepoint_handle_ext ic str (strnlen str 5) CH_UNIX.

Definition next_codepoint (ic : smb_iconv_handle) (str : list Z) : option (Z * Z * smb_iconv_handle) :=
  match str with
  | [] => None
  | c :: _ => if Z.land c 0x80 =? 0 then Some (c, 1, ic) else next_codepoint_handle ic str
  end.

(** The bytes that are written, [None] for -1. *)
Definition push_codepoint_handle (ic : smb_iconv_handle) (c : Z) : option (option (list Z) * smb_iconv_handle) :=
  if c <? 128 then Some (Some [c], ic)
  else
    let '(descriptor, ic) := get_conv_handle iconv_open ic CH_UTF16LE CH_UNIX in
    match descriptor with
    | None => Some (None, ic)
    | Some cd =>
        let inb :=
          if c <? 0x10000 then le_bytes 2 c
          else let c := c - 0x10000 in
               [Z.land (Z.shiftr c 10) 0xFF; u8 (Z.lor (Z.shiftr c 18) 0xd8); Z.land c 0xFF;
                Z.lor (Z.land (Z.shiftr c 8) 0x3) 0xdc] in
        r ← smb_iconv cd inb 5;
        Some (if (length (cv_in r) =? 0)%nat then Some (cv_out r) else None, ic)
    end.
End convert.
