(* ===== verification/ConvProps.v ===== *)
(** * String conversion: properties

    The fast path of [ConvString] against a reference conversion of texts, the
    conversion into a new buffer, and the round trip of single characters. *)

From S2P Require Import Prelude.
From S2P Require Import Errmap.
From S2P Require Import CString.
From S2P Require Import Iconv.
From S2P Require Import IconvProps.
From S2P Require Import ConvString.
From stdpp Require Import prelude list strings.

#[local] Open Scope Z_scope.

(** ** The reference *)

(** The characters that fit are written, in the form [dst]. *)
Fixpoint text_conv (dst : Z -> list Z) (t : list Z) (n : Z) : conv :=
  match t with
  | [] => stop [] n None
  | cp :: t => if n <? Z.of_nat (length (dst cp)) then stop [] n (Some E2BIG)
               else emit (dst cp) (text_conv dst t (n - Z.of_nat (length (dst cp))))
  end.

(** A descriptor that converts texts over [dom] from the form [src] to [dst]. *)
Class Converts (cd : smb_iconv_t) (src dst : Z -> list Z) (dom : Z -> Prop) : Prop :=
  converts : forall t n, Forall dom t -> exists r, smb_iconv cd (t ≫= src) n = Some r /\ same_result r (text_conv dst t n).

Lemma same_result_emit l r s : same_result r s -> same_result (emit l r) (emit l s).
Proof. intros (Ho & Hl & He). unfold same_result, emit. cbn. by rewrite Ho, Hl, He. Qed.

Lemma charwise_same f src dst dom `{!Charwise f src dst dom} t n :
  Forall dom t -> same_result (f (t ≫= src) n) (text_conv dst t n).
Proof.
  intros Ht. revert n. induction Ht as [|cp t Hcp _ IH]; intros n; cbn [mbind list_bind text_conv].
  - by rewrite cw_nil.
  - rewrite (cw_steps cp Hcp). destruct (n <? _); [done | apply same_result_emit, IH].
Qed.

Lemma charwise_weaken f src dst (dom dom' : Z -> Prop) :
  Charwise f src dst dom -> (forall cp, dom' cp -> dom cp) -> Charwise f src dst dom'.
Proof. intros Hf Hd. split; [apply Hf | intros cp Hcp; by apply Hf, Hd]. Qed.

(** Directly, or through the buffer. *)
Lemma converts_direct f src dst dom p q : Charwise f src dst dom -> Converts (Smb_iconv (Some f) p q) src dst dom.
Proof. intros Hf t n Ht. exists (f (t ≫= src) n). split; [done | by apply (charwise_same f src dst dom)]. Qed.

Lemma converts_buffer pull push src dst dom :
  Charwise pull src utf16_char dom -> Pusher push -> Charwise push utf16_char dst dom ->
  (forall cp, dom cp -> scalar cp /\ src cp <> []) ->
  Converts (Smb_iconv None (Some pull) (Some push)) src dst dom.
Proof.
  intros Hpull Hpush Hdst Hdom t n Ht.
  destruct (iconv_loop_text pull push src dom Hdom t n (length (t ≫= src))) as (r & Hr & Ho & Hl & He);
    [done | by apply (length_text src dom) |].
  exists r. split; [done|]. destruct (charwise_same push utf16_char dst dom t n Ht) as (Ho' & Hl' & He').
  unfold utf16 in *. unfold same_result. split_and!; congruence.
Qed.

(** ** The forms of characters *)

Definition ascii_superset (enc : Z -> list Z) (dom : Z -> Prop) : Prop :=
  forall cp, dom cp -> 0 <= cp /\ (cp < 0x80 -> enc cp = [cp]) /\
    (0x80 <= cp -> exists b l, enc cp = b :: l /\ 0x80 <= b /\ Forall (fun x => x <> 0) l).

(** What the fast paths take for granted. *)
Definition char_form (ch : charset) (enc : Z -> list Z) (dom : Z -> Prop) : Prop :=
  match ch with
  | CH_UTF16LE => forall cp, dom cp -> scalar cp /\ enc cp = utf16_char cp
  | CH_UTF16BE => False
  | _ => ascii_superset enc dom
  end.

Lemma utf16_char_ascii cp : 0 <= cp < 0x80 -> utf16_char cp = [cp; 0].
Proof. intros H. apply byte_unit. lia. Qed.

Lemma utf16_char_units cp : scalar cp ->
  exists c d l, utf16_char cp = c :: d :: l /\ (0x80 <= cp -> (c <=? 0x7f) && (d =? 0) = false) /\
    (cp <> 0 -> (c =? 0) && (d =? 0) = false) /\
    (l = [] \/ exists e f, l = [e; f] /\ (e =? 0) && (f =? 0) = false).
Proof.
  intros Hs. pose proof (Z.div_mod cp 256 ltac:(done)) as Hdm.
  assert (Hhigh : forall x, 0xD800 <= x -> (x / 256 =? 0) = false)
    by (intros x Hx; apply Z.eqb_neq; assert (1 <= x / 256) by (apply Z.div_le_lower_bound; lia); lia).
  destruct (Z.ltb_spec cp 0x10000) as [Hlt|Hge].
  - exists (cp mod 256), (cp / 256), []. rewrite utf16_char_bmp by (destruct Hs; lia). split_and!; [done | | | by left].
    + intros ?. destruct (Z.leb_spec (cp mod 256) 0x7f), (Z.eqb_spec (cp / 256) 0); try done. lia.
    + intros ?. destruct (Z.eqb_spec (cp mod 256) 0), (Z.eqb_spec (cp / 256) 0); try done. lia.
  - unfold utf16_char. rewrite (proj2 (Z.ltb_ge _ _)) by lia. unfold unit16. cbn [app].
    assert (0xD800 <= 0xD800 + (cp - 0x10000) / 1024) by (assert (0 <= (cp - 0x10000) / 1024) by (apply Z.div_pos; lia); lia).
    assert (0xDC00 <= 0xDC00 + (cp - 0x10000) mod 1024) by (pose proof (Z.mod_pos_bound (cp - 0x10000) 1024); lia).
    do 3 eexists. split; [done|].
    rewrite Hhigh, !andb_false_r by done. split_and!; [done | done |].
    right. do 2 eexists. split; [done|]. rewrite Hhigh by lia. by rewrite andb_false_r.
Qed.

(** ** Terminated strings *)

Lemma upto_nul_text src dom t junk : ascii_superset src dom -> dom 0 -> Forall dom t -> 0 ∉ t ->
  upto_nul (((t ++ [0]) ≫= src) ++ junk) = Some ((t ++ [0]) ≫= src).
Proof.
  intros Hf H0 Ht. induction Ht as [|cp t Hcp _ IH]; intros Hn; cbn [mbind list_bind app].
  { destruct (Hf 0 H0) as (_ & -> & _); [done | lia]. }
  apply not_elem_of_cons in Hn as [Hz Hn]. specialize (IH Hn). rewrite <- app_assoc.
  assert (Hl : forall l, Forall (fun x => x <> 0) l -> upto_nul (l ++ ((t ++ [0]) ≫= src) ++ junk) =
    Some (l ++ ((t ++ [0]) ≫= src))).
  { induction 1 as [|x l Hx _ IHl]; [done|]. cbn. by rewrite (proj2 (Z.eqb_neq x 0) Hx), IHl. }
  apply Hl. destruct (Hf cp Hcp) as (Hp & Ha & Hb). destruct (Z.lt_ge_cases cp 0x80) as [Hlt|Hge].
  - rewrite (Ha Hlt). repeat constructor. lia.
  - destruct (Hb Hge) as (b & l & -> & Hb' & Hl'). constructor; [lia | done].
Qed.

Lemma upto_nul_w_text t junk : Forall scalar t -> 0 ∉ t ->
  upto_nul_w (((t ++ [0]) ≫= utf16_char) ++ junk) = Some ((t ++ [0]) ≫= utf16_char).
Proof.
  intros Ht. induction Ht as [|cp t Hcp _ IH]; intros Hn; [reflexivity|]. cbn [mbind list_bind app].
  apply not_elem_of_cons in Hn as [Hz Hn]. specialize (IH Hn).
  destruct (utf16_char_units cp Hcp) as (c & d & l & -> & _ & Hcd & Hl). rewrite <- app_assoc. cbn [app upto_nul_w].
  rewrite Hcd by congruence. destruct Hl as [-> | (e & f & -> & Hef)]; cbn [app upto_nul_w].
  - by rewrite IH.
  - rewrite Hef. by rewrite IH.
Qed.

(** ** The fast path *)

Section fast_path.
Context {iconv_open : string -> string -> option conv_fn} {ic : smb_iconv_handle} {from to : charset} {nul : bool}.
Context {cd : smb_iconv_t} {src dst : Z -> list Z} {dom : Z -> Prop} {junk : list Z} {z : bool}.
Context (Hcd : fst (get_conv_handle iconv_open ic from to) = Some cd) (Hconv : Converts cd src dst dom).
Context (Hfrom : char_form from src dom) (Hto : char_form to dst dom) (H0 : dom 0).
(** The string ends with the terminator, or without. *)
Context (Hz : nul = true -> z = true).

(** The source in memory and its text. *)
Let text (t : list Z) : list Z := t ++ (if z then [0] else []).
Let memory (t : list Z) : list Z := (text t ≫= src) ++ (if nul then junk else []).

Definition converts_to (r : option (conv * smb_iconv_handle)) (s : conv) : Prop :=
  exists c ic', r = Some (c, ic') /\ same_result c s.

Lemma converts_to_wrote l r s : converts_to r s -> converts_to (wrote l r) (emit l s).
Proof. intros (c & ic' & -> & Hs). exists (emit l c), ic'. split; [done | by apply same_result_emit]. Qed.

Lemma text_dom t : Forall dom t -> Forall dom (text t).
Proof. intros Ht. unfold text. apply Forall_app. split; [done|]. destruct z; by repeat constructor. Qed.

Lemma wide_form : wide from = bool_decide (from = CH_UTF16LE).
Proof. by destruct from. Qed.

Lemma narrow_form ch enc : wide ch = false -> char_form ch enc dom -> ascii_superset enc dom.
Proof. by destruct ch. Qed.

Lemma le_form ch enc : wide ch = true -> char_form ch enc dom -> ch = CH_UTF16LE /\ forall cp, dom cp -> scalar cp /\ enc cp = utf16_char cp.
Proof. by destruct ch. Qed.

Lemma bind_utf16 t : wide from = true -> Forall dom t -> t ≫= src = t ≫= utf16_char /\ Forall scalar t.
Proof.
  intros Hw Ht. destruct (le_form from src Hw Hfrom) as [_ Hf].
  induction Ht as [|cp t Hcp _ [IH IH']]; [done|]. cbn. rewrite IH. destruct (Hf cp Hcp) as [Hs ->]. split; [done | by constructor].
Qed.

(** The slow path, wherever it begins. *)
Lemma internal_text t n : Forall dom t -> 0 ∉ t ->
  converts_to (convert_string_internal iconv_open ic from to nul (memory t) n) (text_conv dst (text t) n).
Proof.
  intros Ht Hn. unfold convert_string_internal. destruct (get_conv_handle iconv_open ic from to) as [h ic'] eqn:E.
  cbn in Hcd. subst h. destruct (Hconv (text t) n (text_dom t Ht)) as (r & Hr & Hs).
  assert (Hsrc : (if nul then if wide from then upto_nul_w (memory t) else upto_nul (memory t) else Some (memory t)) =
    Some (text t ≫= src)).
  { unfold memory. destruct nul; [|by rewrite app_nil_r]. unfold text in *. rewrite Hz in * by done.
    destruct (wide from) eqn:Hw; [|by apply (upto_nul_text src dom); [apply narrow_form with from|..]].
    destruct (bind_utf16 (t ++ [0]) Hw) as [-> Hsc]; [by apply Forall_app; repeat constructor|].
    apply Forall_app in Hsc as [Hsc _]. by apply upto_nul_w_text. }
  rewrite Hsrc. cbn. rewrite Hr. cbn. by exists r, ic'.
Qed.

Lemma memory_cons cp t : memory (cp :: t) = src cp ++ memory t.
Proof. unfold memory, text. cbn. by rewrite app_assoc. Qed.

Lemma memory_nil : memory [] = if z then src 0 ++ (if nul then junk else []) else [].
Proof. unfold memory, text. destruct z; cbn; [by rewrite app_nil_r|]. destruct nul; [by discriminate Hz | done]. Qed.

(** The end of a loop without room. *)
Lemma end_full t lastp : Forall dom (text t) -> text t <> [] -> (forall cp, dom cp -> dst cp <> []) -> memory t <> [] ->
  (nul = true -> lastp <> 0) -> converts_to (fast_end ic nul (memory t) 0 lastp) (text_conv dst (text t) 0).
Proof.
  intros Ht Hne Hd Hm Hl. eexists _, _. split; [done|].
  replace (text_conv dst (text t) 0) with (stop [] 0 (Some E2BIG)).
  - unfold same_result. cbn. split_and!; [done | done |]. destruct nul.
    + by rewrite (proj2 (Z.eqb_neq lastp 0)) by auto.
    + by destruct (memory t).
  - destruct Ht as [|cp l Hcp _]; [done|]. cbn. specialize (Hd cp Hcp). by destruct (dst cp).
Qed.

(** The end after the terminator. *)
Lemma end_nul n : converts_to (fast_end ic nul (if nul then junk else []) n 0) (stop [] n None).
Proof. eexists _, _. split; [done|]. unfold same_result. cbn. by destruct nul; rewrite andb_false_r. Qed.

Lemma superset_nonempty enc cp : ascii_superset enc dom -> dom cp -> exists b l, enc cp = b :: l.
Proof.
  intros Hf Hcp. destruct (Hf cp Hcp) as (_ & Ha & Hb). destruct (Z.lt_ge_cases cp 0x80) as [H|H].
  - rewrite (Ha H). eauto.
  - destruct (Hb H) as (b & l & -> & _). eauto.
Qed.

Lemma form_nonempty ch enc cp : char_form ch enc dom -> dom cp -> enc cp <> [].
Proof.
  intros Hf Hcp. destruct (wide ch) eqn:Hw.
  - destruct (le_form ch enc Hw Hf) as [_ Hle]. destruct (Hle cp Hcp) as [Hs ->].
    by destruct (utf16_char_units cp Hs) as (? & ? & ? & -> & _).
  - by destruct (superset_nonempty enc cp) as (? & ? & ->); [apply narrow_form with ch|..].
Qed.

Lemma memory_nonempty t : Forall dom (text t) -> text t <> [] -> memory t <> [].
Proof.
  intros Ht Hne. unfold memory. destruct Ht as [|cp l Hcp _]; [done|]. cbn.
  pose proof (form_nonempty from src cp Hfrom Hcp). by destruct (src cp).
Qed.

(** Without room, also where the loop ends. *)
Lemma no_room t lastp : Forall dom t -> text t <> [] -> (nul = true -> lastp <> 0) ->
  converts_to (fast_end ic nul (memory t) 0 lastp) (text_conv dst (text t) 0).
Proof.
  intros Ht Hne Hl. apply text_dom in Ht. apply end_full; [done | done | | by apply memory_nonempty | done].
  intros cp. by apply form_nonempty with to.
Qed.

(** A text that is all read. *)
Lemma text_nil t : text t = [] -> t = [] /\ z = false /\ nul = false.
Proof.
  unfold text. intros [-> Hz']%app_eq_nil. split; [done|]. destruct z; [done|]. split; [done|].
  destruct nul; [by discriminate Hz | done].
Qed.

Lemma end_text n lastp : z = false -> converts_to (fast_end ic nul (memory []) n lastp) (text_conv dst (text []) n).
Proof.
  intros Hz'. rewrite memory_nil. unfold text. rewrite Hz' in *. destruct nul; [by discriminate Hz|].
  eexists _, _. split; [done|]. unfold same_result. cbn. by rewrite andb_false_r.
Qed.

Lemma empty_text : (text [] = [0] /\ memory [] = src 0 ++ (if nul then junk else [])) \/
  (text [] = [] /\ memory [] = [] /\ nul = false /\ z = false).
Proof.
  rewrite memory_nil. unfold text. destruct z; [by left | right]. destruct nul; [by discriminate Hz | done].
Qed.

Lemma superset_ascii enc cp : ascii_superset enc dom -> dom cp -> cp < 0x80 -> enc cp = [cp].
Proof. intros Hf Hcp. apply Hf, Hcp. Qed.

(** The loops to and from 8-bit character sets begin alike. *)
Lemma fast_zero (loop : list Z -> Z -> Z -> option (conv * smb_iconv_handle)) t lastp :
  (forall m, loop m 0 lastp = fast_end ic nul m 0 lastp) -> Forall dom t -> (nul = true -> lastp <> 0) ->
  converts_to (loop (memory t) 0 lastp) (text_conv dst (text t) 0).
Proof.
  intros Hloop Ht Hl. rewrite Hloop. destruct (decide (text t = [])) as [He|Hne]; [|by apply no_room].
  destruct (text_nil t He) as (-> & Hz' & _). by apply end_text.
Qed.

(** One character that the fast paths take over. *)
Lemma text_conv_char cp l n : Z.of_nat (length (dst cp)) <= n ->
  text_conv dst (cp :: l) n = emit (dst cp) (text_conv dst l (n - Z.of_nat (length (dst cp)))).
Proof. intros H. cbn. by rewrite (proj2 (Z.ltb_ge _ _)) by lia. Qed.

Lemma superset_first cp : ascii_superset src dom -> dom cp -> cp <> 0 ->
  (0 < cp < 0x80 /\ src cp = [cp]) \/ (0x80 <= cp /\ exists b l, src cp = b :: l /\ (b <=? 0x7f) = false).
Proof.
  intros Hf Hcp Hne. destruct (Hf cp Hcp) as (Hp & Ha & Hb). destruct (Z.lt_ge_cases cp 0x80) as [H|H].
  - left. split; [lia | auto].
  - right. split; [done|]. destruct (Hb H) as (b & l & -> & Hlb & _). exists b, l. split; [done | lia].
Qed.

Lemma fast_8_8_text t n lastp : wide from = false -> wide to = false -> Forall dom t -> 0 ∉ t -> 0 <= n ->
  (nul = true -> n = 0 -> lastp <> 0) ->
  converts_to (fast_8_8 iconv_open ic from to nul (memory t) n lastp) (text_conv dst (text t) n).
Proof.
  intros Hwf Hwt Ht. pose proof (narrow_form from src Hwf Hfrom) as Hs. pose proof (narrow_form to dst Hwt Hto) as Hd.
  revert n lastp. induction Ht as [|cp t Hcp Ht IH]; intros n lastp Hn Hnn Hl.
  all: destruct (decide (n = 0)) as [->|Hnz];
    [apply (fast_zero (fast_8_8 iconv_open ic from to nul)); [intros []; cbn; by rewrite ?andb_false_r | by repeat constructor | auto]|].
  - destruct empty_text as [[-> ->] | (_ & Hm & Hnul & Hz')];
      [|pose proof (end_text n lastp Hz') as He; rewrite Hm in *; cbn [fast_8_8]; by rewrite Hnul at 1].
    pose proof (superset_ascii dst 0 Hd H0 eq_refl) as Hd0. rewrite (superset_ascii src 0 Hs H0) by done. cbn [app fast_8_8]. rewrite (proj2 (Z.eqb_neq n 0) Hnz). cbn [Z.leb Z.eqb Z.compare].
    rewrite text_conv_char, Hd0 by (rewrite Hd0; cbn; lia). apply converts_to_wrote. apply end_nul.
  - apply not_elem_of_cons in Hn as [Hne Hn]. rewrite memory_cons.
    destruct (superset_first cp Hs Hcp) as [[Hc ->] | (Hc & b & l & E & Hb)]; [congruence| |].
    + cbn [app fast_8_8]. rewrite (proj2 (Z.eqb_neq n 0) Hnz), (proj2 (Z.leb_le cp 0x7f)), (proj2 (Z.eqb_neq cp 0)) by lia.
      pose proof (superset_ascii dst cp Hd Hcp ltac:(lia)) as Hdc. change (text (cp :: t)) with (cp :: text t).
      rewrite text_conv_char, Hdc by (rewrite Hdc; cbn; lia). apply converts_to_wrote. apply IH; [done | cbn; lia | lia].
    + pose proof (internal_text (cp :: t) n ltac:(by constructor) ltac:(by apply not_elem_of_cons)) as Hi.
      rewrite memory_cons in Hi. rewrite E in *. cbn [app fast_8_8] in *. by rewrite (proj2 (Z.eqb_neq n 0) Hnz), Hb.
Qed.

Lemma le_ascii ch enc cp : wide ch = true -> char_form ch enc dom -> dom cp -> 0 <= cp < 0x80 -> enc cp = [cp; 0].
Proof. intros Hw Hf Hcp Hc. destruct (le_form ch enc Hw Hf) as [_ Hle]. destruct (Hle cp Hcp) as [_ ->]. by apply utf16_char_ascii. Qed.

Lemma fast_8_16_text t n lastp : wide from = false -> wide to = true -> Forall dom t -> 0 ∉ t -> 0 <= n ->
  (nul = true -> n = 0 -> lastp <> 0) ->
  converts_to (fast_8_16 iconv_open ic from to nul (memory t) n lastp) (text_conv dst (text t) n).
Proof.
  intros Hwf Hwt Ht. pose proof (narrow_form from src Hwf Hfrom) as Hs.
  revert n lastp. induction Ht as [|cp t Hcp Ht IH]; intros n lastp Hn Hnn Hl.
  all: destruct (decide (n = 0)) as [->|Hnz];
    [apply (fast_zero (fast_8_16 iconv_open ic from to nul)); [intros []; cbn; by rewrite ?andb_false_r | by repeat constructor | auto]|].
  - destruct empty_text as [[Ht Hm] | (_ & Hm & Hnul & Hz')];
      [|pose proof (end_text n lastp Hz') as He; rewrite Hm in *; cbn [fast_8_16]; by rewrite Hnul at 1].
    pose proof (internal_text [] n (Forall_nil_2 _) Hn) as Hi. rewrite Ht, Hm, (superset_ascii src 0 Hs H0) in * by done.
    cbn [app fast_8_16] in *. rewrite (proj2 (Z.eqb_neq n 0) Hnz). destruct (Z.leb_spec 2 n); [|done].
    pose proof (le_ascii to dst 0 Hwt Hto H0 ltac:(lia)) as Hd0.
    rewrite text_conv_char, Hd0 by (rewrite Hd0; cbn; lia). apply converts_to_wrote. apply end_nul.
  - pose proof (internal_text (cp :: t) n ltac:(by constructor) Hn) as Hi.
    apply not_elem_of_cons in Hn as [Hne Hn]. rewrite memory_cons in *.
    destruct (superset_first cp Hs Hcp) as [[Hc E] | (Hc & b & l & E & Hb)]; [congruence| |];
      rewrite E in *; cbn [app fast_8_16] in *; rewrite (proj2 (Z.eqb_neq n 0) Hnz); [|by rewrite Hb, andb_false_r].
    destruct (Z.leb_spec 2 n); [|done]. rewrite (proj2 (Z.leb_le cp 0x7f)), (proj2 (Z.eqb_neq cp 0)) by lia.
    pose proof (le_ascii to dst cp Hwt Hto Hcp ltac:(lia)) as Hdc. change (text (cp :: t)) with (cp :: text t).
    rewrite text_conv_char, Hdc by (rewrite Hdc; cbn; lia). apply converts_to_wrote. apply IH; [done | cbn; lia | lia].
Qed.

(** The first unit of a character. *)
Lemma le_first cp : wide from = true -> dom cp -> 0 <= cp ->
  (cp < 0x80 /\ src cp = [cp; 0]) \/ (0x80 <= cp /\ exists c d l, src cp = c :: d :: l /\ (c <=? 0x7f) && (d =? 0) = false).
Proof.
  intros Hw Hcp Hp. destruct (Z.lt_ge_cases cp 0x80) as [H|H]; [left; split; [done | by apply (le_ascii from src)]|].
  right. split; [done|]. destruct (le_form from src Hw Hfrom) as [_ Hle]. destruct (Hle cp Hcp) as [Hs ->].
  destruct (utf16_char_units cp Hs) as (c & d & l & E & Hc & _). eauto 10.
Qed.

Lemma fast_16_8_text t n : nul = false -> wide from = true -> wide to = false -> Forall dom t -> 0 ∉ t -> 0 <= n ->
  converts_to (fast_16_8 iconv_open ic from to nul (memory t) n) (text_conv dst (text t) n).
Proof.
  intros Hnul Hwf Hwt Ht. pose proof (narrow_form to dst Hwt Hto) as Hd.
  revert n. induction Ht as [|cp t Hcp Ht IH]; intros n Hn Hnn.
  - pose proof (internal_text [] n (Forall_nil_2 _) Hn) as Hi.
    destruct empty_text as [[Ht Hm] | (_ & Hm & _ & Hz')];
      [|pose proof (end_text n 0 Hz') as He; by rewrite Hm in *].
    pose proof (superset_ascii dst 0 Hd H0 eq_refl) as Hd0. rewrite Ht, Hm in *.
    rewrite (le_ascii from src 0 Hwf Hfrom H0) in * by lia. cbn [app fast_16_8] in *.
    destruct (Z.eqb_spec n 0); [done|]. cbn [negb andb Z.leb Z.eqb Z.compare].
    rewrite text_conv_char, Hd0 by (rewrite Hd0; cbn; lia). apply converts_to_wrote.
    pose proof (end_nul (n - 1)) as He. replace (if nul then junk else []) with (@nil Z) in He |- * by (by rewrite Hnul). exact He.
  - pose proof (internal_text (cp :: t) n ltac:(by constructor) Hn) as Hi.
    apply not_elem_of_cons in Hn as [Hne Hn]. rewrite memory_cons in *. destruct (Hd cp Hcp) as (Hp & _).
    destruct (le_first cp Hwf Hcp Hp) as [[Hc E] | (Hc & c & d & l & E & Hb)]; rewrite E in *; cbn [app fast_16_8] in *;
      [|by rewrite <- andb_assoc, Hb, andb_false_r].
    destruct (Z.eqb_spec n 0); [done|]. rewrite (proj2 (Z.leb_le cp 0x7f)) by lia. cbn [negb andb Z.eqb].
    pose proof (superset_ascii dst cp Hd Hcp Hc) as Hdc. change (text (cp :: t)) with (cp :: text t).
    rewrite text_conv_char, Hdc by (rewrite Hdc; cbn; lia). apply converts_to_wrote. apply IH; [done | cbn; lia].
Qed.

Lemma fast_16_8_nul_full m lastp : lastp <> 0 ->
  fast_16_8_nul iconv_open ic from to nul m 0 lastp = convert_string_internal iconv_open ic from to nul m 0.
Proof. intros H. destruct m; cbn; by destruct lastp. Qed.

(** Up to the terminator: a character whose first byte is 0 would end the loop. *)
Lemma fast_16_8_nul_text t n lastp : nul = true -> wide from = true -> wide to = false -> Forall dom t -> 0 ∉ t ->
  Forall (fun cp => head (src cp) <> Some 0) t -> 0 <= n -> (n = 0 -> lastp <> 0) ->
  converts_to (fast_16_8_nul iconv_open ic from to nul (memory t) n lastp) (text_conv dst (text t) n).
Proof.
  intros Hnul Hwf Hwt Ht. pose proof (narrow_form to dst Hwt Hto) as Hd.
  revert n lastp. induction Ht as [|cp t Hcp Ht IH]; intros n lastp Hn Hh Hnn Hl.
  1: pose proof (internal_text [] n (Forall_nil_2 _) Hn) as Hi.
  2: pose proof (internal_text (cp :: t) n ltac:(by constructor) Hn) as Hi.
  all: destruct (decide (n = 0)) as [->|Hnz];
    [by rewrite fast_16_8_nul_full by auto|].
  - destruct empty_text as [[Ht Hm] | (_ & _ & ? & _)]; [|congruence]. rewrite Ht, Hm.
    pose proof (superset_ascii dst 0 Hd H0 eq_refl) as Hd0. rewrite (le_ascii from src 0 Hwf Hfrom H0) by lia.
    cbn [app fast_16_8_nul]. rewrite (proj2 (Z.eqb_neq n 0) Hnz). cbn [andb Z.leb Z.eqb Z.compare].
    rewrite text_conv_char, Hd0 by (rewrite Hd0; cbn; lia). apply converts_to_wrote. apply end_nul.
  - apply not_elem_of_cons in Hn as [Hne Hn]. apply Forall_cons in Hh as [Hh1 Hh]. rewrite memory_cons in *.
    destruct (Hd cp Hcp) as (Hp & _).
    destruct (le_first cp Hwf Hcp Hp) as [[Hc E] | (Hc & c & d & l & E & Hb)]; rewrite E in *; cbn [app fast_16_8_nul] in *;
      rewrite (proj2 (Z.eqb_neq n 0) Hnz).
    + rewrite (proj2 (Z.leb_le cp 0x7f)), (proj2 (Z.eqb_neq cp 0)) by lia. cbn [andb Z.eqb].
      pose proof (superset_ascii dst cp Hd Hcp Hc) as Hdc. change (text (cp :: t)) with (cp :: text t).
      rewrite text_conv_char, Hdc by (rewrite Hdc; cbn; lia). apply converts_to_wrote. apply IH; [done | done | cbn; lia | lia].
    + rewrite Hb, (proj2 (Z.eqb_neq c 0)); [done|]. intros ->. by apply Hh1.
Qed.

(** All paths. The loop for terminated strings does not see that there is no room at
    all. *)
Lemma convert_string_text t n : Forall dom t -> 0 ∉ t -> 0 <= n ->
  (nul = true -> 0 < n /\ (wide from = true -> Forall (fun cp => head (src cp) <> Some 0) t)) ->
  converts_to (convert_string_error_handle iconv_open ic from to nul (memory t) n) (text_conv dst (text t) n).
Proof.
  intros Ht Hn Hnn Hnul. unfold convert_string_error_handle.
  destruct (negb nul && (length (memory t) =? 0)%nat) eqn:E.
  { apply andb_true_iff in E as [_ E]. apply Nat.eqb_eq, nil_length_inv in E.
    destruct (decide (text t = [])) as [He|He]; [rewrite He; by eexists _, _ | by apply memory_nonempty in He; [|apply text_dom]]. }
  destruct (wide from) eqn:Hwf, (wide to) eqn:Hwt; cbn [negb andb].
  - destruct (le_form from src Hwf Hfrom) as [Ef _], (le_form to dst Hwt Hto) as [Et _].
    rewrite (bool_decide_true _ Ef), (bool_decide_true _ Et). by apply internal_text.
  - destruct (le_form from src Hwf Hfrom) as [Ef _]. rewrite (bool_decide_true _ Ef), bool_decide_false by (intros E'; by rewrite E' in Hwt).
    cbn. destruct (Bool.bool_dec nul true) as [Hb|Hb%not_true_is_false].
    + rewrite Hb at 1. destruct (Hnul Hb) as [? Hh]. apply fast_16_8_nul_text; auto with lia.
    + rewrite Hb at 1. by apply fast_16_8_text.
  - destruct (le_form to dst Hwt Hto) as [Et _]. rewrite bool_decide_false by (intros E'; by rewrite E' in Hwf).
    rewrite (bool_decide_true _ Et). cbn. apply fast_8_16_text; try done. intros Hb ->. by destruct (Hnul Hb).
  - apply fast_8_8_text; try done. intros Hb ->. by destruct (Hnul Hb).
Qed.
End fast_path.

(** ** Claims *)

(** C26. The hand-tuned path for ASCII makes no difference for a text without null
    characters, given with its length, with or without a terminator, or as a
    terminated string in memory: [convert_string_error_handle] returns what the
    reference conversion of the text does (bytes, room left, error). Conditions:
    the character sets are UTF-16LE or extend ASCII by bytes ([char_form]; UTF-16BE
    is not among them), the descriptor of the handle converts texts, and a
    terminated string has some room and, from UTF-16, no character whose first
    byte is 0. *)
Theorem convert_string_fast_path native ic from to (nul z : bool) cd src dst (dom : Z -> Prop) junk t n :
  fst (get_conv_handle native ic from to) = Some cd -> Converts cd src dst dom ->
  char_form from src dom -> char_form to dst dom -> dom 0 -> (nul = true -> z = true) ->
  Forall dom t -> 0 ∉ t -> 0 <= n ->
  (nul = true -> 0 < n /\ (wide from = true -> Forall (fun cp => head (src cp) <> Some 0) t)) ->
  let text := t ++ (if z then [0] else []) in
  exists r ic', convert_string_error_handle native ic from to nul ((text ≫= src) ++ (if nul then junk else [])) n =
      Some (r, ic') /\ same_result r (text_conv dst text n).
Proof. intros Hcd Hconv Hf Ht H0 Hz Hdom Hn Hnn Hnul. by apply (convert_string_text Hcd Hconv Hf Ht H0 Hz). Qed.

Lemma utf8_superset : ascii_superset utf8_char scalar.
Proof.
  intros cp Hcp. unfold utf8_char. split; [destruct Hcp; lia|]. split; [intros H; by rewrite (proj2 (Z.ltb_lt _ _))|].
  intros H. rewrite (proj2 (Z.ltb_ge _ _)) by lia.
  assert (Hpos : forall x, 0x80 + x mod 64 <> 0) by (intros x; pose proof (Z.mod_pos_bound x 64); lia).
  assert (Hdiv : forall m, 0 < m -> 0 <= cp / m) by (intros m Hm; apply Z.div_pos; lia).
  destruct (cp <? 0x800); [|destruct (cp <? 0x10000)]; do 2 eexists; (split; [done|]);
    (split; [pose proof (Hdiv 64); pose proof (Hdiv 4096); pose proof (Hdiv 262144); lia | by repeat constructor]).
Qed.

Lemma utf16_le_form : char_form CH_UTF16LE utf16_char scalar.
Proof. done. Qed.

(** The handle of a server with the default settings. *)
Definition ic_demo : smb_iconv_handle := smb_iconv_handle_reinit "CP850" "UTF-8" true.

(** A terminated UNIX string to UTF-16, and back with a given length and less room. *)
Lemma convert_string_fast_path_witness :
  (exists r ic', convert_string_error_handle no_iconv ic_demo CH_UNIX CH_UTF16LE true (utf8 (text_demo ++ [0]) ++ [7; 7]) 30 =
     Some (r, ic') /\ cv_out r = utf16 (text_demo ++ [0]) /\ cv_err r = None) /\
  (exists r ic', convert_string_error_handle no_iconv ic_demo CH_UTF16LE CH_UNIX false (utf16 text_demo ++ []) 9 =
     Some (r, ic') /\ cv_out r = utf8 [0x48; 0xE9; 0x20AC] /\ cv_err r = Some E2BIG).
Proof.
  assert (Ht : Forall scalar text_demo) by (unfold scalar; repeat constructor; lia).
  assert (Hn : 0 ∉ text_demo) by (apply (bool_decide_unpack _); vm_compute; reflexivity).
  split.
  - destruct (convert_string_fast_path no_iconv ic_demo CH_UNIX CH_UTF16LE true true
      (Smb_iconv (Some utf8_pull) None None) utf8_char utf16_char scalar [7; 7] text_demo 30) as (r & ic' & Hr & Ho & _ & He);
      try done; [by apply converts_direct, _ | apply utf8_superset | left; lia |].
    exists r, ic'. split; [exact Hr|]. rewrite Ho, He. split; vm_compute; reflexivity.
  - destruct (convert_string_fast_path no_iconv ic_demo CH_UTF16LE CH_UNIX false false
      (Smb_iconv (Some utf8_push) None None) utf16_char utf8_char scalar [] text_demo 9) as (r & ic' & Hr & Ho & _ & He);
      try done; [by apply converts_direct, _ | apply utf8_superset | left; lia |].
    rewrite app_nil_r in Hr at 1. exists r, ic'. split; [exact Hr|]. rewrite Ho, He. split; vm_compute; reflexivity.
Defined.

Lemma text_conv_whole dst t n : Z.of_nat (length (t ≫= dst)) <= n ->
  text_conv dst t n = Conv (t ≫= dst) [] (n - Z.of_nat (length (t ≫= dst))) None.
Proof.
  revert n. induction t as [|cp t IH]; intros n; cbn [mbind list_bind text_conv length].
  { intros _. unfold stop. f_equal. lia. }
  rewrite length_app. intros Hn. rewrite (proj2 (Z.ltb_ge _ _)), IH by lia. unfold emit. cbn. f_equal. lia.
Qed.

Lemma growth (src dst : Z -> list Z) (dom : Z -> Prop) t :
  (forall cp, dom cp -> (0 < length (dst cp) <= 2 * length (src cp))%nat) -> Forall dom t ->
  (length (t ≫= dst) <= 2 * length (t ≫= src) /\ (t <> [] -> 0 < length (t ≫= dst)))%nat.
Proof.
  intros Hd. induction 1 as [|cp t Hcp _ [IH _]]; [done|]. cbn. rewrite !length_app. specialize (Hd cp Hcp). lia.
Qed.

Lemma talloc_handle_turns native alloc ic ic' from to cd src fuel :
  src <> [] -> get_conv_handle native ic from to = (Some cd, ic') ->
  convert_string_talloc_handle native alloc ic from to (Some src) fuel =
  (r ← talloc_turns alloc cd to (length src) fuel src (u64 (Z.of_nat (length src) * 3) / 2); Some (r, ic')).
Proof. intros Hne E. destruct src; [done|]. cbn [convert_string_talloc_handle]. by rewrite E. Qed.

(** Converting into a new buffer: when every character at most doubles its size,
    the first turn has the room for the whole text, and the result is the text in its
    new form with two zero bytes behind it and its exact size, or ENOMEM if there is
    no memory. *)
Theorem convert_string_talloc_text native alloc ic from to cd src dst (dom : Z -> Prop) t fuel :
  fst (get_conv_handle native ic from to) = Some cd -> Converts cd src dst dom ->
  (forall cp, dom cp -> (0 < length (dst cp) <= 2 * length (src cp))%nat) ->
  Forall dom t -> t <> [] -> Z.of_nat (length (t ≫= src)) * 3 + 2 < 2 ^ 64 -> (0 < fuel)%nat ->
  exists res ic', convert_string_talloc_handle native alloc ic from to (Some (t ≫= src)) fuel = Some (res, ic') /\
    (res = Converted ((t ≫= dst) ++ [0; 0]) (Z.of_nat (length (t ≫= dst))) \/
     res = Convert_failed ENOMEM /\ exists n, alloc n = false).
Proof.
  intros Hcd Hconv Hd Ht Hne Hlen Hfuel. destruct (growth src dst dom t Hd Ht) as [Hg Hpos]. specialize (Hpos Hne).
  destruct fuel as [|fuel]; [lia|]. destruct (get_conv_handle native ic from to) as [h ic'] eqn:E. cbn in Hcd. subst h.
  rewrite (talloc_handle_turns native alloc ic ic' from to cd) by (done || (intros Hnil; rewrite Hnil in *; cbn in *; lia)).
  set (L := length (t ≫= src)) in *.
  assert (HL : 0 < Z.of_nat L) by lia. set (d := Z.of_nat L * 3 / 2).
  assert (Hdv : 3 * Z.of_nat L - 1 <= d * 2 <= 3 * Z.of_nat L)
    by (pose proof (Z.div_mod (Z.of_nat L * 3) 2 ltac:(lia)); pose proof (Z.mod_pos_bound (Z.of_nat L * 3) 2); subst d; lia).
  assert (Hu : forall x, 0 <= x < 2 ^ 64 -> u64 x = x) by (intros x Hx; by apply Z.mod_small).
  rewrite (Hu (Z.of_nat L * 3)) by lia. fold d. cbn [talloc_turns].
  rewrite (Hu (d * 2 + 2)), (Hu (d * 2)), (Hu (d * 2 + 2)) by lia. rewrite (proj2 (Z.ltb_ge (d * 2 + 2) d)) by lia.
  destruct (alloc (d * 2 + 2)) eqn:Ea; cbn [negb mbind option_bind]; [|eexists _, _; split; [done|]; eauto].
  rewrite Nat.ltb_irrefl. replace (take L (t ≫= src)) with (t ≫= src) by (symmetry; apply firstn_all).
  destruct (Hconv t (d * 2) Ht) as (r & -> & Ho & Hl & He). rewrite text_conv_whole in * by lia. cbn in Ho, Hl, He.
  cbn [mbind option_bind]. rewrite He, Ho, Hl. replace (d * 2 - (d * 2 - _)) with (Z.of_nat (length (t ≫= dst))) by lia.
  rewrite Hu by lia. rewrite (proj2 (Z.eqb_neq (Z.of_nat (length (t ≫= dst))) 0)) by lia.
  destruct (if 1024 <? _ then _ else _) eqn:Ea2; cbn [negb]; eexists _, _; (split; [done|]); [by left|].
  right. split; [done|]. destruct (1024 <? _); [eauto | done].
Qed.

Lemma utf8_growth cp : scalar cp -> (0 < length (utf16_char cp) <= 2 * length (utf8_char cp))%nat.
Proof.
  intros H. unfold utf16_char, utf8_char. destruct (cp <? 0x80) eqn:?, (cp <? 0x800) eqn:?, (cp <? 0x10000) eqn:?; cbn; lia.
Qed.

Lemma convert_string_talloc_text_witness :
  exists res ic', convert_string_talloc_handle no_iconv (fun n => n <? 1000) ic_demo CH_UTF8 CH_UTF16LE (Some (utf8 text_demo)) 1 =
    Some (res, ic') /\ (res = Converted (utf16 text_demo ++ [0; 0]) 10 \/ res = Convert_failed ENOMEM /\ exists n, (n <? 1000) = false).
Proof.
  apply (convert_string_talloc_text no_iconv (fun n => n <? 1000) ic_demo CH_UTF8 CH_UTF16LE
    (Smb_iconv (Some utf8_pull) None None) utf8_char utf16_char scalar text_demo 1); try done.
  - by apply converts_direct, _.
  - apply utf8_growth.
  - unfold scalar; repeat constructor; lia.
  - lia.
Defined.

(** ** Single characters *)

Lemma strnlen_app l rest n : Forall (fun x => x <> 0) l -> (length l <= n)%nat ->
  strnlen (l ++ rest) n = (length l + strnlen rest (n - length l))%nat.
Proof.
  intros Hl. revert n. induction Hl as [|x l Hx _ IH]; intros n Hn; cbn [app strnlen length] in *; [by rewrite Nat.sub_0_r|].
  destruct n as [|n]; [lia|]. rewrite (proj2 (Z.eqb_neq x 0) Hx), IH by lia. done.
Qed.

Lemma strnlen_le l n : (strnlen l n <= n)%nat.
Proof. revert n. induction l as [|x l IH]; intros [|n]; cbn; try lia. destruct (x =? 0); [lia|]. specialize (IH n). lia. Qed.

Lemma utf8_pull_zero rest : exists e, utf8_pull rest 0 = stop rest 0 e.
Proof. destruct rest; cbn; eauto. Qed.

Lemma utf8_char_bytes cp : scalar cp -> 0x80 <= cp ->
  exists b l, utf8_char cp = b :: l /\ 0x80 <= b < 256 /\ Forall (fun x => x <> 0) (b :: l) /\ (length (b :: l) <= 4)%nat.
Proof.
  intros Hs Hc. destruct (utf8_superset cp Hs) as (_ & _ & Hb). destruct (Hb Hc) as (b & l & E & Hb' & Hl).
  exists b, l. split; [done|]. assert (Hlen : (length (utf8_char cp) <= 4)%nat) by (unfold utf8_char; repeat destruct (_ <? _); cbn; lia).
  rewrite E in Hlen. split_and!; [done | | constructor; [lia | done] | done].
  assert (Hd : forall m k, 0 < m -> cp < m * k -> cp / m < k) by (intros m k Hm Hk; by apply Z.div_lt_upper_bound).
  revert E. unfold utf8_char. rewrite (proj2 (Z.ltb_ge cp 0x80)) by lia.
  destruct (Z.ltb_spec cp 0x800); [|destruct (Z.ltb_spec cp 0x10000)]; intros [= <- <-].
  - pose proof (Hd 64 32). lia.
  - pose proof (Hd 4096 16). lia.
  - pose proof (Hd 262144 8). destruct Hs; lia.
Qed.

(** The code point is put together from the two units again. *)
Lemma join_units cp : 0x10000 <= cp < 0x110000 -> exists b0 b1 b2 b3, utf16_char cp = [b0; b1; b2; b3] /\
  0x10000 + Z.lor (Z.lor (Z.lor b2 (Z.shiftl (Z.land b3 0x3) 8)) (Z.shiftl b0 10)) (Z.shiftl (Z.land b1 0x3) 18) = cp /\
  [b0; b1; b2; b3] = let c := cp - 0x10000 in
    [Z.land (Z.shiftr c 10) 0xFF; u8 (Z.lor (Z.shiftr c 18) 0xd8); Z.land c 0xFF; Z.lor (Z.land (Z.shiftr c 8) 0x3) 0xdc].
Proof.
  intros Hc. unfold utf16_char. rewrite (proj2 (Z.ltb_ge cp 0x10000)) by lia. unfold unit16. cbn [app].
  do 4 eexists. split; [done|]. set (c := cp - 0x10000). cbv zeta.
  assert (Hcr : 0 <= c < 2 ^ 20) by (subst c; lia). split; [|symmetry; by apply surrogate_ops].
  assert (Hl : forall x, Z.land x 0x3 = x mod 4) by (intros x; change 0x3 with (Z.ones 2); by rewrite Z.land_ones).
  rewrite !Hl, !Z.shiftl_mul_pow2 by lia.
  replace ((0xD800 + c / 1024) mod 256) with (c / 1024 mod 256) by (Z.to_euclidean_division_equations; lia).
  replace ((0xD800 + c / 1024) / 256 mod 4) with (c / 262144) by (Z.to_euclidean_division_equations; lia).
  replace ((0xDC00 + c mod 1024) mod 256) with (c mod 256) by (Z.to_euclidean_division_equations; lia).
  replace ((0xDC00 + c mod 1024) / 256 mod 4) with (c / 256 mod 4) by (Z.to_euclidean_division_equations; lia).
  rewrite (Z.lor_comm (c mod 256)), lor_disjoint by (Z.to_euclidean_division_equations; lia).
  rewrite (Z.lor_comm (c / 256 mod 4 * 2 ^ 8 + _)), lor_disjoint by (Z.to_euclidean_division_equations; lia).
  rewrite (Z.lor_comm (c / 1024 mod 256 * 2 ^ 10 + _)), lor_disjoint by (Z.to_euclidean_division_equations; lia).
  subst c. Z.to_euclidean_division_equations; lia.
Qed.

Section unix_utf8.
Context (native : string -> string -> option conv_fn) (dos : string).
#[local] Abbreviation ic := (smb_iconv_handle_reinit dos "UTF-8" true).

Lemma unix_pull : fst (get_conv_handle native ic CH_UNIX CH_UTF16LE) = Some (Smb_iconv (Some utf8_pull) None None).
Proof. reflexivity. Qed.

Lemma unix_push : fst (get_conv_handle native ic CH_UTF16LE CH_UNIX) = Some (Smb_iconv (Some utf8_push) None None).
Proof. reflexivity. Qed.

Lemma push_codepoint_utf8 cp : scalar cp ->
  exists ic', push_codepoint_handle native ic cp = Some (Some (utf8_char cp), ic').
Proof.
  intros Hs. unfold push_codepoint_handle. destruct (Z.ltb_spec cp 128) as [Hlt|Hge].
  { rewrite (superset_ascii (dom := scalar) utf8_char) by (done || apply utf8_superset). eauto. }
  destruct (get_conv_handle native ic CH_UTF16LE CH_UNIX) as [h ic'] eqn:E. pose proof unix_push as Hp. rewrite E in Hp.
  cbn [fst] in Hp. subst h. exists ic'.
  replace (if cp <? 0x10000 then le_bytes 2 cp else _) with (utf16_char cp).
  - cbn [smb_iconv mbind option_bind]. pose proof (charwise_whole utf8_push utf16_char utf8_char scalar [cp] 5 ltac:(by constructor)) as Hw.
    cbn [mbind list_bind] in Hw. rewrite !app_nil_r in Hw. rewrite Hw; [done|].
    destruct (utf8_char_bytes cp Hs Hge) as (b & l & -> & _ & _ & Hl). lia.
  - destruct (Z.ltb_spec cp 0x10000) as [H|H].
    + rewrite utf16_char_bmp by lia. unfold unit16. change (le_bytes 2 cp) with [cp mod 256; cp / 256 mod 256]. by rewrite (Z.mod_small (cp / 256)) by (Z.to_euclidean_division_equations; lia).
    + destruct (join_units cp) as (b0 & b1 & b2 & b3 & -> & _ & E'); [destruct Hs; lia | exact E'].
Qed.

(** The two attempts of [next_codepoint_handle_ext]. *)
Lemma pull_one cp rest : scalar cp -> let inb := utf8_char cp ++ rest in
  if cp <? 0x10000 then exists e, utf8_pull inb 2 = Conv (utf16_char cp) rest 0 e
  else utf8_pull inb 2 = stop inb 2 (Some E2BIG) /\ exists e, utf8_pull inb 4 = Conv (utf16_char cp) rest 0 e.
Proof.
  intros Hs. cbv zeta. rewrite !(utf8_pull_steps cp Hs). destruct (utf8_pull_zero rest) as [e He].
  destruct (Z.ltb_spec cp 0x10000) as [H|H].
  - rewrite utf16_char_bmp by (destruct Hs; lia). exists e.
    change (emit (unit16 cp) (utf8_pull rest 0) = Conv (unit16 cp) rest 0 e). by rewrite He.
  - destruct (join_units cp) as (b0 & b1 & b2 & b3 & -> & _); [destruct Hs; lia|]. split; [done|]. exists e.
    change (emit [b0; b1; b2; b3] (utf8_pull rest 0) = Conv [b0; b1; b2; b3] rest 0 e). by rewrite He.
Qed.

Lemma next_codepoint_utf8 cp rest : scalar cp ->
  exists ic', next_codepoint native ic (utf8_char cp ++ rest) = Some (cp, Z.of_nat (length (utf8_char cp)), ic').
Proof.
  intros Hs. destruct (Z.lt_ge_cases cp 0x80) as [Hlt|Hge].
  { rewrite (superset_ascii (dom := scalar) utf8_char) by (done || apply utf8_superset). cbn [app next_codepoint].
    rewrite lead1 by (destruct Hs; lia). by exists ic. }
  destruct (utf8_char_bytes cp Hs Hge) as (b & l & Eb & Hb & Hnz & Hlen).
  assert (Hhigh : (Z.land b 0x80 =? 0) = false) by (destruct (lead_bytes b) as (-> & _); [|apply Z.ltb_ge]; lia).
  assert (Hin : exists rest', take (Nat.min (strnlen (utf8_char cp ++ rest) 5) 5) (utf8_char cp ++ rest) = utf8_char cp ++ rest').
  { rewrite Nat.min_l by apply strnlen_le. rewrite Eb, strnlen_app, firstn_app_2 by (done || (cbn in *; lia)). eauto. }
  destruct Hin as [rest' Hin].
  destruct (get_conv_handle native ic CH_UNIX CH_UTF16LE) as [h ic'] eqn:E. pose proof unix_pull as Hp. rewrite E in Hp.
  cbn [fst] in Hp. subst h. exists ic'.
  assert (Hnext : next_codepoint native ic (utf8_char cp ++ rest) = next_codepoint_handle native ic (utf8_char cp ++ rest))
    by (rewrite Eb; cbn [app next_codepoint]; by rewrite Hhigh).
  rewrite Hnext. unfold next_codepoint_handle, next_codepoint_handle_ext. rewrite Hin, E.
  rewrite Eb at 1. cbn [app]. rewrite Hhigh. cbn [andb smb_iconv mbind option_bind].
  pose proof (pull_one cp rest' Hs) as Hone. cbv zeta in Hone. rewrite !length_app. destruct (Z.ltb_spec cp 0x10000) as [H|H].
  - destruct Hone as [e ->]. cbn [cv_left cv_out cv_in mbind option_bind Z.eqb andb]. rewrite utf16_char_bmp by lia.
    unfold unit16, le_value. do 3 f_equal; [|lia]. pose proof (unit16_value cp). lia.
  - destruct Hone as (-> & e & He). cbn [stop cv_left cv_in Z.eqb Pos.eqb mbind option_bind]. rewrite He.
    cbn [cv_left cv_in cv_out Z.eqb andb mbind option_bind].
    destruct (join_units cp) as (b0 & b1 & b2 & b3 & -> & Hj & _); [destruct Hs; lia|]. rewrite Hj. do 3 f_equal. lia.
Qed.
End unix_utf8.

(** With a UNIX character set of UTF-8, [push_codepoint_handle] writes the UTF-8
    form of every character, and [next_codepoint] reads that character from it, with
    its length, whatever follows in memory. *)
Theorem codepoint_roundtrip native dos cp rest :
  scalar cp -> let ic := smb_iconv_handle_reinit dos "UTF-8" true in
  (exists ic', push_codepoint_handle native ic cp = Some (Some (utf8_char cp), ic')) /\
  (exists ic', next_codepoint native ic (utf8_char cp ++ rest) = Some (cp, Z.of_nat (length (utf8_char cp)), ic')).
Proof. intros Hs ic. split; [by apply push_codepoint_utf8 | by apply next_codepoint_utf8]. Qed.

Lemma codepoint_roundtrip_witness :
  (exists ic', push_codepoint_handle no_iconv ic_demo 0x1F600 = Some (Some [0xF0; 0x9F; 0x98; 0x80], ic')) /\
  (exists ic', next_codepoint no_iconv ic_demo [0xF0; 0x9F; 0x98; 0x80; 0xF0; 0] = Some (0x1F600, 4, ic')).
Proof. apply (codepoint_roundtrip no_iconv "CP850" 0x1F600 [0xF0; 0]). unfold scalar. lia. Defined.

(** ** Observations *)

Definition converted (r : option (conv * smb_iconv_handle)) : option (list Z * option Z) :=
  (fun '(c, _) => (cv_out c, cv_err c)) <$> r.

(** A terminated UTF-16 string is cut, without error, at a character whose low byte
    is 0: of U+0041 U+0100 U+0042 only the first is converted. With a length it is
    whole. *)
Lemma low_byte_zero_ends :
  converted (convert_string_error_handle no_iconv ic_demo CH_UTF16LE CH_UNIX true (utf16 [0x41; 0x100; 0x42; 0]) 20) =
    Some (utf8 [0x41], None) /\
  converted (convert_string_error_handle no_iconv ic_demo CH_UTF16LE CH_UNIX false (utf16 [0x41; 0x100; 0x42; 0]) 20) =
    Some (utf8 [0x41; 0x100; 0x42; 0], None).
Proof. split; vm_compute; reflexivity. Qed.

(** From UTF-16LE to UTF-16BE the fast path writes single bytes. *)
Lemma ascii_le_to_be :
  converted (convert_string_error_handle no_iconv ic_demo CH_UTF16LE CH_UTF16BE false (utf16 [0x41; 0x42]) 20) =
    Some ([0x41; 0x42], None).
Proof. vm_compute. reflexivity. Qed.

(** A length does not carry the fast path over a null character, which the slow path
    converts as any other. *)
Lemma embedded_nul_ends :
  converted (convert_string_error_handle no_iconv ic_demo CH_UNIX CH_UTF16LE false (utf8 [0x41; 0; 0x42]) 20) =
    Some (utf16 [0x41; 0], None) /\
  converted (convert_string_error_handle no_iconv ic_demo CH_UNIX CH_UTF16LE false (utf8 [0xE9; 0; 0x42]) 20) =
    Some (utf16 [0xE9; 0; 0x42], None).
Proof. split; vm_compute; reflexivity. Qed.

(** Without any room a terminated string is converted with success. *)
Lemma no_room_succeeds :
  converted (convert_string_error_handle no_iconv ic_demo CH_UNIX CH_UTF16LE true [0x41; 0] 0) = Some ([], None).
Proof. vm_compute. reflexivity. Qed.

(** A second turn goes on where the first has stopped, with the length of the whole
    source: from four characters of Latin-1 to the hexadecimal form, which takes five
    bytes for one, nothing is left of them, and the bytes after the source are
    converted in their place. *)
Lemma second_turn_reads_on :
  let cd := cd_demo "UCS2-HEX" "ISO-8859-1" in
  let src := repeat 0xE9 4 in
  talloc_turns (fun _ => true) cd CH_DOS 4 5 (src ++ [0x53; 0x45; 0x43; 0x52]) (4 * 3 / 2) =
    Some (Converted [0x53; 0x45; 0x43; 0x52; 0; 0] 4).
Proof. vm_compute. reflexivity. Qed.
