(* ===== verification/Des.v ===== *)
(** * DES as used for SMB authentication

    libcli/auth/smbdes.c and libcli/auth/session.c: the cipher on arrays of bits, its
    uses with longer keys, and the encryption of secrets with a session key. A
    [char] that holds a bit is a [bool], bytes are [Z]. *)

From S2P Require Import Prelude.
From stdpp Require Import prelude list.

#[local] Open Scope Z_scope.

(** ** Tables *)

Definition perm1 : list nat :=
  [57; 49; 41; 33; 25; 17; 9; 1; 58; 50; 42; 34; 26; 18; 10; 2; 59; 51; 43; 35; 27; 19; 11; 3; 60;
   52; 44; 36; 63; 55; 47; 39; 31; 23; 15; 7; 62; 54; 46; 38; 30; 22; 14; 6; 61; 53; 45; 37; 29;
   21; 13; 5; 28; 20; 12; 4]%nat.

Definition perm2 : list nat :=
  [14; 17; 11; 24; 1; 5; 3; 28; 15; 6; 21; 10; 23; 19; 12; 4; 26; 8; 16; 7; 27; 20; 13; 2; 41; 52;
   31; 37; 47; 55; 30; 40; 51; 45; 33; 48; 44; 49; 39; 56; 34; 53; 46; 42; 50; 36; 29; 32]%nat.

Definition perm3 : list nat :=
  [58; 50; 42; 34; 26; 18; 10; 2; 60; 52; 44; 36; 28; 20; 12; 4; 62; 54; 46; 38; 30; 22; 14; 6; 64;
   56; 48; 40; 32; 24; 16; 8; 57; 49; 41; 33; 25; 17; 9; 1; 59; 51; 43; 35; 27; 19; 11; 3; 61; 53;
   45; 37; 29; 21; 13; 5; 63; 55; 47; 39; 31; 23; 15; 7]%nat.

Definition perm4 : list nat :=
  [32; 1; 2; 3; 4; 5; 4; 5; 6; 7; 8; 9; 8; 9; 10; 11; 12; 13; 12; 13; 14; 15; 16; 17; 16; 17; 18;
   19; 20; 21; 20; 21; 22; 23; 24; 25; 24; 25; 26; 27; 28; 29; 28; 29; 30; 31; 32; 1]%nat.

Definition perm5 : list nat :=
  [16; 7; 20; 21; 29; 12; 28; 17; 1; 15; 23; 26; 5; 18; 31; 10; 2; 8; 24; 14; 32; 27; 3; 9; 19; 13;
   30; 6; 22; 11; 4; 25]%nat.

Definition perm6 : list nat :=
  [40; 8; 48; 16; 56; 24; 64; 32; 39; 7; 47; 15; 55; 23; 63; 31; 38; 6; 46; 14; 54; 22; 62; 30; 37;
   5; 45; 13; 53; 21; 61; 29; 36; 4; 44; 12; 52; 20; 60; 28; 35; 3; 43; 11; 51; 19; 59; 27; 34; 2;
   42; 10; 50; 18; 58; 26; 33; 1; 41; 9; 49; 17; 57; 25]%nat.

Definition sc : list nat :=
  [1; 1; 2; 2; 2; 2; 2; 2; 1; 2; 2; 2; 2; 2; 2; 1]%nat.

Definition sbox : list (list (list nat)) :=
  [[[14; 4; 13; 1; 2; 15; 11; 8; 3; 10; 6; 12; 5; 9; 0; 7];
     [0; 15; 7; 4; 14; 2; 13; 1; 10; 6; 12; 11; 9; 5; 3; 8];
     [4; 1; 14; 8; 13; 6; 2; 11; 15; 12; 9; 7; 3; 10; 5; 0];
     [15; 12; 8; 2; 4; 9; 1; 7; 5; 11; 3; 14; 10; 0; 6; 13]];

   [[15; 1; 8; 14; 6; 11; 3; 4; 9; 7; 2; 13; 12; 0; 5; 10];
     [3; 13; 4; 7; 15; 2; 8; 14; 12; 0; 1; 10; 6; 9; 11; 5];
     [0; 14; 7; 11; 10; 4; 13; 1; 5; 8; 12; 6; 9; 3; 2; 15];
     [13; 8; 10; 1; 3; 15; 4; 2; 11; 6; 7; 12; 0; 5; 14; 9]];

   [[10; 0; 9; 14; 6; 3; 15; 5; 1; 13; 12; 7; 11; 4; 2; 8];
     [13; 7; 0; 9; 3; 4; 6; 10; 2; 8; 5; 14; 12; 11; 15; 1];
     [13; 6; 4; 9; 8; 15; 3; 0; 11; 1; 2; 12; 5; 10; 14; 7];
     [1; 10; 13; 0; 6; 9; 8; 7; 4; 15; 14; 3; 11; 5; 2; 12]];

   [[7; 13; 14; 3; 0; 6; 9; 10; 1; 2; 8; 5; 11; 12; 4; 15];
     [13; 8; 11; 5; 6; 15; 0; 3; 4; 7; 2; 12; 1; 10; 14; 9];
     [10; 6; 9; 0; 12; 11; 7; 13; 15; 1; 3; 14; 5; 2; 8; 4];
     [3; 15; 0; 6; 10; 1; 13; 8; 9; 4; 5; 11; 12; 7; 2; 14]];

   [[2; 12; 4; 1; 7; 10; 11; 6; 8; 5; 3; 15; 13; 0; 14; 9];
     [14; 11; 2; 12; 4; 7; 13; 1; 5; 0; 15; 10; 3; 9; 8; 6];
     [4; 2; 1; 11; 10; 13; 7; 8; 15; 9; 12; 5; 6; 3; 0; 14];
     [11; 8; 12; 7; 1; 14; 2; 13; 6; 15; 0; 9; 10; 4; 5; 3]];

   [[12; 1; 10; 15; 9; 2; 6; 8; 0; 13; 3; 4; 14; 7; 5; 11];
     [10; 15; 4; 2; 7; 12; 9; 5; 6; 1; 13; 14; 0; 11; 3; 8];
     [9; 14; 15; 5; 2; 8; 12; 3; 7; 0; 4; 10; 1; 13; 11; 6];
     [4; 3; 2; 12; 9; 5; 15; 10; 11; 14; 1; 7; 6; 0; 8; 13]];

   [[4; 11; 2; 14; 15; 0; 8; 13; 3; 12; 9; 7; 5; 10; 6; 1];
     [13; 0; 11; 7; 4; 9; 1; 10; 14; 3; 5; 12; 2; 15; 8; 6];
     [1; 4; 11; 13; 12; 3; 7; 14; 10; 15; 6; 8; 0; 5; 9; 2];
     [6; 11; 13; 8; 1; 4; 10; 7; 9; 5; 0; 15; 14; 2; 3; 12]];

   [[13; 2; 8; 4; 6; 15; 11; 1; 10; 9; 3; 14; 5; 0; 12; 7];
     [1; 15; 13; 8; 10; 3; 7; 4; 12; 5; 6; 11; 0; 14; 9; 2];
     [7; 11; 4; 1; 9; 12; 14; 2; 0; 6; 10; 13; 15; 3; 5; 8];
     [2; 1; 14; 7; 4; 10; 8; 13; 15; 12; 9; 0; 3; 5; 6; 11]]]%nat.

(** ** The cipher *)

Definition permute (input : list bool) (p : list nat) : list bool := map (fun i => nth (i - 1) input false) p.

Definition lshift (d : list bool) (count : nat) : list bool :=
  map (fun i => nth ((i + count) mod length d) d false) (seq 0 (length d)).

Definition xor (in1 in2 : list bool) : list bool := zip_with xorb in1 in2.

(** The key schedule, from the rotation [i] on. *)
Fixpoint key_schedule (shifts : list nat) (c d : list bool) : list (list bool) :=
  match shifts with
  | [] => []
  | s :: shifts =>
      let c := lshift c s in
      let d := lshift d s in
      permute (c ++ d) perm2 :: key_schedule shifts c d
  end.

Definition bit_value (b : bool) : nat := if b then 1%nat else 0%nat.

(** Four bits for six. *)
Definition substitute (j : nat) (b : list bool) : list bool :=
  let b k := bit_value (nth k b false) in
  let m := (2 * b 0 + b 5)%nat in
  let n := (8 * b 1 + 4 * b 2 + 2 * b 3 + b 4)%nat in
  let v := nth n (nth m (nth j sbox []) []) 0%nat in
  map (fun k => Nat.testbit v (3 - k)) [0; 1; 2; 3]%nat.

Definition round_function (r k : list bool) : list bool :=
  let erk := xor (permute r perm4) k in
  let cb := concat (map (fun j => substitute j (take 6 (drop (j * 6) erk))) (seq 0 8)) in
  permute cb perm5.

(** The rounds from [i] on: [n] of them. *)
Fixpoint rounds (n i : nat) (ki : list (list bool)) (forw : bool) (l r : list bool) : list bool * list bool :=
  match n with
  | O => (l, r)
  | S n => rounds n (S i) ki forw r (xor l (round_function r (nth (if forw then i else 15 - i) ki [])))
  end.

Definition dohash (input key : list bool) (forw : bool) : list bool :=
  let pk1 := permute key perm1 in
  let ki := key_schedule sc (take 28 pk1) (drop 28 pk1) in
  let pd1 := permute input perm3 in
  let '(l, r) := rounds 16 0 ki forw (take 32 pd1) (drop 32 pd1) in
  permute (r ++ l) perm6.

(** ** Bytes *)

Definition str_to_key (str : list Z) : list Z :=
  let s i := nth i str 0 in
  map (fun k => u8 (Z.shiftl k 1))
    [Z.shiftr (s 0%nat) 1;
     Z.lor (Z.shiftl (Z.land (s 0%nat) 0x01) 6) (Z.shiftr (s 1%nat) 2);
     Z.lor (Z.shiftl (Z.land (s 1%nat) 0x03) 5) (Z.shiftr (s 2%nat) 3);
     Z.lor (Z.shiftl (Z.land (s 2%nat) 0x07) 4) (Z.shiftr (s 3%nat) 4);
     Z.lor (Z.shiftl (Z.land (s 3%nat) 0x0F) 3) (Z.shiftr (s 4%nat) 5);
     Z.lor (Z.shiftl (Z.land (s 4%nat) 0x1F) 2) (Z.shiftr (s 5%nat) 6);
     Z.lor (Z.shiftl (Z.land (s 5%nat) 0x3F) 1) (Z.shiftr (s 6%nat) 7);
     Z.land (s 6%nat) 0x7F].

(** Bit [i] of eight bytes is bit [7 - i % 8] of byte [i / 8]. *)
Definition to_bits (bytes : list Z) : list bool :=
  map (fun i => Z.testbit (nth (i / 8) bytes 0) (7 - Z.of_nat (i mod 8))) (seq 0 64).

Definition of_bits (bits : list bool) : list Z :=
  map (fun k => foldl (fun acc j => if nth (8 * k + j) bits false then Z.lor acc (Z.shiftl 1 (7 - Z.of_nat j)) else acc)
                      0 (seq 0 8)) (seq 0 8).

Definition des_crypt56 (input key : list Z) (forw : bool) : list Z :=
  of_bits (dohash (to_bits input) (to_bits (str_to_key key)) forw).

(** ** Longer keys and data *)

Definition sp8 : list Z := [0x4b; 0x47; 0x53; 0x21; 0x40; 0x23; 0x24; 0x25].

Definition E_P16 (p14 : list Z) : list Z := des_crypt56 sp8 p14 true ++ des_crypt56 sp8 (drop 7 p14) true.

Definition E_P24 (p21 c8 : list Z) : list Z :=
  des_crypt56 c8 p21 true ++ des_crypt56 c8 (drop 7 p21) true ++ des_crypt56 c8 (drop 14 p21) true.

Definition D_P16 (p14 input : list Z) : list Z :=
  des_crypt56 input p14 false ++ des_crypt56 (drop 8 input) (drop 7 p14) false.

Definition E_old_pw_hash (p14 input : list Z) : list Z :=
  des_crypt56 input p14 true ++ des_crypt56 (drop 8 input) (drop 7 p14) true.

Definition des_crypt128 (input key : list Z) : list Z := des_crypt56 (des_crypt56 input key true) (drop 9 key) true.

Definition des_crypt64 (input key : list Z) (forw : bool) : list Z :=
  let buf := des_crypt56 input key forw in
  let key2 := nth 7 key 0 :: replicate 7 0 in
  des_crypt56 buf key2 forw.

Definition des_crypt112 (input key : list Z) (forw : bool) : list Z :=
  des_crypt56 (des_crypt56 input key forw) (drop 7 key) forw.

Definition des_crypt112_16 (input key : list Z) (forw : bool) : list Z :=
  des_crypt56 input key forw ++ des_crypt56 (drop 8 input) (drop 7 key) forw.

Definition sam_rid_crypt (rid : Z) (input : list Z) (forw : bool) : list Z :=
  let b n := Z.land (Z.shiftr rid n) 0xFF in
  let s := [b 0; b 8; b 16; b 24; b 0; b 8; b 16; b 24; b 0; b 8; b 16; b 24; b 0; b 8] in
  des_crypt56 input s forw ++ des_crypt56 (drop 8 input) (drop 7 s) forw.

(** ** Secrets under a session key *)

(** The loop of [sess_crypt_blob]: eight bytes of data and seven of the key at a time.
    [None] where the key is read outside its bounds. *)
Fixpoint sess_crypt_loop (fuel : nat) (input session_key : list Z) (k : Z) (forward : bool) : option (list Z) :=
  match fuel, input with
  | S fuel, _ :: _ =>
      let bin := take 8 input ++ replicate (8 - length input) 0 in
      let len := Z.of_nat (length session_key) in
      let k := if len <? k + 7 then len - k else k in
      if (k <? 0) || (len <? k + 7) then None
      else
        let key := take 7 (drop (Z.to_nat k) session_key) in
        rest ← sess_crypt_loop fuel (drop 8 input) session_key (k + 7) forward;
        Some (take (length input) (des_crypt56 bin key forward) ++ rest)
  | _, _ => Some []
  end.

(** Every round takes input, so its length bounds their number. *)
Definition sess_crypt_blob (input session_key : list Z) (forward : bool) : option (list Z) :=
  sess_crypt_loop (length input) input session_key 0 forward.

Definition lsa_padding (n : nat) : nat := (8 * ((n + 7) / 8) - n)%nat.

(** The length, the revision and the data, filled up to eight bytes. *)
Definition sess_encrypt_string (str session_key : list Z) : option (list Z) :=
  let src := le_bytes 4 (Z.of_nat (length str)) ++ le_bytes 4 1 ++ str ++ replicate (lsa_padding (length str)) 0 in
  sess_crypt_blob src session_key true.

(** [talloc_strndup]: up to [n] bytes, and not beyond a NUL. *)
Fixpoint strndup (n : nat) (s : list Z) : list Z :=
  match n, s with
  | S n, c :: s => if c =? 0 then [] else c :: strndup n s
  | _, _ => []
  end.

(** [Some None] where the code returns NULL. The length is an [int] that is compared
    as a [size_t]. *)
Definition sess_decrypt_string (blob session_key : list Z) : option (option (list Z)) :=
  if (length blob <? 8)%nat then Some None
  else
    out ← sess_crypt_blob blob session_key false;
    if negb (le_value (take 4 (drop 4 out)) =? 1) then Some None
    else
      let slen := i32 (le_value (take 4 out)) in
      if (slen <? 0) || (Z.of_nat (length blob) - 8 <? slen) then Some None
      else Some (Some (strndup (Z.to_nat slen) (drop 8 out))).

Definition sess_encrypt_blob (blob_in session_key : list Z) : option (list Z) :=
  let src := le_bytes 4 (Z.of_nat (length blob_in)) ++ le_bytes 4 1 ++ blob_in ++
             replicate (lsa_padding (length blob_in)) 0 in
  sess_crypt_blob src session_key true.

Definition NT_STATUS_UNKNOWN_REVISION : NTSTATUS := 0xC0000058.
Definition NT_STATUS_WRONG_PASSWORD : NTSTATUS := 0xC000006A.

Definition sess_decrypt_blob (blob session_key : list Z) : option (NTSTATUS + list Z) :=
  if (length blob <? 8)%nat then Some (inl NT_STATUS_INVALID_PARAMETER)
  else
    out ← sess_crypt_blob blob session_key false;
    if negb (le_value (take 4 (drop 4 out)) =? 1) then Some (inl NT_STATUS_UNKNOWN_REVISION)
    else
      let slen := i32 (le_value (take 4 out)) in
      if (slen <? 0) || (Z.of_nat (length blob) - 8 <? slen) then Some (inl NT_STATUS_WRONG_PASSWORD)
      else Some (inr (take (Z.to_nat slen) (drop 8 out))).
