(* ===== verification/DesProps.v ===== *)
(** * DES is undone by DES

    Properties of libcli/auth/smbdes.c and session.c: the cipher with its direction
    reversed is its inverse, for every key, and secrets that are encrypted with a
    session key are read back. *)

From S2P Require Import Prelude.
From S2P Require Import Des.
From stdpp Require Import prelude list.

#[local] Open Scope Z_scope.

(** ** Permutations *)

Lemma length_permute x p : length (permute x p) = length p.
Proof. apply length_map. Qed.

Lemma nth_map_nat {A} (f : nat -> A) l i d d' : (i < length l)%nat -> nth i (map f l) d = f (nth i l d').
Proof. intros H. rewrite (nth_indep _ d (f d')) by by rewrite length_map. apply map_nth. Qed.

Lemma permute_permute x p q : Forall (fun i => (1 <= i <= length p)%nat) q ->
  permute (permute x p) q = permute x (map (fun i => nth (i - 1) p 0%nat) q).
Proof.
  intros H. unfold permute at 1 3. rewrite map_map. apply map_ext_in. intros i Hi.
  apply List.Forall_forall with (x := i) in H; [|done]. unfold permute.
  apply (nth_map_nat (fun j => nth (j - 1) x false)). lia.
Qed.

Lemma permute_id x : permute x (seq 1 (length x)) = x.
Proof.
  apply (nth_ext _ _ false false); [by rewrite length_permute, length_seq|].
  intros i Hi. rewrite length_permute, length_seq in Hi. unfold permute.
  rewrite (nth_map_nat (fun j => nth (j - 1) x false) _ _ _ 0%nat) by by rewrite length_seq.
  rewrite seq_nth by done. f_equal. lia.
Qed.

Lemma in_range_64 p : forallb (fun i => (1 <=? i)%nat && (i <=? 64)%nat) p = true -> Forall (fun i => (1 <= i <= 64)%nat) p.
Proof. intros H. apply List.Forall_forall. intros i Hi. apply (proj1 (forallb_forall _ _) H) in Hi.
  apply andb_true_iff in Hi as [H1 H2]. apply Nat.leb_le in H1, H2. lia. Qed.

(** The first and the last permutation undo each other. *)
Lemma perm6_perm3 x : length x = 64%nat -> permute (permute x perm3) perm6 = x.
Proof.
  intros H. rewrite permute_permute by by apply in_range_64.
  change (map _ perm6) with (seq 1 64). rewrite <- H. apply permute_id.
Qed.

Lemma perm3_perm6 x : length x = 64%nat -> permute (permute x perm6) perm3 = x.
Proof.
  intros H. rewrite permute_permute by by apply in_range_64.
  change (map _ perm3) with (seq 1 64). rewrite <- H. apply permute_id.
Qed.

(** ** Rounds *)

Lemma xor_xor a b : length a = length b -> xor (xor a b) b = a.
Proof.
  revert b. induction a as [|x a IH]; intros [|y b] H; try done. cbn in *. f_equal; [|apply IH; lia].
  by destruct x, y.
Qed.

Lemma length_xor a b : length a = length b -> length (xor a b) = length a.
Proof. intros H. unfold xor. rewrite length_zip_with. lia. Qed.

Fixpoint feistel (ks : list (list bool)) (l r : list bool) : list bool * list bool :=
  match ks with
  | [] => (l, r)
  | k :: ks => feistel ks r (xor l (round_function r k))
  end.

Lemma rounds_from n i (ki ks : list (list bool)) (forw : bool) l r : (i + n <= length ks)%nat ->
  (forall j, (j < length ks)%nat -> nth (if forw then j else (15 - j)%nat) ki [] = nth j ks []) ->
  rounds n i ki forw l r = feistel (take n (drop i ks)) l r.
Proof.
  revert i l r. induction n as [|n IH]; intros i l r Hi H; [done|]. cbn [rounds].
  destruct (drop i ks) as [|k rest] eqn:E; [apply (f_equal length) in E; rewrite length_drop in E; cbn in E; lia|].
  assert (k = nth i ks []) as -> by (rewrite <- (Nat.add_0_r i), <- nth_skipn, E; done).
  cbn [take feistel]. rewrite H, IH by (done || lia). do 2 f_equal.
  replace (S i) with (i + 1)%nat by lia. by rewrite <- drop_drop, E.
Qed.

Lemma rounds_feistel ki forw l r : length ki = 16%nat ->
  rounds 16 0 ki forw l r = feistel (if forw then ki else rev ki) l r.
Proof.
  intros H. rewrite (rounds_from 16 0 ki (if forw then ki else rev ki)).
  - rewrite drop_0, firstn_all2; [done|]. destruct forw; rewrite ?length_rev; lia.
  - destruct forw; rewrite ?length_rev; lia.
  - intros j Hj. destruct forw; [done|]. rewrite length_rev in Hj. rewrite rev_nth by done. f_equal. lia.
Qed.

Lemma feistel_app ks ks' l r : feistel (ks ++ ks') l r = let '(l, r) := feistel ks l r in feistel ks' l r.
Proof. revert l r. induction ks as [|k ks IH]; intros l r; [done|]. apply IH. Qed.

Lemma feistel_back ks l r : length l = 32%nat -> length r = 32%nat ->
  exists l' r', feistel ks l r = (l', r') /\ length l' = 32%nat /\ length r' = 32%nat /\ feistel (rev ks) r' l' = (r, l).
Proof.
  revert l r. induction ks as [|k ks IH]; intros l r Hl Hr; [by exists l, r|].
  assert (Hf : length (round_function r k) = 32%nat) by apply length_permute.
  destruct (IH r (xor l (round_function r k))) as (l' & r' & E & Hl' & Hr' & B); [done|rewrite length_xor; congruence|].
  exists l', r'. split_and!; [done..|]. cbn [rev]. rewrite feistel_app, B. cbn [feistel].
  by rewrite xor_xor by congruence.
Qed.

Lemma length_key_schedule s c d : length (key_schedule s c d) = length s.
Proof. revert c d. induction s as [|x s IH]; intros c d; [done|]. cbn. by rewrite IH. Qed.

Lemma length_dohash x key forw : length (dohash x key forw) = 64%nat.
Proof. unfold dohash. destruct (rounds _ _ _ _ _ _). apply length_permute. Qed.

Lemma dohash_inverse x key forw : length x = 64%nat -> dohash (dohash x key forw) key (negb forw) = x.
Proof.
  intros Hx. unfold dohash at 1. set (ki := key_schedule Des.sc _ _).
  assert (Hk : length ki = 16%nat) by apply length_key_schedule.
  unfold dohash. fold ki. clearbody ki. rewrite !rounds_feistel by done.
  set (pd := permute x perm3). assert (Hp : length pd = 64%nat) by apply length_permute.
  set (ks := if forw then ki else rev ki).
  destruct (feistel_back ks (take 32 pd) (drop 32 pd)) as (l & r & -> & Hl & Hr & B);
    [rewrite length_take_le; lia|rewrite length_drop; lia|].
  rewrite perm3_perm6 by (rewrite length_app; lia).
  rewrite take_app_length', drop_app_length' by done.
  assert ((if negb forw then ki else rev ki) = rev ks) as -> by (unfold ks; destruct forw; cbn [negb]; by rewrite ?rev_involutive).
  rewrite B, take_drop. by apply perm6_perm3.
Qed.

(** ** Bytes and bits *)

(** The byte made of eight bits. *)
Definition byte_of (g : nat -> bool) : Z :=
  foldl (fun acc j => if g j then Z.lor acc (Z.shiftl 1 (7 - Z.of_nat j)) else acc) 0 (seq 0 8).

Lemma byte_of_bit g j : (j < 8)%nat -> Z.testbit (byte_of g) (7 - Z.of_nat j) = g j.
Proof.
  intros Hj. unfold byte_of. cbn [seq foldl].
  assert (forall b0 b1 b2 b3 b4 b5 b6 b7 : bool,
    let v := foldl (fun acc '(b, k) => if b : bool then Z.lor acc (Z.shiftl 1 k) else acc) 0
      [(b0, 7); (b1, 6); (b2, 5); (b3, 4); (b4, 3); (b5, 2); (b6, 1); (b7, 0)] in
    map (Z.testbit v) [7; 6; 5; 4; 3; 2; 1; 0] = [b0; b1; b2; b3; b4; b5; b6; b7]) as H
    by (intros [] [] [] [] [] [] [] []; reflexivity).
  specialize (H (g 0%nat) (g 1%nat) (g 2%nat) (g 3%nat) (g 4%nat) (g 5%nat) (g 6%nat) (g 7%nat)).
  cbn [foldl map] in H. injection H as H0 H1 H2 H3 H4 H5 H6 H7.
  do 8 (destruct j as [|j]; [assumption|]). lia.
Qed.

Lemma byte_of_ext g h : (forall j, (j < 8)%nat -> g j = h j) -> byte_of g = byte_of h.
Proof. intros H. unfold byte_of. cbn [seq foldl]. by rewrite !H by lia. Qed.

Lemma byte_of_byte g : is_byte (byte_of g).
Proof.
  unfold byte_of, is_byte. cbn [seq foldl].
  destruct (g 0%nat), (g 1%nat), (g 2%nat), (g 3%nat), (g 4%nat), (g 5%nat), (g 6%nat), (g 7%nat); by vm_compute.
Qed.

Lemma byte_of_testbit v : is_byte v -> byte_of (fun j => Z.testbit v (7 - Z.of_nat j)) = v.
Proof.
  intros Hv. assert (H : forallb (fun n => byte_of (fun j => Z.testbit (Z.of_nat n) (7 - Z.of_nat j)) =? Z.of_nat n) (seq 0 256) = true)
    by by vm_compute.
  unfold is_byte in Hv. pose proof (proj1 (forallb_forall _ _) H (Z.to_nat v)) as E. cbn beta in E.
  rewrite Z2Nat.id in E by lia. apply Z.eqb_eq, E, in_seq. lia.
Qed.

Lemma of_bits_eq b : of_bits b = map (fun k => byte_of (fun j => nth (8 * k + j) b false)) (seq 0 8).
Proof. reflexivity. Qed.

Lemma length_of_bits b : length (of_bits b) = 8%nat.
Proof. apply length_map. Qed.

Lemma of_bits_bytes b : Forall is_byte (of_bits b).
Proof. rewrite of_bits_eq. apply List.Forall_forall. intros x Hx. apply in_map_iff in Hx as (k & <- & _). apply byte_of_byte. Qed.

Lemma length_to_bits x : length (to_bits x) = 64%nat.
Proof. unfold to_bits. by rewrite length_map, length_seq. Qed.

Lemma nth_to_bits x i : (i < 64)%nat -> nth i (to_bits x) false = Z.testbit (nth (i / 8) x 0) (7 - Z.of_nat (i mod 8)).
Proof.
  intros Hi. unfold to_bits.
  rewrite (nth_map_nat (fun i => Z.testbit (nth (i / 8) x 0) (7 - Z.of_nat (i mod 8))) _ _ _ 0%nat) by by rewrite length_seq.
  by rewrite seq_nth.
Qed.

Lemma byte_position k j : (j < 8)%nat -> ((8 * k + j) / 8 = k /\ (8 * k + j) mod 8 = j)%nat.
Proof.
  intros Hj. rewrite Nat.mul_comm, Nat.div_add_l, Nat.div_small, Nat.add_0_r by lia.
  rewrite Nat.add_comm, Nat.Div0.mod_add, Nat.mod_small by lia. done.
Qed.

Lemma to_of_bits b : length b = 64%nat -> to_bits (of_bits b) = b.
Proof.
  intros Hb. apply (nth_ext _ _ false false); [by rewrite length_to_bits|].
  intros i Hi. rewrite length_to_bits in Hi. rewrite nth_to_bits by done.
  assert (Hk : (i / 8 < 8)%nat) by (apply Nat.Div0.div_lt_upper_bound; lia).
  assert (Hj : (i mod 8 < 8)%nat) by (apply Nat.mod_upper_bound; lia).
  rewrite of_bits_eq, (nth_map_nat (fun k => byte_of (fun j => nth (8 * k + j) b false)) _ _ _ 0%nat) by by rewrite length_seq.
  rewrite seq_nth, byte_of_bit by done. f_equal. rewrite (Nat.div_mod_eq i 8) at 3. done.
Qed.

Lemma of_to_bits x : length x = 8%nat -> Forall is_byte x -> of_bits (to_bits x) = x.
Proof.
  intros Hx Hb. apply (nth_ext _ _ 0 0); [by rewrite length_of_bits|].
  intros k Hk. rewrite length_of_bits in Hk.
  rewrite of_bits_eq, (nth_map_nat (fun k => byte_of (fun j => nth (8 * k + j) (to_bits x) false)) _ _ _ 0%nat) by by rewrite length_seq.
  rewrite seq_nth by done. cbn [Nat.add].
  transitivity (byte_of (fun j => Z.testbit (nth k x 0) (7 - Z.of_nat j))).
  - apply byte_of_ext. intros j Hj.
    destruct (byte_position k j) as [E1 E2]; [lia|]. rewrite nth_to_bits, E1, E2 by lia. done.
  - apply byte_of_testbit. apply List.Forall_forall with (x := nth k x 0) in Hb; [done|]. apply nth_In. lia.
Qed.

Lemma length_des x key forw : length (des_crypt56 x key forw) = 8%nat.
Proof. apply length_of_bits. Qed.

Lemma des_bytes x key forw : Forall is_byte (des_crypt56 x key forw).
Proof. apply of_bits_bytes. Qed.

Lemma des_inverse x key forw : length x = 8%nat -> Forall is_byte x ->
  des_crypt56 (des_crypt56 x key forw) key (negb forw) = x.
Proof.
  intros Hx Hb. unfold des_crypt56. rewrite to_of_bits by apply length_dohash.
  rewrite dohash_inverse by apply length_to_bits. by apply of_to_bits.
Qed.

(** ** Secrets under a session key *)

(** Where in the key a block starts to read. *)
Definition key_position (len k : Z) : Z := if len <? k + 7 then len - k else k.

Lemma key_position_ok len k : 7 <= len -> 0 <= k <= len -> (k = 0 \/ 7 <= k) ->
  0 <= key_position len k /\ key_position len k + 7 <= len.
Proof. intros H1 H2 H3. unfold key_position. destruct (Z.ltb_spec len (k + 7)); lia. Qed.

Lemma sess_block fuel b rest key k forward : length b = 8%nat -> 7 <= Z.of_nat (length key) ->
  0 <= k <= Z.of_nat (length key) -> (k = 0 \/ 7 <= k) ->
  let k' := key_position (Z.of_nat (length key)) k in
  sess_crypt_loop (S fuel) (b ++ rest) key k forward =
    rest' ← sess_crypt_loop fuel rest key (k' + 7) forward;
    Some (des_crypt56 b (take 7 (drop (Z.to_nat k') key)) forward ++ rest').
Proof.
  intros Hb Hlen Hk1 Hk2 k'. destruct (key_position_ok _ _ Hlen Hk1 Hk2) as [P1 P2].
  destruct b as [|c b]; [done|]. cbn [sess_crypt_loop app].
  change (c :: b ++ rest) with ((c :: b) ++ rest). rewrite take_app_length', drop_app_length', length_app, Hb by done.
  replace (8 - (8 + length rest))%nat with 0%nat by lia. cbn [replicate]. rewrite app_nil_r.
  fold (key_position (Z.of_nat (length key)) k). fold k'.
  rewrite (proj2 (Z.ltb_ge k' 0)), (proj2 (Z.ltb_ge _ (k' + 7))) by (unfold k'; lia). cbn [orb].
  destruct (sess_crypt_loop fuel rest key (k' + 7) forward); cbn [mbind option_bind]; [|done].
  by rewrite firstn_all2 by (rewrite length_des; lia).
Qed.

Lemma sess_roundtrip n fuel x key k : length x = (8 * n)%nat -> (n <= fuel)%nat -> Forall is_byte x ->
  7 <= Z.of_nat (length key) -> 0 <= k <= Z.of_nat (length key) -> (k = 0 \/ 7 <= k) ->
  exists c, sess_crypt_loop fuel x key k true = Some c /\ length c = length x /\ Forall is_byte c /\
    sess_crypt_loop fuel c key k false = Some x.
Proof.
  revert fuel x k. induction n as [|n IH]; intros fuel x k Hx Hf Hb Hlen Hk1 Hk2.
  { destruct x; [|cbn in Hx; lia]. exists []. by destruct fuel. }
  destruct fuel as [|fuel]; [lia|].
  assert (exists b rest, x = b ++ rest /\ length b = 8%nat) as (b & rest & -> & Lb)
    by (exists (take 8 x), (drop 8 x); rewrite take_drop, length_take_le by lia; done).
  rewrite length_app in Hx. apply Forall_app in Hb as [Hb Hrest].
  destruct (key_position_ok _ _ Hlen Hk1 Hk2) as [P1 P2].
  destruct (IH fuel rest (key_position (Z.of_nat (length key)) k + 7)) as (c & E1 & L & B & E2); try (done || lia).
  rewrite sess_block by done. cbv zeta. rewrite E1. cbn [mbind option_bind]. eexists. split; [done|]. split_and!.
  - rewrite !length_app, length_des. lia.
  - apply Forall_app. split; [apply des_bytes|done].
  - rewrite sess_block by (done || apply length_des). cbv zeta. rewrite E2. cbn [mbind option_bind].
    by rewrite (des_inverse b _ true).
Qed.

Lemma lsa_padded n : (exists m, 8 + n + lsa_padding n = 8 * m)%nat.
Proof.
  exists (1 + (n + 7) / 8)%nat. unfold lsa_padding. pose proof (Nat.div_mod_eq (n + 7) 8).
  pose proof (Nat.mod_upper_bound (n + 7) 8). lia.
Qed.

(** The data with its length in front, encrypted and decrypted. *)
Lemma lsa_secret x key : Z.of_nat (length x) < 2 ^ 31 -> Forall is_byte x -> 7 <= Z.of_nat (length key) ->
  let src := le_bytes 4 (Z.of_nat (length x)) ++ le_bytes 4 1 ++ x ++ replicate (lsa_padding (length x)) 0 in
  exists c, sess_crypt_blob src key true = Some c /\ sess_crypt_blob c key false = Some src /\
    length c = (8 + length x + lsa_padding (length x))%nat.
Proof.
  intros Hx Hb Hlen src. destruct (lsa_padded (length x)) as [m Hm].
  assert (Hs : length src = (8 + length x + lsa_padding (length x))%nat)
    by (unfold src; rewrite !length_app, !length_le_bytes, length_replicate; lia).
  destruct (sess_roundtrip m (length src) src key 0) as (c & E1 & L & B & E2); try lia.
  - apply Forall_app. split; [apply le_bytes_bytes|]. apply Forall_app. split; [apply le_bytes_bytes|].
    apply Forall_app. split; [done|]. apply Forall_replicate. unfold is_byte. lia.
  - exists c. unfold sess_crypt_blob. rewrite L. split_and!; congruence.
Qed.

Lemma lsa_fields n x pad : 0 <= n < 2 ^ 31 ->
  let out := le_bytes 4 n ++ le_bytes 4 1 ++ x ++ pad in
  le_value (take 4 (drop 4 out)) = 1 /\ i32 (le_value (take 4 out)) = n /\ drop 8 out = x ++ pad.
Proof.
  intros Hn out. unfold out. split_and!.
  - rewrite le_bytes_app_drop, le_bytes_app_take, le_value_bytes. reflexivity.
  - rewrite le_bytes_app_take, le_value_bytes, Z.mod_small by (cbn; lia). unfold i32. rewrite Z.mod_small; lia.
  - change 8%nat with (4 + 4)%nat. rewrite <- drop_drop, le_bytes_app_drop, le_bytes_app_drop. done.
Qed.

Lemma strndup_app s pad : 0 ∉ s -> strndup (length s) (s ++ pad) = s.
Proof.
  induction s as [|c s IH]; intros H; [done|]. apply not_elem_of_cons in H as [H1 H2]. cbn [length strndup app].
  rewrite (proj2 (Z.eqb_neq c 0)) by congruence. by rewrite IH.
Qed.

(** C25. Secrets that are sent under a session key arrive: what [sess_encrypt_blob]
    makes of some data is turned back into them by [sess_decrypt_blob], and the same
    holds for strings with [sess_encrypt_string] and [sess_decrypt_string], whatever
    the session key, if it has at least seven bytes. *)
Theorem session_secret_roundtrip x key :
  Z.of_nat (length x) < 2 ^ 31 -> Forall is_byte x -> 7 <= Z.of_nat (length key) ->
  exists c, sess_encrypt_blob x key = Some c /\ sess_decrypt_blob c key = Some (inr x) /\
    (0 ∉ x -> sess_encrypt_string x key = Some c /\ sess_decrypt_string c key = Some (Some x)).
Proof.
  intros Hx Hb Hlen. destruct (lsa_secret x key Hx Hb Hlen) as (c & E1 & E2 & L).
  destruct (lsa_fields (Z.of_nat (length x)) x (replicate (lsa_padding (length x)) 0)) as (F1 & F2 & F3); [lia|].
  exists c. unfold sess_encrypt_blob, sess_decrypt_blob, sess_encrypt_string, sess_decrypt_string.
  rewrite E1, E2, (proj2 (Nat.ltb_ge (length c) 8)) by lia. cbn [mbind option_bind].
  rewrite F1, F2, F3. cbn [negb Z.eqb]. change (Pos.eqb 1 1) with true. cbn [negb].
  rewrite (proj2 (Z.ltb_ge (Z.of_nat (length x)) 0)), (proj2 (Z.ltb_ge (_ - 8) _)) by lia. cbn [orb].
  rewrite Nat2Z.id. split_and!; [done|by rewrite take_app_length|].
  intros Hz. split; [done|]. by rewrite strndup_app.
Qed.

Lemma session_secret_roundtrip_witness : exists c,
  sess_encrypt_blob [115; 101; 99; 114; 101; 116] (replicate 16 7) = Some c /\
  sess_decrypt_blob c (replicate 16 7) = Some (inr [115; 101; 99; 114; 101; 116]) /\
  (0 ∉ [115; 101; 99; 114; 101; 116] ->
   sess_encrypt_string [115; 101; 99; 114; 101; 116] (replicate 16 7) = Some c /\
   sess_decrypt_string c (replicate 16 7) = Some (Some [115; 101; 99; 114; 101; 116])).
Proof.
  apply (session_secret_roundtrip [115; 101; 99; 114; 101; 116] (replicate 16 7)).
  - cbn. lia.
  - repeat (apply List.Forall_cons); try constructor; lia.
  - cbn. lia.
Defined.

(** Decrypting what a client sends reads nothing outside the key. *)
Lemma sess_total fuel x key k forward : 7 <= Z.of_nat (length key) ->
  0 <= k <= Z.of_nat (length key) -> (k = 0 \/ 7 <= k) -> exists c, sess_crypt_loop fuel x key k forward = Some c.
Proof.
  intros Hlen. revert x k. induction fuel as [|fuel IH]; intros x k Hk1 Hk2; [by eexists|].
  destruct x as [|b x]; [by eexists|]. cbn [sess_crypt_loop]. fold (key_position (Z.of_nat (length key)) k).
  destruct (key_position_ok _ _ Hlen Hk1 Hk2) as [P1 P2].
  rewrite (proj2 (Z.ltb_ge _ 0)), (proj2 (Z.ltb_ge _ (_ + 7))) by lia. cbn [orb].
  destruct (IH (drop 8 (b :: x)) (key_position (Z.of_nat (length key)) k + 7)) as [c ->]; [lia..|]. by eexists.
Qed.

(** ** Hashes *)

(** Two blocks with two keys. *)
Lemma two_blocks x k1 k2 forw : length x = 16%nat -> Forall is_byte x ->
  let y := des_crypt56 (take 8 x) k1 forw ++ des_crypt56 (drop 8 x) k2 forw in
  des_crypt56 (take 8 y) k1 (negb forw) ++ des_crypt56 (drop 8 y) k2 (negb forw) = x.
Proof.
  intros Hx Hb y. unfold y. rewrite take_app_length', drop_app_length' by by rewrite length_des.
  rewrite !des_inverse; [apply take_drop| | | |]; rewrite ?length_take, ?length_drop; try lia;
    [by apply Forall_drop|by apply Forall_take].
Qed.

Lemma to_bits_take x : to_bits (take 8 x) = to_bits x.
Proof.
  unfold to_bits. apply map_ext_in. intros i Hi. apply in_seq in Hi. f_equal.
  assert ((i / 8 < 8)%nat) by (apply Nat.Div0.div_lt_upper_bound; lia).
  rewrite <- (take_drop 8 x) at 2. destruct (decide (i / 8 < length (take 8 x))%nat).
  - by rewrite app_nth1.
  - rewrite length_take in *. rewrite (skipn_all2 (n := 8)) by lia. by rewrite app_nil_r.
Qed.

Lemma des_take x key forw : des_crypt56 (take 8 x) key forw = des_crypt56 x key forw.
Proof. unfold des_crypt56. by rewrite to_bits_take. Qed.

(** A password hash that is encrypted with the RID, or with the old hash, is decrypted
    again. *)
Lemma sam_rid_crypt_inverse rid x forw : length x = 16%nat -> Forall is_byte x ->
  sam_rid_crypt rid (sam_rid_crypt rid x forw) (negb forw) = x.
Proof.
  intros Hx Hb. unfold sam_rid_crypt. cbv zeta. set (s := [_; _; _; _; _; _; _; _; _; _; _; _; _; _]).
  rewrite <- (des_take x), <- (des_take (_ ++ _)). by apply two_blocks.
Qed.

Lemma des_crypt112_16_inverse key x forw : length x = 16%nat -> Forall is_byte x ->
  des_crypt112_16 (des_crypt112_16 x key forw) key (negb forw) = x.
Proof. intros Hx Hb. unfold des_crypt112_16. rewrite <- (des_take x), <- (des_take (_ ++ _)). by apply two_blocks. Qed.

Lemma old_pw_hash_inverse p14 x : length x = 16%nat -> Forall is_byte x -> D_P16 p14 (E_old_pw_hash p14 x) = x.
Proof. apply (des_crypt112_16_inverse p14 x true). Qed.

(** Different blocks are encrypted differently. *)
Lemma des_injective x y key forw : length x = 8%nat -> length y = 8%nat -> Forall is_byte x -> Forall is_byte y ->
  des_crypt56 x key forw = des_crypt56 y key forw -> x = y.
Proof. intros Hx Hy Bx By E. rewrite <- (des_inverse x key forw), <- (des_inverse y key forw) by done. by rewrite E. Qed.

Lemma des112_injective x y key forw : length x = 8%nat -> length y = 8%nat -> Forall is_byte x -> Forall is_byte y ->
  des_crypt112 x key forw = des_crypt112 y key forw -> x = y.
Proof.
  intros Hx Hy Bx By E. unfold des_crypt112 in E. apply des_injective in E; [|apply length_des|apply length_des|apply des_bytes|apply des_bytes].
  by apply des_injective in E.
Qed.

(** Answers from the standard and the hash of the empty password. *)
Lemma des_known_answers :
  des_crypt56 [0x01; 0x23; 0x45; 0x67; 0x89; 0xab; 0xcd; 0xef] [0x12; 0x69; 0x5b; 0xc9; 0xb7; 0xb7; 0xf8] true =
    [0x85; 0xe8; 0x13; 0x54; 0x0f; 0x0a; 0xb4; 0x05] /\
  E_P16 (replicate 14 0) = [0xaa; 0xd3; 0xb4; 0x35; 0xb5; 0x14; 0x04; 0xee; 0xaa; 0xd3; 0xb4; 0x35; 0xb5; 0x14; 0x04; 0xee].
Proof. split; by vm_compute. Qed.

(** ** Where the code does not do what it says *)

(** A session key of less than seven bytes is read past its end. *)
Lemma short_session_key_overread : sess_crypt_blob [1] (replicate 6 0) true = None.
Proof. reflexivity. Qed.

(** The direction does not reverse the order of the two keys, so the backward direction
    of [des_crypt112] and [des_crypt64] does not undo the forward one. *)
Lemma des_crypt112_not_undone :
  des_crypt112 (des_crypt112 (replicate 8 0) [1; 2; 3; 4; 5; 6; 7; 8; 9; 10; 11; 12; 13; 14] true)
    [1; 2; 3; 4; 5; 6; 7; 8; 9; 10; 11; 12; 13; 14] false <> replicate 8 0 /\
  des_crypt64 (des_crypt64 (replicate 8 0) [1; 2; 3; 4; 5; 6; 7; 8] true) [1; 2; 3; 4; 5; 6; 7; 8] false <> replicate 8 0.
Proof. split; by vm_compute. Qed.
