(* ===== verification/Netlogon.v ===== *)
(** * The credential chain of the netlogon channel

    libcli/auth/credentials.c: the session key, the chain of credentials with which
    client and server prove to each other that they know it, and the encryption of
    keys and passwords in logon requests, with lib/crypto/arcfour.c and the CFB8 mode of
    lib/crypto/aes.c. The block cipher AES and the hashes are arbitrary functions.
    libcli/auth/schannel_state_tdb.c: where the server keeps the chains. *)

From S2P Require Import Prelude.
From S2P Require Import CString.
From S2P Require Import DomSid.
From S2P Require Import Errmap.
From S2P Require Import Des.
From stdpp Require Import prelude list gmap.

#[local] Open Scope Z_scope.

Definition NETLOGON_NEG_ARCFOUR : Z := 0x00000004.
Definition NETLOGON_NEG_STRONG_KEYS : Z := 0x00004000.
Definition NETLOGON_NEG_SUPPORTS_AES : Z := 0x01000000.
Definition INT32_MAX : Z := 0x7FFFFFFF.

(** ** Ciphers *)

(** [aes_block key block] and the hashes, the keyed ones with the key first. *)
Record crypto := Crypto {
  aes_block : list Z -> list Z -> list Z;
  md5 : list Z -> list Z;
  hmac_md5 : list Z -> list Z -> list Z;
  hmac_sha256 : list Z -> list Z -> list Z
}.

(** The feedback register takes in the byte of cipher text. *)
Fixpoint AES_cfb8_encrypt (cr : crypto) (key : list Z) (input iv : list Z) (forward_encrypt : bool) : list Z :=
  match input with
  | [] => []
  | c :: input =>
      let o := Z.lxor c (nth 0 (aes_block cr key iv) 0) in
      o :: AES_cfb8_encrypt cr key input (drop 1 (iv ++ [if forward_encrypt then o else c])) forward_encrypt
  end.

Definition AES_BLOCK_SIZE : nat := 16.

Record arcfour_state := Arcfour_state { arc_sbox : list Z; index_i : Z; index_j : Z }.

Definition sbox_at (sbox : list Z) (i : Z) : Z := nth (Z.to_nat i) sbox 0.
Definition swap (sbox : list Z) (i j : Z) : list Z :=
  let tc := sbox_at sbox i in
  <[Z.to_nat j := tc]> (<[Z.to_nat i := sbox_at sbox j]> sbox).

(** [n] steps of the second loop, from [ind] on. *)
Fixpoint arcfour_mix (n : nat) (ind : Z) (key : list Z) (j : Z) (sbox : list Z) : list Z :=
  match n with
  | O => sbox
  | S n =>
      let j := u8 (j + (sbox_at sbox ind + nth (Z.to_nat ind mod length key) key 0)) in
      arcfour_mix n (ind + 1) key j (swap sbox ind j)
  end.

(** [None] for an empty key: the remainder by its length. *)
Definition arcfour_init (key : list Z) : option arcfour_state :=
  match key with
  | [] => None
  | _ => Some (Arcfour_state (arcfour_mix 256 0 key 0 (Z.of_nat <$> seq 0 256)) 0 0)
  end.

Fixpoint arcfour_crypt_sbox (state : arcfour_state) (data : list Z) : list Z :=
  match data with
  | [] => []
  | c :: data =>
      let i := u8 (index_i state + 1) in
      let j := u8 (index_j state + sbox_at (arc_sbox state) i) in
      let sbox := swap (arc_sbox state) i j in
      let t := u8 (sbox_at sbox i + sbox_at sbox j) in
      Z.lxor c (sbox_at sbox t) :: arcfour_crypt_sbox (Arcfour_state sbox i j) data
  end.

Definition arcfour_crypt_blob (data key : list Z) : option (list Z) :=
  state ← arcfour_init key;
  Some (arcfour_crypt_sbox state data).

(** ** The state *)

Record netlogon_creds := Netlogon_creds {
  negotiate_flags : Z;
  session_key : list Z;
  nc_sequence : Z;
  nc_seed : list Z;
  nc_client : list Z;
  nc_server : list Z;
  secure_channel_type : Z;
  computer_name : list Z;
  account_name : list Z;
  nc_sid : option dom_sid
}.

Record netr_Authenticator := Authenticator { auth_cred : list Z; auth_timestamp : Z }.

Definition set_chain (c : netlogon_creds) (sequence : Z) (seed client server : list Z) : netlogon_creds :=
  Netlogon_creds (negotiate_flags c) (session_key c) sequence seed client server (secure_channel_type c)
    (computer_name c) (account_name c) (nc_sid c).

Definition step_crypt (cr : crypto) (flags : Z) (key input : list Z) : list Z :=
  if has_bits flags NETLOGON_NEG_SUPPORTS_AES
  then AES_cfb8_encrypt cr key (take 8 input) (replicate AES_BLOCK_SIZE 0) true
  else des_crypt112 input key true.

Definition netlogon_creds_step_crypt (cr : crypto) (creds : netlogon_creds) (input : list Z) : list Z :=
  step_crypt cr (negotiate_flags creds) (session_key creds) input.

(** [IVAL(data, ofs)]. *)
Definition cred_word (data : list Z) (ofs : nat) : Z := le_value (take 4 (drop ofs data)).

(** ** Session keys *)

Definition netlogon_creds_init_64bit (client_challenge server_challenge machine_password : list Z) : list Z :=
  let sum0 := u32 (cred_word client_challenge 0 + cred_word server_challenge 0) in
  let sum1 := u32 (cred_word client_challenge 4 + cred_word server_challenge 4) in
  des_crypt128 (le_bytes 4 sum0 ++ le_bytes 4 sum1) machine_password ++ replicate 8 0.

Definition netlogon_creds_init_128bit (cr : crypto) (client_challenge server_challenge machine_password : list Z)
    : list Z :=
  hmac_md5 cr machine_password (md5 cr (replicate 4 0 ++ take 8 client_challenge ++ take 8 server_challenge)).

Definition netlogon_creds_init_hmac_sha256 (cr : crypto) (client_challenge server_challenge machine_password : list Z)
    : list Z :=
  take 16 (hmac_sha256 cr machine_password (take 8 client_challenge ++ take 8 server_challenge)).

Definition new_session_key (cr : crypto) (flags : Z) (client_challenge server_challenge machine_password : list Z)
    : list Z :=
  if has_bits flags NETLOGON_NEG_SUPPORTS_AES
  then netlogon_creds_init_hmac_sha256 cr client_challenge server_challenge machine_password
  else if has_bits flags NETLOGON_NEG_STRONG_KEYS
  then netlogon_creds_init_128bit cr client_challenge server_challenge machine_password
  else netlogon_creds_init_64bit client_challenge server_challenge machine_password.

(** ** The chain *)

Definition netlogon_creds_first_step (cr : crypto) (creds : netlogon_creds)
    (client_challenge server_challenge : list Z) : netlogon_creds :=
  let client := netlogon_creds_step_crypt cr creds client_challenge in
  let server := netlogon_creds_step_crypt cr creds server_challenge in
  set_chain creds (nc_sequence creds) client client server.

(** The seed with a number added to its first word. *)
Definition time_cred (seed : list Z) (n : Z) : list Z :=
  le_bytes 4 (cred_word seed 0 + n) ++ le_bytes 4 (cred_word seed 4).

Definition netlogon_creds_step (cr : crypto) (creds : netlogon_creds) : netlogon_creds :=
  let client := netlogon_creds_step_crypt cr creds (time_cred (nc_seed creds) (nc_sequence creds)) in
  let next := time_cred (nc_seed creds) (nc_sequence creds + 1) in
  let server := netlogon_creds_step_crypt cr creds next in
  set_chain creds (nc_sequence creds) next client server.

(** [time] is the clock. The first credential is the client's. *)
Definition netlogon_creds_client_init (cr : crypto) (time : Z) (client_account client_computer_name : list Z)
    (secure_channel_type : Z) (client_challenge server_challenge machine_password : list Z) (flags : Z)
    : netlogon_creds * list Z :=
  let key := new_session_key cr flags client_challenge server_challenge machine_password in
  let creds := Netlogon_creds flags key (u32 time) (replicate 8 0) (replicate 8 0) (replicate 8 0) secure_channel_type
                 client_computer_name client_account None in
  let creds := netlogon_creds_first_step cr creds client_challenge server_challenge in
  (creds, nc_client creds).

Definition netlogon_creds_client_authenticator (cr : crypto) (time : Z) (creds : netlogon_creds)
    : netlogon_creds * netr_Authenticator :=
  let t32n := u32 time in
  let sequence := u32 (nc_sequence creds + 2) in
  let sequence :=
    if sequence <? t32n then t32n
    else if INT32_MAX <=? u32 (sequence - t32n) then t32n else sequence in
  let creds := netlogon_creds_step cr
    (set_chain creds sequence (nc_seed creds) (nc_client creds) (nc_server creds)) in
  (creds, Authenticator (nc_client creds) (nc_sequence creds)).

(** [memcmp] of eight bytes. *)
Definition same_credential (a b : list Z) : bool := bool_decide (take 8 a = take 8 b).

Definition netlogon_creds_client_check (creds : netlogon_creds) (received : option (list Z)) : bool :=
  match received with
  | None => false
  | Some r => same_credential r (nc_server creds)
  end.

Definition netlogon_creds_server_check_internal (creds : netlogon_creds) (received : list Z) : bool :=
  same_credential received (nc_client creds).

(** [None] where the client's first credential is wrong. *)
Definition netlogon_creds_server_init (cr : crypto) (client_account client_computer_name : list Z)
    (secure_channel_type : Z) (client_challenge server_challenge machine_password credentials_in : list Z) (flags : Z)
    : option (netlogon_creds * list Z) :=
  let key := new_session_key cr flags client_challenge server_challenge machine_password in
  let creds := Netlogon_creds flags key 0 (replicate 8 0) (replicate 8 0) (replicate 8 0) secure_channel_type
                 client_computer_name client_account None in
  let creds := netlogon_creds_first_step cr creds client_challenge server_challenge in
  if negb (netlogon_creds_server_check_internal creds credentials_in) then None
  else Some (creds, nc_server creds).

(** The status, the state afterwards and the authenticator to return, if the call gives
    a place for it. *)
Definition netlogon_creds_server_step_check (cr : crypto) (creds : option netlogon_creds)
    (received : option netr_Authenticator) (has_return : bool)
    : NTSTATUS * option netlogon_creds * option netr_Authenticator :=
  match received with
  | None => (NT_STATUS_INVALID_PARAMETER, creds, None)
  | Some received =>
      if negb has_return then (NT_STATUS_INVALID_PARAMETER, creds, None)
      else
        match creds with
        | None => (NT_STATUS_ACCESS_DENIED, None, None)
        | Some c =>
            let c := netlogon_creds_step cr
              (set_chain c (u32 (auth_timestamp received)) (nc_seed c) (nc_client c) (nc_server c)) in
            if netlogon_creds_server_check_internal c (auth_cred received)
            then (NT_STATUS_OK, Some c, Some (Authenticator (nc_server c) 0))
            else (NT_STATUS_ACCESS_DENIED, Some c, Some (Authenticator (replicate 8 0) 0))
        end
  end.

(** ** Keys and passwords in logon requests *)

Definition netlogon_creds_aes_encrypt (cr : crypto) (creds : netlogon_creds) (data : list Z) : list Z :=
  AES_cfb8_encrypt cr (session_key creds) data (replicate AES_BLOCK_SIZE 0) true.
Definition netlogon_creds_aes_decrypt (cr : crypto) (creds : netlogon_creds) (data : list Z) : list Z :=
  AES_cfb8_encrypt cr (session_key creds) data (replicate AES_BLOCK_SIZE 0) false.

Definition netlogon_creds_arcfour_crypt (creds : netlogon_creds) (data : list Z) : option (list Z) :=
  arcfour_crypt_blob data (take 16 (session_key creds)).

Definition netlogon_creds_des_encrypt_LMKey (creds : netlogon_creds) (key : list Z) : list Z :=
  des_crypt56 key (session_key creds) true.
Definition netlogon_creds_des_decrypt_LMKey (creds : netlogon_creds) (key : list Z) : list Z :=
  des_crypt56 key (session_key creds) false.
Definition netlogon_creds_des_encrypt (creds : netlogon_creds) (pass : list Z) : list Z :=
  des_crypt112_16 pass (session_key creds) true.
Definition netlogon_creds_des_decrypt (creds : netlogon_creds) (pass : list Z) : list Z :=
  des_crypt112_16 pass (session_key creds) false.

Definition all_zero (data : list Z) : bool := forallb (fun b => b =? 0) data.

(** A key or a hash of zeros is left as it is. *)
Definition unless_zero (crypt : list Z -> option (list Z)) (data : list Z) : option (list Z) :=
  if negb (all_zero data) then crypt data else Some data.

Definition aes_crypt (cr : crypto) (creds : netlogon_creds) (do_encrypt : bool) (data : list Z) : option (list Z) :=
  Some (if do_encrypt then netlogon_creds_aes_encrypt cr creds data else netlogon_creds_aes_decrypt cr creds data).
Definition des_LMKey_crypt (creds : netlogon_creds) (do_encrypt : bool) (data : list Z) : option (list Z) :=
  Some (if do_encrypt then netlogon_creds_des_encrypt_LMKey creds data else netlogon_creds_des_decrypt_LMKey creds data).
Definition des_crypt (creds : netlogon_creds) (do_encrypt : bool) (data : list Z) : option (list Z) :=
  Some (if do_encrypt then netlogon_creds_des_encrypt creds data else netlogon_creds_des_decrypt creds data).

(** The keys of [netr_SamBaseInfo]; [None] where a pointer to it is NULL. *)
Record sam_keys := Sam_keys { base_key : list Z; LMSessKey : list Z }.

Definition netlogon_creds_crypt_samlogon_validation (cr : crypto) (creds : netlogon_creds) (validation_level : Z)
    (validation : option sam_keys) (do_encrypt : bool) : option (option sam_keys) :=
  match validation with
  | None => Some None
  | Some base =>
      if negb ((validation_level =? 2) || (validation_level =? 3) || (validation_level =? 6)) then Some (Some base)
      else if validation_level =? 6 then Some (Some base)
      else if has_bits (negotiate_flags creds) NETLOGON_NEG_SUPPORTS_AES then
        key ← unless_zero (aes_crypt cr creds do_encrypt) (base_key base);
        lm ← unless_zero (aes_crypt cr creds do_encrypt) (LMSessKey base);
        Some (Some (Sam_keys key lm))
      else if has_bits (negotiate_flags creds) NETLOGON_NEG_ARCFOUR then
        key ← unless_zero (netlogon_creds_arcfour_crypt creds) (base_key base);
        lm ← unless_zero (netlogon_creds_arcfour_crypt creds) (LMSessKey base);
        Some (Some (Sam_keys key lm))
      else
        lm ← unless_zero (des_LMKey_crypt creds do_encrypt) (LMSessKey base);
        Some (Some (Sam_keys (base_key base) lm))
  end.

Inductive netr_LogonInfoClass :=
  | NetlogonInteractiveInformation | NetlogonNetworkInformation | NetlogonServiceInformation
  | NetlogonGenericInformation | NetlogonInteractiveTransitiveInformation
  | NetlogonNetworkTransitiveInformation | NetlogonServiceTransitiveInformation.

(** The members of the union that are changed; the level selects one. *)
Record netr_LogonLevel := Logon_level {
  logon_password : option (list Z * list Z);
  logon_generic : option (list Z)
}.

Definition crypt_passwords (crypt : list Z -> option (list Z)) (logon : netr_LogonLevel) (lm nt : list Z)
    : option netr_LogonLevel :=
  lm ← unless_zero crypt lm;
  nt ← unless_zero crypt nt;
  Some (Logon_level (Some (lm, nt)) (logon_generic logon)).

Definition netlogon_creds_crypt_samlogon_logon (cr : crypto) (creds : netlogon_creds) (level : netr_LogonInfoClass)
    (logon : option netr_LogonLevel) (do_encrypt : bool) : option (option netr_LogonLevel) :=
  match logon with
  | None => Some None
  | Some logon =>
      match level with
      | NetlogonInteractiveInformation | NetlogonInteractiveTransitiveInformation
      | NetlogonServiceInformation | NetlogonServiceTransitiveInformation =>
          match logon_password logon with
          | None => Some (Some logon)
          | Some (lm, nt) =>
              Some <$>
              (if has_bits (negotiate_flags creds) NETLOGON_NEG_SUPPORTS_AES
               then crypt_passwords (aes_crypt cr creds do_encrypt) logon lm nt
               else if has_bits (negotiate_flags creds) NETLOGON_NEG_ARCFOUR
               then crypt_passwords (netlogon_creds_arcfour_crypt creds) logon lm nt
               else crypt_passwords (des_crypt creds do_encrypt) logon lm nt)
          end
      | NetlogonNetworkInformation | NetlogonNetworkTransitiveInformation => Some (Some logon)
      | NetlogonGenericInformation =>
          match logon_generic logon with
          | None => Some (Some logon)
          | Some data =>
              data ← (if has_bits (negotiate_flags creds) NETLOGON_NEG_SUPPORTS_AES
                      then aes_crypt cr creds do_encrypt data
                      else if has_bits (negotiate_flags creds) NETLOGON_NEG_ARCFOUR
                      then netlogon_creds_arcfour_crypt creds data
                      else Some data);
              Some (Some (Logon_level (logon_password logon) (Some data)))
          end
      end
  end.

(** ** The server's store *)

Definition STATUS_BUFFER_OVERFLOW : NTSTATUS := 0x80000005.

Record netlogon_cache_entry := Cache_entry {
  ce_computer_name : list Z;
  ce_server_challenge : list Z;
  ce_client_challenge : list Z
}.

(** The generated marshalling (an error is a status), upper case, the hash of tdb, and
    the outcome of writing to the database. *)
Record schannel_env := Schannel_env {
  push_creds : netlogon_creds -> NTSTATUS + list Z;
  pull_creds : list Z -> NTSTATUS + netlogon_creds;
  push_entry : netlogon_cache_entry -> option (list Z);
  pull_entry : list Z -> NTSTATUS + netlogon_cache_entry;
  strupper : list Z -> list Z;
  tdb_jenkins_hash : list Z -> Z;
  store_status : NTSTATUS
}.

Abbreviation schannel_db := (gmap (list Z) (list Z)).

(** "SECRETS/SCHANNEL/" and the name. *)
Definition session_keystr (env : schannel_env) (name : list Z) : list Z :=
  [83; 69; 67; 82; 69; 84; 83; 47; 83; 67; 72; 65; 78; 78; 69; 76; 47] ++ strupper env name.

Definition dbwrap_store (env : schannel_env) (db : schannel_db) (key value : list Z) : NTSTATUS * schannel_db :=
  if NT_STATUS_IS_OK (store_status env) then (NT_STATUS_OK, <[key := value]> db) else (store_status env, db).

Definition schannel_store_session_key_tdb (env : schannel_env) (db : schannel_db) (creds : netlogon_creds)
    : NTSTATUS * schannel_db :=
  if (15 <? length (computer_name creds))%nat then (STATUS_BUFFER_OVERFLOW, db)
  else
    match push_creds env creds with
    | inl status => (status, db)
    | inr blob => dbwrap_store env db (session_keystr env (computer_name creds)) blob
    end.

Definition schannel_fetch_session_key_tdb (env : schannel_env) (db : schannel_db) (name : list Z)
    : NTSTATUS + netlogon_creds :=
  match db !! session_keystr env name with
  | None => inl NT_STATUS_NOT_FOUND
  | Some value => pull_creds env value
  end.

(** The status, the database, the authenticator to return and the credentials. *)
Definition schannel_check_creds_state (cr : crypto) (env : schannel_env) (db : schannel_db) (name : list Z)
    (received : option netr_Authenticator) (has_return : bool)
    : NTSTATUS * schannel_db * option netr_Authenticator * option netlogon_creds :=
  match schannel_fetch_session_key_tdb env db name with
  | inl status => (status, db, None, None)
  | inr creds =>
      match netlogon_creds_server_step_check cr (Some creds) received has_return with
      | (status, Some creds, ret) =>
          if negb (NT_STATUS_IS_OK status) then (status, db, ret, None)
          else
            let '(status, db) := schannel_store_session_key_tdb env db creds in
            if negb (NT_STATUS_IS_OK status) then (status, db, ret, None) else (NT_STATUS_OK, db, ret, Some creds)
      | (status, None, ret) => (status, db, ret, None)
      end
  end.

(** "CHALLENGE/" and the two numbers. The shift is done before the mask. *)
Definition hash_computer_name (env : schannel_env) (name : list Z) : list Z :=
  let hash := tdb_jenkins_hash env name in
  take 14 ([67; 72; 65; 76; 76; 69; 78; 71; 69; 47] ++ print_hex (Z.land hash 0xFF) ++
           print_hex (Z.land (Z.land hash (Z.shiftr 0xFF00 8)) 0x3F)).

Definition schannel_store_challenge_tdb (env : schannel_env) (db : schannel_db) (client_challenge server_challenge name : list Z)
    : NTSTATUS * schannel_db :=
  if (255 <? length name)%nat then (STATUS_BUFFER_OVERFLOW, db)
  else
    let name_upper := strupper env name in
    match push_entry env (Cache_entry name_upper server_challenge client_challenge) with
    | None => (NT_STATUS_UNSUCCESSFUL, db)
    | Some blob => dbwrap_store env db (hash_computer_name env name_upper) blob
    end.

(** The client's and the server's challenge. *)
Definition schannel_fetch_challenge_tdb (env : schannel_env) (db : schannel_db) (name : list Z)
    : NTSTATUS + list Z * list Z :=
  let name_upper := strupper env name in
  match db !! hash_computer_name env name_upper with
  | None => inl NT_STATUS_NOT_FOUND
  | Some value =>
      match pull_entry env value with
      | inl status => inl status
      | inr entry =>
          if bool_decide (ce_computer_name entry = name_upper)
          then inr (ce_client_challenge entry, ce_server_challenge entry) else inl NT_STATUS_NOT_FOUND
      end
  end.

Definition schannel_delete_challenge (env : schannel_env) (db : schannel_db) (name : list Z) : schannel_db :=
  delete (hash_computer_name env (strupper env name)) db.
