(* ===== verification/NetlogonProps.v ===== *)
(** * The netlogon channel stays in step and refuses replays

    Properties of libcli/auth/credentials.c and schannel_state_tdb.c: client and server
    follow the same chain, an authenticator is accepted once, secrets in logon requests
    are read back, and the cases in which this fails. *)

From S2P Require Import Prelude.
From S2P Require Import CString.
From S2P Require Import DomSid.
From S2P Require Import Errmap.
From S2P Require Import Des.
From S2P Require Import DesProps.
From S2P Require Import Netlogon.
From stdpp Require Import prelude list gmap.

#[local] Open Scope Z_scope.

(** ** Ciphers *)

Lemma length_cfb8 cr key x iv forward : length (AES_cfb8_encrypt cr key x iv forward) = length x.
Proof. revert iv. induction x as [|c x IH]; intros iv; [done|]. cbn. by rewrite IH. Qed.

(** CFB8 is undone whatever the block cipher does. *)
Lemma cfb8_inverse cr key x iv : AES_cfb8_encrypt cr key (AES_cfb8_encrypt cr key x iv true) iv false = x.
Proof.
  revert iv. induction x as [|c x IH]; intros iv; [done|]. cbn [AES_cfb8_encrypt].
  set (k := nth 0 (aes_block cr key iv) 0). rewrite Z.lxor_assoc, Z.lxor_nilpotent, Z.lxor_0_r. f_equal. apply IH.
Qed.

Lemma cfb8_injective cr key x y iv :
  AES_cfb8_encrypt cr key x iv true = AES_cfb8_encrypt cr key y iv true -> x = y.
Proof. intros E. rewrite <- (cfb8_inverse cr key x iv), <- (cfb8_inverse cr key y iv). by rewrite E. Qed.

(** The key stream of arcfour does not depend on the data. *)
Lemma arcfour_inverse state x : arcfour_crypt_sbox state (arcfour_crypt_sbox state x) = x.
Proof.
  revert state. induction x as [|c x IH]; intros state; [done|]. cbn [arcfour_crypt_sbox].
  rewrite Z.lxor_assoc, Z.lxor_nilpotent, Z.lxor_0_r. f_equal. apply IH.
Qed.

Lemma length_step_crypt cr flags key x : length x = 8%nat -> length (step_crypt cr flags key x) = 8%nat.
Proof.
  intros H. unfold step_crypt. destruct (has_bits _ _); [by rewrite length_cfb8, length_take, H|]. apply length_des.
Qed.

Lemma step_crypt_injective cr flags key x y : length x = 8%nat -> length y = 8%nat -> Forall is_byte x -> Forall is_byte y ->
  step_crypt cr flags key x = step_crypt cr flags key y -> x = y.
Proof.
  intros Hx Hy Bx By. unfold step_crypt. destruct (has_bits _ _).
  - rewrite !firstn_all2 by lia. apply cfb8_injective.
  - by apply des112_injective.
Qed.

(** ** The chain *)

Lemma length_time_cred seed n : length (time_cred seed n) = 8%nat.
Proof. unfold time_cred. by rewrite length_app, !length_le_bytes. Qed.

Lemma time_cred_bytes seed n : Forall is_byte (time_cred seed n).
Proof. apply Forall_app. split; apply le_bytes_bytes. Qed.

Lemma u32_idem n : u32 (u32 n) = u32 n.
Proof. unfold u32. by rewrite Z.mod_mod. Qed.

(** Client and server have the same key and are at the same place of the chain. *)
Definition in_step (c s : netlogon_creds) : Prop :=
  negotiate_flags c = negotiate_flags s /\ session_key c = session_key s /\ nc_seed c = nc_seed s.

Lemma same_credential_refl x : same_credential x x = true.
Proof. by apply bool_decide_eq_true_2. Qed.

Lemma call_in_step cr t c s : in_step c s ->
  let '(c', auth) := netlogon_creds_client_authenticator cr t c in
  exists s' ret, netlogon_creds_server_step_check cr (Some s) (Some auth) true = (NT_STATUS_OK, Some s', Some ret) /\
    in_step c' s' /\ netlogon_creds_client_check c' (Some (auth_cred ret)) = true.
Proof.
  intros (Hf & Hk & Hs). unfold netlogon_creds_client_authenticator. cbv zeta.
  match goal with |- context [set_chain c ?n] => set (q := n) end.
  assert (Hq : u32 q = q) by (unfold q; repeat case_match; apply u32_idem). clearbody q.
  unfold netlogon_creds_server_step_check. cbn [negb auth_timestamp auth_cred netlogon_creds_step set_chain nc_sequence nc_client].
  rewrite Hq. unfold netlogon_creds_server_check_internal.
  cbn [netlogon_creds_step set_chain nc_sequence nc_client nc_seed nc_server].
  unfold netlogon_creds_step_crypt. cbn [set_chain negotiate_flags session_key]. rewrite Hf, Hk, Hs, same_credential_refl.
  do 2 eexists. split; [done|]. split; [done|]. cbn. unfold netlogon_creds_step_crypt. cbn. rewrite Hf, Hk. apply same_credential_refl.
Qed.

(** Calls at the given times, each with the client's authenticator and the server's answer. *)
Fixpoint calls_succeed (cr : crypto) (times : list Z) (c s : netlogon_creds) : bool :=
  match times with
  | [] => true
  | t :: times =>
      let '(c, auth) := netlogon_creds_client_authenticator cr t c in
      match netlogon_creds_server_step_check cr (Some s) (Some auth) true with
      | (status, Some s, Some ret) =>
          NT_STATUS_IS_OK status && netlogon_creds_client_check c (Some (auth_cred ret)) && calls_succeed cr times c s
      | _ => false
      end
  end.

Lemma calls_in_step cr times c s : in_step c s -> calls_succeed cr times c s = true.
Proof.
  revert c s. induction times as [|t times IH]; intros c s H; [done|]. cbn [calls_succeed].
  pose proof (call_in_step cr t c s H) as E. destruct (netlogon_creds_client_authenticator cr t c) as [c' auth].
  destruct E as (s' & ret & -> & H' & ->). by rewrite IH.
Qed.

(** C12. Client and server that know the same password stay in step: the server accepts the
    first credential of the client and the client the server's, and then every call is
    accepted by the server, and its answer by the client, for any flags, challenges and
    number of calls and however the clock of the client moves. *)
Theorem netlogon_chain_in_step cr account computer type client_challenge server_challenge password flags time times :
  let '(c, first) := netlogon_creds_client_init cr time account computer type client_challenge server_challenge password flags in
  exists s out,
    netlogon_creds_server_init cr account computer type client_challenge server_challenge password first flags = Some (s, out) /\
    netlogon_creds_client_check c (Some out) = true /\ calls_succeed cr times c s = true.
Proof.
  unfold netlogon_creds_client_init, netlogon_creds_server_init, netlogon_creds_server_check_internal.
  unfold netlogon_creds_first_step, netlogon_creds_step_crypt.
  cbn [nc_client nc_server set_chain negotiate_flags session_key]. rewrite same_credential_refl. cbn [negb].
  do 2 eexists. split; [done|]. split; [apply same_credential_refl|]. by apply calls_in_step.
Qed.

(** ** Replay *)

Lemma le_bytes_mod n z z' : le_bytes n z = le_bytes n z' <-> z mod 256 ^ Z.of_nat n = z' mod 256 ^ Z.of_nat n.
Proof.
  split; intros E; [by rewrite <- !le_value_bytes, E|].
  rewrite <- !le_value_bytes in E.
  assert (H : forall v, le_bytes n (le_value (le_bytes n v)) = le_bytes n v).
  { intros v. pose proof (le_bytes_value (le_bytes n v) (le_bytes_bytes n v)) as L. by rewrite length_le_bytes in L. }
  by rewrite <- (H z), E, H.
Qed.

Lemma cred_word_time_cred_0 seed n : cred_word (time_cred seed n) 0 = (cred_word seed 0 + n) mod 2 ^ 32.
Proof.
  unfold cred_word at 1, time_cred. rewrite drop_0, le_bytes_app_take, le_value_bytes. reflexivity.
Qed.

(** The block expected after a step differs from the one of that step. *)
Lemma next_block seed n : u32 n <> 0xFFFFFFFF -> time_cred (time_cred seed (u32 n + 1)) (u32 n) <> time_cred seed (u32 n).
Proof.
  intros Hn E. apply (f_equal (take 4)) in E. unfold time_cred at 1 3 in E.
  rewrite !le_bytes_app_take, le_bytes_mod, cred_word_time_cred_0 in E. change (256 ^ Z.of_nat 4) with (2 ^ 32) in E.
  revert E Hn. unfold u32. assert (B : 0 <= n mod 2 ^ 32 < 2 ^ 32) by (apply Z.mod_pos_bound; lia).
  generalize dependent (n mod 2 ^ 32). generalize (cred_word seed 0). intros w k Hk E Hn.
  rewrite Z.add_mod_idemp_l in E by lia. zify. Z.to_euclidean_division_equations. lia.
Qed.

(** What an accepted authenticator is, and the chain after it. *)
Lemma server_step_accepts cr s a has_return c' ret :
  netlogon_creds_server_step_check cr (Some s) (Some a) has_return = (NT_STATUS_OK, Some c', ret) ->
  take 8 (auth_cred a) = step_crypt cr (negotiate_flags s) (session_key s) (time_cred (nc_seed s) (u32 (auth_timestamp a))) /\
  negotiate_flags c' = negotiate_flags s /\ session_key c' = session_key s /\
  nc_seed c' = time_cred (nc_seed s) (u32 (auth_timestamp a) + 1) /\ computer_name c' = computer_name s.
Proof.
  unfold netlogon_creds_server_step_check, netlogon_creds_server_check_internal. destruct has_return; [|done]. cbn [negb].
  destruct (same_credential _ _) eqn:E; [|done]. intros [= <- <-]. split; [|done].
  apply bool_decide_eq_true_1 in E. cbn in E. rewrite E. apply firstn_all2.
  unfold netlogon_creds_step_crypt. cbn [negotiate_flags session_key set_chain].
  rewrite length_step_crypt; [lia|apply length_time_cred].
Qed.

(** The same authenticator is not accepted at the next place of the chain. *)
Lemma replay_refused cr s s' a has_return ret : u32 (auth_timestamp a) <> 0xFFFFFFFF ->
  netlogon_creds_server_step_check cr (Some s) (Some a) has_return = (NT_STATUS_OK, Some s', ret) ->
  exists s'' ret', netlogon_creds_server_step_check cr (Some s') (Some a) true = (NT_STATUS_ACCESS_DENIED, Some s'', ret').
Proof.
  intros Ht H. apply server_step_accepts in H as (E & Hf & Hk & Hs & _).
  destruct (netlogon_creds_server_step_check cr (Some s') (Some a) true) as [[st c] r] eqn:R.
  pose proof R as R'. unfold netlogon_creds_server_step_check in R'. cbn [negb] in R'.
  destruct (netlogon_creds_server_check_internal _ _); injection R' as <- <- <-; [|by do 2 eexists].
  exfalso. apply server_step_accepts in R as (E' & _). rewrite E, Hf, Hk, Hs in E'.
  eapply (next_block (nc_seed s) (auth_timestamp a) Ht). symmetry.
  apply (step_crypt_injective cr (negotiate_flags s) (session_key s));
    [apply length_time_cred|apply length_time_cred|apply time_cred_bytes|apply time_cred_bytes|done].
Qed.

(** With the timestamp 0xFFFFFFFF the seed does not move on: the same authenticator is
    accepted again. *)
Lemma cred_word_time_cred_4 seed n : cred_word (time_cred seed n) 4 = cred_word seed 4 mod 2 ^ 32.
Proof.
  unfold cred_word at 1, time_cred. rewrite drop_app_length' by (by rewrite length_le_bytes).
  by rewrite firstn_all2, le_value_bytes by (by rewrite length_le_bytes).
Qed.

Lemma top_block seed n : u32 n = 0xFFFFFFFF -> time_cred (time_cred seed (u32 n + 1)) (u32 n) = time_cred seed (u32 n).
Proof.
  intros ->. unfold time_cred at 1 3.
  rewrite cred_word_time_cred_0, cred_word_time_cred_4. change (2 ^ 32) with (256 ^ Z.of_nat 4).
  f_equal; apply le_bytes_mod; change (256 ^ Z.of_nat 4) with (2 ^ 32).
  - rewrite Z.add_mod_idemp_l by lia. zify. Z.to_euclidean_division_equations. lia.
  - by rewrite Z.mod_mod.
Qed.

Lemma replay_at_top_accepted cr s s' a has_return ret : u32 (auth_timestamp a) = 0xFFFFFFFF ->
  netlogon_creds_server_step_check cr (Some s) (Some a) has_return = (NT_STATUS_OK, Some s', ret) ->
  exists s'' ret', netlogon_creds_server_step_check cr (Some s') (Some a) true = (NT_STATUS_OK, Some s'', ret').
Proof.
  intros Ht H. apply server_step_accepts in H as (E & Hf & Hk & Hs & _).
  unfold netlogon_creds_server_step_check, netlogon_creds_server_check_internal. cbn [negb].
  match goal with |- context [same_credential ?x ?y] => assert (same_credential x y = true) as ->; [|by do 2 eexists] end.
  apply bool_decide_eq_true_2.
  rewrite E. cbn [nc_client netlogon_creds_step set_chain nc_seed nc_sequence].
  unfold netlogon_creds_step_crypt. cbn [negotiate_flags session_key set_chain].
  rewrite Hf, Hk, Hs, top_block by done. symmetry. apply firstn_all2.
  rewrite length_step_crypt; [lia|apply length_time_cred].
Qed.

(** The generated marshalling reads back what it wrote, and an error of it is one. *)
Class schannel_laws (env : schannel_env) := {
  pull_push_creds c blob : push_creds env c = inr blob -> pull_creds env blob = inr c;
  push_creds_error c status : push_creds env c = inl status -> NT_STATUS_IS_OK status = false;
  pull_push_entry e blob : push_entry env e = Some blob -> pull_entry env blob = inr e
}.

(** A request that is not accepted leaves the store as it was. *)
Lemma refused_keeps_store cr env db name received has_return status db' ret creds :
  schannel_check_creds_state cr env db name received has_return = (status, db', ret, creds) ->
  status <> NT_STATUS_OK -> db' = db.
Proof.
  unfold schannel_check_creds_state, schannel_store_session_key_tdb, dbwrap_store, NT_STATUS_IS_OK.
  intros H Hs. repeat case_match; simplify_eq; try done.
Qed.

(** ** The store *)

(** The databases that the functions of the store make of an empty one. *)
Inductive schannel_runs (env : schannel_env) : schannel_db -> Prop :=
  | runs_empty : schannel_runs env ∅
  | runs_store db creds : schannel_runs env db -> schannel_runs env (schannel_store_session_key_tdb env db creds).2
  | runs_check cr db name received has_return : schannel_runs env db ->
      schannel_runs env (schannel_check_creds_state cr env db name received has_return).1.1.2
  | runs_challenge db cc sc name : schannel_runs env db ->
      schannel_runs env (schannel_store_challenge_tdb env db cc sc name).2
  | runs_delete db name : schannel_runs env db -> schannel_runs env (schannel_delete_challenge env db name).

(** A session is stored under the name of its own computer. *)
Definition named_sessions (env : schannel_env) (db : schannel_db) : Prop :=
  forall name value c, db !! session_keystr env name = Some value -> pull_creds env value = inr c ->
    strupper env (computer_name c) = strupper env name.

Lemma session_key_not_challenge env name name' : session_keystr env name <> hash_computer_name env name'.
Proof. unfold session_keystr, hash_computer_name. by cbn. Qed.

Lemma store_named `{schannel_laws env} db creds : named_sessions env db ->
  named_sessions env (schannel_store_session_key_tdb env db creds).2.
Proof.
  intros Hn. unfold schannel_store_session_key_tdb, dbwrap_store. case_match; [done|].
  destruct (push_creds env creds) as [st|blob] eqn:P; [done|]. case_match; [|done].
  intros name value c. cbn [snd]. destruct (decide (session_keystr env (computer_name creds) = session_keystr env name)) as [E|E].
  - rewrite E, lookup_insert_eq. intros [= <-]. rewrite (pull_push_creds _ _ P). intros [= <-]. unfold session_keystr in E. by apply app_inv_head in E.
  - rewrite lookup_insert_ne by done. apply Hn.
Qed.

Lemma check_named `{schannel_laws env} cr db name received has_return : named_sessions env db ->
  named_sessions env (schannel_check_creds_state cr env db name received has_return).1.1.2.
Proof.
  intros Hn. unfold schannel_check_creds_state. case_match; [done|].
  destruct (netlogon_creds_server_step_check _ _ _ _) as [[st [c|]] r]; [|done]. case_match; [done|].
  pose proof (store_named db c Hn). destruct (schannel_store_session_key_tdb env db c). by case_match.
Qed.

Lemma runs_named `{schannel_laws env} db : schannel_runs env db -> named_sessions env db.
Proof.
  induction 1 as [|db c _ IH|cr db name a r _ IH|db cc sc name _ IH|db name _ IH];
    [by intros ? ? ?|by apply store_named|by apply check_named| |].
  - unfold schannel_store_challenge_tdb, dbwrap_store. case_match; [done|]. case_match; [|done]. case_match; [|done].
    intros n value c. cbn [snd]. rewrite lookup_insert_ne by (apply not_eq_sym, session_key_not_challenge). apply IH.
  - unfold schannel_delete_challenge. intros n value c. rewrite lookup_delete_ne by (apply not_eq_sym, session_key_not_challenge). apply IH.
Qed.

(** The store of an accepted call has the chain after it, under the name asked for. *)
Lemma accepted_is_stored `{schannel_laws env} cr db name a has_return db' ret out : named_sessions env db ->
  schannel_check_creds_state cr env db name (Some a) has_return = (NT_STATUS_OK, db', ret, Some out) ->
  exists s, netlogon_creds_server_step_check cr (Some s) (Some a) has_return = (NT_STATUS_OK, Some out, ret) /\
    schannel_fetch_session_key_tdb env db' name = inr out.
Proof.
  intros Hn. unfold schannel_check_creds_state at 1. destruct (schannel_fetch_session_key_tdb _ _ _) as [|s] eqn:F; [done|].
  destruct (netlogon_creds_server_step_check _ _ _ _) as [[st [c|]] r] eqn:E; [|done].
  destruct (NT_STATUS_IS_OK st) eqn:Ok; cbn [negb]; [|done]. apply Z.eqb_eq in Ok as ->.
  assert (N : strupper env (computer_name c) = strupper env name).
  { apply server_step_accepts in E as (_ & _ & _ & _ & ->). unfold schannel_fetch_session_key_tdb in F.
    destruct (db !! _) eqn:L; [|done]. by eapply Hn. }
  unfold schannel_store_session_key_tdb, dbwrap_store. destruct (_ <? _)%nat; [done|].
  destruct (push_creds env c) as [st|blob] eqn:P.
  { by rewrite (push_creds_error _ _ P). }
  destruct (NT_STATUS_IS_OK (store_status env)) eqn:Ok; cbn; [|by rewrite Ok].
  intros [= <- <- <-]. exists s. split; [done|].
  unfold schannel_fetch_session_key_tdb, session_keystr. rewrite N, lookup_insert_eq. by apply pull_push_creds.
Qed.

(** C11. The server accepts an authenticator once: in every store that its functions make,
    when a call for a computer has been accepted, the same authenticator is refused at
    the next call for it and the chain of the computer stays as the first call left
    it, so that the client is not put out of step. The timestamp 0xFFFFFFFF is the one
    exception ([replay_at_top_accepted]): the seed is advanced by it plus one, in 32
    bits. *)
Theorem netlogon_no_replay `{schannel_laws env} cr db name a has_return db' ret out : schannel_runs env db ->
  schannel_check_creds_state cr env db name (Some a) has_return = (NT_STATUS_OK, db', ret, Some out) ->
  u32 (auth_timestamp a) <> 0xFFFFFFFF ->
  exists ret', schannel_check_creds_state cr env db' name (Some a) true = (NT_STATUS_ACCESS_DENIED, db', ret', None).
Proof.
  intros Hr Hc Ht. destruct (accepted_is_stored _ _ _ _ _ _ _ _ (runs_named db Hr) Hc) as (s & Hs & Hf).
  destruct (replay_refused _ _ _ _ _ _ Ht Hs) as (s'' & ret' & R). exists ret'.
  unfold schannel_check_creds_state. by rewrite Hf, R.
Qed.

(** ** A concrete marshalling *)

Definition put_field (l : list Z) : list Z := Z.of_nat (length l) :: l.
Definition get_field (l : list Z) : option (list Z * list Z) :=
  match l with [] => None | n :: l => Some (take (Z.to_nat n) l, drop (Z.to_nat n) l) end.

Lemma get_put_field l rest : get_field (put_field l ++ rest) = Some (l, rest).
Proof. cbn. by rewrite Nat2Z.id, take_app_length, drop_app_length. Qed.

Definition sample_bytes (c : netlogon_creds) : list Z :=
  (negotiate_flags c :: nc_sequence c :: secure_channel_type c :: put_field (session_key c) ++ put_field (nc_seed c) ++
       put_field (nc_client c) ++ put_field (nc_server c) ++ put_field (computer_name c) ++ put_field (account_name c) ++
       match nc_sid c with None => [] | Some s => sid_rev_num s :: num_auths s :: put_field (id_auth s) ++ put_field (sub_auths s) ++ [] end).

Definition sample_fields (l : list Z) : option netlogon_creds :=
  match l with
  | flags :: sequence :: type :: l =>
      '(key, l) ← get_field l; '(seed, l) ← get_field l; '(client, l) ← get_field l; '(server, l) ← get_field l;
      '(computer, l) ← get_field l; '(account, l) ← get_field l;
      sid ← match l with
            | rev :: num :: l => '(ia, l) ← get_field l; '(sa, l) ← get_field l; Some (Some (Dom_sid rev num ia sa))
            | _ => Some None
            end;
      Some (Netlogon_creds flags key sequence seed client server type computer account sid)
  | _ => None
  end.

Definition sample_pull (l : list Z) : NTSTATUS + netlogon_creds :=
  match sample_fields l with None => inl NT_STATUS_UNSUCCESSFUL | Some c => inr c end.

Definition sample_env : schannel_env := {|
  push_creds c := inr (sample_bytes c);
  pull_creds := sample_pull;
  push_entry e := Some (put_field (ce_computer_name e) ++ put_field (ce_server_challenge e) ++ put_field (ce_client_challenge e) ++ []);
  pull_entry l :=
    match ('(n, l) ← get_field l; '(s, l) ← get_field l; '(c, l) ← get_field l; Some (Cache_entry n s c)) with
    | None => inl NT_STATUS_UNSUCCESSFUL
    | Some e => inr e
    end;
  strupper := map (fun c => if (97 <=? c) && (c <=? 122) then c - 32 else c);
  tdb_jenkins_hash l := u32 (foldr (fun c h => c + 31 * h) 0 l);
  store_status := NT_STATUS_OK
|}.

Ltac get_fields := cbn [mbind option_bind]; repeat (rewrite get_put_field; cbn [mbind option_bind]).

Lemma sample_fields_bytes c : sample_fields (sample_bytes c) = Some c.
Proof.
  unfold sample_fields, sample_bytes. get_fields. destruct c as [? ? ? ? ? ? ? ? ? [[]|]]; cbn [nc_sid]; [|reflexivity].
  get_fields. reflexivity.
Qed.

#[export] Instance sample_env_laws : schannel_laws sample_env.
Proof.
  split; [|done|].
  - intros c blob [= <-]. cbn [pull_creds sample_env]. unfold sample_pull. by rewrite sample_fields_bytes.
  - intros e blob E. cbn [push_entry sample_env] in E. apply (inj Some) in E as <-. cbn [pull_entry sample_env]. get_fields. by destruct e.
Qed.

(** A channel without AES: the calls are computed with the DES of the development. *)
Definition sample_crypto : crypto :=
  {| aes_block _ b := b; md5 := take 16; hmac_md5 k d := take 16 (k ++ d); hmac_sha256 k d := take 32 (k ++ d) |}.
Definition sample_pass : list Z := Z.of_nat <$> seq 1 16.
Definition sample_client : netlogon_creds * list Z :=
  netlogon_creds_client_init sample_crypto 1000 [65; 36] [97] 2 (replicate 8 7) (replicate 8 9) sample_pass NETLOGON_NEG_STRONG_KEYS.
Definition sample_server : option (netlogon_creds * list Z) :=
  netlogon_creds_server_init sample_crypto [65; 36] [97] 2 (replicate 8 7) (replicate 8 9) sample_pass sample_client.2 NETLOGON_NEG_STRONG_KEYS.
Definition sample_store (server : option (netlogon_creds * list Z)) : schannel_db :=
  match server with
  | None => ∅
  | Some (s, _) => (schannel_store_session_key_tdb sample_env ∅ s).2
  end.
Definition sample_db : schannel_db := sample_store sample_server.
Definition sample_auth : netr_Authenticator := (netlogon_creds_client_authenticator sample_crypto 1005 sample_client.1).2.

Definition sample_call : NTSTATUS * schannel_db * option netr_Authenticator * option netlogon_creds :=
  schannel_check_creds_state sample_crypto sample_env sample_db [65] (Some sample_auth) true.
Definition sample_db' : schannel_db := sample_call.1.1.2.

Lemma sample_runs server : schannel_runs sample_env (sample_store server).
Proof. destruct server as [[s ?]|]; [apply runs_store|]; apply runs_empty. Qed.

Lemma sample_call_ok : exists ret out,
  schannel_check_creds_state sample_crypto sample_env sample_db [65] (Some sample_auth) true = (NT_STATUS_OK, sample_db', ret, Some out).
Proof.
  fold sample_call.
  assert (E : sample_call.1.1.1 = NT_STATUS_OK) by (vm_compute; reflexivity).
  assert (O : is_Some sample_call.2) by (vm_compute; by eexists).
  destruct O as (out & O). exists sample_call.1.2, out. rewrite <- E, <- O. unfold sample_db'.
  by destruct sample_call as [[[? ?] ?] ?].
Qed.

Lemma netlogon_no_replay_witness : exists ret',
  schannel_check_creds_state sample_crypto sample_env sample_db' [65] (Some sample_auth) true =
  (NT_STATUS_ACCESS_DENIED, sample_db', ret', None).
Proof.
  destruct sample_call_ok as (ret & out & E).
  apply (netlogon_no_replay sample_crypto sample_db [65] sample_auth true sample_db' ret out (sample_runs sample_server) E).
  vm_compute. discriminate.
Defined.

(** ** Logon requests *)

Lemma arcfour_undone c x y : netlogon_creds_arcfour_crypt c x = Some y -> netlogon_creds_arcfour_crypt c y = Some x.
Proof.
  unfold netlogon_creds_arcfour_crypt, arcfour_crypt_blob. destruct (arcfour_init _); cbn; [|done].
  intros [= <-]. by rewrite arcfour_inverse.
Qed.

Lemma aes_undone cr c x y : aes_crypt cr c true x = Some y -> aes_crypt cr c false y = Some x.
Proof. intros [= <-]. unfold aes_crypt, netlogon_creds_aes_encrypt, netlogon_creds_aes_decrypt. by rewrite cfb8_inverse. Qed.

Lemma des_undone c x y : length x = 16%nat -> Forall is_byte x -> des_crypt c true x = Some y -> des_crypt c false y = Some x.
Proof.
  intros L B [= <-]. unfold des_crypt, netlogon_creds_des_encrypt, netlogon_creds_des_decrypt.
  f_equal. by apply (des_crypt112_16_inverse _ _ true).
Qed.

Lemma LMKey_undone c x y : length x = 8%nat -> Forall is_byte x ->
  des_LMKey_crypt c true x = Some y -> des_LMKey_crypt c false y = Some x.
Proof.
  intros L B [= <-]. unfold des_LMKey_crypt, netlogon_creds_des_encrypt_LMKey, netlogon_creds_des_decrypt_LMKey.
  f_equal. by apply (des_inverse _ _ true).
Qed.

(** The test for zeros keeps a cipher undone, unless the cipher text is zeros. *)
Lemma unless_zero_undone enc dec x y : (enc x = Some y -> dec y = Some x) ->
  unless_zero enc x = Some y -> (all_zero y = true -> all_zero x = true) -> unless_zero dec y = Some x.
Proof.
  unfold unless_zero. intros H E Z. destruct (all_zero x) eqn:X; cbn in E.
  - injection E as <-. by rewrite X.
  - destruct (all_zero y); [by discriminate Z|]. cbn. by apply H.
Qed.

Lemma passwords_undone enc dec l lm nt l' :
  (forall x y, x = lm \/ x = nt -> enc x = Some y -> dec y = Some x) -> crypt_passwords enc l lm nt = Some l' ->
  exists lm' nt', logon_password l' = Some (lm', nt') /\
    ((all_zero lm' = true -> all_zero lm = true) -> (all_zero nt' = true -> all_zero nt = true) ->
     crypt_passwords dec l' lm' nt' = Some (Logon_level (Some (lm, nt)) (logon_generic l))).
Proof.
  intros H. unfold crypt_passwords. destruct (unless_zero enc lm) as [lm'|] eqn:E1; cbn; [|done].
  destruct (unless_zero enc nt) as [nt'|] eqn:E2; cbn; [|done]. intros [= <-]. exists lm', nt'. split; [done|]. intros Z1 Z2.
  rewrite (unless_zero_undone enc dec lm lm'), (unless_zero_undone enc dec nt nt') by eauto. done.
Qed.

(** No hash turned into zeros. *)
Definition zeros_kept (l l' : netr_LogonLevel) : bool :=
  match logon_password l, logon_password l' with
  | Some (lm, nt), Some (lm', nt') => (negb (all_zero lm') || all_zero lm) && (negb (all_zero nt') || all_zero nt)
  | _, _ => true
  end.

Definition hashes_ok (l : netr_LogonLevel) : Prop :=
  match logon_password l with
  | None => True
  | Some (lm, nt) => length lm = 16%nat /\ Forall is_byte lm /\ length nt = 16%nat /\ Forall is_byte nt
  end.

Lemma zeros_kept_spec l l' lm nt lm' nt' : logon_password l = Some (lm, nt) -> logon_password l' = Some (lm', nt') ->
  zeros_kept l l' = true -> (all_zero lm' = true -> all_zero lm = true) /\ (all_zero nt' = true -> all_zero nt = true).
Proof.
  unfold zeros_kept. intros -> ->. destruct (all_zero lm), (all_zero nt), (all_zero lm'), (all_zero nt'); cbn; done.
Qed.

(** Where the passwords of a level go through one cipher that is undone, so is the level. *)
Lemma logon_undone enc dec (l l' : netr_LogonLevel) lm nt :
  logon_password l = Some (lm, nt) -> (forall x y, x = lm \/ x = nt -> enc x = Some y -> dec y = Some x) ->
  Some <$> crypt_passwords enc l lm nt = Some (Some l') -> zeros_kept l l' = true ->
  match logon_password l' with
  | None => Some (Some l')
  | Some (lm', nt') => Some <$> crypt_passwords dec l' lm' nt'
  end = Some (Some l).
Proof.
  intros P H E Z. destruct (crypt_passwords enc l lm nt) as [l1|] eqn:C; [|done]. injection E as ->.
  destruct (passwords_undone enc dec l lm nt l' H C) as (lm' & nt' & P' & U).
  destruct (zeros_kept_spec l l' _ _ _ _ P P' Z) as [Z1 Z2]. rewrite P', (U Z1 Z2), <- P. by destruct l.
Qed.

Lemma generic_undone enc dec (l l' : netr_LogonLevel) g :
  logon_generic l = Some g -> (forall y, enc g = Some y -> dec y = Some g) ->
  (data ← enc g; Some (Some (Logon_level (logon_password l) (Some data)))) = Some (Some l') ->
  match logon_generic l' with
  | None => Some (Some l')
  | Some data => data ← dec data; Some (Some (Logon_level (logon_password l') (Some data)))
  end = Some (Some l).
Proof.
  intros G H E. destruct (enc g) as [y|]; [|done]. cbn in E. injection E as <-. cbn.
  rewrite (H y eq_refl). cbn. rewrite <- G. by destruct l.
Qed.

(** What one side encrypts in a logon request the other side, with the same session key
    and flags, reads back: password hashes and generic data, under AES, arcfour and DES,
    where no hash that is not zeros became zeros. *)
Theorem samlogon_logon_roundtrip cr creds level l l' : hashes_ok l ->
  netlogon_creds_crypt_samlogon_logon cr creds level (Some l) true = Some (Some l') -> zeros_kept l l' = true ->
  netlogon_creds_crypt_samlogon_logon cr creds level (Some l') false = Some (Some l).
Proof.
  unfold netlogon_creds_crypt_samlogon_logon, hashes_ok. intros W E Z.
  destruct level; try (by injection E as <-).
  3: { destruct (logon_generic l) as [g|] eqn:G; [|injection E as <-; by rewrite G].
       destruct (has_bits _ NETLOGON_NEG_SUPPORTS_AES); [|destruct (has_bits _ NETLOGON_NEG_ARCFOUR)].
       all: eapply generic_undone; [exact G| |exact E].
       all: intros y; first [by apply aes_undone|by apply arcfour_undone|by intros [= ->]]. }
  all: destruct (logon_password l) as [[lm nt]|] eqn:P; [|injection E as <-; by rewrite P].
  all: destruct (has_bits _ NETLOGON_NEG_SUPPORTS_AES); [|destruct (has_bits _ NETLOGON_NEG_ARCFOUR)].
  all: eapply logon_undone; [exact P| |exact E|exact Z].
  all: intros x y Hx; first [by apply aes_undone|by apply arcfour_undone|apply des_undone; naive_solver].
Qed.

Lemma samlogon_logon_roundtrip_witness : exists l',
  netlogon_creds_crypt_samlogon_logon sample_crypto sample_client.1 NetlogonInteractiveInformation (Some l') false =
    Some (Some (Logon_level (Some (replicate 16 0, sample_pass)) None)) /\ zeros_kept (Logon_level (Some (replicate 16 0, sample_pass)) None) l' = true.
Proof.
  assert (E : match netlogon_creds_crypt_samlogon_logon sample_crypto sample_client.1 NetlogonInteractiveInformation
                      (Some (Logon_level (Some (replicate 16 0, sample_pass)) None)) true with
              | Some (Some l') => zeros_kept (Logon_level (Some (replicate 16 0, sample_pass)) None) l'
              | _ => false
              end = true) by (vm_compute; reflexivity).
  destruct (netlogon_creds_crypt_samlogon_logon _ _ _ _ _) as [[l'|]|] eqn:C; [|discriminate E|discriminate E].
  exists l'. split; [|exact E].
  apply (samlogon_logon_roundtrip sample_crypto sample_client.1 NetlogonInteractiveInformation _ l'); [|exact C|exact E].
  unfold hashes_ok. cbn. repeat split; repeat (apply List.Forall_cons); try constructor; lia.
Defined.

(** The session keys of an answer are read back too. *)
Lemma samlogon_validation_roundtrip cr creds level k k' :
  length (LMSessKey k) = 8%nat -> Forall is_byte (LMSessKey k) ->
  netlogon_creds_crypt_samlogon_validation cr creds level (Some k) true = Some (Some k') ->
  (all_zero (base_key k') = true -> all_zero (base_key k) = true) ->
  (all_zero (LMSessKey k') = true -> all_zero (LMSessKey k) = true) ->
  netlogon_creds_crypt_samlogon_validation cr creds level (Some k') false = Some (Some k).
Proof.
  unfold netlogon_creds_crypt_samlogon_validation. intros L B E Zb Zl.
  destruct (negb _); [by injection E as <-|]. destruct (level =? 6); [by injection E as <-|].
  destruct (has_bits _ NETLOGON_NEG_SUPPORTS_AES); [|destruct (has_bits _ NETLOGON_NEG_ARCFOUR)].
  3: { destruct (unless_zero _ (LMSessKey k)) eqn:E2 in E; [|done]. cbn in E. injection E as <-.
       cbn [base_key LMSessKey] in *. rewrite (unless_zero_undone _ _ _ _ (LMKey_undone _ _ _ L B) E2 Zl). by destruct k. }
  all: destruct (unless_zero _ (base_key k)) eqn:E1 in E; [|done].
  all: cbn in E; destruct (unless_zero _ (LMSessKey k)) eqn:E2 in E; [|done]; cbn in E; injection E as <-; cbn [base_key LMSessKey] in *.
  - by rewrite (unless_zero_undone _ _ _ _ (aes_undone _ _ _ _) E1 Zb), (unless_zero_undone _ _ _ _ (aes_undone _ _ _ _) E2 Zl); destruct k.
  - by rewrite (unless_zero_undone _ _ _ _ (arcfour_undone _ _ _) E1 Zb), (unless_zero_undone _ _ _ _ (arcfour_undone _ _ _) E2 Zl); destruct k.
Qed.

(** A hash equal to the key stream is sent as zeros, and the receiver takes the zeros. *)
Lemma zero_cipher_text_lost :
  let creds := Netlogon_creds NETLOGON_NEG_ARCFOUR sample_pass 0 [] [] [] 2 [] [] None in
  exists hash, netlogon_creds_arcfour_crypt creds (replicate 16 0) = Some hash /\ all_zero hash = false /\
    let logon := Logon_level (Some (replicate 16 0, hash)) None in
    let sent := Logon_level (Some (replicate 16 0, replicate 16 0)) None in
    netlogon_creds_crypt_samlogon_logon sample_crypto creds NetlogonInteractiveInformation (Some logon) true = Some (Some sent) /\
    netlogon_creds_crypt_samlogon_logon sample_crypto creds NetlogonInteractiveInformation (Some sent) false = Some (Some sent).
Proof.
  cbv zeta. eexists. split; [vm_compute; reflexivity|]. split; [|split]; vm_compute; reflexivity.
Qed.

(** ** Challenges *)

(** What was stored for a computer is fetched for it, and nothing for another name: a
    computer whose name falls in the same bucket finds no challenge. *)
Lemma challenge_fetched `{schannel_laws env} db cc sc name db' name' :
  schannel_store_challenge_tdb env db cc sc name = (NT_STATUS_OK, db') ->
  hash_computer_name env (strupper env name') = hash_computer_name env (strupper env name) ->
  schannel_fetch_challenge_tdb env db' name' =
    (if bool_decide (strupper env name = strupper env name') then inr (cc, sc) else inl NT_STATUS_NOT_FOUND).
Proof.
  unfold schannel_store_challenge_tdb, schannel_fetch_challenge_tdb, dbwrap_store. destruct (_ <? _)%nat; [done|].
  destruct (push_entry _ _) as [blob|] eqn:P; [|done]. destruct (NT_STATUS_IS_OK (store_status env)) eqn:Ok.
  - intros [= <-] ->. rewrite lookup_insert_eq. by rewrite (pull_push_entry _ _ P).
  - intros [= E _]. by rewrite E in Ok.
Qed.

(** The key of a challenge depends on the low byte of the hash only. *)
Lemma challenge_buckets env name name' :
  Z.land (tdb_jenkins_hash env name) 0xFF = Z.land (tdb_jenkins_hash env name') 0xFF ->
  hash_computer_name env name = hash_computer_name env name'.
Proof. unfold hash_computer_name. change (Z.shiftr 0xFF00 8) with 0xFF. by intros ->. Qed.

(** ** A chain of zeros *)

(** Where the first byte of the encrypted zero block is zero, CFB8 leaves zeros as they are. *)
Lemma cfb8_zeros cr key n : nth 0 (aes_block cr key (replicate 16 0)) 0 = 0 ->
  AES_cfb8_encrypt cr key (replicate n 0) (replicate 16 0) true = replicate n 0.
Proof.
  intros H. induction n as [|n IH]; [done|]. change (replicate (S n) 0) with (0 :: replicate n 0).
  cbn [AES_cfb8_encrypt]. rewrite H. f_equal. exact IH.
Qed.

Lemma step_crypt_zeros cr flags key : has_bits flags NETLOGON_NEG_SUPPORTS_AES = true ->
  nth 0 (aes_block cr key (replicate 16 0)) 0 = 0 -> step_crypt cr flags key (replicate 8 0) = replicate 8 0.
Proof. intros Hf Hz. unfold step_crypt. rewrite Hf. by apply (cfb8_zeros cr key 8). Qed.

Fixpoint accepts_all (cr : crypto) (received : list netr_Authenticator) (s : netlogon_creds) : bool :=
  match received with
  | [] => true
  | a :: received =>
      match netlogon_creds_server_step_check cr (Some s) (Some a) true with
      | (status, Some s, _) => NT_STATUS_IS_OK status && accepts_all cr received s
      | _ => false
      end
  end.

Lemma zero_authenticator cr s t rest : has_bits (negotiate_flags s) NETLOGON_NEG_SUPPORTS_AES = true ->
  nth 0 (aes_block cr (session_key s) (replicate 16 0)) 0 = 0 -> time_cred (nc_seed s) (u32 t) = replicate 8 0 ->
  exists s', accepts_all cr (Authenticator (replicate 8 0) t :: rest) s = accepts_all cr rest s' /\
    negotiate_flags s' = negotiate_flags s /\ session_key s' = session_key s /\ nc_seed s' = time_cred (nc_seed s) (u32 t + 1).
Proof.
  intros Hf Hz Ht. cbn [accepts_all]. unfold netlogon_creds_server_step_check, netlogon_creds_server_check_internal.
  cbn [negb auth_timestamp auth_cred netlogon_creds_step set_chain nc_sequence nc_seed nc_client].
  unfold netlogon_creds_step_crypt at 1. cbn [set_chain negotiate_flags session_key].
  rewrite Ht, (step_crypt_zeros _ _ _ Hf Hz), same_credential_refl. by eexists.
Qed.

Lemma zero_authenticators cr n s : has_bits (negotiate_flags s) NETLOGON_NEG_SUPPORTS_AES = true ->
  nth 0 (aes_block cr (session_key s) (replicate 16 0)) 0 = 0 -> nc_seed s = [1; 0; 0; 0; 0; 0; 0; 0] ->
  accepts_all cr (replicate n (Authenticator (replicate 8 0) 0xFFFFFFFF)) s = true.
Proof.
  revert s. induction n as [|n IH]; intros s Hf Hz Hs; [done|].
  destruct (zero_authenticator cr s 0xFFFFFFFF (replicate n (Authenticator (replicate 8 0) 0xFFFFFFFF)) Hf Hz) as (s' & E & Ef & Ek & Es).
  { rewrite Hs. reflexivity. }
  rewrite (replicate_S n), E.
  apply IH; [by rewrite Ef|by rewrite Ek|]. rewrite Es, Hs. reflexivity.
Qed.

(** For one session key in 256 a client that does not know the password is let in: the
    initialisation vector of [step_crypt] is constant, so that a challenge and credentials
    of zeros pass the first check and every later one. *)
Lemma zero_challenge_accepted cr account computer type server_challenge password flags n :
  has_bits flags NETLOGON_NEG_SUPPORTS_AES = true ->
  nth 0 (aes_block cr (new_session_key cr flags (replicate 8 0) server_challenge password) (replicate 16 0)) 0 = 0 ->
  exists s out,
    netlogon_creds_server_init cr account computer type (replicate 8 0) server_challenge password (replicate 8 0) flags = Some (s, out) /\
    accepts_all cr (Authenticator (replicate 8 0) 0 :: replicate n (Authenticator (replicate 8 0) 0xFFFFFFFF)) s = true.
Proof.
  intros Hf Hz. unfold netlogon_creds_server_init, netlogon_creds_server_check_internal, netlogon_creds_first_step, netlogon_creds_step_crypt.
  cbn [negotiate_flags session_key nc_client set_chain].
  rewrite (step_crypt_zeros _ _ _ Hf Hz), same_credential_refl. cbn [negb]. do 2 eexists. split; [reflexivity|].
  match goal with |- accepts_all cr _ ?s = true => destruct (zero_authenticator cr s 0 (replicate n (Authenticator (replicate 8 0) 0xFFFFFFFF))) as (s' & -> & Ef & Ek & Es) end; [done|done|reflexivity|].
  apply zero_authenticators; [by rewrite Ef|by rewrite Ek|]. rewrite Es. reflexivity.
Qed.

(** The client's sequence does not go back while its clock is near it. *)
Lemma sequence_advances cr t c : 0 <= nc_sequence c -> nc_sequence c + 2 < 2 ^ 32 -> u32 (nc_sequence c + 2) - u32 t < INT32_MAX ->
  let s := auth_timestamp (netlogon_creds_client_authenticator cr t c).2 in nc_sequence c + 2 <= s /\ u32 t <= s.
Proof.
  unfold netlogon_creds_client_authenticator, INT32_MAX. cbn [snd auth_timestamp netlogon_creds_step set_chain nc_sequence].
  intros H0 H1. assert (E : u32 (nc_sequence c + 2) = nc_sequence c + 2) by (unfold u32; rewrite Z.mod_small; lia). rewrite E.
  intros H2. destruct (Z.ltb_spec (nc_sequence c + 2) (u32 t)); [lia|].
  assert (B : 0 <= u32 t) by (unfold u32; apply Z.mod_pos_bound; lia).
  destruct (Z.leb_spec 0x7FFFFFFF (u32 (nc_sequence c + 2 - u32 t))) as [L|]; [|lia].
  unfold u32 at 1 in L. rewrite Z.mod_small in L; lia.
Qed.
