(* ===== verification/Idtree.v ===== *)
(** * Id trees

    lib/util/idtree.c and idtree_random.c: the radix tree that gives out ids for
    handles, sessions and requests and finds what was stored under them. *)

From S2P Require Import Prelude.
From stdpp Require Import prelude list.

#[local] Open Scope Z_scope.

Definition IDR_BITS : Z := 5.
Definition IDR_FULL : Z := 0xffffffff.
Definition IDR_SIZE : Z := Z.shiftl 1 IDR_BITS.
Definition IDR_MASK : Z := Z.shiftl 1 IDR_BITS - 1.
Definition MAX_ID_SHIFT : Z := 4 * 8 - 1.
Definition MAX_ID_BIT : Z := Z.shiftl 1 MAX_ID_SHIFT.
Definition MAX_ID_MASK : Z := MAX_ID_BIT - 1.
Definition MAX_LEVEL : nat := Z.to_nat ((MAX_ID_SHIFT + IDR_BITS - 1) / IDR_BITS).
Definition IDR_FREE_MAX : Z := Z.of_nat (MAX_LEVEL + MAX_LEVEL).

Definition set_bit (bit v : Z) : Z := Z.lor v (Z.shiftl 1 bit).
Definition clear_bit (bit v : Z) : Z := clear_bits v (Z.shiftl 1 bit).
Definition test_bit (bit v : Z) : bool := has_bits v (Z.shiftl 1 bit).

(** What a pointer in the tree refers to. Every layer has one pointer to it, so a
    layer is the value behind that pointer. In the lowest layer the pointers are those
    of the user. *)
Inductive node := Null | User (ptr : Z) | Layer (bitmap : Z) (ary : list node) (count : Z).

(** [id_free] is a list of layers that are linked by their first pointers. The tree
    has at most [MAX_LEVEL] layers. *)
Record idr_context := Idr { top : node; id_free : node; layers : nat; id_free_cnt : Z }.

Definition set_ary (p : node) (n : Z) (x : node) : node :=
  match p with Layer bm ary c => Layer bm (<[Z.to_nat n := x]> ary) c | _ => p end.

Definition set_top (p : node) (idp : idr_context) : idr_context := Idr p (id_free idp) (layers idp) (id_free_cnt idp).

(** ** Free layers *)

(** [None] for NULL. *)
Definition alloc_layer (idp : idr_context) : option (node * idr_context) :=
  match id_free idp with
  | Layer bm ary c =>
      Some (Layer bm (<[0%nat := Null]> ary) c,
            Idr (top idp) (default Null (ary !! 0%nat)) (layers idp) (id_free_cnt idp - 1))
  | _ => None
  end.

Definition free_layer (idp : idr_context) (p : node) : idr_context :=
  Idr (top idp) (set_ary p 0 (id_free idp)) (layers idp) (id_free_cnt idp + 1).

(** [n < maxid], so that at most [fuel] = [maxid - n] bits are tested. *)
Fixpoint next_bit (fuel : nat) (bm n : Z) : Z :=
  match fuel with
  | O => n
  | S fuel => if negb (test_bit n bm) then next_bit fuel bm (n + 1) else n
  end.

Definition find_next_bit (bm maxid n : Z) : Z := next_bit (Z.to_nat (maxid - n)) bm n.

Definition zero_layer : node := Layer 0 (replicate 32 Null) 0.

(** [avail]: the number of layers that can still be allocated. *)
Fixpoint idr_pre_get (avail : nat) (idp : idr_context) : idr_context :=
  if id_free_cnt idp <? IDR_FREE_MAX then
    match avail with
    | O => idp
    | S avail => idr_pre_get avail (free_layer idp zero_layer)
    end
  else idp.

(** ** Allocation *)

(** The layers above the current one that are in [pa], nearest first, each with the
    index of the pointer that was followed. *)
Definition path := list (node * Z).

(** The tree, with [p] at the end of the path. *)
Fixpoint plug (p : node) (pa : path) : node :=
  match pa with
  | [] => p
  | (q, m) :: pa => plug (set_ary q m p) pa
  end.

Inductive alloc_result := Placed (id : Z) | Need_to_grow (id : Z) | No_space.

(** The layers above a layer that has become full. *)
Fixpoint mark_full (l : nat) (n : Z) (p : node) (pa : path) : node :=
  match p with
  | Layer bm _ _ =>
      if bm =? IDR_FULL then
        if (MAX_LEVEL <=? l)%nat then plug p pa
        else
          match pa with
          | [] => p
          | (q, m) :: pa =>
              let n := Z.shiftr n IDR_BITS in
              match set_ary q m p with
              | Layer bm ary c => mark_full (S l) n (Layer (set_bit (Z.land n IDR_MASK) bm) ary c) pa
              | q => plug q pa
              end
          end
      else plug p pa
  | _ => plug p pa
  end.

(** A shift of 32 and more, which C leaves open, as the processors do it. *)
Definition shl (x n : Z) : Z := Z.shiftl x (n mod 32).
Definition shr (x n : Z) : Z := Z.shiftr x (n mod 32).

(** The loop of [sub_alloc] at the layer [p] of height [l], with the label restart as
    the beginning at the top. [None]: a pointer that is not a layer is followed, or the
    fuel is used up. *)
Fixpoint alloc_loop (fuel : nat) (ptr : Z) (idp : idr_context) (id : Z) (l : nat) (p : node) (pa : path)
    : option (alloc_result * idr_context) :=
  match fuel, p with
  | S fuel, Layer bitmap ary count =>
      let sh := IDR_BITS * Z.of_nat l in
      let n := Z.land (shr id sh) IDR_MASK in
      let bm := Z.lxor bitmap IDR_FULL in
      let m := find_next_bit bm IDR_SIZE n in
      if m =? IDR_SIZE then
        let l := S l in
        let oid := id in
        let id := u32 (Z.lor id (shl 1 (IDR_BITS * Z.of_nat l) - 1) + 1) in
        match pa with
        | [] => Some (Need_to_grow id, set_top p idp)
        | (q, k) :: pa =>
            let p := set_ary q k p in
            let sh := IDR_BITS * Z.of_nat (S l) in
            if shr oid sh =? shr id sh then alloc_loop fuel ptr idp id l p pa
            else alloc_loop fuel ptr idp id (pred (layers idp)) (plug p pa) []
        end
      else
        let id := if negb (m =? n) then u32 (shl (Z.lxor (Z.lxor (shr id sh) n) m) sh) else id in
        if MAX_ID_BIT <=? id then Some (No_space, set_top (plug p pa) idp)
        else
          match l with
          | O =>
              let p := Layer (set_bit m bitmap) (<[Z.to_nat m := User ptr]> ary) (count + 1) in
              Some (Placed id, set_top (mark_full 0 id p pa) idp)
          | S l =>
              child ← ary !! Z.to_nat m;
              match child with
              | Null =>
                  match alloc_layer idp with
                  | None => Some (No_space, set_top (plug p pa) idp)
                  | Some (pn, idp) =>
                      alloc_loop fuel ptr idp id l pn ((Layer bitmap (<[Z.to_nat m := pn]> ary) (count + 1), m) :: pa)
                  end
              | _ => alloc_loop fuel ptr idp id l child ((p, m) :: pa)
              end
          end
  | _, _ => None
  end.

(** Seven levels are gone up at most, and down again after each of them. *)
Definition ALLOC_FUEL : nat := 64.

Definition sub_alloc (idp : idr_context) (ptr starting_id : Z) : option (alloc_result * idr_context) :=
  alloc_loop ALLOC_FUEL ptr idp (u32 starting_id) (pred (layers idp)) (top idp) [].

(** The layers that were put on top are taken off again. *)
Fixpoint tear_down (added : nat) (idp : idr_context) (p : node) : idr_context :=
  match added, p with
  | S added, Layer _ ary _ => tear_down added (free_layer idp (Layer 0 (<[0%nat := Null]> ary) 0)) (default Null (ary !! 0%nat))
  | _, _ => idp
  end.

Definition count_of (p : node) : Z := match p with Layer _ _ c => c | _ => 0 end.
Definition bitmap_of (p : node) : Z := match p with Layer bm _ _ => bm | _ => 0 end.

(** New layers on top, while [id] is outside; [more] is [MAX_LEVEL - layers]. The
    result is the top and its height, or nothing if there are no layers. *)
Fixpoint grow (more added : nat) (idp : idr_context) (id : Z) (layers : nat) (p : node)
    : option (node * nat) * idr_context :=
  match more with
  | O => (Some (p, layers), idp)
  | S more =>
      if Z.shiftl 1 (Z.of_nat layers * IDR_BITS) <=? id then
        if count_of p =? 0 then grow more added idp id (S layers) p
        else
          match alloc_layer idp with
          | Some (Layer bm ary _, idp) =>
              let bm := if bitmap_of p =? IDR_FULL then set_bit 0 bm else bm in
              grow more (S added) idp id (S layers) (Layer bm (<[0%nat := p]> ary) 1)
          | _ => (None, tear_down added idp p)
          end
      else (Some (p, layers), idp)
  end.

(** From the label build_up on; every turn has a layer more. *)
Fixpoint build_up (fuel : nat) (ptr : Z) (idp : idr_context) (id : Z) : option (Z * idr_context) :=
  match fuel with
  | O => None
  | S fuel =>
      match (match top idp with Null => alloc_layer idp | p => Some (p, idp) end) with
      | None => Some (-1, idp)
      | Some (p, idp) =>
          let layers := match top idp with Null => 1%nat | _ => layers idp end in
          match grow (MAX_LEVEL - layers) 0 idp id layers p with
          | (None, idp) => Some (-1, idp)
          | (Some (p, layers), idp) =>
              '(v, idp) ← sub_alloc (Idr p (id_free idp) layers (id_free_cnt idp)) ptr id;
              match v with
              | Placed id => Some (id, idp)
              | Need_to_grow id => build_up fuel ptr idp (i32 id)
              | No_space => Some (-1, idp)
              end
          end
      end
  end.

Definition idr_get_new_above_int (avail : nat) (idp : idr_context) (ptr starting_id : Z) : option (Z * idr_context) :=
  build_up (S MAX_LEVEL) ptr (idr_pre_get avail idp) starting_id.

(** ** Removal *)

(** The layers that lose their last pointer go to the free list. [true]: the whole
    tree is gone. *)
Fixpoint drop_empty (idp : idr_context) (p : node) (pa : path) : node * bool * idr_context :=
  match p with
  | Layer bm ary c =>
      let p := Layer bm ary (c - 1) in
      if c - 1 =? 0 then
        let idp := free_layer idp p in
        match pa with
        | [] => (Null, true, idp)
        | (q, n) :: pa => drop_empty idp (set_ary q n Null) pa
        end
      else (plug p pa, false, idp)
  | _ => (plug p pa, false, idp)
  end.

(** The loop of [sub_remove] from the layer [p] down, [l] being [shift / IDR_BITS]. *)
Fixpoint remove_loop (l : nat) (idp : idr_context) (id : Z) (p : node) (pa : path) : option (Z * idr_context) :=
  match l, p with
  | S l', Layer bm ary c =>
      let n := Z.land (Z.shiftr id (IDR_BITS * Z.of_nat l)) IDR_MASK in
      child ← ary !! Z.to_nat n;
      remove_loop l' idp id child ((Layer (clear_bit n bm) ary c, n) :: pa)
  | O, Layer bm ary c =>
      let n := Z.land id IDR_MASK in
      if test_bit n bm then
        let '(p, gone, idp) := drop_empty idp (Layer (clear_bit n bm) (<[Z.to_nat n := Null]> ary) c) pa in
        Some (0, Idr p (id_free idp) (if gone then 0%nat else layers idp) (id_free_cnt idp))
      else Some (-1, set_top (plug p pa) idp)
  | _, Null => Some (-1, set_top (plug p pa) idp)
  | _, User _ => None
  end.

(** [shift] is [5 * l], or negative for an empty tree, where nothing is done. *)
Definition sub_remove (idp : idr_context) (l : nat) (id : Z) : option (Z * idr_context) :=
  remove_loop l idp id (top idp) [].

(** Layers that are too many are freed; [fuel] need not exceed their number. *)
Fixpoint free_spare (fuel : nat) (idp : idr_context) : idr_context :=
  match fuel with
  | O => idp
  | S fuel =>
      if IDR_FREE_MAX <=? id_free_cnt idp then
        match alloc_layer idp with Some (_, idp) => free_spare fuel idp | None => idp end
      else idp
  end.

Definition idr_remove (idp : idr_context) (id : Z) : option (Z * idr_context) :=
  let id := Z.land id MAX_ID_MASK in
  '(r, idp) ← sub_remove idp (pred (layers idp)) id;
  if r =? -1 then Some (-1, idp)
  else
    let idp :=
      match top idp with
      | Layer bm ary count =>
          match ary !! 0%nat with
          | Some (Layer _ _ _ as p) =>
              if (count =? 1) && (1 <? layers idp)%nat then
                let idp := free_layer idp (Layer 0 ary 0) in
                Idr p (id_free idp) (pred (layers idp)) (id_free_cnt idp)
              else idp
          | _ => idp
          end
      | _ => idp
      end in
    Some (0, free_spare (Z.to_nat (id_free_cnt idp)) idp).

(** ** Search *)

Fixpoint find_loop (k : nat) (p : node) (id : Z) : node :=
  match k, p with
  | S k, Layer _ ary _ => find_loop k (default Null (ary !! Z.to_nat (Z.land (Z.shiftr id (IDR_BITS * Z.of_nat k)) IDR_MASK))) id
  | _, _ => p
  end.

Definition idr_find (idp : idr_context) (id : Z) : node :=
  let n := Z.of_nat (layers idp) * IDR_BITS in
  if (n + IDR_BITS <? 31) && negb (Z.shiftr (Z.land id MAX_ID_MASK) (n + IDR_BITS) =? 0) then Null
  else find_loop (layers idp) (top idp) (Z.land id MAX_ID_MASK).

(** ** Public interface *)

Definition idr_init : idr_context := Idr Null Null 0 0.

Definition idr_get_new_above (avail : nat) (idp : idr_context) (ptr starting_id limit : Z) : option (Z * idr_context) :=
  '(ret, idp) ← idr_get_new_above_int avail idp ptr starting_id;
  if limit <? ret then '(_, idp) ← idr_remove idp ret; Some (-1, idp) else Some (ret, idp).

Definition idr_get_new (avail : nat) (idp : idr_context) (ptr limit : Z) : option (Z * idr_context) :=
  '(ret, idp) ← idr_get_new_above_int avail idp ptr 0;
  if limit <? ret then '(_, idp) ← idr_remove idp ret; Some (-1, idp) else Some (ret, idp).

(** The random numbers, of 32 bits, are arguments; [None] also stands for a division
    by zero. *)
Definition idr_get_new_random (avail : nat) (r1 r2 : Z) (idp : idr_context) (ptr limit : Z) : option (Z * idr_context) :=
  if u32 limit =? 0 then None
  else
    '(id, idp) ← idr_get_new_above avail idp ptr (i32 (1 + r1 mod u32 limit)) limit;
    '(id, idp) ← (if id =? -1 then
                    let half := u32 (Z.quot limit 2) in
                    if half =? 0 then None else idr_get_new_above avail idp ptr (i32 (1 + r2 mod half)) limit
                  else Some (id, idp));
    if id =? -1 then idr_get_new_above avail idp ptr 1 limit else Some (id, idp).
