(* ===== verification/IdtreeProps.v ===== *)
(** * Id trees: properties

    The tree of [Idtree] as an implementation of a finite map from ids to pointers,
    with ids given out in order. *)

From stdpp Require Import prelude list gmap.
From S2P Require Import Prelude.
From S2P Require Import Idtree.

#[local] Open Scope Z_scope.

(** ** Digits *)

(** The number of ids of a tree with [l] layers. *)
Definition B (l : nat) : Z := 2 ^ (5 * Z.of_nat l).

Definition digit (l : nat) (id : Z) : Z := id / B l mod 32.

Lemma B_S l : B (S l) = 32 * B l.
Proof. unfold B. rewrite Nat2Z.inj_succ. replace (5 * Z.succ (Z.of_nat l)) with (5 + 5 * Z.of_nat l) by lia. rewrite Z.pow_add_r by lia. done. Qed.

Lemma B_pos l : 0 < B l.
Proof. unfold B. apply Z.pow_pos_nonneg; lia. Qed.

Lemma B_mono k l : (k <= l)%nat -> B k <= B l.
Proof. intros H. apply Z.pow_le_mono_r; lia. Qed.

Lemma digit_range l id : 0 <= digit l id < 32.
Proof. apply Z.mod_pos_bound. lia. Qed.

(** An id, its upper digits and the digits below. *)
Lemma id_split l id : id = id / B (S l) * B (S l) + digit l id * B l + id mod B l.
Proof.
  unfold digit. rewrite B_S. pose proof (B_pos l). rewrite (Z.mul_comm 32), <- Z.div_div by lia.
  pose proof (Z_div_mod_eq_full id (B l)). pose proof (Z_div_mod_eq_full (id / B l) 32). nia.
Qed.

(** The other direction. *)
Lemma id_join l h m r : 0 <= m < 32 -> 0 <= r < B l ->
  let id := h * B (S l) + m * B l + r in id / B (S l) = h /\ digit l id = m /\ id mod B l = r.
Proof.
  intros Hm Hr. cbv zeta. pose proof (B_pos l). rewrite B_S.
  assert (E : (h * (32 * B l) + m * B l + r) / B l = h * 32 + m) by (symmetry; apply Z.div_unique with r; nia).
  split_and!.
  - symmetry. apply Z.div_unique with (m * B l + r); nia.
  - unfold digit. rewrite E. symmetry; apply Z.mod_unique with h; lia.
  - symmetry. apply Z.mod_unique with (h * 32 + m); nia.
Qed.

Lemma same_upper l x id : x / B l = id / B l -> forall j, (l <= j)%nat -> x / B j = id / B j.
Proof.
  intros H j Hj. unfold B in *. replace (5 * Z.of_nat j) with (5 * Z.of_nat l + 5 * Z.of_nat (j - l)) by lia.
  rewrite Z.pow_add_r, <- !Z.div_div by (try apply Z.pow_pos_nonneg; try apply Z.pow_nonzero; lia). by rewrite H.
Qed.

Lemma mod_digits l x id : x mod B (S l) = id mod B (S l) <-> digit l x = digit l id /\ x mod B l = id mod B l.
Proof.
  pose proof (B_pos l).
  assert (Hm : forall y, y mod B (S l) = digit l y * B l + y mod B l).
  { intros y. pose proof (id_split l y). pose proof (Z_div_mod_eq_full y (B (S l))). lia. }
  rewrite !Hm. split; [|by intros [-> ->]]. intros E.
  pose proof (Z.mod_pos_bound x (B l)). pose proof (Z.mod_pos_bound id (B l)).
  assert (digit l x = digit l id) by nia. split; [done|]. nia.
Qed.

(** The digit as the code computes it. *)
Lemma shr_digit l id : (l <= 6)%nat -> Z.land (shr id (IDR_BITS * Z.of_nat l)) IDR_MASK = digit l id.
Proof.
  intros Hl. unfold shr, IDR_BITS. rewrite (Z.mod_small (5 * Z.of_nat l)) by lia.
  change IDR_MASK with (Z.ones 5). by rewrite Z.land_ones, Z.shiftr_div_pow2 by lia.
Qed.

Lemma shiftr_digit l id : Z.land (Z.shiftr id (IDR_BITS * Z.of_nat l)) IDR_MASK = digit l id.
Proof. change IDR_MASK with (Z.ones 5). unfold IDR_BITS. by rewrite Z.land_ones, Z.shiftr_div_pow2 by lia. Qed.

(** The next id outside the subtree. *)
Lemma next_id l id : 0 <= id -> (l <= 6)%nat ->
  Z.lor id (shl 1 (IDR_BITS * Z.of_nat l) - 1) + 1 = (id / B l + 1) * B l.
Proof.
  intros Hid Hl. unfold shl, IDR_BITS. rewrite (Z.mod_small (5 * Z.of_nat l)) by lia. rewrite Z.shiftl_1_l.
  fold (B l). pose proof (B_pos l) as Hp. pose proof (Z.mod_pos_bound id (B l) Hp) as Hm.
  rewrite (Z_div_mod_eq_full id (B l)) at 1. rewrite (Z.mul_comm (B l)). set (h := id / B l). set (r := id mod B l) in *.
  unfold B in *. rewrite <- (lor_disjoint h r (5 * Z.of_nat l)), <- Z.lor_assoc by lia.
  assert (Z.lor r (2 ^ (5 * Z.of_nat l) - 1) = 2 ^ (5 * Z.of_nat l) - 1) as ->.
  { rewrite Z.sub_1_r, <- Z.ones_equiv. apply Z.bits_inj'. intros k Hk. rewrite Z.lor_spec.
    destruct (Z.ltb_spec k (5 * Z.of_nat l)); [by rewrite Z.ones_spec_low, orb_true_r by lia|].
    rewrite Z.ones_spec_high, orb_false_r by lia. apply (proj1 (in_w_bits (5 * Z.of_nat l) r ltac:(lia)) Hm). lia. }
  rewrite lor_disjoint by lia. lia.
Qed.

(** Another digit in place of the [l]-th, and zeros below. *)
Lemma replace_digit l id m : (l <= 6)%nat -> 0 <= m < 32 ->
  shl (Z.lxor (Z.lxor (shr id (IDR_BITS * Z.of_nat l)) (digit l id)) m) (IDR_BITS * Z.of_nat l) =
  id / B (S l) * B (S l) + m * B l.
Proof.
  intros Hl Hm. unfold shl, shr, IDR_BITS. rewrite (Z.mod_small (5 * Z.of_nat l)) by lia.
  rewrite Z.shiftr_div_pow2, Z.shiftl_mul_pow2 by lia. fold (B l). pose proof (B_pos l).
  pose proof (Z_div_mod_eq_full (id / B l) 32) as E. rewrite B_S, (Z.mul_comm 32), <- Z.div_div by lia.
  set (h := id / B l / 32) in *. pose proof (digit_range l id) as Hd.
  assert (E' : id / B l = h * 2 ^ 5 + digit l id) by (unfold digit; change (2 ^ 5) with 32; lia).
  rewrite E', <- (lxor_disjoint h (digit l id) 5) by lia.
  rewrite (Z.lxor_assoc (h * 2 ^ 5)), Z.lxor_nilpotent, Z.lxor_0_r, lxor_disjoint by lia. lia.
Qed.

(** ** Bitmaps of layers *)

Lemma test_bit_testbit n v : 0 <= n -> test_bit n v = Z.testbit v n.
Proof. apply bit_of_word. Qed.

Lemma set_bit_spec m v i : 0 <= m -> 0 <= i -> Z.testbit (set_bit m v) i = if i =? m then true else Z.testbit v i.
Proof.
  intros Hm Hi. unfold set_bit. rewrite Z.lor_spec, testbit_shift_one by done.
  destruct (i =? m); [apply orb_true_r | apply orb_false_r].
Qed.

Lemma clear_bit_spec m v i : 0 <= m -> 0 <= i -> Z.testbit (clear_bit m v) i = if i =? m then false else Z.testbit v i.
Proof.
  intros Hm Hi. unfold clear_bit, clear_bits. rewrite Z.ldiff_spec, testbit_shift_one by done.
  destruct (i =? m); [apply andb_false_r | apply andb_true_r].
Qed.

Lemma set_bit_range m v : 0 <= m < 32 -> in_w 32 v -> in_w 32 (set_bit m v).
Proof.
  intros Hm. rewrite !in_w_bits by lia. intros [H0 Hb]. split.
  - unfold set_bit. rewrite Z.shiftl_1_l. apply Z.lor_nonneg. split; [done | apply Z.pow_nonneg; lia].
  - intros i Hi. rewrite set_bit_spec, Hb by lia. by rewrite (proj2 (Z.eqb_neq i m)) by lia.
Qed.

Lemma clear_bit_range m v : 0 <= m < 32 -> in_w 32 v -> in_w 32 (clear_bit m v).
Proof.
  intros Hm. rewrite !in_w_bits by lia. intros [H0 Hb]. split.
  - unfold clear_bit, clear_bits. apply Z.ldiff_nonneg. by left.
  - intros i Hi. rewrite clear_bit_spec, Hb by lia. by rewrite (proj2 (Z.eqb_neq i m)) by lia.
Qed.

Lemma bitmap_full bm : in_w 32 bm -> bm = IDR_FULL <-> forall i, 0 <= i < 32 -> Z.testbit bm i = true.
Proof.
  intros Hr. split.
  - intros -> i Hi. change IDR_FULL with (Z.ones 32). by apply Z.ones_spec_low.
  - intros H. apply Z.bits_inj'. intros i Hi. change IDR_FULL with (Z.ones 32).
    destruct (Z.ltb_spec i 32); [rewrite H, Z.ones_spec_low by lia; done|].
    rewrite Z.ones_spec_high by lia. apply (proj1 (in_w_bits 32 bm ltac:(lia)) Hr). lia.
Qed.

Lemma bitmap_zero bm : in_w 32 bm -> (forall i, 0 <= i < 32 -> Z.testbit bm i = false) -> bm = 0.
Proof.
  intros Hr H. apply Z.bits_inj_0. intros i. destruct (Z.ltb_spec i 0); [by apply Z.testbit_neg_r|].
  destruct (Z.ltb_spec i 32); [apply H; lia|]. by apply (proj1 (in_w_bits 32 bm ltac:(lia)) Hr).
Qed.

Lemma next_bit_spec fuel bm n : 0 <= n ->
  let m := next_bit fuel bm n in n <= m <= n + Z.of_nat fuel /\ (forall i, n <= i < m -> Z.testbit bm i = false) /\
    (m < n + Z.of_nat fuel -> Z.testbit bm m = true).
Proof.
  revert n. induction fuel as [|fuel IH]; intros n Hn; cbn [next_bit]; cbv zeta; [split_and!; [lia.. | | lia]; lia|].
  rewrite test_bit_testbit by done. destruct (Z.testbit bm n) eqn:E; cbn [negb]; [split_and!; [lia.. | | done]; lia|].
  destruct (IH (n + 1)) as (H1 & H2 & H3); [lia|]. split_and!; [lia.. | |].
  - intros i Hi. destruct (decide (i = n)) as [->|]; [done | apply H2; lia].
  - intros Hm. apply H3. lia.
Qed.

(** The first clear bit of a layer from [n] on. *)
Lemma find_clear bm n : in_w 32 bm -> 0 <= n < 32 ->
  let m := find_next_bit (Z.lxor bm IDR_FULL) IDR_SIZE n in n <= m <= 32 /\
    (forall i, n <= i < m -> Z.testbit bm i = true) /\ (m < 32 -> Z.testbit bm m = false).
Proof.
  intros Hr Hn. cbv zeta. unfold find_next_bit. change IDR_SIZE with 32.
  assert (Hx : forall i, 0 <= i < 32 -> Z.testbit (Z.lxor bm IDR_FULL) i = negb (Z.testbit bm i)).
  { intros i Hi. change IDR_FULL with (Z.ones 32). rewrite Z.lxor_spec, Z.ones_spec_low by lia. apply xorb_true_r. }
  destruct (next_bit_spec (Z.to_nat (32 - n)) (Z.lxor bm IDR_FULL) n) as (H1 & H2 & H3); [lia|].
  rewrite Z2Nat.id in * by lia. split_and!; [lia.. | |].
  - intros i Hi. specialize (H2 i Hi). rewrite Hx in H2 by lia. by apply negb_false_iff.
  - intros Hm. specialize (H3 ltac:(lia)). rewrite Hx in H3 by lia. by apply negb_true_iff.
Qed.

(** ** Trees *)

Definition nonnull (x : node) : bool := match x with Null => false | _ => true end.

Definition occupied (ary : list node) : Z := Z.of_nat (length (filter (fun x => nonnull x = true) ary)).

(** No id is left below. *)
Definition full (nd : node) : bool :=
  match nd with Null => false | User _ => true | Layer bm _ _ => bm =? IDR_FULL end.

(** The pointer stored in a tree of [k] layers. *)
Fixpoint get (k : nat) (nd : node) (id : Z) : option Z :=
  match k, nd with
  | O, User p => Some p
  | S k, Layer _ ary _ => x ← ary !! Z.to_nat (digit k id); get k x id
  | _, _ => None
  end.

(** A layer above subtrees of [k] layers, with the exception of the pointer at
    [hole]. *)
Definition layer_ok (wf : node -> Prop) (hole : option Z) (bm : Z) (ary : list node) (c : Z) : Prop :=
  length ary = 32%nat /\ in_w 32 bm /\ c = occupied ary /\
  forall i x, hole <> Some (Z.of_nat i) -> ary !! i = Some x -> (x = Null \/ wf x) /\ Z.testbit bm (Z.of_nat i) = full x.

Fixpoint wf (k : nat) (nd : node) : Prop :=
  match k, nd with
  | O, User _ => True
  | S k, Layer bm ary c => layer_ok (wf k) None bm ary c
  | _, _ => False
  end.

Lemma wf_nonnull k nd : wf k nd -> nonnull nd = true.
Proof. by destruct k, nd. Qed.

Lemma get_null k id : get k Null id = None.
Proof. by destruct k. Qed.

Lemma lookup_digit (ary : list node) k id : length ary = 32%nat -> is_Some (ary !! Z.to_nat (digit k id)).
Proof. intros H. apply lookup_lt_is_Some. pose proof (digit_range k id). lia. Qed.

(** Only the lower digits of an id are used. *)
Lemma get_mod k nd x y : x mod B k = y mod B k -> get k nd x = get k nd y.
Proof.
  revert nd. induction k as [|k IH]; intros nd H; [by destruct nd|].
  apply mod_digits in H as [Hd Hm]. destruct nd as [| |bm ary c]; [done..|]. cbn [get]. rewrite Hd.
  destruct (ary !! _); [|done]. by apply IH.
Qed.

Lemma full_get k nd id : wf k nd -> full nd = true -> is_Some (get k nd id).
Proof.
  revert nd. induction k as [|k IH]; intros [| |bm ary c] Hwf Hf; try done.
  destruct Hwf as (Hlen & Hr & _ & Hch). cbn [get]. destruct (lookup_digit ary k id Hlen) as [x Hx]. rewrite Hx. cbn.
  destruct (Hch _ x ltac:(done) Hx) as [Hw Hb]. pose proof (digit_range k id).
  apply Z.eqb_eq in Hf. rewrite (proj1 (bitmap_full bm Hr) Hf) in Hb by lia. destruct Hw as [-> |Hw]; [done | by apply IH].
Qed.

Lemma all_full k nd : wf k nd -> (forall id, 0 <= id < B k -> is_Some (get k nd id)) -> full nd = true.
Proof.
  revert nd. induction k as [|k IH]; intros [| |bm ary c] Hwf H; try done.
  destruct Hwf as (Hlen & Hr & _ & Hch). apply Z.eqb_eq. apply bitmap_full; [done|]. intros i Hi.
  destruct (lookup_lt_is_Some_2 ary (Z.to_nat i)) as [x Hx]; [lia|].
  destruct (Hch _ x ltac:(done) Hx) as [Hw Hb]. rewrite Z2Nat.id in Hb by lia. rewrite Hb.
  assert (Hx' : forall id, 0 <= id < B k -> is_Some (get k x id)).
  { intros id Hid. pose proof (B_S k). destruct (id_join k 0 i id) as (_ & Hd & Hm); [lia..|].
    assert (Hid' : 0 <= 0 * B (S k) + i * B k + id < B (S k)) by nia. specialize (H _ Hid'). cbn [get] in H.
    rewrite Hd, Hx in H. cbn in H.
    rewrite (get_mod k x _ id) in H; [done|]. by rewrite Hm, Z.mod_small. }
  destruct Hw as [-> |Hw]; [|by apply IH]. destruct (Hx' 0) as [? Hn]; [pose proof (B_pos k); lia|]. by rewrite get_null in Hn.
Qed.

(** ** Changes of one pointer *)

Definition one (x : node) : Z := if nonnull x then 1 else 0.

Lemma occupied_app l1 l2 : occupied (l1 ++ l2) = occupied l1 + occupied l2.
Proof. unfold occupied. rewrite filter_app, length_app. lia. Qed.

Lemma occupied_cons x l : occupied (x :: l) = one x + occupied l.
Proof. unfold occupied, one. rewrite filter_cons. case_decide; destruct (nonnull x); cbn [length]; (done || lia). Qed.

Lemma occupied_insert (ary : list node) i x y :
  ary !! i = Some x -> occupied (<[i := y]> ary) = occupied ary - one x + one y.
Proof.
  intros Hx. rewrite insert_take_drop by (by apply lookup_lt_Some in Hx).
  rewrite <- (take_drop_middle ary i x Hx) at 3. rewrite !occupied_app, !occupied_cons. lia.
Qed.

Lemma occupied_pos (ary : list node) i x : ary !! i = Some x -> nonnull x = true -> 0 < occupied ary.
Proof.
  intros Hx Hn. rewrite <- (take_drop_middle ary i x Hx), occupied_app, occupied_cons. unfold one. rewrite Hn.
  unfold occupied. lia.
Qed.

Lemma occupied_zero (ary : list node) i x : occupied ary = 0 -> ary !! i = Some x -> x = Null.
Proof. intros H0 Hx. destruct (nonnull x) eqn:E; [|by destruct x]. pose proof (occupied_pos ary i x Hx E). lia. Qed.

Lemma layer_set W hole bm bm' (ary : list node) c m x nd :
  layer_ok W hole bm ary c -> (forall j, hole = Some j -> j = m) -> 0 <= m < 32 -> ary !! Z.to_nat m = Some x ->
  in_w 32 bm' -> (forall i, 0 <= i < 32 -> i <> m -> Z.testbit bm' i = Z.testbit bm i) ->
  nd = Null \/ W nd -> Z.testbit bm' m = full nd ->
  layer_ok W None bm' (<[Z.to_nat m := nd]> ary) (c - one x + one nd).
Proof.
  intros (Hlen & _ & -> & Hch) Hhole Hm Hx Hr Hb Hnd Hf. split_and!; [by rewrite length_insert | done | by rewrite (occupied_insert ary _ x) |].
  intros i y _ Hy. destruct (decide (i = Z.to_nat m)) as [->|Hne].
  - rewrite list_lookup_insert_eq in Hy by lia. simplify_eq. by rewrite Z2Nat.id by lia.
  - rewrite list_lookup_insert_ne in Hy by done. pose proof (lookup_lt_Some _ _ _ Hy).
    rewrite Hb by lia. apply Hch; [|done]. intros E. apply Hhole in E. lia.
Qed.

(** ** Paths *)

(** A layer of height [l] whose [m]-th pointer is being followed: it is not full. *)
Definition hole_ok (l : nat) (q : node) (m : Z) : Prop :=
  match q with
  | Layer bm ary c =>
      layer_ok (wf l) (Some m) bm ary c /\ 0 <= m < 32 /\ Z.testbit bm m = false /\
      exists x, ary !! Z.to_nat m = Some x /\ nonnull x = true
  | _ => False
  end.

(** The layers above height [l], along the digits of [id]. *)
Fixpoint path_ok (l : nat) (pa : path) (id : Z) : Prop :=
  match pa with
  | [] => True
  | (q, m) :: pa => m = digit (S l) id /\ hole_ok (S l) q m /\ path_ok (S l) pa id
  end.

Lemma hole_plug l q m nd : hole_ok l q m -> wf l nd -> full nd = false -> wf (S l) (set_ary q m nd).
Proof.
  destruct q as [| |bm ary c]; [done..|]. intros (Hok & Hm & Hb & x & Hx & Hn) Hw Hf. cbn [set_ary wf].
  pose proof (layer_set (wf l) (Some m) bm bm ary c m x nd) as H. unfold one in H. rewrite Hn, (wf_nonnull l nd Hw) in H.
  replace (c - 1 + 1) with c in H by lia. apply H; try done; [by intros j [= ->] | apply Hok | by right | by rewrite Hf].
Qed.

Lemma hole_not_full l q m nd : hole_ok l q m -> full (set_ary q m nd) = false.
Proof.
  destruct q as [| |bm ary c]; [done..|]. intros (Hok & Hm & Hb & _). cbn. apply Z.eqb_neq. intros E.
  destruct Hok as (_ & Hr & _). rewrite (proj1 (bitmap_full bm Hr) E) in Hb by lia. done.
Qed.

Lemma plug_wf l p pa id : wf (S l) p -> full p = false -> path_ok l pa id -> wf (S (l + length pa)) (plug p pa).
Proof.
  revert l p. induction pa as [|[q m] pa IH]; intros l p Hw Hf Hpa; cbn [plug length]; [by rewrite Nat.add_0_r|].
  destruct Hpa as (_ & Hq & Hpa). rewrite Nat.add_succ_r. apply (IH (S l)); [by apply hole_plug | by apply (hole_not_full (S l)) | done].
Qed.

Lemma plug_not_full l p pa id : full p = false -> path_ok l pa id -> full (plug p pa) = false.
Proof.
  revert l p. induction pa as [|[q m] pa IH]; intros l p Hf Hpa; cbn [plug]; [done|].
  destruct Hpa as (_ & Hq & Hpa). apply (IH (S l)); [by apply (hole_not_full (S l)) | done].
Qed.

Lemma get_set k bm ary c m nd x : length ary = 32%nat -> 0 <= m < 32 ->
  get (S k) (Layer bm (<[Z.to_nat m := nd]> ary) c) x = if digit k x =? m then get k nd x else get (S k) (Layer bm ary c) x.
Proof.
  intros Hlen Hm. cbn [get]. pose proof (digit_range k x). destruct (Z.eqb_spec (digit k x) m) as [->|Hne].
  - by rewrite list_lookup_insert_eq by lia.
  - by rewrite list_lookup_insert_ne by lia.
Qed.

Lemma get_hole l q m nd x : hole_ok l q m -> get (S l) (set_ary q m nd) x = if digit l x =? m then get l nd x else get (S l) q x.
Proof. destruct q as [| |bm ary c]; [done..|]. intros ((Hlen & _) & Hm & _). by apply get_set. Qed.

(** An id with the same upper digits leads to the layer at the end of the path. *)
Lemma get_plug_path l p pa id x : path_ok l pa id -> x / B (S l) = id / B (S l) ->
  get (S (l + length pa)) (plug p pa) x = get (S l) p x.
Proof.
  revert l p. induction pa as [|[q m] pa IH]; intros l p Hpa Hx; cbn [plug length]; [by rewrite Nat.add_0_r|].
  destruct Hpa as (-> & Hq & Hpa). rewrite Nat.add_succ_r. rewrite (IH (S l)); [|done | by apply (same_upper (S l)); [|lia]].
  rewrite get_hole by done. unfold digit. by rewrite Hx, Z.eqb_refl.
Qed.

(** A change of the layer at the end of the path at one id. *)
Lemma get_plug_update l p p' pa id v : path_ok l pa id ->
  (forall x, get (S l) p' x = if x mod B (S l) =? id mod B (S l) then v else get (S l) p x) ->
  let L := S (l + length pa) in
  forall x, get L (plug p' pa) x = if x mod B L =? id mod B L then v else get L (plug p pa) x.
Proof.
  cbv zeta. revert l p p'. induction pa as [|[q m] pa IH]; intros l p p' Hpa H x; cbn [plug length]; [by rewrite Nat.add_0_r|].
  destruct Hpa as (-> & Hq & Hpa). rewrite Nat.add_succ_r. apply (IH (S l)); [done|]. clear x. intros x. rewrite !get_hole, H by done.
  pose proof (mod_digits (S l) x id) as Hmd.
  destruct (Z.eqb_spec (digit (S l) x) (digit (S l) id)), (Z.eqb_spec (x mod B (S l)) (id mod B (S l))),
    (Z.eqb_spec (x mod B (S (S l))) (id mod B (S (S l)))); tauto.
Qed.

Lemma get_plug_same l p p' pa : (forall x, get (S l) p' x = get (S l) p x) ->
  forall x, get (S (l + length pa)) (plug p' pa) x = get (S (l + length pa)) (plug p pa) x.
Proof.
  revert l p p'. induction pa as [|[q m] pa IH]; intros l p p' H x; cbn [plug length]; [by rewrite Nat.add_0_r|].
  rewrite Nat.add_succ_r. apply (IH (S l)). clear x. intros x. destruct q as [| |bm ary c]; [done..|]. cbn [set_ary get].
  destruct (decide (Z.to_nat (digit (S l) x) = Z.to_nat m)) as [->|Hne]; [|by rewrite !list_lookup_insert_ne by done].
  destruct (decide (Z.to_nat m < length ary)%nat); [rewrite !list_lookup_insert_eq by done; apply H|].
  by rewrite !list_insert_ge by lia.
Qed.

(** ** Free layers *)

Fixpoint free_ok (n : nat) (nd : node) : Prop :=
  match n, nd with
  | O, Null => True
  | S n, Layer bm ary c =>
      bm = 0 /\ c = 0 /\ length ary = 32%nat /\ (forall i x, ary !! S i = Some x -> x = Null) /\
      exists nx, ary !! 0%nat = Some nx /\ free_ok n nx
  | _, _ => False
  end.

Definition spare (idp : idr_context) (n : nat) : Prop := free_ok n (id_free idp) /\ id_free_cnt idp = Z.of_nat n.

Lemma alloc_layer_ok idp n : spare idp n ->
  match n with
  | O => alloc_layer idp = None
  | S n => exists idp', alloc_layer idp = Some (zero_layer, idp') /\ top idp' = top idp /\ layers idp' = layers idp /\ spare idp' n
  end.
Proof.
  intros [Hf Hc]. unfold alloc_layer. destruct n as [|n], (id_free idp) as [| |bm ary c]; try done.
  destruct Hf as (-> & -> & Hlen & Hz & nx & Hnx & Hf). rewrite Hnx.
  exists (Idr (top idp) nx (layers idp) (id_free_cnt idp - 1)). split; [|split_and!; [done | done |]].
  - f_equal. f_equal. unfold zero_layer. f_equal. apply list_eq_same_length with 32%nat; [done | by rewrite length_insert |].
    intros i x y Hi Hx Hy. rewrite lookup_replicate in Hy. destruct Hy as [-> _]. destruct i as [|i].
    + rewrite list_lookup_insert_eq in Hx by lia. by simplify_eq.
    + rewrite list_lookup_insert_ne in Hx by done. by apply Hz in Hx.
  - split; [done | cbn; lia].
Qed.

Lemma free_layer_ok idp n ary : spare idp n -> length ary = 32%nat -> (forall i x, ary !! S i = Some x -> x = Null) ->
  spare (free_layer idp (Layer 0 ary 0)) (S n).
Proof.
  intros [Hf Hc] Hlen Hz. split; [|cbn; lia]. cbn. split_and!; [done | done | by rewrite length_insert | |].
  - intros i x Hx. rewrite list_lookup_insert_ne in Hx by done. by apply Hz in Hx.
  - exists (id_free idp). split; [by apply list_lookup_insert_eq; lia | done].
Qed.

Lemma zero_null i x : replicate 32 Null !! i = Some x -> x = Null.
Proof. rewrite lookup_replicate. by intros [-> _]. Qed.

Lemma zero_wf k : wf (S k) zero_layer.
Proof.
  split_and!; [done | unfold in_w; lia | done |]. intros i x _ Hx. rewrite (zero_null i x Hx), Z.bits_0. split; [by left | done].
Qed.

Lemma zero_get k x : get k zero_layer x = None.
Proof.
  destruct k as [|k]; [done|]. unfold zero_layer. cbn [get]. destruct (replicate 32 Null !! _) as [y|] eqn:E; [|done].
  apply zero_null in E as ->. cbn. apply get_null.
Qed.

(** ** Marking full layers *)

Lemma mark_full_ok l p pa id : wf (S l) p -> path_ok l pa id -> (l + length pa <= 6)%nat ->
  wf (S (l + length pa)) (mark_full l (id / B l) p pa) /\
  forall x, get (S (l + length pa)) (mark_full l (id / B l) p pa) x = get (S (l + length pa)) (plug p pa) x.
Proof.
  revert l p. induction pa as [|[q m] pa IH]; intros l p Hw Hpa Hl.
  all: destruct p as [| |bm ary c]; [done..|]; cbn [mark_full]; destruct (Z.eqb_spec bm IDR_FULL) as [Hbm|Hbm].
  - rewrite Nat.add_0_r. by destruct (MAX_LEVEL <=? l)%nat.
  - cbn. by rewrite Nat.add_0_r.
  - rewrite (proj2 (Nat.leb_gt MAX_LEVEL l)) by (change MAX_LEVEL with 7%nat; cbn in Hl; lia). cbn [length] in *.
    destruct Hpa as (Em & Hq & Hpa). rewrite Nat.add_succ_r in *. destruct q as [| |bq aq cq]; [done..|].
    cbn [set_ary plug]. pose proof Hq as (Hok & Hm & Hb & y & Hy & Hn).
    assert (En : Z.shiftr (id / B l) IDR_BITS = id / B (S l)).
    { pose proof (B_pos l). unfold IDR_BITS. rewrite Z.shiftr_div_pow2, Z.div_div, B_S by lia. by rewrite (Z.mul_comm 32). }
    rewrite En. assert (Ed : Z.land (id / B (S l)) IDR_MASK = m).
    { change IDR_MASK with (Z.ones 5). rewrite Z.land_ones by lia. by rewrite Em. }
    rewrite Ed. destruct (IH (S l) (Layer (set_bit m bq) (<[Z.to_nat m:=Layer bm ary c]> aq) cq)) as [Hw' Hg]; [|done | lia |].
    + pose proof (layer_set (wf (S l)) (Some m) bq (set_bit m bq) aq cq m y (Layer bm ary c)) as H. unfold one in H.
      rewrite Hn in H. cbn [nonnull] in H. replace (cq - 1 + 1) with cq in H by lia. cbn [wf]. apply H; try done.
      * by intros j [= ->].
      * apply set_bit_range; [done | apply Hok].
      * intros i Hi Hne. rewrite set_bit_spec by lia. by rewrite (proj2 (Z.eqb_neq i m)).
      * by right.
      * rewrite set_bit_spec, Z.eqb_refl by lia. cbn. by rewrite Hbm.
    + split; [done|]. intros x. rewrite Hg. by apply (get_plug_same (S l)).
  - split; [apply (plug_wf l _ ((q, m) :: pa) id); [done | cbn; by apply Z.eqb_neq | done] | done].
Qed.
