(* ===== verification/IdtreeAlloc.v ===== *)
(** * Id trees: allocation

    The walk of [sub_alloc] through a tree finds the first free id, if there is one
    from the starting id to the end of the tree. *)

From stdpp Require Import prelude list gmap.
From S2P Require Import Prelude.
From S2P Require Import Idtree.
From S2P Require Import IdtreeProps.

#[local] Open Scope Z_scope.

Section walk.
Context {ptr : Z} {L : nat} {M : Z -> option Z}.
Context (HL : (1 <= L <= 7)%nat) (HM : forall x, 2 ^ 31 <= x -> M x = None).

(** The walk stands at the layer [p], of height [l], in a tree with the content [M]
    and [n] spare layers. *)
Record at_layer (idp : idr_context) (id : Z) (l : nat) (p : node) (pa : path) (n : nat) : Prop := {
  al_len : S (l + length pa) = L;
  al_wf : wf (S l) p;
  al_full : full p = false;
  al_path : path_ok l pa id;
  al_id : 0 <= id < B L;
  al_max : id <= 2 ^ 31;
  al_layers : layers idp = L;
  al_spare : spare idp n;
  al_content : forall x, 0 <= x < B L -> get L (plug p pa) x = M x;
}.

Lemma path_ok_upper l pa id id' : id' / B (S l) = id / B (S l) -> path_ok l pa id -> path_ok l pa id'.
Proof.
  revert l. induction pa as [|[q m] pa IH]; intros l H Hpa; [done|]. destruct Hpa as (-> & Hq & Hpa). cbn.
  unfold digit at 1 2. rewrite H. split_and!; [done | done |]. apply IH; [|done]. by apply (same_upper (S l)); [|lia].
Qed.

Lemma below_upper id id' l : (S l <= L)%nat -> 0 <= id < B L -> 0 <= id' -> id' / B (S l) = id / B (S l) -> id' < B L.
Proof.
  intros Hl Hid Hid' E. pose proof (same_upper (S l) id' id E L Hl) as E'. rewrite (Z.div_small id) in E' by lia.
  pose proof (B_pos L). apply Z.div_small_iff in E'; lia.
Qed.

Lemma al_move idp id id' l p pa n : at_layer idp id l p pa n -> id' / B (S l) = id / B (S l) -> 0 <= id' <= 2 ^ 31 ->
  at_layer idp id' l p pa n.
Proof.
  intros [] E Hid. split; try done; [by apply path_ok_upper with id | | lia]. split; [lia|].
  apply (below_upper id id' l); [lia | done | lia | done].
Qed.

(** Ids whose bits are set are in use. *)
Lemma walk_gap idp id l bm ary c pa n m : at_layer idp id l (Layer bm ary c) pa n -> digit l id <= m <= 32 ->
  (forall i, digit l id <= i < m -> Z.testbit bm i = true) ->
  forall x, id <= x < id / B (S l) * B (S l) + m * B l -> M x <> None.
Proof.
  intros [Hlen Hwf _ Hpath Hid _ _ _ Hcont] Hm Hbits x Hx. pose proof (B_pos l). pose proof (B_S l).
  pose proof (id_split l id) as Es. pose proof (Z.mod_pos_bound id (B l)).
  set (h := id / B (S l)) in *. pose proof (digit_range l id) as Hd.
  assert (Hxh : x / B (S l) = h) by (symmetry; apply Z.div_unique with (x - h * B (S l)); nia).
  pose proof (id_split l x) as Ex. rewrite Hxh in Ex. pose proof (Z.mod_pos_bound x (B l)). pose proof (digit_range l x) as Hdx.
  assert (Hxd : digit l id <= digit l x < m) by nia.
  assert (HxL : 0 <= x < B L) by (split; [lia|]; apply (below_upper id x l); [lia | done | lia | done]).
  rewrite <- Hcont by done. subst L. rewrite (get_plug_path l _ pa id x) by done.
  cbn [wf] in Hwf. destruct Hwf as (Hl32 & Hr & _ & Hch). cbn [get]. destruct (lookup_digit ary l x Hl32) as [y Hy]. rewrite Hy. cbn.
  destruct (Hch _ y ltac:(done) Hy) as [Hw Hb]. rewrite Z2Nat.id, Hbits in Hb by lia.
  destruct Hw as [-> |Hw]; [done|]. destruct (full_get l y x Hw ltac:(done)) as [? ->]. done.
Qed.

(** The id after a clear bit [m] was found. *)
Definition moved (l : nat) (id m : Z) : Z := if m =? digit l id then id else id / B (S l) * B (S l) + m * B l.

Lemma moved_ok idp id l bm ary c pa n m : at_layer idp id l (Layer bm ary c) pa n -> digit l id <= m < 32 ->
  (forall i, digit l id <= i < m -> Z.testbit bm i = true) ->
  let id' := moved l id m in at_layer idp id' l (Layer bm ary c) pa n /\ id <= id' /\ digit l id' = m /\
    (forall x, id <= x < id' -> M x <> None).
Proof.
  intros Hat Hm Hbits. cbv zeta. unfold moved. destruct (Z.eqb_spec m (digit l id)) as [E|E]; [split_and!; (done || lia)|].
  pose proof (walk_gap _ _ _ _ _ _ _ _ m Hat ltac:(lia) Hbits) as Hgap. pose proof (B_pos l). pose proof (B_S l).
  pose proof (id_split l id) as Es. pose proof (Z.mod_pos_bound id (B l)). set (h := id / B (S l)) in *.
  pose proof (digit_range l id). destruct (id_join l h m 0) as (Hu & Hdg & _); [lia..|]. rewrite Z.add_0_r in *.
  assert (id < h * B (S l) + m * B l) by nia. split_and!; [|lia | done | done].
  apply al_move with id; [done | done |]. split; [pose proof (al_id _ _ _ _ _ _ Hat); lia|].
  apply Z.nlt_ge. intros Hlt. pose proof (al_max _ _ _ _ _ _ Hat). by apply (Hgap (2 ^ 31)); [lia | apply HM; lia].
Qed.

(** ** Going down *)

Lemma al_child idp id l bm ary c pa n m child : at_layer idp id (S l) (Layer bm ary c) pa n -> m = digit (S l) id ->
  Z.testbit bm m = false -> ary !! Z.to_nat m = Some child -> child <> Null ->
  at_layer idp id l child ((Layer bm ary c, m) :: pa) n.
Proof.
  intros [Hlen Hwf _ Hpath Hid Hmax Hlay Hsp Hcont] Em Hb Hy Hne. pose proof (digit_range (S l) id). cbn [wf] in Hwf.
  pose proof Hwf as (Hl32 & Hr & Hc & Hch). destruct (Hch _ _ ltac:(done) Hy) as [[? | Hw] Hf]; [done|]. rewrite Z2Nat.id, Hb in Hf by lia.
  split; try done; [cbn; lia | | ].
  - split_and!; [done | | done]. split_and!; [|lia | lia | done | by exists child; split; [|apply wf_nonnull with (S l)]].
    split_and!; [done | done | done | intros i x _ Hx; by apply Hch].
  - intros x Hx. cbn [plug set_ary]. rewrite list_insert_id by done. by apply Hcont.
Qed.

Lemma al_new_child idp idp' id l bm ary c pa n n' m : at_layer idp id (S l) (Layer bm ary c) pa n -> m = digit (S l) id ->
  Z.testbit bm m = false -> ary !! Z.to_nat m = Some Null -> layers idp' = layers idp -> spare idp' n' ->
  at_layer idp' id l zero_layer ((Layer bm (<[Z.to_nat m := zero_layer]> ary) (c + 1), m) :: pa) n'.
Proof.
  intros [Hlen Hwf _ Hpath Hid Hmax Hlay Hsp Hcont] Em Hb Hy Hlay' Hsp'. pose proof (digit_range (S l) id). cbn [wf] in Hwf.
  pose proof Hwf as (Hl32 & Hr & _).
  assert (Hset : layer_ok (wf (S l)) None bm (<[Z.to_nat m := zero_layer]> ary) (c + 1)).
  { pose proof (layer_set (wf (S l)) None bm bm ary c m Null zero_layer) as H'. cbn [one nonnull zero_layer] in H'.
    replace (c - 0 + 1) with (c + 1) in H' by lia. apply H'; try done; [lia | right; apply zero_wf]. }
  destruct Hset as (Hl' & Hr' & Hc' & Hch'). split; [cbn; lia | apply zero_wf | done | | done | done | congruence | done |].
  - split_and!; [done | | done]. split_and!; [|lia | lia | done | exists zero_layer; split; [apply list_lookup_insert_eq; lia | done]].
    split_and!; [done | done | done | intros i x _ Hx; by apply Hch'].
  - intros x Hx. cbn [plug set_ary]. rewrite list_insert_insert_eq. rewrite <- Hcont by done. subst L. cbn [length].
    rewrite Nat.add_succ_l. apply (get_plug_same (S l)). clear x Hx. intros x. rewrite get_set by lia. destruct (Z.eqb_spec (digit (S l) x) m) as [E|]; [|done].
    rewrite zero_get. cbn [get]. by rewrite E, Hy.
Qed.

(** ** The result *)

(** With the first free id from [id] on, or without one; [need] spare layers are
    enough. *)
Definition outcome (id : Z) (need n : nat) (r : alloc_result) (idp : idr_context) : Prop :=
  layers idp = L /\ (exists n', spare idp n') /\ wf L (top idp) /\
  match r with
  | Placed v =>
      id <= v < B L /\ v < 2 ^ 31 /\ M v = None /\ (forall x, id <= x < v -> M x <> None) /\
      forall x, 0 <= x < B L -> get L (top idp) x = if x =? v then Some ptr else M x
  | Need_to_grow _ => False
  | No_space =>
      (forall x, 0 <= x < B L -> get L (top idp) x = M x) /\
      ((forall x, id <= x < 2 ^ 31 -> x < B L -> M x <> None) \/ (n < need)%nat)
  end.

Lemma outcome_later id id' need need' n n' r idp : id <= id' -> (forall x, id <= x < id' -> M x <> None) ->
  ((n' < need')%nat -> (n < need)%nat) -> outcome id' need' n' r idp -> outcome id need n r idp.
Proof.
  intros Hle Hused Hneed (Hl & Hsp & Hw & Hr). split_and!; [done | done | done |].
  assert (Hx : forall x y, (forall z, id' <= z < y -> M z <> None) -> id <= x < y -> M x <> None).
  { intros x y Hz Hxy. destruct (Z.lt_ge_cases x id'); [apply Hused; lia | apply Hz; lia]. }
  destruct r as [v| |]; [|done|].
  - destruct Hr as (Hv & Hm & Hn & Hu & Hg). split_and!; [lia | lia | done | done | | done]. intros x. by apply Hx.
  - destruct Hr as (Hg & [Hu|Hu]); (split; [done|]); [left | right; auto]. intros x Hx1 Hx2.
    destruct (Z.lt_ge_cases x id'); [apply Hused; lia | apply Hu; lia].
Qed.

Lemma no_space_ok idp id l p pa n need : at_layer idp id l p pa n ->
  2 ^ 31 <= id \/ (n < need)%nat -> outcome id need n No_space (set_top (plug p pa) idp).
Proof.
  intros [Hlen Hwf Hfull Hpath Hid Hmax Hlay Hsp Hcont] H. split_and!; [done | by exists n | | done | ].
  - cbn [top set_top]. rewrite <- Hlen. by apply plug_wf with id.
  - destruct H as [H|H]; [left; intros x Hx; lia | by right].
Qed.

Lemma leaf_ok idp id bm ary c pa n m need : at_layer idp id 0 (Layer bm ary c) pa n -> m = digit 0 id ->
  Z.testbit bm m = false -> id < 2 ^ 31 ->
  outcome id need n (Placed id)
    (set_top (mark_full 0 id (Layer (set_bit m bm) (<[Z.to_nat m := User ptr]> ary) (c + 1)) pa) idp).
Proof.
  intros [Hlen Hwf Hfull Hpath Hid Hmax Hlay Hsp Hcont] Em Hb Hlt. pose proof (digit_range 0 id). cbn [wf] in Hwf.
  pose proof Hwf as (Hl32 & Hr & Hc & Hch). destruct (lookup_digit ary 0 id Hl32) as [y Hy]. rewrite <- Em in Hy.
  assert (y = Null) as ->.
  { destruct (Hch _ y ltac:(done) Hy) as [[? | Hw] Hf]; [done|]. rewrite Z2Nat.id, Hb in Hf by lia. by destruct y. }
  set (p' := Layer (set_bit m bm) _ _).
  assert (Hw' : wf 1 p').
  { pose proof (layer_set (wf 0) None bm (set_bit m bm) ary c m Null (User ptr)) as H'. cbn [one nonnull] in H'.
    replace (c - 0 + 1) with (c + 1) in H' by lia. apply H'; try done; [lia | by apply set_bit_range; [lia|] | | by right |].
    - intros i Hi Hne. rewrite set_bit_spec by lia. by rewrite (proj2 (Z.eqb_neq i m)).
    - by rewrite set_bit_spec, Z.eqb_refl by lia. }
  assert (Hg' : forall x, get 1 p' x = if x mod B 1 =? id mod B 1 then Some ptr else get 1 (Layer bm ary c) x).
  { intros x. subst p'. rewrite (get_set 0 (set_bit m bm) ary (c + 1) m) by lia. cbn [get].
    pose proof (mod_digits 0 x id) as Hmd. change (B 0) with 1 in Hmd. rewrite !Z.mod_1_r in Hmd. rewrite <- Em in Hmd.
    destruct (Z.eqb_spec (digit 0 x) m), (Z.eqb_spec (x mod B 1) (id mod B 1)); tauto. }
  destruct (mark_full_ok 0 p' pa id Hw' Hpath) as [HwT HgT]; [lia|]. change (B 0) with 1 in HwT, HgT. rewrite Z.div_1_r in HwT, HgT.
  rewrite Hlen in HwT, HgT. split_and!; [done | by exists n | done | lia | lia | done | | lia |].
  - rewrite <- Hcont by done. rewrite <- Hlen. rewrite (get_plug_path 0 _ pa id id) by done. cbn [get]. by rewrite <- Em, Hy.
  - intros x Hx. cbn [top set_top]. rewrite HgT. rewrite <- Hlen. rewrite (get_plug_update 0 (Layer bm ary c) p' pa id (Some ptr)) by done.
    rewrite Hlen, Hcont by done. by rewrite !Z.mod_small by done.
Qed.

(** ** The steps of the loop *)

Lemma found_step fuel idp id l bm ary c pa n : at_layer idp id l (Layer bm ary c) pa n ->
  let m := find_next_bit (Z.lxor bm IDR_FULL) IDR_SIZE (digit l id) in
  let id' := moved l id m in
  m < 32 ->
  alloc_loop (S fuel) ptr idp id l (Layer bm ary c) pa =
  if 2 ^ 31 <=? id' then Some (No_space, set_top (plug (Layer bm ary c) pa) idp)
  else
    match l with
    | O => Some (Placed id', set_top (mark_full 0 id' (Layer (set_bit m bm) (<[Z.to_nat m := User ptr]> ary) (c + 1)) pa) idp)
    | S l =>
        child ← ary !! Z.to_nat m;
        match child with
        | Null =>
            match alloc_layer idp with
            | None => Some (No_space, set_top (plug (Layer bm ary c) pa) idp)
            | Some (pn, idp) => alloc_loop fuel ptr idp id' l pn ((Layer bm (<[Z.to_nat m := pn]> ary) (c + 1), m) :: pa)
            end
        | _ => alloc_loop fuel ptr idp id' l child ((Layer bm ary c, m) :: pa)
        end
    end.
Proof.
  intros Hat m id' Hm. pose proof (al_len _ _ _ _ _ _ Hat). cbn [alloc_loop]. rewrite shr_digit by lia. fold m.
  change IDR_SIZE with 32. rewrite (proj2 (Z.eqb_neq m 32)) by lia. change MAX_ID_BIT with (2 ^ 31).
  assert (Hr : in_w 32 bm) by apply (al_wf _ _ _ _ _ _ Hat). pose proof (digit_range l id) as Hd.
  destruct (find_clear bm (digit l id) Hr Hd) as (Hrange & Hset & _). fold m in Hrange, Hset.
  destruct (moved_ok _ _ _ _ _ _ _ _ m Hat ltac:(lia) Hset) as (Hat' & _). fold id' in Hat'.
  assert (E : (if negb (m =? digit l id) then u32 (shl (Z.lxor (Z.lxor (shr id (IDR_BITS * Z.of_nat l)) (digit l id)) m)
    (IDR_BITS * Z.of_nat l)) else id) = id').
  { subst id'. unfold moved in *. destruct (m =? digit l id); [done|]. cbn [negb]. rewrite replace_digit by lia.
    apply Z.mod_small. pose proof (al_id _ _ _ _ _ _ Hat'). pose proof (al_max _ _ _ _ _ _ Hat'). lia. }
  rewrite E. done.
Qed.

(** A clear bit was found: the walk ends here or goes down. *)
Lemma found_case fuel idp id l bm ary c pa n : at_layer idp id l (Layer bm ary c) pa n ->
  let m := find_next_bit (Z.lxor bm IDR_FULL) IDR_SIZE (digit l id) in
  let id' := moved l id m in
  m < 32 ->
  (exists r idp', alloc_loop (S fuel) ptr idp id l (Layer bm ary c) pa = Some (r, idp') /\ outcome id l n r idp') \/
  (exists l' child pa' idp1 n1, l = S l' /\ alloc_loop (S fuel) ptr idp id l (Layer bm ary c) pa = alloc_loop fuel ptr idp1 id' l' child pa' /\
     at_layer idp1 id' l' child pa' n1 /\ id <= id' /\ (forall x, id <= x < id' -> M x <> None) /\
     (n1 = n \/ n = S n1) /\ (child = zero_layer \/ n1 = n /\ ary !! Z.to_nat m = Some child)).
Proof.
  intros Hat m id' Hm. pose proof (al_wf _ _ _ _ _ _ Hat) as Hwf. cbn [wf] in Hwf. destruct Hwf as (Hl32 & Hr & _ & _).
  destruct (find_clear bm (digit l id) Hr (digit_range l id)) as (Hrange & Hset & Hclear). specialize (Hclear Hm). fold m in Hrange, Hset, Hclear.
  destruct (moved_ok _ _ _ _ _ _ _ _ m Hat ltac:(lia) Hset) as (Hat' & Hle & Hdg & Hused). fold id' in Hat', Hle, Hdg, Hused.
  rewrite (found_step fuel _ _ _ _ _ _ _ n Hat Hm). fold m id'.
  destruct (Z.leb_spec (2 ^ 31) id') as [Hbig|Hsmall].
  { left. eexists _, _. split; [done|]. apply (outcome_later id id' l 0 n n); [done | done | lia | apply (no_space_ok _ _ _ _ _ n 0 Hat'); by left]. }
  destruct l as [|l].
  { left. eexists _, _. split; [done|]. apply (outcome_later id id' 0 0 n n); [done | done | lia | by apply (leaf_ok _ _ _ _ _ _ n m 0 Hat')]. }
  destruct (lookup_digit ary (S l) id' Hl32) as [child Hy]. rewrite Hdg in Hy. rewrite Hy. cbn [mbind option_bind].
  assert (Hdec : child = Null \/ child <> Null) by (destruct child; auto). destruct Hdec as [->|Hne].
  - pose proof (alloc_layer_ok idp n (al_spare _ _ _ _ _ _ Hat)) as Ha. destruct n as [|n].
    + left. rewrite Ha. eexists _, _. split; [done|].
      apply (outcome_later id id' (S l) 1 0 0); [done | done | lia | apply (no_space_ok _ _ _ _ _ 0 1 Hat'); right; lia].
    + destruct Ha as (idp1 & -> & _ & Hlay & Hsp). right. eexists l, _, _, idp1, n. split_and!; try done; [|by right | by left].
      by apply (al_new_child idp idp1 id' l bm ary c pa (S n) n m Hat').
  - right. exists l, child, ((Layer bm ary c, m) :: pa), idp, n. split_and!; try done; [by destruct child | | by left | by right].
    by apply al_child.
Qed.

(** ** Where the walk cannot fail *)

(** Nothing of [id] is left below the layer, or the layer is empty. *)
Definition safe (l : nat) (p : node) (id : Z) : Prop := id mod B (S l) = 0 \/ forall x, get (S l) p x = None.

Lemma safe_found idp id l bm ary c pa n : at_layer idp id l (Layer bm ary c) pa n -> safe l (Layer bm ary c) id ->
  let m := find_next_bit (Z.lxor bm IDR_FULL) IDR_SIZE (digit l id) in
  m < 32 /\ (moved l id m mod B l = 0 \/ forall x y, ary !! Z.to_nat m = Some y -> get l y x = None).
Proof.
  intros Hat Hs. cbv zeta. pose proof (al_wf _ _ _ _ _ _ Hat) as Hwf. cbn [wf] in Hwf. destruct Hwf as (Hl32 & Hr & _ & Hch).
  pose proof (digit_range l id) as Hd. destruct (find_clear bm (digit l id) Hr Hd) as (Hrange & Hset & _).
  set (m := find_next_bit _ _ _) in *. pose proof (B_pos l). destruct Hs as [H0|Hempty].
  - assert (Hdm : digit l id = 0 /\ id mod B l = 0).
    { pose proof (mod_digits l id 0) as Hmd. rewrite H0, !Z.mod_0_l in Hmd by (rewrite ?B_S; lia).
      unfold digit at 2 in Hmd. by rewrite Z.div_0_l in Hmd by lia; apply Hmd. }
    destruct Hdm as [Hd0 Hm0]. split.
    + apply Z.nle_gt. intros Hge. pose proof (al_full _ _ _ _ _ _ Hat) as Hf. cbn in Hf. apply Z.eqb_neq in Hf. apply Hf.
      apply bitmap_full; [done|]. intros i Hi. apply Hset. lia.
    + left. unfold moved. destruct (m =? digit l id); [done|]. rewrite B_S.
      replace (_ + m * B l) with ((id / (32 * B l) * 32 + m) * B l) by lia. apply Z.mod_mul. lia.
  - assert (Hclear : forall i, 0 <= i < 32 -> Z.testbit bm i = false).
    { intros i Hi. destruct (lookup_lt_is_Some_2 ary (Z.to_nat i)) as [y Hy]; [lia|].
      destruct (Hch _ y ltac:(done) Hy) as [Hw Hb]. rewrite Z2Nat.id in Hb by lia. rewrite Hb. destruct Hw as [-> |Hw]; [done|].
      destruct (full y) eqn:Ef; [|done]. destruct (id_join l 0 i 0) as (_ & Hdi & _); [lia..|].
      specialize (Hempty (0 * B (S l) + i * B l + 0)). cbn [get] in Hempty. rewrite Hdi, Hy in Hempty. cbn in Hempty.
      by destruct (full_get l y (0 * B (S l) + i * B l + 0) Hw Ef) as [? ?]; congruence. }
    assert (m = digit l id) as Em.
    { destruct (decide (m = digit l id)) as [|Hne]; [done|]. pose proof (Hset (digit l id) ltac:(lia)) as Hb. rewrite Hclear in Hb by lia. done. }
    split; [lia|]. right. intros x y Hy. destruct (id_join l 0 m (x mod B l)) as (_ & Hdi & Hmi); [lia | apply Z.mod_pos_bound; lia |].
    specialize (Hempty (0 * B (S l) + m * B l + x mod B l)). cbn [get] in Hempty. rewrite Hdi, Hy in Hempty. cbn in Hempty.
    rewrite <- Hempty. by apply get_mod.
Qed.

Lemma alloc_safe fuel idp id l p pa n : at_layer idp id l p pa n -> safe l p id -> (l < fuel)%nat ->
  exists r idp', alloc_loop fuel ptr idp id l p pa = Some (r, idp') /\ outcome id l n r idp'.
Proof.
  revert fuel idp id p pa n. induction l as [|l IH]; intros fuel idp id p pa n Hat Hs Hfuel.
  all: destruct fuel as [|fuel]; [lia|]; destruct p as [| |bm ary c]; [by destruct (al_wf _ _ _ _ _ _ Hat)..|].
  all: destruct (safe_found _ _ _ _ _ _ _ _ Hat Hs) as [Hm Hbelow].
  all: destruct (found_case fuel _ _ _ _ _ _ _ n Hat Hm) as [Hdone | (l' & child & pa' & idp1 & n1 & El & Hloop & Hat1 & Hle & Hused & Hn & Hchild)]; [done|].
  - done.
  - injection El as <-. rewrite Hloop. destruct (IH fuel _ _ _ _ _ Hat1) as (r & idp' & -> & Ho); [|lia|].
    + destruct Hchild as [-> |[_ Hy]]; [right; apply zero_get|]. destruct Hbelow as [?|He]; [by left | right; intros x; by apply He].
    + eexists _, _. split; [done|]. eapply outcome_later; [exact Hle | exact Hused | | exact Ho]. lia.
Qed.

(** ** Going up *)

(** No clear bit was left: the walk goes on with the next id, one layer up or from the
    top. *)
Lemma up_case fuel idp id l bm ary c pa n y : at_layer idp id l (Layer bm ary c) pa n ->
  find_next_bit (Z.lxor bm IDR_FULL) IDR_SIZE (digit l id) = 32 -> id <= y < B L -> M y = None ->
  let id' := (id / B (S l) + 1) * B (S l) in
  exists l' p' pa', alloc_loop (S fuel) ptr idp id l (Layer bm ary c) pa = alloc_loop fuel ptr idp id' l' p' pa' /\
    at_layer idp id' l' p' pa' n /\ (S l <= l')%nat /\ id <= id' <= y /\ (forall x, id <= x < id' -> M x <> None).
Proof.
  intros Hat Hm Hy Hfree. cbv zeta. pose proof (al_wf _ _ _ _ _ _ Hat) as Hwf. pose proof Hwf as (Hl32 & Hr & _ & _).
  destruct (find_clear bm (digit l id) Hr (digit_range l id)) as (Hrange & Hset & _). rewrite Hm in Hrange, Hset.
  pose proof (walk_gap _ _ _ _ _ _ _ _ 32 Hat ltac:(pose proof (digit_range l id); lia) Hset) as Hused.
  pose proof (B_S l) as HB. pose proof (B_pos l). pose proof (al_len _ _ _ _ _ _ Hat) as Hlen. pose proof (al_id _ _ _ _ _ _ Hat) as Hid.
  pose proof (al_max _ _ _ _ _ _ Hat) as Hmax. pose proof (Z.mod_pos_bound id (B (S l)) ltac:(lia)).
  pose proof (Z_div_mod_eq_full id (B (S l))) as Ed.
  replace (id / B (S l) * B (S l) + 32 * B l) with ((id / B (S l) + 1) * B (S l)) in Hused by lia.
  set (id' := (id / B (S l) + 1) * B (S l)) in *. assert (Hlt : id < id') by (subst id'; nia).
  assert (Hid'y : id' <= y) by (apply Z.nlt_ge; intros ?; apply (Hused y); [lia | done]).
  assert (Hid31 : id' <= 2 ^ 31) by (apply Z.nlt_ge; intros ?; apply (Hused (2 ^ 31)); [lia | apply HM; lia]).
  destruct pa as [|[q k] pa].
  { exfalso. assert (EL : B L = B (S l)) by (f_equal; cbn in Hlen; lia). rewrite EL in Hid, Hy.
    subst id'. rewrite (Z.div_small id) in Hid'y by lia. lia. }
  cbn [length] in Hlen. cbn [alloc_loop]. rewrite shr_digit, Hm by lia. change IDR_SIZE with 32. rewrite Z.eqb_refl.
  rewrite next_id by lia. fold id'.
  replace (u32 id') with id' by (symmetry; apply Z.mod_small; lia).
  destruct (al_path _ _ _ _ _ _ Hat) as (Ek & Hq & Hpa).
  assert (Hw' : wf (S (S l)) (set_ary q k (Layer bm ary c))) by (apply hole_plug; [done | done | apply (al_full _ _ _ _ _ _ Hat)]).
  assert (Hf' : full (set_ary q k (Layer bm ary c)) = false) by (by apply (hole_not_full (S l))).
  pose proof (al_content _ _ _ _ _ _ Hat) as Hcont. cbn [plug] in Hcont.
  destruct (Z.eqb_spec (shr id (IDR_BITS * Z.of_nat (S (S l)))) (shr id' (IDR_BITS * Z.of_nat (S (S l))))) as [Esh|Esh].
  - exists (S l), (set_ary q k (Layer bm ary c)), pa. split_and!; [done | | lia | lia | lia | done].
    split; try done; [lia | | lia | apply (al_layers _ _ _ _ _ _ Hat) | apply (al_spare _ _ _ _ _ _ Hat)].
    destruct pa as [|qk pa]; [done|]. cbn [length] in Hlen. apply path_ok_upper with id; [|done].
    unfold shr, IDR_BITS in Esh. rewrite Z.mod_small, !Z.shiftr_div_pow2 in Esh by lia. done.
  - exists (pred L), (plug (set_ary q k (Layer bm ary c)) pa), []. rewrite (al_layers _ _ _ _ _ _ Hat).
    split_and!; [done | | lia | lia | lia | done].
    split; try done; [cbn; lia | | by apply (plug_not_full (S l) _ pa id) | lia | apply (al_layers _ _ _ _ _ _ Hat) | apply (al_spare _ _ _ _ _ _ Hat)].
    replace (S (pred L)) with (S (S l + length pa)) by lia. by apply plug_wf with id.
Qed.

(** Every way up ends higher than the one before. *)
Lemma alloc_walk fuel idp id l p pa n z y : at_layer idp id l p pa n -> (z <= l)%nat -> id mod B z = 0 ->
  id <= y < B L -> M y = None -> ((L - z) * S L + l < fuel)%nat ->
  exists r idp', alloc_loop fuel ptr idp id l p pa = Some (r, idp') /\ outcome id (pred L) n r idp'.
Proof.
  revert idp id l p pa n z. induction fuel as [|fuel IH]; intros idp id l p pa n z Hat Hz Hid0 Hy Hfree Hfuel; [by apply Nat.nlt_0_r in Hfuel|].
  assert (Hl : (l < fuel + 1)%nat) by (pose proof (Nat.le_0_l ((L - z) * S L)); lia).
  pose proof (al_len _ _ _ _ _ _ Hat) as Hlen. destruct p as [| |bm ary c]; [by destruct (al_wf _ _ _ _ _ _ Hat)..|].
  assert (Hr : in_w 32 bm) by apply (al_wf _ _ _ _ _ _ Hat).
  destruct (find_clear bm (digit l id) Hr (digit_range l id)) as (Hrange & _).
  destruct (decide (find_next_bit (Z.lxor bm IDR_FULL) IDR_SIZE (digit l id) = 32)) as [Hm|Hm].
  - destruct (up_case fuel _ _ _ _ _ _ _ n y Hat Hm Hy Hfree) as (l' & p' & pa' & -> & Hat' & Hl' & Hle & Hused).
    pose proof (al_len _ _ _ _ _ _ Hat').
    assert (Hmul : ((L - S l) * S L + S L <= (L - z) * S L)%nat) by (rewrite <- Nat.mul_succ_l; apply Nat.mul_le_mono_r; lia).
    destruct (IH _ _ _ _ _ _ (S l) Hat' Hl') as (r & idp' & -> & Ho); [by apply Z.mod_mul; pose proof (B_pos (S l)); lia | lia | done | lia |].
    eexists _, _. split; [done|]. eapply outcome_later; [| exact Hused | | exact Ho]; lia.
  - destruct (found_case fuel _ _ _ _ _ _ _ n Hat ltac:(lia)) as [(r & idp' & -> & Ho) | (l' & child & pa' & idp1 & n1 & -> & -> & Hat1 & Hle & Hused & Hn & Hchild)].
    { eexists _, _. split; [done|]. eapply outcome_later; [| | | exact Ho]; lia. }
    set (m := find_next_bit _ _ _) in *.
    assert (Hcase : safe l' child (moved (S l') id m) \/ n1 = n /\ moved (S l') id m = id /\ (z <= l')%nat).
    { destruct Hchild as [-> |[-> _]]; [left; right; apply zero_get|]. unfold moved. destruct (m =? digit (S l') id).
      - destruct (decide (z <= l')%nat); [by right | left; left]. by replace (S l') with z by lia.
      - left. left. pose proof (B_pos (S l')). rewrite (B_S (S l')).
        replace (_ + m * B (S l')) with ((id / (32 * B (S l')) * 32 + m) * B (S l')) by lia. apply Z.mod_mul. lia. }
    destruct Hcase as [Hs|(-> & E & Hz')].
    + destruct (alloc_safe fuel _ _ _ _ _ _ Hat1 Hs) as (r & idp' & -> & Ho); [lia|].
      eexists _, _. split; [done|]. eapply outcome_later; [exact Hle | exact Hused | | exact Ho]. lia.
    + rewrite E in *. apply (IH _ _ _ _ _ _ z Hat1); [done | done | done | done | lia].
Qed.
End walk.
