(* ===== verification/IdtreeMap.v ===== *)
(** * Id trees: the map they implement

    Growing, removal and search, and the theorems on the public functions. *)

From stdpp Require Import prelude list gmap.
From S2P Require Import Prelude.
From S2P Require Import Idtree.
From S2P Require Import IdtreeProps.
From S2P Require Import IdtreeAlloc.

#[local] Open Scope Z_scope.

(** ** Trees and maps *)

(** A tree of [L] layers with the content [M]. *)
Record tree_ok (T : node) (L : nat) (M : Z -> option Z) : Prop := {
  to_layers : (1 <= L <= 7)%nat;
  to_wf : wf L T;
  to_get : forall x, 0 <= x < B L -> get L T x = M x;
  to_outside : forall x, x < 0 \/ B L <= x \/ 2 ^ 31 <= x -> M x = None;
}.

(** The id [y] is not in use. *)
Lemma free_not_full T L M y : tree_ok T L M -> 0 <= y < B L -> M y = None -> full T = false.
Proof.
  intros HT Hy Hn. destruct (full T) eqn:E; [|done]. destruct (full_get L T y (to_wf _ _ _ HT) E) as [v Hv].
  rewrite (to_get _ _ _ HT) in Hv by done. congruence.
Qed.

Lemma sub_alloc_ok idp ptr L M n id y : tree_ok (top idp) L M -> layers idp = L -> spare idp n ->
  0 <= id < 2 ^ 31 -> id <= y < B L -> M y = None ->
  exists r idp', sub_alloc idp ptr id = Some (r, idp') /\ outcome (ptr := ptr) (L := L) (M := M) id (pred L) n r idp'.
Proof.
  intros HT HL Hsp Hid Hy Hfree. unfold sub_alloc. pose proof (to_layers _ _ _ HT) as Hlay. rewrite HL.
  replace (u32 id) with id by (symmetry; apply Z.mod_small; lia).
  assert (HM : forall x, 2 ^ 31 <= x -> M x = None) by (intros x Hx; apply (to_outside _ _ _ HT); auto).
  apply (alloc_walk Hlay HM ALLOC_FUEL idp id (pred L) (top idp) [] n 0 y);
    [|lia | apply Z.mod_1_r | done | done |].
  - assert (ES : S (pred L) = L) by lia. split; try done; [cbn; lia | rewrite ES; apply HT | by apply (free_not_full _ L M y HT); [lia|] | lia | lia |].
    apply (to_get _ _ _ HT).
  - unfold ALLOC_FUEL. rewrite Nat.sub_0_r. assert (L * S L <= 56)%nat by (apply (Nat.mul_le_mono L 7 (S L) 8); lia). lia.
Qed.

(** A full tree has to grow. *)
Lemma sub_alloc_full idp ptr L M id : tree_ok (top idp) L M -> layers idp = L -> (L <= 6)%nat -> 0 <= id < B L ->
  (forall x, 0 <= x < B L -> M x <> None) ->
  sub_alloc idp ptr id = Some (Need_to_grow (B L), set_top (top idp) idp).
Proof.
  intros HT HL HL6 Hid Hall. unfold sub_alloc. pose proof (to_layers _ _ _ HT) as Hlay. pose proof (to_wf _ _ _ HT) as Hwf.
  assert (Hf : full (top idp) = true).
  { apply (all_full L); [done|]. intros x Hx. rewrite (to_get _ _ _ HT) by done. specialize (Hall x Hx). by destruct (M x). }
  assert (Hmax : B L <= 2 ^ 30) by (apply (B_mono L 6); lia).
  rewrite HL. replace (u32 id) with id by (symmetry; apply Z.mod_small; lia).
  destruct L as [|l]; [lia|]. destruct (top idp) as [| |bm ary c] eqn:E; [done..|]. assert (Hfuel : exists f, ALLOC_FUEL = S f) by (by exists 63%nat). destruct Hfuel as [fuel ->]. cbn [pred alloc_loop].
  destruct Hwf as (_ & Hr & _). rewrite shr_digit by lia. cbn in Hf. apply Z.eqb_eq in Hf. pose proof (digit_range l id).
  destruct (find_clear bm (digit l id) Hr ltac:(done)) as (Hm1 & _ & Hm2). set (m := find_next_bit _ _ _) in *.
  destruct (decide (m < 32)) as [Hlt|Hge].
  { specialize (Hm2 Hlt). rewrite (proj1 (bitmap_full bm Hr) Hf) in Hm2 by lia. done. }
  replace m with IDR_SIZE by (change IDR_SIZE with 32; lia). rewrite Z.eqb_refl, next_id by lia.
  rewrite (Z.div_small id) by lia. replace (u32 ((0 + 1) * B (S l))) with (B (S l)); [done|].
  symmetry. rewrite Z.mul_1_l. apply Z.mod_small. pose proof (B_pos (S l)). lia.
Qed.

(** ** Growing *)

Lemma empty_taller p L M : tree_ok p L M -> count_of p = 0 -> (L < 7)%nat -> tree_ok p (S L) M /\ forall x, M x = None.
Proof.
  intros HT Hc HL. pose proof (to_layers _ _ _ HT). pose proof (to_wf _ _ _ HT) as Hwf. destruct L as [|l]; [lia|].
  destruct p as [| |bm ary c]; [done..|]. cbn in Hc. subst c. pose proof Hwf as (Hlen & Hr & Hc & Hch).
  assert (Hnull : forall i x, ary !! i = Some x -> x = Null) by (intros i x; by apply occupied_zero).
  assert (Hget : forall k x, get (S k) (Layer bm ary 0) x = None).
  { intros k x. cbn [get]. destruct (ary !! _) as [y|] eqn:Ey; [|done]. rewrite (Hnull _ _ Ey). cbn. apply get_null. }
  assert (HM : forall x, M x = None).
  { intros x. destruct (decide (0 <= x < B (S l))); [by rewrite <- (to_get _ _ _ HT), Hget | apply (to_outside _ _ _ HT); lia]. }
  split; [|done]. split; [lia | | intros x _; by rewrite HM, Hget | intros; apply HM].
  split_and!; [done..|]. intros i x _ Hx. destruct (Hch i x ltac:(done) Hx) as [_ Hb]. rewrite Hb. split; [left; by apply (Hnull i) | done].
Qed.

Lemma new_top p L M : tree_ok p L M -> (L < 7)%nat ->
  tree_ok (Layer (if bitmap_of p =? IDR_FULL then set_bit 0 0 else 0) (<[0%nat := p]> (replicate 32 Null)) 1) (S L) M.
Proof.
  intros HT HL. pose proof (to_layers _ _ _ HT). set (bm := if bitmap_of p =? IDR_FULL then set_bit 0 0 else 0).
  assert (Hf : full p = (bitmap_of p =? IDR_FULL)) by (pose proof (to_wf _ _ _ HT); destruct L as [|l], p; (lia || done)).
  assert (Hbit : in_w 32 bm /\ forall i, 0 <= i -> Z.testbit bm i = (i =? 0) && full p).
  { rewrite Hf. subst bm. destruct (bitmap_of p =? IDR_FULL); (split; [by vm_compute; split; [|done] |]); intros i Hi.
    - rewrite set_bit_spec, Z.bits_0 by lia. by destruct (i =? 0).
    - by rewrite Z.bits_0, andb_false_r. }
  destruct Hbit as [Hr Hbit]. split; [lia | | |].
  - pose proof (layer_set (wf L) None 0 bm (replicate 32 Null) 0 0 Null p) as H'. cbn [one nonnull] in H'.
    unfold one in H'. rewrite (wf_nonnull L p) in H' by apply HT. apply H'; try done; [apply (zero_wf L) | | right; apply HT | by rewrite Hbit].
    intros i Hi Hne. rewrite Hbit, Z.bits_0, (proj2 (Z.eqb_neq i 0)) by lia. done.
  - intros x Hx. change (<[0%nat := p]> (replicate 32 Null)) with (<[Z.to_nat 0 := p]> (replicate 32 Null)).
    rewrite get_set by done. pose proof (B_S L). pose proof (B_pos L).
    pose proof (id_split L x) as Es. rewrite (Z.div_small x (B (S L))) in Es by lia. pose proof (Z.mod_pos_bound x (B L)). pose proof (digit_range L x).
    destruct (Z.eqb_spec (digit L x) 0) as [E|E].
    + apply (to_get _ _ _ HT). nia.
    + rewrite (to_outside _ _ _ HT) by nia. apply (zero_get (S L)).
  - intros x Hx. apply (to_outside _ _ _ HT). pose proof (B_S L). pose proof (B_pos L). lia.
Qed.

(** The layers put on top of the tree. *)
Fixpoint chain (added : nat) (p : node) : Prop :=
  match added, p with
  | O, _ => True
  | S added, Layer _ ary _ =>
      length ary = 32%nat /\ (forall i x, ary !! S i = Some x -> x = Null) /\ exists nx, ary !! 0%nat = Some nx /\ chain added nx
  | _, _ => False
  end.

Lemma chain_new added p bm : chain added p -> chain (S added) (Layer bm (<[0%nat := p]> (replicate 32 Null)) 1).
Proof.
  intros H. split_and!; [done | | by exists p]. intros i x Hx. rewrite list_lookup_insert_ne in Hx by done. by apply zero_null in Hx.
Qed.

Lemma tear_down_ok added idp p n : chain added p -> spare idp n ->
  let idp' := tear_down added idp p in top idp' = top idp /\ layers idp' = layers idp /\ spare idp' (n + added).
Proof.
  cbv zeta. revert idp p n. induction added as [|added IH]; intros idp p n Hc Hs; [by rewrite Nat.add_0_r|].
  destruct p as [| |bm ary c]; [done..|]. destruct Hc as (Hlen & Hnull & nx & Hnx & Hc). cbn [tear_down]. rewrite Hnx. change (default Null (Some nx)) with nx.
  destruct (IH (free_layer idp (Layer 0 (<[0%nat := Null]> ary) 0)) nx (S n) Hc) as (-> & -> & Hsp).
  - apply free_layer_ok; [done | by rewrite length_insert |]. intros i x Hx. rewrite list_lookup_insert_ne in Hx by done. by apply Hnull in Hx.
  - split_and!; [done | done |]. by replace (n + S added)%nat with (S n + added)%nat by lia.
Qed.

Lemma grow_ok more added idp id L p n M : tree_ok p L M -> (more = 7 - L)%nat -> chain added p -> spare idp n ->
  match grow more added idp id L p with
  | (Some (p', L'), idp') =>
      tree_ok p' L' M /\ (L <= L')%nat /\ (id < B L' \/ L' = 7%nat) /\ (id < B L -> p' = p /\ L' = L) /\
      top idp' = top idp /\ layers idp' = layers idp /\ exists n', spare idp' n' /\ (n + L <= n' + L')%nat
  | (None, idp') => top idp' = top idp /\ layers idp' = layers idp /\ (exists n', spare idp' n') /\ (n + L < 7)%nat
  end.
Proof.
  revert added idp L p n. induction more as [|more IH]; intros added idp L p n HT Hmore Hch Hsp; cbn [grow].
  { pose proof (to_layers _ _ _ HT). split_and!; [done | lia | right; lia | done | done | done | by exists n]. }
  unfold IDR_BITS. rewrite Z.mul_comm, Z.shiftl_1_l. fold (B L). pose proof (B_mono L (S L) ltac:(lia)) as HB.
  destruct (Z.leb_spec (B L) id) as [Hge|Hlt]; [|split_and!; [done | lia | by left | done | done | done | by exists n]].
  destruct (Z.eqb_spec (count_of p) 0) as [Hc|Hc].
  - destruct (empty_taller p L M HT Hc ltac:(lia)) as [HT' _]. specialize (IH added idp (S L) p n HT' ltac:(lia) Hch Hsp).
    destruct (grow more added idp id (S L) p) as [[[p' L']|] idp'].
    + destruct IH as (? & ? & ? & _ & ? & ? & n' & ? & ?). split_and!; [done | lia | done | lia | done | done | exists n'; split; [done | lia]].
    + destruct IH as (? & ? & ? & ?). split_and!; [done | done | done | lia].
  - pose proof (alloc_layer_ok idp n Hsp) as Ha. destruct n as [|n].
    { rewrite Ha. destruct (tear_down_ok added idp p 0 Hch Hsp) as (? & ? & ?). split_and!; [done | done | by eexists | lia]. }
    destruct Ha as (idp1 & -> & Ht & Hl & Hsp1). unfold zero_layer.
    specialize (IH (S added) idp1 (S L) _ n (new_top p L M HT ltac:(lia)) ltac:(lia)).
    destruct (grow more (S added) idp1 id (S L) _) as [[[p' L']|] idp'].
    + destruct IH as (? & ? & ? & _ & ? & ? & n' & ? & ?); [by apply chain_new | done |].
      split_and!; [done | lia | done | lia | congruence | congruence | exists n'; split; [done | lia]].
    + destruct IH as (? & ? & ? & ?); [by apply chain_new | done |].
      split_and!; [congruence | congruence | done | lia].
Qed.

(** ** Allocation *)

Definition ctx_ok (idp : idr_context) (M : Z -> option Z) (n : nat) : Prop :=
  spare idp n /\
  ((top idp = Null /\ layers idp = 0%nat /\ forall x, M x = None) \/ tree_ok (top idp) (layers idp) M).

Definition upd (M : Z -> option Z) (v : Z) (p : option Z) (x : Z) : option Z := if x =? v then p else M x.

(** The first free id from [start] on was given out; or there is none, or not enough
    memory. *)
Definition allocated (start ptr : Z) (M : Z -> option Z) (n : nat) (v : Z) (idp : idr_context) : Prop :=
  (start <= v < 2 ^ 31 /\ M v = None /\ (forall x, start <= x < v -> M x <> None) /\
     exists n', ctx_ok idp (upd M v (Some ptr)) n') \/
  (v = -1 /\ (exists n', ctx_ok idp M n') /\ ((forall x, start <= x < 2 ^ 31 -> M x <> None) \/ (n < 13)%nat)).

Lemma outcome_ctx idp r ptr L M id n need : (1 <= L <= 7)%nat -> 0 <= id ->
  (forall x, x < 0 \/ B L <= x \/ 2 ^ 31 <= x -> M x = None) -> outcome (ptr := ptr) (L := L) (M := M) id need n r idp ->
  exists n', match r with
             | Placed v => ctx_ok idp (upd M v (Some ptr)) n'
             | _ => ctx_ok idp M n'
             end.
Proof.
  intros HL Hid Hout (Hlay & (n' & Hsp) & Hw & Hr). exists n'. destruct r as [v| |]; [|done|].
  - destruct Hr as (Hv & Hmax & _ & _ & Hg). split; [done|]. right. rewrite Hlay. split; [done | done | done |].
    intros x Hx. unfold upd. destruct (Z.eqb_spec x v); [lia | by apply Hout].
  - split; [done|]. right. rewrite Hlay. split; [done | done | apply Hr | done].
Qed.

(** The turn of [build_up] from a tree on, where it has a free id or the start is
    outside. *)
Lemma grown_alloc fuel ptr idp p M n L start : tree_ok p L M -> spare idp n -> 0 <= start < 2 ^ 31 ->
  (exists y, start <= y < B L /\ M y = None) \/ B L <= start ->
  (forall idp' n', top idp' = top idp -> layers idp' = layers idp -> spare idp' n' -> ctx_ok idp' M n') ->
  exists v idp',
    match grow (MAX_LEVEL - L) 0 idp start L p with
    | (None, idp) => Some (-1, idp)
    | (Some (p, layers), idp) =>
        '(v, idp) ← sub_alloc (Idr p (id_free idp) layers (id_free_cnt idp)) ptr start;
        match v with
        | Placed id => Some (id, idp)
        | Need_to_grow id => build_up fuel ptr idp (i32 id)
        | No_space => Some (-1, idp)
        end
    end = Some (v, idp') /\ allocated start ptr M (n + L) v idp'.
Proof.
  intros HT Hsp Hst Hroom Hctx. pose proof (grow_ok (MAX_LEVEL - L) 0 idp start L p n M HT eq_refl I Hsp) as Hg.
  destruct (grow _ _ _ _ _ _) as [[[p1 L1]|] idp1].
  - destruct Hg as (HT1 & HL1 & Hlt & Hsame & Ht1 & Hl1 & n1 & Hsp1 & Hn1). pose proof (to_layers _ _ _ HT1) as HL7.
    assert (Hst1 : start < B L1) by (destruct Hlt as [?| ->]; [done | change (B 7) with (2 ^ 35); lia]).
    pose proof (B_mono L L1 HL1).
    assert (Hy : exists y, start <= y < B L1 /\ M y = None).
    { destruct Hroom as [(y & Hy & Hm)|Hout]; [exists y; split; [lia | done]|]. exists start. split; [lia | apply (to_outside _ _ _ HT); lia]. }
    destruct Hy as (y & Hy & Hfree).
    destruct (sub_alloc_ok (Idr p1 (id_free idp1) L1 (id_free_cnt idp1)) ptr L1 M n1 start y HT1 eq_refl Hsp1 Hst Hy Hfree) as (r & idp' & -> & Ho).
    cbn [mbind option_bind]. destruct (outcome_ctx idp' r ptr L1 M start n1 (pred L1) HL7 ltac:(lia) (to_outside _ _ _ HT1) Ho) as [n2 Hctx'].
    destruct Ho as (_ & _ & _ & Hr). destruct r as [v| |]; [|done|]; (eexists _, idp'; split; [done|]).
    + left. destruct Hr as (? & ? & ? & ? & _). split_and!; [lia | lia | done | done | by exists n2].
    + right. split; [done|]. split; [by exists n2|]. destruct Hr as (_ & [Hnone|Hmem]); [|right; lia].
      left. intros x Hx. destruct (Z.lt_ge_cases x (B L1)); [by apply Hnone|].
      exfalso. destruct (Z.lt_ge_cases y (2 ^ 31)); [by apply (Hnone y); [lia | lia |] | lia].
  - destruct Hg as (Ht & Hl & (n' & Hsp') & Hn). eexists _, idp1. split; [done|]. right. split_and!; [done | exists n'; by apply Hctx | right; lia].
Qed.

Lemma tree_not_null T L M : tree_ok T L M -> T <> Null.
Proof. intros HT ->. pose proof (to_wf _ _ _ HT) as Hw. by destruct L. Qed.

Lemma build_up_tree fuel ptr idp start : top idp <> Null ->
  build_up (S fuel) ptr idp start =
  match grow (MAX_LEVEL - layers idp) 0 idp start (layers idp) (top idp) with
  | (None, idp) => Some (-1, idp)
  | (Some (p, layers), idp) =>
      '(v, idp) ← sub_alloc (Idr p (id_free idp) layers (id_free_cnt idp)) ptr start;
      match v with
      | Placed id => Some (id, idp)
      | Need_to_grow id => build_up fuel ptr idp (i32 id)
      | No_space => Some (-1, idp)
      end
  end.
Proof. intros Hne. cbn [build_up]. destruct (top idp) eqn:E; [done | by rewrite E..]. Qed.

Lemma build_once fuel ptr idp M n start : ctx_ok idp M n -> 0 <= start < 2 ^ 31 ->
  (exists y, start <= y < B (layers idp) /\ M y = None) \/ B (layers idp) <= start ->
  exists v idp', build_up (S fuel) ptr idp start = Some (v, idp') /\ allocated start ptr M n v idp'.
Proof.
  intros [Hsp Hcase] Hst Hroom. destruct Hcase as [(Htop & Hlay & Hempty)|HT].
  - cbn [build_up]. rewrite Htop. pose proof (alloc_layer_ok idp n Hsp) as Ha. destruct n as [|n].
    { rewrite Ha. eexists _, idp. split; [done|]. right. split_and!; [done | exists 0%nat; split; [done | by left] | right; lia]. }
    destruct Ha as (idp1 & -> & Ht & Hl & Hsp1). rewrite Ht, Htop.
    assert (HT : tree_ok zero_layer 1 M) by (split; [lia | apply zero_wf | intros x _; by rewrite Hempty, zero_get | done]).
    destruct (grown_alloc fuel ptr idp1 zero_layer M n 1 start HT Hsp1 Hst) as (v & idp' & -> & Hal).
    + destruct (Z.lt_ge_cases start (B 1)); [left; exists start; split; [lia | done] | by right].
    + intros idp' n' Ht' Hl' Hs'. split; [done|]. left. split_and!; [congruence | congruence | done].
    + exists v, idp'. split; [done|]. destruct Hal as [?|(-> & ? & [?|?])]; [by left | right..]; split_and!; try done; [by left | right; lia].
  - rewrite build_up_tree by (by apply (tree_not_null _ _ _ HT)). destruct (grown_alloc fuel ptr idp (top idp) M n (layers idp) start HT Hsp Hst Hroom) as (v & idp' & Hrun & Hal).
    { intros idp' n' Ht' Hl' Hs'. split; [done|]. right. by rewrite Ht', Hl'. }
    exists v, idp'. split; [done|]. pose proof (to_layers _ _ _ HT).
    destruct Hal as [?|(-> & ? & [?|?])]; [by left | right..]; split_and!; try done; [by left | right; lia].
Qed.

(** When all ids of the tree are in use the second turn has one layer more. *)
Lemma build_full fuel ptr idp M n start : ctx_ok idp M n -> 0 <= start < B (layers idp) ->
  (forall x, 0 <= x < B (layers idp) -> M x <> None) ->
  exists v idp', build_up (S (S fuel)) ptr idp start = Some (v, idp') /\ allocated start ptr M n v idp'.
Proof.
  intros [Hsp Hcase] Hst Hall. pose proof (B_pos (layers idp)) as HB. destruct Hcase as [(Htop & Hlay & Hempty)|HT].
  { exfalso. by apply (Hall 0); [lia|]. }
  pose proof (to_layers _ _ _ HT) as HL. set (L := layers idp) in *.
  assert (HL6 : (L <= 6)%nat).
  { apply Nat.nlt_ge. intros Hgt. replace L with 7%nat in * by lia. apply (Hall (2 ^ 31)); [change (B 7) with (2 ^ 35); lia|].
    apply (to_outside _ _ _ HT). lia. }
  assert (Hmax : B L <= 2 ^ 30) by (apply (B_mono L 6); lia).
  pose proof (grow_ok (MAX_LEVEL - L) 0 idp start L (top idp) n M HT eq_refl I Hsp) as Hg.
  assert (Hgrow : grow (MAX_LEVEL - L) 0 idp start L (top idp) = (Some (top idp, L), idp)).
  { destruct (MAX_LEVEL - L)%nat; [done|]. cbn [grow]. unfold IDR_BITS. rewrite Z.mul_comm, Z.shiftl_1_l. fold (B L).
    by rewrite (proj2 (Z.leb_gt (B L) start)) by lia. }
  set (idp2 := set_top (top idp) idp).
  assert (Hstep : build_up (S (S fuel)) ptr idp start = build_up (S fuel) ptr idp2 (B L)).
  { rewrite (build_up_tree (S fuel)) by (by apply (tree_not_null _ _ _ HT)). fold L. rewrite Hgrow.
    rewrite (sub_alloc_full (Idr (top idp) (id_free idp) L (id_free_cnt idp)) ptr L M start HT eq_refl HL6 Hst Hall).
    cbn [mbind option_bind]. by rewrite i32_id by lia. }
  rewrite Hstep. destruct (build_once fuel ptr idp2 M n (B L)) as (v & idp' & Hrun & Hal).
  - split; [done | by right].
  - lia.
  - by right.
  - exists v, idp'. split; [done|].
    assert (Hx : forall x y, start <= x < y -> (forall z, B L <= z < y -> M z <> None) -> M x <> None).
    { intros x y Hx Hz. destruct (Z.lt_ge_cases x (B L)); [apply Hall; lia | apply Hz; lia]. }
    destruct Hal as [(Hv & Hm & Hu & Hc)|(-> & Hc & [Hu|Hu])]; [left | right..].
    + split_and!; [lia | lia | done | | done]. intros x Hxv. by apply (Hx x v).
    + split_and!; [done | done | left]. intros x Hxv. by apply (Hx x (2 ^ 31)).
    + split_and!; [done | done | by right].
Qed.

(** ** Removal *)

Lemma empty_layer l bm ary c : layer_ok (wf l) None bm ary c -> c = 0 ->
  bm = 0 /\ (forall i x, ary !! i = Some x -> x = Null) /\ forall x, get (S l) (Layer bm ary c) x = None.
Proof.
  intros (Hlen & Hr & Hc & Hch) ->. assert (Hnull : forall i x, ary !! i = Some x -> x = Null) by (intros i x; by apply occupied_zero).
  split_and!; [|done|].
  - apply bitmap_zero; [done|]. intros i Hi. destruct (lookup_lt_is_Some_2 ary (Z.to_nat i)) as [x Hx]; [lia|].
    destruct (Hch _ x ltac:(done) Hx) as [_ Hb]. rewrite Z2Nat.id in Hb by lia. by rewrite Hb, (Hnull _ _ Hx).
  - intros x. cbn [get]. destruct (ary !! _) as [y|] eqn:Ey; [|done]. rewrite (Hnull _ _ Ey). cbn. apply get_null.
Qed.

Lemma drop_empty_ok l bm ary c pa id idp n : layer_ok (wf l) None bm ary (c - 1) -> bm <> IDR_FULL -> path_ok l pa id -> spare idp n ->
  let L := S (l + length pa) in
  let '(T, gone, idp') := drop_empty idp (Layer bm ary c) pa in
  (exists n', spare idp' n') /\ layers idp' = layers idp /\
  (forall x, get L T x = get L (plug (Layer bm ary c) pa) x) /\ (if gone then T = Null else wf L T).
Proof.
  cbv zeta. revert l bm ary c idp n. induction pa as [|[q k] pa IH]; intros l bm ary c idp n Hok Hbm Hpa Hsp.
  all: cbn [drop_empty]; destruct (Z.eqb_spec (c - 1) 0) as [E|E].
  2, 4: split_and!; [by exists n | done | by apply (get_plug_same l) | by apply plug_wf with id; [|cbn; apply Z.eqb_neq|]].
  all: destruct (empty_layer l bm ary (c - 1) Hok E) as (-> & Hnull & Hget); rewrite E.
  all: pose proof (free_layer_ok idp n ary Hsp (proj1 Hok) (fun i x => Hnull (S i) x)) as Hsp'.
  - split_and!; [by eexists | done | | done]. intros x. rewrite get_null. cbn [plug length]. rewrite Nat.add_0_r. symmetry. apply (Hget x).
  - destruct Hpa as (Ek & Hq & Hpa). pose proof (hole_not_full (S l) q k Null Hq) as Hnf.
    destruct q as [| |bq aq cq]; [done..|]. cbn [set_ary] in *. destruct Hq as (Hokq & Hk & Hb & y & Hy & Hny).
    assert (Hset : layer_ok (wf (S l)) None bq (<[Z.to_nat k := Null]> aq) (cq - 1)).
    { pose proof (layer_set (wf (S l)) (Some k) bq bq aq cq k y Null) as H. unfold one in H. rewrite Hny in H. cbn [nonnull] in H.
      replace (cq - 1 + 0) with (cq - 1) in H by lia. apply H; try done; [by intros j [= ->] | apply Hokq | by left]. }
    specialize (IH (S l) bq _ cq (free_layer idp (Layer 0 ary 0)) (S n) Hset ltac:(by apply Z.eqb_neq) Hpa Hsp').
    destruct (drop_empty _ _ _) as [[T gone] idp']. cbn [length]. rewrite Nat.add_succ_r. destruct IH as (Hs' & Hl' & Hg' & Hw').
    split_and!; [done | done | | done]. intros x. rewrite Hg'. cbn [plug]. apply (get_plug_same (S l)). clear x. intros x. cbn [set_ary].
    rewrite !get_set by (done || apply Hokq). destruct (digit (S l) x =? k); [|done]. rewrite get_null. symmetry. apply (Hget x).
Qed.

(** What a removal leaves: the id is gone, or it was not there. *)
Definition removed (idp' : idr_context) (L : nat) (old : Z -> option Z) (id r : Z) : Prop :=
  (exists n', spare idp' n') /\
  ((layers idp' = L /\ wf L (top idp')) \/ (r = 0 /\ layers idp' = 0%nat /\ top idp' = Null)) /\
  (forall x, get L (top idp') x = if (r =? 0) && (x mod B L =? id mod B L) then None else old x).

(** Following one pointer. *)
Lemma clear_hole l bm ary c m child : wf (S (S l)) (Layer bm ary c) -> 0 <= m < 32 -> ary !! Z.to_nat m = Some child ->
  nonnull child = true -> hole_ok (S l) (Layer (clear_bit m bm) ary c) m.
Proof.
  intros (Hlen & Hr & Hc & Hch) Hm Hy Hn. split_and!; [|lia | lia | by rewrite clear_bit_spec, Z.eqb_refl by lia | by exists child].
  split_and!; [done | by apply clear_bit_range | done |]. intros i x Hne Hx. rewrite clear_bit_spec by lia.
  rewrite (proj2 (Z.eqb_neq (Z.of_nat i) m)) by congruence. by apply Hch.
Qed.

Lemma remove_loop_ok l idp id p pa n : wf (S l) p -> path_ok l pa id -> layers idp = S (l + length pa) -> spare idp n ->
  let L := S (l + length pa) in
  exists r idp', remove_loop l idp id p pa = Some (r, idp') /\ removed idp' L (get L (plug p pa)) id r /\
    (r = match get (S l) p id with Some _ => 0 | None => -1 end).
Proof.
  cbv zeta. revert p pa. induction l as [|l IH]; intros p pa Hw Hpa Hlay Hsp; destruct p as [| |bm ary c]; try done.
  - cbn [remove_loop]. replace (Z.land id IDR_MASK) with (digit 0 id) by (pose proof (shiftr_digit 0 id) as H; by rewrite Z.shiftr_0_r in H).
    pose proof (digit_range 0 id) as Hd. set (m := digit 0 id) in *. rewrite test_bit_testbit by lia.
    pose proof Hw as (Hlen & Hr & Hc & Hch). destruct (lookup_digit ary 0 id Hlen) as [y Hy]. fold m in Hy.
    destruct (Hch _ y ltac:(done) Hy) as [Hwy Hb]. rewrite Z2Nat.id in Hb by lia. rewrite Hb.
    assert (Hg : get 1 (Layer bm ary c) id = get 0 y id) by (cbn [get]; fold m; by rewrite Hy). rewrite Hg.
    destruct Hwy as [-> |Hwy].
    + eexists _, _. split; [done|]. split; [|done]. split_and!; [by exists n | left; split; [done|] | done].
      cbn [top set_top]. apply plug_wf with id; [done | | done]. destruct (full (Layer bm ary c)) eqn:Ef; [|done].
      destruct (full_get 1 _ id Hw Ef) as [? Hs]. by rewrite Hg in Hs.
    + destruct y as [|u|]; [done| |done]. cbn [full get].
      assert (Hset : layer_ok (wf 0) None (clear_bit m bm) (<[Z.to_nat m := Null]> ary) (c - 1)).
      { pose proof (layer_set (wf 0) None bm (clear_bit m bm) ary c m (User u) Null) as H. cbn [one nonnull] in H.
        replace (c - 1 + 0) with (c - 1) in H by lia. apply H; try done; [by apply clear_bit_range | | by left |].
        - intros i Hi Hne. rewrite clear_bit_spec by lia. by rewrite (proj2 (Z.eqb_neq i m)).
        - by rewrite clear_bit_spec, Z.eqb_refl by lia. }
      assert (Hnf : clear_bit m bm <> IDR_FULL).
      { intros E. pose proof (proj1 (bitmap_full _ (clear_bit_range m bm Hd Hr)) E m Hd) as H.
        by rewrite clear_bit_spec, Z.eqb_refl in H by lia. }
      pose proof (drop_empty_ok 0 _ _ c pa id idp n Hset Hnf Hpa Hsp) as Hdrop.
      destruct (drop_empty _ _ _) as [[T gone] idp']. destruct Hdrop as ((n' & Hsp') & Hl' & Hg' & Hw').
      eexists _, _. split; [done|]. split; [|done]. split_and!; [by exists n' | |].
      * destruct gone; [right; by subst T | left]. cbn. by rewrite Hl'.
      * intros x. cbn [top Z.eqb andb]. rewrite Hg'. apply (get_plug_update 0); [done|]. clear x. intros x.
        rewrite (get_set 0) by done. cbn [get]. pose proof (mod_digits 0 x id) as Hmd. change (B 0) with 1 in Hmd.
        rewrite !Z.mod_1_r in Hmd. fold m in Hmd. destruct (Z.eqb_spec (digit 0 x) m), (Z.eqb_spec (x mod B 1) (id mod B 1)); tauto.
  - cbn [remove_loop]. rewrite shiftr_digit. pose proof (digit_range (S l) id) as Hd. set (m := digit (S l) id) in *.
    pose proof Hw as (Hlen & Hr & Hc & Hch). destruct (lookup_digit ary (S l) id Hlen) as [child Hy]. fold m in Hy. rewrite Hy. cbn [mbind option_bind].
    destruct (Hch _ child ltac:(done) Hy) as [Hwy Hb]. rewrite Z2Nat.id in Hb by lia.
    assert (Hg : get (S (S l)) (Layer bm ary c) id = get (S l) child id) by (cbn [get]; fold m; by rewrite Hy). rewrite Hg.
    destruct Hwy as [-> |Hwy].
    + rewrite get_null. assert (Hrun : remove_loop l idp id Null ((Layer (clear_bit m bm) ary c, m) :: pa) =
        Some (-1, set_top (plug (Layer (clear_bit m bm) ary c) pa) idp)).
      { destruct l; cbn [remove_loop plug set_ary]; by rewrite list_insert_id. }
      assert (Hsame : clear_bit m bm = bm).
      { apply Z.bits_inj'. intros i Hi. rewrite clear_bit_spec by lia. destruct (Z.eqb_spec i m) as [->|]; [by rewrite Hb | done]. }
      rewrite Hrun, Hsame. eexists _, _. split; [done|]. split; [|done]. split_and!; [by exists n | left; split; [done|] | done].
      apply plug_wf with id; [done | | done]. destruct (full (Layer bm ary c)) eqn:Ef; [|done].
      destruct (full_get (S (S l)) _ id Hw Ef) as [? Hs]. by rewrite Hg, get_null in Hs.
    + pose proof (clear_hole l bm ary c m child Hw Hd Hy (wf_nonnull _ _ Hwy)) as Hh.
      destruct (IH child ((Layer (clear_bit m bm) ary c, m) :: pa) Hwy) as (r & idp' & Hrun & Hrem & Er); [done | cbn; lia | done |].
      exists r, idp'. split; [done|]. split; [|done]. cbn [length] in Hrem. rewrite Nat.add_succ_r in Hrem.
      destruct Hrem as (Hs' & Hl' & Hg'). split_and!; [done | done |]. intros x. rewrite Hg'.
      cbn [plug set_ary]. rewrite list_insert_id by done. destruct (_ && _); [done|]. by apply (get_plug_same (S l)).
Qed.

(** ** The whole removal *)

Lemma free_spare_ok fuel idp n : spare idp n ->
  top (free_spare fuel idp) = top idp /\ layers (free_spare fuel idp) = layers idp /\ exists n', spare (free_spare fuel idp) n'.
Proof.
  revert idp n. induction fuel as [|fuel IH]; intros idp n Hsp; cbn [free_spare]; [split_and!; [done | done | by exists n]|].
  destruct (IDR_FREE_MAX <=? id_free_cnt idp); [|split_and!; [done | done | by exists n]].
  pose proof (alloc_layer_ok idp n Hsp) as Ha. destruct n as [|n]; [rewrite Ha; split_and!; [done | done | by exists 0%nat]|].
  destruct Ha as (idp1 & -> & Ht & Hl & Hsp1). destruct (IH idp1 n Hsp1) as (-> & -> & ?). done.
Qed.

Lemma lower_top bm ary p L M : tree_ok (Layer bm ary 1) (S L) M -> (1 <= L)%nat -> ary !! 0%nat = Some p -> p <> Null ->
  tree_ok p L M /\ length ary = 32%nat /\ forall i x, ary !! S i = Some x -> x = Null.
Proof.
  intros HT HL Hp Hne. pose proof (to_wf _ _ _ HT) as (Hlen & Hr & Hc & Hch). pose proof (to_layers _ _ _ HT).
  assert (Hnull : forall i x, ary !! S i = Some x -> x = Null).
  { intros i x Hx. apply (occupied_zero (<[0%nat := Null]> ary) (S i)); [|by rewrite list_lookup_insert_ne].
    rewrite (occupied_insert ary 0 p) by done. unfold one. destruct p; cbn; (done || lia). }
  split; [|done]. destruct (Hch 0%nat p ltac:(done) Hp) as [[?|Hwp] _]; [done|].
  pose proof (B_S L). pose proof (B_pos L).
  assert (Hget : forall x, 0 <= x < B (S L) -> M x = if x <? B L then get L p x else None).
  { intros x Hx. rewrite <- (to_get _ _ _ HT) by done. cbn [get].
    pose proof (id_split L x) as Es. rewrite (Z.div_small x (B (S L))) in Es by lia. pose proof (Z.mod_pos_bound x (B L)). pose proof (digit_range L x).
    destruct (Z.ltb_spec x (B L)).
    - replace (digit L x) with 0 by nia. change (Z.to_nat 0) with 0%nat. by rewrite Hp.
    - destruct (Z.to_nat (digit L x)) as [|i] eqn:Ei; [exfalso; assert (digit L x = 0) by lia; nia|].
      destruct (ary !! S i) as [y|] eqn:Ey; [|done]. rewrite (Hnull _ _ Ey). cbn. apply get_null. }
  split; [lia | done | |].
  - intros x Hx. rewrite Hget by lia. by rewrite (proj2 (Z.ltb_lt x (B L))) by lia.
  - intros x Hx. destruct (decide (B L <= x < B (S L))); [|apply (to_outside _ _ _ HT); lia].
    rewrite Hget by lia. by rewrite (proj2 (Z.ltb_ge x (B L))) by lia.
Qed.

Lemma ctx_ok_ext idp M M' n : (forall x, M x = M' x) -> ctx_ok idp M n -> ctx_ok idp M' n.
Proof.
  intros E [Hsp Hc]. split; [done|]. destruct Hc as [(? & ? & He)|HT]; [left; split_and!; [done | done | intros x; by rewrite <- E]|].
  right. destruct HT as [? ? Hg Ho]. split; [done | done | intros x Hx; by rewrite <- E, Hg | intros x Hx; by rewrite <- E, Ho].
Qed.

Lemma mask_id id : 0 <= id < 2 ^ 31 -> Z.land id MAX_ID_MASK = id.
Proof. intros H. change MAX_ID_MASK with (Z.ones 31). rewrite Z.land_ones by lia. by apply Z.mod_small. Qed.

(** The tree after the pointer has been taken out. *)
Lemma removed_ctx idp' L M id r : (1 <= L <= 7)%nat -> (forall x, x < 0 \/ B L <= x \/ 2 ^ 31 <= x -> M x = None) ->
  0 <= id < B L -> r = match M id with Some _ => 0 | None => -1 end ->
  (forall old, (forall x, 0 <= x < B L -> old x = M x) -> removed idp' L old id r -> exists n', ctx_ok idp' (upd M id None) n').
Proof.
  intros HL Hout Hid Er old Hold ((n' & Hsp) & Hcase & Hg). exists n'. split; [done|].
  assert (HM : forall x, 0 <= x < B L -> get L (top idp') x = upd M id None x).
  { intros x Hx. rewrite Hg, Hold by done. unfold upd. rewrite !Z.mod_small by done. subst r.
    destruct (M id) as [v|] eqn:E; cbn; [done|]. destruct (Z.eqb_spec x id) as [->|]; [done | done]. }
  assert (Hout' : forall x, x < 0 \/ B L <= x \/ 2 ^ 31 <= x -> upd M id None x = None).
  { intros x Hx. unfold upd. destruct (x =? id); [done | by apply Hout]. }
  destruct Hcase as [[Hl Hw]|(_ & Hl & Ht)].
  - right. rewrite Hl. by split.
  - left. split_and!; [done | done |]. intros x. destruct (decide (0 <= x < B L)); [by rewrite <- HM, Ht, get_null | apply Hout'; lia].
Qed.

Lemma idr_remove_ok idp M n id : ctx_ok idp M n -> 0 <= id < B (layers idp) -> id < 2 ^ 31 ->
  exists idp', idr_remove idp id = Some (match M id with Some _ => 0 | None => -1 end, idp') /\
    exists n', ctx_ok idp' (upd M id None) n'.
Proof.
  intros [Hsp Hcase] Hid H31. unfold idr_remove, sub_remove. rewrite mask_id by lia.
  destruct Hcase as [(Htop & Hlay & Hempty)|HT].
  { rewrite Htop, Hlay, Hempty. cbn [pred remove_loop mbind option_bind Z.eqb]. eexists. split; [done|]. exists n. split; [done|]. left.
    split_and!; [done | done |]. intros x. unfold upd. by destruct (x =? id). }
  pose proof (to_layers _ _ _ HT) as HL. set (L := layers idp) in *. assert (ES : L = S (pred L + length (@nil (node * Z)))) by (cbn; lia).
  destruct (remove_loop_ok (pred L) idp id (top idp) [] n) as (r & idp1 & Hrun & Hrem & Er);
    [replace (S (pred L)) with L by lia; apply HT | done | done | done |].
  rewrite <- ES in Hrem. cbn [plug] in Hrem. replace (S (pred L)) with L in Er by lia. rewrite (to_get _ _ _ HT) in Er by done. rewrite Hrun. cbn [mbind option_bind].
  destruct (removed_ctx idp1 L M id r HL (to_outside _ _ _ HT) Hid Er _ (to_get _ _ _ HT) Hrem) as [n1 Hctx1].
  rewrite <- Er. destruct (Z.eqb_spec r (-1)) as [->|Hr]; [exists idp1; split; [done | by exists n1]|].
  assert (r = 0) as -> by (by destruct (M id)).
  set (idp2 := match top idp1 with Layer _ _ _ => _ | _ => _ end).
  assert (H2 : exists n2, ctx_ok idp2 (upd M id None) n2).
  { subst idp2. destruct (top idp1) as [| |bm ary c] eqn:Et; [by exists n1..|].
    destruct (ary !! 0%nat) as [[| |bm0 ary0 c0]|] eqn:E0; [by exists n1..| |by exists n1].
    destruct (Z.eqb_spec c 1) as [->|]; [|by exists n1]. destruct (Nat.ltb_spec 1 (layers idp1)) as [Hl1|]; [|by exists n1]. cbn [andb].
    destruct Hctx1 as [Hsp1 [(? & _)|HT1]]; [congruence|]. rewrite Et in HT1. destruct (layers idp1) as [|L1] eqn:El; [lia|].
    destruct (lower_top bm ary _ L1 _ HT1 ltac:(lia) E0 ltac:(done)) as (HT2 & Hlen & Hnull).
    exists (S n1). split; [by apply (free_layer_ok idp1 n1 ary Hsp1) | right]. cbn [top layers free_layer]. rewrite El. exact HT2. }
  destruct H2 as [n2 [Hsp2 Hc2]]. destruct (free_spare_ok (Z.to_nat (id_free_cnt idp2)) idp2 n2 Hsp2) as (Ht & Hl & n3 & Hsp3).
  eexists. split; [done|]. exists n3. split; [done|]. by rewrite Ht, Hl.
Qed.

(** ** Search *)

Definition node_of (v : option Z) : node := match v with Some p => User p | None => Null end.

Lemma find_loop_ok k p id : p = Null \/ wf k p -> find_loop k p id = node_of (get k p id).
Proof.
  revert p. induction k as [|k IH]; intros p Hp.
  - destruct Hp as [-> |Hp]; [done | by destruct p].
  - destruct Hp as [-> |Hp]; [done|]. destruct p as [| |bm ary c]; [done..|]. destruct Hp as (Hlen & _ & _ & Hch).
    cbn [find_loop get]. rewrite shiftr_digit. destruct (lookup_digit ary k id Hlen) as [y Hy]. rewrite Hy. cbn.
    apply IH. by destruct (Hch _ y ltac:(done) Hy) as [? _].
Qed.

Lemma idr_find_ok idp M n id : ctx_ok idp M n -> 0 <= id < B (layers idp) -> id < 2 ^ 31 -> idr_find idp id = node_of (M id).
Proof.
  intros [_ Hcase] Hid H31. unfold idr_find. rewrite mask_id by lia. unfold IDR_BITS.
  assert (Hsh : Z.shiftr id (Z.of_nat (layers idp) * 5 + 5) = 0).
  { rewrite Z.shiftr_div_pow2 by lia. apply Z.div_small. pose proof (B_mono (layers idp) (S (layers idp)) ltac:(lia)) as HB.
    unfold B in HB at 2. replace (5 * Z.of_nat (S (layers idp))) with (Z.of_nat (layers idp) * 5 + 5) in HB by lia. lia. }
  rewrite Hsh, andb_false_r. destruct Hcase as [(Ht & Hl & He)|HT].
  - by rewrite Ht, Hl, He.
  - rewrite find_loop_ok by (right; apply HT). by rewrite (to_get _ _ _ HT).
Qed.

(** ** The public functions *)

Lemma idr_pre_get_ok avail idp n : spare idp n ->
  let idp' := idr_pre_get avail idp in
  top idp' = top idp /\ layers idp' = layers idp /\ exists n', spare idp' n' /\ ((n' < 13)%nat -> (avail < 14)%nat).
Proof.
  cbv zeta. intros Hsp.
  enough (H : top (idr_pre_get avail idp) = top idp /\ layers (idr_pre_get avail idp) = layers idp /\
    exists n', spare (idr_pre_get avail idp) n' /\ ((n' < 14)%nat -> (n + avail <= n')%nat)).
  { destruct H as (? & ? & n' & ? & ?). split_and!; [done | done | exists n'; split; [done | lia]]. }
  revert idp n Hsp. induction avail as [|avail IH]; intros idp n Hsp; cbn [idr_pre_get].
  all: destruct (Z.ltb_spec (id_free_cnt idp) IDR_FREE_MAX) as [Hlt|Hge].
  2, 4: split_and!; [done | done | exists n; split; [done|]; destruct Hsp as [_ Hc]; change IDR_FREE_MAX with 14 in Hge; lia].
  - split_and!; [done | done | exists n; split; [done | lia]].
  - destruct (IH (free_layer idp zero_layer) (S n)) as (Ht & Hl & n' & Hs & Hn).
    + apply free_layer_ok; [done | done | intros i x; apply (zero_null (S i))].
    + split_and!; [done | done | exists n'; split; [done | lia]].
Qed.

(** Ids are given out from [start] on: there is a free one in the tree, or the start is
    outside, or the tree is full. *)
Definition room (idp : idr_context) (M : Z -> option Z) (start : Z) : Prop :=
  (exists y, start <= y < B (layers idp) /\ M y = None) \/ B (layers idp) <= start \/
  (forall x, 0 <= x < B (layers idp) -> M x <> None).

Definition idr_ok (idp : idr_context) (m : gmap Z Z) : Prop := exists n, ctx_ok idp (fun x => m !! x) n.

(** What a request for a new id may answer, and the map after it. *)
Definition new_spec (m : gmap Z Z) (avail : nat) (start limit v : Z) : Prop :=
  (start <= v <= limit /\ m !! v = None /\ (forall x, start <= x < v -> m !! x <> None)) \/
  (v = -1 /\ ((forall x, start <= x <= limit -> x < 2 ^ 31 -> m !! x <> None) \/ (avail < 14)%nat)).

Definition new_next (m : gmap Z Z) (ptr v : Z) : gmap Z Z := if v =? -1 then m else <[v := ptr]> m.

(** The part that [idr_get_new] and [idr_get_new_above] share. *)
Lemma new_above_ok avail idp m ptr start limit : idr_ok idp m -> 0 <= start < 2 ^ 31 -> -1 <= limit ->
  room idp (fun x => m !! x) start ->
  exists v idp', idr_get_new_above avail idp ptr start limit = Some (v, idp') /\ new_spec m avail start limit v /\
    idr_ok idp' (new_next m ptr v).
Proof.
  intros (n & Hsp & Hc) Hst Hlim Hroom. unfold idr_get_new_above, idr_get_new_above_int.
  destruct (idr_pre_get_ok avail idp n Hsp) as (Ht & Hl & n1 & Hsp1 & Hn1). set (idp1 := idr_pre_get avail idp) in *.
  assert (Hctx : ctx_ok idp1 (fun x => m !! x) n1) by (split; [done|]; by rewrite Ht, Hl).
  assert (Hal : exists v idp', build_up (S MAX_LEVEL) ptr idp1 start = Some (v, idp') /\ allocated start ptr (fun x => m !! x) n1 v idp').
  { destruct Hroom as [?|[?|Hall]]; [apply build_once; rewrite ?Hl; auto..|].
    destruct (Z.lt_ge_cases start (B (layers idp))); [|apply build_once; rewrite ?Hl; auto].
    apply (build_full 6); rewrite ?Hl; (done || lia). }
  destruct Hal as (v & idp' & -> & Hal). cbn [mbind option_bind].
  destruct Hal as [(Hv & Hm & Hu & n2 & Hctx2)|(-> & (n2 & Hctx2) & Hnone)].
  - destruct (Z.ltb_spec limit v) as [Hgt|Hle].
    + assert (Hcap : v < B (layers idp')).
      { apply Z.nle_gt. intros Hge. destruct Hctx2 as [_ [(_ & _ & He)|HT]].
        - specialize (He v). unfold upd in He. by rewrite Z.eqb_refl in He.
        - pose proof (to_outside _ _ _ HT v ltac:(lia)) as He. unfold upd in He. by rewrite Z.eqb_refl in He. }
      destruct (idr_remove_ok idp' _ n2 v Hctx2) as (idp3 & -> & n3 & Hctx3); [lia | lia |]. cbn [mbind option_bind].
      exists (-1), idp3. split; [done|]. split.
      * right. split; [done|]. left. intros x Hx H31. apply Hu. lia.
      * exists n3. cbn. apply (ctx_ok_ext idp3 _ _ n3) with (2 := Hctx3). intros x. unfold upd. destruct (Z.eqb_spec x v) as [->|]; [by rewrite Hm | done].
    + exists v, idp'. split; [done|]. split; [left; split_and!; [lia.. | done | done]|].
      exists n2. unfold new_next. rewrite (proj2 (Z.eqb_neq v (-1))) by lia. apply (ctx_ok_ext idp' _ _ n2) with (2 := Hctx2).
      intros x. unfold upd. destruct (Z.eqb_spec x v) as [->|]; [by rewrite lookup_insert_eq | by rewrite lookup_insert_ne by congruence].
  - rewrite (proj2 (Z.ltb_ge limit (-1))) by lia. exists (-1), idp'. split; [done|]. split; [|by exists n2].
    right. split; [done|]. destruct Hnone as [Hu|Hu]; [left; intros x Hx H31; apply Hu; lia | right; auto].
Qed.

(** A full tree, or a free id. *)
Lemma room_zero idp m : idr_ok idp m -> room idp (fun x => m !! x) 0.
Proof.
  intros _. destruct (decide (Exists (fun i => m !! Z.of_nat i = None) (seq 0 (Z.to_nat (B (layers idp)))))) as [He|He].
  - left. apply Exists_exists in He as (i & Hi & Hn). apply elem_of_seq in Hi. exists (Z.of_nat i). split; [lia | done].
  - right. right. intros x Hx Hn. apply He, Exists_exists. exists (Z.to_nat x). split; [apply elem_of_seq; lia | by rewrite Z2Nat.id by lia].
Qed.

(** ** Runs *)

Inductive idr_op :=
  | Get_new (avail : nat) (ptr limit : Z)
  | Get_new_above (avail : nat) (ptr start limit : Z)
  | Find (id : Z)
  | Remove (id : Z).

Inductive answer := Number (v : Z) | Pointer (p : node).

Definition idr_run (idp : idr_context) (op : idr_op) : option (answer * idr_context) :=
  match op with
  | Get_new avail ptr limit => '(v, idp) ← idr_get_new avail idp ptr limit; Some (Number v, idp)
  | Get_new_above avail ptr start limit => '(v, idp) ← idr_get_new_above avail idp ptr start limit; Some (Number v, idp)
  | Find id => Some (Pointer (idr_find idp id), idp)
  | Remove id => '(r, idp) ← idr_remove idp id; Some (Number r, idp)
  end.

(** What the operations may be called with. Ids that are in use are always below the
    capacity of the tree. *)
Definition op_ok (idp : idr_context) (m : gmap Z Z) (op : idr_op) : Prop :=
  match op with
  | Get_new _ _ limit => -1 <= limit
  | Get_new_above _ _ start limit => 0 <= start < 2 ^ 31 /\ -1 <= limit /\ room idp (fun x => m !! x) start
  | Find id | Remove id => 0 <= id < B (layers idp) /\ id < 2 ^ 31
  end.

(** A finite map from ids to pointers. *)
Definition map_answer (m : gmap Z Z) (op : idr_op) (a : answer) : Prop :=
  match op, a with
  | Get_new avail _ limit, Number v => new_spec m avail 0 limit v
  | Get_new_above avail _ start limit, Number v => new_spec m avail start limit v
  | Find id, Pointer p => p = node_of (m !! id)
  | Remove id, Number r => r = match m !! id with Some _ => 0 | None => -1 end
  | _, _ => False
  end.

Definition map_next (m : gmap Z Z) (op : idr_op) (a : answer) : gmap Z Z :=
  match op, a with
  | Get_new _ ptr _, Number v => new_next m ptr v
  | Get_new_above _ ptr _ _, Number v => new_next m ptr v
  | Remove id, _ => delete id m
  | _, _ => m
  end.

Lemma idr_step_ok idp m op : idr_ok idp m -> op_ok idp m op ->
  exists a idp', idr_run idp op = Some (a, idp') /\ map_answer m op a /\ idr_ok idp' (map_next m op a).
Proof.
  intros Hok Hop. destruct op as [avail ptr limit | avail ptr start limit | id | id]; cbn [idr_run].
  - change (idr_get_new avail idp ptr limit) with (idr_get_new_above avail idp ptr 0 limit).
    destruct (new_above_ok avail idp m ptr 0 limit Hok ltac:(lia) Hop (room_zero idp m Hok)) as (v & idp' & -> & Hs & Hok').
    by exists (Number v), idp'.
  - destruct Hop as (Hst & Hlim & Hroom).
    destruct (new_above_ok avail idp m ptr start limit Hok Hst Hlim Hroom) as (v & idp' & -> & Hs & Hok'). by exists (Number v), idp'.
  - pose proof Hok as [n Hctx]. destruct Hop. rewrite (idr_find_ok idp _ n id Hctx) by done. eexists _, _. split; [done|]. by split.
  - pose proof Hok as [n Hctx]. destruct Hop. destruct (idr_remove_ok idp _ n id Hctx) as (idp' & -> & n' & Hctx'); [done | done |].
    eexists _, _. split; [done|]. split; [done|]. exists n'. apply (ctx_ok_ext idp' _ _ n') with (2 := Hctx').
    intros x. cbn [map_next]. unfold upd. destruct (Z.eqb_spec x id) as [->|]; [by rewrite lookup_delete_eq | by rewrite lookup_delete_ne by congruence].
Qed.

(** Sequences of operations from an empty tree, with the map beside it. *)
Inductive idr_runs : idr_context -> gmap Z Z -> Prop :=
  | runs_init : idr_runs idr_init ∅
  | runs_step idp m op a idp' :
      idr_runs idp m -> op_ok idp m op -> idr_run idp op = Some (a, idp') -> idr_runs idp' (map_next m op a).

Lemma runs_ok idp m : idr_runs idp m -> idr_ok idp m.
Proof.
  induction 1 as [|idp m op a idp' _ IH Hop Hrun].
  - exists 0%nat. split; [done|]. left. split_and!; [done | done | intros x; apply lookup_empty].
  - destruct (idr_step_ok idp m op IH Hop) as (a' & idp'' & Hrun' & _ & Hok). rewrite Hrun in Hrun'. by simplify_eq.
Qed.

(** C18. The radix tree implements a finite map: after every sequence of operations each
    further one returns and answers as the map does. A new id is the first one from the
    start on that is not in use, -1 is only returned if there is none up to the limit or
    less than 14 layers can be allocated, a pointer is found under its id until that is
    removed, and unused ids give nothing. The ids asked for must lie inside the tree,
    and a start must have a free id behind it there, or be outside, or the tree be
    full. *)
Theorem idr_refines idp m op : idr_runs idp m -> op_ok idp m op ->
  exists a idp', idr_run idp op = Some (a, idp') /\ map_answer m op a /\ idr_runs idp' (map_next m op a).
Proof.
  intros Hruns Hop. destruct (idr_step_ok idp m op (runs_ok idp m Hruns) Hop) as (a & idp' & Hrun & Ha & _).
  exists a, idp'. split_and!; [done | done | by apply runs_step with idp].
Qed.

(** Two ids, one far away, and a search. *)
Lemma idr_refines_witness :
  exists a1 t1 a2 t2, idr_run idr_init (Get_new 14 7 100) = Some (a1, t1) /\ a1 = Number 0 /\
    idr_run t1 (Get_new_above 14 8 5000 65535) = Some (a2, t2) /\ a2 = Number 5000 /\
    exists a3 t3, idr_run t2 (Find 5000) = Some (a3, t3) /\ a3 = Pointer (User 8).
Proof.
  destruct (idr_refines idr_init ∅ (Get_new 14 7 100) runs_init) as (a1 & t1 & Hr1 & Ha1 & Hs1); [cbn; lia|].
  vm_compute in Hr1. injection Hr1 as <- Ht1.
  destruct (idr_refines t1 {[0 := 7]} (Get_new_above 14 8 5000 65535) Hs1) as (a2 & t2 & Hr2 & Ha2 & Hs2).
  { split; [lia|]. split; [lia|]. right. left. rewrite <- Ht1. vm_compute. discriminate. }
  rewrite <- Ht1 in Hr2. vm_compute in Hr2. injection Hr2 as <- Ht2.
  destruct (idr_refines t2 (<[5000 := 8]> {[0 := 7]}) (Find 5000) Hs2) as (a3 & t3 & Hr3 & Ha3 & _).
  { rewrite <- Ht2. split; [vm_compute; split; [discriminate | reflexivity] | lia]. }
  exists (Number 0), t1, (Number 5000), t2. split; [rewrite <- Ht1; vm_compute; reflexivity|]. split; [reflexivity|].
  split; [rewrite <- Ht1, <- Ht2; vm_compute; reflexivity|]. split; [reflexivity|]. exists a3, t3. split; [exact Hr3|].
  destruct a3 as [|p]; [destruct Ha3|]. cbn [map_answer] in Ha3. rewrite Ha3. reflexivity.
Defined.

(** ** Observations *)

(** The answers of a list of operations. *)
Fixpoint answers (idp : idr_context) (ops : list idr_op) : list answer :=
  match ops with
  | [] => []
  | op :: ops => match idr_run idp op with Some (a, idp) => a :: answers idp ops | None => [] end
  end.

(** When the last ids of the tree are in use the walk begins again at the top with an id
    that is outside, and takes its lower digits for an id inside: the second request
    from 1023 on returns 1024 but uses the place of 0. Once the tree has grown the
    pointer is found under 0 and no longer under 1024, which cannot be removed. *)
Lemma above_misplaces :
  answers idr_init [Get_new_above 14 7 1023 5000; Get_new_above 14 8 1023 5000; Find 1024; Find 0;
                    Get_new_above 14 9 2000 5000; Find 1024; Find 0; Remove 1024] =
  [Number 1023; Number 1024; Pointer (User 8); Pointer (User 8); Number 2000; Pointer Null; Pointer (User 8); Number (-1)].
Proof. vm_compute. reflexivity. Qed.

(** The search compares the bits above one layer more than the tree has: 32 is found,
    and removed, as 0. *)
Lemma outside_is_found :
  answers idr_init [Get_new 14 7 100; Find 32; Remove 32; Find 0] = [Number 0; Pointer (User 7); Number 0; Pointer Null].
Proof. vm_compute. reflexivity. Qed.

(** A random id with the limit 1 divides by zero when 1 is in use. *)
Lemma random_limit_one : idr_get_new_random 14 5 5 idr_init 7 1 <> None /\
  (t ← snd <$> idr_get_new_random 14 5 5 idr_init 7 1; idr_get_new_random 14 5 5 t 7 1) = None.
Proof. split; [vm_compute; discriminate | vm_compute; reflexivity]. Qed.
